(* ===== verification/_CoqProject ===== *)
-Q . S2P
Prelude.v
GoStrings.v
GoPath.v
Types.v
Common.v
BpfRules.v
BpfRulesFacts.v
BpfRulesProps.v
BpfEnforcer.v
BpfEnforcerFacts.v
BpfEnforcerProps.v
AppArmor.v
AppArmorProps.v
SyscallParser.v
SyscallProps.v
AlertThrottle.v
RuntimeEnforcer.v
RuntimeProps.v
NsMap.v
NsMapProps.v
ProcessTree.v
SyscallNumbers.v
PolicyMatcher.v
PolicyMatcherProps.v
LogFeed.v
LogFeedProps.v
LogUpdate.v
EventLoop.v
EventLoopProps.v
PolicySpec.v
PolicySpecProps.v
Daemon.v
DaemonProps.v
Pods.v
PodsProps.v
Posture.v
PostureProps.v
PodEvents.v
PodEventsProps.v
Enforcement.v
EnforcementProps.v
GoSlices.v
Unorchestrated.v
UnorchestratedProps.v
Config.v
Backups.v
BackupsProps.v
Runtimes.v
RuntimesProps.v
RuntimeEventsProps.v
SELinux.v
SELinuxProps.v
SELinuxLabelProps.v
AppArmorEnforcer.v
AppArmorEnforcerProps.v
Presets.v
PresetsProps.v
StateAgent.v
Controller.v
ControllerProps.v
ControllerNodesProps.v
KubeApi.v
OperatorConfig.v
OperatorConfigProps.v
OperatorSettingsProps.v
OperatorObjects.v
OperatorNodes.v
OperatorObjectsProps.v
OperatorNodesProps.v
OperatorSync.v
OperatorSyncProps.v
OperatorTls.v
OperatorTlsProps.v
K8sHandler.v
Watchers.v
Lifecycle.v
LifecycleProps.v
ConfigProps.v
K8sHandlerProps.v
ProbeData.v
