(* ===== verification/Prelude.v ===== *)
(** * KubeArmor: a model of its policy enforcement, its system monitor and its operator

    KubeArmor watches the containers of a node and restricts what they may execute,
    open, send and do.  A daemon receives security policies, pods and container events; a
    runtime enforcer turns the policies of each container into rules of a Linux
    security module; a system monitor reads events from programs in the kernel, keeps
    track of containers and processes, and feeds alerts and logs to clients.  Two programs
    of the cluster go with the daemons of the nodes: an operator that deploys them and keeps
    their settings, and a controller that prepares pods for AppArmor.  This development
    models the Go code of these programs, component by component, as executable
    definitions, and proves what makes each of them correct.  Paths below are relative to
    [src/KubeArmor/], those of the last two groups of parts to [src/].  A file [X] holds the
    definitions of a component, [XProps] (or [XFacts], for lemmas only) what is proved; a
    small component has both in [X].

    ** Parts

    Shared:
    - [Prelude]: Go's panics ([Res]), iteration over Go maps ([GoRange]), loops as
      folds, machine integers, byte arrays and [copy].
    - [GoStrings], [GoPath]: the functions of [strings], [strconv] and [path/filepath]
      in use.  [GoSlices]: slices that share arrays.
    - [Types], [Common]: the structs of [types/types.go] and helpers of
      [common/common.go].
    - [Config] ([ConfigProps]): the machine as [common/common.go] reads it, and
      the settings made of flags, environment and file ([config/config.go]).  The defaults,
      settings that go together, and the one that is never read.

    The daemon ([core/]):
    - [PolicySpec]: from custom resources to policies ([CreateSecurityPolicy] of
      [kubeUpdate.go]).  No rule is left without an action, and filling is idempotent.
    - [Daemon]: the stored policies, the endpoints, and the handlers of policy events.
      What one event does to all endpoints, and the events that leave stale policies.
    - [Pods], [PodEvents]: endpoints of pods ([UpdateEndPointWithPod]), events of pods and
      nodes.  While namespaced policies and pods come and go, endpoints hold exactly the
      stored policies that apply ([PodsProps.endpoints_hold_their_policies]).
    - [Posture]: namespaces and the configuration map.  Endpoints have the postures that the
      annotations of their namespaces ask for, until a namespace loses its annotations.
    - [Unorchestrated], [Backups]: containers without Kubernetes
      ([unorchestratedUpdates.go], [policy/policy.go], [config/config.go]).  What a policy
      does to the endpoints, although copies of endpoints share arrays; the policies that
      requests leave in their backups are the ones in force after a restart; where the loop
      over the endpoints loses one.
    - [Runtimes] (with [RuntimesProps], [RuntimeEventsProps]): the handlers of Docker,
      containerd, CRI-O, NRI and of the OCI hooks.  The endpoint and the policies of a
      container that starts, and where the handlers differ.
    - [K8sHandler] ([K8sHandlerProps]): requests to Kubernetes ([k8sHandler.go]).  When the
      patch of annotations is JSON, read by a reader of JSON written for it, and what is
      sent for each kind of owner.
    - [Watchers]: the loops that wait for custom resources and read host policies
      ([kubeUpdate.go], [kvmAgent/kvmAgent.go]), run on what their turns find.  Which
      policies are handled, and when none is any more.
    - [Lifecycle] ([LifecycleProps]): start and end of the daemon ([kubeArmor.go],
      [NewFeeder], [main.go]) as the list of its actions.  One order, whatever fails; what
      was started is stopped; when the daemon crashes.
    - [ProbeData]: what [karmor probe] is told ([karmorprobedata.go]).
    - [Enforcement]: the node, the daemon on top of the feeder, the enforcer and the
      namespace maps.  After a policy event without an error the kernel holds, for every
      container of an enforced endpoint, the rules of exactly the endpoint's policies.

    The enforcers ([enforcer/], [presets/]):
    - [RuntimeEnforcer] ([RuntimeProps]): choice of the LSM and dispatch to it
      ([runtimeEnforcer.go]).  The [goto] machine ends, is the in-order search of the
      candidates, and a selected enforcer is never nil.
    - [BpfRules]: rule generation of the BPF-LSM enforcer ([bpflsm/rulesHandling.go],
      [rulesHelper.go]); [fresh_rules] is the first half of [UpdateContainerRules].  The
      kernel's walk over the prefixes of a path ([BpfRulesFacts.kernel_walk]) finds every
      directory rule of at most 64 bytes and no longer one, postures are whitelists exactly
      when an Allow rule exists, the order of Go's maps does not matter.
    - [BpfEnforcer]: that enforcer's state ([mapHelpers.go], the second half of
      [UpdateContainerRules], [hostRulesHandling.go], [enforcer.go]).  After an update
      without errors the kernel's map holds exactly the fresh rules: a refinement.
    - [AppArmor], [AppArmorEnforcer]: generation of AppArmor profiles
      ([appArmorProfile.go], [appArmorTemplate.go]) and their registration
      ([appArmorEnforcer.go]).  What a profile contains; after an update the files of an
      endpoint's profiles hold what was generated, and that is what is loaded.
    - [SELinux] ([SELinuxProps], [SELinuxLabelProps]): the host profile and the labels of
      files ([SELinuxHostProfile.go], [SELinuxEnforcer.go]).  Blocking rules win, the
      profile is parsed to the rules it was made of, labels follow the profile.
    - [Presets]: rules with kernel programs of their own.

    The monitor and the feeder ([monitor/], [feeder/]):
    - [SyscallParser] ([SyscallProps]), [SyscallNumbers]: decoding of the
      kernel's events ([syscallParser.go]): a round trip with the encoding, of which the
      last four bytes of an IPv6 address stay unread, safety on any buffer, and the one
      encoding that is rejected.
    - [NsMap]: containers by namespace key and the visibility of each ([processTree.go],
      [systemMonitor.go], [core/kubeUpdate.go]), a refinement of a plain map.
    - [ProcessTree]: processes by container and host identifier ([processTree.go]).
    - [EventLoop], [LogUpdate]: the event loop ([systemMonitor.go], [TraceSyscall]) and log
      records ([logUpdate.go]).  Start and end of an execution are paired; every log is
      accepted by the matcher.
    - [PolicyMatcher]: the rules of endpoints and the match of a log with them
      ([policyMatcher.go]).  The first deciding rule is the one reported; nothing panics.
    - [LogFeed]: delivery to subscribers ([feeder.go], [logServer.go]).  A blocked event
      of a container alerts every client with room; a client receives in order.
    - [AlertThrottle]: alert limits per container ([feeder.go]): at most [2 M - 1] alerts
      in any second, the length of the throttling period, no loss under the limit.
    - [StateAgent] ([state/]): containers and namespaces as clients of the state service
      see them.  Every client's view follows the containers that come, change and go.

    The controller ([pkg/KubeArmorController]):
    - [Controller] ([ControllerProps], [ControllerNodesProps]): the webhook that annotates
      pods and bindings ([handlers/pod_mutation.go], [common/common.go]), the watcher of
      nodes ([informer/nodewatcher.go]), and the reconciler that restarts pods without
      annotations ([podrefresh_controller.go]).  The daemon accepts what the webhook writes;
      which pods are restarted, and those that never are.

    The operator ([pkg/KubeArmorOperator]):
    - [KubeApi]: objects of Kubernetes behind requests that may be refused, as a class with
      its law, and servers that are maps.
    - [OperatorConfig] ([OperatorConfigProps], [OperatorSettingsProps]): the variables of
      [common/defaults.go], their updates from the custom resource and its handlers
      ([WatchConfigCrd] of [internal/controller/cluster.go]).  Resyncs settle, with the
      images of the resource and its entries of the configuration map, from which the daemon
      gets them;
      settings and arguments that are lost.
    - [OperatorObjects] ([OperatorObjectsProps]): the daemon set for a kind of node
      ([resources.go]) and the updates of running objects.  The labels that the snitch gives
      a node lead to a daemon set that selects it.
    - [OperatorNodes] ([OperatorNodesProps]): the snitch
      ([cmd/snitch-cmd/main.go], [enforcer/], [runtime/]) and the watcher of nodes.  While
      nodes keep their labels, and those of one daemon set are labelled alike, each is
      selected by a daemon set; what is lost when they do not.
    - [OperatorSync] ([OperatorSyncProps]): changes of the cluster: images, TLS, seccomp,
      the controller's deployment, the configuration map, the status, recommended
      policies. A new image reaches all daemon sets, recommended policies follow the
      settings, and updates of the controller can be taken back.
    - [OperatorTls] ([OperatorTlsProps]): certificates ([cert/certgen.go]) and the round
      that brings secrets and workloads to the TLS setting, which it does from any state.

    ** How they interact

    A record of the kernel goes through [EventLoop] (with [SyscallParser], [NsMap],
    [ProcessTree]) to [LogUpdate], and the log through [LogFeed.PushLog] to
    [PolicyMatcher], [AlertThrottle] and the subscribers' queues.

    A resource goes through [PolicySpec] to [Daemon], and every change of an endpoint
    through the class [Backend] to what is below.  [Enforcement.node_backend] is the
    instance that calls [PolicyMatcher], [RuntimeEnforcer] and [NsMap].  [RuntimeEnforcer]
    dispatches to the enforcers through records of operations; [BPFEnforcer_ops],
    [AppArmorEnforcer_ops] and [SELinuxEnforcer_ops] make the components values of them.
    Pods reach the endpoints through [PodEvents] and [Pods], namespaces through [Posture],
    gRPC requests and backups through [Backups] and [Unorchestrated], containers through
    [Runtimes], which uses [Unorchestrated] for those without Kubernetes; what the
    daemon pushes to the state service of containers is in [StateAgent].  [Lifecycle] says
    when each of these parts is made and watched, with the settings of [Config] and the
    answers of [Config.Machine], [K8sHandler] and [Watchers.NewKVMAgent].  [K8sHandler.patch_backend] makes the
    patches the instance of the class through which [PodEvents] annotates owners, and
    [ConfigProps.reload_agrees] relates the settings to those that [Backups] reloads.

    The annotations of [Controller] are read by [PodEvents]
    ([ControllerProps.daemon_accepts_webhook]).  The operator's configuration map, made by
    [OperatorConfig] and written by [OperatorSync], is read by [Posture]
    ([OperatorSettingsProps.settings_reach_daemon]); [OperatorNodes] creates the daemon sets
    of [OperatorObjects], [OperatorSync] updates them with the variables of
    [OperatorConfig] ([OperatorSyncProps.images_follow_settings]).

    The class [EbpfMap] with its law [EbpfMapLaw] is what the kernel's maps promise;
    [BpfEnforcer], [RuntimeEnforcer], [NsMap] and [Presets] are written against it.  The
    class [NsKeyStore] separates the bookkeeping of [NsMap] from the kernel; its two
    instances are related by a simulation.  The operating system is behind [SELinuxHost]
    and [AppArmorHost], whose laws say what files and commands do.  Kubernetes is behind
    [KubeApi], whose law [KubeApiLaw] says what a request that succeeds or fails does, and
    [KubeApiUp] that none is refused.

    ** State, errors, order and bounds

    A method that changes its receiver is a function from state to state; a result that
    may be missing is an option, a panic is [Panic].  Logging is not modelled, except
    that the BPF enforcer records the errors it reports, so that theorems can speak of
    updates without errors.  Each method runs under its lock and is one step; events
    interleave as lists of operations.  Ranging over a Go map visits its entries in an
    arbitrary order: definitions take the order as an instance of [GoRange] and the
    theorems hold for every one with [GoRangeLaw].  Integers have their width where it
    matters: namespace identifiers, timestamps, counters and the integers of events.

    Fuel appears in few places.  [Itoa] has twenty digits, enough for 64 bits, and the
    groups of an IPv6 address have enough for sixteen bits in base sixteen.  The loop
    of the parser over string arrays has one more than the length of the buffer, since
    each turn reads at least one byte; matching of a path pattern has one more than the
    length of the pattern.  [selectLsm] has three steps for each element of its
    two lists and two more; [RuntimeProps.selectLsm_correct] proves that they suffice.  The
    search for the owner of a pod ends by [PodEventsProps.getTopLevelOwner_ends].  The
    replay of a record stops after its ten attempts as in the code.  The operator's backoff
    has five steps; it is a parameter that ends with the first attempt that is done.  The
    daemon waits for its node for sixty seconds, as in the code, and the reader of JSON has
    the length of its text ([K8sHandlerProps.patch_text_fuel]).

    ** Parameters

    What is not code of the repository is an argument: the order of map iteration, eBPF
    maps and their creation, the capability constants, the text template, regular
    expressions, the JSON codecs, [viper], durations and message authentication, the files
    and commands of the operating system,
    [/proc/<pid>/exe], the clock and the liveness of processes, the answers of Kubernetes
    and of the container runtimes, the capacity that a growing slice gets, and the
    outcome of an enforcer's initialisation.  Theorems that rely on them name what they
    rely on ([EbpfMapLaw], [GoRangeLaw], [BackendTotal], [PostureTotal], [CallsReturn],
    [SELinuxHostLaw], [AppArmorHostLaw], [KubeApiLaw], [KubeApiUp], [KubeApart],
    [KubeListLaw], [ViperDefaults], [ScaleLaw], [reliable], [steady]); their witnesses give
    concrete ones.

    ** Not modelled

    The programs in the kernel (C), the loading of eBPF objects and the ring buffer
    readers, start and end of the operator and the controller, the gRPC streams of the
    state agent, the daemon's certificates, the
    generated clients, the creation of the operator's service accounts, roles, services
    and secrets, and the parts of containers that it does not change, which are I/O,
    generated code or glue. *)
From Stdlib Require Export ZArith Lia.
From Stdlib Require Import Ascii.
From stdpp Require Export base gmap strings list option.

(** * Outcomes of Go code

    A Go function that may hit a nil dereference, an index out of range or a
    slice bound error panics; [Panic] is that outcome. *)

Inductive Res (A : Type) : Type :=
| Ok (a : A)
| Panic.
Arguments Ok {A} a.
Arguments Panic {A}.

#[export] Instance Res_bind : MBind Res := λ A B f m,
  match m with Ok a => f a | Panic => Panic end.
#[export] Instance Res_ret : MRet Res := λ A a, Ok a.
#[export] Instance Res_fmap : FMap Res := λ A B f m,
  match m with Ok a => Ok (f a) | Panic => Panic end.

Lemma Res_bind_Ok {A B} (f : A → Res B) (m : Res A) b :
  m ≫= f = Ok b → ∃ a, m = Ok a ∧ f a = Ok b.
Proof. destruct m; simpl; [eauto | discriminate]. Qed.

(** A loop that has panicked goes on panicking. *)
Lemma foldl_Panic {A C} (f : C → A → Res A) (l : list C) :
  foldl (λ r c, r ≫= f c) Panic l = Panic.
Proof. induction l; simpl; auto. Qed.

(** [go_res H] splits a hypothesis that says a bind succeeded. *)
Ltac go_res H :=
  let a := fresh "a" in let Ha := fresh "Ha" in
  apply Res_bind_Ok in H as (a & Ha & H).

(** Case analysis on every boolean test and match of a hypothesis or the goal. *)
Ltac case_bool :=
  match goal with
  | |- context [if ?b then _ else _] => destruct b eqn:?
  | H : context [if ?b then _ else _] |- _ => destruct b eqn:?
  end.

(** * Iteration over Go maps

    The order in which [range] visits a Go map is unspecified.  The model is
    parameterised by an order: any function that lists every entry of a map
    exactly once.  Theorems are proved for every such order. *)

Class GoRange := go_range : ∀ {K V : Type} `{Countable K}, gmap K V → list (K * V).

Class GoRangeLaw (R : GoRange) : Prop :=
  go_range_perm : ∀ {K V : Type} `{Countable K} (m : gmap K V),
    go_range m ≡ₚ map_to_list m.

(** The order used by witnesses. *)
Definition canonical_range : GoRange := λ K V _ _ m, map_to_list m.

Lemma canonical_range_law : GoRangeLaw canonical_range.
Proof. intros K V ? ? m. reflexivity. Qed.

Section range.
Context `{R : GoRange, !GoRangeLaw R}.
Context {K V : Type} `{Countable K}.
Implicit Types m : gmap K V.

Lemma elem_of_go_range m k v : (k, v) ∈ go_range m ↔ m !! k = Some v.
Proof. rewrite go_range_perm. apply elem_of_map_to_list. Qed.

Lemma NoDup_go_range m : NoDup (go_range m).*1.
Proof.
  assert ((go_range m).*1 ≡ₚ (map_to_list m).*1) as ->.
  { by rewrite go_range_perm. }
  apply NoDup_fst_map_to_list.
Qed.

Lemma list_to_map_go_range m : list_to_map (go_range m) = m.
Proof.
  transitivity (list_to_map (map_to_list m) : gmap K V);
    [|apply list_to_map_to_list].
  apply list_to_map_proper; [apply NoDup_go_range | apply go_range_perm].
Qed.

Lemma go_range_empty : go_range (∅ : gmap K V) = [].
Proof.
  apply Permutation_nil_r. rewrite go_range_perm. by rewrite map_to_list_empty.
Qed.
End range.

(** * Left folds *)

Section fold_lemmas.
Context {A B : Type}.

(** An invariant of a loop: holds initially, kept by each iteration. *)
Lemma foldl_inv (P : A → Prop) (f : A → B → A) (l : list B) a :
  P a → (∀ a b, b ∈ l → P a → P (f a b)) → P (foldl f a l).
Proof.
  revert a; induction l as [|b l IH]; intros a Ha Hf; simpl; [done|].
  apply IH; [apply Hf; [left|done] | intros; apply Hf; [by right|done]].
Qed.

(** Two loops over the same list keep a relation between their states. *)
Lemma foldl_rel {A' : Type} (P : A → A' → Prop) (f : A → B → A)
    (g : A' → B → A') (l : list B) a a' :
  P a a' → (∀ a a' b, b ∈ l → P a a' → P (f a b) (g a' b)) →
  P (foldl f a l) (foldl g a' l).
Proof.
  revert a a'; induction l as [|b l IH]; intros a a' Ha Hf; simpl; [done|].
  apply IH; [apply Hf; [left|done] | intros; apply Hf; [by right|done]].
Qed.

Lemma foldl_ext_in (f g : A → B → A) (l : list B) a :
  (∀ a b, b ∈ l → f a b = g a b) → foldl f a l = foldl g a l.
Proof.
  intros Hf. apply (foldl_rel (λ x y, x = y)); [done|].
  intros x y b Hb ->. by apply Hf.
Qed.

Lemma foldl_id (f : A → B → A) (l : list B) a :
  (∀ a b, b ∈ l → f a b = a) → foldl f a l = a.
Proof.
  intros Hf. apply (foldl_inv (λ x, x = a)); [done|]. intros x b Hb ->. eauto.
Qed.
End fold_lemmas.

Lemma Forall_elem {A} (P : A → Prop) (l : list A) x : Forall P l → x ∈ l → P x.
Proof. intros Hl. by apply list.Forall_forall. Qed.

(** Repeated insertion is a left-biased union, whatever the order. *)
Section insert_all.
Context {K V : Type} `{Countable K}.

Definition insert_all (l : list (K * V)) (m : gmap K V) : gmap K V :=
  foldl (λ m kv, <[kv.1 := kv.2]> m) m l.

Lemma insert_all_lookup_ne l m k :
  k ∉ l.*1 → insert_all l m !! k = m !! k.
Proof.
  intros Hk. unfold insert_all.
  apply (foldl_inv (λ m', m' !! k = m !! k)); [done|].
  intros m' [k' v'] Hin Hm'. simpl. rewrite lookup_insert_ne; [done|].
  intros ->. apply Hk. apply list_elem_of_fmap. by exists (k, v').
Qed.

Lemma insert_all_lookup l m k v :
  NoDup l.*1 → (k, v) ∈ l → insert_all l m !! k = Some v.
Proof.
  revert m. induction l as [|[k' v'] l IH]; intros m; [by intros _ ?%not_elem_of_nil|].
  intros [Hk Hnd]%list.NoDup_cons [Heq | Hin]%elem_of_cons; simpl.
  - simplify_eq. fold (insert_all l (<[k':=v']> m)).
    rewrite insert_all_lookup_ne; [|done]. apply lookup_insert_eq.
  - apply IH; done.
Qed.

Lemma insert_all_range `{R : GoRange, !GoRangeLaw R} (m1 m2 : gmap K V) :
  insert_all (go_range m1) m2 = m1 ∪ m2.
Proof.
  apply map_eq; intros k. rewrite lookup_union.
  destruct (m1 !! k) as [v|] eqn:Hk.
  - rewrite (insert_all_lookup _ _ k v).
    + by destruct (m2 !! k).
    + apply NoDup_go_range.
    + by apply elem_of_go_range.
  - rewrite insert_all_lookup_ne.
    + by destruct (m2 !! k).
    + intros ([k' v'] & -> & Hin)%list_elem_of_fmap.
      apply elem_of_go_range in Hin. simpl in Hk. congruence.
Qed.
End insert_all.

(** * Machine integers *)

Definition u8 (z : Z) : Z := z mod 2 ^ 8.
Definition u16 (z : Z) : Z := z mod 2 ^ 16.
Definition u32 (z : Z) : Z := z mod 2 ^ 32.
Definition u64 (z : Z) : Z := z mod 2 ^ 64.
(** Two's complement reading of a [w]-bit pattern. *)
Definition sext (w : Z) (z : Z) : Z :=
  let r := (z mod 2 ^ w)%Z in if (r <? 2 ^ (w - 1))%Z then r else (r - 2 ^ w)%Z.
Definition i8 : Z → Z := sext 8.
Definition i16 : Z → Z := sext 16.
Definition i32 : Z → Z := sext 32.
Definition i64 : Z → Z := sext 64.

Lemma u64_bound z : (0 ≤ u64 z < 2 ^ 64)%Z.
Proof. unfold u64. apply Z.mod_pos_bound. lia. Qed.

Lemma u64_small z : (0 ≤ z < 2 ^ 64)%Z → u64 z = z.
Proof. intros. unfold u64. by apply Z.mod_small. Qed.

Lemma sext_range w z : (0 < w)%Z → (- 2 ^ (w - 1) ≤ sext w z < 2 ^ (w - 1))%Z.
Proof.
  intros Hw. unfold sext.
  assert (2 ^ w = 2 * 2 ^ (w - 1))%Z as E.
  { rewrite <- Z.pow_succ_r by lia. f_equal. lia. }
  pose proof (Z.mod_pos_bound z (2 ^ w) ltac:(lia)).
  destruct (Z.ltb_spec (z mod 2 ^ w) (2 ^ (w - 1))); lia.
Qed.

Lemma sext_small w z :
  (0 < w)%Z → (- 2 ^ (w - 1) ≤ z < 2 ^ (w - 1))%Z → sext w z = z.
Proof.
  intros Hw Hz. unfold sext.
  assert (2 ^ w = 2 * 2 ^ (w - 1))%Z as E.
  { rewrite <- Z.pow_succ_r by lia. f_equal. lia. }
  destruct (decide (0 ≤ z)%Z).
  - rewrite Z.mod_small by lia. destruct (Z.ltb_spec z (2 ^ (w - 1))); lia.
  - assert (z mod 2 ^ w = z + 2 ^ w)%Z as ->.
    { symmetry. apply Zmod_unique with (q := (-1)%Z); lia. }
    destruct (Z.ltb_spec (z + 2 ^ w) (2 ^ (w - 1))); lia.
Qed.

(** * Byte arrays and [copy] *)

Abbreviation byte_list := (list ascii).

Definition nul : ascii := Ascii.zero.

(** [copy(dst[:], src)] of Go on a fixed-size array: the first bytes of [src]
    overwrite a prefix of [dst], the rest of [dst] keeps its contents. *)
Definition go_copy (dst src : byte_list) : byte_list :=
  take (length dst) src ++ drop (length src) dst.

Lemma go_copy_length dst src : length (go_copy dst src) = length dst.
Proof. unfold go_copy. rewrite length_app, length_take, length_drop. lia. Qed.

Definition nul_free (s : byte_list) : Prop := nul ∉ s.

#[export] Instance nul_free_dec s : Decision (nul_free s).
Proof. unfold nul_free. apply _. Defined.

(** A NUL-terminated reading of a byte array. *)
Fixpoint cstr (s : byte_list) : byte_list :=
  match s with
  | [] => []
  | c :: s' => if decide (c = nul) then [] else c :: cstr s'
  end.

Lemma cstr_app_nul s n : nul_free s → cstr (s ++ replicate n nul) = s.
Proof.
  unfold nul_free. induction s as [|c s IH]; simpl; intros Hs.
  - by destruct n.
  - apply not_elem_of_cons in Hs as [Hc Hs].
    rewrite decide_False by congruence. f_equal. by apply IH.
Qed.

Lemma go_copy_zeros n s :
  length s ≤ n → go_copy (replicate n nul) s = s ++ replicate (n - length s) nul.
Proof.
  intros Hn. unfold go_copy. rewrite length_replicate, take_ge by lia.
  by rewrite drop_replicate.
Qed.

(** A NUL-free string that fits is recovered from its array. *)
Lemma cstr_go_copy_zeros n s :
  length s ≤ n → nul_free s → cstr (go_copy (replicate n nul) s) = s.
Proof. intros Hn Hs. rewrite go_copy_zeros by done. by apply cstr_app_nul. Qed.

Lemma go_copy_zeros_inj n s1 s2 :
  length s1 ≤ n → length s2 ≤ n → nul_free s1 → nul_free s2 →
  go_copy (replicate n nul) s1 = go_copy (replicate n nul) s2 → s1 = s2.
Proof.
  intros ??? ? Heq. apply (f_equal cstr) in Heq.
  by rewrite !cstr_go_copy_zeros in Heq.
Qed.

(** * Proof automation *)

Create HintDb go discriminated.
Create Rewrite HintDb go.
#[export] Hint Resolve go_copy_length NoDup_go_range u64_bound : go.
#[export] Hint Rewrite @go_copy_length : go.
