(* ===== verification/GoStrings.v ===== *)
(** Go's [strings], [strconv] and [path/filepath] functions used by the
    program, over [String.string] read as a sequence of bytes.

    [ToUpper] and [ToLower] act on ASCII letters, which is what Go does on the
    keywords, protocol names and capability names the program passes to them;
    other bytes are left alone.  Separators are the ASCII characters the
    program uses. *)
From Stdlib Require Import Ascii String.
From S2P Require Import Prelude.

Open Scope string_scope.
Open Scope nat_scope.
Open Scope list_scope.

#[global] Arguments String.append !_ _ / : simpl nomatch.

Abbreviation bytes_of := String.list_ascii_of_string.
Abbreviation of_bytes := String.string_of_list_ascii.

Definition slash : ascii := "/".

(** ** strings.Split with a one-character separator, strings.Join *)

Fixpoint split (sep : ascii) (s : string) : list string :=
  match s with
  | EmptyString => [""]
  | String c s' =>
      if Ascii.eqb c sep then "" :: split sep s'
      else match split sep s' with
           | [] => [String c ""]
           | h :: t => String c h :: t
           end
  end.

Fixpoint join (sep : string) (l : list string) : string :=
  match l with
  | [] => ""
  | [x] => x
  | x :: l' => x +:+ sep +:+ join sep l'
  end.

(** ** strings.HasPrefix, HasSuffix, Contains, Count, Index *)

Definition HasPrefix (s p : string) : bool := String.prefix p s.

Arguments HasPrefix : simpl never.

Definition HasSuffix (s p : string) : bool :=
  bool_decide (String.length p ≤ String.length s) &&
  bool_decide (String.substring (String.length s - String.length p) (String.length p) s = p).

(** strings.TrimPrefix, TrimSuffix *)
Definition TrimPrefix (s p : string) : string :=
  if HasPrefix s p
  then String.substring (String.length p) (String.length s - String.length p) s else s.
Definition TrimSuffix (s p : string) : string :=
  if HasSuffix s p then String.substring 0 (String.length s - String.length p) s else s.

Fixpoint Contains (s sub : string) : bool :=
  HasPrefix s sub ||
  match s with EmptyString => false | String _ s' => Contains s' sub end.

Fixpoint CountChar (c : ascii) (s : string) : nat :=
  match s with
  | EmptyString => 0
  | String d s' => (if Ascii.eqb d c then 1 else 0) + CountChar c s'
  end.

Fixpoint IndexChar (c : ascii) (s : string) : option nat :=
  match s with
  | EmptyString => None
  | String d s' => if Ascii.eqb d c then Some 0 else S <$> IndexChar c s'
  end.

(** ** strings.ToUpper, strings.ToLower *)

Definition upper_char (c : ascii) : ascii :=
  let n := nat_of_ascii c in
  if bool_decide (97 ≤ n ≤ 122) then ascii_of_nat (n - 32) else c.
Definition lower_char (c : ascii) : ascii :=
  let n := nat_of_ascii c in
  if bool_decide (65 ≤ n ≤ 90) then ascii_of_nat (n + 32) else c.

Fixpoint map_string (f : ascii → ascii) (s : string) : string :=
  match s with EmptyString => "" | String c s' => String (f c) (map_string f s') end.

Definition ToUpper : string → string := map_string upper_char.
Definition ToLower : string → string := map_string lower_char.

(** ** strings.TrimRight(s, cutset) with a one-character cutset *)

Fixpoint TrimRight (c : ascii) (s : string) : string :=
  match s with
  | EmptyString => ""
  | String d s' =>
      match TrimRight c s' with
      | EmptyString => if Ascii.eqb d c then "" else String d ""
      | r => String d r
      end
  end.

(** ** strconv.Itoa *)

Definition digit (d : Z) : ascii := ascii_of_nat (48 + Z.to_nat d).

Fixpoint digits (fuel : nat) (z : Z) (acc : string) : string :=
  match fuel with
  | O => acc
  | S fuel' =>
      let acc' := String (digit (z mod 10)) acc in
      if (z <? 10)%Z then acc' else digits fuel' (z / 10) acc'
  end.

(** Twenty digits are enough for every 64-bit integer. *)
Definition Itoa (z : Z) : string :=
  if (z <? 0)%Z then String "-" (digits 20 (- z) "") else digits 20 z "".

(** ** Lemmas *)

Lemma string_app_assoc (a b c : string) : (a +:+ b) +:+ c = a +:+ (b +:+ c).
Proof. induction a; simpl; congruence. Qed.

Lemma string_app_nil_r (a : string) : a +:+ "" = a.
Proof. induction a; simpl; congruence. Qed.

Lemma string_app_length (a b : string) :
  String.length (a +:+ b) = String.length a + String.length b.
Proof. induction a; simpl; congruence. Qed.

Lemma bytes_of_app (a b : string) : bytes_of (a +:+ b) = bytes_of a ++ bytes_of b.
Proof. induction a; simpl; congruence. Qed.

Lemma bytes_of_length (a : string) : List.length (bytes_of a) = String.length a.
Proof. induction a; simpl; congruence. Qed.

Lemma bytes_of_inj (a b : string) : bytes_of a = bytes_of b → a = b.
Proof.
  intros H. rewrite <- (String.string_of_list_ascii_of_string a).
  rewrite H. apply String.string_of_list_ascii_of_string.
Qed.

Lemma split_not_nil sep s : split sep s ≠ [].
Proof.
  destruct s as [|c s]; simpl; [done|].
  destruct (Ascii.eqb c sep); [done|]. by destruct (split sep s).
Qed.

Lemma split_cons sep s : ∃ h t, split sep s = h :: t.
Proof. destruct (split sep s) eqn:E; [by apply split_not_nil in E | eauto]. Qed.

Lemma join_cons sep x l : l ≠ [] → join sep (x :: l) = x +:+ sep +:+ join sep l.
Proof. by destruct l. Qed.

(** Splitting and joining with the same separator is the identity. *)
Lemma join_split c s : join (String c "") (split c s) = s.
Proof.
  induction s as [|d s IH]; simpl; [done|].
  destruct (Ascii.eqb_spec d c) as [->|Hne].
  - rewrite join_cons by apply split_not_nil. simpl. by rewrite IH.
  - destruct (split_cons c s) as (h & t & E). rewrite E in IH |- *.
    destruct t; simpl in *; by rewrite <- IH.
Qed.

Fixpoint char_in (c : ascii) (s : string) : bool :=
  match s with EmptyString => false | String d s' => Ascii.eqb d c || char_in c s' end.

Lemma char_in_app c (a b : string) : char_in c (a +:+ b) = char_in c a || char_in c b.
Proof. induction a as [|d a IH]; [done|]. simpl. by rewrite IH, orb_assoc. Qed.

Lemma split_no_sep c s : char_in c s = false → split c s = [s].
Proof.
  induction s as [|d s IH]; simpl; [done|].
  intros [Hd Hs]%orb_false_elim. rewrite Hd, IH by done. done.
Qed.

(** No component of a split contains the separator. *)
Lemma split_components c s x : x ∈ split c s → char_in c x = false.
Proof.
  revert x. induction s as [|d s IH]; simpl; intros x.
  - by intros ->%list_elem_of_singleton.
  - destruct (Ascii.eqb d c) eqn:Hd.
    + intros [->|Hx]%elem_of_cons; [done|eauto].
    + destruct (split_cons c s) as (h & t & E). rewrite E in IH |- *.
      intros [->|Hx]%elem_of_cons; simpl.
      * rewrite Hd. apply IH. left.
      * apply IH. by right.
Qed.

Lemma split_length c s : List.length (split c s) = S (CountChar c s).
Proof.
  induction s as [|d s IH]; simpl; [done|].
  destruct (Ascii.eqb d c); simpl; [by rewrite IH|].
  destruct (split_cons c s) as (h & t & E). by rewrite E in IH |- *.
Qed.

(** Splitting a concatenation at a separator. *)
Lemma split_app_sep c a b :
  split c (a +:+ String c b) = split c a ++ split c b.
Proof.
  induction a as [|d a IH]; simpl.
  - by rewrite Ascii.eqb_refl.
  - destruct (Ascii.eqb d c); simpl; [by rewrite IH|]. rewrite IH.
    destruct (split_cons c a) as (h & t & ->). done.
Qed.

Lemma split_join c l :
  l ≠ [] → Forall (λ x, char_in c x = false) l → split c (join (String c "") l) = l.
Proof.
  induction l as [|x l IH]; intros Hne Hl; [done|].
  apply list.Forall_cons in Hl as [Hx Hl]. destruct l as [|y l].
  - by apply split_no_sep.
  - rewrite join_cons by done. simpl.
    rewrite split_app_sep, split_no_sep by done. f_equal. by apply IH.
Qed.

Lemma HasPrefix_app s p : HasPrefix s p = true ↔ ∃ r, s = p +:+ r.
Proof.
  unfold HasPrefix. revert s. induction p as [|c p IH]; intros s; simpl.
  - split; [eauto|]. by destruct s.
  - destruct s as [|d s]; simpl.
    + split; [done|]. by intros [r ?].
    + destruct (ascii_dec c d) as [->|Hne].
      * rewrite IH. split; intros [r Hr]; exists r; congruence.
      * split; [done|]. intros [r Hr]. congruence.
Qed.

Lemma Contains_app s sub : Contains s sub = true ↔ ∃ a b, s = a +:+ sub +:+ b.
Proof.
  induction s as [|d s IH]; simpl; rewrite orb_true_iff, HasPrefix_app.
  - split.
    + intros [[r Hr]|?]; [|done]. exists "", r. done.
    + intros (a & b & Hab). destruct a; [|done]. left. eauto.
  - rewrite IH. split.
    + intros [[r Hr]|(a & b & ->)]; [by exists "", r | by exists (String d a), b].
    + intros (a & b & Hab). destruct a as [|e a]; simpl in Hab.
      * left; eauto.
      * right. simplify_eq. eauto.
Qed.

(** ** strings.TrimSpace and bufio.Scanner over lines *)

(** The ASCII white space of [unicode.IsSpace]. *)
Definition is_space (c : ascii) : bool :=
  let n := nat_of_ascii c in bool_decide (n = 32 ∨ 9 ≤ n ≤ 13).

Fixpoint trim_left (s : string) : string :=
  match s with
  | EmptyString => ""
  | String c s' => if is_space c then trim_left s' else s
  end.
Fixpoint trim_right (s : string) : string :=
  match s with
  | EmptyString => ""
  | String c s' =>
      match trim_right s' with
      | EmptyString => if is_space c then "" else String c ""
      | r => String c r
      end
  end.
Definition TrimSpace (s : string) : string := trim_right (trim_left s).

(** [strings.Fields], for ASCII: the runs without white space; [word] is the one that is
    being read, its characters in order. *)
Fixpoint fields_from (word s : string) : list string :=
  match s with
  | EmptyString => if String.eqb word "" then [] else [word]
  | String c s' =>
      if is_space c then (if String.eqb word "" then [] else [word]) ++ fields_from "" s'
      else fields_from (word +:+ String c "") s'
  end.
Definition Fields (s : string) : list string := fields_from "" s.

Definition newline : ascii := ascii_of_nat 10.
Definition carriage_return : ascii := ascii_of_nat 13.

(** [bufio.ScanLines]: the lines without their end; a final empty line is not a
    token; a line that does not fit the 64 KiB buffer ends the scan. *)
Fixpoint scan_tokens (lines : list string) : list string :=
  match lines with
  | [] => []
  | [""] => []
  | l :: rest =>
      if (65536 <=? Z.of_nat (String.length l))%Z then []
      else (if HasSuffix l (String carriage_return "")
            then String.substring 0 (String.length l - 1) l else l) :: scan_tokens rest
  end.
Definition scan_lines (s : string) : list string := scan_tokens (split newline s).

(** ** Prefixes of a path at its separators *)

Lemma join_take_split a b :
  join "/" (take (List.length (split slash a)) (split slash (a +:+ "/" +:+ b))) = a.
Proof.
  replace (a +:+ "/" +:+ b) with (a +:+ String slash b) by done.
  rewrite split_app_sep, take_app_length. apply (join_split slash).
Qed.

Lemma join_app sep l1 l2 :
  l1 ≠ [] → l2 ≠ [] → join sep (l1 ++ l2) = join sep l1 +:+ sep +:+ join sep l2.
Proof.
  intros H1 H2. induction l1 as [|x l1 IH]; [done|]. destruct l1 as [|y l1].
  - simpl. by destruct l2.
  - change ((x :: y :: l1) ++ l2)%list with (x :: ((y :: l1) ++ l2)).
    rewrite join_cons by done. rewrite IH by done. rewrite (join_cons sep x) by done.
    by rewrite !string_app_assoc.
Qed.

(** The hints of [p] are its proper prefixes that end in a slash. *)
Lemma take_split_prefix p i :
  1 ≤ i → i < List.length (split slash p) →
  p = join "/" (take i (split slash p)) +:+ "/" +:+ join "/" (drop i (split slash p)).
Proof.
  intros H1 H2. rewrite <- (join_split slash p) at 1.
  rewrite <- (take_drop i (split slash p)) at 1. change (String slash "") with "/".
  apply join_app; intros Hnil%(f_equal List.length);
    rewrite ?length_take, ?length_drop in Hnil; simpl in Hnil; lia.
Qed.

Lemma string_app_inj_r (a b c : string) : a +:+ c = b +:+ c → a = b.
Proof.
  intros H%(f_equal (λ s, bytes_of s)). rewrite !bytes_of_app in H.
  apply bytes_of_inj. by simplify_list_eq.
Qed.

Lemma char_in_split s : char_in slash s = false ↔ List.length (split slash s) = 1.
Proof.
  rewrite split_length. induction s as [|d s IH]; simpl; [done|].
  destruct (Ascii.eqb d slash); simpl; [split; [done|lia]|]. exact IH.
Qed.

Lemma Contains_slash s : Contains s "/" = char_in slash s.
Proof.
  apply eq_true_iff_eq. rewrite Contains_app. induction s as [|d s IH].
  - split; [|done]. intros (a & b & H). by destruct a.
  - simpl. rewrite orb_true_iff, <- IH. split.
    + intros (a & b & H). destruct a as [|e a]; simpl in H; simplify_eq.
      * left. apply Ascii.eqb_refl.
      * right. eauto.
    + intros [->%Ascii.eqb_eq|(a & b & ->)]; [by exists "", s|by exists (String d a), b].
Qed.
