(* ===== verification/GoPath.v ===== *)
(** Go's [path/filepath] on Unix: [Clean], [Dir] and [Match], and the decoding of
    UTF-8 that [Match] needs, as the standard library defines them. *)
From Stdlib Require Import Ascii String.
From S2P Require Import Prelude GoStrings.

Open Scope string_scope.
Open Scope list_scope.

(** ** Clean and Dir *)

(** One component of the path; the stack holds the components kept, last first. *)
Definition clean_step (rooted : bool) (stack : list string) (c : string) : list string :=
  if String.eqb c "" || String.eqb c "." then stack
  else if String.eqb c ".." then
    match stack with
    | top :: stack' => if String.eqb top ".." then c :: stack else stack'
    | [] => if rooted then [] else [c]
    end
  else c :: stack.

Definition Clean (path : string) : string :=
  let rooted := HasPrefix path "/" in
  let out := join "/" (rev (foldl (clean_step rooted) [] (split slash path))) in
  if rooted then "/" +:+ out else if String.eqb out "" then "." else out.

(** Everything up to and including the last slash. *)
Fixpoint dir_prefix (path : string) : string :=
  match path with
  | EmptyString => ""
  | String c path' =>
      match dir_prefix path' with
      | EmptyString => if Ascii.eqb c slash then "/" else ""
      | d => String c d
      end
  end.

Definition Dir (path : string) : string := Clean (dir_prefix path).

(** [filepath.Join(a, b)] *)
Definition Join (a b : string) : string :=
  if String.eqb a "" then if String.eqb b "" then "" else Clean b
  else Clean (a +:+ "/" +:+ b).

(** ** utf8.DecodeRune *)

Definition RuneError : Z := 65533.

Definition byte (c : ascii) : Z := Z.of_nat (nat_of_ascii c).
Definition within (lo hi : Z) (c : ascii) : bool := (lo <=? byte c)%Z && (byte c <=? hi)%Z.
Definition cont (c : ascii) : Z := Z.land (byte c) 63.

(** The rune at the start and its width; a byte that starts no valid encoding is
    [RuneError] of width one. *)
Definition DecodeRune (s : byte_list) : Z * nat :=
  match s with
  | [] => (RuneError, 0)
  | b0 :: s =>
      if within 0 127 b0 then (byte b0, 1)
      else if within 194 223 b0 then
        match s with
        | b1 :: _ =>
            if within 128 191 b1
            then (Z.lor (Z.shiftl (Z.land (byte b0) 31) 6) (cont b1), 2) else (RuneError, 1)
        | _ => (RuneError, 1)
        end
      else if within 224 239 b0 then
        match s with
        | b1 :: b2 :: _ =>
            if within (if byte b0 =? 224 then 160 else 128)%Z
                      (if byte b0 =? 237 then 159 else 191)%Z b1 && within 128 191 b2
            then (Z.lor (Z.shiftl (Z.land (byte b0) 15) 12)
                    (Z.lor (Z.shiftl (cont b1) 6) (cont b2)), 3)
            else (RuneError, 1)
        | _ => (RuneError, 1)
        end
      else if within 240 244 b0 then
        match s with
        | b1 :: b2 :: b3 :: _ =>
            if within (if byte b0 =? 240 then 144 else 128)%Z
                      (if byte b0 =? 244 then 143 else 191)%Z b1 &&
               within 128 191 b2 && within 128 191 b3
            then (Z.lor (Z.shiftl (Z.land (byte b0) 7) 18)
                    (Z.lor (Z.shiftl (cont b1) 12)
                       (Z.lor (Z.shiftl (cont b2) 6) (cont b3))), 4)
            else (RuneError, 1)
        | _ => (RuneError, 1)
        end
      else (RuneError, 1)
  end.

(** ** Match *)

Definition ch (n : nat) : ascii := ascii_of_nat n.
Definition star : ascii := ch 42.
Definition question : ascii := ch 63.
Definition dash : ascii := ch 45.
Definition lbrack : ascii := ch 91.
Definition backslash : ascii := ch 92.
Definition rbrack : ascii := ch 93.
Definition caret : ascii := ch 94.

(** [getEsc]: a possibly escaped character of a class; [None] is a bad pattern. *)
Definition getEsc (chunk : byte_list) : option (Z * byte_list) :=
  match chunk with
  | [] => None
  | c :: rest =>
      if Ascii.eqb c dash || Ascii.eqb c rbrack then None
      else
        let chunk := if Ascii.eqb c backslash then rest else chunk in
        match chunk with
        | [] => None
        | _ =>
            let '(r, n) := DecodeRune chunk in
            let nchunk := drop n chunk in
            if ((r =? RuneError)%Z && bool_decide (n = 1)) || bool_decide (nchunk = [])
            then None else Some (r, nchunk)
        end
  end.

(** The ranges of a class up to its closing bracket: whether [r] is in one of them.
    Each turn consumes a character, so the length of the chunk is enough fuel. *)
Fixpoint class_ranges (fuel : nat) (r : Z) (nrange : nat) (matched : bool)
    (chunk : byte_list) : option (bool * byte_list) :=
  match fuel with
  | O => None
  | S fuel =>
      if bool_decide (head chunk = Some rbrack) && bool_decide (0 < nrange)
      then Some (matched, tail chunk)
      else
        '(lo, chunk) ← getEsc chunk;
        '(hi, chunk) ← (if bool_decide (head chunk = Some dash) then getEsc (tail chunk)
                        else Some (lo, chunk));
        class_ranges fuel r (S nrange) (matched || ((lo <=? r) && (r <=? hi))%Z) chunk
  end.

(** [matchChunk]: [None] is a bad pattern, [Some None] a failed match, otherwise the
    rest of [s].  After a failure the chunk is still checked. *)
Fixpoint match_chunk (fuel : nat) (chunk s : byte_list) (failed : bool)
    : option (option byte_list) :=
  match fuel with
  | O => None
  | S fuel =>
      match chunk with
      | [] => Some (if failed then None else Some s)
      | c :: rest =>
          let failed := failed || bool_decide (s = []) in
          let literal (chunk : byte_list) :=
            match chunk with
            | [] => None
            | c :: rest =>
                if failed then match_chunk fuel rest s true
                else match_chunk fuel rest (tail s) (negb (bool_decide (head s = Some c)))
            end in
          if Ascii.eqb c lbrack then
            let '(r, n) := if failed then (0%Z, 0) else DecodeRune s in
            let s := drop n s in
            let negated := bool_decide (head rest = Some caret) in
            let rest := if negated then tail rest else rest in
            match class_ranges (S (List.length rest)) r 0 false rest with
            | None => None
            | Some (m, rest) => match_chunk fuel rest s (failed || Bool.eqb m negated)
            end
          else if Ascii.eqb c question then
            if failed then match_chunk fuel rest s true
            else match_chunk fuel rest (drop (DecodeRune s).2 s)
                   (bool_decide (head s = Some slash))
          else if Ascii.eqb c backslash then literal rest
          else literal chunk
      end
  end.

Definition matchChunk (chunk s : byte_list) : option (option byte_list) :=
  match_chunk (S (List.length chunk)) chunk s false.

(** [scanChunk]: leading stars, then everything up to the next star that is neither
    escaped nor in a class. *)
Fixpoint scan (inrange : bool) (p : byte_list) : byte_list * byte_list :=
  match p with
  | [] => ([], [])
  | c :: p' =>
      if Ascii.eqb c backslash then
        match p' with
        | [] => ([c], [])
        | d :: p'' => let '(a, b) := scan inrange p'' in (c :: d :: a, b)
        end
      else if Ascii.eqb c star && negb inrange then ([], p)
      else
        let '(a, b) := scan (if Ascii.eqb c lbrack then true
                             else if Ascii.eqb c rbrack then false else inrange) p' in
        (c :: a, b)
  end.

Fixpoint drop_stars (p : byte_list) : byte_list :=
  match p with c :: p' => if Ascii.eqb c star then drop_stars p' else p | [] => [] end.

Definition scanChunk (pattern : byte_list) : bool * byte_list * byte_list :=
  let has_star := bool_decide (head pattern = Some star) in
  let '(chunk, rest) := scan false (drop_stars pattern) in (has_star, chunk, rest).

(** The search after a star: skip one more byte, but never a slash. *)
Fixpoint skip_match (last : bool) (chunk name : byte_list) : option (option byte_list) :=
  match name with
  | [] => Some None
  | c :: name' =>
      if Ascii.eqb c slash then Some None
      else match matchChunk chunk name' with
           | None => None
           | Some (Some t) =>
               if last && bool_decide (t ≠ []) then skip_match last chunk name'
               else Some (Some t)
           | Some None => skip_match last chunk name'
           end
  end.

(** Each turn consumes a character of the pattern. *)
Fixpoint match_loop (fuel : nat) (pattern name : byte_list) : option bool :=
  match fuel with
  | O => None
  | S fuel =>
      match pattern with
      | [] => Some (bool_decide (name = []))
      | _ =>
          let '(has_star, chunk, rest) := scanChunk pattern in
          if has_star && bool_decide (chunk = [])
          then Some (negb (bool_decide (slash ∈ name)))
          else
            let last := bool_decide (rest = []) in
            match matchChunk chunk name with
            | None => None
            | Some r =>
                let r := match r with
                         | Some t => if last && bool_decide (t ≠ []) then None else Some t
                         | None => None
                         end in
                match r with
                | Some t => match_loop fuel rest t
                | None =>
                    if has_star then
                      match skip_match last chunk name with
                      | None => None
                      | Some (Some t) => match_loop fuel rest t
                      | Some None => Some false
                      end
                    else Some false
                end
            end
      end
  end.

(** [filepath.Match]; a bad pattern matches nothing. *)
Definition Match (pattern name : string) : bool :=
  let p := bytes_of pattern in default false (match_loop (S (List.length p)) p (bytes_of name)).


(** ** strings.ToValidUTF8 with an empty replacement *)

(** [keep] bytes of the current rune are still to be copied. *)
Fixpoint valid_from (keep : nat) (s : byte_list) : byte_list :=
  match s with
  | [] => []
  | c :: s' =>
      match keep with
      | S k => c :: valid_from k s'
      | O =>
          let '(r, w) := DecodeRune s in
          if (r =? RuneError)%Z && bool_decide (w = 1) then valid_from 0 s'
          else c :: valid_from (w - 1) s'
      end
  end.
Definition ToValidUTF8 (s : string) : string := of_bytes (valid_from 0 (bytes_of s)).

(** ** Clean absolute paths *)

(** A component that cleaning keeps. *)
Definition plain (c : string) : bool :=
  negb (String.eqb c "" || String.eqb c "." || String.eqb c ".." || char_in slash c).

Lemma plain_no_slash c : plain c = true → char_in slash c = false.
Proof. unfold plain. rewrite negb_true_iff. by intros [_ H]%orb_false_iff. Qed.

Lemma plain_not_empty c : plain c = true → c ≠ "".
Proof. by intros H ->. Qed.

Lemma plain_all_no_slash cs :
  Forall (λ c, plain c = true) cs → Forall (λ c, char_in slash c = false) cs.
Proof. intros H. eapply list.Forall_impl; [exact H|]. apply plain_no_slash. Qed.

(** The path with these components, and the directory with a final slash. *)
Definition abs_path (cs : list string) : string := join "/" ("" :: cs).
Definition abs_dir (cs : list string) : string := join "/" ("" :: cs ++ [""]).

Lemma split_abs_dir cs :
  Forall (λ c, plain c = true) cs → split slash (abs_dir cs) = "" :: cs ++ [""].
Proof.
  intros H%plain_all_no_slash. apply (split_join slash); [done|].
  constructor; [done|]. apply list.Forall_app. split; [done|]. by constructor.
Qed.

Lemma clean_plain stack cs :
  Forall (λ c, plain c = true) cs → foldl (clean_step true) stack cs = rev cs ++ stack.
Proof.
  intros H. revert stack. induction H as [|c cs Hc _ IH]; intros stack; [done|].
  cbn [foldl rev]. unfold plain in Hc. rewrite negb_true_iff, !orb_false_iff in Hc.
  destruct Hc as [[[H1 H2] H3] _]. unfold clean_step at 2. rewrite H1, H2, H3. cbn [orb].
  by rewrite IH, <- app_assoc.
Qed.

Lemma Clean_abs_dir cs :
  Forall (λ c, plain c = true) cs → Clean (abs_dir cs) = "/" +:+ join "/" cs.
Proof.
  intros H. unfold Clean. assert (HasPrefix (abs_dir cs) "/" = true) as ->.
  { apply HasPrefix_app. exists (join "/" (cs ++ [""])). unfold abs_dir.
    rewrite join_cons; [done|]. by destruct cs. }
  rewrite split_abs_dir by done. cbn [foldl]. rewrite foldl_app, (clean_plain _ cs) by done. cbn.
  by rewrite app_nil_r, rev_involutive.
Qed.

Lemma dir_prefix_slash a : dir_prefix (a +:+ "/") = a +:+ "/".
Proof. induction a as [|c a IH]; [done|]. cbn. rewrite IH. by destruct a. Qed.

Lemma dir_prefix_no_slash f : char_in slash f = false → dir_prefix f = "".
Proof.
  induction f as [|c f IH]; [done|]. cbn. intros [Hc Hf]%orb_false_iff. by rewrite IH, Hc.
Qed.

Lemma dir_prefix_app a f :
  char_in slash f = false → dir_prefix ((a +:+ "/") +:+ f) = a +:+ "/".
Proof.
  intros Hf. induction a as [|c a IH]; cbn; [by rewrite dir_prefix_no_slash|].
  rewrite IH. by destruct a.
Qed.

Lemma abs_dir_snoc cs : abs_dir cs = abs_path cs +:+ "/".
Proof.
  unfold abs_dir, abs_path. change ("" :: cs ++ [""]) with (("" :: cs) ++ [""]).
  by rewrite join_app.
Qed.

Lemma abs_path_snoc cs f : abs_path (cs ++ [f]) = abs_dir cs +:+ f.
Proof.
  rewrite abs_dir_snoc. unfold abs_path.
  change ("" :: cs ++ [f]) with (("" :: cs) ++ [f]). rewrite join_app by done.
  by rewrite string_app_assoc.
Qed.

(** The directory of a file: its components, with a slash in front. *)
Lemma Dir_abs cs f :
  Forall (λ c, plain c = true) cs → char_in slash f = false →
  Dir (abs_path (cs ++ [f])) = "/" +:+ join "/" cs.
Proof.
  intros Hcs Hf. unfold Dir. rewrite abs_path_snoc, abs_dir_snoc, dir_prefix_app by done.
  rewrite <- abs_dir_snoc. by apply Clean_abs_dir.
Qed.

(** One directory is above another exactly when its components are a prefix. *)
Lemma abs_dir_prefix cs ds :
  Forall (λ c, plain c = true) cs → Forall (λ c, plain c = true) ds →
  HasPrefix (abs_dir cs) (abs_dir ds) = bool_decide (ds `prefix_of` cs).
Proof.
  intros Hcs Hds. apply eq_true_iff_eq. rewrite HasPrefix_app, bool_decide_eq_true. split.
  - intros [r Hr]. assert (abs_dir ds +:+ r = abs_path ds +:+ String slash r) as E
      by (by rewrite abs_dir_snoc, string_app_assoc).
    rewrite E in Hr. apply (f_equal (split slash)) in Hr.
    rewrite split_abs_dir, split_app_sep in Hr by done.
    unfold abs_path in Hr. rewrite (split_join slash) in Hr;
      [|done|constructor; [done|by apply plain_all_no_slash]].
    cbn in Hr. injection Hr as Hr.
    destruct (exists_last (split_not_nil slash r)) as (k & x & Hk). rewrite Hk in Hr.
    rewrite app_assoc in Hr. apply app_inj_tail in Hr as [-> _]. by exists k.
  - intros [k ->]. exists (join "/" (k ++ [""])). rewrite (abs_dir_snoc ds), string_app_assoc.
    unfold abs_dir, abs_path. rewrite <- app_assoc.
    change ("" :: ds ++ k ++ [""]) with (("" :: ds) ++ (k ++ [""])).
    apply join_app; [done|]. by destruct k.
Qed.

Lemma abs_dir_depth cs :
  Forall (λ c, plain c = true) cs → CountChar slash (abs_dir cs) = S (List.length cs).
Proof.
  intros H. pose proof (split_length slash (abs_dir cs)) as E. rewrite split_abs_dir in E by done.
  cbn [List.length] in E. rewrite length_app in E. cbn [List.length] in E. lia.
Qed.
