(* ===== verification/Types.v ===== *)
(** The data of [KubeArmor/types/types.go] that several components share: policies,
    endpoints, postures and visibilities, one record per Go struct with the struct's
    fields, and the namespace key of the monitor and the enforcer.
    A field is written with the initials of its struct as a prefix. *)
From S2P Require Import Prelude GoStrings.

(** ** Security policies *)

Record MatchSourceType := { ms_Path : string }.

Record ProcessPathType := {
  ppt_Path : string; ppt_ExecName : string; ppt_OwnerOnly : bool;
  ppt_FromSource : list MatchSourceType; ppt_AllowedArgs : list string;
  ppt_Severity : Z; ppt_Tags : list string; ppt_Message : string; ppt_Action : string }.

Record ProcessDirectoryType := {
  pdt_Directory : string; pdt_Recursive : bool; pdt_OwnerOnly : bool;
  pdt_FromSource : list MatchSourceType;
  pdt_Severity : Z; pdt_Tags : list string; pdt_Message : string; pdt_Action : string }.

Record ProcessPatternType := {
  pat_Pattern : string; pat_OwnerOnly : bool;
  pat_Severity : Z; pat_Tags : list string; pat_Message : string; pat_Action : string }.

Record ProcessType := {
  pt_MatchPaths : list ProcessPathType;
  pt_MatchDirectories : list ProcessDirectoryType;
  pt_MatchPatterns : list ProcessPatternType;
  pt_Severity : Z; pt_Tags : list string; pt_Message : string; pt_Action : string }.

Record FilePathType := {
  fpt_Path : string; fpt_ReadOnly : bool; fpt_OwnerOnly : bool;
  fpt_FromSource : list MatchSourceType;
  fpt_Severity : Z; fpt_Tags : list string; fpt_Message : string; fpt_Action : string }.

Record FileDirectoryType := {
  fdt_Directory : string; fdt_ReadOnly : bool; fdt_Recursive : bool;
  fdt_OwnerOnly : bool; fdt_FromSource : list MatchSourceType;
  fdt_Severity : Z; fdt_Tags : list string; fdt_Message : string; fdt_Action : string }.

Record FilePatternType := {
  fpat_Pattern : string; fpat_ReadOnly : bool; fpat_OwnerOnly : bool;
  fpat_Severity : Z; fpat_Tags : list string; fpat_Message : string; fpat_Action : string }.

Record FileType := {
  ft_MatchPaths : list FilePathType;
  ft_MatchDirectories : list FileDirectoryType;
  ft_MatchPatterns : list FilePatternType;
  ft_Severity : Z; ft_Tags : list string; ft_Message : string; ft_Action : string }.

Record NetworkProtocolType := {
  npt_Protocol : string; npt_FromSource : list MatchSourceType;
  npt_Severity : Z; npt_Tags : list string; npt_Message : string; npt_Action : string }.

Record NetworkType := {
  nt_MatchProtocols : list NetworkProtocolType;
  nt_Severity : Z; nt_Tags : list string; nt_Message : string; nt_Action : string }.

Record CapabilitiesCapabilityType := {
  cct_Capability : string; cct_FromSource : list MatchSourceType;
  cct_Severity : Z; cct_Tags : list string; cct_Message : string; cct_Action : string }.

Record CapabilitiesType := {
  ct_MatchCapabilities : list CapabilitiesCapabilityType;
  ct_Severity : Z; ct_Tags : list string; ct_Message : string; ct_Action : string }.

Record SyscallFromSourceType := {
  sfs_Path : string; sfs_Dir : string; sfs_Recursive : bool }.

Record SyscallMatchType := {
  smt_Syscalls : list string; smt_FromSource : list SyscallFromSourceType;
  smt_Severity : Z; smt_Tags : list string; smt_Message : string }.

Record SyscallMatchPathType := {
  smpt_Path : string; smpt_Recursive : bool; smpt_Syscalls : list string;
  smpt_FromSource : list SyscallFromSourceType;
  smpt_Severity : Z; smpt_Tags : list string; smpt_Message : string }.

Record SyscallsType := {
  st_MatchSyscalls : list SyscallMatchType;
  st_MatchPaths : list SyscallMatchPathType;
  st_Severity : Z; st_Tags : list string; st_Message : string }.

Record PresetType := { pr_Name : string; pr_Action : string }.

Record MatchExpressionType := {
  mx_Key : string; mx_Operator : string; mx_Values : list string }.

Record SelectorType := {
  sel_MatchLabels : gmap string string;
  sel_MatchExpressions : list MatchExpressionType;
  sel_Containers : list string;
  sel_Identities : list string;
  sel_MatchExpIdentities : list string;
  sel_NonIdentities : list string;
  sel_NamespaceList : list string }.

Record SecuritySpec := {
  ss_Selector : SelectorType;
  ss_Process : ProcessType; ss_File : FileType; ss_Network : NetworkType;
  ss_Capabilities : CapabilitiesType; ss_Syscalls : SyscallsType;
  ss_Presets : list PresetType;
  ss_AppArmor : string;
  ss_Severity : Z; ss_Tags : list string; ss_Message : string; ss_Action : string }.

Record SecurityPolicy := {
  sp_Metadata : gmap string string; sp_Spec : SecuritySpec }.

Record NodeSelectorType := {
  nsel_MatchLabels : gmap string string; nsel_Identities : list string }.

Record HostSecuritySpec := {
  hs_NodeSelector : NodeSelectorType;
  hs_Process : ProcessType; hs_File : FileType; hs_Network : NetworkType;
  hs_Capabilities : CapabilitiesType; hs_Syscalls : SyscallsType;
  hs_AppArmor : string;
  hs_Severity : Z; hs_Tags : list string; hs_Message : string; hs_Action : string }.

Record HostSecurityPolicy := {
  hp_Metadata : gmap string string; hp_Spec : HostSecuritySpec }.

Record DefaultPosture := {
  dp_FileAction : string; dp_NetworkAction : string; dp_CapabilitiesAction : string }.

Record Visibility := {
  vis_File : bool; vis_Process : bool; vis_Network : bool;
  vis_Capabilities : bool; vis_DNS : bool }.

(** ** Endpoints and containers *)

Record EndPoint := {
  ep_NamespaceName : string; ep_EndPointName : string; ep_ContainerName : string;
  ep_Labels : gmap string string; ep_Identities : list string;
  ep_Containers : list string; ep_AppArmorProfiles : list string;
  ep_SELinuxProfiles : list string;
  ep_SecurityPolicies : list SecurityPolicy;
  ep_PrivilegedContainers : gset string;
  ep_PolicyEnabled : Z; ep_DefaultPosture : DefaultPosture;
  ep_ProcessVisibilityEnabled : bool; ep_FileVisibilityEnabled : bool;
  ep_NetworkVisibilityEnabled : bool; ep_CapabilitiesVisibilityEnabled : bool }.

(** The owner is its reference, name and namespace. *)
Record Container := {
  c_ContainerID : string; c_ContainerName : string; c_ContainerImage : string;
  c_NamespaceName : string; c_Owner : string * string * string; c_EndPointName : string;
  c_Labels : string; c_AppArmorProfile : string; c_Privileged : bool;
  c_PidNS : Z; c_MntNS : Z; c_Pid : Z;
  c_NodeName : string; c_NodeID : string; c_ProtocolPort : string; c_Status : string;
  c_ContainerIP : string; c_LastUpdatedAt : string;
  c_PolicyEnabled : Z; c_ProcessVisibilityEnabled : bool; c_FileVisibilityEnabled : bool;
  c_NetworkVisibilityEnabled : bool; c_CapabilitiesVisibilityEnabled : bool }.

Definition KubeArmorPolicyDisabled : Z := 0.
Definition KubeArmorPolicyEnabled : Z := 1.
Definition KubeArmorPolicyAudited : Z := 2.

(** ** Namespace keys *)

(** The two namespace identifiers, as [uint32]. *)
Record NsKey := { ns_PidNS : Z; ns_MntNS : Z }.

#[export] Instance NsKey_eq_dec : EqDecision NsKey.
Proof. solve_decision. Defined.
#[export] Instance NsKey_countable : Countable NsKey.
Proof.
  refine (inj_countable' (λ k, (ns_PidNS k, ns_MntNS k))
                         (λ p, {| ns_PidNS := p.1; ns_MntNS := p.2 |}) _).
  by intros [].
Defined.

(** ** Zero values *)

Definition empty_ProcessType : ProcessType :=
  {| pt_MatchPaths := []; pt_MatchDirectories := []; pt_MatchPatterns := [];
     pt_Severity := 0; pt_Tags := []; pt_Message := ""; pt_Action := "" |}.
Definition empty_FileType : FileType :=
  {| ft_MatchPaths := []; ft_MatchDirectories := []; ft_MatchPatterns := [];
     ft_Severity := 0; ft_Tags := []; ft_Message := ""; ft_Action := "" |}.
Definition empty_NetworkType : NetworkType :=
  {| nt_MatchProtocols := []; nt_Severity := 0; nt_Tags := []; nt_Message := "";
     nt_Action := "" |}.
Definition empty_CapabilitiesType : CapabilitiesType :=
  {| ct_MatchCapabilities := []; ct_Severity := 0; ct_Tags := []; ct_Message := "";
     ct_Action := "" |}.
Definition empty_SyscallsType : SyscallsType :=
  {| st_MatchSyscalls := []; st_MatchPaths := []; st_Severity := 0; st_Tags := [];
     st_Message := "" |}.
Definition empty_SelectorType : SelectorType :=
  {| sel_MatchLabels := ∅; sel_MatchExpressions := []; sel_Containers := [];
     sel_Identities := []; sel_MatchExpIdentities := []; sel_NonIdentities := [];
     sel_NamespaceList := [] |}.
Definition empty_SecuritySpec : SecuritySpec :=
  {| ss_Selector := empty_SelectorType; ss_Process := empty_ProcessType;
     ss_File := empty_FileType; ss_Network := empty_NetworkType;
     ss_Capabilities := empty_CapabilitiesType; ss_Syscalls := empty_SyscallsType;
     ss_Presets := []; ss_AppArmor := ""; ss_Severity := 0; ss_Tags := [];
     ss_Message := ""; ss_Action := "" |}.
Definition empty_Visibility : Visibility :=
  {| vis_File := false; vis_Process := false; vis_Network := false;
     vis_Capabilities := false; vis_DNS := false |}.

(** ** Equality, for [reflect.DeepEqual] and [==] on structs *)

#[export] Instance MatchSourceType_eq_dec : EqDecision MatchSourceType.
Proof. solve_decision. Defined.
#[export] Instance ProcessPathType_eq_dec : EqDecision ProcessPathType.
Proof. solve_decision. Defined.
#[export] Instance ProcessDirectoryType_eq_dec : EqDecision ProcessDirectoryType.
Proof. solve_decision. Defined.
#[export] Instance ProcessPatternType_eq_dec : EqDecision ProcessPatternType.
Proof. solve_decision. Defined.
#[export] Instance ProcessType_eq_dec : EqDecision ProcessType.
Proof. solve_decision. Defined.
#[export] Instance FilePathType_eq_dec : EqDecision FilePathType.
Proof. solve_decision. Defined.
#[export] Instance FileDirectoryType_eq_dec : EqDecision FileDirectoryType.
Proof. solve_decision. Defined.
#[export] Instance FilePatternType_eq_dec : EqDecision FilePatternType.
Proof. solve_decision. Defined.
#[export] Instance FileType_eq_dec : EqDecision FileType.
Proof. solve_decision. Defined.
#[export] Instance NetworkProtocolType_eq_dec : EqDecision NetworkProtocolType.
Proof. solve_decision. Defined.
#[export] Instance NetworkType_eq_dec : EqDecision NetworkType.
Proof. solve_decision. Defined.
#[export] Instance CapabilitiesCapabilityType_eq_dec :
  EqDecision CapabilitiesCapabilityType.
Proof. solve_decision. Defined.
#[export] Instance CapabilitiesType_eq_dec : EqDecision CapabilitiesType.
Proof. solve_decision. Defined.
#[export] Instance SyscallFromSourceType_eq_dec : EqDecision SyscallFromSourceType.
Proof. solve_decision. Defined.
#[export] Instance SyscallMatchType_eq_dec : EqDecision SyscallMatchType.
Proof. solve_decision. Defined.
#[export] Instance SyscallMatchPathType_eq_dec : EqDecision SyscallMatchPathType.
Proof. solve_decision. Defined.
#[export] Instance SyscallsType_eq_dec : EqDecision SyscallsType.
Proof. solve_decision. Defined.
#[export] Instance PresetType_eq_dec : EqDecision PresetType.
Proof. solve_decision. Defined.
#[export] Instance MatchExpressionType_eq_dec : EqDecision MatchExpressionType.
Proof. solve_decision. Defined.
#[export] Instance SelectorType_eq_dec : EqDecision SelectorType.
Proof. solve_decision. Defined.
#[export] Instance SecuritySpec_eq_dec : EqDecision SecuritySpec.
Proof. solve_decision. Defined.
#[export] Instance SecurityPolicy_eq_dec : EqDecision SecurityPolicy.
Proof. solve_decision. Defined.
#[export] Instance NodeSelectorType_eq_dec : EqDecision NodeSelectorType.
Proof. solve_decision. Defined.
#[export] Instance HostSecuritySpec_eq_dec : EqDecision HostSecuritySpec.
Proof. solve_decision. Defined.
#[export] Instance HostSecurityPolicy_eq_dec : EqDecision HostSecurityPolicy.
Proof. solve_decision. Defined.
#[export] Instance DefaultPosture_eq_dec : EqDecision DefaultPosture.
Proof. solve_decision. Defined.
#[export] Instance EndPoint_eq_dec : EqDecision EndPoint.
Proof. solve_decision. Defined.
