(* ===== verification/Common.v ===== *)
(** Helpers of [KubeArmor/common/common.go] that the daemon and the enforcers use:
    membership, identities of pods and selectors of policies, expansion of comma
    separated fields, cloning through JSON.

    [regexp.CompilePOSIX] with [MatchString], and [json.Marshal] with
    [json.Unmarshal] at the types in use, are arguments. *)
From Stdlib Require Import Ascii.
From stdpp Require Import sorting.
From S2P Require Import Prelude GoStrings Types.

Definition comma : ascii := Ascii.ascii_of_nat 44.
Definition space : ascii := Ascii.ascii_of_nat 32.

(** [sort.Slice] with the order of strings.  The order is total on strings, so the
    sorted slice is unique and the instability of the sort is not visible. *)
Definition sort_strings : list string → list string := merge_sort String.le.

(** [strings.ReplaceAll(s, " ", "")] *)
Fixpoint remove_spaces (s : string) : string :=
  match s with
  | EmptyString => ""
  | String c s' =>
      if bool_decide (c = space) then remove_spaces s' else String c (remove_spaces s')
  end.

(** ** Membership *)

(** [kl.ContainsElement] on a slice of strings *)
Definition ContainsElement (slice : list string) (element : string) : bool :=
  bool_decide (element ∈ slice).

(** ** Cloning *)

Section clone.
Context {A B : Type} (Marshal : A → string) (Unmarshal : string → option B).

(** The error of [Marshal] is dropped; [None] is an error of [Unmarshal]. *)
Definition Clone (src : A) : option B := Unmarshal (Marshal src).
End clone.

(** ** Expansion of comma separated fields *)

(** Types whose [reflect] field 0 is a string. *)
Class FirstField (A : Type) := {
  field0 : A → string;
  set_field0 : string → A → A }.

#[export] Instance NetworkProtocolType_field0 : FirstField NetworkProtocolType := {
  field0 := npt_Protocol;
  set_field0 := λ s x, {| npt_Protocol := s; npt_FromSource := npt_FromSource x;
    npt_Severity := npt_Severity x; npt_Tags := npt_Tags x; npt_Message := npt_Message x;
    npt_Action := npt_Action x |} }.

#[export] Instance CapabilitiesCapabilityType_field0 :
    FirstField CapabilitiesCapabilityType := {
  field0 := cct_Capability;
  set_field0 := λ s x, {| cct_Capability := s; cct_FromSource := cct_FromSource x;
    cct_Severity := cct_Severity x; cct_Tags := cct_Tags x; cct_Message := cct_Message x;
    cct_Action := cct_Action x |} }.

Section expand.
Context {A : Type} `{F : !FirstField A}.

(** The first element alone decides. *)
Definition ObjCommaCanBeExpanded (ov : list A) : bool :=
  match ov with
  | [] => false
  | ovelm :: _ =>
      negb (String.eqb (hd "" (split comma (field0 ovelm))) (field0 ovelm))
  end.

Definition ObjCommaExpand (v : A) : list string := split comma (field0 v).

Definition ObjCommaExpandFirstDupOthers (old : list A) : list A :=
  if ObjCommaCanBeExpanded old then
    old ≫= λ v, (λ f, set_field0 (remove_spaces f) v) <$> ObjCommaExpand v
  else old.
End expand.

(** ** Identities *)

Definition container_name_key : string := "kubearmor.io/container.name".
Definition hostname_key : string := "kubearmor.io/hostname".

Section identities.
(** What [CompilePOSIX] gives on success is the [MatchString] of the expression. *)
Context (CompilePOSIX : string → option (string → bool)).

(** Only the first item that has the key is tried. *)
Fixpoint MatchesRegex (key element : string) (array : list string) : bool :=
  match array with
  | [] => true
  | item :: rest =>
      if Contains item key then
        match CompilePOSIX element with
        | None => false
        | Some MatchString => MatchString item
        end
      else MatchesRegex key element rest
  end.

Definition match_identity (superIdentities : list string) (identity : string) : bool :=
  if Contains identity container_name_key
  then MatchesRegex container_name_key identity superIdentities
  else if Contains identity hostname_key
  then MatchesRegex hostname_key identity superIdentities
  else ContainsElement superIdentities identity.

(** The loop stops at the first identity that does not match. *)
Definition MatchIdentities (identities superIdentities : list string) : bool :=
  match identities with
  | [] => false
  | _ => forallb (match_identity superIdentities) identities
  end.
End identities.

(** [matched] starts at false and the two loops set it; the second one overrides. *)
Definition MatchExpIdentities (selector : SelectorType) (superIdentities : list string)
    : bool :=
  let identities := sel_MatchExpIdentities selector in
  let nonIdentities := sel_NonIdentities selector in
  match identities, nonIdentities with
  | [], [] => true
  | _, _ =>
      let matched := existsb (ContainsElement superIdentities) identities in
      match nonIdentities with
      | [] => matched
      | _ => negb (existsb (ContainsElement superIdentities) nonIdentities)
      end
  end.

(** [strings.Cut] at the first [=]: the key and the value. *)
Definition cut_label (label : string) : option (string * string) :=
  match split "="%char label with
  | key :: v :: rest => Some (key, join "=" (v :: rest))
  | _ => None
  end.

Definition GetLabelsFromString (labelString : string) : gmap string string * list string :=
  let labelsSlice := split comma labelString in
  (insert_all (omap cut_label labelsSlice) ∅, sort_strings labelsSlice).

(** ** Facts *)

Lemma ContainsElement_spec l x : ContainsElement l x = true ↔ x ∈ l.
Proof. unfold ContainsElement. by rewrite bool_decide_eq_true. Qed.

Lemma sort_strings_perm l : sort_strings l ≡ₚ l.
Proof. apply merge_sort_Permutation. Qed.

Lemma sort_strings_unique l l' : l ≡ₚ l' → sort_strings l = sort_strings l'.
Proof.
  intros Hp. apply (StronglySorted_unique String.le).
  - apply StronglySorted_merge_sort; apply _.
  - apply StronglySorted_merge_sort; apply _.
  - by rewrite !sort_strings_perm.
Qed.

Lemma elem_of_sort_strings x l : x ∈ sort_strings l ↔ x ∈ l.
Proof. by rewrite sort_strings_perm. Qed.
