(* ===== verification/BpfRules.v ===== *)
(** Rule generation of the BPF-LSM enforcer
    ([KubeArmor/enforcer/bpflsm/rulesHandling.go], [rulesHelper.go] and the key
    types of [mapHelpers.go]): from the security policies of a container to the
    four rule lists, the whitelist postures and the argument lists. *)
From Stdlib Require Import Ascii.
From S2P Require Import Prelude GoStrings Types.

(** ** Rule masks *)

Definition EXEC : Z := Z.shiftl 1 0.
Definition WRITE : Z := Z.shiftl 1 1.
Definition READ : Z := Z.shiftl 1 2.
Definition OWNER : Z := Z.shiftl 1 3.
Definition DIR : Z := Z.shiftl 1 4.
Definition RECURSIVE : Z := Z.shiftl 1 5.
Definition HINT : Z := Z.shiftl 1 6.
Definition DENY : Z := Z.shiftl 1 7.
Definition ARGSET : Z := Z.shiftl 1 8.

(** Index of a rule in a [[2]uint16] value. *)
Definition PROCESS : Z := 0.
Definition FILE : Z := 1.
Definition NETWORK : Z := 0.
Definition CAPABILITIES : Z := 0.

Definition AuditPosture : Z := 140.
Definition BlockPosture : Z := 141.

Abbreviation val2 := (Z * Z)%type.
Definition zero_val : val2 := (0, 0)%Z.
Definition vget (i : Z) (v : val2) : Z := if (i =? 0)%Z then v.1 else v.2.
Definition vset (i x : Z) (v : val2) : val2 := if (i =? 0)%Z then (x, v.2) else (v.1, x).
(** [val[i] = val[i] | f] *)
Definition vor (i f : Z) (v : val2) : val2 := vset i (Z.lor (vget i v) f) v.
(** [val[i] = val[i] & ^f], on [uint16] *)
Definition vclear (i f : Z) (v : val2) : val2 :=
  vset i (Z.land (vget i v) (Z.lxor f 65535)) v.
Definition has_bit (m f : Z) : bool := negb (Z.land m f =? 0)%Z.

(** ** Keys *)

Record InnerKey := { ik_Path : byte_list; ik_Source : byte_list }.

#[export] Instance InnerKey_eq_dec : EqDecision InnerKey.
Proof. solve_decision. Defined.
#[export] Instance InnerKey_countable : Countable InnerKey.
Proof.
  refine (inj_countable' (λ k, (ik_Path k, ik_Source k))
                         (λ p, {| ik_Path := p.1; ik_Source := p.2 |}) _).
  by intros [].
Defined.

Record ArgListKey := { al_NsKey : NsKey; al_InnerKey : InnerKey }.

#[export] Instance ArgListKey_eq_dec : EqDecision ArgListKey.
Proof. solve_decision. Defined.
#[export] Instance ArgListKey_countable : Countable ArgListKey.
Proof.
  refine (inj_countable' (λ k, (al_NsKey k, al_InnerKey k))
                         (λ p, {| al_NsKey := p.1; al_InnerKey := p.2 |}) _).
  by intros [].
Defined.

Definition zeros256 : byte_list := replicate 256 nul.
Definition zero_key : InnerKey := {| ik_Path := zeros256; ik_Source := zeros256 |}.

(** [copy(key.Path[:], []byte(s))] and [copy(key.Source[:], []byte(s))] *)
Definition copy_path (s : string) (k : InnerKey) : InnerKey :=
  {| ik_Path := go_copy (ik_Path k) (bytes_of s); ik_Source := ik_Source k |}.
Definition copy_source (s : string) (k : InnerKey) : InnerKey :=
  {| ik_Path := ik_Path k; ik_Source := go_copy (ik_Source k) (bytes_of s) |}.

(** The key a rule on path [p] from source [s] is meant to have. *)
Definition rule_key (p s : string) : InnerKey := copy_source s (copy_path p zero_key).

(** [InnerKey{Path: [256]byte{b0, b1}}] *)
Definition byte_key (b0 b1 : Z) : InnerKey :=
  {| ik_Path := ascii_of_N (Z.to_N b0) :: ascii_of_N (Z.to_N b1) :: replicate 254 nul;
     ik_Source := zeros256 |}.

Definition PROCWHITELIST : InnerKey := byte_key 101 0.
Definition FILEWHITELIST : InnerKey := byte_key 102 0.
Definition NETWHITELIST : InnerKey := byte_key 103 0.
Definition CAPWHITELIST : InnerKey := byte_key 104 0.

Definition protocols : gmap string Z :=
  list_to_map [("ICMP", 1); ("TCP", 6); ("UDP", 17); ("ICMPv6", 58); ("SCTP", 132)]%Z.

Definition netType : gmap string Z :=
  list_to_map [("STREAM", 1); ("DGRAM", 2); ("RAW", 3); ("RDM", 4);
               ("SEQPACKET", 5); ("DCCP", 6); ("PACKET", 10)]%Z.

Definition FAMILY : Z := 1.
Definition TYPE : Z := 2.
Definition PROTOCOL : Z := 3.
Definition capableKey : Z := 200.

(** ** Rule lists *)

Abbreviation RuleMap := (gmap InnerKey val2).

Record RuleList := {
  ProcessRuleList : RuleMap; FileRuleList : RuleMap;
  NetworkRuleList : RuleMap; CapabilitiesRuleList : RuleMap;
  ProcWhiteListPosture : bool; FileWhiteListPosture : bool;
  NetWhiteListPosture : bool; CapWhiteListPosture : bool;
  ArgumentsList : gmap ArgListKey (list string) }.

Definition Init : RuleList :=
  {| ProcessRuleList := ∅; FileRuleList := ∅; NetworkRuleList := ∅;
     CapabilitiesRuleList := ∅; ProcWhiteListPosture := false;
     FileWhiteListPosture := false; NetWhiteListPosture := false;
     CapWhiteListPosture := false; ArgumentsList := ∅ |}.

Definition set_proc (m : RuleMap) (w : bool) (r : RuleList) : RuleList :=
  {| ProcessRuleList := m; FileRuleList := FileRuleList r;
     NetworkRuleList := NetworkRuleList r;
     CapabilitiesRuleList := CapabilitiesRuleList r; ProcWhiteListPosture := w;
     FileWhiteListPosture := FileWhiteListPosture r;
     NetWhiteListPosture := NetWhiteListPosture r;
     CapWhiteListPosture := CapWhiteListPosture r; ArgumentsList := ArgumentsList r |}.
Definition set_file (m : RuleMap) (w : bool) (r : RuleList) : RuleList :=
  {| ProcessRuleList := ProcessRuleList r; FileRuleList := m;
     NetworkRuleList := NetworkRuleList r;
     CapabilitiesRuleList := CapabilitiesRuleList r;
     ProcWhiteListPosture := ProcWhiteListPosture r; FileWhiteListPosture := w;
     NetWhiteListPosture := NetWhiteListPosture r;
     CapWhiteListPosture := CapWhiteListPosture r; ArgumentsList := ArgumentsList r |}.
Definition set_net (m : RuleMap) (w : bool) (r : RuleList) : RuleList :=
  {| ProcessRuleList := ProcessRuleList r; FileRuleList := FileRuleList r;
     NetworkRuleList := m; CapabilitiesRuleList := CapabilitiesRuleList r;
     ProcWhiteListPosture := ProcWhiteListPosture r;
     FileWhiteListPosture := FileWhiteListPosture r; NetWhiteListPosture := w;
     CapWhiteListPosture := CapWhiteListPosture r; ArgumentsList := ArgumentsList r |}.
Definition set_cap (m : RuleMap) (w : bool) (r : RuleList) : RuleList :=
  {| ProcessRuleList := ProcessRuleList r; FileRuleList := FileRuleList r;
     NetworkRuleList := NetworkRuleList r; CapabilitiesRuleList := m;
     ProcWhiteListPosture := ProcWhiteListPosture r;
     FileWhiteListPosture := FileWhiteListPosture r;
     NetWhiteListPosture := NetWhiteListPosture r; CapWhiteListPosture := w;
     ArgumentsList := ArgumentsList r |}.
Definition set_args (a : gmap ArgListKey (list string)) (r : RuleList) : RuleList :=
  {| ProcessRuleList := ProcessRuleList r; FileRuleList := FileRuleList r;
     NetworkRuleList := NetworkRuleList r;
     CapabilitiesRuleList := CapabilitiesRuleList r;
     ProcWhiteListPosture := ProcWhiteListPosture r;
     FileWhiteListPosture := FileWhiteListPosture r;
     NetWhiteListPosture := NetWhiteListPosture r;
     CapWhiteListPosture := CapWhiteListPosture r; ArgumentsList := a |}.

(** ** dirtoMap *)

(** One iteration of the loop over the proper ancestors: [val] is carried from
    one iteration to the next. *)
Definition hint_step (idx : Z) (src : string) (paths : list string)
    (st : val2 * RuleMap) (i : nat) : val2 * RuleMap :=
  let val := vor idx HINT (vclear idx DIR st.1) in
  let hint := join "/" (take i paths) +:+ "/" in
  let key := copy_path hint zero_key in
  let key := if String.eqb src "" then key else copy_source src key in
  let val := match st.2 !! key with
             | Some oldval => if has_bit (vget idx oldval) DIR
                              then vset idx (Z.lor (vget idx oldval) HINT) val else val
             | None => val
             end in
  (val, <[key := val]> st.2).

Definition dirtoMap (idx : Z) (p src : string) (m : RuleMap) (val : val2) : RuleMap :=
  let key := if String.eqb src "" then zero_key else copy_source src zero_key in
  let paths := split slash p in
  let n := List.length paths in
  let pth := go_copy zeros256 (bytes_of (join "/" (take (n - 1) paths))) in
  let key := {| ik_Path := pth; ik_Source := ik_Source key |} in
  let m := <[key := val]> m in
  let key := copy_path p key in
  let val := vor idx DIR val in
  let val := match m !! key with
             | Some oldval => if has_bit (vget idx oldval) HINT then vor idx HINT val else val
             | None => val
             end in
  let m := <[key := val]> m in
  (foldl (hint_step idx src paths) (val, m) (seq 1 (n - 2))).2.

(** ** Process rules *)

Definition fill_proc_key (path : ProcessPathType) (key : InnerKey) : InnerKey :=
  if bool_decide (0 < String.length (ppt_ExecName path))
  then copy_path (ppt_ExecName path) key
  else copy_path (ppt_Path path) key.

(** The Allow/Block test; [DENY] stays in [val]. *)
Definition put_proc (action : string) (key : InnerKey) (val : val2) (r : RuleList)
    : RuleList * val2 :=
  if String.eqb action "Allow" then (set_proc (<[key := val]> (ProcessRuleList r)) true r, val)
  else if String.eqb action "Block" then
    let val := vor PROCESS DENY val in
    (set_proc (<[key := val]> (ProcessRuleList r)) (ProcWhiteListPosture r) r, val)
  else (r, val).

Definition proc_path_val (path : ProcessPathType) : val2 :=
  let val := vor PROCESS EXEC zero_val in
  let val := if ppt_OwnerOnly path then vor PROCESS OWNER val else val in
  if bool_decide (0 < List.length (ppt_AllowedArgs path)) then vor PROCESS ARGSET val else val.

(** One source of a process path: [key] and [val] are the variables declared
    outside the loop. *)
Definition proc_path_source (path : ProcessPathType) (st : InnerKey * val2 * RuleList)
    (src : MatchSourceType) : InnerKey * val2 * RuleList :=
  let '(key, val, r) := st in
  let key := copy_source (ms_Path src) (fill_proc_key path key) in
  let '(r, val) := put_proc (ppt_Action path) key val r in
  (key, val, r).

Definition proc_path_rule (ns : NsKey) (r : RuleList) (path : ProcessPathType) : RuleList :=
  let val := proc_path_val path in
  let '(key, r) :=
    match ppt_FromSource path with
    | [] => let key := fill_proc_key path zero_key in
            (key, (put_proc (ppt_Action path) key val r).1)
    | srcs => let '(key, _, r) := foldl (proc_path_source path) (zero_key, val, r) srcs in
              (key, r)
    end in
  if bool_decide (0 < List.length (ppt_AllowedArgs path))
  then set_args (<[{| al_NsKey := ns; al_InnerKey := key |} := ppt_AllowedArgs path]>
                   (ArgumentsList r)) r
  else r.

Definition put_proc_dir (action dir src : string) (st : val2 * RuleList) : val2 * RuleList :=
  let '(val, r) := st in
  if String.eqb action "Allow" then
    (val, set_proc (dirtoMap PROCESS dir src (ProcessRuleList r) val) true r)
  else if String.eqb action "Block" then
    let val := vor PROCESS DENY val in
    (val, set_proc (dirtoMap PROCESS dir src (ProcessRuleList r) val)
                   (ProcWhiteListPosture r) r)
  else (val, r).

Definition proc_dir_val (dir : ProcessDirectoryType) : val2 :=
  let val := vor PROCESS EXEC zero_val in
  let val := if pdt_OwnerOnly dir then vor PROCESS OWNER val else val in
  if pdt_Recursive dir then vor PROCESS RECURSIVE val else val.

Definition proc_dir_rule (r : RuleList) (dir : ProcessDirectoryType) : RuleList :=
  let val := proc_dir_val dir in
  let put src := put_proc_dir (pdt_Action dir) (pdt_Directory dir) src in
  match pdt_FromSource dir with
  | [] => (put "" (val, r)).2
  | srcs => (foldl (λ st src, put (ms_Path src) st) (val, r) srcs).2
  end.

(** ** File rules *)

Definition put_file (action : string) (key : InnerKey) (st : val2 * RuleList)
    : val2 * RuleList :=
  let '(val, r) := st in
  if String.eqb action "Allow" then (val, set_file (<[key := val]> (FileRuleList r)) true r)
  else if String.eqb action "Block" then
    let val := vor FILE DENY val in
    (val, set_file (<[key := val]> (FileRuleList r)) (FileWhiteListPosture r) r)
  else (val, r).

Definition file_path_val (path : FilePathType) : val2 :=
  let val := vor FILE READ zero_val in
  let val := if fpt_OwnerOnly path then vor FILE OWNER val else val in
  if negb (fpt_ReadOnly path) then vor FILE WRITE val else val.

Definition file_path_rule (r : RuleList) (path : FilePathType) : RuleList :=
  let val := file_path_val path in
  let key := copy_path (fpt_Path path) zero_key in
  match fpt_FromSource path with
  | [] => (put_file (fpt_Action path) key (val, r)).2
  | srcs => (foldl (λ st src, put_file (fpt_Action path) (copy_source (ms_Path src) key) st)
                   (val, r) srcs).2
  end.

Definition put_file_dir (action dir src : string) (st : val2 * RuleList) : val2 * RuleList :=
  let '(val, r) := st in
  if String.eqb action "Allow" then
    (val, set_file (dirtoMap FILE dir src (FileRuleList r) val) true r)
  else if String.eqb action "Block" then
    let val := vor FILE DENY val in
    (val, set_file (dirtoMap FILE dir src (FileRuleList r) val)
                   (FileWhiteListPosture r) r)
  else (val, r).

Definition file_dir_val (dir : FileDirectoryType) : val2 :=
  let val := vor FILE READ zero_val in
  let val := if fdt_OwnerOnly dir then vor FILE OWNER val else val in
  let val := if negb (fdt_ReadOnly dir) then vor FILE WRITE val else val in
  if fdt_Recursive dir then vor FILE RECURSIVE val else val.

Definition file_dir_rule (r : RuleList) (dir : FileDirectoryType) : RuleList :=
  let val := file_dir_val dir in
  let put src := put_file_dir (fdt_Action dir) (fdt_Directory dir) src in
  match fdt_FromSource dir with
  | [] => (put "" (val, r)).2
  | srcs => (foldl (λ st src, put (ms_Path src) st) (val, r) srcs).2
  end.

(** ** Network rules *)

(** The expansion of the [all] protocol over the socket types; the loops range
    over Go maps. *)
Record AllState := {
  as_protocols : list NetworkProtocolType;
  as_noSourceAllow : bool; as_noSourceBlock : bool;
  as_sourcesAllow : gmap string string; as_sourcesBlock : gmap string string }.

Definition mk_proto (r action : string) (srcs : list MatchSourceType) : NetworkProtocolType :=
  {| npt_Protocol := r; npt_FromSource := srcs; npt_Severity := 0; npt_Tags := [];
     npt_Message := ""; npt_Action := action |}.

Section network.
Context `{R : GoRange}.

Definition all_types (action : string) (srcs : list MatchSourceType)
    : list NetworkProtocolType :=
  (λ kv : string * Z, mk_proto kv.1 action srcs) <$> go_range netType.

Definition all_source (action : string) (st : AllState) (src : MatchSourceType) : AllState :=
  let p := ms_Path src in
  {| as_protocols := as_protocols st;
     as_noSourceAllow := as_noSourceAllow st; as_noSourceBlock := as_noSourceBlock st;
     as_sourcesAllow :=
       match as_sourcesAllow st !! p with
       | None => if String.eqb action "Allow" then <[p := action]> (as_sourcesAllow st)
                 else as_sourcesAllow st
       | Some _ => as_sourcesAllow st
       end;
     as_sourcesBlock :=
       match as_sourcesBlock st !! p with
       | None => if String.eqb action "Block" then <[p := action]> (as_sourcesBlock st)
                 else as_sourcesBlock st
       | Some _ => as_sourcesBlock st
       end |}.

Definition all_step (st : AllState) (net : NetworkProtocolType) : AllState :=
  if String.eqb (ToUpper (npt_Protocol net)) "ALL" then
    match npt_FromSource net with
    | [] =>
        if String.eqb (npt_Action net) "Allow" && negb (as_noSourceAllow st) then
          {| as_protocols := as_protocols st ++ all_types (npt_Action net) [];
             as_noSourceAllow := true; as_noSourceBlock := as_noSourceBlock st;
             as_sourcesAllow := as_sourcesAllow st;
             as_sourcesBlock := as_sourcesBlock st |}
        else if String.eqb (npt_Action net) "Block" && negb (as_noSourceBlock st) then
          {| as_protocols := as_protocols st ++ all_types (npt_Action net) [];
             as_noSourceAllow := as_noSourceAllow st; as_noSourceBlock := true;
             as_sourcesAllow := as_sourcesAllow st;
             as_sourcesBlock := as_sourcesBlock st |}
        else st
    | srcs => foldl (all_source (npt_Action net)) st srcs
    end
  else st.

Definition all_sources (action : string) (srcs : gmap string string)
    : list NetworkProtocolType :=
  if bool_decide (0 < size srcs) then
    all_types action ((λ kv : string * string, {| ms_Path := kv.1 |}) <$> go_range srcs)
  else [].

Definition handleAllNetworkRule (protos : list NetworkProtocolType)
    : list NetworkProtocolType :=
  let st := foldl all_step
              {| as_protocols := []; as_noSourceAllow := false; as_noSourceBlock := false;
                 as_sourcesAllow := ∅; as_sourcesBlock := ∅ |} protos in
  protos ++ (as_protocols st ++ all_sources "Allow" (as_sourcesAllow st)
                             ++ all_sources "Block" (as_sourcesBlock st)).
End network.

Definition net_key (protocol : string) : InnerKey :=
  match protocols !! ToUpper protocol with
  | Some v => byte_key PROTOCOL (u8 v)
  | None => match netType !! ToUpper protocol with
            | Some v => byte_key TYPE (u8 v)
            | None => zero_key
            end
  end.

Definition put_net (action : string) (key : InnerKey) (st : val2 * RuleList)
    : val2 * RuleList :=
  let '(val, r) := st in
  if String.eqb action "Allow" then (val, set_net (<[key := val]> (NetworkRuleList r)) true r)
  else if String.eqb action "Block" then
    let val := vor NETWORK DENY val in
    (val, set_net (<[key := val]> (NetworkRuleList r)) (NetWhiteListPosture r) r)
  else (val, r).

(** [key.Source = source], with [source] a fresh array *)
Definition with_source (s : string) (k : InnerKey) : InnerKey :=
  {| ik_Path := ik_Path k; ik_Source := go_copy zeros256 (bytes_of s) |}.

Definition net_rule (r : RuleList) (net : NetworkProtocolType) : RuleList :=
  let key := net_key (npt_Protocol net) in
  match npt_FromSource net with
  | [] => (put_net (npt_Action net) key (zero_val, r)).2
  | srcs => (foldl (λ st src, put_net (npt_Action net) (with_source (ms_Path src) key) st)
                   (zero_val, r) srcs).2
  end.

(** ** Capability rules *)

Definition put_cap (action : string) (key : InnerKey) (st : val2 * RuleList)
    : val2 * RuleList :=
  let '(val, r) := st in
  if String.eqb action "Allow" then
    (val, set_cap (<[key := val]> (CapabilitiesRuleList r)) true r)
  else if String.eqb action "Block" then
    let val := vor CAPABILITIES DENY val in
    (val, set_cap (<[key := val]> (CapabilitiesRuleList r)) (CapWhiteListPosture r) r)
  else (val, r).

Section capabilities.
(** [mon.CapToCode]; a missing name reads as 0. *)
Context (CapToCode : gmap string Z).

Definition cap_code (name : string) : Z := default 0%Z (CapToCode !! name).

Definition cap_key (capability : string) : InnerKey :=
  byte_key capableKey
    (if negb (Contains capability "cap_") then cap_code ("CAP_" +:+ ToUpper capability)
     else cap_code (ToUpper capability)).

Definition cap_rule (r : RuleList) (capab : CapabilitiesCapabilityType) : RuleList :=
  let key := cap_key (cct_Capability capab) in
  match cct_FromSource capab with
  | [] => (put_cap (cct_Action capab) key (zero_val, r)).2
  | srcs => (foldl (λ st src, put_cap (cct_Action capab) (with_source (ms_Path src) key) st)
                   (zero_val, r) srcs).2
  end.
End capabilities.

(** ** The fresh rule set of a list of policies *)

Section rules.
Context `{R : GoRange} (CapToCode : gmap string Z).

Definition policy_rules (ns : NsKey) (r : RuleList) (pol : SecurityPolicy) : RuleList :=
  let spec := sp_Spec pol in
  let r := foldl (proc_path_rule ns) r (pt_MatchPaths (ss_Process spec)) in
  let r := foldl proc_dir_rule r (pt_MatchDirectories (ss_Process spec)) in
  let r := foldl file_path_rule r (ft_MatchPaths (ss_File spec)) in
  let r := foldl file_dir_rule r (ft_MatchDirectories (ss_File spec)) in
  let r := foldl net_rule r (handleAllNetworkRule (nt_MatchProtocols (ss_Network spec))) in
  foldl (cap_rule CapToCode) r (ct_MatchCapabilities (ss_Capabilities spec)).

Definition fuseProcAndFileRules (procList fileList : RuleMap) : RuleMap :=
  foldl (λ m kv, match procList !! kv.1 with
                 | Some val => <[kv.1 := vset PROCESS (vget PROCESS val) kv.2]> m
                 | None => m
                 end) fileList (go_range fileList).

Definition fresh_rules (ns : NsKey) (pols : list SecurityPolicy) : RuleList :=
  let r := foldl (policy_rules ns) Init pols in
  set_file (fuseProcAndFileRules (ProcessRuleList r) (FileRuleList r))
           (FileWhiteListPosture r) r.
End rules.
