(* ===== verification/BpfRulesFacts.v ===== *)
(** What the rule generator of [BpfRules] guarantees: keys, directory hints,
    whitelist postures, masks, and independence of Go's map iteration order. *)
From Stdlib Require Import Ascii.
From S2P Require Import Prelude GoStrings Types BpfRules.

(** ** Keys *)

(** A string that a 256-byte key field holds without truncation. *)
Definition fits (s : string) : Prop :=
  String.length s ≤ 256 ∧ nul_free (bytes_of s).

#[export] Instance fits_dec s : Decision (fits s).
Proof. unfold fits. apply _. Defined.

(** The key field of a string. *)
Definition arr (s : string) : byte_list := go_copy zeros256 (bytes_of s).
Definition mkkey (p : string) (src : byte_list) : InnerKey :=
  {| ik_Path := arr p; ik_Source := src |}.

Lemma arr_inj s1 s2 : fits s1 → fits s2 → arr s1 = arr s2 → s1 = s2.
Proof.
  intros [Hl1 Hn1] [Hl2 Hn2] Heq. apply bytes_of_inj.
  eapply go_copy_zeros_inj; [| | done..|exact Heq]; rewrite bytes_of_length; lia.
Qed.

Lemma mkkey_inj p1 p2 s1 s2 :
  fits p1 → fits p2 → mkkey p1 s1 = mkkey p2 s2 → p1 = p2 ∧ s1 = s2.
Proof. intros ?? Heq. injection Heq as H1 H2. split; [by apply arr_inj | done]. Qed.

Lemma rule_key_mkkey p s : rule_key p s = mkkey p (arr s).
Proof. done. Qed.

Lemma go_copy_arr_prefix d p :
  String.length d ≤ String.length p → fits p → go_copy (arr d) (bytes_of p) = arr p.
Proof.
  intros Hd [Hl _]. unfold arr, zeros256. rewrite <- !bytes_of_length in *.
  rewrite !go_copy_zeros by lia. unfold go_copy.
  rewrite length_app, length_replicate, take_ge, drop_app_ge by lia.
  by rewrite drop_replicate; do 2 f_equal; lia.
Qed.

Lemma fits_app_l a b : fits (a +:+ b) → fits a.
Proof.
  unfold fits, nul_free. rewrite string_app_length, bytes_of_app. intros [Hl Hn].
  split; [lia|]. set_solver.
Qed.

Lemma length_arr s : List.length (arr s) = 256.
Proof. unfold arr. by rewrite go_copy_length. Qed.

(** ** Mask bits *)

Lemma has_bit_lor_r m f : (f ≠ 0)%Z → has_bit (Z.lor m f) f = true.
Proof.
  intros Hf. unfold has_bit. rewrite negb_true_iff, Z.eqb_neq.
  rewrite Z.land_lor_distr_l, Z.land_diag.
  intros H%Z.lor_eq_0_iff. by destruct H.
Qed.

Lemma has_bit_lor_other m f g :
  Z.land f g = 0%Z → has_bit (Z.lor m f) g = has_bit m g.
Proof. intros Hfg. unfold has_bit. by rewrite Z.land_lor_distr_l, Hfg, Z.lor_0_r. Qed.

Lemma has_bit_lor_mono m f g : has_bit m g = true → has_bit (Z.lor m f) g = true.
Proof.
  unfold has_bit. rewrite !negb_true_iff, !Z.eqb_neq, Z.land_lor_distr_l.
  intros H [H' _]%Z.lor_eq_0_iff. done.
Qed.

Lemma has_bit_clear m f :
  Z.land (Z.lxor f 65535) f = 0%Z → has_bit (Z.land m (Z.lxor f 65535)) f = false.
Proof.
  intros H. unfold has_bit. rewrite negb_false_iff, Z.eqb_eq.
  by rewrite <- Z.land_assoc, H, Z.land_0_r.
Qed.

Lemma vget_vset i x v : vget i (vset i x v) = x.
Proof. unfold vget, vset. by destruct (i =? 0)%Z. Qed.

Lemma vget_vor i f v : vget i (vor i f v) = Z.lor (vget i v) f.
Proof. unfold vor. apply vget_vset. Qed.

Lemma vget_vclear i f v : vget i (vclear i f v) = Z.land (vget i v) (Z.lxor f 65535).
Proof. unfold vclear. apply vget_vset. Qed.

Create Rewrite HintDb mask.
#[export] Hint Rewrite vget_vset vget_vor vget_vclear : mask.

(** ** Slash prefixes *)

Definition no_trailing_slash (s : string) : Prop := ∀ q, s ≠ q +:+ "/".

Definition wf_path (p : string) : Prop := fits p ∧ no_trailing_slash p.
Definition wf_dir (p : string) : Prop :=
  fits p ∧ ∃ d, p = d +:+ "/" ∧ no_trailing_slash d.

Lemma split_dir d : split slash (d +:+ "/") = split slash d ++ [""].
Proof. exact (split_app_sep slash d ""). Qed.

Lemma ends_with_slash_no_nil q r d : q +:+ r = d +:+ "/" → r ≠ "" → ∃ r', r = r' +:+ "/".
Proof.
  revert d. induction q as [|c q IH]; intros d; simpl; [eauto|].
  destruct d as [|c' d]; simpl; intros H Hr.
  - injection H as _ H. destruct q; simpl in H; [done|discriminate].
  - injection H as _ H. by apply (IH d).
Qed.

Section hints.
Context (idx : Z) (src p : string).
Let paths := split slash p.
Let n := List.length paths.

Definition hint (i : nat) : string := join "/" (take i (split slash p)) +:+ "/".
Definition hkey (i : nat) : InnerKey := mkkey (hint i) (arr src).

Lemma source_key s :
  (if String.eqb src "" then copy_path s zero_key else copy_source src (copy_path s zero_key))
  = mkkey s (arr src).
Proof. by destruct (String.eqb_spec src "") as [->|]. Qed.

Lemma hint_fits i : fits p → 1 ≤ i → i < n → fits (hint i).
Proof.
  intros Hp H1 H2. rewrite (take_split_prefix p i) in Hp by done.
  rewrite <- string_app_assoc in Hp. by apply fits_app_l in Hp.
Qed.

Lemma hint_inj i j : 1 ≤ i → i ≤ n → 1 ≤ j → j ≤ n → hint i = hint j → i = j.
Proof.
  intros Hi Hi' Hj Hj' Heq. unfold hint in Heq. apply string_app_inj_r in Heq.
  assert (∀ k, 1 ≤ k → k ≤ n →
    split slash (join "/" (take k (split slash p))) = take k (split slash p)) as Hs.
  { intros k Hk Hk'. apply (split_join slash).
    - intros H%(f_equal List.length). rewrite length_take in H. simpl in H.
      unfold n, paths in Hk'. lia.
    - apply list.Forall_forall. intros x (j0 & Hx%list_elem_of_lookup_2 & _)%elem_of_take.
      by eapply split_components. }
  apply (f_equal (split slash)) in Heq. rewrite !Hs in Heq by done.
  apply (f_equal List.length) in Heq. rewrite !length_take in Heq.
  unfold n, paths in *. lia.
Qed.

Lemma hkey_inj i j :
  fits p → 1 ≤ i → i < n → 1 ≤ j → j < n → hkey i = hkey j → i = j.
Proof.
  intros Hp ???? [Heq _]%mkkey_inj; [|by apply hint_fits..]. apply hint_inj; lia || done.
Qed.

(** What one iteration writes at its key. *)
Definition hint_entry (old : option val2) (v : val2) : Prop :=
  has_bit (vget idx v) HINT = true ∧
  (if match old with Some o => has_bit (vget idx o) DIR | None => false end
   then vget idx v = Z.lor (vget idx (default zero_val old)) HINT
   else has_bit (vget idx v) DIR = false).

Lemma hint_step_spec val m i :
  ∃ v, hint_step idx src paths (val, m) i = (v, <[hkey i := v]> m) ∧
       hint_entry (m !! hkey i) v.
Proof.
  unfold hint_step. simpl. rewrite source_key.
  change (mkkey (join "/" (take i paths) +:+ "/") (arr src)) with (hkey i).
  set (v0 := vor idx HINT (vclear idx DIR val)).
  assert (has_bit (vget idx v0) HINT = true ∧ has_bit (vget idx v0) DIR = false) as [Hh Hd].
  { unfold v0. autorewrite with mask. split; [by apply has_bit_lor_r|].
    rewrite has_bit_lor_other by done. by apply has_bit_clear. }
  eexists; split; [reflexivity|]. unfold hint_entry.
  destruct (m !! hkey i) as [old|] eqn:Hold; simpl; [|done].
  destruct (has_bit (vget idx old) DIR) eqn:Ho; [|done].
  autorewrite with mask. split; [by apply has_bit_lor_r | done].
Qed.

Lemma hint_loop (is_ : list nat) val m :
  fits p → NoDup is_ → (∀ i, i ∈ is_ → 1 ≤ i ∧ i < n) →
  let m' := (foldl (hint_step idx src paths) (val, m) is_).2 in
  (∀ k, (∀ i, i ∈ is_ → k ≠ hkey i) → m' !! k = m !! k) ∧
  (∀ i, i ∈ is_ → ∃ v, m' !! hkey i = Some v ∧ hint_entry (m !! hkey i) v).
Proof.
  intros Hp. revert val m. induction is_ as [|i is_ IH]; intros val m Hnd Hr.
  { split; [done|]. by intros i ?%not_elem_of_nil. }
  apply list.NoDup_cons in Hnd as [Hi Hnd].
  simpl. destruct (hint_step_spec val m i) as (v & -> & Hv).
  destruct (IH v (<[hkey i := v]> m)) as [IHf IHe]; [done | set_solver |].
  assert (∀ j, j ∈ is_ → hkey i ≠ hkey j) as Hne.
  { intros j Hj Heq. apply hkey_inj in Heq as ->; [done|done|..];
      apply Hr; set_solver. }
  split.
  - intros k Hk. rewrite IHf by set_solver. apply lookup_insert_ne. symmetry. set_solver.
  - intros j [->|Hj]%elem_of_cons.
    + exists v. rewrite IHf by done. by rewrite lookup_insert_eq.
    + destruct (IHe j Hj) as (w & Hw & He). exists w. split; [done|].
      by rewrite lookup_insert_ne in He by auto.
Qed.
End hints.

(** ** dirtoMap *)

(** [q] is a proper ancestor directory of [p]: a proper prefix ending in a slash. *)
Definition ancestor (q p : string) : Prop :=
  ∃ q' r, q = q' +:+ "/" ∧ p = q +:+ r ∧ r ≠ "".

Lemma ancestor_fits q p : fits p → ancestor q p → fits q.
Proof. intros Hp (q' & r & -> & -> & _). by apply fits_app_l in Hp. Qed.

Lemma ancestor_hint q d :
  ancestor q (d +:+ "/") ↔
  ∃ i, i ∈ seq 1 (List.length (split slash (d +:+ "/")) - 2) ∧ q = hint (d +:+ "/") i.
Proof.
  set (p := d +:+ "/"). split.
  - intros (q' & r & -> & Hp & Hr).
    exists (List.length (split slash q')). rewrite string_app_assoc in Hp.
    split; [|unfold hint; by rewrite Hp, join_take_split].
    destruct (ends_with_slash_no_nil (q' +:+ "/") r d) as [r' ->]; [|done|].
    { by rewrite string_app_assoc. }
    apply elem_of_seq. rewrite Hp.
    replace (q' +:+ "/" +:+ r' +:+ "/") with (q' +:+ String slash (r' +:+ "/")) by done.
    rewrite split_app_sep, split_dir, !length_app. simpl.
    destruct (split_cons slash q') as (h & t & ->).
    destruct (split_cons slash r') as (h' & t' & ->). simpl. lia.
  - intros (i & Hi%elem_of_seq & ->). unfold hint.
    exists (join "/" (take i (split slash p))), (join "/" (drop i (split slash p))).
    split; [done|]. rewrite string_app_assoc. split; [apply take_split_prefix; lia|].
    assert (drop i (split slash p) =
            drop i (split slash d) ++ [""])%list as ->.
    { unfold p. rewrite split_dir, drop_app_le; [done|].
      unfold p in Hi. rewrite split_dir, length_app in Hi. simpl in Hi. lia. }
    assert (drop i (split slash d) ≠ []) as Hne.
    { intros H%(f_equal List.length). rewrite length_drop in H.
      unfold p in Hi. rewrite split_dir, length_app in Hi. simpl in *. lia. }
    rewrite join_app by done. simpl.
    by destruct (join "/" (drop i (split slash d))).
Qed.

#[export] Instance ancestor_dir_dec q d : Decision (ancestor q (d +:+ "/")).
Proof.
  refine (cast_if (decide (List.Exists (λ i, q = hint (d +:+ "/") i)
            (seq 1 (List.length (split slash (d +:+ "/")) - 2))))).
  - abstract (by rewrite ancestor_hint; apply list.Exists_exists).
  - abstract (rewrite ancestor_hint; by rewrite list.Exists_exists in n).
Defined.

Lemma wf_dir_split d :
  let paths := split slash (d +:+ "/") in
  join "/" (take (List.length paths - 1) paths) = d.
Proof.
  simpl. rewrite split_dir, length_app. simpl. rewrite Nat.add_sub, take_app_length.
  apply (join_split slash).
Qed.

(** The two keys written for the directory itself. *)
Definition dir_entry (idx : Z) (val : val2) (old : option val2) (v : val2) : Prop :=
  vget idx v =
    Z.lor (Z.lor (vget idx val) DIR)
          (if match old with Some o => has_bit (vget idx o) HINT | None => false end
           then HINT else 0).

Lemma dirtoMap_unfold idx d src m val :
  fits (d +:+ "/") →
  let p := d +:+ "/" in
  ∃ v, dir_entry idx val (<[mkkey d (arr src) := val]> m !! mkkey p (arr src)) v ∧
    dirtoMap idx p src m val =
    (foldl (hint_step idx src (split slash p))
       (v, <[mkkey p (arr src) := v]> (<[mkkey d (arr src) := val]> m))
       (seq 1 (List.length (split slash p) - 2))).2.
Proof.
  intros Hp p. unfold dirtoMap. fold p.
  assert (ik_Source (if String.eqb src "" then zero_key else copy_source src zero_key)
          = arr src) as ->.
  { destruct (String.eqb_spec src "") as [->|]; done. }
  pose proof (wf_dir_split d) as Hs. simpl in Hs. fold p in Hs. rewrite Hs. clear Hs.
  fold (arr d).
  assert (copy_path p {| ik_Path := arr d; ik_Source := arr src |} = mkkey p (arr src)) as ->.
  { unfold copy_path. simpl. rewrite go_copy_arr_prefix; [done| |done].
    unfold p. rewrite string_app_length. lia. }
  eexists; split; [|reflexivity]. unfold dir_entry.
  destruct (_ !! _) as [o|]; [|by autorewrite with mask; rewrite Z.lor_0_r].
  destruct (has_bit (vget idx o) HINT); autorewrite with mask; [done|].
  by rewrite Z.lor_0_r.
Qed.

Section dirtoMap.
Context (idx : Z) (d src : string) (m : RuleMap) (val : val2).
Let p := d +:+ "/".
Let m' := dirtoMap idx p src m val.
Context (Hp : fits p) (Hd : no_trailing_slash d).

Lemma dirtoMap_lookups :
  (∃ v, m' !! mkkey p (arr src) = Some v ∧
        dir_entry idx val (m !! mkkey p (arr src)) v) ∧
  m' !! mkkey d (arr src) = Some val ∧
  (∀ q, ancestor q p → ∃ v, m' !! mkkey q (arr src) = Some v ∧
        hint_entry idx (m !! mkkey q (arr src)) v) ∧
  (∀ k, k ≠ mkkey p (arr src) → k ≠ mkkey d (arr src) →
        (∀ q, ancestor q p → k ≠ mkkey q (arr src)) → m' !! k = m !! k).
Proof.
  assert (fits d) as Hfd by by apply fits_app_l in Hp.
  destruct (dirtoMap_unfold idx d src m val Hp) as (v & Hv & Heq).
  fold p m' in Hv, Heq. set (n := List.length (split slash p)) in *.
  assert (mkkey p (arr src) ≠ mkkey d (arr src)) as Hpd.
  { intros [Heq' _]%mkkey_inj; [|done..]. by eapply Hd. }
  rewrite lookup_insert_ne in Hv by done.
  destruct (hint_loop idx src p (seq 1 (n - 2)) v
              (<[mkkey p (arr src):=v]> (<[mkkey d (arr src):=val]> m)))
    as [Hf Hh]; [done|apply NoDup_seq|intros i Hi%elem_of_seq; unfold n in *; lia|].
  rewrite <- Heq in Hf, Hh.
  assert (∀ q, ancestor q p →
    mkkey q (arr src) ≠ mkkey p (arr src) ∧ mkkey q (arr src) ≠ mkkey d (arr src)) as Hne.
  { intros q Hq. pose proof (ancestor_fits _ _ Hp Hq) as Hfq.
    destruct Hq as (q' & r & -> & Hpq & Hr).
    split; intros [Heq' _]%mkkey_inj; try done.
    - rewrite Heq', <- (string_app_nil_r p), string_app_assoc in Hpq.
      apply (f_equal String.length) in Hpq. rewrite !string_app_length in Hpq.
      destruct r; [done|simpl in Hpq; lia].
    - by eapply Hd. }
  assert (∀ i, i ∈ seq 1 (n - 2) → ancestor (hint p i) p) as Hanc.
  { intros i Hi. apply ancestor_hint. eauto. }
  split_and!.
  - exists v. rewrite Hf; [by rewrite lookup_insert_eq|].
    intros i Hi Heq'. symmetry in Heq'. by apply Hne in Heq'; [|apply Hanc].
  - rewrite Hf; [by rewrite lookup_insert_ne, lookup_insert_eq|].
    intros i Hi Heq'. symmetry in Heq'. by apply Hne in Heq'; [|apply Hanc].
  - intros q Hq. destruct (Hne q Hq) as [Hq1 Hq2].
    apply ancestor_hint in Hq as (i & Hi & ->).
    destruct (Hh i Hi) as (w & Hw & He). exists w. split; [done|].
    by rewrite !lookup_insert_ne in He by done.
  - intros k Hkp Hkd Hk. rewrite Hf; [by rewrite !lookup_insert_ne by done|].
    intros i Hi. apply Hk, Hanc, Hi.
Qed.
End dirtoMap.

(** ** The kernel's walk

    The matcher of [BPF/enforcer.bpf.c] and [BPF/shared.h] goes over the first 64 bytes of
    a path.  It looks up the prefixes that end in a slash, from the shortest on, with the
    source of the walk, and stops at the first one that has no entry, at a recursive
    directory without [HINT], and, in the walk of processes without a source, at any entry
    without [HINT] that is no directory rule. *)

Definition walk_bytes : nat := 64.

(** The slash-terminated prefixes of [before ++ path] that end in the first [n] bytes of
    [path] *)
Fixpoint slash_prefixes (n : nat) (before path : string) : list string :=
  match n, path with
  | S n, String c path =>
      let before := before +:+ String c "" in
      if Ascii.eqb c slash then before :: slash_prefixes n before path
      else slash_prefixes n before path
  | _, _ => []
  end.

Definition walk_stops (idx : Z) (sourced : bool) (v : val2) : bool :=
  let mask := vget idx v in
  if (idx =? PROCESS)%Z then
    if has_bit mask DIR && has_bit mask EXEC then has_bit mask RECURSIVE && negb (has_bit mask HINT)
    else negb sourced && negb (has_bit mask HINT)
  else has_bit mask DIR && has_bit mask READ && has_bit mask RECURSIVE && negb (has_bit mask HINT).

Fixpoint walk_entries (idx : Z) (sourced : bool) (m : RuleMap) (sa : byte_list)
    (prefixes : list string) : list string :=
  match prefixes with
  | [] => []
  | q :: prefixes =>
      match m !! mkkey q sa with
      | None => []
      | Some v => q :: if walk_stops idx sourced v then []
                       else walk_entries idx sourced m sa prefixes
      end
  end.

(** The directories of which a walk finds entries *)
Definition kernel_walk (idx : Z) (m : RuleMap) (sa : byte_list) (path : string) : list string :=
  walk_entries idx (bool_decide (sa ≠ zeros256)) m sa (slash_prefixes walk_bytes "" path).

(** ** Hinted ancestors

    A list is walkable when no directory rule hides behind an ancestor: each has an entry
    with [HINT]. *)

Definition hinted (idx : Z) (m : RuleMap) (k : InnerKey) : Prop :=
  ∃ w, m !! k = Some w ∧ has_bit (vget idx w) HINT = true.

Definition walkable (idx : Z) (m : RuleMap) : Prop :=
  ∀ p sa v, fits p → m !! mkkey p sa = Some v → has_bit (vget idx v) DIR = true →
    ∀ q, ancestor q p → hinted idx m (mkkey q sa).

Lemma ancestor_trans q1 q2 p : ancestor q1 q2 → ancestor q2 p → ancestor q1 p.
Proof.
  intros (q' & r & -> & -> & Hr) (_ & r' & _ & -> & _).
  exists q', (r +:+ r'). rewrite <- string_app_assoc. split_and!; [done..|]. by destruct r.
Qed.

Lemma ancestor_slash q p : ancestor q p → ∃ d, q = d +:+ "/".
Proof. intros (q' & _ & -> & _). eauto. Qed.

Lemma walkable_empty idx : walkable idx ∅.
Proof. intros p sa v _ Hv. by rewrite lookup_empty in Hv. Qed.

(** A path rule, without [DIR], does not disturb the directory rules. *)
Lemma walkable_insert idx p0 sa0 v0 m :
  wf_path p0 → has_bit (vget idx v0) DIR = false →
  walkable idx m → walkable idx (<[mkkey p0 sa0 := v0]> m).
Proof.
  intros [Hf0 Hns] Hd Hm p sa v Hp Hv Hdir q Hq.
  apply lookup_insert_Some in Hv as [[Heq ->]|[Hne Hv]]; [congruence|].
  destruct (Hm p sa v Hp Hv Hdir q Hq) as (w & Hw & Hh). exists w. split; [|done].
  rewrite lookup_insert_ne; [done|]. intros [Heq _]%mkkey_inj; [|done|by apply (ancestor_fits q p)].
  apply ancestor_slash in Hq as [d ->]. by eapply Hns.
Qed.

Lemma walkable_dirtoMap idx p src m val :
  wf_dir p → has_bit (vget idx val) DIR = false →
  walkable idx m → walkable idx (dirtoMap idx p src m val).
Proof.
  intros [Hp0 (d & -> & Hd)] Hval Hm.
  destruct (dirtoMap_lookups idx d src m val Hp0 Hd) as (Hdir & Hself & Hanc & Hframe).
  set (m' := dirtoMap idx (d +:+ "/") src m val) in *.
  assert (∀ q sa, fits q → (∃ x, q = x +:+ "/") → hinted idx m (mkkey q sa) →
    hinted idx m' (mkkey q sa)) as Hkeep.
  { intros q sa Hq [x Hx] (w & Hw & Hh).
    destruct (decide (mkkey q sa = mkkey (d +:+ "/") (arr src))) as [Heq|Hne1].
    { rewrite Heq in *. destruct Hdir as (v & Hv & He). exists v. split; [done|].
      unfold dir_entry in He. rewrite Hw, Hh in He. rewrite He. by apply has_bit_lor_r. }
    destruct (decide (mkkey q sa = mkkey d (arr src))) as [Heq|Hne2].
    { apply mkkey_inj in Heq as [Heq _]; [|done|by apply fits_app_l in Hp0].
      exfalso. subst q. by eapply Hd. }
    destruct (decide (ancestor q (d +:+ "/") ∧ sa = arr src)) as [[Ha ->]|Hna].
    { destruct (Hanc q Ha) as (v & Hv & [Hh' _]). by exists v. }
    exists w. split; [|done]. rewrite Hframe; [done..|].
    intros q' Hq' [-> ->]%mkkey_inj; [by apply Hna|done|by apply (ancestor_fits _ _ Hp0)]. }
  intros q sa v Hq Hv Hbit q2 Hq2.
  assert (fits q2) as Hfq2 by by apply (ancestor_fits q2 q).
  destruct (decide (mkkey q sa = mkkey (d +:+ "/") (arr src))) as [Heq|Hne1].
  { apply mkkey_inj in Heq as [-> ->]; [|done..].
    destruct (Hanc q2 Hq2) as (w & Hw & [Hh _]). by exists w. }
  destruct (decide (mkkey q sa = mkkey d (arr src))) as [Heq|Hne2]; [congruence|].
  destruct (decide (ancestor q (d +:+ "/") ∧ sa = arr src)) as [[Ha ->]|Hna].
  { destruct (Hanc q2) as (w & Hw & [Hh _]); [by eapply ancestor_trans|]. by exists w. }
  rewrite Hframe in Hv; [|done..|].
  - apply Hkeep; [done|by eapply ancestor_slash|]. by apply (Hm q sa v).
  - intros q' Hq' [-> ->]%mkkey_inj; [by apply Hna|done|by apply (ancestor_fits _ _ Hp0)].
Qed.

(** *** How far the walk gets *)

Lemma slash_prefixes_length n before path q :
  q ∈ slash_prefixes n before path → String.length q ≤ String.length before + n.
Proof.
  revert before path. induction n as [|n IH]; intros before [|c path];
    try (by intros []%elem_of_nil). cbn [slash_prefixes]. intros H.
  assert (String.length (before +:+ String c "") = S (String.length before)) as Hl.
  { rewrite string_app_length. simpl. lia. }
  destruct (Ascii.eqb c slash); [apply elem_of_cons in H as [->|H]; [lia|]|];
    apply IH in H; lia.
Qed.

Lemma walk_entries_incl idx sourced m sa l q : q ∈ walk_entries idx sourced m sa l → q ∈ l.
Proof.
  induction l as [|q' l IH]; simpl; [done|]. destruct (m !! _) as [v|]; [|by intros []%elem_of_nil].
  intros [->|H]%elem_of_cons; [by left|]. right. apply IH.
  by destruct (walk_stops _ _ _); [apply elem_of_nil in H|].
Qed.

Lemma hint_no_stop idx sourced v :
  has_bit (vget idx v) HINT = true → walk_stops idx sourced v = false.
Proof.
  intros H. unfold walk_stops. rewrite H, !andb_false_r. by repeat case_match.
Qed.

(** A walk passes the ancestors of a directory and reaches it. *)
Lemma walk_reaches idx sourced m sa n before rest tail d :
  before +:+ rest = d +:+ "/" → rest ≠ "" → String.length rest ≤ n →
  is_Some (m !! mkkey (d +:+ "/") sa) →
  (∀ q, ancestor q (d +:+ "/") → hinted idx m (mkkey q sa)) →
  d +:+ "/" ∈ walk_entries idx sourced m sa (slash_prefixes n before (rest +:+ tail)).
Proof.
  intros Heq Hne Hn [v Hv] Hanc. revert before n Heq Hne Hn.
  induction rest as [|c rest IH]; intros before n Heq Hne Hn; [done|].
  destruct n as [|n]; [simpl in Hn; lia|]. cbn [String.append slash_prefixes].
  assert (before +:+ String c "" +:+ rest = d +:+ "/") as Heq' by done.
  rewrite <- string_app_assoc in Heq'. simpl in Hn.
  destruct (decide (rest = "")) as [->|Hr].
  - rewrite string_app_nil_r in Heq'.
    destruct (ends_with_slash_no_nil before (String c "") d) as [r' Hc]; [done|done|].
    assert (c = slash) as ->.
    { destruct r' as [|c' r']; injection Hc as ->; [done|]. by destruct r'. }
    rewrite Heq'. simpl. rewrite Hv. left.
  - assert (d +:+ "/" ∈ walk_entries idx sourced m sa
              (slash_prefixes n (before +:+ String c "") (rest +:+ tail))) as H.
    { apply IH; [done..|lia]. }
    destruct (Ascii.eqb_spec c slash) as [->|]; [|done]. simpl.
    destruct (Hanc (before +:+ "/")) as (w & Hw & Hh).
    { exists before, rest. by split_and!. }
    change (String slash "") with "/". rewrite Hw, (hint_no_stop idx sourced w Hh). by right.
Qed.

Lemma walk_iff idx sourced m sa n d tail :
  is_Some (m !! mkkey (d +:+ "/") sa) →
  (∀ q, ancestor q (d +:+ "/") → hinted idx m (mkkey q sa)) →
  d +:+ "/" ∈ walk_entries idx sourced m sa (slash_prefixes n "" ((d +:+ "/") +:+ tail)) ↔
  String.length (d +:+ "/") ≤ n.
Proof.
  intros Hv Hanc. split.
  - intros H%walk_entries_incl%slash_prefixes_length. exact H.
  - intros Hl. by apply walk_reaches; [| destruct d| |..].
Qed.

Lemma kernel_walk_iff idx m sa d tail :
  is_Some (m !! mkkey (d +:+ "/") sa) →
  (∀ q, ancestor q (d +:+ "/") → hinted idx m (mkkey q sa)) →
  d +:+ "/" ∈ kernel_walk idx m sa ((d +:+ "/") +:+ tail) ↔
  String.length (d +:+ "/") ≤ walk_bytes.
Proof. apply walk_iff. Qed.

(** ** Frames

    A rule list has four independent parts; every generator step touches the
    entries and the posture of one of them only. *)

Inductive part := PProc | PFile | PNet | PCap.

#[export] Instance part_eq_dec : EqDecision part.
Proof. solve_decision. Defined.

Definition view (p : part) (r : RuleList) : RuleMap * bool :=
  match p with
  | PProc => (ProcessRuleList r, ProcWhiteListPosture r)
  | PFile => (FileRuleList r, FileWhiteListPosture r)
  | PNet => (NetworkRuleList r, NetWhiteListPosture r)
  | PCap => (CapabilitiesRuleList r, CapWhiteListPosture r)
  end.

Definition only (p : part) (r r' : RuleList) : Prop := ∀ q, q ≠ p → view q r' = view q r.

#[export] Instance only_preorder p : PreOrder (only p).
Proof.
  split; [by intros r q _|]. intros r1 r2 r3 H1 H2 q Hq. by rewrite H2, H1.
Qed.

Lemma only_foldl {S B : Type} (p : part) (get : S → RuleList) (f : S → B → S) l s :
  (∀ s b, only p (get s) (get (f s b))) → only p (get s) (get (foldl f s l)).
Proof.
  intros Hf. apply (foldl_inv (λ s', only p (get s) (get s'))); [reflexivity|].
  intros s' b _ Hs. by transitivity (get s').
Qed.

Lemma only_set_proc m w r : only PProc r (set_proc m w r).
Proof. by intros []. Qed.
Lemma only_set_file m w r : only PFile r (set_file m w r).
Proof. by intros []. Qed.
Lemma only_set_net m w r : only PNet r (set_net m w r).
Proof. by intros []. Qed.
Lemma only_set_cap m w r : only PCap r (set_cap m w r).
Proof. by intros []. Qed.
Lemma only_set_args a p r r' : only p r r' → only p r (set_args a r').
Proof. intros H q Hq. rewrite <- H by done. by destruct q. Qed.

#[export] Hint Resolve only_set_proc only_set_file only_set_net only_set_cap : go.
#[export] Hint Extern 1 (only _ ?r ?r) => reflexivity : go.

(** Case analysis on the Allow/Block test of a rule. *)
Ltac case_action a :=
  destruct (String.eqb_spec a "Allow"); [|destruct (String.eqb_spec a "Block")].

Lemma put_proc_only a k v r : only PProc r (put_proc a k v r).1.
Proof. unfold put_proc. case_action a; simpl; auto with go. Qed.
Lemma put_proc_dir_only a d s st : only PProc st.2 (put_proc_dir a d s st).2.
Proof. destruct st. unfold put_proc_dir. case_action a; simpl; auto with go. Qed.
Lemma put_file_only a k st : only PFile st.2 (put_file a k st).2.
Proof. destruct st. unfold put_file. case_action a; simpl; auto with go. Qed.
Lemma put_file_dir_only a d s st : only PFile st.2 (put_file_dir a d s st).2.
Proof. destruct st. unfold put_file_dir. case_action a; simpl; auto with go. Qed.
Lemma put_net_only a k st : only PNet st.2 (put_net a k st).2.
Proof. destruct st. unfold put_net. case_action a; simpl; auto with go. Qed.
Lemma put_cap_only a k st : only PCap st.2 (put_cap a k st).2.
Proof. destruct st. unfold put_cap. case_action a; simpl; auto with go. Qed.

(** The loop over the sources of a process path, with and without sources. *)
Definition proc_path_result (path : ProcessPathType) (r : RuleList) : InnerKey * RuleList :=
  match ppt_FromSource path with
  | [] => let key := fill_proc_key path zero_key in
          (key, (put_proc (ppt_Action path) key (proc_path_val path) r).1)
  | srcs => let '(key, _, r) :=
              foldl (proc_path_source path) (zero_key, proc_path_val path, r) srcs in (key, r)
  end.

Lemma proc_path_rule_eq ns r path :
  proc_path_rule ns r path =
  let '(key, r) := proc_path_result path r in
  if bool_decide (0 < List.length (ppt_AllowedArgs path))
  then set_args (<[{| al_NsKey := ns; al_InnerKey := key |} := ppt_AllowedArgs path]>
                   (ArgumentsList r)) r
  else r.
Proof. unfold proc_path_rule, proc_path_result. by destruct (ppt_FromSource path). Qed.

Lemma proc_path_source_only path st src : only PProc st.2 (proc_path_source path st src).2.
Proof.
  destruct st as [[key val] r]. unfold proc_path_source.
  pose proof (put_proc_only (ppt_Action path)
    (copy_source (ms_Path src) (fill_proc_key path key)) val r).
  by destruct (put_proc _ _ _ _).
Qed.

Lemma proc_path_result_only path r : only PProc r (proc_path_result path r).2.
Proof.
  unfold proc_path_result. destruct (ppt_FromSource path) as [|s l] eqn:E.
  - apply put_proc_only.
  - pose proof (only_foldl PProc snd (proc_path_source path) (s :: l)
      (zero_key, proc_path_val path, r) (proc_path_source_only path)) as H.
    by destruct (foldl _ _ _) as [[key v] r'].
Qed.

Lemma proc_path_rule_only ns r path : only PProc r (proc_path_rule ns r path).
Proof.
  rewrite proc_path_rule_eq. pose proof (proc_path_result_only path r) as H.
  destruct (proc_path_result path r) as [key r']. simpl in *.
  case_bool_decide; [|done]. by apply only_set_args.
Qed.

Lemma proc_dir_rule_only r dir : only PProc r (proc_dir_rule r dir).
Proof.
  unfold proc_dir_rule. destruct (pdt_FromSource dir).
  - apply (put_proc_dir_only _ _ _ (_, _)).
  - apply (only_foldl PProc snd _ _ (_, r)). intros. apply put_proc_dir_only.
Qed.
Lemma file_path_rule_only r path : only PFile r (file_path_rule r path).
Proof.
  unfold file_path_rule. destruct (fpt_FromSource path).
  - apply (put_file_only _ _ (_, _)).
  - apply (only_foldl PFile snd _ _ (_, r)). intros. apply put_file_only.
Qed.
Lemma file_dir_rule_only r dir : only PFile r (file_dir_rule r dir).
Proof.
  unfold file_dir_rule. destruct (fdt_FromSource dir).
  - apply (put_file_dir_only _ _ _ (_, _)).
  - apply (only_foldl PFile snd _ _ (_, r)). intros. apply put_file_dir_only.
Qed.
Lemma net_rule_only r net : only PNet r (net_rule r net).
Proof.
  unfold net_rule. destruct (npt_FromSource net).
  - apply (put_net_only _ _ (_, _)).
  - apply (only_foldl PNet snd _ _ (_, r)). intros. apply put_net_only.
Qed.
Lemma cap_rule_only C r cap : only PCap r (cap_rule C r cap).
Proof.
  unfold cap_rule. destruct (cct_FromSource cap).
  - apply (put_cap_only _ _ (_, _)).
  - apply (only_foldl PCap snd _ _ (_, r)). intros. apply put_cap_only.
Qed.

Lemma only_view p q r r' : only p r r' → q ≠ p → view q r' = view q r.
Proof. auto. Qed.

(** The part [p] of the result of a policy depends only on the rules of part [p]. *)
Section policy_view.
Context `{R : GoRange} (C : gmap string Z) (ns : NsKey).

Lemma foldl_only_view {B} p q (f : RuleList → B → RuleList) l r :
  (∀ r b, only p r (f r b)) → q ≠ p → view q (foldl f r l) = view q r.
Proof. intros Hf Hq. by apply (only_foldl p id f l r Hf). Qed.

Lemma policy_view_proc r pol :
  ∃ r', view PProc r' = view PProc r ∧
  view PProc (policy_rules C ns r pol) =
  view PProc (foldl proc_dir_rule (foldl (proc_path_rule ns) r'
    (pt_MatchPaths (ss_Process (sp_Spec pol))))
    (pt_MatchDirectories (ss_Process (sp_Spec pol)))).
Proof.
  exists r. split; [done|]. unfold policy_rules.
  rewrite (foldl_only_view PCap) by (done || apply cap_rule_only).
  rewrite (foldl_only_view PNet) by (done || apply net_rule_only).
  rewrite (foldl_only_view PFile) by (done || apply file_dir_rule_only).
  by rewrite (foldl_only_view PFile) by (done || apply file_path_rule_only).
Qed.

Lemma policy_view_file r pol :
  ∃ r', view PFile r' = view PFile r ∧
  view PFile (policy_rules C ns r pol) =
  view PFile (foldl file_dir_rule (foldl file_path_rule r'
    (ft_MatchPaths (ss_File (sp_Spec pol))))
    (ft_MatchDirectories (ss_File (sp_Spec pol)))).
Proof.
  unfold policy_rules. eexists; split.
  2:{ rewrite (foldl_only_view PCap) by (done || apply cap_rule_only).
      by rewrite (foldl_only_view PNet) by (done || apply net_rule_only). }
  rewrite (foldl_only_view PProc) by (done || apply proc_dir_rule_only).
  by rewrite (foldl_only_view PProc) by (done || apply proc_path_rule_only).
Qed.

Lemma policy_view_net r pol :
  ∃ r', view PNet r' = view PNet r ∧
  view PNet (policy_rules C ns r pol) =
  view PNet (foldl net_rule r'
    (handleAllNetworkRule (nt_MatchProtocols (ss_Network (sp_Spec pol))))).
Proof.
  unfold policy_rules. eexists; split.
  2:{ by rewrite (foldl_only_view PCap) by (done || apply cap_rule_only). }
  rewrite (foldl_only_view PFile) by (done || apply file_dir_rule_only).
  rewrite (foldl_only_view PFile) by (done || apply file_path_rule_only).
  rewrite (foldl_only_view PProc) by (done || apply proc_dir_rule_only).
  by rewrite (foldl_only_view PProc) by (done || apply proc_path_rule_only).
Qed.

Lemma policy_view_cap r pol :
  ∃ r', view PCap r' = view PCap r ∧
  view PCap (policy_rules C ns r pol) =
  view PCap (foldl (cap_rule C) r' (ct_MatchCapabilities (ss_Capabilities (sp_Spec pol)))).
Proof.
  unfold policy_rules. eexists; split; [|reflexivity].
  rewrite (foldl_only_view PNet) by (done || apply net_rule_only).
  rewrite (foldl_only_view PFile) by (done || apply file_dir_rule_only).
  rewrite (foldl_only_view PFile) by (done || apply file_path_rule_only).
  rewrite (foldl_only_view PProc) by (done || apply proc_dir_rule_only).
  by rewrite (foldl_only_view PProc) by (done || apply proc_path_rule_only).
Qed.
End policy_view.
