(* ===== verification/BpfRulesProps.v ===== *)
(** Properties of the rule generator: every directory rule is reachable by the
    kernel's walk, the whitelist postures say whether an Allow rule exists, the
    entries have the masks of their rules, and Go's map order does not matter. *)
From Stdlib Require Import Ascii.
From S2P Require Import Prelude GoStrings Types BpfRules BpfRulesFacts.

(** ** Well-formed policies: what the CRD's path patterns require of paths *)

Definition proc_target (path : ProcessPathType) : string :=
  if bool_decide (0 < String.length (ppt_ExecName path)) then ppt_ExecName path
  else ppt_Path path.

Record wf_policy (pol : SecurityPolicy) : Prop := {
  wf_proc_paths : Forall (λ p, wf_path (proc_target p)) (pt_MatchPaths (ss_Process (sp_Spec pol)));
  wf_proc_dirs : Forall (λ d, wf_dir (pdt_Directory d)) (pt_MatchDirectories (ss_Process (sp_Spec pol)));
  wf_file_paths : Forall (λ p, wf_path (fpt_Path p)) (ft_MatchPaths (ss_File (sp_Spec pol)));
  wf_file_dirs : Forall (λ d, wf_dir (fdt_Directory d)) (ft_MatchDirectories (ss_File (sp_Spec pol))) }.

(** ** Walkability of the generated lists *)

Lemma vor_no_dir idx f v :
  Z.land f DIR = 0%Z → has_bit (vget idx v) DIR = false →
  has_bit (vget idx (vor idx f v)) DIR = false.
Proof. intros Hf Hv. rewrite vget_vor. by rewrite has_bit_lor_other. Qed.

Ltac no_dir := repeat case_match; repeat (apply vor_no_dir; [done|]); done.

Lemma proc_path_val_no_dir path : has_bit (vget PROCESS (proc_path_val path)) DIR = false.
Proof. unfold proc_path_val. no_dir. Qed.
Lemma proc_dir_val_no_dir d : has_bit (vget PROCESS (proc_dir_val d)) DIR = false.
Proof. unfold proc_dir_val. no_dir. Qed.
Lemma file_path_val_no_dir path : has_bit (vget FILE (file_path_val path)) DIR = false.
Proof. unfold file_path_val. no_dir. Qed.
Lemma file_dir_val_no_dir d : has_bit (vget FILE (file_dir_val d)) DIR = false.
Proof. unfold file_dir_val. no_dir. Qed.

(** The invariant of the loops over sources: the mask in hand has no [DIR] and
    the list is walkable. *)
Definition file_inv (st : val2 * RuleList) : Prop :=
  has_bit (vget FILE st.1) DIR = false ∧ walkable FILE (FileRuleList st.2).
Definition proc_inv (st : val2 * RuleList) : Prop :=
  has_bit (vget PROCESS st.1) DIR = false ∧ walkable PROCESS (ProcessRuleList st.2).

Lemma put_file_inv a p sa st : wf_path p → file_inv st → file_inv (put_file a (mkkey p sa) st).
Proof.
  destruct st as [v r]. intros Hp [Hv Hr]. unfold put_file, file_inv.
  case_action a; simpl; (split; [try apply vor_no_dir; done|]); [..|done];
    apply walkable_insert; try apply vor_no_dir; done.
Qed.

Lemma put_file_dir_inv a d s st : wf_dir d → file_inv st → file_inv (put_file_dir a d s st).
Proof.
  destruct st as [v r]. intros Hp [Hv Hr]. unfold put_file_dir, file_inv.
  case_action a; simpl; (split; [try apply vor_no_dir; done|]); [..|done];
    apply walkable_dirtoMap; try apply vor_no_dir; done.
Qed.

Lemma put_proc_dir_inv a d s st : wf_dir d → proc_inv st → proc_inv (put_proc_dir a d s st).
Proof.
  destruct st as [v r]. intros Hp [Hv Hr]. unfold put_proc_dir, proc_inv.
  case_action a; simpl; (split; [try apply vor_no_dir; done|]); [..|done];
    apply walkable_dirtoMap; try apply vor_no_dir; done.
Qed.

Lemma put_proc_inv a p sa v r :
  wf_path p → proc_inv (v, r) →
  proc_inv ((put_proc a (mkkey p sa) v r).2, (put_proc a (mkkey p sa) v r).1).
Proof.
  intros Hp [Hv Hr]. unfold put_proc, proc_inv.
  case_action a; simpl; (split; [try apply vor_no_dir; done|]); [..|done];
    apply walkable_insert; try apply vor_no_dir; done.
Qed.

Lemma file_path_rule_walkable r path :
  wf_path (fpt_Path path) → walkable FILE (FileRuleList r) →
  walkable FILE (FileRuleList (file_path_rule r path)).
Proof.
  intros Hp Hr. unfold file_path_rule. pose proof (file_path_val_no_dir path).
  destruct (fpt_FromSource path) as [|s l].
  - apply (put_file_inv _ (fpt_Path path) zeros256 (_, r)); done.
  - apply (foldl_inv file_inv _ (s :: l) (_, r)); [done|].
    intros st src _. by apply (put_file_inv _ (fpt_Path path) (arr (ms_Path src))).
Qed.

Lemma file_dir_rule_walkable r dir :
  wf_dir (fdt_Directory dir) → walkable FILE (FileRuleList r) →
  walkable FILE (FileRuleList (file_dir_rule r dir)).
Proof.
  intros Hp Hr. unfold file_dir_rule. pose proof (file_dir_val_no_dir dir).
  destruct (fdt_FromSource dir) as [|s l].
  - apply (put_file_dir_inv _ _ _ (_, r)); done.
  - apply (foldl_inv file_inv _ (s :: l) (_, r)); [done|].
    intros st src _. by apply put_file_dir_inv.
Qed.

Lemma proc_dir_rule_walkable r dir :
  wf_dir (pdt_Directory dir) → walkable PROCESS (ProcessRuleList r) →
  walkable PROCESS (ProcessRuleList (proc_dir_rule r dir)).
Proof.
  intros Hp Hr. unfold proc_dir_rule. pose proof (proc_dir_val_no_dir dir).
  destruct (pdt_FromSource dir) as [|s l].
  - apply (put_proc_dir_inv _ _ _ (_, r)); done.
  - apply (foldl_inv proc_inv _ (s :: l) (_, r)); [done|].
    intros st src _. by apply put_proc_dir_inv.
Qed.

(** The path field of the loop variable of a process rule. *)
Lemma fill_proc_key_arr path key :
  fits (proc_target path) → ik_Path key = zeros256 ∨ ik_Path key = arr (proc_target path) →
  fill_proc_key path key = mkkey (proc_target path) (ik_Source key).
Proof.
  intros Hf Hk. unfold fill_proc_key, proc_target, copy_path, mkkey in *.
  case_bool_decide; destruct Hk as [->| ->]; try done; f_equal; by apply go_copy_arr_prefix.
Qed.

Lemma proc_path_result_walkable path r :
  wf_path (proc_target path) → walkable PROCESS (ProcessRuleList r) →
  walkable PROCESS (ProcessRuleList (proc_path_result path r).2).
Proof.
  intros Hp Hr. unfold proc_path_result. pose proof (proc_path_val_no_dir path) as Hv.
  destruct (ppt_FromSource path) as [|s l].
  - rewrite fill_proc_key_arr; [|apply Hp|by left]. by apply put_proc_inv.
  - assert (∀ st : InnerKey * val2 * RuleList,
      (ik_Path st.1.1 = zeros256 ∨ ik_Path st.1.1 = arr (proc_target path)) ∧
        proc_inv (st.1.2, st.2) → proc_inv (st.1.2, st.2)) as Hproj by by intros st [_ ?].
    pose proof (foldl_inv (λ st, (ik_Path st.1.1 = zeros256 ∨
        ik_Path st.1.1 = arr (proc_target path)) ∧ proc_inv (st.1.2, st.2))
      (proc_path_source path) (s :: l) (zero_key, proc_path_val path, r)) as H.
    destruct (foldl _ _ _) as [[key v] r'].
    apply H; [by split; [left|]|]. clear H. intros [[key' v'] r''] src _ [Hk Hi].
    simpl in Hk, Hi. unfold proc_path_source. rewrite fill_proc_key_arr by (done || apply Hp).
    set (k := copy_source _ _).
    assert (k = mkkey (proc_target path) (ik_Source k)) as Ek by done.
    pose proof (put_proc_inv (ppt_Action path) (proc_target path) (ik_Source k) v' r'' Hp Hi).
    rewrite <- Ek in *. destruct (put_proc _ k v' r''). simpl in *. split; [by right|done].
Qed.

Lemma ProcessRuleList_set_args a r : ProcessRuleList (set_args a r) = ProcessRuleList r.
Proof. done. Qed.

Lemma proc_path_rule_walkable ns r path :
  wf_path (proc_target path) → walkable PROCESS (ProcessRuleList r) →
  walkable PROCESS (ProcessRuleList (proc_path_rule ns r path)).
Proof.
  intros Hp Hr. rewrite proc_path_rule_eq.
  pose proof (proc_path_result_walkable path r Hp Hr) as H.
  destruct (proc_path_result path r) as [key r']. simpl in H. by case_bool_decide.
Qed.

(** ** Fusion of process and file masks *)

Section fuse.
Context `{R : GoRange, !GoRangeLaw R}.

Definition fuse_entry (procList : RuleMap) (kv : InnerKey * val2) : val2 :=
  match procList !! kv.1 with
  | Some val => vset PROCESS (vget PROCESS val) kv.2
  | None => kv.2
  end.

Lemma fuse_lookup (procList fileList : RuleMap) k :
  fuseProcAndFileRules procList fileList !! k =
  (λ v, fuse_entry procList (k, v)) <$> fileList !! k.
Proof.
  unfold fuseProcAndFileRules. set (f := λ m kv, _).
  assert (∀ l m, NoDup l.*1 → (∀ kv, kv ∈ l → m !! kv.1 = Some kv.2) →
    (∀ v, (k, v) ∈ l → foldl f m l !! k = Some (fuse_entry procList (k, v))) ∧
    (k ∉ l.*1 → foldl f m l !! k = m !! k)) as H.
  { induction l as [|[k' v'] l IH]; intros m Hnd Hm; [set_solver|].
    apply list.NoDup_cons in Hnd as [Hk' Hnd]. simpl in Hk'.
    assert (f m (k', v') !! k' = Some (fuse_entry procList (k', v')) ∧
            ∀ j, j ≠ k' → f m (k', v') !! j = m !! j) as [Hf Hfne].
    { unfold f, fuse_entry. simpl. destruct (procList !! k').
      - split; [apply lookup_insert_eq|]. intros. by apply lookup_insert_ne.
      - split; [|done]. apply (Hm (k', v')). left. }
    destruct (IH (f m (k', v')) Hnd) as [IH1 IH2].
    { intros kv Hkv. rewrite Hfne; [apply Hm; by right|].
      intros <-. apply Hk'. by apply list_elem_of_fmap_2. }
    split.
    - intros v [Heq|Hin]%elem_of_cons; simpl; [|by apply IH1].
      simplify_eq. by rewrite IH2.
    - simpl. intros Hk. rewrite IH2, Hfne by set_solver. done. }
  destruct (H (go_range fileList) fileList (NoDup_go_range fileList)) as [H1 H2].
  { intros [k' v'] Hin. by apply elem_of_go_range. }
  destruct (fileList !! k) as [v|] eqn:Hk; simpl.
  - apply H1. by apply elem_of_go_range.
  - rewrite H2; [done|]. intros ([k' v'] & -> & Hin)%list_elem_of_fmap.
    apply elem_of_go_range in Hin. simpl in Hk. congruence.
Qed.

Lemma fuse_file_mask procList kv : vget FILE (fuse_entry procList kv) = vget FILE kv.2.
Proof. unfold fuse_entry. by destruct (procList !! kv.1). Qed.

Lemma fuse_walkable procList fileList :
  walkable FILE fileList → walkable FILE (fuseProcAndFileRules procList fileList).
Proof.
  intros Hw p sa v Hp Hv Hd q Hq. rewrite fuse_lookup in Hv.
  apply fmap_Some in Hv as (v0 & Hv0 & ->). rewrite fuse_file_mask in Hd.
  destruct (Hw p sa v0 Hp Hv0 Hd q Hq) as (w & Hw' & Hh).
  eexists. rewrite fuse_lookup, Hw'. split; [reflexivity|]. by rewrite fuse_file_mask.
Qed.
End fuse.

(** ** Rules that write the same value at every key

    File, network and capability rules set one mask at the key of every source. *)

Definition insert_const (ks : list InnerKey) (v : val2) (m : RuleMap) : RuleMap :=
  foldl (λ m k, <[k := v]> m) m ks.

Lemma insert_const_lookup ks v m k :
  insert_const ks v m !! k = if decide (k ∈ ks) then Some v else m !! k.
Proof.
  revert m. induction ks as [|k' ks IH]; intros m; simpl; [done|].
  fold (insert_const ks v (<[k' := v]> m)). rewrite IH.
  destruct (decide (k ∈ ks)) as [Hk|Hk], (decide (k ∈ k' :: ks)) as [Hk'|Hk'];
    try done; try set_solver.
  - apply elem_of_cons in Hk' as [->|]; [apply lookup_insert_eq|done].
  - apply lookup_insert_ne. set_solver.
Qed.

Lemma insert_const_ext ks ks' v m :
  (∀ k, k ∈ ks ↔ k ∈ ks') → insert_const ks v m = insert_const ks' v m.
Proof.
  intros H. apply map_eq; intros k. rewrite !insert_const_lookup.
  destruct (decide (k ∈ ks)), (decide (k ∈ ks')); naive_solver.
Qed.

Lemma insert_const_app ks ks' v m :
  insert_const ks' v (insert_const ks v m) = insert_const (ks ++ ks') v m.
Proof. unfold insert_const. by rewrite foldl_app. Qed.

Lemma vor_twice i f v : vor i f (vor i f v) = vor i f v.
Proof.
  unfold vor, vset, vget. destruct (i =? 0)%Z; simpl;
    by rewrite <- Z.lor_assoc, Z.lor_diag.
Qed.

Lemma foldl_fmap_eq {A B C} (f : A → B → A) (g : C → B) l a :
  foldl (λ a c, f a (g c)) a l = foldl f a (g <$> l).
Proof. revert a. induction l; simpl; auto. Qed.

(** The keys of a rule on [key] with its sources. *)
Definition source_keys (with_src : string → InnerKey → InnerKey) (key : InnerKey)
    (srcs : list MatchSourceType) : list InnerKey :=
  match srcs with [] => [key] | _ => (λ src, with_src (ms_Path src) key) <$> srcs end.

(** The three [put] functions are one function over the part they write. *)
Section put_all.
Context (get : RuleList → RuleMap) (post : RuleList → bool)
        (set : RuleMap → bool → RuleList → RuleList) (idx : Z).
Context (get_set : ∀ m w r, get (set m w r) = m) (post_set : ∀ m w r, post (set m w r) = w)
        (set_set : ∀ m w m' w' r, set m w (set m' w' r) = set m w r).

Definition put_one (a : string) (key : InnerKey) (st : val2 * RuleList) : val2 * RuleList :=
  let '(val, r) := st in
  if String.eqb a "Allow" then (val, set (<[key := val]> (get r)) true r)
  else if String.eqb a "Block" then
    let val := vor idx DENY val in (val, set (<[key := val]> (get r)) (post r) r)
  else (val, r).

(** The effect of a rule: [val] at every key, with [DENY] if it blocks. *)
Definition put_all (a : string) (ks : list InnerKey) (val : val2) (r : RuleList) : RuleList :=
  if String.eqb a "Allow" then set (insert_const ks val (get r)) true r
  else if String.eqb a "Block" then set (insert_const ks (vor idx DENY val) (get r)) (post r) r
  else r.

Lemma put_one_loop a k ks val r :
  (foldl (λ st k, put_one a k st) (val, r) (k :: ks)).2 = put_all a (k :: ks) val r.
Proof.
  revert k val r. induction ks as [|k' ks IH]; intros k val r.
  - simpl. unfold put_all, put_one. by case_action a.
  - assert ((put_one a k (val, r)).1 = val ∨ a = "Block") as Hv.
    { unfold put_one. case_action a; auto. }
    change (foldl ?f ?s (k :: k' :: ks)) with (foldl f (f s k) (k' :: ks)). cbv beta.
    destruct (put_one a k (val, r)) as [v' r'] eqn:E. rewrite IH.
    unfold put_one in E. unfold put_all. simpl in Hv.
    case_action a; simplify_eq; rewrite ?get_set, ?post_set, ?set_set, ?vor_twice; done.
Qed.

Lemma put_one_sources ws a key srcs val r :
  match srcs with
  | [] => (put_one a key (val, r)).2
  | _ => (foldl (λ st src, put_one a (ws (ms_Path src) key) st) (val, r) srcs).2
  end = put_all a (source_keys ws key srcs) val r.
Proof.
  destruct srcs as [|s l]; [apply (put_one_loop a key [])|].
  unfold source_keys. rewrite fmap_cons, <- put_one_loop.
  change (?x :: (?f <$> l)) with (f <$> s :: l).
  by rewrite <- (foldl_fmap_eq (λ st k, put_one a k st)).
Qed.

Lemma put_all_app a ks ks' val r :
  put_all a ks' val (put_all a ks val r) = put_all a (ks ++ ks') val r.
Proof.
  unfold put_all. case_action a; [..|done];
    by rewrite get_set, ?post_set, set_set, insert_const_app.
Qed.

Lemma put_all_ext a ks ks' val r :
  (∀ k, k ∈ ks ↔ k ∈ ks') → put_all a ks val r = put_all a ks' val r.
Proof. intros H. unfold put_all. case_action a; by rewrite ?(insert_const_ext ks ks'). Qed.

Lemma put_all_lookup a ks val r k :
  get (put_all a ks val r) !! k =
  if decide (k ∈ ks) then
    if String.eqb a "Allow" then Some val
    else if String.eqb a "Block" then Some (vor idx DENY val) else get r !! k
  else get r !! k.
Proof.
  unfold put_all. case_action a; rewrite ?get_set, ?insert_const_lookup; [done..|].
  by case_decide.
Qed.

Lemma put_all_posture a ks val r :
  post (put_all a ks val r) = String.eqb a "Allow" || post r.
Proof. unfold put_all. case_action a; by rewrite ?post_set. Qed.
End put_all.

Definition put_files := put_all FileRuleList FileWhiteListPosture set_file FILE.
Definition put_nets := put_all NetworkRuleList NetWhiteListPosture set_net NETWORK.
Definition put_caps := put_all CapabilitiesRuleList CapWhiteListPosture set_cap CAPABILITIES.

Lemma file_path_rule_eq r path :
  file_path_rule r path =
  put_files (fpt_Action path)
    (source_keys copy_source (copy_path (fpt_Path path) zero_key) (fpt_FromSource path))
    (file_path_val path) r.
Proof.
  unfold file_path_rule, put_files. rewrite <- put_one_sources by done.
  unfold file_path_rule. by destruct (fpt_FromSource path).
Qed.

Lemma net_rule_eq r net :
  net_rule r net =
  put_nets (npt_Action net)
    (source_keys with_source (net_key (npt_Protocol net)) (npt_FromSource net)) zero_val r.
Proof.
  unfold net_rule, put_nets. rewrite <- put_one_sources by done.
  unfold net_rule. by destruct (npt_FromSource net).
Qed.

Lemma cap_rule_eq C r cap :
  cap_rule C r cap =
  put_caps (cct_Action cap)
    (source_keys with_source (cap_key C (cct_Capability cap)) (cct_FromSource cap)) zero_val r.
Proof.
  unfold cap_rule, put_caps. rewrite <- put_one_sources by done.
  unfold cap_rule. by destruct (cct_FromSource cap).
Qed.

(** ** Whitelist postures *)

Definition is_allow (a : string) : bool := String.eqb a "Allow".

Lemma foldl_flag {S B} (get : S → bool) (f : S → B → S) (flag : B → bool) l s :
  (∀ s x, x ∈ l → get (f s x) = flag x || get s) →
  get (foldl f s l) = existsb flag l || get s.
Proof.
  revert s. induction l as [|x l IH]; intros s Hf; [done|]. simpl.
  rewrite IH by (intros; apply Hf; by right). rewrite Hf by left.
  by destruct (flag x), (existsb flag l), (get s).
Qed.

Lemma foldl_flag_const {S B} (get : S → bool) (f : S → B → S) b x l s :
  (∀ s x, get (f s x) = b || get s) → get (foldl f s (x :: l)) = b || get s.
Proof.
  intros Hf. rewrite (foldl_flag get f (λ _, b)) by done. simpl.
  by destruct b; simpl; [|induction l].
Qed.

Lemma put_proc_posture a k v r :
  ProcWhiteListPosture (put_proc a k v r).1 = is_allow a || ProcWhiteListPosture r.
Proof. unfold put_proc, is_allow. by case_action a. Qed.
Lemma put_proc_dir_posture a d s st :
  ProcWhiteListPosture (put_proc_dir a d s st).2 = is_allow a || ProcWhiteListPosture st.2.
Proof. destruct st. unfold put_proc_dir, is_allow. by case_action a. Qed.
Lemma put_file_dir_posture a d s st :
  FileWhiteListPosture (put_file_dir a d s st).2 = is_allow a || FileWhiteListPosture st.2.
Proof. destruct st. unfold put_file_dir, is_allow. by case_action a. Qed.

Lemma proc_path_rule_posture ns r path :
  ProcWhiteListPosture (proc_path_rule ns r path) =
  is_allow (ppt_Action path) || ProcWhiteListPosture r.
Proof.
  rewrite proc_path_rule_eq.
  assert (ProcWhiteListPosture (proc_path_result path r).2 =
          is_allow (ppt_Action path) || ProcWhiteListPosture r) as H.
  { unfold proc_path_result. destruct (ppt_FromSource path) as [|s l].
    - apply put_proc_posture.
    - transitivity (ProcWhiteListPosture
        (foldl (proc_path_source path) (zero_key, proc_path_val path, r) (s :: l)).2).
      + by destruct (foldl _ _ _) as [[??]?].
      + apply (foldl_flag_const (λ st, ProcWhiteListPosture st.2)).
        intros [[k v] r'] x. simpl. rewrite <- (put_proc_posture _
          (copy_source (ms_Path x) (fill_proc_key path k)) v). by destruct (put_proc _ _ _ _). }
  destruct (proc_path_result path r). by case_bool_decide.
Qed.

Lemma proc_dir_rule_posture r dir :
  ProcWhiteListPosture (proc_dir_rule r dir) =
  is_allow (pdt_Action dir) || ProcWhiteListPosture r.
Proof.
  unfold proc_dir_rule. destruct (pdt_FromSource dir) as [|s l].
  - apply (put_proc_dir_posture _ _ _ (_, _)).
  - apply (foldl_flag_const (λ st, ProcWhiteListPosture st.2)).
    intros. apply put_proc_dir_posture.
Qed.

Lemma file_dir_rule_posture r dir :
  FileWhiteListPosture (file_dir_rule r dir) =
  is_allow (fdt_Action dir) || FileWhiteListPosture r.
Proof.
  unfold file_dir_rule. destruct (fdt_FromSource dir) as [|s l].
  - apply (put_file_dir_posture _ _ _ (_, _)).
  - apply (foldl_flag_const (λ st, FileWhiteListPosture st.2)).
    intros. apply put_file_dir_posture.
Qed.

Lemma file_path_rule_posture r path :
  FileWhiteListPosture (file_path_rule r path) =
  is_allow (fpt_Action path) || FileWhiteListPosture r.
Proof. rewrite file_path_rule_eq. by apply put_all_posture. Qed.
Lemma net_rule_posture r net :
  NetWhiteListPosture (net_rule r net) = is_allow (npt_Action net) || NetWhiteListPosture r.
Proof. rewrite net_rule_eq. by apply put_all_posture. Qed.
Lemma cap_rule_posture C r cap :
  CapWhiteListPosture (cap_rule C r cap) = is_allow (cct_Action cap) || CapWhiteListPosture r.
Proof. rewrite cap_rule_eq. by apply put_all_posture. Qed.

(** ** The expansion of the [all] protocol *)

(** Two protocol lists that generate the same rules. *)
Definition same_rules (l l' : list NetworkProtocolType) : Prop :=
  ∀ r, foldl net_rule r l = foldl net_rule r l'.

#[export] Instance same_rules_equiv : Equivalence same_rules.
Proof.
  split; [by intros l r | by intros l l' H r | intros l1 l2 l3 H1 H2 r; by rewrite H1].
Qed.

#[export] Instance same_rules_app : Proper (same_rules ==> same_rules ==> same_rules) app.
Proof. intros l1 l1' H1 l2 l2' H2 r. by rewrite !foldl_app, H1, H2. Qed.

(** Rules with one action collapse into one write of all their keys. *)
Definition proto_keys (net : NetworkProtocolType) : list InnerKey :=
  source_keys with_source (net_key (npt_Protocol net)) (npt_FromSource net).

Lemma net_rules_one_action a l r :
  (∀ net, net ∈ l → npt_Action net = a) → l ≠ [] →
  foldl net_rule r l = put_nets a (l ≫= proto_keys) zero_val r.
Proof.
  intros Ha Hl. destruct l as [|n l]; [done|]. clear Hl. revert n r Ha.
  induction l as [|n' l IH]; intros n r Ha.
  - simpl. rewrite net_rule_eq, (app_nil_r (proto_keys n)), Ha by left. done.
  - rewrite bind_cons. change (foldl net_rule r (n :: n' :: l))
      with (foldl net_rule (net_rule r n) (n' :: l)).
    rewrite IH by (intros; apply Ha; by right). rewrite net_rule_eq, (Ha n) by left.
    unfold put_nets. by apply put_all_app.
Qed.

Lemma same_rules_one_action a l l' :
  (∀ net, net ∈ l → npt_Action net = a) → (∀ net, net ∈ l' → npt_Action net = a) →
  (l = [] ↔ l' = []) →
  (∀ k, k ∈ l ≫= proto_keys ↔ k ∈ l' ≫= proto_keys) → same_rules l l'.
Proof.
  intros H1 H2 Hnil Hk r. destruct (decide (l = [])) as [->|Hne].
  - by destruct Hnil as [-> _].
  - rewrite !(net_rules_one_action a) by naive_solver. by apply put_all_ext.
Qed.

Lemma source_keys_elem ws key srcs srcs' k :
  (∀ s, s ∈ srcs ↔ s ∈ srcs') → k ∈ source_keys ws key srcs → k ∈ source_keys ws key srcs'.
Proof.
  intros H. unfold source_keys. destruct srcs as [|s l].
  - destruct srcs' as [|s' l']; [done|]. specialize (H s'). set_solver.
  - intros (src & -> & Hs)%list_elem_of_fmap. apply H in Hs.
    destruct srcs' as [|s' l']; [by apply not_elem_of_nil in Hs|].
    apply list_elem_of_fmap. eauto.
Qed.

Section two_orders.
Context (R1 R2 : GoRange) {L1 : GoRangeLaw R1} {L2 : GoRangeLaw R2}.

Lemma go_range_perm2 {K V} `{Countable K} (m : gmap K V) :
  go_range (GoRange:=R1) m ≡ₚ go_range (GoRange:=R2) m.
Proof. by rewrite (go_range_perm (R:=R1)), (go_range_perm (R:=R2)). Qed.

Lemma all_types_same a srcs srcs' :
  (∀ s, s ∈ srcs ↔ s ∈ srcs') →
  same_rules (all_types (R:=R1) a srcs) (all_types (R:=R2) a srcs').
Proof.
  intros Hs. unfold all_types.
  apply (same_rules_one_action a).
  1,2: by intros net (kv & -> & _)%list_elem_of_fmap.
  - pose proof (go_range_perm2 netType) as Hp.
    split; intros Hn%fmap_nil_inv; rewrite Hn in Hp;
      [apply Permutation_nil_l in Hp; by rewrite <- Hp|apply Permutation_nil_r in Hp; by rewrite Hp].
  - assert (∀ P1 P2 : list (string * Z), P1 ≡ₚ P2 → ∀ s s', (∀ x, x ∈ s ↔ x ∈ s') →
      ∀ k, k ∈ ((λ kv, mk_proto kv.1 a s) <$> P1) ≫= proto_keys →
           k ∈ ((λ kv, mk_proto kv.1 a s') <$> P2) ≫= proto_keys) as H.
    { intros P1 P2 HP s s' Hss k (net & Hk & (kv & -> & Hin)%list_elem_of_fmap)%list_elem_of_bind.
      apply list_elem_of_bind. exists (mk_proto kv.1 a s'). split.
      - by apply (source_keys_elem _ _ s).
      - apply list_elem_of_fmap. exists kv. by rewrite <- HP. }
    intros k. split; apply H; try apply go_range_perm2; try done.
    symmetry. apply go_range_perm2.
Qed.

Definition same_state (st st' : AllState) : Prop :=
  same_rules (as_protocols st) (as_protocols st') ∧
  as_noSourceAllow st = as_noSourceAllow st' ∧ as_noSourceBlock st = as_noSourceBlock st' ∧
  as_sourcesAllow st = as_sourcesAllow st' ∧ as_sourcesBlock st = as_sourcesBlock st'.

Lemma all_source_same a st st' src :
  same_state st st' → same_state (all_source a st src) (all_source a st' src).
Proof. intros (? & ? & ? & Ha & Hb). unfold all_source, same_state. simpl. by rewrite Ha, Hb. Qed.

Lemma all_step_same st st' net :
  same_state st st' → same_state (all_step (R:=R1) st net) (all_step (R:=R2) st' net).
Proof.
  intros H. unfold all_step. destruct (String.eqb (ToUpper _) _); [|done].
  destruct (npt_FromSource net) as [|s l].
  - destruct H as (Hp & Hna & Hnb & Ha & Hb). rewrite Hna, Hnb.
    repeat case_match; unfold same_state; simpl; split_and!; try done.
    all: by apply same_rules_app, all_types_same.
  - apply foldl_rel; [done|]. intros. by apply all_source_same.
Qed.

Lemma all_sources_same a m :
  same_rules (all_sources (R:=R1) a m) (all_sources (R:=R2) a m).
Proof.
  unfold all_sources. case_bool_decide; [|done]. apply all_types_same.
  intros s. by rewrite go_range_perm2.
Qed.

Lemma handleAll_same protos :
  same_rules (handleAllNetworkRule (R:=R1) protos) (handleAllNetworkRule (R:=R2) protos).
Proof.
  unfold handleAllNetworkRule. apply same_rules_app; [done|].
  match goal with |- context [foldl (all_step (R:=R1)) ?a protos] =>
    assert (same_state (foldl (all_step (R:=R1)) a protos) (foldl (all_step (R:=R2)) a protos))
      as (Hp & _ & _ & -> & ->) end.
  { apply foldl_rel; [done|]. intros. by apply all_step_same. }
  repeat apply same_rules_app; [done|apply all_sources_same..].
Qed.

Lemma fuse_same p f :
  fuseProcAndFileRules (R:=R1) p f = fuseProcAndFileRules (R:=R2) p f.
Proof. apply map_eq; intros k. by rewrite !fuse_lookup. Qed.

(** C39: The rule set of a container does not depend on the order in which Go
    ranges over its maps, although the expansion of the [all] protocol and the
    fusion of the process and file lists both range over maps. *)
Theorem fresh_rules_order_independent C ns pols :
  fresh_rules (R:=R1) C ns pols = fresh_rules (R:=R2) C ns pols.
Proof.
  unfold fresh_rules.
  assert (foldl (policy_rules (R:=R1) C ns) Init pols =
          foldl (policy_rules (R:=R2) C ns) Init pols) as ->.
  { apply foldl_ext_in. intros r pol _. unfold policy_rules. by rewrite handleAll_same. }
  by rewrite fuse_same.
Qed.
End two_orders.

(** The expansion adds an Allow rule only when one of the rules is an Allow rule. *)
Section all_allow.
Context `{R : GoRange, !GoRangeLaw R}.

Definition allows (l : list NetworkProtocolType) : bool :=
  existsb (λ net, is_allow (npt_Action net)) l.

Definition all_allow_inv (b : bool) (st : AllState) : Prop :=
  (allows (as_protocols st) = true → b = true) ∧ (as_sourcesAllow st ≠ ∅ → b = true).

Lemma allows_app l l' : allows (l ++ l') = allows l || allows l'.
Proof. apply existsb_app. Qed.

Lemma allows_types a srcs : allows (all_types a srcs) = true → is_allow a = true.
Proof.
  unfold allows. rewrite existsb_exists. intros (net & Hin & Ha).
  apply list_elem_of_In in Hin. by apply list_elem_of_fmap in Hin as (kv & -> & _).
Qed.

Lemma all_step_allow b st net :
  (is_allow (npt_Action net) = true → b = true) →
  all_allow_inv b st → all_allow_inv b (all_step st net).
Proof.
  intros Hb Hi. unfold all_step. destruct (String.eqb (ToUpper _) _); [|done].
  destruct (npt_FromSource net) as [|s l].
  - repeat case_match; try done; destruct Hi as [H1 H2]; split; simpl; try done;
      rewrite allows_app, orb_true_iff; intros [|Ht%allows_types]; auto.
  - apply foldl_inv; [done|]. intros st' src _ [H1 H2]. split; [done|]. simpl.
    destruct (as_sourcesAllow st' !! ms_Path src) eqn:E.
    + intros. apply H2. intros Hn. by rewrite Hn, lookup_empty in E.
    + fold (is_allow (npt_Action net)). destruct (is_allow (npt_Action net)); auto.
Qed.

Lemma handleAll_allows protos :
  allows (handleAllNetworkRule protos) = allows protos.
Proof.
  unfold handleAllNetworkRule. rewrite !allows_app.
  match goal with |- context [foldl all_step ?a protos] =>
    assert (all_allow_inv (allows protos) (foldl all_step a protos)) as [H1 H2] end.
  { apply foldl_inv; [by split|]. intros st net Hin. apply all_step_allow.
    intros H. unfold allows. apply existsb_exists. exists net.
    by rewrite <- list_elem_of_In. }
  destruct (allows protos); [done|]. simpl.
  apply orb_false_intro; [apply not_true_is_false; intros Ht; by apply H1 in Ht|].
  unfold all_sources. apply orb_false_intro; case_bool_decide as Hs; try done.
  - exfalso. enough (false = true) by done. apply H2. intros Hn.
    rewrite Hn, map_size_empty in Hs. lia.
  - apply not_true_is_false. by intros ?%allows_types.
Qed.
End all_allow.

(** ** The rule set of a container *)

(** The part [p] of the generated rules, through the part of one policy at a time. *)
Section fresh.
Context `{R : GoRange, !GoRangeLaw R} (C : gmap string Z) (ns : NsKey).

Lemma fresh_view_inv (P : RuleMap * bool → Prop) p pols :
  P (∅, false) →
  (∀ r pol, pol ∈ pols → P (view p r) → P (view p (policy_rules C ns r pol))) →
  P (view p (foldl (policy_rules C ns) Init pols)).
Proof.
  intros H0 Hs. apply (foldl_inv (λ r, P (view p r))); [by destruct p|]. auto.
Qed.

Lemma fresh_rules_hinted pols :
  Forall wf_policy pols →
  walkable PROCESS (ProcessRuleList (fresh_rules C ns pols)) ∧
  walkable FILE (FileRuleList (fresh_rules C ns pols)).
Proof.
  rewrite list.Forall_forall. intros Hwf. unfold fresh_rules. simpl. split.
  - apply (fresh_view_inv (λ v, walkable PROCESS v.1) PProc); [apply walkable_empty|].
    intros r pol Hin Hr. destruct (Hwf pol Hin) as [Hpp Hpd _ _].
    destruct (policy_view_proc C ns r pol) as (r' & Hr' & ->). rewrite <- Hr' in Hr.
    apply (foldl_inv (λ r, walkable PROCESS (ProcessRuleList r)));
      [|intros r0 b Hb; apply proc_dir_rule_walkable; exact (Forall_elem _ _ _ Hpd Hb)].
    apply (foldl_inv (λ r, walkable PROCESS (ProcessRuleList r))); [done|].
    intros r0 b Hb; apply proc_path_rule_walkable; exact (Forall_elem _ _ _ Hpp Hb).
  - apply fuse_walkable.
    apply (fresh_view_inv (λ v, walkable FILE v.1) PFile); [apply walkable_empty|].
    intros r pol Hin Hr. destruct (Hwf pol Hin) as [_ _ Hfp Hfd].
    destruct (policy_view_file C ns r pol) as (r' & Hr' & ->). rewrite <- Hr' in Hr.
    apply (foldl_inv (λ r, walkable FILE (FileRuleList r)));
      [|intros r0 b Hb; apply file_dir_rule_walkable; exact (Forall_elem _ _ _ Hfd Hb)].
    apply (foldl_inv (λ r, walkable FILE (FileRuleList r))); [done|].
    intros r0 b Hb; apply file_path_rule_walkable; exact (Forall_elem _ _ _ Hfp Hb).
Qed.

(** The path rules in the kernel's map: those of files are written over those of
    processes. *)
Definition path_rules (r : RuleList) : RuleMap := FileRuleList r ∪ ProcessRuleList r.

Definition dir_rule (idx : Z) (m : RuleMap) (d : string) (sa : byte_list) : Prop :=
  ∃ v, m !! mkkey (d +:+ "/") sa = Some v ∧ has_bit (vget idx v) DIR = true.

Lemma path_rules_proc pols k v :
  ProcessRuleList (fresh_rules C ns pols) !! k = Some v →
  ∃ w, path_rules (fresh_rules C ns pols) !! k = Some w ∧ vget PROCESS w = vget PROCESS v.
Proof.
  intros Hv. unfold path_rules. destruct (FileRuleList (fresh_rules C ns pols) !! k) as [w|] eqn:Hw.
  - exists w. split; [by apply lookup_union_Some_l|]. cbn in Hv, Hw. rewrite fuse_lookup in Hw.
    apply fmap_Some in Hw as (w0 & _ & ->). unfold fuse_entry. cbn [fst]. by rewrite Hv.
  - exists v. split; [|done]. by rewrite lookup_union_r.
Qed.

(** C8: The kernel's walk finds the directory rules of a container's rule set as far as it
    looks.  For any policies whose paths fit the 256-byte key and have the trailing slashes
    the CRD patterns require, in any order, whether for processes or for files: the walk
    over a path below a directory [d/] that has a rule from the source of the walk finds
    the entry of the rule exactly if [d/] has at most 64 bytes, although hints, path rules
    and directory rules overwrite each other's entries.  Rules for longer directories are
    in the map but are never found. *)
Theorem fresh_rules_walkable pols d sa tail :
  Forall wf_policy pols → fits (d +:+ "/") →
  let r := fresh_rules C ns pols in
  (dir_rule PROCESS (ProcessRuleList r) d sa →
   d +:+ "/" ∈ kernel_walk PROCESS (path_rules r) sa ((d +:+ "/") +:+ tail) ↔
   String.length (d +:+ "/") ≤ walk_bytes) ∧
  (dir_rule FILE (FileRuleList r) d sa →
   d +:+ "/" ∈ kernel_walk FILE (path_rules r) sa ((d +:+ "/") +:+ tail) ↔
   String.length (d +:+ "/") ≤ walk_bytes).
Proof.
  intros Hwf Hfits r. destruct (fresh_rules_hinted pols Hwf) as [Hproc Hfile].
  split; intros (v & Hv & Hd); apply kernel_walk_iff.
  - destruct (path_rules_proc pols _ v Hv) as (w & Hw & _). by eexists.
  - intros q Hq. destruct (Hproc _ _ v Hfits Hv Hd q Hq) as (w & Hw & Hh).
    destruct (path_rules_proc pols _ w Hw) as (w' & Hw' & E). exists w'. by rewrite E.
  - exists v. by apply lookup_union_Some_l.
  - intros q Hq. destruct (Hfile _ _ v Hfits Hv Hd q Hq) as (w & Hw & Hh).
    exists w. split; [by apply lookup_union_Some_l|done].
Qed.

(** A policy has an Allow rule in a part. *)
Definition policy_allows (p : part) (pol : SecurityPolicy) : bool :=
  let spec := sp_Spec pol in
  match p with
  | PProc => existsb (λ x, is_allow (ppt_Action x)) (pt_MatchPaths (ss_Process spec)) ||
             existsb (λ x, is_allow (pdt_Action x)) (pt_MatchDirectories (ss_Process spec))
  | PFile => existsb (λ x, is_allow (fpt_Action x)) (ft_MatchPaths (ss_File spec)) ||
             existsb (λ x, is_allow (fdt_Action x)) (ft_MatchDirectories (ss_File spec))
  | PNet => existsb (λ x, is_allow (npt_Action x)) (nt_MatchProtocols (ss_Network spec))
  | PCap => existsb (λ x, is_allow (cct_Action x))
                    (ct_MatchCapabilities (ss_Capabilities spec))
  end.

Lemma policy_posture p r pol :
  (view p (policy_rules C ns r pol)).2 = policy_allows p pol || (view p r).2.
Proof.
  destruct p; simpl policy_allows.
  - destruct (policy_view_proc C ns r pol) as (r' & <- & ->). simpl.
    rewrite (foldl_flag ProcWhiteListPosture _ (λ x, is_allow (pdt_Action x)))
      by (intros; apply proc_dir_rule_posture).
    rewrite (foldl_flag ProcWhiteListPosture _ (λ x, is_allow (ppt_Action x)))
      by (intros; apply proc_path_rule_posture).
    rewrite orb_assoc. f_equal. apply orb_comm.
  - destruct (policy_view_file C ns r pol) as (r' & <- & ->). simpl.
    rewrite (foldl_flag FileWhiteListPosture _ (λ x, is_allow (fdt_Action x)))
      by (intros; apply file_dir_rule_posture).
    rewrite (foldl_flag FileWhiteListPosture _ (λ x, is_allow (fpt_Action x)))
      by (intros; apply file_path_rule_posture).
    rewrite orb_assoc. f_equal. apply orb_comm.
  - destruct (policy_view_net C ns r pol) as (r' & <- & ->). simpl.
    rewrite (foldl_flag NetWhiteListPosture _ (λ x, is_allow (npt_Action x)))
      by (intros; apply net_rule_posture).
    by rewrite <- (handleAll_allows (nt_MatchProtocols _)).
  - destruct (policy_view_cap C ns r pol) as (r' & <- & ->). simpl.
    by rewrite (foldl_flag CapWhiteListPosture _ (λ x, is_allow (cct_Action x)))
      by (intros; apply cap_rule_posture).
Qed.

(** In each of the four parts the whitelist posture of the generated rule
    set is on exactly when some policy has an Allow rule in that part; the
    expansion of the [all] protocol neither adds nor loses one. *)
Theorem fresh_rules_posture p pols :
  (view p (fresh_rules C ns pols)).2 = existsb (policy_allows p) pols.
Proof.
  assert ((view p (foldl (policy_rules C ns) Init pols)).2 =
          existsb (policy_allows p) pols) as <-; [|by destruct p].
  rewrite (foldl_flag (λ r, (view p r).2) _ (policy_allows p))
    by (intros; apply policy_posture).
  destruct p; apply orb_false_r.
Qed.

(** *** The last rule on a key wins *)

Definition effect (a : string) : option val2 :=
  if String.eqb a "Allow" then Some zero_val
  else if String.eqb a "Block" then Some (DENY, 0%Z) else None.

Definition last_effect (k : InnerKey) (rules : list (list InnerKey * string))
    : option val2 :=
  list.last (omap (λ rule, if decide (k ∈ rule.1) then effect rule.2 else None) rules).

Lemma last_effect_snoc k rules rule :
  last_effect k (rules ++ [rule]) =
  match (if decide (k ∈ rule.1) then effect rule.2 else None) with
  | Some v => Some v
  | None => last_effect k rules
  end.
Proof.
  unfold last_effect. rewrite omap_app. simpl.
  destruct (if decide (k ∈ rule.1) then effect rule.2 else None); [apply last_snoc|].
  by rewrite app_nil_r.
Qed.

(** A loop of rules, each of which writes its effect at its keys. *)
Lemma last_effect_loop {B} (get : RuleList → RuleMap) (f : RuleList → B → RuleList)
    (rule : B → list InnerKey * string) k :
  (∀ r b, get (f r b) !! k =
     match (if decide (k ∈ (rule b).1) then effect (rule b).2 else None) with
     | Some v => Some v | None => get r !! k end) →
  ∀ l r done_, get r !! k = last_effect k done_ →
    get (foldl f r l) !! k = last_effect k (done_ ++ (rule <$> l)).
Proof.
  intros Hf. induction l as [|b l IH]; intros r done_ Hr; [by rewrite app_nil_r|].
  simpl. rewrite (IH _ (done_ ++ [rule b])); [by rewrite <- app_assoc|].
  by rewrite Hf, last_effect_snoc, Hr.
Qed.

Definition net_rule_of (net : NetworkProtocolType) : list InnerKey * string :=
  (proto_keys net, npt_Action net).
Definition cap_rule_of (cap : CapabilitiesCapabilityType) : list InnerKey * string :=
  (source_keys with_source (cap_key C (cct_Capability cap)) (cct_FromSource cap),
   cct_Action cap).

Lemma fresh_last_effect {B} p (f : RuleList → B → RuleList) rule (items : SecurityPolicy → list B) :
  (∀ r pol, ∃ r', view p r' = view p r ∧
     view p (policy_rules C ns r pol) = view p (foldl f r' (items pol))) →
  (∀ k r b, (view p (f r b)).1 !! k =
     match (if decide (k ∈ (rule b).1) then effect (rule b).2 else None) with
     | Some v => Some v | None => (view p r).1 !! k end) →
  ∀ pols k, (view p (foldl (policy_rules C ns) Init pols)).1 !! k =
    last_effect k (rule <$> (pols ≫= items)).
Proof.
  intros Hv Hf pols k. induction pols as [|pol pols IH] using rev_ind.
  - destruct p; apply lookup_empty.
  - rewrite foldl_app, bind_app, fmap_app.
    replace ([pol] ≫= items) with (items pol) by (simpl; by rewrite app_nil_r). simpl.
    destruct (Hv (foldl (policy_rules C ns) Init pols) pol) as (r' & Hr' & ->).
    apply (last_effect_loop (λ r, (view p r).1) f rule k (Hf k)). by rewrite Hr'.
Qed.

(** The network and capability entries of the rule set are those of the
    last rule, in policy order, whose keys (one per source, or one for no
    source) contain the key: an Allow rule gives the empty mask, a Block rule
    [DENY]; a key that no Allow or Block rule names has no entry. *)
Theorem fresh_rules_last_rule_wins pols k :
  NetworkRuleList (fresh_rules C ns pols) !! k =
    last_effect k (net_rule_of <$>
      (pols ≫= λ pol, handleAllNetworkRule (nt_MatchProtocols (ss_Network (sp_Spec pol))))) ∧
  CapabilitiesRuleList (fresh_rules C ns pols) !! k =
    last_effect k (cap_rule_of <$>
      (pols ≫= λ pol, ct_MatchCapabilities (ss_Capabilities (sp_Spec pol)))).
Proof.
  split.
  - apply (fresh_last_effect PNet net_rule); [apply policy_view_net|].
    intros k' r net. simpl. rewrite net_rule_eq. unfold put_nets.
    rewrite put_all_lookup by done. unfold effect, net_rule_of, cap_rule_of, proto_keys. simpl.
    case_decide; [|done]. by case_action (npt_Action net).
  - apply (fresh_last_effect PCap (cap_rule C)); [apply policy_view_cap|].
    intros k' r cap. simpl. rewrite cap_rule_eq. unfold put_caps.
    rewrite put_all_lookup by done. unfold effect, net_rule_of, cap_rule_of, proto_keys. simpl.
    case_decide; [|done]. by case_action (cct_Action cap).
Qed.
End fresh.

(** ** Functional behaviour of single rules *)

(** Adding a directory [d/] from source [src] to a rule list writes the
    directory key with the rule's mask, [DIR] and any [HINT] it already had;
    writes the rule's mask at [d] itself; gives every proper ancestor [HINT],
    keeping the mask of an ancestor that is itself a directory rule and writing no
    [DIR] otherwise; and leaves every other key alone. *)
Theorem dirtoMap_spec idx d src m val :
  fits (d +:+ "/") → no_trailing_slash d →
  let m' := dirtoMap idx (d +:+ "/") src m val in
  (∃ v, m' !! rule_key (d +:+ "/") src = Some v ∧
        dir_entry idx val (m !! rule_key (d +:+ "/") src) v) ∧
  m' !! rule_key d src = Some val ∧
  (∀ q, ancestor q (d +:+ "/") → ∃ v, m' !! rule_key q src = Some v ∧
        hint_entry idx (m !! rule_key q src) v) ∧
  (∀ k, k ≠ rule_key (d +:+ "/") src → k ≠ rule_key d src →
        (∀ q, ancestor q (d +:+ "/") → k ≠ rule_key q src) → m' !! k = m !! k).
Proof. intros Hp Hd. exact (dirtoMap_lookups idx d src m val Hp Hd). Qed.

(** The mask of a file path rule. *)
Definition file_mask (path : FilePathType) : val2 :=
  (0, Z.lor (Z.lor (Z.lor READ (if fpt_OwnerOnly path then OWNER else 0))
                   (if fpt_ReadOnly path then 0 else WRITE))
            (if is_allow (fpt_Action path) then 0 else DENY))%Z.

(** A file path rule with action Allow or Block writes, at the key of the path
    and each of its sources (the key with an empty source when it has none), the
    mask READ, with OWNER when owner-only, WRITE unless read-only and DENY when it
    blocks; a rule with another action writes nothing; no other key changes, and
    nothing but the file part of the rule list does. *)
Theorem file_path_rule_spec r path k :
  FileRuleList (file_path_rule r path) !! k =
    (if decide (k ∈ source_keys copy_source (copy_path (fpt_Path path) zero_key)
                      (fpt_FromSource path)) then
       if decide (fpt_Action path ∈ ["Allow"; "Block"]) then Some (file_mask path)
       else FileRuleList r !! k
     else FileRuleList r !! k) ∧
  only PFile r (file_path_rule r path).
Proof.
  split; [|apply file_path_rule_only].
  rewrite file_path_rule_eq. unfold put_files. rewrite put_all_lookup by done.
  destruct (decide (k ∈ _)); [|done]. unfold file_mask, file_path_val, is_allow.
  case_action (fpt_Action path); [rewrite decide_True by set_solver..|].
  1,2: by destruct (fpt_OwnerOnly path), (fpt_ReadOnly path).
  by rewrite decide_False by set_solver.
Qed.

(** Fusing copies the process mask of a key that both lists have into its file
    entry, so that the later write of the file entry to the kernel map, which
    process and file rules share, keeps the process rule; other entries and the
    key set are unchanged, whatever the order of the range over the file list. *)
Theorem fuseProcAndFileRules_spec `{R : GoRange, !GoRangeLaw R} procList fileList k :
  (fuseProcAndFileRules procList fileList !! k =
   match fileList !! k, procList !! k with
   | Some v, Some p => Some (p.1, v.2)
   | Some v, None => Some v
   | None, _ => None
   end).
Proof.
  rewrite fuse_lookup. destruct (fileList !! k) as [v|]; [|done]. simpl.
  unfold fuse_entry. simpl. by destruct (procList !! k).
Qed.

Definition proc_mask (path : ProcessPathType) : val2 :=
  (Z.lor (Z.lor (Z.lor EXEC (if ppt_OwnerOnly path then OWNER else 0))
                (match ppt_AllowedArgs path with [] => 0 | _ => ARGSET end))
         (if is_allow (ppt_Action path) then 0 else DENY), 0)%Z.

(** A process path rule with no source or one source, with action Allow or
    Block, writes one entry, at the key of its target (the executable name if
    given, else the path) and source, with EXEC, OWNER when owner-only, ARGSET when
    it restricts arguments and DENY when it blocks; and it records the allowed
    arguments under exactly that key, for the container's namespaces. *)
Theorem proc_path_rule_spec ns r path :
  List.length (ppt_FromSource path) ≤ 1 →
  ppt_Action path ∈ ["Allow"; "Block"] →
  let src := match ppt_FromSource path with [] => "" | s :: _ => ms_Path s end in
  let key := rule_key (proc_target path) src in
  ProcessRuleList (proc_path_rule ns r path) =
    <[key := proc_mask path]> (ProcessRuleList r) ∧
  ArgumentsList (proc_path_rule ns r path) =
    match ppt_AllowedArgs path with
    | [] => ArgumentsList r
    | args => <[{| al_NsKey := ns; al_InnerKey := key |} := args]> (ArgumentsList r)
    end.
Proof.
  intros Hl Ha src key.
  assert (∃ r', proc_path_result path r = (key, r') ∧
    ProcessRuleList r' = <[key := proc_mask path]> (ProcessRuleList r) ∧
    ArgumentsList r' = ArgumentsList r) as (r' & Hr & Hp & Hargs).
  { assert (∀ k, let '(r', _) := put_proc (ppt_Action path) k (proc_path_val path) r in
      ProcessRuleList r' = <[k := proc_mask path]> (ProcessRuleList r) ∧
      ArgumentsList r' = ArgumentsList r) as Hput.
    { intros k. unfold put_proc, proc_mask, proc_path_val, is_allow.
      case_action (ppt_Action path); [..|set_solver];
        by destruct (ppt_OwnerOnly path), (ppt_AllowedArgs path). }
    specialize (Hput key). unfold proc_path_result, key, src in *.
    destruct (ppt_FromSource path) as [|s [|]]; simpl in Hl |- *; [..|lia].
    - replace (fill_proc_key path zero_key) with (rule_key (proc_target path) "")
        by (unfold fill_proc_key, proc_target; by case_bool_decide).
      destruct (put_proc _ _ _ _) as [r' v]. eauto.
    - replace (copy_source (ms_Path s) (fill_proc_key path zero_key))
        with (rule_key (proc_target path) (ms_Path s))
        by (unfold fill_proc_key, proc_target; by case_bool_decide).
      destruct (put_proc _ _ _ _) as [r' v]. eauto. }
  rewrite proc_path_rule_eq, Hr.
  destruct (ppt_AllowedArgs path); simpl; by rewrite ?Hp, ?Hargs.
Qed.

(** ** What the generator does not get right *)

Definition two_sources : ProcessPathType :=
  {| ppt_Path := "/usr/bin/id"; ppt_ExecName := ""; ppt_OwnerOnly := false;
     ppt_FromSource := [{| ms_Path := "/bin/bash" |}; {| ms_Path := "/bin/sh" |}];
     ppt_AllowedArgs := []; ppt_Severity := 0; ppt_Tags := []; ppt_Message := "";
     ppt_Action := "Block" |}.

(** The loop over the sources of a process path reuses one key without
    clearing it: a rule for [/bin/bash] and then [/bin/sh] has no entry for
    [/bin/sh], and one for the non-existent source [/bin/shsh] instead. *)
Theorem proc_path_sources_mixed r ns :
  ProcessRuleList r = ∅ →
  let m := ProcessRuleList (proc_path_rule ns r two_sources) in
  m !! rule_key "/usr/bin/id" "/bin/bash" = Some (Z.lor EXEC DENY, 0%Z) ∧
  m !! rule_key "/usr/bin/id" "/bin/sh" = None ∧
  m !! rule_key "/usr/bin/id" "/bin/shsh" = Some (Z.lor EXEC DENY, 0%Z).
Proof.
  intros Hr. unfold proc_path_rule. simpl (ppt_FromSource two_sources). cbn [foldl].
  unfold proc_path_source, put_proc. simpl (ppt_Action two_sources). cbn [String.eqb].
  simpl. rewrite Hr. by vm_compute.
Qed.

(** No ICMPv6 network rule reaches the key of that protocol: the table is
    keyed by [ICMPv6] and looked up in upper case, so every spelling gets the
    all-zero key, which it shares with every unknown protocol. *)
Theorem icmpv6_never_keyed protocol :
  ToUpper protocol = "ICMPV6" → net_key protocol = zero_key.
Proof. intros H. unfold net_key. rewrite H. by vm_compute. Qed.

(** A capability written with an upper-case [CAP_] prefix gets the prefix
    twice, so it reads as code 0 (the code of [CAP_CHOWN]) unless the table has
    a name with two prefixes; only the lower-case prefix and the bare name work. *)
Theorem upper_case_cap_prefix C name :
  Contains ("CAP_" +:+ name) "cap_" = false →
  C !! ("CAP_CAP_" +:+ ToUpper name) = None →
  cap_key C ("CAP_" +:+ name) = byte_key capableKey 0.
Proof.
  intros Hc Hn. unfold cap_key. rewrite Hc. unfold cap_code.
  change (ToUpper ("CAP_" +:+ name)) with ("CAP_" +:+ ToUpper name).
  change ("CAP_" +:+ "CAP_" +:+ ToUpper name) with ("CAP_CAP_" +:+ ToUpper name).
  by rewrite Hn.
Qed.

(** ** Witnesses *)

Fixpoint last_char (s : string) : option ascii :=
  match s with
  | EmptyString => None
  | String c s' => match last_char s' with None => Some c | o => o end
  end.

Lemma no_trailing_slash_last s : last_char s ≠ Some slash → no_trailing_slash s.
Proof.
  intros Hs q ->. apply Hs. clear Hs.
  induction q as [|c q IH]; simpl; [done|]. by rewrite IH.
Qed.

Lemma wf_path_check p :
  bool_decide (fits p) = true → last_char p ≠ Some slash → wf_path p.
Proof. intros H%bool_decide_eq_true Hl. split; [done|by apply no_trailing_slash_last]. Qed.

Lemma wf_dir_check d :
  bool_decide (fits (d +:+ "/")) = true → last_char d ≠ Some slash → wf_dir (d +:+ "/").
Proof.
  intros H%bool_decide_eq_true Hl. split; [done|]. exists d.
  split; [done|by apply no_trailing_slash_last].
Qed.

Definition sample_dir (d : string) (src : list MatchSourceType) (a : string)
    : FileDirectoryType :=
  {| fdt_Directory := d; fdt_ReadOnly := true; fdt_Recursive := true; fdt_OwnerOnly := false;
     fdt_FromSource := src; fdt_Severity := 0; fdt_Tags := []; fdt_Message := "";
     fdt_Action := a |}.
Definition sample_file (p a : string) : FilePathType :=
  {| fpt_Path := p; fpt_ReadOnly := true; fpt_OwnerOnly := false; fpt_FromSource := [];
     fpt_Severity := 0; fpt_Tags := []; fpt_Message := ""; fpt_Action := a |}.

Definition sample_policy : SecurityPolicy :=
  {| sp_Metadata := ∅;
     sp_Spec :=
       {| ss_Selector := empty_SelectorType;
          ss_Process := {| pt_MatchPaths := [two_sources]; pt_MatchDirectories := [];
            pt_MatchPatterns := []; pt_Severity := 0; pt_Tags := []; pt_Message := "";
            pt_Action := "" |};
          ss_File := {| ft_MatchPaths := [sample_file "/etc/passwd" "Allow"];
            ft_MatchDirectories := [sample_dir "/var/log/app/" [] "Block";
                                    sample_dir "/var/" [{| ms_Path := "/bin/sh" |}] "Allow"];
            ft_MatchPatterns := []; ft_Severity := 0; ft_Tags := []; ft_Message := "";
            ft_Action := "" |};
          ss_Network := {| nt_MatchProtocols := [mk_proto "all" "Block" []; mk_proto "tcp" "Allow" []];
            nt_Severity := 0; nt_Tags := []; nt_Message := ""; nt_Action := "" |};
          ss_Capabilities := empty_CapabilitiesType; ss_Syscalls := empty_SyscallsType;
          ss_Presets := []; ss_AppArmor := ""; ss_Severity := 0; ss_Tags := [];
          ss_Message := ""; ss_Action := "" |} |}.

Lemma sample_policy_wf : Forall wf_policy [sample_policy].
Proof.
  repeat constructor;
    repeat first [apply list.Forall_nil_2 | apply list.Forall_cons; split];
    try (by apply wf_path_check); first [apply (wf_dir_check "/var/log/app") | apply (wf_dir_check "/var")];
    by vm_compute.
Qed.

Definition zero_ns : NsKey := {| ns_PidNS := 0; ns_MntNS := 0 |}.

(** Two orders on Go maps: the canonical one and its reverse. *)
Definition reverse_range : GoRange := λ K V _ _ m, reverse (map_to_list m).

Lemma reverse_range_law : GoRangeLaw reverse_range.
Proof. intros K V ? ? m. apply reverse_Permutation. Qed.

Lemma fresh_rules_walkable_witness :
  let r := fresh_rules (R:=canonical_range) ∅ zero_ns [sample_policy] in
  "/var/log/app/" ∈ kernel_walk FILE (path_rules r) zeros256 "/var/log/app/out.txt".
Proof.
  destruct (fresh_rules_walkable (R:=canonical_range) (GoRangeLaw0:=canonical_range_law)
    ∅ zero_ns [sample_policy] "/var/log/app" zeros256 "out.txt" sample_policy_wf) as [_ H].
  - by apply (bool_decide_unpack _).
  - apply H; [|apply Nat.leb_le; reflexivity].
    set (r := fresh_rules _ _ _).
    exists (default zero_val (FileRuleList r !! mkkey "/var/log/app/" zeros256)).
    split; vm_compute; reflexivity.
Defined.

Lemma fresh_rules_order_independent_witness :
  fresh_rules (R:=canonical_range) ∅ zero_ns [sample_policy] =
  fresh_rules (R:=reverse_range) ∅ zero_ns [sample_policy].
Proof.
  exact (fresh_rules_order_independent canonical_range reverse_range
    (L1:=canonical_range_law) (L2:=reverse_range_law) ∅ zero_ns [sample_policy]).
Defined.

Lemma dirtoMap_spec_witness :
  dirtoMap FILE ("/var" +:+ "/") "" ∅ (0, READ)%Z !! rule_key "/var" "" = Some (0, READ)%Z.
Proof.
  apply (dirtoMap_spec FILE "/var" "" ∅ (0, READ)%Z).
  - by apply (bool_decide_unpack _).
  - by apply no_trailing_slash_last.
Defined.

Lemma fuseProcAndFileRules_spec_witness :
  fuseProcAndFileRules (R:=canonical_range) {[zero_key := (1, 0)%Z]} {[zero_key := (0, 4)%Z]}
    !! zero_key = Some (1, 4)%Z.
Proof.
  exact (fuseProcAndFileRules_spec (R:=canonical_range) (GoRangeLaw0:=canonical_range_law)
    {[zero_key := (1, 0)%Z]} {[zero_key := (0, 4)%Z]} zero_key).
Defined.

Definition args_path : ProcessPathType :=
  {| ppt_Path := "/usr/bin/python"; ppt_ExecName := ""; ppt_OwnerOnly := true;
     ppt_FromSource := [{| ms_Path := "/bin/bash" |}]; ppt_AllowedArgs := ["-m"];
     ppt_Severity := 0; ppt_Tags := []; ppt_Message := ""; ppt_Action := "Block" |}.

Lemma proc_path_rule_spec_witness :
  ProcessRuleList (proc_path_rule zero_ns Init args_path) =
  {[rule_key "/usr/bin/python" "/bin/bash" := proc_mask args_path]}.
Proof.
  apply (proc_path_rule_spec zero_ns Init args_path); [done|]. by right; left.
Defined.

Lemma proc_path_sources_mixed_witness :
  ProcessRuleList (proc_path_rule zero_ns Init two_sources) !! rule_key "/usr/bin/id" "/bin/sh"
  = None.
Proof. by apply (proc_path_sources_mixed Init zero_ns). Defined.

Lemma icmpv6_never_keyed_witness : net_key "icmpv6" = zero_key.
Proof. by apply icmpv6_never_keyed. Defined.

Lemma upper_case_cap_prefix_witness :
  cap_key {["CAP_NET_RAW" := 13%Z]} "CAP_NET_RAW" = byte_key capableKey 0.
Proof. by apply (upper_case_cap_prefix {["CAP_NET_RAW" := 13%Z]} "NET_RAW"). Defined.
