(* ===== verification/BpfEnforcer.v ===== *)
(** The BPF-LSM enforcer's state and its updates
    ([KubeArmor/enforcer/bpflsm/mapHelpers.go], the second half of
    [UpdateContainerRules] in [rulesHandling.go], [hostRulesHandling.go] and the
    update entry points of [enforcer.go]).

    The kernel's eBPF maps are behind the interface [EbpfMap]; the enforcer keeps
    its own copy of the rules of each container and must keep the two in step. *)
From Stdlib Require Import Ascii.
From S2P Require Import Prelude GoStrings Types BpfRules.

(** ** eBPF maps *)

(** The error of a map operation: the code only asks [errors.Is(err, os.ErrNotExist)]. *)
Inductive BpfErr := ErrNotExist | ErrOther.

#[export] Instance BpfErr_eq_dec : EqDecision BpfErr.
Proof. solve_decision. Defined.

(** A kernel map with keys [K] and values [V]: its contents, and what [Put],
    [Delete] and [Close] do to it and return. *)
Class EbpfMap (M K V : Type) `{Countable K} := {
  em_view : M → gmap K V;
  em_Put : M → K → V → M * option BpfErr;
  em_Delete : M → K → M * option BpfErr;
  em_Close : M → option BpfErr }.

(** Documented behaviour: an operation that succeeds has its effect, one that
    fails leaves the contents alone, and [Delete] says [ErrNotExist] only for a
    key that the map does not have. *)
Class EbpfMapLaw (M K V : Type) `{EM : EbpfMap M K V} : Prop := {
  em_Put_view m k v :
    em_view (em_Put m k v).1 =
    match (em_Put m k v).2 with None => <[k := v]> (em_view m) | Some _ => em_view m end;
  em_Delete_view m k :
    em_view (em_Delete m k).1 =
    match (em_Delete m k).2 with None => delete k (em_view m) | Some _ => em_view m end;
  em_Delete_NotExist m k :
    (em_Delete m k).2 = Some ErrNotExist → em_view m !! k = None }.

(** ** State *)

Record ArgumentsKey := {
  ak_NsKey : NsKey; ak_InnerKey : InnerKey; ak_Argument : byte_list }.

#[export] Instance ArgumentsKey_eq_dec : EqDecision ArgumentsKey.
Proof. solve_decision. Defined.
#[export] Instance ArgumentsKey_countable : Countable ArgumentsKey.
Proof.
  refine (inj_countable' (λ k, (ak_NsKey k, ak_InnerKey k, ak_Argument k))
    (λ p, {| ak_NsKey := p.1.1; ak_InnerKey := p.1.2; ak_Argument := p.2 |}) _).
  by intros [].
Defined.

(** [Map] is a file descriptor of an inner map, [None] for the nil pointer. *)
Record ContainerKV := { kv_Key : NsKey; kv_Map : option nat; kv_Rules : RuleList }.

(** [ContainerMap[id]] of a missing container. *)
Definition zero_KV : ContainerKV :=
  {| kv_Key := {| ns_PidNS := 0; ns_MntNS := 0 |}; kv_Map := None; kv_Rules := Init |}.

Section enforcer.
Context `{R : GoRange} (CapToCode : gmap string Z).
Context {IM OM TM AM : Type}.
Context `{EI : !EbpfMap IM InnerKey val2} `{EO : !EbpfMap OM NsKey nat}.
Context `{ET : !EbpfMap TM NsKey unit} `{EA : !EbpfMap AM ArgumentsKey Z}.

(** The enforcer, the inner maps by descriptor, and the errors logged so far. *)
Record BPFEnforcer := {
  be_ContainerMap : gmap string ContainerKV;
  be_maps : gmap nat IM;
  be_BPFContainerMap : OM;
  be_BPFContainerThrottleMap : TM;
  be_BPFArgumentsMap : AM;
  be_log : list BpfErr }.

(** [ebpf.NewMap(be.InnerMapSpec)]: a fresh descriptor and an inner map, or an error. *)
Context (NewMap : BPFEnforcer → option (nat * IM)).

Definition set_ContainerMap (m : gmap string ContainerKV) (be : BPFEnforcer) : BPFEnforcer :=
  {| be_ContainerMap := m; be_maps := be_maps be; be_BPFContainerMap := be_BPFContainerMap be;
     be_BPFContainerThrottleMap := be_BPFContainerThrottleMap be;
     be_BPFArgumentsMap := be_BPFArgumentsMap be; be_log := be_log be |}.
Definition set_maps (m : gmap nat IM) (be : BPFEnforcer) : BPFEnforcer :=
  {| be_ContainerMap := be_ContainerMap be; be_maps := m;
     be_BPFContainerMap := be_BPFContainerMap be;
     be_BPFContainerThrottleMap := be_BPFContainerThrottleMap be;
     be_BPFArgumentsMap := be_BPFArgumentsMap be; be_log := be_log be |}.
Definition set_outer (m : OM) (be : BPFEnforcer) : BPFEnforcer :=
  {| be_ContainerMap := be_ContainerMap be; be_maps := be_maps be; be_BPFContainerMap := m;
     be_BPFContainerThrottleMap := be_BPFContainerThrottleMap be;
     be_BPFArgumentsMap := be_BPFArgumentsMap be; be_log := be_log be |}.
Definition set_throttle (m : TM) (be : BPFEnforcer) : BPFEnforcer :=
  {| be_ContainerMap := be_ContainerMap be; be_maps := be_maps be;
     be_BPFContainerMap := be_BPFContainerMap be; be_BPFContainerThrottleMap := m;
     be_BPFArgumentsMap := be_BPFArgumentsMap be; be_log := be_log be |}.
Definition set_argmap (m : AM) (be : BPFEnforcer) : BPFEnforcer :=
  {| be_ContainerMap := be_ContainerMap be; be_maps := be_maps be;
     be_BPFContainerMap := be_BPFContainerMap be;
     be_BPFContainerThrottleMap := be_BPFContainerThrottleMap be;
     be_BPFArgumentsMap := m; be_log := be_log be |}.

(** [be.Logger.Err] when there is an error to report. *)
Definition Errf (e : option BpfErr) (be : BPFEnforcer) : BPFEnforcer :=
  match e with
  | None => be
  | Some e =>
      {| be_ContainerMap := be_ContainerMap be; be_maps := be_maps be;
         be_BPFContainerMap := be_BPFContainerMap be;
         be_BPFContainerThrottleMap := be_BPFContainerThrottleMap be;
         be_BPFArgumentsMap := be_BPFArgumentsMap be; be_log := be_log be ++ [e] |}
  end.

(** [if !errors.Is(err, os.ErrNotExist)] before reporting *)
Definition unless_NotExist (e : option BpfErr) : option BpfErr :=
  match e with Some ErrNotExist => None | _ => e end.

(** [be.ContainerMap[id]] and an in-place change of its rule lists. *)
Definition container (id : string) (be : BPFEnforcer) : ContainerKV :=
  default zero_KV (be_ContainerMap be !! id).

Definition with_rules (f : RuleList → RuleList) (kv : ContainerKV) : ContainerKV :=
  {| kv_Key := kv_Key kv; kv_Map := kv_Map kv; kv_Rules := f (kv_Rules kv) |}.

Definition on_rules (id : string) (f : RuleList → RuleList) (be : BPFEnforcer) : BPFEnforcer :=
  set_ContainerMap (alter (with_rules f) id (be_ContainerMap be)) be.

(** [Put] and [Delete] on the inner map with descriptor [h]; a descriptor that is
    not open is an error. *)
Definition inner_Put (h : nat) (k : InnerKey) (v : val2) (be : BPFEnforcer)
    : BPFEnforcer * option BpfErr :=
  match be_maps be !! h with
  | Some m => let '(m', e) := em_Put m k v in (set_maps (<[h := m']> (be_maps be)) be, e)
  | None => (be, Some ErrOther)
  end.
Definition inner_Delete (h : nat) (k : InnerKey) (be : BPFEnforcer)
    : BPFEnforcer * option BpfErr :=
  match be_maps be !! h with
  | Some m => let '(m', e) := em_Delete m k in (set_maps (<[h := m']> (be_maps be)) be, e)
  | None => (be, Some ErrOther)
  end.

(** [if err := cmap.Put(k, v); err != nil { log }] and
    [if err := cmap.Delete(k); err != nil && !NotExist { log }] *)
Definition put_or_log (h : nat) (k : InnerKey) (v : val2) (be : BPFEnforcer) : BPFEnforcer :=
  let '(be, e) := inner_Put h k v be in Errf e be.
Definition delete_or_log (h : nat) (k : InnerKey) (be : BPFEnforcer) : BPFEnforcer :=
  let '(be, e) := inner_Delete h k be in Errf (unless_NotExist e) be.

(** The [BPFArgumentsMap] key of one allowed argument. *)
Definition args_key (key : ArgListKey) (arg : string) : ArgumentsKey :=
  {| ak_NsKey := al_NsKey key; ak_InnerKey := al_InnerKey key;
     ak_Argument := go_copy zeros256 (bytes_of arg) |}.

Definition args_Put (key : ArgListKey) (be : BPFEnforcer) (arg : string) : BPFEnforcer :=
  let '(m, e) := em_Put (be_BPFArgumentsMap be) (args_key key arg) 1%Z in
  Errf e (set_argmap m be).
Definition args_Delete (key : ArgListKey) (be : BPFEnforcer) (arg : string)
    : BPFEnforcer * option BpfErr :=
  let '(m, e) := em_Delete (be_BPFArgumentsMap be) (args_key key arg) in (set_argmap m be, e).

(** ** Containers *)

Definition AddContainerIDToMap (containerID : string) (pidns mntns : Z) (be : BPFEnforcer)
    : BPFEnforcer :=
  set_ContainerMap
    (<[containerID := {| kv_Key := {| ns_PidNS := pidns; ns_MntNS := mntns |};
                         kv_Map := None; kv_Rules := Init |}]> (be_ContainerMap be)) be.

Definition CreateContainerInnerMap (containerID : string) (be : BPFEnforcer) : BPFEnforcer :=
  match be_ContainerMap be !! containerID with
  | Some val =>
      match NewMap be with
      | None => Errf (Some ErrOther) be
      | Some (h, im) =>
          let be := set_maps (<[h := im]> (be_maps be)) be in
          let be := set_ContainerMap
            (<[containerID := {| kv_Key := kv_Key val; kv_Map := Some h;
                                 kv_Rules := kv_Rules val |}]> (be_ContainerMap be)) be in
          let '(om, e) := em_Put (be_BPFContainerMap be) (kv_Key val) h in
          Errf e (set_outer om be)
      end
  | None => be
  end.

Definition delete_container_args (be : BPFEnforcer) (kv : ArgListKey * list string)
    : BPFEnforcer :=
  foldl (λ be arg, let '(be, e) := args_Delete kv.1 be arg in Errf (unless_NotExist e) be)
        be kv.2.

Definition close_inner (h : nat) (be : BPFEnforcer) : BPFEnforcer :=
  match be_maps be !! h with
  | Some m => Errf (em_Close m) (set_maps (delete h (be_maps be)) be)
  | None => Errf (Some ErrOther) be
  end.

Definition DeleteContainerInnerMap (containerID : string) (be : BPFEnforcer) : BPFEnforcer :=
  let kv := container containerID be in
  match kv_Map kv with
  | None => be
  | Some h =>
      let '(om, e) := em_Delete (be_BPFContainerMap be) (kv_Key kv) in
      let be := Errf (unless_NotExist e) (set_outer om be) in
      let '(tm, e) := em_Delete (be_BPFContainerThrottleMap be) (kv_Key kv) in
      let be := Errf (unless_NotExist e) (set_throttle tm be) in
      let be := foldl delete_container_args be (go_range (ArgumentsList (kv_Rules kv))) in
      let be := close_inner h be in
      set_ContainerMap (<[containerID := {| kv_Key := kv_Key kv; kv_Map := None;
                                            kv_Rules := Init |}]> (be_ContainerMap be)) be
  end.

Definition DeleteContainerIDFromMap (containerID : string) (be : BPFEnforcer) : BPFEnforcer :=
  let be := DeleteContainerInnerMap containerID be in
  set_ContainerMap (delete containerID (be_ContainerMap be)) be.

Definition AddHostToMap (be : BPFEnforcer) : BPFEnforcer :=
  let key := {| ns_PidNS := 0; ns_MntNS := 0 |} in
  match NewMap be with
  | None => Errf (Some ErrOther) be
  | Some (h, im) =>
      let be := set_maps (<[h := im]> (be_maps be)) be in
      let be := set_ContainerMap
        (<["host" := {| kv_Key := key; kv_Map := Some h; kv_Rules := Init |}]>
           (be_ContainerMap be)) be in
      let '(om, e) := em_Put (be_BPFContainerMap be) key h in
      Errf e (set_outer om be)
  end.

(** ** Rule updates *)

(** The code treats the four rule lists alike; a [Part] names the list, its
    posture flag and key, and the default posture that it reads. *)
Record Part := {
  p_get : RuleList → RuleMap;
  p_set : RuleMap → bool → RuleList → RuleList;
  p_posture : RuleList → bool;
  p_key : InnerKey;
  p_action : DefaultPosture → string }.

Definition ProcPart : Part :=
  {| p_get := ProcessRuleList; p_set := set_proc; p_posture := ProcWhiteListPosture;
     p_key := PROCWHITELIST; p_action := dp_FileAction |}.
Definition FilePart : Part :=
  {| p_get := FileRuleList; p_set := set_file; p_posture := FileWhiteListPosture;
     p_key := FILEWHITELIST; p_action := dp_FileAction |}.
Definition NetPart : Part :=
  {| p_get := NetworkRuleList; p_set := set_net; p_posture := NetWhiteListPosture;
     p_key := NETWHITELIST; p_action := dp_NetworkAction |}.
Definition CapPart : Part :=
  {| p_get := CapabilitiesRuleList; p_set := set_cap; p_posture := CapWhiteListPosture;
     p_key := CAPWHITELIST; p_action := dp_CapabilitiesAction |}.

Definition on_part (p : Part) (f : RuleMap → RuleMap) (r : RuleList) : RuleList :=
  p_set p (f (p_get p r)) (p_posture p r) r.

(** [resolveConflicts]: delete the old entries that the fresh rule set lacks. *)
Definition resolve_one (p : Part) (id : string) (h : nat) (newRuleList : RuleMap)
    (be : BPFEnforcer) (kv : InnerKey * val2) : BPFEnforcer :=
  match newRuleList !! kv.1 with
  | Some _ => be
  | None => on_rules id (on_part p (delete kv.1)) (delete_or_log h kv.1 be)
  end.

Definition resolveConflicts (p : Part) (id : string) (h : nat) (newRuleList : RuleMap)
    (be : BPFEnforcer) : BPFEnforcer :=
  foldl (resolve_one p id h newRuleList) be
        (go_range (p_get p (kv_Rules (container id be)))).

(** The arguments of a stale process rule; here every error is reported. *)
Definition drop_args (id : string) (key : InnerKey) (be : BPFEnforcer) : BPFEnforcer :=
  let kv := container id be in
  let argListMap := ArgumentsList (kv_Rules kv) in
  if bool_decide (0 < size argListMap) then
    let argKey := {| al_NsKey := kv_Key kv; al_InnerKey := key |} in
    let be := foldl (λ be arg, let '(be, e) := args_Delete argKey be arg in Errf e be)
                    be (default [] (argListMap !! argKey)) in
    on_rules id (λ r, set_args (delete argKey (ArgumentsList r)) r) be
  else be.

Definition resolve_proc_one (id : string) (h : nat) (newRuleList : RuleMap)
    (be : BPFEnforcer) (kv : InnerKey * val2) : BPFEnforcer :=
  match newRuleList !! kv.1 with
  | Some _ => be
  | None => drop_args id kv.1
              (on_rules id (on_part ProcPart (delete kv.1)) (delete_or_log h kv.1 be))
  end.

Definition resolveConflictsProcessRules (id : string) (h : nat) (newRuleList : RuleMap)
    (be : BPFEnforcer) : BPFEnforcer :=
  foldl (resolve_proc_one id h newRuleList) be
        (go_range (ProcessRuleList (kv_Rules (container id be)))).

(** The posture key: 141 for a [block] default, 140 otherwise, absent when the
    part has no Allow rule. *)
Definition posture_val (p : Part) (dp : DefaultPosture) : val2 :=
  (if String.eqb (p_action p dp) "block" then BlockPosture else AuditPosture, 0%Z).

Definition set_posture_key (p : Part) (h : nat) (new : RuleList) (dp : DefaultPosture)
    (be : BPFEnforcer) : BPFEnforcer :=
  if p_posture p new then put_or_log h (p_key p) (posture_val p dp) be
  else delete_or_log h (p_key p) be.

Definition put_rules (p : Part) (id : string) (h : nat) (new : RuleList)
    (be : BPFEnforcer) : BPFEnforcer :=
  foldl (λ be kv, put_or_log h kv.1 kv.2 (on_rules id (on_part p <[kv.1 := kv.2]>) be))
        be (go_range (p_get p new)).

Definition put_args (id : string) (new : RuleList) (be : BPFEnforcer) : BPFEnforcer :=
  foldl (λ be kv, foldl (args_Put kv.1)
           (on_rules id (λ r, set_args (<[kv.1 := kv.2]> (ArgumentsList r)) r) be) kv.2)
        be (go_range (ArgumentsList new)).

(** [Update Posture]: the four flags. *)
Definition copy_postures (new r : RuleList) : RuleList :=
  {| ProcessRuleList := ProcessRuleList r; FileRuleList := FileRuleList r;
     NetworkRuleList := NetworkRuleList r; CapabilitiesRuleList := CapabilitiesRuleList r;
     ProcWhiteListPosture := ProcWhiteListPosture new;
     FileWhiteListPosture := FileWhiteListPosture new;
     NetWhiteListPosture := NetWhiteListPosture new;
     CapWhiteListPosture := CapWhiteListPosture new; ArgumentsList := ArgumentsList r |}.

(** The part of the update that writes to the inner map [h]. *)
Definition apply_rules (id : string) (h : nat) (new : RuleList) (dp : DefaultPosture)
    (be : BPFEnforcer) : BPFEnforcer :=
  let be := resolveConflictsProcessRules id h (ProcessRuleList new) be in
  let be := resolveConflicts FilePart id h (FileRuleList new) be in
  let be := resolveConflicts NetPart id h (NetworkRuleList new) be in
  let be := resolveConflicts CapPart id h (CapabilitiesRuleList new) be in
  let be := on_rules id (copy_postures new) be in
  let be := put_rules ProcPart id h new (set_posture_key ProcPart h new dp be) in
  let be := put_args id new be in
  let be := put_rules FilePart id h new (set_posture_key FilePart h new dp be) in
  let be := put_rules NetPart id h new (set_posture_key NetPart h new dp be) in
  put_rules CapPart id h new (set_posture_key CapPart h new dp be).

Definition no_rules (r : RuleList) : bool :=
  bool_decide (size (FileRuleList r) = 0) && bool_decide (size (ProcessRuleList r) = 0) &&
  bool_decide (size (NetworkRuleList r) = 0) &&
  bool_decide (size (CapabilitiesRuleList r) = 0).

(** After the fresh rules are computed.  When creating the inner map failed, the
    first operation on the nil map panics: the posture key is always written. *)
Definition install_rules (id : string) (new : RuleList) (dp : DefaultPosture)
    (be : BPFEnforcer) : Res BPFEnforcer :=
  match be_ContainerMap be !! id with
  | None => Ok be
  | Some kv =>
      if bool_decide (kv_Map kv = None) && negb (no_rules new) then
        let be := CreateContainerInnerMap id be in
        match kv_Map (container id be) with
        | Some h => Ok (apply_rules id h new dp be)
        | None => Panic
        end
      else if no_rules new then Ok (DeleteContainerInnerMap id be)
      else match kv_Map kv with
           | Some h => Ok (apply_rules id h new dp be)
           | None => Panic
           end
  end.

Definition UpdateContainerRules (id : string) (securityPolicies : list SecurityPolicy)
    (defaultPosture : DefaultPosture) (be : BPFEnforcer) : Res BPFEnforcer :=
  install_rules id (fresh_rules CapToCode (kv_Key (container id be)) securityPolicies)
                defaultPosture be.

Definition UpdateSecurityPolicies (endPoint : EndPoint) (be : BPFEnforcer) : Res BPFEnforcer :=
  foldl (λ rbe cid, rbe ≫= UpdateContainerRules cid (ep_SecurityPolicies endPoint)
                                                (ep_DefaultPosture endPoint))
        (Ok be) (ep_Containers endPoint).

(** A host policy as a container policy: process, file and network rules are
    cloned ([json] round trip), capabilities are not. *)
Definition host_policy (secPolicy : HostSecurityPolicy) : SecurityPolicy :=
  {| sp_Metadata := ∅;
     sp_Spec := {| ss_Selector := empty_SelectorType;
       ss_Process := hs_Process (hp_Spec secPolicy); ss_File := hs_File (hp_Spec secPolicy);
       ss_Network := hs_Network (hp_Spec secPolicy);
       ss_Capabilities := empty_CapabilitiesType; ss_Syscalls := empty_SyscallsType;
       ss_Presets := []; ss_AppArmor := ""; ss_Severity := 0; ss_Tags := [];
       ss_Message := ""; ss_Action := "" |} |}.

(** [dp] holds the three [HostDefault...Posture] settings of the configuration. *)
Definition UpdateHostRules (dp : DefaultPosture) (securityPolicies : list HostSecurityPolicy)
    (be : BPFEnforcer) : Res BPFEnforcer :=
  UpdateContainerRules "host" (host_policy <$> securityPolicies) dp be.

Definition UpdateHostSecurityPolicies (dp : DefaultPosture)
    (secPolicies : list HostSecurityPolicy) (be : BPFEnforcer) : Res BPFEnforcer :=
  UpdateHostRules dp secPolicies be.
End enforcer.
