(* ===== verification/BpfEnforcerFacts.v ===== *)
(** Tracking the enforcer's state through an update: as long as no error is
    logged, the kernel's maps follow a pure computation on maps, and the
    enforcer's own rule lists follow it in any case. *)
From Stdlib Require Import Ascii.
From S2P Require Import Prelude GoStrings Types BpfRules BpfEnforcer.

(** ** Pure map computations *)

Section maps.
Context `{R : GoRange, !GoRangeLaw R} {K V : Type} `{Countable K}.
Implicit Types m old new : gmap K V.

Definition drop_step new m (kv : K * V) : gmap K V :=
  match new !! kv.1 with Some _ => m | None => delete kv.1 m end.

Lemma drop_loop (l : list (K * V)) new m k :
  foldl (drop_step new) m l !! k =
  if decide (k ∈ l.*1 ∧ new !! k = None) then None else m !! k.
Proof.
  revert m. induction l as [|[k' v'] l IH]; intros m.
  - case_decide as Hd; [|done]. destruct Hd as [Hk _]. by apply not_elem_of_nil in Hk.
  - rewrite fmap_cons. cbn [foldl fst]. rewrite IH. unfold drop_step. simpl.
    destruct (decide (k = k')) as [->|Hne].
    + destruct (new !! k') eqn:E; repeat case_decide; rewrite ?lookup_delete_eq;
        try done; set_solver.
    + assert (match new !! k' with Some _ => m | None => delete k' m end !! k = m !! k) as ->.
      { destruct (new !! k'); [done|]. by apply lookup_delete_ne. }
      repeat case_decide; try done; set_solver.
Qed.

(** Deleting the stale entries of [old] from [m]. *)
Lemma drop_range old new m :
  foldl (drop_step new) m (go_range old) = m ∖ (old ∖ new).
Proof.
  apply map_eq; intros k. rewrite drop_loop, lookup_difference, lookup_difference.
  assert (k ∈ (go_range old).*1 ↔ is_Some (old !! k)) as Hk.
  { rewrite list_elem_of_fmap. split.
    - intros ([k' v] & -> & Hin%elem_of_go_range). by exists v.
    - intros [v Hv%elem_of_go_range]. by exists (k, v). }
  destruct (new !! k), (old !! k) eqn:E; simpl.
  - rewrite decide_False; [done|]. naive_solver.
  - rewrite decide_False; [done|]. naive_solver.
  - rewrite decide_True; [done|]. naive_solver.
  - rewrite decide_False; [done|]. rewrite Hk. intros [[? ?] _]. done.
Qed.

(** The list itself: only the entries that stay, then the fresh ones. *)
Lemma refresh_list old new : new ∪ (old ∖ (old ∖ new)) = new.
Proof.
  apply map_eq; intros k. rewrite lookup_union, !lookup_difference.
  destruct (new !! k), (old !! k); done.
Qed.
End maps.

Section track.
Context `{R : GoRange, !GoRangeLaw R}.
Context {IM OM TM AM : Type}.
Context `{EI : !EbpfMap IM InnerKey val2} `{EO : !EbpfMap OM NsKey nat}.
Context `{ET : !EbpfMap TM NsKey unit} `{EA : !EbpfMap AM ArgumentsKey Z}.
Context {LI : EbpfMapLaw IM InnerKey val2} {LA : EbpfMapLaw AM ArgumentsKey Z}.

Abbreviation BE := (BPFEnforcer (IM:=IM) (OM:=OM) (TM:=TM) (AM:=AM)).
Abbreviation ArgView := (gmap ArgumentsKey Z).

(** [be] was reached from [be0] by work on container [id] and its inner map [h]:
    its rules are [rs], and if no error was logged the inner map holds [v] and
    the arguments map [a]. *)
Record track (be0 : BE) (id : string) (ns : NsKey) (h : nat) (v : RuleMap) (rs : RuleList)
    (a : ArgView) (be : BE) : Prop := {
  t_container : be_ContainerMap be !! id =
                  Some {| kv_Key := ns; kv_Map := Some h; kv_Rules := rs |};
  t_others : ∀ j, j ≠ id → be_ContainerMap be !! j = be_ContainerMap be0 !! j;
  t_maps : ∀ h', h' ≠ h → be_maps be !! h' = be_maps be0 !! h';
  t_outer : be_BPFContainerMap be = be_BPFContainerMap be0;
  t_kernel : ∃ errs, be_log be = be_log be0 ++ errs ∧
    (errs = [] → (∃ m, be_maps be !! h = Some m ∧ em_view m = v) ∧
                 em_view (be_BPFArgumentsMap be) = a) }.

Context (be0 : BE) (id : string) (ns : NsKey) (h : nat).
Abbreviation tr := (track be0 id ns h).

Lemma track_container v rs a be :
  tr v rs a be → kv_Rules (container id be) = rs ∧ kv_Key (container id be) = ns.
Proof. intros [Hc _ _ _]. unfold container. by rewrite Hc. Qed.

Lemma track_on_rules v rs a be f :
  tr v rs a be → tr v (f rs) a (on_rules id f be).
Proof.
  intros [Hc Ho Hm Hu Hk]. split; try done; simpl.
  - by rewrite lookup_alter_eq, Hc.
  - intros j Hj. rewrite lookup_alter_ne by done. by apply Ho.
Qed.

Lemma track_inner v rs a be m' v' e :
  tr v rs a be →
  (∀ m, be_maps be !! h = Some m → em_view m = v → e = None → em_view m' = v') →
  tr v' rs a (Errf e (set_maps (<[h := m']> (be_maps be)) be)).
Proof.
  intros [Hc Ho Hm Hu (errs & Hl & Hk)] Hv.
  assert (∀ e', be_log (Errf e' (set_maps (<[h := m']> (be_maps be)) be)) =
          be_log be ++ match e' with None => [] | Some x => [x] end) as Hlog.
  { intros [x|]; [done|]. simpl. by rewrite app_nil_r. }
  split; try (by destruct e).
  - intros h' Hh'. destruct e; simpl; rewrite lookup_insert_ne by done; by apply Hm.
  - eexists. rewrite Hlog, Hl, <- app_assoc. split; [done|].
    intros [Hn1 Hn2]%app_eq_nil. destruct e; [done|]. simpl.
    destruct (Hk Hn1) as [(m & Hm' & Hv') Ha]. split; [|done].
    exists m'. split; [apply lookup_insert_eq|]. by apply (Hv m).
Qed.

Lemma track_closed v rs a be v' e :
  tr v rs a be → be_maps be !! h = None → tr v' rs a (Errf (Some e) be).
Proof.
  intros [Hc Ho Hm Hu (errs & Hl & Hk)] _. split; try done.
  exists (errs ++ [e]). simpl. rewrite Hl, app_assoc. split; [done|].
  by intros [_ ?]%app_eq_nil.
Qed.

Lemma track_put v rs a be k x :
  tr v rs a be → tr (<[k := x]> v) rs a (put_or_log h k x be).
Proof.
  intros Ht. unfold put_or_log, inner_Put.
  destruct (be_maps be !! h) as [m|] eqn:Em; [|by eapply track_closed].
  pose proof (em_Put_view m k x) as Hv. destruct (em_Put m k x) as [m' e]. simpl in Hv.
  eapply track_inner; [done|]. intros m0 Hm0 <- ->. congruence.
Qed.

Lemma track_delete v rs a be k :
  tr v rs a be → tr (delete k v) rs a (delete_or_log h k be).
Proof.
  intros Ht. unfold delete_or_log, inner_Delete.
  destruct (be_maps be !! h) as [m|] eqn:Em; [|by eapply track_closed].
  pose proof (em_Delete_view m k) as Hv. pose proof (em_Delete_NotExist m k) as Hn.
  destruct (em_Delete m k) as [m' e]. simpl in Hv, Hn.
  eapply track_inner; [done|]. intros m0 Hm0 <- He. rewrite Em in Hm0. simplify_eq.
  destruct e as [[]|]; [|done|done]. rewrite Hv. symmetry. apply delete_id. auto.
Qed.

Lemma track_argmap v rs a be m' a' e :
  tr v rs a be →
  (em_view (be_BPFArgumentsMap be) = a → e = None → em_view m' = a') →
  tr v rs a' (Errf e (set_argmap m' be)).
Proof.
  intros [Hc Ho Hm Hu (errs & Hl & Hk)] Ha.
  split; try (by destruct e).
  destruct e as [e|]; simpl.
  - exists (errs ++ [e]). rewrite Hl, app_assoc. split; [done|]. by intros [_ ?]%app_eq_nil.
  - exists errs. split; [done|]. intros Hn. destruct (Hk Hn). auto.
Qed.

Lemma track_args_Put v rs a be key arg :
  tr v rs a be → tr v rs (<[args_key key arg := 1%Z]> a) (args_Put key be arg).
Proof.
  intros Ht. unfold args_Put.
  pose proof (em_Put_view (be_BPFArgumentsMap be) (args_key key arg) 1%Z) as Hv.
  destruct (em_Put _ _ _) as [m' e]. simpl in Hv.
  eapply track_argmap; [done|]. intros <- ->. done.
Qed.

Lemma track_args_Delete v rs a be key arg :
  tr v rs a be →
  tr v rs (delete (args_key key arg) a)
     (let '(be', e) := args_Delete key be arg in Errf e be').
Proof.
  intros Ht. unfold args_Delete.
  pose proof (em_Delete_view (be_BPFArgumentsMap be) (args_key key arg)) as Hv.
  destruct (em_Delete _ _) as [m' e]. simpl in Hv.
  eapply track_argmap; [done|]. intros <- ->. done.
Qed.

(** ** The loops of an update *)

(** What [Part] promises: its list and posture are one independent field pair. *)
Record PartLaw (p : Part) : Prop := {
  pl_get : ∀ m w r, p_get p (p_set p m w r) = m;
  pl_posture : ∀ m w r, p_posture p (p_set p m w r) = w;
  pl_set : ∀ m w m' w' r, p_set p m w (p_set p m' w' r) = p_set p m w r;
  pl_same : ∀ r, p_set p (p_get p r) (p_posture p r) r = r }.

Lemma part_laws p : p ∈ [ProcPart; FilePart; NetPart; CapPart] → PartLaw p.
Proof.
  intros Hp. repeat (apply elem_of_cons in Hp as [->|Hp]; [split; try done; by intros []|]).
  by apply not_elem_of_nil in Hp.
Qed.

Lemma on_part_compose p f g r :
  PartLaw p → on_part p f (on_part p g r) = on_part p (λ m, f (g m)) r.
Proof. intros [H1 H2 H3 _]. unfold on_part. by rewrite H1, H2, H3. Qed.

Lemma on_part_id p r : PartLaw p → on_part p (λ m, m) r = r.
Proof. intros [_ _ _ H4]. apply H4. Qed.

Lemma track_resolve_loop p new l v rs a be :
  PartLaw p → tr v rs a be →
  tr (foldl (drop_step new) v l) (on_part p (λ m, foldl (drop_step new) m l) rs) a
     (foldl (resolve_one p id h new) be l).
Proof.
  intros Hp. revert v rs be. induction l as [|[k x] l IH]; intros v rs be Ht; simpl.
  { by rewrite on_part_id. }
  unfold drop_step at 2 4, resolve_one at 2. simpl. destruct (new !! k); [by apply IH|].
  rewrite <- (on_part_compose p (λ m, foldl (drop_step new) m l) (delete k)) by done.
  apply IH. by apply track_on_rules, track_delete.
Qed.

Lemma track_drop_args v rs a be k :
  tr v rs a be → ∃ al a', tr v (set_args al rs) a' (drop_args id k be).
Proof.
  intros Ht. unfold drop_args. destruct (track_container _ _ _ _ Ht) as [-> ->].
  case_bool_decide; [|exists (ArgumentsList rs), a; by destruct rs].
  set (key := {| al_NsKey := ns; al_InnerKey := k |}).
  assert (∀ l a be, tr v rs a be → ∃ a', tr v rs a'
    (foldl (λ be arg, let '(be, e) := args_Delete key be arg in Errf e be) be l)) as Hl.
  { clear a be Ht H. induction l as [|arg l IH]; intros a be Ht; [by exists a|].
    simpl. eapply IH. by apply track_args_Delete. }
  destruct (Hl (default [] (ArgumentsList rs !! key)) a be Ht) as [a' Ha'].
  eexists _, a'. exact (track_on_rules _ _ _ _ (λ r, set_args (delete key (ArgumentsList r)) r) Ha').
Qed.

Lemma track_resolve_proc new l v rs a be :
  tr v rs a be →
  ∃ al a', tr (foldl (drop_step new) v l)
              (set_args al (on_part ProcPart (λ m, foldl (drop_step new) m l) rs)) a'
              (foldl (resolve_proc_one id h new) be l).
Proof.
  revert v rs a be. induction l as [|[k x] l IH]; intros v rs a be Ht; simpl.
  { exists (ArgumentsList rs), a. by destruct rs. }
  unfold drop_step at 2 4, resolve_proc_one at 2. simpl. destruct (new !! k); [by eapply IH|].
  assert (tr (delete k v) (on_part ProcPart (delete k) rs) a
    (on_rules id (on_part ProcPart (delete k)) (delete_or_log h k be))) as Ht'.
  { by apply track_on_rules, track_delete. }
  destruct (track_drop_args _ _ _ _ k Ht') as (al & a' & Ht'').
  destruct (IH _ _ _ _ Ht'') as (al' & a'' & H). exists al', a''. exact H.
Qed.

Lemma track_put_loop p l v rs a be :
  PartLaw p → tr v rs a be →
  tr (insert_all l v) (on_part p (insert_all l) rs) a
     (foldl (λ be kv, put_or_log h kv.1 kv.2 (on_rules id (on_part p <[kv.1 := kv.2]>) be))
            be l).
Proof.
  intros Hp. revert v rs be. induction l as [|[k x] l IH]; intros v rs be Ht; simpl.
  { by rewrite on_part_id. }
  change (insert_all ((k, x) :: l)) with (λ m, insert_all l (<[k := x]> m)).
  rewrite <- (on_part_compose p (insert_all l) <[k := x]>) by done.
  apply IH. by apply track_put, track_on_rules.
Qed.

(** The arguments map after the allowed arguments of [l] are added. *)
Definition put_args_view (l : list (ArgListKey * list string)) (a : ArgView) : ArgView :=
  foldl (λ a kv, foldl (λ a arg, <[args_key kv.1 arg := 1%Z]> a) a kv.2) a l.

Lemma track_put_args_loop l v rs a be :
  tr v rs a be →
  ∃ al, tr v (set_args al rs) (put_args_view l a)
    (foldl (λ be kv, foldl (args_Put kv.1)
       (on_rules id (λ r, set_args (<[kv.1 := kv.2]> (ArgumentsList r)) r) be) kv.2) be l).
Proof.
  revert rs a be. induction l as [|[k args] l IH]; intros rs a be Ht; simpl.
  { exists (ArgumentsList rs). by destruct rs. }
  assert (∀ l' v rs a be, tr v rs a be →
    tr v rs (foldl (λ a arg, <[args_key k arg := 1%Z]> a) a l') (foldl (args_Put k) be l')) as Hin.
  { induction l' as [|arg l' IH']; intros ???? Ht'; [done|]. apply IH'. by apply track_args_Put. }
  destruct (IH (set_args (<[k := args]> (ArgumentsList rs)) rs) _ _
    (Hin args _ _ _ _ (track_on_rules _ _ _ _
      (λ r, set_args (<[k := args]> (ArgumentsList r)) r) Ht))) as [al Hal].
  exists al. exact Hal.
Qed.

Definition posture_view (p : Part) (new : RuleList) (dp : DefaultPosture) (v : RuleMap)
    : RuleMap :=
  if p_posture p new then <[p_key p := posture_val p dp]> v else delete (p_key p) v.

Lemma track_posture p new dp v rs a be :
  tr v rs a be → tr (posture_view p new dp v) rs a (set_posture_key p h new dp be).
Proof.
  intros Ht. unfold posture_view, set_posture_key.
  destruct (p_posture p new); [by apply track_put|by apply track_delete].
Qed.
End track.
