(* ===== verification/BpfEnforcerProps.v ===== *)
(** The enforcer keeps the kernel in step with the policies: after an update
    that logs no error, a container's inner map holds exactly its fresh rules and
    posture keys, and the enforcer's record of them agrees. *)
From Stdlib Require Import Ascii.
From S2P Require Import Prelude GoStrings Types BpfRules BpfRulesFacts BpfRulesProps.
From S2P Require Import BpfEnforcer BpfEnforcerFacts.

(** ** Specification *)

Definition parts : list Part := [ProcPart; FilePart; NetPart; CapPart].

(** The contents of an inner map that enforces [new]: each part's rules over its
    posture key, a later part over an earlier one. *)
Definition kernel_view (new : RuleList) (dp : DefaultPosture) : RuleMap :=
  foldl (λ v p, p_get p new ∪ posture_view p new dp v) ∅ parts.

Definition posture_key (k : InnerKey) : Prop := k ∈ p_key <$> parts.

(** Every entry of [v] is a posture key or an entry of some list of [rs]. *)
Definition covers (v : RuleMap) (rs : RuleList) : Prop :=
  ∀ k, is_Some (v !! k) → posture_key k ∨ ∃ p, p ∈ parts ∧ is_Some (p_get p rs !! k).

Lemma posture_view_lookup p new dp v k :
  posture_view p new dp v !! k =
  if decide (k = p_key p) then (if p_posture p new then Some (posture_val p dp) else None)
  else v !! k.
Proof.
  unfold posture_view. case_decide as Hk; destruct (p_posture p new); subst.
  - apply lookup_insert_eq.
  - apply lookup_delete_eq.
  - by apply lookup_insert_ne.
  - by apply lookup_delete_ne.
Qed.

(** The four layers hide whatever the map held at posture keys and fresh rules. *)
Lemma layers_ext new dp l v v' :
  (∀ k, v !! k = v' !! k ∨ k ∈ p_key <$> l ∨ ∃ p, p ∈ l ∧ is_Some (p_get p new !! k)) →
  foldl (λ v p, p_get p new ∪ posture_view p new dp v) v l =
  foldl (λ v p, p_get p new ∪ posture_view p new dp v) v' l.
Proof.
  revert v v'. induction l as [|p l IH]; intros v v' H; simpl.
  - apply map_eq; intros k. destruct (H k) as [?|[Hk|(p & Hk & _)]]; [done|..];
      by apply not_elem_of_nil in Hk.
  - apply IH. intros k. rewrite !lookup_union, !posture_view_lookup.
    destruct (H k) as [->|[[->|Hk]%elem_of_cons|(q & [->|Hq]%elem_of_cons & Hs)]].
    + by left.
    + left. by rewrite !decide_True by done.
    + by right; left.
    + left. destruct Hs as [x ->].
      assert (∀ o : option val2, Some x ∪ o = Some x) as Hx by by intros [].
      by rewrite !Hx.
    + right; right. eauto.
Qed.

Lemma kernel_view_covers new dp : covers (kernel_view new dp) new.
Proof.
  assert (∀ l v, (∀ k, is_Some (v !! k) → posture_key k ∨ ∃ p, p ∈ parts ∧ is_Some (p_get p new !! k)) →
    l ⊆ parts → covers (foldl (λ v p, p_get p new ∪ posture_view p new dp v) v l) new) as H.
  { induction l as [|p l IH]; intros v Hv Hl; [done|]. apply IH; [|set_solver].
    intros k Hk. rewrite lookup_union, posture_view_lookup in Hk.
    destruct (p_get p new !! k) eqn:E; [right; exists p; split; [set_solver|by rewrite E]|].
    case_decide as Hd; [left; apply list_elem_of_fmap; exists p; set_solver|].
    apply Hv. by destruct (v !! k). }
  apply H; [|done]. intros k [x Hx]. by rewrite lookup_empty in Hx.
Qed.

Section update.
Context `{R : GoRange, !GoRangeLaw R} (C : gmap string Z).
Context {IM OM TM AM : Type}.
Context `{EI : !EbpfMap IM InnerKey val2} `{EO : !EbpfMap OM NsKey nat}.
Context `{ET : !EbpfMap TM NsKey unit} `{EA : !EbpfMap AM ArgumentsKey Z}.
Context {LI : EbpfMapLaw IM InnerKey val2} {LO : EbpfMapLaw OM NsKey nat}.
Context {LT : EbpfMapLaw TM NsKey unit} {LA : EbpfMapLaw AM ArgumentsKey Z}.

Abbreviation BE := (BPFEnforcer (IM:=IM) (OM:=OM) (TM:=TM) (AM:=AM)).

Lemma put_rules_step (be0 : BE) id ns h p new dp v rs a be :
  p ∈ parts → track be0 id ns h v rs a be →
  track be0 id ns h (p_get p new ∪ posture_view p new dp v)
    (on_part p (λ m, p_get p new ∪ m) rs) a
    (put_rules p id h new (set_posture_key p h new dp be)).
Proof.
  intros Hp Ht. unfold put_rules. rewrite <- insert_all_range.
  replace (on_part p (λ m, p_get p new ∪ m) rs)
    with (on_part p (insert_all (go_range (p_get p new))) rs)
    by (unfold on_part; by rewrite insert_all_range).
  apply track_put_loop; [by apply part_laws|]. by apply track_posture.
Qed.

Lemma resolve_step (be0 : BE) id ns h p new v rs a be :
  p ∈ parts → track be0 id ns h v rs a be →
  track be0 id ns h (v ∖ (p_get p rs ∖ new)) (on_part p (λ m, m ∖ (m ∖ new)) rs) a
    (resolveConflicts p id h new be).
Proof.
  intros Hp Ht. unfold resolveConflicts.
  destruct (track_container _ _ _ _ _ _ _ _ Ht) as [-> _].
  rewrite <- (drop_range (p_get p rs) new v).
  replace (on_part p (λ m, m ∖ (m ∖ new)) rs) with
    (on_part p (λ m, foldl (drop_step new) m (go_range (p_get p rs))) rs)
    by (unfold on_part; by rewrite drop_range).
  apply track_resolve_loop; [by apply part_laws|done].
Qed.

Lemma resolve_proc_step (be0 : BE) id ns h new v rs a be :
  track be0 id ns h v rs a be →
  ∃ al a', track be0 id ns h (v ∖ (ProcessRuleList rs ∖ new))
    (set_args al (on_part ProcPart (λ m, m ∖ (m ∖ new)) rs)) a'
    (resolveConflictsProcessRules id h new be).
Proof.
  intros Ht. unfold resolveConflictsProcessRules.
  destruct (track_container _ _ _ _ _ _ _ _ Ht) as [-> _].
  rewrite <- (drop_range (ProcessRuleList rs) new v).
  replace (on_part ProcPart (λ m, m ∖ (m ∖ new)) rs) with
    (on_part ProcPart (λ m, foldl (drop_step new) m (go_range (ProcessRuleList rs))) rs)
    by (unfold on_part; simpl; by rewrite drop_range).
  by eapply track_resolve_proc.
Qed.

Lemma RuleList_ext r r' :
  ProcessRuleList r = ProcessRuleList r' → FileRuleList r = FileRuleList r' →
  NetworkRuleList r = NetworkRuleList r' → CapabilitiesRuleList r = CapabilitiesRuleList r' →
  ProcWhiteListPosture r = ProcWhiteListPosture r' →
  FileWhiteListPosture r = FileWhiteListPosture r' →
  NetWhiteListPosture r = NetWhiteListPosture r' →
  CapWhiteListPosture r = CapWhiteListPosture r' →
  ArgumentsList r = ArgumentsList r' → r = r'.
Proof. destruct r, r'; simpl; intros; by subst. Qed.

(** The inner map once the four lists have dropped their stale entries. *)
Definition drop_stale (new rs : RuleList) (v : RuleMap) : RuleMap :=
  v ∖ (ProcessRuleList rs ∖ ProcessRuleList new) ∖ (FileRuleList rs ∖ FileRuleList new)
    ∖ (NetworkRuleList rs ∖ NetworkRuleList new)
    ∖ (CapabilitiesRuleList rs ∖ CapabilitiesRuleList new).

Lemma drop_stale_lookup new rs v k :
  covers v rs →
  drop_stale new rs v !! k = None ∨ k ∈ p_key <$> parts ∨
  ∃ p, p ∈ parts ∧ is_Some (p_get p new !! k).
Proof.
  intros Hc. destruct (drop_stale new rs v !! k) as [x|] eqn:E; [right|by left].
  assert (∀ (m old fresh : RuleMap) y, (m ∖ (old ∖ fresh)) !! k = Some y →
    m !! k = Some y ∧ (is_Some (old !! k) → is_Some (fresh !! k))) as Hd.
  { intros m old fresh y. rewrite !lookup_difference.
    destruct (fresh !! k), (old !! k); naive_solver. }
  unfold drop_stale in E.
  apply Hd in E as [E H4]. apply Hd in E as [E H3]. apply Hd in E as [E H2].
  apply Hd in E as [E H1].
  destruct (Hc k) as [Hk|(p & Hp & Hy)]; [by rewrite E|by left|right].
  exists p. split; [done|].
  repeat (apply elem_of_cons in Hp as [->|Hp]; [by auto|]). by apply not_elem_of_nil in Hp.
Qed.

(** The first phase: stale entries go, postures are copied. *)
Definition kept (new rs : RuleList) : RuleList :=
  let keep m fresh : RuleMap := m ∖ (m ∖ fresh) in
  {| ProcessRuleList := keep (ProcessRuleList rs) (ProcessRuleList new);
     FileRuleList := keep (FileRuleList rs) (FileRuleList new);
     NetworkRuleList := keep (NetworkRuleList rs) (NetworkRuleList new);
     CapabilitiesRuleList := keep (CapabilitiesRuleList rs) (CapabilitiesRuleList new);
     ProcWhiteListPosture := ProcWhiteListPosture new;
     FileWhiteListPosture := FileWhiteListPosture new;
     NetWhiteListPosture := NetWhiteListPosture new;
     CapWhiteListPosture := CapWhiteListPosture new;
     ArgumentsList := ArgumentsList rs |}.

Lemma resolve_phase (be0 : BE) id ns h new v rs a be :
  track be0 id ns h v rs a be →
  ∃ al a', track be0 id ns h (drop_stale new rs v) (set_args al (kept new rs)) a'
    (on_rules id (copy_postures new)
      (resolveConflicts CapPart id h (CapabilitiesRuleList new)
        (resolveConflicts NetPart id h (NetworkRuleList new)
          (resolveConflicts FilePart id h (FileRuleList new)
            (resolveConflictsProcessRules id h (ProcessRuleList new) be))))).
Proof.
  intros Ht.
  destruct (resolve_proc_step _ _ _ _ (ProcessRuleList new) _ _ _ _ Ht) as (al & a1 & H1).
  assert (∀ p, p ∈ parts ↔ p = ProcPart ∨ p = FilePart ∨ p = NetPart ∨ p = CapPart) as Hp.
  { intros p. unfold parts. set_solver. }
  apply (resolve_step _ _ _ _ FilePart (FileRuleList new)) in H1; [|apply Hp; auto].
  apply (resolve_step _ _ _ _ NetPart (NetworkRuleList new)) in H1; [|apply Hp; auto].
  apply (resolve_step _ _ _ _ CapPart (CapabilitiesRuleList new)) in H1; [|apply Hp; auto].
  apply (track_on_rules _ _ _ _ _ _ _ _ (copy_postures new)) in H1.
  exists al, a1. exact H1.
Qed.

(** The second phase: postures, rules and arguments. *)
Lemma put_phase (be0 : BE) id ns h new dp v rs al a be :
  track be0 id ns h v (set_args al (kept new rs)) a be →
  ∃ al', track be0 id ns h
    (foldl (λ v p, p_get p new ∪ posture_view p new dp v) v parts) (set_args al' new)
    (put_args_view (go_range (ArgumentsList new)) a)
    (let be := put_rules ProcPart id h new (set_posture_key ProcPart h new dp be) in
     let be := put_args id new be in
     let be := put_rules FilePart id h new (set_posture_key FilePart h new dp be) in
     let be := put_rules NetPart id h new (set_posture_key NetPart h new dp be) in
     put_rules CapPart id h new (set_posture_key CapPart h new dp be)).
Proof.
  intros H1.
  assert (∀ p, p ∈ parts ↔ p = ProcPart ∨ p = FilePart ∨ p = NetPart ∨ p = CapPart) as Hp.
  { intros p. unfold parts. set_solver. }
  apply (put_rules_step _ _ _ _ ProcPart new dp) in H1; [|apply Hp; auto].
  apply (track_put_args_loop _ _ _ _ (go_range (ArgumentsList new))) in H1 as [al' H1].
  apply (put_rules_step _ _ _ _ FilePart new dp) in H1; [|apply Hp; auto].
  apply (put_rules_step _ _ _ _ NetPart new dp) in H1; [|apply Hp; auto].
  apply (put_rules_step _ _ _ _ CapPart new dp) in H1; [|apply Hp; auto].
  exists al'. match type of H1 with track _ _ _ _ _ ?rr _ _ =>
    assert (rr = set_args al' new) as Hrr end.
  { apply RuleList_ext; try reflexivity; apply refresh_list. }
  rewrite Hrr in H1. exact H1.
Qed.

(** The whole write phase. *)
Lemma apply_rules_track (be0 : BE) id ns h new dp v rs a be :
  covers v rs → track be0 id ns h v rs a be →
  ∃ al a', track be0 id ns h (kernel_view new dp) (set_args al new)
             (put_args_view (go_range (ArgumentsList new)) a')
             (apply_rules id h new dp be).
Proof.
  intros Hc Ht. destruct (resolve_phase _ _ _ _ new _ _ _ _ Ht) as (al & a' & H1).
  apply (put_phase _ _ _ _ _ dp) in H1 as [al' H1]. exists al', a'.
  unfold kernel_view. rewrite (layers_ext new dp parts ∅ (drop_stale new rs v)); [exact H1|].
  intros k. destruct (drop_stale_lookup new rs v k Hc) as [->|H]; [left; apply lookup_empty|auto].
Qed.

(** ** Removing a container's inner map *)

(** Work on the arguments map and the log only. *)
Record args_only (be be' : BE) : Prop := {
  ao_container : be_ContainerMap be' = be_ContainerMap be;
  ao_maps : be_maps be' = be_maps be;
  ao_outer : be_BPFContainerMap be' = be_BPFContainerMap be;
  ao_throttle : be_BPFContainerThrottleMap be' = be_BPFContainerThrottleMap be;
  ao_log : ∃ errs, be_log be' = be_log be ++ errs }.

#[export] Instance args_only_preorder : PreOrder args_only.
Proof.
  split.
  - intros be. split; try done. exists []. by rewrite app_nil_r.
  - intros b1 b2 b3 [???? (e1 & ?)] [???? (e2 & ?)]. split; try congruence.
    exists (e1 ++ e2). rewrite app_assoc. congruence.
Qed.

Lemma Errf_log (be : BE) e :
  be_log (Errf e be) = be_log be ++ match e with None => [] | Some x => [x] end.
Proof. destruct e; simpl; by rewrite ?app_nil_r. Qed.

Lemma delete_container_args_only l (be : BE) : args_only be (foldl delete_container_args be l).
Proof.
  apply (foldl_inv (args_only be)); [reflexivity|]. intros b kv _ Hb.
  unfold delete_container_args. apply (foldl_inv (args_only be)); [done|].
  intros b' arg _ Hb'. transitivity b'; [done|]. unfold args_Delete.
  destruct (em_Delete _ _) as [m e]. split; try (by destruct (unless_NotExist e)).
  eexists. by rewrite Errf_log.
Qed.

Lemma delete_ok_lookup {M K V} `{Countable K} `{EM : !EbpfMap M K V} {L : EbpfMapLaw M K V} (m : M) k :
  unless_NotExist (em_Delete m k).2 = None →
  em_view (em_Delete m k).1 = delete k (em_view m).
Proof.
  rewrite em_Delete_view. intros He. pose proof (em_Delete_NotExist m k) as Hn.
  destruct (em_Delete m k).2 as [[]|]; [|done|done]. symmetry. apply delete_id. auto.
Qed.

(** Everything but errors is determined when the log does not grow. *)
Lemma DeleteContainerInnerMap_ok id kv h (be : BE) :
  be_ContainerMap be !! id = Some kv → kv_Map kv = Some h →
  let be' := DeleteContainerInnerMap id be in
  be_ContainerMap be' =
    <[id := {| kv_Key := kv_Key kv; kv_Map := None; kv_Rules := Init |}]> (be_ContainerMap be) ∧
  be_maps be' = delete h (be_maps be) ∧
  ∃ errs, be_log be' = be_log be ++ errs ∧
    (errs = [] → em_view (be_BPFContainerMap be') = delete (kv_Key kv) (em_view (be_BPFContainerMap be)) ∧
       em_view (be_BPFContainerThrottleMap be') =
         delete (kv_Key kv) (em_view (be_BPFContainerThrottleMap be))).
Proof.
  intros Hkv Hh. unfold DeleteContainerInnerMap, container. rewrite Hkv. simpl. rewrite Hh.
  pose proof (delete_ok_lookup (be_BPFContainerMap be) (kv_Key kv)) as Ho.
  destruct (em_Delete (be_BPFContainerMap be) (kv_Key kv)) as [om e1]. simpl in Ho.
  set (b1 := Errf (unless_NotExist e1) (set_outer om be)).
  assert (be_BPFContainerThrottleMap b1 = be_BPFContainerThrottleMap be) as -> by by destruct (unless_NotExist e1).
  pose proof (delete_ok_lookup (be_BPFContainerThrottleMap be) (kv_Key kv)) as Ht.
  destruct (em_Delete (be_BPFContainerThrottleMap be) (kv_Key kv)) as [tm e2]. simpl in Ht.
  set (b2 := Errf (unless_NotExist e2) (set_throttle tm b1)).
  pose proof (delete_container_args_only (go_range (ArgumentsList (kv_Rules kv))) b2) as [Hc Hm Hu Hth (e3 & Hl)].
  set (b3 := foldl _ b2 _) in *.
  assert (be_ContainerMap b3 = be_ContainerMap be ∧ be_maps b3 = be_maps be ∧
    be_BPFContainerMap b3 = om ∧ be_BPFContainerThrottleMap b3 = tm) as (Hc3 & Hm3 & Ho3 & Ht3).
  { rewrite Hc, Hm, Hu, Hth. unfold b2, b1. by destruct (unless_NotExist e1), (unless_NotExist e2). }
  assert (∃ e4, be_log (close_inner h b3) = be_log b3 ++ e4 ∧
    be_ContainerMap (close_inner h b3) = be_ContainerMap b3 ∧
    be_maps (close_inner h b3) = delete h (be_maps b3) ∧
    be_BPFContainerMap (close_inner h b3) = om ∧
    be_BPFContainerThrottleMap (close_inner h b3) = tm) as (e4 & Hl4 & Hc4 & Hm4 & Ho4 & Ht4).
  { unfold close_inner. destruct (be_maps b3 !! h) eqn:E; eexists; rewrite Errf_log;
      (split; [reflexivity|]); [by destruct (em_Close _)|].
    simpl. by rewrite delete_id. }
  simpl. split; [congruence|]. split; [congruence|].
  eexists. rewrite Hl4, Hl. unfold b2, b1. rewrite !Errf_log. simpl. rewrite Errf_log. simpl.
  rewrite <- !app_assoc. split; [reflexivity|].
  intros [He1 [He2 _]%app_eq_nil]%app_eq_nil. rewrite Ho4, Ht4.
  split; [apply Ho; by destruct (unless_NotExist e1)|apply Ht; by destruct (unless_NotExist e2)].
Qed.

(** ** The update as a whole *)

Context (NewMap : BE → option (nat * IM)).

(** [ebpf.NewMap] returns an empty map under an unused descriptor. *)
Context (NewMap_fresh : ∀ be h m, NewMap be = Some (h, m) →
  em_view m = ∅ ∧ be_maps be !! h = None).

(** What the enforcer keeps true of a registered container: without an inner map
    it has no rules and no entry in the outer map; with one, the outer map points
    to it and it holds nothing but posture keys and entries of the recorded lists. *)
Definition in_sync (be : BE) (id : string) : Prop :=
  ∀ kv, be_ContainerMap be !! id = Some kv →
  match kv_Map kv with
  | None => (∀ p, p ∈ parts → p_get p (kv_Rules kv) = ∅) ∧
            em_view (be_BPFContainerMap be) !! kv_Key kv = None
  | Some h => (∃ m, be_maps be !! h = Some m ∧ covers (em_view m) (kv_Rules kv)) ∧
              em_view (be_BPFContainerMap be) !! kv_Key kv = Some h
  end.

(** The inner map of a container holds the fresh rules, and its record agrees. *)
Definition enforces (be : BE) (id : string) (ns : NsKey) (new : RuleList)
    (dp : DefaultPosture) : Prop :=
  ∃ h m rs, be_ContainerMap be !! id = Some {| kv_Key := ns; kv_Map := Some h; kv_Rules := rs |} ∧
    em_view (be_BPFContainerMap be) !! ns = Some h ∧
    be_maps be !! h = Some m ∧ em_view m = kernel_view new dp ∧
    (∀ p, p ∈ parts → p_get p rs = p_get p new ∧ p_posture p rs = p_posture p new) ∧
    (∀ key args arg, ArgumentsList new !! key = Some args → arg ∈ args →
       em_view (be_BPFArgumentsMap be) !! args_key key arg = Some 1%Z).

Lemma put_args_view_mono l (a : gmap ArgumentsKey Z) k :
  a !! k = Some 1%Z → put_args_view l a !! k = Some 1%Z.
Proof.
  intros Hk. unfold put_args_view. apply (foldl_inv (λ a, a !! k = Some 1%Z)); [done|].
  intros a' kv _ Ha. apply (foldl_inv (λ a, a !! k = Some 1%Z)); [done|].
  intros a'' arg _ Ha''. destruct (decide (args_key kv.1 arg = k)) as [->|].
  - apply lookup_insert_eq.
  - by rewrite lookup_insert_ne.
Qed.

Lemma put_args_view_in l (a : gmap ArgumentsKey Z) key args arg :
  (key, args) ∈ l → arg ∈ args → put_args_view l a !! args_key key arg = Some 1%Z.
Proof.
  intros Hl Harg. revert a. induction l as [|kv l IH]; intros a; [by apply not_elem_of_nil in Hl|].
  apply elem_of_cons in Hl as [<-|Hl]; [|by apply IH].
  apply (put_args_view_mono l). simpl. clear IH. revert a.
  induction args as [|x args IH]; intros a; [by apply not_elem_of_nil in Harg|].
  apply elem_of_cons in Harg as [->|Hin]; simpl; [|by apply IH].
  apply (foldl_inv (λ a, a !! args_key key x = Some 1%Z)); [apply lookup_insert_eq|].
  intros a'' y _ Ha. destruct (decide (args_key key y = args_key key x)) as [->|].
  - apply lookup_insert_eq.
  - by rewrite lookup_insert_ne.
Qed.

Lemma track_start (be : BE) id ns h rs m :
  be_ContainerMap be !! id = Some {| kv_Key := ns; kv_Map := Some h; kv_Rules := rs |} →
  be_maps be !! h = Some m →
  track be id ns h (em_view m) rs (em_view (be_BPFArgumentsMap be)) be.
Proof. intros Hc Hm. split; try done. exists []. rewrite app_nil_r. eauto. Qed.

Lemma apply_rules_enforces id ns h rs m new dp (be : BE) :
  be_ContainerMap be !! id = Some {| kv_Key := ns; kv_Map := Some h; kv_Rules := rs |} →
  be_maps be !! h = Some m → covers (em_view m) rs →
  em_view (be_BPFContainerMap be) !! ns = Some h →
  let be' := apply_rules id h new dp be in
  ∃ errs, be_log be' = be_log be ++ errs ∧
    (errs = [] → enforces be' id ns new dp).
Proof.
  intros Hc Hm Hcov Ho.
  destruct (apply_rules_track be id ns h new dp _ _ _ be Hcov (track_start _ _ _ _ _ _ Hc Hm))
    as (al & a' & [Hc' _ _ Ho' (errs & Hl & Hk)]).
  exists errs. split; [done|]. intros He. destruct (Hk He) as [(m' & Hm' & Hv) Ha].
  exists h, m', (set_args al new). rewrite Ho'. split_and!; try done.
  - intros p Hp. repeat (apply elem_of_cons in Hp as [->|Hp]; [done|]).
    by apply not_elem_of_nil in Hp.
  - intros key args arg Hkey Harg. rewrite Ha.
    apply (put_args_view_in _ _ key args arg); [|done]. by apply elem_of_go_range.
Qed.

Lemma enforces_in_sync be id ns new dp : enforces be id ns new dp → in_sync be id.
Proof.
  intros (h & m & rs & Hc & Ho & Hm & Hv & Hrs & _) kv Hkv.
  rewrite Hc in Hkv. simplify_eq. simpl. split; [|done]. exists m. split; [done|].
  rewrite Hv. intros k Hk. destruct (kernel_view_covers new dp k Hk) as [|(p & Hp & Hs)]; [by left|].
  right. exists p. split; [done|]. by rewrite (proj1 (Hrs p Hp)).
Qed.

Lemma CreateContainerInnerMap_ok id kv (be : BE) :
  be_ContainerMap be !! id = Some kv →
  match NewMap be with
  | None => CreateContainerInnerMap NewMap id be = Errf (Some ErrOther) be
  | Some (h, im) =>
      let be' := CreateContainerInnerMap NewMap id be in
      be_ContainerMap be' =
        <[id := {| kv_Key := kv_Key kv; kv_Map := Some h; kv_Rules := kv_Rules kv |}]>
          (be_ContainerMap be) ∧
      be_maps be' = <[h := im]> (be_maps be) ∧
      ∃ errs, be_log be' = be_log be ++ errs ∧
        (errs = [] → em_view (be_BPFContainerMap be') =
                     <[kv_Key kv := h]> (em_view (be_BPFContainerMap be)))
  end.
Proof.
  clear NewMap_fresh. intros Hkv. unfold CreateContainerInnerMap. rewrite Hkv.
  destruct (NewMap be) as [[h im]|]; [|done]. simpl.
  pose proof (em_Put_view (be_BPFContainerMap be) (kv_Key kv) h) as Hv.
  destruct (em_Put (be_BPFContainerMap be) (kv_Key kv) h) as [om e]. simpl in *.
  split; [by destruct e|]. split; [by destruct e|].
  eexists. rewrite Errf_log. split; [reflexivity|]. destruct e; [done|]. done.
Qed.

Lemma no_rules_empty r : no_rules r = true → ∀ p, p ∈ parts → p_get p r = ∅.
Proof.
  unfold no_rules. rewrite !andb_true_iff, !bool_decide_eq_true, !map_size_empty_iff.
  intros [[[??]?]?] p Hp. repeat (apply elem_of_cons in Hp as [->|Hp]; [done|]).
  by apply not_elem_of_nil in Hp.
Qed.

Lemma app_nil_inv_log {A} (l e : list A) : l = l ++ e → e = [].
Proof. intros H. rewrite <- (app_nil_r l) in H at 1. by apply app_inv_head in H. Qed.

(** Installing a rule set, by cases; the log tells whether the kernel followed. *)
Lemma install_rules_cases id kv new dp (be be' : BE) :
  be_ContainerMap be !! id = Some kv → in_sync be id →
  install_rules NewMap id new dp be = Ok be' → be_log be' = be_log be →
  if no_rules new then
    ∃ kv', be_ContainerMap be' !! id = Some kv' ∧ kv_Key kv' = kv_Key kv ∧
      kv_Map kv' = None ∧ (∀ p, p ∈ parts → p_get p (kv_Rules kv') = ∅) ∧
      em_view (be_BPFContainerMap be') !! kv_Key kv = None
  else enforces be' id (kv_Key kv) new dp.
Proof.
  intros Hkv Hs Hi Hlog. unfold install_rules in Hi. rewrite Hkv in Hi.
  pose proof (Hs kv Hkv) as Hsync. destruct (no_rules new) eqn:Hn.
  - rewrite andb_false_r in Hi. simplify_eq.
    destruct (kv_Map kv) as [h|] eqn:Hm.
    + destruct (DeleteContainerInnerMap_ok id kv h be Hkv Hm) as (Hc & _ & errs & Hl & He).
      rewrite Hl in Hlog. symmetry in Hlog. apply app_nil_inv_log in Hlog.
      destruct (He Hlog) as [Ho _].
      eexists. rewrite Hc, lookup_insert_eq. split; [reflexivity|]. simpl.
      split_and!; try done; [|by rewrite Ho, lookup_delete_eq].
      intros p Hp. by apply no_rules_empty.
    + assert (DeleteContainerInnerMap id be = be) as ->.
      { unfold DeleteContainerInnerMap, container. rewrite Hkv. simpl. by rewrite Hm. }
      destruct Hsync. exists kv. done.
  - destruct kv as [ns [h|] rs]; simpl in *.
    + simplify_eq. destruct Hsync as [(m & Hm & Hcov) Ho].
      destruct (apply_rules_enforces id ns h rs m new dp be Hkv Hm Hcov Ho) as (errs & Hl & He).
      rewrite Hl in Hlog. symmetry in Hlog. apply app_nil_inv_log in Hlog. auto.
    + pose proof (CreateContainerInnerMap_ok id _ be Hkv) as Hcr. simpl in Hcr.
      destruct (NewMap be) as [[h im]|] eqn:Enew.
      * destruct Hcr as (Hc & Hm & e1 & Hl1 & Ho). set (b1 := CreateContainerInnerMap _ _ _) in *.
        assert (be_ContainerMap b1 !! id =
          Some {| kv_Key := ns; kv_Map := Some h; kv_Rules := rs |}) as Hc1
          by by rewrite Hc, lookup_insert_eq.
        unfold container in Hi. rewrite Hc1 in Hi. simplify_eq/=.
        destruct (NewMap_fresh _ _ _ Enew) as [Hv _].
        assert (be_maps b1 !! h = Some im) as Hm1 by by rewrite Hm, lookup_insert_eq.
        assert (covers (em_view im) rs) as Hcov.
        { intros k [x Hx]. by rewrite Hv, lookup_empty in Hx. }
        assert (∃ e2, be_log (apply_rules id h new dp b1) = be_log b1 ++ e2) as [e2' Hl2'].
        { destruct (apply_rules_track b1 id ns h new dp _ _ _ b1 Hcov
            (track_start _ _ _ _ _ _ Hc1 Hm1)) as (? & ? & [_ _ _ _ (errs & ? & _)]). eauto. }
        rewrite Hl2', Hl1, <- app_assoc in Hlog. symmetry in Hlog.
        apply app_nil_inv_log, app_eq_nil in Hlog as [-> ->].
        destruct (apply_rules_enforces id ns h rs im new dp b1 Hc1 Hm1 Hcov) as (e2 & Hl2 & He2).
        { by rewrite Ho, lookup_insert_eq. }
        apply He2. by eapply app_inv_head; rewrite <- Hl2, Hl2'.
      * rewrite Hcr in Hi. unfold container in Hi. simpl in Hi. by rewrite Hkv in Hi.
Qed.

(** C2: After an update of a registered container's rules that logs no error, the
    enforcer and the kernel are in step again, and: if the policies generate no
    rule, the container has no inner map, no recorded rules and no entry in the
    outer map; otherwise the outer map points to an inner map that holds exactly
    the fresh rules and posture keys, the recorded lists and postures are the fresh
    ones, and every allowed argument of the fresh rules is in the arguments map. *)
Theorem UpdateContainerRules_refines id kv pols dp (be be' : BE) :
  be_ContainerMap be !! id = Some kv → in_sync be id →
  UpdateContainerRules C NewMap id pols dp be = Ok be' → be_log be' = be_log be →
  let new := fresh_rules C (kv_Key kv) pols in
  in_sync be' id ∧
  if no_rules new then
    ∃ kv', be_ContainerMap be' !! id = Some kv' ∧ kv_Key kv' = kv_Key kv ∧
      kv_Map kv' = None ∧ (∀ p, p ∈ parts → p_get p (kv_Rules kv') = ∅) ∧
      em_view (be_BPFContainerMap be') !! kv_Key kv = None
  else enforces be' id (kv_Key kv) new dp.
Proof.
  intros Hkv Hs Hu Hlog new. unfold UpdateContainerRules, container in Hu.
  rewrite Hkv in Hu. simpl in Hu. fold new in Hu.
  pose proof (install_rules_cases _ _ _ _ _ _ Hkv Hs Hu Hlog) as H.
  split; [|done]. destruct (no_rules new); [|by eapply enforces_in_sync].
  destruct H as (kv' & Hc & Hk & Hm & Hp & Ho). intros kv'' Hkv''.
  rewrite Hc in Hkv''. simplify_eq. rewrite Hm, Hk. done.
Qed.

(** An update panics exactly when the container is registered without an inner
    map, the policies generate some rule and the kernel refuses a new map:
    [CreateContainerInnerMap] logs the error and returns, and the update goes on to
    use the nil map. *)
Theorem UpdateContainerRules_panics id pols dp (be : BE) :
  UpdateContainerRules C NewMap id pols dp be = Panic ↔
  ∃ kv, be_ContainerMap be !! id = Some kv ∧ kv_Map kv = None ∧
        no_rules (fresh_rules C (kv_Key kv) pols) = false ∧ NewMap be = None.
Proof.
  clear NewMap_fresh. unfold UpdateContainerRules, install_rules, container.
  destruct (be_ContainerMap be !! id) as [kv|] eqn:Hkv; simpl; [|naive_solver].
  set (new := fresh_rules C (kv_Key kv) pols).
  split.
  - intros H. exists kv. split; [done|]. fold new.
    destruct (no_rules new) eqn:Hn; [by rewrite andb_false_r in H|].
    destruct (kv_Map kv) eqn:Hm; [done|]. simpl in H.
    pose proof (CreateContainerInnerMap_ok id kv be Hkv) as Hc.
    destruct (NewMap be) as [[h im]|]; [|done].
    destruct Hc as (Hc & _). by rewrite Hc, lookup_insert_eq in H.
  - intros (kv' & ? & Hm & Hn & Hnew). simplify_eq. fold new in Hn. rewrite Hm, Hn. simpl.
    pose proof (CreateContainerInnerMap_ok id kv' be Hkv) as Hc. rewrite Hnew in Hc.
    rewrite Hc. simpl. rewrite Hkv. simpl. by rewrite Hm.
Qed.

(** What installing the rules of one container leaves alone. *)
Lemma install_rules_frame id kv new dp (be be' : BE) :
  be_ContainerMap be !! id = Some kv → in_sync be id →
  install_rules NewMap id new dp be = Ok be' →
  (∀ j, j ≠ id → be_ContainerMap be' !! j = be_ContainerMap be !! j) ∧
  (∀ h m, kv_Map kv ≠ Some h → be_maps be !! h = Some m → be_maps be' !! h = Some m) ∧
  (∃ errs, be_log be' = be_log be ++ errs ∧
     (errs = [] → ∀ k, k ≠ kv_Key kv →
        em_view (be_BPFContainerMap be') !! k = em_view (be_BPFContainerMap be) !! k)) ∧
  (∃ kv', be_ContainerMap be' !! id = Some kv' ∧ kv_Key kv' = kv_Key kv ∧
     ∀ h, kv_Map kv' = Some h → kv_Map kv = Some h ∨ be_maps be !! h = None).
Proof.
  intros Hkv Hs Hu. unfold install_rules in Hu. rewrite Hkv in Hu.
  pose proof (Hs kv Hkv) as Hsync. destruct (no_rules new) eqn:Hn.
  - rewrite andb_false_r in Hu. simplify_eq. destruct (kv_Map kv) as [h|] eqn:Hm.
    + destruct (DeleteContainerInnerMap_ok id kv h be Hkv Hm) as (Hc & Hmaps & errs & Hl & He).
      rewrite Hc, Hmaps. split; [intros; by rewrite lookup_insert_ne|]. split; [|split].
      * intros h' m Hne Hh'. rewrite lookup_delete_ne; [done|]. congruence.
      * exists errs. split; [done|]. intros Hnil k Hk. destruct (He Hnil) as [-> _].
        by rewrite lookup_delete_ne.
      * eexists. rewrite lookup_insert_eq. split; [reflexivity|]. by split.
    + unfold DeleteContainerInnerMap, container. rewrite Hkv. simpl. rewrite Hm.
      split; [done|]. split; [done|]. split; [exists []; by rewrite app_nil_r|].
      exists kv. rewrite Hm. by split_and!.
  - destruct kv as [ns [h|] rs]; simpl in *.
    + simplify_eq. destruct Hsync as [(m & Hm & Hcov) Ho].
      destruct (apply_rules_track be id ns h new dp _ _ _ be Hcov (track_start _ _ _ _ _ _ Hkv Hm))
        as (? & ? & [Hc Hj Hh Hout (errs & Hl & _)]).
      split; [done|]. split; [intros h' m' Hne Hh'; rewrite Hh by congruence; done|].
      split; [exists errs; by rewrite Hout|]. eexists. by split_and!; [done|..|auto].
    + pose proof (CreateContainerInnerMap_ok id _ be Hkv) as Hcr. simpl in Hcr.
      destruct (NewMap be) as [[h im]|] eqn:Enew.
      * destruct Hcr as (Hc & Hm & errs0 & Hl0 & Ho0).
        set (b1 := CreateContainerInnerMap _ _ _) in *.
        assert (be_ContainerMap b1 !! id =
          Some {| kv_Key := ns; kv_Map := Some h; kv_Rules := rs |}) as Hc1
          by by rewrite Hc, lookup_insert_eq.
        unfold container in Hu. rewrite Hc1 in Hu. simplify_eq/=.
        destruct (NewMap_fresh _ _ _ Enew) as [Hv Hf].
        assert (be_maps b1 !! h = Some im) as Hm1 by by rewrite Hm, lookup_insert_eq.
        assert (covers (em_view im) rs) as Hcov.
        { intros k [x Hx]. by rewrite Hv, lookup_empty in Hx. }
        destruct (apply_rules_track b1 id ns h new dp _ _ _ b1 Hcov (track_start _ _ _ _ _ _ Hc1 Hm1))
          as (? & ? & [Hc' Hj Hh Hout (errs & Hl & _)]).
        split; [intros j Hne; by rewrite Hj, Hc, lookup_insert_ne|]. split; [|split].
        -- intros h' m' _ Hh'. assert (h' ≠ h) by congruence.
           by rewrite Hh, Hm, lookup_insert_ne.
        -- exists (errs0 ++ errs). rewrite Hl, Hl0, <- app_assoc. split; [done|].
           intros [He0 _]%app_eq_nil k Hk. by rewrite Hout, Ho0, lookup_insert_ne.
        -- eexists. split; [exact Hc'|]. split; [done|]. simpl. intros h' [= <-]. by right.
      * rewrite Hcr in Hu. unfold container in Hu. simpl in Hu. by rewrite Hkv in Hu.
Qed.

(** C34: An update of one container leaves every other container alone: its
    registration, its recorded rules, and every other inner map. *)
Theorem UpdateContainerRules_isolated id kv pols dp (be be' : BE) :
  be_ContainerMap be !! id = Some kv → in_sync be id →
  UpdateContainerRules C NewMap id pols dp be = Ok be' →
  (∀ j, j ≠ id → be_ContainerMap be' !! j = be_ContainerMap be !! j) ∧
  (∀ h m, kv_Map kv ≠ Some h → be_maps be !! h = Some m → be_maps be' !! h = Some m).
Proof.
  intros Hkv Hs Hu. unfold UpdateContainerRules in Hu.
  by destruct (install_rules_frame _ _ _ _ _ _ Hkv Hs Hu) as (? & ? & _).
Qed.
End update.

(** ** Reading the kernel's map *)

(** The first byte of a key's path: [/] for path rules, a tag for the others. *)
Definition key_head (k : InnerKey) : option ascii := head (ik_Path k).

Definition net_heads : list (option ascii) := Some nul :: (Some ∘ ascii_of_N <$> [2; 3]%N).

Lemma net_key_head protocol : key_head (net_key protocol) ∈ net_heads.
Proof.
  unfold net_key. destruct (protocols !! _); [by right; right; left|].
  destruct (netType !! _); [by right; left|by left].
Qed.

Lemma source_keys_head ws key srcs k :
  (∀ s, ik_Path (ws s key) = ik_Path key) → k ∈ source_keys ws key srcs →
  key_head k = key_head key.
Proof.
  intros Hws. unfold source_keys. destruct srcs as [|s l].
  - by intros ->%list_elem_of_singleton.
  - intros (src & -> & _)%list_elem_of_fmap. unfold key_head. by rewrite Hws.
Qed.

(** The network and capability lists hold tagged keys only. *)
Lemma tagged_list {B} p (rule : RuleList → B → RuleList) (Q : InnerKey → Prop) l r :
  (∀ r b k, is_Some ((view p (rule r b)).1 !! k) → is_Some ((view p r).1 !! k) ∨ Q k) →
  (∀ k, is_Some ((view p r).1 !! k) → Q k) →
  ∀ k, is_Some ((view p (foldl rule r l)).1 !! k) → Q k.
Proof.
  intros Hrule H0.
  apply (foldl_inv (λ r, ∀ k, is_Some ((view p r).1 !! k) → Q k)); [done|].
  intros r' b _ IH k [?|?]%Hrule; auto.
Qed.

Lemma put_all_is_Some get post set idx a ks v r k :
  (∀ m w r, get (set m w r) = m) →
  is_Some (get (put_all get post set idx a ks v r) !! k) → is_Some (get r !! k) ∨ k ∈ ks.
Proof.
  intros Hg. rewrite put_all_lookup by done. case_decide; auto.
Qed.

Section merged.
Context `{R : GoRange, !GoRangeLaw R} (C : gmap string Z) (ns : NsKey).

Lemma fresh_net_heads pols k :
  is_Some (NetworkRuleList (fresh_rules C ns pols) !! k) → key_head k ∈ net_heads.
Proof.
  apply (fresh_view_inv C ns (λ v, ∀ k, is_Some (v.1 !! k) → key_head k ∈ net_heads) PNet pols).
  - intros k' [x Hx]. simpl in Hx. by rewrite lookup_empty in Hx.
  - intros r pol _ IH. destruct (policy_view_net C ns r pol) as (r' & <- & ->) in IH |- *.
    apply tagged_list; [|done]. intros r0 net k'. simpl. rewrite net_rule_eq. unfold put_nets.
    intros [?|Hk]%put_all_is_Some; [by left| |done]. right.
    apply source_keys_head in Hk as ->; [apply net_key_head|done].
Qed.

Lemma fresh_cap_heads pols k :
  is_Some (CapabilitiesRuleList (fresh_rules C ns pols) !! k) →
  key_head k = Some (ascii_of_N 200).
Proof.
  apply (fresh_view_inv C ns (λ v, ∀ k, is_Some (v.1 !! k) → key_head k = Some (ascii_of_N 200))
    PCap pols).
  - intros k' [x Hx]. simpl in Hx. by rewrite lookup_empty in Hx.
  - intros r pol _ IH. destruct (policy_view_cap C ns r pol) as (r' & <- & ->) in IH |- *.
    apply tagged_list; [|done]. intros r0 cap k'. simpl. rewrite cap_rule_eq. unfold put_caps.
    intros [?|Hk]%put_all_is_Some; [by left| |done]. right.
    by apply source_keys_head in Hk as ->.
Qed.

Lemma rule_key_head p s : key_head (rule_key (String slash p) s) = Some slash.
Proof. done. Qed.

(** At the key of an absolute path the inner map of a container has the
    process mask of the process rule and the file mask of the file rule, if either
    exists, and nothing otherwise: posture keys, network and capability rules live
    at other keys, and the two kinds of path rules do not overwrite each other. *)
Theorem kernel_view_path pols dp p s :
  let new := fresh_rules C ns pols in
  let raw := foldl (policy_rules C ns) Init pols in
  let k := rule_key (String slash p) s in
  kernel_view new dp !! k =
  match ProcessRuleList raw !! k, FileRuleList raw !! k with
  | Some pm, Some fm => Some (pm.1, fm.2)
  | Some pm, None => Some pm
  | None, Some fm => Some fm
  | None, None => None
  end.
Proof.
  intros new raw k.
  assert (NetworkRuleList new !! k = None) as Hnet.
  { apply eq_None_not_Some. intros H%fresh_net_heads. unfold k in H. rewrite rule_key_head in H.
    repeat (apply elem_of_cons in H as [H|H]; [discriminate|]). by apply not_elem_of_nil in H. }
  assert (CapabilitiesRuleList new !! k = None) as Hcap.
  { apply eq_None_not_Some. intros H%fresh_cap_heads. unfold k in H. by rewrite rule_key_head in H. }
  assert (∀ q, q ∈ parts → k ≠ p_key q) as Hpk.
  { intros q Hq Hk. apply (f_equal key_head) in Hk. unfold k in Hk. rewrite rule_key_head in Hk.
    repeat (apply elem_of_cons in Hq as [->|Hq]; [discriminate|]). by apply not_elem_of_nil in Hq. }
  unfold kernel_view. cbn [foldl parts].
  rewrite !lookup_union. cbn [p_get CapPart NetPart FilePart ProcPart]. rewrite Hcap.
  rewrite !posture_view_lookup, !lookup_union. cbn [p_get CapPart NetPart FilePart ProcPart].
  rewrite Hnet. rewrite decide_False by (apply (Hpk CapPart); set_solver).
  rewrite posture_view_lookup, lookup_union, decide_False by (apply (Hpk NetPart); set_solver).
  rewrite posture_view_lookup, lookup_union, decide_False by (apply (Hpk FilePart); set_solver).
  rewrite posture_view_lookup, lookup_empty, decide_False by (apply (Hpk ProcPart); set_solver).
  change (FileRuleList new) with (fuseProcAndFileRules (ProcessRuleList raw) (FileRuleList raw)).
  change (ProcessRuleList new) with (ProcessRuleList raw).
  cbn [p_get]. rewrite fuse_lookup. unfold fuse_entry. simpl.
  by destruct (FileRuleList raw !! k), (ProcessRuleList raw !! k).
Qed.
End merged.

(** ** Stale allowed arguments *)

Section stale.
Context `{R : GoRange, !GoRangeLaw R} (C : gmap string Z).
Context {IM OM TM AM : Type}.
Context `{EI : !EbpfMap IM InnerKey val2} `{EO : !EbpfMap OM NsKey nat}.
Context `{ET : !EbpfMap TM NsKey unit} `{EA : !EbpfMap AM ArgumentsKey Z}.
Context {LA : EbpfMapLaw AM ArgumentsKey Z}.

Abbreviation BE := (BPFEnforcer (IM:=IM) (OM:=OM) (TM:=TM) (AM:=AM)).

(** The arguments map allows [ak]. *)
Definition allowed (ak : ArgumentsKey) (be : BE) : Prop :=
  em_view (be_BPFArgumentsMap be) !! ak = Some 1%Z.

Lemma allowed_Errf ak e (be : BE) : allowed ak be → allowed ak (Errf e be).
Proof. by destruct e. Qed.

Lemma allowed_put_or_log ak h k x (be : BE) : allowed ak be → allowed ak (put_or_log h k x be).
Proof.
  intros H. unfold put_or_log, inner_Put. destruct (be_maps be !! h); [|by apply allowed_Errf].
  destruct (em_Put _ _ _). by apply allowed_Errf.
Qed.
Lemma allowed_delete_or_log ak h k (be : BE) : allowed ak be → allowed ak (delete_or_log h k be).
Proof.
  intros H. unfold delete_or_log, inner_Delete. destruct (be_maps be !! h); [|by apply allowed_Errf].
  destruct (em_Delete _ _). by apply allowed_Errf.
Qed.

Lemma allowed_args_Put ak key arg (be : BE) : allowed ak be → allowed ak (args_Put key be arg).
Proof.
  unfold allowed, args_Put. intros H.
  pose proof (em_Put_view (be_BPFArgumentsMap be) (args_key key arg) 1%Z) as Hv.
  destruct (em_Put _ _ _) as [m e]. destruct e as [e|]; simpl in *; rewrite Hv; [done|].
  destruct (decide (args_key key arg = ak)) as [->|].
  - apply lookup_insert_eq.
  - by rewrite lookup_insert_ne.
Qed.

Lemma allowed_args_Delete ak key arg (be : BE) :
  args_key key arg ≠ ak → allowed ak be → allowed ak (args_Delete key be arg).1.
Proof.
  unfold allowed, args_Delete. intros Hne H.
  pose proof (em_Delete_view (be_BPFArgumentsMap be) (args_key key arg)) as Hv.
  destruct (em_Delete _ _) as [m e]. simpl in *. rewrite Hv.
  destruct e; [done|]. by rewrite lookup_delete_ne.
Qed.

Lemma allowed_resolve ak p id h new (be : BE) :
  allowed ak be → allowed ak (resolveConflicts p id h new be).
Proof.
  intros H. apply (foldl_inv (allowed ak)); [done|]. intros b kv _ Hb. unfold resolve_one.
  destruct (new !! kv.1); [done|]. apply (allowed_delete_or_log ak h kv.1 b Hb).
Qed.

Lemma allowed_drop_args ak id k (be : BE) :
  ak_InnerKey ak ≠ k → allowed ak be → allowed ak (drop_args id k be).
Proof.
  intros Hne H. unfold drop_args. case_bool_decide; [|done].
  set (argKey := {| al_NsKey := kv_Key (container id be); al_InnerKey := k |}).
  match goal with |- allowed _ (on_rules _ _ ?b) => change (allowed ak b) end.
  apply (foldl_inv (allowed ak)); [done|]. intros b arg _ Hb.
  assert (args_key argKey arg ≠ ak) as Hak by (intros <-; by apply Hne).
  pose proof (allowed_args_Delete ak _ arg b Hak Hb) as Hd.
  destruct (args_Delete _ b arg). by apply allowed_Errf.
Qed.

Lemma allowed_put_rules ak p id h new dp (be : BE) :
  allowed ak be → allowed ak (put_rules p id h new (set_posture_key p h new dp be)).
Proof.
  intros H. apply (foldl_inv (allowed ak)).
  - unfold set_posture_key. destruct (p_posture p new);
      [by apply allowed_put_or_log|by apply allowed_delete_or_log].
  - intros b kv _ Hb. by apply allowed_put_or_log.
Qed.

(** Narrowing the allowed arguments of a process rule does not take effect: an
    argument that the arguments map allows for a key stays allowed through every
    update that keeps a process rule at that key, whatever the new argument list is. *)
Theorem stale_arguments_stay NewMap id kv h pols dp ns k arg (be be' : BE) :
  be_ContainerMap be !! id = Some kv → kv_Map kv = Some h →
  is_Some (ProcessRuleList (fresh_rules C (kv_Key kv) pols) !! k) →
  allowed (args_key {| al_NsKey := ns; al_InnerKey := k |} arg) be →
  UpdateContainerRules C NewMap id pols dp be = Ok be' →
  allowed (args_key {| al_NsKey := ns; al_InnerKey := k |} arg) be'.
Proof.
  intros Hkv Hm Hk Ha Hu. unfold UpdateContainerRules, install_rules, container in Hu.
  rewrite Hkv in Hu. simpl in Hu. set (new := fresh_rules _ _ _) in *.
  assert (no_rules new = false) as Hn.
  { apply not_true_is_false. unfold no_rules. rewrite !andb_true_iff, !bool_decide_eq_true.
    rewrite !map_size_empty_iff. intros [[[_ Hp] _] _]. rewrite Hp, lookup_empty in Hk.
    by destruct Hk. }
  rewrite Hn, Hm in Hu. simpl in Hu. simplify_eq. unfold apply_rules.
  do 2 apply allowed_put_rules. apply allowed_put_rules. unfold put_args. apply (foldl_inv (allowed _)).
  - apply allowed_put_rules.
    match goal with |- allowed ?ak (on_rules _ _ ?b) => change (allowed ak b) end.
    do 3 apply allowed_resolve. apply (foldl_inv (allowed _)); [done|].
    intros b kx _ Hb. unfold resolve_proc_one.
    destruct (ProcessRuleList new !! kx.1) eqn:E; [done|]. apply allowed_drop_args.
    + simpl. intros ->. rewrite E in Hk. by destruct Hk.
    + apply (allowed_delete_or_log _ h kx.1 b Hb).
  - intros b kx _ Hb. apply (foldl_inv (allowed _)); [done|]. intros b' x _ Hb'. by apply allowed_args_Put.
Qed.
End stale.

(** The capability rules of host policies are not enforced: the rule set of
    the host never has a capability entry nor the capability posture. *)
Theorem host_capabilities_dropped `{R : GoRange} C ns hps :
  CapabilitiesRuleList (fresh_rules C ns (host_policy <$> hps)) = ∅ ∧
  CapWhiteListPosture (fresh_rules C ns (host_policy <$> hps)) = false.
Proof.
  assert (view PCap (foldl (policy_rules C ns) Init (host_policy <$> hps)) = (∅, false)) as H.
  { apply (foldl_inv (λ r, view PCap r = (∅, false))); [done|].
    intros r pol (hp & -> & _)%list_elem_of_fmap Hr.
    by destruct (policy_view_cap C ns r (host_policy hp)) as (r' & <- & ->) in Hr |- *. }
  injection H as H1 H2. split; [exact H1|exact H2].
Qed.

(** ** A concrete kernel map and witnesses *)

(** A map that refuses new keys when it is full. *)
Record BMap K V `{Countable K} := { bm_map : gmap K V; bm_max : nat }.
Arguments bm_map {K V _ _} _.
Arguments bm_max {K V _ _} _.

#[export] Instance BMap_ebpf K V `{Countable K} : EbpfMap (BMap K V) K V := {|
  em_view := bm_map;
  em_Put m k v :=
    if bool_decide (is_Some (bm_map m !! k) ∨ size (bm_map m) < bm_max m)
    then ({| bm_map := <[k := v]> (bm_map m); bm_max := bm_max m |}, None)
    else (m, Some ErrOther);
  em_Delete m k :=
    match bm_map m !! k with
    | Some _ => ({| bm_map := delete k (bm_map m); bm_max := bm_max m |}, None)
    | None => (m, Some ErrNotExist)
    end;
  em_Close _ := None |}.

#[export] Instance BMap_law K V `{Countable K} : EbpfMapLaw (BMap K V) K V.
Proof.
  split.
  - intros m k v. simpl. by case_bool_decide.
  - intros m k. simpl. by destruct (bm_map m !! k).
  - intros m k. simpl. by destruct (bm_map m !! k).
Qed.

Abbreviation BBE := (BPFEnforcer (IM:=BMap InnerKey val2) (OM:=BMap NsKey nat)
  (TM:=BMap NsKey unit) (AM:=BMap ArgumentsKey Z)).

Definition sample_NewMap (be : BBE) : option (nat * BMap InnerKey val2) :=
  Some (fresh (dom (be_maps be)), {| bm_map := ∅; bm_max := 256 |}).

Lemma sample_NewMap_fresh be h m :
  sample_NewMap be = Some (h, m) → em_view m = ∅ ∧ be_maps be !! h = None.
Proof.
  intros Heq. injection Heq as <- <-. split; [done|].
  apply not_elem_of_dom, is_fresh.
Qed.

Definition empty_enforcer : BBE :=
  {| be_ContainerMap := ∅; be_maps := ∅; be_BPFContainerMap := {| bm_map := ∅; bm_max := 256 |};
     be_BPFContainerThrottleMap := {| bm_map := ∅; bm_max := 256 |};
     be_BPFArgumentsMap := {| bm_map := ∅; bm_max := 256 |}; be_log := [] |}.

Definition c1_enforcer : BBE := AddContainerIDToMap "c1" 1 2 empty_enforcer.
Definition c1_kv : ContainerKV :=
  {| kv_Key := {| ns_PidNS := 1; ns_MntNS := 2 |}; kv_Map := None; kv_Rules := Init |}.

Definition audit_posture : DefaultPosture :=
  {| dp_FileAction := "block"; dp_NetworkAction := "audit"; dp_CapabilitiesAction := "audit" |}.

Lemma c1_in_sync : in_sync c1_enforcer "c1".
Proof.
  intros kv Hkv. vm_compute in Hkv. simplify_eq. simpl. split; [|done].
  intros p Hp. repeat (apply elem_of_cons in Hp as [->|Hp]; [done|]).
  by apply not_elem_of_nil in Hp.
Qed.

#[local] Existing Instance canonical_range.
#[local] Existing Instance canonical_range_law.

Definition update (id : string) (pols : list SecurityPolicy) (be : BBE) : Res BBE :=
  UpdateContainerRules (R:=canonical_range) ∅ sample_NewMap id pols audit_posture be.

(** The update succeeds and logs nothing. *)
Definition quiet (r : Res BBE) : bool :=
  match r with Ok b => bool_decide (be_log b = []) | Panic => false end.

Lemma quiet_Ok r : quiet r = true → ∃ b, r = Ok b ∧ be_log b = [].
Proof. destruct r as [b|]; [|done]. intros H%bool_decide_eq_true. eauto. Qed.

Lemma c1_update_quiet : quiet (update "c1" [sample_policy] c1_enforcer) = true.
Proof. vm_compute. reflexivity. Qed.

Lemma c1_has_rules :
  no_rules (fresh_rules (R:=canonical_range) ∅ (kv_Key c1_kv) [sample_policy]) = false.
Proof. vm_compute. reflexivity. Qed.

Lemma UpdateContainerRules_refines_witness :
  ∃ be', update "c1" [sample_policy] c1_enforcer = Ok be' ∧
    enforces be' "c1" {| ns_PidNS := 1; ns_MntNS := 2 |}
      (fresh_rules (R:=canonical_range) ∅ {| ns_PidNS := 1; ns_MntNS := 2 |} [sample_policy])
      audit_posture.
Proof.
  destruct (quiet_Ok _ c1_update_quiet) as (be' & E & Hlog). exists be'. split; [exact E|].
  pose proof (UpdateContainerRules_refines ∅ sample_NewMap sample_NewMap_fresh "c1" c1_kv
    [sample_policy] audit_posture c1_enforcer be' eq_refl c1_in_sync E Hlog) as [_ H].
  rewrite c1_has_rules in H. exact H.
Defined.

Lemma UpdateContainerRules_isolated_witness :
  ∃ be', update "c1" [sample_policy] c1_enforcer = Ok be' ∧
    be_ContainerMap be' !! "c2" = be_ContainerMap c1_enforcer !! "c2".
Proof.
  destruct (quiet_Ok _ c1_update_quiet) as (be' & E & Hlog). exists be'. split; [exact E|].
  exact (proj1 (UpdateContainerRules_isolated ∅ sample_NewMap sample_NewMap_fresh "c1" c1_kv
    [sample_policy] audit_posture c1_enforcer be' eq_refl c1_in_sync E) "c2" ltac:(done)).
Defined.

Lemma UpdateContainerRules_panics_witness :
  UpdateContainerRules (R:=canonical_range) ∅ (λ _, None) "c1" [sample_policy] audit_posture
    c1_enforcer = Panic.
Proof.
  apply (proj2 (UpdateContainerRules_panics ∅ (λ _, None) "c1" [sample_policy] audit_posture
    c1_enforcer)). exists c1_kv.
  split_and!; [done|done|exact c1_has_rules|done].
Defined.

(** A container whose rule for [/usr/bin/python] allows two arguments, then one. *)
Definition args_policy (args : list string) : SecurityPolicy :=
  {| sp_Metadata := ∅;
     sp_Spec :=
       {| ss_Selector := empty_SelectorType;
          ss_Process := {| pt_MatchPaths :=
              [{| ppt_Path := "/usr/bin/python"; ppt_ExecName := ""; ppt_OwnerOnly := false;
                  ppt_FromSource := []; ppt_AllowedArgs := args; ppt_Severity := 0;
                  ppt_Tags := []; ppt_Message := ""; ppt_Action := "Allow" |}];
            pt_MatchDirectories := []; pt_MatchPatterns := []; pt_Severity := 0; pt_Tags := [];
            pt_Message := ""; pt_Action := "" |};
          ss_File := empty_FileType; ss_Network := empty_NetworkType;
          ss_Capabilities := empty_CapabilitiesType; ss_Syscalls := empty_SyscallsType;
          ss_Presets := []; ss_AppArmor := ""; ss_Severity := 0; ss_Tags := [];
          ss_Message := ""; ss_Action := "" |} |}.

Definition python_arg (arg : string) : ArgumentsKey :=
  args_key {| al_NsKey := {| ns_PidNS := 1; ns_MntNS := 2 |};
              al_InnerKey := rule_key "/usr/bin/python" "" |} arg.

(** The first update worked, [c1] has inner map 0, and [-c] is allowed. *)
Definition two_args_ok (r : Res BBE) : bool :=
  match r with
  | Ok b =>
      match be_ContainerMap b !! "c1" with
      | Some kv => bool_decide (kv_Map kv = Some 0) &&
                   bool_decide (kv_Key kv = {| ns_PidNS := 1; ns_MntNS := 2 |}) &&
                   bool_decide (em_view (be_BPFArgumentsMap b) !! python_arg "-c" = Some 1%Z) &&
                   quiet (update "c1" [args_policy ["-m"]] b)
      | None => false
      end
  | Panic => false
  end.

Lemma stale_arguments_stay_witness :
  ∃ b b', update "c1" [args_policy ["-m"; "-c"]] c1_enforcer = Ok b ∧
          update "c1" [args_policy ["-m"]] b = Ok b' ∧ allowed (python_arg "-c") b'.
Proof.
  assert (two_args_ok (update "c1" [args_policy ["-m"; "-c"]] c1_enforcer) = true) as H
    by (vm_compute; reflexivity).
  destruct (update "c1" [args_policy ["-m"; "-c"]] c1_enforcer) as [b|]; [|discriminate].
  exists b. unfold two_args_ok in H.
  destruct (be_ContainerMap b !! "c1") as [kv|] eqn:Ekv; [|discriminate].
  rewrite !andb_true_iff, !bool_decide_eq_true in H. destruct H as [[[Hh Hk] Ha] Hq].
  destruct (quiet_Ok _ Hq) as (b' & E & _). exists b'. split_and!; [done|exact E|].
  apply (stale_arguments_stay ∅ sample_NewMap "c1" kv 0 [args_policy ["-m"]] audit_posture
    {| ns_PidNS := 1; ns_MntNS := 2 |} (rule_key "/usr/bin/python" "") "-c" b b');
    [exact Ekv|exact Hh| |exact Ha|exact E].
  rewrite Hk. apply (bool_decide_eq_true_1 _). vm_compute. reflexivity.
Defined.

(** The Allow rule on [/etc/passwd] of [sample_policy], as the kernel sees it. *)
Lemma kernel_view_path_witness :
  kernel_view (fresh_rules (R:=canonical_range) ∅ zero_ns [sample_policy]) audit_posture
    !! rule_key (String slash "etc/passwd") "" = Some (0, READ)%Z.
Proof.
  pose proof (kernel_view_path (R:=canonical_range) ∅ zero_ns [sample_policy] audit_posture
    "etc/passwd" "") as H. cbv zeta in H. rewrite H. clear H. vm_compute. reflexivity.
Defined.

(** Deleting a container with an inner map forgets the container and closes its
    map whatever the kernel answers; if no error is logged, the outer map and the
    alert-throttle map have no entry for its namespaces either. *)
Theorem DeleteContainerIDFromMap_cleans `{R : GoRange} {IM OM TM AM : Type}
    `{EI : !EbpfMap IM InnerKey val2} `{EO : !EbpfMap OM NsKey nat}
    `{ET : !EbpfMap TM NsKey unit} `{EA : !EbpfMap AM ArgumentsKey Z}
    {LO : EbpfMapLaw OM NsKey nat} {LT : EbpfMapLaw TM NsKey unit}
    id kv h (be : BPFEnforcer (IM:=IM) (OM:=OM) (TM:=TM) (AM:=AM)) :
  be_ContainerMap be !! id = Some kv → kv_Map kv = Some h →
  let be' := DeleteContainerIDFromMap id be in
  be_ContainerMap be' = delete id (be_ContainerMap be) ∧
  be_maps be' = delete h (be_maps be) ∧
  (be_log be' = be_log be →
     em_view (be_BPFContainerMap be') !! kv_Key kv = None ∧
     em_view (be_BPFContainerThrottleMap be') !! kv_Key kv = None).
Proof.
  intros Hkv Hm be'.
  destruct (DeleteContainerInnerMap_ok id kv h be Hkv Hm) as (Hc & Hmaps & errs & Hl & He).
  unfold be', DeleteContainerIDFromMap. simpl. rewrite Hc, Hmaps. split_and!; [|done|].
  - by rewrite delete_insert_eq.
  - rewrite Hl. intros Hlog. symmetry in Hlog. apply app_nil_inv_log in Hlog.
    destruct (He Hlog) as [-> ->]. by rewrite !lookup_delete_eq.
Qed.

Definition c1_with_map : BBE :=
  {| be_ContainerMap := {["c1" := {| kv_Key := zero_ns; kv_Map := Some 0; kv_Rules := Init |}]};
     be_maps := {[0 := {| bm_map := ∅; bm_max := 256 |}]};
     be_BPFContainerMap := {| bm_map := {[zero_ns := 0]}; bm_max := 256 |};
     be_BPFContainerThrottleMap := {| bm_map := ∅; bm_max := 256 |};
     be_BPFArgumentsMap := {| bm_map := ∅; bm_max := 256 |}; be_log := [] |}.

Lemma DeleteContainerIDFromMap_cleans_witness :
  em_view (be_BPFContainerMap (DeleteContainerIDFromMap "c1" c1_with_map)) !! zero_ns = None.
Proof.
  by apply (DeleteContainerIDFromMap_cleans "c1"
    {| kv_Key := zero_ns; kv_Map := Some 0; kv_Rules := Init |} 0 c1_with_map).
Defined.
