(* ===== verification/AppArmor.v ===== *)
(** The AppArmor enforcer's profile generator
    ([KubeArmor/enforcer/appArmorProfile.go] and the data types of
    [appArmorTemplate.go]): from the policies of an endpoint to a profile with
    one sub-profile per source.

    The rendering of a profile by the text template is a parameter. *)
From Stdlib Require Import Ascii.
From S2P Require Import Prelude GoStrings Types.

(** ** Data *)

Record ProfileHeader := {
  ph_File : bool; ph_Network : bool; ph_Capabilities : bool; ph_Privileged : bool }.

Definition ProfileHeader_Init : ProfileHeader :=
  {| ph_File := true; ph_Network := true; ph_Capabilities := true; ph_Privileged := false |}.

Record RuleConfig := {
  rc_Dir : bool; rc_Recursive : bool; rc_ReadOnly : bool; rc_OwnerOnly : bool;
  rc_Deny : bool; rc_Allow : bool }.

Abbreviation ConfigMap := (gmap string RuleConfig).

Record Rules := {
  r_FilePaths : ConfigMap; r_ProcessPaths : ConfigMap;
  r_NetworkRules : ConfigMap; r_CapabilitiesRules : ConfigMap }.

Definition Rules_Init : Rules :=
  {| r_FilePaths := ∅; r_ProcessPaths := ∅; r_NetworkRules := ∅; r_CapabilitiesRules := ∅ |}.

Record FromSourceConfig := {
  fs_Fusion : bool; fs_ProfileHeader : ProfileHeader; fs_Rules : Rules }.

Record Profile := {
  p_Name : string; p_ProfileHeader : ProfileHeader; p_Rules : Rules;
  p_FromSource : gmap string FromSourceConfig; p_NativeRules : list string }.

Definition Profile_Init : Profile :=
  {| p_Name := ""; p_ProfileHeader := ProfileHeader_Init; p_Rules := Rules_Init;
     p_FromSource := ∅; p_NativeRules := [] |}.

(** Field updates. *)
Definition set_File (b : bool) (h : ProfileHeader) : ProfileHeader :=
  {| ph_File := b; ph_Network := ph_Network h; ph_Capabilities := ph_Capabilities h;
     ph_Privileged := ph_Privileged h |}.
Definition set_Network (b : bool) (h : ProfileHeader) : ProfileHeader :=
  {| ph_File := ph_File h; ph_Network := b; ph_Capabilities := ph_Capabilities h;
     ph_Privileged := ph_Privileged h |}.
Definition set_Capabilities (b : bool) (h : ProfileHeader) : ProfileHeader :=
  {| ph_File := ph_File h; ph_Network := ph_Network h; ph_Capabilities := b;
     ph_Privileged := ph_Privileged h |}.

Definition on_FilePaths (f : ConfigMap → ConfigMap) (r : Rules) : Rules :=
  {| r_FilePaths := f (r_FilePaths r); r_ProcessPaths := r_ProcessPaths r;
     r_NetworkRules := r_NetworkRules r; r_CapabilitiesRules := r_CapabilitiesRules r |}.
Definition on_ProcessPaths (f : ConfigMap → ConfigMap) (r : Rules) : Rules :=
  {| r_FilePaths := r_FilePaths r; r_ProcessPaths := f (r_ProcessPaths r);
     r_NetworkRules := r_NetworkRules r; r_CapabilitiesRules := r_CapabilitiesRules r |}.
Definition on_NetworkRules (f : ConfigMap → ConfigMap) (r : Rules) : Rules :=
  {| r_FilePaths := r_FilePaths r; r_ProcessPaths := r_ProcessPaths r;
     r_NetworkRules := f (r_NetworkRules r); r_CapabilitiesRules := r_CapabilitiesRules r |}.
Definition on_CapabilitiesRules (f : ConfigMap → ConfigMap) (r : Rules) : Rules :=
  {| r_FilePaths := r_FilePaths r; r_ProcessPaths := r_ProcessPaths r;
     r_NetworkRules := r_NetworkRules r; r_CapabilitiesRules := f (r_CapabilitiesRules r) |}.

Definition on_header (f : ProfileHeader → ProfileHeader) (p : Profile) : Profile :=
  {| p_Name := p_Name p; p_ProfileHeader := f (p_ProfileHeader p); p_Rules := p_Rules p;
     p_FromSource := p_FromSource p; p_NativeRules := p_NativeRules p |}.
Definition on_Rules (f : Rules → Rules) (p : Profile) : Profile :=
  {| p_Name := p_Name p; p_ProfileHeader := p_ProfileHeader p; p_Rules := f (p_Rules p);
     p_FromSource := p_FromSource p; p_NativeRules := p_NativeRules p |}.
Definition on_FromSource (f : gmap string FromSourceConfig → gmap string FromSourceConfig)
    (p : Profile) : Profile :=
  {| p_Name := p_Name p; p_ProfileHeader := p_ProfileHeader p; p_Rules := p_Rules p;
     p_FromSource := f (p_FromSource p); p_NativeRules := p_NativeRules p |}.

(** ** Adding rules *)

Definition addRuletoMap (rule : RuleConfig) (entity : string) (m : ConfigMap) : ConfigMap :=
  match m !! entity with
  | Some val =>
      if negb (Bool.eqb (rc_Deny val) (rc_Deny rule)) then
        <[entity := {| rc_Dir := rc_Dir rule; rc_Recursive := rc_Recursive rule;
                       rc_ReadOnly := rc_ReadOnly rule; rc_OwnerOnly := rc_OwnerOnly rule;
                       rc_Deny := true; rc_Allow := true |}]> m
      else m
  | None => <[entity := rule]> m
  end.

(** The body of the loops over [FromSource]: create the sub-profile if it is
    missing, set its header flag on an Allow rule, add the rule. *)
Definition source_rule (setf : ProfileHeader → ProfileHeader)
    (add : Rules → Rules) (deny : bool)
    (prof : Profile) (src : MatchSourceType) : Profile :=
  if bool_decide (String.length (ms_Path src) = 0) then prof
  else
    let source := ms_Path src in
    let prof := match p_FromSource prof !! source with
      | Some _ => prof
      | None => on_FromSource <[source := {| fs_Fusion := false;
                  fs_ProfileHeader := ProfileHeader_Init; fs_Rules := Rules_Init |}]> prof
      end in
    let prof := if negb deny then
        on_FromSource (alter (λ val, {| fs_Fusion := fs_Fusion val;
          fs_ProfileHeader := setf (fs_ProfileHeader val);
          fs_Rules := fs_Rules val |}) source) prof
      else prof in
    on_FromSource (alter (λ val, {| fs_Fusion := fs_Fusion val;
      fs_ProfileHeader := fs_ProfileHeader val; fs_Rules := add (fs_Rules val) |}) source) prof.

(** A rule with sources goes to its sub-profiles, one without to the profile. *)
Definition add_rule (setf : ProfileHeader → ProfileHeader)
    (on : (ConfigMap → ConfigMap) → Rules → Rules) (rule : RuleConfig) (entity : string)
    (srcs : list MatchSourceType) (prof : Profile) (deny : bool) : Profile :=
  let prof := if negb deny then on_header setf prof else prof in
  let add := on (addRuletoMap rule entity) in
  match srcs with
  | [] => on_Rules add prof
  | _ => foldl (source_rule setf add deny) prof srcs
  end.

(** A pattern rule goes to the profile, unless the pattern is there already. *)
Definition add_pattern (setf : ProfileHeader → ProfileHeader)
    (on : (ConfigMap → ConfigMap) → Rules → Rules) (rule : RuleConfig) (pattern : string)
    (prof : Profile) (deny : bool) : Profile :=
  let prof := if negb deny then on_header setf prof else prof in
  on_Rules (on (λ m, match m !! pattern with Some _ => m | None => <[pattern := rule]> m end))
           prof.

Definition SetProcessMatchPaths (path : ProcessPathType) (prof : Profile) (deny head : bool)
    : Profile :=
  let rule := {| rc_Dir := false; rc_Recursive := false; rc_ReadOnly := false;
                 rc_OwnerOnly := ppt_OwnerOnly path; rc_Deny := deny; rc_Allow := negb deny |} in
  let entity := if bool_decide (0 < String.length (ppt_ExecName path))
                then "/**/" +:+ ppt_ExecName path else ppt_Path path in
  add_rule (set_File head) on_ProcessPaths rule entity (ppt_FromSource path) prof deny.

Definition SetProcessMatchDirectories (dir : ProcessDirectoryType) (prof : Profile)
    (deny head : bool) : Profile :=
  let rule := {| rc_Dir := true; rc_Recursive := pdt_Recursive dir; rc_ReadOnly := false;
                 rc_OwnerOnly := pdt_OwnerOnly dir; rc_Deny := deny; rc_Allow := negb deny |} in
  add_rule (set_File head) on_ProcessPaths rule (pdt_Directory dir) (pdt_FromSource dir) prof
           deny.

Definition SetProcessMatchPatterns (pat : ProcessPatternType) (prof : Profile)
    (deny head : bool) : Profile :=
  let rule := {| rc_Dir := false; rc_Recursive := false; rc_ReadOnly := false;
                 rc_OwnerOnly := pat_OwnerOnly pat; rc_Deny := deny; rc_Allow := negb deny |} in
  add_pattern (set_File head) on_ProcessPaths rule (pat_Pattern pat) prof deny.

Definition SetFileMatchPaths (path : FilePathType) (prof : Profile) (deny head : bool)
    : Profile :=
  let rule := {| rc_Dir := false; rc_Recursive := false; rc_ReadOnly := fpt_ReadOnly path;
                 rc_OwnerOnly := fpt_OwnerOnly path; rc_Deny := deny; rc_Allow := negb deny |} in
  add_rule (set_File head) on_FilePaths rule (fpt_Path path) (fpt_FromSource path) prof deny.

Definition SetFileMatchDirectories (dir : FileDirectoryType) (prof : Profile)
    (deny head : bool) : Profile :=
  let rule := {| rc_Dir := true; rc_Recursive := fdt_Recursive dir;
                 rc_ReadOnly := fdt_ReadOnly dir; rc_OwnerOnly := fdt_OwnerOnly dir;
                 rc_Deny := deny; rc_Allow := negb deny |} in
  add_rule (set_File head) on_FilePaths rule (fdt_Directory dir) (fdt_FromSource dir) prof deny.

Definition SetFileMatchPatterns (pat : FilePatternType) (prof : Profile) (deny head : bool)
    : Profile :=
  let rule := {| rc_Dir := false; rc_Recursive := false; rc_ReadOnly := fpat_ReadOnly pat;
                 rc_OwnerOnly := fpat_OwnerOnly pat; rc_Deny := deny; rc_Allow := negb deny |} in
  add_pattern (set_File head) on_FilePaths rule (fpat_Pattern pat) prof deny.

Definition SetNetworkMatchProtocols (proto : NetworkProtocolType) (prof : Profile)
    (deny head : bool) : Profile :=
  let protocol := ToLower (npt_Protocol proto) in
  let protocol := if String.eqb protocol "icmpv6" then "icmp" else protocol in
  let rule := {| rc_Dir := false; rc_Recursive := false; rc_ReadOnly := false;
                 rc_OwnerOnly := false; rc_Deny := deny; rc_Allow := negb deny |} in
  add_rule (set_Network head) on_NetworkRules rule protocol (npt_FromSource proto) prof deny.

Definition SetCapabilitiesMatchCapabilities (cap : CapabilitiesCapabilityType) (prof : Profile)
    (deny head : bool) : Profile :=
  let rule := {| rc_Dir := false; rc_Recursive := false; rc_ReadOnly := false;
                 rc_OwnerOnly := false; rc_Deny := deny; rc_Allow := negb deny |} in
  add_rule (set_Capabilities head) on_CapabilitiesRules rule (cct_Capability cap)
           (cct_FromSource cap) prof deny.

(** The Allow/Block test around each call. *)
Definition on_action {A} (set : A → Profile → bool → bool → Profile) (action : A → string)
    (posture : string) (prof : Profile) (x : A) : Profile :=
  if String.eqb (action x) "Allow" then set x prof false (negb (String.eqb posture "block"))
  else if String.eqb (action x) "Block" then set x prof true true
  else prof.

Definition native_rules (apparmor : string) (prof : Profile) : Profile :=
  if bool_decide (0 < String.length apparmor) then
    {| p_Name := p_Name prof; p_ProfileHeader := p_ProfileHeader prof;
       p_Rules := p_Rules prof; p_FromSource := p_FromSource prof;
       p_NativeRules := p_NativeRules prof ++ (TrimSpace <$> scan_lines apparmor) |}
  else prof.

(** The rules of one policy. *)
Definition policy_profile (dp : DefaultPosture) (prof : Profile) (pol : SecurityPolicy)
    : Profile :=
  let spec := sp_Spec pol in
  let f := dp_FileAction dp in
  let prof := native_rules (ss_AppArmor spec) prof in
  let prof := foldl (on_action SetProcessMatchPaths ppt_Action f) prof
                    (pt_MatchPaths (ss_Process spec)) in
  let prof := foldl (on_action SetProcessMatchDirectories pdt_Action f) prof
                    (pt_MatchDirectories (ss_Process spec)) in
  let prof := foldl (on_action SetProcessMatchPatterns pat_Action f) prof
                    (pt_MatchPatterns (ss_Process spec)) in
  let prof := foldl (on_action SetFileMatchPaths fpt_Action f) prof
                    (ft_MatchPaths (ss_File spec)) in
  let prof := foldl (on_action SetFileMatchDirectories fdt_Action f) prof
                    (ft_MatchDirectories (ss_File spec)) in
  let prof := foldl (on_action SetFileMatchPatterns fpat_Action f) prof
                    (ft_MatchPatterns (ss_File spec)) in
  let prof := foldl (on_action SetNetworkMatchProtocols npt_Action (dp_NetworkAction dp)) prof
                    (nt_MatchProtocols (ss_Network spec)) in
  foldl (on_action SetCapabilitiesMatchCapabilities cct_Action (dp_CapabilitiesAction dp)) prof
        (ct_MatchCapabilities (ss_Capabilities spec)).

(** ** Resolving conflicts between the profile and its sub-profiles *)

Definition rule_count (r : Rules) : nat :=
  size (r_ProcessPaths r) + size (r_FilePaths r) + size (r_NetworkRules r) +
  size (r_CapabilitiesRules r).

(** The loop of [checkIfGlobalRuleToBeAdded] over the ancestors from the [i]-th. *)
Fixpoint ancestors_add (paths : list string) (val : ConfigMap) (is_ : list nat) : bool :=
  match is_ with
  | [] => true
  | i :: is_ =>
      let pdir := join "/" (take i paths) +:+ "/" in
      match val !! pdir with
      | Some conf =>
          if rc_Dir conf then
            if bool_decide (1 < List.length paths - i) && negb (rc_Recursive conf)
            then ancestors_add paths val is_
            else false
          else ancestors_add paths val is_
      | None => ancestors_add paths val is_
      end
  end.

Definition checkIfGlobalRuleToBeAdded (p : string) (val : ConfigMap) : bool :=
  match val !! p with
  | Some _ => false
  | None => let paths := split slash p in
            ancestors_add paths val (seq 1 (List.length paths - 1))
  end.

Section generate.
Context `{R : GoRange}.

Definition ResolvedProcessWhiteListConflicts (prof : Profile) : Profile :=
  foldl (λ prof kv,
    match r_ProcessPaths (p_Rules prof) !! kv.1 with
    | Some _ =>
        on_Rules (on_ProcessPaths (delete kv.1))
          (on_FromSource <[kv.1 := {| fs_Fusion := true;
             fs_ProfileHeader := fs_ProfileHeader kv.2; fs_Rules := fs_Rules kv.2 |}]> prof)
    | None => prof
    end) prof (go_range (p_FromSource prof)).

(** [newval] starts as a clone of [val]; the global rules are added to it. *)
Definition inherit (global : Rules) (val : Rules) : Rules :=
  let newval := foldl (λ nv kv, if checkIfGlobalRuleToBeAdded kv.1 (r_ProcessPaths val)
                                then on_ProcessPaths <[kv.1 := kv.2]> nv else nv)
                      val (go_range (r_ProcessPaths global)) in
  let newval := foldl (λ nv kv, if checkIfGlobalRuleToBeAdded kv.1 (r_FilePaths val)
                                then on_FilePaths <[kv.1 := kv.2]> nv else nv)
                      newval (go_range (r_FilePaths global)) in
  let newval := foldl (λ nv kv, match r_NetworkRules val !! kv.1 with
                                | Some _ => nv
                                | None => on_NetworkRules <[kv.1 := kv.2]> nv end)
                      newval (go_range (r_NetworkRules global)) in
  foldl (λ nv kv, match r_CapabilitiesRules val !! kv.1 with
                  | Some _ => nv
                  | None => on_CapabilitiesRules <[kv.1 := kv.2]> nv end)
        newval (go_range (r_CapabilitiesRules global)).

Definition inherit_step (st : nat * Profile) (kv : string * FromSourceConfig) : nat * Profile :=
  let newval := inherit (p_Rules st.2) (fs_Rules kv.2) in
  (st.1 + rule_count newval,
   on_FromSource <[kv.1 := {| fs_Fusion := fs_Fusion kv.2;
     fs_ProfileHeader := fs_ProfileHeader kv.2; fs_Rules := newval |}]> st.2).

Definition GenerateProfileBody (securityPolicies : list SecurityPolicy)
    (defaultPosture : DefaultPosture) (privileged : bool) : nat * Profile :=
  let profile :=
    if privileged then
      on_header (λ h, {| ph_File := ph_File h; ph_Network := ph_Network h;
                         ph_Capabilities := ph_Capabilities h; ph_Privileged := true |})
                Profile_Init
    else Profile_Init in
  let profile := foldl (policy_profile defaultPosture) profile securityPolicies in
  let count := rule_count (p_Rules profile) in
  let profile := ResolvedProcessWhiteListConflicts profile in
  foldl inherit_step (count, profile) (go_range (p_FromSource profile)).
End generate.

(** ** Generating and comparing the profile text *)

(** [GenerateAppArmorProfile] fails with the operating system's or the template's
    error, rejects a profile name, finds the profile unchanged, or returns the
    rule count and the new text and unloads the profiles that it lacks. *)
Inductive GenResult :=
| GenError
| GenInvalid (msg : string)
| GenSame
| GenNew (count : nat) (text : string) (unload : list string).

(** [filepath.Clean("/etc/apparmor.d/" + name)] for a name that has passed the
    checks: no separator, no parent reference. *)
Definition profile_file (name : string) : string :=
  if String.eqb name "" || String.eqb name "." then "/etc/apparmor.d"
  else "/etc/apparmor.d/" +:+ name.

Section profile_text.
Context `{R : GoRange}.
(** [os.Stat] says the file does not exist; [os.ReadFile]; the template's
    [Execute]; the enforcer's regular expression for profile headers. *)
Context (NotExist : string → bool) (ReadFile : string → option string)
        (Execute : Profile → option string) (FindAllString : string → list string).

Definition read_old (file : string) : option string :=
  if NotExist file then None else ReadFile file.

Definition old_profile (appArmorProfile : string) : GenResult + string :=
  if Contains appArmorProfile "kubearmor.host" then
    match read_old (profile_file "kubearmor.host") with
    | Some old => inr old
    | None => inl GenError
    end
  else if Contains appArmorProfile "/" || Contains appArmorProfile "\" ||
          Contains appArmorProfile ".." then
    inl (GenInvalid ("Invalid apparmor profile name: " +:+ appArmorProfile))
  else
    match read_old (profile_file appArmorProfile) with
    | Some old => inr old
    | None => inl GenError
    end.

Definition GenerateAppArmorProfile (appArmorProfile : string)
    (securityPolicies : list SecurityPolicy) (defaultPosture : DefaultPosture)
    (privileged : bool) : GenResult :=
  match old_profile appArmorProfile with
  | inl e => e
  | inr oldProfile =>
      let '(count, newProfile) :=
        GenerateProfileBody securityPolicies defaultPosture privileged in
      let newProfile := {| p_Name := appArmorProfile;
        p_ProfileHeader := p_ProfileHeader newProfile; p_Rules := p_Rules newProfile;
        p_FromSource := p_FromSource newProfile; p_NativeRules := p_NativeRules newProfile |} in
      match Execute newProfile with
      | None => GenError
      | Some np =>
          if String.eqb np oldProfile then GenSame
          else GenNew count np
                 (filter (λ oldProf, oldProf ∉ FindAllString np) (FindAllString oldProfile))
      end
  end.
End profile_text.
