(* ===== verification/AppArmorProps.v ===== *)
(** What a generated AppArmor profile contains: merged rules, the headers, and
    sub-profiles that inherit exactly the global rules their own do not cover,
    whatever the order in which Go ranges over its maps. *)
From Stdlib Require Import Ascii.
From S2P Require Import Prelude GoStrings Types AppArmor.

(** ** Specification *)

(** A directory rule of [m] covers [p]: it is an ancestor of [p], recursive
    unless [p] is directly inside it. *)
Definition covered (m : ConfigMap) (p : string) : Prop :=
  ∃ q r conf, p = q +:+ "/" +:+ r ∧ m !! (q +:+ "/") = Some conf ∧
    rc_Dir conf = true ∧ (rc_Recursive conf = true ∨ char_in slash r = false).

(** The rules of a sub-profile: its own, and the global ones that it neither has
    nor covers. *)
Definition inherited (global val : Rules) : Rules :=
  let add m g := m ∪ filter (λ kv, checkIfGlobalRuleToBeAdded kv.1 m = true) g in
  {| r_FilePaths := add (r_FilePaths val) (r_FilePaths global);
     r_ProcessPaths := add (r_ProcessPaths val) (r_ProcessPaths global);
     r_NetworkRules := r_NetworkRules val ∪ r_NetworkRules global;
     r_CapabilitiesRules := r_CapabilitiesRules val ∪ r_CapabilitiesRules global |}.

(** A source with a sub-profile is not a process rule of the profile. *)
Definition resolved_rules (prof : Profile) : Rules :=
  on_ProcessPaths (filter (λ kv, p_FromSource prof !! kv.1 = None)) (p_Rules prof).

Definition resolved_sources (prof : Profile) : gmap string FromSourceConfig :=
  map_imap (λ source val, Some
    {| fs_Fusion := match r_ProcessPaths (p_Rules prof) !! source with
                    | Some _ => true | None => fs_Fusion val end;
       fs_ProfileHeader := fs_ProfileHeader val;
       fs_Rules := inherited (resolved_rules prof) (fs_Rules val) |}) (p_FromSource prof).

(** ** Covered paths *)

Lemma ancestors_add_false paths m is_ :
  ancestors_add paths m is_ = false ↔
  ∃ i conf, i ∈ is_ ∧ m !! (join "/" (take i paths) +:+ "/") = Some conf ∧
    rc_Dir conf = true ∧ (List.length paths - i ≤ 1 ∨ rc_Recursive conf = true).
Proof.
  induction is_ as [|i is_ IH]; simpl.
  - split; [done|]. intros (i & c & Hi & _). by apply not_elem_of_nil in Hi.
  - assert (ancestors_add paths m is_ = false →
      ∃ j conf, j ∈ i :: is_ ∧ m !! (join "/" (take j paths) +:+ "/") = Some conf ∧
        rc_Dir conf = true ∧ (List.length paths - j ≤ 1 ∨ rc_Recursive conf = true)) as Hin.
    { intros (j & c & Hj & H)%IH. exists j, c. split; [by right|done]. }
    assert (∀ P : Prop, (∃ j conf, j ∈ i :: is_ ∧
        m !! (join "/" (take j paths) +:+ "/") = Some conf ∧ rc_Dir conf = true ∧
        (List.length paths - j ≤ 1 ∨ rc_Recursive conf = true)) →
      (∀ conf, m !! (join "/" (take i paths) +:+ "/") = Some conf → rc_Dir conf = true →
        (List.length paths - i ≤ 1 ∨ rc_Recursive conf = true) → P) →
      (ancestors_add paths m is_ = false → P) → P) as Hout.
    { intros P (j & c & Hj & H1 & H2 & H3) HP1 HP2.
      apply elem_of_cons in Hj as [->|Hj]; [by eapply HP1|]. apply HP2, IH. by exists j, c. }
    destruct (m !! (join "/" (take i paths) +:+ "/")) as [conf|] eqn:E.
    + destruct (rc_Dir conf) eqn:Hd.
      * destruct (bool_decide (1 < List.length paths - i) && negb (rc_Recursive conf)) eqn:Hb.
        { apply andb_true_iff in Hb as [Hl%bool_decide_eq_true Hr%negb_true_iff].
          split; [done|]. intros Hx. apply (Hout _ Hx); [|done].
          intros c Hc Hcd Hcr. simplify_eq. destruct Hcr; [lia|congruence]. }
        split; [intros _|done]. exists i, conf. split; [by left|]. split_and!; [done..|].
        apply andb_false_iff in Hb as [Hb%bool_decide_eq_false|Hb%negb_false_iff]; [left; lia|by right].
      * split; [done|]. intros Hx. apply (Hout _ Hx); [|done]. intros; congruence.
    + split; [done|]. intros Hx. apply (Hout _ Hx); [|done]. intros; congruence.
Qed.

Lemma covered_index m p :
  covered m p ↔
  ∃ i conf, i ∈ seq 1 (List.length (split slash p) - 1) ∧
    m !! (join "/" (take i (split slash p)) +:+ "/") = Some conf ∧
    rc_Dir conf = true ∧
    (List.length (split slash p) - i ≤ 1 ∨ rc_Recursive conf = true).
Proof.
  split.
  - intros (q & r & conf & -> & Hm & Hd & Hr). exists (List.length (split slash q)), conf.
    rewrite join_take_split. replace (q +:+ "/" +:+ r) with (q +:+ String slash r) by done.
    rewrite split_app_sep, length_app.
    destruct (split_cons slash q) as (h & t & ->), (split_cons slash r) as (h' & t' & Hr').
    split; [apply elem_of_seq; rewrite Hr'; simpl; lia|]. split; [done|]. split; [done|].
    destruct Hr as [Hr|Hr%char_in_split]; [by right|left]. rewrite Hr. simpl. lia.
  - intros (i & conf & Hi%elem_of_seq & Hm & Hd & Hr).
    exists (join "/" (take i (split slash p))), (join "/" (drop i (split slash p))), conf.
    split; [apply take_split_prefix; lia|]. split; [done|]. split; [done|].
    destruct Hr as [Hr|Hr]; [right|by left].
    rewrite char_in_split, (split_join slash).
    + rewrite length_drop. lia.
    + intros H%(f_equal List.length). rewrite length_drop in H. simpl in H. lia.
    + apply list.Forall_forall. intros x Hx. apply (split_components _ p).
      rewrite <- (take_drop i (split slash p)). apply elem_of_app. by right.
Qed.

(** A global rule on [p] is added to a sub-profile exactly when the sub-profile
    has no rule on [p] and no directory rule of it covers [p]. *)
Theorem checkIfGlobalRuleToBeAdded_spec p m :
  checkIfGlobalRuleToBeAdded p m = true ↔ m !! p = None ∧ ¬ covered m p.
Proof.
  unfold checkIfGlobalRuleToBeAdded. rewrite covered_index, <- ancestors_add_false.
  rewrite not_false_iff_true. destruct (m !! p); [by split; [|intros []]|]. by split; [|intros []].
Qed.

(** ** Inheritance *)

Section range_filter.
Context `{R : GoRange, !GoRangeLaw R}.

(** Inserting the entries of [g] that pass a test, none of which [m] has. *)
Lemma insert_if_range {V} (test : string → bool) (g m : gmap string V) :
  (∀ k, test k = true → m !! k = None) →
  foldl (λ m kv, if test kv.1 then <[kv.1 := kv.2]> m else m) m (go_range g) =
  m ∪ filter (λ kv, test kv.1 = true) g.
Proof.
  intros Hm.
  assert (∀ l, NoDup l.*1 → (∀ kv, kv ∈ l → g !! kv.1 = Some kv.2) → ∀ (m : gmap string V) k,
    foldl (λ m kv, if test kv.1 then <[kv.1 := kv.2]> m else m) m l !! k =
    if decide (k ∈ l.*1 ∧ test k = true) then g !! k else m !! k) as Hl.
  { induction l as [|[k' v] l IH]; intros Hnd Hg m' k.
    - case_decide as Hd; [|done]. destruct Hd as [Hd _]. by apply not_elem_of_nil in Hd.
    - apply list.NoDup_cons in Hnd as [Hk' Hnd]. cbn [foldl fst snd].
      rewrite IH by (done || (intros; apply Hg; by right)). rewrite fmap_cons. cbn [fst].
      specialize (Hg (k', v) ltac:(left)). simpl in Hg.
      destruct (decide (k = k')) as [->|Hne].
      + rewrite decide_False by (by intros [? _]). destruct (test k') eqn:Et.
        * rewrite decide_True by (split; [by left|done]). by rewrite lookup_insert_eq.
        * rewrite decide_False; [done|]. by intros [_ ?].
      + assert ((if test k' then <[k' := v]> m' else m') !! k = m' !! k) as ->.
        { destruct (test k'); [by apply lookup_insert_ne|done]. }
        repeat case_decide; try done; exfalso; set_solver. }
  apply map_eq; intros k.
  rewrite Hl; [|apply NoDup_go_range|intros [k' v]; by rewrite elem_of_go_range].
  rewrite lookup_union, map_lookup_filter.
  assert (k ∈ (go_range g).*1 ↔ is_Some (g !! k)) as Hk.
  { rewrite list_elem_of_fmap. split.
    - intros ([k' v] & -> & Hin%elem_of_go_range). by exists v.
    - intros [v Hv%elem_of_go_range]. by exists (k, v). }
  destruct (test k) eqn:Et.
  - rewrite (Hm k Et). destruct (g !! k) as [v|] eqn:Eg; simpl.
    + rewrite decide_True by (split; [apply Hk; eauto|done]).
      by rewrite option_guard_True.
    + by case_decide.
  - rewrite decide_False by naive_solver. destruct (g !! k); simpl; [|by destruct (m !! k)].
    rewrite option_guard_False by congruence. by destruct (m !! k).
Qed.

(** One part of a [Rules] at a time. *)
Lemma foldl_on (on : (ConfigMap → ConfigMap) → Rules → Rules)
    (test : string → bool) (l : list (string * RuleConfig)) r :
  (∀ f g r, on f (on g r) = on (λ m, f (g m)) r) → (∀ r, on (λ m, m) r = r) →
  foldl (λ nv kv, if test kv.1 then on <[kv.1 := kv.2]> nv else nv) r l =
  on (λ m, foldl (λ m kv, if test kv.1 then <[kv.1 := kv.2]> m else m) m l) r.
Proof.
  intros Hc Hi. revert r. induction l as [|kv l IH]; intros r; simpl; [by rewrite Hi|].
  rewrite IH. destruct (test kv.1); [by rewrite Hc|done].
Qed.

Definition missing (m : ConfigMap) (k : string) : bool :=
  match m !! k with Some _ => false | None => true end.

(** A map without an entry at the keys of [g], filled in from [g]. *)
Lemma filter_missing (m g : ConfigMap) :
  m ∪ filter (λ kv, missing m kv.1 = true) g = m ∪ g.
Proof.
  apply map_eq; intros k. rewrite !lookup_union, map_lookup_filter.
  unfold missing. simpl.
  destruct (m !! k) as [x|] eqn:E, (g !! k) as [y|] eqn:Eg; simpl; try done.
Qed.

Lemma inherit_spec global val : inherit global val = inherited global val.
Proof.
  unfold inherit.
  assert (∀ (m : ConfigMap) (on : (ConfigMap → ConfigMap) → Rules → Rules) nv l,
    foldl (λ nv kv, match m !! kv.1 with Some _ => nv | None => on <[kv.1 := kv.2]> nv end) nv l =
    foldl (λ nv kv, if missing m kv.1 then on <[kv.1 := kv.2]> nv else nv) nv l)
    as Hif.
  { intros m on nv l. apply foldl_ext_in. intros a b _. unfold missing. by destruct (m !! b.1). }
  rewrite !Hif.
  rewrite (foldl_on on_ProcessPaths (λ k, checkIfGlobalRuleToBeAdded k (r_ProcessPaths val)))
    by (done || by intros []).
  rewrite (foldl_on on_FilePaths (λ k, checkIfGlobalRuleToBeAdded k (r_FilePaths val)))
    by (done || by intros []).
  rewrite (foldl_on on_NetworkRules (missing (r_NetworkRules val)))
    by (done || by intros []).
  rewrite (foldl_on on_CapabilitiesRules
    (missing (r_CapabilitiesRules val))) by (done || by intros []).
  assert (∀ k (m : ConfigMap), checkIfGlobalRuleToBeAdded k m = true → m !! k = None) as Hnone.
  { intros k m. unfold checkIfGlobalRuleToBeAdded. by destruct (m !! k). }
  unfold inherited, on_ProcessPaths, on_FilePaths, on_NetworkRules, on_CapabilitiesRules. simpl.
  f_equal.
  - apply (insert_if_range (λ k, checkIfGlobalRuleToBeAdded k (r_FilePaths val))); eauto.
  - apply (insert_if_range (λ k, checkIfGlobalRuleToBeAdded k (r_ProcessPaths val))); eauto.
  - rewrite <- filter_missing.
    apply (insert_if_range (missing (r_NetworkRules val))).
    intros k. unfold missing. by destruct (_ !! k).
  - rewrite <- filter_missing.
    apply (insert_if_range (missing (r_CapabilitiesRules val))).
    intros k. unfold missing. by destruct (_ !! k).
Qed.
End range_filter.

(** ** The whole profile *)

Definition fuse_source (prof : Profile) (k : string) (val : FromSourceConfig) : FromSourceConfig :=
  match r_ProcessPaths (p_Rules prof) !! k with
  | Some _ => {| fs_Fusion := true; fs_ProfileHeader := fs_ProfileHeader val;
                 fs_Rules := fs_Rules val |}
  | None => val
  end.

Section body.
Context `{R : GoRange, !GoRangeLaw R}.

Definition fuse_one (prof : Profile) (kv : string * FromSourceConfig) : Profile :=
  match r_ProcessPaths (p_Rules prof) !! kv.1 with
  | Some _ => on_Rules (on_ProcessPaths (delete kv.1))
                (on_FromSource <[kv.1 := {| fs_Fusion := true;
                   fs_ProfileHeader := fs_ProfileHeader kv.2; fs_Rules := fs_Rules kv.2 |}]> prof)
  | None => prof
  end.

Lemma resolve_loop l prof :
  NoDup l.*1 → (∀ kv, kv ∈ l → p_FromSource prof !! kv.1 = Some kv.2) →
  foldl fuse_one prof l =
  on_Rules (on_ProcessPaths (filter (λ kv, kv.1 ∉ l.*1)))
    (on_FromSource (map_imap (λ k v, Some (if decide (k ∈ l.*1) then fuse_source prof k v else v)))
       prof).
Proof.
  revert prof. induction l as [|[k v] l IH]; intros prof Hnd Hl.
  { destruct prof as [n h [f p nt c] s nr]. unfold on_Rules, on_FromSource, on_ProcessPaths. simpl.
    f_equal; [f_equal|].
    - symmetry. apply map_filter_id. intros ? ? _. apply not_elem_of_nil.
    - apply map_eq; intros k. rewrite map_lookup_imap. by destruct (s !! k). }
  apply list.NoDup_cons in Hnd as [Hk Hnd]. cbn [foldl fst] in *.
  assert (Hkv := Hl (k, v) ltac:(left)). simpl in Hkv.
  rewrite IH; [|done|].
  2:{ intros [k' v'] Hin. simpl. assert (k' ≠ k) as Hne.
      { intros ->. apply Hk. apply list_elem_of_fmap. by exists (k, v'). }
      unfold fuse_one. simpl. destruct (r_ProcessPaths (p_Rules prof) !! k); simpl;
        rewrite ?lookup_insert_ne by done; by apply (Hl (k', v')), elem_of_cons; right. }
  destruct prof as [n h [f p nt c] s nr]. unfold fuse_one. simpl in *.
  destruct (p !! k) as [x|] eqn:Ep; unfold on_Rules, on_FromSource, on_ProcessPaths; simpl.
  - f_equal; [f_equal|].
    + apply map_eq; intros j. rewrite !map_lookup_filter.
      destruct (decide (j = k)) as [->|Hne].
      * rewrite lookup_delete_eq, Ep. simpl. rewrite option_guard_False; [done|]. set_solver.
      * rewrite lookup_delete_ne by done. destruct (p !! j); simpl; [|done].
        repeat case_guard; try done; set_solver.
    + apply map_eq; intros j. rewrite !map_lookup_imap.
      destruct (decide (j = k)) as [->|Hne].
      * rewrite lookup_insert_eq, Hkv. simpl. rewrite decide_False by done.
        rewrite decide_True by by left. unfold fuse_source. simpl. by rewrite Ep.
      * rewrite lookup_insert_ne by done. destruct (s !! j); simpl; [|done]. f_equal.
        unfold fuse_source. simpl. rewrite lookup_delete_ne by done.
        repeat case_decide; try done; set_solver.
  - f_equal; [f_equal|].
    + apply map_filter_ext. intros j y Hj. simpl.
      destruct (decide (j = k)) as [->|Hne]; [congruence|set_solver].
    + apply map_eq; intros j. rewrite !map_lookup_imap.
      destruct (s !! j) as [y|] eqn:Ej; simpl; [|done]. f_equal.
      destruct (decide (j = k)) as [->|Hne].
      * rewrite decide_False, decide_True by (done || by left).
        unfold fuse_source. simpl. by rewrite Ep.
      * repeat case_decide; try done; set_solver.
Qed.

Lemma resolve_spec prof :
  ResolvedProcessWhiteListConflicts prof =
  on_Rules (λ _, resolved_rules prof)
    (on_FromSource (map_imap (λ k v, Some (fuse_source prof k v))) prof).
Proof.
  unfold ResolvedProcessWhiteListConflicts. fold fuse_one.
  rewrite resolve_loop; [|apply NoDup_go_range|intros [k v]; by rewrite elem_of_go_range].
  assert (∀ k, k ∈ (go_range (p_FromSource prof)).*1 ↔ is_Some (p_FromSource prof !! k)) as Hk.
  { intros k. rewrite list_elem_of_fmap. split.
    - intros ([k' v] & -> & Hin%elem_of_go_range). by exists v.
    - intros [v Hv%elem_of_go_range]. by exists (k, v). }
  unfold on_Rules, on_FromSource, resolved_rules, on_ProcessPaths. simpl. f_equal; [f_equal|].
  - apply map_filter_ext. intros k v _. simpl. rewrite Hk. by rewrite <- eq_None_not_Some.
  - apply map_eq; intros k. rewrite !map_lookup_imap.
    destruct (p_FromSource prof !! k) eqn:E; simpl; [|done].
    rewrite decide_True; [done|]. apply Hk. by rewrite E.
Qed.

Definition inherit_source (global : Rules) (fs : FromSourceConfig) : FromSourceConfig :=
  {| fs_Fusion := fs_Fusion fs; fs_ProfileHeader := fs_ProfileHeader fs;
     fs_Rules := inherited global (fs_Rules fs) |}.

Lemma inherit_loop l n prof :
  foldl inherit_step (n, prof) l =
  (n + sum_list_with (λ kv, rule_count (inherited (p_Rules prof) (fs_Rules kv.2))) l,
   on_FromSource (insert_all (prod_map id (inherit_source (p_Rules prof)) <$> l)) prof).
Proof.
  revert n prof. induction l as [|[k v] l IH]; intros n prof.
  - simpl. rewrite Nat.add_0_r. by destruct prof.
  - cbn [foldl]. unfold inherit_step at 2. cbn [fst snd]. rewrite inherit_spec, IH.
    simpl. f_equal. lia.
Qed.

(** The number of rules of a profile and of all its sub-profiles. *)
Definition total_count (global : nat) (sources : gmap string FromSourceConfig) : nat :=
  global + sum_list_with (λ kv, rule_count (fs_Rules kv.2)) (map_to_list sources).

Lemma resolved_sources_fmap prof :
  inherit_source (resolved_rules prof) <$>
    map_imap (λ k v, Some (fuse_source prof k v)) (p_FromSource prof) = resolved_sources prof.
Proof.
  apply map_eq; intros k. unfold resolved_sources. rewrite lookup_fmap, !map_lookup_imap.
  destruct (p_FromSource prof !! k) as [v|]; simpl; [|done]. unfold fuse_source, inherit_source.
  by destruct (r_ProcessPaths (p_Rules prof) !! k).
Qed.

Definition start_profile (privileged : bool) : Profile :=
  on_header (λ h, {| ph_File := ph_File h; ph_Network := ph_Network h;
                     ph_Capabilities := ph_Capabilities h; ph_Privileged := privileged |})
            Profile_Init.

(** C13: The generated profile, for every order of the ranges over Go maps: from the
    profile that the policies build rule by rule, the process rules of sources
    with a sub-profile are dropped and those sub-profiles marked as fused; every
    sub-profile keeps its own rules and inherits the remaining global process and
    file rules that it neither has nor covers and the network and capability rules
    that it does not have.  The count is that of the global rules before any was
    dropped plus those of the completed sub-profiles. *)
Theorem GenerateProfileBody_spec pols dp privileged :
  let raw := foldl (policy_profile dp) (start_profile privileged) pols in
  GenerateProfileBody pols dp privileged =
  (total_count (rule_count (p_Rules raw)) (resolved_sources raw),
   {| p_Name := p_Name raw; p_ProfileHeader := p_ProfileHeader raw;
      p_Rules := resolved_rules raw; p_FromSource := resolved_sources raw;
      p_NativeRules := p_NativeRules raw |}).
Proof.
  intros raw. unfold GenerateProfileBody.
  assert (∀ b : bool, (if b then on_header (λ h, {| ph_File := ph_File h;
      ph_Network := ph_Network h; ph_Capabilities := ph_Capabilities h; ph_Privileged := true |})
      Profile_Init else Profile_Init) = start_profile b) as -> by by intros [].
  fold raw. rewrite resolve_spec, inherit_loop. simpl.
  set (m := map_imap _ _). rewrite <- resolved_sources_fmap. fold m. f_equal.
  - unfold total_count. rewrite map_to_list_fmap, <- (go_range_perm m). f_equal.
    induction (go_range m) as [|kv l IH]; simpl; [done|]. by rewrite IH.
  - unfold on_FromSource. simpl. f_equal. apply map_eq; intros k. rewrite lookup_fmap.
    assert ((prod_map id (inherit_source (resolved_rules raw)) <$> go_range m).*1 =
            (go_range m).*1) as Hfst.
    { rewrite <- list_fmap_compose. by apply list_fmap_ext. }
    destruct (m !! k) as [v|] eqn:E; simpl.
    + apply insert_all_lookup; [rewrite Hfst; apply NoDup_go_range|].
      apply list_elem_of_fmap. exists (k, v). split; [done|]. by apply elem_of_go_range.
    + rewrite insert_all_lookup_ne; [done|]. rewrite Hfst.
      intros ([k' v] & -> & Hin%elem_of_go_range)%list_elem_of_fmap. simpl in E. congruence.
Qed.
End body.

(** ** Merging rules on one entity *)

(** When several rules name one entity (as the generator adds them, each a pure
    Allow or a pure Block), its entry denies if some rule blocks and allows if some
    rule allows, whatever their order; entries of other entities do not change. *)
Theorem addRuletoMap_merges rules entity m :
  rules ≠ [] → m !! entity = None →
  Forall (λ r, rc_Allow r = negb (rc_Deny r)) rules →
  let m' := foldl (λ m r, addRuletoMap r entity m) m rules in
  (∃ c, m' !! entity = Some c ∧ rc_Deny c = existsb rc_Deny rules ∧
        rc_Allow c = existsb rc_Allow rules) ∧
  (∀ e, e ≠ entity → m' !! e = m !! e).
Proof.
  intros Hne Hm. induction rules as [|r rules IH] using rev_ind; [done|].
  intros Hrules. assert (rc_Allow r = negb (rc_Deny r)) as Hr
    by (apply (Forall_elem _ _ r Hrules); set_solver).
  assert (Forall (λ r, rc_Allow r = negb (rc_Deny r)) rules) as Hall.
  { apply list.Forall_forall. intros x Hx. apply (Forall_elem _ _ x Hrules). set_solver. }
  rewrite foldl_app, !existsb_app. simpl. rewrite !orb_false_r.
  destruct (decide (rules = [])) as [->|Hne'].
  { simpl. unfold addRuletoMap. rewrite Hm. split.
    - exists r. by rewrite lookup_insert_eq.
    - intros e He. by rewrite lookup_insert_ne. }
  destruct (IH Hne' Hall) as [(c & Hc & Hd & Ha) Hother].
  set (m1 := foldl _ m rules) in *. unfold addRuletoMap. rewrite Hc.
  assert (existsb rc_Deny rules = false → existsb rc_Allow rules = true) as Hda.
  { destruct rules as [|r' rules]; [done|]. apply list.Forall_cons in Hall as [Hr' _]. simpl.
    rewrite Hr'. intros [-> _]%orb_false_iff. done. }
  rewrite <- Hd, <- Ha in *. destruct (rc_Deny c) eqn:Ed, (rc_Deny r) eqn:Er; simpl.
  - rewrite Hr. split; [exists c; rewrite orb_false_r; done|done].
  - split; [|intros e He; rewrite lookup_insert_ne by done; auto]. rewrite lookup_insert_eq.
    eexists; split; [done|]. rewrite Hr. simpl. by rewrite orb_true_r.
  - split; [|intros e He; rewrite lookup_insert_ne by done; auto]. rewrite lookup_insert_eq.
    eexists; split; [done|]. by rewrite Hda.
  - rewrite Hr. split; [|done]. exists c. split; [done|]. split; [done|]. by rewrite Hda.
Qed.

(** ** Headers *)

Lemma foldl_switch {S B A} (get : S → A) (f : S → B → S) (flag : B → bool) (b : A) l s :
  (∀ s x, get (f s x) = if flag x then b else get s) →
  get (foldl f s l) = if existsb flag l then b else get s.
Proof.
  intros Hf. revert s. induction l as [|x l IH]; intros s; [done|]. simpl.
  rewrite IH, Hf. by destruct (flag x), (existsb flag l).
Qed.

Lemma source_rule_header setf add deny srcs prof :
  p_ProfileHeader (foldl (source_rule setf add deny) prof srcs) = p_ProfileHeader prof.
Proof.
  apply (foldl_inv (λ p, p_ProfileHeader p = p_ProfileHeader prof)); [done|].
  intros p src _ <-. unfold source_rule. case_bool_decide; [done|].
  by destruct (p_FromSource p !! ms_Path src), deny.
Qed.

Lemma add_rule_header setf on rule e srcs prof deny :
  p_ProfileHeader (add_rule setf on rule e srcs prof deny) =
  if deny then p_ProfileHeader prof else setf (p_ProfileHeader prof).
Proof.
  unfold add_rule. destruct srcs as [|s l]; [by destruct deny|].
  rewrite source_rule_header. by destruct deny.
Qed.

Definition is_Allow {A} (action : A → string) (x : A) : bool := String.eqb (action x) "Allow".

(** A loop of calls, each of which turns the header to [head] on an Allow rule. *)
Lemma on_action_header {A} (set : A → Profile → bool → bool → Profile) setf action posture l prof :
  (∀ x p deny head, p_ProfileHeader (set x p deny head) =
     if deny then p_ProfileHeader p else setf head (p_ProfileHeader p)) →
  (∀ b h, setf b (setf b h) = setf b h) →
  p_ProfileHeader (foldl (on_action set action posture) prof l) =
  if existsb (is_Allow action) l then setf (negb (String.eqb posture "block")) (p_ProfileHeader prof)
  else p_ProfileHeader prof.
Proof.
  intros Hset Hidem. revert prof. induction l as [|x l IH]; intros prof; [done|]. simpl.
  rewrite IH. unfold is_Allow at 2, on_action.
  destruct (String.eqb (action x) "Allow"); simpl.
  - rewrite Hset. destruct (existsb _ l); by rewrite ?Hidem.
  - destruct (String.eqb (action x) "Block"); by rewrite ?Hset.
Qed.

Lemma native_rules_header s prof : p_ProfileHeader (native_rules s prof) = p_ProfileHeader prof.
Proof. unfold native_rules. by case_bool_decide. Qed.

(** Some Allow rule of a policy on files or processes. *)
Definition allows_files (pol : SecurityPolicy) : bool :=
  let p := ss_Process (sp_Spec pol) in let f := ss_File (sp_Spec pol) in
  existsb (is_Allow ppt_Action) (pt_MatchPaths p) ||
  existsb (is_Allow pdt_Action) (pt_MatchDirectories p) ||
  existsb (is_Allow pat_Action) (pt_MatchPatterns p) ||
  existsb (is_Allow fpt_Action) (ft_MatchPaths f) ||
  existsb (is_Allow fdt_Action) (ft_MatchDirectories f) ||
  existsb (is_Allow fpat_Action) (ft_MatchPatterns f).
Definition allows_net (pol : SecurityPolicy) : bool :=
  existsb (is_Allow npt_Action) (nt_MatchProtocols (ss_Network (sp_Spec pol))).
Definition allows_caps (pol : SecurityPolicy) : bool :=
  existsb (is_Allow cct_Action) (ct_MatchCapabilities (ss_Capabilities (sp_Spec pol))).

Definition header_after (dp : DefaultPosture) (f n c : bool) (h : ProfileHeader) : ProfileHeader :=
  {| ph_File := if f then negb (String.eqb (dp_FileAction dp) "block") else ph_File h;
     ph_Network := if n then negb (String.eqb (dp_NetworkAction dp) "block") else ph_Network h;
     ph_Capabilities := if c then negb (String.eqb (dp_CapabilitiesAction dp) "block")
                        else ph_Capabilities h;
     ph_Privileged := ph_Privileged h |}.

Lemma policy_profile_header dp prof pol :
  p_ProfileHeader (policy_profile dp prof pol) =
  header_after dp (allows_files pol) (allows_net pol) (allows_caps pol) (p_ProfileHeader prof).
Proof.
  unfold policy_profile.
  rewrite (on_action_header SetCapabilitiesMatchCapabilities set_Capabilities)
    by (done || (intros; apply add_rule_header)).
  rewrite (on_action_header SetNetworkMatchProtocols set_Network)
    by (done || (intros; apply add_rule_header)).
  rewrite (on_action_header SetFileMatchPatterns set_File) by (done || by intros ? ? [] ?).
  rewrite (on_action_header SetFileMatchDirectories set_File)
    by (done || (intros; apply add_rule_header)).
  rewrite (on_action_header SetFileMatchPaths set_File)
    by (done || (intros; apply add_rule_header)).
  rewrite (on_action_header SetProcessMatchPatterns set_File) by (done || by intros ? ? [] ?).
  rewrite (on_action_header SetProcessMatchDirectories set_File)
    by (done || (intros; apply add_rule_header)).
  rewrite (on_action_header SetProcessMatchPaths set_File)
    by (done || (intros; apply add_rule_header)).
  rewrite native_rules_header. destruct (p_ProfileHeader prof).
  unfold header_after, allows_files, allows_net, allows_caps.
  by repeat match goal with |- context [existsb ?f ?l] => destruct (existsb f l) end.
Qed.

(** The headers of the generated profile: access to files (and executables),
    the network or capabilities in general is left out exactly when the default
    posture of that part is [block] and some rule of that part, in whatever policy
    and with or without sources, is an Allow rule; the privileged flag is passed on. *)
Theorem GenerateProfileBody_headers `{R : GoRange, !GoRangeLaw R} pols dp privileged :
  p_ProfileHeader (GenerateProfileBody pols dp privileged).2 =
  {| ph_File := negb (String.eqb (dp_FileAction dp) "block" && existsb allows_files pols);
     ph_Network := negb (String.eqb (dp_NetworkAction dp) "block" && existsb allows_net pols);
     ph_Capabilities :=
       negb (String.eqb (dp_CapabilitiesAction dp) "block" && existsb allows_caps pols);
     ph_Privileged := privileged |}.
Proof.
  assert (p_ProfileHeader (GenerateProfileBody pols dp privileged).2 =
    p_ProfileHeader (foldl (policy_profile dp) (start_profile privileged) pols)) as ->.
  { unfold GenerateProfileBody.
    assert (∀ b : bool, (if b then on_header (λ h, {| ph_File := ph_File h;
      ph_Network := ph_Network h; ph_Capabilities := ph_Capabilities h; ph_Privileged := true |})
      Profile_Init else Profile_Init) = start_profile b) as -> by by intros [].
    by rewrite resolve_spec, inherit_loop. }
  assert (∀ prof, p_ProfileHeader (foldl (policy_profile dp) prof pols) =
    header_after dp (existsb allows_files pols) (existsb allows_net pols)
      (existsb allows_caps pols) (p_ProfileHeader prof)) as ->.
  { induction pols as [|pol pols IH]; intros prof; [by destruct prof as [? [] ? ? ?]|].
    simpl. rewrite IH, policy_profile_header. unfold header_after. simpl.
    by destruct (allows_files pol), (allows_net pol), (allows_caps pol),
      (existsb allows_files pols), (existsb allows_net pols), (existsb allows_caps pols). }
  unfold header_after. simpl. f_equal;
    repeat match goal with |- context [existsb ?f ?l] => destruct (existsb f l) end;
    by rewrite ?andb_true_r, ?andb_false_r.
Qed.

(** ** The profile text *)

(** The files of [/etc/apparmor.d] itself. *)
Definition direct_child (file : string) : Prop :=
  file = "/etc/apparmor.d" ∨
  ∃ x, file = "/etc/apparmor.d/" +:+ x ∧ char_in slash x = false ∧ x ≠ "..".

Lemma profile_file_child name :
  char_in slash name = false → Contains name ".." = false → direct_child (profile_file name).
Proof.
  intros Hs Hd. unfold profile_file. case_bool; [by left|]. right. exists name.
  split_and!; [done..|]. by intros ->.
Qed.

(** Whatever the profile name, the generator looks at no file but direct
    entries of [/etc/apparmor.d]: two file systems that agree on those give the
    same result.  When it reports a new text, that text is the rendering of the
    generated body under the given name, differs from the old one, and the profiles
    it unloads are those whose header occurs in the old text and not in the new. *)
Theorem GenerateAppArmorProfile_spec `{R : GoRange}
    NotExist NotExist' ReadFile ReadFile' Execute FindAll name pols dp privileged :
  (∀ f, direct_child f → NotExist f = NotExist' f ∧ ReadFile f = ReadFile' f) →
  let gen := GenerateAppArmorProfile NotExist ReadFile Execute FindAll name pols dp privileged in
  gen = GenerateAppArmorProfile NotExist' ReadFile' Execute FindAll name pols dp privileged ∧
  ∀ count text unload, gen = GenNew count text unload →
    ∃ old body, old_profile NotExist ReadFile name = inr old ∧
      GenerateProfileBody pols dp privileged = (count, body) ∧
      Execute {| p_Name := name; p_ProfileHeader := p_ProfileHeader body;
                 p_Rules := p_Rules body; p_FromSource := p_FromSource body;
                 p_NativeRules := p_NativeRules body |} = Some text ∧
      text ≠ old ∧ ∀ x, x ∈ unload ↔ x ∈ FindAll old ∧ x ∉ FindAll text.
Proof.
  intros Hfs gen. split.
  - unfold gen, GenerateAppArmorProfile.
    assert (old_profile NotExist ReadFile name = old_profile NotExist' ReadFile' name) as ->;
      [|done].
    unfold old_profile, read_old.
    destruct (Hfs (profile_file "kubearmor.host")) as [-> ->]; [by apply profile_file_child|].
    destruct (Contains name "kubearmor.host"); [done|].
    destruct (_ || _) eqn:Hc; [done|].
    apply orb_false_iff in Hc as [[H1 H2]%orb_false_iff H3].
    rewrite Contains_slash in H1.
    by destruct (Hfs (profile_file name)) as [-> ->]; [apply profile_file_child|].
  - intros count text unload Hgen. unfold gen, GenerateAppArmorProfile in Hgen.
    destruct (old_profile _ _ _) as [e|old] eqn:Eold; [subst e|].
    { unfold old_profile in Eold. by repeat case_match. }
    destruct (GenerateProfileBody pols dp privileged) as [c body] eqn:Ebody.
    destruct (Execute _) as [np|] eqn:Ex; [|done].
    destruct (String.eqb_spec np old) as [|Hne]; [done|]. simplify_eq.
    exists old, body. split_and!; [done..|]. intros x. rewrite list_elem_of_filter. tauto.
Qed.

(** ** Witnesses *)

#[local] Existing Instance canonical_range.
#[local] Existing Instance canonical_range_law.

Definition allow_net : SecurityPolicy :=
  {| sp_Metadata := ∅;
     sp_Spec := {| ss_Selector := empty_SelectorType; ss_Process := empty_ProcessType;
       ss_File := empty_FileType;
       ss_Network := {| nt_MatchProtocols :=
           [{| npt_Protocol := "TCP"; npt_FromSource := [{| ms_Path := "/bin/curl" |}];
               npt_Severity := 0; npt_Tags := []; npt_Message := ""; npt_Action := "Allow" |}];
         nt_Severity := 0; nt_Tags := []; nt_Message := ""; nt_Action := "" |};
       ss_Capabilities := empty_CapabilitiesType; ss_Syscalls := empty_SyscallsType;
       ss_Presets := []; ss_AppArmor := ""; ss_Severity := 0; ss_Tags := []; ss_Message := "";
       ss_Action := "" |} |}.

Definition block_posture : DefaultPosture :=
  {| dp_FileAction := "audit"; dp_NetworkAction := "block"; dp_CapabilitiesAction := "audit" |}.

Lemma GenerateProfileBody_spec_witness :
  (GenerateProfileBody (R:=canonical_range) [allow_net] block_posture false).1 = 1.
Proof.
  rewrite (GenerateProfileBody_spec (R:=canonical_range) [allow_net] block_posture false).
  vm_compute. reflexivity.
Defined.

Lemma GenerateProfileBody_headers_witness :
  ph_Network (p_ProfileHeader
    (GenerateProfileBody (R:=canonical_range) [allow_net] block_posture false).2) = false.
Proof.
  rewrite (GenerateProfileBody_headers (R:=canonical_range) [allow_net] block_posture false).
  reflexivity.
Defined.

Definition plain_rule (deny : bool) : RuleConfig :=
  {| rc_Dir := false; rc_Recursive := false; rc_ReadOnly := false; rc_OwnerOnly := false;
     rc_Deny := deny; rc_Allow := negb deny |}.

Lemma addRuletoMap_merges_witness :
  ∃ c, foldl (λ m r, addRuletoMap r "tcp" m) ∅ [plain_rule true; plain_rule false] !! "tcp" = Some c ∧
       rc_Deny c = true ∧ rc_Allow c = true.
Proof.
  apply (addRuletoMap_merges [plain_rule true; plain_rule false] "tcp" ∅); [done|done|].
  by repeat constructor.
Defined.

Lemma GenerateAppArmorProfile_spec_witness :
  GenerateAppArmorProfile (λ _, false) (λ _, Some "x") (λ _, Some "y") (λ s, [s])
    "../shadow" [] block_posture false =
  GenerateAppArmorProfile (λ f, String.eqb f "/etc/shadow") (λ _, Some "x") (λ _, Some "y")
    (λ s, [s]) "../shadow" [] block_posture false.
Proof.
  apply (GenerateAppArmorProfile_spec (R:=canonical_range) (λ _, false)
    (λ f, String.eqb f "/etc/shadow") (λ _, Some "x") (λ _, Some "x")).
  intros f Hf. split; [|done]. symmetry. apply String.eqb_neq.
  intros ->. destruct Hf as [Hf|(x & Hf & _)]; discriminate.
Defined.
