(* ===== verification/SyscallParser.v ===== *)
(** The system-call parser ([KubeArmor/monitor/syscallParser.go]): it decodes the
    context and the arguments of an event from the bytes that the kernel program
    wrote to the ring buffer.  The name tables come first; the table of system calls, which
    differs between architectures, is a parameter of the parser. *)
From Stdlib Require Import Ascii.
From S2P Require Import Prelude GoStrings.

(** ** Tables of the kernel *)

Definition socketDomains : gmap Z string :=
  list_to_map [(0, "AF_UNSPEC"); (1, "AF_UNIX"); (2, "AF_INET"); (3, "AF_AX25"); (4, "AF_IPX");
    (5, "AF_APPLETALK"); (6, "AF_NETROM"); (7, "AF_BRIDGE"); (8, "AF_ATMPVC"); (9, "AF_X25");
    (10, "AF_INET6"); (11, "AF_ROSE"); (12, "AF_DECnet"); (13, "AF_NETBEUI");
    (14, "AF_SECURITY"); (15, "AF_KEY"); (16, "AF_NETLINK"); (17, "AF_PACKET"); (18, "AF_ASH");
    (19, "AF_ECONET"); (20, "AF_ATMSVC"); (21, "AF_RDS"); (22, "AF_SNA"); (23, "AF_IRDA");
    (24, "AF_PPPOX"); (25, "AF_WANPIPE"); (26, "AF_LLC"); (27, "AF_IB"); (28, "AF_MPLS");
    (29, "AF_CAN"); (30, "AF_TIPC"); (31, "AF_BLUETOOTH"); (32, "AF_IUCV"); (33, "AF_RXRPC");
    (34, "AF_ISDN"); (35, "AF_PHONET"); (36, "AF_IEEE802154"); (37, "AF_CAIF"); (38, "AF_ALG");
    (39, "AF_NFC"); (40, "AF_VSOCK"); (41, "AF_KCM"); (42, "AF_QIPCRTR"); (43, "AF_SMC");
    (44, "AF_XDP")]%Z.

Definition socketTypes : gmap Z string :=
  list_to_map [(1, "SOCK_STREAM"); (2, "SOCK_DGRAM"); (3, "SOCK_RAW"); (4, "SOCK_RDM");
    (5, "SOCK_SEQPACKET"); (6, "SOCK_DCCP"); (10, "SOCK_PACKET")]%Z.

Definition protocols : gmap Z string :=
  list_to_map [(0, "HOPOPT"); (1, "ICMP"); (2, "IGMP"); (3, "GGP"); (4, "IPv4"); (5, "ST");
    (6, "TCP"); (7, "CBT"); (8, "EGP"); (9, "IGP"); (10, "BBN-RCC-MON"); (11, "NVP-II");
    (12, "PUP"); (14, "EMCON"); (15, "XNET"); (16, "CHAOS"); (17, "UDP"); (18, "MUX");
    (19, "DCN-MEAS"); (20, "HMP"); (21, "PRM"); (22, "XNS-IDP"); (23, "TRUNK-1");
    (24, "TRUNK-2"); (25, "LEAF-1"); (26, "LEAF-2"); (27, "RDP"); (28, "IRTP");
    (29, "ISO-TP4"); (30, "NETBLT"); (31, "MFE-NSP"); (32, "MERIT-INP"); (33, "DCCP");
    (34, "3PC"); (35, "IDPR"); (36, "XTP"); (37, "DDP"); (38, "IDPR-CMTP"); (39, "TP++");
    (40, "IL"); (41, "IPv6"); (42, "SDRP"); (43, "IPv6-Route"); (44, "IPv6-Frag");
    (45, "IDRP"); (46, "RSVP"); (47, "GRE"); (48, "DSR"); (49, "BNA"); (50, "ESP"); (51, "AH");
    (52, "I-NLSP"); (54, "NARP"); (55, "Min-IPv4"); (56, "TLSP"); (57, "SKIP");
    (58, "IPv6-ICMP"); (59, "IPv6-NoNxt"); (60, "IPv6-Opts"); (62, "CFTP"); (64, "SAT-EXPAK");
    (65, "KRYPTOLAN"); (66, "RVD"); (67, "IPPC"); (69, "SAT-MON"); (70, "VISA"); (71, "IPCV");
    (72, "CPNX"); (73, "CPHB"); (74, "WSN"); (75, "PVP"); (76, "BR-SAT-MON"); (77, "SUN-ND");
    (78, "WB-MON"); (79, "WB-EXPAK"); (80, "ISO-IP"); (81, "VMTP"); (82, "SECURE-VMTP");
    (83, "VINES"); (84, "IPTM"); (85, "NSFNET-IGP"); (86, "DGP"); (87, "TCF"); (88, "EIGRP");
    (89, "OSPF"); (90, "Sprite-RPC"); (91, "LARP"); (92, "MTP"); (93, "AX.25"); (94, "IPIP");
    (96, "SCC-SP"); (97, "ETHERIP"); (98, "ENCAP"); (100, "GMTP"); (101, "IFMP");
    (102, "PNNI"); (103, "PIM"); (104, "ARIS"); (105, "SCPS"); (106, "QNX"); (107, "A/N");
    (108, "IPComp"); (109, "SNP"); (110, "Compaq-Peer"); (111, "IPX-in-IP"); (112, "VRRP");
    (113, "PGM"); (115, "L2TP"); (116, "DDX"); (117, "IATP"); (118, "STP"); (119, "SRP");
    (120, "UTI"); (121, "SMP"); (123, "PTP"); (125, "FIRE"); (126, "CRTP"); (127, "CRUDP");
    (128, "SSCOPMCE"); (129, "IPLT"); (130, "SPS"); (131, "PIPE"); (132, "SCTP"); (133, "FC");
    (134, "RSVP-E2E-IGNORE"); (136, "UDPLite"); (137, "MPLS-in-IP"); (138, "manet");
    (139, "HIP"); (140, "Shim6"); (141, "WESP"); (142, "ROHC"); (143, "Ethernet");
    (144, "AGGFRAG"); (145, "NSH"); (255, "Reserved")]%Z.

(** Capabilities code to name *)
Definition Capabilities : gmap Z string :=
  list_to_map [(0, "CAP_CHOWN"); (1, "CAP_DAC_OVERRIDE"); (2, "CAP_DAC_READ_SEARCH");
    (3, "CAP_FOWNER"); (4, "CAP_FSETID"); (5, "CAP_KILL"); (6, "CAP_SETGID");
    (7, "CAP_SETUID"); (8, "CAP_SETPCAP"); (9, "CAP_LINUX_IMMUTABLE");
    (10, "CAP_NET_BIND_SERVICE"); (11, "CAP_NET_BROADCAST"); (12, "CAP_NET_ADMIN");
    (13, "CAP_NET_RAW"); (14, "CAP_IPC_LOCK"); (15, "CAP_IPC_OWNER"); (16, "CAP_SYS_MODULE");
    (17, "CAP_SYS_RAWIO"); (18, "CAP_SYS_CHROOT"); (19, "CAP_SYS_PTRACE");
    (20, "CAP_SYS_PACCT"); (21, "CAP_SYS_ADMIN"); (22, "CAP_SYS_BOOT"); (23, "CAP_SYS_NICE");
    (24, "CAP_SYS_RESOURCE"); (25, "CAP_SYS_TIME"); (26, "CAP_SYS_TTY_CONFIG");
    (27, "CAP_MKNOD"); (28, "CAP_LEASE"); (29, "CAP_AUDIT_WRITE"); (30, "CAP_AUDIT_CONTROL");
    (31, "CAP_SETFCAP"); (32, "CAP_MAC_OVERRIDE"); (33, "CAP_MAC_ADMIN"); (34, "CAP_SYSLOG");
    (35, "CAP_WAKE_ALARM"); (36, "CAP_BLOCK_SUSPEND"); (37, "CAP_AUDIT_READ")]%Z.

Definition errMsg : gmap Z string :=
  list_to_map [(1, "Operation not permitted"); (2, "No such file or directory");
    (3, "No such process"); (4, "Interrupted system call"); (5, "Input/output error");
    (6, "No such device or address"); (7, "Argument list too long"); (8, "Exec format error");
    (9, "Bad file descriptor"); (10, "No child processes");
    (11, "Resource temporarily unavailable"); (12, "Cannot allocate memory");
    (13, "Permission denied"); (14, "Bad address"); (15, "Block device required");
    (16, "Device or resource busy"); (17, "File exists"); (18, "Invalid cross-device link");
    (19, "No such device"); (20, "Not a directory"); (21, "Is a directory");
    (22, "Invalid argument"); (23, "Too many open files in system");
    (24, "Too many open files"); (25, "Inappropriate ioctl for device");
    (26, "Text file busy"); (27, "File too large"); (28, "No space left on device");
    (29, "Illegal seek"); (30, "Read-only file system"); (31, "Too many links");
    (32, "Broken pipe"); (33, "Numerical argument out of domain");
    (34, "Numerical result out of range"); (35, "Resource deadlock avoided");
    (36, "File name too long"); (37, "No locks available"); (38, "Function not implemented");
    (39, "Directory not empty"); (40, "Too many levels of symbolic links");
    (42, "No message of desired type"); (43, "Identifier removed");
    (44, "Channel number out of range"); (45, "Level 2 not synchronized");
    (46, "Level 3 halted"); (47, "Level 3 reset"); (48, "Link number out of range");
    (49, "Protocol driver not attached"); (50, "No CSI structure available");
    (51, "Level 2 halted"); (52, "Invalid exchange"); (53, "Invalid request descriptor");
    (54, "Exchange full"); (55, "No anode"); (56, "Invalid request code");
    (57, "Invalid slot"); (59, "Bad font file format"); (60, "Device not a stream");
    (61, "No data available"); (62, "Timer expired"); (63, "Out of streams resources");
    (64, "Machine is not on the network"); (65, "Package not installed");
    (66, "Object is remote"); (67, "Link has been severed"); (68, "Advertise error");
    (69, "Srmount error"); (70, "Communication error on send"); (71, "Protocol error");
    (72, "Multihop attempted"); (73, "RFS specific error"); (74, "Bad message");
    (75, "Value too large for defined data type"); (76, "Name not unique on network");
    (77, "File descriptor in bad state"); (78, "Remote address changed");
    (79, "Can not access a needed shared library");
    (80, "Accessing a corrupted shared library"); (81, ".lib section in a.out corrupted");
    (82, "Attempting to link in too many shared libraries");
    (83, "Cannot exec a shared library directly");
    (84, "Invalid or incomplete multibyte or wide character");
    (85, "Interrupted system call should be restarted"); (86, "Streams pipe error");
    (87, "Too many users"); (88, "Socket operation on non-socket");
    (89, "Destination address required"); (90, "Message too long");
    (91, "Protocol wrong type for socket"); (92, "Protocol not available");
    (93, "Protocol not supported"); (94, "Socket type not supported");
    (95, "Operation not supported"); (96, "Protocol family not supported");
    (97, "Address family not supported by protocol"); (98, "Address already in use");
    (99, "Cannot assign requested address"); (100, "Network is down");
    (101, "Network is unreachable"); (102, "Network dropped connection on reset");
    (103, "Software caused connection abort"); (104, "Connection reset by peer");
    (105, "No buffer space available"); (106, "Transport endpoint is already connected");
    (107, "Transport endpoint is not connected");
    (108, "Cannot send after transport endpoint shutdown");
    (109, "Too many references: cannot splice"); (110, "Connection timed out");
    (111, "Connection refused"); (112, "Host is down"); (113, "No route to host");
    (114, "Operation already in progress"); (115, "Operation now in progress");
    (116, "Stale file handle"); (117, "Structure needs cleaning");
    (118, "Not a XENIX named type file"); (119, "No XENIX semaphores available");
    (120, "Is a named type file"); (121, "Remote I/O error"); (122, "Disk quota exceeded");
    (123, "No medium found"); (124, "Wrong medium type"); (125, "Operation canceled");
    (126, "Required key not available"); (127, "Key has expired");
    (128, "Key has been revoked"); (129, "Key was rejected by service"); (130, "Owner died");
    (131, "State not recoverable"); (132, "Operation not possible due to RF-kill");
    (133, "Memory page has hardware error")]%Z.

Definition auditedSyscalls : gmap Z string :=
  list_to_map [(84, "rmdir"); (87, "unlink"); (92, "chown"); (105, "setuid"); (106, "setgid");
    (260, "fchownat"); (263, "unlinkat"); (101, "ptrace"); (165, "mount"); (166, "umount")]%Z.

(** The cases of the [switch] of [getPtraceReq], [getMountFlags] and [getUmountFlags]. *)
Definition ptraceReqs : gmap Z string :=
  list_to_map [(0, "PTRACE_TRACEME"); (1, "PTRACE_PEEKTEXT"); (2, "PTRACE_PEEKDATA");
    (3, "PTRACE_PEEKUSER"); (4, "PTRACE_POKETEXT"); (5, "PTRACE_POKEDATA");
    (6, "PTRACE_POKEUSER"); (7, "PTRACE_CONT"); (8, "PTRACE_KILL"); (9, "PTRACE_SINGLESTEP");
    (12, "PTRACE_GETREGS"); (13, "PTRACE_SETREGS"); (14, "PTRACE_GETFPREGS");
    (15, "PTRACE_SETFPREGS"); (16, "PTRACE_ATTACH"); (17, "PTRACE_DETACH");
    (18, "PTRACE_GETFPXREGS"); (19, "PTRACE_SETFPXREGS"); (24, "PTRACE_SYSCALL");
    (16896, "PTRACE_SETOPTIONS"); (16897, "PTRACE_GETEVENTMSG"); (16898, "PTRACE_GETSIGINFO");
    (16899, "PTRACE_SETSIGINFO"); (16900, "PTRACE_GETREGSET"); (16901, "PTRACE_SETREGSET");
    (16902, "PTRACE_SEIZE"); (16903, "PTRACE_INTERRUPT"); (16904, "PTRACE_LISTEN");
    (16905, "PTRACE_PEEKSIGINFO"); (16906, "PTRACE_GETSIGMASK"); (16907, "PTRACE_SETSIGMASK");
    (16908, "PTRACE_SECCOMP_GET_FILTER"); (16909, "PTRACE_SECCOMP_GET_METADATA");
    (16910, "PTRACE_GET_SYSCALL_INFO")]%Z.

Definition mountFlags : gmap Z string :=
  list_to_map [(1, "MS_RDONLY"); (2, "MS_NOSUID"); (4, "MS_NODEV"); (8, "MS_NOEXEC");
    (16, "MS_SYNCHRONOUS"); (32, "MS_REMOUNT"); (64, "MS_MANDLOCK"); (128, "S_WRITE");
    (256, "S_APPEND"); (512, "S_IMMUTABLE"); (1024, "MS_NOATIME"); (2048, "MS_NODIRATIME");
    (4096, "MS_BIND")]%Z.

Definition umountFlags : gmap Z string :=
  list_to_map [(1, "MNT_FORCE"); (2, "MNT_DETACH"); (4, "MNT_EXPIRE");
    (8, "UMOUNT_NOFOLLOW")]%Z.

(** The tests of [getOpenFlags] after the access mode, in order. *)
Definition openFlagNames : list (Z * string) :=
  [(64, "O_CREAT"); (128, "O_EXCL"); (256, "O_NOCTTY"); (512, "O_TRUNC"); (1024, "O_APPEND");
    (2048, "O_NONBLOCK"); (1052672, "O_SYNC"); (8192, "O_ASYNC"); (32768, "O_LARGEFILE");
    (65536, "O_DIRECTORY"); (131072, "O_NOFOLLOW"); (524288, "O_CLOEXEC"); (16384, "O_DIRECT");
    (262144, "O_NOATIME"); (2097152, "O_PATH"); (4194304, "O_TMPFILE")]%Z.

Definition capNames : list string :=
  ["CAP_AUDIT_CONTROL"; "CAP_AUDIT_READ"; "CAP_AUDIT_WRITE"; "CAP_DAC_READ_SEARCH";
    "CAP_DAC_OVERRIDE"; "CAP_LINUX_IMMUTABLE"; "CAP_NET_BROADCAST"; "CAP_NET_ADMIN";
    "CAP_NET_BIND_SERVICE"; "CAP_NET_RAW"; "CAP_IPC_LOCK"; "CAP_IPC_OWNER"; "CAP_SYS_MODULE";
    "CAP_SYS_RAWIO"; "CAP_SYS_PTRACE"; "CAP_SYS_PACCT"; "CAP_SYS_ADMIN"; "CAP_SYS_BOOT";
    "CAP_SYS_NICE"; "CAP_SYS_RESOURCE"; "CAP_SYS_TIME"; "CAP_SYS_TTY_CONFIG"; "CAP_SYS_CHROOT";
    "CAP_SYSLOG"; "CAP_LEASE"; "CAP_MAC_OVERRIDE"; "CAP_MAC_ADMIN"; "CAP_WAKE_ALARM";
    "CAP_BLOCK_SUSPEND"; "CAP_CHOWN"; "CAP_FOWNER"; "CAP_FSETID"; "CAP_KILL"; "CAP_SETGID";
    "CAP_SETUID"; "CAP_SETPCAP"; "CAP_PERFMON"; "CAP_MKNOD"; "CAP_SETFCAP"; "CAP_BPF"].

(** ** Readers

    A reader takes the unread bytes and returns a value or an error, and the bytes
    that are left: [binary.Read] drains a buffer that is too short. *)

Definition reader (A : Type) : Type := byte_list → option A * byte_list.

Definition ok {A} (a : A) : reader A := λ b, (Some a, b).
Definition bind {A B} (m : reader A) (f : A → reader B) : reader B := λ b,
  match m b with
  | (Some a, b') => f a b'
  | (None, b') => (None, b')
  end.
Definition rmap {A B} (f : A → B) (m : reader A) : reader B := bind m (λ a, ok (f a)).

Declare Scope reader_scope.
Delimit Scope reader_scope with reader.
Notation "'let*' x := m 'in' k" := (bind m (λ x, k))
  (at level 10, x pattern, m at level 100, k at level 200)
  : reader_scope.
Infix "<$$>" := rmap (at level 61, left associativity) : reader_scope.
Open Scope reader_scope.

Definition fail {A} : reader A := λ b, (None, b).

Definition read_bytes (n : nat) : reader byte_list := λ b,
  if bool_decide (n ≤ List.length b) then (Some (take n b), drop n b) else (None, []).

Definition byte_val (c : ascii) : Z := Z.of_N (N_of_ascii c).

(** The value of a little-endian or big-endian byte sequence. *)
Fixpoint le_value (l : byte_list) : Z :=
  match l with [] => 0 | c :: l => byte_val c + 256 * le_value l end%Z.
Definition be_value (l : byte_list) : Z := le_value (reverse l).

Definition readInt8FromBuff : reader Z := i8 ∘ le_value <$$> read_bytes 1.
Definition readInt16FromBuff : reader Z := i16 ∘ le_value <$$> read_bytes 2.
Definition readUInt16BigendFromBuff : reader Z := be_value <$$> read_bytes 2.
Definition readInt32FromBuff : reader Z := i32 ∘ le_value <$$> read_bytes 4.
Definition readUInt32FromBuff : reader Z := le_value <$$> read_bytes 4.
Definition readUInt32BigendFromBuff : reader Z := be_value <$$> read_bytes 4.
Definition readArgTypeFromBuff : reader Z := le_value <$$> read_bytes 1.

(** ** The event context *)

Record SyscallContext := {
  sc_Ts : Z; sc_PidID : Z; sc_MntID : Z; sc_HostPPID : Z; sc_HostPID : Z;
  sc_PPID : Z; sc_PID : Z; sc_UID : Z; sc_EventID : Z; sc_Argnum : Z; sc_Retval : Z;
  sc_Comm : byte_list; sc_Cwd : byte_list; sc_TTY : byte_list; sc_OID : Z; sc_ExecID : Z }.

(** [binary.Read] of the struct: its fields in order, without padding. *)
Definition context_size : nat := 224.

Definition readContextFromBuff : reader SyscallContext :=
  let* l := read_bytes context_size in
  let field off n := take n (drop off l) in
  let u off n := le_value (field off n) in
  ok {| sc_Ts := u 0 8; sc_PidID := u 8 4; sc_MntID := u 12 4; sc_HostPPID := u 16 4;
          sc_HostPID := u 20 4; sc_PPID := u 24 4; sc_PID := u 28 4; sc_UID := u 32 4;
          sc_EventID := i32 (u 36 4); sc_Argnum := i32 (u 40 4); sc_Retval := i64 (u 44 8);
          sc_Comm := field 52 16; sc_Cwd := field 68 80; sc_TTY := field 148 64;
          sc_OID := u 212 4; sc_ExecID := u 216 8 |}.

(** ** Strings *)

Definition MaxStringLen : Z := 4096.

Definition readByteSliceFromBuff (len : Z) : reader byte_list :=
  if (0 <? len)%Z then read_bytes (Z.to_nat (Z.min len MaxStringLen)) else fail.

(** The deferred read discards a byte whether or not the string was read. *)
Definition readStringFromBuff : reader string :=
  let* size := readInt32FromBuff in
  if (size =? 0)%Z then ok ""
  else λ b,
    let '(res, b) := readByteSliceFromBuff (i32 (size - 1)) b in
    (option_map (λ l, of_bytes l) res, (readInt8FromBuff b).2).

(** ** Socket addresses *)

Definition getSocketDomain (sd : Z) : string :=
  match socketDomains !! sd with Some sdName => sdName | None => Itoa sd end.

(** [net.IP.String] of four bytes. *)
Definition ipv4_string (l : byte_list) : string :=
  join "." ((λ c, Itoa (byte_val c)) <$> l).

Definition readUint32IP (l : Z) : string :=
  join "." ((λ s, Itoa (Z.land (Z.shiftr l s) 255)) <$> [24; 16; 8; 0]%Z).

Definition hex_digit (d : Z) : ascii :=
  if (d <? 10)%Z then digit d else ascii_of_nat (87 + Z.to_nat d).
Fixpoint hex_digits (fuel : nat) (z : Z) (acc : string) : string :=
  match fuel with
  | O => acc
  | S fuel =>
      let acc := String (hex_digit (z mod 16)) acc in
      if (z <? 16)%Z then acc else hex_digits fuel (z / 16) acc
  end.

(** The longest run of zero groups, the first one on a tie: start and length. *)
Fixpoint zero_run (groups : list Z) : nat :=
  match groups with 0%Z :: l => S (zero_run l) | _ => 0 end.
Fixpoint best_run (i : nat) (groups : list Z) (best : nat * nat) : nat * nat :=
  match groups with
  | [] => best
  | _ :: l =>
      let n := zero_run groups in
      best_run (S i) l (if bool_decide (best.2 < n) then (i, n) else best)
  end.

(** [net.IP.String] of sixteen bytes: an IPv4-mapped address in dotted form,
    otherwise groups in hexadecimal with the longest zero run (of two or more)
    written as [::]. *)
Definition ipv6_string (l : byte_list) : string :=
  let groups := (λ i, be_value (take 2 (drop (2 * i) l))) <$> seq 0 8 in
  if bool_decide (take 6 groups = [0; 0; 0; 0; 0; 65535]%Z) then ipv4_string (drop 12 l)
  else
    let '(s, n) := best_run 0 groups (0, 0) in
    let hex gs := join ":" ((λ g, hex_digits 4 g "") <$> gs) in
    if bool_decide (2 ≤ n) then hex (take s groups) +:+ "::" +:+ hex (drop (s + n) groups)
    else hex groups.

(** The bytes before the first NUL, or nothing if there is none. *)
Fixpoint until_nul (l : byte_list) : option byte_list :=
  match l with
  | [] => None
  | c :: l => if decide (c = nul) then Some [] else option_map (cons c) (until_nul l)
  end.

Definition readSockaddrFromBuff : reader (gmap string string) :=
  let* family := readInt16FromBuff in
  let res := {["sa_family" := getSocketDomain (u32 family)]} in
  if (family =? 1)%Z then
    let* sunPathBuf := read_bytes 108 in
    ok (<["sun_path" := of_bytes (default [] (until_nul sunPathBuf))]> res)
  else if (family =? 2)%Z then
    let* port := readUInt16BigendFromBuff in
    let* addr := readUInt32BigendFromBuff in
    let* _ := readByteSliceFromBuff 8 in
    ok (<["sin_addr" := readUint32IP addr]> (<["sin_port" := Itoa port]> res))
  else if (family =? 10)%Z then
    let* port := readUInt16BigendFromBuff in
    let* _ := readUInt32BigendFromBuff in
    let* addr := readByteSliceFromBuff 16 in
    ok (<["sin_addr" := ipv6_string addr]> (<["sin_port" := Itoa port]> res))
  else ok res.

(** ** Names of flags and codes *)

Definition getUnlinkAtFlag (flag : Z) : string :=
  if (flag =? 512)%Z then "AT_REMOVEDIR" else "".

Definition name_or_number (names : gmap Z string) (code : Z) : string :=
  match names !! code with Some name => name | None => Itoa code end.

Definition getPtraceReq (req : Z) : string := name_or_number ptraceReqs req.
Definition getMountFlags (flag : Z) : string := name_or_number mountFlags flag.
Definition getUmountFlags (flag : Z) : string := name_or_number umountFlags flag.
Definition GetProtocol (proto : Z) : string := name_or_number protocols proto.
Definition getCapabilityName (cap : Z) : string := name_or_number Capabilities cap.
Definition isAuditedSyscall (syscallID : Z) : bool :=
  match auditedSyscalls !! syscallID with Some _ => true | None => false end.
Definition getErrorMessage (errno : Z) : string :=
  match errMsg !! (- errno)%Z with Some msg => msg | None => "Unknown error" end.

(** [flags & mask == mask] *)
Definition has_flag (flags mask : Z) : bool := (Z.land flags mask =? mask)%Z.

Definition flag_names (table : list (Z * string)) (flags : Z) : list string :=
  omap (λ fn : Z * string, if has_flag flags fn.1 then Some fn.2 else None) table.

Definition getOpenFlags (flags : Z) : string :=
  let mode := if has_flag flags 1 then "O_WRONLY"
              else if has_flag flags 2 then "O_RDWR" else "O_RDONLY" in
  join "|" (mode :: flag_names openFlagNames flags).

Definition getExecFlags (flags : Z) : string :=
  let f := flag_names [(256, "AT_EMPTY_PATH"); (4096, "AT_SYMLINK_NOFOLLOW")]%Z flags in
  join "|" (match f with [] => ["0"] | _ => f end).

Definition GetSocketType (st : Z) : string :=
  let f := match socketTypes !! Z.land st 15 with Some stName => stName | None => Itoa st end in
  join "|" (f :: flag_names [(2048, "SOCK_NONBLOCK"); (524288, "SOCK_CLOEXEC")]%Z st).

(** ** Arguments *)

Definition intT : Z := 1.
Definition strT : Z := 10.
Definition strArrT : Z := 11.
Definition sockAddrT : Z := 12.
Definition openFlagsT : Z := 13.
Definition execFlagsT : Z := 14.
Definition sockDomT : Z := 15.
Definition sockTypeT : Z := 16.
Definition capT : Z := 17.
Definition syscallT : Z := 18.
Definition unlinkAtFlagT : Z := 19.
Definition ptraceReqT : Z := 23.
Definition mountFlagT : Z := 24.
Definition umountFlagT : Z := 25.
Definition udpMsg : Z := 26.
Definition qtype : Z := 27.

(** The dynamic types that an [interface{}] argument has. *)
Inductive Arg :=
| AInt32 (z : Z)
| AString (s : string)
| AStrings (l : list string)
| ASockaddr (m : gmap string string)
| AUint16 (z : Z).

(** The loop over the elements of a string array: [et] is the type byte last read.
    An element has at least four bytes, so the length of the buffer is enough fuel
    ([strarr_enough]); running out of it is not an outcome of the code. *)
Fixpoint read_strings (fuel : nat) (et : Z) (ss : list string) : reader (list string) :=
  match fuel with
  | O => fail
  | S fuel =>
      if (et =? strArrT)%Z then ok ss
      else
        let* s := readStringFromBuff in
        let* et := readArgTypeFromBuff in
        read_strings fuel et (ss ++ [s])
  end.

Section args.
(** The system calls of the architecture. *)
Context (syscalls : gmap Z string).

Definition GetSyscallName (sc : Z) : string := name_or_number syscalls sc.

Definition readArgFromBuff : reader Arg :=
  let* at_ := readArgTypeFromBuff in
  let u32_arg (name : Z → string) : reader Arg := AString ∘ name <$$> readUInt32FromBuff in
  if (at_ =? intT)%Z then AInt32 <$$> readInt32FromBuff
  else if (at_ =? strT)%Z then AString <$$> readStringFromBuff
  else if (at_ =? strArrT)%Z then
    let* et := readArgTypeFromBuff in
    λ b, (AStrings <$$> read_strings (S (List.length b)) et []) b
  else if (at_ =? capT)%Z then AString ∘ getCapabilityName <$$> readInt32FromBuff
  else if (at_ =? syscallT)%Z then AString ∘ GetSyscallName <$$> readInt32FromBuff
  else if (at_ =? sockAddrT)%Z then ASockaddr <$$> readSockaddrFromBuff
  else if (at_ =? openFlagsT)%Z then u32_arg getOpenFlags
  else if (at_ =? unlinkAtFlagT)%Z then u32_arg getUnlinkAtFlag
  else if (at_ =? execFlagsT)%Z then u32_arg getExecFlags
  else if (at_ =? ptraceReqT)%Z then u32_arg getPtraceReq
  else if (at_ =? mountFlagT)%Z then u32_arg getMountFlags
  else if (at_ =? umountFlagT)%Z then u32_arg getUmountFlags
  else if (at_ =? sockDomT)%Z then u32_arg getSocketDomain
  else if (at_ =? sockTypeT)%Z then u32_arg GetSocketType
  else if (at_ =? udpMsg)%Z then AString <$$> readStringFromBuff
  else if (at_ =? qtype)%Z then AUint16 <$$> readUInt16BigendFromBuff
  else fail.

Fixpoint read_args (n : nat) (args : list Arg) : reader (list Arg) :=
  match n with
  | O => ok args
  | S n => let* arg := readArgFromBuff in read_args n (args ++ [arg])
  end.

Definition GetArgs (Argnum : Z) : reader (list Arg) := read_args (Z.to_nat Argnum) [].
End args.

(** [CapToCode], over the [CAP_] constants of [golang.org/x/sys/unix]. *)
Definition CapToCode (unix : string → Z) : gmap string Z :=
  list_to_map ((λ name, (name, u8 (unix name))) <$> capNames).
