(* ===== verification/SyscallProps.v ===== *)
(** The parser is total, never reads past the buffer, decodes what the kernel
    program encodes, and rejects the kernel's encoding of an empty string. *)
From Stdlib Require Import Ascii.
From S2P Require Import Prelude GoStrings SyscallParser.

(** ** Encodings *)

Definition byte_of (z : Z) : ascii := ascii_of_N (Z.to_N (z mod 256)).

Fixpoint le_bytes (n : nat) (z : Z) : byte_list :=
  match n with O => [] | S n => byte_of z :: le_bytes n (z / 256) end.
Definition be_bytes (n : nat) (z : Z) : byte_list := reverse (le_bytes n z).

Lemma le_bytes_length n z : List.length (le_bytes n z) = n.
Proof. revert z. induction n; intros z; simpl; auto. Qed.

Lemma byte_val_of z : byte_val (byte_of z) = (z mod 256)%Z.
Proof.
  unfold byte_val, byte_of. pose proof (Z.mod_pos_bound z 256 ltac:(lia)).
  rewrite N_ascii_embedding; lia.
Qed.

Lemma le_value_bytes n z : le_value (le_bytes n z) = (z mod 256 ^ Z.of_nat n)%Z.
Proof.
  revert z. induction n as [|n IH]; intros z.
  - simpl. by rewrite Z.mod_1_r.
  - cbn [le_bytes le_value]. rewrite IH, byte_val_of.
    rewrite Nat2Z.inj_succ, Z.pow_succ_r by lia.
    rewrite Z.rem_mul_r by lia. lia.
Qed.

(** A reader that returns [a] and leaves [rest] after reading [enc]. *)
Definition reads {A} (m : reader A) (enc : byte_list) (a : A) : Prop :=
  ∀ rest, m (enc ++ rest) = (Some a, rest).

Lemma reads_bytes l : reads (read_bytes (List.length l)) l l.
Proof.
  intros rest. unfold read_bytes.
  rewrite bool_decide_true by (rewrite length_app; lia).
  by rewrite take_app_length, drop_app_length.
Qed.

Lemma reads_bytes_n n l : List.length l = n → reads (read_bytes n) l l.
Proof. intros <-. apply reads_bytes. Qed.

Lemma reads_ok {A} (a : A) : reads (ok a) [] a.
Proof. by intros rest. Qed.

Lemma reads_bind {A B} (m : reader A) (f : A → reader B) e1 e2 a b :
  reads m e1 a → reads (f a) e2 b → reads (bind m f) (e1 ++ e2) b.
Proof.
  intros Hm Hf rest. unfold bind. rewrite <- app_assoc, Hm. apply Hf.
Qed.

Lemma reads_map {A B} (f : A → B) m e a : reads m e a → reads (rmap f m) e (f a).
Proof.
  intros Hm. unfold rmap. rewrite <- (app_nil_r e).
  eapply reads_bind; [exact Hm|apply reads_ok].
Qed.

Lemma reads_i32 z : (- 2 ^ 31 ≤ z < 2 ^ 31)%Z → reads readInt32FromBuff (le_bytes 4 z) z.
Proof.
  intros Hz. unfold readInt32FromBuff.
  replace z with (i32 (le_value (le_bytes 4 z))) at 2.
  - apply (reads_map (i32 ∘ le_value)), reads_bytes_n, le_bytes_length.
  - rewrite le_value_bytes. change (256 ^ Z.of_nat 4)%Z with (2 ^ 32)%Z.
    unfold i32, sext. rewrite Z.mod_mod by lia. apply (sext_small 32); lia.
Qed.

Lemma reads_i16 z : (- 2 ^ 15 ≤ z < 2 ^ 15)%Z → reads readInt16FromBuff (le_bytes 2 z) z.
Proof.
  intros Hz. unfold readInt16FromBuff.
  replace z with (i16 (le_value (le_bytes 2 z))) at 2.
  - apply (reads_map (i16 ∘ le_value)), reads_bytes_n, le_bytes_length.
  - rewrite le_value_bytes. change (256 ^ Z.of_nat 2)%Z with (2 ^ 16)%Z.
    unfold i16, sext. rewrite Z.mod_mod by lia. apply (sext_small 16); lia.
Qed.

Lemma reads_u32 z : (0 ≤ z < 2 ^ 32)%Z → reads readUInt32FromBuff (le_bytes 4 z) z.
Proof.
  intros Hz. unfold readUInt32FromBuff.
  replace z with (le_value (le_bytes 4 z)) at 2.
  - apply (reads_map le_value), reads_bytes_n, le_bytes_length.
  - rewrite le_value_bytes. apply Z.mod_small. simpl. lia.
Qed.

Lemma reads_u8 z : (0 ≤ z < 256)%Z → reads readArgTypeFromBuff (le_bytes 1 z) z.
Proof.
  intros Hz. unfold readArgTypeFromBuff.
  replace z with (le_value (le_bytes 1 z)) at 2.
  - apply (reads_map le_value), reads_bytes_n, le_bytes_length.
  - rewrite le_value_bytes. apply Z.mod_small. simpl. lia.
Qed.

Lemma be_value_bytes n z : (0 ≤ z < 256 ^ Z.of_nat n)%Z → be_value (be_bytes n z) = z.
Proof.
  intros Hz. unfold be_value, be_bytes. rewrite reverse_involutive, le_value_bytes.
  by apply Z.mod_small.
Qed.

Lemma be_bytes_length n z : List.length (be_bytes n z) = n.
Proof. unfold be_bytes. by rewrite length_reverse, le_bytes_length. Qed.

Lemma reads_be n z :
  (0 ≤ z < 256 ^ Z.of_nat n)%Z → reads (rmap be_value (read_bytes n)) (be_bytes n z) z.
Proof.
  intros Hz. rewrite <- (be_value_bytes n z) at 2 by done.
  apply reads_map, reads_bytes_n, be_bytes_length.
Qed.

(** ** The kernel's encoding of an event's arguments *)

(** [save_str_to_buffer] of [BPF/system_monitor.c]: the size with the final NUL. *)
Definition enc_string (s : string) : byte_list :=
  le_bytes 4 (Z.of_nat (String.length s) + 1) ++ bytes_of s ++ [nul].

(** Arguments as the kernel sends them. *)
Inductive wire :=
| WInt (z : Z)
| WStr (s : string)
| WStrs (l : list string)
| WCap (z : Z)
| WSyscall (z : Z)
| WFlags (t z : Z)
| WUdp (s : string)
| WQtype (z : Z)
| WUnix (path : string)
| WInet (port addr : Z)
| WInet6 (port flow : Z) (addr : byte_list) (scope : Z)
| WOther (family : Z).

Definition flag_types : list (Z * (Z → string)) :=
  [(openFlagsT, getOpenFlags); (unlinkAtFlagT, getUnlinkAtFlag); (execFlagsT, getExecFlags);
   (ptraceReqT, getPtraceReq); (mountFlagT, getMountFlags); (umountFlagT, getUmountFlags);
   (sockDomT, getSocketDomain); (sockTypeT, GetSocketType)].

Definition encode (w : wire) : byte_list :=
  match w with
  | WInt z => le_bytes 1 intT ++ le_bytes 4 z
  | WStr s => le_bytes 1 strT ++ enc_string s
  | WStrs l => le_bytes 1 strArrT ++ (l ≫= λ s, le_bytes 1 strT ++ enc_string s) ++
               le_bytes 1 strArrT
  | WCap z => le_bytes 1 capT ++ le_bytes 4 z
  | WSyscall z => le_bytes 1 syscallT ++ le_bytes 4 z
  | WFlags t z => le_bytes 1 t ++ le_bytes 4 z
  | WUdp s => le_bytes 1 udpMsg ++ enc_string s
  | WQtype z => le_bytes 1 qtype ++ be_bytes 2 z
  | WUnix path => le_bytes 1 sockAddrT ++ le_bytes 2 1 ++
                  bytes_of path ++ replicate (108 - String.length path) nul
  | WInet port addr => le_bytes 1 sockAddrT ++ le_bytes 2 2 ++ be_bytes 2 port ++
                       be_bytes 4 addr ++ replicate 8 nul
  | WInet6 port flow addr scope => le_bytes 1 sockAddrT ++ le_bytes 2 10 ++ be_bytes 2 port ++
                                   be_bytes 4 flow ++ addr ++ le_bytes 4 scope
  | WOther family => le_bytes 1 sockAddrT ++ le_bytes 2 family
  end.

(** The scope id that ends a [struct sockaddr_in6]: the kernel sends all of its 28
    bytes, and the parser stops after the address. *)
Definition unread (w : wire) : byte_list :=
  match w with WInet6 _ _ _ scope => le_bytes 4 scope | _ => [] end.

(** The bytes that the parser leaves of the arguments [ws]. *)
Definition left_over (ws : list wire) : byte_list := default [] (unread <$> list.last ws).

(** In every event with a socket address ([ARG_TYPE1(SOCKADDR_T)], and the DNS
    record) the address is the last argument. *)
Definition address_last (ws : list wire) : Prop :=
  Forall (λ w, unread w = []) (removelast ws).

Definition int32 (z : Z) : Prop := (- 2 ^ 31 ≤ z < 2 ^ 31)%Z.
Definition uint32 (z : Z) : Prop := (0 ≤ z < 2 ^ 32)%Z.
Definition uint16 (z : Z) : Prop := (0 ≤ z < 2 ^ 16)%Z.
(** Not empty, and not cut at 4096 bytes. *)
Definition wire_string (s : string) : Prop := 1 ≤ String.length s ≤ 4096.

Definition wf_wire (w : wire) : Prop :=
  match w with
  | WInt z | WCap z | WSyscall z => int32 z
  | WStr s | WUdp s => wire_string s
  | WStrs l => Forall wire_string l
  | WFlags t z => t ∈ flag_types.*1 ∧ uint32 z
  | WQtype z => uint16 z
  | WUnix path => String.length path ≤ 107 ∧ nul_free (bytes_of path)
  | WInet port addr => uint16 port ∧ uint32 addr
  | WInet6 port flow addr scope =>
      uint16 port ∧ uint32 flow ∧ List.length addr = 16 ∧ uint32 scope
  | WOther family => (- 2 ^ 15 ≤ family < 2 ^ 15)%Z ∧ family ∉ [1; 2; 10]%Z
  end.

Definition flag_name (t : Z) : Z → string :=
  default (λ _, "") (list_to_map (M:=gmap Z (Z → string)) flag_types !! t).

Section denote.
Context (syscalls : gmap Z string).

(** What the parser should return for it. *)
Definition denote (w : wire) : Arg :=
  match w with
  | WInt z => AInt32 z
  | WStr s | WUdp s => AString s
  | WStrs l => AStrings l
  | WCap z => AString (getCapabilityName z)
  | WSyscall z => AString (GetSyscallName syscalls z)
  | WFlags t z => AString (flag_name t z)
  | WQtype z => AUint16 z
  | WUnix path => ASockaddr (<["sun_path" := path]> {["sa_family" := "AF_UNIX"]})
  | WInet port addr => ASockaddr (<["sin_addr" := readUint32IP addr]>
      (<["sin_port" := Itoa port]> {["sa_family" := "AF_INET"]}))
  | WInet6 port _ addr _ => ASockaddr (<["sin_addr" := ipv6_string addr]>
      (<["sin_port" := Itoa port]> {["sa_family" := "AF_INET6"]}))
  | WOther family => ASockaddr {["sa_family" := getSocketDomain (u32 family)]}
  end.
End denote.

(** ** Round trip *)

Lemma reads_string s : wire_string s → reads readStringFromBuff (enc_string s) s.
Proof.
  intros Hs rest. unfold wire_string in Hs. unfold enc_string, readStringFromBuff.
  set (n := Z.of_nat (String.length s)).
  assert (0 < n ≤ 4096)%Z as Hn by lia.
  unfold bind. rewrite <- app_assoc, reads_i32 by lia.
  destruct (Z.eqb_spec (n + 1) 0) as [?|_]; [lia|].
  replace (n + 1 - 1)%Z with n by lia.
  assert (i32 n = n) as -> by (apply (sext_small 32); lia).
  unfold readByteSliceFromBuff. destruct (Z.ltb_spec 0 n) as [_|?]; [|lia].
  assert (Z.to_nat (Z.min n MaxStringLen) = List.length (bytes_of s)) as ->.
  { unfold MaxStringLen. rewrite Z.min_l by lia. rewrite bytes_of_length. lia. }
  rewrite <- app_assoc, reads_bytes. simpl.
  rewrite (String.string_of_list_ascii_of_string s). f_equal.
Qed.

Lemma string_array_loop l ss fuel :
  Forall wire_string l → List.length l < fuel → ∀ rest,
  bind readArgTypeFromBuff (λ et, read_strings fuel et ss)
       ((l ≫= λ s, le_bytes 1 strT ++ enc_string s) ++ le_bytes 1 strArrT ++ rest) =
  (Some (ss ++ l), rest).
Proof.
  revert ss fuel. induction l as [|s l IH]; intros ss fuel Hl Hf rest.
  - destruct fuel as [|fuel]; [simpl in Hf; lia|]. cbn [mbind list_bind app].
    unfold bind. rewrite (reads_u8 strArrT) by (unfold strArrT; lia). simpl.
    by rewrite app_nil_r.
  - apply list.Forall_cons in Hl as [Hs Hl]. destruct fuel as [|fuel]; [simpl in Hf; lia|].
    rewrite bind_cons, <- !app_assoc. unfold bind at 1.
    rewrite (reads_u8 strT) by (unfold strT; lia).
    cbn [read_strings]. change (strT =? strArrT)%Z with false. cbv iota.
    unfold bind at 1. rewrite (reads_string s Hs).
    etransitivity; [apply (IH (ss ++ [s]) fuel Hl); simpl in Hf; lia|]. by rewrite <- app_assoc.
Qed.

Lemma enc_strings_length l :
  List.length l ≤ List.length (l ≫= λ s, le_bytes 1 strT ++ enc_string s).
Proof.
  induction l as [|s l IH]; [done|]. rewrite bind_cons, !length_app, le_bytes_length.
  cbn [List.length]. lia.
Qed.

(** The loop as [readArgFromBuff] runs it, with fuel for the bytes left *)
Lemma read_string_array l rest :
  Forall wire_string l →
  bind readArgTypeFromBuff
    (λ et b, rmap AStrings (read_strings (S (List.length b)) et []) b)
    ((l ≫= λ s, le_bytes 1 strT ++ enc_string s) ++ le_bytes 1 strArrT ++ rest) =
  (Some (AStrings l), rest).
Proof.
  intros Hl.
  pose proof (λ fuel Hf, string_array_loop l [] fuel Hl Hf rest) as Hloop.
  unfold bind in Hloop |- *.
  set (buf := (l ≫= _) ++ le_bytes 1 strArrT ++ rest) in *.
  assert (List.length l < List.length buf) as Hlen.
  { unfold buf. rewrite !length_app, le_bytes_length. pose proof (enc_strings_length l). lia. }
  destruct (readArgTypeFromBuff buf) as [[et|] b'] eqn:E.
  + unfold rmap, bind. specialize (Hloop (S (List.length b'))).
    cbv beta iota in Hloop |- *. rewrite Hloop; [done|].
    assert (List.length buf = S (List.length b')) as Hb.
    { unfold readArgTypeFromBuff, rmap, bind, read_bytes in E. case_bool_decide; [|done].
      unfold ok in E. simplify_eq. rewrite length_drop. lia. }
    lia.
  + by specialize (Hloop (S (List.length l)) ltac:(lia)).
Qed.

Lemma until_nul_app l n : nul_free l → until_nul (l ++ replicate (S n) nul) = Some l.
Proof.
  unfold nul_free. induction l as [|c l IH]; simpl; intros Hl; [done|].
  apply not_elem_of_cons in Hl as [Hc Hl]. rewrite decide_False by congruence.
  change (nul :: replicate n nul) with (replicate (S n) nul). by rewrite IH.
Qed.

Lemma reads_sockaddr w :
  match w with WUnix _ | WInet _ _ | WInet6 _ _ _ _ | WOther _ => True | _ => False end →
  wf_wire w → ∀ enc, encode w = (le_bytes 1 sockAddrT ++ enc) ++ unread w →
  ∃ m, denote ∅ w = ASockaddr m ∧ reads readSockaddrFromBuff enc m.
Proof.
  intros Hk Hw enc Henc.
  destruct w as [| | | | | | | |path|port addr|port flow addr scope|family]; try done;
    cbn [encode unread] in Henc; rewrite ?app_nil_r, <- ?app_assoc in Henc;
    apply app_inv_head in Henc; rewrite ?app_assoc in Henc; try apply app_inv_tail in Henc;
    subst enc; rewrite <- ?app_assoc; simpl in Hw; eexists; (split; [done|]);
    unfold readSockaddrFromBuff.
  - destruct Hw as [Hl Hn]. eapply reads_bind; [by apply reads_i16|]. cbn [Z.eqb Pos.eqb].
    rewrite <- (app_nil_r (bytes_of path ++ _)). eapply reads_bind.
    + apply reads_bytes_n. rewrite length_app, length_replicate, bytes_of_length. lia.
    + replace (108 - String.length path) with (S (107 - String.length path)) by lia.
      rewrite until_nul_app by done. simpl.
      rewrite (String.string_of_list_ascii_of_string path). apply reads_ok.
  - destruct Hw as [Hp Ha]. eapply reads_bind; [by apply reads_i16|]. cbn [Z.eqb Pos.eqb].
    eapply reads_bind; [by apply reads_be|]. eapply reads_bind; [by apply reads_be|].
    rewrite <- (app_nil_r (replicate 8 nul)).
    eapply reads_bind; [by apply (reads_bytes_n 8)|]. apply reads_ok.
  - destruct Hw as (Hp & Hf & Ha & _). eapply reads_bind; [by apply reads_i16|]. cbn [Z.eqb Pos.eqb].
    eapply reads_bind; [by apply reads_be|]. eapply reads_bind; [by apply reads_be|].
    rewrite <- (app_nil_r addr) at 1.
    eapply reads_bind; [by apply (reads_bytes_n 16)|]. apply reads_ok.
  - destruct Hw as [Hf Hne]. rewrite <- (app_nil_r (le_bytes 2 family)).
    eapply reads_bind; [by apply reads_i16|].
    destruct (Z.eqb_spec family 1); [set_solver|]. destruct (Z.eqb_spec family 2); [set_solver|].
    destruct (Z.eqb_spec family 10); [set_solver|]. apply reads_ok.
Qed.

Definition wire_type (w : wire) : Z :=
  match w with
  | WInt _ => intT | WStr _ => strT | WStrs _ => strArrT | WCap _ => capT
  | WSyscall _ => syscallT | WFlags t _ => t | WUdp _ => udpMsg | WQtype _ => qtype
  | WUnix _ | WInet _ _ | WInet6 _ _ _ _ | WOther _ => sockAddrT
  end.

(** One argument: the type byte, then its reader. *)
Lemma reads_arg syscalls w :
  wf_wire w →
  ∃ enc, encode w = enc ++ unread w ∧ reads (readArgFromBuff syscalls) enc (denote syscalls w).
Proof.
  intros Hw.
  assert (∃ enc, encode w = (le_bytes 1 (wire_type w) ++ enc) ++ unread w) as [enc Henc].
  { destruct w; cbn [encode wire_type unread]; try (by eexists; rewrite app_nil_r).
    eexists. rewrite <- app_assoc. f_equal. by rewrite !app_assoc. }
  eexists. split; [exact Henc|]. unfold readArgFromBuff.
  destruct w as [z|s|l|z|z|t z|s|z|path|port addr|port flow addr scope|family] eqn:Ew;
    try (match type of Ew with _ = ?w' =>
      destruct (reads_sockaddr w' ltac:(done) Hw _ Henc) as (m & Hd & Hm) end;
      eapply reads_bind; [by apply reads_u8|];
      match goal with |- reads _ _ ?d => replace d with (ASockaddr m) by (by rewrite <- Hd) end;
      by apply (reads_map ASockaddr)); cbn [wf_wire encode denote wire_type] in Hw |- *;
    cbn [encode wire_type unread] in Henc; rewrite app_nil_r in Henc;
    apply app_inv_head in Henc as <-.
  - eapply reads_bind; [by apply reads_u8|]. by apply (reads_map AInt32), reads_i32.
  - eapply reads_bind; [by apply reads_u8|]. by apply (reads_map AString), reads_string.
  - eapply reads_bind; [by apply reads_u8|]. intros rest.
    change (strArrT =? intT)%Z with false. change (strArrT =? strT)%Z with false.
    change (strArrT =? strArrT)%Z with true. cbv iota. rewrite <- app_assoc. by apply read_string_array.
  - eapply reads_bind; [by apply reads_u8|].
    by apply (reads_map (AString ∘ getCapabilityName)), reads_i32.
  - eapply reads_bind; [by apply reads_u8|].
    by apply (reads_map (AString ∘ GetSyscallName syscalls)), reads_i32.
  - destruct Hw as [Ht Hz].
    repeat (apply elem_of_cons in Ht as [->|Ht];
      [eapply reads_bind; [by apply reads_u8|];
       match goal with |- context [flag_name ?t] =>
         apply (reads_map (AString ∘ flag_name t)), reads_u32, Hz end|]).
    by apply not_elem_of_nil in Ht.
  - eapply reads_bind; [by apply reads_u8|]. by apply (reads_map AString), reads_string.
  - eapply reads_bind; [by apply reads_u8|]. by apply (reads_map AUint16), reads_be.
Qed.

Lemma read_arg_encoded syscalls w rest :
  wf_wire w →
  readArgFromBuff syscalls (encode w ++ rest) = (Some (denote syscalls w), unread w ++ rest).
Proof. intros Hw. destruct (reads_arg syscalls w Hw) as (enc & -> & H). by rewrite <- app_assoc. Qed.

Lemma left_over_cons w w' ws : left_over (w :: w' :: ws) = left_over (w' :: ws).
Proof. done. Qed.

Lemma read_args_encoded syscalls ws args rest :
  Forall wf_wire ws → address_last ws →
  read_args syscalls (List.length ws) args ((ws ≫= encode) ++ rest) =
  (Some (args ++ (denote syscalls <$> ws)), left_over ws ++ rest).
Proof.
  revert args. induction ws as [|w ws IH]; intros args Hws Hl.
  - simpl. by rewrite app_nil_r.
  - apply list.Forall_cons in Hws as [Hw Hws]. rewrite bind_cons, <- app_assoc. simpl read_args.
    unfold bind. rewrite read_arg_encoded by done.
    destruct ws as [|w' ws]; [done|].
    apply list.Forall_cons in Hl as [-> Hl]. cbn [app].
    etransitivity; [by apply (IH (args ++ [denote syscalls w]))|].
    by rewrite left_over_cons, <- app_assoc.
Qed.


(** ** Empty strings *)

Lemma read_empty rest : (readStringFromBuff (enc_string "" ++ rest)).1 = None.
Proof.
  unfold readStringFromBuff, enc_string, bind. rewrite <- app_assoc, reads_i32 by done.
  change (Z.of_nat (String.length "") + 1)%Z with 1%Z. cbn [Z.eqb Pos.eqb].
  change (i32 (1 - 1)) with 0%Z. done.
Qed.

Lemma bind_None {A B} (m : reader A) (f : A → reader B) b :
  (m b).1 = None → (bind m f b).1 = None.
Proof. unfold bind. destruct (m b) as [[a|] b']; [done|done]. Qed.

Lemma read_empty_element l ss rest fuel :
  Forall wire_string l →
  (bind readArgTypeFromBuff (λ et, read_strings fuel et ss)
    ((l ≫= λ s, le_bytes 1 strT ++ enc_string s) ++
      le_bytes 1 strT ++ enc_string "" ++ rest)).1 = None.
Proof.
  revert ss fuel. induction l as [|s l IH]; intros ss fuel Hl.
  - cbn [mbind list_bind app]. unfold bind at 1. rewrite (reads_u8 strT) by (unfold strT; lia).
    destruct fuel as [|fuel]; [done|]. cbn [read_strings].
    change (strT =? strArrT)%Z with false. cbv iota. apply bind_None, read_empty.
  - apply list.Forall_cons in Hl as [Hs Hl]. rewrite bind_cons, <- !app_assoc.
    unfold bind at 1. rewrite (reads_u8 strT) by (unfold strT; lia).
    destruct fuel as [|fuel]; [done|]. cbn [read_strings].
    change (strT =? strArrT)%Z with false. cbv iota. unfold bind at 1.
    rewrite (reads_string s Hs). apply (IH (ss ++ [s]) fuel Hl).
Qed.

(** An argument with an empty string in it, after good elements. *)
Definition has_empty (w : wire) : Prop :=
  w = WStr "" ∨ w = WUdp "" ∨
  ∃ l l', w = WStrs (l ++ "" :: l') ∧ Forall wire_string l.

Lemma read_has_empty syscalls w rest :
  has_empty w → (readArgFromBuff syscalls (encode w ++ rest)).1 = None.
Proof.
  intros [->|[->|(l & l' & -> & Hl)]]; unfold readArgFromBuff, encode; rewrite <- app_assoc;
    unfold bind at 1.
  - rewrite (reads_u8 strT) by (unfold strT; lia). apply bind_None, read_empty.
  - rewrite (reads_u8 udpMsg) by (unfold udpMsg; lia). apply bind_None, read_empty.
  - rewrite (reads_u8 strArrT) by (unfold strArrT; lia).
    change (strArrT =? intT)%Z with false. change (strArrT =? strT)%Z with false.
    change (strArrT =? strArrT)%Z with true. cbv iota.
    rewrite bind_app, bind_cons, <- !app_assoc.
    match goal with |- (bind _ _ ?b).1 = _ => set (buf := b) end.
    assert (∀ fuel, (bind readArgTypeFromBuff (λ et, read_strings fuel et []) buf).1 = None) as H.
    { intros fuel. unfold buf. apply read_empty_element, Hl. }
    unfold bind in H |- *. destruct (readArgTypeFromBuff buf) as [[et|] b']; [|done].
    unfold rmap, bind. specialize (H (S (List.length b'))). cbv beta iota in H |- *.
    by destruct (read_strings _ _ _ _) as [[?|] ?].
Qed.

(** An empty string among the arguments, such as an empty element of the argument
    vector of an [execve], makes [GetArgs] fail, so the caller drops the event: the
    kernel program writes size 1 for it (the final NUL), and the parser takes the
    remaining length 0 for an error; only size 0 would read as the empty string. *)
Theorem GetArgs_empty_string syscalls ws w rest n :
  Forall wf_wire ws → Forall (λ v, unread v = []) ws → has_empty w → List.length ws < n →
  (GetArgs syscalls (Z.of_nat n) ((ws ≫= encode) ++ encode w ++ rest)).1 = None.
Proof.
  intros Hws Hu Hw. unfold GetArgs. rewrite Nat2Z.id. generalize (@nil Arg).
  revert n. induction ws as [|v ws IH]; intros n args Hn; (destruct n as [|n]; [simpl in Hn; lia|]).
  - cbn [mbind list_bind app read_args]. by apply bind_None, read_has_empty.
  - apply list.Forall_cons in Hws as [Hv Hws]. rewrite bind_cons, <- app_assoc.
    apply list.Forall_cons in Hu as [Hu0 Hu].
    cbn [read_args]. unfold bind at 1. rewrite (read_arg_encoded syscalls v _ Hv), Hu0.
    apply IH; [done..|]. simpl in Hn. lia.
Qed.

(** ** Bounds *)

(** A reader only drops bytes from the front of the buffer. *)
Definition advances {A} (m : reader A) : Prop := ∀ b, ∃ used, b = used ++ (m b).2.

Lemma advances_ok {A} (a : A) : advances (ok a).
Proof. intros b. by exists []. Qed.
Lemma advances_fail {A} : advances (@fail A).
Proof. intros b. by exists []. Qed.
Lemma advances_bytes n : advances (read_bytes n).
Proof.
  intros b. unfold read_bytes. case_bool_decide; simpl.
  - exists (take n b). by rewrite take_drop.
  - exists b. by rewrite app_nil_r.
Qed.
Lemma advances_bind {A B} (m : reader A) (f : A → reader B) :
  advances m → (∀ a, advances (f a)) → advances (bind m f).
Proof.
  intros Hm Hf b. destruct (Hm b) as [u Hu]. unfold bind. destruct (m b) as [[a|] b']; simpl in Hu.
  - destruct (Hf a b') as [u' Hu']. exists (u ++ u'). by rewrite <- app_assoc, <- Hu'.
  - by exists u.
Qed.
Lemma advances_map {A B} (f : A → B) m : advances m → advances (rmap f m).
Proof. intros Hm. apply advances_bind; [done|]. intros. apply advances_ok. Qed.
Lemma advances_slice len : advances (readByteSliceFromBuff len).
Proof. unfold readByteSliceFromBuff. case_bool; [apply advances_bytes|apply advances_fail]. Qed.

Create HintDb reader.
#[local] Hint Resolve advances_ok advances_fail advances_bytes advances_bind advances_map
  advances_slice : reader.
#[local] Hint Extern 1 (advances (if ?b then _ else _)) => destruct b : reader.
#[local] Hint Extern 1 (advances readInt8FromBuff) => unfold readInt8FromBuff : reader.
#[local] Hint Extern 1 (advances readInt16FromBuff) => unfold readInt16FromBuff : reader.
#[local] Hint Extern 1 (advances readInt32FromBuff) => unfold readInt32FromBuff : reader.
#[local] Hint Extern 1 (advances readUInt32FromBuff) => unfold readUInt32FromBuff : reader.
#[local] Hint Extern 1 (advances readArgTypeFromBuff) => unfold readArgTypeFromBuff : reader.
#[local] Hint Extern 1 (advances readUInt16BigendFromBuff) =>
  unfold readUInt16BigendFromBuff : reader.
#[local] Hint Extern 1 (advances readUInt32BigendFromBuff) =>
  unfold readUInt32BigendFromBuff : reader.

Lemma advances_string : advances readStringFromBuff.
Proof.
  unfold readStringFromBuff. apply advances_bind; [auto with reader|]. intros size.
  destruct (size =? 0)%Z; [auto with reader|]. intros b.
  destruct (advances_slice (i32 (size - 1)) b) as [u Hu].
  destruct (readByteSliceFromBuff _ b) as [res b'].
  assert (advances readInt8FromBuff) as H by auto with reader.
  destruct (H b') as [u' Hu']. exists (u ++ u'). simpl in *. by rewrite <- app_assoc, <- Hu'.
Qed.
#[local] Hint Resolve advances_string : reader.

Lemma advances_strings fuel et ss : advances (read_strings fuel et ss).
Proof. revert et ss. induction fuel; intros et ss; simpl; auto 10 with reader. Qed.

Lemma advances_sockaddr : advances readSockaddrFromBuff.
Proof. unfold readSockaddrFromBuff. auto 20 with reader. Qed.
#[local] Hint Resolve advances_strings advances_sockaddr : reader.

Lemma advances_arg syscalls : advances (readArgFromBuff syscalls).
Proof.
  unfold readArgFromBuff. apply advances_bind; [auto with reader|]. intros at_.
  repeat match goal with |- advances (if ?b then _ else _) => destruct b end;
    try (by auto 10 with reader).
  apply advances_bind; [auto with reader|]. intros et b.
  by apply (advances_map AStrings _ (advances_strings (S (List.length b)) et [])).
Qed.

Lemma read_strings_fuel et ss b f1 f2 :
  List.length b < f1 → List.length b < f2 →
  read_strings f1 et ss b = read_strings f2 et ss b.
Proof.
  revert et ss b f2. induction f1 as [|f1 IH]; intros et ss b f2 H1 H2; [lia|].
  destruct f2 as [|f2]; [lia|]. simpl. destruct (et =? strArrT)%Z; [done|].
  unfold bind. destruct (readStringFromBuff b) as [[s|] b1] eqn:Es; [|done].
  destruct (advances_string b) as [u Hu]. rewrite Es in Hu. simpl in Hu.
  destruct (readArgTypeFromBuff b1) as [[et'|] b2] eqn:Et; [|done].
  unfold readArgTypeFromBuff, rmap, bind, read_bytes in Et. case_bool_decide; [|done].
  unfold ok in Et. simplify_eq. rewrite length_app in *.
  apply IH; rewrite length_drop; lia.
Qed.

(** C40: The parser is safe on any buffer, well-formed or not: it drops bytes from the
    front of the buffer and nothing else; a string never has more than 4096 bytes,
    whatever size the buffer claims; and the loop over a string array ends, since
    every element consumes bytes: any fuel above the number of unread bytes gives
    the same outcome. *)
Theorem parser_safe syscalls n b :
  (∃ used, b = used ++ (GetArgs syscalls n b).2) ∧
  (∀ s, (readStringFromBuff b).1 = Some s → String.length s ≤ 4096) ∧
  (∀ et ss fuel, List.length b < fuel →
     read_strings fuel et ss b = read_strings (S (List.length b)) et ss b).
Proof.
  split_and!.
  - unfold GetArgs.
    assert (∀ k args, advances (read_args syscalls k args)) as H; [|apply H].
    induction k as [|k IH]; intros args; simpl; [apply advances_ok|].
    apply advances_bind; [apply advances_arg|]. intros. apply IH.
  - intros s. unfold readStringFromBuff, bind.
    destruct (readInt32FromBuff b) as [[size|] b1]; [|done].
    destruct (size =? 0)%Z; simpl; [by intros [= <-]; simpl; lia|].
    unfold readByteSliceFromBuff. destruct (0 <? _)%Z; [|done].
    unfold read_bytes. case_bool_decide; [|done]. simpl. intros [= <-].
    rewrite <- bytes_of_length, String.list_ascii_of_string_of_list_ascii, length_take.
    unfold MaxStringLen. lia.
  - intros et ss fuel Hf. apply read_strings_fuel; lia.
Qed.

(** ** Capability codes *)

(** The rule generator's capability codes and the names in reported events are
    inverse to each other: where the [unix] constants are the kernel's numbers, a
    rule on a capability that events can name has the code that events carry.
    The rule names without an event name are [CAP_PERFMON] and [CAP_BPF]. *)
Theorem CapToCode_names unix :
  (∀ code name, Capabilities !! code = Some name → unix name = code) →
  (∀ code name, Capabilities !! code = Some name → CapToCode unix !! name = Some code) ∧
  (∀ name, name ∈ capNames →
     (∃ code, Capabilities !! code = Some name) ∨ name = "CAP_PERFMON" ∨ name = "CAP_BPF").
Proof.
  intros Hu.
  assert (Forall (λ kv : Z * string, kv.2 ∈ capNames ∧ (0 ≤ kv.1 < 256)%Z)
            (map_to_list Capabilities)) as Hall.
  { apply (bool_decide_unpack _). vm_compute. exact I. }
  split.
  - intros code name Hc.
    destruct (Forall_elem _ _ (code, name) Hall) as [Hin Hr];
      [by apply elem_of_map_to_list|]. simpl in Hin, Hr.
    unfold CapToCode.
    apply elem_of_list_to_map_1'.
    + intros y (n & Heq & _)%list_elem_of_fmap. simplify_eq. rewrite (Hu code n Hc).
      unfold u8. by rewrite Z.mod_small by lia.
    + apply list_elem_of_fmap. exists name. split; [|done]. rewrite (Hu code name Hc).
      unfold u8. by rewrite Z.mod_small by lia.
  - intros name Hin.
    assert (Forall (λ n, n ∈ "CAP_PERFMON" :: "CAP_BPF" :: (map_to_list Capabilities).*2) capNames)
      as Hb by (apply (bool_decide_unpack _); vm_compute; exact I).
    apply (Forall_elem _ _ name Hb) in Hin.
    apply elem_of_cons in Hin as [->|[->|Hin]%elem_of_cons]; [by right; left|by right; right|].
    apply list_elem_of_fmap in Hin as ([code n] & -> & Hkv). left. exists code.
    by apply elem_of_map_to_list.
Qed.

(** ** Witnesses *)

Definition sample_wires : list wire :=
  [WInt (-1); WStrs ["ls"; "-l"]; WFlags openFlagsT 65; WInet 80 2130706433;
   WUnix "/run/x.sock"; WInet6 443 0 (replicate 15 nul ++ [byte_of 1]) 2].

Lemma sample_wires_wf : Forall wf_wire sample_wires.
Proof.
  unfold sample_wires. repeat apply list.Forall_cons_2; [..|apply list.Forall_nil_2]; simpl;
    unfold int32, uint32, uint16, wire_string; try (simpl; lia).
  - repeat apply list.Forall_cons_2; [..|apply list.Forall_nil_2]; simpl; lia.
  - split; [|lia]. apply (bool_decide_unpack _). vm_compute. exact I.
  - split; [lia|]. apply (bool_decide_unpack _). vm_compute. exact I.
Qed.

Lemma sample_address_last : address_last sample_wires.
Proof. unfold address_last. apply (bool_decide_unpack _). vm_compute. exact I. Qed.


Lemma GetArgs_empty_string_witness :
  (GetArgs ∅ 1 (([] ≫= encode) ++ encode (WStrs ["sh"; "-c"; ""]) ++ [])).1 = None.
Proof.
  apply (GetArgs_empty_string ∅ [] (WStrs (["sh"; "-c"] ++ "" :: [])) [] 1).
  - apply list.Forall_nil_2.
  - apply list.Forall_nil_2.
  - right; right. exists ["sh"; "-c"], []. split; [done|].
    repeat apply list.Forall_cons_2; [..|apply list.Forall_nil_2]; unfold wire_string; simpl; lia.
  - simpl. lia.
Defined.

(** The kernel's numbers. *)
Definition kernel_caps (name : string) : Z :=
  default 0%Z ((list_to_map (M:=gmap string Z)
    ((λ kv : Z * string, (kv.2, kv.1)) <$> map_to_list Capabilities)) !! name).

Lemma CapToCode_names_witness : CapToCode kernel_caps !! "CAP_NET_RAW" = Some 13%Z.
Proof.
  apply (proj1 (CapToCode_names kernel_caps ltac:(
    intros code name Hc;
    assert (Forall (λ kv : Z * string, kernel_caps kv.2 = kv.1) (map_to_list Capabilities)) as Hall
      by (apply (bool_decide_unpack _); vm_compute; exact I);
    exact (Forall_elem _ _ (code, name) Hall (proj2 (elem_of_map_to_list _ _ _) Hc))))).
  reflexivity.
Defined.
