(* ===== verification/AlertThrottle.v ===== *)
(** Alert throttling per container
    ([KubeArmor/feeder/feeder.go], [ShouldDropAlertsPerContainer] and
    [DeleteAlertMapKey]).

    Timestamps and counters are [uint64] and wrap; the two settings are [int32]
    and are converted to [uint64] by the code. *)
From Stdlib Require Import Sorted.
From S2P Require Import Prelude Types.

Open Scope Z_scope.

(** [OuterKey] of feeder.go: the two namespace identifiers of a container. *)
Record OuterKey := { ok_PidNs : Z; ok_MntNs : Z }.

#[export] Instance OuterKey_eq_dec : EqDecision OuterKey.
Proof. solve_decision. Defined.
#[export] Instance OuterKey_countable : Countable OuterKey.
Proof.
  refine (inj_countable' (λ k, (ok_PidNs k, ok_MntNs k))
                         (λ p, {| ok_PidNs := p.1; ok_MntNs := p.2 |}) _).
  by intros [].
Defined.

Record AlertThrottleState := {
  ts_FirstEventTimestamp : Z; ts_EventCount : Z; ts_Throttle : bool }.

(** A nil [AlertMap] is the empty map: the code creates it before it writes. *)
Abbreviation AlertMap := (gmap OuterKey AlertThrottleState).

Section throttle.
Context (ThrottleSec MaxAlertPerSec : Z).

Definition one_second : Z := 1000000000.

(** [uint64(cfg.GlobalCfg.ThrottleSec) * 1000000000] and [maxAlertPerSec] *)
Definition throttleSec : Z := u64 (u64 ThrottleSec * one_second).
Definition maxAlertPerSec : Z := u64 MaxAlertPerSec.

(** The state of one key: what a call at [now] answers (drop, already throttled)
    and what it stores. *)
Definition throttle_step (now : Z) (st : option AlertThrottleState)
    : AlertThrottleState * (bool * bool) :=
  match st with
  | None =>
      ({| ts_FirstEventTimestamp := now; ts_EventCount := 1; ts_Throttle := false |},
       (false, false))
  | Some state =>
      let timeDifference := u64 (now - ts_FirstEventTimestamp state) in
      if ts_Throttle state && (timeDifference <? throttleSec) then (state, (true, true))
      else
        let state1 :=
          if one_second <=? timeDifference then
            {| ts_FirstEventTimestamp := now; ts_EventCount := 1; ts_Throttle := false |}
          else
            {| ts_FirstEventTimestamp := ts_FirstEventTimestamp state;
               ts_EventCount := u64 (ts_EventCount state + 1);
               ts_Throttle := ts_Throttle state |} in
        if maxAlertPerSec <? ts_EventCount state1 then
          ({| ts_FirstEventTimestamp := ts_FirstEventTimestamp state1;
              ts_EventCount := 0; ts_Throttle := true |}, (true, false))
        else (state1, (false, false))
  end.

Definition ShouldDropAlertsPerContainer (currentTimestamp pidNs mntNs : Z) (m : AlertMap)
    : AlertMap * (bool * bool) :=
  let key := {| ok_PidNs := pidNs; ok_MntNs := mntNs |} in
  let '(state, answer) := throttle_step currentTimestamp (m !! key) in
  (<[key := state]> m, answer).

Definition DeleteAlertMapKey (outkey : OuterKey) (m : AlertMap) : AlertMap :=
  delete outkey m.

(** ** Sequences of alerts *)

(** An alert of a container, or the removal of one. *)
Inductive event := Alert (key : OuterKey) (now : Z) | Deleted (key : OuterKey).

Definition key_of (e : event) : OuterKey :=
  match e with Alert k _ => k | Deleted k => k end.

(** The alerts that pass, in order. *)
Fixpoint passed (m : AlertMap) (l : list event) : list (OuterKey * Z) :=
  match l with
  | [] => []
  | Alert k now :: l' =>
      let '(m', (drop, _)) := ShouldDropAlertsPerContainer now (ok_PidNs k) (ok_MntNs k) m in
      (if drop : bool then [] else [(k, now)]) ++ passed m' l'
  | Deleted k :: l' => passed (DeleteAlertMapKey k m) l'
  end.

(** The same for one container. *)
Fixpoint passed1 (st : option AlertThrottleState) (l : list Z) : list Z :=
  match l with
  | [] => []
  | now :: l' =>
      let '(st', (drop, _)) := throttle_step now st in
      (if drop : bool then [] else [now]) ++ passed1 (Some st') l'
  end.
End throttle.

(** The times of the alerts of one container. *)
Definition times (k : OuterKey) (l : list event) : list Z :=
  omap (λ e, match e with
             | Alert k' now => if decide (k' = k) then Some now else None
             | Deleted _ => None
             end) l.

(** Alerts of [l] in the second that starts at [t]. *)
Definition in_second (t : Z) (l : list Z) : nat :=
  length (filter (λ x, t ≤ x < t + one_second) l).

(** The map after a sequence of events. *)
Definition after (T M : Z) (m : AlertMap) (l : list event) : AlertMap :=
  foldl (λ m e, match e with
                | Alert k now =>
                    (ShouldDropAlertsPerContainer T M now (ok_PidNs k) (ok_MntNs k) m).1
                | Deleted k => DeleteAlertMapKey k m
                end) m l.

(** A clock reading is a [uint64]. *)
Definition clock (x : Z) : Prop := 0 ≤ x < 2 ^ 64.

(** The states that occur, at a time not before [x]. *)
Definition valid (M x : Z) (st : AlertThrottleState) : Prop :=
  0 ≤ ts_FirstEventTimestamp st ≤ x ∧
  (if ts_Throttle st then ts_EventCount st = 0 else 1 ≤ ts_EventCount st ≤ M).

(** The alerts of the current window that may still pass. *)
Definition rest (M : Z) (st : AlertThrottleState) : Z :=
  if ts_Throttle st then 0 else M - ts_EventCount st.

(** The four regimes of a container whose state is valid: throttled, a new
    window, one more alert of the window, the alert that starts throttling. *)
Variant regime (T M x : Z) (st : AlertThrottleState)
    : AlertThrottleState * (bool * bool) → Prop :=
| RDropped : ts_Throttle st = true → x < ts_FirstEventTimestamp st + T * one_second →
    regime T M x st (st, (true, true))
| RReset : ts_FirstEventTimestamp st + one_second ≤ x →
    (ts_Throttle st = true → ts_FirstEventTimestamp st + T * one_second ≤ x) →
    regime T M x st
      ({| ts_FirstEventTimestamp := x; ts_EventCount := 1; ts_Throttle := false |},
       (false, false))
| RCount : ts_Throttle st = false → x < ts_FirstEventTimestamp st + one_second →
    ts_EventCount st < M →
    regime T M x st
      ({| ts_FirstEventTimestamp := ts_FirstEventTimestamp st;
          ts_EventCount := ts_EventCount st + 1; ts_Throttle := false |}, (false, false))
| RStart : ts_Throttle st = false → x < ts_FirstEventTimestamp st + one_second →
    ts_EventCount st = M →
    regime T M x st
      ({| ts_FirstEventTimestamp := ts_FirstEventTimestamp st;
          ts_EventCount := 0; ts_Throttle := true |}, (true, false)).

(** ** One container at a time *)

Lemma ShouldDrop_eq T M now k m :
  ShouldDropAlertsPerContainer T M now (ok_PidNs k) (ok_MntNs k) m =
  (<[k := (throttle_step T M now (m !! k)).1]> m, (throttle_step T M now (m !! k)).2).
Proof.
  unfold ShouldDropAlertsPerContainer. destruct k as [p n]. cbn [ok_PidNs ok_MntNs].
  by destruct (throttle_step T M now _).
Qed.

(** Containers are throttled independently of each other. *)
Lemma passed_alone T M k l m :
  Forall (λ e, e ≠ Deleted k) l →
  (filter (λ p, p.1 = k) (passed T M m l)).*2 = passed1 T M (m !! k) (times k l).
Proof.
  revert m. induction l as [|e l IH]; intros m Hl; [done|].
  apply list.Forall_cons in Hl as [He Hl]. destruct e as [k' now|k']; cbn [passed].
  - rewrite ShouldDrop_eq. destruct (throttle_step T M now (m !! k')) as [st [drop o]] eqn:E.
    cbn [fst snd]. rewrite list.filter_app, fmap_app, IH by done.
    unfold times; cbn [omap list_omap]. fold (times k l).
    destruct (decide (k' = k)) as [->|Hk].
    + cbn [passed1]. rewrite E, lookup_insert_eq. destruct drop; [done|].
      rewrite filter_cons_True by done. done.
    + rewrite lookup_insert_ne by done. destruct drop; [done|].
      rewrite filter_cons_False by done. done.
  - rewrite IH by done. unfold DeleteAlertMapKey. rewrite lookup_delete_ne by congruence.
    done.
Qed.

Lemma after_alone T M k l m :
  Forall (λ e, e ≠ Deleted k) l →
  after T M m l !! k =
  foldl (λ st now, Some (throttle_step T M now st).1) (m !! k) (times k l).
Proof.
  revert m. induction l as [|e l IH]; intros m Hl; [done|].
  apply list.Forall_cons in Hl as [He Hl]. unfold after. cbn [foldl]. fold (after T M).
  destruct e as [k' now|k'].
  - rewrite ShouldDrop_eq. cbn [fst]. change (foldl _ ?m l) with (after T M m l).
    rewrite IH by done. unfold times; cbn [omap list_omap]. fold (times k l).
    destruct (decide (k' = k)) as [->|Hk].
    + by rewrite lookup_insert_eq.
    + by rewrite lookup_insert_ne.
  - change (foldl _ ?m l) with (after T M m l). rewrite IH by done.
    unfold DeleteAlertMapKey. by rewrite lookup_delete_ne by congruence.
Qed.

(** ** The states that occur *)

(** A bound on every element follows from a stronger one. *)
Ltac weaken H :=
  eapply list.Forall_impl; [exact H|]; cbn; intros; unfold one_second in *; lia.

Section bounds.
Context (T M : Z).
Context (HT : 1 ≤ T < 2 ^ 31) (HM : 1 ≤ M < 2 ^ 31).

Lemma throttleSec_eq : throttleSec T = T * one_second.
Proof.
  unfold throttleSec, one_second. rewrite (u64_small T) by lia. apply u64_small. lia.
Qed.

Lemma maxAlertPerSec_eq : maxAlertPerSec M = M.
Proof. unfold maxAlertPerSec. apply u64_small. lia. Qed.

Lemma throttle_step_regime x st :
  clock x → valid M x st → regime T M x st (throttle_step T M x (Some st)).
Proof.
  intros [Hx0 Hx] [HF Hc]. destruct st as [F c thr]. cbn in HF, Hc. cbn.
  rewrite throttleSec_eq, maxAlertPerSec_eq, (u64_small (x - F)) by lia.
  destruct thr; cbn.
  - destruct (Z.ltb_spec (x - F) (T * one_second)) as [Hlt|Hge].
    { apply RDropped; cbn; [done|lia]. }
    unfold one_second in *.
    destruct (Z.leb_spec 1000000000 (x - F)) as [_|]; [|lia]. cbn.
    destruct (Z.ltb_spec M 1); [lia|]. apply RReset; cbn; unfold one_second; lia.
  - destruct (Z.leb_spec one_second (x - F)) as [Hge|Hlt]; cbn.
    { destruct (Z.ltb_spec M 1); [lia|]. apply RReset; cbn; [lia|done]. }
    rewrite u64_small by lia. destruct (Z.ltb_spec M (c + 1)) as [Hgt|Hle].
    + apply RStart; cbn; [done|lia|lia].
    + apply (RCount T M x {| ts_FirstEventTimestamp := F; ts_EventCount := c;
                             ts_Throttle := false |}); cbn; [done|lia|lia].
Qed.

Lemma valid_later x y st : valid M x st → x ≤ y → valid M y st.
Proof. intros [HF Hc] Hxy. split; [lia|done]. Qed.

Lemma valid_step x st :
  clock x → valid M x st → valid M x (throttle_step T M x (Some st)).1.
Proof.
  intros Hx Hv. destruct (throttle_step_regime x st Hx Hv); cbn; [done|..].
  all: destruct Hv as [HF Hc]; split; cbn; [unfold clock in Hx; lia|].
  - lia.
  - rewrite H in Hc. lia.
  - done.
Qed.

Lemma valid_new x : clock x → valid M x (throttle_step T M x None).1.
Proof. intros [? ?]. split; cbn; lia. Qed.

(** [in_second] counts one alert after the other. *)
Lemma in_second_cons t x l :
  Z.of_nat (in_second t (x :: l)) =
  (if decide (t ≤ x < t + one_second) then 1 else 0) + Z.of_nat (in_second t l).
Proof.
  unfold in_second. rewrite filter_cons. destruct (decide _); cbn [length]; lia.
Qed.

(** Nothing is counted after the second. *)
Lemma in_second_over t st l :
  Forall (λ x, t + one_second ≤ x) l → in_second t (passed1 T M st l) = 0%nat.
Proof.
  revert st. induction l as [|x l IH]; intros st Hl; [done|].
  apply list.Forall_cons in Hl as [Hx Hl]. cbn [passed1].
  destruct (throttle_step T M x st) as [st' [drop o]]. specialize (IH (Some st') Hl).
  destruct drop; cbn [app]; [done|]. apply Nat2Z.inj. rewrite in_second_cons, IH.
  rewrite decide_False by lia. done.
Qed.

(** From a time in the second on, the current window gives at most [rest], and
    at most one more window starts in the second. *)
Lemma rate_from_inside t l y st :
  valid M y st → StronglySorted Z.le (y :: l) → Forall clock l →
  Forall (λ x, t ≤ x) l →
  Z.of_nat (in_second t (passed1 T M (Some st) l)) ≤
  rest M st + (if decide (t ≤ ts_FirstEventTimestamp st) then 0 else M).
Proof.
  revert y st. induction l as [|x l IH]; intros y st Hv Hs Hcl Ht.
  { destruct Hv as [HF Hc]. unfold rest. cbn. destruct (ts_Throttle st), (decide _); lia. }
  apply list.Forall_cons in Hcl as [Hx Hcl]. apply list.Forall_cons in Ht as [Htx Ht].
  apply StronglySorted_inv in Hs as [Hs Hy]. apply list.Forall_cons in Hy as [Hyx _].
  apply (valid_later y x) in Hv; [|done].
  destruct (decide (t + one_second ≤ x)) as [Hover|Hin].
  { rewrite in_second_over; [|constructor; [done|]].
    - destruct Hv as [HF Hc]. unfold rest. destruct (ts_Throttle st), (decide _); lia.
    - apply StronglySorted_inv in Hs as [_ Hs]. weaken Hs. }
  pose proof (valid_step x st Hx Hv) as Hv'.
  cbn [passed1]. pose proof (throttle_step_regime x st Hx Hv) as Hr.
  destruct (throttle_step T M x (Some st)) as [st' [drop o]] eqn:E.
  specialize (IH x st' Hv' Hs Hcl Ht). destruct Hv as [HF Hc].
  inversion Hr; subst; cbn [app fst snd] in *; rewrite ?in_second_cons;
    unfold rest in *; cbn [ts_Throttle ts_EventCount ts_FirstEventTimestamp] in *;
    repeat case_decide; repeat case_match; unfold one_second in *; try lia.
Qed.

(** In any second the alerts that pass are those of at most two windows. *)
Lemma rate_sorted t l y st :
  valid M y st → StronglySorted Z.le (y :: l) → Forall clock l →
  Z.of_nat (in_second t (passed1 T M (Some st) l)) ≤ 2 * M - 1.
Proof.
  revert y st. induction l as [|x l IH]; intros y st Hv Hs Hcl; [cbn; lia|].
  destruct (decide (t ≤ x)) as [Ht|Ht].
  - pose proof (rate_from_inside t (x :: l) y st Hv Hs Hcl) as Hr.
    assert (rest M st ≤ M - 1).
    { destruct Hv as [_ Hc]. unfold rest. destruct (ts_Throttle st); lia. }
    enough (Forall (λ z, t ≤ z) (x :: l)) as Hall.
    { specialize (Hr Hall). destruct (decide _); lia. }
    apply StronglySorted_inv in Hs as [Hs _]. apply StronglySorted_inv in Hs as [_ Hs].
    constructor; [done|]. weaken Hs.
  - apply list.Forall_cons in Hcl as [Hx Hcl].
    apply StronglySorted_inv in Hs as [Hs Hy]. apply list.Forall_cons in Hy as [Hyx _].
    apply (valid_later y x) in Hv; [|done]. pose proof (valid_step x st Hx Hv) as Hv'.
    cbn [passed1]. destruct (throttle_step T M x (Some st)) as [st' [drop o]].
    specialize (IH x st' Hv' Hs Hcl). destruct drop; cbn [app]; [done|].
    rewrite in_second_cons, decide_False by lia. lia.
Qed.

(** ** The windows of a stream that stays under the limit *)

Lemma in_second_app t l1 l2 : in_second t (l1 ++ l2) = (in_second t l1 + in_second t l2)%nat.
Proof. unfold in_second. by rewrite list.filter_app, length_app. Qed.

Lemma in_second_none t l :
  Forall (λ x, ¬ t ≤ x < t + one_second) l → in_second t l = 0%nat.
Proof.
  induction 1 as [|x l Hx Hl IH]; [done|]. apply Nat2Z.inj.
  rewrite in_second_cons, decide_False by done. lia.
Qed.

Lemma under_limit_passes h l y st :
  valid M y st → StronglySorted Z.le (y :: l) → Forall clock l →
  ts_Throttle st = false →
  Forall (λ x, x < ts_FirstEventTimestamp st + one_second) h →
  ts_EventCount st = Z.of_nat (in_second (ts_FirstEventTimestamp st) h) →
  (∀ t, Z.of_nat (in_second t (h ++ l)) ≤ M) →
  passed1 T M (Some st) l = l.
Proof.
  revert h y st. induction l as [|x l IH]; intros h y st Hv Hs Hcl Hthr Hh Hc Hlim; [done|].
  apply list.Forall_cons in Hcl as [Hx Hcl].
  apply StronglySorted_inv in Hs as [Hs Hy]. apply list.Forall_cons in Hy as [Hyx _].
  apply (valid_later y x) in Hv; [|done]. pose proof (valid_step x st Hx Hv) as Hv'.
  cbn [passed1]. pose proof (throttle_step_regime x st Hx Hv) as Hr.
  assert (∀ t, Z.of_nat (in_second t ((h ++ [x]) ++ l)) ≤ M) as Hlim'.
  { intros t. rewrite <- app_assoc. apply Hlim. }
  specialize (IH (h ++ [x]) x). destruct Hv as [[HF0 HFx] _].
  destruct (throttle_step T M x (Some st)) as [st' [drop o]]. cbn [fst] in Hv'.
  inversion Hr; subst; [congruence|..]; cbn [app].
  - f_equal. apply IH; [done|done|done|done| | |done]; cbn.
    + apply list.Forall_app; split; [|repeat constructor; unfold one_second; lia].
      weaken Hh.
    + rewrite in_second_app, (in_second_none _ h) by weaken Hh.
      rewrite Nat.add_0_l, in_second_cons, decide_True by (unfold one_second; lia). done.
  - f_equal. apply IH; [done|done|done|done| | |done]; cbn.
    + apply list.Forall_app; split; [done|repeat constructor; lia].
    + rewrite in_second_app, Nat2Z.inj_add, in_second_cons, decide_True by lia.
      rewrite Hc. cbn. lia.
  - specialize (Hlim' (ts_FirstEventTimestamp st)).
    rewrite !in_second_app, !Nat2Z.inj_add, in_second_cons, decide_True in Hlim' by lia.
    lia.
Qed.
End bounds.

(** The state of a container after a sequence of its alerts. *)
Lemma reachable_valid T M l y now st :
  1 ≤ T < 2 ^ 31 → 1 ≤ M < 2 ^ 31 →
  valid M y st → StronglySorted Z.le (y :: l) → Forall clock l →
  Forall (λ x, x ≤ now) l → y ≤ now →
  ∃ st', foldl (λ st x, Some (throttle_step T M x st).1) (Some st) l = Some st' ∧
         valid M now st'.
Proof.
  intros HT HM. revert y st. induction l as [|x l IH]; intros y st Hv Hs Hcl Hn Hy; cbn [foldl].
  { exists st. split; [done|]. by apply (valid_later M y). }
  apply list.Forall_cons in Hcl as [Hx Hcl]. apply list.Forall_cons in Hn as [Hxn Hn].
  apply StronglySorted_inv in Hs as [Hs Hy']. apply list.Forall_cons in Hy' as [Hyx _].
  apply (IH x); [|done..]. apply valid_step; [done..|]. by apply (valid_later M y).
Qed.

Lemma after_valid T M k l now st :
  1 ≤ T < 2 ^ 31 → 1 ≤ M < 2 ^ 31 →
  Forall (λ e, e ≠ Deleted k) l →
  StronglySorted Z.le (times k l) → Forall clock (times k l) →
  Forall (λ x, x ≤ now) (times k l) →
  after T M ∅ l !! k = Some st → valid M now st.
Proof.
  intros HT HM Hd Hs Hcl Hn. rewrite after_alone, lookup_empty by done.
  destruct (times k l) as [|x l']; [done|]. cbn [foldl].
  apply list.Forall_cons in Hcl as [Hx Hcl]. apply list.Forall_cons in Hn as [Hxn Hn].
  destruct (reachable_valid T M l' x now _ HT HM (valid_new T M HM x Hx) Hs Hcl Hn Hxn)
    as (st' & E & Hv).
  intros E'. rewrite E in E'. by simplify_eq.
Qed.

(** * Properties *)

(** C35: rate limit.  With a positive limit [M] and period [T], whatever alerts of
    other containers are interleaved, at most [2 * M - 1] alerts of a container pass
    in any second (the windows start at alerts, so a second overlaps at most two),
    as long as the clock does not go back and the container is not removed. *)
Theorem throttle_rate (T M t : Z) (k : OuterKey) (l : list event) :
  1 ≤ T < 2 ^ 31 → 1 ≤ M < 2 ^ 31 →
  Forall (λ e, e ≠ Deleted k) l →
  StronglySorted Z.le (times k l) → Forall clock (times k l) →
  Z.of_nat (in_second t (filter (λ p, p.1 = k) (passed T M ∅ l)).*2) ≤ 2 * M - 1.
Proof.
  intros HT HM Hd Hs Hcl. rewrite passed_alone, lookup_empty by done.
  destruct (times k l) as [|x l']; [cbn; lia|].
  apply list.Forall_cons in Hcl as [Hx Hcl]. pose proof (valid_new T M HM x Hx) as Hv.
  cbn [passed1]. cbn [throttle_step fst] in *. cbn [app]. rewrite in_second_cons.
  destruct (decide (t ≤ x < t + one_second)) as [Hin|Hout].
  - pose proof (rate_from_inside T M HT HM t l' x _ Hv Hs Hcl) as Hr.
    enough (Forall (λ z, t ≤ z) l') as Hall.
    { specialize (Hr Hall). unfold rest in Hr. cbn in Hr.
      rewrite decide_True in Hr by lia. lia. }
    apply StronglySorted_inv in Hs as [_ Hs]. weaken Hs.
  - pose proof (rate_sorted T M HT HM t l' x _ Hv Hs Hcl). lia.
Qed.

(** throttling period.  When an alert starts throttling a container, every
    alert within the period counted from the first alert of the window is dropped
    and changes nothing, and the first alert after it passes and opens a new
    window. *)
Theorem throttle_window (T M now : Z) (k : OuterKey) (l : list event) (m' : AlertMap) :
  1 ≤ T < 2 ^ 31 → 1 ≤ M < 2 ^ 31 →
  Forall (λ e, e ≠ Deleted k) l →
  StronglySorted Z.le (times k l) → Forall clock (times k l) →
  Forall (λ x, x ≤ now) (times k l) → clock now →
  ShouldDropAlertsPerContainer T M now (ok_PidNs k) (ok_MntNs k) (after T M ∅ l) =
    (m', (true, false)) →
  ∃ first, first ≤ now < first + one_second ∧
    ∀ later, now ≤ later → clock later →
      (later < first + T * one_second →
       ShouldDropAlertsPerContainer T M later (ok_PidNs k) (ok_MntNs k) m' =
         (m', (true, true))) ∧
      (first + T * one_second ≤ later →
       ShouldDropAlertsPerContainer T M later (ok_PidNs k) (ok_MntNs k) m' =
         (<[k := {| ts_FirstEventTimestamp := later; ts_EventCount := 1;
                    ts_Throttle := false |}]> m', (false, false))).
Proof.
  intros HT HM Hd Hs Hcl Hn Hnow. rewrite ShouldDrop_eq.
  destruct (after T M ∅ l !! k) as [st|] eqn:E; [|done].
  pose proof (after_valid T M k l now st HT HM Hd Hs Hcl Hn E) as Hv.
  pose proof (throttle_step_regime T M HT HM now st Hnow Hv) as Hr.
  destruct (throttle_step T M now (Some st)) as [st' o] eqn:Est. cbn [fst snd].
  intros [= <- ->]. destruct Hv as [HF _].
  inversion Hr as [| | |_ Hlt Hc E']; subst st'.
  exists (ts_FirstEventTimestamp st). split; [lia|]. intros later Hl Hcl'.
  rewrite !ShouldDrop_eq, lookup_insert_eq, !insert_insert_eq.
  pose proof (throttle_step_regime T M HT HM later
    {| ts_FirstEventTimestamp := ts_FirstEventTimestamp st; ts_EventCount := 0;
       ts_Throttle := true |} Hcl') as Hr'.
  destruct (throttle_step T M later _) as [st2 o2].
  unfold one_second in *.
  split; intros Hin; (destruct Hr'; [split; cbn; [lia|done]| | | |]); cbn in *;
    unfold one_second in *; try done; lia.
Qed.

(** no false drops.  When no second holds more than [M] alerts of a
    container, all of them pass, whatever the other containers do. *)
Theorem throttle_transparent (T M : Z) (k : OuterKey) (l : list event) :
  1 ≤ T < 2 ^ 31 → 1 ≤ M < 2 ^ 31 →
  Forall (λ e, e ≠ Deleted k) l →
  StronglySorted Z.le (times k l) → Forall clock (times k l) →
  (∀ t, Z.of_nat (in_second t (times k l)) ≤ M) →
  (filter (λ p, p.1 = k) (passed T M ∅ l)).*2 = times k l.
Proof.
  intros HT HM Hd Hs Hcl Hlim. rewrite passed_alone, lookup_empty by done.
  destruct (times k l) as [|x l']; [done|].
  apply list.Forall_cons in Hcl as [Hx Hcl]. pose proof (valid_new T M HM x Hx) as Hv.
  cbn [passed1]. cbn [throttle_step fst] in *. cbn [app]. f_equal.
  apply (under_limit_passes T M HT HM [x] l' x); [done..| | |done].
  - repeat constructor. cbn. unfold one_second; lia.
  - cbn [ts_EventCount ts_FirstEventTimestamp]. rewrite in_second_cons, decide_True by (unfold one_second; lia). done.
Qed.

(** ** Witnesses *)

Definition box (n : Z) : OuterKey := {| ok_PidNs := n; ok_MntNs := n |}.

(** Alerts of two containers, five of the first one within a second. *)
Definition storm : list event :=
  [Alert (box 1) 10; Alert (box 2) 10; Alert (box 1) 11; Alert (box 1) 12;
   Alert (box 1) 500000000; Alert (box 2) 700000000; Alert (box 1) 999999999].

Lemma storm_kept : Forall (λ e, e ≠ Deleted (box 1)) storm.
Proof. repeat constructor; discriminate. Qed.

Lemma storm_sorted k : (k = box 1 ∨ k = box 2) → StronglySorted Z.le (times k storm).
Proof. intros [-> | ->]; vm_compute; repeat constructor; discriminate. Qed.

Lemma storm_clock k : (k = box 1 ∨ k = box 2) → Forall clock (times k storm).
Proof. intros [-> | ->]; cbn; repeat constructor; lia. Qed.

Lemma throttle_rate_witness :
  Z.of_nat (in_second 0 (filter (λ p, p.1 = box 1) (passed 30 2 ∅ storm)).*2) ≤ 2 * 2 - 1.
Proof.
  apply (throttle_rate 30 2 0 (box 1) storm); [lia|lia|apply storm_kept| |].
  - apply storm_sorted. by left.
  - apply storm_clock. by left.
Defined.

(** The bound is reached: three alerts of one second pass with a limit of two. *)
Example throttle_rate_tight :
  in_second 999999999 (passed 1 2 ∅
    [Alert (box 1) 0; Alert (box 1) 999999999; Alert (box 1) 1000000000;
     Alert (box 1) 1000000001; Alert (box 1) 1000000002]).*2 = 3%nat.
Proof. vm_compute. reflexivity. Qed.

(** The map after three alerts within a second, the last of which is dropped. *)
Definition throttled_map : AlertMap :=
  after 30 2 ∅ [Alert (box 1) 10; Alert (box 2) 10; Alert (box 1) 11; Alert (box 1) 12].

Lemma throttle_window_witness : ∃ first, first ≤ 12 < first + one_second ∧
  ∀ later, 12 ≤ later → clock later →
    (later < first + 30 * one_second →
     ShouldDropAlertsPerContainer 30 2 later 1 1 throttled_map =
       (throttled_map, (true, true))) ∧
    (first + 30 * one_second ≤ later →
     ShouldDropAlertsPerContainer 30 2 later 1 1 throttled_map =
       (<[box 1 := {| ts_FirstEventTimestamp := later; ts_EventCount := 1;
                      ts_Throttle := false |}]> throttled_map, (false, false))).
Proof.
  apply (throttle_window 30 2 12 (box 1)
    [Alert (box 1) 10; Alert (box 2) 10; Alert (box 1) 11]);
    [lia|lia|repeat constructor; discriminate
    |vm_compute; repeat constructor; discriminate
    |cbn; repeat constructor; lia|cbn; repeat constructor; lia|split; lia|].
  vm_compute. reflexivity.
Defined.

Lemma throttle_transparent_witness :
  (filter (λ p, p.1 = box 2) (passed 30 2 ∅ storm)).*2 = times (box 2) storm.
Proof.
  apply (throttle_transparent 30 2 (box 2) storm); [lia|lia| | | |].
  - repeat constructor; discriminate.
  - apply storm_sorted. by right.
  - apply storm_clock. by right.
  - intros t. change (times (box 2) storm) with [10; 700000000].
    rewrite !in_second_cons. cbn. repeat case_decide; lia.
Defined.
