(* ===== verification/RuntimeEnforcer.v ===== *)
(** Selection of the LSM enforcer and dispatch to it
    ([KubeArmor/enforcer/runtimeEnforcer.go]).

    [selectLsm] is written with [goto]: it is a machine with one state per label.
    The enforcers it chooses from are behind interfaces: what their constructors
    and operations do is theirs; [BPFEnforcer_ops] is the BPF-LSM one. *)
From Stdlib Require Import Ascii.
From S2P Require Import Prelude GoStrings Types Common BpfRules BpfEnforcer.

(** ** The enforcers *)

(** The operations [RuntimeEnforcer] calls on each enforcer; an error is its text. *)
Class BpfOps (BE : Type) := {
  bo_AddContainerIDToMap : string → Z → Z → BE → BE;
  bo_DeleteContainerIDFromMap : string → BE → BE;
  bo_UpdateSecurityPolicies : EndPoint → BE → Res BE;
  bo_UpdateHostSecurityPolicies : list HostSecurityPolicy → BE → Res BE;
  bo_Destroy : BE → BE * option string }.

Class AppArmorOps (AE : Type) := {
  ao_RegisterAppArmorProfile : string → string → bool → AE → AE;
  ao_UnregisterAppArmorProfile : string → string → bool → AE → AE;
  ao_UpdateSecurityPolicies : EndPoint → AE → Res AE;
  ao_UpdateHostSecurityPolicies : list HostSecurityPolicy → AE → Res AE;
  ao_Destroy : AE → AE * option string }.

Class SELinuxOps (SE : Type) := {
  so_UpdateHostSecurityPolicies : list HostSecurityPolicy → SE → Res SE;
  so_Destroy : SE → SE * option string }.

(** The outcome of [os.Stat] and [os.ReadFile] on one file. *)
Inductive FileOutcome := NoFile | ReadError | Contents (s : string).

Section runtime.
Context `{R : GoRange}.
Context {BE AE SE : Type} `{BO : !BpfOps BE} `{AO : !AppArmorOps AE} `{SO : !SELinuxOps SE}.

Record RuntimeEnforcer := {
  re_EnforcerType : string;
  re_bpfEnforcer : option BE;
  re_appArmorEnforcer : option AE;
  re_seLinuxEnforcer : option SE }.

Definition zero_RuntimeEnforcer : RuntimeEnforcer :=
  {| re_EnforcerType := ""; re_bpfEnforcer := None; re_appArmorEnforcer := None;
     re_seLinuxEnforcer := None |}.

Definition set_Type (t : string) (re : RuntimeEnforcer) : RuntimeEnforcer :=
  {| re_EnforcerType := t; re_bpfEnforcer := re_bpfEnforcer re;
     re_appArmorEnforcer := re_appArmorEnforcer re;
     re_seLinuxEnforcer := re_seLinuxEnforcer re |}.
Definition set_bpf (b : option BE) (re : RuntimeEnforcer) : RuntimeEnforcer :=
  {| re_EnforcerType := re_EnforcerType re; re_bpfEnforcer := b;
     re_appArmorEnforcer := re_appArmorEnforcer re;
     re_seLinuxEnforcer := re_seLinuxEnforcer re |}.
Definition set_aa (a : option AE) (re : RuntimeEnforcer) : RuntimeEnforcer :=
  {| re_EnforcerType := re_EnforcerType re; re_bpfEnforcer := re_bpfEnforcer re;
     re_appArmorEnforcer := a; re_seLinuxEnforcer := re_seLinuxEnforcer re |}.
Definition set_se (s : option SE) (re : RuntimeEnforcer) : RuntimeEnforcer :=
  {| re_EnforcerType := re_EnforcerType re; re_bpfEnforcer := re_bpfEnforcer re;
     re_appArmorEnforcer := re_appArmorEnforcer re; re_seLinuxEnforcer := s |}.

(** ** Dispatch *)

(** A method called through the pointer [o]: a nil pointer panics. *)
Definition on_ptr {A} (o : option A) (f : A → Res A) (set : option A → RuntimeEnforcer)
    : Res RuntimeEnforcer :=
  match o with Some a => (λ a', set (Some a')) <$> f a | None => Panic end.

(** [skip if runtime enforcer is not active] *)
Definition if_active (f : RuntimeEnforcer → Res RuntimeEnforcer)
    (re : option RuntimeEnforcer) : Res (option RuntimeEnforcer) :=
  match re with Some re => Some <$> f re | None => Ok None end.

Definition RegisterContainer (containerID : string) (pidns mntns : Z) :=
  if_active (λ re,
    if String.eqb (re_EnforcerType re) "BPFLSM" then
      on_ptr (re_bpfEnforcer re)
             (λ be, Ok (bo_AddContainerIDToMap containerID pidns mntns be))
             (λ be, set_bpf be re)
    else Ok re).

Definition UnregisterContainer (containerID : string) :=
  if_active (λ re,
    if String.eqb (re_EnforcerType re) "BPFLSM" then
      on_ptr (re_bpfEnforcer re) (λ be, Ok (bo_DeleteContainerIDFromMap containerID be))
             (λ be, set_bpf be re)
    else Ok re).

(** One profile of [UpdateAppArmorProfiles]. *)
Definition update_profile (podName action : string) (privilegedProfiles : gset string)
    (re : RuntimeEnforcer) (profile : string) : Res RuntimeEnforcer :=
  if String.eqb profile "unconfined" then Ok re
  else
    let privileged := bool_decide (profile ∈ privilegedProfiles) in
    if String.eqb action "ADDED" then
      on_ptr (re_appArmorEnforcer re)
             (λ ae, Ok (ao_RegisterAppArmorProfile podName profile privileged ae))
             (λ ae, set_aa ae re)
    else if String.eqb action "DELETED" then
      on_ptr (re_appArmorEnforcer re)
             (λ ae, Ok (ao_UnregisterAppArmorProfile podName profile privileged ae))
             (λ ae, set_aa ae re)
    else Ok re.

Definition UpdateAppArmorProfiles (podName action : string) (profiles : gmap string string)
    (privilegedProfiles : gset string) :=
  if_active (λ re,
    if String.eqb (re_EnforcerType re) "AppArmor" then
      foldl (λ r kv, r ≫= λ re, update_profile podName action privilegedProfiles re kv.2)
            (Ok re) (go_range profiles)
    else Ok re).

Definition UpdateSecurityPolicies (endPoint : EndPoint) :=
  if_active (λ re,
    if String.eqb (re_EnforcerType re) "BPFLSM" then
      on_ptr (re_bpfEnforcer re) (bo_UpdateSecurityPolicies endPoint) (λ be, set_bpf be re)
    else if String.eqb (re_EnforcerType re) "AppArmor" then
      on_ptr (re_appArmorEnforcer re) (ao_UpdateSecurityPolicies endPoint)
             (λ ae, set_aa ae re)
    else Ok re).

Definition UpdateHostSecurityPolicies (secPolicies : list HostSecurityPolicy) :=
  if_active (λ re,
    if String.eqb (re_EnforcerType re) "BPFLSM" then
      on_ptr (re_bpfEnforcer re) (bo_UpdateHostSecurityPolicies secPolicies)
             (λ be, set_bpf be re)
    else if String.eqb (re_EnforcerType re) "AppArmor" then
      on_ptr (re_appArmorEnforcer re) (ao_UpdateHostSecurityPolicies secPolicies)
             (λ ae, set_aa ae re)
    else if String.eqb (re_EnforcerType re) "SELinux" then
      on_ptr (re_seLinuxEnforcer re) (so_UpdateHostSecurityPolicies secPolicies)
             (λ se, set_se se re)
    else Ok re).

(** The enforcer's part of [DestroyRuntimeEnforcer], and whether it failed. *)
Definition destroy_one {A} (destroy : A → A * option string) (o : option A)
    : option A * bool :=
  match o with
  | Some a => let '(a', e) := destroy a in (Some a', bool_decide (is_Some e))
  | None => (None, false)
  end.

(** [re = nil] at the end assigns the receiver, a local of the call: the caller's
    pointer is unchanged, so the result keeps the enforcer. *)
Definition DestroyRuntimeEnforcer (re : option RuntimeEnforcer)
    : option RuntimeEnforcer * option string :=
  match re with
  | None => (None, None)
  | Some re =>
      let '(re, errorLSM) :=
        if String.eqb (re_EnforcerType re) "BPFLSM" then
          let '(b, e) := destroy_one bo_Destroy (re_bpfEnforcer re) in (set_bpf b re, e)
        else if String.eqb (re_EnforcerType re) "AppArmor" then
          let '(a, e) := destroy_one ao_Destroy (re_appArmorEnforcer re) in (set_aa a re, e)
        else if String.eqb (re_EnforcerType re) "SELinux" then
          let '(s, e) := destroy_one so_Destroy (re_seLinuxEnforcer re) in (set_se s re, e)
        else (re, false) in
      (Some re,
       if errorLSM : bool then
         Some ("failed to destroy RuntimeEnforcer (" +:+ re_EnforcerType re +:+ ")")%string
       else None)
  end.

(** ** Selection *)

Context {W CM : Type} `{EC : !EbpfMap CM Z Z}.

(** The system that the constructors act on. *)
Context (IsInK8sCluster : bool).
Context (NewSELinuxEnforcer : W → W * option SE).
Context (NewAppArmorEnforcer : W → W * option AE).
Context (NewBPFEnforcer : W → W * (option BE * option string)).

(** What selection changes besides the enforcer: the system, the enforcer name the
    feeder puts into logs, and the monitor's configuration map. *)
Record Env := { env_w : W; env_Enforcer : string; env_BpfConfigMap : CM }.

Definition set_w (w : W) (e : Env) : Env :=
  {| env_w := w; env_Enforcer := env_Enforcer e; env_BpfConfigMap := env_BpfConfigMap e |}.
Definition UpdateEnforcer (s : string) (e : Env) : Env :=
  {| env_w := env_w e; env_Enforcer := s; env_BpfConfigMap := env_BpfConfigMap e |}.
Definition Update_config (k v : Z) (e : Env) : Env :=
  {| env_w := env_w e; env_Enforcer := env_Enforcer e;
     env_BpfConfigMap := (em_Put (env_BpfConfigMap e) k v).1 |}.

Inductive label := Lselection | Ldispatch | Lselinux | Lapparmor | Lbpf | Lnil.

Record Frame := {
  fr_pc : label; fr_lsm : string;
  fr_lsmOrder : list string; fr_availablelsms : list string;
  fr_re : RuntimeEnforcer; fr_env : Env }.

Definition goto (l : label) (f : Frame) : Frame :=
  {| fr_pc := l; fr_lsm := fr_lsm f; fr_lsmOrder := fr_lsmOrder f;
     fr_availablelsms := fr_availablelsms f; fr_re := fr_re f; fr_env := fr_env f |}.

Definition with_re (re : RuntimeEnforcer) (e : Env) (f : Frame) : Frame :=
  {| fr_pc := fr_pc f; fr_lsm := fr_lsm f; fr_lsmOrder := fr_lsmOrder f;
     fr_availablelsms := fr_availablelsms f; fr_re := re; fr_env := e |}.

Definition Result : Type := option RuntimeEnforcer * Env.

(** [label lsmselection] *)
Definition select_step (supportedlsm : list string) (f : Frame) : Frame :=
  match fr_lsmOrder f with
  | lsm :: lsmOrder =>
      let f' := {| fr_pc := Ldispatch; fr_lsm := lsm; fr_lsmOrder := lsmOrder;
                   fr_availablelsms := fr_availablelsms f; fr_re := fr_re f;
                   fr_env := fr_env f |} in
      if ContainsElement supportedlsm lsm && ContainsElement (fr_availablelsms f) lsm
      then f' else goto Lselection f'
  | [] =>
      match fr_availablelsms f with
      | lsm :: availablelsms =>
          let f' := {| fr_pc := Ldispatch; fr_lsm := lsm; fr_lsmOrder := [];
                       fr_availablelsms := availablelsms; fr_re := fr_re f;
                       fr_env := fr_env f |} in
          if ContainsElement supportedlsm lsm then f' else goto Lselection f'
      | [] => goto Lnil f
      end
  end.

(** [label lsmdispatch] *)
Definition dispatch_step (f : Frame) : Frame :=
  goto (if String.eqb (fr_lsm f) "bpf" then Lbpf
        else if String.eqb (fr_lsm f) "apparmor" then Lapparmor
        else if String.eqb (fr_lsm f) "selinux" then Lselinux
        else Lselection) f.

(** The labels [selinux], [apparmor] and [bpf]: the enforcer with the attempt
    recorded, and whether it is the one to return. *)
Definition try_selinux (re : RuntimeEnforcer) (e : Env) : RuntimeEnforcer * Env * bool :=
  if IsInK8sCluster then (re, e, false)
  else
    let '(w, s) := NewSELinuxEnforcer (env_w e) in
    let re := set_se s re in let e := set_w w e in
    if bool_decide (is_Some s) then (set_Type "SELinux" re, UpdateEnforcer "SELinux" e, true)
    else (re, e, false).

Definition try_apparmor (re : RuntimeEnforcer) (e : Env) : RuntimeEnforcer * Env * bool :=
  let '(w, a) := NewAppArmorEnforcer (env_w e) in
  let re := set_aa a re in let e := set_w w e in
  if bool_decide (is_Some a) then (set_Type "AppArmor" re, UpdateEnforcer "AppArmor" e, true)
  else (re, e, false).

Definition try_bpf (re : RuntimeEnforcer) (e : Env) : RuntimeEnforcer * Env * bool :=
  let '(w, (b, err)) := NewBPFEnforcer (env_w e) in
  let e := set_w w e in
  match b with
  | Some be =>
      match err with
      | Some _ => (set_bpf (Some (bo_Destroy be).1) re, e, false)
      | None => (set_Type "BPFLSM" (set_bpf (Some be) re),
                 UpdateEnforcer "BPFLSM" (Update_config 2 1 e), true)
      end
  | None => (set_bpf None re, e, false)
  end.

Definition attempt (t : RuntimeEnforcer * Env * bool) (f : Frame) : Frame + Result :=
  let '(re, e, ok) := t in
  if ok : bool then inr (Some re, e) else inl (goto Lselection (with_re re e f)).

Definition step (supportedlsm : list string) (f : Frame) : Frame + Result :=
  match fr_pc f with
  | Lselection => inl (select_step supportedlsm f)
  | Ldispatch => inl (dispatch_step f)
  | Lselinux => attempt (try_selinux (fr_re f) (fr_env f)) f
  | Lapparmor => attempt (try_apparmor (fr_re f) (fr_env f)) f
  | Lbpf => attempt (try_bpf (fr_re f) (fr_env f)) f
  | Lnil => inr (None, fr_env f)
  end.

Fixpoint run (supportedlsm : list string) (fuel : nat) (f : Frame) : option Result :=
  match fuel with
  | O => None
  | S fuel' =>
      match step supportedlsm f with
      | inl f' => run supportedlsm fuel' f'
      | inr r => Some r
      end
  end.

(** Every round takes an element of a list and at most three labels; two more
    labels end the search. *)
Definition selectLsm (re : RuntimeEnforcer) (lsmOrder availablelsms supportedlsm : list string)
    (e : Env) : option Result :=
  run supportedlsm (3 * (length lsmOrder + length availablelsms) + 2)
    {| fr_pc := Lselection; fr_lsm := ""; fr_lsmOrder := lsmOrder;
       fr_availablelsms := availablelsms; fr_re := re; fr_env := e |}.

Definition availablelsms : list string := ["bpf"; "selinux"; "apparmor"].

(** The LSMs of the kernel: [mount] is the outcome of mounting securityfs (an error
    counts only when the directory is missing too), [lsmFile] that of reading
    [/sys/kernel/security/lsm], [probe] that of [CheckBPFLSMSupport]. *)
Definition supported_lsms (securityfs : bool) (lsmFile : FileOutcome) (probe : bool)
    : list string :=
  let lsms :=
    if securityfs then
      match lsmFile with
      | ReadError => []
      | NoFile => split comma ""
      | Contents s => split comma s
      end
    else [] in
  if negb (ContainsElement lsms "bpf") && probe then lsms ++ ["bpf"] else lsms.

Definition NewRuntimeEnforcer (LsmOrder : list string) (securityfs : bool)
    (lsmFile : FileOutcome) (probe : bool) (e : Env) : option Result :=
  selectLsm zero_RuntimeEnforcer LsmOrder availablelsms
    (supported_lsms securityfs lsmFile probe) e.
End runtime.

(** The BPF-LSM enforcer of [BpfEnforcer] as one of the enforcers; taking its
    programs and maps down is [destroy]. *)
Section bpf_instance.
Context `{R : GoRange} (CapToCode : gmap string Z) (dp : DefaultPosture).
Context {IM OM TM AM : Type}.
Context `{EI : !EbpfMap IM InnerKey val2} `{EO : !EbpfMap OM NsKey nat}.
Context `{ET : !EbpfMap TM NsKey unit} `{EA : !EbpfMap AM ArgumentsKey Z}.
Abbreviation BPF := (@BPFEnforcer IM OM TM AM).
Context (NewMap : BPF → option (nat * IM)) (destroy : BPF → BPF * option string).

Definition BPFEnforcer_ops : BpfOps BPF := {|
  bo_AddContainerIDToMap := AddContainerIDToMap;
  bo_DeleteContainerIDFromMap := DeleteContainerIDFromMap;
  bo_UpdateSecurityPolicies := BpfEnforcer.UpdateSecurityPolicies CapToCode NewMap;
  bo_UpdateHostSecurityPolicies := BpfEnforcer.UpdateHostSecurityPolicies CapToCode NewMap dp;
  bo_Destroy := destroy |}.
End bpf_instance.
