(* ===== verification/RuntimeProps.v ===== *)
(** Properties of the LSM selection and dispatch of [RuntimeEnforcer]. *)
From S2P Require Import Prelude GoStrings Types Common BpfRules BpfEnforcer RuntimeEnforcer.

Open Scope string_scope.
Open Scope nat_scope.

Section props.
Context `{R : GoRange}.
Context {BE AE SE : Type} `{BO : !BpfOps BE} `{AO : !AppArmorOps AE} `{SO : !SELinuxOps SE}.
Context {W CM : Type} `{EC : !EbpfMap CM Z Z}.
Context (IsInK8sCluster : bool).
Context (NewSELinuxEnforcer : W → W * option SE).
Context (NewAppArmorEnforcer : W → W * option AE).
Context (NewBPFEnforcer : W → W * (option BE * option string)).
Abbreviation RE := (@RuntimeEnforcer BE AE SE).
Abbreviation ENV := (@Env W CM).
Abbreviation FRAME := (@Frame BE AE SE W CM).
Abbreviation STEP := (step IsInK8sCluster NewSELinuxEnforcer NewAppArmorEnforcer NewBPFEnforcer).
Abbreviation RUN := (run IsInK8sCluster NewSELinuxEnforcer NewAppArmorEnforcer NewBPFEnforcer).
Abbreviation SELECT :=
  (selectLsm IsInK8sCluster NewSELinuxEnforcer NewAppArmorEnforcer NewBPFEnforcer).

(** ** Reference: try the candidates in order *)

(** The LSMs that are tried, in order: those of the preference list that the kernel
    supports and the program has, then those of the program's list that the kernel
    supports. *)
Definition candidates (supportedlsm lsmOrder avail : list string) : list string :=
  filter (λ l, l ∈ supportedlsm ∧ l ∈ avail) lsmOrder ++
  filter (λ l, l ∈ supportedlsm) avail.

Definition try_one (lsm : string) (re : RE) (e : ENV) : RE * ENV * bool :=
  if String.eqb lsm "bpf" then try_bpf NewBPFEnforcer re e
  else if String.eqb lsm "apparmor" then try_apparmor NewAppArmorEnforcer re e
  else if String.eqb lsm "selinux" then try_selinux IsInK8sCluster NewSELinuxEnforcer re e
  else (re, e, false).

Fixpoint try_all (l : list string) (re : RE) (e : ENV) : option RE * ENV :=
  match l with
  | [] => (None, e)
  | lsm :: l' =>
      let '(re', e', ok) := try_one lsm re e in
      if ok : bool then (Some re', e') else try_all l' re' e'
  end.

(** ** Dispatch *)

(** The enforcer named by the type is there. *)
Definition usable (re : RE) : Prop :=
  (re_EnforcerType re = "BPFLSM" ∧ is_Some (re_bpfEnforcer re)) ∨
  (re_EnforcerType re = "AppArmor" ∧ is_Some (re_appArmorEnforcer re)) ∨
  (re_EnforcerType re = "SELinux" ∧ is_Some (re_seLinuxEnforcer re)).

Inductive call :=
| CRegister (id : string) (p n : Z)
| CUnregister (id : string)
| CProfiles (pod action : string) (profiles : gmap string string) (priv : gset string)
| CPolicies (ep : EndPoint)
| CHostPolicies (l : list HostSecurityPolicy)
| CDestroy.

Definition serve (c : call) (re : option RE) : Res (option RE) :=
  match c with
  | CRegister id p n => RegisterContainer id p n re
  | CUnregister id => UnregisterContainer id re
  | CProfiles pod a pr priv => UpdateAppArmorProfiles pod a pr priv re
  | CPolicies ep => RuntimeEnforcer.UpdateSecurityPolicies ep re
  | CHostPolicies l => RuntimeEnforcer.UpdateHostSecurityPolicies l re
  | CDestroy => Ok (DestroyRuntimeEnforcer re).1
  end.

Definition serve_all (l : list call) (re : option RE) : Res (option RE) :=
  foldl (λ r c, r ≫= serve c) (Ok re) l.

(** The enforcers themselves do not panic. *)
Definition enforcers_total : Prop :=
  (∀ ep be, bo_UpdateSecurityPolicies ep be ≠ Panic) ∧
  (∀ l be, bo_UpdateHostSecurityPolicies l be ≠ Panic) ∧
  (∀ ep ae, ao_UpdateSecurityPolicies ep ae ≠ Panic) ∧
  (∀ l ae, ao_UpdateHostSecurityPolicies l ae ≠ Panic) ∧
  (∀ l se, so_UpdateHostSecurityPolicies l se ≠ Panic).

(** ** Lemmas *)

Lemma run_step s fuel f :
  RUN s (S fuel) f =
  match STEP s f with inl f' => RUN s fuel f' | inr r => Some r end.
Proof. done. Qed.


(** From a dispatch on, one attempt and the rest of the search. *)
Lemma run_dispatch s fuel f :
  fr_pc f = Ldispatch →
  RUN s (S (S fuel)) f =
  let '(re', e', ok) := try_one (fr_lsm f) (fr_re f) (fr_env f) in
  if ok : bool then Some (Some re', e')
  else RUN s (if String.eqb (fr_lsm f) "bpf" || String.eqb (fr_lsm f) "apparmor" ||
                 String.eqb (fr_lsm f) "selinux" then fuel else S fuel)
           (goto Lselection (with_re re' e' f)).
Proof.
  intros Hpc. rewrite run_step. unfold step at 1. rewrite Hpc.
  unfold dispatch_step, try_one.
  destruct (String.eqb (fr_lsm f) "bpf"); [|destruct (String.eqb (fr_lsm f) "apparmor");
    [|destruct (String.eqb (fr_lsm f) "selinux")]].
  - rewrite run_step. unfold step at 1. cbn [fr_pc goto fr_re fr_env].
    unfold attempt. by destruct (try_bpf _ _ _) as [[re' e'] []].
  - rewrite run_step. unfold step at 1. cbn [fr_pc goto fr_re fr_env].
    unfold attempt. by destruct (try_apparmor _ _ _) as [[re' e'] []].
  - rewrite run_step. unfold step at 1. cbn [fr_pc goto fr_re fr_env].
    unfold attempt. by destruct (try_selinux _ _ _ _) as [[re' e'] []].
  - by destruct f.
Qed.

Lemma run_more_fuel s fuel fuel' f r :
  RUN s fuel f = Some r → fuel ≤ fuel' → RUN s fuel' f = Some r.
Proof.
  revert fuel' f. induction fuel as [|fuel IH]; intros fuel' f; [done|].
  destruct fuel' as [|fuel']; [lia|]. rewrite !run_step.
  destruct (STEP s f); [|done]. intros Hr Hle. apply IH; [done|lia].
Qed.

(** The search is the reference search, and it ends. *)
Lemma run_selection s n fuel f :
  fr_pc f = Lselection → length (fr_lsmOrder f) + length (fr_availablelsms f) = n →
  3 * n + 2 ≤ fuel →
  RUN s fuel f =
  Some (try_all (candidates s (fr_lsmOrder f) (fr_availablelsms f)) (fr_re f) (fr_env f)).
Proof.
  revert fuel f. induction n as [|n IH]; intros fuel [pc lsm order avail re e]; cbn;
    intros -> Hn Hfuel.
  { destruct order, avail; try done. destruct fuel as [|[|fuel]]; [lia..|]. done. }
  assert (∀ x order' avail', length order' + length avail' = n →
    RUN s (fuel - 1) {| fr_pc := Ldispatch; fr_lsm := x; fr_lsmOrder := order';
                        fr_availablelsms := avail'; fr_re := re; fr_env := e |} =
    Some (try_all (x :: candidates s order' avail') re e)) as Hd.
  { intros x order' avail' Hn'. destruct fuel as [|[|[|fuel]]]; [lia..|]. cbn [Nat.sub].
    rewrite run_dispatch by done. cbn [fr_lsm fr_re fr_env try_all].
    destruct (try_one x re e) as [[re' e'] []]; [done|].
    rewrite (IH _ (goto Lselection _)); [done..|]. case_match; lia. }
  destruct fuel as [|fuel]; [lia|]. cbn [Nat.sub] in Hd. rewrite Nat.sub_0_r in Hd.
  rewrite run_step. unfold step at 1. cbn [fr_pc]. unfold select_step.
  cbn [fr_lsmOrder fr_availablelsms fr_re fr_env].
  destruct order as [|x order]; [destruct avail as [|x avail]; [done|]|].
  - cbn in Hn. unfold candidates, ContainsElement.
    rewrite filter_cons. destruct (decide (x ∈ s)) as [Hx|Hx].
    + rewrite bool_decide_true by done. rewrite Hd by (cbn; lia). done.
    + rewrite bool_decide_false by done.
      rewrite (IH _ (goto Lselection _)); cbn; [done|done|lia|lia].
  - unfold candidates. rewrite filter_cons. unfold ContainsElement.
    destruct (decide (x ∈ s ∧ x ∈ avail)) as [[Hx Hx']|Hx].
    + rewrite !bool_decide_true by done. cbn [andb]. rewrite Hd by (cbn in *; lia). done.
    + destruct (bool_decide (x ∈ s) && bool_decide (x ∈ avail)) eqn:E.
      { apply andb_true_iff in E as [Hs%bool_decide_eq_true Ha%bool_decide_eq_true]. tauto. }
      rewrite (IH _ (goto Lselection _)); cbn in *; [done|done|lia|lia].
Qed.

(** ** The outcome of an attempt *)

(** The enforcer type of an LSM. *)
Definition type_of (lsm : string) : string :=
  if String.eqb lsm "bpf" then "BPFLSM"
  else if String.eqb lsm "apparmor" then "AppArmor"
  else if String.eqb lsm "selinux" then "SELinux" else "".

Lemma try_one_usable lsm re e re' e' :
  try_one lsm re e = (re', e', true) →
  usable re' ∧ env_Enforcer e' = re_EnforcerType re' ∧ re_EnforcerType re' = type_of lsm.
Proof.
  unfold try_one, type_of, usable, try_bpf, try_apparmor, try_selinux.
  repeat case_match; intros; simplify_eq/=;
    repeat match goal with H : bool_decide _ = true |- _ => apply bool_decide_eq_true in H end;
    eauto 10.
Qed.

Lemma try_all_usable l re e re' e' :
  try_all l re e = (Some re', e') →
  usable re' ∧ env_Enforcer e' = re_EnforcerType re' ∧
  ∃ lsm, lsm ∈ l ∧ re_EnforcerType re' = type_of lsm.
Proof.
  revert re e. induction l as [|lsm l IH]; intros re e; cbn [try_all]; [done|].
  destruct (try_one lsm re e) as [[re1 e1] []] eqn:E.
  - intros [= -> ->]. apply try_one_usable in E as (Hu & He & Ht).
    split_and!; [done|done|]. exists lsm. split; [left|done].
  - intros (Hu & He & lsm' & Hin & Ht)%IH. split_and!; [done|done|].
    exists lsm'. split; [by right|done].
Qed.

(** ** Calls on a usable enforcer *)

Lemma on_ptr_Ok {A} (o : option A) (f : A → Res A) (set : option A → RE) :
  is_Some o → (∀ a, f a ≠ Panic) → ∃ a', on_ptr o f set = Ok (set (Some a')).
Proof.
  intros [a ->] Hf. unfold on_ptr. destruct (f a) as [a'|] eqn:E; [by exists a'|].
  by apply Hf in E.
Qed.

Lemma update_profile_usable pod action priv re p :
  usable re → re_EnforcerType re = "AppArmor" →
  ∃ re', update_profile pod action priv re p = Ok re' ∧ usable re' ∧
         re_EnforcerType re' = "AppArmor".
Proof.
  intros Hu Ht. assert (is_Some (re_appArmorEnforcer re)) as Hp.
  { unfold usable in Hu. rewrite Ht in Hu. naive_solver. }
  unfold update_profile.
  repeat case_match; try (by exists re);
    match goal with |- context [on_ptr ?o ?f ?s] =>
      destruct (on_ptr_Ok o f s) as [a ->]; [done|done|] end;
    eexists; (split; [done|]); unfold usable; cbn; rewrite Ht; naive_solver.
Qed.

Lemma profiles_usable pod action priv l re :
  usable re → re_EnforcerType re = "AppArmor" →
  ∃ re', foldl (λ r (kv : string * string),
           r ≫= λ re, update_profile pod action priv re kv.2) (Ok re) l = Ok re' ∧
         usable re' ∧ re_EnforcerType re' = "AppArmor".
Proof.
  revert re. induction l as [|kv l IH]; intros re Hu Ht; [by exists re|].
  destruct (update_profile_usable pod action priv re kv.2 Hu Ht) as (re1 & E & Hu1 & Ht1).
  cbn [foldl mbind Res_bind]. rewrite E. by apply IH.
Qed.

(** [re'] serves the same LSM as [re] and is usable. *)
Definition as_usable (re re' : RE) : Prop :=
  usable re' ∧ re_EnforcerType re' = re_EnforcerType re.

Lemma destroy_usable re :
  usable re → ∃ re', (DestroyRuntimeEnforcer (Some re)).1 = Some re' ∧ as_usable re re'.
Proof.
  intros Hu. unfold DestroyRuntimeEnforcer, destroy_one, as_usable, usable in *.
  destruct Hu as [[Ht [b Hb]]|[[Ht [b Hb]]|[Ht [b Hb]]]]; rewrite Ht, Hb; cbn;
    [destruct (bo_Destroy b)|destruct (ao_Destroy b)|destruct (so_Destroy b)]; cbn; eexists; (split; [done|]); cbn; eauto 10.
Qed.

(** A call on the pointer that the type names, if it has one. *)
Ltac ptr_call :=
  match goal with |- context [on_ptr ?o ?f ?s] =>
    destruct (on_ptr_Ok o f s) as [? ->]; [by eexists|naive_solver|] end;
  eexists; split; [done|]; split; [unfold usable|]; cbn; naive_solver.

Lemma serve_usable c re :
  enforcers_total → usable re →
  ∃ re', serve c (Some re) = Ok (Some re') ∧ as_usable re re'.
Proof.
  intros (H1 & H2 & H3 & H4 & H5) Hu. unfold as_usable.
  destruct c; cbn [serve]; [..|by apply destroy_usable in Hu as (re' & -> & Hu); exists re'].
  all: unfold RegisterContainer, UnregisterContainer, UpdateAppArmorProfiles,
    RuntimeEnforcer.UpdateSecurityPolicies, RuntimeEnforcer.UpdateHostSecurityPolicies,
    if_active.
  all: pose proof Hu as [[Ht [b Hb]]|[[Ht [b Hb]]|[Ht [b Hb]]]]; rewrite Ht;
    cbn [String.eqb Ascii.eqb Bool.eqb]; rewrite ?Hb; try (by exists re);
    try ptr_call.
  destruct (profiles_usable pod action priv (go_range profiles) re Hu Ht)
    as (re' & E & Hu' & Ht'). rewrite E. eexists. split; [done|]. split; [done|congruence].
Qed.

Lemma serve_all_usable l re :
  enforcers_total → usable re →
  ∃ re', serve_all l (Some re) = Ok (Some re') ∧ as_usable re re'.
Proof.
  intros Htot. revert re. unfold serve_all.
  induction l as [|c l IH]; intros re Hu; [by exists re; split|].
  destruct (serve_usable c re Htot Hu) as (re1 & E & Hu1 & Ht1).
  cbn [foldl mbind Res_bind]. rewrite E.
  destruct (IH re1 Hu1) as (re' & E' & Hu' & Ht'). exists re'.
  split; [done|]. split; [done|congruence].
Qed.

(** ** An LSM whose initialisation does not depend on the system's state *)

(** [works lsm]: an attempt at [lsm] succeeds, whenever it is made. *)
Definition steady (works : string → bool) : Prop :=
  (∀ w, works "bpf" = bool_decide (is_Some (NewBPFEnforcer w).2.1 ∧ (NewBPFEnforcer w).2.2 = None)) ∧
  (∀ w, works "apparmor" = bool_decide (is_Some (NewAppArmorEnforcer w).2)) ∧
  (∀ w, works "selinux" =
        negb IsInK8sCluster && bool_decide (is_Some (NewSELinuxEnforcer w).2)) ∧
  (∀ lsm, works lsm = true → lsm ∈ ["bpf"; "apparmor"; "selinux"]).

Lemma try_one_works works lsm re e :
  steady works → (try_one lsm re e).2 = works lsm.
Proof.
  intros (Hb & Ha & Hs & Ho). unfold try_one.
  destruct (String.eqb_spec lsm "bpf") as [->|]; [|destruct (String.eqb_spec lsm "apparmor")
    as [->|]; [|destruct (String.eqb_spec lsm "selinux") as [->|]]].
  - rewrite (Hb (env_w e)). unfold try_bpf.
    by destruct (NewBPFEnforcer (env_w e)) as [w [[b|] [er|]]].
  - rewrite (Ha (env_w e)). unfold try_apparmor.
    destruct (NewAppArmorEnforcer (env_w e)) as [w a]; cbn. by case_match.
  - rewrite (Hs (env_w e)). unfold try_selinux. destruct IsInK8sCluster; [done|].
    destruct (NewSELinuxEnforcer (env_w e)) as [w a]; cbn. by case_match.
  - cbn. destruct (works lsm) eqn:E; [|done]. apply Ho in E. set_solver.
Qed.

Lemma try_all_works works l re e :
  steady works →
  re_EnforcerType <$> (try_all l re e).1 = type_of <$> head (filter works l).
Proof.
  intros Hw. revert re e. induction l as [|lsm l IH]; intros re e; [done|].
  cbn [try_all]. pose proof (try_one_works works lsm re e Hw) as E.
  destruct (try_one lsm re e) as [[re' e'] ok] eqn:Et. cbn in E. subst ok.
  destruct (works lsm) eqn:El.
  - rewrite filter_cons_True by (by apply Is_true_true). cbn.
    apply try_one_usable in Et as (_ & _ & ->). done.
  - rewrite filter_cons_False by (by rewrite El; intros []). apply IH.
Qed.

(** * Properties *)

(** the [goto] search always ends, and it is the reference search: it tries the
    supported LSMs of the preference list that the program has, then the supported
    ones of the program's list, each in order, until one initialises. *)
Theorem selectLsm_correct (re : RE) (lsmOrder avail supportedlsm : list string) (e : ENV) :
  SELECT re lsmOrder avail supportedlsm e =
  Some (try_all (candidates supportedlsm lsmOrder avail) re e).
Proof. unfold selectLsm. by rewrite (run_selection _ (length lsmOrder + length avail)). Qed.

(** preference.  When the outcome of an initialisation does not depend on when it
    is tried, the enforcer is that of the first candidate that initialises, and there
    is none exactly when no candidate does. *)
Theorem selectLsm_preference (works : string → bool) (re : RE)
    (lsmOrder avail supportedlsm : list string) (e : ENV) :
  steady works →
  ∃ r, SELECT re lsmOrder avail supportedlsm e = Some r ∧
       re_EnforcerType <$> r.1 =
       type_of <$> head (filter works (candidates supportedlsm lsmOrder avail)).
Proof.
  intros Hw. unfold selectLsm.
  rewrite (run_selection _ (length lsmOrder + length avail)); [|done..].
  eexists. split; [done|]. cbn. by apply try_all_works.
Qed.

(** the enforcer that selection returns is one of the candidates, logs carry its
    name, and no sequence of calls on it dereferences an enforcer that is not there:
    each call reaches an initialised enforcer, also after a destruction. *)
Theorem selected_serves (re : RE) (lsmOrder avail supportedlsm : list string) (e : ENV)
    (re' : RE) (e' : ENV) (calls : list call) :
  enforcers_total →
  SELECT re lsmOrder avail supportedlsm e = Some (Some re', e') →
  ∃ lsm re'', lsm ∈ candidates supportedlsm lsmOrder avail ∧
    env_Enforcer e' = type_of lsm ∧
    serve_all calls (Some re') = Ok (Some re'') ∧ re_EnforcerType re'' = type_of lsm.
Proof.
  intros Htot. unfold selectLsm.
  rewrite (run_selection _ (length lsmOrder + length avail)) by done. cbn.
  intros [= E]. destruct (try_all_usable _ _ _ _ _ E) as (Hu & He & lsm & Hin & Ht).
  destruct (serve_all_usable calls re' Htot Hu) as (re'' & Es & _ & Ht').
  exists lsm, re''. split_and!; [done|congruence|done|congruence].
Qed.
End props.

(** ** Witnesses *)

Section witnesses.
(** Enforcers that count the calls they get. *)
Definition count_bpf : BpfOps nat := {|
  bo_AddContainerIDToMap _ _ _ n := S n; bo_DeleteContainerIDFromMap _ n := S n;
  bo_UpdateSecurityPolicies _ n := Ok (S n); bo_UpdateHostSecurityPolicies _ n := Ok (S n);
  bo_Destroy n := (n, None) |}.
Definition count_aa : AppArmorOps nat := {|
  ao_RegisterAppArmorProfile _ _ _ n := S n; ao_UnregisterAppArmorProfile _ _ _ n := S n;
  ao_UpdateSecurityPolicies _ n := Ok (S n); ao_UpdateHostSecurityPolicies _ n := Ok (S n);
  ao_Destroy n := (n, None) |}.
Definition count_se : SELinuxOps nat := {|
  so_UpdateHostSecurityPolicies _ n := Ok (S n); so_Destroy n := (n, None) |}.
Definition plain_map : EbpfMap (gmap Z Z) Z Z := {|
  em_view m := m; em_Put m k v := (<[k := v]> m, None);
  em_Delete m k := (delete k m, None); em_Close _ := None |}.
End witnesses.

(** A system where BPF-LSM fails to load, SELinux is not there and AppArmor works. *)
Definition env0 : @Env unit (gmap Z Z) :=
  {| env_w := tt; env_Enforcer := ""; env_BpfConfigMap := ∅ |}.
Definition no_se (w : unit) : unit * option nat := (w, None).
Definition yes_aa (w : unit) : unit * option nat := (w, Some 0).
Definition bad_bpf (w : unit) : unit * (option nat * option string) :=
  (w, (Some 0, Some "verifier")).

Lemma selectLsm_preference_witness :
  ∃ r, selectLsm (BO := count_bpf) (EC := plain_map) false no_se yes_aa bad_bpf
         (@zero_RuntimeEnforcer nat nat nat) ["bpf"; "selinux"; "apparmor"] availablelsms
         ["lockdown"; "apparmor"; "bpf"] env0 = Some r ∧
       re_EnforcerType <$> r.1 = Some "AppArmor".
Proof.
  apply (selectLsm_preference (BO := count_bpf) (EC := plain_map) false no_se yes_aa bad_bpf
    (λ l, String.eqb l "apparmor") zero_RuntimeEnforcer ["bpf"; "selinux"; "apparmor"]
    availablelsms ["lockdown"; "apparmor"; "bpf"] env0).
  split_and!; [done..|]. intros lsm ->%String.eqb_eq. set_solver.
Defined.

Lemma selected_serves_witness :
  ∃ lsm re'', lsm ∈ candidates ["apparmor"] ["bpf"; "apparmor"] availablelsms ∧
    "AppArmor" = type_of lsm ∧
    serve_all (R := canonical_range) (BO := count_bpf) (AO := count_aa) (SO := count_se)
      [CRegister "c" 1 2; CProfiles "pod" "ADDED" {["c" := "profile-c"]} ∅; CDestroy;
       CUnregister "c"]
      (Some {| re_EnforcerType := "AppArmor"; re_bpfEnforcer := None;
               re_appArmorEnforcer := Some 0; re_seLinuxEnforcer := None |}) =
      Ok (Some re'') ∧ re_EnforcerType re'' = type_of lsm.
Proof.
  apply (selected_serves (R := canonical_range) (BO := count_bpf) (AO := count_aa)
    (SO := count_se) (EC := plain_map) false no_se yes_aa bad_bpf
    zero_RuntimeEnforcer ["bpf"; "apparmor"] availablelsms ["apparmor"] env0 _
    {| env_w := tt; env_Enforcer := "AppArmor"; env_BpfConfigMap := ∅ |}).
  - split_and!; discriminate.
  - reflexivity.
Defined.
