(* ===== verification/NsMap.v ===== *)
(** The system monitor's namespace maps: container identifiers by namespace key,
    the keys of each Kubernetes namespace, and what the kernel is told to report
    for each key ([KubeArmor/monitor/processTree.go], first part;
    [UpdateNsKeyMap] and [UpdateVisibility] of [systemMonitor.go];
    [UpdateVisibility] and [HandleUnknownNamespaceNsMap] of
    [KubeArmor/core/kubeUpdate.go]).

    The operations reach the kernel through [UpdateNsKeyMap] only.  They are
    written against that interface, [NsKeyStore]; the implementation with eBPF maps
    is one instance, the map of what is in force (in [NsMapProps]) another. *)
From S2P Require Import Prelude GoStrings Types BpfEnforcer.

Open Scope string_scope.
Open Scope Z_scope.

Record NsVisibility := {
  nv_NsKeys : list NsKey;
  nv_File : bool; nv_Process : bool; nv_Capability : bool; nv_Network : bool;
  nv_DNS : bool }.

Class NsKeyStore (S : Type) := update_NsKey : string → NsKey → Visibility → S → S.

(** The settings of [cfg.GlobalCfg] that are read. *)
Record Config := {
  cfg_HostPolicy : bool; cfg_HostVisibility : string; cfg_Visibility : string }.

Definition DefaultVisibilityKey : Z := 12648430.   (* 0xc0ffee *)

Section monitor.
Context `{R : GoRange} (cfg : Config) {S : Type} `{ST : !NsKeyStore S}.

Record SystemMonitor := {
  mon_NsMap : gmap NsKey string;
  mon_NamespacePidsMap : gmap string NsVisibility;
  mon_store : S }.

Definition set_NsMap (m : gmap NsKey string) (mon : SystemMonitor) : SystemMonitor :=
  {| mon_NsMap := m; mon_NamespacePidsMap := mon_NamespacePidsMap mon;
     mon_store := mon_store mon |}.
Definition set_Pids (m : gmap string NsVisibility) (mon : SystemMonitor) : SystemMonitor :=
  {| mon_NsMap := mon_NsMap mon; mon_NamespacePidsMap := m; mon_store := mon_store mon |}.
Definition on_store (f : S → S) (mon : SystemMonitor) : SystemMonitor :=
  {| mon_NsMap := mon_NsMap mon; mon_NamespacePidsMap := mon_NamespacePidsMap mon;
     mon_store := f (mon_store mon) |}.

Definition with_keys (l : list NsKey) (nv : NsVisibility) : NsVisibility :=
  {| nv_NsKeys := l; nv_File := nv_File nv; nv_Process := nv_Process nv;
     nv_Capability := nv_Capability nv; nv_Network := nv_Network nv; nv_DNS := nv_DNS nv |}.

(** The visibility kept for a namespace, and a namespace with visibility [v]. *)
Definition vis_of (nv : NsVisibility) : Visibility :=
  {| vis_File := nv_File nv; vis_Process := nv_Process nv; vis_Network := nv_Network nv;
     vis_Capabilities := nv_Capability nv; vis_DNS := nv_DNS nv |}.
Definition with_vis (v : Visibility) (l : list NsKey) : NsVisibility :=
  {| nv_NsKeys := l; nv_File := vis_File v; nv_Process := vis_Process v;
     nv_Capability := vis_Capabilities v; nv_Network := vis_Network v; nv_DNS := vis_DNS v |}.

(** The visibility that a configuration string asks for. *)
Definition parse_visibility (s : string) : Visibility :=
  {| vis_File := Contains s "file"; vis_Process := Contains s "process";
     vis_Network := Contains s "network"; vis_Capabilities := Contains s "capabilities";
     vis_DNS := Contains s "dns" |}.

(** ** Containers *)

Definition LookupContainerID (pidns mntns : Z) (mon : SystemMonitor) : string :=
  default "" (mon_NsMap mon !! {| ns_PidNS := pidns; ns_MntNS := mntns |}).

Definition AddContainerIDToNsMap (containerID namespace : string) (pidns mntns : Z)
    (mon : SystemMonitor) : SystemMonitor :=
  let key := {| ns_PidNS := pidns; ns_MntNS := mntns |} in
  let mon := set_NsMap (<[key := containerID]> (mon_NsMap mon)) mon in
  match mon_NamespacePidsMap mon !! namespace with
  | Some val =>
      if existsb (λ k, (ns_MntNS k =? mntns) && (ns_PidNS k =? pidns)) (nv_NsKeys val)
      then mon
      else
        let val := with_keys (nv_NsKeys val ++ [key]) val in
        on_store (update_NsKey "ADDED" key (vis_of val))
          (set_Pids (<[namespace := val]> (mon_NamespacePidsMap mon)) mon)
  | None =>
      on_store (update_NsKey "ADDED" key (parse_visibility (cfg_Visibility cfg)))
        (set_Pids (<[namespace := with_vis empty_Visibility [key]]>
                     (mon_NamespacePidsMap mon)) mon)
  end.

(** The loops that drop the first equal key of a namespace. *)
Fixpoint remove_key (ns : NsKey) (l : list NsKey) : list NsKey :=
  match l with
  | [] => []
  | k :: l' =>
      if (ns_MntNS k =? ns_MntNS ns) && (ns_PidNS k =? ns_PidNS ns) then l'
      else k :: remove_key ns l'
  end.

(** The first key that ranging over the map finds for a container. *)
Definition find_key (containerID : string) (m : gmap NsKey string) : option NsKey :=
  fst <$> find (λ kv, String.eqb containerID kv.2) (go_range m).

Definition DeleteContainerIDFromNsMap (containerID namespace : string) (pidns mntns : Z)
    (mon : SystemMonitor) : SystemMonitor :=
  let ns := {| ns_PidNS := pidns; ns_MntNS := mntns |} in
  let '(mon, found) :=
    if negb (pidns =? 0) && negb (mntns =? 0)
    then (set_NsMap (delete ns (mon_NsMap mon)) mon, Some ns)
    else (mon, find_key containerID (mon_NsMap mon)) in
  match found with
  | None => mon
  | Some ns =>
      match mon_NamespacePidsMap mon !! namespace with
      | Some val =>
          on_store (update_NsKey "DELETED" ns empty_Visibility)
            (set_Pids (<[namespace := with_keys (remove_key ns (nv_NsKeys val)) val]>
                         (mon_NamespacePidsMap mon)) mon)
      | None => mon
      end
  end.

(** [HandleUnknownNamespaceNsMap] of the daemon. *)
Definition HandleUnknownNamespaceNsMap (containerID namespace : string) (pidns mntns : Z)
    (mon : SystemMonitor) : SystemMonitor :=
  let mon := AddContainerIDToNsMap containerID namespace pidns mntns mon in
  match mon_NamespacePidsMap mon !! "Unknown" with
  | Some val =>
      let key := {| ns_PidNS := pidns; ns_MntNS := mntns |} in
      set_Pids (<["Unknown" := with_keys (remove_key key (nv_NsKeys val)) val]>
                  (mon_NamespacePidsMap mon)) mon
  | None => mon
  end.

(** ** Visibility *)

(** [UpdateVisibility] of the monitor: host and global default. *)
Definition UpdateVisibility (mon : SystemMonitor) : SystemMonitor :=
  let hostVisibility :=
    if cfg_HostPolicy cfg then parse_visibility (cfg_HostVisibility cfg)
    else empty_Visibility in
  on_store (update_NsKey "ADDED"
             {| ns_PidNS := DefaultVisibilityKey; ns_MntNS := DefaultVisibilityKey |}
             (parse_visibility (cfg_Visibility cfg)))
    (on_store (update_NsKey "ADDED" {| ns_PidNS := 0; ns_MntNS := 0 |} hostVisibility) mon).

(** [UpdateVisibility] of the daemon: one namespace. *)
Definition UpdateVisibility_ns (action namespace : string) (visibility : Visibility)
    (mon : SystemMonitor) : SystemMonitor :=
  if String.eqb action "ADDED" || String.eqb action "MODIFIED" then
    match mon_NamespacePidsMap mon !! namespace with
    | Some val =>
        let val := with_vis visibility (nv_NsKeys val) in
        foldl (λ mon nskey, on_store (update_NsKey "MODIFIED" nskey visibility) mon)
          (set_Pids (<[namespace := val]> (mon_NamespacePidsMap mon)) mon) (nv_NsKeys val)
    | None =>
        set_Pids (<[namespace := with_vis visibility []]> (mon_NamespacePidsMap mon)) mon
    end
  else if String.eqb action "DELETED" then
    let mon :=
      match mon_NamespacePidsMap mon !! namespace with
      | Some val =>
          foldl (λ mon nskey, on_store (update_NsKey "DELETED" nskey empty_Visibility) mon)
                mon (nv_NsKeys val)
      | None => mon
      end in
    set_Pids (delete namespace (mon_NamespacePidsMap mon)) mon
  else mon.

(** ** Sequences of operations *)

Inductive op :=
| OAdd (id ns : string) (pidns mntns : Z)
| ODel (id ns : string) (pidns mntns : Z)
| OUnknown (id ns : string) (pidns mntns : Z)
| OVis (action ns : string) (v : Visibility)
| OGlobal.

Definition exec (mon : SystemMonitor) (o : op) : SystemMonitor :=
  match o with
  | OAdd id ns p n => AddContainerIDToNsMap id ns p n mon
  | ODel id ns p n => DeleteContainerIDFromNsMap id ns p n mon
  | OUnknown id ns p n => HandleUnknownNamespaceNsMap id ns p n mon
  | OVis a ns v => UpdateVisibility_ns a ns v mon
  | OGlobal => UpdateVisibility mon
  end.

Definition exec_all : list op → SystemMonitor → SystemMonitor := flip (foldl exec).
End monitor.

(** ** The kernel's maps *)

Section kernel.
Context {VM OM : Type} `{EV : !EbpfMap VM Z Z} `{EO : !EbpfMap OM NsKey nat}.

(** The maps by descriptor, the descriptor of each key, and the kernel's map from
    keys to maps. *)
Record Kernel := {
  ks_NsVisibilityMap : gmap NsKey nat;
  ks_maps : gmap nat VM;
  ks_BpfNsVisibilityMap : OM }.

(** [cle.NewMap] with initial contents: a fresh descriptor and a map, or an error. *)
Context (NewMap : Kernel → list (Z * Z) → option (nat * VM)).

Definition visibilityOff : Z := 1.
Definition visibilityOn : Z := 0.

Definition value (b : bool) : Z := if b then visibilityOn else visibilityOff.

Definition contents (v : Visibility) : list (Z * Z) :=
  [(0, value (vis_File v)); (1, value (vis_Process v)); (2, value (vis_Network v));
   (3, value (vis_Capabilities v)); (4, value (vis_DNS v))].

(** One [Put] on the map with descriptor [h]; errors are only logged. *)
Definition vis_Put (h : nat) (ks : Kernel) (kv : Z * Z) : Kernel :=
  match ks_maps ks !! h with
  | Some m =>
      {| ks_NsVisibilityMap := ks_NsVisibilityMap ks;
         ks_maps := <[h := (em_Put m kv.1 kv.2).1]> (ks_maps ks);
         ks_BpfNsVisibilityMap := ks_BpfNsVisibilityMap ks |}
  | None => ks
  end.

Definition UpdateNsKeyMap (action : string) (nsKey : NsKey) (visibility : Visibility)
    (ks : Kernel) : Kernel :=
  if String.eqb action "ADDED" then
    match NewMap ks (contents visibility) with
    | None => ks
    | Some (h, visibilityMap) =>
        {| ks_NsVisibilityMap := <[nsKey := h]> (ks_NsVisibilityMap ks);
           ks_maps := <[h := visibilityMap]> (ks_maps ks);
           ks_BpfNsVisibilityMap := (em_Put (ks_BpfNsVisibilityMap ks) nsKey h).1 |}
    end
  else if String.eqb action "MODIFIED" then
    match ks_NsVisibilityMap ks !! nsKey with
    | None => ks
    | Some h => foldl (vis_Put h) ks (contents visibility)
    end
  else if String.eqb action "DELETED" then
    let '(om, err) := em_Delete (ks_BpfNsVisibilityMap ks) nsKey in
    match err with
    | Some _ =>
        {| ks_NsVisibilityMap := ks_NsVisibilityMap ks; ks_maps := ks_maps ks;
           ks_BpfNsVisibilityMap := om |}
    | None =>
        {| ks_NsVisibilityMap := delete nsKey (ks_NsVisibilityMap ks); ks_maps := ks_maps ks;
           ks_BpfNsVisibilityMap := om |}
    end
  else ks.

#[export] Instance kernel_store : NsKeyStore Kernel := UpdateNsKeyMap.
End kernel.
