(* ===== verification/NsMapProps.v ===== *)
(** Properties of the namespace maps of [NsMap]: what the kernel has in force for
    each namespace key, and which container each key stands for. *)
From S2P Require Import Prelude GoStrings Types BpfEnforcer NsMap.

Open Scope string_scope.
Open Scope Z_scope.

(** ** Specification: the visibility in force for each key *)

Abbreviation InForce := (gmap NsKey Visibility).

Definition InForce_update (action : string) (k : NsKey) (v : Visibility) (a : InForce)
    : InForce :=
  if String.eqb action "ADDED" then <[k := v]> a
  else if String.eqb action "MODIFIED" then alter (λ _, v) k a
  else if String.eqb action "DELETED" then delete k a
  else a.

#[export] Instance InForce_store : NsKeyStore InForce := InForce_update.

(** ** Two stores in step *)

Section simulation.
Context `{R : GoRange} (cfg : Config) {S1 S2 : Type}.
Context `{ST1 : !NsKeyStore S1} `{ST2 : !NsKeyStore S2} (sim : S1 → S2 → Prop).
Context (Hsim : ∀ a k v s1 s2,
  sim s1 s2 → sim (update_NsKey a k v s1) (update_NsKey a k v s2)).

Record in_step (m1 : @SystemMonitor S1) (m2 : @SystemMonitor S2) : Prop := {
  is_NsMap : mon_NsMap m1 = mon_NsMap m2;
  is_Pids : mon_NamespacePidsMap m1 = mon_NamespacePidsMap m2;
  is_store : sim (mon_store m1) (mon_store m2) }.

Lemma in_step_NsMap m m1 m2 : in_step m1 m2 → in_step (set_NsMap m m1) (set_NsMap m m2).
Proof. intros []. by constructor. Qed.

Lemma in_step_Pids m m1 m2 : in_step m1 m2 → in_step (set_Pids m m1) (set_Pids m m2).
Proof. intros []. by constructor. Qed.

Lemma in_step_store a k v m1 m2 :
  in_step m1 m2 → in_step (on_store (update_NsKey a k v) m1) (on_store (update_NsKey a k v) m2).
Proof. intros []. constructor; [done|done|]. by apply Hsim. Qed.

Lemma in_step_loop a v l m1 m2 :
  in_step m1 m2 →
  in_step (foldl (λ m k, on_store (update_NsKey a k v) m) m1 l)
          (foldl (λ m k, on_store (update_NsKey a k v) m) m2 l).
Proof. intros H. apply foldl_rel; [done|]. intros. by apply in_step_store. Qed.

Lemma in_step_add id ns p n m1 m2 :
  in_step m1 m2 →
  in_step (AddContainerIDToNsMap cfg id ns p n m1) (AddContainerIDToNsMap cfg id ns p n m2).
Proof.
  intros H. pose proof H as [E1 E2 E3]. unfold AddContainerIDToNsMap. cbn. rewrite E1, E2.
  case_match; [case_match|];
    auto using in_step_NsMap, in_step_Pids, in_step_store.
Qed.

Lemma in_step_exec m1 m2 o : in_step m1 m2 → in_step (exec cfg m1 o) (exec cfg m2 o).
Proof.
  intros H. pose proof H as [E1 E2 E3]. destruct o; cbn [exec].
  - by apply in_step_add.
  - unfold DeleteContainerIDFromNsMap. rewrite E1.
    destruct (negb (pidns =? 0) && negb (mntns =? 0));
      [|destruct (find_key id (mon_NsMap m2)); [|done]]; cbn; rewrite E2;
      (case_match; [|done || by apply in_step_NsMap]);
      auto using in_step_NsMap, in_step_Pids, in_step_store.
  - unfold HandleUnknownNamespaceNsMap.
    apply (in_step_add id ns pidns mntns) in H as H'. cbn zeta. rewrite (is_Pids _ _ H').
    case_match; auto using in_step_Pids.
  - unfold UpdateVisibility_ns. rewrite E2.
    destruct (String.eqb action "ADDED" || String.eqb action "MODIFIED").
    { case_match; auto using in_step_Pids, in_step_loop. }
    destruct (String.eqb action "DELETED"); [|done].
    destruct (mon_NamespacePidsMap m2 !! ns) as [nv|].
    + apply (in_step_loop "DELETED" empty_Visibility (nv_NsKeys nv)) in H as H'.
      rewrite (is_Pids _ _ H'). by apply in_step_Pids.
    + rewrite E2. by apply in_step_Pids.
  - unfold UpdateVisibility. auto using in_step_store.
Qed.

Lemma in_step_exec_all l m1 m2 :
  in_step m1 m2 → in_step (exec_all cfg l m1) (exec_all cfg l m2).
Proof.
  intros H. unfold exec_all, flip. apply foldl_rel; [done|]. intros. by apply in_step_exec.
Qed.
End simulation.

(** ** The kernel's maps implement the specification *)

Section kernel_props.
Context `{R : GoRange} (cfg : Config).
Context {VM OM : Type} `{EV : !EbpfMap VM Z Z} `{EO : !EbpfMap OM NsKey nat}.
Context `{LV : !EbpfMapLaw VM Z Z} `{LO : !EbpfMapLaw OM NsKey nat}.
Context (NewMap : @Kernel VM OM → list (Z * Z) → option (nat * VM)).

(** A kernel that has room: maps are created with fresh descriptors and the given
    contents, and [Put] and the deletion of a present key succeed. *)
Definition reliable : Prop :=
  (∀ ks c, ∃ h m, NewMap ks c = Some (h, m) ∧ ks_maps ks !! h = None ∧
                  em_view m = list_to_map c) ∧
  (∀ (m : VM) k v, (em_Put m k v).2 = None) ∧
  (∀ (m : OM) k v, (em_Put m k v).2 = None) ∧
  (∀ (m : OM) k, is_Some (em_view m !! k) → (em_Delete m k).2 = None).

(** What the kernel reports for a key: the contents of the map it finds. *)
Definition kview (ks : @Kernel VM OM) (k : NsKey) : option (gmap Z Z) :=
  h ← em_view (ks_BpfNsVisibilityMap ks) !! k;
  m ← ks_maps ks !! h;
  Some (em_view m).

Definition shown (v : Visibility) : gmap Z Z := list_to_map (contents v).

(** Every key has a map of its own, known to the kernel and to the program, that
    holds the visibility in force. *)
Definition ksim (ks : @Kernel VM OM) (a : InForce) : Prop :=
  (∀ k, em_view (ks_BpfNsVisibilityMap ks) !! k = ks_NsVisibilityMap ks !! k) ∧
  (∀ k1 k2 h, ks_NsVisibilityMap ks !! k1 = Some h → ks_NsVisibilityMap ks !! k2 = Some h →
              k1 = k2) ∧
  (∀ k, match a !! k with
        | None => ks_NsVisibilityMap ks !! k = None
        | Some v => ∃ h m, ks_NsVisibilityMap ks !! k = Some h ∧
                           ks_maps ks !! h = Some m ∧ em_view m = shown v
        end).

Lemma ksim_view ks a k : ksim ks a → kview ks k = shown <$> a !! k.
Proof.
  intros (H1 & _ & H3). unfold kview. rewrite H1. specialize (H3 k).
  destruct (a !! k) as [v|].
  - destruct H3 as (h & m & -> & Hm & Hv). cbn. rewrite Hm. cbn. by rewrite Hv.
  - by rewrite H3.
Qed.

Context (Hrel : reliable).

Lemma ksim_added k v ks a :
  ksim ks a → ksim (UpdateNsKeyMap NewMap "ADDED" k v ks) (InForce_update "ADDED" k v a).
Proof.
  destruct Hrel as (HN & _ & HP & _). intros (H1 & H2 & H3).
  unfold UpdateNsKeyMap, InForce_update. cbn [String.eqb Ascii.eqb Bool.eqb].
  destruct (HN ks (contents v)) as (h & m & -> & Hh & Hm).
  assert (∀ k' h', ks_NsVisibilityMap ks !! k' = Some h' → h ≠ h') as Hfresh.
  { intros k' h' Hk' ->. specialize (H3 k').
    destruct (a !! k'); [|congruence]. destruct H3 as (h2 & m2 & E2 & Em2 & _). congruence. }
  split_and!; cbn; [intros k'|intros k1 k2 h'|intros k'].
  - rewrite em_Put_view, HP. destruct (decide (k = k')) as [<-|Hne].
    + by rewrite !lookup_insert_eq.
    + rewrite !lookup_insert_ne by done. apply H1.
  - destruct (decide (k = k1)) as [<-|], (decide (k = k2)) as [<-|]; [done|..];
      rewrite ?lookup_insert_eq, ?lookup_insert_ne by done; intros E1 E2.
    + simplify_eq. by apply Hfresh in E2.
    + simplify_eq. by apply Hfresh in E1.
    + by apply (H2 k1 k2 h').
  - destruct (decide (k = k')) as [<-|Hne].
    + rewrite !lookup_insert_eq. exists h, m. by rewrite lookup_insert_eq.
    + rewrite !lookup_insert_ne by done. specialize (H3 k').
      destruct (a !! k'); [|done]. destruct H3 as (h' & m' & E & Em & Ev).
      exists h', m'. rewrite lookup_insert_ne; [done|]. by apply (Hfresh k').
Qed.

Lemma ksim_deleted k v ks a :
  ksim ks a → ksim (UpdateNsKeyMap NewMap "DELETED" k v ks) (InForce_update "DELETED" k v a).
Proof.
  destruct Hrel as (_ & _ & _ & HD). intros (H1 & H2 & H3).
  unfold UpdateNsKeyMap, InForce_update. cbn [String.eqb Ascii.eqb Bool.eqb].
  pose proof (em_Delete_view (ks_BpfNsVisibilityMap ks) k) as Hv.
  specialize (HD (ks_BpfNsVisibilityMap ks) k).
  destruct (em_Delete (ks_BpfNsVisibilityMap ks) k) as [om [err|]]; cbn in *.
  - assert (a !! k = None) as Ha.
    { specialize (H3 k). destruct (a !! k); [|done]. destruct H3 as (h & m & E & _).
      rewrite H1, E in HD. specialize (HD ltac:(by eexists)). done. }
    rewrite delete_id by done. split_and!; cbn; [by rewrite Hv|done..].
  - split_and!; cbn; [intros k'|intros k1 k2 h' ?%lookup_delete_Some ?%lookup_delete_Some
      |intros k'].
    + rewrite Hv. destruct (decide (k = k')) as [<-|Hne].
      * by rewrite !lookup_delete_eq.
      * by rewrite !lookup_delete_ne.
    + naive_solver.
    + destruct (decide (k = k')) as [<-|Hne].
      * by rewrite !lookup_delete_eq.
      * rewrite !lookup_delete_ne by done. apply H3.
Qed.

(** Putting the five values into an open map. *)
Lemma vis_Put_all h l (ks : @Kernel VM OM) m :
  ks_maps ks !! h = Some m →
  ∃ m', foldl (vis_Put h) ks l =
        {| ks_NsVisibilityMap := ks_NsVisibilityMap ks;
           ks_maps := <[h := m']> (ks_maps ks);
           ks_BpfNsVisibilityMap := ks_BpfNsVisibilityMap ks |} ∧
        em_view m' = insert_all l (em_view m).
Proof.
  destruct Hrel as (_ & HP & _ & _).
  revert ks m. induction l as [|[i x] l IH]; intros ks m Hm; cbn [foldl].
  - exists m. rewrite insert_id by done. by destruct ks.
  - assert (vis_Put h ks (i, x) =
      {| ks_NsVisibilityMap := ks_NsVisibilityMap ks;
         ks_maps := <[h := (em_Put m i x).1]> (ks_maps ks);
         ks_BpfNsVisibilityMap := ks_BpfNsVisibilityMap ks |}) as ->.
    { unfold vis_Put. by rewrite Hm. }
    edestruct IH as (m' & -> & E); [cbn; apply lookup_insert_eq|]. cbn in *.
    exists m'. rewrite insert_insert_eq. split; [done|]. rewrite E, em_Put_view, HP. done.
Qed.

(** The contents have the same five keys whatever the visibility. *)
Lemma contents_overwrite v v' : insert_all (contents v') (shown v) = shown v'.
Proof.
  unfold shown, contents.
  generalize (value (vis_File v)) (value (vis_Process v)) (value (vis_Network v))
    (value (vis_Capabilities v)) (value (vis_DNS v)) (value (vis_File v'))
    (value (vis_Process v')) (value (vis_Network v')) (value (vis_Capabilities v'))
    (value (vis_DNS v')).
  intros. vm_compute. reflexivity.
Qed.

Lemma ksim_modified k v ks a :
  ksim ks a →
  ksim (UpdateNsKeyMap NewMap "MODIFIED" k v ks) (InForce_update "MODIFIED" k v a).
Proof.
  intros (H1 & H2 & H3).
  unfold UpdateNsKeyMap, InForce_update. cbn [String.eqb Ascii.eqb Bool.eqb].
  pose proof (H3 k) as Hk. destruct (a !! k) as [v0|] eqn:Ha.
  - destruct Hk as (h & m & Eh & Em & Ev). rewrite Eh.
    destruct (vis_Put_all h (contents v) ks m Em) as (m' & -> & Ev').
    rewrite Ev, contents_overwrite in Ev'.
    split_and!; cbn; [done|done|]. intros k'. destruct (decide (k = k')) as [<-|Hne].
    + rewrite lookup_alter_eq, Ha. cbn. exists h, m'. by rewrite lookup_insert_eq.
    + rewrite lookup_alter_ne by done. specialize (H3 k'). destruct (a !! k'); [|done].
      destruct H3 as (h2 & m2 & E2 & Em2 & Ev2). exists h2, m2.
      rewrite lookup_insert_ne; [done|]. intros <-. apply Hne. by apply (H2 k k' h).
  - rewrite Hk. assert (alter (λ _, v) k a = a) as ->; [|done].
    apply map_eq; intros k'. destruct (decide (k = k')) as [<-|Hne].
    + by rewrite lookup_alter_eq, Ha.
    + by rewrite lookup_alter_ne.
Qed.

Lemma ksim_update act k v ks a :
  ksim ks a → ksim (UpdateNsKeyMap NewMap act k v ks) (InForce_update act k v a).
Proof.
  intros H. destruct (String.eqb_spec act "ADDED") as [->|]; [by apply ksim_added|].
  destruct (String.eqb_spec act "MODIFIED") as [->|]; [by apply ksim_modified|].
  destruct (String.eqb_spec act "DELETED") as [->|]; [by apply ksim_deleted|].
  unfold UpdateNsKeyMap, InForce_update.
  by repeat (rewrite (proj2 (String.eqb_neq _ _)) by done).
Qed.
End kernel_props.

(** ** Keys of a namespace *)

Definition mkKey (p n : Z) : NsKey := {| ns_PidNS := p; ns_MntNS := n |}.

Lemma key_test k p n : (ns_MntNS k =? n) && (ns_PidNS k =? p) = bool_decide (k = mkKey p n).
Proof.
  destruct k as [p' n']; cbn. unfold mkKey.
  destruct (Z.eqb_spec n' n) as [->|], (Z.eqb_spec p' p) as [->|]; cbn; symmetry;
    first [by apply bool_decide_eq_true | apply bool_decide_eq_false; naive_solver].
Qed.

Lemma has_key l p n :
  existsb (λ k, (ns_MntNS k =? n) && (ns_PidNS k =? p)) l = bool_decide (mkKey p n ∈ l).
Proof.
  induction l as [|k l IH]; cbn; [done|]. rewrite key_test, IH.
  destruct (decide (k = mkKey p n)) as [->|Hne].
  - rewrite bool_decide_true by done. symmetry. apply bool_decide_eq_true. left.
  - rewrite (bool_decide_false (k = _)) by done. cbn. apply bool_decide_ext.
    rewrite elem_of_cons. naive_solver.
Qed.

Lemma remove_key_elem k k' l :
  NoDup l → k' ∈ remove_key k l ↔ k' ∈ l ∧ k' ≠ k.
Proof.
  induction 1 as [|x l Hx Hl IH]; cbn; [set_solver|]. rewrite key_test.
  destruct k as [p n]. fold (mkKey p n) in *. case_bool_decide as E.
  - subst x. set_solver.
  - set_solver.
Qed.

Lemma remove_key_NoDup k l : NoDup l → NoDup (remove_key k l).
Proof.
  induction 1 as [|x l Hx Hl IH]; cbn; [constructor|]. case_match; [done|].
  constructor; [|done]. rewrite remove_key_elem by done. tauto.
Qed.

Lemma remove_key_absent k l : k ∉ l → remove_key k l = l.
Proof.
  induction l as [|x l IH]; cbn; [done|]. intros Hk. rewrite key_test.
  destruct k as [p n]. rewrite bool_decide_false by set_solver. f_equal. set_solver.
Qed.

(** ** What is in force after a sequence of operations *)

Section in_force.
Context `{R : GoRange} (cfg : Config).
Abbreviation MON := (@SystemMonitor InForce).

Lemma loop_store (f : InForce → NsKey → InForce) l (mon : MON) :
  foldl (λ mon k, on_store (λ s, f s k) mon) mon l = on_store (λ s, foldl f s l) mon.
Proof. revert mon. induction l as [|k l IH]; intros mon; [by destruct mon|]. apply IH. Qed.

Lemma modify_all v l (a : InForce) k :
  foldl (λ a k, InForce_update "MODIFIED" k v a) a l !! k =
  if decide (k ∈ l) then (λ _, v) <$> a !! k else a !! k.
Proof.
  revert a. induction l as [|x l IH]; intros a; cbn [foldl]; [done|].
  rewrite IH. unfold InForce_update. cbn [String.eqb Ascii.eqb Bool.eqb].
  destruct (decide (x = k)) as [->|Hne].
  - rewrite lookup_alter_eq, (decide_True (P := k ∈ k :: l)) by left.
    case_decide; by destruct (a !! k).
  - rewrite lookup_alter_ne by done. apply decide_ext. set_solver.
Qed.

Lemma OVis_eq act ns v (mon : MON) :
  act = "ADDED" ∨ act = "MODIFIED" →
  UpdateVisibility_ns act ns v mon =
  let keys := default [] (nv_NsKeys <$> mon_NamespacePidsMap mon !! ns) in
  on_store (λ s, foldl (λ a k, InForce_update "MODIFIED" k v a) s keys)
    (set_Pids (<[ns := with_vis v keys]> (mon_NamespacePidsMap mon)) mon).
Proof.
  intros Hact. unfold UpdateVisibility_ns.
  assert (String.eqb act "ADDED" || String.eqb act "MODIFIED" = true) as ->.
  { destruct Hact as [-> | ->]; done. }
  destruct (mon_NamespacePidsMap mon !! ns) as [nv|]; cbn zeta; cbn [fmap option_fmap option_map default].
  - by rewrite <- loop_store.
  - by destruct mon.
Qed.

(** Each key belongs to one namespace, and not to the host or the default. *)
Definition container_key (p n : Z) : Prop :=
  p ≠ 0 ∧ n ≠ 0 ∧ (p, n) ≠ (DefaultVisibilityKey, DefaultVisibilityKey).

Definition owned (owner : NsKey → string) (o : op) : Prop :=
  match o with
  | OAdd _ ns p n | ODel _ ns p n => container_key p n ∧ owner (mkKey p n) = ns
  | OUnknown _ ns p n => container_key p n ∧ owner (mkKey p n) = ns ∧ ns ≠ "Unknown"
  | OVis a _ _ => a = "ADDED" ∨ a = "MODIFIED"
  | OGlobal => True
  end.

(** The last visibility set for a namespace. *)
Definition last_step (ns : string) (acc : option Visibility) (o : op) : option Visibility :=
  match o with
  | OVis _ ns' v => if String.eqb ns' ns then Some v else acc
  | _ => acc
  end.

Definition last_vis (ns : string) : list op → option Visibility := foldl (last_step ns) None.

(** The invariant; [last] is the last visibility set for each namespace. *)
Record good (owner : NsKey → string) (last : string → option Visibility) (mon : MON) : Prop := {
  good_keys ns nv : mon_NamespacePidsMap mon !! ns = Some nv →
    NoDup (nv_NsKeys nv) ∧
    Forall (λ k, owner k = ns ∧ container_key (ns_PidNS k) (ns_MntNS k) ∧
                 is_Some (mon_store mon !! k)) (nv_NsKeys nv);
  good_registered k id : mon_NsMap mon !! k = Some id →
    ∃ nv, mon_NamespacePidsMap mon !! owner k = Some nv ∧ k ∈ nv_NsKeys nv;
  good_last ns v : last ns = Some v →
    ∃ nv, mon_NamespacePidsMap mon !! ns = Some nv ∧ vis_of nv = v ∧
          Forall (λ k, mon_store mon !! k = Some v) (nv_NsKeys nv) }.

Context (owner : NsKey → string) (last : string → option Visibility).

(** A change of the store at one key leaves the other namespaces alone. *)
Lemma good_other (mon : MON) ns nv key (s : InForce) :
  good owner last mon → mon_NamespacePidsMap mon !! ns = Some nv → owner key ≠ ns →
  (∀ k, k ≠ key → s !! k = mon_store mon !! k) →
  Forall (λ k, owner k = ns ∧ container_key (ns_PidNS k) (ns_MntNS k) ∧ is_Some (s !! k))
         (nv_NsKeys nv).
Proof.
  intros Hg Hns Hown Hs. destruct (good_keys _ _ _ Hg ns nv Hns) as [_ Hk].
  eapply list.Forall_impl; [exact Hk|]. cbn. intros k (Ho & Hc & Hi). rewrite Hs by congruence.
  done.
Qed.

Lemma good_other_last (mon : MON) ns nv key v (s : InForce) :
  good owner last mon → mon_NamespacePidsMap mon !! ns = Some nv → owner key ≠ ns →
  (∀ k, k ≠ key → s !! k = mon_store mon !! k) →
  Forall (λ k, mon_store mon !! k = Some v) (nv_NsKeys nv) →
  Forall (λ k, s !! k = Some v) (nv_NsKeys nv).
Proof.
  intros Hg Hns Hown Hs Hv. destruct (good_keys _ _ _ Hg ns nv Hns) as [_ Hk].
  apply list.Forall_forall. intros k Hin.
  pose proof (Forall_elem _ _ _ Hk Hin) as (Ho & _). rewrite Hs by congruence.
  exact (Forall_elem _ _ _ Hv Hin).
Qed.

(** A namespace gets the key [key], which it does not have, with visibility [v]. *)
Lemma good_new_key (mon : MON) id ns nv key v :
  good owner last mon → owner key = ns → container_key (ns_PidNS key) (ns_MntNS key) →
  key ∉ nv_NsKeys nv →
  (mon_NamespacePidsMap mon !! ns = Some nv ∨
   mon_NamespacePidsMap mon !! ns = None ∧ nv_NsKeys nv = []) →
  (is_Some (last ns) → v = vis_of nv) →
  good owner last
    {| mon_NsMap := <[key := id]> (mon_NsMap mon);
       mon_NamespacePidsMap :=
         <[ns := with_keys (nv_NsKeys nv ++ [key]) nv]> (mon_NamespacePidsMap mon);
       mon_store := <[key := v]> (mon_store mon) |}.
Proof.
  intros Hg Hown Hc Hkey Hnv Hv.
  assert (∀ k, k ≠ key → <[key := v]> (mon_store mon) !! k = mon_store mon !! k) as Hs.
  { intros k Hk. by apply lookup_insert_ne. }
  assert (NoDup (nv_NsKeys nv) ∧
    Forall (λ k, owner k = ns ∧ container_key (ns_PidNS k) (ns_MntNS k) ∧
                 is_Some (mon_store mon !! k)) (nv_NsKeys nv)) as [Hnd Hall].
  { destruct Hnv as [Hnv|[_ ->]]; [by apply (good_keys _ _ _ Hg)|]. split; constructor. }
  split; cbn.
  - intros ns' nv'. destruct (decide (ns = ns')) as [<-|Hne].
    + rewrite lookup_insert_eq. intros [= <-]. cbn. split.
      { apply list.NoDup_app. split_and!; [done| |apply NoDup_singleton]. set_solver. }
      apply list.Forall_app. split.
      * eapply list.Forall_impl; [exact Hall|]. cbn. intros k (Ho & Hk & Hi).
        split_and!; [done|done|]. destruct (decide (k = key)) as [->|].
        -- by rewrite lookup_insert_eq.
        -- by rewrite Hs.
      * repeat constructor; [done|apply Hc..|]. rewrite lookup_insert_eq. by eexists.
    + rewrite lookup_insert_ne by done. intros Hns'.
      split; [by apply (good_keys _ _ _ Hg ns')|].
      apply (good_other mon ns' nv' key); [done|done|congruence|done].
  - intros k id'. destruct (decide (key = k)) as [<-|Hne].
    + intros _. rewrite Hown, lookup_insert_eq. eexists. split; [done|]. cbn. set_solver.
    + rewrite lookup_insert_ne by done. intros (nv' & Hns' & Hin)%(good_registered _ _ _ Hg).
      destruct (decide (ns = owner k)) as [E|Hne'].
      * rewrite <- E, lookup_insert_eq. eexists. split; [done|]. cbn.
        destruct Hnv as [Hnv|[Hnv _]]; [|congruence].
        assert (nv' = nv) as -> by congruence. set_solver.
      * rewrite lookup_insert_ne by done. by exists nv'.
  - intros ns' v' Hl. destruct (good_last _ _ _ Hg ns' v' Hl) as (nv' & Hns' & Hv' & Hf).
    destruct (decide (ns = ns')) as [<-|Hne].
    + rewrite lookup_insert_eq. eexists. split; [done|]. cbn.
      destruct Hnv as [Hnv|[Hnv _]]; [|congruence].
      assert (nv' = nv) as -> by congruence. split; [by destruct nv|].
      apply list.Forall_app. split.
      * apply list.Forall_forall. intros k Hk. rewrite Hs by congruence.
        exact (Forall_elem _ _ _ Hf Hk).
      * repeat constructor. rewrite lookup_insert_eq, Hv, Hv'; [done|by eexists].
    + rewrite lookup_insert_ne by done. exists nv'. split_and!; [done|done|].
      apply (good_other_last mon ns' nv' key); [done|done|congruence|done|done].
Qed.

Lemma good_add (mon : MON) id ns p n :
  good owner last mon → owner (mkKey p n) = ns → container_key p n →
  good owner last (AddContainerIDToNsMap cfg id ns p n mon).
Proof.
  intros Hg Hown Hc. unfold AddContainerIDToNsMap. cbn zeta.
  cbn [mon_NamespacePidsMap set_NsMap]. fold (mkKey p n).
  destruct (mon_NamespacePidsMap mon !! ns) as [nv|] eqn:Hns.
  - rewrite has_key. case_bool_decide as Hin.
    + destruct Hg as [H1 H2 H3]. split; cbn; [done| |done]. intros k id'.
      destruct (decide (mkKey p n = k)) as [<-|Hne].
      * rewrite Hown. by exists nv.
      * rewrite lookup_insert_ne by done. apply H2.
    + apply (good_new_key mon id ns nv (mkKey p n)); auto.
  - apply (good_new_key mon id ns (with_vis empty_Visibility []) (mkKey p n)); auto.
    + set_solver.
    + intros [v Hl]. destruct (good_last _ _ _ Hg ns v Hl) as (nv & E & _). congruence.
Qed.

Lemma good_del (mon : MON) id ns p n :
  good owner last mon → owner (mkKey p n) = ns → container_key p n →
  good owner last (DeleteContainerIDFromNsMap id ns p n mon).
Proof.
  intros Hg Hown (Hp & Hn & _). unfold DeleteContainerIDFromNsMap. cbn zeta. fold (mkKey p n).
  rewrite (proj2 (Z.eqb_neq p 0) Hp), (proj2 (Z.eqb_neq n 0) Hn). cbn.
  assert (∀ k (s : InForce), k ≠ mkKey p n → delete (mkKey p n) s !! k = s !! k) as Hs.
  { intros k s Hk. by apply lookup_delete_ne. }
  destruct (mon_NamespacePidsMap mon !! ns) as [nv|] eqn:Hns.
  - destruct (good_keys _ _ _ Hg ns nv Hns) as [Hnd Hall].
    unfold on_store, set_Pids, update_NsKey, InForce_store, InForce_update.
    cbn [String.eqb Ascii.eqb Bool.eqb mon_store mon_NsMap mon_NamespacePidsMap].
    split; cbn.
    + intros ns' nv'. destruct (decide (ns = ns')) as [<-|Hne].
      * rewrite lookup_insert_eq. intros [= <-]. cbn.
        split; [by apply remove_key_NoDup|]. apply list.Forall_forall.
        intros k [Hin Hk]%remove_key_elem; [|done].
        rewrite Hs by done. exact (Forall_elem _ _ _ Hall Hin).
      * rewrite lookup_insert_ne by done. intros Hns'.
        split; [by apply (good_keys _ _ _ Hg ns')|].
        apply (good_other mon ns' nv' (mkKey p n)); [done|done|congruence|auto].
    + intros k id' [Hne Hk]%lookup_delete_Some.
      destruct (good_registered _ _ _ Hg k id' Hk) as (nv' & Hns' & Hin).
      destruct (decide (ns = owner k)) as [E|Hne'].
      * rewrite <- E, lookup_insert_eq. eexists. split; [done|]. cbn.
        assert (nv' = nv) as -> by congruence. by apply remove_key_elem.
      * rewrite lookup_insert_ne by done. by exists nv'.
    + intros ns' v' Hl. destruct (good_last _ _ _ Hg ns' v' Hl) as (nv' & Hns' & Hv' & Hf).
      destruct (decide (ns = ns')) as [<-|Hne].
      * rewrite lookup_insert_eq. eexists. split; [done|]. cbn.
        assert (nv' = nv) as -> by congruence. split; [by destruct nv|].
        apply list.Forall_forall. intros k [Hin Hk]%remove_key_elem; [|done].
        rewrite Hs by done. exact (Forall_elem _ _ _ Hf Hin).
      * rewrite lookup_insert_ne by done. exists nv'. split_and!; [done|done|].
        apply (good_other_last mon ns' nv' (mkKey p n)); [done|done|congruence|auto|done].
  - destruct Hg as [H1 H2 H3]. split; cbn; [done| |done].
    intros k id' [Hne Hk]%lookup_delete_Some. by apply (H2 k id').
Qed.

Lemma good_unknown (mon : MON) id ns p n :
  good owner last mon → owner (mkKey p n) = ns → container_key p n → ns ≠ "Unknown" →
  good owner last (HandleUnknownNamespaceNsMap cfg id ns p n mon).
Proof.
  intros Hg Hown Hc Hne. pose proof (good_add mon id ns p n Hg Hown Hc) as Hg'.
  unfold HandleUnknownNamespaceNsMap. cbn zeta. fold (mkKey p n).
  set (mon' := AddContainerIDToNsMap cfg id ns p n mon) in *.
  destruct (mon_NamespacePidsMap mon' !! "Unknown") as [nv|] eqn:E; [|done].
  destruct (good_keys _ _ _ Hg' _ _ E) as [_ Hall].
  rewrite remove_key_absent.
  - unfold set_Pids. rewrite insert_id; [by destruct mon'|]. rewrite E. by destruct nv.
  - intros Hin. apply (Forall_elem _ _ _ Hall) in Hin as [? _]. congruence.
Qed.

Lemma good_vis (mon : MON) act ns v :
  good owner last mon → act = "ADDED" ∨ act = "MODIFIED" →
  good owner (λ ns', if String.eqb ns ns' then Some v else last ns')
       (UpdateVisibility_ns act ns v mon).
Proof.
  intros Hg Hact. rewrite OVis_eq by done. cbn zeta.
  set (keys := default [] (nv_NsKeys <$> mon_NamespacePidsMap mon !! ns)).
  set (s := foldl (λ a k, InForce_update "MODIFIED" k v a) (mon_store mon) keys).
  assert (NoDup keys ∧ Forall (λ k, owner k = ns ∧
    container_key (ns_PidNS k) (ns_MntNS k) ∧ is_Some (mon_store mon !! k)) keys)
    as [Hnd Hall].
  { unfold keys. destruct (mon_NamespacePidsMap mon !! ns) as [nv|] eqn:E.
    - by apply (good_keys _ _ _ Hg).
    - split; constructor. }
  assert (∀ k, owner k ≠ ns → s !! k = mon_store mon !! k) as Hs.
  { intros k Hk. unfold s. rewrite modify_all. rewrite decide_False; [done|].
    intros Hin. apply (Forall_elem _ _ _ Hall) in Hin as [? _]. done. }
  assert (∀ k, k ∈ keys → s !! k = Some v) as Hs'.
  { intros k Hk. unfold s. rewrite modify_all, decide_True by done.
    apply (Forall_elem _ _ _ Hall) in Hk as (_ & _ & [v0 ->]). done. }
  assert (∀ k, is_Some (mon_store mon !! k) → is_Some (s !! k)) as Hsome.
  { intros k Hi. unfold s. rewrite modify_all. case_decide; [|done].
    destruct Hi as [v0 ->]. by eexists. }
  split; cbn; fold s.
  - intros ns' nv'. destruct (decide (ns = ns')) as [<-|Hne].
    + rewrite lookup_insert_eq. intros [= <-]. cbn. split; [done|].
      eapply list.Forall_impl; [exact Hall|]. cbn. naive_solver.
    + rewrite lookup_insert_ne by done. intros Hns'.
      destruct (good_keys _ _ _ Hg ns' nv' Hns') as [Hn Hk]. split; [done|].
      eapply list.Forall_impl; [exact Hk|]. cbn. naive_solver.
  - intros k id Hk. destruct (good_registered _ _ _ Hg k id Hk) as (nv' & Hns' & Hin).
    destruct (decide (ns = owner k)) as [E|Hne].
    + rewrite <- E, lookup_insert_eq. eexists. split; [done|]. cbn.
      unfold keys. rewrite E, Hns'. done.
    + rewrite lookup_insert_ne by done. by exists nv'.
  - intros ns' v'. destruct (String.eqb_spec ns ns') as [<-|Hne].
    + intros [= <-]. rewrite lookup_insert_eq. eexists. split; [done|]. cbn.
      split; [by destruct v|]. by apply list.Forall_forall.
    + intros Hl. destruct (good_last _ _ _ Hg ns' v' Hl) as (nv' & Hns' & Hv' & Hf).
      rewrite lookup_insert_ne by done. exists nv'. split_and!; [done|done|].
      destruct (good_keys _ _ _ Hg ns' nv' Hns') as [_ Hk].
      apply list.Forall_forall. intros k Hin.
      rewrite Hs; [exact (Forall_elem _ _ _ Hf Hin)|].
      apply (Forall_elem _ _ _ Hk) in Hin as [? _]. congruence.
Qed.

(** The host's and the default's keys are no container's. *)
Lemma good_global (mon : MON) :
  good owner last mon → good owner last (UpdateVisibility cfg mon).
Proof.
  intros Hg. unfold UpdateVisibility.
  set (v1 := parse_visibility (cfg_Visibility cfg)).
  set (v0 := if cfg_HostPolicy cfg then _ else _).
  set (kd := {| ns_PidNS := DefaultVisibilityKey; ns_MntNS := DefaultVisibilityKey |}).
  set (kh := {| ns_PidNS := 0; ns_MntNS := 0 |}).
  assert (∀ k (s : InForce), container_key (ns_PidNS k) (ns_MntNS k) →
    <[kd := v1]> (<[kh := v0]> s) !! k = s !! k) as Hs.
  { intros [p n] s (Hp & Hn & Hd). cbn in *. rewrite !lookup_insert_ne; [done|..].
    - unfold kh. congruence.
    - unfold kd. congruence. }
  change (good owner last {| mon_NsMap := mon_NsMap mon;
    mon_NamespacePidsMap := mon_NamespacePidsMap mon;
    mon_store := <[kd := v1]> (<[kh := v0]> (mon_store mon)) |}).
  split; cbn.
  - intros ns nv Hns. destruct (good_keys _ _ _ Hg ns nv Hns) as [Hnd Hall].
    split; [done|]. eapply list.Forall_impl; [exact Hall|]. cbn.
    intros k (Ho & Hc & Hi). by rewrite Hs.
  - apply (good_registered _ _ _ Hg).
  - intros ns v Hl. destruct (good_last _ _ _ Hg ns v Hl) as (nv & Hns & Hv & Hf).
    exists nv. split_and!; [done|done|].
    destruct (good_keys _ _ _ Hg ns nv Hns) as [_ Hall].
    apply list.Forall_forall. intros k Hin.
    pose proof (Forall_elem _ _ _ Hall Hin) as (_ & Hc & _).
    rewrite Hs by done. exact (Forall_elem _ _ _ Hf Hin).
Qed.

Lemma good_ext last' (mon : MON) :
  (∀ ns, last ns = last' ns) → good owner last mon → good owner last' mon.
Proof.
  intros E [H1 H2 H3]. split; [done|done|]. intros ns v Hl. apply H3. by rewrite E.
Qed.
End in_force.

(** Every sequence of operations that respects the owners keeps the invariant. *)
Lemma good_run `{R : GoRange} cfg owner l :
  Forall (owned owner) l →
  good owner (λ ns, last_vis ns l)
    (exec_all cfg l {| mon_NsMap := ∅; mon_NamespacePidsMap := ∅; mon_store := (∅ : InForce) |}).
Proof.
  induction l as [|o l IH] using rev_ind; intros Hl.
  { split; cbn; [intros ns nv|intros k id|intros ns v]; by rewrite ?lookup_empty. }
  apply list.Forall_app in Hl as [Hl Ho]. apply list.Forall_cons in Ho as [Ho _].
  specialize (IH Hl). unfold exec_all, flip, last_vis in *. rewrite foldl_app. cbn [foldl].
  set (mon := foldl _ _ l) in *.
  apply (good_ext owner (match o with
    | OVis _ ns v => λ ns', if String.eqb ns ns' then Some v else foldl (last_step ns') None l
    | _ => λ ns', foldl (last_step ns') None l
    end)).
  { intros ns'. rewrite foldl_app. by destruct o. }
  destruct o; cbn [exec]; destruct Ho; eauto using good_add, good_del, good_global, good_vis.
  apply good_unknown; naive_solver.
Qed.

(** ** Which container a key stands for *)

(** What an operation does to the container of the key [(p, n)]. *)
Definition holder_step (p n : Z) (acc : string) (o : op) : string :=
  match o with
  | OAdd id _ p' n' | OUnknown id _ p' n' => if (p' =? p) && (n' =? n) then id else acc
  | ODel _ _ p' n' =>
      if (p' =? p) && (n' =? n) && negb (p =? 0) && negb (n =? 0) then "" else acc
  | OVis _ _ _ | OGlobal => acc
  end.

Definition holder (p n : Z) : list op → string := foldl (holder_step p n) "".

Section lookup.
Context `{R : GoRange} (cfg : Config) {S : Type} `{ST : !NsKeyStore S}.

Lemma insert_lookup_id p n p' n' id (m : gmap NsKey string) :
  default "" (<[mkKey p' n' := id]> m !! mkKey p n) =
  if (p' =? p) && (n' =? n) then id else default "" (m !! mkKey p n).
Proof.
  destruct (Z.eqb_spec p' p) as [->|], (Z.eqb_spec n' n) as [->|]; cbn;
    [by rewrite lookup_insert_eq|..]; rewrite lookup_insert_ne; unfold mkKey; congruence.
Qed.

Lemma NsMap_add id ns p n (mon : @SystemMonitor S) :
  mon_NsMap (AddContainerIDToNsMap cfg id ns p n mon) = <[mkKey p n := id]> (mon_NsMap mon).
Proof. unfold AddContainerIDToNsMap. cbn. repeat case_match; done. Qed.

Lemma NsMap_del id ns p n (mon : @SystemMonitor S) :
  mon_NsMap (DeleteContainerIDFromNsMap id ns p n mon) =
  if negb (p =? 0) && negb (n =? 0) then delete (mkKey p n) (mon_NsMap mon)
  else mon_NsMap mon.
Proof.
  unfold DeleteContainerIDFromNsMap.
  destruct (negb (p =? 0) && negb (n =? 0)); cbn.
  - by destruct (mon_NamespacePidsMap mon !! ns).
  - destruct (find_key id (mon_NsMap mon)); [|done].
    by destruct (mon_NamespacePidsMap mon !! ns).
Qed.

Lemma NsMap_loop a v l (mon : @SystemMonitor S) :
  mon_NsMap (foldl (λ m k, on_store (update_NsKey a k v) m) mon l) = mon_NsMap mon.
Proof. apply (foldl_inv (λ m, mon_NsMap m = mon_NsMap mon)); [done|]. by intros. Qed.

Lemma NsMap_vis a ns v (mon : @SystemMonitor S) :
  mon_NsMap (UpdateVisibility_ns a ns v mon) = mon_NsMap mon.
Proof.
  unfold UpdateVisibility_ns. repeat case_match; cbn; rewrite ?NsMap_loop; done.
Qed.

Lemma lookup_step p n o (mon : @SystemMonitor S) :
  LookupContainerID p n (exec cfg mon o) = holder_step p n (LookupContainerID p n mon) o.
Proof.
  unfold LookupContainerID. destruct o as [id ns p' n'|id ns p' n'|id ns p' n'|a ns v|];
    cbn [exec holder_step]; fold (mkKey p n).
  - rewrite NsMap_add. apply insert_lookup_id.
  - rewrite NsMap_del.
    destruct (Z.eqb_spec p' p) as [->|Hp]; cbn.
    + destruct (Z.eqb_spec n' n) as [->|Hn]; cbn.
      * case_match; [|done]. by rewrite lookup_delete_eq.
      * case_match; [|done]. rewrite lookup_delete_ne; [done|]. unfold mkKey. congruence.
    + case_match; [|done]. rewrite lookup_delete_ne; [done|]. unfold mkKey. congruence.
  - unfold HandleUnknownNamespaceNsMap. cbn zeta.
    rewrite <- insert_lookup_id, <- (NsMap_add id ns). by case_match.
  - by rewrite NsMap_vis.
  - done.
Qed.
End lookup.

(** * Properties *)

Section properties.
Context `{R : GoRange} (cfg : Config).
Context {VM OM : Type} `{EV : !EbpfMap VM Z Z} `{EO : !EbpfMap OM NsKey nat}.
Context `{LV : !EbpfMapLaw VM Z Z} `{LO : !EbpfMapLaw OM NsKey nat}.
Context (NewMap : @Kernel VM OM → list (Z * Z) → option (nat * VM)).
Context (om0 : OM).
Abbreviation KMON := (@SystemMonitor (@Kernel VM OM)).
#[local] Existing Instance kernel_store.

(** The monitor at its start, with an empty map of namespaces in the kernel, and the
    same with the specification's store. *)
Definition mon_start : KMON :=
  {| mon_NsMap := ∅; mon_NamespacePidsMap := ∅;
     mon_store := {| ks_NsVisibilityMap := ∅; ks_maps := ∅; ks_BpfNsVisibilityMap := om0 |} |}.
Definition spec_start : @SystemMonitor InForce :=
  {| mon_NsMap := ∅; mon_NamespacePidsMap := ∅; mon_store := ∅ |}.

(** [exec_all] with the kernel's maps. *)
Definition run_kernel (l : list op) : KMON :=
  exec_all cfg (ST := kernel_store NewMap) l mon_start.

Lemma start_in_step :
  em_view om0 = ∅ → in_step ksim mon_start spec_start.
Proof.
  intros H0. split; [done|done|]. split_and!; cbn.
  - intros k. by rewrite H0.
  - intros k1 k2 h. by rewrite lookup_empty.
  - intros k. by rewrite !lookup_empty.
Qed.

Lemma run_in_step l :
  reliable NewMap → em_view om0 = ∅ →
  in_step ksim (run_kernel l) (exec_all cfg l spec_start).
Proof.
  intros Hr H0. unfold run_kernel. apply in_step_exec_all; [|by apply start_in_step].
  intros a k v s1 s2 Hs. by apply ksim_update.
Qed.

(** refinement.  Whatever sequence of container and namespace events happens, the
    kernel reports for each key exactly what the specification's map has in force for
    it: descriptors, inner maps and the kernel's map of maps never get out of step. *)
Theorem visibility_refines (l : list op) (k : NsKey) :
  reliable NewMap → em_view om0 = ∅ →
  kview (mon_store (run_kernel l)) k =
  shown <$> mon_store (exec_all cfg l spec_start) !! k.
Proof. intros Hr H0. apply ksim_view, (run_in_step l Hr H0). Qed.

(** C11: a container sees its namespace's visibility.  After any sequence of events in
    which every key belongs to one namespace, the kernel has for each registered
    container exactly the visibility last set for its namespace, whether the container
    was added before or after it was set. *)
Theorem visibility_in_force (owner : NsKey → string) (l : list op) (k : NsKey)
    (id : string) (v : Visibility) :
  reliable NewMap → em_view om0 = ∅ →
  Forall (owned owner) l →
  mon_NsMap (run_kernel l) !! k = Some id →
  last_vis (owner k) l = Some v →
  kview (mon_store (run_kernel l)) k = Some (shown v).
Proof.
  intros Hr H0 Hl Hk Hv. pose proof (run_in_step l Hr H0) as [E1 E2 E3].
  pose proof (good_run cfg owner l Hl) as Hg. rewrite E1 in Hk.
  destruct (good_registered _ _ _ Hg k id Hk) as (nv & Hns & Hin).
  destruct (good_last _ _ _ Hg (owner k) v Hv) as (nv' & Hns' & _ & Hf).
  rewrite (ksim_view _ _ _ E3). assert (nv' = nv) as -> by congruence.
  unfold spec_start. by rewrite (Forall_elem _ _ _ Hf Hin).
Qed.

(** the key of a container is answered with the container that was last added
    for it and not deleted since; deletions with a zero identifier change no answer. *)
Theorem LookupContainerID_holder (l : list op) (p n : Z) :
  LookupContainerID p n (run_kernel l) = holder p n l.
Proof.
  unfold run_kernel. induction l as [|o l IH] using rev_ind; [done|].
  unfold exec_all, holder, flip in *. rewrite !foldl_app. cbn [foldl].
  rewrite lookup_step. by rewrite IH.
Qed.

(** the first container of a namespace that is not known yet gets the configured
    visibility, every further one none at all. *)
Theorem second_container_silent (l : list op) (ns id1 id2 : string) (p1 n1 p2 n2 : Z) :
  reliable NewMap → em_view om0 = ∅ →
  mon_NamespacePidsMap (run_kernel l) !! ns = None → mkKey p1 n1 ≠ mkKey p2 n2 →
  let ks := mon_store (run_kernel (l ++ [OAdd id1 ns p1 n1; OAdd id2 ns p2 n2])) in
  kview ks (mkKey p1 n1) = Some (shown (parse_visibility (cfg_Visibility cfg))) ∧
  kview ks (mkKey p2 n2) = Some (shown empty_Visibility).
Proof.
  intros Hr H0 Hns Hne. cbn zeta.
  pose proof (run_in_step (l ++ [OAdd id1 ns p1 n1; OAdd id2 ns p2 n2]) Hr H0) as [_ _ E].
  pose proof (run_in_step l Hr H0) as [_ Ep _]. rewrite Ep in Hns.
  rewrite !(ksim_view _ _ _ E). unfold exec_all, flip in *. rewrite foldl_app.
  set (mon := foldl _ _ l) in *. cbn [foldl exec].
  unfold AddContainerIDToNsMap at 2 4. cbn. rewrite Hns.
  unfold AddContainerIDToNsMap. cbn. rewrite lookup_insert_eq. rewrite has_key.
  cbn [nv_NsKeys with_vis].
  rewrite bool_decide_false by (fold (mkKey p1 n1); set_solver). cbn.
  unfold update_NsKey, InForce_store, InForce_update. cbn [String.eqb Ascii.eqb Bool.eqb].
  fold (mkKey p1 n1) (mkKey p2 n2).
  by rewrite lookup_insert_ne, !lookup_insert_eq by done.
Qed.
End properties.

(** A deletion that does not know both identifiers finds the key, but leaves the
    container's entry in place. *)
Theorem delete_by_id_keeps `{R : GoRange} {S : Type} `{ST : !NsKeyStore S}
    (id ns : string) (p n : Z) (mon : @SystemMonitor S) :
  p = 0 ∨ n = 0 →
  mon_NsMap (DeleteContainerIDFromNsMap id ns p n mon) = mon_NsMap mon.
Proof.
  intros H. rewrite NsMap_del.
  destruct H as [-> | ->]; cbn; [done|]. by rewrite andb_false_r.
Qed.

(** ** Witnesses *)

(** A kernel whose maps are plain finite maps without a size limit. *)
Definition plain_map (K V : Type) `{Countable K} : EbpfMap (gmap K V) K V := {|
  em_view m := m; em_Put m k v := (<[k := v]> m, None);
  em_Delete m k := match m !! k with
                   | Some _ => (delete k m, None)
                   | None => (m, Some ErrNotExist)
                   end;
  em_Close _ := None |}.

Lemma plain_law K V `{Countable K} : EbpfMapLaw (EM := plain_map K V) (gmap K V) K V.
Proof.
  split; cbn; [done|intros m k; by destruct (m !! k)|].
  intros m k. by destruct (m !! k).
Qed.

Abbreviation VisMap := (gmap Z Z).
Abbreviation KeyMap := (gmap NsKey nat).
#[local] Existing Instances plain_map plain_law.

Definition plain_NewMap (ks : @Kernel VisMap KeyMap) (c : list (Z * Z))
    : option (nat * VisMap) :=
  Some (fresh (dom (ks_maps ks)), list_to_map c).

Lemma plain_reliable : reliable plain_NewMap.
Proof.
  split_and!; [|done|done|].
  - intros ks c. eexists _, _. split_and!; [done| |done].
    apply not_elem_of_dom, is_fresh.
  - intros m k [h E]. cbn in *. by rewrite E.
Qed.

Definition cfg0 : Config :=
  {| cfg_HostPolicy := true; cfg_HostVisibility := "process,network";
     cfg_Visibility := "process,file" |}.
Definition vis_net : Visibility :=
  {| vis_File := false; vis_Process := false; vis_Network := true;
     vis_Capabilities := false; vis_DNS := true |}.

(** Two namespaces; one container is there before its namespace's visibility is set,
    one comes later, one goes. *)
Definition history : list op :=
  [OGlobal; OAdd "c1" "blue" 101 201; OAdd "c3" "red" 103 203; OVis "MODIFIED" "blue" vis_net;
   OAdd "c2" "blue" 102 202; ODel "c3" "red" 103 203].
Definition color (k : NsKey) : string := if ns_PidNS k =? 103 then "red" else "blue".

Lemma visibility_refines_witness :
  kview (mon_store (run_kernel (R := canonical_range) cfg0 plain_NewMap ∅ history))
        (mkKey 102 202) = Some (shown vis_net).
Proof.
  etransitivity; [exact (visibility_refines (R := canonical_range) cfg0 plain_NewMap ∅
    history (mkKey 102 202) plain_reliable eq_refl)|].
  vm_compute. reflexivity.
Defined.

Lemma visibility_in_force_witness :
  kview (mon_store (run_kernel (R := canonical_range) cfg0 plain_NewMap ∅ history))
        (mkKey 101 201) = Some (shown vis_net).
Proof.
  apply (visibility_in_force (R := canonical_range) cfg0 plain_NewMap ∅ color history
           (mkKey 101 201) "c1" vis_net plain_reliable eq_refl).
  - repeat apply list.Forall_cons_2; try apply list.Forall_nil_2; cbn;
      unfold container_key; auto with lia; split_and!; done.
  - vm_compute. reflexivity.
  - reflexivity.
Defined.

Lemma second_container_silent_witness :
  let ks := mon_store (run_kernel (R := canonical_range) cfg0 plain_NewMap ∅
    (history ++ [OAdd "u1" "Unknown" 7 8; OAdd "u2" "Unknown" 9 10])) in
  kview ks (mkKey 7 8) = Some (shown (parse_visibility "process,file")) ∧
  kview ks (mkKey 9 10) = Some (shown empty_Visibility).
Proof.
  apply (second_container_silent (R := canonical_range) cfg0 plain_NewMap ∅ history
           "Unknown" "u1" "u2" 7 8 9 10 plain_reliable eq_refl).
  - vm_compute. reflexivity.
  - discriminate.
Defined.
