(* ===== verification/ProcessTree.v ===== *)
(** The process tree: for each container the processes the monitor has seen, by host
    process identifier ([KubeArmor/monitor/processTree.go], second part).

    The link [/proc/<pid>/exe], the clock and the liveness of a process are
    arguments.  Every operation runs under the lock of the map and is one step; the
    inner maps are only reached through the outer one, so they are plain values.  Then what
    holds of it. *)
From Stdlib Require Import Ascii.
From S2P Require Import Prelude GoStrings Types SyscallParser.

Open Scope string_scope.
Open Scope Z_scope.

(** Times are nanoseconds since the Unix epoch; Go's zero time is in year 1. *)
Definition second : Z := 1000000000.
Definition zero_time : Z := -62135596800 * second.

Record PidNode := {
  pn_PidID : Z; pn_MntID : Z;
  pn_HostPPID : Z; pn_HostPID : Z;
  pn_PPID : Z; pn_PID : Z; pn_UID : Z;
  pn_ParentExecPath : string; pn_ExecPath : string;
  pn_Source : string; pn_Args : string;
  pn_Exited : bool; pn_ExitedTime : Z }.

Abbreviation PidMap := (gmap Z PidNode).
Abbreviation Tree := (gmap string PidMap).

Definition set_ExecPath (p : string) (n : PidNode) : PidNode :=
  {| pn_PidID := pn_PidID n; pn_MntID := pn_MntID n; pn_HostPPID := pn_HostPPID n;
     pn_HostPID := pn_HostPID n; pn_PPID := pn_PPID n; pn_PID := pn_PID n; pn_UID := pn_UID n;
     pn_ParentExecPath := pn_ParentExecPath n; pn_ExecPath := p; pn_Source := pn_Source n;
     pn_Args := pn_Args n; pn_Exited := pn_Exited n; pn_ExitedTime := pn_ExitedTime n |}.
Definition set_ParentExecPath (p : string) (n : PidNode) : PidNode :=
  {| pn_PidID := pn_PidID n; pn_MntID := pn_MntID n; pn_HostPPID := pn_HostPPID n;
     pn_HostPID := pn_HostPID n; pn_PPID := pn_PPID n; pn_PID := pn_PID n; pn_UID := pn_UID n;
     pn_ParentExecPath := p; pn_ExecPath := pn_ExecPath n; pn_Source := pn_Source n;
     pn_Args := pn_Args n; pn_Exited := pn_Exited n; pn_ExitedTime := pn_ExitedTime n |}.
Definition set_Source (p : string) (n : PidNode) : PidNode :=
  {| pn_PidID := pn_PidID n; pn_MntID := pn_MntID n; pn_HostPPID := pn_HostPPID n;
     pn_HostPID := pn_HostPID n; pn_PPID := pn_PPID n; pn_PID := pn_PID n; pn_UID := pn_UID n;
     pn_ParentExecPath := pn_ParentExecPath n; pn_ExecPath := pn_ExecPath n; pn_Source := p;
     pn_Args := pn_Args n; pn_Exited := pn_Exited n; pn_ExitedTime := pn_ExitedTime n |}.
Definition set_exited (now : Z) (n : PidNode) : PidNode :=
  {| pn_PidID := pn_PidID n; pn_MntID := pn_MntID n; pn_HostPPID := pn_HostPPID n;
     pn_HostPID := pn_HostPID n; pn_PPID := pn_PPID n; pn_PID := pn_PID n; pn_UID := pn_UID n;
     pn_ParentExecPath := pn_ParentExecPath n; pn_ExecPath := pn_ExecPath n;
     pn_Source := pn_Source n; pn_Args := pn_Args n; pn_Exited := true;
     pn_ExitedTime := now |}.

(** [path != "/" && strings.HasPrefix(path, "/")] *)
Definition full_path (path : string) : bool :=
  negb (String.eqb path "/") && HasPrefix path "/".

(** [strings.Replace(s, "./", "", 1)] *)
Fixpoint drop_dot_slash (s : string) : string :=
  match s with
  | EmptyString => ""
  | String c s' =>
      match s' with
      | String d s'' =>
          if Ascii.eqb c "."%char && Ascii.eqb d "/"%char then s''
          else String c (drop_dot_slash s')
      | EmptyString => String c ""
      end
  end.

(** [pidMap[pid]] of a container that may be missing. *)
Definition node_at (containerID : string) (pid : Z) (t : Tree) : option PidNode :=
  t !! containerID ≫= λ pidMap, pidMap !! pid.

(** Storing a node into the map of a container that is there. *)
Definition put_node (containerID : string) (pid : Z) (n : PidNode) (t : Tree) : Tree :=
  alter (insert pid n) containerID t.

(** ** Operations *)

Definition AddActivePid (containerID : string) (node : PidNode) (t : Tree) : Tree :=
  match t !! containerID with
  | Some pidMap => <[containerID := <[pn_HostPID node := node]> pidMap]> t
  | None => <[containerID := {[pn_HostPID node := node]}]> t
  end.

Definition UpdateExecPath (containerID : string) (hostPid : Z) (execPath : string) (t : Tree)
    : Tree :=
  if String.eqb execPath "/" || negb (HasPrefix execPath "/") then t
  else
    match node_at containerID hostPid t with
    | Some node =>
        if String.eqb (pn_ExecPath node) execPath then t
        else
          let originalPath := drop_dot_slash (pn_Source node) in
          if Contains execPath originalPath
          then put_node containerID hostPid (set_ExecPath execPath (set_Source execPath node)) t
          else put_node containerID hostPid (set_ExecPath execPath node) t
    | None => t
    end.

(** [os.Readlink] of the process's [exe], with the checks on its result: an answer
    that is empty or the root is as good as none. *)
Definition read_exe (procExe : Z → option string) (pid : Z) : option string :=
  match procExe pid with
  | Some data => if String.eqb data "" || String.eqb data "/" then None else Some data
  | None => None
  end.

Definition GetParentExecPath (procExe : Z → option string) (containerID : string)
    (ctx : SyscallContext) (readlink : bool) (t : Tree) : string * Tree :=
  let own := node_at containerID (sc_HostPID ctx) t in
  let parent := node_at containerID (sc_HostPPID ctx) t in
  let p1 := from_option pn_ParentExecPath "" own in
  if full_path p1 then (p1, t)
  else
    let p2 := from_option pn_ExecPath p1 parent in
    if full_path p2 then (p2, t)
    else
      match (if readlink then read_exe procExe (sc_HostPPID ctx) else None) with
      | Some data =>
          (data,
           match parent, own with
           | Some node, _ => put_node containerID (sc_HostPPID ctx) (set_ExecPath data node) t
           | None, Some node =>
               put_node containerID (sc_HostPID ctx) (set_ParentExecPath data node) t
           | None, None => t
           end)
      | None => (p2, t)
      end.

(** The loop that joins the arguments after the first with blanks. *)
Definition join_args (args : list string) : string := join " " (tail args).

Definition BuildPidNode (containerID : string) (ctx : SyscallContext) (execPath : string)
    (args : list string) (t : Tree) : PidNode :=
  {| pn_PidID := 0; pn_MntID := 0;
     pn_HostPPID := sc_HostPPID ctx; pn_HostPID := sc_HostPID ctx;
     pn_PPID := sc_PPID ctx; pn_PID := sc_PID ctx; pn_UID := sc_UID ctx;
     pn_ParentExecPath := (GetParentExecPath (λ _, None) containerID ctx false t).1;
     pn_ExecPath := execPath; pn_Source := execPath; pn_Args := join_args args;
     pn_Exited := false; pn_ExitedTime := zero_time |}.

Definition GetExecPath (procExe : Z → option string) (containerID : string)
    (ctx : SyscallContext) (readlink : bool) (t : Tree) : string * Tree :=
  let own := node_at containerID (sc_HostPID ctx) t in
  let path := from_option pn_ExecPath "" own in
  if full_path path then (path, t)
  else
    match (if readlink then read_exe procExe (sc_HostPID ctx) else None) with
    | Some data =>
        (data,
         match own with
         | Some node => put_node containerID (sc_HostPID ctx) (set_ExecPath data node) t
         | None =>
             put_node containerID (sc_HostPID ctx) (BuildPidNode containerID ctx data [] t) t
         end)
    | None => (path, t)
    end.

Definition GetCommand (procExe : Z → option string) (containerID : string)
    (ctx : SyscallContext) (readlink : bool) (t : Tree) : string :=
  match node_at containerID (sc_HostPID ctx) t with
  | Some node =>
      if negb (String.eqb (pn_Args node) "") then pn_Source node +:+ " " +:+ pn_Args node
      else pn_Source node
  | None => default "" (if readlink then read_exe procExe (sc_HostPID ctx) else None)
  end.

Definition DeleteActivePid (now : Z) (containerID : string) (ctx : SyscallContext) (t : Tree)
    : Tree :=
  match node_at containerID (sc_HostPID ctx) t with
  | Some node => put_node containerID (sc_HostPID ctx) (set_exited now node) t
  | None => t
  end.

(** ** Cleaning *)

Section cleaning.
Context `{R : GoRange} {L : Type}.
(** The clock and the outcome of [FindProcess] ([None]: an error) and [Signal(0)]. *)
Context (now : Z) (probe : Z → option bool).

Definition cleanMaps (pid : Z) (st : PidMap * gmap Z L) : PidMap * gmap Z L :=
  (delete pid st.1, delete pid st.2).

Definition clean_node (st : PidMap * gmap Z L) (kv : Z * PidNode) : PidMap * gmap Z L :=
  let '(pid, pidNode) := kv in
  if pn_Exited pidNode && (pn_ExitedTime pidNode + 5 * second <? now) then cleanMaps pid st
  else if pn_ExitedTime pidNode + 30 * second <? now then
    match probe pid with
    | Some alive => if alive then st else cleanMaps pid st
    | None => cleanMaps pid st
    end
  else st.

Definition clean_container (st : Tree * gmap Z L) (kv : string * PidMap) : Tree * gmap Z L :=
  let '(containerID, pidMap) := kv in
  let '(pidMap', logs) := foldl clean_node (pidMap, st.2) (go_range pidMap) in
  (if bool_decide (size pidMap' = 0%nat) then delete containerID st.1
   else <[containerID := pidMap']> st.1, logs).

(** One iteration of the loop of [CleanUpExitedHostPids]. *)
Definition clean_pass (t : Tree) (execLogMap : gmap Z L) : Tree * gmap Z L :=
  foldl clean_container (t, execLogMap) (go_range t).
End cleaning.

(** ** What holds of it *)

(** ** Nodes *)

Lemma node_at_put c pid n t c' pid' :
  node_at c' pid' (put_node c pid n t) =
  if decide (c = c' ∧ pid = pid' ∧ is_Some (t !! c)) then Some n else node_at c' pid' t.
Proof.
  unfold node_at, put_node. destruct (decide (c = c')) as [<-|Hc].
  - rewrite lookup_alter_eq. destruct (t !! c) as [pm|]; cbn.
    + destruct (decide (pid = pid')) as [<-|Hp].
      * rewrite lookup_insert_eq, decide_True; [done|]. by split_and!.
      * rewrite lookup_insert_ne, decide_False by naive_solver. done.
    + rewrite decide_False; [done|]. intros (_ & _ & []%is_Some_None).
  - rewrite lookup_alter_ne, decide_False by naive_solver. done.
Qed.

Lemma node_at_put_eq c pid n t :
  is_Some (t !! c) → node_at c pid (put_node c pid n t) = Some n.
Proof. intros H. rewrite node_at_put, decide_True; done. Qed.

Lemma node_at_is_Some c pid t n : node_at c pid t = Some n → is_Some (t !! c).
Proof. unfold node_at. destruct (t !! c); [by eexists|done]. Qed.

Lemma node_at_add c n t c' pid' :
  node_at c' pid' (AddActivePid c n t) =
  if decide (c = c' ∧ pn_HostPID n = pid') then Some n else node_at c' pid' t.
Proof.
  unfold node_at, AddActivePid. destruct (decide (c = c')) as [<-|Hc].
  - destruct (t !! c) as [pm|]; rewrite lookup_insert_eq; cbn;
      destruct (decide (pn_HostPID n = pid')) as [<-|Hp];
      rewrite ?lookup_insert_eq, ?lookup_singleton_eq, ?lookup_insert_ne,
        ?lookup_singleton_ne by done;
      [rewrite decide_True|rewrite decide_False by naive_solver|rewrite decide_True
      |rewrite decide_False by naive_solver]; done.
  - rewrite decide_False by naive_solver.
    destruct (t !! c) as [pm|]; by rewrite lookup_insert_ne.
Qed.

Lemma read_exe_full procExe pid data :
  read_exe procExe pid = Some data → procExe pid = Some data ∧ data ≠ "" ∧ data ≠ "/".
Proof.
  unfold read_exe. destruct (procExe pid) as [d|]; [|done].
  destruct (String.eqb_spec d ""), (String.eqb_spec d "/"); cbn; naive_solver.
Qed.

Lemma full_path_intro p : p ≠ "/" → HasPrefix p "/" = true → full_path p = true.
Proof. intros Hp Hs. unfold full_path. by rewrite (proj2 (String.eqb_neq p "/") Hp). Qed.

(** ** Filtering in place: ranging over a map and deleting the entries that fail a
    test leaves the entries that pass, in any order. *)

Section clean_lemmas.
Context `{R : GoRange, !GoRangeLaw R} {L : Type} (now : Z) (probe : Z → option bool).

(** A node that one pass removes. *)
Definition stale (pid : Z) (n : PidNode) : bool :=
  (pn_Exited n && (pn_ExitedTime n + 5 * second <? now)) ||
  ((pn_ExitedTime n + 30 * second <? now) &&
   negb (bool_decide (probe pid = Some true))).

Lemma clean_node_eq (st : PidMap * gmap Z L) pid n :
  clean_node now probe st (pid, n) = if stale pid n then cleanMaps pid st else st.
Proof.
  unfold clean_node, stale. destruct (pn_Exited n && _); [done|]. cbn.
  destruct (pn_ExitedTime n + 30 * second <? now); [|done]. cbn.
  destruct (probe pid) as [[]|]; done.
Qed.

Definition stale_in (l : list (Z * PidNode)) (pid : Z) : Prop :=
  ∃ n, (pid, n) ∈ l ∧ stale pid n = true.

#[local] Instance stale_in_dec l pid : Decision (stale_in l pid).
Proof.
  destruct (decide (Exists (λ kv, kv.1 = pid ∧ stale kv.1 kv.2 = true) l)) as [E|E];
    [left|right]; unfold stale_in; rewrite Exists_exists in E.
  - destruct E as ([k n] & Hin & <- & Hs). apply list_elem_of_In in Hin. by exists n.
  - intros (n' & Hin & Hs). apply E. exists (pid, n'). by rewrite <- list_elem_of_In.
Defined.

(** What a pass does to both maps. *)
Definition drop_stale {V} (l : list (Z * PidNode)) (m : gmap Z V) : gmap Z V :=
  foldl (λ m kv, if stale kv.1 kv.2 then delete kv.1 m else m) m l.

Lemma clean_nodes_eq l (pm : PidMap) (logs : gmap Z L) :
  foldl (clean_node now probe) (pm, logs) l = (drop_stale l pm, drop_stale l logs).
Proof.
  revert pm logs. induction l as [|[pid n] l IH]; intros pm logs; cbn [foldl]; [done|].
  rewrite clean_node_eq. unfold drop_stale. cbn [foldl fst snd].
  destruct (stale pid n); apply IH.
Qed.

Lemma drop_stale_at {V} l (m : gmap Z V) k :
  drop_stale l m !! k = if decide (stale_in l k) then None else m !! k.
Proof.
  revert m. induction l as [|[pid n] l IH]; intros m.
  { rewrite decide_False; [done|]. intros (n & Hin & _). set_solver. }
  unfold drop_stale. cbn [foldl fst snd].
  fold (drop_stale l (if stale pid n then delete pid m else m)). rewrite IH.
  destruct (stale pid n) eqn:Hs.
  - destruct (decide (pid = k)) as [<-|Hne].
    + rewrite lookup_delete_eq, (decide_True (P := stale_in (_ :: _) _)).
      * by case_decide.
      * exists n. split; [left|done].
    + rewrite lookup_delete_ne by done. apply decide_ext. unfold stale_in.
      split; intros (n' & Hin & Hs'); exists n'; set_solver.
  - apply decide_ext. unfold stale_in. split; intros (n' & Hin & Hs').
    + exists n'. set_solver.
    + apply elem_of_cons in Hin as [[= -> ->]|Hin]; [congruence|]. by exists n'.
Qed.

(** The nodes of a container after a pass. *)
Definition live (pm : PidMap) : PidMap :=
  map_imap (λ pid n, if stale pid n then None else Some n) pm.

Lemma live_lookup pm pid :
  live pm !! pid = pm !! pid ≫= λ n, if stale pid n then None else Some n.
Proof. apply map_lookup_imap. Qed.

Lemma drop_stale_live pm : drop_stale (go_range pm) pm = live pm.
Proof.
  apply map_eq; intros k. rewrite drop_stale_at, live_lookup.
  case_decide as H.
  - destruct H as (n & Hin & Hs). apply elem_of_go_range in Hin. rewrite Hin. cbn.
    by rewrite Hs.
  - destruct (pm !! k) as [n|] eqn:E; cbn; [|done]. destruct (stale k n) eqn:Hs; [|done].
    destruct H. exists n. by rewrite elem_of_go_range.
Qed.

(** A process identifier that some container's pass removes. *)
Definition stale_pid (l : list (string * PidMap)) (pid : Z) : Prop :=
  ∃ c pm n, (c, pm) ∈ l ∧ pm !! pid = Some n ∧ stale pid n = true.

Lemma stale_in_range pm pid :
  stale_in (go_range pm) pid ↔ ∃ n, pm !! pid = Some n ∧ stale pid n = true.
Proof. unfold stale_in. by setoid_rewrite elem_of_go_range. Qed.

Lemma clean_container_eq (t : Tree) (logs : gmap Z L) c pm :
  clean_container now probe (t, logs) (c, pm) =
  (if decide (live pm = ∅) then delete c t else <[c := live pm]> t,
   drop_stale (go_range pm) logs).
Proof.
  unfold clean_container. rewrite clean_nodes_eq, drop_stale_live. cbn [fst snd]. f_equal.
  case_bool_decide as H; rewrite map_size_empty_iff in H;
    [by rewrite decide_True|by rewrite decide_False].
Qed.

(** A pass over some of the containers, each once. *)
Lemma clean_containers_tree l (t : Tree) (logs : gmap Z L) c :
  NoDup l.*1 →
  (foldl (clean_container now probe) (t, logs) l).1 !! c =
  match list_to_map (M := Tree) l !! c with
  | Some pm => if decide (live pm = ∅) then None else Some (live pm)
  | None => t !! c
  end.
Proof.
  revert t logs. induction l as [|[c' pm] l IH]; intros t logs; [done|].
  cbn [fmap list_fmap fst foldl]. intros [Hc Hnd]%list.NoDup_cons.
  rewrite clean_container_eq, IH, list_to_map_cons by done. destruct (decide (c' = c)) as [<-|Hne].
  - rewrite lookup_insert_eq. rewrite (not_elem_of_list_to_map_1 l c') by done.
    case_decide; [by rewrite lookup_delete_eq|by rewrite lookup_insert_eq].
  - rewrite lookup_insert_ne by done. case_match; [done|].
    case_decide; [by rewrite lookup_delete_ne|by rewrite lookup_insert_ne].
Qed.

Lemma clean_containers_logs l (t : Tree) (logs : gmap Z L) pid :
  (stale_pid l pid ∧ (foldl (clean_container now probe) (t, logs) l).2 !! pid = None) ∨
  (¬ stale_pid l pid ∧
   (foldl (clean_container now probe) (t, logs) l).2 !! pid = logs !! pid).
Proof.
  revert t logs. induction l as [|[c pm] l IH]; intros t logs; cbn [foldl].
  { right. split; [|done]. intros (c & pm & n & Hin & _). set_solver. }
  rewrite clean_container_eq.
  destruct (IH (if decide (live pm = ∅) then delete c t else <[c:=live pm]> t)
               (drop_stale (go_range pm) logs)) as [[Hs E]|[Hs E]]; rewrite E; clear E.
  - left. split; [|done]. destruct Hs as (c' & pm' & n & Hin & H). exists c', pm', n.
    split; [by right|done].
  - rewrite drop_stale_at. case_decide as H; [left|right]; (split; [|done]);
      rewrite stale_in_range in H.
    + destruct H as (n & Hn). exists c, pm, n. split; [left|done].
    + intros (c' & pm' & n & [[= -> ->]|Hin]%elem_of_cons & Hn & Hst); [by eauto|].
      apply Hs. by exists c', pm', n.
Qed.
End clean_lemmas.

(** * Properties *)

(** one cleaning pass, whatever the order in which the maps are visited, removes
    exactly the nodes that exited more than five seconds ago and those that are older
    than thirty seconds past their (possibly unset) exit time and whose process does
    not answer; it removes the containers left without a node, keeps every other node
    as it is, and drops exactly the pending logs of the removed processes. *)
Theorem clean_pass_spec `{R : GoRange, !GoRangeLaw R} {L : Type} (now : Z)
    (probe : Z → option bool) (t : Tree) (execLogMap : gmap Z L) :
  let '(t', logs') := clean_pass now probe t execLogMap in
  (∀ c, t' !! c =
        pm ← t !! c; if decide (live now probe pm = ∅) then None else Some (live now probe pm)) ∧
  (∀ c pm pid n, t !! c = Some pm → pm !! pid = Some n →
     (node_at c pid t' = if stale now probe pid n then None else Some n) ∧
     (stale now probe pid n = true → logs' !! pid = None)) ∧
  (∀ pid, (∀ c n, node_at c pid t = Some n → stale now probe pid n = false) →
          logs' !! pid = execLogMap !! pid).
Proof.
  destruct (clean_pass now probe t execLogMap) as [t' logs'] eqn:E. unfold clean_pass in E.
  assert (∀ c, t' !! c = pm ← t !! c;
    if decide (live now probe pm = ∅) then None else Some (live now probe pm)) as Ht.
  { intros c. pose proof (clean_containers_tree now probe (go_range t) t execLogMap c
      (NoDup_go_range t)) as H. rewrite E in H. cbn in H. rewrite H.
    rewrite list_to_map_go_range. by destruct (t !! c). }
  assert (∀ pid, stale_pid now probe (go_range t) pid ↔
    ∃ c pm n, t !! c = Some pm ∧ pm !! pid = Some n ∧ stale now probe pid n = true) as Hp.
  { intros pid. unfold stale_pid. by setoid_rewrite elem_of_go_range. }
  split_and!; [exact Ht| |].
  - intros c pm pid n Hc Hn. split.
    + unfold node_at. rewrite Ht, Hc. cbn.
      assert (live now probe pm !! pid = if stale now probe pid n then None else Some n) as Hl.
      { by rewrite live_lookup, Hn. }
      case_decide as He; cbn; [|done]. by rewrite <- Hl, He, lookup_empty.
    + intros Hs. destruct (clean_containers_logs now probe (go_range t) t execLogMap pid)
        as [[_ H]|[Hno _]]; [by rewrite E in H|]. destruct Hno. apply Hp. by exists c, pm, n.
  - intros pid Hlive. destruct (clean_containers_logs now probe (go_range t) t execLogMap pid)
      as [[Hst _]|[_ H]]; [|by rewrite E in H].
    apply Hp in Hst as (c & pm & n & Hc & Hn & Hs).
    specialize (Hlive c n). unfold node_at in Hlive. rewrite Hc in Hlive.
    rewrite (Hlive Hn) in Hs. done.
Qed.

(** an answer from procfs is remembered: in a container that is known, asking again
    for the path of a process gives the same full path without reading procfs, and no
    other process's node changes. *)
Theorem GetExecPath_cached (procExe : Z → option string) (c : string)
    (ctx : SyscallContext) (t : Tree) :
  is_Some (t !! c) →
  (∀ data, procExe (sc_HostPID ctx) = Some data → HasPrefix data "/" = true) →
  let '(path, t') := GetExecPath procExe c ctx true t in
  (full_path path = true → ∀ procExe' readlink,
     GetExecPath procExe' c ctx readlink t' = (path, t')) ∧
  (full_path path = false → t' = t ∧ read_exe procExe (sc_HostPID ctx) = None) ∧
  (∀ c' pid, (c', pid) ≠ (c, sc_HostPID ctx) → node_at c' pid t' = node_at c' pid t).
Proof.
  intros Hc Habs. unfold GetExecPath at 1.
  set (own := node_at c (sc_HostPID ctx) t).
  destruct (full_path (from_option pn_ExecPath "" own)) eqn:Hf.
  { cbn. split_and!; [|congruence|done]. intros _ procExe' rl. unfold GetExecPath.
    fold own. by rewrite Hf. }
  cbn. destruct (read_exe procExe (sc_HostPID ctx)) as [data|] eqn:Er.
  - pose proof (read_exe_full _ _ _ Er) as (Hd & _ & Hroot). apply Habs in Hd.
    pose proof (full_path_intro data Hroot Hd) as Hfull.
    assert (∀ n, pn_ExecPath n = data → ∀ procExe' rl,
      GetExecPath procExe' c ctx rl (put_node c (sc_HostPID ctx) n t) =
      (data, put_node c (sc_HostPID ctx) n t)) as Hput.
    { intros n Hn procExe' rl. unfold GetExecPath. rewrite node_at_put_eq by done. cbn.
      by rewrite Hn, Hfull. }
    assert (∀ n c' pid, (c', pid) ≠ (c, sc_HostPID ctx) →
      node_at c' pid (put_node c (sc_HostPID ctx) n t) = node_at c' pid t) as Hoth.
    { intros n c' pid Hne. rewrite node_at_put, decide_False; [done|]. naive_solver. }
    destruct own; (split_and!; [intros _; by apply Hput|congruence|apply Hoth]).
  - split_and!; [congruence|done|done].
Qed.

(** lineage.  A process that is executed after its parent, and has no earlier node
    of its own, gets the path that the parent was last seen to execute as its parent
    path, through the updates of that path in between. *)
Theorem parent_path_inherited (c : string) (parent : PidNode) (ctx : SyscallContext)
    (path execPath : string) (args : list string) (t : Tree) :
  pn_HostPID parent = sc_HostPPID ctx →
  sc_HostPID ctx ≠ sc_HostPPID ctx →
  node_at c (sc_HostPID ctx) t = None →
  path ≠ "/" → HasPrefix path "/" = true →
  let t' := UpdateExecPath c (pn_HostPID parent) path (AddActivePid c parent t) in
  let child := BuildPidNode c ctx execPath args t' in
  pn_ParentExecPath child = path ∧ pn_ExecPath child = execPath ∧
  node_at c (sc_HostPID ctx) (AddActivePid c child t') = Some child.
Proof.
  intros Hpid Hne Hnone Hroot Habs. cbn zeta.
  set (t0 := AddActivePid c parent t).
  assert (node_at c (sc_HostPPID ctx) t0 = Some parent) as Hp0.
  { unfold t0. rewrite node_at_add, decide_True; done. }
  assert (node_at c (sc_HostPID ctx) t0 = None) as Hn0.
  { unfold t0. rewrite node_at_add, decide_False; [done|]. intros [_ E]. congruence. }
  set (t' := UpdateExecPath c (pn_HostPID parent) path t0).
  assert (∃ n, node_at c (sc_HostPPID ctx) t' = Some n ∧ pn_ExecPath n = path ∧
               node_at c (sc_HostPID ctx) t' = None) as (n & Hn & Hpath & Hown).
  { unfold t', UpdateExecPath. rewrite Hpid, Hp0, Habs.
    rewrite (proj2 (String.eqb_neq path "/") Hroot). cbn.
    destruct (String.eqb_spec (pn_ExecPath parent) path) as [E|E]; [by exists parent|].
    pose proof (node_at_is_Some _ _ _ _ Hp0) as Hi.
    case_match; (eexists; rewrite node_at_put_eq by done; split_and!; [done|done|]);
      rewrite node_at_put, decide_False by naive_solver; done. }
  assert (pn_ParentExecPath (BuildPidNode c ctx execPath args t') = path) as Hres.
  { unfold BuildPidNode, GetParentExecPath. cbn [pn_ParentExecPath]. rewrite Hown, Hn. cbn.
    by rewrite Hpath, (full_path_intro path). }
  split_and!; [exact Hres|done|]. rewrite node_at_add, decide_True; done.
Qed.

(** ** Witnesses *)

Definition ctx_of (pid ppid : Z) : SyscallContext :=
  {| sc_Ts := 0; sc_PidID := 1; sc_MntID := 2; sc_HostPPID := ppid; sc_HostPID := pid;
     sc_PPID := ppid; sc_PID := pid; sc_UID := 0; sc_EventID := 59; sc_Argnum := 0;
     sc_Retval := 0; sc_Comm := []; sc_Cwd := []; sc_TTY := []; sc_OID := 0; sc_ExecID := 0 |}.

Definition shell : PidNode := BuildPidNode "c" (ctx_of 10 1) "./run.sh" ["run.sh"; "-x"; "y"] ∅.
Definition tree0 : Tree := AddActivePid "c" shell ∅.

(** Two processes of one container: one exited six seconds ago, one runs. *)
Definition at_time (n : PidNode) : PidNode := set_exited (100 * second) n.
Definition two : Tree :=
  AddActivePid "c" (BuildPidNode "c" (ctx_of 11 10) "/bin/ls" ["ls"] tree0)
    (AddActivePid "c" (at_time shell) ∅).

Lemma clean_pass_spec_witness :
  node_at "c" 10 (clean_pass (R := canonical_range) (106 * second) (λ _, Some true) two
                    ({[10 := tt; 11 := tt]} : gmap Z unit)).1 = None.
Proof.
  pose proof (clean_pass_spec (R := canonical_range) (GoRangeLaw0 := canonical_range_law)
    (106 * second) (λ _, Some true) two ({[10 := tt; 11 := tt]} : gmap Z unit)) as H.
  destruct (clean_pass _ _ _ _) as [t' logs']. destruct H as (_ & H & _). cbn [fst].
  destruct (two !! "c") as [pm|] eqn:E; [|by vm_compute in E].
  destruct (H "c" pm 10 (at_time shell)) as [-> _]; [done| |reflexivity].
  vm_compute in E. injection E as <-. vm_compute. reflexivity.
Defined.

Lemma GetExecPath_cached_witness :
  let '(path, t') := GetExecPath (λ _, Some "/usr/bin/run.sh") "c" (ctx_of 10 1) true tree0 in
  path = "/usr/bin/run.sh" ∧
  GetExecPath (λ _, None) "c" (ctx_of 10 1) false t' = (path, t').
Proof.
  pose proof (GetExecPath_cached (λ _, Some "/usr/bin/run.sh") "c" (ctx_of 10 1) tree0) as H.
  destruct (GetExecPath _ "c" (ctx_of 10 1) true tree0) as [path t'] eqn:E.
  assert (path = "/usr/bin/run.sh") as -> by (vm_compute in E; congruence).
  split; [done|]. apply H; [by eexists|by intros ? [= <-]|done].
Defined.

Lemma parent_path_inherited_witness :
  pn_ParentExecPath (BuildPidNode "c" (ctx_of 11 10) "/bin/ls" ["ls"]
    (UpdateExecPath "c" 10 "/usr/bin/run.sh" (AddActivePid "c" shell ∅))) = "/usr/bin/run.sh".
Proof.
  apply (parent_path_inherited "c" shell (ctx_of 11 10) "/usr/bin/run.sh" "/bin/ls" ["ls"] ∅);
    [reflexivity|discriminate|reflexivity|discriminate|reflexivity].
Defined.
