(* ===== verification/PolicyMatcher.v ===== *)
(** The feeder's policy matcher ([KubeArmor/feeder/policyMatcher.go]): it keeps, for
    each endpoint, a flat list of the rules of its policies, and decides for each event
    of the monitor whether it matches a rule and which alert or log to make of it.

    Regular expressions are the only part of the standard library that is an argument
    ([Compile], [MatchString]). *)
From Stdlib Require Import Ascii String.
From S2P Require Import Prelude GoStrings GoPath Types.

Open Scope string_scope.
Open Scope list_scope.

(** ** Data *)

(** [tp.Log] in two parts: the fields the matcher only reads or passes on, and those it
    sets. *)
Record LogBase := {
  lb_Timestamp : Z; lb_UpdatedTime : string;
  lb_ClusterName : string; lb_HostName : string; lb_NodeID : string;
  lb_NamespaceName : string; lb_Owner : option (string * string * string);
  lb_PodName : string; lb_Labels : string;
  lb_ContainerID : string; lb_ContainerName : string; lb_ContainerImage : string;
  lb_HostPPID : Z; lb_HostPID : Z; lb_PPID : Z; lb_PID : Z; lb_UID : Z;
  lb_ExecEvent : string * string;
  lb_ParentProcessName : string; lb_ProcessName : string;
  lb_KubeArmorVersion : string;
  lb_Source : string; lb_Operation : string; lb_Resource : string;
  lb_Cwd : string; lb_TTY : string; lb_OID : Z; lb_Data : string; lb_Result : string;
  lb_MaxAlertsPerSec : Z; lb_DroppingAlertsInterval : Z;
  lb_PolicyEnabled : Z;
  lb_ProcessVisibilityEnabled : bool; lb_FileVisibilityEnabled : bool;
  lb_NetworkVisibilityEnabled : bool; lb_CapabilitiesVisibilityEnabled : bool }.

Record Log := {
  lg_base : LogBase;
  lg_Type : string; lg_PolicyName : string; lg_Severity : string;
  lg_Tags : string; lg_ATags : list string; lg_Message : string;
  lg_Enforcer : string; lg_Action : string }.

(** [tp.Log{}] *)
Definition zero_LogBase : LogBase :=
  {| lb_Timestamp := 0; lb_UpdatedTime := ""; lb_ClusterName := ""; lb_HostName := "";
     lb_NodeID := ""; lb_NamespaceName := ""; lb_Owner := None; lb_PodName := "";
     lb_Labels := ""; lb_ContainerID := ""; lb_ContainerName := ""; lb_ContainerImage := "";
     lb_HostPPID := 0; lb_HostPID := 0; lb_PPID := 0; lb_PID := 0; lb_UID := 0;
     lb_ExecEvent := ("", ""); lb_ParentProcessName := ""; lb_ProcessName := "";
     lb_KubeArmorVersion := ""; lb_Source := ""; lb_Operation := ""; lb_Resource := "";
     lb_Cwd := ""; lb_TTY := ""; lb_OID := 0; lb_Data := ""; lb_Result := "";
     lb_MaxAlertsPerSec := 0; lb_DroppingAlertsInterval := 0; lb_PolicyEnabled := 0;
     lb_ProcessVisibilityEnabled := false; lb_FileVisibilityEnabled := false;
     lb_NetworkVisibilityEnabled := false; lb_CapabilitiesVisibilityEnabled := false |}.
Definition zero_Log : Log :=
  {| lg_base := zero_LogBase; lg_Type := ""; lg_PolicyName := ""; lg_Severity := "";
     lg_Tags := ""; lg_ATags := []; lg_Message := ""; lg_Enforcer := ""; lg_Action := "" |}.

(** The argument of [newMatchPolicy], an [interface{}] that it switches on. *)
Inductive MatchRule :=
| RProcessPath (r : ProcessPathType)
| RProcessDirectory (r : ProcessDirectoryType)
| RProcessPattern (r : ProcessPatternType)
| RFilePath (r : FilePathType)
| RFileDirectory (r : FileDirectoryType)
| RFilePattern (r : FilePatternType)
| RNetwork (r : NetworkProtocolType)
| RCapability (r : CapabilitiesCapabilityType)
| RSyscall (r : SyscallMatchType)
| RSyscallPath (r : SyscallMatchPathType)
| ROther.

Section matcher.
Context {Rx : Type} (Compile : string → option Rx) (MatchString : Rx → string → bool).

Record MatchPolicy := {
  mp_PolicyName : string; mp_Severity : string; mp_Tags : list string; mp_Message : string;
  mp_Source : string; mp_Operation : string; mp_ResourceType : string; mp_Resource : string;
  mp_IsFromSource : bool; mp_OwnerOnly : bool; mp_ReadOnly : bool; mp_Recursive : bool;
  mp_Regexp : option Rx; mp_Native : bool; mp_Action : string }.

Definition zero_MatchPolicy : MatchPolicy :=
  {| mp_PolicyName := ""; mp_Severity := ""; mp_Tags := []; mp_Message := ""; mp_Source := "";
     mp_Operation := ""; mp_ResourceType := ""; mp_Resource := ""; mp_IsFromSource := false;
     mp_OwnerOnly := false; mp_ReadOnly := false; mp_Recursive := false; mp_Regexp := None;
     mp_Native := false; mp_Action := "" |}.

(** The part of the feeder and of its node and configuration that matching uses. *)
Record Feeder := {
  fd_Enforcer : string;
  fd_NodeName : string; fd_NodePolicyEnabled : Z;
  fd_NodeVisibility : Visibility;
  fd_Host : string;                       (* cfg.GlobalCfg.Host *)
  fd_GlobalPosture : DefaultPosture;      (* the cfg.GlobalCfg.Default...Posture settings *)
  fd_SecurityPolicies : gmap string (list MatchPolicy);
  fd_DefaultPostures : gmap string DefaultPosture }.

Definition set_SecurityPolicies (m : gmap string (list MatchPolicy)) (fd : Feeder) : Feeder :=
  {| fd_Enforcer := fd_Enforcer fd; fd_NodeName := fd_NodeName fd;
     fd_NodePolicyEnabled := fd_NodePolicyEnabled fd; fd_NodeVisibility := fd_NodeVisibility fd;
     fd_Host := fd_Host fd; fd_GlobalPosture := fd_GlobalPosture fd;
     fd_SecurityPolicies := m; fd_DefaultPostures := fd_DefaultPostures fd |}.
Definition set_DefaultPostures (m : gmap string DefaultPosture) (fd : Feeder) : Feeder :=
  {| fd_Enforcer := fd_Enforcer fd; fd_NodeName := fd_NodeName fd;
     fd_NodePolicyEnabled := fd_NodePolicyEnabled fd; fd_NodeVisibility := fd_NodeVisibility fd;
     fd_Host := fd_Host fd; fd_GlobalPosture := fd_GlobalPosture fd;
     fd_SecurityPolicies := fd_SecurityPolicies fd; fd_DefaultPostures := m |}.

(** ** From a rule to a match policy *)

Definition getOperationAndCapabilityFromName (capName : string) : string * string :=
  if String.eqb (ToLower capName) "net_raw" then ("Network", "raw") else ("", "unknown").

(** The action of a rule: an audited endpoint only audits. *)
Definition match_action (policyEnabled : Z) (action : string) : string :=
  if (policyEnabled =? KubeArmorPolicyAudited)%Z &&
     (String.eqb action "Allow" || String.eqb action "Block")
  then "Audit (" +:+ action +:+ ")" else action.

(** The fields that every case sets in the same way. *)
Definition base_match (policyName src : string) (severity : Z) (tags : list string)
    (message operation rtype resource action : string) (owner ro rec : bool) : MatchPolicy :=
  {| mp_PolicyName := policyName; mp_Severity := Itoa severity; mp_Tags := tags;
     mp_Message := message; mp_Source := src; mp_Operation := operation;
     mp_ResourceType := rtype; mp_Resource := resource; mp_IsFromSource := false;
     mp_OwnerOnly := owner; mp_ReadOnly := ro; mp_Recursive := rec; mp_Regexp := None;
     mp_Native := false; mp_Action := action |}.

(** [Syscalls[0]] *)
Definition first_syscall (l : list string) : Res string :=
  match l with s :: _ => Ok s | [] => Panic end.

Definition newMatchPolicy (enforcer : string) (policyEnabled : Z) (policyName src : string)
    (mp : MatchRule) : Res MatchPolicy :=
  let act := match_action policyEnabled in
  match mp with
  | RProcessPath r =>
      let exec := bool_decide (0 < String.length (ppt_ExecName r)) in
      Ok (base_match policyName src (ppt_Severity r) (ppt_Tags r) (ppt_Message r) "Process"
            (if exec then "ExecName" else "Path")
            (if exec then ppt_ExecName r else ppt_Path r)
            (act (ppt_Action r)) (ppt_OwnerOnly r) false false)
  | RProcessDirectory r =>
      Ok (base_match policyName src (pdt_Severity r) (pdt_Tags r) (pdt_Message r) "Process"
            "Directory" (pdt_Directory r) (act (pdt_Action r)) (pdt_OwnerOnly r) false
            (pdt_Recursive r))
  | RProcessPattern r =>
      Ok (base_match policyName src (pat_Severity r) (pat_Tags r) (pat_Message r) "Process"
            "" (pat_Pattern r) (act (pat_Action r)) (pat_OwnerOnly r) false false)
  | RFilePath r =>
      Ok (base_match policyName src (fpt_Severity r) (fpt_Tags r) (fpt_Message r) "File"
            "Path" (fpt_Path r) (act (fpt_Action r)) (fpt_OwnerOnly r) (fpt_ReadOnly r) false)
  | RFileDirectory r =>
      Ok (base_match policyName src (fdt_Severity r) (fdt_Tags r) (fdt_Message r) "File"
            "Directory" (fdt_Directory r) (act (fdt_Action r)) (fdt_OwnerOnly r)
            (fdt_ReadOnly r) (fdt_Recursive r))
  | RFilePattern r =>
      Ok (base_match policyName src (fpat_Severity r) (fpat_Tags r) (fpat_Message r) "File"
            "" (fpat_Pattern r) (act (fpat_Action r)) (fpat_OwnerOnly r) (fpat_ReadOnly r)
            false)
  | RNetwork r =>
      Ok (base_match policyName src (npt_Severity r) (npt_Tags r) (npt_Message r) "Network"
            "Protocol" (ToLower (npt_Protocol r)) (act (npt_Action r)) false false false)
  | RCapability r =>
      let '(op, cap) :=
        if String.eqb enforcer "BPFLSM" then ("Capabilities", ToUpper (cct_Capability r))
        else getOperationAndCapabilityFromName (cct_Capability r) in
      Ok (base_match policyName src (cct_Severity r) (cct_Tags r) (cct_Message r) op
            "Capability" cap (act (cct_Action r)) false false false)
  | RSyscall r =>
      s ← first_syscall (smt_Syscalls r);
      Ok (base_match policyName src (smt_Severity r) (smt_Tags r) (smt_Message r) "Syscall"
            (ToUpper s) "" "Audit" false false false)
  | RSyscallPath r =>
      s ← first_syscall (smpt_Syscalls r);
      Ok (base_match policyName src (smpt_Severity r) (smpt_Tags r) (smpt_Message r) "Syscall"
            (ToUpper s) (smpt_Path r) "Audit" false false false)
  | ROther => Ok zero_MatchPolicy
  end.

(** ** The match policies of an endpoint *)

(** A loop whose body appends to a list, with panics. *)
Fixpoint concatM {A B} (f : A → Res (list B)) (l : list A) : Res (list B) :=
  match l with
  | [] => Ok []
  | x :: l' => a ← f x; b ← concatM f l'; Ok (a ++ b)
  end.

(** [match.IsFromSource = len(fromSource) > 0] *)
Definition mark_source (m : MatchPolicy) : MatchPolicy :=
  {| mp_PolicyName := mp_PolicyName m; mp_Severity := mp_Severity m; mp_Tags := mp_Tags m;
     mp_Message := mp_Message m; mp_Source := mp_Source m; mp_Operation := mp_Operation m;
     mp_ResourceType := mp_ResourceType m; mp_Resource := mp_Resource m;
     mp_IsFromSource := bool_decide (0 < String.length (mp_Source m));
     mp_OwnerOnly := mp_OwnerOnly m; mp_ReadOnly := mp_ReadOnly m;
     mp_Recursive := mp_Recursive m; mp_Regexp := mp_Regexp m; mp_Native := mp_Native m;
     mp_Action := mp_Action m |}.

(** [match.Regexp = ...; match.ResourceType = "Glob"] *)
Definition mark_glob (rx : Rx) (m : MatchPolicy) : MatchPolicy :=
  {| mp_PolicyName := mp_PolicyName m; mp_Severity := mp_Severity m; mp_Tags := mp_Tags m;
     mp_Message := mp_Message m; mp_Source := mp_Source m; mp_Operation := mp_Operation m;
     mp_ResourceType := "Glob"; mp_Resource := mp_Resource m;
     mp_IsFromSource := mp_IsFromSource m;
     mp_OwnerOnly := mp_OwnerOnly m; mp_ReadOnly := mp_ReadOnly m;
     mp_Recursive := mp_Recursive m; mp_Regexp := Some rx; mp_Native := mp_Native m;
     mp_Action := mp_Action m |}.

(** [match.Recursive] and [match.ReadOnly] of a system-call rule *)
Definition mark_syscall (rec ro : bool) (m : MatchPolicy) : MatchPolicy :=
  {| mp_PolicyName := mp_PolicyName m; mp_Severity := mp_Severity m; mp_Tags := mp_Tags m;
     mp_Message := mp_Message m; mp_Source := mp_Source m; mp_Operation := mp_Operation m;
     mp_ResourceType := mp_ResourceType m; mp_Resource := mp_Resource m;
     mp_IsFromSource := mp_IsFromSource m;
     mp_OwnerOnly := mp_OwnerOnly m; mp_ReadOnly := ro; mp_Recursive := rec;
     mp_Regexp := mp_Regexp m; mp_Native := mp_Native m; mp_Action := mp_Action m |}.

Definition nonempty (s : string) : bool := bool_decide (0 < String.length s).

Section endpoint.
Context (enforcer : string) (policyEnabled : Z) (policyName : string).

Abbreviation new_match := (newMatchPolicy enforcer policyEnabled policyName).

(** The loop over one rule's sources. *)
Definition source_matches (srcs : list MatchSourceType) (r : MatchRule)
    (keep : MatchPolicy → bool) : Res (list MatchPolicy) :=
  match srcs with
  | [] => m ← new_match "" r; Ok (if keep m then [m] else [])
  | _ =>
      concatM (λ src,
        if nonempty (ms_Path src) then
          m ← new_match (ms_Path src) r; Ok (if keep m then [mark_source m] else [])
        else Ok []) srcs
  end.

Definition has_resource (m : MatchPolicy) : bool := nonempty (mp_Resource m).

Definition process_path_matches : list ProcessPathType → Res (list MatchPolicy) :=
  concatM (λ path, source_matches (ppt_FromSource path) (RProcessPath path) (λ _, true)).

Definition process_dir_matches : list ProcessDirectoryType → Res (list MatchPolicy) :=
  concatM (λ dir, source_matches (pdt_FromSource dir) (RProcessDirectory dir) (λ _, true)).

Definition file_path_matches : list FilePathType → Res (list MatchPolicy) :=
  concatM (λ path, source_matches (fpt_FromSource path) (RFilePath path) (λ _, true)).

Definition file_dir_matches : list FileDirectoryType → Res (list MatchPolicy) :=
  concatM (λ dir, source_matches (fdt_FromSource dir) (RFileDirectory dir) (λ _, true)).

(** A pattern that is empty or does not compile gives no match policy. *)
Definition pattern_matches (patt : string) (r : MatchRule) : Res (list MatchPolicy) :=
  if nonempty patt then
    m ← new_match "" r;
    Ok (match Compile patt with Some rx => [mark_glob rx m] | None => [] end)
  else Ok [].

Definition process_pattern_matches : list ProcessPatternType → Res (list MatchPolicy) :=
  concatM (λ patt, pattern_matches (pat_Pattern patt) (RProcessPattern patt)).

Definition file_pattern_matches : list FilePatternType → Res (list MatchPolicy) :=
  concatM (λ patt, pattern_matches (fpat_Pattern patt) (RFilePattern patt)).

Definition network_matches : list NetworkProtocolType → Res (list MatchPolicy) :=
  concatM (λ proto,
    if nonempty (npt_Protocol proto)
    then source_matches (npt_FromSource proto) (RNetwork proto) has_resource else Ok []).

Definition capability_matches : list CapabilitiesCapabilityType → Res (list MatchPolicy) :=
  concatM (λ cap,
    if nonempty (cct_Capability cap)
    then source_matches (cct_FromSource cap) (RCapability cap) has_resource else Ok []).

(** The source of a system-call rule: a path, or a directory with a final slash. *)
Definition syscall_source (src : SyscallFromSourceType) : option string :=
  if nonempty (sfs_Path src) then Some (sfs_Path src)
  else if nonempty (sfs_Dir src) then
    Some (if HasSuffix (sfs_Dir src) "/" then sfs_Dir src else sfs_Dir src +:+ "/")
  else None.

(** The loops over the sources and the names of a system-call rule; [mk] builds the
    one-name rule and [ro] is the match's [ReadOnly]. *)
Definition syscall_rule_matches (srcs : list SyscallFromSourceType) (names : list string)
    (mk : string → MatchRule) (keep : MatchPolicy → bool) (ro : bool)
    : Res (list MatchPolicy) :=
  match srcs with
  | [] =>
      concatM (λ name, m ← new_match "" (mk name);
                       Ok (if keep m then [mark_syscall (mp_Recursive m) ro m] else [])) names
  | _ =>
      concatM (λ src,
        match syscall_source src with
        | None => Ok []
        | Some fromSource =>
            concatM (λ name,
              m ← new_match fromSource (mk name);
              Ok (if keep m
                  then [mark_syscall (negb (nonempty (sfs_Path src)) && sfs_Recursive src) ro
                          (mark_source m)] else [])) names
        end) srcs
  end.

Definition syscall_matches : list SyscallMatchType → Res (list MatchPolicy) :=
  concatM (λ rule,
    syscall_rule_matches (smt_FromSource rule) (smt_Syscalls rule)
      (λ name, RSyscall {| smt_Syscalls := [name]; smt_FromSource := [];
         smt_Severity := smt_Severity rule; smt_Tags := smt_Tags rule;
         smt_Message := smt_Message rule |})
      (λ m, nonempty (mp_ResourceType m)) false).

Definition syscall_path_matches : list SyscallMatchPathType → Res (list MatchPolicy) :=
  concatM (λ rule,
    if nonempty (smpt_Path rule) && bool_decide (0 < List.length (smpt_Syscalls rule)) then
      syscall_rule_matches (smpt_FromSource rule) (smpt_Syscalls rule)
        (λ name, RSyscallPath {| smpt_Path := smpt_Path rule; smpt_Recursive := false;
           smpt_Syscalls := [name]; smpt_FromSource := [];
           smpt_Severity := smpt_Severity rule; smpt_Tags := smpt_Tags rule;
           smpt_Message := smpt_Message rule |})
        (λ m, nonempty (mp_ResourceType m) || nonempty (mp_Resource m))
        (smpt_Recursive rule)
    else Ok []).

(** The host's variant leaves out the path and the recursive flag; setting
    [match.Source] after the append has no effect. *)
Definition host_syscall_path_matches : list SyscallMatchPathType → Res (list MatchPolicy) :=
  concatM (λ rule,
    if nonempty (smpt_Path rule) && bool_decide (0 < List.length (smpt_Syscalls rule)) then
      syscall_rule_matches (smpt_FromSource rule) (smpt_Syscalls rule)
        (λ name, RSyscallPath {| smpt_Path := ""; smpt_Recursive := false;
           smpt_Syscalls := [name]; smpt_FromSource := [];
           smpt_Severity := smpt_Severity rule; smpt_Tags := smpt_Tags rule;
           smpt_Message := smpt_Message rule |})
        (λ m, nonempty (mp_ResourceType m) || nonempty (mp_Resource m)) false
    else Ok []).
End endpoint.

(** The loops over the parts of one policy. *)
Definition process_matches (enforcer : string) (pe : Z) (name : string) (p : ProcessType)
    : Res (list MatchPolicy) :=
  a ← process_path_matches enforcer pe name (pt_MatchPaths p);
  b ← process_dir_matches enforcer pe name (pt_MatchDirectories p);
  c ← process_pattern_matches enforcer pe name (pt_MatchPatterns p);
  Ok (a ++ b ++ c).

Definition file_matches (enforcer : string) (pe : Z) (name : string) (f : FileType)
    : Res (list MatchPolicy) :=
  a ← file_path_matches enforcer pe name (ft_MatchPaths f);
  b ← file_dir_matches enforcer pe name (ft_MatchDirectories f);
  c ← file_pattern_matches enforcer pe name (ft_MatchPatterns f);
  Ok (a ++ b ++ c).

Definition policyName_of (m : gmap string string) : string := default "" (m !! "policyName").

Definition policy_matches (enforcer : string) (pe : Z) (secPolicy : SecurityPolicy)
    : Res (list MatchPolicy) :=
  let name := policyName_of (sp_Metadata secPolicy) in
  let spec := sp_Spec secPolicy in
  if nonempty (ss_AppArmor spec) then Ok []
  else
    a ← process_matches enforcer pe name (ss_Process spec);
    b ← file_matches enforcer pe name (ss_File spec);
    c ← network_matches enforcer pe name (nt_MatchProtocols (ss_Network spec));
    d ← capability_matches enforcer pe name (ct_MatchCapabilities (ss_Capabilities spec));
    e ← syscall_matches enforcer pe name (st_MatchSyscalls (ss_Syscalls spec));
    f ← syscall_path_matches enforcer pe name (st_MatchPaths (ss_Syscalls spec));
    Ok (a ++ b ++ c ++ d ++ e ++ f).

Definition endpoint_name (ep : EndPoint) : string :=
  ep_NamespaceName ep +:+ "_" +:+ ep_EndPointName ep.

(** There is no [return] after the deletion: a deleted endpoint is added again. *)
Definition UpdateSecurityPolicies (action : string) (endPoint : EndPoint) (fd : Feeder)
    : Res Feeder :=
  let name := endpoint_name endPoint in
  let fd := if String.eqb action "DELETED"
            then set_SecurityPolicies (delete name (fd_SecurityPolicies fd)) fd else fd in
  matches ← concatM (policy_matches (fd_Enforcer fd) (ep_PolicyEnabled endPoint))
                    (ep_SecurityPolicies endPoint);
  Ok (set_SecurityPolicies (<[name := matches]> (fd_SecurityPolicies fd)) fd).

(** ** The match policies of the host *)

(** Process patterns of the host are never audited. *)
Definition host_process_matches (enforcer : string) (pe : Z) (name : string) (p : ProcessType)
    : Res (list MatchPolicy) :=
  a ← process_path_matches enforcer pe name (pt_MatchPaths p);
  b ← process_dir_matches enforcer pe name (pt_MatchDirectories p);
  c ← process_pattern_matches enforcer KubeArmorPolicyEnabled name (pt_MatchPatterns p);
  Ok (a ++ b ++ c).

Definition host_file_matches (enforcer : string) (pe : Z) (name : string) (f : FileType)
    : Res (list MatchPolicy) :=
  a ← file_path_matches enforcer pe name (ft_MatchPaths f);
  b ← file_dir_matches enforcer pe name (ft_MatchDirectories f);
  c ← file_pattern_matches enforcer pe name (ft_MatchPatterns f);
  Ok (a ++ b ++ c).

Definition host_network_matches (enforcer : string) (pe : Z) (name : string)
    (spec : HostSecuritySpec) : Res (list MatchPolicy) :=
  a ← network_matches enforcer pe name (nt_MatchProtocols (hs_Network spec));
  b ← capability_matches enforcer pe name (ct_MatchCapabilities (hs_Capabilities spec));
  Ok (a ++ b).

Definition host_syscall_matches (enforcer : string) (pe : Z) (name : string)
    (s : SyscallsType) : Res (list MatchPolicy) :=
  a ← syscall_matches enforcer pe name (st_MatchSyscalls s);
  b ← host_syscall_path_matches enforcer pe name (st_MatchPaths s);
  Ok (a ++ b).

Definition host_policy_matches (enforcer : string) (pe : Z) (secPolicy : HostSecurityPolicy)
    : Res (list MatchPolicy) :=
  let name := policyName_of (hp_Metadata secPolicy) in
  let spec := hp_Spec secPolicy in
  if nonempty (hs_AppArmor spec) then Ok []
  else
    a ← host_process_matches enforcer pe name (hs_Process spec);
    b ← host_file_matches enforcer pe name (hs_File spec);
    c ← host_network_matches enforcer pe name spec;
    d ← host_syscall_matches enforcer pe name (hs_Syscalls spec);
    Ok (a ++ b ++ c ++ d).

Definition UpdateHostSecurityPolicies (action : string)
    (secPolicies : list HostSecurityPolicy) (fd : Feeder) : Res Feeder :=
  if String.eqb action "DELETED"
  then Ok (set_SecurityPolicies (delete (fd_NodeName fd) (fd_SecurityPolicies fd)) fd)
  else
    matches ← concatM (host_policy_matches (fd_Enforcer fd) (fd_NodePolicyEnabled fd))
                      secPolicies;
    Ok (set_SecurityPolicies (<[fd_NodeName fd := matches]> (fd_SecurityPolicies fd)) fd).

Definition UpdateDefaultPosture (action namespace : string) (defaultPosture : DefaultPosture)
    (fd : Feeder) : Feeder :=
  set_DefaultPostures
    (if String.eqb action "DELETED" then delete namespace (fd_DefaultPostures fd)
     else <[namespace := defaultPosture]> (fd_DefaultPostures fd)) fd.

(** ** Protocols *)

Definition GetProtocolFromName (proto : string) : string :=
  let p := ToLower proto in
  if String.eqb p "tcp" then "protocol=TCP,type=SOCK_STREAM"
  else if String.eqb p "udp" then "protocol=UDP,type=SOCK_DGRAM"
  else if String.eqb p "icmp" then "protocol=ICMP,type=SOCK_RAW"
  else if String.eqb p "icmpv6" then "protocol=ICMPv6,type=SOCK_RAW"
  else if String.eqb p "sctp" then "protocol=SCTP,type=SOCK_STREAM|SOCK_SEQPACKET"
  else proto.

Definition fetchProtocol (resource : string) : string :=
  let has := Contains resource in
  if has "protocol=TCP" || (has "SOCK_STREAM" && has "protocol=HOPOPT") then "tcp"
  else if has "protocol=UDP" || (has "SOCK_DGRAM" && has "protocol=HOPOPT") then "udp"
  else if has "protocol=ICMP" then "icmp"
  else if has "SOCK_RAW" then "raw"
  else if has "protocol=ICMPv6" then "icmpv6"
  else if has "protocol=SCTP" then "sctp"
  else if has "SOCK_STREAM" then "stream"
  else if has "SOCK_DGRAM" then "dgram"
  else if has "SOCK_RDM" then "rdm"
  else if has "SOCK_SEQPACKET" then "seqpacket"
  else if has "SOCK_DCCP" then "dccp"
  else if has "SOCK_PACKET" then "packet"
  else resource.

(** ** Resources *)

Definition getDirectoryPart (path : string) : string :=
  let dir := Dir path in
  if HasPrefix dir "/" then dir +:+ "/" else "__not_absolute_path__".

(** The part of a string before the first blank. *)
Definition first_word (s : string) : string := hd "" (split " "%char s).

(** A directory rule and the directory of a resource, with the depth test. *)
Definition in_directory (sp : MatchPolicy) (dir : string) : bool :=
  let d := CountChar slash dir in let r := CountChar slash (mp_Resource sp) in
  HasPrefix dir (mp_Resource sp) &&
  ((negb (mp_Recursive sp) && bool_decide (d = r)) ||
   (mp_Recursive sp && bool_decide (r ≤ d)%nat)).

Definition matchResources (sp : MatchPolicy) (log : Log) : bool :=
  let b := lg_base log in
  let firstLogResource := first_word (lb_Resource b) in
  (String.eqb (mp_Operation sp) "File" &&
   ((String.eqb (mp_ResourceType sp) "Path" &&
     String.eqb (mp_Resource sp) firstLogResource) ||
    (String.eqb (mp_ResourceType sp) "Directory" &&
     in_directory sp (getDirectoryPart firstLogResource)) ||
    String.eqb (mp_Resource sp) (lb_Resource b +:+ "/") ||
    (String.eqb (mp_Resource sp) "/" && mp_Recursive sp))) ||
  (String.eqb (mp_Operation sp) "Process" &&
   ((String.eqb (mp_ResourceType sp) "Path" &&
     String.eqb (mp_Resource sp) (lb_ProcessName b)) ||
    (String.eqb (mp_ResourceType sp) "Directory" &&
     in_directory sp (getDirectoryPart (lb_ProcessName b))))).

(** ** Writing the outcome into the log *)

(** A matched rule; the block branches of network and capability rules leave [ATags]. *)
Definition matched (sp : MatchPolicy) (atags : bool) (enforcer action : string) (log : Log)
    : Log :=
  let tagged := bool_decide (0 < List.length (mp_Tags sp)) in
  {| lg_base := lg_base log; lg_Type := "MatchedPolicy";
     lg_PolicyName := mp_PolicyName sp; lg_Severity := mp_Severity sp;
     lg_Tags := if tagged then join "," (mp_Tags sp) else lg_Tags log;
     lg_ATags := if tagged && atags then mp_Tags sp else lg_ATags log;
     lg_Message := if nonempty (mp_Message sp) then mp_Message sp else lg_Message log;
     lg_Enforcer := enforcer; lg_Action := action |}.

(** The default posture; only process and file events clear [ATags]. *)
Definition postured (clear : bool) (action : string) (log : Log) : Log :=
  {| lg_base := lg_base log; lg_Type := "MatchedPolicy"; lg_PolicyName := "DefaultPosture";
     lg_Severity := ""; lg_Tags := ""; lg_ATags := if clear then [] else lg_ATags log;
     lg_Message := ""; lg_Enforcer := "eBPF Monitor"; lg_Action := action |}.

Definition with_type (t : string) (log : Log) : Log :=
  {| lg_base := lg_base log; lg_Type := t; lg_PolicyName := lg_PolicyName log;
     lg_Severity := lg_Severity log; lg_Tags := lg_Tags log; lg_ATags := lg_ATags log;
     lg_Message := lg_Message log; lg_Enforcer := lg_Enforcer log;
     lg_Action := lg_Action log |}.

(** The enforcer named for allowed and blocked events. *)
Definition enforcer_of (fd : Feeder) (log : Log) : string :=
  if (lb_PolicyEnabled (lg_base log) =? KubeArmorPolicyAudited)%Z then "eBPF Monitor"
  else fd_Enforcer fd.

Definition passed (log : Log) : bool := String.eqb (lb_Result (lg_base log)) "Passed".
Definition is_action (sp : MatchPolicy) (a : string) : bool := String.eqb (mp_Action sp) a.
Definition allows (sp : MatchPolicy) : bool := is_action sp "Allow" || is_action sp "Audit (Allow)".

(** ** One rule against one event *)

(** What a turn of the loop leaves behind: the log, and whether later rules are skipped. *)
Definition Turn : Type := Log * bool.

(** The two tests at the end of a turn, which apply the default posture of the
    namespace; [fresh] restricts them to logs whose type is not known yet. *)
Definition posture_tail (fresh clear : bool) (posture : string) (sp : MatchPolicy) (log : Log)
    : Log :=
  let log :=
    if String.eqb posture "block" && is_action sp "Audit (Allow)" && passed log &&
       (negb fresh || String.eqb (lg_Type log) "")
    then postured clear "Audit (Block)" log else log in
  if String.eqb posture "audit" && allows sp && passed log &&
     (negb fresh || String.eqb (lg_Type log) "")
  then postured clear "Audit" log else log.

(** The source matches but no rule decided: an Allow rule was violated. *)
Definition violated (fresh clear : bool) (posture : string) (sp : MatchPolicy) (log : Log) : Log :=
  if is_action sp "Allow" && negb (passed log) then postured clear "Block" log
  else if is_action sp "Audit (Allow)" && passed log then
    postured clear (if String.eqb posture "block" then "Audit (Block)" else "Audit") log
  else posture_tail fresh clear posture sp log.

(** [ReadOnly] and [OwnerOnly] *)
Definition matched_flags (sp : MatchPolicy) (log : Log) : bool :=
  let b := lg_base log in
  let rdonly := Contains (lb_Data b) "O_RDONLY" in
  let owner := (lb_UID b =? lb_OID b)%Z in
  let allow := Contains (mp_Action sp) "Allow" in
  let resource := nonempty (lb_Resource b) in
  if mp_ReadOnly sp && resource && mp_OwnerOnly sp then
    (rdonly && owner && allow) ||
    ((rdonly && negb owner) || (negb rdonly && owner) || (negb rdonly && negb owner))
  else if mp_ReadOnly sp && resource then (rdonly && allow) || negb rdonly
  else if mp_OwnerOnly sp then (owner && allow) || negb owner
  else true.

Definition special_match (sp : MatchPolicy) (log : Log) : bool :=
  let b := lg_base log in
  if String.eqb (mp_ResourceType sp) "Glob" then
    Match (mp_Resource sp) (lb_Resource b) || Match (mp_Resource sp) (lb_ProcessName b)
  else if String.eqb (mp_ResourceType sp) "Regexp" then
    match mp_Regexp sp with
    | Some rx => MatchString rx (lb_Resource b) || MatchString rx (lb_ProcessName b)
    | None => false
    end
  else if String.eqb (mp_ResourceType sp) "ExecName" then
    HasSuffix (lb_ProcessName b) ("/" +:+ mp_Resource sp)
  else false.

Definition file_source (sp : MatchPolicy) (log : Log) : bool :=
  negb (mp_IsFromSource sp) ||
  (String.eqb (mp_Source sp) (lb_ParentProcessName (lg_base log)) ||
   String.eqb (mp_Source sp) (lb_ProcessName (lg_base log))).

(** The block branch, for a rule that blocks or audits what it would block. *)
Definition file_blocks (sp : MatchPolicy) (flags : bool) (log : Log) : bool :=
  let special := mp_OwnerOnly sp || mp_ReadOnly sp in
  (is_action sp "Block" && negb (passed log)) ||
  (flags && negb special && is_action sp "Audit (Block)" && passed log) ||
  (negb flags && special && is_action sp "Audit (Block)" && passed log).

Definition file_turn (fd : Feeder) (posture : string) (sp : MatchPolicy) (log : Log) : Turn :=
  if file_source sp log then
    if special_match sp log || matchResources sp log then
      let flags := matched_flags sp log in
      if flags && allows sp && passed log then
        if String.eqb (lg_Action log) "Audit" then (log, false)
        else (matched sp true (enforcer_of fd log) "Allow" log, false)
      else if flags && is_action sp "Audit" && passed log then
        (matched sp true "eBPF Monitor" (mp_Action sp) log, true)
      else if file_blocks sp flags log then
        (matched sp true (enforcer_of fd log) (mp_Action sp) log, true)
      else if flags && is_action sp "Allow" && negb (passed log) then (log, false)
      else (violated true true posture sp log, false)
    else (violated true true posture sp log, false)
  else (posture_tail true true posture sp log, false).

Definition command_source (sp : MatchPolicy) (log : Log) : bool :=
  negb (mp_IsFromSource sp) ||
  (HasPrefix (lb_Source (lg_base log)) (mp_Source sp +:+ " ") ||
   String.eqb (mp_Source sp) (lb_ProcessName (lg_base log))).

(** The three decisions that network and capability rules share. *)
Definition command_decision (fd : Feeder) (sp : MatchPolicy) (log : Log) : option Log :=
  if allows sp && passed log then Some (matched sp true (enforcer_of fd log) "Allow" log)
  else if is_action sp "Audit" && passed log then
    Some (matched sp true "eBPF Monitor" (mp_Action sp) log)
  else if (is_action sp "Block" && negb (passed log)) ||
          (is_action sp "Audit (Block)" && passed log) then
    Some (matched sp false (enforcer_of fd log) (mp_Action sp) log)
  else None.

Definition allowed_unknown (log : Log) : Log :=
  {| lg_base := lg_base log; lg_Type := "MatchedPolicy"; lg_PolicyName := lg_PolicyName log;
     lg_Severity := lg_Severity log; lg_Tags := lg_Tags log; lg_ATags := lg_ATags log;
     lg_Message := lg_Message log; lg_Enforcer := lg_Enforcer log; lg_Action := "Allow" |}.

(** [last]: this is the last rule. *)
Definition network_turn (fd : Feeder) (posture : string) (last : bool) (sp : MatchPolicy)
    (log : Log) : Turn :=
  if command_source sp log then
    let protocol := fetchProtocol (lb_Resource (lg_base log)) in
    let flags := String.eqb protocol (mp_Resource sp) || String.eqb (mp_Resource sp) "all" in
    match (if flags then command_decision fd sp log else None) with
    | Some log => (log, true)
    | None =>
        if String.eqb protocol "unknown" then (allowed_unknown log, false)
        else if negb flags && negb last then (log, false)
        else (violated false false posture sp log, false)
    end
  else (posture_tail false false posture sp log, false).

(** The inner loop over the capabilities of a rule; the decision does not depend on
    which of them matched. *)
Definition capability_turn (fd : Feeder) (posture : string) (sp : MatchPolicy) (log : Log)
    : Log :=
  if command_source sp log then
    let hit := existsb (Contains (lb_Resource (lg_base log))) (split ","%char (mp_Resource sp)) in
    match (if hit then command_decision fd sp log else None) with
    | Some log => log
    | None => violated false false posture sp log
    end
  else posture_tail false false posture sp log.

(** ** System calls *)

(** [strings.Split] with a longer separator: skip the rest of a separator found. *)
Fixpoint split_str_from (sep : string) (skip : nat) (s : string) : list string :=
  match s with
  | EmptyString => [""]
  | String c s' =>
      match skip with
      | S k => split_str_from sep k s'
      | O =>
          if HasPrefix s sep then "" :: split_str_from sep (String.length sep - 1) s'
          else match split_str_from sep 0 s' with
               | h :: t => String c h :: t
               | [] => [String c ""]
               end
      end
  end.
Definition split_str (sep s : string) : list string := split_str_from sep 0 s.

(** [strings.Split(strings.Split(log.Data, " ")[0], "SYS_")[1]] *)
Definition syscall_name (log : Log) : Res string :=
  match split_str "SYS_" (first_word (lb_Data (lg_base log))) with
  | _ :: name :: _ => Ok name
  | _ => Panic
  end.

Definition ends_with_slash (s : string) : bool := HasSuffix s "/".

(** The source test; indexing the last byte of an empty source panics. *)
Definition syscall_from_source (sp : MatchPolicy) (syscallSource : string) : Res bool :=
  if mp_IsFromSource sp then
    if HasPrefix syscallSource (mp_Source sp) then
      if nonempty (mp_Source sp) then
        let n := String.length (mp_Source sp) in
        Ok ((ends_with_slash (mp_Source sp) &&
             (mp_Recursive sp ||
              negb (Contains (String.substring n (String.length syscallSource - n) syscallSource)
                             "/"))) ||
            String.eqb (mp_Source sp) syscallSource)
      else Panic
    else Ok (String.eqb (mp_Source sp) syscallSource)
  else Ok false.

(** [ReadOnly] holds the recursive flag of the rule's path. *)
Definition syscall_path (sp : MatchPolicy) (resource : string) : bool :=
  let r := mp_Resource sp in
  nonempty r &&
  ((ends_with_slash r &&
    ((HasPrefix resource r && mp_ReadOnly sp) ||
     String.eqb (String.substring 0 (String.length r - 1) r) resource)) ||
   String.eqb r resource).

Definition syscall_matched (sp : MatchPolicy) (log : Log) : Log :=
  {| lg_base := lg_base log; lg_Type := "MatchedPolicy";
     lg_PolicyName := mp_PolicyName sp; lg_Severity := mp_Severity sp;
     lg_Tags := if bool_decide (0 < List.length (mp_Tags sp))%nat
                then join "," (mp_Tags sp) else lg_Tags log;
     lg_ATags := lg_ATags log;
     lg_Message := if nonempty (mp_Message sp) then mp_Message sp else lg_Message log;
     lg_Enforcer := lg_Enforcer log; lg_Action := lg_Action log |}.

Definition syscall_turn (sp : MatchPolicy) (log : Log) : Res Log :=
  name ← syscall_name log;
  if String.eqb name (mp_ResourceType sp) then
    fromSource ← syscall_from_source sp (first_word (lb_Source (lg_base log)));
    let matchPath := syscall_path sp (lb_Resource (lg_base log)) in
    let matchedRule := (negb (nonempty (mp_Resource sp)) || matchPath) &&
                       (negb (mp_IsFromSource sp) || fromSource) in
    Ok (if matchedRule then syscall_matched sp log else log)
  else Ok log.

(** ** The loop over the rules of an endpoint *)

(** The log, whether a rule has decided, and which Allow rules were seen. *)
Record Loop := {
  lp_log : Log; lp_skip : bool;
  lp_file : bool; lp_network : bool; lp_capabilities : bool }.

Definition see_allow (sp : MatchPolicy) (st : Loop) : Loop :=
  let op := mp_Operation sp in
  let file := String.eqb op "Process" || String.eqb op "File" in
  let net := negb file && String.eqb op "Network" in
  let cap := negb file && negb net && String.eqb op "Capabilities" in
  if allows sp then
    {| lp_log := lp_log st; lp_skip := lp_skip st; lp_file := lp_file st || file;
       lp_network := lp_network st || net; lp_capabilities := lp_capabilities st || cap |}
  else st.

Definition with_turn (t : Turn) (st : Loop) : Loop :=
  {| lp_log := t.1; lp_skip := t.2; lp_file := lp_file st; lp_network := lp_network st;
     lp_capabilities := lp_capabilities st |}.

Definition turn (fd : Feeder) (dp : DefaultPosture) (last : bool) (sp : MatchPolicy)
    (st : Loop) : Res Loop :=
  let st := see_allow sp st in
  let log := lp_log st in
  let op := lb_Operation (lg_base log) in
  if allows sp && String.eqb (dp_FileAction dp) "allow" then Ok st
  else if negb (String.eqb (mp_Operation sp) op) then Ok st
  else if String.eqb op "Process" || String.eqb op "File" then
    Ok (if lp_skip st then st
        else with_turn (file_turn fd (dp_FileAction dp) sp log) st)
  else if String.eqb op "Network" then
    Ok (if lp_skip st then st
        else with_turn (network_turn fd (dp_NetworkAction dp) last sp log) st)
  else if String.eqb op "Capabilities" then
    Ok (with_turn (capability_turn fd (dp_CapabilitiesAction dp) sp log, lp_skip st) st)
  else if String.eqb op "Syscall" then
    log' ← syscall_turn sp log; Ok (with_turn (log', lp_skip st) st)
  else Ok st.

Fixpoint match_rules (fd : Feeder) (dp : DefaultPosture) (l : list MatchPolicy) (st : Loop)
    : Res Loop :=
  match l with
  | [] => Ok st
  | sp :: l' => st ← turn fd dp (bool_decide (l' = [])) sp st; match_rules fd dp l' st
  end.

(** ** The decision for an event *)

Definition zero_DefaultPosture : DefaultPosture :=
  {| dp_FileAction := ""; dp_NetworkAction := ""; dp_CapabilitiesAction := "" |}.

(** The log, and whether it is to be returned. *)
Definition setLogFields (log : Log) (existAllowPolicy : bool) (defaultPosture : string)
    (visibility containerEvent : bool) : Log * bool :=
  let deflt (action : string) :=
    {| lg_base := lg_base log;
       lg_Type := if containerEvent then "MatchedPolicy" else "MatchedHostPolicy";
       lg_PolicyName := "DefaultPosture"; lg_Severity := lg_Severity log;
       lg_Tags := lg_Tags log; lg_ATags := lg_ATags log; lg_Message := lg_Message log;
       lg_Enforcer := "eBPF Monitor"; lg_Action := action |} in
  if existAllowPolicy && String.eqb defaultPosture "audit" && passed log then
    (deflt "Audit", true)
  else if existAllowPolicy && String.eqb defaultPosture "block" && negb (passed log) then
    (deflt "Block", true)
  else if containerEvent then (with_type "ContainerLog" log, true)
  else (with_type "HostLog" log, visibility).

(** A log that is not to be returned becomes [tp.Log{}]. *)
Definition or_zero (r : Log * bool) : Log := if r.2 then r.1 else zero_Log.

Definition posture_of (fd : Feeder) (ns : string) : DefaultPosture :=
  default zero_DefaultPosture (fd_DefaultPostures fd !! ns).

Definition result_tested (log : Log) : bool :=
  let r := lb_Result (lg_base log) in
  String.eqb r "Passed" || String.eqb r "Operation not permitted" ||
  String.eqb r "Permission denied".

Definition container_result (st : Loop) (fd : Feeder) : Feeder * Log :=
  let log := lp_log st in
  let b := lg_base log in
  if String.eqb (lg_Type log) "" then
    let fd :=
      match fd_DefaultPostures fd !! lb_NamespaceName b with
      | Some _ => fd
      | None => set_DefaultPostures (<[lb_NamespaceName b := fd_GlobalPosture fd]>
                                       (fd_DefaultPostures fd)) fd
      end in
    let dp := posture_of fd (lb_NamespaceName b) in
    let op := lb_Operation b in
    (fd,
     if String.eqb op "Process" then
       or_zero (setLogFields log (lp_file st) (dp_FileAction dp)
                  (lb_ProcessVisibilityEnabled b) true)
     else if String.eqb op "File" then
       or_zero (setLogFields log (lp_file st) (dp_FileAction dp)
                  (lb_FileVisibilityEnabled b) true)
     else if String.eqb op "Network" then
       or_zero (setLogFields log (lp_network st) (dp_NetworkAction dp)
                  (lb_NetworkVisibilityEnabled b) true)
     else if String.eqb op "Capabilities" then
       or_zero (setLogFields log (lp_capabilities st) (dp_CapabilitiesAction dp)
                  (lb_CapabilitiesVisibilityEnabled b) true)
     else if String.eqb op "Syscall" then or_zero (setLogFields log false "" true true)
     else zero_Log)
  else if String.eqb (lg_Type log) "MatchedPolicy" then
    (fd, if String.eqb (lg_Action log) "Allow" && passed log then zero_Log else log)
  else (fd, zero_Log).

Definition host_result (st : Loop) (fd : Feeder) : Log :=
  let log := lp_log st in
  let dp := fd_GlobalPosture fd in
  let v := fd_NodeVisibility fd in
  let op := lb_Operation (lg_base log) in
  if String.eqb (lg_Type log) "" then
    if String.eqb op "Process" then
      or_zero (setLogFields log (lp_file st) (dp_FileAction dp) (vis_Process v) false)
    else if String.eqb op "File" then
      or_zero (setLogFields log (lp_file st) (dp_FileAction dp) (vis_File v) false)
    else if String.eqb op "Network" then
      or_zero (setLogFields log (lp_network st) (dp_NetworkAction dp) (vis_Network v) false)
    else if String.eqb op "Capabilities" then
      or_zero (setLogFields log (lp_capabilities st) (dp_CapabilitiesAction dp)
                 (vis_Capabilities v) false)
    else zero_Log
  else if String.eqb (lg_Type log) "MatchedPolicy" then
    if String.eqb (lg_Action log) "Allow" && passed log then zero_Log
    else with_type "MatchedHostPolicy" log
  else zero_Log.

(** The rules looked at for an event. *)
Definition policy_key (fd : Feeder) (b : LogBase) : string :=
  if nonempty (lb_NamespaceName b) && nonempty (lb_PodName b)
  then lb_NamespaceName b +:+ "_" +:+ lb_PodName b else fd_Host fd.

Definition UpdateMatchedPolicy (log : Log) (fd : Feeder) : Res (Feeder * Log) :=
  let b := lg_base log in
  if result_tested log && String.eqb (lg_Type log) "SystemEvent" then Ok (fd, log)
  else
    let start := {| lp_log := log; lp_skip := false; lp_file := false; lp_network := false;
                    lp_capabilities := false |} in
    st ← (if result_tested log then
            match_rules fd (posture_of fd (lb_NamespaceName b))
              (default [] (fd_SecurityPolicies fd !! policy_key fd b)) start
          else Ok start);
    Ok (if nonempty (lb_ContainerID b) then container_result st fd
        else (fd, host_result st fd)).
End matcher.
