(* ===== verification/PolicyMatcherProps.v ===== *)
(** Properties of the policy matcher: the match policies of an endpoint are well formed
    and matching them cannot panic; the first deciding rule is the one reported; a
    directory rule covers the files it names. *)
From Stdlib Require Import Ascii String.
From S2P Require Import Prelude GoStrings GoPath Types PolicyMatcher.

Open Scope string_scope.
Open Scope nat_scope.
Open Scope list_scope.

Section props.
Context {Rx : Type} (Compile : string → option Rx) (MatchString : Rx → string → bool).
Abbreviation MP := (@MatchPolicy Rx).
Abbreviation FD := (@Feeder Rx).

(** ** What the generator produces *)

(** A match policy that came from a rule: it is marked as having a source exactly when it
    has one, its operation is one of five, and no process or file rule is of type
    [Regexp]. *)
Record wf_match (m : MP) : Prop := {
  wf_source : mp_IsFromSource m = nonempty (mp_Source m);
  wf_regexp : mp_Operation m = "Process" ∨ mp_Operation m = "File" →
              mp_ResourceType m ∈ ["Path"; "ExecName"; "Directory"; "Glob"] }.

(** A computation that does not panic and whose result satisfies [P]. *)
Definition okP {A} (P : A → Prop) (r : Res A) : Prop := ∃ a, r = Ok a ∧ P a.

Lemma okP_bind {A B} (P : A → Prop) (Q : B → Prop) (r : Res A) (f : A → Res B) :
  okP P r → (∀ a, P a → okP Q (f a)) → okP Q (r ≫= f).
Proof. intros (a & -> & Ha) Hf. by apply Hf. Qed.

Lemma okP_ret {A} (P : A → Prop) a : P a → okP P (Ok a).
Proof. by exists a. Qed.

Lemma okP_impl {A} (P Q : A → Prop) r : okP P r → (∀ a, P a → Q a) → okP Q r.
Proof. intros (a & -> & Ha) H. exists a. auto. Qed.

Lemma concatM_Forall {A B} (P : B → Prop) (f : A → Res (list B)) l :
  (∀ x, x ∈ l → okP (Forall P) (f x)) → okP (Forall P) (concatM f l).
Proof.
  induction l as [|x l IH]; intros Hf; [by apply okP_ret|]. cbn [concatM].
  apply (okP_bind (Forall P)); [apply Hf; left|]. intros a Ha.
  apply (okP_bind (Forall P)); [apply IH; intros; apply Hf; by right|]. intros b Hb.
  apply okP_ret, list.Forall_app. done.
Qed.

(** Appending two lists of well-formed results. *)
Lemma okP_app {B} (P : B → Prop) (r : Res (list B)) (k : list B → Res (list B)) :
  okP (Forall P) r → (∀ a, Forall P a → okP (Forall P) (k a)) → okP (Forall P) (r ≫= k).
Proof. apply okP_bind. Qed.

(** A rule with a system call or none needed. *)
Definition named (r : MatchRule) : Prop :=
  match r with
  | RSyscall s => smt_Syscalls s ≠ []
  | RSyscallPath s => smpt_Syscalls s ≠ []
  | _ => True
  end.

(** The fields of a fresh match policy. *)
Lemma newMatchPolicy_ok e pe name src r :
  named r → okP (λ m : MP,
    mp_IsFromSource m = false ∧ (r ≠ ROther → mp_Source m = src) ∧
    match r with
    | RProcessPath _ | RProcessDirectory _ | RFilePath _ | RFileDirectory _ =>
        mp_ResourceType m ∈ ["Path"; "ExecName"; "Directory"; "Glob"]
    | RProcessPattern _ | RFilePattern _ => True
    | _ => mp_Operation m ≠ "Process" ∧ mp_Operation m ≠ "File"
    end) (newMatchPolicy e pe name src r).
Proof.
  unfold newMatchPolicy, getOperationAndCapabilityFromName, first_syscall.
  destruct r as [r|r|r|r|r|r|r|r|r|r|]; cbn [named]; intros Hn.
  - destruct (bool_decide _); apply okP_ret; cbn; (split_and!; [done|done|set_solver]).
  - apply okP_ret. cbn. split_and!; [done|done|set_solver].
  - by apply okP_ret.
  - apply okP_ret. cbn. split_and!; [done|done|set_solver].
  - apply okP_ret. cbn. split_and!; [done|done|set_solver].
  - by apply okP_ret.
  - by apply okP_ret.
  - destruct (String.eqb e "BPFLSM"); [|destruct (String.eqb _ "net_raw")]; by apply okP_ret.
  - destruct (smt_Syscalls r); [done|]. by apply okP_ret.
  - destruct (smpt_Syscalls r); [done|]. by apply okP_ret.
  - by apply okP_ret.
Qed.

(** At most one match policy is appended. *)
Lemma Forall_keep {A} (P : A → Prop) (b : bool) a : P a → Forall P (if b then [a] else []).
Proof. intros Ha. destruct b; [by apply list.Forall_singleton|constructor]. Qed.

(** Rules whose resource type is fixed when they are built. *)
Definition typed (r : MatchRule) : Prop :=
  match r with RProcessPattern _ | RFilePattern _ | ROther => False | _ => named r end.

Lemma typed_fresh e pe name src r :
  typed r → okP (λ m : MP, mp_IsFromSource m = false ∧ mp_Source m = src ∧
    (mp_Operation m = "Process" ∨ mp_Operation m = "File" →
     mp_ResourceType m ∈ ["Path"; "ExecName"; "Directory"; "Glob"]))
    (newMatchPolicy e pe name src r).
Proof.
  intros Ht. assert (named r) as Hn by (by destruct r).
  eapply okP_impl; [by apply newMatchPolicy_ok|]. cbn. intros m (H1 & H2 & H3).
  assert (r ≠ ROther) as Hr by (by intros ->). split_and!; [done|by apply H2|].
  destruct r; try done; intros [? | ?]; destruct H3; done.
Qed.

Lemma source_matches_wf e pe name srcs r keep :
  typed r → okP (Forall wf_match) (source_matches (Rx := Rx) e pe name srcs r keep).
Proof.
  intros Ht. unfold source_matches. destruct srcs as [|s0 srcs].
  - eapply okP_bind; [by apply typed_fresh|]. cbn. intros m (H1 & H2 & H3).
    apply okP_ret, Forall_keep. split; [by rewrite H1, H2|done].
  - apply concatM_Forall. intros src _. case_match; [|by apply okP_ret].
    eapply okP_bind; [by apply typed_fresh|]. cbn. intros m (H1 & H2 & H3).
    apply okP_ret, Forall_keep. by split.
Qed.

Lemma pattern_matches_wf e pe name patt r :
  named r → r ≠ ROther →
  okP (Forall wf_match) (pattern_matches Compile e pe name patt r).
Proof.
  intros Hn Ho. unfold pattern_matches. case_match; [|by apply okP_ret].
  eapply okP_bind; [by apply newMatchPolicy_ok|]. cbn. intros m (H1 & H2 & _).
  apply okP_ret. destruct (Compile patt); [apply list.Forall_singleton|constructor].
  split; cbn; [by rewrite H1, (H2 Ho)|set_solver].
Qed.

Lemma syscall_rule_wf e pe name srcs names mk keep ro :
  (∀ s, typed (mk s)) →
  okP (Forall wf_match) (syscall_rule_matches (Rx := Rx) e pe name srcs names mk keep ro).
Proof.
  intros Hmk. unfold syscall_rule_matches. destruct srcs as [|s0 srcs].
  - apply concatM_Forall. intros n _. eapply okP_bind; [by apply typed_fresh|]. cbn.
    intros m (H1 & H2 & H3). apply okP_ret, Forall_keep. split; cbn; [by rewrite H1, H2|done].
  - apply concatM_Forall. intros src _. destruct (syscall_source src); [|by apply okP_ret].
    apply concatM_Forall. intros n _. eapply okP_bind; [by apply typed_fresh|]. cbn.
    intros m (H1 & H2 & H3). apply okP_ret, Forall_keep. by split.
Qed.

Lemma endpoint_rules_wf e pe name :
  (∀ l, okP (Forall wf_match) (process_path_matches (Rx := Rx) e pe name l)) ∧
  (∀ l, okP (Forall wf_match) (process_dir_matches (Rx := Rx) e pe name l)) ∧
  (∀ l, okP (Forall wf_match) (process_pattern_matches Compile e pe name l)) ∧
  (∀ l, okP (Forall wf_match) (file_path_matches (Rx := Rx) e pe name l)) ∧
  (∀ l, okP (Forall wf_match) (file_dir_matches (Rx := Rx) e pe name l)) ∧
  (∀ l, okP (Forall wf_match) (file_pattern_matches Compile e pe name l)) ∧
  (∀ l, okP (Forall wf_match) (network_matches (Rx := Rx) e pe name l)) ∧
  (∀ l, okP (Forall wf_match) (capability_matches (Rx := Rx) e pe name l)) ∧
  (∀ l, okP (Forall wf_match) (syscall_matches (Rx := Rx) e pe name l)) ∧
  (∀ l, okP (Forall wf_match) (syscall_path_matches (Rx := Rx) e pe name l)) ∧
  (∀ l, okP (Forall wf_match) (host_syscall_path_matches (Rx := Rx) e pe name l)).
Proof.
  split_and!; intros l; apply concatM_Forall; intros x _;
    repeat case_match; try (by apply okP_ret);
    first [ by apply source_matches_wf | by apply pattern_matches_wf
          | by apply syscall_rule_wf ].
Qed.

(** Runs through the parts of a policy. *)
Ltac wf_parts :=
  repeat first [ apply okP_ret; rewrite ?list.Forall_app; done
               | apply (okP_bind (Forall wf_match)); [first [solve [eauto] | apply endpoint_rules_wf]|];
                 intros ].

Lemma process_matches_wf e pe name p :
  okP (Forall wf_match) (process_matches Compile e pe name p).
Proof. unfold process_matches. wf_parts. Qed.

Lemma host_process_matches_wf e pe name p :
  okP (Forall wf_match) (host_process_matches Compile e pe name p).
Proof. unfold host_process_matches. wf_parts. Qed.

Lemma file_matches_wf e pe name p :
  okP (Forall wf_match) (file_matches Compile e pe name p).
Proof. unfold file_matches. wf_parts. Qed.

Lemma policy_matches_wf e pe sp : okP (Forall wf_match) (policy_matches Compile e pe sp).
Proof.
  pose proof process_matches_wf. pose proof file_matches_wf. unfold policy_matches.
  case_match; [by apply okP_ret|]. wf_parts.
Qed.

Lemma host_network_matches_wf e pe name p :
  okP (Forall wf_match) (host_network_matches (Rx := Rx) e pe name p).
Proof. unfold host_network_matches. wf_parts. Qed.

Lemma host_syscall_matches_wf e pe name p :
  okP (Forall wf_match) (host_syscall_matches (Rx := Rx) e pe name p).
Proof. unfold host_syscall_matches. wf_parts. Qed.

Lemma host_policy_matches_wf e pe sp :
  okP (Forall wf_match) (host_policy_matches Compile e pe sp).
Proof.
  pose proof host_process_matches_wf. pose proof file_matches_wf.
  pose proof host_network_matches_wf. pose proof host_syscall_matches_wf.
  unfold host_policy_matches.
  case_match; [by apply okP_ret|]. wf_parts.
Qed.

(** A feeder all of whose match policies are well formed. *)
Definition wf_feeder (fd : FD) : Prop := map_Forall (λ _, Forall wf_match) (fd_SecurityPolicies fd).

Lemma wf_feeder_insert fd k l :
  wf_feeder fd → Forall wf_match l →
  wf_feeder (set_SecurityPolicies (<[k := l]> (fd_SecurityPolicies fd)) fd).
Proof. intros Hfd Hl. by apply map_Forall_insert_2. Qed.

Lemma wf_feeder_delete fd k :
  wf_feeder fd →
  wf_feeder (set_SecurityPolicies (delete k (fd_SecurityPolicies fd)) fd).
Proof. apply map_Forall_delete. Qed.

Lemma UpdateSecurityPolicies_okP action ep fd :
  wf_feeder fd → okP wf_feeder (UpdateSecurityPolicies Compile action ep fd).
Proof.
  intros Hfd. unfold UpdateSecurityPolicies.
  apply (okP_bind (Forall wf_match)).
  - apply concatM_Forall. intros x _. apply policy_matches_wf.
  - intros l Hl. apply okP_ret, wf_feeder_insert; [|done].
    destruct (String.eqb action "DELETED"); [by apply wf_feeder_delete|done].
Qed.

Lemma UpdateHostSecurityPolicies_okP action l fd :
  wf_feeder fd → okP wf_feeder (UpdateHostSecurityPolicies Compile action l fd).
Proof.
  intros Hfd. unfold UpdateHostSecurityPolicies. destruct (String.eqb action "DELETED").
  - by apply okP_ret, wf_feeder_delete.
  - apply (okP_bind (Forall wf_match)).
    + apply concatM_Forall. intros x _. apply host_policy_matches_wf.
    + intros ms Hms. by apply okP_ret, wf_feeder_insert.
Qed.

(** ** No event makes the matcher panic *)

Lemma split_str_nonempty sep skip s : split_str_from sep skip s ≠ [].
Proof.
  revert skip. induction s as [|c s IH]; intros [|k]; cbn; [done..| |apply IH].
  destruct (HasPrefix _ _); [done|]. by destruct (split_str_from sep 0 s).
Qed.

(** A string that contains the separator is split in two at least. *)
Lemma split_str_two sep s :
  sep ≠ "" → Contains s sep = true → ∃ a b l, split_str sep s = a :: b :: l.
Proof.
  intros Hsep. unfold split_str. induction s as [|c s IH]; cbn [split_str_from Contains].
  - rewrite orb_false_r. intros [r Hr]%HasPrefix_app. destruct sep; [by destruct Hsep|discriminate Hr].
  - destruct (HasPrefix (String c s) sep); cbn.
    + intros _. pose proof (split_str_nonempty sep (String.length sep - 1) s) as Hne.
      destruct (split_str_from sep (String.length sep - 1) s) as [|b l]; [by destruct Hne|eauto].
    + intros (a & b & l & ->)%IH. eauto.
Qed.

(** The data of system-call events. *)
Definition syscall_data (b : LogBase) : Prop :=
  lb_Operation b = "Syscall" → Contains (first_word (lb_Data b)) "SYS_" = true.

Lemma syscall_name_ok log :
  syscall_data (lg_base log) → lb_Operation (lg_base log) = "Syscall" →
  ∃ n, syscall_name log = Ok n.
Proof.
  intros H Hop. unfold syscall_name.
  destruct (split_str_two "SYS_" (first_word (lb_Data (lg_base log)))) as (a & b & l & ->);
    [done|by apply H|eauto].
Qed.

(** Well-formed sources are never indexed out of range. *)
Lemma syscall_from_source_ok sp src :
  wf_match sp → ∃ b, syscall_from_source sp src = Ok b.
Proof.
  intros Hwf. unfold syscall_from_source. rewrite (wf_source _ Hwf).
  destruct (nonempty (mp_Source sp)); [|eauto]. destruct (HasPrefix src _); eauto.
Qed.

(** ** What a turn leaves alone *)

(** The fields of the event are only read. *)
Definition same_event (l l' : Log) : Prop := lg_base l' = lg_base l.

Lemma same_event_trans l1 l2 l3 : same_event l1 l2 → same_event l2 l3 → same_event l1 l3.
Proof. unfold same_event. congruence. Qed.

(** A turn leaves the log alone or marks it as matched. *)
Definition touched (l l' : Log) : Prop :=
  same_event l l' ∧ (l' = l ∨ lg_Type l' = "MatchedPolicy").

Lemma touched_refl l : touched l l.
Proof. split; [done|by left]. Qed.

Lemma touched_mark l l' : same_event l l' → lg_Type l' = "MatchedPolicy" → touched l l'.
Proof. split; [done|by right]. Qed.

Lemma touched_trans l1 l2 l3 : touched l1 l2 → touched l2 l3 → touched l1 l3.
Proof.
  intros [S1 H1] [S2 [->|H2]]; [done|]. apply touched_mark; [by eapply same_event_trans|done].
Qed.

Ltac touch := first [apply touched_refl | by apply touched_mark].

Lemma posture_tail_touched fresh clear posture sp log :
  touched log (posture_tail (Rx := Rx) fresh clear posture sp log).
Proof. unfold posture_tail. repeat case_bool; touch. Qed.

Lemma violated_touched fresh clear posture sp log :
  touched log (violated (Rx := Rx) fresh clear posture sp log).
Proof. unfold violated. repeat case_bool; first [apply posture_tail_touched | touch]. Qed.

Lemma command_decision_touched fd sp log log' :
  command_decision (Rx := Rx) fd sp log = Some log' → touched log log'.
Proof. unfold command_decision. repeat case_bool; intros; simplify_eq; touch. Qed.

Lemma file_turn_touched fd posture sp log :
  touched log (file_turn MatchString fd posture sp log).1.
Proof.
  unfold file_turn. repeat case_bool;
    first [apply violated_touched | apply posture_tail_touched | touch].
Qed.

Lemma network_turn_touched fd posture last sp log :
  touched log (network_turn (Rx := Rx) fd posture last sp log).1.
Proof.
  unfold network_turn. destruct (command_source sp log); [|apply posture_tail_touched].
  destruct (if _ : bool then command_decision fd sp log else None) eqn:E.
  - case_bool; [by eapply command_decision_touched|done].
  - repeat case_bool; first [apply violated_touched | touch].
Qed.

Lemma capability_turn_touched fd posture sp log :
  touched log (capability_turn (Rx := Rx) fd posture sp log).
Proof.
  unfold capability_turn. destruct (command_source sp log); [|apply posture_tail_touched].
  destruct (if _ : bool then command_decision fd sp log else None) eqn:E;
    [|apply violated_touched]. case_bool; [by eapply command_decision_touched|done].
Qed.

Lemma see_allow_log sp st : lp_log (see_allow (Rx := Rx) sp st) = lp_log st.
Proof. unfold see_allow. by case_bool. Qed.

Lemma syscall_turn_okP sp log :
  wf_match sp → syscall_data (lg_base log) → lb_Operation (lg_base log) = "Syscall" →
  okP (touched log) (syscall_turn sp log).
Proof.
  intros Hwf Hd Hop. unfold syscall_turn.
  destruct (syscall_name_ok log Hd Hop) as [n ->]. cbn. case_bool; [|by apply okP_ret, touched_refl].
  destruct (syscall_from_source_ok sp (first_word (lb_Source (lg_base log))) Hwf) as [b ->].
  cbn. apply okP_ret. case_bool; touch.
Qed.

(** A turn does not panic, and leaves the event alone. *)
Lemma turn_okP fd dp last sp st :
  wf_match sp → syscall_data (lg_base (lp_log st)) →
  okP (λ st', touched (lp_log st) (lp_log st')) (turn MatchString fd dp last sp st).
Proof.
  intros Hwf Hd. unfold turn. pose proof (see_allow_log sp st) as Hs.
  assert (touched (lp_log st) (lp_log (see_allow sp st))) by (rewrite Hs; touch).
  rewrite Hs. case_bool; [by apply okP_ret|]. case_bool; [by apply okP_ret|].
  case_bool.
  { apply okP_ret. destruct (lp_skip _); [done|apply file_turn_touched]. }
  case_bool.
  { apply okP_ret. destruct (lp_skip _); [done|apply network_turn_touched]. }
  case_bool; [apply okP_ret, capability_turn_touched|].
  destruct (String.eqb_spec (lb_Operation (lg_base (lp_log st))) "Syscall");
    [|by apply okP_ret].
  eapply okP_bind; [by apply syscall_turn_okP|]. intros l Hl. by apply okP_ret.
Qed.

Lemma match_rules_okP fd dp l st :
  Forall wf_match l → syscall_data (lg_base (lp_log st)) →
  okP (λ st', touched (lp_log st) (lp_log st')) (match_rules MatchString fd dp l st).
Proof.
  intros Hl. revert st. induction Hl as [|sp l Hsp Hl IH]; intros st Hd; cbn [match_rules].
  - apply okP_ret, touched_refl.
  - eapply okP_bind; [by apply turn_okP|]. cbn. intros st1 H1.
    eapply okP_impl; [apply IH; by rewrite (proj1 H1)|]. cbn. intros st2 H2.
    by eapply touched_trans.
Qed.

Lemma container_result_policies st fd :
  fd_SecurityPolicies (container_result (Rx := Rx) st fd).1 = fd_SecurityPolicies fd.
Proof. unfold container_result. repeat case_match; done. Qed.

Lemma UpdateMatchedPolicy_okP log fd :
  wf_feeder fd → syscall_data (lg_base log) →
  okP (λ r, wf_feeder r.1) (UpdateMatchedPolicy MatchString log fd).
Proof.
  intros Hfd Hd. unfold UpdateMatchedPolicy. case_bool; [by apply okP_ret|].
  apply (okP_bind (λ _, True)).
  - case_bool; [|by apply okP_ret].
    eapply okP_impl; [apply match_rules_okP; [|done]|done].
    destruct (fd_SecurityPolicies fd !! _) as [l|] eqn:E; cbn; [|constructor].
    by apply (Hfd _ _ E).
  - intros st _. apply okP_ret. case_bool; [|done].
    unfold wf_feeder. by rewrite container_result_policies.
Qed.

(** ** Sequences of operations *)

(** What the daemon and the monitor do to the feeder. *)
Inductive FeederOp :=
| OpPolicies (action : string) (ep : EndPoint)
| OpHost (action : string) (l : list HostSecurityPolicy)
| OpPosture (action namespace : string) (dp : DefaultPosture)
| OpEvent (log : Log).

Definition op_valid (op : FeederOp) : Prop :=
  match op with OpEvent log => syscall_data (lg_base log) | _ => True end.

Definition run_op (op : FeederOp) (fd : FD) : Res FD :=
  match op with
  | OpPolicies action ep => UpdateSecurityPolicies Compile action ep fd
  | OpHost action l => UpdateHostSecurityPolicies Compile action l fd
  | OpPosture action ns dp => Ok (UpdateDefaultPosture action ns dp fd)
  | OpEvent log => r ← UpdateMatchedPolicy MatchString log fd; Ok r.1
  end.

Fixpoint run_ops (ops : list FeederOp) (fd : FD) : Res FD :=
  match ops with [] => Ok fd | op :: ops' => fd ← run_op op fd; run_ops ops' fd end.

(** C12: Whatever the order of policy updates, host policy updates, posture changes and
    events, the matcher never panics, provided that the data of system-call events name
    a call: a feeder with well-formed match policies stays so, and the source of a rule
    is never indexed when it is empty. *)
Theorem feeder_never_panics ops fd :
  wf_feeder fd → Forall op_valid ops → ∃ fd', run_ops ops fd = Ok fd' ∧ wf_feeder fd'.
Proof.
  intros Hfd Hops. revert fd Hfd.
  induction Hops as [|op ops Hop _ IH]; intros fd Hfd; cbn [run_ops]; [by eexists|].
  assert (okP wf_feeder (run_op op fd)) as (fd1 & -> & H1).
  { destruct op; cbn [run_op].
    - by apply UpdateSecurityPolicies_okP.
    - by apply UpdateHostSecurityPolicies_okP.
    - by apply okP_ret.
    - eapply okP_bind; [by apply UpdateMatchedPolicy_okP|]. intros r Hr. by apply okP_ret. }
  cbn. by apply IH.
Qed.

(** ** The first rule that decides an event *)

Abbreviation op_of log := (lb_Operation (lg_base log)).

(** The rules that the loop compares with the event. *)
Definition considered (dp : DefaultPosture) (sp : MP) (log : Log) : bool :=
  negb (allows sp && String.eqb (dp_FileAction dp) "allow") &&
  String.eqb (mp_Operation sp) (op_of log).

(** A process or file rule that ends the search. *)
Definition file_decides (sp : MP) (log : Log) : bool :=
  file_source sp log && (special_match MatchString sp log || matchResources sp log) &&
  ((matched_flags sp log && is_action sp "Audit" && passed log) ||
   file_blocks sp (matched_flags sp log) log).

(** A network rule that ends the search. *)
Definition network_decides (sp : MP) (log : Log) : bool :=
  command_source sp log &&
  (String.eqb (fetchProtocol (lb_Resource (lg_base log))) (mp_Resource sp) ||
   String.eqb (mp_Resource sp) "all") &&
  ((allows sp && passed log) || (is_action sp "Audit" && passed log) ||
   (is_action sp "Block" && negb (passed log)) ||
   (is_action sp "Audit (Block)" && passed log)).

Definition decides (dp : DefaultPosture) (sp : MP) (log : Log) : bool :=
  considered dp sp log &&
  if String.eqb (op_of log) "Network" then network_decides sp log else file_decides sp log.

(** Only the event matters, not what the loop has written so far. *)
Lemma decides_same dp sp l l' : same_event l l' → decides dp sp l' = decides dp sp l.
Proof.
  destruct l as [b ????????], l' as [b' ????????]. unfold same_event. cbn. by intros ->.
Qed.

(** What a deciding rule leaves in the log. *)
Definition names_rule (sp : MP) (log log' : Log) : Prop :=
  same_event log log' ∧ lg_Type log' = "MatchedPolicy" ∧
  lg_PolicyName log' = mp_PolicyName sp ∧ lg_Severity log' = mp_Severity sp ∧
  lg_Action log' = if allows sp then "Allow" else mp_Action sp.

Lemma allows_other sp a :
  is_action (Rx := Rx) sp a = true → a ≠ "Allow" → a ≠ "Audit (Allow)" → allows sp = false.
Proof.
  unfold allows, is_action. intros ->%String.eqb_eq ??.
  by rewrite !(proj2 (String.eqb_neq _ _)).
Qed.

Lemma file_blocks_allows sp flags log :
  file_blocks (Rx := Rx) sp flags log = true → allows sp = false.
Proof.
  unfold file_blocks. intros [[H|H]%orb_true_iff|H]%orb_true_iff;
    repeat (apply andb_true_iff in H as [H ?]);
    first [ by eapply (allows_other _ "Block") | by eapply (allows_other _ "Audit (Block)") ].
Qed.

Lemma matched_names sp atags enforcer action log :
  action = (if allows (Rx := Rx) sp then "Allow" else mp_Action sp) →
  names_rule sp log (matched sp atags enforcer action log).
Proof. by intros ->. Qed.

Lemma file_turn_decides fd posture sp log :
  let t := file_turn MatchString fd posture sp log in
  t.2 = file_decides sp log ∧ (t.2 = true → names_rule sp log t.1).
Proof.
  unfold file_turn, file_decides. destruct (file_source sp log); [|done].
  destruct (special_match MatchString sp log || matchResources sp log); [|done]. cbn [andb].
  destruct (matched_flags sp log && allows sp && passed log) eqn:Ha.
  - apply andb_true_iff in Ha as [[_ Ha]%andb_true_iff _].
    assert (is_action sp "Audit" = false) as ->.
    { destruct (is_action sp "Audit") eqn:E; [|done]. by rewrite (allows_other _ _ E) in Ha. }
    destruct (file_blocks sp _ log) eqn:E; [by rewrite (file_blocks_allows _ _ _ E) in Ha|].
    rewrite andb_false_r. by case_bool.
  - destruct (matched_flags sp log && is_action sp "Audit" && passed log) eqn:Hu.
    + split; [done|]. intros _. apply matched_names.
      apply andb_true_iff in Hu as [[_ Hu]%andb_true_iff _]. by rewrite (allows_other _ _ Hu).
    + cbn [orb]. destruct (file_blocks sp _ log) eqn:E; [|by case_bool].
      split; [done|]. intros _. apply matched_names. by rewrite (file_blocks_allows _ _ _ E).
Qed.

Lemma command_decision_spec fd sp log :
  let d := (allows sp && passed log) || (is_action sp "Audit" && passed log) ||
           (is_action sp "Block" && negb (passed log)) ||
           (is_action sp "Audit (Block)" && passed log) in
  match command_decision (Rx := Rx) fd sp log with
  | Some log' => d = true ∧ names_rule sp log log'
  | None => d = false
  end.
Proof.
  unfold command_decision. destruct (allows sp && passed log) eqn:Ha.
  - split; [done|]. apply andb_true_iff in Ha as [Ha _]. apply matched_names. by rewrite Ha.
  - cbn [orb]. destruct (is_action sp "Audit" && passed log) eqn:Hu.
    + split; [done|]. apply matched_names.
      apply andb_true_iff in Hu as [Hu _]. by rewrite (allows_other _ _ Hu).
    + cbn [orb]. destruct (_ || _) eqn:E; [|done]. split; [done|]. apply matched_names.
      apply orb_true_iff in E as [[E _]%andb_true_iff|[E _]%andb_true_iff];
        by rewrite (allows_other _ _ E).
Qed.

Lemma network_turn_decides fd posture last sp log :
  let t := network_turn fd posture last sp log in
  t.2 = network_decides sp log ∧ (t.2 = true → names_rule sp log t.1).
Proof.
  unfold network_turn, network_decides. destruct (command_source sp log); [|done].
  cbn [andb]. pose proof (command_decision_spec fd sp log) as H. cbv zeta in H.
  destruct (_ || _) eqn:Hf in |- *; cbn [andb negb].
  - destruct (command_decision fd sp log); [by destruct H as [-> ?]|].
    rewrite H. by repeat case_bool.
  - by repeat case_bool.
Qed.

(** Operations whose loop stops at the first deciding rule. *)
Definition stopping (op : string) : Prop := op ∈ ["Process"; "File"; "Network"].

(** A turn that decides, one that does not, and one after the decision. *)
Lemma turn_decides fd dp last sp st :
  stopping (op_of (lp_log st)) → lp_skip st = false →
  okP (λ st', lp_skip st' = decides dp sp (lp_log st) ∧ same_event (lp_log st) (lp_log st') ∧
              (lp_skip st' = true → names_rule sp (lp_log st) (lp_log st')))
    (turn MatchString fd dp last sp st).
Proof.
  intros Hop Hskip. unfold turn, decides, considered. pose proof (see_allow_log sp st) as Hs.
  assert (lp_skip (see_allow sp st) = false) as Hk by (unfold see_allow; by case_bool).
  rewrite Hs, Hk. destruct (allows sp && String.eqb (dp_FileAction dp) "allow");
    [apply okP_ret; by rewrite Hk, Hs|].
  destruct (String.eqb (mp_Operation sp) _); cbn [negb andb];
    [|apply okP_ret; by rewrite Hk, Hs].
  unfold stopping in Hop. rewrite !elem_of_cons in Hop.
  destruct Hop as [Hop|[Hop|[Hop|Hop%not_elem_of_nil]]]; rewrite ?Hop; try done; cbn;
    apply okP_ret; cbn.
  - pose proof (file_turn_touched fd (dp_FileAction dp) sp (lp_log st)) as [? _].
    by destruct (file_turn_decides fd (dp_FileAction dp) sp (lp_log st)).
  - pose proof (file_turn_touched fd (dp_FileAction dp) sp (lp_log st)) as [? _].
    by destruct (file_turn_decides fd (dp_FileAction dp) sp (lp_log st)).
  - pose proof (network_turn_touched fd (dp_NetworkAction dp) last sp (lp_log st)) as [? _].
    by destruct (network_turn_decides fd (dp_NetworkAction dp) last sp (lp_log st)).
Qed.

Lemma turn_skips fd dp last sp st :
  stopping (op_of (lp_log st)) → lp_skip st = true →
  okP (λ st', lp_skip st' = true ∧ lp_log st' = lp_log st) (turn MatchString fd dp last sp st).
Proof.
  intros Hop Hskip. unfold turn. pose proof (see_allow_log sp st) as Hs.
  assert (lp_skip (see_allow sp st) = true) as Hk by (unfold see_allow; by case_bool).
  rewrite Hs, Hk. case_bool; [by apply okP_ret|]. case_bool; [by apply okP_ret|].
  unfold stopping in Hop. rewrite !elem_of_cons in Hop.
  destruct Hop as [Hop|[Hop|[Hop|Hop%not_elem_of_nil]]]; rewrite ?Hop; try done; cbn;
    by apply okP_ret.
Qed.

Lemma match_rules_skips fd dp l st :
  stopping (op_of (lp_log st)) → lp_skip st = true →
  okP (λ st', lp_log st' = lp_log st) (match_rules MatchString fd dp l st).
Proof.
  revert st. induction l as [|sp l IH]; intros st Hop Hk; cbn [match_rules];
    [by apply okP_ret|].
  eapply okP_bind; [by apply turn_skips|]. cbn. intros st1 [H1 H2].
  eapply okP_impl; [apply IH; [by rewrite H2|done]|]. cbn. congruence.
Qed.

(** The loop reports the first rule that decides, whatever comes before and after. *)
Lemma match_rules_first fd dp pre sp post st :
  stopping (op_of (lp_log st)) → lp_skip st = false →
  Forall (λ r, decides dp r (lp_log st) = false) pre → decides dp sp (lp_log st) = true →
  okP (λ st', names_rule sp (lp_log st) (lp_log st'))
    (match_rules MatchString fd dp (pre ++ sp :: post) st).
Proof.
  intros Hop Hk Hpre Hsp. revert st Hop Hk Hpre Hsp.
  induction pre as [|r pre IH]; intros st Hop Hk Hpre Hsp; cbn [app match_rules].
  - eapply okP_bind; [by apply turn_decides|]. cbn. intros st1 (H1 & H2 & H3).
    rewrite Hsp in H1. eapply okP_impl; [apply match_rules_skips; [by rewrite H2|done]|].
    cbn. intros st2 ->. by apply H3.
  - apply list.Forall_cons in Hpre as [Hr Hpre].
    eapply okP_bind; [by apply turn_decides|]. cbn. intros st1 (H1 & H2 & _).
    rewrite Hr in H1. eapply okP_impl; [apply IH|].
    + by rewrite H2.
    + done.
    + eapply list.Forall_impl; [exact Hpre|]. intros r' Hr'. by rewrite (decides_same _ _ _ _ H2).
    + by rewrite (decides_same _ _ _ _ H2).
    + cbn. intros st2 (S1 & ?). split; [by eapply same_event_trans|done].
Qed.

(** ** The decision for an event *)

Definition rules_for (fd : FD) (log : Log) : list MP :=
  default [] (fd_SecurityPolicies fd !! policy_key fd (lg_base log)).

Definition start_loop (log : Log) : Loop :=
  {| lp_log := log; lp_skip := false; lp_file := false; lp_network := false;
     lp_capabilities := false |}.

(** Past the shortcut for system events, matching is the loop and then the decision. *)
Lemma UpdateMatchedPolicy_loop log fd st :
  lg_Type log = "" → result_tested log = true →
  match_rules MatchString fd (posture_of fd (lb_NamespaceName (lg_base log)))
    (rules_for fd log) (start_loop log) = Ok st →
  UpdateMatchedPolicy MatchString log fd =
    Ok (if nonempty (lb_ContainerID (lg_base log)) then container_result st fd
        else (fd, host_result st fd)).
Proof.
  intros Ht Hr Hst. unfold UpdateMatchedPolicy. rewrite Ht, Hr.
  change (if true && _ then _ else ?x) with x. cbv zeta.
  unfold rules_for, start_loop in Hst. by rewrite Hst.
Qed.

(** The outcome when a rule that does not allow decides first. *)
Lemma first_rule_log fd log pre sp post :
  stopping (op_of log) → result_tested log = true → lg_Type log = "" →
  rules_for fd log = pre ++ sp :: post →
  let dp := posture_of fd (lb_NamespaceName (lg_base log)) in
  Forall (λ r, decides dp r log = false) pre → decides dp sp log = true → allows sp = false →
  ∃ r, names_rule sp log r ∧
       UpdateMatchedPolicy MatchString log fd =
         Ok (fd, if nonempty (lb_ContainerID (lg_base log)) then r
                 else with_type "MatchedHostPolicy" r).
Proof.
  intros Hop Hr Ht Hl dp Hpre Hsp Hact.
  destruct (match_rules_first fd dp pre sp post (start_loop log)) as (st & Hst & H); [done..|].
  cbn in H. rewrite <- Hl in Hst. rewrite (UpdateMatchedPolicy_loop log fd st) by done.
  exists (lp_log st). split; [done|]. destruct H as (S & T & N & V & A). rewrite Hact in A.
  assert (String.eqb (mp_Action sp) "Allow" = false) as Hna
    by (unfold allows, is_action in Hact; by apply orb_false_iff in Hact as [? _]).
  unfold container_result, host_result. rewrite T, A, Hna. cbn. by case_bool.
Qed.

(** C7: For a process, file or network event, the first rule that decides it is the one
    the alert names, whatever rules come before and after it in the endpoint's list: its
    policy, severity and action are reported, with the type of a container or of a host
    alert.  (Rules that only allow are left out: their events are not reported.) *)
Theorem first_rule_reported fd log pre sp post :
  stopping (op_of log) → result_tested log = true → lg_Type log = "" →
  rules_for fd log = pre ++ sp :: post →
  let dp := posture_of fd (lb_NamespaceName (lg_base log)) in
  Forall (λ r, decides dp r log = false) pre → decides dp sp log = true → allows sp = false →
  ∃ r, UpdateMatchedPolicy MatchString log fd = Ok (fd, r) ∧
       lg_base r = lg_base log ∧ lg_PolicyName r = mp_PolicyName sp ∧
       lg_Severity r = mp_Severity sp ∧ lg_Action r = mp_Action sp ∧
       lg_Type r = if nonempty (lb_ContainerID (lg_base log)) then "MatchedPolicy"
                   else "MatchedHostPolicy".
Proof.
  intros Hop Hr Ht Hl dp Hpre Hsp Hact.
  destruct (first_rule_log fd log pre sp post) as (r & (S & T & N & V & A) & ->); [done..|].
  rewrite Hact in A. case_bool; eexists; (split; [reflexivity|done]).
Qed.

(** The operations of container events. *)
Definition container_op (op : string) : Prop :=
  op ∈ ["Process"; "File"; "Network"; "Capabilities"; "Syscall"].

Lemma setLogFields_container log b posture vis :
  let r := setLogFields log b posture vis true in
  r.2 = true ∧ lg_base r.1 = lg_base log ∧
  (lg_Type r.1 = "MatchedPolicy" ∨ lg_Type r.1 = "ContainerLog").
Proof. unfold setLogFields. repeat case_bool; cbn; auto. Qed.

(** The decision for a log that was not allowed keeps it. *)
Lemma container_result_kept st fd :
  container_op (op_of (lp_log st)) → passed (lp_log st) = false →
  lg_Type (lp_log st) = "" ∨ lg_Type (lp_log st) = "MatchedPolicy" →
  let r := (container_result (Rx := Rx) st fd).2 in
  lg_base r = lg_base (lp_log st) ∧ (lg_Type r = "MatchedPolicy" ∨ lg_Type r = "ContainerLog").
Proof.
  intros Hop Hp [Ht|Ht]; unfold container_result; rewrite Ht; cbv zeta.
  - change (String.eqb "" "") with true. cbn [snd].
    assert (∀ b p v, let r := or_zero (setLogFields (lp_log st) b p v true) in
      lg_base r = lg_base (lp_log st) ∧
      (lg_Type r = "MatchedPolicy" ∨ lg_Type r = "ContainerLog")) as K.
    { intros b p v. unfold or_zero.
      by destruct (setLogFields_container (lp_log st) b p v) as (-> & ?). }
    unfold container_op in Hop. rewrite !elem_of_cons in Hop.
    destruct Hop as [->|[->|[->|[->|[->|[]%not_elem_of_nil]]]]]; apply K.
  - rewrite Hp, andb_false_r. cbn. rewrite Ht. auto.
Qed.

(** No denied event of a container is lost in the matcher: whatever the rules, the
    postures and the visibility, an event that was not "Passed" comes out as a matched
    policy or a container log, with the fields of the event intact. *)
Theorem denied_event_kept fd log :
  wf_feeder fd → syscall_data (lg_base log) → lg_Type log = "" →
  lb_ContainerID (lg_base log) ≠ "" → container_op (op_of log) → passed log = false →
  ∃ fd' r, UpdateMatchedPolicy MatchString log fd = Ok (fd', r) ∧
           lg_base r = lg_base log ∧
           (lg_Type r = "MatchedPolicy" ∨ lg_Type r = "ContainerLog").
Proof.
  intros Hfd Hd Ht Hc Hop Hp. unfold UpdateMatchedPolicy. rewrite Ht, andb_false_r.
  assert (nonempty (lb_ContainerID (lg_base log)) = true) as ->.
  { unfold nonempty. apply bool_decide_eq_true. destruct (lb_ContainerID _); [done|cbn; lia]. }
  match goal with |- context [?m ≫= _] => assert (okP (λ st, touched log (lp_log st)) m) as K end.
  { case_bool; [|by apply okP_ret, touched_refl].
    apply (match_rules_okP fd _ _ (start_loop log)); [|done].
    destruct (fd_SecurityPolicies fd !! _) as [l|] eqn:E; cbn; [|constructor].
    by apply (Hfd _ _ E). }
  destruct K as (st & -> & S & T). cbn.
  destruct (container_result st fd) as [fd' r] eqn:E. exists fd', r. split; [done|].
  pose proof (container_result_kept st fd) as K. rewrite E, S in K. apply K.
  - done.
  - unfold passed. by rewrite S.
  - destruct T as [->|T]; auto.
Qed.

(** An event of the monitor leaves the matcher with one of five types. *)
Lemma or_zero_type log b p v c :
  lg_Type (or_zero (setLogFields log b p v c)) ∈
    [""; "MatchedPolicy"; "MatchedHostPolicy"; "ContainerLog"; "HostLog"].
Proof.
  unfold or_zero, setLogFields. destruct v, c; repeat case_bool; cbn; rewrite !elem_of_cons; auto 10.
Qed.

Lemma zero_type :
  lg_Type zero_Log ∈ [""; "MatchedPolicy"; "MatchedHostPolicy"; "ContainerLog"; "HostLog"].
Proof. left. Qed.

Lemma result_type st fd :
  lg_Type (container_result (Rx := Rx) st fd).2 ∈
    [""; "MatchedPolicy"; "MatchedHostPolicy"; "ContainerLog"; "HostLog"] ∧
  lg_Type (host_result (Rx := Rx) st fd) ∈
    [""; "MatchedPolicy"; "MatchedHostPolicy"; "ContainerLog"; "HostLog"].
Proof.
  pose proof zero_type. split.
  - unfold container_result. case_bool; [|case_bool; [|done]]; cbn [snd].
    + repeat (case_bool; [apply or_zero_type|]). done.
    + apply String.eqb_eq in Heqb0. case_bool; [done|]. rewrite Heqb0, !elem_of_cons. auto 10.
  - unfold host_result. case_bool; [|case_bool; [|done]].
    + repeat (case_bool; [apply or_zero_type|]). done.
    + case_bool; [done|]. cbn. rewrite !elem_of_cons. auto 10.
Qed.

Lemma UpdateMatchedPolicy_type log fd :
  wf_feeder fd → syscall_data (lg_base log) → lg_Type log = "" →
  okP (λ r, wf_feeder r.1 ∧ lg_Type r.2 ∈
              [""; "MatchedPolicy"; "MatchedHostPolicy"; "ContainerLog"; "HostLog"])
    (UpdateMatchedPolicy MatchString log fd).
Proof.
  intros Hfd Hd Ht. destruct (UpdateMatchedPolicy_okP log fd Hfd Hd) as (r & Hr & Hw).
  exists r. split_and!; [done..|]. unfold UpdateMatchedPolicy in Hr.
  rewrite Ht, andb_false_r in Hr. go_res Hr. injection Hr as <-.
  case_bool; apply result_type.
Qed.

(** ** Whitelists *)

(** The events an Allow rule on processes or files lets through. *)
Definition covers (sp : MP) (log : Log) : bool :=
  file_source sp log && (special_match MatchString sp log || matchResources sp log) &&
  matched_flags sp log.

Lemma covers_same sp l l' : same_event l l' → covers sp l' = covers sp l.
Proof.
  destruct l as [b ????????], l' as [b' ????????]. unfold same_event. cbn. by intros ->.
Qed.

Lemma covers_touched sp l l' : touched l l' → covers sp l' = covers sp l.
Proof. intros [H _]. by apply covers_same. Qed.

(** A rule of an enforced whitelist: it allows or it blocks. *)
Definition enforced (sp : MP) : Prop := mp_Action sp = "Allow" ∨ mp_Action sp = "Block".

Definition enforced_hit (sp : MP) (log : Log) : bool := is_action sp "Allow" && covers sp log.

(** A rule of an enforced whitelist, for an event that passed. *)
Lemma file_turn_enforced fd posture sp log :
  enforced sp → passed log = true → lg_Action log ≠ "Audit" →
  posture ≠ "audit" ∨ lg_Type log ≠ "" →
  file_turn MatchString fd posture sp log =
    (if enforced_hit sp log then matched sp true (enforcer_of fd log) "Allow" log else log,
     false).
Proof.
  intros Ha Hp Haud Hpost. rewrite <- String.eqb_neq in Haud.
  assert (is_action sp "Audit" = false ∧ is_action sp "Audit (Block)" = false ∧
          is_action sp "Audit (Allow)" = false) as (H1 & H2 & H3)
    by (unfold is_action; by destruct Ha as [-> | ->]).
  assert (String.eqb posture "audit" && String.eqb (lg_Type log) "" = false) as Hq.
  { apply andb_false_iff. rewrite !String.eqb_neq. by destruct Hpost; [left|right]. }
  assert (posture_tail true true posture sp log = log) as Htail.
  { unfold posture_tail. rewrite H3, andb_false_r. cbn. destruct (String.eqb posture "audit");
      [|done]. cbn in Hq |- *. by rewrite Hq, !andb_false_r. }
  assert (violated true true posture sp log = log) as Hv
    by (unfold violated; by rewrite H3, Hp, andb_false_r).
  unfold file_turn, enforced_hit, covers, allows, file_blocks.
  rewrite Htail, Hv, Hp, H1, H2, H3, Haud, orb_false_r. cbn [negb].
  rewrite !andb_false_r, ?andb_true_r. cbn. rewrite (andb_comm (is_action sp "Allow")).
  by destruct (file_source sp log), (special_match MatchString sp log || matchResources sp log),
    (matched_flags sp log), (is_action sp "Allow").
Qed.

Definition on_files (log : Log) : Prop := op_of log = "Process" ∨ op_of log = "File".

(** A turn on a process or file event before any decision. *)
Lemma turn_files fd dp last sp st :
  on_files (lp_log st) → lp_skip st = false → dp_FileAction dp ≠ "allow" →
  turn MatchString fd dp last sp st =
    Ok (if String.eqb (mp_Operation sp) (op_of (lp_log st))
        then with_turn (file_turn MatchString fd (dp_FileAction dp) sp (lp_log st))
                       (see_allow sp st)
        else see_allow sp st).
Proof.
  intros Hop Hk Hdp. rewrite <- String.eqb_neq in Hdp. unfold turn.
  assert (lp_skip (see_allow sp st) = false) as -> by (unfold see_allow; by case_bool).
  rewrite see_allow_log, Hdp, andb_false_r. destruct (String.eqb (mp_Operation sp) _); [|done].
  by destruct Hop as [-> | ->].
Qed.

Definition whitelisted (l : list MP) (log : Log) : bool :=
  existsb (λ sp, String.eqb (mp_Operation sp) (op_of log) && enforced_hit sp log) l.

(** The log after the rules seen so far: marked as allowed as soon as one covers it. *)
Definition marked (log log' : Log) (hit : bool) : Prop :=
  if hit then same_event log log' ∧ lg_Type log' = "MatchedPolicy" ∧ lg_Action log' = "Allow"
  else log' = log.

Lemma match_rules_enforced fd dp l log st hit :
  on_files log → passed log = true → lg_Action log ≠ "Audit" → dp_FileAction dp = "block" →
  Forall (λ sp, mp_Operation sp = op_of log → enforced sp) l →
  lp_skip st = false → marked log (lp_log st) hit →
  okP (λ st', marked log (lp_log st') (hit || whitelisted l log))
    (match_rules MatchString fd dp l st).
Proof.
  intros Hop Hp Ha Hdp Hl. revert st hit.
  induction Hl as [|sp l Hsp _ IH]; intros st hit Hk Hm; cbn [match_rules whitelisted existsb].
  { apply okP_ret. by rewrite orb_false_r. }
  assert (same_event log (lp_log st)) as S by (destruct hit; [apply Hm|by rewrite Hm]).
  rewrite turn_files by (unfold on_files; rewrite ?S, ?Hdp; done). cbn [mbind Res_bind].
  rewrite orb_assoc. apply IH.
  { unfold see_allow. rewrite S. destruct (String.eqb_spec (mp_Operation sp) (op_of log)) as [E|].
    - unfold with_turn. cbn. rewrite Hdp, file_turn_enforced; [done|by apply Hsp|..].
      + unfold passed. by rewrite S.
      + destruct hit; [by destruct Hm as (_ & _ & ->)|by rewrite Hm].
      + by left.
    - by case_bool. }
  rewrite S. destruct (String.eqb_spec (mp_Operation sp) (op_of log)) as [E|]; cbn [andb].
  - cbn [with_turn lp_log]. rewrite Hdp, file_turn_enforced; [cbn [fst]|by apply Hsp|..].
    + unfold enforced_hit. rewrite (covers_same _ _ _ S).
      destruct (is_action sp "Allow" && covers sp log); [|by rewrite orb_false_r].
      by rewrite orb_true_r.
    + unfold passed. by rewrite S.
    + destruct hit; [by destruct Hm as (_ & _ & ->)|by rewrite Hm].
    + by left.
  - rewrite orb_false_r. by rewrite see_allow_log.
Qed.

(** C33: Under a "block" posture an enforced whitelist is exact, whatever the order of its
    rules: a process or file event of a container that passed is dropped if an Allow rule
    covers it, and is a plain container log otherwise. *)
Theorem whitelist_exact fd log :
  on_files log → passed log = true → lg_Type log = "" → lg_Action log = "" →
  lb_ContainerID (lg_base log) ≠ "" →
  dp_FileAction (posture_of fd (lb_NamespaceName (lg_base log))) = "block" →
  Forall (λ sp, mp_Operation sp = op_of log → enforced sp) (rules_for fd log) →
  UpdateMatchedPolicy MatchString log fd =
    Ok (fd, if whitelisted (rules_for fd log) log then zero_Log
            else with_type "ContainerLog" log).
Proof.
  intros Hop Hp Ht Ha Hc Hdp Hl.
  destruct (match_rules_enforced fd _ _ log (start_loop log) false Hop Hp
              ltac:(by rewrite Ha) Hdp Hl) as (st & Hst & Hm); [done..|].
  assert (nonempty (lb_ContainerID (lg_base log)) = true) as Hn.
  { unfold nonempty. apply bool_decide_eq_true. destruct (lb_ContainerID _); [done|cbn; lia]. }
  assert (result_tested log = true) as Hr by (unfold result_tested, passed in *; by rewrite Hp).
  rewrite (UpdateMatchedPolicy_loop log fd st) by done. rewrite Hn. cbn [orb] in Hm.
  unfold container_result. destruct (whitelisted _ log).
  - destruct Hm as (S & -> & ->). cbn. unfold passed. rewrite S.
    unfold passed in Hp. by rewrite Hp.
  - cbn in Hm. rewrite Hm, Ht. cbn. unfold posture_of in Hdp |- *.
    destruct (fd_DefaultPostures fd !! _) as [dp|] eqn:E; [|done]. cbn in Hdp |- *.
    rewrite E. cbn. rewrite Hdp.
    unfold setLogFields. rewrite Hp, !andb_false_r.
    destruct Hop as [-> | ->]; cbn; by rewrite ?andb_false_r.
Qed.

(** ** Directory rules *)

Lemma getDirectoryPart_abs cs f :
  Forall (λ c, plain c = true) cs → char_in slash f = false →
  getDirectoryPart (abs_path (cs ++ [f])) = if decide (cs = []) then "//" else abs_dir cs.
Proof.
  intros Hcs Hf. unfold getDirectoryPart. rewrite Dir_abs by done.
  assert (HasPrefix ("/" +:+ join "/" cs) "/" = true) as ->
    by (apply HasPrefix_app; by eexists).
  destruct (decide (cs = [])) as [->|Hne]; [done|].
  rewrite abs_dir_snoc. unfold abs_path. by rewrite join_cons.
Qed.

(** The directories a rule names, by the components of its path. *)
Definition names_directory (rec : bool) (ds cs : list string) : bool :=
  if rec then bool_decide (ds `prefix_of` cs) else bool_decide (ds = cs ∧ ds ≠ []).

Lemma prefix_same_length (ds cs : list string) :
  ds `prefix_of` cs → List.length ds = List.length cs → ds = cs.
Proof.
  intros [k ->] H. rewrite length_app in H. destruct k; [by rewrite app_nil_r|cbn in H; lia].
Qed.

Lemma in_directory_spec sp cs f ds :
  Forall (λ c, plain c = true) cs → Forall (λ c, plain c = true) ds →
  char_in slash f = false → mp_Resource (Rx := Rx) sp = abs_dir ds →
  in_directory sp (getDirectoryPart (abs_path (cs ++ [f]))) =
    names_directory (mp_Recursive sp) ds cs.
Proof.
  intros Hcs Hds Hf Hr. rewrite getDirectoryPart_abs by done.
  unfold in_directory, names_directory. rewrite Hr, abs_dir_depth by done.
  destruct (decide (cs = [])) as [->|Hne].
  - destruct ds as [|d ds].
    + by destruct (mp_Recursive sp).
    + assert (HasPrefix "//" (abs_dir (d :: ds)) = false) as ->.
      { apply list.Forall_cons in Hds as [Hd _]. unfold abs_dir. destruct d as [|c d]; [done|].
        destruct (Ascii.eqb_spec c slash) as [->|Hc]; [done|].
        apply not_true_is_false. intros [r Hr']%HasPrefix_app. unfold slash in Hc. destruct ds; cbn in Hr'; congruence. }
      destruct (mp_Recursive sp); symmetry; apply bool_decide_eq_false.
      * by intros [k Hk].
      * by intros [? _].
  - rewrite abs_dir_prefix, abs_dir_depth by done. destruct (mp_Recursive sp); cbn.
    + destruct (bool_decide_reflect (ds `prefix_of` cs)) as [Hp|]; [|done].
      apply bool_decide_eq_true. apply prefix_length in Hp. lia.
    + rewrite orb_false_r. apply eq_true_iff_eq.
      rewrite andb_true_iff, !bool_decide_eq_true. split.
      * intros [Hp Hl]. apply prefix_same_length in Hp; [by subst|lia].
      * by intros [-> _].
Qed.


(** ** Protocols *)

Lemma Contains_trans s a b : Contains s a = true → Contains a b = true → Contains s b = true.
Proof.
  rewrite !Contains_app. intros (x & y & ->) (u & v & ->). exists (x +:+ u), (v +:+ y).
  by rewrite !string_app_assoc.
Qed.

(** A rule on the protocol "icmpv6" never matches a socket of ICMPv6: the resource of
    such a socket is taken for "icmp", whose text is a prefix of the other, or for TCP or
    UDP. *)
Theorem icmpv6_never_matched fd posture last sp log :
  Contains (lb_Resource (lg_base log)) "protocol=ICMPv6" = true →
  mp_Resource sp = "icmpv6" →
  (network_turn (Rx := Rx) fd posture last sp log).2 = false ∧
  fetchProtocol (lb_Resource (lg_base log)) ∈ ["tcp"; "udp"; "icmp"].
Proof.
  intros H6 Hr. assert (Contains (lb_Resource (lg_base log)) "protocol=ICMP" = true) as H4
    by by eapply Contains_trans.
  assert (fetchProtocol (lb_Resource (lg_base log)) ∈ ["tcp"; "udp"; "icmp"]) as Hp.
  { unfold fetchProtocol. rewrite H4, !elem_of_cons. do 2 (case_bool; [by auto|]). by auto. }
  split; [|done]. pose proof (network_turn_decides fd posture last sp log) as [-> _].
  unfold network_decides. rewrite Hr. rewrite !elem_of_cons in Hp.
  destruct Hp as [->|[->|[->|[]%not_elem_of_nil]]]; cbn; by rewrite andb_false_r.
Qed.

(** ** Whitelists under an "audit" posture *)

Definition allow_rule (sp : MP) (log : Log) : Prop :=
  mp_Action sp = "Allow" ∧ mp_Operation sp = op_of log.

(** An uncovered event is marked as an audit of the default posture. *)
Lemma file_turn_audits fd sp log :
  mp_Action sp = "Allow" → passed log = true → lg_Type log = "" → covers sp log = false →
  file_turn MatchString fd "audit" sp log = (postured true "Audit" log, false).
Proof.
  intros Ha Hp Ht Hc.
  assert (posture_tail true true "audit" sp log = postured true "Audit" log) as Htail.
  { unfold posture_tail, allows, is_action. rewrite Ha. cbn. by rewrite Ht, Hp. }
  assert (violated true true "audit" sp log = postured true "Audit" log) as Hv.
  { unfold violated. rewrite Htail, Hp, andb_false_r. unfold is_action. by rewrite Ha. }
  unfold file_turn, file_blocks, allows, is_action. unfold covers in Hc. rewrite Ha, Hp, Htail, Hv.
  destruct (file_source sp log); [|done].
  destruct (special_match MatchString sp log || matchResources sp log); [|done].
  cbn in Hc. rewrite Hc. cbn. by rewrite !andb_false_r.
Qed.

(** A covered event that was already marked as an audit is left alone. *)
Lemma file_turn_keeps_audit fd posture sp log :
  mp_Action sp = "Allow" → passed log = true → lg_Action log = "Audit" →
  covers sp log = true → file_turn MatchString fd posture sp log = (log, false).
Proof.
  intros Ha Hp Ht [[Hs Hr]%andb_true_iff Hf]%andb_true_iff.
  unfold file_turn, allows, is_action. by rewrite Hs, Hr, Hf, Hp, Ha, Ht.
Qed.

(** Under an "audit" posture the order of Allow rules matters: an event that the second
    of two rules covers, and the first does not, is reported as an audit of the default
    posture, while with the two rules exchanged it is dropped as allowed. *)
Theorem audit_posture_order fd log a b :
  on_files log → passed log = true → lg_Type log = "" → lg_Action log = "" →
  lb_ContainerID (lg_base log) ≠ "" →
  dp_FileAction (posture_of fd (lb_NamespaceName (lg_base log))) = "audit" →
  allow_rule a log → allow_rule b log → covers a log = false → covers b log = true →
  (rules_for fd log = [a; b] →
   UpdateMatchedPolicy MatchString log fd = Ok (fd, postured true "Audit" log)) ∧
  (rules_for fd log = [b; a] → UpdateMatchedPolicy MatchString log fd = Ok (fd, zero_Log)).
Proof.
  intros Hop Hp Ht Hac Hc Hdp [Aa Oa] [Ab Ob] Ca Cb.
  set (dp := posture_of fd (lb_NamespaceName (lg_base log))) in *.
  assert (nonempty (lb_ContainerID (lg_base log)) = true) as Hn.
  { unfold nonempty. apply bool_decide_eq_true. destruct (lb_ContainerID _); [done|cbn; lia]. }
  assert (result_tested log = true) as Hr by (unfold result_tested, passed in *; by rewrite Hp).
  assert (∀ r1 r2 l1 l2, mp_Operation r1 = op_of log → mp_Operation r2 = op_of log →
    file_turn MatchString fd "audit" r1 log = (l1, false) → same_event log l1 →
    file_turn MatchString fd "audit" r2 l1 = (l2, false) →
    okP (λ st, lp_log st = l2) (match_rules MatchString fd dp [r1; r2] (start_loop log))) as Hrun.
  { intros r1 r2 l1 l2 O1 O2 T1 S1 T2. cbn [match_rules].
    rewrite turn_files by (rewrite ?Hdp; done). cbn [lp_log start_loop]. rewrite O1, String.eqb_refl.
    rewrite Hdp, T1. cbn [mbind Res_bind].
    rewrite turn_files by (rewrite ?Hdp; unfold on_files; cbn; rewrite ?S1; done).
    cbn [lp_log with_turn fst]. rewrite S1, O2, String.eqb_refl, Hdp, T2. by apply okP_ret. }
  split; intros Hl.
  - destruct (Hrun a b (postured true "Audit" log) (postured true "Audit" log))
      as (st & Hst & Hs); [done|done|by apply file_turn_audits|done|..].
    { apply file_turn_keeps_audit; [done..|]. by rewrite (covers_same _ log). }
    rewrite <- Hl in Hst. rewrite (UpdateMatchedPolicy_loop log fd st Ht Hr Hst), Hn.
    unfold container_result. by rewrite Hs.
  - assert (enforced a) as Ea by by left. assert (enforced b) as Eb by by left.
    assert (file_turn MatchString fd "audit" b log =
            (matched b true (enforcer_of fd log) "Allow" log, false)) as Hb.
    { unfold file_turn, allows, is_action.
      apply andb_true_iff in Cb as [[-> ->]%andb_true_iff ->]. by rewrite Ab, Hp, Hac. }
    destruct (Hrun b a _ (matched b true (enforcer_of fd log) "Allow" log) Ob Oa Hb)
      as (st & Hst & Hs); [done|..].
    { rewrite file_turn_enforced by (first [done | by right]).
      unfold enforced_hit. rewrite (covers_same _ log) by done. by rewrite Ca, andb_false_r. }
    rewrite <- Hl in Hst. rewrite (UpdateMatchedPolicy_loop log fd st Ht Hr Hst), Hn.
    unfold container_result. rewrite Hs. cbn. unfold passed in Hp |- *. cbn. by rewrite Hp.
Qed.

(** Deleting an endpoint does not remove it: its match policies are computed again and
    stored under its name, as they are when it is added; the host's policies are deleted. *)
Theorem deleted_endpoint_stays ep l fd :
  UpdateSecurityPolicies Compile "DELETED" ep fd = UpdateSecurityPolicies Compile "ADDED" ep fd ∧
  (∀ fd', UpdateSecurityPolicies Compile "DELETED" ep fd = Ok fd' →
          is_Some (fd_SecurityPolicies fd' !! endpoint_name ep)) ∧
  ∃ fd', UpdateHostSecurityPolicies Compile "DELETED" l fd = Ok fd' ∧
         fd_SecurityPolicies fd' !! fd_NodeName fd = None.
Proof.
  split_and!.
  - unfold UpdateSecurityPolicies. cbn [String.eqb].
    change (String.eqb "DELETED" "DELETED") with true.
    change (String.eqb "ADDED" "DELETED") with false. cbn [fd_Enforcer set_SecurityPolicies].
    destruct (concatM _ _) as [ms|]; [|done]. cbn. unfold set_SecurityPolicies. cbn.
    by rewrite insert_delete_eq.
  - intros fd' H. unfold UpdateSecurityPolicies in H. go_res H. injection H as <-.
    cbn. rewrite lookup_insert_eq. by eexists.
  - eexists. split; [reflexivity|]. cbn. apply lookup_delete_eq.
Qed.
End props.

(** ** Concrete inputs *)

(** A library in which no regular expression compiles. *)
Definition no_regexp (s : string) : option unit := None.
Definition never (r : unit) (s : string) : bool := false.

Definition sample_base (op process resource data result : string) : LogBase :=
  {| lb_Timestamp := 0; lb_UpdatedTime := ""; lb_ClusterName := ""; lb_HostName := "";
     lb_NodeID := ""; lb_NamespaceName := "shop"; lb_Owner := None; lb_PodName := "cart";
     lb_Labels := ""; lb_ContainerID := "c1"; lb_ContainerName := ""; lb_ContainerImage := "";
     lb_HostPPID := 0; lb_HostPID := 0; lb_PPID := 0; lb_PID := 0; lb_UID := 0;
     lb_ExecEvent := ("", ""); lb_ParentProcessName := "/bin/sh"; lb_ProcessName := process;
     lb_KubeArmorVersion := ""; lb_Source := process; lb_Operation := op;
     lb_Resource := resource; lb_Cwd := ""; lb_TTY := ""; lb_OID := 0; lb_Data := data;
     lb_Result := result; lb_MaxAlertsPerSec := 0; lb_DroppingAlertsInterval := 0;
     lb_PolicyEnabled := KubeArmorPolicyEnabled; lb_ProcessVisibilityEnabled := false;
     lb_FileVisibilityEnabled := false; lb_NetworkVisibilityEnabled := false;
     lb_CapabilitiesVisibilityEnabled := false |}.

Definition sample_log (b : LogBase) : Log :=
  {| lg_base := b; lg_Type := ""; lg_PolicyName := ""; lg_Severity := ""; lg_Tags := "";
     lg_ATags := []; lg_Message := ""; lg_Enforcer := ""; lg_Action := "" |}.

Definition sample_rule (name rtype resource action : string) : @MatchPolicy unit :=
  base_match name "" 5 [] "" "File" rtype resource action false false true.

(** A feeder with one endpoint and a posture for its namespace. *)
Definition sample_feeder (posture : string) (l : list (@MatchPolicy unit)) : @Feeder unit :=
  {| fd_Enforcer := "BPFLSM"; fd_NodeName := "node"; fd_NodePolicyEnabled := 1;
     fd_NodeVisibility := empty_Visibility; fd_Host := "node";
     fd_GlobalPosture := zero_DefaultPosture;
     fd_SecurityPolicies := {[ "shop_cart" := l ]};
     fd_DefaultPostures := {[ "shop" := {| dp_FileAction := posture;
       dp_NetworkAction := posture; dp_CapabilitiesAction := posture |} ]} |}.

Definition keys_rule := sample_rule "protect-keys" "Directory" "/etc/keys/" "Block".
Definition logs_rule := sample_rule "allow-logs" "Directory" "/var/log/" "Allow".
Definition tmp_rule := sample_rule "allow-tmp" "Directory" "/tmp/" "Allow".

Definition read_of (path result : string) : Log :=
  sample_log (sample_base "File" "/bin/cat" path "flags=O_RDONLY" result).

Definition syscall_of (data : string) : Log :=
  sample_log (sample_base "Syscall" "/bin/cat" "/etc/keys/a" data "Passed").

(** An endpoint with a system-call policy that names a source directory. *)
Definition sample_endpoint : EndPoint :=
  {| ep_NamespaceName := "shop"; ep_EndPointName := "cart"; ep_ContainerName := "";
     ep_Labels := ∅; ep_Identities := []; ep_Containers := []; ep_AppArmorProfiles := [];
     ep_SELinuxProfiles := [];
     ep_SecurityPolicies :=
       [{| sp_Metadata := {[ "policyName" := "no-unlink" ]};
           sp_Spec := {| ss_Selector := empty_SelectorType; ss_Process := empty_ProcessType;
             ss_File := empty_FileType; ss_Network := empty_NetworkType;
             ss_Capabilities := empty_CapabilitiesType;
             ss_Syscalls := {| st_MatchSyscalls :=
                 [{| smt_Syscalls := ["unlink"];
                     smt_FromSource := [{| sfs_Path := ""; sfs_Dir := "/bin";
                                           sfs_Recursive := false |}];
                     smt_Severity := 3; smt_Tags := []; smt_Message := "" |}];
               st_MatchPaths := []; st_Severity := 0; st_Tags := []; st_Message := "" |};
             ss_Presets := []; ss_AppArmor := ""; ss_Severity := 0; ss_Tags := [];
             ss_Message := ""; ss_Action := "" |} |}];
     ep_PrivilegedContainers := ∅; ep_PolicyEnabled := 1;
     ep_DefaultPosture := zero_DefaultPosture;
     ep_ProcessVisibilityEnabled := false; ep_FileVisibilityEnabled := false;
     ep_NetworkVisibilityEnabled := false; ep_CapabilitiesVisibilityEnabled := false |}.

Lemma sample_feeder_wf posture l : Forall wf_match l → wf_feeder (sample_feeder posture l).
Proof. intros Hl. by apply map_Forall_singleton. Qed.

Lemma sample_rule_wf name resource action :
  wf_match (sample_rule name "Directory" resource action).
Proof. split; [done|]. intros _. cbn. set_solver. Qed.

Lemma feeder_never_panics_witness :
  ∃ fd', run_ops no_regexp never
           [OpPolicies "ADDED" sample_endpoint; OpEvent (syscall_of "syscall=SYS_UNLINK a=1")]
           (sample_feeder "block" []) = Ok fd' ∧ wf_feeder fd'.
Proof.
  apply (feeder_never_panics no_regexp never).
  - apply sample_feeder_wf. constructor.
  - repeat constructor.
Defined.

Lemma first_rule_reported_witness :
  ∃ r, UpdateMatchedPolicy never (read_of "/etc/keys/a" "Permission denied")
         (sample_feeder "block" [logs_rule; keys_rule; tmp_rule]) =
         Ok (sample_feeder "block" [logs_rule; keys_rule; tmp_rule], r) ∧
       lg_base r = lg_base (read_of "/etc/keys/a" "Permission denied") ∧
       lg_PolicyName r = "protect-keys" ∧ lg_Severity r = mp_Severity keys_rule ∧
       lg_Action r = "Block" ∧ lg_Type r = "MatchedPolicy".
Proof.
  apply (first_rule_reported never (sample_feeder "block" [logs_rule; keys_rule; tmp_rule])
           (read_of "/etc/keys/a" "Permission denied") [logs_rule] keys_rule [tmp_rule]).
  - cbn. set_solver.
  - reflexivity.
  - reflexivity.
  - vm_compute. reflexivity.
  - constructor; [vm_compute; reflexivity|constructor].
  - vm_compute. reflexivity.
  - reflexivity.
Defined.

Lemma denied_event_kept_witness :
  ∃ fd' r, UpdateMatchedPolicy never (read_of "/etc/keys/a" "Permission denied")
             (sample_feeder "block" [keys_rule]) = Ok (fd', r) ∧
           lg_base r = lg_base (read_of "/etc/keys/a" "Permission denied") ∧
           (lg_Type r = "MatchedPolicy" ∨ lg_Type r = "ContainerLog").
Proof.
  apply (denied_event_kept never).
  - apply sample_feeder_wf. constructor; [apply sample_rule_wf|constructor].
  - discriminate.
  - reflexivity.
  - discriminate.
  - cbn. set_solver.
  - reflexivity.
Defined.

Lemma whitelist_exact_witness :
  UpdateMatchedPolicy never (read_of "/tmp/a/b" "Passed")
    (sample_feeder "block" [logs_rule; keys_rule; tmp_rule]) =
  Ok (sample_feeder "block" [logs_rule; keys_rule; tmp_rule],
      if whitelisted never [logs_rule; keys_rule; tmp_rule] (read_of "/tmp/a/b" "Passed")
      then zero_Log else with_type "ContainerLog" (read_of "/tmp/a/b" "Passed")).
Proof.
  apply (whitelist_exact never (sample_feeder "block" [logs_rule; keys_rule; tmp_rule])
           (read_of "/tmp/a/b" "Passed")).
  - by right.
  - reflexivity.
  - reflexivity.
  - reflexivity.
  - discriminate.
  - vm_compute. reflexivity.
  - change (Forall (λ sp, mp_Operation sp = "File" → enforced sp)
              [logs_rule; keys_rule; tmp_rule]).
    constructor; [by left|]. constructor; [by right|]. constructor; [by left|constructor].
Defined.

Lemma audit_posture_order_witness :
  let log := read_of "/tmp/a/b" "Passed" in
  let fd := sample_feeder "audit" [logs_rule; tmp_rule] in
  (rules_for fd log = [logs_rule; tmp_rule] →
   UpdateMatchedPolicy never log fd = Ok (fd, postured true "Audit" log)) ∧
  (rules_for fd log = [tmp_rule; logs_rule] →
   UpdateMatchedPolicy never log fd = Ok (fd, zero_Log)).
Proof.
  apply (audit_posture_order never (sample_feeder "audit" [logs_rule; tmp_rule])
           (read_of "/tmp/a/b" "Passed") logs_rule tmp_rule); try by vm_compute.
  - by right.
Defined.


Lemma icmpv6_never_matched_witness :
  let sp := base_match "p" "" 1 [] "" "Network" "Protocol" "icmpv6" "Block" false false false in
  let log := sample_log (sample_base "Network" "/bin/ping" "type=SOCK_RAW protocol=ICMPv6" ""
                           "Permission denied") in
  (network_turn (sample_feeder "block" []) "block" true sp log).2 = false ∧
  fetchProtocol (lb_Resource (lg_base log)) ∈ ["tcp"; "udp"; "icmp"].
Proof.
  intros sp log.
  exact (icmpv6_never_matched (sample_feeder "block" []) "block" true sp log eq_refl eq_refl).
Defined.

Lemma deleted_endpoint_stays_witness :
  ∃ fd', UpdateSecurityPolicies no_regexp "DELETED" sample_endpoint (sample_feeder "block" []) =
         Ok fd' ∧ is_Some (fd_SecurityPolicies fd' !! "shop_cart").
Proof.
  eexists. split; [vm_compute; reflexivity|].
  apply (proj1 (proj2 (deleted_endpoint_stays no_regexp sample_endpoint []
                         (sample_feeder "block" [])))). vm_compute. reflexivity.
Defined.
