(* ===== verification/LogFeed.v ===== *)
(** Delivery of events to clients ([KubeArmor/feeder/feeder.go], [logServer.go]):
    the tables of subscribers, and [PushLog], which matches an event, writes it to the
    output and broadcasts it as an alert or a log.

    A Go channel is its queue, its capacity and whether it is closed.  A send in a
    [select] with a default drops the message when the queue is full, and panics when
    the channel is closed.  The output is the list of logs written to it. *)
From Stdlib Require Import Ascii String.
From S2P Require Import Prelude GoStrings GoPath Types AlertThrottle PolicyMatcher.

Open Scope string_scope.
Open Scope list_scope.

(** ** Subscribers *)

Record EventStruct (T : Type) := {
  es_Filter : string; es_cap : nat; es_queue : list T; es_closed : bool }.
Arguments es_Filter {T}.
Arguments es_cap {T}.
Arguments es_queue {T}.
Arguments es_closed {T}.
Arguments Build_EventStruct {T}.

Section subscribers.
Context {T : Type}.
Abbreviation Structs := (gmap string (EventStruct T)).

(** [AddAlertStruct] and [AddLogStruct]; the identifier is random. *)
Definition AddStruct (uid filter : string) (queueSize : nat) (es : Structs) : Structs :=
  <[uid := {| es_Filter := filter; es_cap := queueSize; es_queue := []; es_closed := false |}]> es.

Definition RemoveStruct (uid : string) (es : Structs) : Structs := delete uid es.

(** [close(conn)] *)
Definition close_struct (s : EventStruct T) : EventStruct T :=
  {| es_Filter := es_Filter s; es_cap := es_cap s; es_queue := es_queue s; es_closed := true |}.
Definition CloseStruct (uid : string) (es : Structs) : Structs := alter close_struct uid es.

(** [select { case c <- x: default: }] on an open channel *)
Definition offer (x : T) (s : EventStruct T) : EventStruct T :=
  if bool_decide (List.length (es_queue s) < es_cap s)%nat then
    {| es_Filter := es_Filter s; es_cap := es_cap s; es_queue := es_queue s ++ [x];
       es_closed := es_closed s |}
  else s.

(** The loop over the subscribers: one that is closed makes the program panic. *)
Definition broadcast (x : T) (es : Structs) : Res Structs :=
  if existsb (λ kv, es_closed kv.2) (map_to_list es) then Panic else Ok (offer x <$> es).

(** [<-conn], when there is a message. *)
Definition receive (uid : string) (es : Structs) : option (T * Structs) :=
  s ← es !! uid;
  match es_queue s with
  | x :: q => Some (x, <[uid := {| es_Filter := es_Filter s; es_cap := es_cap s; es_queue := q;
                                   es_closed := es_closed s |}]> es)
  | [] => None
  end.
End subscribers.

(** The size of the queues of [LogService], and the requests it accepts. *)
Definition QueueSize : nat := 1000.
Definition alert_filter (filter : string) : bool :=
  String.eqb filter "all" || String.eqb filter "policy".
Definition log_filter (filter : string) : bool :=
  String.eqb filter "all" || String.eqb filter "system".

(** [WatchAlerts] and [WatchLogs] up to their loop, and their deferred function, which
    closes the channel before it removes the entry. *)
Definition watch_start {T} (accepts : string → bool) (uid filter : string)
    (es : gmap string (EventStruct T)) : gmap string (EventStruct T) :=
  if accepts filter then AddStruct uid filter QueueSize es else es.
Definition watch_end {T} (uid : string) : list (gmap string (EventStruct T) → gmap string (EventStruct T)) :=
  [CloseStruct uid; RemoveStruct uid].

(** ** Messages *)

(** [pb.Alert] without its policy part is [pb.Log], except for [ATags] and the limits. *)
Record pbEvent := {
  pb_Timestamp : Z; pb_UpdatedTime : string; pb_ClusterName : string; pb_HostName : string;
  pb_NodeID : string; pb_NamespaceName : string; pb_Owner : option (string * string * string);
  pb_PodName : string; pb_Labels : string; pb_ContainerID : string; pb_ContainerName : string;
  pb_ContainerImage : string; pb_HostPPID : Z; pb_HostPID : Z; pb_PPID : Z; pb_PID : Z;
  pb_UID : Z; pb_ParentProcessName : string; pb_ProcessName : string; pb_Type : string;
  pb_TTY : string; pb_Source : string; pb_Operation : string; pb_Resource : string;
  pb_Cwd : string; pb_ExecEvent : string * string; pb_Data : string; pb_Result : string }.

Record pbAlert := {
  pa_event : pbEvent; pa_KubeArmorVersion : string;
  pa_Enforcer : string; pa_PolicyName : string; pa_Severity : string;
  pa_Tags : string; pa_ATags : list string; pa_Message : string; pa_Action : string;
  pa_MaxAlertsPerSec : Z; pa_DroppingAlertsInterval : Z }.

(** The settings that [PushLog] reads. *)
Record FeedConfig := {
  fc_EnforcerAlerts : bool; fc_DefaultPostureLogs : bool; fc_AlertThrottling : bool;
  fc_Cluster : string; fc_MaxAlertPerSec : Z; fc_ThrottleSec : Z }.

(** An owner with three empty fields is not sent. *)
Definition owner_of (b : LogBase) : option (string * string * string) :=
  match lb_Owner b with
  | Some (ref, name, ns) =>
      if nonempty ref || nonempty name || nonempty ns then Some (ref, name, ns) else None
  | None => None
  end.

Definition make_event (cluster node nodeID : string) (log : Log) : pbEvent :=
  let b := lg_base log in
  {| pb_Timestamp := lb_Timestamp b; pb_UpdatedTime := lb_UpdatedTime b;
     pb_ClusterName := cluster; pb_HostName := node; pb_NodeID := nodeID;
     pb_NamespaceName := lb_NamespaceName b; pb_Owner := owner_of b;
     pb_PodName := lb_PodName b; pb_Labels := lb_Labels b; pb_ContainerID := lb_ContainerID b;
     pb_ContainerName := lb_ContainerName b; pb_ContainerImage := lb_ContainerImage b;
     pb_HostPPID := lb_HostPPID b; pb_HostPID := lb_HostPID b; pb_PPID := lb_PPID b;
     pb_PID := lb_PID b; pb_UID := lb_UID b; pb_ParentProcessName := lb_ParentProcessName b;
     pb_ProcessName := lb_ProcessName b; pb_Type := lg_Type log; pb_TTY := lb_TTY b;
     pb_Source := lb_Source b; pb_Operation := lb_Operation b;
     pb_Resource := ToValidUTF8 (lb_Resource b); pb_Cwd := lb_Cwd b;
     pb_ExecEvent := lb_ExecEvent b; pb_Data := lb_Data b; pb_Result := lb_Result b |}.

Definition make_alert (cluster node nodeID : string) (log : Log) : pbAlert :=
  {| pa_event := make_event cluster node nodeID log;
     pa_KubeArmorVersion := lb_KubeArmorVersion (lg_base log);
     pa_Enforcer := lg_Enforcer log; pa_PolicyName := lg_PolicyName log;
     pa_Severity := if String.eqb (lg_Severity log) "0" then "" else lg_Severity log;
     pa_Tags := lg_Tags log;
     pa_ATags := if nonempty (lg_Tags log) then split ","%char (lg_Tags log) else [];
     pa_Message := lg_Message log; pa_Action := lg_Action log;
     pa_MaxAlertsPerSec := lb_MaxAlertsPerSec (lg_base log);
     pa_DroppingAlertsInterval := lb_DroppingAlertsInterval (lg_base log) |}.

(** ** PushLog *)

Section push.
Context {Rx : Type} (MatchString : Rx → string → bool) (cfg : FeedConfig).

Record FeedState := {
  fs_Feeder : @Feeder Rx; fs_NodeID : string;
  fs_Output : string; fs_Written : list Log;
  fs_AlertMap : AlertMap; fs_ContainerNsKey : gmap string OuterKey;
  fs_Alerts : gmap string (EventStruct pbAlert);
  fs_Logs : gmap string (EventStruct pbEvent) }.

Definition IsPresetEnforcer (enforcer : string) : bool := Contains enforcer "PRESET".

Definition is_matched (log : Log) : bool :=
  String.eqb (lg_Type log) "MatchedPolicy" || String.eqb (lg_Type log) "MatchedHostPolicy".

(** A matched policy becomes a plain log. *)
Definition as_plain (log : Log) : Log :=
  if String.eqb (lg_Type log) "MatchedPolicy" then with_type "ContainerLog" log
  else if String.eqb (lg_Type log) "MatchedHostPolicy" then with_type "HostLog" log
  else log.

Definition with_enforcer (e : string) (log : Log) : Log :=
  {| lg_base := lg_base log; lg_Type := lg_Type log; lg_PolicyName := lg_PolicyName log;
     lg_Severity := lg_Severity log; lg_Tags := lg_Tags log; lg_ATags := lg_ATags log;
     lg_Message := lg_Message log; lg_Enforcer := e; lg_Action := lg_Action log |}.

(** The first part of [PushLog]: matching, and the conversion of alerts that the enforcer
    reports itself. *)
Definition match_event (log : Log) (fd : Feeder) : Res (Feeder * Log) :=
  if IsPresetEnforcer (lg_Enforcer log) then Ok (fd, log)
  else
    let bpf := String.eqb (fd_Enforcer fd) "BPFLSM" in
    r ← UpdateMatchedPolicy MatchString log fd;
    let '(fd, log') := r in
    if (fc_EnforcerAlerts cfg && bpf && String.eqb (lg_Enforcer log) "") ||
       (negb bpf && negb (fc_DefaultPostureLogs cfg))
    then
      let posture := Contains (lg_PolicyName log') "DefaultPosture" in
      Ok (fd, if is_matched log' &&
                 ((bpf && (posture || negb (Contains (lg_Action log') "Audit"))) ||
                  (negb bpf && posture))
              then as_plain log' else log')
    else Ok (fd, if bpf then with_enforcer "BPFLSM" log' else log').

(** The host name is set and the flags are cleared. *)
Definition outgoing_base (host : string) (b : LogBase) : LogBase :=
  {| lb_Timestamp := lb_Timestamp b; lb_UpdatedTime := lb_UpdatedTime b;
     lb_ClusterName := lb_ClusterName b; lb_HostName := host; lb_NodeID := lb_NodeID b;
     lb_NamespaceName := lb_NamespaceName b; lb_Owner := lb_Owner b; lb_PodName := lb_PodName b;
     lb_Labels := lb_Labels b; lb_ContainerID := lb_ContainerID b;
     lb_ContainerName := lb_ContainerName b; lb_ContainerImage := lb_ContainerImage b;
     lb_HostPPID := lb_HostPPID b; lb_HostPID := lb_HostPID b; lb_PPID := lb_PPID b;
     lb_PID := lb_PID b; lb_UID := lb_UID b; lb_ExecEvent := lb_ExecEvent b;
     lb_ParentProcessName := lb_ParentProcessName b; lb_ProcessName := lb_ProcessName b;
     lb_KubeArmorVersion := lb_KubeArmorVersion b; lb_Source := lb_Source b;
     lb_Operation := lb_Operation b; lb_Resource := lb_Resource b; lb_Cwd := lb_Cwd b;
     lb_TTY := lb_TTY b; lb_OID := lb_OID b; lb_Data := lb_Data b; lb_Result := lb_Result b;
     lb_MaxAlertsPerSec := lb_MaxAlertsPerSec b;
     lb_DroppingAlertsInterval := lb_DroppingAlertsInterval b; lb_PolicyEnabled := 0;
     lb_ProcessVisibilityEnabled := false; lb_FileVisibilityEnabled := false;
     lb_NetworkVisibilityEnabled := false; lb_CapabilitiesVisibilityEnabled := false |}.

Definition outgoing (host : string) (log : Log) : Log :=
  {| lg_base := outgoing_base host (lg_base log); lg_Type := lg_Type log;
     lg_PolicyName := lg_PolicyName log; lg_Severity := lg_Severity log;
     lg_Tags := lg_Tags log; lg_ATags := lg_ATags log; lg_Message := lg_Message log;
     lg_Enforcer := lg_Enforcer log; lg_Action := lg_Action log |}.

(** The alert that announces throttling. *)
Definition threshold_base (b : LogBase) : LogBase :=
  {| lb_Timestamp := lb_Timestamp b; lb_UpdatedTime := lb_UpdatedTime b;
     lb_ClusterName := lb_ClusterName b; lb_HostName := lb_HostName b; lb_NodeID := lb_NodeID b;
     lb_NamespaceName := lb_NamespaceName b; lb_Owner := lb_Owner b; lb_PodName := lb_PodName b;
     lb_Labels := lb_Labels b; lb_ContainerID := lb_ContainerID b;
     lb_ContainerName := lb_ContainerName b; lb_ContainerImage := lb_ContainerImage b;
     lb_HostPPID := lb_HostPPID b; lb_HostPID := lb_HostPID b; lb_PPID := lb_PPID b;
     lb_PID := lb_PID b; lb_UID := lb_UID b; lb_ExecEvent := lb_ExecEvent b;
     lb_ParentProcessName := lb_ParentProcessName b; lb_ProcessName := lb_ProcessName b;
     lb_KubeArmorVersion := lb_KubeArmorVersion b; lb_Source := lb_Source b;
     lb_Operation := "AlertThreshold"; lb_Resource := lb_Resource b; lb_Cwd := lb_Cwd b;
     lb_TTY := lb_TTY b; lb_OID := lb_OID b; lb_Data := lb_Data b; lb_Result := lb_Result b;
     lb_MaxAlertsPerSec := fc_MaxAlertPerSec cfg;
     lb_DroppingAlertsInterval := fc_ThrottleSec cfg; lb_PolicyEnabled := lb_PolicyEnabled b;
     lb_ProcessVisibilityEnabled := lb_ProcessVisibilityEnabled b;
     lb_FileVisibilityEnabled := lb_FileVisibilityEnabled b;
     lb_NetworkVisibilityEnabled := lb_NetworkVisibilityEnabled b;
     lb_CapabilitiesVisibilityEnabled := lb_CapabilitiesVisibilityEnabled b |}.

Definition threshold_alert (log : Log) : Log :=
  {| lg_base := threshold_base (lg_base log); lg_Type := "SystemEvent";
     lg_PolicyName := lg_PolicyName log; lg_Severity := lg_Severity log;
     lg_Tags := lg_Tags log; lg_ATags := lg_ATags log; lg_Message := lg_Message log;
     lg_Enforcer := lg_Enforcer log; lg_Action := lg_Action log |}.

(** The alerts that count against a container's limit. *)
Definition throttled (log : Log) : bool :=
  fc_AlertThrottling cfg &&
  ((Contains (lg_Action log) "Audit" && String.eqb (lg_Enforcer log) "eBPF Monitor") ||
   (String.eqb (lg_Type log) "MatchedHostPolicy" &&
    (String.eqb (lg_Enforcer log) "AppArmor" || String.eqb (lg_Enforcer log) "eBPF Monitor"))).

Definition zero_OuterKey : OuterKey := {| ok_PidNs := 0; ok_MntNs := 0 |}.

(** The throttle's answer: the alert to send, if any, and the new table. *)
Definition throttle (now : Z) (log : Log) (st : FeedState) : option Log * AlertMap :=
  if throttled log then
    let nsKey := default zero_OuterKey (fs_ContainerNsKey st !! lb_ContainerID (lg_base log)) in
    let '(m, (alert, thr)) :=
      ShouldDropAlertsPerContainer (fc_ThrottleSec cfg) (fc_MaxAlertPerSec cfg) now
        (ok_PidNs nsKey) (ok_MntNs nsKey) (fs_AlertMap st) in
    (if alert then (if thr then None else Some (threshold_alert log)) else Some log, m)
  else (Some log, fs_AlertMap st).

Definition set_fs (fd : Feeder) (written : list Log) (am : AlertMap)
    (alerts : gmap string (EventStruct pbAlert)) (logs : gmap string (EventStruct pbEvent))
    (st : FeedState) : FeedState :=
  {| fs_Feeder := fd; fs_NodeID := fs_NodeID st; fs_Output := fs_Output st;
     fs_Written := written; fs_AlertMap := am; fs_ContainerNsKey := fs_ContainerNsKey st;
     fs_Alerts := alerts; fs_Logs := logs |}.

(** [now] is the clock that the throttle reads. *)
Definition PushLog (now : Z) (log : Log) (st : FeedState) : Res FeedState :=
  r ← match_event log (fs_Feeder st);
  let '(fd, log) := r in
  if String.eqb (lb_Source (lg_base log)) "" && String.eqb (lg_Type log) "" then
    Ok (set_fs fd (fs_Written st) (fs_AlertMap st) (fs_Alerts st) (fs_Logs st) st)
  else
    let log := outgoing (fd_Host fd) log in
    let written := if String.eqb (fs_Output st) "none" then fs_Written st
                   else fs_Written st ++ [log] in
    if is_matched log || String.eqb (lg_Type log) "SystemEvent" then
      let '(out, am) := throttle now log st in
      match out with
      | None => Ok (set_fs fd written am (fs_Alerts st) (fs_Logs st) st)
      | Some log =>
          alerts ← broadcast (make_alert (fc_Cluster cfg) (fd_NodeName fd) (fs_NodeID st) log)
                     (fs_Alerts st);
          Ok (set_fs fd written am alerts (fs_Logs st) st)
      end
    else
      logs ← broadcast (make_event (fc_Cluster cfg) (fd_NodeName fd) (fs_NodeID st) log)
               (fs_Logs st);
      Ok (set_fs fd written (fs_AlertMap st) (fs_Alerts st) logs st).
End push.
