(* ===== verification/LogFeedProps.v ===== *)
(** Properties of delivery: which events become alerts, that the alert of a blocked event
    reaches every subscriber with room and is never throttled, that the enforcer's own
    alerts are not doubled, and how the queues of subscribers behave. *)
From Stdlib Require Import Ascii String.
From S2P Require Import Prelude GoStrings GoPath Types AlertThrottle PolicyMatcher PolicyMatcherProps LogFeed.

Open Scope string_scope.
Open Scope nat_scope.
Open Scope list_scope.

(** ** Subscribers *)

Section queues.
Context {T : Type}.
Abbreviation Structs := (gmap string (EventStruct T)).

(** No subscriber is closing. *)
Definition all_open (es : Structs) : Prop := map_Forall (λ _ s, es_closed s = false) es.

Lemma broadcast_open x es : all_open es → broadcast x es = Ok (offer x <$> es).
Proof.
  intros H. unfold broadcast. destruct (existsb _ _) eqn:E; [|done].
  apply existsb_exists in E as ([k s] & Hin & Hs). apply list_elem_of_In in Hin.
  apply elem_of_map_to_list in Hin. cbn in Hs. by rewrite (H _ _ Hin) in Hs.
Qed.

Lemma broadcast_closed x es uid s :
  es !! uid = Some s → es_closed (T := T) s = true → broadcast x es = Panic.
Proof.
  intros H Hs. unfold broadcast. destruct (existsb _ _) eqn:E; [done|].
  rewrite <- not_true_iff_false, existsb_exists in E. destruct E.
  exists (uid, s). split; [|done]. by apply list_elem_of_In, elem_of_map_to_list.
Qed.

(** What happens to a client's queue: a message for all subscribers ([Some x]), or a
    receive of the client. *)
Definition client_step (uid : string) (st : Structs * list T) (o : option T)
    : Res (Structs * list T) :=
  match o with
  | Some x => es ← broadcast x st.1; Ok (es, st.2)
  | None => Ok match receive uid st.1 with Some (x, es) => (es, st.2 ++ [x]) | None => st end
  end.

Fixpoint client_run (uid : string) (l : list (option T)) (st : Structs * list T)
    : Res (Structs * list T) :=
  match l with [] => Ok st | o :: l' => st ← client_step uid st o; client_run uid l' st end.

Lemma client_run_inv uid l es got s :
  all_open es → es !! uid = Some s →
  ∃ es' got' s', client_run uid l (es, got) = Ok (es', got') ∧ es' !! uid = Some s' ∧
    (got' ++ es_queue s') `sublist_of` (got ++ es_queue s ++ omap id l) ∧
    (List.length (es_queue s) + List.length (omap id l) ≤ es_cap s →
     got' ++ es_queue s' = got ++ es_queue s ++ omap id l).
Proof.
  revert es got s. induction l as [|[x|] l IH]; intros es got s Ho Hs; cbn [client_run].
  - exists es, got, s. cbn. rewrite app_nil_r. done.
  - cbn [client_step fst]. rewrite broadcast_open by done. cbn.
    destruct (IH (offer x <$> es) got (offer x s)) as (es' & got' & s' & Hr & Hs' & Hsub & Heq).
    { intros k y Hk. apply lookup_fmap_Some in Hk as (y' & <- & Hk). unfold offer.
      case_bool_decide; cbn; by apply (Ho k). }
    { by rewrite lookup_fmap, Hs. }
    exists es', got', s'. split_and!; [done..| |].
    + etransitivity; [exact Hsub|]. apply sublist_app; [done|]. unfold offer.
      case_bool_decide; cbn; [by rewrite <- app_assoc|].
      apply sublist_app; [done|]. by constructor.
    + intros Hlen. unfold offer in Heq. rewrite bool_decide_eq_true_2 in Heq by lia.
      cbn in Heq. rewrite length_app in Heq. cbn in Heq. rewrite Heq by lia.
      by rewrite <- app_assoc.
  - cbn [client_step]. unfold receive. cbn [fst]. rewrite Hs. cbn.
    destruct (es_queue s) as [|x q] eqn:Hq; cbn.
    + destruct (IH es got s Ho Hs) as (es' & got' & s' & Hr & H). rewrite Hq in H. by eauto 6.
    + set (s1 := {| es_Filter := es_Filter s; es_cap := es_cap s; es_queue := q;
                    es_closed := es_closed s |}).
      destruct (IH (<[uid := s1]> es) (got ++ [x]) s1) as (es' & got' & s' & Hr & Hs' & H).
      { apply map_Forall_insert_2; [|done]. cbn. by apply (Ho uid). }
      { apply lookup_insert_eq. }
      exists es', got', s'. split; [exact Hr|]. split; [done|]. cbn in H.
      rewrite <- app_assoc in H. cbn in H. destruct H as [H1 H2]. split; [done|].
      intros Hlen. apply H2. lia.
Qed.

(** C38: What a client receives, followed by what waits in its queue, is a subsequence of the
    messages sent since it joined, in their order and without repetition; as long as no
    more messages were sent than the queue holds, nothing is missing. *)
Theorem client_receives_in_order uid filter n es l :
  all_open es →
  let ess := AddStruct uid filter n es in
  ∃ es' got s', client_run uid l (ess, []) = Ok (es', got) ∧ es' !! uid = Some s' ∧
    (got ++ es_queue s') `sublist_of` omap id l ∧
    (List.length (omap id l) ≤ n → got ++ es_queue s' = omap id l).
Proof.
  intros Ho ess.
  destruct (client_run_inv uid l ess [] {| es_Filter := filter; es_cap := n; es_queue := [];
              es_closed := false |}) as (es' & got & s' & H); [|apply lookup_insert_eq|eauto].
  by apply map_Forall_insert_2.
Qed.

(** A client that leaves closes its channel before it takes it out of the table: an
    event between the two steps makes the feeder panic, while taking it out first would
    be safe. *)
Theorem leaving_client_race x es uid s :
  es !! uid = Some s → all_open es →
  broadcast x (CloseStruct uid es) = Panic ∧
  (∃ es', broadcast x (RemoveStruct uid (CloseStruct uid es)) = Ok es') ∧
  foldl (λ es step, step es) es (watch_end uid) = RemoveStruct uid es.
Proof.
  intros Hs Ho. split_and!.
  - apply (broadcast_closed _ _ uid (close_struct s)); [|done].
    unfold CloseStruct. by rewrite lookup_alter_eq, Hs.
  - eexists. apply broadcast_open. unfold RemoveStruct, CloseStruct.
    rewrite delete_alter_eq. by apply map_Forall_delete.
  - cbn. unfold RemoveStruct, CloseStruct. apply delete_alter_eq.
Qed.
End queues.

(** ** Which events become alerts *)

Section push.
Context {Rx : Type} (MatchString : Rx → string → bool) (cfg : FeedConfig).
Abbreviation FS := (@FeedState Rx).

Definition feed_open (st : FS) : Prop := all_open (fs_Alerts st) ∧ all_open (fs_Logs st).

(** The alert sent for a log. *)
Definition alert_of (fd : Feeder) (st : FS) (log : Log) : pbAlert :=
  make_alert (fc_Cluster cfg) (fd_NodeName (Rx := Rx) fd) (fs_NodeID st) log.

(** Past the matcher: an alert is throttled or broadcast, a log is broadcast. *)
Lemma PushLog_sends now log st fd log' :
  feed_open st → match_event MatchString cfg log (fs_Feeder st) = Ok (fd, log') →
  lg_Type log' ≠ "" →
  let o := outgoing (fd_Host fd) log' in
  ∃ st', PushLog MatchString cfg now log st = Ok st' ∧ fs_Feeder st' = fd ∧
    if is_matched log' || String.eqb (lg_Type log') "SystemEvent" then
      let '(out, am) := throttle cfg now o st in
      fs_AlertMap st' = am ∧ fs_Logs st' = fs_Logs st ∧
      fs_Alerts st' = match out with
                      | Some l => offer (alert_of fd st l) <$> fs_Alerts st
                      | None => fs_Alerts st
                      end
    else fs_AlertMap st' = fs_AlertMap st ∧ fs_Alerts st' = fs_Alerts st.
Proof.
  intros [Ha Hl] Hm Ht o. unfold PushLog. rewrite Hm. cbn [mbind Res_bind].
  apply String.eqb_neq in Ht as Ht'. rewrite Ht', andb_false_r. fold o.
  change (is_matched o) with (is_matched log'). change (lg_Type o) with (lg_Type log').
  destruct (is_matched log' || String.eqb (lg_Type log') "SystemEvent").
  - destruct (throttle cfg now o st) as [[l|] am]; [|by eexists].
    rewrite broadcast_open by done. by eexists.
  - rewrite broadcast_open by done. by eexists.
Qed.

(** An alert that does not count against a limit leaves the limits alone. *)
Lemma throttle_not log now st :
  throttled cfg log = false → throttle (Rx := Rx) cfg now log st = (Some log, fs_AlertMap st).
Proof. unfold throttle. by intros ->. Qed.

(** C16: With an enforcer other than BPF-LSM, the alert of a container's event (of a process,
    a file or the network) that a Block rule decides first reaches every client with room in its queue, whatever the throttling
    state, and does not count against the container's limit: it names the rule's policy
    and severity, and carries the action "Block" and the event's own resource.  The rule is
    not one of a default posture and its severity is not 0; alerts of the host, which are
    throttled, are not covered. *)
Theorem blocked_event_alerted now log st pre sp post :
  feed_open st → fd_Enforcer (fs_Feeder st) ≠ "BPFLSM" →
  IsPresetEnforcer (lg_Enforcer log) = false →
  stopping (lb_Operation (lg_base log)) → result_tested log = true → lg_Type log = "" →
  lb_ContainerID (lg_base log) ≠ "" →
  rules_for (fs_Feeder st) log = pre ++ sp :: post →
  let dp := posture_of (fs_Feeder st) (lb_NamespaceName (lg_base log)) in
  Forall (λ r, decides MatchString dp r log = false) pre →
  decides MatchString dp sp log = true → mp_Action sp = "Block" →
  Contains (mp_PolicyName sp) "DefaultPosture" = false → mp_Severity sp ≠ "0" →
  ∃ st' a, PushLog MatchString cfg now log st = Ok st' ∧
    fs_AlertMap st' = fs_AlertMap st ∧ fs_Alerts st' = offer a <$> fs_Alerts st ∧
    pa_PolicyName a = mp_PolicyName sp ∧ pa_Severity a = mp_Severity sp ∧
    pa_Action a = "Block" ∧ pb_Type (pa_event a) = "MatchedPolicy" ∧
    pb_Resource (pa_event a) = ToValidUTF8 (lb_Resource (lg_base log)).
Proof.
  intros Ho He Hpre Hop Hr Ht Hc Hl dp Hun Hsp Hact Hname Hsev.
  assert (nonempty (lb_ContainerID (lg_base log)) = true) as Hn.
  { unfold nonempty. apply bool_decide_eq_true. destruct (lb_ContainerID _); [done|cbn; lia]. }
  assert (allows sp = false) as Hal by (unfold allows, is_action; by rewrite Hact).
  destruct (first_rule_log MatchString (fs_Feeder st) log pre sp post)
    as (r & (S & T & N & V & A) & Hu); [done..|]. rewrite Hn in Hu. rewrite Hal, Hact in A.
  assert (match_event MatchString cfg log (fs_Feeder st) = Ok (fs_Feeder st, r)) as Hm.
  { unfold match_event. rewrite Hpre, Hu. cbn [mbind Res_bind].
    rewrite N, Hname, (proj2 (String.eqb_neq _ _) He). cbn [negb andb].
    rewrite !andb_false_r. cbn. by case_bool. }
  destruct (PushLog_sends now log st _ r Ho Hm) as (st' & Hp & Hfd & H); [by rewrite T|].
  unfold is_matched in H. rewrite T in H. cbn [String.eqb Ascii.eqb orb] in H.
  rewrite throttle_not in H.
  - destruct H as (Ham & _ & Hal'). do 2 eexists. split; [exact Hp|].
    split; [exact Ham|]. split; [exact Hal'|]. cbn. rewrite N, V, A, T, S.
    apply String.eqb_neq in Hsev. by rewrite Hsev.
  - unfold throttled. cbn. rewrite A, T. cbn. by rewrite andb_false_r.
Qed.

(** A log without a type is at most broadcast as a log. *)
Lemma PushLog_untyped now log st fd log' :
  feed_open st → match_event MatchString cfg log (fs_Feeder st) = Ok (fd, log') →
  lg_Type log' = "" →
  ∃ st', PushLog MatchString cfg now log st = Ok st' ∧ fs_Feeder st' = fd ∧
         fs_Alerts st' = fs_Alerts st ∧ fs_AlertMap st' = fs_AlertMap st.
Proof.
  intros [Ha Hl] Hm Ht. unfold PushLog. rewrite Hm. cbn [mbind Res_bind]. case_bool.
  - by eexists.
  - unfold is_matched. cbn [lg_Type outgoing]. rewrite Ht. cbn [String.eqb orb].
    rewrite broadcast_open by done. by eexists.
Qed.

(** What the throttle sends carries the action and the policy of the log. *)
Lemma throttle_policy now log st l am :
  throttle (Rx := Rx) cfg now log st = (Some l, am) →
  lg_Action l = lg_Action log ∧ lg_PolicyName l = lg_PolicyName log.
Proof.
  unfold throttle. case_bool; [|by intros [= <- _]].
  destruct (ShouldDropAlertsPerContainer _ _ _ _ _ _) as [m [alert thr]].
  intros [= Ho _]. destruct alert, thr; by simplify_eq.
Qed.

(** With BPF-LSM and its own alerts enabled, the monitor never repeats an alert of the
    enforcer: whatever event of the monitor is pushed, an alert is sent for it only if a
    rule audits it, and never for the default posture; the push itself does not fail. *)
Theorem enforcer_alerts_not_doubled now log st :
  feed_open st → wf_feeder (fs_Feeder st) → syscall_data (lg_base log) →
  lg_Type log = "" → lg_Enforcer log = "" →
  fc_EnforcerAlerts cfg = true → fd_Enforcer (fs_Feeder st) = "BPFLSM" →
  ∃ st', PushLog MatchString cfg now log st = Ok st' ∧ wf_feeder (fs_Feeder st') ∧
    (fs_Alerts st' = fs_Alerts st ∨
     ∃ a, fs_Alerts st' = offer a <$> fs_Alerts st ∧
          Contains (pa_Action a) "Audit" = true ∧
          Contains (pa_PolicyName a) "DefaultPosture" = false).
Proof.
  intros Ho Hw Hd Ht He Hcfg Hbpf.
  destruct (UpdateMatchedPolicy_type MatchString log (fs_Feeder st) Hw Hd Ht)
    as ([fd r] & Hu & Hw' & Hty). cbn in Hw', Hty.
  set (quiet := Contains (lg_PolicyName r) "DefaultPosture" ||
                negb (Contains (lg_Action r) "Audit")).
  set (r' := if is_matched r && quiet then as_plain r else r).
  assert (match_event MatchString cfg log (fs_Feeder st) = Ok (fd, r')) as Hm.
  { unfold match_event. rewrite He, Hu, Hcfg, Hbpf.
    change (IsPresetEnforcer "") with false. cbn. by rewrite orb_false_r. }
  destruct (decide (lg_Type r' = "")) as [Hr|Hr].
  { destruct (PushLog_untyped now log st fd r' Ho Hm Hr) as (st' & Hp & <- & Hal & _). eauto. }
  destruct (PushLog_sends now log st fd r' Ho Hm Hr) as (st' & Hp & <- & H).
  exists st'. split_and!; [done..|].
  destruct (is_matched r' || String.eqb (lg_Type r') "SystemEvent") eqn:E; [|left; apply H].
  assert (is_matched r = true ∧ quiet = false) as [Hmr Hq].
  { unfold r', is_matched, as_plain in E. clear -E Hty. rewrite !elem_of_cons in Hty.
    unfold is_matched. destruct Hty as [Hty|[Hty|[Hty|[Hty|[Hty|[]%not_elem_of_nil]]]]];
      rewrite Hty in E |- *; destruct quiet; cbn in E; try rewrite Hty in E; done. }
  unfold r' in H. rewrite Hq, andb_false_r in H. apply orb_false_iff in Hq as [Hq1 Hq2].
  apply negb_false_iff in Hq2.
  destruct (throttle cfg now _ st) as [[l|] am] eqn:Hth; [|by left; apply H].
  destruct (throttle_policy _ _ _ _ _ Hth) as [HA HN]. right. eexists. split; [apply H|].
  cbn. rewrite HA, HN. done.
Qed.
End push.

(** ** Concrete inputs *)

Definition sample_config : FeedConfig :=
  {| fc_EnforcerAlerts := true; fc_DefaultPostureLogs := false; fc_AlertThrottling := true;
     fc_Cluster := "default"; fc_MaxAlertPerSec := 10; fc_ThrottleSec := 30 |}.

Definition with_fd_enforcer (e : string) (fd : @Feeder unit) : @Feeder unit :=
  {| fd_Enforcer := e; fd_NodeName := fd_NodeName fd; fd_NodePolicyEnabled := fd_NodePolicyEnabled fd;
     fd_NodeVisibility := fd_NodeVisibility fd; fd_Host := fd_Host fd;
     fd_GlobalPosture := fd_GlobalPosture fd; fd_SecurityPolicies := fd_SecurityPolicies fd;
     fd_DefaultPostures := fd_DefaultPostures fd |}.

(** A feeder with one client for alerts. *)
Definition sample_state (e : string) (l : list (@MatchPolicy unit)) : @FeedState unit :=
  {| fs_Feeder := with_fd_enforcer e (sample_feeder "block" l); fs_NodeID := "id";
     fs_Output := "none"; fs_Written := []; fs_AlertMap := ∅; fs_ContainerNsKey := ∅;
     fs_Alerts := watch_start alert_filter "u1" "policy" ∅;
     fs_Logs := watch_start log_filter "u1" "policy" ∅ |}.

Lemma sample_state_open e l : feed_open (sample_state e l).
Proof. split; [by apply map_Forall_insert_2; [|apply map_Forall_empty]|apply map_Forall_empty]. Qed.

Lemma client_receives_in_order_witness :
  ∃ es' got s', client_run "u1" [Some 1; None; Some 2] (AddStruct "u1" "all" 2 ∅, []) = Ok (es', got) ∧
    es' !! "u1" = Some s' ∧ (got ++ es_queue s') `sublist_of` [1; 2] ∧
    (2 ≤ 2 → got ++ es_queue s' = [1; 2]).
Proof.
  apply (client_receives_in_order "u1" "all" 2 ∅ [Some 1; None; Some 2]).
  apply map_Forall_empty.
Defined.

Lemma leaving_client_race_witness :
  let es := AddStruct "u1" "all" 2 (∅ : gmap string (EventStruct nat)) in
  broadcast 7 (CloseStruct "u1" es) = Panic ∧
  (∃ es', broadcast 7 (RemoveStruct "u1" (CloseStruct "u1" es)) = Ok es') ∧
  foldl (λ es step, step es) es (watch_end "u1") = RemoveStruct "u1" es.
Proof.
  intros es. apply (leaving_client_race 7 es "u1"
    {| es_Filter := "all"; es_cap := 2; es_queue := []; es_closed := false |});
    [apply lookup_insert_eq|by apply map_Forall_insert_2; [|apply map_Forall_empty]].
Defined.

Lemma blocked_event_alerted_witness :
  ∃ st' a, PushLog never sample_config 5 (read_of "/etc/keys/a" "Permission denied")
             (sample_state "AppArmor" [logs_rule; keys_rule]) = Ok st' ∧
    fs_AlertMap st' = ∅ ∧ fs_Alerts st' = offer a <$> watch_start alert_filter "u1" "policy" ∅ ∧
    pa_PolicyName a = "protect-keys" ∧ pa_Severity a = mp_Severity keys_rule ∧
    pa_Action a = "Block" ∧ pb_Type (pa_event a) = "MatchedPolicy" ∧
    pb_Resource (pa_event a) = ToValidUTF8 "/etc/keys/a".
Proof.
  apply (blocked_event_alerted never sample_config 5 (read_of "/etc/keys/a" "Permission denied")
           (sample_state "AppArmor" [logs_rule; keys_rule]) [logs_rule] keys_rule []).
  - apply sample_state_open.
  - discriminate.
  - reflexivity.
  - cbn. set_solver.
  - reflexivity.
  - reflexivity.
  - discriminate.
  - vm_compute. reflexivity.
  - constructor; [vm_compute; reflexivity|constructor].
  - vm_compute. reflexivity.
  - reflexivity.
  - reflexivity.
  - discriminate.
Defined.

Lemma enforcer_alerts_not_doubled_witness :
  ∃ st', PushLog never sample_config 5 (read_of "/etc/keys/a" "Permission denied")
           (sample_state "BPFLSM" [keys_rule]) = Ok st' ∧ wf_feeder (fs_Feeder st') ∧
    (fs_Alerts st' = fs_Alerts (sample_state "BPFLSM" [keys_rule]) ∨
     ∃ a, fs_Alerts st' = offer a <$> fs_Alerts (sample_state "BPFLSM" [keys_rule]) ∧
          Contains (pa_Action a) "Audit" = true ∧
          Contains (pa_PolicyName a) "DefaultPosture" = false).
Proof.
  apply (enforcer_alerts_not_doubled never sample_config); try reflexivity.
  - apply sample_state_open.
  - apply map_Forall_singleton. constructor; [apply sample_rule_wf|constructor].
  - discriminate.
Defined.
