(* ===== verification/LogUpdate.v ===== *)
(** Log records ([KubeArmor/monitor/logUpdate.go]): from the context and the arguments
    of an event to the log that is pushed to the feeder.

    The clock, [/proc/<pid>/exe] and the order in which a Go map is visited are
    arguments; one event is one step. *)
From Stdlib Require Import Ascii String.
From S2P Require Import Prelude GoStrings GoPath Types SyscallParser SyscallNumbers ProcessTree PolicyMatcher.

Open Scope string_scope.
Open Scope Z_scope.
Open Scope list_scope.

(** ** Setting fields of a log *)

(** A base with the fields that are set after it was created. *)
Definition set_event (source pname parent op resource data result : string)
    (exec : string * string) (b : LogBase) : LogBase :=
  {| lb_Timestamp := lb_Timestamp b; lb_UpdatedTime := lb_UpdatedTime b;
     lb_ClusterName := lb_ClusterName b; lb_HostName := lb_HostName b; lb_NodeID := lb_NodeID b;
     lb_NamespaceName := lb_NamespaceName b; lb_Owner := lb_Owner b; lb_PodName := lb_PodName b;
     lb_Labels := lb_Labels b; lb_ContainerID := lb_ContainerID b;
     lb_ContainerName := lb_ContainerName b; lb_ContainerImage := lb_ContainerImage b;
     lb_HostPPID := lb_HostPPID b; lb_HostPID := lb_HostPID b; lb_PPID := lb_PPID b;
     lb_PID := lb_PID b; lb_UID := lb_UID b; lb_ExecEvent := exec;
     lb_ParentProcessName := parent; lb_ProcessName := pname;
     lb_KubeArmorVersion := lb_KubeArmorVersion b; lb_Source := source;
     lb_Operation := op; lb_Resource := resource; lb_Cwd := lb_Cwd b;
     lb_TTY := lb_TTY b; lb_OID := lb_OID b; lb_Data := data; lb_Result := result;
     lb_MaxAlertsPerSec := lb_MaxAlertsPerSec b;
     lb_DroppingAlertsInterval := lb_DroppingAlertsInterval b;
     lb_PolicyEnabled := lb_PolicyEnabled b;
     lb_ProcessVisibilityEnabled := lb_ProcessVisibilityEnabled b;
     lb_FileVisibilityEnabled := lb_FileVisibilityEnabled b;
     lb_NetworkVisibilityEnabled := lb_NetworkVisibilityEnabled b;
     lb_CapabilitiesVisibilityEnabled := lb_CapabilitiesVisibilityEnabled b |}.

Definition set_request (op resource data : string) (b : LogBase) : LogBase :=
  set_event (lb_Source b) (lb_ProcessName b) (lb_ParentProcessName b) op resource data
    (lb_Result b) (lb_ExecEvent b) b.
Definition set_ProcessName (p : string) (b : LogBase) : LogBase :=
  set_event (lb_Source b) p (lb_ParentProcessName b) (lb_Operation b) (lb_Resource b)
    (lb_Data b) (lb_Result b) (lb_ExecEvent b) b.
Definition set_Parent (p : string) (b : LogBase) : LogBase :=
  set_event p (lb_ProcessName b) p (lb_Operation b) (lb_Resource b) (lb_Data b)
    (lb_Result b) (lb_ExecEvent b) b.
Definition set_outcome (result : string) (exec : string * string) (b : LogBase) : LogBase :=
  set_event (lb_Source b) (lb_ProcessName b) (lb_ParentProcessName b) (lb_Operation b)
    (lb_Resource b) (lb_Data b) result exec b.

(** A log of which only the base is known. *)
Definition base_log (b : LogBase) : Log :=
  {| lg_base := b; lg_Type := ""; lg_PolicyName := ""; lg_Severity := ""; lg_Tags := "";
     lg_ATags := []; lg_Message := ""; lg_Enforcer := ""; lg_Action := "" |}.

(** ** The base of a log *)

Section log_update.
Context (ids : SyscallIDs) (syscalls : gmap Z string).
Context (now : Z * string) (procExe : Z → option string).

(** What the node, as a host, has for its events. *)
Record NodeFlags := {
  nf_PolicyEnabled : Z; nf_Process : bool; nf_File : bool; nf_Network : bool;
  nf_Capabilities : bool }.

(** [TrimRight(string(array[:]), "\x00")] *)
Definition array_string (l : byte_list) : string := TrimRight nul (of_bytes l).

Definition is_exec (eventID : Z) : bool :=
  (eventID =? SysExecve ids) || (eventID =? SysExecveAt ids).

(** [BuildLogBase] on the process tree: the two paths and the command are looked up in
    turn, and a lookup may remember what it reads. *)
Definition process_fields (containerID : string) (ctx : SyscallContext) (readlink : bool)
    (t : Tree) : (string * string * string) * Tree :=
  let '(processName, t) := GetExecPath procExe containerID ctx readlink t in
  let '(parentName, t) := GetParentExecPath procExe containerID ctx readlink t in
  if is_exec (sc_EventID ctx) then
    let '(source, t) := GetParentExecPath procExe containerID ctx readlink t in
    ((processName, parentName, source), t)
  else ((processName, parentName, GetCommand procExe containerID ctx readlink t), t).

(** [UpdateContainerInfoByContainerID] and the host's flags; [own] holds the fields that
    are not set for throttling alerts. *)
Definition BuildLogBase (containers : gmap string Container) (node : NodeFlags)
    (eventID : Z) (containerID : string) (ctx : SyscallContext) (readlink : bool) (t : Tree)
    : LogBase * Tree :=
  let c := if nonempty containerID then containers !! containerID else None in
  let host := negb (nonempty containerID) in
  let own := negb (eventID =? DropAlert) in
  let '((processName, parentName, source), t) :=
    if own then process_fields containerID ctx readlink t else (("", "", ""), t) in
  let num (z : Z) : Z := if own then i32 z else 0 in
  ({| lb_Timestamp := now.1; lb_UpdatedTime := now.2; lb_ClusterName := ""; lb_HostName := "";
      lb_NodeID := ""; lb_NamespaceName := from_option c_NamespaceName "" c;
      lb_Owner := c_Owner <$> c; lb_PodName := from_option c_EndPointName "" c;
      lb_Labels := from_option c_Labels "" c; lb_ContainerID := containerID;
      lb_ContainerName := from_option c_ContainerName "" c;
      lb_ContainerImage := from_option c_ContainerImage "" c;
      lb_HostPPID := num (sc_HostPPID ctx); lb_HostPID := num (sc_HostPID ctx);
      lb_PPID := num (sc_PPID ctx); lb_PID := num (sc_PID ctx); lb_UID := num (sc_UID ctx);
      lb_ExecEvent := ("", ""); lb_ParentProcessName := parentName;
      lb_ProcessName := processName; lb_KubeArmorVersion := ""; lb_Source := source;
      lb_Operation := ""; lb_Resource := "";
      lb_Cwd := if own then array_string (sc_Cwd ctx) +:+ "/" else "";
      lb_TTY := if own then array_string (sc_TTY ctx) else ""; lb_OID := num (sc_OID ctx);
      lb_Data := ""; lb_Result := ""; lb_MaxAlertsPerSec := 0; lb_DroppingAlertsInterval := 0;
      lb_PolicyEnabled := if host then nf_PolicyEnabled node else from_option c_PolicyEnabled 0 c;
      lb_ProcessVisibilityEnabled :=
        if host then nf_Process node else from_option c_ProcessVisibilityEnabled false c;
      lb_FileVisibilityEnabled :=
        if host then nf_File node else from_option c_FileVisibilityEnabled false c;
      lb_NetworkVisibilityEnabled :=
        if host then nf_Network node else from_option c_NetworkVisibilityEnabled false c;
      lb_CapabilitiesVisibilityEnabled :=
        if host then nf_Capabilities node
        else from_option c_CapabilitiesVisibilityEnabled false c |}, t).

Definition UpdateLogBase (ctx : SyscallContext) (log : LogBase) (t : Tree) : LogBase * Tree :=
  let '(processName, t) := GetExecPath procExe (lb_ContainerID log) ctx true t in
  let log := if nonempty processName then set_ProcessName processName log else log in
  let '(parentName, t) := GetParentExecPath procExe (lb_ContainerID log) ctx true t in
  (if nonempty parentName then set_Parent parentName log else log, t).

(** ** Arguments *)

(** Type assertions on an argument; a failed one leaves the zero value. *)
Definition str_arg (args : list Arg) (i : nat) : string :=
  match args !! i with Some (AString s) => s | _ => "" end.
Definition int_arg (args : list Arg) (i : nat) : Z :=
  match args !! i with Some (AInt32 z) => z | _ => 0 end.
(** [strconv.Itoa] of an argument, when it is an integer. *)
Definition num_arg (args : list Arg) (i : nat) : string :=
  match args !! i with Some (AInt32 z) => Itoa z | _ => "" end.
Definition addr_arg (args : list Arg) (i : nat) : gmap string string :=
  match args !! i with Some (ASockaddr m) => m | _ => ∅ end.
Definition field (m : gmap string string) (k : string) : string := default "" (m !! k).

(** ** Operation, resource and data *)

Context `{R : GoRange}.

(** The loop over a socket address. *)
Definition addr_resource (m : gmap string string) : string :=
  foldl (λ res kv, if String.eqb res "" then kv.1 +:+ "=" +:+ kv.2
                   else res +:+ " " +:+ kv.1 +:+ "=" +:+ kv.2) "" (go_range m).

(** The outcome of the [switch]: the event is skipped, it is described by an operation, a
    resource and data, or it announces throttling. *)
Inductive Description :=
| Skip
| Described (op resource data : string)
| Threshold.

Definition expect (n : nat) (args : list Arg) (d : Description) : Description :=
  if bool_decide (List.length args = n) then d else Skip.

Definition syscall_data_of (eventID : Z) : string :=
  "syscall=" +:+ GetSyscallName syscalls eventID.

Definition qtype_name (args : list Arg) : string :=
  match args !! 2%nat with
  | Some (AUint16 z) => if z =? 1 then "A" else if z =? 28 then "AAAA" else ""
  | _ => ""
  end.

Definition describe_file (ev : Z) (args : list Arg) : option Description :=
  let sys := syscall_data_of ev in
  if ev =? SysOpen ids then
    Some (expect 2 args (Described "File" (str_arg args 0) (sys +:+ " flags=" +:+ str_arg args 1)))
  else if ev =? SysOpenAt ids then
    Some (expect 3 args (Described "File" (str_arg args 1)
      (sys +:+ " fd=" +:+ num_arg args 0 +:+ " flags=" +:+ str_arg args 2)))
  else if ev =? SysUnlink ids then
    Some (expect 2 args (Described "File" (str_arg args 1) sys))
  else if ev =? SysUnlinkAt ids then
    Some (expect 3 args (Described "File" (str_arg args 1) (sys +:+ " flags=" +:+ str_arg args 2)))
  else if ev =? SysRmdir ids then
    Some (expect 1 args (Described "File" (str_arg args 0) sys))
  else if ev =? SysChown ids then
    Some (expect 3 args (Described "File" (str_arg args 0)
      (sys +:+ " userid=" +:+ Itoa (int_arg args 1) +:+ " group=" +:+ Itoa (int_arg args 2))))
  else if ev =? SysFChownAt ids then
    Some (expect 5 args (Described "File" (str_arg args 1)
      (sys +:+ " userid=" +:+ Itoa (int_arg args 2) +:+ " group=" +:+ Itoa (int_arg args 3)
       +:+ " mode=" +:+ Itoa (int_arg args 4))))
  else None.

Definition describe_sys (ev : Z) (args : list Arg) : option Description :=
  let sys := syscall_data_of ev in
  if (ev =? SysSetuid ids) || (ev =? SysSetgid ids) then
    Some (expect 1 args (Described "Syscall" "" (sys +:+ " userid=" +:+ Itoa (int_arg args 0))))
  else if ev =? SysMount ids then
    Some (expect 5 args (Described "Syscall" ""
      (sys +:+ " source=" +:+ str_arg args 0 +:+ " target=" +:+ str_arg args 1
       +:+ " filesystem=" +:+ str_arg args 2 +:+ " mountflag=" +:+ Itoa (int_arg args 3)
       +:+ " data=" +:+ str_arg args 4)))
  else if ev =? SysUmount ids then
    Some (expect 2 args (Described "Syscall" ""
      (sys +:+ " target=" +:+ str_arg args 0 +:+ " flag=" +:+ Itoa (int_arg args 1))))
  else if ev =? SysClose ids then
    Some (expect 1 args (Described "File" "" (sys +:+ " fd=" +:+ num_arg args 0)))
  else if ev =? SysPtrace ids then
    Some (expect 3 args (Described "Process" (str_arg args 2)
      (sys +:+ " request=" +:+ str_arg args 0 +:+ " pid=" +:+ num_arg args 1
       +:+ " process=" +:+ str_arg args 2)))
  else None.

Definition describe_network (ev : Z) (args : list Arg) : option Description :=
  let sys := syscall_data_of ev in
  if ev =? SysSocket ids then
    Some (expect 3 args (Described "Network"
      ("domain=" +:+ str_arg args 0 +:+ " type=" +:+ str_arg args 1 +:+ " protocol="
       +:+ GetProtocol (int_arg args 2)) sys))
  else if (ev =? TCPConnect) || (ev =? TCPConnectv6) || (ev =? TCPAccept) || (ev =? TCPAcceptv6)
  then
    let sockAddr := addr_arg args 1 in
    Some (expect 2 args (Described "Network"
      ("remoteip=" +:+ field sockAddr "sin_addr" +:+ " port=" +:+ field sockAddr "sin_port"
       +:+ " protocol=" +:+ str_arg args 0)
      ((if (ev =? TCPConnect) || (ev =? TCPConnectv6) then "kprobe=tcp_connect"
        else "kprobe=tcp_accept") +:+ " domain=" +:+ field sockAddr "sa_family")))
  else if (ev =? SysConnect ids) || (ev =? SysAccept ids) || (ev =? SysBind ids) then
    Some (expect 2 args (Described "Network" (addr_resource (addr_arg args 1))
      (sys +:+ " fd=" +:+ num_arg args 0)))
  else if ev =? SysListen ids then
    Some (expect 2 args (Described "Network" "" (sys +:+ " fd=" +:+ num_arg args 0)))
  else None.

(** [domains[:len(domains)-1]] panics when there is no name. *)
Definition describe_dns (args : list Arg) : Res Description :=
  if bool_decide (List.length args = 3%nat) then
    let domains := str_arg args 1 in
    let sockAddr := addr_arg args 0 in
    if nonempty domains then
      Ok (Described "Network" ("sa_family=" +:+ field sockAddr "sa_family" +:+ " sin_port=53")
            ("kfunc=UDP_SENDMSG,domain="
             +:+ String.substring 0 (String.length domains - 1) domains
             +:+ ",daddr=" +:+ field sockAddr "sin_addr" +:+ ",qtype=" +:+ qtype_name args))
    else Panic
  else Ok Skip.

Definition describe (ev : Z) (args : list Arg) : Res Description :=
  match describe_file ev args with
  | Some d => Ok d
  | None =>
      match describe_sys ev args with
      | Some d => Ok d
      | None =>
          match describe_network ev args with
          | Some d => Ok d
          | None =>
              if ev =? UDPSendMsg then describe_dns args
              else Ok (if ev =? DropAlert then Threshold else Skip)
          end
      end
  end.

(** ** The rest of the step *)

(** The fallback for an empty process name; [None] drops the event. *)
Definition fill_process (b : LogBase) : option LogBase :=
  if nonempty (lb_ProcessName b) then Some b
  else if String.eqb (lb_Operation b) "Process" then
    if nonempty (lb_Resource b) then Some (set_ProcessName (first_word (lb_Resource b)) b)
    else None
  else if String.eqb (lb_Operation b) "Network" || String.eqb (lb_Operation b) "File" then
    if nonempty (lb_Source b) then Some (set_ProcessName (first_word (lb_Source b)) b)
    else None
  else Some b.

(** A path that is not absolute is taken from the working directory. *)
Definition full_resource (cwd path : string) : string :=
  if negb (HasPrefix (first_word path) "/") && negb (String.eqb cwd "/")
  then Join cwd path else path.

Definition fill_resource (b : LogBase) : LogBase :=
  if String.eqb (lb_Operation b) "Process" || String.eqb (lb_Operation b) "File"
  then set_request (lb_Operation b) (full_resource (lb_Cwd b) (lb_Resource b)) (lb_Data b) b
  else b.

Definition result_of (retval : Z) : string :=
  if retval <? 0 then
    let message := getErrorMessage retval in
    if nonempty message then message else "Unknown (" +:+ Itoa retval +:+ ")"
  else "Passed".

(** The two fields of [ExecEvent]. *)
Definition exec_event (ctx : SyscallContext) (b : LogBase) : string * string :=
  let comm := array_string (sc_Comm ctx) in
  (Itoa (sc_ExecID ctx), if nonempty comm then comm else (lb_ExecEvent b).2).

(** The second log of an audited call. *)
Definition audited (log : Log) : Log :=
  let b := lg_base log in
  {| lg_base := set_request "Syscall" (lb_Resource b) (lb_Data b) b;
     lg_Type := lg_Type log; lg_PolicyName := lg_PolicyName log;
     lg_Severity := lg_Severity log; lg_Tags := lg_Tags log; lg_ATags := lg_ATags log;
     lg_Message := lg_Message log; lg_Enforcer := lg_Enforcer log; lg_Action := "Audit" |}.

(** The settings that a throttling alert reports. *)
Context (MaxAlertPerSec ThrottleSec : Z).

Definition threshold_log (b : LogBase) : Log :=
  {| lg_base :=
       {| lb_Timestamp := lb_Timestamp b; lb_UpdatedTime := lb_UpdatedTime b;
          lb_ClusterName := lb_ClusterName b; lb_HostName := lb_HostName b;
          lb_NodeID := lb_NodeID b; lb_NamespaceName := lb_NamespaceName b;
          lb_Owner := lb_Owner b; lb_PodName := lb_PodName b; lb_Labels := lb_Labels b;
          lb_ContainerID := lb_ContainerID b; lb_ContainerName := lb_ContainerName b;
          lb_ContainerImage := lb_ContainerImage b; lb_HostPPID := lb_HostPPID b;
          lb_HostPID := lb_HostPID b; lb_PPID := lb_PPID b; lb_PID := lb_PID b;
          lb_UID := lb_UID b; lb_ExecEvent := lb_ExecEvent b;
          lb_ParentProcessName := lb_ParentProcessName b; lb_ProcessName := lb_ProcessName b;
          lb_KubeArmorVersion := lb_KubeArmorVersion b; lb_Source := lb_Source b;
          lb_Operation := "AlertThreshold"; lb_Resource := lb_Resource b; lb_Cwd := lb_Cwd b;
          lb_TTY := lb_TTY b; lb_OID := lb_OID b; lb_Data := lb_Data b;
          lb_Result := lb_Result b; lb_MaxAlertsPerSec := MaxAlertPerSec;
          lb_DroppingAlertsInterval := ThrottleSec; lb_PolicyEnabled := lb_PolicyEnabled b;
          lb_ProcessVisibilityEnabled := lb_ProcessVisibilityEnabled b;
          lb_FileVisibilityEnabled := lb_FileVisibilityEnabled b;
          lb_NetworkVisibilityEnabled := lb_NetworkVisibilityEnabled b;
          lb_CapabilitiesVisibilityEnabled := lb_CapabilitiesVisibilityEnabled b |};
     lg_Type := "SystemEvent"; lg_PolicyName := ""; lg_Severity := ""; lg_Tags := "";
     lg_ATags := []; lg_Message := ""; lg_Enforcer := ""; lg_Action := "" |}.

Definition with_base (b : LogBase) (log : Log) : Log :=
  {| lg_base := b; lg_Type := lg_Type log; lg_PolicyName := lg_PolicyName log;
     lg_Severity := lg_Severity log; lg_Tags := lg_Tags log; lg_ATags := lg_ATags log;
     lg_Message := lg_Message log; lg_Enforcer := lg_Enforcer log; lg_Action := lg_Action log |}.

(** From the described log to what is pushed. *)
Definition finish (ctx : SyscallContext) (log : Log) : list Log :=
  match fill_process (lg_base log) with
  | None => []
  | Some b =>
      let b := fill_resource b in
      let log := with_base (set_outcome (result_of (sc_Retval ctx)) (exec_event ctx b) b) log in
      log :: (if isAuditedSyscall (sc_EventID ctx) &&
                 negb (String.eqb (lb_Operation b) "Syscall") then [audited log] else [])
  end.

(** One turn of [UpdateLogs]: the logs that are pushed, in order. *)
Definition UpdateLogs_step (containers : gmap string Container) (node : NodeFlags)
    (containerID : string) (ctx : SyscallContext) (args : list Arg) (t : Tree)
    : Res (list Log * Tree) :=
  let '(b, t) := BuildLogBase containers node (sc_EventID ctx) containerID ctx true t in
  d ← describe (sc_EventID ctx) args;
  Ok (match d with
      | Skip => []
      | Described op resource data => finish ctx (base_log (set_request op resource data b))
      | Threshold => finish ctx (threshold_log b)
      end, t).
End log_update.
