(* ===== verification/EventLoop.v ===== *)
(** The event loop of the system monitor ([KubeArmor/monitor/systemMonitor.go],
    [TraceSyscall]): it decodes the records of the perf buffer, finds the container of
    each, keeps the process tree and the logs of unfinished executions, and passes the
    other events on to [UpdateLogs].

    One record is one step.  Sends on channels are outputs of the step: a context for
    [UpdateLogs], logs for the feeder, or the raw record for the replay loop. *)
From Stdlib Require Import Ascii String.
From S2P Require Import Prelude GoStrings GoPath Types BpfEnforcer SyscallParser SyscallNumbers NsMap ProcessTree PolicyMatcher LogUpdate.

Open Scope string_scope.
Open Scope Z_scope.
Open Scope list_scope.

Record ContextCombined := {
  cc_ContainerID : string; cc_ContextSys : SyscallContext; cc_ContextArgs : list Arg }.

Section event_loop.
Context (ids : SyscallIDs) (syscalls : gmap Z string).
Context {S : Type}.

(** The monitor's state that events read or change. *)
Record MonState := {
  ms_ns : SystemMonitor (S := S);
  ms_Containers : gmap string Container;
  ms_Node : NodeFlags;
  ms_Untracked : list string;
  ms_Logger : bool;                       (* mon.Logger != nil *)
  ms_Tree : Tree;
  ms_execLogMap : gmap Z LogBase }.

Definition set_Tree (t : Tree) (st : MonState) : MonState :=
  {| ms_ns := ms_ns st; ms_Containers := ms_Containers st; ms_Node := ms_Node st;
     ms_Untracked := ms_Untracked st; ms_Logger := ms_Logger st; ms_Tree := t;
     ms_execLogMap := ms_execLogMap st |}.
Definition set_execLogMap (m : gmap Z LogBase) (st : MonState) : MonState :=
  {| ms_ns := ms_ns st; ms_Containers := ms_Containers st; ms_Node := ms_Node st;
     ms_Untracked := ms_Untracked st; ms_Logger := ms_Logger st; ms_Tree := ms_Tree st;
     ms_execLogMap := m |}.

(** What a record leads to. *)
Inductive Output :=
| Dropped
| Forwarded (c : ContextCombined)         (* to mon.ContextChan *)
| Pushed (log : Log)                      (* mon.Logger.PushLog *)
| Replayed (dataRaw : byte_list).         (* to ReplayChannel *)

(** [now] is the clock of log records, [unix] the one of the process tree. *)
Context (now : Z * string) (unix : Z) (procExe : Z → option string).

(** [ctx.PPID = 0] when it equals the host's. *)
Definition fix_PPID (ctx : SyscallContext) : SyscallContext :=
  if sc_PPID ctx =? sc_HostPPID ctx then
    {| sc_Ts := sc_Ts ctx; sc_PidID := sc_PidID ctx; sc_MntID := sc_MntID ctx;
       sc_HostPPID := sc_HostPPID ctx; sc_HostPID := sc_HostPID ctx; sc_PPID := 0;
       sc_PID := sc_PID ctx; sc_UID := sc_UID ctx; sc_EventID := sc_EventID ctx;
       sc_Argnum := sc_Argnum ctx; sc_Retval := sc_Retval ctx; sc_Comm := sc_Comm ctx;
       sc_Cwd := sc_Cwd ctx; sc_TTY := sc_TTY ctx; sc_OID := sc_OID ctx;
       sc_ExecID := sc_ExecID ctx |}
  else ctx.

(** The event is of a container, by its namespaces. *)
Definition namespaced (ctx : SyscallContext) : bool :=
  negb (sc_PidID ctx =? 0) && negb (sc_MntID ctx =? 0).

Definition container_of (ctx : SyscallContext) (st : MonState) : string :=
  if namespaced ctx then LookupContainerID (sc_PidID ctx) (sc_MntID ctx) (ms_ns st) else "".

Definition untracked (containerID : string) (st : MonState) : bool :=
  nonempty containerID &&
  bool_decide (from_option c_NamespaceName "" (ms_Containers st !! containerID)
               ∈ ms_Untracked st).

(** ** Executions *)

(** The base of the log and the path of an execution that starts. *)
Definition exec_enter (containerID : string) (ctx : SyscallContext) (execPath : string)
    (args : list string) (resource : string → PidNode → string) (data : string)
    (st : MonState) : MonState :=
  let '(b, t) := BuildLogBase ids now procExe (ms_Containers st) (ms_Node st) (sc_EventID ctx)
                   containerID ctx false (ms_Tree st) in
  let execPath := full_resource (lb_Cwd b) execPath in
  let pidNode := BuildPidNode containerID ctx execPath args t in
  set_execLogMap
    (<[sc_HostPID ctx := set_request "Process" (resource execPath pidNode) data b]>
       (ms_execLogMap st))
    (set_Tree (AddActivePid containerID pidNode t) st).

(** The stored log with the outcome; an unknown process has the zero log. *)
Definition exec_return (ctx : SyscallContext) (st : MonState) : MonState * Log :=
  let stored := default zero_LogBase (ms_execLogMap st !! sc_HostPID ctx) in
  let '(b, t) := UpdateLogBase procExe ctx stored (ms_Tree st) in
  (set_execLogMap (delete (sc_HostPID ctx) (ms_execLogMap st)) (set_Tree t st),
   base_log (set_outcome (result_of (sc_Retval ctx)) (exec_event ctx b) b)).

Definition push (st : MonState) (log : Log) : Output :=
  if ms_Logger st then Pushed log else Dropped.

Definition strs_arg (args : list Arg) (i : nat) : list string :=
  match args !! i with Some (AStrings l) => l | _ => [] end.

Definition handle_execve (containerID : string) (ctx : SyscallContext) (args : list Arg)
    (st : MonState) : MonState * Output :=
  match args with
  | [_; _] =>
      (exec_enter containerID ctx (str_arg args 0) (strs_arg args 1)
         (λ path node, if nonempty (pn_Args node) then path +:+ " " +:+ pn_Args node else path)
         (syscall_data_of syscalls (sc_EventID ctx)) st, Dropped)
  | [] => let '(st', log) := exec_return ctx st in (st', push st log)
  | _ => (st, Dropped)
  end.

(** The third argument is a list of strings or, from some kernels, one string. *)
Definition args_2 (args : list Arg) : list string :=
  match args !! 2%nat with Some (AStrings l) => l | Some (AString s) => [s] | _ => [] end.

Definition handle_execveat (containerID : string) (ctx : SyscallContext) (args : list Arg)
    (st : MonState) : MonState * Output :=
  match args with
  | [_; _; _; _] =>
      (exec_enter containerID ctx (str_arg args 1) (args_2 args)
         (λ path _, foldl (λ res arg, res +:+ " " +:+ arg) path (tail (strs_arg args 2)))
         (syscall_data_of syscalls (sc_EventID ctx) +:+ " fd=" +:+ num_arg args 0
          +:+ " flag=" +:+ str_arg args 3) st, Dropped)
  | [] => let '(st', log) := exec_return ctx st in (st', push st log)
  | _ => (st, Dropped)
  end.

(** ** Dispatch *)

(** The argument counts that are checked before an event is passed on. *)
Definition expected_args (ev : Z) : option nat :=
  if ev =? SysOpen ids then Some 2%nat
  else if ev =? SysOpenAt ids then Some 3%nat
  else if ev =? SysUnlink ids then Some 2%nat
  else if ev =? SysUnlinkAt ids then Some 3%nat
  else if ev =? SysRmdir ids then Some 1%nat
  else if ev =? SysPtrace ids then Some 3%nat
  else if ev =? SysChown ids then Some 3%nat
  else if ev =? SysFChownAt ids then Some 5%nat
  else if ev =? SysSetuid ids then Some 1%nat
  else if ev =? SysSetgid ids then Some 1%nat
  else if ev =? SysMount ids then Some 5%nat
  else if ev =? SysUmount ids then Some 2%nat
  else None.

Definition expected_args_late (ev : Z) : option nat :=
  if ev =? TCPConnect then Some 2%nat
  else if ev =? TCPAccept then Some 2%nat
  else if ev =? TCPConnectv6 then Some 2%nat
  else if ev =? UDPSendMsg then Some 3%nat
  else None.

Definition forward (containerID : string) (ctx : SyscallContext) (args : list Arg)
    (expected : option nat) : Output :=
  if match expected with Some n => bool_decide (List.length args = n) | None => true end
  then Forwarded {| cc_ContainerID := containerID; cc_ContextSys := ctx;
                    cc_ContextArgs := args |}
  else Dropped.

(** The chain of conditions on the event; [args[0]] of the execution check panics when
    there is no argument. *)
Definition dispatch (containerID : string) (ctx : SyscallContext) (args : list Arg)
    (st : MonState) : Res (MonState * Output) :=
  let ev := sc_EventID ctx in
  match expected_args ev with
  | Some n => Ok (st, forward containerID ctx args (Some n))
  | None =>
      if ev =? SysExecve ids then Ok (handle_execve containerID ctx args st)
      else if ev =? SysExecveAt ids then Ok (handle_execveat containerID ctx args st)
      else if ev =? DoExit then
        Ok (set_Tree (DeleteActivePid unix containerID ctx (ms_Tree st)) st, Dropped)
      else if ev =? SecurityBprmCheck then
        match args with
        | [] => Panic
        | AString val :: _ =>
            Ok (set_Tree (UpdateExecPath containerID (sc_HostPID ctx) val (ms_Tree st)) st, Dropped)
        | _ => Ok (st, Dropped)
        end
      else Ok (st, forward containerID ctx args (expected_args_late ev))
  end.

(** One record of the perf buffer. *)
Definition TraceSyscall_step (dataRaw : byte_list) (st : MonState) : Res (MonState * Output) :=
  match readContextFromBuff dataRaw with
  | (None, _) => Ok (st, Dropped)
  | (Some ctx, dataBuff) =>
      let ctx := fix_PPID ctx in
      match (GetArgs syscalls (sc_Argnum ctx) dataBuff).1 with
      | None => Ok (st, Dropped)
      | Some args =>
          let containerID := container_of ctx st in
          if untracked containerID st then Ok (st, Dropped)
          else if namespaced ctx && String.eqb containerID "" then Ok (st, Replayed dataRaw)
          else dispatch containerID ctx args st
      end
  end.

(** ** Replay

    A record whose container is not known yet is retried ten times, once a second.  The
    attempts see the container's identifier at their time ([None]: the event has no
    namespaces) and whether the channel has room; the result is the number of times the
    record is sent again. *)
Fixpoint replay (attempts : nat) (see : nat → option string * bool) (i : nat) : nat :=
  match attempts with
  | O => O
  | Datatypes.S n =>
      match see i with
      | (Some "", _) => replay n see (i + 1)
      | (_, true) => Datatypes.S (replay n see (i + 1))
      | (_, false) => replay n see (i + 1)
      end
  end.

Definition replay_loop (see : nat → option string * bool) : nat := replay 10 see 0.
End event_loop.
