(* ===== verification/EventLoopProps.v ===== *)
(** Properties of log records and of the event loop: on which records it panics, that the
    start and the end of an execution are paired, that the logs it makes are accepted by
    the policy matcher, and how often a replayed record is sent. *)
From Stdlib Require Import Ascii String.
From S2P Require Import Prelude GoStrings GoPath Types BpfEnforcer SyscallParser SyscallNumbers NsMap ProcessTree PolicyMatcher PolicyMatcherProps LogUpdate EventLoop.

Open Scope string_scope.
Open Scope Z_scope.
Open Scope list_scope.

(** The two architectures, with their numbers and their names. *)
Definition arch (ids : SyscallIDs) (syscalls : gmap Z string) : Prop :=
  (ids = ids_amd64 ∧ syscalls = syscalls_amd64) ∨ (ids = ids_arm64 ∧ syscalls = syscalls_arm64).

(** ** Panics *)

Section loop.
Context (ids : SyscallIDs) (syscalls : gmap Z string) {S : Type}.
Context (now : Z * string) (unix : Z) (procExe : Z → option string).
Abbreviation MS := (MonState (S := S)).
Abbreviation trace := (TraceSyscall_step ids syscalls (S := S) now unix procExe).

Lemma fix_PPID_event ctx : sc_EventID (fix_PPID ctx) = sc_EventID ctx.
Proof. unfold fix_PPID. by case_bool. Qed.
Lemma fix_PPID_argnum ctx : sc_Argnum (fix_PPID ctx) = sc_Argnum ctx.
Proof. unfold fix_PPID. by case_bool. Qed.
Lemma fix_PPID_hostpid ctx : sc_HostPID (fix_PPID ctx) = sc_HostPID ctx.
Proof. unfold fix_PPID. by case_bool. Qed.
Lemma fix_PPID_container ctx st : container_of (S := S) (fix_PPID ctx) st = container_of ctx st.
Proof. unfold fix_PPID. by case_bool. Qed.
Lemma fix_PPID_namespaced ctx : namespaced (fix_PPID ctx) = namespaced ctx.
Proof. unfold fix_PPID. by case_bool. Qed.

Lemma dispatch_panics c ctx args (st : MS) :
  dispatch ids syscalls now unix procExe c ctx args st = Panic →
  sc_EventID ctx = SecurityBprmCheck ∧ args = [].
Proof.
  unfold dispatch. destruct (expected_args ids _); [done|].
  destruct (sc_EventID ctx =? SysExecve ids); [done|].
  destruct (sc_EventID ctx =? SysExecveAt ids); [done|].
  destruct (sc_EventID ctx =? DoExit); [done|].
  destruct (Z.eqb_spec (sc_EventID ctx) SecurityBprmCheck); [|done].
  by destruct args as [|[] ?].
Qed.

(** A parsed argument list has the announced length. *)
Lemma read_args_length n args b args' b' :
  read_args syscalls n args b = (Some args', b') →
  List.length args' = (List.length args + n)%nat.
Proof.
  revert args b. induction n as [|n IH]; intros args b; cbn [read_args].
  - intros [= <- _]. lia.
  - unfold bind. destruct (readArgFromBuff syscalls b) as [[a|] b1]; [|done].
    intros H%IH. rewrite length_app in H. cbn in H. lia.
Qed.

Lemma GetArgs_nil n b : (GetArgs syscalls n b).1 = Some [] ↔ n ≤ 0.
Proof.
  unfold GetArgs. destruct (read_args syscalls (Z.to_nat n) [] b) as [r b'] eqn:E. cbn. split.
  - intros ->. apply read_args_length in E. cbn in E. lia.
  - intros Hn. replace (Z.to_nat n) with 0%nat in E by lia. cbn in E. by injection E as <- _.
Qed.

(** The event loop panics on exactly one kind of record: an execution check whose
    header announces no arguments, from the host or from a known container of a tracked
    namespace.  On every other sequence of bytes it goes on. *)
Theorem TraceSyscall_panics dataRaw (st : MS) :
  ids = ids_amd64 ∨ ids = ids_arm64 →
  trace dataRaw st = Panic ↔
  ∃ ctx rest, readContextFromBuff dataRaw = (Some ctx, rest) ∧
    sc_EventID ctx = SecurityBprmCheck ∧ sc_Argnum ctx ≤ 0 ∧
    untracked (container_of ctx st) st = false ∧
    (namespaced ctx = true → container_of ctx st ≠ "").
Proof.
  intros Hids. unfold TraceSyscall_step.
  destruct (readContextFromBuff dataRaw) as [[ctx|] rest];
    [|split; [done|by intros (? & ? & [=] & _)]].
  rewrite fix_PPID_argnum, fix_PPID_container, fix_PPID_namespaced. split.
  - destruct ((GetArgs syscalls (sc_Argnum ctx) rest).1) as [args|] eqn:Ha; [|done].
    destruct (untracked _ st) eqn:Hu; [done|].
    destruct (namespaced ctx && _) eqn:Hn; [done|]. intros [Hev ->]%dispatch_panics.
    rewrite fix_PPID_event in Hev. exists ctx, rest. split_and!; [done..|by eapply GetArgs_nil|done|].
    intros Hns. rewrite Hns in Hn. by apply String.eqb_neq.
  - intros (ctx' & rest' & [= <- <-] & Hev & Hn & Hu & Hc).
    rewrite (proj2 (GetArgs_nil (sc_Argnum ctx) rest) Hn), Hu.
    destruct (namespaced ctx && String.eqb (container_of ctx st) "") eqn:E.
    { apply andb_true_iff in E as [E1 E2%String.eqb_eq]. by destruct (Hc E1). }
    unfold dispatch. rewrite fix_PPID_event, Hev. by destruct Hids as [-> | ->].
Qed.

(** ** Executions *)

(** The record starts or ends an execution of a process. *)
Definition executes (h : Z) (dataRaw : byte_list) : bool :=
  match readContextFromBuff dataRaw with
  | (Some ctx, _) => is_exec ids (sc_EventID ctx) && (sc_HostPID ctx =? h)
  | (None, _) => false
  end.

Lemma exec_enter_other c ctx path args res data (st : MS) h :
  sc_HostPID ctx ≠ h →
  ms_execLogMap (exec_enter ids now procExe c ctx path args res data st) !! h =
    ms_execLogMap st !! h.
Proof.
  intros Hne. unfold exec_enter. destruct (BuildLogBase _ _ _ _ _ _ _ _ _ _) as [b t]. cbn.
  by rewrite lookup_insert_ne.
Qed.

Lemma exec_return_other ctx (st : MS) h :
  sc_HostPID ctx ≠ h → ms_execLogMap (exec_return procExe ctx st).1 !! h = ms_execLogMap st !! h.
Proof.
  intros Hne. unfold exec_return. destruct (UpdateLogBase _ _ _ _) as [b t]. cbn.
  by rewrite lookup_delete_ne.
Qed.

Lemma handle_execve_other c ctx args (st : MS) h :
  sc_HostPID ctx ≠ h →
  ms_execLogMap (handle_execve ids syscalls now procExe c ctx args st).1 !! h =
    ms_execLogMap st !! h.
Proof.
  intros Hne. destruct args as [|a [|b [|]]]; try done; cbn [handle_execve].
  - pose proof (exec_return_other ctx st h Hne). by destruct (exec_return procExe ctx st).
  - by apply exec_enter_other.
Qed.

Lemma handle_execveat_other c ctx args (st : MS) h :
  sc_HostPID ctx ≠ h →
  ms_execLogMap (handle_execveat ids syscalls now procExe c ctx args st).1 !! h =
    ms_execLogMap st !! h.
Proof.
  intros Hne. destruct args as [|a [|b [|d [|e [|]]]]]; try done; cbn [handle_execveat].
  - pose proof (exec_return_other ctx st h Hne). by destruct (exec_return procExe ctx st).
  - by apply exec_enter_other.
Qed.

Lemma dispatch_other c ctx args (st st' : MS) o h :
  (is_exec ids (sc_EventID ctx) && (sc_HostPID ctx =? h)) = false →
  dispatch ids syscalls now unix procExe c ctx args st = Ok (st', o) →
  ms_execLogMap st' !! h = ms_execLogMap st !! h.
Proof.
  unfold is_exec, dispatch. intros Hex Hd.
  destruct (expected_args ids _); [by injection Hd as <- _|].
  destruct (sc_EventID ctx =? SysExecve ids).
  { injection Hd as Hd. apply (f_equal fst) in Hd. cbn in Hd, Hex. subst st'.
    apply handle_execve_other. by apply Z.eqb_neq. }
  destruct (sc_EventID ctx =? SysExecveAt ids).
  { injection Hd as Hd. apply (f_equal fst) in Hd. cbn in Hd, Hex. subst st'.
    apply handle_execveat_other. by apply Z.eqb_neq. }
  destruct (sc_EventID ctx =? DoExit); [by injection Hd as <- _|].
  destruct (sc_EventID ctx =? SecurityBprmCheck); [|by injection Hd as <- _].
  destruct args as [|[] ?]; try done; by injection Hd as <- _.
Qed.

Lemma step_other dataRaw (st st' : MS) o h :
  executes h dataRaw = false → trace dataRaw st = Ok (st', o) →
  ms_execLogMap st' !! h = ms_execLogMap st !! h.
Proof.
  unfold executes, TraceSyscall_step.
  destruct (readContextFromBuff dataRaw) as [[ctx|] rest]; [|by intros _ [= <- _]].
  intros Hex. destruct ((GetArgs _ _ _).1) as [args|]; [|by intros [= <- _]].
  case_bool; [by intros [= <- _]|]. case_bool; [by intros [= <- _]|].
  intros Hd. eapply dispatch_other; [|exact Hd]. by rewrite fix_PPID_event, fix_PPID_hostpid.
Qed.

Fixpoint run_records (l : list byte_list) (st : MS) : Res MS :=
  match l with [] => Ok st | r :: l' => s ← trace r st; run_records l' s.1 end.

Lemma run_records_other l st st' h :
  Forall (λ r, executes h r = false) l → run_records l st = Ok st' →
  ms_execLogMap st' !! h = ms_execLogMap st !! h.
Proof.
  revert st. induction l as [|r l IH]; intros st Hl; cbn [run_records]; [by intros [= <-]|].
  apply list.Forall_cons in Hl as [Hr Hl]. intros H. go_res H. destruct a as [st1 o].
  rewrite (IH _ Hl H). by eapply step_other.
Qed.

Lemma UpdateLogBase_request ctx b t :
  let b' := (UpdateLogBase procExe ctx b t).1 in
  lb_Operation b' = lb_Operation b ∧ lb_Resource b' = lb_Resource b ∧
  lb_Data b' = lb_Data b ∧ lb_ContainerID b' = lb_ContainerID b.
Proof.
  unfold UpdateLogBase. destruct (GetExecPath _ _ _ _ _) as [p t1].
  destruct (GetParentExecPath _ _ _ _ _) as [q t2]. cbn. by repeat case_bool.
Qed.

(** C10: The end of an execution is reported with what was recorded at its start, whatever
    other records the monitor handles in between: the log names the executable, with the
    working directory in front if it was relative, and its arguments, the container of the
    start and the outcome of the end; afterwards nothing is stored for the process. *)
Theorem execution_paired c ctx path argv (st0 st1 : MS) o l st2 c' ctx' :
  sc_EventID ctx = SysExecve ids → sc_EventID ctx' = SysExecve ids →
  ids = ids_amd64 ∨ ids = ids_arm64 →
  sc_HostPID ctx' = sc_HostPID ctx → ms_Logger st2 = true →
  dispatch ids syscalls now unix procExe c ctx [AString path; AStrings argv] st0 = Ok (st1, o) →
  Forall (λ r, executes (sc_HostPID ctx) r = false) l → run_records l st1 = Ok st2 →
  ∃ st3 log, dispatch ids syscalls now unix procExe c' ctx' [] st2 = Ok (st3, Pushed log) ∧
    lb_Operation (lg_base log) = "Process" ∧
    lb_Resource (lg_base log) =
      (let p := full_resource (array_string (sc_Cwd ctx) +:+ "/") path in
       let a := join_args argv in if nonempty a then p +:+ " " +:+ a else p) ∧
    lb_ContainerID (lg_base log) = c ∧ lb_Result (lg_base log) = result_of (sc_Retval ctx') ∧
    ms_execLogMap st3 !! sc_HostPID ctx = None.
Proof.
  intros Hev Hev' Hids Hpid Hlog Hd Hl Hrun. unfold dispatch in Hd |- *.
  assert (expected_args ids (SysExecve ids) = None ∧ (SysExecve ids =? DropAlert) = false)
    as [Hexp Hdrop] by by destruct Hids as [-> | ->].
  rewrite Hev, Hexp, Z.eqb_refl in Hd. rewrite Hev', Hexp, Z.eqb_refl.
  cbn [handle_execve] in Hd |- *. injection Hd as Hst1 _.
  assert (∃ b, ms_execLogMap st1 !! sc_HostPID ctx = Some b ∧ lb_Operation b = "Process" ∧
    lb_Resource b = (let p := full_resource (array_string (sc_Cwd ctx) +:+ "/") path in
       let a := join_args argv in if nonempty a then p +:+ " " +:+ a else p) ∧
    lb_ContainerID b = c) as (b & Hb & Hop & Hres & Hc).
  { subst st1. unfold exec_enter, BuildLogBase. rewrite Hev.
    rewrite Hdrop.
    destruct (if _ : bool then process_fields _ _ _ _ _ _ else _) as [[[p1 p2] p3] t].
    eexists. cbn. rewrite lookup_insert_eq. done. }
  rewrite <- (run_records_other l st1 st2 (sc_HostPID ctx) Hl Hrun) in Hb.
  unfold exec_return. rewrite Hpid, Hb. change (default zero_LogBase (Some b)) with b.
  pose proof (UpdateLogBase_request ctx' b (ms_Tree st2)) as (U1 & U2 & U3 & U4).
  destruct (UpdateLogBase procExe ctx' b (ms_Tree st2)) as [b' t'].
  unfold push. rewrite Hlog. do 2 eexists. split; [reflexivity|]. cbn in *.
  rewrite U1, U2, U4, lookup_delete_eq. done.
Qed.
End loop.

(** ** From the monitor to the matcher *)

Section logs.
Context (ids : SyscallIDs) (syscalls : gmap Z string).
Context (now : Z * string) (procExe : Z → option string) `{R : GoRange} (M TS : Z).

(** Nothing, or something after a blank. *)
Definition tail_word (rest : string) : Prop := rest = "" ∨ ∃ r, rest = " " +:+ r.

Lemma first_word_tail a rest :
  char_in " "%char a = false → tail_word rest → first_word (a +:+ rest) = a.
Proof.
  intros Ha [->|[r ->]]; unfold first_word.
  - rewrite string_app_nil_r. by rewrite split_no_sep.
  - change (" " +:+ r) with (String " " r). by rewrite split_app_sep, split_no_sep.
Qed.

(** Events that are not system calls: connections and name lookups. *)
Definition probe_event (ev : Z) : bool :=
  (ev =? TCPConnect) || (ev =? TCPConnectv6) || (ev =? TCPAccept) || (ev =? TCPAcceptv6) ||
  (ev =? UDPSendMsg).

(** The data of a described system call start with its name, and only four calls are
    described as the operation "Syscall". *)
Definition described_ok (ev : Z) (d : Description) : Prop :=
  match d with
  | Described op _ data =>
      (op = "Syscall" → ev ∈ [SysSetuid ids; SysSetgid ids; SysMount ids; SysUmount ids]) ∧
      (probe_event ev = true ∧ op = "Network" ∨
       ∃ rest, tail_word rest ∧ data = syscall_data_of syscalls ev +:+ rest)
  | Threshold => ev = DropAlert
  | Skip => True
  end.

Ltac name_first :=
  right; first [ exists ""; rewrite string_app_nil_r; split; [by left|reflexivity]
               | eexists; split; [right; eexists; reflexivity|reflexivity] ].

Lemma expect_ok ev n args d : described_ok ev d → described_ok ev (expect n args d).
Proof. unfold expect. by case_bool. Qed.

Lemma describe_file_ok ev args d : describe_file ids syscalls ev args = Some d → described_ok ev d.
Proof.
  unfold describe_file. intros H.
  repeat (case_bool; [injection H as <-; apply expect_ok; split; [done|name_first]|]). done.
Qed.

Lemma describe_sys_ok ev args d : describe_sys ids syscalls ev args = Some d → described_ok ev d.
Proof.
  unfold describe_sys. intros H. case_bool.
  { injection H as <-. apply expect_ok. split; [|name_first]. intros _.
    rewrite !elem_of_cons. apply orb_true_iff in Heqb as [->%Z.eqb_eq | ->%Z.eqb_eq]; auto. }
  case_bool.
  { injection H as <-. apply expect_ok. split; [|name_first]. intros _.
    rewrite !elem_of_cons. apply Z.eqb_eq in Heqb0 as ->. auto. }
  case_bool.
  { injection H as <-. apply expect_ok. split; [|name_first]. intros _.
    rewrite !elem_of_cons. apply Z.eqb_eq in Heqb1 as ->. auto. }
  repeat (case_bool; [injection H as <-; apply expect_ok; split; [done|name_first]|]). done.
Qed.

Lemma describe_network_ok ev args d :
  describe_network ids syscalls ev args = Some d → described_ok ev d.
Proof.
  unfold describe_network. intros H.
  case_bool; [injection H as <-; apply expect_ok; split; [done|name_first]|].
  destruct (_ || (ev =? TCPAcceptv6)) eqn:E in H.
  { injection H as <-. apply expect_ok. split; [done|]. left. split; [|done].
    unfold probe_event. by rewrite E. }
  repeat (case_bool; [injection H as <-; apply expect_ok; split; [done|name_first]|]). done.
Qed.

Lemma describe_ok ev args d : describe ids syscalls ev args = Ok d → described_ok ev d.
Proof.
  unfold describe. destruct (describe_file _ _ _ _) eqn:E1.
  { intros [= <-]. by apply (describe_file_ok _ args). }
  destruct (describe_sys _ _ _ _) eqn:E2.
  { intros [= <-]. by apply (describe_sys_ok _ args). }
  destruct (describe_network _ _ _ _) eqn:E3.
  { intros [= <-]. by apply (describe_network_ok _ args). }
  destruct (Z.eqb_spec ev UDPSendMsg) as [->|].
  2: { intros [= <-]. by destruct (Z.eqb_spec ev DropAlert). }
  unfold describe_dns. case_bool; [|by intros [= <-]]. case_bool; [|done]. intros [= <-].
  split; [done|]. by left.
Qed.

(** A system call whose name the matcher can find in the data. *)
Definition good_event (ev : Z) : bool :=
  Contains (syscall_data_of syscalls ev) "SYS_" &&
  negb (char_in " "%char (syscall_data_of syscalls ev)) && negb (probe_event ev).

Lemma good_events ev :
  arch ids syscalls →
  ev ∈ [SysSetuid ids; SysSetgid ids; SysMount ids; SysUmount ids] ∨
  isAuditedSyscall ev = true → good_event ev = true.
Proof.
  intros Harch Hev.
  set (evs := (map_to_list auditedSyscalls).*1 ++
              [SysSetuid ids; SysSetgid ids; SysMount ids; SysUmount ids]).
  assert (forallb good_event evs = true) as Hall
    by (unfold evs, good_event; by destruct Harch as [[-> ->]|[-> ->]]; vm_compute).
  rewrite List.forallb_forall in Hall. apply Hall, list_elem_of_In, elem_of_app.
  destruct Hev as [Hev|Hev]; [by right|left]. unfold isAuditedSyscall in Hev.
  destruct (auditedSyscalls !! ev) as [n|] eqn:E; [|done].
  apply list_elem_of_fmap. exists (ev, n). by rewrite elem_of_map_to_list.
Qed.

(** The name is found in the data of a described event that is matched as a system call. *)
Lemma described_syscall ev op resource data :
  arch ids syscalls → described_ok ev (Described op resource data) →
  op = "Syscall" ∨ isAuditedSyscall ev = true → Contains (first_word data) "SYS_" = true.
Proof.
  intros Harch [Hop Hdata] Hev.
  assert (good_event ev = true) as Hg
    by (apply good_events; [done|]; destruct Hev; [left; by apply Hop|by right]).
  unfold good_event in Hg. rewrite !andb_true_iff, !negb_true_iff in Hg.
  destruct Hg as [[Hc Hb] Hp]. destruct Hdata as [[Hp' _]|(rest & Hr & ->)]; [congruence|].
  by rewrite first_word_tail.
Qed.

Lemma fill_process_request b b' :
  fill_process b = Some b' → lb_Operation b' = lb_Operation b ∧ lb_Data b' = lb_Data b.
Proof. unfold fill_process. repeat case_bool; by intros [= <-]. Qed.

Lemma fill_resource_request b :
  lb_Operation (fill_resource b) = lb_Operation b ∧ lb_Data (fill_resource b) = lb_Data b.
Proof. unfold fill_resource. by case_bool. Qed.

Lemma audited_data log :
  lb_Operation (lg_base (audited log)) = "Syscall" ∧
  lb_Data (lg_base (audited log)) = lb_Data (lg_base log).
Proof. done. Qed.

(** What is pushed for an event keeps its type, and the matcher accepts it. *)
Lemma finish_data ctx log :
  (lb_Operation (lg_base log) = "Syscall" ∨ isAuditedSyscall (sc_EventID ctx) = true →
   Contains (first_word (lb_Data (lg_base log))) "SYS_" = true) →
  Forall (λ l, syscall_data (lg_base l)) (finish ctx log).
Proof.
  intros H. unfold finish. destruct (fill_process (lg_base log)) as [b|] eqn:E; [|constructor].
  apply fill_process_request in E as [Eo Ed]. destruct (fill_resource_request b) as [Fo Fd].
  constructor.
  - intros Hop. cbn in Hop |- *. rewrite Fd, Ed. apply H. left. by rewrite <- Eo, <- Fo.
  - case_bool; [|constructor]. apply andb_true_iff in Heqb0 as [Ha _].
    apply list.Forall_singleton. intros _. cbn. rewrite Fd, Ed. apply H. by right.
Qed.

(** C36: On both architectures, the matcher can handle whatever the monitor pushes: for any
    event and arguments, matching the logs of [UpdateLogs] against well-formed policies
    does not panic.  The step itself panics exactly on a name lookup without a name. *)
Theorem monitor_logs_matched {Rx} (MatchString : Rx → string → bool) containers node c ctx args t fd :
  arch ids syscalls → wf_feeder (Rx := Rx) fd →
  (UpdateLogs_step ids syscalls now procExe M TS containers node c ctx args t = Panic →
   sc_EventID ctx = UDPSendMsg ∧ List.length args = 3%nat ∧ str_arg args 1 = "") ∧
  ∀ logs t', UpdateLogs_step ids syscalls now procExe M TS containers node c ctx args t = Ok (logs, t') →
    Forall (λ log, ∃ r, UpdateMatchedPolicy MatchString log fd = Ok r) logs.
Proof.
  intros Harch Hfd. unfold UpdateLogs_step.
  destruct (BuildLogBase _ _ _ _ _ _ _ _ _ _) as [b t1]. split.
  - destruct (describe _ _ _ _) eqn:E; [done|]. intros _. revert E.
    unfold describe. repeat (destruct (_ : option Description); [done|]).
    destruct (Z.eqb_spec (sc_EventID ctx) UDPSendMsg); [|done]. unfold describe_dns.
    case_bool_decide; [|done]. unfold nonempty. case_bool_decide; [done|]. intros _.
    split_and!; [done..|]. destruct (str_arg args 1); [done|cbn in *; lia].
  - intros logs t' H. go_res H. injection H as <- _. apply describe_ok in Ha.
    eapply (list.Forall_impl (λ l, syscall_data (lg_base l))).
    + destruct a as [|op resource data|]; [constructor| |].
      * apply finish_data. intros Hev. by eapply described_syscall.
      * apply finish_data. cbn in Ha. rewrite Ha. by intros [?|?].
    + intros log Hlog. destruct (UpdateMatchedPolicy_okP MatchString log fd Hfd Hlog) as (r & ? & _).
      by exists r.
Qed.

Lemma finish_same_data ctx log :
  Forall (λ l, lb_Data (lg_base l) = lb_Data (lg_base log)) (finish ctx log).
Proof.
  unfold finish. destruct (fill_process (lg_base log)) as [b|] eqn:E; [|constructor].
  apply fill_process_request in E as [_ Ed]. destruct (fill_resource_request b) as [_ Fd].
  constructor; [cbn; congruence|]. case_bool; [|constructor].
  apply list.Forall_singleton. cbn. congruence.
Qed.

(** The calls whose number on arm64 is that of another call there. *)
Definition arm64_wrong : list Z := [SysMount ids_arm64; SysUmount ids_arm64; SysPtrace ids_arm64].
Definition arm64_names : list string := ["MOUNT"; "UMOUNT"; "UMOUNT2"; "PTRACE"].

(** The name that the matcher reads from data that start with a system call. *)
Lemma syscall_name_data log ev rest :
  lb_Data (lg_base log) = syscall_data_of syscalls ev +:+ rest → tail_word rest →
  char_in " "%char (syscall_data_of syscalls ev) = false →
  syscall_name log = match split_str "SYS_" (syscall_data_of syscalls ev) with
                     | _ :: name :: _ => Ok name
                     | _ => Panic
                     end.
Proof. intros Hd Ht Hc. unfold syscall_name. by rewrite Hd, first_word_tail. Qed.

Lemma arm64_name ev :
  ev ∈ arm64_wrong →
  char_in " "%char (syscall_data_of syscalls_arm64 ev) = false ∧ probe_event ev = false ∧
  ∃ name, split_str "SYS_" (syscall_data_of syscalls_arm64 ev) = ["syscall="; name] ∧
          name ∉ arm64_names.
Proof.
  unfold arm64_wrong. rewrite !elem_of_cons. intros [->|[->|[->|[]%not_elem_of_nil]]];
    (split; [by vm_compute|]; split; [done|]; eexists; split; [by vm_compute|]);
    unfold arm64_names; rewrite !not_elem_of_cons; split_and!; try done; apply not_elem_of_nil.
Qed.

(** On arm64 a system-call rule on mount, umount or ptrace matches none of these events:
    their numbers are those of x86, so the data name other calls; and unlinkat and
    fchownat are never reported as system calls, as they are on x86. *)
Theorem arm64_calls_unmatched {Rx} containers node c ctx args t (sp : MatchPolicy) :
  syscalls = syscalls_arm64 → ids = ids_arm64 → sc_EventID ctx ∈ arm64_wrong →
  mp_ResourceType (Rx := Rx) sp ∈ arm64_names →
  (∀ logs t', UpdateLogs_step ids syscalls now procExe M TS containers node c ctx args t =
              Ok (logs, t') → Forall (λ log, syscall_turn sp log = Ok log) logs) ∧
  isAuditedSyscall (SysUnlinkAt ids_arm64) = false ∧
  isAuditedSyscall (SysFChownAt ids_arm64) = false ∧
  isAuditedSyscall (SysUnlinkAt ids_amd64) = true ∧
  isAuditedSyscall (SysFChownAt ids_amd64) = true.
Proof.
  intros Hsys Hids Hev Hsp. split_and!; [|by vm_compute..].
  destruct (arm64_name _ Hev) as (Hb & Hp & name & Hname & Hne). rewrite <- Hsys in Hb, Hname.
  intros logs t' H. unfold UpdateLogs_step in H.
  destruct (BuildLogBase _ _ _ _ _ _ _ _ _ _) as [b t1]. go_res H. injection H as <- _.
  apply describe_ok in Ha. destruct a as [|op resource data|].
  - constructor.
  - destruct Ha as [_ [[Hp' _]|(rest & Hr & ->)]]; [congruence|].
    eapply list.Forall_impl; [apply finish_same_data|]. intros l Hl. cbn in Hl.
    unfold syscall_turn. rewrite (syscall_name_data l _ _ Hl Hr Hb), Hname. cbn [mbind Res_bind].
    destruct (String.eqb_spec name (mp_ResourceType sp)); [|done]. by subst name.
  - cbn in Ha. rewrite Ha in Hev.
    assert (bool_decide (DropAlert ∈ arm64_wrong) = true) as E by by apply bool_decide_eq_true_2.
    by vm_compute in E.
Qed.
End logs.

(** ** Relative paths *)

Lemma Clean_dir_app ws ps :
  Forall (λ c, plain c = true) ws → Forall (λ c, plain c = true) ps → ps ≠ [] →
  Clean ((abs_dir ws +:+ "/") +:+ join "/" ps) = abs_path (ws ++ ps).
Proof.
  intros Hws Hps Hne. unfold Clean. assert (HasPrefix ((abs_dir ws +:+ "/") +:+ join "/" ps) "/" = true) as ->.
  { apply HasPrefix_app. exists ((join "/" (ws ++ [""]) +:+ "/") +:+ join "/" ps).
    unfold abs_dir. rewrite join_cons; [by rewrite !string_app_assoc|by destruct ws]. }
  rewrite string_app_assoc. change ("/" +:+ join "/" ps) with (String slash (join "/" ps)).
  rewrite split_app_sep, split_abs_dir by done.
  rewrite (split_join slash) by (first [done|by apply plain_all_no_slash]).
  rewrite foldl_app. cbn [foldl]. rewrite foldl_app.
  change (clean_step true [] "") with (@nil string). rewrite (clean_plain _ ws) by done.
  rewrite app_nil_r. cbn [foldl]. change (clean_step true (rev ws) "") with (rev ws).
  rewrite (clean_plain _ ps), rev_app_distr, !rev_involutive by done.
  unfold abs_path. rewrite join_cons; [done|]. by destruct ws.
Qed.

(** A second slash at the front makes no difference. *)
Lemma Clean_slash p : HasPrefix p "/" = true → Clean ("/" +:+ p) = Clean p.
Proof.
  intros H. unfold Clean. rewrite H.
  assert (HasPrefix ("/" +:+ p) "/" = true) as -> by (apply HasPrefix_app; by exists p).
  done.
Qed.

(** A path that is not absolute is resolved against the working directory of the
    process: for clean components the resource is the absolute path with the components
    of both, also when that directory is the root.  An absolute path is left as it is, and
    so is a relative one when the directory is not known. *)
Theorem relative_path_resolved ws ps path :
  Forall (λ c, plain c = true) ws → Forall (λ c, plain c = true) ps → ps ≠ [] → ws ≠ [] →
  full_resource (abs_path ws +:+ "/") (join "/" ps) = abs_path (ws ++ ps) ∧
  full_resource ("/" +:+ "/") (join "/" ps) = abs_path ps ∧
  full_resource ("" +:+ "/") (join "/" ps) = join "/" ps ∧
  ∀ cwd, full_resource cwd ("/" +:+ path) = "/" +:+ path.
Proof.
  intros Hws Hps Hp Hw.
  assert (HasPrefix (first_word (join "/" ps)) "/" = false) as Hrel.
  { destruct ps as [|p ps]; [done|]. apply list.Forall_cons in Hps as [Hps _].
    apply not_true_is_false. intros [r Hr]%HasPrefix_app.
    assert (∃ q, join "/" (p :: ps) = first_word (join "/" (p :: ps)) +:+ q) as [q Hq].
    { unfold first_word. pose proof (join_split " "%char (join "/" (p :: ps))) as E.
      destruct (split_cons " "%char (join "/" (p :: ps))) as (h & l & Hs). rewrite Hs in E |- *.
      cbn [hd]. destruct l as [|y l]; [exists ""; by rewrite string_app_nil_r|].
      rewrite join_cons in E by done. by eexists. }
    rewrite Hr in Hq. unfold plain in Hps. destruct p as [|c p]; [done|].
    assert (c = "/"%char) as -> by (destruct ps; cbn in Hq; congruence). done. }
  unfold full_resource. rewrite Hrel. cbn [negb andb]. rewrite <- abs_dir_snoc. split_and!.
  - assert (String.eqb (abs_dir ws) "/" = false) as ->.
    { apply String.eqb_neq. intros H. apply (f_equal (split slash)) in H.
      rewrite split_abs_dir in H by done. by destruct ws as [|? [|]]. }
    cbn [negb]. unfold Join. assert (String.eqb (abs_dir ws) "" = false) as ->.
    { apply String.eqb_neq. rewrite abs_dir_snoc. by destruct (abs_path ws). }
    rewrite <- Clean_dir_app by done. by rewrite string_app_assoc.
  - change (Join ("/" +:+ "/") (join "/" ps) = abs_path ps). unfold Join.
    change (Clean ("/" +:+ (("/" +:+ "/") +:+ join "/" ps)) = abs_path ps).
    rewrite Clean_slash by (apply HasPrefix_app; by eexists).
    by apply (Clean_dir_app []).
  - done.
  - intros cwd. assert (HasPrefix (first_word ("/" +:+ path)) "/" = true) as ->; [|done].
    unfold first_word. cbn. destruct (split_cons " "%char path) as (h & l & ->).
    apply HasPrefix_app. by exists h.
Qed.

(** ** Replay *)

Lemma replay_unknown n see i :
  (∀ j, (i ≤ j < i + n)%nat → (see j).1 = Some "") → replay n see i = 0%nat.
Proof.
  revert i. induction n as [|n IH]; intros i H; cbn [replay]; [done|].
  pose proof (H i ltac:(lia)) as Hi. destruct (see i) as [o b]. cbn in Hi. subst o.
  apply IH. intros j Hj. apply H. lia.
Qed.

Lemma replay_known n c see i :
  c ≠ "" → (∀ j, (i ≤ j < i + n)%nat → see j = (Some c, true)) → replay n see i = n.
Proof.
  intros Hc. revert i. induction n as [|n IH]; intros i H; cbn [replay]; [done|].
  rewrite (H i) by lia. destruct c; [done|]. f_equal. apply IH. intros j Hj. apply H. lia.
Qed.

Lemma replay_add a b see i : replay (a + b) see i = (replay a see i + replay b see (i + a))%nat.
Proof.
  revert i. induction a as [|a IH]; intros i; cbn [replay Nat.add]; [by rewrite Nat.add_0_r|].
  rewrite IH. replace (i + 1 + a)%nat with (i + Datatypes.S a)%nat by lia.
  destruct (see i) as [[[|]|] []]; cbn; lia.
Qed.

(** A record that waits for its container is not sent once when the container is found:
    it is sent again at each of the remaining attempts.  If the container is known from
    the [k]-th attempt on and the channel has room, the record is handled [10 - k] times. *)
Theorem replay_repeats k c see :
  (k ≤ 10)%nat → c ≠ "" → (∀ i, (i < k)%nat → (see i).1 = Some "") →
  (∀ i, (k ≤ i < 10)%nat → see i = (Some c, true)) → replay_loop see = (10 - k)%nat.
Proof.
  intros Hk Hc Hbefore Hafter. unfold replay_loop.
  replace 10%nat with (k + (10 - k))%nat at 1 by lia. rewrite replay_add.
  rewrite replay_unknown by (intros; apply Hbefore; lia).
  rewrite (replay_known _ c) by (try done; intros; apply Hafter; lia). done.
Qed.

(** ** Concrete inputs *)

Definition sample_ctx (ev hostpid retval : Z) (cwd : string) : SyscallContext :=
  {| sc_Ts := 0; sc_PidID := 0; sc_MntID := 0; sc_HostPPID := 1; sc_HostPID := hostpid;
     sc_PPID := 0; sc_PID := 5; sc_UID := 0; sc_EventID := ev; sc_Argnum := 2;
     sc_Retval := retval; sc_Comm := bytes_of "sh"; sc_Cwd := bytes_of cwd; sc_TTY := [];
     sc_OID := 0; sc_ExecID := 9 |}.

Definition sample_flags : NodeFlags :=
  {| nf_PolicyEnabled := 1; nf_Process := true; nf_File := true; nf_Network := true;
     nf_Capabilities := true |}.

Definition sample_monitor : MonState (S := unit) :=
  {| ms_ns := {| mon_NsMap := ∅; mon_NamespacePidsMap := ∅; mon_store := tt |};
     ms_Containers := ∅; ms_Node := sample_flags; ms_Untracked := ["kube-system"];
     ms_Logger := true; ms_Tree := ∅; ms_execLogMap := ∅ |}.

Definition no_exe (pid : Z) : option string := None.
Definition epoch : Z * string := (0, "1970-01-01T00:00:00.000000Z").

(** A header of the host for an execution check (352 is 0x160) without arguments. *)
Definition empty_check : byte_list :=
  replicate 36 nul ++ [ascii_of_nat 96; ascii_of_nat 1] ++ replicate 186 nul.

Lemma TraceSyscall_panics_witness :
  TraceSyscall_step ids_amd64 syscalls_amd64 epoch 0 no_exe empty_check sample_monitor = Panic.
Proof.
  apply (TraceSyscall_panics ids_amd64 syscalls_amd64 epoch 0 no_exe empty_check sample_monitor).
  - by left.
  - destruct (readContextFromBuff empty_check) as [[ctx|] rest] eqn:E; [|by vm_compute in E].
    exists ctx, rest. split; [done|]. vm_compute in E. injection E as <- _.
    split; [reflexivity|]. split; [vm_compute; discriminate|].
    split; [reflexivity|]. vm_compute. discriminate.
Defined.

(** The exit of some other process (351 is 0x15f). *)
Definition exit_record : byte_list :=
  replicate 36 nul ++ [ascii_of_nat 95; ascii_of_nat 1] ++ replicate 186 nul.

(** The state after the start of [./run -v] in [/srv]. *)
Definition started : MonState (S := unit) :=
  (handle_execve ids_amd64 syscalls_amd64 epoch no_exe ""
     (sample_ctx 59 42 0 "/srv") [AString "./run"; AStrings ["./run"; "-v"]] sample_monitor).1.

Lemma execution_paired_witness :
  ∃ st3 log,
    dispatch ids_amd64 syscalls_amd64 epoch 0 no_exe "" (sample_ctx 59 42 (-2) "/srv") [] started =
      Ok (st3, Pushed log) ∧
    lb_Operation (lg_base log) = "Process" ∧
    lb_Resource (lg_base log) =
      (let p := full_resource (array_string (bytes_of "/srv") +:+ "/") "./run" in
       let a := join_args ["./run"; "-v"] in if nonempty a then p +:+ " " +:+ a else p) ∧
    lb_ContainerID (lg_base log) = "" ∧ lb_Result (lg_base log) = result_of (-2) ∧
    ms_execLogMap st3 !! 42 = None.
Proof.
  apply (execution_paired ids_amd64 syscalls_amd64 epoch 0 no_exe ""
           (sample_ctx 59 42 0 "/srv") "./run" ["./run"; "-v"] sample_monitor started Dropped
           [exit_record] started "" (sample_ctx 59 42 (-2) "/srv")).
  - reflexivity.
  - reflexivity.
  - by left.
  - reflexivity.
  - reflexivity.
  - vm_compute. reflexivity.
  - constructor; [vm_compute; reflexivity|constructor].
  - vm_compute. reflexivity.
Defined.

Lemma monitor_logs_matched_witness :
  (UpdateLogs_step (R := canonical_range) ids_amd64 syscalls_amd64 epoch no_exe 10 30 ∅
     sample_flags "" (sample_ctx 87 42 0 "/srv") [AInt32 3; AString "a"] ∅ = Panic →
   sc_EventID (sample_ctx 87 42 0 "/srv") = UDPSendMsg ∧
   List.length [AInt32 3; AString "a"] = 3%nat ∧ str_arg [AInt32 3; AString "a"] 1 = "") ∧
  ∀ logs t',
    UpdateLogs_step (R := canonical_range) ids_amd64 syscalls_amd64 epoch no_exe 10 30 ∅
      sample_flags "" (sample_ctx 87 42 0 "/srv") [AInt32 3; AString "a"] ∅ = Ok (logs, t') →
    Forall (λ log, ∃ r, UpdateMatchedPolicy never log (sample_feeder "block" [keys_rule]) = Ok r)
      logs.
Proof.
  apply (monitor_logs_matched (R := canonical_range) ids_amd64 syscalls_amd64 epoch no_exe 10 30).
  - by left.
  - apply sample_feeder_wf. constructor; [apply sample_rule_wf|constructor].
Defined.

Definition mount_rule : @MatchPolicy unit :=
  base_match "no-mount" "" 5 [] "" "Syscall" "MOUNT" "" "Audit" false false false.

Lemma arm64_calls_unmatched_witness :
  let args := [AString "/dev/sda"; AString "/mnt"; AString "ext4"; AInt32 0; AString ""] in
  (∀ logs t',
     UpdateLogs_step (R := canonical_range) ids_arm64 syscalls_arm64 epoch no_exe 10 30 ∅
       sample_flags "" (sample_ctx 165 42 0 "/srv") args ∅ = Ok (logs, t') →
     Forall (λ log, syscall_turn mount_rule log = Ok log) logs) ∧
  isAuditedSyscall (SysUnlinkAt ids_arm64) = false ∧
  isAuditedSyscall (SysFChownAt ids_arm64) = false ∧
  isAuditedSyscall (SysUnlinkAt ids_amd64) = true ∧
  isAuditedSyscall (SysFChownAt ids_amd64) = true.
Proof.
  intros args.
  apply (arm64_calls_unmatched (R := canonical_range) ids_arm64 syscalls_arm64 epoch no_exe 10 30
           ∅ sample_flags "" (sample_ctx 165 42 0 "/srv") args ∅ mount_rule).
  - reflexivity.
  - reflexivity.
  - left.
  - left.
Defined.

Lemma relative_path_resolved_witness :
  full_resource (abs_path ["srv"; "app"] +:+ "/") (join "/" ["etc"; "conf"]) =
    abs_path (["srv"; "app"] ++ ["etc"; "conf"]) ∧
  full_resource ("/" +:+ "/") (join "/" ["etc"; "conf"]) = abs_path ["etc"; "conf"] ∧
  full_resource ("" +:+ "/") (join "/" ["etc"; "conf"]) = join "/" ["etc"; "conf"] ∧
  ∀ cwd, full_resource cwd ("/" +:+ "x") = "/" +:+ "x".
Proof.
  apply (relative_path_resolved ["srv"; "app"] ["etc"; "conf"] "x");
    [repeat constructor|repeat constructor|discriminate|discriminate].
Defined.

Lemma replay_repeats_witness :
  replay_loop (λ i, (Some (if bool_decide (i < 3)%nat then "" else "c1"), true)) = 7%nat.
Proof.
  apply (replay_repeats 3 "c1").
  - lia.
  - discriminate.
  - intros i Hi. by rewrite bool_decide_eq_true_2.
  - intros i Hi. rewrite bool_decide_eq_false_2 by lia. reflexivity.
Defined.
