(* ===== verification/PolicySpec.v ===== *)
(** From custom resources to policies ([KubeArmor/core/kubeUpdate.go],
    [CreateSecurityPolicy], and the same steps for host and container policies).

    A policy's rules inherit severity, tags, message and action from their section
    and from the policy.  The Go code writes the four cases out for each of the ten
    kinds of rules; here [RuleAttrs] says where a kind of rule keeps its attributes
    and [fill] is the common body.  The list of namespaces that Kubernetes answers is
    an argument ([None] is an error), as are the JSON functions under [kl.Clone]. *)
From Stdlib Require Import Ascii String.
From S2P Require Import Prelude GoStrings Types Common.

Open Scope string_scope.

(** ** Attributes of rules, sections and policies *)

Record Attrs := {
  at_Severity : Z; at_Tags : list string; at_Message : string; at_Action : string }.

Definition inherit_severity (own section spec : Z) : Z :=
  if (own =? 0)%Z then if (section =? 0)%Z then spec else section else own.
Definition inherit_tags (own section spec : list string) : list string :=
  match own with
  | [] => match section with [] => spec | _ => section end
  | _ => own
  end.
Definition inherit_string (own section spec : string) : string :=
  if String.eqb own "" then if String.eqb section "" then spec else section else own.

(** The four assignments of one turn of the loops *)
Definition inherit (own section spec : Attrs) : Attrs := {|
  at_Severity := inherit_severity (at_Severity own) (at_Severity section) (at_Severity spec);
  at_Tags := inherit_tags (at_Tags own) (at_Tags section) (at_Tags spec);
  at_Message := inherit_string (at_Message own) (at_Message section) (at_Message spec);
  at_Action := inherit_string (at_Action own) (at_Action section) (at_Action spec) |}.

Class RuleAttrs (A : Type) := {
  attrs : A → Attrs;
  set_attrs : Attrs → A → A }.

#[export] Instance ProcessPathType_attrs : RuleAttrs ProcessPathType := {
  attrs := λ x, {| at_Severity := ppt_Severity x; at_Tags := ppt_Tags x;
                   at_Message := ppt_Message x; at_Action := ppt_Action x |};
  set_attrs := λ a x, {| ppt_Path := ppt_Path x; ppt_ExecName := ppt_ExecName x;
    ppt_OwnerOnly := ppt_OwnerOnly x; ppt_FromSource := ppt_FromSource x;
    ppt_AllowedArgs := ppt_AllowedArgs x; ppt_Severity := at_Severity a;
    ppt_Tags := at_Tags a; ppt_Message := at_Message a; ppt_Action := at_Action a |} }.

#[export] Instance ProcessDirectoryType_attrs : RuleAttrs ProcessDirectoryType := {
  attrs := λ x, {| at_Severity := pdt_Severity x; at_Tags := pdt_Tags x;
                   at_Message := pdt_Message x; at_Action := pdt_Action x |};
  set_attrs := λ a x, {| pdt_Directory := pdt_Directory x;
    pdt_Recursive := pdt_Recursive x; pdt_OwnerOnly := pdt_OwnerOnly x;
    pdt_FromSource := pdt_FromSource x; pdt_Severity := at_Severity a;
    pdt_Tags := at_Tags a; pdt_Message := at_Message a; pdt_Action := at_Action a |} }.

#[export] Instance ProcessPatternType_attrs : RuleAttrs ProcessPatternType := {
  attrs := λ x, {| at_Severity := pat_Severity x; at_Tags := pat_Tags x;
                   at_Message := pat_Message x; at_Action := pat_Action x |};
  set_attrs := λ a x, {| pat_Pattern := pat_Pattern x; pat_OwnerOnly := pat_OwnerOnly x;
    pat_Severity := at_Severity a; pat_Tags := at_Tags a; pat_Message := at_Message a;
    pat_Action := at_Action a |} }.

#[export] Instance FilePathType_attrs : RuleAttrs FilePathType := {
  attrs := λ x, {| at_Severity := fpt_Severity x; at_Tags := fpt_Tags x;
                   at_Message := fpt_Message x; at_Action := fpt_Action x |};
  set_attrs := λ a x, {| fpt_Path := fpt_Path x; fpt_ReadOnly := fpt_ReadOnly x;
    fpt_OwnerOnly := fpt_OwnerOnly x; fpt_FromSource := fpt_FromSource x;
    fpt_Severity := at_Severity a; fpt_Tags := at_Tags a; fpt_Message := at_Message a;
    fpt_Action := at_Action a |} }.

#[export] Instance FileDirectoryType_attrs : RuleAttrs FileDirectoryType := {
  attrs := λ x, {| at_Severity := fdt_Severity x; at_Tags := fdt_Tags x;
                   at_Message := fdt_Message x; at_Action := fdt_Action x |};
  set_attrs := λ a x, {| fdt_Directory := fdt_Directory x; fdt_ReadOnly := fdt_ReadOnly x;
    fdt_Recursive := fdt_Recursive x; fdt_OwnerOnly := fdt_OwnerOnly x;
    fdt_FromSource := fdt_FromSource x; fdt_Severity := at_Severity a;
    fdt_Tags := at_Tags a; fdt_Message := at_Message a; fdt_Action := at_Action a |} }.

#[export] Instance FilePatternType_attrs : RuleAttrs FilePatternType := {
  attrs := λ x, {| at_Severity := fpat_Severity x; at_Tags := fpat_Tags x;
                   at_Message := fpat_Message x; at_Action := fpat_Action x |};
  set_attrs := λ a x, {| fpat_Pattern := fpat_Pattern x; fpat_ReadOnly := fpat_ReadOnly x;
    fpat_OwnerOnly := fpat_OwnerOnly x; fpat_Severity := at_Severity a;
    fpat_Tags := at_Tags a; fpat_Message := at_Message a; fpat_Action := at_Action a |} }.

#[export] Instance NetworkProtocolType_attrs : RuleAttrs NetworkProtocolType := {
  attrs := λ x, {| at_Severity := npt_Severity x; at_Tags := npt_Tags x;
                   at_Message := npt_Message x; at_Action := npt_Action x |};
  set_attrs := λ a x, {| npt_Protocol := npt_Protocol x; npt_FromSource := npt_FromSource x;
    npt_Severity := at_Severity a; npt_Tags := at_Tags a; npt_Message := at_Message a;
    npt_Action := at_Action a |} }.

#[export] Instance CapabilitiesCapabilityType_attrs :
    RuleAttrs CapabilitiesCapabilityType := {
  attrs := λ x, {| at_Severity := cct_Severity x; at_Tags := cct_Tags x;
                   at_Message := cct_Message x; at_Action := cct_Action x |};
  set_attrs := λ a x, {| cct_Capability := cct_Capability x;
    cct_FromSource := cct_FromSource x; cct_Severity := at_Severity a;
    cct_Tags := at_Tags a; cct_Message := at_Message a; cct_Action := at_Action a |} }.

(** Rules on system calls have no action of their own. *)
#[export] Instance SyscallMatchType_attrs : RuleAttrs SyscallMatchType := {
  attrs := λ x, {| at_Severity := smt_Severity x; at_Tags := smt_Tags x;
                   at_Message := smt_Message x; at_Action := "" |};
  set_attrs := λ a x, {| smt_Syscalls := smt_Syscalls x; smt_FromSource := smt_FromSource x;
    smt_Severity := at_Severity a; smt_Tags := at_Tags a; smt_Message := at_Message a |} }.

#[export] Instance SyscallMatchPathType_attrs : RuleAttrs SyscallMatchPathType := {
  attrs := λ x, {| at_Severity := smpt_Severity x; at_Tags := smpt_Tags x;
                   at_Message := smpt_Message x; at_Action := "" |};
  set_attrs := λ a x, {| smpt_Path := smpt_Path x; smpt_Recursive := smpt_Recursive x;
    smpt_Syscalls := smpt_Syscalls x; smpt_FromSource := smpt_FromSource x;
    smpt_Severity := at_Severity a; smpt_Tags := at_Tags a; smpt_Message := at_Message a |} }.

(** The loop over the rules of one kind; each turn reads and writes its own index. *)
Definition fill {A} `{!RuleAttrs A} (section spec : Attrs) (rules : list A) : list A :=
  (λ x, set_attrs (inherit (attrs x) section spec) x) <$> rules.

(** ** Sections *)

Definition process_attrs (p : ProcessType) : Attrs :=
  {| at_Severity := pt_Severity p; at_Tags := pt_Tags p; at_Message := pt_Message p;
     at_Action := pt_Action p |}.
Definition file_attrs (f : FileType) : Attrs :=
  {| at_Severity := ft_Severity f; at_Tags := ft_Tags f; at_Message := ft_Message f;
     at_Action := ft_Action f |}.
Definition network_attrs (n : NetworkType) : Attrs :=
  {| at_Severity := nt_Severity n; at_Tags := nt_Tags n; at_Message := nt_Message n;
     at_Action := nt_Action n |}.
Definition capabilities_attrs (c : CapabilitiesType) : Attrs :=
  {| at_Severity := ct_Severity c; at_Tags := ct_Tags c; at_Message := ct_Message c;
     at_Action := ct_Action c |}.
Definition syscalls_attrs (s : SyscallsType) : Attrs :=
  {| at_Severity := st_Severity s; at_Tags := st_Tags s; at_Message := st_Message s;
     at_Action := "" |}.
Definition spec_attrs (s : SecuritySpec) : Attrs :=
  {| at_Severity := ss_Severity s; at_Tags := ss_Tags s; at_Message := ss_Message s;
     at_Action := ss_Action s |}.
Definition host_spec_attrs (s : HostSecuritySpec) : Attrs :=
  {| at_Severity := hs_Severity s; at_Tags := hs_Tags s; at_Message := hs_Message s;
     at_Action := hs_Action s |}.

Definition fill_process (spec : Attrs) (p : ProcessType) : ProcessType := {|
  pt_MatchPaths := fill (process_attrs p) spec (pt_MatchPaths p);
  pt_MatchDirectories := fill (process_attrs p) spec (pt_MatchDirectories p);
  pt_MatchPatterns := fill (process_attrs p) spec (pt_MatchPatterns p);
  pt_Severity := pt_Severity p; pt_Tags := pt_Tags p; pt_Message := pt_Message p;
  pt_Action := pt_Action p |}.

Definition fill_file (spec : Attrs) (f : FileType) : FileType := {|
  ft_MatchPaths := fill (file_attrs f) spec (ft_MatchPaths f);
  ft_MatchDirectories := fill (file_attrs f) spec (ft_MatchDirectories f);
  ft_MatchPatterns := fill (file_attrs f) spec (ft_MatchPatterns f);
  ft_Severity := ft_Severity f; ft_Tags := ft_Tags f; ft_Message := ft_Message f;
  ft_Action := ft_Action f |}.

Definition fill_network (spec : Attrs) (n : NetworkType) : NetworkType := {|
  nt_MatchProtocols := fill (network_attrs n) spec (nt_MatchProtocols n);
  nt_Severity := nt_Severity n; nt_Tags := nt_Tags n; nt_Message := nt_Message n;
  nt_Action := nt_Action n |}.

Definition fill_capabilities (spec : Attrs) (c : CapabilitiesType) : CapabilitiesType := {|
  ct_MatchCapabilities := fill (capabilities_attrs c) spec (ct_MatchCapabilities c);
  ct_Severity := ct_Severity c; ct_Tags := ct_Tags c; ct_Message := ct_Message c;
  ct_Action := ct_Action c |}.

Definition fill_syscalls (spec : Attrs) (s : SyscallsType) : SyscallsType := {|
  st_MatchSyscalls := fill (syscalls_attrs s) spec (st_MatchSyscalls s);
  st_MatchPaths := fill (syscalls_attrs s) spec (st_MatchPaths s);
  st_Severity := st_Severity s; st_Tags := st_Tags s; st_Message := st_Message s |}.

(** Expansion of the protocols and of the capabilities *)
Definition expand_network (n : NetworkType) : NetworkType := {|
  nt_MatchProtocols := ObjCommaExpandFirstDupOthers (nt_MatchProtocols n);
  nt_Severity := nt_Severity n; nt_Tags := nt_Tags n; nt_Message := nt_Message n;
  nt_Action := nt_Action n |}.
Definition expand_capabilities (c : CapabilitiesType) : CapabilitiesType := {|
  ct_MatchCapabilities := ObjCommaExpandFirstDupOthers (ct_MatchCapabilities c);
  ct_Severity := ct_Severity c; ct_Tags := ct_Tags c; ct_Message := ct_Message c;
  ct_Action := ct_Action c |}.

Definition normal_action (action : string) : string :=
  if String.eqb action "allow" then "Allow"
  else if String.eqb action "audit" then "Audit"
  else if String.eqb action "block" then "Block"
  else if String.eqb action "" then "Block"
  else action.

(** The policy's own action, written back before the rules are filled *)
Definition with_action (a : string) (s : SecuritySpec) : SecuritySpec := {|
  ss_Selector := ss_Selector s; ss_Process := ss_Process s; ss_File := ss_File s;
  ss_Network := ss_Network s; ss_Capabilities := ss_Capabilities s;
  ss_Syscalls := ss_Syscalls s; ss_Presets := ss_Presets s; ss_AppArmor := ss_AppArmor s;
  ss_Severity := ss_Severity s; ss_Tags := ss_Tags s; ss_Message := ss_Message s;
  ss_Action := a |}.

(** From the expansion of commas to the end of [CreateSecurityPolicy] *)
Definition fill_spec (s0 : SecuritySpec) : SecuritySpec :=
  let s := with_action (normal_action (ss_Action s0)) s0 in
  let spec := spec_attrs s in {|
    ss_Selector := ss_Selector s;
    ss_Process := fill_process spec (ss_Process s);
    ss_File := fill_file spec (ss_File s);
    ss_Network := fill_network spec (expand_network (ss_Network s));
    ss_Capabilities := fill_capabilities spec (expand_capabilities (ss_Capabilities s));
    ss_Syscalls := fill_syscalls spec (ss_Syscalls s);
    ss_Presets := ss_Presets s; ss_AppArmor := ss_AppArmor s;
    ss_Severity := ss_Severity s; ss_Tags := ss_Tags s; ss_Message := ss_Message s;
    ss_Action := ss_Action s |}.

(** The steps of [ParseAndUpdateContainerSecurityPolicy]: rules on system calls stay
    as they are. *)
Definition fill_container_spec (s0 : SecuritySpec) : SecuritySpec :=
  let s := with_action (normal_action (ss_Action s0)) s0 in
  let spec := spec_attrs s in {|
    ss_Selector := ss_Selector s;
    ss_Process := fill_process spec (ss_Process s);
    ss_File := fill_file spec (ss_File s);
    ss_Network := fill_network spec (expand_network (ss_Network s));
    ss_Capabilities := fill_capabilities spec (expand_capabilities (ss_Capabilities s));
    ss_Syscalls := ss_Syscalls s;
    ss_Presets := ss_Presets s; ss_AppArmor := ss_AppArmor s;
    ss_Severity := ss_Severity s; ss_Tags := ss_Tags s; ss_Message := ss_Message s;
    ss_Action := ss_Action s |}.

(** The steps of [ParseAndUpdateHostSecurityPolicy], where the severity has a default *)
Definition with_host_defaults (s : HostSecuritySpec) : HostSecuritySpec := {|
  hs_NodeSelector := hs_NodeSelector s; hs_Process := hs_Process s; hs_File := hs_File s;
  hs_Network := expand_network (hs_Network s);
  hs_Capabilities := expand_capabilities (hs_Capabilities s);
  hs_Syscalls := hs_Syscalls s; hs_AppArmor := hs_AppArmor s;
  hs_Severity := if (hs_Severity s =? 0)%Z then 1 else hs_Severity s;
  hs_Tags := hs_Tags s; hs_Message := hs_Message s;
  hs_Action := normal_action (hs_Action s) |}.

Definition fill_host_spec (s : HostSecuritySpec) : HostSecuritySpec :=
  let spec := host_spec_attrs s in {|
    hs_NodeSelector := hs_NodeSelector s;
    hs_Process := fill_process spec (hs_Process s);
    hs_File := fill_file spec (hs_File s);
    hs_Network := fill_network spec (hs_Network s);
    hs_Capabilities := fill_capabilities spec (hs_Capabilities s);
    hs_Syscalls := fill_syscalls spec (hs_Syscalls s);
    hs_AppArmor := hs_AppArmor s; hs_Severity := hs_Severity s; hs_Tags := hs_Tags s;
    hs_Message := hs_Message s; hs_Action := hs_Action s |}.

(** ** Selectors *)

Definition KubeArmorPolicy : string := "KubeArmorPolicy".
Definition KubeArmorClusterPolicy : string := "KubeArmorClusterPolicy".
Definition InOperator : string := "In".
Definition NotInOperator : string := "NotIn".
Definition NamespaceKey : string := "namespace".
Definition LabelKey : string := "label".

Definition label (k v : string) : string := k ++ "=" ++ v.

Definition with_selector (sel : SelectorType) (s : SecuritySpec) : SecuritySpec := {|
  ss_Selector := sel; ss_Process := ss_Process s; ss_File := ss_File s;
  ss_Network := ss_Network s; ss_Capabilities := ss_Capabilities s;
  ss_Syscalls := ss_Syscalls s; ss_Presets := ss_Presets s; ss_AppArmor := ss_AppArmor s;
  ss_Severity := ss_Severity s; ss_Tags := ss_Tags s; ss_Message := ss_Message s;
  ss_Action := ss_Action s |}.

(** The names between the brackets of [kubearmor.io/container.name] *)
Definition container_names (v : string) : list string :=
  if bool_decide (2 < String.length v) then
    TrimSpace <$> filter (λ c, c ≠ "")
      (split comma (String.substring 1 (String.length v - 2) v))
  else [].

Section create.
Context `{R : GoRange}.

(** The loop over the labels: containers go to their own list, other labels become
    identities. *)
Definition add_label (sel : list string * list string) (kv : string * string)
    : list string * list string :=
  if String.eqb kv.1 container_name_key
  then ((sel.1 ++ container_names kv.2)%list, sel.2)
  else (sel.1, (sel.2 ++ [label kv.1 kv.2])%list).

(** State of the loops over the match expressions *)
Record Exprs := {
  ex_ns_in : bool; ex_label_in : bool;
  ex_excluded : list string;
  ex_NamespaceList : list string;
  ex_MatchExp : list string; ex_Non : list string }.

(** An [In] on labels counts only if it has a value. *)
Definition label_expr (mx : MatchExpressionType) (st : Exprs) : Exprs :=
  if String.eqb (mx_Operator mx) InOperator then
    {| ex_ns_in := ex_ns_in st;
       ex_label_in := ex_label_in st || negb (bool_decide (mx_Values mx = []));
       ex_excluded := ex_excluded st; ex_NamespaceList := ex_NamespaceList st;
       ex_MatchExp := (ex_MatchExp st ++ mx_Values mx)%list; ex_Non := ex_Non st |}
  else if String.eqb (mx_Operator mx) NotInOperator && negb (ex_label_in st) then
    {| ex_ns_in := ex_ns_in st; ex_label_in := ex_label_in st;
       ex_excluded := ex_excluded st; ex_NamespaceList := ex_NamespaceList st;
       ex_MatchExp := ex_MatchExp st; ex_Non := (ex_Non st ++ mx_Values mx)%list |}
  else st.

Definition namespace_expr (mx : MatchExpressionType) (st : Exprs) : Exprs :=
  if String.eqb (mx_Operator mx) InOperator then
    {| ex_ns_in := true; ex_label_in := ex_label_in st; ex_excluded := ex_excluded st;
       ex_NamespaceList := (ex_NamespaceList st ++ mx_Values mx)%list;
       ex_MatchExp := ex_MatchExp st; ex_Non := ex_Non st |}
  else if String.eqb (mx_Operator mx) NotInOperator && negb (ex_ns_in st) then
    {| ex_ns_in := ex_ns_in st; ex_label_in := ex_label_in st;
       ex_excluded := (ex_excluded st ++ mx_Values mx)%list;
       ex_NamespaceList := ex_NamespaceList st;
       ex_MatchExp := ex_MatchExp st; ex_Non := ex_Non st |}
  else st.

Definition ksp_expr (st : Exprs) (mx : MatchExpressionType) : Exprs :=
  if String.eqb (mx_Key mx) LabelKey then label_expr mx st else st.

Definition csp_expr (st : Exprs) (mx : MatchExpressionType) : Exprs :=
  if String.eqb (mx_Key mx) NamespaceKey then namespace_expr mx st
  else if String.eqb (mx_Key mx) LabelKey then label_expr mx st else st.

Definition start_exprs (sel : SelectorType) : Exprs :=
  {| ex_ns_in := false; ex_label_in := false; ex_excluded := [];
     ex_NamespaceList := sel_NamespaceList sel;
     ex_MatchExp := sel_MatchExpIdentities sel; ex_Non := sel_NonIdentities sel |}.

(** A namespaced policy: [namespaceName=] and the labels, sorted. *)
Definition ksp_selector (namespace : string) (sel : SelectorType) : SelectorType :=
  let ls := foldl add_label (sel_Containers sel, [label "namespaceName" namespace])
                  (go_range (sel_MatchLabels sel)) in
  let ex := foldl ksp_expr (start_exprs sel) (sel_MatchExpressions sel) in
  {| sel_MatchLabels := sel_MatchLabels sel;
     sel_MatchExpressions := sel_MatchExpressions sel;
     sel_Containers := ls.1; sel_Identities := sort_strings ls.2;
     sel_MatchExpIdentities := sort_strings (ex_MatchExp ex);
     sel_NonIdentities := sort_strings (ex_Non ex);
     sel_NamespaceList := sel_NamespaceList sel |}.

(** A cluster policy: the namespaces it names or, without [In], those of the cluster
    that it does not exclude. *)
Definition csp_selector (nsList : option (list string)) (sel : SelectorType)
    : option SelectorType :=
  let ex := foldl csp_expr (start_exprs sel) (sel_MatchExpressions sel) in
  namespaces ←
    (if ex_ns_in ex then Some (ex_NamespaceList ex)
     else items ← nsList;
          Some (ex_NamespaceList ex ++ filter (λ n, n ∉ ex_excluded ex) items)%list);
  Some {| sel_MatchLabels := sel_MatchLabels sel;
          sel_MatchExpressions := sel_MatchExpressions sel;
          sel_Containers := sel_Containers sel; sel_Identities := sel_Identities sel;
          sel_MatchExpIdentities := sort_strings (ex_MatchExp ex);
          sel_NonIdentities := sort_strings (ex_Non ex);
          sel_NamespaceList := namespaces |}.

(** ** CreateSecurityPolicy *)

Context {RawSpec : Type} (Marshal : RawSpec → string)
        (Unmarshal : string → option SecuritySpec).

(** Custom resources of the two kinds, with what the code reads of them *)
Record Resource := { cr_Namespace : string; cr_Name : string; cr_Spec : RawSpec }.
Inductive Object :=
| KSP (o : Resource)
| CSP (o : Resource).

Definition policy_metadata (namespace name : string) : gmap string string :=
  <["policyName" := name]> (<["namespaceName" := namespace]> ∅).

(** The type assertions panic on an object of the other kind; [None] is an error. *)
Definition CreateSecurityPolicy (nsList : option (list string)) (policyType : string)
    (securityPolicy : Object) : Res (option SecurityPolicy) :=
  if String.eqb policyType KubeArmorPolicy then
    match securityPolicy with
    | CSP _ => Panic
    | KSP o =>
        Ok (s ← Clone Marshal Unmarshal (cr_Spec o);
            Some {| sp_Metadata := policy_metadata (cr_Namespace o) (cr_Name o);
                    sp_Spec := fill_spec (with_selector
                      (ksp_selector (cr_Namespace o) (ss_Selector s)) s) |})
    end
  else if String.eqb policyType KubeArmorClusterPolicy then
    match securityPolicy with
    | KSP _ => Panic
    | CSP o =>
        Ok (s ← Clone Marshal Unmarshal (cr_Spec o);
            sel ← csp_selector nsList (ss_Selector s);
            Some {| sp_Metadata := policy_metadata (cr_Namespace o) (cr_Name o);
                    sp_Spec := fill_spec (with_selector sel s) |})
    end
  else Ok (Some {| sp_Metadata := policy_metadata "" "";
                   sp_Spec := fill_spec empty_SecuritySpec |}).

(** ** Host policies *)

Context {RawHostSpec : Type} (MarshalHost : RawHostSpec → string)
        (UnmarshalHost : string → option HostSecuritySpec).

Definition with_node_selector (sel : NodeSelectorType) (s : HostSecuritySpec)
    : HostSecuritySpec := {|
  hs_NodeSelector := sel; hs_Process := hs_Process s; hs_File := hs_File s;
  hs_Network := hs_Network s; hs_Capabilities := hs_Capabilities s;
  hs_Syscalls := hs_Syscalls s; hs_AppArmor := hs_AppArmor s;
  hs_Severity := hs_Severity s; hs_Tags := hs_Tags s; hs_Message := hs_Message s;
  hs_Action := hs_Action s |}.

Definition node_selector (sel : NodeSelectorType) : NodeSelectorType :=
  {| nsel_MatchLabels := nsel_MatchLabels sel;
     nsel_Identities := sort_strings
       ((λ kv, label kv.1 kv.2) <$> go_range (nsel_MatchLabels sel)) |}.

(** The policy that [ParseAndUpdateHostSecurityPolicy] makes of an event *)
Definition create_host_policy (name : string) (spec : RawHostSpec)
    : option HostSecurityPolicy :=
  s0 ← Clone MarshalHost UnmarshalHost spec;
  let s := with_host_defaults s0 in
  Some {| hp_Metadata := <["policyName" := name]> ∅;
          hp_Spec := fill_host_spec
            (with_node_selector (node_selector (hs_NodeSelector s)) s) |}.

End create.
Arguments Resource : clear implicits.
Arguments Object : clear implicits.
