(* ===== verification/PolicySpecProps.v ===== *)
(** Properties of the policies that [PolicySpec] creates: no rule is left without an
    action, filling twice is filling once (policies are filled again when their
    backup is restored), the order of Go's maps does not matter, and what the
    expansion of commas leaves behind. *)
From Stdlib Require Import Ascii String.
From S2P Require Import Prelude GoStrings Types Common BpfRules PolicySpec.

Open Scope string_scope.

(** ** Inheritance *)

Lemma inherit_severity_idem o s p :
  inherit_severity (inherit_severity o s p) s p = inherit_severity o s p.
Proof. unfold inherit_severity. repeat case_bool; lia. Qed.

Lemma inherit_tags_idem o s p : inherit_tags (inherit_tags o s p) s p = inherit_tags o s p.
Proof. by destruct o, s, p. Qed.

Lemma inherit_string_idem o s p :
  inherit_string (inherit_string o s p) s p = inherit_string o s p.
Proof.
  unfold inherit_string.
  destruct (String.eqb_spec o "") as [->|Ho]; [|by destruct (String.eqb_spec o "")].
  destruct (String.eqb_spec s "") as [->|Hs]; [|by destruct (String.eqb_spec s "")].
  by destruct (String.eqb p "").
Qed.

Lemma inherit_idem o s p : inherit (inherit o s p) s p = inherit o s p.
Proof.
  unfold inherit. simpl.
  by rewrite inherit_severity_idem, inherit_tags_idem, !inherit_string_idem.
Qed.

Lemma inherit_action_ne o s p : at_Action p ≠ "" → at_Action (inherit o s p) ≠ "".
Proof.
  simpl. unfold inherit_string. intros Hp.
  by destruct (String.eqb_spec (at_Action o) ""), (String.eqb_spec (at_Action s) "").
Qed.

Lemma normal_action_ne a : normal_action a ≠ "".
Proof. unfold normal_action. repeat case_bool; try done. by apply String.eqb_neq. Qed.

Lemma normal_action_idem a : normal_action (normal_action a) = normal_action a.
Proof.
  unfold normal_action at 2 3.
  destruct (String.eqb a "allow") eqn:H1; [done|]. destruct (String.eqb a "audit") eqn:H2; [done|].
  destruct (String.eqb a "block") eqn:H3; [done|]. destruct (String.eqb a "") eqn:H4; [done|].
  unfold normal_action. by rewrite H1, H2, H3, H4.
Qed.

(** What a kind of rules promises about its attributes: they can be read back, the
    action at least when the kind has one. *)
Class RuleAttrsLaw (A : Type) `{!RuleAttrs A} : Prop := {
  set_attrs_twice : ∀ a b (x : A), set_attrs a (set_attrs b x) = set_attrs a x;
  set_attrs_read : ∀ s p (x : A),
    set_attrs (inherit (attrs (set_attrs (inherit (attrs x) s p) x)) s p) x =
    set_attrs (inherit (attrs x) s p) x }.

Ltac rule_attrs_law :=
  split; [by intros a b [] | intros s p []; cbn;
    rewrite ?inherit_severity_idem, ?inherit_tags_idem, ?inherit_string_idem; reflexivity].

#[export] Instance ppt_law : RuleAttrsLaw ProcessPathType.
Proof. rule_attrs_law. Qed.
#[export] Instance pdt_law : RuleAttrsLaw ProcessDirectoryType.
Proof. rule_attrs_law. Qed.
#[export] Instance pat_law : RuleAttrsLaw ProcessPatternType.
Proof. rule_attrs_law. Qed.
#[export] Instance fpt_law : RuleAttrsLaw FilePathType.
Proof. rule_attrs_law. Qed.
#[export] Instance fdt_law : RuleAttrsLaw FileDirectoryType.
Proof. rule_attrs_law. Qed.
#[export] Instance fpat_law : RuleAttrsLaw FilePatternType.
Proof. rule_attrs_law. Qed.
#[export] Instance npt_law : RuleAttrsLaw NetworkProtocolType.
Proof. rule_attrs_law. Qed.
#[export] Instance cct_law : RuleAttrsLaw CapabilitiesCapabilityType.
Proof. rule_attrs_law. Qed.
#[export] Instance smt_law : RuleAttrsLaw SyscallMatchType.
Proof. rule_attrs_law. Qed.
#[export] Instance smpt_law : RuleAttrsLaw SyscallMatchPathType.
Proof. rule_attrs_law. Qed.

Lemma fill_idem {A} `{RuleAttrsLaw A} s p (l : list A) :
  fill s p (fill s p l) = fill s p l.
Proof.
  unfold fill. rewrite <- list_fmap_compose. apply list_fmap_ext.
  intros _ x _. unfold compose. by rewrite set_attrs_twice, set_attrs_read.
Qed.

(** ** Expansion of commas *)

Lemma char_in_remove_spaces c s :
  char_in c (remove_spaces s) = char_in c s && negb (Ascii.eqb c space).
Proof.
  induction s as [|d s IH]; [done|]. cbn [remove_spaces char_in].
  destruct (bool_decide_reflect (d = space)) as [->|Hd]; cbn [char_in]; rewrite IH.
  - rewrite (Ascii.eqb_sym space c). by destruct (Ascii.eqb c space), (char_in c s).
  - destruct (Ascii.eqb_spec c space) as [->|Hc]; [|by rewrite !andb_true_r].
    rewrite !andb_false_r. by destruct (Ascii.eqb_spec d space).
Qed.

Section expansion.
Context {A : Type} `{F : !FirstField A}.
Context (field0_set : ∀ s (x : A), field0 (set_field0 s x) = s).

Lemma can_expand_spec (x : A) l :
  ObjCommaCanBeExpanded (x :: l) = char_in comma (field0 x).
Proof.
  simpl. destruct (char_in comma (field0 x)) eqn:Hc.
  - destruct (String.eqb_spec (hd "" (split comma (field0 x))) (field0 x)) as [E|]; [|done].
    destruct (split_cons comma (field0 x)) as (h & t & Hs).
    pose proof (split_components comma (field0 x) h) as Hh.
    rewrite Hs in E, Hh. simpl in E. subst h. rewrite Hh in Hc; [done|left].
  - rewrite split_no_sep by done. simpl. by rewrite String.eqb_refl.
Qed.

Lemma expand_clean (x : A) l :
  char_in comma (field0 x) = true →
  Forall (λ y, char_in comma (field0 y) = false ∧ char_in space (field0 y) = false)
         (ObjCommaExpandFirstDupOthers (x :: l)).
Proof.
  intros Hx. unfold ObjCommaExpandFirstDupOthers. rewrite can_expand_spec, Hx.
  apply list.Forall_forall. intros y (v & Hy & Hv)%list_elem_of_bind.
  apply list_elem_of_fmap in Hy as (f & -> & Hf). rewrite field0_set, !char_in_remove_spaces.
  rewrite (split_components comma (field0 v)) by done. simpl. by rewrite andb_false_r.
Qed.

Lemma expand_kept (x : A) l :
  char_in comma (field0 x) = false → ObjCommaExpandFirstDupOthers (x :: l) = x :: l.
Proof.
  intros Hx. unfold ObjCommaExpandFirstDupOthers. by rewrite can_expand_spec, Hx.
Qed.

Lemma expand_idem (l : list A) :
  ObjCommaExpandFirstDupOthers (ObjCommaExpandFirstDupOthers l) =
  ObjCommaExpandFirstDupOthers l.
Proof.
  destruct l as [|x l]; [done|]. destruct (char_in comma (field0 x)) eqn:Hx.
  - pose proof (expand_clean x l Hx) as Hc.
    destruct (ObjCommaExpandFirstDupOthers (x :: l)) as [|y l'] eqn:E; [done|].
    apply expand_kept. by apply list.Forall_cons in Hc as [[? _] _].
  - by rewrite !expand_kept.
Qed.
End expansion.

Lemma npt_field0_set s (x : NetworkProtocolType) : field0 (set_field0 s x) = s.
Proof. done. Qed.
Lemma cct_field0_set s (x : CapabilitiesCapabilityType) : field0 (set_field0 s x) = s.
Proof. done. Qed.

(** The head of an expanded list has no comma, and filling keeps it. *)
Lemma expand_head {A} `{F : !FirstField A} (l : list A)
    (field0_set : ∀ s (x : A), field0 (set_field0 s x) = s) :
  match ObjCommaExpandFirstDupOthers l with
  | [] => True
  | y :: _ => char_in comma (field0 y) = false
  end.
Proof.
  destruct l as [|x l]; [done|]. destruct (char_in comma (field0 x)) eqn:Hx.
  - pose proof (expand_clean field0_set x l Hx) as Hc.
    destruct (ObjCommaExpandFirstDupOthers (x :: l)); [done|].
    by apply list.Forall_cons in Hc as [[? _] _].
  - by rewrite expand_kept.
Qed.

Lemma expand_fill {A} `{F : !FirstField A} `{RA : !RuleAttrs A} s p (l : list A)
    (field0_set : ∀ s (x : A), field0 (set_field0 s x) = s)
    (field0_attrs : ∀ a (x : A), field0 (set_attrs a x) = field0 x) :
  ObjCommaExpandFirstDupOthers (fill s p (ObjCommaExpandFirstDupOthers l)) =
  fill s p (ObjCommaExpandFirstDupOthers l).
Proof.
  pose proof (expand_head l field0_set) as Hh.
  destruct (ObjCommaExpandFirstDupOthers l) as [|y l']; [done|].
  cbn [fill fmap list_fmap]. apply expand_kept. by rewrite field0_attrs.
Qed.

(** ** Created policies *)

(** The four kinds of sections and what filling them again gives *)
Lemma fill_process_idem a p : fill_process a (fill_process a p) = fill_process a p.
Proof.
  destruct p. unfold fill_process, process_attrs. simpl. f_equal; apply fill_idem.
Qed.
Lemma fill_file_idem a f : fill_file a (fill_file a f) = fill_file a f.
Proof. destruct f. unfold fill_file, file_attrs. simpl. f_equal; apply fill_idem. Qed.
Lemma fill_syscalls_idem a s : fill_syscalls a (fill_syscalls a s) = fill_syscalls a s.
Proof. destruct s. unfold fill_syscalls, syscalls_attrs. simpl. f_equal; apply fill_idem. Qed.
Lemma fill_network_idem a n :
  fill_network a (expand_network (fill_network a (expand_network n))) =
  fill_network a (expand_network n).
Proof.
  destruct n. unfold fill_network, expand_network, network_attrs. simpl. f_equal.
  rewrite expand_fill by done. apply fill_idem.
Qed.
Lemma fill_capabilities_idem a c :
  fill_capabilities a (expand_capabilities (fill_capabilities a (expand_capabilities c))) =
  fill_capabilities a (expand_capabilities c).
Proof.
  destruct c. unfold fill_capabilities, expand_capabilities, capabilities_attrs. simpl.
  f_equal. rewrite expand_fill by done. apply fill_idem.
Qed.

Lemma fill_container_spec_idem s :
  fill_container_spec (fill_container_spec s) = fill_container_spec s.
Proof.
  destruct s. unfold fill_container_spec, spec_attrs, with_action. simpl.
  rewrite !normal_action_idem.
  f_equal; auto using fill_process_idem, fill_file_idem, fill_network_idem,
    fill_capabilities_idem.
Qed.

(** A policy that was filled once is not changed by filling it again: actions,
    severities, tags and messages that a rule took from its section or its policy are
    then its own, no comma is left to expand in the first protocol or capability, and
    the normalised action is normal.  So a container or host policy whose backup is
    restored is the policy that was backed up. *)
Theorem fill_spec_idempotent s :
  fill_spec (fill_spec s) = fill_spec s ∧
  fill_container_spec (fill_container_spec s) = fill_container_spec s ∧
  ∀ h, fill_host_spec (with_host_defaults (fill_host_spec (with_host_defaults h))) =
       fill_host_spec (with_host_defaults h).
Proof.
  split; [|split; [apply fill_container_spec_idem|intros h; destruct h]]; try destruct s;
    unfold fill_spec, fill_host_spec, with_host_defaults, spec_attrs,
      host_spec_attrs, with_action; simpl; rewrite !normal_action_idem.
  1: f_equal; auto using fill_process_idem, fill_file_idem, fill_network_idem,
         fill_capabilities_idem, fill_syscalls_idem.
  assert (Hs : (if (if (hs_Severity =? 0)%Z then 1 else hs_Severity) =? 0 then 1
                else if (hs_Severity =? 0)%Z then 1 else hs_Severity)%Z =
               if (hs_Severity =? 0)%Z then 1%Z else hs_Severity).
  { destruct (hs_Severity =? 0)%Z eqn:E; [done|]. by rewrite E. }
  rewrite Hs. f_equal; auto using fill_process_idem, fill_file_idem, fill_network_idem,
    fill_capabilities_idem, fill_syscalls_idem.
Qed.

(** The actions of the rules that have one *)
Definition rule_actions (p : ProcessType) (f : FileType) (n : NetworkType)
    (c : CapabilitiesType) : list string :=
  ((ppt_Action <$> pt_MatchPaths p) ++ (pdt_Action <$> pt_MatchDirectories p) ++
   (pat_Action <$> pt_MatchPatterns p) ++ (fpt_Action <$> ft_MatchPaths f) ++
   (fdt_Action <$> ft_MatchDirectories f) ++ (fpat_Action <$> ft_MatchPatterns f) ++
   (npt_Action <$> nt_MatchProtocols n) ++ (cct_Action <$> ct_MatchCapabilities c))%list.

Definition spec_actions (s : SecuritySpec) : list string :=
  rule_actions (ss_Process s) (ss_File s) (ss_Network s) (ss_Capabilities s).

Lemma fill_actions {A} `{RA : !RuleAttrs A} (act : A → string) s p (l : list A) :
  (∀ a x, act (set_attrs a x) = at_Action a) → at_Action p ≠ "" →
  Forall (λ a, a ≠ "") (act <$> fill s p l).
Proof.
  intros Hact Hp. apply list.Forall_fmap, list.Forall_fmap, list.Forall_true.
  intros x. simpl. rewrite Hact. by apply inherit_action_ne.
Qed.

Lemma filled_actions a p f n c :
  at_Action a ≠ "" →
  Forall (λ x, x ≠ "")
    (rule_actions (fill_process a p) (fill_file a f) (fill_network a n) (fill_capabilities a c)).
Proof.
  intros Ha. unfold rule_actions. rewrite !list.Forall_app.
  repeat split; by apply fill_actions.
Qed.

(** The first name that is not empty *)
Definition first_nonempty (l : list string) : string := hd "" (filter (λ a, a ≠ "") l).

(** The actions that the rules of [s] are meant to have *)
Definition resolved_actions (s : SecuritySpec) : list string :=
  let res := λ section a, first_nonempty [a; section; normal_action (ss_Action s)] in
  let p := ss_Process s in let f := ss_File s in
  let n := expand_network (ss_Network s) in
  let c := expand_capabilities (ss_Capabilities s) in
  ((res (pt_Action p) <$> (ppt_Action <$> pt_MatchPaths p)) ++
   (res (pt_Action p) <$> (pdt_Action <$> pt_MatchDirectories p)) ++
   (res (pt_Action p) <$> (pat_Action <$> pt_MatchPatterns p)) ++
   (res (ft_Action f) <$> (fpt_Action <$> ft_MatchPaths f)) ++
   (res (ft_Action f) <$> (fdt_Action <$> ft_MatchDirectories f)) ++
   (res (ft_Action f) <$> (fpat_Action <$> ft_MatchPatterns f)) ++
   (res (nt_Action n) <$> (npt_Action <$> nt_MatchProtocols n)) ++
   (res (ct_Action c) <$> (cct_Action <$> ct_MatchCapabilities c)))%list.

Lemma inherit_string_first o s p :
  p ≠ "" → inherit_string o s p = first_nonempty [o; s; p].
Proof.
  intros Hp. unfold inherit_string, first_nonempty.
  destruct (String.eqb_spec o "") as [->|Ho]; [|by rewrite filter_cons_True].
  rewrite filter_cons_False by auto.
  destruct (String.eqb_spec s "") as [->|Hs]; [|by rewrite filter_cons_True].
  rewrite filter_cons_False by auto. by rewrite filter_cons_True.
Qed.

Lemma fill_resolved {A} `{RA : !RuleAttrs A} (act : A → string) s p (l : list A) :
  (∀ a x, act (set_attrs a x) = at_Action a) → (∀ x, at_Action (attrs x) = act x) →
  at_Action p ≠ "" →
  act <$> fill s p l = (λ a, first_nonempty [a; at_Action s; at_Action p]) <$> (act <$> l).
Proof.
  intros Hset Hget Hp. unfold fill. rewrite <- !list_fmap_compose.
  apply list_fmap_ext. intros _ x _. unfold compose. rewrite Hset. cbn [inherit at_Action].
  by rewrite inherit_string_first, Hget.
Qed.

Lemma fill_spec_actions s :
  spec_actions (fill_spec s) = resolved_actions s ∧
  Forall (λ a, a ≠ "") (spec_actions (fill_spec s)).
Proof.
  assert (Ha : at_Action (spec_attrs (with_action (normal_action (ss_Action s)) s)) ≠ "")
    by apply normal_action_ne.
  split; [|by apply filled_actions].
  set (spec := spec_attrs (with_action (normal_action (ss_Action s)) s)) in *.
  unfold spec_actions, rule_actions, resolved_actions.
  repeat apply (f_equal2 app).
  1-3: by apply (fill_resolved _ (process_attrs _) spec).
  1-3: by apply (fill_resolved _ (file_attrs _) spec).
  - by apply (fill_resolved _ (network_attrs (expand_network (ss_Network s))) spec).
  - by apply (fill_resolved _ (capabilities_attrs (expand_capabilities (ss_Capabilities s))) spec).
Qed.

(** ** Order of maps *)

(** At most one label has the key of container names. *)
Lemma add_labels_split (l : list (string * string)) st :
  foldl add_label st l =
  (st.1 ++ (filter (λ kv : string * string, kv.1 = container_name_key) l ≫=
              λ kv, container_names kv.2),
   st.2 ++ ((λ kv, label kv.1 kv.2) <$>
              filter (λ kv : string * string, kv.1 ≠ container_name_key) l))%list.
Proof.
  revert st. induction l as [|[k v] l IH]; intros st; simpl.
  - rewrite !app_nil_r. by destruct st.
  - rewrite IH. unfold add_label. simpl.
    destruct (String.eqb_spec k container_name_key) as [->|Hk].
    + rewrite (filter_cons_True (λ kv : string * string, kv.1 = container_name_key)) by done.
      rewrite (filter_cons_False (λ kv : string * string, kv.1 ≠ container_name_key))
        by (simpl; auto).
      cbn [mbind list_bind fst snd]. by rewrite app_assoc.
    + rewrite (filter_cons_False (λ kv : string * string, kv.1 = container_name_key)) by done.
      rewrite (filter_cons_True (λ kv : string * string, kv.1 ≠ container_name_key)) by done.
      cbn [fmap list_fmap fst snd]. by rewrite <- app_assoc.
Qed.

Lemma filter_one_perm {K V} `{EqDecision K} (k : K) (l l' : list (K * V)) :
  NoDup l.*1 → l ≡ₚ l' →
  filter (λ kv : K * V, kv.1 = k) l = filter (λ kv : K * V, kv.1 = k) l'.
Proof.
  intros Hnd Hp. apply (filter_Permutation (λ kv : K * V, kv.1 = k)) in Hp as Hf.
  destruct (filter (λ kv : K * V, kv.1 = k) l) as [|x [|y r]] eqn:E.
  - by apply Permutation_nil_l in Hf.
  - by apply Permutation_singleton_l in Hf.
  - exfalso. assert (Hsub : (x :: y :: r).*1 `sublist_of` l.*1).
    { rewrite <- E. apply fmap_sublist, sublist_filter. }
    assert (Hx : ∀ z, z ∈ x :: y :: r → z.1 = k).
    { intros z Hz. rewrite <- E in Hz. by apply list_elem_of_filter in Hz as [? _]. }
    apply (sublist_NoDup _ _ Hnd) in Hsub as Hnd'. simpl in Hnd'.
    apply list.NoDup_cons in Hnd' as [Hn _]. apply Hn.
    rewrite (Hx x), (Hx y) by set_solver. left.
Qed.

Lemma ksp_selector_order (R1 R2 : GoRange) `{!GoRangeLaw R1, !GoRangeLaw R2} ns sel :
  ksp_selector (R:=R1) ns sel = ksp_selector (R:=R2) ns sel.
Proof.
  unfold ksp_selector. rewrite !add_labels_split. simpl.
  assert (Hp : go_range (GoRange:=R1) (sel_MatchLabels sel) ≡ₚ
               go_range (GoRange:=R2) (sel_MatchLabels sel)) by by rewrite !go_range_perm.
  f_equal.
  - f_equal. f_equal. apply filter_one_perm; [apply NoDup_go_range | done].
  - apply sort_strings_unique. by rewrite Hp.
Qed.

Section creation.
Context {RawSpec RawHostSpec : Type}.
Context (Marshal : RawSpec → string) (Unmarshal : string → option SecuritySpec).
Context (MarshalHost : RawHostSpec → string)
        (UnmarshalHost : string → option HostSecuritySpec).

(** The policy made of a custom resource does not depend on the order in which Go
    visits the labels of its selector: identities are sorted, and all containers come
    from one label.  The same holds for host policies. *)
Theorem CreateSecurityPolicy_order_independent (R1 R2 : GoRange)
    `{!GoRangeLaw R1, !GoRangeLaw R2} nsList ty (obj : Object RawSpec) name
    (spec : RawHostSpec) :
  CreateSecurityPolicy (R:=R1) Marshal Unmarshal nsList ty obj =
  CreateSecurityPolicy (R:=R2) Marshal Unmarshal nsList ty obj ∧
  create_host_policy (R:=R1) MarshalHost UnmarshalHost name spec =
  create_host_policy (R:=R2) MarshalHost UnmarshalHost name spec.
Proof.
  split.
  - unfold CreateSecurityPolicy. destruct obj as [o|o]; [|done].
    case_bool; [|done]. destruct (Clone _ _ _) as [s|]; [|done]. simpl.
    by rewrite (ksp_selector_order R1 R2).
  - unfold create_host_policy. destruct (Clone _ _ _) as [s|]; [|done]. simpl.
    assert (node_selector (R:=R1) (hs_NodeSelector s) =
            node_selector (R:=R2) (hs_NodeSelector s)) as ->; [|done].
    unfold node_selector. f_equal. apply sort_strings_unique. by rewrite !go_range_perm.
Qed.

Context `{R : GoRange}.

(** In a policy that was created without error, the action of every process, file,
    network and capability rule is the first one given of its own, its section's and
    the policy's, where the policy's is in normal form and [Block] by default; so no
    rule is left without an action, and the names are those of the resource. *)
Theorem created_actions nsList ty (obj : Object RawSpec) p :
  CreateSecurityPolicy Marshal Unmarshal nsList ty obj = Ok (Some p) →
  ty = KubeArmorPolicy ∨ ty = KubeArmorClusterPolicy →
  ∃ o s, (obj = KSP o ∨ obj = CSP o) ∧ Clone Marshal Unmarshal (cr_Spec o) = Some s ∧
    sp_Metadata p = policy_metadata (cr_Namespace o) (cr_Name o) ∧
    spec_actions (sp_Spec p) = resolved_actions s ∧
    Forall (λ a, a ≠ "") (spec_actions (sp_Spec p)).
Proof.
  unfold CreateSecurityPolicy. intros H [-> | ->]; simpl in H.
  - destruct obj as [o|o]; [|done]. destruct (Clone _ _ _) as [s|] eqn:Hc; [|done].
    injection H as <-. exists o, s. simpl.
    destruct (fill_spec_actions (with_selector (ksp_selector (cr_Namespace o)
      (ss_Selector s)) s)) as [Ha Hn].
    repeat split; auto.
  - destruct obj as [o|o]; [done|]. destruct (Clone _ _ _) as [s|] eqn:Hc; [|done].
    simpl in H. destruct (csp_selector nsList (ss_Selector s)) as [sel|]; [|done].
    injection H as <-. exists o, s. simpl.
    destruct (fill_spec_actions (with_selector sel s)) as [Ha Hn]. repeat split; auto.
Qed.
End creation.

(** ** Protocols after the first *)

Lemma ToUpper_comma s : char_in comma s = true → char_in comma (ToUpper s) = true.
Proof.
  unfold ToUpper. induction s as [|c s IH]; [done|]. simpl. intros H.
  apply orb_true_iff in H as [H|H]; [|by rewrite IH, orb_true_r].
  apply Ascii.eqb_eq in H as ->. done.
Qed.

Definition comma_free {V} (m : gmap string V) : bool :=
  forallb (λ kv, negb (char_in comma kv.1)) (map_to_list m).

Lemma comma_free_lookup {V} (m : gmap string V) s :
  comma_free m = true → char_in comma s = true → m !! s = None.
Proof.
  intros Hm Hs. destruct (m !! s) as [v|] eqn:E; [|done].
  apply elem_of_map_to_list, list_elem_of_In in E.
  apply forallb_forall with (x := (s, v)) in Hm; [|done]. simpl in Hm. by rewrite Hs in Hm.
Qed.

(** Protocols are expanded only if the first one has a comma.  Otherwise the list
    stays as it is, and a later protocol such as [udp,icmp] reaches the BPF-LSM
    enforcer as one unknown name: its rule gets the key of all zeros, which no
    protocol has, so neither protocol is enforced. *)
Theorem later_protocols_unenforced s x l y :
  nt_MatchProtocols (ss_Network s) = x :: l →
  char_in comma (npt_Protocol x) = false →
  y ∈ l → char_in comma (npt_Protocol y) = true →
  npt_Protocol <$> nt_MatchProtocols (ss_Network (fill_spec s)) =
    npt_Protocol <$> (x :: l) ∧
  net_key (npt_Protocol y) = zero_key ∧
  ∀ p, is_Some (protocols !! ToUpper p) ∨ is_Some (netType !! ToUpper p) →
       net_key p ≠ net_key (npt_Protocol y).
Proof.
  intros Hl Hx Hy Hc. apply ToUpper_comma in Hc as Hu.
  assert (Hz : net_key (npt_Protocol y) = zero_key).
  { unfold net_key. by rewrite !comma_free_lookup by (try done; by vm_compute). }
  split; [|split; [done|]].
  - cbn -[fill expand_network]. unfold expand_network. simpl. rewrite Hl.
    rewrite expand_kept by done. unfold fill. by rewrite <- list_fmap_compose.
  - intros p Hp. rewrite Hz. unfold net_key.
    destruct (protocols !! ToUpper p) as [v|]; [by unfold byte_key, zero_key|].
    destruct (netType !! ToUpper p) as [v|]; [by unfold byte_key, zero_key|].
    by destruct Hp as [[? ?]|[? ?]].
Qed.

(** ** Witnesses *)

Definition proto (p action : string) : NetworkProtocolType :=
  {| npt_Protocol := p; npt_FromSource := []; npt_Severity := 0; npt_Tags := [];
     npt_Message := ""; npt_Action := action |}.

Definition sample_selector : SelectorType :=
  {| sel_MatchLabels := {["app" := "web"; "tier" := "front";
                          container_name_key := "[nginx, sidecar]"]};
     sel_MatchExpressions := []; sel_Containers := []; sel_Identities := [];
     sel_MatchExpIdentities := []; sel_NonIdentities := []; sel_NamespaceList := [] |}.

(** Two protocol rules, one with an action of its own *)
Definition sample_spec (first second : string) : SecuritySpec :=
  {| ss_Selector := sample_selector; ss_Process := empty_ProcessType;
     ss_File := empty_FileType;
     ss_Network := {| nt_MatchProtocols := [proto first "Allow"; proto second ""];
       nt_Severity := 0; nt_Tags := []; nt_Message := ""; nt_Action := "" |};
     ss_Capabilities := empty_CapabilitiesType; ss_Syscalls := empty_SyscallsType;
     ss_Presets := []; ss_AppArmor := ""; ss_Severity := 3; ss_Tags := []; ss_Message := "";
     ss_Action := "" |}.

Definition sample_object : Object SecuritySpec :=
  KSP {| cr_Namespace := "shop"; cr_Name := "net"; cr_Spec := sample_spec "tcp,udp" "raw" |}.

(** A codec that can only carry one specification *)
Definition one_spec (s : SecuritySpec) : string → option SecuritySpec := λ _, Some s.

Definition created : Res (option SecurityPolicy) :=
  CreateSecurityPolicy (R:=canonical_range) (λ _, "{}") (one_spec (sample_spec "tcp,udp" "raw"))
    None KubeArmorPolicy sample_object.

Definition created_policy : SecurityPolicy :=
  match created with
  | Ok (Some p) => p
  | _ => {| sp_Metadata := ∅; sp_Spec := empty_SecuritySpec |}
  end.

Example created_sample :
  let sel := ss_Selector (sp_Spec created_policy) in
  sel_Identities sel = ["app=web"; "namespaceName=shop"; "tier=front"] ∧
  sel_Containers sel = ["nginx"; "sidecar"] ∧
  spec_actions (sp_Spec created_policy) = ["Allow"; "Allow"; "Block"] ∧
  npt_Protocol <$> nt_MatchProtocols (ss_Network (sp_Spec created_policy)) =
    ["tcp"; "udp"; "raw"].
Proof. vm_compute. auto. Qed.

Lemma created_actions_witness :
  created = Ok (Some created_policy) ∧
  ∃ o s, (sample_object = KSP o ∨ sample_object = CSP o) ∧
    Clone (λ _, "{}") (one_spec (sample_spec "tcp,udp" "raw")) (cr_Spec o) = Some s ∧
    sp_Metadata created_policy = policy_metadata (cr_Namespace o) (cr_Name o) ∧
    spec_actions (sp_Spec created_policy) = resolved_actions s ∧
    Forall (λ a, a ≠ "") (spec_actions (sp_Spec created_policy)).
Proof.
  assert (H : created = Ok (Some created_policy)) by reflexivity.
  split; [exact H|]. exact (created_actions _ _ _ _ _ _ H (or_introl eq_refl)).
Defined.

Definition reverse_order : GoRange := λ K V _ _ m, rev (map_to_list m).
Lemma reverse_order_law : GoRangeLaw reverse_order.
Proof. intros K V ? ? m. symmetry. apply Permutation_rev. Qed.

Lemma CreateSecurityPolicy_order_witness :
  created = CreateSecurityPolicy (R:=reverse_order) (λ _, "{}")
    (one_spec (sample_spec "tcp,udp" "raw")) None KubeArmorPolicy sample_object.
Proof.
  exact (proj1 (CreateSecurityPolicy_order_independent (λ _, "{}")
    (one_spec (sample_spec "tcp,udp" "raw")) (λ _ : unit, "") (λ _, None)
    canonical_range reverse_order (GoRangeLaw0:=canonical_range_law)
    (GoRangeLaw1:=reverse_order_law) None KubeArmorPolicy sample_object "" tt)).
Defined.

Lemma later_protocols_unenforced_witness :
  net_key "udp,icmp" = zero_key ∧ net_key "udp" ≠ net_key "udp,icmp".
Proof.
  destruct (later_protocols_unenforced (sample_spec "tcp" "udp,icmp") (proto "tcp" "Allow")
    [proto "udp,icmp" ""] (proto "udp,icmp" "")) as (_ & H1 & H2);
    [reflexivity|reflexivity|left|reflexivity|].
  split; [exact H1|]. apply H2. left. vm_compute. by eexists.
Defined.
