(* ===== verification/Daemon.v ===== *)
(** The daemon's state and its security policies ([KubeArmor/core/kubeArmor.go],
    [KubeArmorDaemon]; [KubeArmor/core/kubeUpdate.go], [UpdateSecurityPolicy],
    [GetSecurityPolicies], the handlers of the policy watchers, host policies).

    The daemon keeps the policies, the endpoints with the policies that apply to
    each, and tells the feeder, the enforcer and the presets about every change.
    These are behind the class [Backend]: what they do is theirs.  Answers of the
    Kubernetes API are arguments; [None] is an error. *)
From Stdlib Require Import Ascii String.
From S2P Require Import Prelude GoStrings Types Common PolicySpec.

Open Scope string_scope.

(** ** The other components *)

(** The calls that the daemon makes; any of them may panic. *)
Class Backend (W : Type) := {
  logger_UpdateSecurityPolicies : string → EndPoint → W → Res W;
  logger_UpdateHostSecurityPolicies : string → list HostSecurityPolicy → W → Res W;
  logger_UpdateDefaultPosture : string → string → DefaultPosture → W → Res W;
  enforcer_UpdateSecurityPolicies : EndPoint → W → Res W;
  enforcer_UpdateHostSecurityPolicies : list HostSecurityPolicy → W → Res W;
  enforcer_UpdateAppArmorProfiles :
    string → string → gmap string string → gset string → W → Res W;
  presets_UpdateSecurityPolicies : EndPoint → W → Res W;
  monitor_HandleUnknownNamespaceNsMap : string → string → Z → Z → W → Res W;
  monitor_UpdateVisibility_ns : string → string → Visibility → W → Res W;
  backup_HostPolicy : HostSecurityPolicy → W → Res W;
  backup_ContainerPolicy : SecurityPolicy → W → Res W;
  remove_BackUpPolicy : string → W → Res W }.

(** What the daemon reads of its configuration and of the components that exist: the
    enforcer is absent ([nil]) or has a type. *)
Record Settings := {
  cf_Policy : bool; cf_HostPolicy : bool; cf_KVMAgent : bool; cf_K8sEnv : bool;
  cf_RuntimeEnforcer : option string;
  cf_Presets : bool;
  cf_UntrackedNamespaces : list string }.

Definition is_some {A} (o : option A) : bool := match o with Some _ => true | None => false end.

Section notify.
Context {W : Type} `{B : !Backend W} (cfg : Settings).

(** The enforcement that follows a change of an endpoint *)
Definition enforce (ep : EndPoint) (w : W) : Res W :=
  if (ep_PolicyEnabled ep =? KubeArmorPolicyEnabled)%Z
     && negb (ContainsElement (cf_UntrackedNamespaces cfg) (ep_NamespaceName ep)) then
    w ← (if is_some (cf_RuntimeEnforcer cfg) then enforcer_UpdateSecurityPolicies ep w
         else Ok w);
    if cf_Presets cfg then presets_UpdateSecurityPolicies ep w else Ok w
  else Ok w.

Definition notify (action : string) (ep : EndPoint) (w : W) : Res W :=
  if cf_Policy cfg then
    w ← logger_UpdateSecurityPolicies action ep w; enforce ep w
  else Ok w.
End notify.

(** ** State *)

Record Node := {
  node_ClusterName : string; node_NodeName : string; node_NodeIP : string;
  node_NodeID : string;
  node_Annotations : gmap string string; node_Labels : gmap string string;
  node_Identities : list string;
  node_Architecture : string; node_OperatingSystem : string; node_OSImage : string;
  node_KernelVersion : string; node_KubeletVersion : string;
  node_ContainerRuntimeVersion : string; node_LastUpdatedAt : string;
  node_PolicyEnabled : Z;
  node_ProcessVisibilityEnabled : bool; node_FileVisibilityEnabled : bool;
  node_NetworkVisibilityEnabled : bool; node_CapabilitiesVisibilityEnabled : bool }.

Record K8sPod := {
  pod_Metadata : gmap string string; pod_Annotations : gmap string string;
  pod_Labels : gmap string string; pod_Containers : gmap string string;
  pod_ContainerImages : gmap string string;
  pod_PrivilegedContainers : gset string; pod_PrivilegedAppArmorProfiles : gset string }.

(** The zero node of Go, with empty maps *)
Definition zero_Node : Node :=
  {| node_ClusterName := ""; node_NodeName := ""; node_NodeIP := ""; node_NodeID := "";
     node_Annotations := ∅; node_Labels := ∅; node_Identities := [];
     node_Architecture := ""; node_OperatingSystem := ""; node_OSImage := "";
     node_KernelVersion := ""; node_KubeletVersion := ""; node_ContainerRuntimeVersion := "";
     node_LastUpdatedAt := ""; node_PolicyEnabled := 0;
     node_ProcessVisibilityEnabled := false; node_FileVisibilityEnabled := false;
     node_NetworkVisibilityEnabled := false; node_CapabilitiesVisibilityEnabled := false |}.

(** Reference, name and namespace *)
Definition PodOwner : Type := string * string * string.

Section daemon.
Context `{R : GoRange} {W : Type} `{B : !Backend W} (cfg : Settings).
Context (CompilePOSIX : string → option (string → bool)).

Record Daemon := {
  dm_Node : Node;
  dm_K8sPods : list K8sPod;
  dm_Containers : gmap string Container;
  dm_EndPoints : list EndPoint;
  dm_OwnerInfo : gmap string PodOwner;
  dm_SecurityPolicies : list SecurityPolicy;
  dm_HostSecurityPolicies : list HostSecurityPolicy;
  dm_DefaultPostures : gmap string DefaultPosture;
  dm_GlobalPosture : DefaultPosture;   (* of [cfg.GlobalCfg] *)
  dm_w : W }.

Definition set_EndPoints (l : list EndPoint) (dm : Daemon) : Daemon :=
  {| dm_Node := dm_Node dm; dm_K8sPods := dm_K8sPods dm; dm_Containers := dm_Containers dm;
     dm_EndPoints := l; dm_OwnerInfo := dm_OwnerInfo dm;
     dm_SecurityPolicies := dm_SecurityPolicies dm;
     dm_HostSecurityPolicies := dm_HostSecurityPolicies dm;
     dm_DefaultPostures := dm_DefaultPostures dm; dm_GlobalPosture := dm_GlobalPosture dm;
     dm_w := dm_w dm |}.
Definition set_SecurityPolicies (l : list SecurityPolicy) (dm : Daemon) : Daemon :=
  {| dm_Node := dm_Node dm; dm_K8sPods := dm_K8sPods dm; dm_Containers := dm_Containers dm;
     dm_EndPoints := dm_EndPoints dm; dm_OwnerInfo := dm_OwnerInfo dm;
     dm_SecurityPolicies := l;
     dm_HostSecurityPolicies := dm_HostSecurityPolicies dm;
     dm_DefaultPostures := dm_DefaultPostures dm; dm_GlobalPosture := dm_GlobalPosture dm;
     dm_w := dm_w dm |}.
Definition set_HostSecurityPolicies (l : list HostSecurityPolicy) (dm : Daemon) : Daemon :=
  {| dm_Node := dm_Node dm; dm_K8sPods := dm_K8sPods dm; dm_Containers := dm_Containers dm;
     dm_EndPoints := dm_EndPoints dm; dm_OwnerInfo := dm_OwnerInfo dm;
     dm_SecurityPolicies := dm_SecurityPolicies dm;
     dm_HostSecurityPolicies := l;
     dm_DefaultPostures := dm_DefaultPostures dm; dm_GlobalPosture := dm_GlobalPosture dm;
     dm_w := dm_w dm |}.
Definition set_dm_w (w : W) (dm : Daemon) : Daemon :=
  {| dm_Node := dm_Node dm; dm_K8sPods := dm_K8sPods dm; dm_Containers := dm_Containers dm;
     dm_EndPoints := dm_EndPoints dm; dm_OwnerInfo := dm_OwnerInfo dm;
     dm_SecurityPolicies := dm_SecurityPolicies dm;
     dm_HostSecurityPolicies := dm_HostSecurityPolicies dm;
     dm_DefaultPostures := dm_DefaultPostures dm; dm_GlobalPosture := dm_GlobalPosture dm;
     dm_w := w |}.

(** A call to another component *)
Definition call (f : W → Res W) (dm : Daemon) : Res Daemon :=
  w ← f (dm_w dm); Ok (set_dm_w w dm).

(** ** Policies in lists *)

(** A missing key of the metadata reads as the empty string. *)
Definition meta (k : string) (p : SecurityPolicy) : string := default "" (sp_Metadata p !! k).

Definition same_policy (p q : SecurityPolicy) : bool :=
  String.eqb (meta "namespaceName" q) (meta "namespaceName" p)
  && String.eqb (meta "policyName" q) (meta "policyName" p).
Definition same_name (p q : SecurityPolicy) : bool :=
  String.eqb (meta "policyName" q) (meta "policyName" p).

Definition containsPolicy (endPointPolicies : list SecurityPolicy) (secPolicy : SecurityPolicy)
    : bool := existsb (same_name secPolicy) endPointPolicies.

(** The loops that overwrite or cut out the first policy that is the same, then stop *)
Fixpoint replace_first (same : SecurityPolicy → bool) (p : SecurityPolicy)
    (l : list SecurityPolicy) : list SecurityPolicy :=
  match l with
  | [] => []
  | q :: l' => if same q then p :: l' else q :: replace_first same p l'
  end.
Fixpoint remove_first (same : SecurityPolicy → bool) (l : list SecurityPolicy)
    : list SecurityPolicy :=
  match l with
  | [] => []
  | q :: l' => if same q then l' else q :: remove_first same l'
  end.

Definition addEvent : string := "ADDED".
Definition updateEvent : string := "MODIFIED".
Definition deleteEvent : string := "DELETED".

(** The three branches on the policies of an endpoint, where [matches] says whether
    the policy selects it *)
Definition change_policies (action : string) (same : SecurityPolicy → bool)
    (matches : bool) (secPolicy : SecurityPolicy) (l : list SecurityPolicy)
    : list SecurityPolicy :=
  if String.eqb action addEvent then
    if matches && negb (existsb same l) then (l ++ [secPolicy])%list else l
  else if String.eqb action updateEvent then
    if existsb same l then
      if matches then replace_first same secPolicy l else remove_first same l
    else if matches then (l ++ [secPolicy])%list else l
  else if String.eqb action deleteEvent then remove_first same l
  else l.

Definition with_policies (l : list SecurityPolicy) (ep : EndPoint) : EndPoint :=
  {| ep_NamespaceName := ep_NamespaceName ep; ep_EndPointName := ep_EndPointName ep;
     ep_ContainerName := ep_ContainerName ep; ep_Labels := ep_Labels ep;
     ep_Identities := ep_Identities ep; ep_Containers := ep_Containers ep;
     ep_AppArmorProfiles := ep_AppArmorProfiles ep; ep_SELinuxProfiles := ep_SELinuxProfiles ep;
     ep_SecurityPolicies := l; ep_PrivilegedContainers := ep_PrivilegedContainers ep;
     ep_PolicyEnabled := ep_PolicyEnabled ep; ep_DefaultPosture := ep_DefaultPosture ep;
     ep_ProcessVisibilityEnabled := ep_ProcessVisibilityEnabled ep;
     ep_FileVisibilityEnabled := ep_FileVisibilityEnabled ep;
     ep_NetworkVisibilityEnabled := ep_NetworkVisibilityEnabled ep;
     ep_CapabilitiesVisibilityEnabled := ep_CapabilitiesVisibilityEnabled ep |}.

Definition selector (p : SecurityPolicy) : SelectorType := ss_Selector (sp_Spec p).

(** The selector has no containers or names the endpoint's *)
Definition selects_container (p : SecurityPolicy) (ep : EndPoint) : bool :=
  match sel_Containers (selector p) with
  | [] => true
  | l => ContainsElement l (ep_ContainerName ep)
  end.

Definition ksp_matches (p : SecurityPolicy) (ep : EndPoint) : bool :=
  MatchIdentities CompilePOSIX (sel_Identities (selector p)) (ep_Identities ep)
  && MatchExpIdentities (selector p) (ep_Identities ep).
Definition csp_matches (p : SecurityPolicy) (ep : EndPoint) : bool :=
  ContainsElement (sel_NamespaceList (selector p)) (ep_NamespaceName ep)
  && MatchExpIdentities (selector p) (ep_Identities ep).

(** ** UpdateSecurityPolicy *)

(** One turn: [None] if the policy does not concern the endpoint *)
Definition update_endpoint (action secPolicyType : string) (secPolicy : SecurityPolicy)
    (ep : EndPoint) : option EndPoint :=
  if String.eqb secPolicyType KubeArmorPolicy then
    if selects_container secPolicy ep then
      Some (with_policies (change_policies action (same_policy secPolicy)
              (ksp_matches secPolicy ep) secPolicy (ep_SecurityPolicies ep)) ep)
    else None
  else if String.eqb secPolicyType KubeArmorClusterPolicy then
    if ContainsElement (sel_NamespaceList (selector secPolicy)) (ep_NamespaceName ep)
       || containsPolicy (ep_SecurityPolicies ep) secPolicy then
      Some (with_policies (change_policies action (same_name secPolicy)
              (csp_matches secPolicy ep) secPolicy (ep_SecurityPolicies ep)) ep)
    else None
  else None.

Definition update_index (action secPolicyType : string) (secPolicy : SecurityPolicy)
    (r : Res Daemon) (idx : nat) : Res Daemon :=
  dm ← r;
  match dm_EndPoints dm !! idx with
  | None => Panic
  | Some endPoint =>
      match update_endpoint action secPolicyType secPolicy endPoint with
      | None => Ok dm
      | Some endPoint =>
          call (notify cfg "UPDATED" endPoint)
            (set_EndPoints (<[idx := endPoint]> (dm_EndPoints dm)) dm)
      end
  end.

Definition UpdateSecurityPolicy (action secPolicyType : string) (secPolicy : SecurityPolicy)
    (dm : Daemon) : Res Daemon :=
  foldl (update_index action secPolicyType secPolicy) (Ok dm)
        (seq 0 (List.length (dm_EndPoints dm))).

(** ** Policies for an endpoint *)

(** The copy of a policy with the namespaces that a cluster policy selects now.
    [nsList] is what the API answers; without an answer the policy stays. *)
Record NsExprs := { nx_in : bool; nx_excluded : list string; nx_list : list string }.

Definition add_missing (l : list string) (v : string) : list string :=
  if ContainsElement l v then l else (l ++ [v])%list.

Definition namespace_step (st : NsExprs) (mx : MatchExpressionType) : NsExprs :=
  if String.eqb (mx_Key mx) "namespace" then
    if String.eqb (mx_Operator mx) "In" then
      {| nx_in := true; nx_excluded := nx_excluded st;
         nx_list := foldl add_missing (nx_list st) (mx_Values mx) |}
    else if String.eqb (mx_Operator mx) "NotIn" && negb (nx_in st) then
      {| nx_in := nx_in st; nx_excluded := (nx_excluded st ++ mx_Values mx)%list;
         nx_list := nx_list st |}
    else st
  else st.

Definition with_namespaces (l : list string) (p : SecurityPolicy) : SecurityPolicy :=
  let sel := selector p in
  {| sp_Metadata := sp_Metadata p;
     sp_Spec := with_selector
       {| sel_MatchLabels := sel_MatchLabels sel;
          sel_MatchExpressions := sel_MatchExpressions sel;
          sel_Containers := sel_Containers sel; sel_Identities := sel_Identities sel;
          sel_MatchExpIdentities := sel_MatchExpIdentities sel;
          sel_NonIdentities := sel_NonIdentities sel; sel_NamespaceList := l |} (sp_Spec p) |}.

Definition updateNamespaceListforCSP (nsList : option (list string)) (policy : SecurityPolicy)
    : SecurityPolicy :=
  let sel := selector policy in
  match sel_Identities sel with
  | _ :: _ => policy
  | [] =>
      let st := foldl namespace_step
                  {| nx_in := false; nx_excluded := []; nx_list := sel_NamespaceList sel |}
                  (sel_MatchExpressions sel) in
      if nx_in st then with_namespaces (nx_list st) policy
      else match nsList with
           | None => with_namespaces (nx_list st) policy
           | Some items =>
               with_namespaces
                 (foldl (λ l n, if bool_decide (n ∈ nx_excluded st) then l
                                else add_missing l n) (nx_list st) items) policy
           end
  end.

(** Matched by identities, as a namespaced policy, or by namespace, as a cluster one *)
Definition policy_applies (policy : SecurityPolicy) (endPoint : EndPoint) : bool :=
  ksp_matches policy endPoint || csp_matches policy endPoint.

Definition zero_SecurityPolicy : SecurityPolicy :=
  {| sp_Metadata := ∅; sp_Spec := empty_SecuritySpec |}.

(** The codec under [kl.Clone]; an error is logged and the policy is left zero. *)
Context (MarshalPolicy : SecurityPolicy → string)
        (UnmarshalPolicy : string → option SecurityPolicy).

Definition GetSecurityPolicies (nsList : option (list string)) (endPoint : EndPoint)
    (dm : Daemon) : list SecurityPolicy :=
  let policies := updateNamespaceListforCSP nsList <$> dm_SecurityPolicies dm in
  (λ p, default zero_SecurityPolicy (Clone MarshalPolicy UnmarshalPolicy p)) <$>
  filter (λ p, policy_applies p endPoint) policies.

(** ** Handlers of the policy watchers *)

Context {RawSpec : Type} (MarshalSpec : RawSpec → string)
        (UnmarshalSpec : string → option SecuritySpec).

(** The change of the daemon's list of policies *)
Definition store_policies (event : string) (same : SecurityPolicy → bool)
    (secPolicy : SecurityPolicy) (l : list SecurityPolicy) : list SecurityPolicy :=
  if String.eqb event addEvent then
    if existsb same l then l else (l ++ [secPolicy])%list
  else if String.eqb event updateEvent then replace_first same secPolicy l
  else if String.eqb event deleteEvent then remove_first same l
  else l.

Definition store_policy (event secPolicyType : string) (secPolicy : SecurityPolicy)
    (dm : Daemon) : Daemon :=
  let same := if String.eqb secPolicyType KubeArmorPolicy then same_policy secPolicy
              else same_name secPolicy in
  set_SecurityPolicies (store_policies event same secPolicy (dm_SecurityPolicies dm)) dm.

(** [AddFunc], [UpdateFunc] and [DeleteFunc] of the two watchers *)
Definition handle_policy (nsList : option (list string)) (event secPolicyType : string)
    (obj : Object RawSpec) (dm : Daemon) : Res Daemon :=
  created ← CreateSecurityPolicy MarshalSpec UnmarshalSpec nsList secPolicyType obj;
  match created with
  | None => Ok dm
  | Some secPolicy =>
      UpdateSecurityPolicy event secPolicyType secPolicy
        (store_policy event secPolicyType secPolicy dm)
  end.

(** ** Host policies *)

Inductive PolicyStatus :=
| Failure | Deleted | Applied | Modified | NotExist | NotEnabled | Invalid.

Definition host_name (p : HostSecurityPolicy) : string :=
  default "" (hp_Metadata p !! "policyName").

Definition UpdateHostSecurityPolicies (dm : Daemon) : Res Daemon :=
  let secPolicies :=
    filter (λ p, MatchIdentities CompilePOSIX (nsel_Identities (hs_NodeSelector (hp_Spec p)))
                   (node_Identities (dm_Node dm))) (dm_HostSecurityPolicies dm) in
  if cf_HostPolicy cfg then
    call (λ w, w ← logger_UpdateHostSecurityPolicies "UPDATED" secPolicies w;
               if is_some (cf_RuntimeEnforcer cfg)
                  && (node_PolicyEnabled (dm_Node dm) =? KubeArmorPolicyEnabled)%Z
               then enforcer_UpdateHostSecurityPolicies secPolicies w else Ok w) dm
  else Ok dm.

(** The first host policy of that name *)
Definition find_host (name : string) (l : list HostSecurityPolicy)
    : option (nat * HostSecurityPolicy) :=
  list_find (λ p, host_name p = name) l.

(** The change of the list: the new list and the event that is reported, or the status
    with which the handler returns at once *)
Definition store_host (event : string) (secPolicy : HostSecurityPolicy)
    (l : list HostSecurityPolicy) : (list HostSecurityPolicy * string) + PolicyStatus :=
  let old := find_host (host_name secPolicy) l in
  if String.eqb event addEvent then
    match old with
    | Some (idx, policy) =>
        if bool_decide (policy = secPolicy) then inr Applied
        else inl (<[idx := secPolicy]> l, updateEvent)
    | None => inl ((l ++ [secPolicy])%list, event)
    end
  else if String.eqb event updateEvent then
    match old with
    | Some (idx, policy) =>
        if bool_decide (policy = secPolicy) then inr Applied
        else inl (<[idx := secPolicy]> l, event)
    | None => inl (l, event)
    end
  else if String.eqb event deleteEvent then
    match old with
    | Some (idx, _) => inl (delete idx l, event)
    | None => inr NotExist
    end
  else inl (l, event).

Context {RawHostSpec : Type} (MarshalHost : RawHostSpec → string)
        (UnmarshalHost : string → option HostSecuritySpec).

Definition ParseAndUpdateHostSecurityPolicy (event name : string) (spec : RawHostSpec)
    (dm : Daemon) : Res (Daemon * PolicyStatus) :=
  match create_host_policy MarshalHost UnmarshalHost name spec with
  | None => Ok (dm, Failure)
  | Some secPolicy =>
      match store_host event secPolicy (dm_HostSecurityPolicies dm) with
      | inr status => Ok (dm, status)
      | inl (l, event) =>
          dm ← UpdateHostSecurityPolicies (set_HostSecurityPolicies l dm);
          dm ← (if negb (cf_K8sEnv cfg) && (cf_KVMAgent cfg || cf_HostPolicy cfg) then
                  if String.eqb event addEvent || String.eqb event updateEvent
                  then call (backup_HostPolicy secPolicy) dm
                  else if String.eqb event deleteEvent
                  then call (remove_BackUpPolicy (host_name secPolicy)) dm else Ok dm
                else Ok dm);
          Ok (dm, if String.eqb event addEvent then Applied
                  else if String.eqb event deleteEvent then Deleted else Modified)
      end
  end.

End daemon.
Arguments Daemon : clear implicits.
