(* ===== verification/DaemonProps.v ===== *)
(** Properties of the daemon's policy handling: what one policy event does to all
    endpoints, that endpoints hold exactly the stored policies that apply to them,
    and the events after which they do not. *)
From Stdlib Require Import Ascii String.
From S2P Require Import Prelude GoStrings Types Common PolicySpec Daemon.

Open Scope string_scope.

Section props.
Context `{R : GoRange} {W : Type} `{B : !Backend W} (cfg : Settings).
Context (CompilePOSIX : string → option (string → bool)).

Implicit Types dm : Daemon W.
Implicit Types p q : SecurityPolicy.
Implicit Types ep : EndPoint.

(** ** One policy event *)

(** Notifications of a list of endpoints, in order *)
Definition notify_all (action : string) (l : list EndPoint) (w : W) : Res W :=
  foldl (λ r ep, w ← r; notify cfg action ep w) (Ok w) l.

Definition updated (action ty : string) p ep : EndPoint :=
  default ep (update_endpoint CompilePOSIX action ty p ep).

Lemma update_index_Panic action ty p (l : list nat) :
  foldl (update_index cfg CompilePOSIX action ty p) (Panic : Res (Daemon W)) l = Panic.
Proof. induction l; simpl; auto. Qed.

Lemma set_EndPoints_twice l1 l2 dm : set_EndPoints l2 (set_EndPoints l1 dm) = set_EndPoints l2 dm.
Proof. done. Qed.

Lemma update_suffix action ty p (post pre : list EndPoint) dm w :
  foldl (update_index cfg CompilePOSIX action ty p)
        (Ok (set_dm_w w (set_EndPoints (pre ++ post) dm)))
        (seq (List.length pre) (List.length post)) =
  w' ← notify_all "UPDATED" (omap (update_endpoint CompilePOSIX action ty p) post) w;
  Ok (set_dm_w w' (set_EndPoints (pre ++ (updated action ty p <$> post)) dm)).
Proof.
  revert pre w. induction post as [|ep post IH]; intros pre w; [done|].
  cbn [List.length seq foldl].
  unfold update_index at 2. cbn [mbind Res_bind].
  cbn [dm_EndPoints set_dm_w set_EndPoints]. rewrite list_lookup_middle by done.
  unfold updated at 1. cbn [fmap list_fmap omap list_omap].
  destruct (update_endpoint CompilePOSIX action ty p ep) as [ep'|] eqn:Hu; cbn [default].
  - unfold call. cbn [dm_w set_dm_w set_EndPoints mbind Res_bind].
    unfold notify_all. cbn [foldl mbind Res_bind].
    destruct (notify cfg "UPDATED" ep' w) as [w'|].
    + specialize (IH (pre ++ [ep'])%list w'). rewrite length_app in IH. simpl in IH.
      rewrite Nat.add_1_r in IH. rewrite <- !app_assoc in IH. cbn [app] in IH.
      unfold notify_all in IH. cbn [mbind Res_bind].
      rewrite insert_app_r_alt, Nat.sub_diag by done. cbn [insert list_insert].
      exact IH.
    + rewrite update_index_Panic. cbn [mbind Res_bind].
      by rewrite (foldl_Panic (λ ep w, notify cfg "UPDATED" ep w)).
  - specialize (IH (pre ++ [ep])%list w). rewrite length_app in IH. simpl in IH.
    rewrite Nat.add_1_r in IH. rewrite <- !app_assoc in IH. exact IH.
Qed.

(** The whole loop, as one step on the list of endpoints *)
Lemma UpdateSecurityPolicy_eq action ty p dm :
  UpdateSecurityPolicy cfg CompilePOSIX action ty p dm =
  w ← notify_all "UPDATED" (omap (update_endpoint CompilePOSIX action ty p) (dm_EndPoints dm))
        (dm_w dm);
  Ok (set_dm_w w (set_EndPoints (updated action ty p <$> dm_EndPoints dm) dm)).
Proof.
  unfold UpdateSecurityPolicy.
  pose proof (update_suffix action ty p (dm_EndPoints dm) [] dm (dm_w dm)) as H.
  simpl in H. rewrite <- H. by destruct dm.
Qed.

(** ** Lists of policies by namespace and name *)

Definition pol_key p : string * string := (meta "namespaceName" p, meta "policyName" p).

Lemma same_policy_spec p q : same_policy p q = true ↔ pol_key q = pol_key p.
Proof.
  unfold same_policy, pol_key. rewrite andb_true_iff, !String.eqb_eq. split.
  - by intros [-> ->].
  - by intros [= -> ->].
Qed.

Lemma existsb_same p l : existsb (same_policy p) l = true ↔ pol_key p ∈ pol_key <$> l.
Proof.
  rewrite existsb_exists, list_elem_of_fmap. split.
  - intros (q & Hq & Hs%same_policy_spec). exists q. by rewrite list_elem_of_In.
  - intros (q & Hs & Hq). exists q. rewrite <- list_elem_of_In. by rewrite same_policy_spec.
Qed.

Lemma existsb_same_false p l :
  existsb (same_policy p) l = false ↔ pol_key p ∉ pol_key <$> l.
Proof. by rewrite <- existsb_same, not_true_iff_false. Qed.

Lemma remove_first_none same l : existsb same l = false → remove_first same l = l.
Proof.
  induction l as [|q l IH]; [done|]. simpl. intros [Hq Hl]%orb_false_elim.
  by rewrite Hq, IH.
Qed.

Lemma replace_first_none same p l : existsb same l = false → replace_first same p l = l.
Proof.
  induction l as [|q l IH]; [done|]. simpl. intros [Hq Hl]%orb_false_elim.
  by rewrite Hq, IH.
Qed.

Lemma remove_first_keys p l :
  NoDup (pol_key <$> l) → NoDup (pol_key <$> remove_first (same_policy p) l) ∧
  ∀ x, x ∈ remove_first (same_policy p) l ↔ x ∈ l ∧ pol_key x ≠ pol_key p.
Proof.
  induction l as [|q l IH]; cbn [fmap list_fmap remove_first]; intros Hnd.
  { split; [done|]. set_solver. }
  apply list.NoDup_cons in Hnd as [Hq Hnd]. destruct (IH Hnd) as [IHn IHe].
  destruct (same_policy p q) eqn:Hs.
  - apply same_policy_spec in Hs. split; [done|]. intros x. rewrite elem_of_cons. split.
    + intros Hx. split; [by right|]. intros Hk. apply Hq. rewrite Hs, <- Hk.
      by apply list_elem_of_fmap_2.
    + intros [[->|Hx] Hk]; [by rewrite Hs in Hk|done].
  - assert (Hk : pol_key q ≠ pol_key p).
    { intros Hk. apply same_policy_spec in Hk. congruence. }
    split.
    + cbn [fmap list_fmap]. apply list.NoDup_cons. split; [|done].
      intros (y & Hy & Hin)%list_elem_of_fmap. apply IHe in Hin as [Hin _]. apply Hq.
      rewrite Hy. by apply list_elem_of_fmap_2.
    + intros x. rewrite !elem_of_cons, IHe. split.
      * intros [->|[? ?]]; auto.
      * intros [[->|?] ?]; auto.
Qed.

Lemma replace_first_same_keys p l :
  pol_key <$> replace_first (same_policy p) p l = pol_key <$> l.
Proof.
  induction l as [|q l IH]; [done|]. cbn [replace_first].
  destruct (same_policy p q) eqn:Hs; cbn [fmap list_fmap]; [|by rewrite IH].
  by apply same_policy_spec in Hs as ->.
Qed.

Lemma elem_of_replace_first p l x :
  NoDup (pol_key <$> l) → pol_key p ∈ pol_key <$> l →
  x ∈ replace_first (same_policy p) p l ↔ x ∈ l ∧ pol_key x ≠ pol_key p ∨ x = p.
Proof.
  induction l as [|q l IH]; cbn [fmap list_fmap replace_first]; intros Hnd Hin.
  { by apply elem_of_nil in Hin. }
  apply list.NoDup_cons in Hnd as [Hq Hnd].
  destruct (same_policy p q) eqn:Hs.
  - apply same_policy_spec in Hs. rewrite !elem_of_cons. split.
    + intros [->|Hx]; [by right|]. left. split; [by right|]. intros Hk. apply Hq.
      rewrite Hs, <- Hk. by apply list_elem_of_fmap_2.
    + intros [[[->|Hx] Hk]| ->]; [done|by right|by left].
  - assert (Hk : pol_key q ≠ pol_key p).
    { intros Hk. apply same_policy_spec in Hk. congruence. }
    apply elem_of_cons in Hin as [Hin|Hin]; [congruence|].
    rewrite !elem_of_cons, IH by done. split.
    + intros [Hx|[[? ?]|Hx]]; [subst x|..]; auto.
    + intros [[Hx ?]|Hx]; [|by auto]. destruct Hx as [Hx|Hx]; auto.
Qed.

(** What a namespaced policy event does to a list without two policies of one key *)
Lemma change_policies_add (m : bool) p l :
  NoDup (pol_key <$> l) →
  let l' := change_policies addEvent (same_policy p) m p l in
  NoDup (pol_key <$> l') ∧
  ∀ x, x ∈ l' ↔ x ∈ l ∨ (m = true ∧ (pol_key p ∉ pol_key <$> l) ∧ x = p).
Proof.
  intros Hnd. unfold change_policies. simpl. destruct m; simpl.
  - destruct (existsb (same_policy p) l) eqn:He; simpl.
    + apply existsb_same in He. split; [done|]. intros x. split; [auto|].
      by intros [?|(_ & ? & _)].
    + apply existsb_same_false in He. split.
      * rewrite fmap_app. simpl. apply list.NoDup_app. split; [done|]. split; [|apply list.NoDup_singleton].
        intros k Hk. by intros ->%list_elem_of_singleton.
      * intros x. rewrite elem_of_app, list_elem_of_singleton. split.
        -- intros [?| ->]; auto.
        -- intros [?|(_ & _ & ->)]; auto.
  - split; [done|]. intros x. split; [auto|]. by intros [?|[? _]].
Qed.

Lemma change_policies_update (m : bool) p l :
  NoDup (pol_key <$> l) →
  let l' := change_policies updateEvent (same_policy p) m p l in
  NoDup (pol_key <$> l') ∧
  ∀ x, x ∈ l' ↔ x ∈ l ∧ pol_key x ≠ pol_key p ∨ m = true ∧ x = p.
Proof.
  intros Hnd. unfold change_policies. simpl.
  destruct (existsb (same_policy p) l) eqn:He.
  - apply existsb_same in He. destruct m.
    + split; [by rewrite replace_first_same_keys|].
      intros x. rewrite elem_of_replace_first by done. split.
      * intros [?| ->]; auto.
      * intros [?|[_ ->]]; auto.
    + destruct (remove_first_keys p l Hnd) as [Hn Hr]. split; [done|].
      intros x. rewrite Hr. split; [auto|]. by intros [?|[? _]].
  - apply existsb_same_false in He.
    assert (Hne : ∀ x, x ∈ l → pol_key x ≠ pol_key p).
    { intros x Hx Hk. apply He. rewrite <- Hk. by apply list_elem_of_fmap_2. }
    destruct m; simpl.
    + split.
      * rewrite fmap_app. simpl. apply list.NoDup_app. split; [done|]. split; [|apply list.NoDup_singleton].
        intros k Hk. by intros ->%list_elem_of_singleton.
      * intros x. rewrite elem_of_app, list_elem_of_singleton. split.
        -- intros [?| ->]; auto.
        -- intros [[? _]|[_ ->]]; auto.
    + split; [done|]. intros x. split; [auto|]. by intros [[? _]|[? _]].
Qed.

Lemma change_policies_delete (m : bool) p l :
  NoDup (pol_key <$> l) →
  let l' := change_policies deleteEvent (same_policy p) m p l in
  NoDup (pol_key <$> l') ∧ ∀ x, x ∈ l' ↔ x ∈ l ∧ pol_key x ≠ pol_key p.
Proof. intros Hnd. unfold change_policies. simpl. by apply remove_first_keys. Qed.

(** ** Endpoints and the stored policies *)

Lemma NoDup_fmap_eq {A K} (f : A → K) (l : list A) x y :
  NoDup (f <$> l) → x ∈ l → y ∈ l → f x = f y → x = y.
Proof.
  induction l as [|z l IH]; cbn [fmap list_fmap]; intros Hnd Hx Hy Hf.
  { by apply elem_of_nil in Hx. }
  apply list.NoDup_cons in Hnd as [Hz Hnd].
  apply elem_of_cons in Hx as [->|Hx]; apply elem_of_cons in Hy as [->|Hy]; auto.
  - exfalso. apply Hz. rewrite Hf. by apply list_elem_of_fmap_2.
  - exfalso. apply Hz. rewrite <- Hf. by apply list_elem_of_fmap_2.
Qed.

(** A namespaced policy applies to an endpoint *)
Definition applies p ep : bool := selects_container p ep && ksp_matches CompilePOSIX p ep.

(** Every endpoint holds, once, exactly the stored policies that apply to it. *)
Definition endpoint_agrees (store : list SecurityPolicy) ep : Prop :=
  NoDup (pol_key <$> ep_SecurityPolicies ep) ∧
  ∀ x, x ∈ ep_SecurityPolicies ep ↔ x ∈ store ∧ applies x ep = true.

Definition agrees dm : Prop :=
  NoDup (pol_key <$> dm_SecurityPolicies dm) ∧
  ∀ ep, ep ∈ dm_EndPoints dm → endpoint_agrees (dm_SecurityPolicies dm) ep.

(** The events that the watcher of namespaced policies delivers: a policy is added
    once, then changed, then deleted as it was last seen.  A change may not take away
    the container of an endpoint that the policy applied to. *)
Inductive valid_event dm : string → SecurityPolicy → Prop :=
| valid_add p : pol_key p ∉ pol_key <$> dm_SecurityPolicies dm → valid_event dm addEvent p
| valid_update p :
    pol_key p ∈ pol_key <$> dm_SecurityPolicies dm →
    (∀ ep q, ep ∈ dm_EndPoints dm → q ∈ dm_SecurityPolicies dm → pol_key q = pol_key p →
             applies q ep = true → selects_container p ep = true) →
    valid_event dm updateEvent p
| valid_delete p : p ∈ dm_SecurityPolicies dm → valid_event dm deleteEvent p.

(** The two halves of a watcher's handler *)
Definition policy_event (event ty : string) p dm : Res (Daemon W) :=
  UpdateSecurityPolicy cfg CompilePOSIX event ty p (store_policy event ty p dm).

Lemma policies_with l ep : ep_SecurityPolicies (with_policies l ep) = l.
Proof. done. Qed.

#[local] Arguments with_policies : simpl never.
#[local] Arguments applies : simpl never.

Lemma applies_with_policies p l ep : applies p (with_policies l ep) = applies p ep.
Proof. done. Qed.

(** The change of the store and of an endpoint that agrees with it, side by side *)
Lemma store_ep_step dm event p (store : list SecurityPolicy) :
  NoDup (pol_key <$> dm_SecurityPolicies dm) → valid_event dm event p →
  store = store_policies event (same_policy p) p (dm_SecurityPolicies dm) →
  NoDup (pol_key <$> store) ∧
  ∀ ep, ep ∈ dm_EndPoints dm → endpoint_agrees (dm_SecurityPolicies dm) ep →
        endpoint_agrees store (updated event KubeArmorPolicy p ep).
Proof.
  intros Hnd Hev ->. unfold updated, update_endpoint, store_policies. cbn [String.eqb].
  rewrite String.eqb_refl.
  destruct Hev as [p Hp|p Hp Hc|p Hp]; simpl.
  - rewrite (proj2 (existsb_same_false p _) Hp). split.
    { rewrite fmap_app. simpl. apply list.NoDup_app. split; [done|].
      split; [|apply list.NoDup_singleton]. intros k Hk. intros ->%list_elem_of_singleton. done. }
    intros ep _ [Hn He].
    assert (Hpe : pol_key p ∉ pol_key <$> ep_SecurityPolicies ep).
    { intros (x & Hk & Hx%He)%list_elem_of_fmap. apply Hp. rewrite Hk.
      apply list_elem_of_fmap_2, Hx. }
    destruct (selects_container p ep) eqn:Hs; cbn [from_option id].
    + destruct (change_policies_add (ksp_matches CompilePOSIX p ep) p _ Hn) as [Hn' Hx].
      split; [exact Hn'|]. intros x. rewrite policies_with.
      rewrite Hx, applies_with_policies, elem_of_app, list_elem_of_singleton, He. split.
      * intros [[? ?]|(Hm & _ & ->)]; [by auto|]. split; [by right|].
        unfold applies. by rewrite Hs, Hm.
      * intros [[?| ->] Ha]; [by auto|]. right. unfold applies in Ha. rewrite Hs in Ha. auto.
    + split; [done|]. intros x. rewrite He, elem_of_app, list_elem_of_singleton. split.
      * intros [? ?]; auto.
      * intros [[?| ->] Ha]; [done|]. unfold applies in Ha. by rewrite Hs in Ha.
  - split; [by rewrite replace_first_same_keys|]. intros ep Hep [Hn He].
    assert (Hst : ∀ x, x ∈ replace_first (same_policy p) p (dm_SecurityPolicies dm) ↔
                       x ∈ dm_SecurityPolicies dm ∧ pol_key x ≠ pol_key p ∨ x = p).
    { intros x. by apply elem_of_replace_first. }
    destruct (selects_container p ep) eqn:Hs; cbn [from_option id].
    + destruct (change_policies_update (ksp_matches CompilePOSIX p ep) p _ Hn) as [Hn' Hx].
      split; [exact Hn'|]. intros x. rewrite policies_with.
      rewrite Hx, applies_with_policies, Hst, He. split.
      * intros [[[? ?] ?]|[Hm ->]]; [by auto|]. split; [by right|].
        unfold applies. by rewrite Hs, Hm.
      * intros [[[? ?]| ->] Ha]; [by auto|]. right. unfold applies in Ha.
        rewrite Hs in Ha. auto.
    + split; [done|]. intros x. rewrite He, Hst. split.
      * intros [Hx Ha]. split; [left; split; [done|]|done]. intros Hk.
        rewrite (Hc ep x) in Hs by done. done.
      * intros [[[? ?]| ->] Ha]; [done|]. unfold applies in Ha. by rewrite Hs in Ha.
  - destruct (remove_first_keys p _ Hnd) as [Hn1 Hst]. split; [done|].
    intros ep _ [Hn He]. destruct (selects_container p ep) eqn:Hs; cbn [from_option id].
    + destruct (change_policies_delete (ksp_matches CompilePOSIX p ep) p _ Hn) as [Hn' Hx].
      split; [exact Hn'|]. intros x. rewrite policies_with.
      rewrite Hx, applies_with_policies, Hst, He. tauto.
    + split; [done|]. intros x. rewrite He, Hst. split; [|tauto].
      intros [Hx Ha]. split; [split; [done|]|done]. intros Hk.
      rewrite (NoDup_fmap_eq _ _ x p Hnd) in Ha by done. unfold applies in Ha.
      by rewrite Hs in Ha.
Qed.

Lemma policy_event_agrees dm dm' event p :
  agrees dm → valid_event dm event p → policy_event event KubeArmorPolicy p dm = Ok dm' →
  agrees dm'.
Proof.
  intros [Hnd Hag] Hev H. unfold policy_event in H. rewrite UpdateSecurityPolicy_eq in H.
  go_res H. injection H as <-.
  destruct (store_ep_step dm event p _ Hnd Hev eq_refl) as [Hn Hep].
  unfold store_policy. rewrite String.eqb_refl. split; [exact Hn|].
  cbn [dm_EndPoints set_dm_w set_EndPoints set_SecurityPolicies dm_SecurityPolicies].
  intros ep (ep0 & -> & Hin)%list_elem_of_fmap. apply Hep; auto.
Qed.

(** A backend that never panics *)
Class BackendTotal : Prop := {
  total_log : ∀ action ep w, ∃ w', logger_UpdateSecurityPolicies action ep w = Ok w';
  total_enforce : ∀ ep w, ∃ w', enforcer_UpdateSecurityPolicies ep w = Ok w';
  total_presets : ∀ ep w, ∃ w', presets_UpdateSecurityPolicies ep w = Ok w';
  total_unknown : ∀ id ns pidns mntns w,
    ∃ w', monitor_HandleUnknownNamespaceNsMap id ns pidns mntns w = Ok w' }.

Lemma notify_total `{BT : !BackendTotal} action ep w : ∃ w', notify cfg action ep w = Ok w'.
Proof.
  unfold notify, enforce. destruct (cf_Policy cfg); [|eauto].
  destruct (total_log action ep w) as [w1 ->]. cbn [mbind Res_bind].
  case_bool; [|eauto].
  assert (Hw : ∃ w2, (if is_some (cf_RuntimeEnforcer cfg)
                      then enforcer_UpdateSecurityPolicies ep w1 else Ok w1) = Ok w2).
  { case_bool; [apply total_enforce|eauto]. }
  destruct Hw as [w2 ->]. cbn [mbind Res_bind].
  case_bool; [apply total_presets|eauto].
Qed.

Lemma notify_all_total `{BT : !BackendTotal} action l w : ∃ w', notify_all action l w = Ok w'.
Proof.
  revert w. induction l as [|ep l IH]; intros w; [eauto|].
  unfold notify_all. cbn [foldl mbind Res_bind].
  destruct (notify_total action ep w) as [w' ->]. apply IH.
Qed.

Lemma policy_event_total `{BT : !BackendTotal} event ty p dm :
  ∃ dm', policy_event event ty p dm = Ok dm'.
Proof.
  unfold policy_event. rewrite UpdateSecurityPolicy_eq.
  destruct (notify_all_total "UPDATED"
    (omap (update_endpoint CompilePOSIX event ty p) (dm_EndPoints (store_policy event ty p dm)))
    (dm_w (store_policy event ty p dm))) as [w' ->].
  simpl. eauto.
Qed.

Lemma policy_event_endpoints event ty p dm dm' :
  policy_event event ty p dm = Ok dm' →
  dm_EndPoints dm' = updated event ty p <$> dm_EndPoints dm ∧
  dm_SecurityPolicies dm' = dm_SecurityPolicies (store_policy event ty p dm).
Proof.
  unfold policy_event. rewrite UpdateSecurityPolicy_eq. intros H. go_res H.
  injection H as <-. by destruct dm.
Qed.

(** ** Policies that stay *)

(** When a namespaced policy is changed so that its selector no longer names the
    container of an endpoint, the endpoint is left alone: it keeps the old version,
    also after the policy is deleted, when no stored policy has that name any more. *)
Theorem narrowed_policy_stays dm dm1 dm2 ep q p c cs :
  agrees dm → ep ∈ dm_EndPoints dm → q ∈ ep_SecurityPolicies ep →
  pol_key q = pol_key p →
  sel_Containers (selector p) = c :: cs → ep_ContainerName ep ∉ c :: cs →
  policy_event updateEvent KubeArmorPolicy p dm = Ok dm1 →
  policy_event deleteEvent KubeArmorPolicy p dm1 = Ok dm2 →
  ep ∈ dm_EndPoints dm2 ∧ pol_key q ∉ pol_key <$> dm_SecurityPolicies dm2.
Proof.
  intros [Hnd _] Hep Hq Hk Hc Hn [He1 Hs1]%policy_event_endpoints
    [He2 Hs2]%policy_event_endpoints.
  assert (Hu : ∀ event, updated event KubeArmorPolicy p ep = ep).
  { intros event. unfold updated, update_endpoint, selects_container. rewrite Hc. simpl.
    unfold ContainsElement. by rewrite bool_decide_eq_false_2. }
  split.
  - rewrite He2, He1, <- (Hu deleteEvent).
    apply list_elem_of_fmap_2. rewrite <- (Hu updateEvent). by apply list_elem_of_fmap_2.
  - rewrite Hs2. unfold store_policy. cbn [dm_SecurityPolicies set_SecurityPolicies].
    rewrite String.eqb_refl, Hs1. unfold store_policy.
    cbn [dm_SecurityPolicies set_SecurityPolicies]. rewrite String.eqb_refl.
    unfold store_policies. simpl.
    destruct (remove_first_keys p
      (replace_first (same_policy p) p (dm_SecurityPolicies dm))) as [_ Hr].
    { by rewrite replace_first_same_keys. }
    intros (x & Hx & [_ Hne]%Hr)%list_elem_of_fmap. congruence.
Qed.

Lemma remove_first_app same l1 q l2 :
  existsb same l1 = false → same q = true → remove_first same (l1 ++ q :: l2) = (l1 ++ l2)%list.
Proof.
  intros Hl Hq. induction l1 as [|x l1 IH]; simpl; [by rewrite Hq|].
  simpl in Hl. apply orb_false_elim in Hl as [Hx Hl]. by rewrite Hx, IH.
Qed.

Lemma existsb_middle (f : SecurityPolicy → bool) l1 q l2 :
  f q = true → existsb f (l1 ++ q :: l2) = true.
Proof. intros Hq. rewrite existsb_app. simpl. by rewrite Hq, orb_true_r. Qed.

(** A cluster policy is known by its name alone.  If a namespaced policy [q] of the
    same name is stored, adding the cluster policy [p] stores and applies nothing at
    the endpoints that hold [q]; deleting [p] again deletes [q] from the store and from
    those endpoints. *)
Theorem cluster_policy_deletes_namesake dm dm1 dm2 p q l1 l2 i ep e1 e2 :
  dm_SecurityPolicies dm = (l1 ++ q :: l2)%list →
  meta "policyName" q = meta "policyName" p →
  existsb (same_name p) l1 = false →
  dm_EndPoints dm !! i = Some ep → ep_SecurityPolicies ep = (e1 ++ q :: e2)%list →
  existsb (same_name p) e1 = false →
  policy_event addEvent KubeArmorClusterPolicy p dm = Ok dm1 →
  policy_event deleteEvent KubeArmorClusterPolicy p dm1 = Ok dm2 →
  dm_SecurityPolicies dm1 = (l1 ++ q :: l2)%list ∧ dm_EndPoints dm1 !! i = Some ep ∧
  dm_SecurityPolicies dm2 = (l1 ++ l2)%list ∧
  dm_EndPoints dm2 !! i = Some (with_policies (e1 ++ e2) ep).
Proof.
  intros Hst Hq Hl1 Hi Hep He1 [E1 S1]%policy_event_endpoints [E2 S2]%policy_event_endpoints.
  assert (Hs : same_name p q = true) by (unfold same_name; by rewrite String.eqb_eq).
  assert (Hc : containsPolicy (ep_SecurityPolicies ep) p = true).
  { unfold containsPolicy. rewrite Hep. by apply existsb_middle. }
  assert (Hu1 : updated addEvent KubeArmorClusterPolicy p ep = ep).
  { unfold updated, update_endpoint. cbn -[containsPolicy with_policies].
    rewrite Hc, orb_true_r. unfold change_policies. cbn -[with_policies].
    unfold containsPolicy in Hc. rewrite Hc, andb_false_r. by destruct ep. }
  assert (Hu2 : updated deleteEvent KubeArmorClusterPolicy p ep = with_policies (e1 ++ e2) ep).
  { unfold updated, update_endpoint. cbn -[containsPolicy with_policies].
    rewrite Hc, orb_true_r. unfold change_policies. cbn -[with_policies].
    by rewrite Hep, remove_first_app. }
  assert (Hs1 : dm_SecurityPolicies dm1 = (l1 ++ q :: l2)%list).
  { rewrite S1. unfold store_policy, store_policies. simpl.
    by rewrite Hst, existsb_middle. }
  split; [done|]. split; [|split].
  - by rewrite E1, list_lookup_fmap, Hi; simpl; rewrite Hu1.
  - rewrite S2. unfold store_policy, store_policies. simpl. by rewrite Hs1, remove_first_app.
  - rewrite E2, E1, !list_lookup_fmap, Hi. simpl. by rewrite Hu1, Hu2.
Qed.
End props.

(** ** Which calls are made *)

(** A backend that records the calls *)
Inductive Call :=
| CLog (action : string) (ep : EndPoint)
| CLogHost (action : string) (l : list HostSecurityPolicy)
| CLogPosture (action namespace : string) (posture : DefaultPosture)
| CEnforce (ep : EndPoint)
| CEnforceHost (l : list HostSecurityPolicy)
| CProfiles (podName action : string) (profiles : gmap string string)
    (privileged : gset string)
| CPresets (ep : EndPoint)
| CUnknown (containerID namespace : string) (pidns mntns : Z)
| CVisibility (action namespace : string) (visibility : Visibility)
| CBackupHost (p : HostSecurityPolicy)
| CBackup (p : SecurityPolicy)
| CRemoveBackup (name : string).

Definition Trace : Type := list Call.
Definition record (c : Call) (w : Trace) : Res Trace := Ok (w ++ [c])%list.

#[export] Instance trace_backend : Backend Trace := {
  logger_UpdateSecurityPolicies a ep := record (CLog a ep);
  logger_UpdateHostSecurityPolicies a l := record (CLogHost a l);
  logger_UpdateDefaultPosture a ns dp := record (CLogPosture a ns dp);
  enforcer_UpdateSecurityPolicies ep := record (CEnforce ep);
  enforcer_UpdateHostSecurityPolicies l := record (CEnforceHost l);
  enforcer_UpdateAppArmorProfiles n a ps priv := record (CProfiles n a ps priv);
  presets_UpdateSecurityPolicies ep := record (CPresets ep);
  monitor_HandleUnknownNamespaceNsMap id ns p m := record (CUnknown id ns p m);
  monitor_UpdateVisibility_ns a ns v := record (CVisibility a ns v);
  backup_HostPolicy p := record (CBackupHost p);
  backup_ContainerPolicy p := record (CBackup p);
  remove_BackUpPolicy n := record (CRemoveBackup n) }.

#[export] Instance trace_total : BackendTotal (B:=trace_backend).
Proof. split; intros; eexists; reflexivity. Qed.

Section trace.
Context `{R : GoRange} (cfg : Settings) (CompilePOSIX : string → option (string → bool)).

(** Enforcement is on for an endpoint. *)
Definition enforced (ep : EndPoint) : bool :=
  (ep_PolicyEnabled ep =? KubeArmorPolicyEnabled)%Z
  && negb (ContainsElement (cf_UntrackedNamespaces cfg) (ep_NamespaceName ep)).

(** The calls that one notification makes *)
Definition endpoint_calls (action : string) (ep : EndPoint) : list Call :=
  if cf_Policy cfg then
    CLog action ep ::
    (if enforced ep then
       (if is_some (cf_RuntimeEnforcer cfg) then [CEnforce ep] else []) ++
       (if cf_Presets cfg then [CPresets ep] else [])
     else [])
  else [].

Lemma notify_calls action ep (w : Trace) :
  notify cfg action ep w = Ok (w ++ endpoint_calls action ep)%list.
Proof.
  unfold notify, enforce, endpoint_calls, enforced.
  destruct (cf_Policy cfg); [|by rewrite app_nil_r]. cbn -[ContainsElement].
  destruct (_ && _); [|done].
  destruct (is_some _), (cf_Presets cfg); cbn; unfold record; by rewrite <- ?app_assoc.
Qed.

Lemma notify_all_calls action l (w : Trace) :
  notify_all cfg action l w = Ok (w ++ (l ≫= endpoint_calls action))%list.
Proof.
  revert w. induction l as [|ep l IH]; intros w.
  { cbn. by rewrite (app_nil_r (w : list Call)). }
  unfold notify_all. cbn [foldl mbind Res_bind]. rewrite notify_calls.
  unfold notify_all in IH. rewrite IH. simpl. by rewrite <- app_assoc.
Qed.

(** A policy event changes the endpoints one by one and, for each one it concerns,
    first tells the feeder and then, if the endpoint is enforced, the enforcer and the
    presets, all with the new policies; so the enforcer is never called for an endpoint
    that is audited, disabled or in an untracked namespace, nor when policies are off. *)
Theorem policy_event_calls event ty p (dm : Daemon Trace) :
  let eps := dm_EndPoints dm in
  let changed : list EndPoint := omap (update_endpoint CompilePOSIX event ty p) eps in
  let calls : list Call := changed ≫= endpoint_calls "UPDATED" in
  policy_event cfg CompilePOSIX event ty p dm =
    Ok (set_dm_w (dm_w dm ++ calls)%list
         (set_EndPoints (updated CompilePOSIX event ty p <$> eps)
            (store_policy event ty p dm))) ∧
  ∀ ep, CEnforce ep ∈ calls →
    ep ∈ changed ∧ cf_Policy cfg = true ∧
    ep_PolicyEnabled ep = KubeArmorPolicyEnabled ∧
    ep_NamespaceName ep ∉ cf_UntrackedNamespaces cfg.
Proof.
  intros eps changed calls. split.
  - unfold policy_event. rewrite UpdateSecurityPolicy_eq.
    change (dm_EndPoints (store_policy event ty p dm)) with (dm_EndPoints dm).
    change (dm_w (store_policy event ty p dm)) with (dm_w dm).
    rewrite notify_all_calls. done.
  - intros ep (ep' & Hc & Hin)%list_elem_of_bind. unfold endpoint_calls in Hc.
    destruct (cf_Policy cfg) eqn:Hpol; [|by apply elem_of_nil in Hc].
    apply elem_of_cons in Hc as [Hc|Hc]; [done|].
    destruct (enforced ep') eqn:Hen; [|by apply elem_of_nil in Hc].
    unfold enforced in Hen. apply andb_true_iff in Hen as [Hp Hn].
    apply Z.eqb_eq in Hp. apply negb_true_iff in Hn. unfold ContainsElement in Hn.
    apply bool_decide_eq_false in Hn.
    assert (ep = ep') as ->; [|done].
    apply elem_of_app in Hc as [Hc|Hc].
    + destruct (is_some _); [|by apply elem_of_nil in Hc].
      by apply list_elem_of_singleton in Hc as [= ->].
    + destruct (cf_Presets cfg); [|by apply elem_of_nil in Hc].
      by apply list_elem_of_singleton in Hc.
Qed.
End trace.

(** ** Witnesses *)

Section witnesses.
#[local] Existing Instance canonical_range.

Definition sample_cfg : Settings :=
  {| cf_Policy := true; cf_HostPolicy := false; cf_KVMAgent := false; cf_K8sEnv := true;
     cf_RuntimeEnforcer := Some "BPFLSM"; cf_Presets := false;
     cf_UntrackedNamespaces := ["kube-system"] |}.

Definition sample_posture : DefaultPosture :=
  {| dp_FileAction := "block"; dp_NetworkAction := "audit"; dp_CapabilitiesAction := "audit" |}.

(** A namespaced policy for the containers [cs] of namespace [default] *)
Definition sample_ksp (name : string) (cs : list string) (spec : SecuritySpec)
    : SecurityPolicy :=
  {| sp_Metadata := {["policyName" := name; "namespaceName" := "default"]};
     sp_Spec := with_selector
       {| sel_MatchLabels := ∅; sel_MatchExpressions := []; sel_Containers := cs;
          sel_Identities := ["namespaceName=default"]; sel_MatchExpIdentities := [];
          sel_NonIdentities := []; sel_NamespaceList := [] |} spec |}.

Definition sample_endpoint (policies : list SecurityPolicy) : EndPoint :=
  {| ep_NamespaceName := "default"; ep_EndPointName := "nginx-1"; ep_ContainerName := "nginx";
     ep_Labels := {["app" := "nginx"]};
     ep_Identities := ["app=nginx"; "namespaceName=default"];
     ep_Containers := ["c1"]; ep_AppArmorProfiles := []; ep_SELinuxProfiles := [];
     ep_SecurityPolicies := policies; ep_PrivilegedContainers := ∅;
     ep_PolicyEnabled := KubeArmorPolicyEnabled; ep_DefaultPosture := sample_posture;
     ep_ProcessVisibilityEnabled := true; ep_FileVisibilityEnabled := true;
     ep_NetworkVisibilityEnabled := true; ep_CapabilitiesVisibilityEnabled := true |}.

Definition sample_daemon {W} (policies : list SecurityPolicy) (w : W) : Daemon W :=
  {| dm_Node := zero_Node;
     dm_K8sPods := []; dm_Containers := ∅; dm_EndPoints := [sample_endpoint policies];
     dm_OwnerInfo := ∅; dm_SecurityPolicies := policies; dm_HostSecurityPolicies := [];
     dm_DefaultPostures := ∅; dm_GlobalPosture := sample_posture; dm_w := w |}.

Definition sample_event (event ty : string) (p : SecurityPolicy) : Daemon Trace → Res (Daemon Trace) :=
  policy_event sample_cfg (λ _, None) event ty p.

Definition result (r : Res (Daemon Trace)) : Daemon Trace :=
  match r with Ok dm => dm | Panic => sample_daemon [] [] end.

Abbreviation ksp := (sample_ksp "ksp" [] empty_SecuritySpec).
Abbreviation narrowed := (sample_ksp "ksp" ["sidecar"] empty_SecuritySpec).

Lemma sample_agrees : agrees (λ _, None) (sample_daemon [ksp] ([] : Trace)).
Proof.
  split; [by apply list.NoDup_singleton|].
  intros ep ->%list_elem_of_singleton. split; [by apply list.NoDup_singleton|].
  intros x. cbn. split; [|by intros []]. intros H. split; [done|].
  by apply list_elem_of_singleton in H as ->.
Qed.

Lemma narrowed_policy_stays_witness :
  ∃ dm1 dm2, sample_event updateEvent KubeArmorPolicy narrowed (sample_daemon [ksp] []) = Ok dm1 ∧
    sample_event deleteEvent KubeArmorPolicy narrowed dm1 = Ok dm2 ∧
    sample_endpoint [ksp] ∈ dm_EndPoints dm2 ∧ pol_key ksp ∉ pol_key <$> dm_SecurityPolicies dm2.
Proof.
  eexists _, _. split; [reflexivity|]. split; [reflexivity|].
  eapply (narrowed_policy_stays sample_cfg (λ _, None) _ _ _ (sample_endpoint [ksp]) ksp narrowed
    "sidecar" [] sample_agrees); [by left|by left|done|done| |reflexivity|reflexivity].
  intros H%list_elem_of_singleton. discriminate H.
Defined.

(** A cluster policy with the name of [ksp] *)
Definition namesake : SecurityPolicy :=
  {| sp_Metadata := {["policyName" := "ksp"]};
     sp_Spec := with_selector
       {| sel_MatchLabels := ∅; sel_MatchExpressions := []; sel_Containers := [];
          sel_Identities := []; sel_MatchExpIdentities := []; sel_NonIdentities := [];
          sel_NamespaceList := ["default"] |} empty_SecuritySpec |}.

Lemma cluster_policy_deletes_namesake_witness :
  ∃ dm1 dm2, sample_event addEvent KubeArmorClusterPolicy namesake (sample_daemon [ksp] []) = Ok dm1 ∧
    sample_event deleteEvent KubeArmorClusterPolicy namesake dm1 = Ok dm2 ∧
    dm_SecurityPolicies dm1 = [ksp] ∧ dm_EndPoints dm1 !! 0%nat = Some (sample_endpoint [ksp]) ∧
    dm_SecurityPolicies dm2 = [] ∧ dm_EndPoints dm2 !! 0%nat = Some (sample_endpoint []).
Proof.
  set (e1 := sample_event addEvent KubeArmorClusterPolicy namesake (sample_daemon [ksp] [])).
  assert (E1 : e1 = Ok (result e1)) by (vm_compute; reflexivity).
  set (e2 := sample_event deleteEvent KubeArmorClusterPolicy namesake (result e1)).
  assert (E2 : e2 = Ok (result e2)) by (vm_compute; reflexivity).
  exists (result e1), (result e2). split; [exact E1|]. split; [exact E2|].
  exact (cluster_policy_deletes_namesake sample_cfg (λ _, None) (sample_daemon [ksp] [])
    (result e1) (result e2) namesake ksp [] [] 0 (sample_endpoint [ksp]) [] []
    eq_refl eq_refl eq_refl eq_refl eq_refl eq_refl E1 E2).
Defined.
End witnesses.
