(* ===== verification/Pods.v ===== *)
(** Endpoints of Kubernetes pods ([KubeArmor/core/kubeUpdate.go],
    [UpdateEndPointWithPod]).

    A pod that appears becomes one endpoint per container, with the stored policies
    that apply to it.  Labels, containers and annotations are Go maps; their order is
    the instance of [GoRange].  [kl.ContainsElement] compares dynamic values: on a
    list of endpoints and a string it is [DeepEqual] of values of different types. *)
From Stdlib Require Import Ascii String.
From S2P Require Import Prelude GoStrings Types Common PolicySpec Daemon.

Open Scope string_scope.

(** Values as [reflect.DeepEqual] compares them *)
Inductive Value :=
| VEndPoint (ep : EndPoint)
| VString (s : string).

#[export] Instance Value_eq_dec : EqDecision Value.
Proof. solve_decision. Defined.

(** [kl.ContainsElement] at a slice of values *)
Definition ContainsValue (slice : list Value) (element : Value) : bool :=
  existsb (λ v, bool_decide (v = element)) slice.

Definition zero_EndPoint : EndPoint :=
  {| ep_NamespaceName := ""; ep_EndPointName := ""; ep_ContainerName := ""; ep_Labels := ∅;
     ep_Identities := []; ep_Containers := []; ep_AppArmorProfiles := [];
     ep_SELinuxProfiles := []; ep_SecurityPolicies := []; ep_PrivilegedContainers := ∅;
     ep_PolicyEnabled := 0;
     ep_DefaultPosture := {| dp_FileAction := ""; dp_NetworkAction := "";
                             dp_CapabilitiesAction := "" |};
     ep_ProcessVisibilityEnabled := false; ep_FileVisibilityEnabled := false;
     ep_NetworkVisibilityEnabled := false; ep_CapabilitiesVisibilityEnabled := false |}.

Definition zero_Container : Container :=
  {| c_ContainerID := ""; c_ContainerName := ""; c_ContainerImage := "";
     c_NamespaceName := ""; c_Owner := ("", "", ""); c_EndPointName := ""; c_Labels := "";
     c_AppArmorProfile := ""; c_Privileged := false; c_PidNS := 0; c_MntNS := 0; c_Pid := 0;
     c_NodeName := ""; c_NodeID := ""; c_ProtocolPort := ""; c_Status := "";
     c_ContainerIP := ""; c_LastUpdatedAt := ""; c_PolicyEnabled := 0;
     c_ProcessVisibilityEnabled := false; c_FileVisibilityEnabled := false;
     c_NetworkVisibilityEnabled := false; c_CapabilitiesVisibilityEnabled := false |}.

Definition field (k : string) (m : gmap string string) : string := default "" (m !! k).

Definition policy_flag (annotation : string) : Z :=
  if String.eqb annotation "enabled" then KubeArmorPolicyEnabled
  else if String.eqb annotation "audited" then KubeArmorPolicyAudited
  else KubeArmorPolicyDisabled.

Section pods.
Context `{R : GoRange} {W : Type} `{B : !Backend W} (cfg : Settings).
Context (CompilePOSIX : string → option (string → bool)).
Context (MarshalPolicy : SecurityPolicy → string)
        (UnmarshalPolicy : string → option SecurityPolicy).

Definition pod_identities (namespace : string) (labels : gmap string string) : list string :=
  sort_strings (label "namespaceName" namespace ::
                ((λ kv, label kv.1 kv.2) <$> go_range labels)).

(** The annotation is a list of exact names. *)
Definition pod_visible (pod : K8sPod) (scope : string) : bool :=
  ContainsElement (split comma (field "kubearmor-visibility" (pod_Annotations pod))) scope.

(** The new endpoint before its posture and its policies.  The profiles that the code
    also collects in it are overwritten before they are read. *)
Definition pod_point (pod : K8sPod) : EndPoint :=
  let namespace := field "namespaceName" (pod_Metadata pod) in
  {| ep_NamespaceName := namespace;
     ep_EndPointName := field "podName" (pod_Metadata pod);
     ep_ContainerName := "";
     ep_Labels := pod_Labels pod;
     ep_Identities := pod_identities namespace (pod_Labels pod);
     ep_Containers := (go_range (pod_Containers pod)).*1;
     ep_AppArmorProfiles := []; ep_SELinuxProfiles := []; ep_SecurityPolicies := [];
     ep_PrivilegedContainers := ∅;
     ep_PolicyEnabled := policy_flag (field "kubearmor-policy" (pod_Annotations pod));
     ep_DefaultPosture := ep_DefaultPosture zero_EndPoint;
     ep_ProcessVisibilityEnabled := pod_visible pod "process";
     ep_FileVisibilityEnabled := pod_visible pod "file";
     ep_NetworkVisibilityEnabled := pod_visible pod "network";
     ep_CapabilitiesVisibilityEnabled := pod_visible pod "capabilities" |}.

Definition zero_owner : PodOwner := ("", "", "").

(** The owner known for the pod, for a container without one *)
Definition pod_owner (owners : gmap string PodOwner) (name : string) (owner : PodOwner)
    : PodOwner :=
  if bool_decide (owner = zero_owner) then
    match owners !! name with
    | Some info => if bool_decide (info = zero_owner) then owner else info
    | None => owner
    end
  else owner.

(** The container [containerID] with what the pod says of it; an unknown container
    starts from zero. *)
Definition pod_container (owners : gmap string PodOwner) (pod : K8sPod) (pt : EndPoint)
    (containerID : string) (c : Container) : Container :=
  let name := field containerID (pod_Containers pod) in
  {| c_ContainerID := c_ContainerID c; c_ContainerName := name;
     c_ContainerImage := field containerID (pod_ContainerImages pod);
     c_NamespaceName := ep_NamespaceName pt;
     c_Owner := pod_owner owners (ep_EndPointName pt) (c_Owner c);
     c_EndPointName := ep_EndPointName pt;
     c_Labels := join "," ((λ kv, label kv.1 kv.2) <$> go_range (ep_Labels pt));
     c_AppArmorProfile := c_AppArmorProfile c;
     c_Privileged := bool_decide (name ∈ pod_PrivilegedContainers pod) || c_Privileged c;
     c_PidNS := c_PidNS c; c_MntNS := c_MntNS c; c_Pid := c_Pid c;
     c_NodeName := c_NodeName c; c_NodeID := c_NodeID c; c_ProtocolPort := c_ProtocolPort c;
     c_Status := c_Status c; c_ContainerIP := c_ContainerIP c;
     c_LastUpdatedAt := c_LastUpdatedAt c; c_PolicyEnabled := ep_PolicyEnabled pt;
     c_ProcessVisibilityEnabled := ep_ProcessVisibilityEnabled pt;
     c_FileVisibilityEnabled := ep_FileVisibilityEnabled pt;
     c_NetworkVisibilityEnabled := ep_NetworkVisibilityEnabled pt;
     c_CapabilitiesVisibilityEnabled := ep_CapabilitiesVisibilityEnabled pt |}.

Definition set_Containers (m : gmap string Container) (dm : Daemon W) : Daemon W :=
  {| dm_Node := dm_Node dm; dm_K8sPods := dm_K8sPods dm; dm_Containers := m;
     dm_EndPoints := dm_EndPoints dm; dm_OwnerInfo := dm_OwnerInfo dm;
     dm_SecurityPolicies := dm_SecurityPolicies dm;
     dm_HostSecurityPolicies := dm_HostSecurityPolicies dm;
     dm_DefaultPostures := dm_DefaultPostures dm; dm_GlobalPosture := dm_GlobalPosture dm;
     dm_w := dm_w dm |}.

(** One turn of the loop over the containers *)
Definition container_step (pod : K8sPod) (pt : EndPoint) (r : Res (Daemon W))
    (containerID : string) : Res (Daemon W) :=
  dm ← r;
  let c := pod_container (dm_OwnerInfo dm) pod pt containerID
             (default zero_Container (dm_Containers dm !! containerID)) in
  call (monitor_HandleUnknownNamespaceNsMap (c_ContainerID c) (c_NamespaceName c)
          (c_PidNS c) (c_MntNS c))
    (set_Containers (<[containerID := c]> (dm_Containers dm)) dm).

Definition posture_for (dm : Daemon W) (namespace : string) : DefaultPosture :=
  default (dm_GlobalPosture dm) (dm_DefaultPostures dm !! namespace).

(** The endpoint of one container: [profile] is that of the container, [policies] those
    for the whole pod. *)
Definition container_endpoint (pt : EndPoint) (posture : DefaultPosture) (profile : string)
    (policies : list SecurityPolicy) (kv : string * string) : EndPoint :=
  let ep :=
    {| ep_NamespaceName := ep_NamespaceName pt; ep_EndPointName := ep_EndPointName pt;
       ep_ContainerName := kv.2; ep_Labels := ep_Labels pt;
       ep_Identities := ep_Identities pt; ep_Containers := [kv.1];
       ep_AppArmorProfiles := [profile]; ep_SELinuxProfiles := ep_SELinuxProfiles pt;
       ep_SecurityPolicies := []; ep_PrivilegedContainers := ep_PrivilegedContainers pt;
       ep_PolicyEnabled := ep_PolicyEnabled pt; ep_DefaultPosture := posture;
       ep_ProcessVisibilityEnabled := ep_ProcessVisibilityEnabled pt;
       ep_FileVisibilityEnabled := ep_FileVisibilityEnabled pt;
       ep_NetworkVisibilityEnabled := ep_NetworkVisibilityEnabled pt;
       ep_CapabilitiesVisibilityEnabled := ep_CapabilitiesVisibilityEnabled pt |} in
  with_policies (filter (λ p, selects_container p ep) policies) ep.

(** What the branches for added and for modified pods share: the containers are
    updated, then the endpoints are made. *)
Definition pod_endpoints (nsList : option (list string)) (pod : K8sPod) (dm : Daemon W)
    : Res (Daemon W * list EndPoint) :=
  let pt := pod_point pod in
  dm ← foldl (container_step pod pt) (Ok dm) (ep_Containers pt);
  let policies := GetSecurityPolicies CompilePOSIX MarshalPolicy UnmarshalPolicy nsList pt dm in
  let posture := posture_for dm (ep_NamespaceName pt) in
  Ok (dm, (λ kv, container_endpoint pt posture
                   (from_option c_AppArmorProfile "" (dm_Containers dm !! kv.1))
                   policies kv) <$> go_range (pod_Containers pod)).

Definition notify_endpoints (action : string) (endpoints : list EndPoint) (dm : Daemon W)
    : Res (Daemon W) :=
  foldl (λ r ep, dm ← r; call (notify cfg action ep) dm) (Ok dm) endpoints.

Definition pod_added (nsList : option (list string)) (pod : K8sPod) (dm : Daemon W)
    : Res (Daemon W) :=
  st ← pod_endpoints nsList pod dm;
  let '(dm, endpoints) := st in
  notify_endpoints addEvent endpoints
    (set_EndPoints (dm_EndPoints dm ++ endpoints)%list dm).

Definition of_pod (pod : K8sPod) (ep : EndPoint) : bool :=
  String.eqb (field "namespaceName" (pod_Metadata pod)) (ep_NamespaceName ep)
  && String.eqb (field "podName" (pod_Metadata pod)) (ep_EndPointName ep).

(** The loop that puts new endpoints over old ones of the same pod *)
Fixpoint overwrite (pod : K8sPod) (endpoints : list EndPoint) (news old : list EndPoint)
    : list EndPoint :=
  match old, news with
  | ep :: old', new :: news' =>
      if of_pod pod ep
         && ContainsValue (VEndPoint <$> endpoints) (VString (ep_ContainerName ep))
      then new :: overwrite pod endpoints news' old'
      else ep :: overwrite pod endpoints news old'
  | _, _ => old
  end.

(** In the loop, [endpoints = append(newendpoints, endpoint)] with [newendpoints] always
    empty: only the endpoint of the last turn is left; without containers the old
    endpoint that was found is. *)
Definition pod_modified (nsList : option (list string)) (pod : K8sPod) (dm : Daemon W)
    : Res (Daemon W) :=
  match find (of_pod pod) (dm_EndPoints dm) with
  | None => pod_added nsList pod dm
  | Some old =>
      st ← pod_endpoints nsList pod dm;
      let '(dm, made) := st in
      let endpoints := [default old (hd_error (rev made))] in
      notify_endpoints updateEvent endpoints
        (set_EndPoints (overwrite pod endpoints endpoints (dm_EndPoints dm)) dm)
  end.

Definition pod_deleted (pod : K8sPod) (dm : Daemon W) : Daemon W :=
  set_EndPoints (filter (λ ep, of_pod pod ep = false) (dm_EndPoints dm)) dm.

Definition UpdateEndPointWithPod (nsList : option (list string)) (action : string)
    (pod : K8sPod) (dm : Daemon W) : Res (Daemon W) :=
  if String.eqb action addEvent then pod_added nsList pod dm
  else if String.eqb action updateEvent then pod_modified nsList pod dm
  else Ok (pod_deleted pod dm).

End pods.
