(* ===== verification/PodsProps.v ===== *)
(** Properties of the endpoints of pods: which pods a namespaced policy selects, that
    endpoints hold exactly the stored policies that apply to them after any sequence
    of policy and pod events, and that a change of a known pod is lost. *)
From Stdlib Require Import Ascii String.
From S2P Require Import Prelude GoStrings Types Common PolicySpec PolicySpecProps Daemon DaemonProps Pods.

Open Scope string_scope.

(** ** Labels *)

Lemma label_inj k1 v1 k2 v2 :
  char_in "="%char k1 = false → char_in "="%char k2 = false →
  label k1 v1 = label k2 v2 → k1 = k2 ∧ v1 = v2.
Proof.
  unfold label. revert k2. induction k1 as [|c k1 IH]; intros [|d k2]; simpl; intros H1 H2 H.
  - by injection H.
  - injection H as <- _. by rewrite Ascii.eqb_refl in H2.
  - injection H as -> _. by rewrite Ascii.eqb_refl in H1.
  - apply orb_false_elim in H1 as [_ H1], H2 as [_ H2]. injection H as -> H.
    by destruct (IH k2 H1 H2 H) as [-> ->].
Qed.

Section selection.
Context `{R : GoRange, !GoRangeLaw R}.
Context (CompilePOSIX : string → option (string → bool)).

(** A label that is compared as it is, not as a regular expression *)
Definition plain_label (k v : string) : Prop :=
  char_in "="%char k = false ∧ Contains (label k v) container_name_key = false ∧
  Contains (label k v) hostname_key = false.

Lemma elem_of_labels (m : gmap string string) x :
  x ∈ ((λ kv : string * string, label kv.1 kv.2) <$> go_range m) ↔
  ∃ k v, x = label k v ∧ m !! k = Some v.
Proof.
  rewrite list_elem_of_fmap. split.
  - intros ([k v] & -> & H%elem_of_go_range). eauto.
  - intros (k & v & -> & H). exists (k, v). by rewrite elem_of_go_range.
Qed.

Lemma elem_of_pod_identities ns labels k v :
  (∀ k' v', labels !! k' = Some v' → char_in "="%char k' = false) →
  char_in "="%char k = false →
  label k v ∈ pod_identities ns labels ↔
  labels !! k = Some v ∨ k = "namespaceName" ∧ v = ns.
Proof.
  intros Hl Hk. unfold pod_identities. rewrite elem_of_sort_strings, elem_of_cons, elem_of_labels.
  split.
  - intros [H|(k' & v' & H & Hm)].
    + apply label_inj in H as [-> ->]; auto.
    + apply label_inj in H as [-> ->]; eauto.
  - intros [H|[-> ->]]; eauto 6.
Qed.

Lemma elem_of_ksp_identities ns sel x :
  x ∈ sel_Identities (ksp_selector ns sel) ↔
  x = label "namespaceName" ns ∨
  ∃ k v, x = label k v ∧ sel_MatchLabels sel !! k = Some v ∧ k ≠ container_name_key.
Proof.
  unfold ksp_selector. cbn [sel_Identities]. rewrite elem_of_sort_strings, add_labels_split.
  cbn [snd]. rewrite elem_of_app, list_elem_of_singleton, list_elem_of_fmap. split.
  - intros [H|([k v] & -> & [Hk H%elem_of_go_range]%list_elem_of_filter)]; eauto 8.
  - intros [H|(k & v & -> & Hm & Hk)]; [auto|]. right. exists (k, v). split; [done|].
    apply list_elem_of_filter. by rewrite elem_of_go_range.
Qed.

(** A namespaced policy whose labels are plain selects a pod exactly when the pod
    carries all of its labels, container names aside, and is in the policy's namespace
    or carries the label [namespaceName] with that namespace as its value: a pod can
    put itself under the policies of another namespace. *)
Theorem ksp_selects ns sel ns' labels :
  plain_label "namespaceName" ns →
  (∀ k v, sel_MatchLabels sel !! k = Some v → k ≠ container_name_key → plain_label k v) →
  (∀ k v, labels !! k = Some v → char_in "="%char k = false) →
  MatchIdentities CompilePOSIX (sel_Identities (ksp_selector ns sel))
                  (pod_identities ns' labels) = true ↔
  (ns = ns' ∨ labels !! "namespaceName" = Some ns) ∧
  ∀ k v, sel_MatchLabels sel !! k = Some v → k ≠ container_name_key →
         labels !! k = Some v ∨ k = "namespaceName" ∧ v = ns'.
Proof.
  intros Hns Hsel Hlab.
  assert (Hmi : ∀ k v, plain_label k v →
    match_identity CompilePOSIX (pod_identities ns' labels) (label k v) = true ↔
    labels !! k = Some v ∨ k = "namespaceName" ∧ v = ns').
  { intros k v (Hk & Hc & Hh). unfold match_identity. rewrite Hc, Hh, ContainsElement_spec.
    by apply elem_of_pod_identities. }
  assert (Hm : MatchIdentities CompilePOSIX (sel_Identities (ksp_selector ns sel))
                 (pod_identities ns' labels) = true ↔
               ∀ x, x ∈ sel_Identities (ksp_selector ns sel) →
                    match_identity CompilePOSIX (pod_identities ns' labels) x = true).
  { unfold MatchIdentities.
    destruct (sel_Identities (ksp_selector ns sel)) as [|y l] eqn:E.
    - exfalso. assert (label "namespaceName" ns ∈ ([] : list string)) as []%elem_of_nil.
      rewrite <- E. apply elem_of_ksp_identities. by left.
    - rewrite forallb_forall. by setoid_rewrite list_elem_of_In. }
  rewrite Hm. split.
  - intros H. split.
    + specialize (H (label "namespaceName" ns)). rewrite Hmi, elem_of_ksp_identities in H by done.
      destruct H as [H|[_ H]]; auto.
    + intros k v Hk Hne. apply (Hmi k v (Hsel k v Hk Hne)), H.
      apply elem_of_ksp_identities. eauto 6.
  - intros [Hn Hall] x Hx. apply elem_of_ksp_identities in Hx as [->|(k & v & -> & Hk & Hne)].
    + apply Hmi; [done|]. destruct Hn as [->|Hn]; auto.
    + apply Hmi; eauto.
Qed.
End selection.

Section pod_events.
Context `{R : GoRange} {W : Type} `{B : !Backend W} (cfg : Settings).
Context (CompilePOSIX : string → option (string → bool)).
Context (MarshalPolicy : SecurityPolicy → string)
        (UnmarshalPolicy : string → option SecurityPolicy).

Implicit Types dm : Daemon W.

Abbreviation agrees := (agrees CompilePOSIX).
Abbreviation applies := (applies CompilePOSIX).

(** A policy made of a namespaced resource: it has identities and no namespaces, and
    the JSON codec gives it back as it was. *)
Definition namespaced (p : SecurityPolicy) : Prop :=
  sel_Identities (selector p) ≠ [] ∧ sel_NamespaceList (selector p) = [] ∧
  Clone MarshalPolicy UnmarshalPolicy p = Some p.

Lemma container_steps_frame pod pt l dm dm' :
  foldl (container_step (W:=W) pod pt) (Ok dm) l = Ok dm' →
  ∃ m w, dm' = set_dm_w w (set_Containers m dm).
Proof.
  revert dm. induction l as [|id l IH]; intros dm.
  { intros [= ->]. exists (dm_Containers dm'), (dm_w dm'). by destruct dm'. }
  cbn [foldl]. unfold container_step at 2, call. cbn [mbind Res_bind].
  destruct (monitor_HandleUnknownNamespaceNsMap _ _ _ _ _) as [w|]; cbn [mbind Res_bind].
  - intros (m & w' & ->)%IH. by eexists _, _.
  - intros H. exfalso. revert H. clear. induction l; [done|]. simpl. auto.
Qed.

Lemma container_steps_keep pod pt l dm dm' :
  foldl (container_step (W:=W) pod pt) (Ok dm) l = Ok dm' →
  dm_EndPoints dm' = dm_EndPoints dm ∧ dm_SecurityPolicies dm' = dm_SecurityPolicies dm.
Proof. by intros (m & w & ->)%container_steps_frame. Qed.

Lemma notify_endpoints_frame action l dm dm' :
  notify_endpoints cfg action l dm = Ok dm' → ∃ w, dm' = set_dm_w w dm.
Proof.
  revert dm. induction l as [|ep l IH]; intros dm.
  { intros [= ->]. exists (dm_w dm'). by destruct dm'. }
  unfold notify_endpoints, call in *. cbn [foldl mbind Res_bind].
  destruct (notify cfg action ep (dm_w dm)) as [w|]; cbn [mbind Res_bind].
  - intros (w' & ->)%IH. by eexists.
  - intros H. exfalso. revert H. clear. induction l; [done|]. simpl. auto.
Qed.

Lemma notify_endpoints_keep action l dm dm' :
  notify_endpoints cfg action l dm = Ok dm' →
  dm_EndPoints dm' = dm_EndPoints dm ∧ dm_SecurityPolicies dm' = dm_SecurityPolicies dm.
Proof. by intros (w & ->)%notify_endpoints_frame. Qed.

Lemma namespaced_untouched nsList p :
  namespaced p → updateNamespaceListforCSP nsList p = p.
Proof. intros [Hi _]. unfold updateNamespaceListforCSP. by destruct (sel_Identities _). Qed.

Lemma filter_ext_in {A} (f g : A → bool) (l : list A) :
  (∀ x, x ∈ l → f x = g x) → filter f l = filter g l.
Proof.
  induction l as [|x l IH]; intros Hfg; [done|].
  rewrite !filter_cons, (Hfg x) by left.
  rewrite IH by (intros; apply Hfg; by right). done.
Qed.

Lemma GetSecurityPolicies_namespaced nsList ep dm :
  Forall namespaced (dm_SecurityPolicies dm) →
  GetSecurityPolicies CompilePOSIX MarshalPolicy UnmarshalPolicy nsList ep dm =
  filter (λ p, ksp_matches CompilePOSIX p ep : bool) (dm_SecurityPolicies dm).
Proof.
  intros Hns. unfold GetSecurityPolicies.
  assert (updateNamespaceListforCSP nsList <$> dm_SecurityPolicies dm = dm_SecurityPolicies dm)
    as ->.
  { rewrite <- (list_fmap_id (dm_SecurityPolicies dm)) at 2. apply list_fmap_ext.
    intros i p Hp. apply namespaced_untouched.
    apply (proj1 (list.Forall_forall _ _) Hns). by apply list_elem_of_lookup_2 in Hp. }
  pose proof (proj1 (list.Forall_forall _ _) Hns) as Hall.
  transitivity (id <$> filter (λ p, policy_applies CompilePOSIX p ep) (dm_SecurityPolicies dm)).
  { apply list_fmap_ext. intros i p Hp%list_elem_of_lookup_2.
    apply list_elem_of_filter in Hp as [_ Hp]. by destruct (Hall p Hp) as (_ & _ & ->). }
  rewrite list_fmap_id. apply filter_ext_in.
  intros p (_ & Hn & _)%Hall.
  unfold policy_applies, csp_matches. rewrite Hn. simpl. by rewrite orb_false_r.
Qed.

(** The endpoints that are made for a pod agree with the store. *)
Lemma pod_endpoints_agree nsList pod dm dm' eps :
  Forall namespaced (dm_SecurityPolicies dm) →
  NoDup (pol_key <$> dm_SecurityPolicies dm) →
  pod_endpoints CompilePOSIX MarshalPolicy UnmarshalPolicy nsList pod dm = Ok (dm', eps) →
  dm_EndPoints dm' = dm_EndPoints dm ∧ dm_SecurityPolicies dm' = dm_SecurityPolicies dm ∧
  ep_ContainerName <$> eps = (go_range (pod_Containers pod)).*2 ∧
  ∀ ep, ep ∈ eps → of_pod pod ep = true ∧
                   endpoint_agrees CompilePOSIX (dm_SecurityPolicies dm) ep.
Proof.
  intros Hns Hnd H. unfold pod_endpoints in H. go_res H.
  apply container_steps_keep in Ha as [He Hs]. injection H as <- <-.
  split; [done|]. split; [done|]. split; [by rewrite <- list_fmap_compose|].
  intros ep (kv & -> & Hkv)%list_elem_of_fmap.
  split; [unfold of_pod; simpl; by rewrite !String.eqb_refl|].
  rewrite GetSecurityPolicies_namespaced, Hs by by rewrite Hs.
  unfold container_endpoint. split; rewrite policies_with.
  - apply (sublist_NoDup _ _ Hnd), fmap_sublist.
    etransitivity; apply sublist_filter.
  - intros x. rewrite applies_with_policies, !list_elem_of_filter. unfold DaemonProps.applies.
    rewrite andb_true_iff. unfold ksp_matches. cbn [ep_Identities pod_point].
    rewrite !Is_true_true. tauto.
Qed.

(** What happens to a daemon that watches namespaced policies and pods: the events of
    policies that the watcher delivers, pods that appear and pods that go. *)
Inductive history : Daemon W → Daemon W → Prop :=
| history_start dm : history dm dm
| history_policy dm0 dm dm' event p :
    history dm0 dm → namespaced p → valid_event CompilePOSIX dm event p →
    policy_event cfg CompilePOSIX event KubeArmorPolicy p dm = Ok dm' → history dm0 dm'
| history_pod dm0 dm dm' nsList pod :
    history dm0 dm →
    UpdateEndPointWithPod cfg CompilePOSIX MarshalPolicy UnmarshalPolicy nsList addEvent pod dm
      = Ok dm' → history dm0 dm'
| history_gone dm0 dm dm' nsList pod :
    history dm0 dm →
    UpdateEndPointWithPod cfg CompilePOSIX MarshalPolicy UnmarshalPolicy nsList deleteEvent pod dm
      = Ok dm' → history dm0 dm'.

Lemma store_policies_namespaced event same p l :
  namespaced p → Forall namespaced l → Forall namespaced (store_policies event same p l).
Proof.
  intros Hp Hl. unfold store_policies. repeat case_bool; try done.
  - apply list.Forall_app. by split; [|apply list.Forall_singleton].
  - clear -Hp Hl. induction Hl; simpl; [done|]. case_bool; by constructor.
  - clear -Hl. induction Hl; simpl; [done|]. case_bool; [done|by constructor].
Qed.

(** C3: A daemon that starts with nothing and follows namespaced policies and pods holds
    at every moment, for each container, exactly the stored policies that apply to it,
    each once, whatever the order of events.  Pods appear and go; policies are added,
    deleted, or modified without dropping a container that they named and applied to.
    A policy that does so stays where it was, see [narrowed_policy_stays]; cluster policies
    and pods that are modified are not covered either. *)
Theorem endpoints_hold_their_policies dm0 dm :
  history dm0 dm → dm_EndPoints dm0 = [] → dm_SecurityPolicies dm0 = [] →
  NoDup (pol_key <$> dm_SecurityPolicies dm) ∧
  ∀ ep, ep ∈ dm_EndPoints dm →
    NoDup (pol_key <$> ep_SecurityPolicies ep) ∧
    ∀ p, p ∈ ep_SecurityPolicies ep ↔ p ∈ dm_SecurityPolicies dm ∧ applies p ep = true.
Proof.
  intros Hh He Hs. cut (agrees dm ∧ Forall namespaced (dm_SecurityPolicies dm)).
  { by intros [[? ?] ?]. }
  induction Hh as [dm|dm0 dm dm' event p Hh IH Hp Hev H|dm0 dm dm' nsList pod Hh IH H|
                   dm0 dm dm' nsList pod Hh IH H].
  - unfold DaemonProps.agrees. rewrite He, Hs. split; [|done]. split; [constructor|].
    intros ep []%elem_of_nil.
  - destruct (IH He Hs) as [Ha Hn]. split; [by eapply policy_event_agrees|].
    apply policy_event_endpoints in H as [_ ->]. unfold store_policy.
    by apply store_policies_namespaced.
  - destruct (IH He Hs) as [[Hnd Ha] Hn]. unfold UpdateEndPointWithPod, pod_added in H.
    simpl in H. go_res H. destruct a as [dm1 eps].
    apply pod_endpoints_agree in Ha0 as (He1 & Hs1 & _ & Hnew); [|done|done].
    apply notify_endpoints_keep in H as [He2 Hs2]. simpl in He2, Hs2.
    rewrite Hs2, Hs1. split; [|done]. unfold DaemonProps.agrees. rewrite Hs2, Hs1, He2, He1.
    split; [done|]. intros ep [Hep|Hep]%elem_of_app; [auto|by apply Hnew].
  - destruct (IH He Hs) as [[Hnd Ha] Hn]. injection H as <-. split; [|done]. split; [done|].
    intros ep [_ Hep]%list_elem_of_filter. auto.
Qed.

(** Values of different types are never deeply equal. *)
Lemma no_endpoint_is_string l s : ContainsValue (VEndPoint <$> l) (VString s) = false.
Proof. unfold ContainsValue. induction l as [|ep l IH]; [done|]. exact IH. Qed.

Lemma overwrite_nothing pod endpoints news l : overwrite pod endpoints news l = l.
Proof.
  revert news. induction l as [|e l IH]; intros [|n news]; try done.
  simpl. by rewrite no_endpoint_is_string, andb_false_r, IH.
Qed.

(** When an endpoint of a pod is known, a change of the pod never reaches the list
    of endpoints: new labels, postures and policies are computed and one container's are
    sent to the feeder and the enforcer, but all endpoints stay as they were. *)
Theorem modified_pod_keeps_endpoints nsList pod dm dm' ep :
  ep ∈ dm_EndPoints dm → of_pod pod ep = true →
  UpdateEndPointWithPod cfg CompilePOSIX MarshalPolicy UnmarshalPolicy nsList updateEvent pod dm
    = Ok dm' →
  dm_EndPoints dm' = dm_EndPoints dm ∧
  ∃ dm1 sent, of_pod pod sent = true ∧
    notify_endpoints cfg updateEvent [sent] dm1 = Ok dm'.
Proof.
  intros Hin Hpod H. unfold UpdateEndPointWithPod, pod_modified in H. cbn [String.eqb] in H.
  simpl in H. destruct (find (of_pod pod) (dm_EndPoints dm)) as [old|] eqn:Hf.
  2:{ exfalso. apply list_elem_of_In in Hin. by rewrite (find_none _ _ Hf ep Hin) in Hpod. }
  go_res H. destruct a as [dm1 made].
  unfold pod_endpoints in Ha. go_res Ha. apply container_steps_keep in Ha0 as [He1 _].
  injection Ha as <- Hmade.
  split.
  - apply notify_endpoints_keep in H as [-> _]. cbn [dm_EndPoints set_EndPoints].
    by rewrite overwrite_nothing, He1.
  - eexists _, _. split; [|exact H].
    destruct (hd_error (rev made)) as [e|] eqn:E; simpl; [|by eapply find_some].
    assert (Hm : e ∈ made).
    { apply list_elem_of_In, in_rev. destruct (rev made); [done|]. injection E as ->. by left. }
    rewrite <- Hmade in Hm. apply list_elem_of_fmap in Hm as (kv & -> & _).
    unfold of_pod. simpl. by rewrite !String.eqb_refl.
Qed.
End pod_events.

(** ** Witnesses *)

Section witnesses.
#[local] Existing Instance canonical_range.
#[local] Existing Instance canonical_range_law.

Lemma ksp_selects_witness :
  MatchIdentities (λ _, None)
    (sel_Identities (ksp_selector "shop" (selector (sample_ksp "ksp" [] empty_SecuritySpec))))
    (pod_identities "evil" {["namespaceName" := "shop"]}) = true.
Proof.
  apply (ksp_selects (λ _, None)).
  - split; [reflexivity|]. split; vm_compute; reflexivity.
  - intros k v H. exfalso. revert H. cbn. by rewrite lookup_empty.
  - intros k v [<- <-]%lookup_singleton_Some. reflexivity.
  - split; [right; reflexivity|]. intros k v H. exfalso. revert H. cbn. by rewrite lookup_empty.
Defined.

Abbreviation p0 := (sample_ksp "ksp" ["nginx"] empty_SecuritySpec).

(** A codec for the one policy of the samples *)
Definition name_of (p : SecurityPolicy) : string := meta "policyName" p.
Definition policy_of (s : string) : option SecurityPolicy :=
  if String.eqb s "ksp" then Some p0 else None.

Definition sample_pod : K8sPod :=
  {| pod_Metadata := {["namespaceName" := "default"; "podName" := "web"]};
     pod_Annotations := {["kubearmor-policy" := "enabled"]}; pod_Labels := ∅;
     pod_Containers := {["c1" := "nginx"; "c2" := "sidecar"]}; pod_ContainerImages := ∅;
     pod_PrivilegedContainers := ∅; pod_PrivilegedAppArmorProfiles := ∅ |}.

Definition pod_event (event : string) : Daemon Trace → Res (Daemon Trace) :=
  UpdateEndPointWithPod sample_cfg (λ _, None) name_of policy_of None event sample_pod.

Definition no_endpoints : Daemon Trace := set_EndPoints [] (sample_daemon [] []).
Definition with_policy : Daemon Trace := result (sample_event addEvent KubeArmorPolicy p0 no_endpoints).
Definition with_pod : Daemon Trace := result (pod_event addEvent with_policy).

(** The policy is for the first container only. *)
Example with_pod_policies :
  ep_SecurityPolicies <$> dm_EndPoints with_pod = [[]; [p0]] ∨
  ep_SecurityPolicies <$> dm_EndPoints with_pod = [[p0]; []].
Proof. vm_compute. auto. Qed.

Lemma with_pod_Ok : pod_event addEvent with_policy = Ok with_pod.
Proof. vm_compute. reflexivity. Qed.

Lemma with_pod_history :
  history sample_cfg (λ _, None) name_of policy_of no_endpoints with_pod.
Proof.
  eapply (history_pod _ _ _ _ _ with_policy _ None sample_pod); [|exact with_pod_Ok].
  eapply (history_policy _ _ _ _ _ no_endpoints _ addEvent p0); [apply history_start| | |].
  - split; [done|]. split; reflexivity.
  - apply valid_add. apply not_elem_of_nil.
  - reflexivity.
Qed.

Lemma endpoints_hold_their_policies_witness :
  NoDup (pol_key <$> dm_SecurityPolicies with_pod) ∧
  ∀ ep, ep ∈ dm_EndPoints with_pod →
    NoDup (pol_key <$> ep_SecurityPolicies ep) ∧
    ∀ p, p ∈ ep_SecurityPolicies ep ↔
         p ∈ dm_SecurityPolicies with_pod ∧ applies (λ _, None) p ep = true.
Proof.
  exact (endpoints_hold_their_policies sample_cfg (λ _, None) name_of policy_of no_endpoints
    with_pod with_pod_history eq_refl eq_refl).
Defined.

Lemma modified_pod_keeps_endpoints_witness :
  ∃ ep dm', ep ∈ dm_EndPoints with_pod ∧ pod_event updateEvent with_pod = Ok dm' ∧
    dm_EndPoints dm' = dm_EndPoints with_pod.
Proof.
  destruct (dm_EndPoints with_pod) as [|ep l] eqn:E; [vm_compute in E; discriminate E|].
  assert (Hin : ep ∈ dm_EndPoints with_pod) by (rewrite E; left).
  assert (Hp : of_pod sample_pod ep = true).
  { change (of_pod sample_pod (hd zero_EndPoint (ep :: l)) = true). rewrite <- E.
    vm_compute. reflexivity. }
  exists ep, (result (pod_event updateEvent with_pod)).
  assert (H : pod_event updateEvent with_pod = Ok (result (pod_event updateEvent with_pod)))
    by (vm_compute; reflexivity).
  rewrite <- E. split; [exact Hin|]. split; [exact H|].
  exact (proj1 (modified_pod_keeps_endpoints sample_cfg (λ _, None) name_of policy_of None
    sample_pod with_pod _ ep Hin Hp H)).
Defined.
End witnesses.
