(* ===== verification/Posture.v ===== *)
(** Namespaces and the configuration map ([KubeArmor/core/kubeUpdate.go], from
    [updatEndpointsWithCM] to [WatchConfigMap]; [UpdateThrottlingConfig] and
    [UpdateMatchArgsConfig] of [KubeArmor/monitor/systemMonitor.go]).

    A namespace's annotations, or else the global settings, say what is done with what
    no rule mentions (its default posture) and what is reported (its visibility).  The
    daemon hears of changes of namespaces and of the configuration map; lists of
    namespaces that the API answers are arguments ([None] is an error). *)
From Stdlib Require Import Ascii String.
From S2P Require Import Prelude GoStrings Types Common BpfEnforcer NsMap PolicySpec Daemon Pods.

Open Scope string_scope.

(** ** strconv.ParseInt(s, 10, 32) *)

Definition digit_of (c : ascii) : option Z :=
  let n := Z.of_nat (nat_of_ascii c) in
  if (48 <=? n)%Z && (n <=? 57)%Z then Some (n - 48)%Z else None.

(** The digits of an unsigned 32-bit number; a number out of range stops the loop with
    the largest one, whatever follows. *)
Fixpoint parse_digits (n : Z) (s : string) : option Z :=
  match s with
  | EmptyString => Some n
  | String c s' =>
      d ← digit_of c;
      let n1 := (n * 10 + d)%Z in
      if (2 ^ 32 - 1 <? n1)%Z then Some (2 ^ 32 - 1)%Z else parse_digits n1 s'
  end.

(** The value that goes with the error, if any: 0 for bad syntax, else the nearest
    number in range. *)
Definition ParseInt32 (s : string) : Z :=
  let '(neg, digits) :=
    match s with
    | String c s' =>
        if Ascii.eqb c "+"%char then (false, s')
        else if Ascii.eqb c "-"%char then (true, s') else (false, s)
    | EmptyString => (false, s)
    end in
  match (if String.eqb digits "" then None else parse_digits 0 digits) with
  | None => 0
  | Some un => if neg then (- Z.min un (2 ^ 31))%Z else Z.min un (2 ^ 31 - 1)
  end.

(** ** Settings *)

(** The part of [cfg.GlobalCfg] that the configuration map sets, the default postures
    aside, which are [dm_GlobalPosture]. *)
Record GlobalCfg := {
  gc_HostVisibility : string; gc_Visibility : string; gc_Cluster : string;
  gc_DefaultPostureLogs : bool; gc_AlertThrottling : bool;
  gc_MaxAlertPerSec : Z; gc_ThrottleSec : Z; gc_MatchArgs : bool }.

Record Namespace := { ns_Name : string; ns_Annotations : gmap string string }.
Record ConfigMap := { cm_Namespace : string; cm_Data : gmap string string }.

(** ** The monitor's configuration in the kernel *)

Section monitor.
Context {EM : Type} `{EC : !EbpfMap EM Z Z} (gc : GlobalCfg).

(** Errors are logged. *)
Definition config_put (k v : Z) (m : EM) : EM := (em_Put m k (v mod 2 ^ 32)).1.

Definition flag (b : bool) : Z := if b then 1 else 0.

Definition UpdateThrottlingConfig (m : EM) : EM :=
  config_put 5 (gc_ThrottleSec gc)
    (config_put 4 (gc_MaxAlertPerSec gc) (config_put 3 (flag (gc_AlertThrottling gc)) m)).
Definition UpdateMatchArgsConfig (m : EM) : EM := config_put 6 (flag (gc_MatchArgs gc)) m.
End monitor.

(** What the handlers call beyond [Backend]: the monitor's settings and the update of a
    namespace in Kubernetes. *)
Class ControlBackend (W : Type) := {
  monitor_UpdateVisibility : GlobalCfg → W → Res W;
  monitor_UpdateThrottlingConfig : GlobalCfg → W → Res W;
  monitor_UpdateMatchArgsConfig : GlobalCfg → W → Res W;
  k8s_UpdateNamespace : Namespace → W → Res W }.

Section posture.
Context `{R : GoRange} {W : Type} `{B : !Backend W} `{CB : !ControlBackend W}.
Context (cfg : Settings).

(** The daemon with its settings *)
Record Running := { run_cfg : GlobalCfg; run_dm : Daemon W }.

Definition run_call (f : W → Res W) (r : Running) : Res Running :=
  dm ← call f (run_dm r); Ok {| run_cfg := run_cfg r; run_dm := dm |}.
Definition set_run_dm (dm : Daemon W) (r : Running) : Running :=
  {| run_cfg := run_cfg r; run_dm := dm |}.

Definition set_DefaultPostures (m : gmap string DefaultPosture) (dm : Daemon W) : Daemon W :=
  {| dm_Node := dm_Node dm; dm_K8sPods := dm_K8sPods dm; dm_Containers := dm_Containers dm;
     dm_EndPoints := dm_EndPoints dm; dm_OwnerInfo := dm_OwnerInfo dm;
     dm_SecurityPolicies := dm_SecurityPolicies dm;
     dm_HostSecurityPolicies := dm_HostSecurityPolicies dm;
     dm_DefaultPostures := m; dm_GlobalPosture := dm_GlobalPosture dm; dm_w := dm_w dm |}.
Definition set_GlobalPosture (dp : DefaultPosture) (dm : Daemon W) : Daemon W :=
  {| dm_Node := dm_Node dm; dm_K8sPods := dm_K8sPods dm; dm_Containers := dm_Containers dm;
     dm_EndPoints := dm_EndPoints dm; dm_OwnerInfo := dm_OwnerInfo dm;
     dm_SecurityPolicies := dm_SecurityPolicies dm;
     dm_HostSecurityPolicies := dm_HostSecurityPolicies dm;
     dm_DefaultPostures := dm_DefaultPostures dm; dm_GlobalPosture := dp; dm_w := dm_w dm |}.
Definition set_Node (n : Node) (dm : Daemon W) : Daemon W :=
  {| dm_Node := n; dm_K8sPods := dm_K8sPods dm; dm_Containers := dm_Containers dm;
     dm_EndPoints := dm_EndPoints dm; dm_OwnerInfo := dm_OwnerInfo dm;
     dm_SecurityPolicies := dm_SecurityPolicies dm;
     dm_HostSecurityPolicies := dm_HostSecurityPolicies dm;
     dm_DefaultPostures := dm_DefaultPostures dm; dm_GlobalPosture := dm_GlobalPosture dm;
     dm_w := dm_w dm |}.

(** ** Postures *)

(** What a namespace's annotation says, if it is valid *)
Definition annotated_posture (key : string) (ns : Namespace) : option string :=
  posture ← ns_Annotations ns !! key;
  if String.eqb posture "audit" || String.eqb posture "Audit" then Some "audit"
  else if String.eqb posture "block" || String.eqb posture "Block" then Some "block"
  else None.

(** An annotation that is not valid is overwritten, also in Kubernetes. *)
Definition validateDefaultPosture (key defaultPosture : string) (st : Namespace * Daemon W)
    : Res (string * bool * (Namespace * Daemon W)) :=
  let '(ns, dm) := st in
  match annotated_posture key ns with
  | Some posture => Ok (posture, true, st)
  | None =>
      match ns_Annotations ns !! key with
      | None => Ok (defaultPosture, false, st)
      | Some _ =>
          let ns := {| ns_Name := ns_Name ns;
                       ns_Annotations := <[key := defaultPosture]> (ns_Annotations ns) |} in
          dm ← call (k8s_UpdateNamespace ns) dm;
          Ok (defaultPosture, false, (ns, dm))
      end
  end.

Definition file_key : string := "kubearmor-file-posture".
Definition network_key : string := "kubearmor-network-posture".
Definition capabilities_key : string := "kubearmor-capabilities-posture".

Record Checked := {
  ck_posture : DefaultPosture;
  ck_annotated : bool;        (* by at least one annotation *)
  ck_fully : bool;            (* by all three *)
  ck_ns : Namespace; ck_dm : Daemon W }.

(** The three calls of [validateDefaultPosture] that always come together *)
Definition namespace_posture (global : DefaultPosture) (ns : Namespace) (dm : Daemon W)
    : Res Checked :=
  f ← validateDefaultPosture file_key (dp_FileAction global) (ns, dm);
  n ← validateDefaultPosture network_key (dp_NetworkAction global) f.2;
  c ← validateDefaultPosture capabilities_key (dp_CapabilitiesAction global) n.2;
  Ok {| ck_posture := {| dp_FileAction := f.1.1; dp_NetworkAction := n.1.1;
                         dp_CapabilitiesAction := c.1.1 |};
        ck_annotated := f.1.2 || n.1.2 || c.1.2;
        ck_fully := f.1.2 && n.1.2 && c.1.2;
        ck_ns := c.2.1; ck_dm := c.2.2 |}.

Definition with_posture (dp : DefaultPosture) (ep : EndPoint) : EndPoint :=
  {| ep_NamespaceName := ep_NamespaceName ep; ep_EndPointName := ep_EndPointName ep;
     ep_ContainerName := ep_ContainerName ep; ep_Labels := ep_Labels ep;
     ep_Identities := ep_Identities ep; ep_Containers := ep_Containers ep;
     ep_AppArmorProfiles := ep_AppArmorProfiles ep; ep_SELinuxProfiles := ep_SELinuxProfiles ep;
     ep_SecurityPolicies := ep_SecurityPolicies ep;
     ep_PrivilegedContainers := ep_PrivilegedContainers ep;
     ep_PolicyEnabled := ep_PolicyEnabled ep; ep_DefaultPosture := dp;
     ep_ProcessVisibilityEnabled := ep_ProcessVisibilityEnabled ep;
     ep_FileVisibilityEnabled := ep_FileVisibilityEnabled ep;
     ep_NetworkVisibilityEnabled := ep_NetworkVisibilityEnabled ep;
     ep_CapabilitiesVisibilityEnabled := ep_CapabilitiesVisibilityEnabled ep |}.

(** A new posture goes to the enforcer only. *)
Definition enforce_posture (ep : EndPoint) (w : W) : Res W :=
  if cf_Policy cfg && is_some (cf_RuntimeEnforcer cfg)
     && (ep_PolicyEnabled ep =? KubeArmorPolicyEnabled)%Z
     && negb (ContainsElement (cf_UntrackedNamespaces cfg) (ep_NamespaceName ep))
  then enforcer_UpdateSecurityPolicies ep w else Ok w.

(** The loops over the endpoints, where [before] is what is done first with one whose
    posture changes *)
Definition posture_index (namespace : string) (dp : DefaultPosture)
    (before : Daemon W → Res (Daemon W)) (r : Res (Daemon W)) (idx : nat)
    : Res (Daemon W) :=
  dm ← r;
  match dm_EndPoints dm !! idx with
  | None => Panic
  | Some endPoint =>
      if String.eqb (ep_NamespaceName endPoint) namespace
         && negb (bool_decide (ep_DefaultPosture endPoint = dp)) then
        dm ← before dm;
        let endPoint := with_posture dp endPoint in
        call (enforce_posture endPoint)
          (set_EndPoints (<[idx := endPoint]> (dm_EndPoints dm)) dm)
      else Ok dm
  end.

Definition posture_loop (namespace : string) (dp : DefaultPosture)
    (before : Daemon W → Res (Daemon W)) (dm : Daemon W) : Res (Daemon W) :=
  foldl (posture_index namespace dp before) (Ok dm) (seq 0 (List.length (dm_EndPoints dm))).

Definition store_posture (action namespace : string) (dp : DefaultPosture) (annotated : bool)
    (m : gmap string DefaultPosture) : gmap string DefaultPosture :=
  let m := if String.eqb action deleteEvent then delete namespace m else m in
  if annotated then <[namespace := dp]> m else m.

Definition UpdateDefaultPosture (action namespace : string) (defaultPosture : DefaultPosture)
    (annotated : bool) (dm : Daemon W) : Res (Daemon W) :=
  dm ← call (logger_UpdateDefaultPosture action namespace defaultPosture)
         (set_DefaultPostures
            (store_posture action namespace defaultPosture annotated (dm_DefaultPostures dm)) dm);
  posture_loop namespace defaultPosture Ok dm.

(** [UpdateDefaultPostureWithCM] before it sets the endpoint's posture *)
Definition posture_with_cm (action namespace : string) (dp : DefaultPosture) (annotated : bool)
    (dm : Daemon W) : Res (Daemon W) :=
  call (logger_UpdateDefaultPosture action namespace dp)
    (if annotated then set_DefaultPostures (<[namespace := dp]> (dm_DefaultPostures dm)) dm
     else dm).

Definition cm_field (k : string) (cm : ConfigMap) : string := default "" (cm_Data cm !! k).

(** The postures as the configuration map has them *)
Definition cm_posture (cm : ConfigMap) : DefaultPosture :=
  {| dp_FileAction := cm_field "defaultFilePosture" cm;
     dp_NetworkAction := cm_field "defaultNetworkPosture" cm;
     dp_CapabilitiesAction := cm_field "defaultCapabilitiesPosture" cm |}.

Definition namespace_with_cm (cm : ConfigMap) (action : string) (r : Res (Daemon W))
    (ns : Namespace) : Res (Daemon W) :=
  dm ← r;
  ck ← namespace_posture (cm_posture cm) ns dm;
  if ck_fully ck then Ok (ck_dm ck)
  else posture_loop (ns_Name ns) (ck_posture ck)
         (posture_with_cm action (ns_Name ns) (ck_posture ck) (ck_annotated ck)) (ck_dm ck).

Definition updatEndpointsWithCM (nsList : option (list Namespace)) (cm : ConfigMap)
    (action : string) (dm : Daemon W) : Res (Daemon W) :=
  match nsList with
  | None => Ok dm
  | Some items => foldl (namespace_with_cm cm action) (Ok dm) items
  end.

Definition validateGlobalDefaultPosture (posture : string) : string :=
  if String.eqb posture "audit" || String.eqb posture "Audit" then "audit"
  else if String.eqb posture "block" || String.eqb posture "Block" then "block"
  else "audit".

Definition UpdateGlobalPosture (posture : DefaultPosture) (dm : Daemon W) : Daemon W :=
  set_GlobalPosture
    {| dp_FileAction := validateGlobalDefaultPosture (dp_FileAction posture);
       dp_NetworkAction := validateGlobalDefaultPosture (dp_NetworkAction posture);
       dp_CapabilitiesAction :=
         validateGlobalDefaultPosture (dp_CapabilitiesAction posture) |} dm.

(** ** Namespaces *)

Definition visibilityKey : string := "kubearmor-visibility".

(** The annotation, unless it is missing or empty, else the global setting *)
Definition namespace_visibility (gc : GlobalCfg) (ns : Namespace) : Visibility :=
  let annotation := default "" (ns_Annotations ns !! visibilityKey) in
  parse_visibility (if String.eqb annotation "" then gc_Visibility gc else annotation).

Definition zero_posture : DefaultPosture :=
  {| dp_FileAction := ""; dp_NetworkAction := ""; dp_CapabilitiesAction := "" |}.

(** [AddFunc] and [UpdateFunc] of [WatchDefaultPosture] *)
Definition namespace_set (event : string) (ns : Namespace) (r : Running) : Res Running :=
  ck ← namespace_posture (dm_GlobalPosture (run_dm r)) ns (run_dm r);
  let visibility := namespace_visibility (run_cfg r) (ck_ns ck) in
  dm ← UpdateDefaultPosture event (ns_Name ns) (ck_posture ck) (ck_annotated ck) (ck_dm ck);
  run_call (monitor_UpdateVisibility_ns event (ns_Name ns) visibility) (set_run_dm dm r).

(** [DeleteFunc] *)
Definition namespace_deleted (ns : Namespace) (r : Running) : Res Running :=
  ck ← namespace_posture (dm_GlobalPosture (run_dm r)) ns (run_dm r);
  dm ← UpdateDefaultPosture deleteEvent (ns_Name ns) zero_posture (ck_annotated ck) (ck_dm ck);
  run_call (monitor_UpdateVisibility_ns deleteEvent (ns_Name ns) empty_Visibility)
    (set_run_dm dm r).

(** ** The configuration map *)

Definition visibility_with_cm (cm : ConfigMap) (r : Res Running) (ns : Namespace)
    : Res Running :=
  r ← r;
  if is_some (ns_Annotations ns !! visibilityKey)
     || ContainsElement (cf_UntrackedNamespaces cfg) (ns_Name ns) then Ok r
  else run_call (monitor_UpdateVisibility_ns updateEvent (ns_Name ns)
                   (parse_visibility (cm_field "visibility" cm))) r.

Definition updateVisibilityWithCM (nsList : option (list Namespace)) (cm : ConfigMap)
    (r : Running) : Res Running :=
  r ← run_call (monitor_UpdateVisibility (run_cfg r)) r;
  match nsList with
  | None => Ok r
  | Some items => foldl (visibility_with_cm cm) (Ok r) items
  end.

(** A flag is changed only by a key that is there. *)
Definition cm_flag (k : string) (cm : ConfigMap) (old : bool) : bool :=
  match cm_Data cm !! k with Some v => String.eqb v "true" | None => old end.
Definition cm_number (k : string) (cm : ConfigMap) (old : Z) : Z :=
  match cm_Data cm !! k with Some v => ParseInt32 v | None => old end.

(** The assignments that come first in both handlers *)
Definition cm_settings (cm : ConfigMap) (r : Running) : Running :=
  let gc := run_cfg r in let dm := run_dm r in let n := dm_Node dm in
  {| run_cfg :=
       {| gc_HostVisibility := cm_field "hostVisibility" cm;
          gc_Visibility := cm_field "visibility" cm; gc_Cluster := cm_field "cluster" cm;
          gc_DefaultPostureLogs := cm_flag "defaultPostureLogs" cm (gc_DefaultPostureLogs gc);
          gc_AlertThrottling := gc_AlertThrottling gc;
          gc_MaxAlertPerSec := gc_MaxAlertPerSec gc; gc_ThrottleSec := gc_ThrottleSec gc;
          gc_MatchArgs := gc_MatchArgs gc |};
     run_dm := set_Node
       {| node_ClusterName := cm_field "cluster" cm; node_NodeName := node_NodeName n;
          node_NodeIP := node_NodeIP n; node_NodeID := node_NodeID n;
          node_Annotations := node_Annotations n; node_Labels := node_Labels n;
          node_Identities := node_Identities n; node_Architecture := node_Architecture n;
          node_OperatingSystem := node_OperatingSystem n; node_OSImage := node_OSImage n;
          node_KernelVersion := node_KernelVersion n;
          node_KubeletVersion := node_KubeletVersion n;
          node_ContainerRuntimeVersion := node_ContainerRuntimeVersion n;
          node_LastUpdatedAt := node_LastUpdatedAt n; node_PolicyEnabled := node_PolicyEnabled n;
          node_ProcessVisibilityEnabled := node_ProcessVisibilityEnabled n;
          node_FileVisibilityEnabled := node_FileVisibilityEnabled n;
          node_NetworkVisibilityEnabled := node_NetworkVisibilityEnabled n;
          node_CapabilitiesVisibilityEnabled := node_CapabilitiesVisibilityEnabled n |} dm |}.

Definition with_limits (throttling : bool) (max_alert sec : Z) (args : bool) (r : Running)
    : Running :=
  let gc := run_cfg r in
  {| run_cfg :=
       {| gc_HostVisibility := gc_HostVisibility gc; gc_Visibility := gc_Visibility gc;
          gc_Cluster := gc_Cluster gc; gc_DefaultPostureLogs := gc_DefaultPostureLogs gc;
          gc_AlertThrottling := throttling; gc_MaxAlertPerSec := max_alert;
          gc_ThrottleSec := sec; gc_MatchArgs := args |};
     run_dm := run_dm r |}.

(** What follows: the global posture, then endpoints and namespaces *)
Definition cm_namespaces (nsList1 nsList2 : option (list Namespace)) (cm : ConfigMap)
    (action : string) (r : Running) : Res Running :=
  dm ← updatEndpointsWithCM nsList1 cm action (UpdateGlobalPosture (cm_posture cm) (run_dm r));
  updateVisibilityWithCM nsList2 cm (set_run_dm dm r).

(** [AddFunc]: limits and matching of arguments change with keys that are there. *)
Definition config_added (cmNS : string) (nsList1 nsList2 : option (list Namespace))
    (cm : ConfigMap) (r : Running) : Res Running :=
  if String.eqb (cm_Namespace cm) cmNS then
    let r := cm_settings cm r in let gc := run_cfg r in
    let r := with_limits (cm_flag "alertThrottling" cm (gc_AlertThrottling gc))
               (cm_number "maxAlertPerSec" cm (gc_MaxAlertPerSec gc))
               (cm_number "throttleSec" cm (gc_ThrottleSec gc))
               (cm_flag "matchArgs" cm (gc_MatchArgs gc)) r in
    r ← run_call (monitor_UpdateThrottlingConfig (run_cfg r)) r;
    r ← run_call (monitor_UpdateMatchArgsConfig (run_cfg r)) r;
    cm_namespaces nsList1 nsList2 cm addEvent r
  else Ok r.

(** [UpdateFunc]: the limits are set even without their keys, the matching of arguments
    not at all. *)
Definition config_updated (cmNS : string) (nsList1 nsList2 : option (list Namespace))
    (cm : ConfigMap) (r : Running) : Res Running :=
  if String.eqb (cm_Namespace cm) cmNS then
    r ← cm_namespaces nsList1 nsList2 cm updateEvent (cm_settings cm r);
    let gc := run_cfg r in
    let r := with_limits (cm_flag "alertThrottling" cm (gc_AlertThrottling gc))
               (ParseInt32 (cm_field "maxAlertPerSec" cm))
               (ParseInt32 (cm_field "throttleSec" cm)) (gc_MatchArgs gc) r in
    run_call (monitor_UpdateThrottlingConfig (run_cfg r)) r
  else Ok r.

End posture.
Arguments Running : clear implicits.
Arguments Checked : clear implicits.
