(* ===== verification/PostureProps.v ===== *)
(** Properties of postures: numbers of the configuration map are read back, endpoints
    follow the postures of their namespaces, and the events after which they do not. *)
From Stdlib Require Import Ascii String.
From S2P Require Import Prelude GoStrings Types Common BpfRules BpfEnforcer BpfEnforcerFacts NsMap PolicySpec Daemon DaemonProps Pods PodsProps Posture.

Open Scope string_scope.

(** ** Numbers *)

Lemma digit_of_digit d : (0 ≤ d < 10)%Z → digit_of (digit d) = Some d.
Proof.
  intros Hd. assert (Hn : Z.to_nat d ∈ seq 0 10) by (apply elem_of_seq; lia).
  rewrite <- (Z2Nat.id d) by lia. revert Hn. generalize (Z.to_nat d). intros n Hn.
  repeat (apply elem_of_cons in Hn as [->|Hn]; [reflexivity|]). by apply elem_of_nil in Hn.
Qed.

(** The number that a parsed suffix completes *)
Lemma parse_digits_app n z fuel acc :
  (0 ≤ n)%Z → (0 ≤ z)%Z → (z < 10 ^ Z.of_nat fuel)%Z →
  ∃ k, (z < 10 ^ k)%Z ∧ (0 ≤ k)%Z ∧ ((n * 10 ^ k + z ≤ 2 ^ 32 - 1)%Z →
    parse_digits n (digits fuel z acc) = parse_digits (n * 10 ^ k + z) acc).
Proof.
  revert z acc. induction fuel as [|fuel IH]; intros z acc Hn Hz Hlt.
  { exists 0%Z. split; [simpl in *; lia|]. split; [lia|]. intros _. simpl in *.
    f_equal; lia. }
  cbn [digits]. pose proof (Z.mod_pos_bound z 10 ltac:(lia)) as Hm.
  pose proof (Z.div_mod z 10 ltac:(lia)) as Hdm.
  assert (Hstep : ∀ m, (0 ≤ m)%Z → (m * 10 + z mod 10 ≤ 2 ^ 32 - 1)%Z →
    parse_digits m (String (digit (z mod 10)) acc) = parse_digits (m * 10 + z mod 10) acc).
  { intros m Hm0 Hle. cbn [parse_digits]. rewrite digit_of_digit by lia. simpl.
    destruct (Z.ltb_spec (2 ^ 32 - 1) (m * 10 + z mod 10)); [lia|done]. }
  destruct (Z.ltb_spec z 10) as [Hs|Hs].
  - exists 1%Z. split; [lia|]. split; [lia|]. rewrite Z.mod_small in * by lia.
    intros Hle. rewrite Hstep by lia. f_equal; lia.
  - destruct (IH (z / 10)%Z (String (digit (z mod 10)) acc)) as (k & Hk & Hk0 & Hp).
    + done.
    + lia.
    + rewrite Nat2Z.inj_succ, Z.pow_succ_r in Hlt by lia. lia.
    + exists (k + 1)%Z. rewrite Z.pow_add_r, Z.pow_1_r by lia. split; [lia|]. split; [lia|].
      intros Hle. rewrite Hp by lia. rewrite Hstep by lia. f_equal; lia.
Qed.

Lemma parse_digits_Itoa z :
  (0 ≤ z ≤ 2 ^ 32 - 1)%Z → parse_digits 0 (digits 20 z "") = Some z.
Proof.
  intros Hz. destruct (parse_digits_app 0 z 20 "") as (k & _ & _ & Hp); [lia|lia|lia|].
  rewrite Hp by lia. simpl. f_equal; lia.
Qed.

Lemma digits_cons fuel z acc : ∃ c s, digits (S fuel) z acc = String c s ∧
  (digit_of c ≠ None ∨ (z < 0)%Z).
Proof.
  revert z acc. induction fuel as [|fuel IH]; intros z acc; cbn [digits];
    pose proof (Z.mod_pos_bound z 10 ltac:(lia)) as Hm;
    (assert (Hd : digit_of (digit (z mod 10)) ≠ None) by (by rewrite digit_of_digit by lia));
    destruct (z <? 10)%Z; eauto 6.
  destruct (IH (z / 10)%Z (String (digit (z mod 10)) acc)) as (c & s & E & [Hc|Hc]); eauto 6.
  exists c, s. split; [exact E|]. right. pose proof (Z.div_mod z 10 ltac:(lia)). lia.
Qed.

(** The numbers of the configuration map are read back: the decimal form of every
    32-bit integer parses to that integer; a larger or smaller one to the nearest. *)
Theorem ParseInt32_Itoa z :
  (- 2 ^ 32 < z < 2 ^ 32)%Z →
  ParseInt32 (Itoa z) = Z.max (- 2 ^ 31) (Z.min z (2 ^ 31 - 1)).
Proof.
  intros Hz. unfold ParseInt32, Itoa. destruct (Z.ltb_spec z 0) as [Hn|Hn].
  - cbn -[digits parse_digits Z.pow].
    destruct (digits_cons 19 (- z) "") as (c & s & E & _). rewrite E. cbn -[Z.pow parse_digits].
    rewrite <- E, parse_digits_Itoa by lia. lia.
  - destruct (digits_cons 19 z "") as (c & s & E & [Hc|Hc]); [|lia].
    assert (Hp : Ascii.eqb c "+"%char = false).
    { apply Ascii.eqb_neq. intros ->. by apply Hc. }
    assert (Hm : Ascii.eqb c "-"%char = false).
    { apply Ascii.eqb_neq. intros ->. by apply Hc. }
    rewrite E, Hp, Hm. cbn -[Z.pow parse_digits]. rewrite <- E, parse_digits_Itoa by lia. lia.
Qed.

Section props.
Context `{R : GoRange} {W : Type} `{B : !Backend W} `{CB : !ControlBackend W}.
Context (cfg : Settings) (CompilePOSIX : string → option (string → bool)).
Context (MarshalPolicy : SecurityPolicy → string)
        (UnmarshalPolicy : string → option SecurityPolicy).

Implicit Types dm : Daemon W.

(** ** What a namespace's annotations say *)

Definition resolved (global : DefaultPosture) (ns : Namespace) : DefaultPosture :=
  {| dp_FileAction := default (dp_FileAction global) (annotated_posture file_key ns);
     dp_NetworkAction := default (dp_NetworkAction global) (annotated_posture network_key ns);
     dp_CapabilitiesAction :=
       default (dp_CapabilitiesAction global) (annotated_posture capabilities_key ns) |}.

Definition posture_keys : list string := [file_key; network_key; capabilities_key].
Definition annotated (ns : Namespace) : bool :=
  existsb (λ k, is_some (annotated_posture k ns)) posture_keys.
Definition fully_annotated (ns : Namespace) : bool :=
  forallb (λ k, is_some (annotated_posture k ns)) posture_keys.

Lemma annotated_posture_insert k k' v (ns : Namespace) :
  k ≠ k' →
  annotated_posture k {| ns_Name := ns_Name ns;
                         ns_Annotations := <[k' := v]> (ns_Annotations ns) |} =
  annotated_posture k ns.
Proof. intros Hk. unfold annotated_posture. simpl. by rewrite lookup_insert_ne. Qed.

Lemma set_dm_w_self dm : dm = set_dm_w (dm_w dm) dm.
Proof. by destruct dm. Qed.

Lemma validateDefaultPosture_spec k def (ns : Namespace) dm r :
  validateDefaultPosture k def (ns, dm) = Ok r →
  r.1.1 = default def (annotated_posture k ns) ∧
  r.1.2 = is_some (annotated_posture k ns) ∧
  ns_Name r.2.1 = ns_Name ns ∧ (∃ w, r.2.2 = set_dm_w w dm) ∧
  ∀ k', k' ≠ k → annotated_posture k' r.2.1 = annotated_posture k' ns.
Proof.
  unfold validateDefaultPosture. destruct (annotated_posture k ns) as [p|] eqn:E.
  { intros [= <-]. simpl. split_and!; try done. exists (dm_w dm). apply set_dm_w_self. }
  destruct (ns_Annotations ns !! k).
  - intros H. go_res H. injection H as <-. unfold call in Ha. go_res Ha. injection Ha as <-.
    simpl. split_and!; try done; [by eexists|]. intros k' Hk. by apply annotated_posture_insert.
  - intros [= <-]. simpl. split_and!; try done. exists (dm_w dm). apply set_dm_w_self.
Qed.

Lemma namespace_posture_spec global (ns : Namespace) dm (ck : Checked W) :
  namespace_posture global ns dm = Ok ck →
  ck_posture ck = resolved global ns ∧ ck_annotated ck = annotated ns ∧
  ck_fully ck = fully_annotated ns ∧ ∃ w, ck_dm ck = set_dm_w w dm.
Proof.
  unfold namespace_posture. intros H. go_res H. go_res H. go_res H. injection H as <-.
  apply validateDefaultPosture_spec in Ha as (Hf1 & Hf2 & _ & (w1 & Hd1) & Hk1).
  destruct a as [[fp fa] [ns1 dm1]]. simpl in *. subst.
  apply validateDefaultPosture_spec in Ha0 as (Hn1 & Hn2 & _ & (w2 & Hd2) & Hk2).
  destruct a0 as [[np na] [ns2 dm2]]. simpl in *. subst.
  apply validateDefaultPosture_spec in Ha1 as (Hc1 & Hc2 & _ & (w3 & Hd3) & _).
  destruct a1 as [[cp ca] [ns3 dm3]]. simpl in *. subst.
  rewrite (Hk2 capabilities_key), (Hk1 capabilities_key), (Hk1 network_key) by done.
  unfold resolved, annotated, fully_annotated. simpl.
  rewrite orb_false_r, andb_true_r, orb_assoc, andb_assoc. split_and!; try done. by exists w3.
Qed.

(** ** The loops over the endpoints *)

Definition repost (namespace : string) (dp : DefaultPosture) (ep : EndPoint) : EndPoint :=
  if String.eqb (ep_NamespaceName ep) namespace then with_posture dp ep else ep.

Lemma with_posture_same ep : with_posture (ep_DefaultPosture ep) ep = ep.
Proof. by destruct ep. Qed.

Section loop.
Context (namespace : string) (dp : DefaultPosture) (before : Daemon W → Res (Daemon W)).
(** [before] and the changes of endpoints keep [I]. *)
Context (I : Daemon W → Prop).
Context (I_before : ∀ d d', I d → before d = Ok d' →
           I d' ∧ dm_EndPoints d' = dm_EndPoints d).
Context (I_set : ∀ d l w, I d → I (set_dm_w w (set_EndPoints l d))).

Lemma posture_suffix (post pre : list EndPoint) dm dm' :
  I dm → dm_EndPoints dm = (pre ++ post)%list →
  foldl (posture_index cfg namespace dp before) (Ok dm)
        (seq (List.length pre) (List.length post)) = Ok dm' →
  I dm' ∧ dm_EndPoints dm' = (pre ++ (repost namespace dp <$> post))%list.
Proof.
  revert pre dm. induction post as [|ep post IH]; intros pre dm HI He.
  { simpl. intros [= <-]. by rewrite app_nil_r in He |- *. }
  cbn [List.length seq foldl]. unfold posture_index at 2. cbn [mbind Res_bind].
  rewrite He, list_lookup_middle by done. intros H.
  assert (Hnext : ∀ d e, I d → dm_EndPoints d = (pre ++ e :: post)%list →
    foldl (posture_index cfg namespace dp before) (Ok d)
          (seq (S (List.length pre)) (List.length post)) = Ok dm' →
    I dm' ∧ dm_EndPoints dm' = (pre ++ e :: (repost namespace dp <$> post))%list).
  { intros d e Hd Hde Hf. destruct (IH (pre ++ [e])%list d Hd) as [HI' He'].
    - by rewrite <- app_assoc.
    - rewrite length_app. simpl. by rewrite Nat.add_1_r.
    - split; [done|]. by rewrite He', <- app_assoc. }
  assert (Hp : foldl (posture_index cfg namespace dp before) Panic
                 (seq (S (List.length pre)) (List.length post)) = Panic).
  { clear. generalize (seq (S (List.length pre)) (List.length post)) as l.
    induction l; simpl; auto. }
  cbn [fmap list_fmap].
  destruct (String.eqb (ep_NamespaceName ep) namespace) eqn:En; cbn [andb] in H.
  - destruct (bool_decide (ep_DefaultPosture ep = dp)) eqn:Ep; cbn [negb] in H.
    + apply bool_decide_eq_true in Ep as <-. unfold repost at 1. rewrite En, with_posture_same.
      by apply (Hnext dm).
    + destruct (before dm) as [d1|] eqn:Eb; cbn [mbind Res_bind] in H.
      2:{ by rewrite Hp in H. }
      destruct (I_before _ _ HI Eb) as [HI1 He1]. unfold call in H.
      destruct (enforce_posture _ _ _) as [w|]; cbn [mbind Res_bind] in H.
      2:{ by rewrite Hp in H. }
      unfold repost at 1. rewrite En. eapply Hnext; [|simpl|exact H].
      * by apply I_set.
      * rewrite He1, He, insert_app_r_alt, Nat.sub_diag by done. done.
  - unfold repost at 1. rewrite En. by apply (Hnext dm).
Qed.

Lemma posture_loop_spec dm dm' :
  I dm → posture_loop cfg namespace dp before dm = Ok dm' →
  I dm' ∧ dm_EndPoints dm' = repost namespace dp <$> dm_EndPoints dm.
Proof. intros HI. by apply (posture_suffix _ []). Qed.
End loop.

(** Only the endpoints and the other components changed *)
Definition rest_same dm dm' : Prop :=
  dm' = set_dm_w (dm_w dm') (set_EndPoints (dm_EndPoints dm') dm).

Lemma UpdateDefaultPosture_spec action namespace dp ann dm dm' :
  UpdateDefaultPosture cfg action namespace dp ann dm = Ok dm' →
  dm_EndPoints dm' = repost namespace dp <$> dm_EndPoints dm ∧
  rest_same (set_DefaultPostures
    (store_posture action namespace dp ann (dm_DefaultPostures dm)) dm) dm'.
Proof.
  unfold UpdateDefaultPosture. intros H. go_res H. unfold call in Ha. go_res Ha.
  injection Ha as <-.
  apply (posture_loop_spec _ _ _ (rest_same (set_DefaultPostures
    (store_posture action namespace dp ann (dm_DefaultPostures dm)) dm))) in H
    as [Hr He]; [done| | |done].
  - intros d d' Hd [= <-]. done.
  - intros d l w ->. done.
Qed.

(** ** Endpoints in step with their namespaces *)

(** Every endpoint has the posture that a new endpoint of its namespace would get. *)
Definition in_step dm : Prop :=
  ∀ ep, ep ∈ dm_EndPoints dm → ep_DefaultPosture ep = posture_for dm (ep_NamespaceName ep).

Lemma in_step_frame dm dm' :
  dm_DefaultPostures dm' = dm_DefaultPostures dm → dm_GlobalPosture dm' = dm_GlobalPosture dm →
  (∀ ep, ep ∈ dm_EndPoints dm' → ∃ ep0, ep0 ∈ dm_EndPoints dm ∧
     ep_DefaultPosture ep = ep_DefaultPosture ep0 ∧
     ep_NamespaceName ep = ep_NamespaceName ep0) →
  in_step dm → in_step dm'.
Proof.
  intros Hd Hg He Hs ep Hep. destruct (He ep Hep) as (ep0 & H0 & Hp & Hn).
  unfold posture_for. rewrite Hd, Hg, Hp, Hn. by apply Hs.
Qed.

Lemma repost_in_step namespace dp eps dm dm' :
  in_step dm → dm_EndPoints dm = eps →
  dm_EndPoints dm' = repost namespace dp <$> eps →
  posture_for dm' namespace = dp →
  (∀ ns, ns ≠ namespace → posture_for dm' ns = posture_for dm ns) →
  in_step dm'.
Proof.
  intros Hs He He' Hdp Hne ep Hep. rewrite He' in Hep.
  apply list_elem_of_fmap in Hep as (x & -> & Hx). unfold repost.
  destruct (String.eqb (ep_NamespaceName x) namespace) eqn:En; cbn [with_posture].
  - apply String.eqb_eq in En. simpl. by rewrite En, Hdp.
  - apply String.eqb_neq in En. rewrite Hne by done. apply Hs. by rewrite He.
Qed.

(** The posture that the namespace's event leaves for new endpoints *)
Lemma UpdateDefaultPosture_in_step action namespace dp (ann : bool) dm dm' :
  action ≠ deleteEvent → in_step dm →
  (if ann then True else dm_DefaultPostures dm !! namespace = None ∧ dp = dm_GlobalPosture dm) →
  UpdateDefaultPosture cfg action namespace dp ann dm = Ok dm' → in_step dm'.
Proof.
  intros Ha Hs Hann [He Hr]%UpdateDefaultPosture_spec.
  assert (Hd : dm_DefaultPostures dm' =
               if ann then <[namespace := dp]> (dm_DefaultPostures dm) else dm_DefaultPostures dm).
  { rewrite Hr. simpl. unfold store_posture. by rewrite (proj2 (String.eqb_neq _ _) Ha). }
  assert (Hg : dm_GlobalPosture dm' = dm_GlobalPosture dm) by by rewrite Hr.
  apply (repost_in_step namespace dp (dm_EndPoints dm) dm dm'); [done..| |];
    unfold posture_for; rewrite Hd, Hg.
  - destruct ann; [by rewrite lookup_insert_eq|]. destruct Hann as [-> ->]. done.
  - intros ns Hne. destruct ann; [by rewrite lookup_insert_ne|done].
Qed.

Lemma resolved_unannotated global (ns : Namespace) :
  annotated ns = false → resolved global ns = global.
Proof.
  unfold annotated, resolved. simpl. intros H. repeat apply orb_false_elim in H as [? H].
  destruct (annotated_posture file_key ns), (annotated_posture network_key ns),
    (annotated_posture capabilities_key ns); try done. by destruct global.
Qed.

(** ** What the namespaces ask for *)

(** The specification, of the annotations as they are reported: a mode, in lower case or
    capitalised *)
Definition mode (s : string) : option string :=
  if decide (s ∈ ["audit"; "Audit"]) then Some "audit"
  else if decide (s ∈ ["block"; "Block"]) then Some "block" else None.

Definition asked (global : string) (a : gmap string string) (key : string) : string :=
  default global (a !! key ≫= mode).
Definition asked_posture (global : DefaultPosture) (a : gmap string string) : DefaultPosture :=
  {| dp_FileAction := asked (dp_FileAction global) a "kubearmor-file-posture";
     dp_NetworkAction := asked (dp_NetworkAction global) a "kubearmor-network-posture";
     dp_CapabilitiesAction :=
       asked (dp_CapabilitiesAction global) a "kubearmor-capabilities-posture" |}.

Definition asks_mode (a : gmap string string) : bool :=
  existsb (λ k, is_some (a !! k ≫= mode))
    ["kubearmor-file-posture"; "kubearmor-network-posture"; "kubearmor-capabilities-posture"].

(** The namespaces with the annotations reported last *)
Local Abbreviation Reported := (gmap string (gmap string string)).
Definition reported (anns : Reported) (n : string) : gmap string string := default ∅ (anns !! n).

Lemma annotated_posture_mode k (ns : Namespace) :
  annotated_posture k ns = ns_Annotations ns !! k ≫= mode.
Proof.
  unfold annotated_posture. destruct (ns_Annotations ns !! k) as [v|]; [|done]. simpl.
  unfold mode.
  assert (∀ a b, String.eqb v a || String.eqb v b = bool_decide (v ∈ [a; b])) as E.
  { intros a b. apply Bool.eq_iff_eq_true. rewrite orb_true_iff, bool_decide_eq_true.
    rewrite !String.eqb_eq. set_solver. }
  rewrite !E. by repeat case_bool_decide; repeat case_decide.
Qed.

Lemma resolved_asked global (ns : Namespace) :
  resolved global ns = asked_posture global (ns_Annotations ns).
Proof. unfold resolved, asked_posture, asked. by rewrite !annotated_posture_mode. Qed.

Lemma annotated_asks_mode (ns : Namespace) : annotated ns = asks_mode (ns_Annotations ns).
Proof. unfold annotated, asks_mode, posture_keys. simpl. by rewrite !annotated_posture_mode. Qed.

Lemma asked_nothing global a : asks_mode a = false → asked_posture global a = global.
Proof.
  intros H. pose proof (resolved_unannotated global {| ns_Name := ""; ns_Annotations := a |}) as E.
  rewrite annotated_asks_mode, resolved_asked in E. by apply E.
Qed.

(** What happens to the postures: policies change, pods come, change and go, namespaces are
    set, and go when their endpoints have gone.  A namespace may not lose its last
    annotation of a mode, nor be deleted with one. *)
Inductive posture_history : Reported → Running W → Running W → Prop :=
| ph_start r : posture_history ∅ r r
| ph_policy anns r0 r dm' event ty p :
    posture_history anns r0 r →
    policy_event cfg CompilePOSIX event ty p (run_dm r) = Ok dm' →
    posture_history anns r0 (set_run_dm dm' r)
| ph_pod anns r0 r dm' nsList action pod :
    posture_history anns r0 r →
    UpdateEndPointWithPod cfg CompilePOSIX MarshalPolicy UnmarshalPolicy nsList action pod
      (run_dm r) = Ok dm' → posture_history anns r0 (set_run_dm dm' r)
| ph_namespace anns r0 r r' event ns :
    posture_history anns r0 r → event = addEvent ∨ event = updateEvent →
    asks_mode (ns_Annotations ns) = true ∨ asks_mode (reported anns (ns_Name ns)) = false →
    namespace_set cfg event ns r = Ok r' →
    posture_history (<[ns_Name ns := ns_Annotations ns]> anns) r0 r'
| ph_deleted anns r0 r r' ns :
    posture_history anns r0 r → asks_mode (ns_Annotations ns) = false →
    (∀ ep, ep ∈ dm_EndPoints (run_dm r) → ep_NamespaceName ep ≠ ns_Name ns) →
    namespace_deleted cfg ns r = Ok r' → posture_history (delete (ns_Name ns) anns) r0 r'.

Lemma pod_endpoints_in_step nsList pod dm dm1 eps :
  pod_endpoints CompilePOSIX MarshalPolicy UnmarshalPolicy nsList pod dm = Ok (dm1, eps) →
  dm_EndPoints dm1 = dm_EndPoints dm ∧ dm_DefaultPostures dm1 = dm_DefaultPostures dm ∧
  dm_GlobalPosture dm1 = dm_GlobalPosture dm ∧
  ∀ ep, ep ∈ eps → ep_DefaultPosture ep = posture_for dm (ep_NamespaceName ep).
Proof.
  unfold pod_endpoints. intros H. go_res H. apply container_steps_frame in Ha as (m & w & ->).
  injection H as <- <-. split_and!; [done..|].
  intros ep (kv & -> & _)%list_elem_of_fmap. done.
Qed.

Lemma pod_added_in_step nsList pod dm dm' :
  in_step dm →
  pod_added cfg CompilePOSIX MarshalPolicy UnmarshalPolicy nsList pod dm = Ok dm' → in_step dm'.
Proof.
  unfold pod_added. intros Hs H. go_res H. destruct a as [dm1 eps].
  apply pod_endpoints_in_step in Ha as (He & Hd & Hg & Hnew).
  apply notify_endpoints_frame in H as (w & ->). intros ep. simpl. rewrite He.
  unfold posture_for in *. simpl. rewrite Hd, Hg. intros [Hep|Hep]%elem_of_app; auto.
Qed.

Lemma pod_event_in_step nsList action pod dm dm' :
  in_step dm →
  UpdateEndPointWithPod cfg CompilePOSIX MarshalPolicy UnmarshalPolicy nsList action pod dm
    = Ok dm' → in_step dm'.
Proof.
  intros Hs. unfold UpdateEndPointWithPod, pod_modified.
  destruct (String.eqb action addEvent); [by apply pod_added_in_step|].
  destruct (String.eqb action updateEvent).
  - destruct (find (of_pod pod) (dm_EndPoints dm)); [|by apply pod_added_in_step].
    intros H. go_res H. destruct a as [dm1 made].
    apply pod_endpoints_in_step in Ha as (He & Hd & Hg & _).
    apply notify_endpoints_frame in H as (w & ->). intros ep. simpl.
    rewrite overwrite_nothing, He. unfold posture_for. simpl. rewrite Hd, Hg. apply Hs.
  - intros [= <-]. intros ep. cbn [pod_deleted dm_EndPoints set_EndPoints].
    intros [_ Hep]%list_elem_of_filter. by apply Hs.
Qed.

Lemma policy_event_in_step event ty p dm dm' :
  in_step dm → policy_event cfg CompilePOSIX event ty p dm = Ok dm' → in_step dm'.
Proof.
  intros Hs H. unfold policy_event in H. rewrite UpdateSecurityPolicy_eq in H. go_res H.
  injection H as <-. revert Hs. apply in_step_frame; [done..|]. simpl.
  intros ep (x & -> & Hx)%list_elem_of_fmap. exists x. split; [done|].
  unfold updated, update_endpoint. repeat case_bool; done.
Qed.

Lemma run_call_frame (f : W → Res W) (r r' : Running W) :
  run_call f r = Ok r' → run_cfg r' = run_cfg r ∧ ∃ w, run_dm r' = set_dm_w w (run_dm r).
Proof.
  unfold run_call, call. intros H. go_res H. go_res Ha. injection Ha as <-. injection H as <-.
  split; [done|]. by eexists.
Qed.

Lemma namespace_set_spec event ns (r r' : Running W) :
  namespace_set cfg event ns r = Ok r' →
  ∃ dm1 dm2 w1 w2,
    dm1 = set_dm_w w1 (run_dm r) ∧
    UpdateDefaultPosture cfg event (ns_Name ns) (resolved (dm_GlobalPosture (run_dm r)) ns)
      (annotated ns) dm1 = Ok dm2 ∧
    run_dm r' = set_dm_w w2 dm2 ∧ run_cfg r' = run_cfg r.
Proof.
  unfold namespace_set. intros H. go_res H. go_res H.
  apply namespace_posture_spec in Ha as (Hp & Ha & _ & w1 & Hd). rewrite Hp, Ha, Hd in Ha0.
  apply run_call_frame in H as [Hc [w2 Hr]]. by exists (set_dm_w w1 (run_dm r)), a0, w1, w2.
Qed.

Lemma namespace_deleted_spec ns (r r' : Running W) :
  namespace_deleted cfg ns r = Ok r' →
  ∃ dm1 dm2 w1 w2,
    dm1 = set_dm_w w1 (run_dm r) ∧
    UpdateDefaultPosture cfg deleteEvent (ns_Name ns) zero_posture (annotated ns) dm1 = Ok dm2 ∧
    run_dm r' = set_dm_w w2 dm2 ∧ run_cfg r' = run_cfg r.
Proof.
  unfold namespace_deleted. intros H. go_res H. go_res H.
  apply namespace_posture_spec in Ha as (Hp & Ha & _ & w1 & Hd). rewrite Ha, Hd in Ha0.
  apply run_call_frame in H as [Hc [w2 Hr]]. by exists (set_dm_w w1 (run_dm r)), a0, w1, w2.
Qed.

(** The daemon's table of postures agrees with the annotations reported. *)
Definition table_agrees (global : DefaultPosture) (anns : Reported) dm : Prop :=
  dm_GlobalPosture dm = global ∧
  ∀ n, dm_DefaultPostures dm !! n =
       if asks_mode (reported anns n) then Some (asked_posture global (reported anns n)) else None.

Lemma table_agrees_for global anns dm n :
  table_agrees global anns dm → posture_for dm n = asked_posture global (reported anns n).
Proof.
  intros [Hg Ht]. unfold posture_for. rewrite Ht, Hg.
  destruct (asks_mode (reported anns n)) eqn:E; [done|]. by rewrite asked_nothing.
Qed.

Lemma policy_event_tables event ty p dm dm' :
  policy_event cfg CompilePOSIX event ty p dm = Ok dm' →
  dm_GlobalPosture dm' = dm_GlobalPosture dm ∧ dm_DefaultPostures dm' = dm_DefaultPostures dm.
Proof.
  intros H. unfold policy_event in H. rewrite UpdateSecurityPolicy_eq in H. go_res H.
  by injection H as <-.
Qed.

Lemma pod_added_tables nsList pod dm dm' :
  pod_added cfg CompilePOSIX MarshalPolicy UnmarshalPolicy nsList pod dm = Ok dm' →
  dm_GlobalPosture dm' = dm_GlobalPosture dm ∧ dm_DefaultPostures dm' = dm_DefaultPostures dm.
Proof.
  unfold pod_added. intros H. go_res H. destruct a as [dm1 eps].
  apply pod_endpoints_in_step in Ha as (_ & Hd & Hg & _).
  by apply notify_endpoints_frame in H as (w & ->).
Qed.

Lemma pod_event_tables nsList action pod dm dm' :
  UpdateEndPointWithPod cfg CompilePOSIX MarshalPolicy UnmarshalPolicy nsList action pod dm
    = Ok dm' →
  dm_GlobalPosture dm' = dm_GlobalPosture dm ∧ dm_DefaultPostures dm' = dm_DefaultPostures dm.
Proof.
  unfold UpdateEndPointWithPod, pod_modified.
  destruct (String.eqb action addEvent); [apply pod_added_tables|].
  destruct (String.eqb action updateEvent); [|by intros [= <-]].
  destruct (find (of_pod pod) (dm_EndPoints dm)); [|apply pod_added_tables].
  intros H. go_res H. destruct a as [dm1 made].
  apply pod_endpoints_in_step in Ha as (_ & Hd & Hg & _).
  by apply notify_endpoints_frame in H as (w & ->).
Qed.

(** A namespace is set: the table and the endpoints *)
Lemma namespace_set_agrees global anns event ns (r r' : Running W) :
  event = addEvent ∨ event = updateEvent →
  asks_mode (ns_Annotations ns) = true ∨ asks_mode (reported anns (ns_Name ns)) = false →
  in_step (run_dm r) → table_agrees global anns (run_dm r) →
  namespace_set cfg event ns r = Ok r' →
  in_step (run_dm r') ∧
  table_agrees global (<[ns_Name ns := ns_Annotations ns]> anns) (run_dm r').
Proof.
  intros Hev Hann Hs [Hg Ht] H.
  apply namespace_set_spec in H as (dm1 & dm2 & w1 & w2 & -> & Hu & Hr & _).
  rewrite Hg, resolved_asked, annotated_asks_mode in Hu. rewrite Hr. split.
  - eapply UpdateDefaultPosture_in_step in Hu; [exact Hu|by destruct Hev as [->| ->]|exact Hs|].
    destruct (asks_mode (ns_Annotations ns)) eqn:Ea; [done|]. destruct Hann as [?|Hn]; [done|].
    cbn [dm_DefaultPostures dm_GlobalPosture set_dm_w]. rewrite Ht, Hn, Hg.
    split; [done|]. by apply asked_nothing.
  - apply UpdateDefaultPosture_spec in Hu as [_ Hsame]. unfold table_agrees.
    cbn [dm_DefaultPostures dm_GlobalPosture set_dm_w]. rewrite Hsame. split; [exact Hg|].
    intros n. cbn [dm_DefaultPostures set_dm_w set_EndPoints set_DefaultPostures].
    unfold store_posture, reported in *.
    rewrite (proj2 (String.eqb_neq event deleteEvent)) by (by destruct Hev as [->| ->]).
    destruct (decide (n = ns_Name ns)) as [->|Hne].
    + rewrite lookup_insert_eq. cbn [default from_option id].
      destruct (asks_mode (ns_Annotations ns)) eqn:Ea.
      * by rewrite lookup_insert_eq.
      * destruct Hann as [?|Hn]; [done|]. by rewrite Ht, Hn.
    + rewrite (lookup_insert_ne anns) by done.
      destruct (asks_mode (ns_Annotations ns)); rewrite ?lookup_insert_ne by done; apply Ht.
Qed.

Lemma namespace_deleted_agrees global anns ns (r r' : Running W) :
  asks_mode (ns_Annotations ns) = false →
  (∀ ep, ep ∈ dm_EndPoints (run_dm r) → ep_NamespaceName ep ≠ ns_Name ns) →
  in_step (run_dm r) → table_agrees global anns (run_dm r) →
  namespace_deleted cfg ns r = Ok r' →
  in_step (run_dm r') ∧ table_agrees global (delete (ns_Name ns) anns) (run_dm r').
Proof.
  intros Hann Hno Hs [Hg Ht] H.
  apply namespace_deleted_spec in H as (dm1 & dm2 & w1 & w2 & -> & Hu & Hr & _).
  apply UpdateDefaultPosture_spec in Hu as [Hep Hsame]. rewrite Hr.
  rewrite annotated_asks_mode, Hann in Hsame. unfold store_posture in Hsame. cbn in Hsame, Hep. split.
  - intros ep Hin. change (dm_EndPoints dm2) with (dm_EndPoints (set_dm_w w2 dm2)) in Hep.
    rewrite Hep in Hin. apply list_elem_of_fmap in Hin as (x & -> & Hx).
    unfold repost. rewrite (proj2 (String.eqb_neq _ _) (Hno x Hx)).
    rewrite (Hs x Hx). unfold posture_for. cbn [dm_DefaultPostures dm_GlobalPosture set_dm_w].
    rewrite Hsame. cbn. by rewrite lookup_delete_ne by (intros Hx'; by apply (Hno x Hx)).
  - unfold table_agrees, reported. cbn [dm_DefaultPostures dm_GlobalPosture set_dm_w].
    rewrite Hsame. split; [exact Hg|]. intros n.
    cbn [dm_DefaultPostures set_dm_w set_EndPoints set_DefaultPostures].
    destruct (decide (n = ns_Name ns)) as [->|Hne].
    + by rewrite !lookup_delete_eq.
    + rewrite !lookup_delete_ne by done. apply Ht.
Qed.

(** C5: Endpoints follow the annotations of their namespaces.  From a start without endpoints
    and postures, policies may change, pods come, change and go and namespaces be annotated
    in any order: every endpoint has at all times, for files, for the network and for
    capabilities, the mode that the annotation last reported of its namespace asks for, and
    the global mode where that is missing or unknown; provided that no namespace loses its
    last annotation or is deleted with one, see [old_postures_stay], and the configuration
    map stays. *)
Theorem endpoints_follow_postures anns r0 r :
  posture_history anns r0 r →
  dm_EndPoints (run_dm r0) = [] → dm_DefaultPostures (run_dm r0) = ∅ →
  ∀ ep, ep ∈ dm_EndPoints (run_dm r) →
    ep_DefaultPosture ep =
    asked_posture (dm_GlobalPosture (run_dm r0)) (reported anns (ep_NamespaceName ep)).
Proof.
  intros H He H0 ep Hep. set (global := dm_GlobalPosture (run_dm r0)).
  enough (in_step (run_dm r) ∧ table_agrees global anns (run_dm r)) as [Hs Ht].
  { rewrite (Hs ep Hep). by apply table_agrees_for. }
  clear ep Hep. subst global.
  induction H as [r|anns r0 r dm' event ty p _ IH H|anns r0 r dm' nsList action pod _ IH H|
                  anns r0 r r' event ns _ IH Hev Hann H|anns r0 r r' ns _ IH Hann Hno H].
  - split; [intros ep; rewrite He; by intros []%elem_of_nil|]. split; [done|].
    intros n. unfold reported. by rewrite H0, !lookup_empty.
  - destruct (IH He H0) as [Hs [Hg Ht]]. split; [by eapply policy_event_in_step|].
    apply policy_event_tables in H as [Hg' Hd']. split; cbn [set_run_dm run_dm].
    + by rewrite Hg'.
    + intros n. by rewrite Hd'.
  - destruct (IH He H0) as [Hs [Hg Ht]]. split; [by eapply pod_event_in_step|].
    apply pod_event_tables in H as [Hg' Hd']. split; cbn [set_run_dm run_dm].
    + by rewrite Hg'.
    + intros n. by rewrite Hd'.
  - destruct (IH He H0). by eapply namespace_set_agrees.
  - destruct (IH He H0). by eapply namespace_deleted_agrees.
Qed.

(** ** Postures that stay *)

(** When a namespace loses its posture annotations, its endpoints get the global
    posture but the daemon keeps the old one for endpoints to come; when an annotated
    namespace is deleted, the daemon keeps the empty posture under its name, which a
    namespace of that name without annotations gets. *)
Theorem old_postures_stay (ns : Namespace) (r r' : Running W) :
  (∀ event dp, event = addEvent ∨ event = updateEvent → annotated ns = false →
     dm_DefaultPostures (run_dm r) !! ns_Name ns = Some dp →
     namespace_set cfg event ns r = Ok r' →
     posture_for (run_dm r') (ns_Name ns) = dp ∧
     ∀ ep, ep ∈ dm_EndPoints (run_dm r') → ep_NamespaceName ep = ns_Name ns →
           ep_DefaultPosture ep = dm_GlobalPosture (run_dm r)) ∧
  (annotated ns = true → namespace_deleted cfg ns r = Ok r' →
     posture_for (run_dm r') (ns_Name ns) = zero_posture).
Proof.
  split.
  - intros event dp Hev Hann Hdp H.
    apply namespace_set_spec in H as (dm1 & dm2 & w1 & w2 & -> & Hu & Hr & _).
    rewrite Hann, resolved_unannotated in Hu by done.
    apply UpdateDefaultPosture_spec in Hu as [Hep Hsame]. rewrite Hr. split.
    + unfold posture_for. cbn [dm_DefaultPostures set_dm_w]. rewrite Hsame.
      unfold store_posture. by destruct Hev as [->| ->]; simpl; rewrite Hdp.
    + cbn [dm_EndPoints set_dm_w]. rewrite Hep. intros ep (x & -> & _)%list_elem_of_fmap.
      unfold repost. destruct (String.eqb (ep_NamespaceName x) (ns_Name ns)) eqn:En; [done|].
      by apply String.eqb_neq in En.
  - intros Hann H. apply namespace_deleted_spec in H as (dm1 & dm2 & w1 & w2 & -> & Hu & Hr & _).
    apply UpdateDefaultPosture_spec in Hu as [_ Hsame]. rewrite Hr. unfold posture_for.
    cbn [dm_DefaultPostures set_dm_w]. rewrite Hsame, Hann. unfold store_posture. simpl.
    by rewrite lookup_insert_eq.
Qed.

(** ** The configuration map *)

Definition cm_dm (cm : ConfigMap) dm : Daemon W := UpdateGlobalPosture (cm_posture cm) dm.

(** What the list of namespaces does to an endpoint *)
Definition cm_repost (cm : ConfigMap) (ep : EndPoint) (ns : Namespace) : EndPoint :=
  if fully_annotated ns then ep else repost (ns_Name ns) (resolved (cm_posture cm) ns) ep.

Lemma namespace_with_cm_spec cm action ns dm dm' :
  namespace_with_cm cfg cm action (Ok dm) ns = Ok dm' →
  dm_EndPoints dm' = (λ ep, cm_repost cm ep ns) <$> dm_EndPoints dm ∧
  dm_GlobalPosture dm' = dm_GlobalPosture dm.
Proof.
  unfold namespace_with_cm. cbn [mbind Res_bind]. intros H. go_res H.
  apply namespace_posture_spec in Ha as (Hp & Ha & Hf & w & Hd). unfold cm_repost.
  rewrite Hp, Ha, Hf, Hd in H. destruct (fully_annotated ns).
  - injection H as <-. simpl. by rewrite list_fmap_id.
  - apply (posture_loop_spec _ _ _ (λ d, dm_GlobalPosture d = dm_GlobalPosture dm)) in H
      as [Hg He]; [done| |done|done].
    intros d d' <- Hb. unfold posture_with_cm, call in Hb. go_res Hb. injection Hb as <-.
    destruct (annotated ns); done.
Qed.

Lemma namespace_with_cm_Panic cm action l :
  foldl (namespace_with_cm cfg cm action) Panic l = (Panic : Res (Daemon W)).
Proof. induction l; simpl; auto. Qed.

Lemma updatEndpointsWithCM_spec items cm action dm dm' :
  updatEndpointsWithCM cfg (Some items) cm action dm = Ok dm' →
  dm_EndPoints dm' = (λ ep, foldl (cm_repost cm) ep items) <$> dm_EndPoints dm ∧
  dm_GlobalPosture dm' = dm_GlobalPosture dm.
Proof.
  unfold updatEndpointsWithCM. revert dm. induction items as [|ns items IH]; intros dm.
  { intros [= ->]. simpl. by rewrite list_fmap_id. }
  cbn [foldl]. destruct (namespace_with_cm cfg cm action (Ok dm) ns) as [d1|] eqn:E.
  2:{ by rewrite namespace_with_cm_Panic. }
  apply namespace_with_cm_spec in E as [He Hg]. intros [He' Hg']%IH.
  rewrite He', He, Hg', Hg, <- list_fmap_compose. done.
Qed.

Lemma updateVisibilityWithCM_frame nsList cm (r r' : Running W) :
  updateVisibilityWithCM cfg nsList cm r = Ok r' →
  run_cfg r' = run_cfg r ∧ ∃ w, run_dm r' = set_dm_w w (run_dm r).
Proof.
  unfold updateVisibilityWithCM. intros H. go_res H.
  apply run_call_frame in Ha as [Hc [w Hw]].
  assert (Hl : ∀ (items : list Namespace) (r1 r2 : Running W),
    foldl (visibility_with_cm cfg cm) (Ok r1) items = Ok r2 →
    run_cfg r2 = run_cfg r1 ∧ ∃ w, run_dm r2 = set_dm_w w (run_dm r1)).
  { induction items as [|ns items IH]; intros r1 r2.
    - intros [= ->]. split; [done|]. eexists. apply set_dm_w_self.
    - cbn [foldl]. destruct (visibility_with_cm cfg cm (Ok r1) ns) as [r3|] eqn:E.
      2:{ assert (foldl (visibility_with_cm cfg cm) (Panic : Res (Running W)) items = Panic)
            as -> by (clear; induction items; simpl; auto). done. }
      intros [Hc' [w' Hw']]%IH. unfold visibility_with_cm in E. cbn [mbind Res_bind] in E.
      case_bool; [by injection E as ->; eauto|].
      apply run_call_frame in E as [Hc3 [w3 Hw3]]. rewrite Hc', Hc3, Hw', Hw3.
      split; [done|]. by eexists. }
  destruct nsList as [items|].
  - apply Hl in H as [Hc' [w' Hw']]. rewrite Hc', Hc, Hw', Hw. split; [done|]. by eexists.
  - injection H as <-. rewrite Hc, Hw. split; [done|]. by eexists.
Qed.

(** The endpoint's own namespace, listed once, decides. *)
Lemma cm_repost_list cm ep (items : list Namespace) ns :
  NoDup (ns_Name <$> items) → ns ∈ items → ns_Name ns = ep_NamespaceName ep →
  foldl (cm_repost cm) ep items = cm_repost cm ep ns.
Proof.
  intros Hnd Hin Hname.
  assert (Hoff : ∀ l e, (∀ n, n ∈ l → ns_Name n ≠ ep_NamespaceName e) →
            foldl (cm_repost cm) e l = e).
  { induction l as [|n l IH]; intros e Hl; [done|]. cbn [foldl].
    assert (cm_repost cm e n = e) as ->.
    { unfold cm_repost, repost. destruct (fully_annotated n); [done|].
      rewrite (proj2 (String.eqb_neq _ _)); [done|]. intros Hx. by apply (Hl n); [left|]. }
    apply IH. intros. apply Hl. by right. }
  apply list_elem_of_split in Hin as (l1 & l2 & ->).
  rewrite fmap_app, list.NoDup_app in Hnd. destruct Hnd as (_ & Hd & Hn2).
  cbn [fmap list_fmap] in Hd, Hn2. apply list.NoDup_cons in Hn2 as [Hn2 _].
  rewrite foldl_app. cbn [foldl]. rewrite (Hoff l1).
  2:{ intros n Hn Hx. apply (Hd (ns_Name n)); [by apply list_elem_of_fmap_2|].
      rewrite Hx, <- Hname. left. }
  rewrite (Hoff l2); [done|]. intros n Hn Hx. apply Hn2. rewrite Hname.
  assert (Hs : ep_NamespaceName (cm_repost cm ep ns) = ep_NamespaceName ep).
  { unfold cm_repost, repost. repeat case_bool; done. }
  rewrite Hs in Hx. rewrite <- Hx. by apply list_elem_of_fmap_2.
Qed.

(** A change of the configuration map gives the endpoints of a namespace without
    annotations the posture as it is written there, but endpoints to come the same posture
    made regular: with [Block] for files, the ones that run are switched to
    auditing, since the enforcer blocks for [block] only, while new ones are blocked. *)
Theorem config_posture_not_regular cmNS items nsList2 cm (r r' : Running W) ns ep :
  cm_Namespace cm = cmNS → NoDup (ns_Name <$> items) → ns ∈ items →
  (∀ k, k ∈ posture_keys → ns_Annotations ns !! k = None) →
  ep ∈ dm_EndPoints (run_dm r) → ep_NamespaceName ep = ns_Name ns →
  cm_field "defaultFilePosture" cm = "Block" →
  config_updated cfg cmNS (Some items) nsList2 cm r = Ok r' →
  ∃ ep', ep' ∈ dm_EndPoints (run_dm r') ∧ ep_EndPointName ep' = ep_EndPointName ep ∧
    ep_DefaultPosture ep' = cm_posture cm ∧
    dp_FileAction (dm_GlobalPosture (run_dm r')) = "block" ∧
    posture_val FilePart (ep_DefaultPosture ep') ≠
      posture_val FilePart (dm_GlobalPosture (run_dm r')).
Proof.
  intros Hns Hnd Hin Hann Hep Hname Hblock H. unfold config_updated in H.
  rewrite (proj2 (String.eqb_eq _ _) Hns) in H. go_res H. unfold cm_namespaces in Ha. go_res Ha.
  apply run_call_frame in H as [_ [w Hr]].
  apply updateVisibilityWithCM_frame in Ha as [_ [w' Hw']].
  apply updatEndpointsWithCM_spec in Ha0 as [He Hg].
  assert (Hno : ∀ k, k ∈ posture_keys → annotated_posture k ns = None).
  { intros k Hk. unfold annotated_posture. by rewrite (Hann k Hk). }
  assert (Hf : fully_annotated ns = false).
  { unfold fully_annotated. simpl. rewrite (Hno file_key); [done|]. left. }
  assert (Ha : annotated ns = false).
  { unfold annotated, posture_keys in *. simpl.
    rewrite (Hno file_key), (Hno network_key), (Hno capabilities_key) by set_solver. done. }
  exists (foldl (cm_repost cm) ep items).
  rewrite Hr. cbn [run_dm with_limits dm_EndPoints set_dm_w dm_GlobalPosture].
  rewrite Hw'. cbn [run_dm set_run_dm dm_EndPoints set_dm_w dm_GlobalPosture].
  rewrite He, Hg, (cm_repost_list cm ep items ns) by done. split.
  { apply list_elem_of_fmap. exists ep. split; [|exact Hep].
    by rewrite (cm_repost_list cm ep items ns). }
  assert (Hp : cm_repost cm ep ns = with_posture (cm_posture cm) ep).
  { unfold cm_repost, repost. by rewrite Hf, resolved_unannotated, Hname, String.eqb_refl. }
  rewrite Hp. split; [done|]. split; [done|].
  cbn [UpdateGlobalPosture set_GlobalPosture dm_GlobalPosture dp_FileAction cm_posture
       ep_DefaultPosture with_posture]. rewrite Hblock. split; [done|].
  unfold posture_val. simpl. rewrite Hblock. vm_compute. discriminate.
Qed.

(** An update of the configuration map without the keys for the limits of alerts sets
    both limits to zero, where the same map when it is added keeps them. *)
Theorem config_update_resets_limits cmNS nsList1 nsList2 cm (r r' : Running W) :
  cm_Namespace cm = cmNS → cm_Data cm !! "maxAlertPerSec" = None →
  cm_Data cm !! "throttleSec" = None →
  (config_updated cfg cmNS nsList1 nsList2 cm r = Ok r' →
   gc_MaxAlertPerSec (run_cfg r') = 0%Z ∧ gc_ThrottleSec (run_cfg r') = 0%Z) ∧
  (config_added cfg cmNS nsList1 nsList2 cm r = Ok r' →
   gc_MaxAlertPerSec (run_cfg r') = gc_MaxAlertPerSec (run_cfg r) ∧
   gc_ThrottleSec (run_cfg r') = gc_ThrottleSec (run_cfg r)).
Proof.
  intros Hns Hm Ht. unfold config_updated, config_added.
  rewrite (proj2 (String.eqb_eq _ _) Hns). split; intros H.
  - go_res H. apply run_call_frame in H as [-> _]. cbn [run_cfg with_limits gc_MaxAlertPerSec
      gc_ThrottleSec]. unfold cm_field. by rewrite Hm, Ht.
  - go_res H. go_res H. apply run_call_frame in Ha as [Hc1 _], Ha0 as [Hc2 _].
    unfold cm_namespaces in H. go_res H. apply updateVisibilityWithCM_frame in H as [Hc3 _].
    rewrite Hc3. cbn [run_cfg set_run_dm]. rewrite Hc2, Hc1. unfold cm_number.
    cbn [run_cfg with_limits gc_MaxAlertPerSec gc_ThrottleSec]. by rewrite Hm, Ht.
Qed.
End props.

(** ** Witnesses *)

Section witnesses.
#[local] Existing Instance canonical_range.

Definition silent : ControlBackend Trace := {|
  monitor_UpdateVisibility _ := Ok; monitor_UpdateThrottlingConfig _ := Ok;
  monitor_UpdateMatchArgsConfig _ := Ok; k8s_UpdateNamespace _ := Ok |}.
#[local] Existing Instance silent.

Definition sample_gc : GlobalCfg :=
  {| gc_HostVisibility := "process"; gc_Visibility := "process,network"; gc_Cluster := "default";
     gc_DefaultPostureLogs := true; gc_AlertThrottling := true; gc_MaxAlertPerSec := 10;
     gc_ThrottleSec := 30; gc_MatchArgs := true |}.

Definition blocked_ns : Namespace :=
  {| ns_Name := "default"; ns_Annotations := {["kubearmor-file-posture" := "Block"]} |}.
Definition plain_ns : Namespace := {| ns_Name := "default"; ns_Annotations := ∅ |}.

Definition run_result (r : Res (Running Trace)) : Running Trace :=
  match r with Ok r => r | Panic => {| run_cfg := sample_gc; run_dm := no_endpoints |} end.

Definition fresh_daemon : Running Trace := {| run_cfg := sample_gc; run_dm := no_endpoints |}.
Definition with_namespace : Running Trace :=
  run_result (namespace_set sample_cfg addEvent blocked_ns fresh_daemon).
Definition with_blocked_pod : Running Trace :=
  set_run_dm (result (pod_event addEvent (run_dm with_namespace))) with_namespace.

Example with_blocked_pod_postures :
  dp_FileAction ∘ ep_DefaultPosture <$> dm_EndPoints (run_dm with_blocked_pod) =
  ["block"; "block"].
Proof. vm_compute. reflexivity. Qed.

Lemma with_namespace_Ok : namespace_set sample_cfg addEvent blocked_ns fresh_daemon = Ok with_namespace.
Proof. vm_compute. reflexivity. Qed.
Lemma with_blocked_pod_Ok : pod_event addEvent (run_dm with_namespace) =
  Ok (result (pod_event addEvent (run_dm with_namespace))).
Proof. vm_compute. reflexivity. Qed.

(** Files are blocked as the annotation says, the network is audited by default. *)
Lemma endpoints_follow_postures_witness :
  Forall (λ ep, ep_DefaultPosture ep =
            {| dp_FileAction := "block"; dp_NetworkAction := "audit";
               dp_CapabilitiesAction := "audit" |})
    (dm_EndPoints (run_dm with_blocked_pod)).
Proof.
  apply list.Forall_forall. intros ep Hep.
  rewrite (endpoints_follow_postures sample_cfg (λ _, None) name_of policy_of
    (<["default" := ns_Annotations blocked_ns]> ∅) fresh_daemon with_blocked_pod);
    [|  |reflexivity|reflexivity|exact Hep].
  - vm_compute in Hep. repeat (apply elem_of_cons in Hep as [->|Hep]; [reflexivity|]).
    by apply elem_of_nil in Hep.
  - eapply (ph_pod _ _ _ _ _ _ with_namespace _ None addEvent sample_pod);
      [|exact with_blocked_pod_Ok].
    eapply (ph_namespace _ _ _ _ ∅ _ fresh_daemon _ addEvent blocked_ns);
      [apply ph_start|by left|left; vm_compute; reflexivity|exact with_namespace_Ok].
Defined.

Lemma old_postures_stay_witness :
  ∃ r', namespace_set sample_cfg updateEvent plain_ns with_namespace = Ok r' ∧
    dp_FileAction (posture_for (run_dm r') "default") = "block".
Proof.
  set (r' := run_result (namespace_set sample_cfg updateEvent plain_ns with_namespace)).
  assert (E : namespace_set sample_cfg updateEvent plain_ns with_namespace = Ok r')
    by (vm_compute; reflexivity).
  exists r'. split; [exact E|].
  destruct (old_postures_stay sample_cfg plain_ns with_namespace r') as [H _].
  destruct (H updateEvent (posture_for (run_dm with_namespace) "default") (or_intror eq_refl)
              eq_refl ltac:(vm_compute; reflexivity) E) as [Hp _].
  change (ns_Name plain_ns) with "default" in Hp. rewrite Hp. vm_compute. reflexivity.
Defined.

Definition sample_cm : ConfigMap :=
  {| cm_Namespace := "kubearmor";
     cm_Data := {["defaultFilePosture" := "Block"; "defaultNetworkPosture" := "audit";
                  "defaultCapabilitiesPosture" := "audit"; "visibility" := "process"]} |}.

Definition running_pod : Running Trace :=
  {| run_cfg := sample_gc; run_dm := sample_daemon [] [] |}.
Definition reconfigured : Running Trace :=
  run_result (config_updated sample_cfg "kubearmor" (Some [plain_ns]) None sample_cm running_pod).

Lemma reconfigured_Ok :
  config_updated sample_cfg "kubearmor" (Some [plain_ns]) None sample_cm running_pod =
  Ok reconfigured.
Proof. vm_compute. reflexivity. Qed.

Lemma config_posture_not_regular_witness :
  ∃ ep, ep ∈ dm_EndPoints (run_dm reconfigured) ∧
    dp_FileAction (ep_DefaultPosture ep) = "Block" ∧
    dp_FileAction (dm_GlobalPosture (run_dm reconfigured)) = "block".
Proof.
  destruct (config_posture_not_regular sample_cfg "kubearmor" [plain_ns] None sample_cm
    running_pod reconfigured plain_ns (sample_endpoint [])) as (ep & H & _ & Hp & Hg & _).
  - reflexivity.
  - apply list.NoDup_singleton.
  - left.
  - intros k _. reflexivity.
  - left.
  - reflexivity.
  - vm_compute. reflexivity.
  - exact reconfigured_Ok.
  - exists ep. split; [exact H|]. split; [|exact Hg]. rewrite Hp. vm_compute. reflexivity.
Defined.

Lemma config_update_resets_limits_witness :
  gc_MaxAlertPerSec (run_cfg running_pod) = 10%Z ∧
  gc_MaxAlertPerSec (run_cfg reconfigured) = 0%Z.
Proof.
  split; [reflexivity|].
  exact (proj1 (proj1 (config_update_resets_limits sample_cfg "kubearmor" (Some [plain_ns]) None
    sample_cm running_pod reconfigured eq_refl ltac:(vm_compute; reflexivity)
    ltac:(vm_compute; reflexivity)) reconfigured_Ok)).
Defined.

Lemma ParseInt32_Itoa_witness : ParseInt32 (Itoa 3000000000) = 2147483647%Z.
Proof. exact (ParseInt32_Itoa 3000000000 ltac:(lia)). Defined.
End witnesses.
