(* ===== verification/PodEvents.v ===== *)
(** Events of nodes and pods ([KubeArmor/core/kubeUpdate.go], [HandleNodeAnnotations],
    [checkAndUpdateNode], [handlePodEvent]; [getTopLevelOwner] of
    [KubeArmor/core/k8sHandler.go]).

    A pod of the API becomes a [K8sPod]: annotations say whether its policies are
    enforced, and the AppArmor profiles of its containers are made known.  The answers of
    the Kubernetes API are arguments ([None] is an error). *)
From Stdlib Require Import Ascii String.
From S2P Require Import Prelude GoStrings Types Common PolicySpec Daemon Pods Posture.

Open Scope string_scope.

(** ** Objects of the API, with what the code reads of them *)

Record OwnerReference := {
  or_Kind : string; or_Name : string; or_Controller : option bool }.
Record ObjectMeta := {
  om_Name : string; om_Namespace : string; om_OwnerReferences : list OwnerReference }.
Record ContainerStatus := {
  cs_ContainerID : string; cs_Name : string; cs_Image : string; cs_ImageID : string }.
(** [SecurityContext]: [Privileged] and the added capabilities, which may be [nil] *)
Record SpecContainer := {
  sc_Name : string; sc_SecurityContext : option (option bool * option (list string)) }.
Record PodObject := {
  po_Meta : ObjectMeta; po_Kind : string;
  po_Annotations : gmap string string; po_Labels : gmap string string;
  po_ContainerStatuses : list ContainerStatus; po_Containers : list SpecContainer }.
Record NodeObject := {
  no_Addresses : list (string * string);
  no_Annotations : gmap string string; no_Labels : gmap string string;
  no_Architecture : string; no_OperatingSystem : string; no_OSImage : string;
  no_KernelVersion : string; no_KubeletVersion : string;
  no_ContainerRuntimeVersion : string }.

(** ** Strings *)

(** [strings.Cut] at a separator of any length *)
Fixpoint cut_at (sep s : string) : option (string * string) :=
  if HasPrefix s sep
  then Some ("", String.substring (String.length sep) (String.length s - String.length sep) s)
  else match s with
       | EmptyString => None
       | String c s' => (λ ab, (String c ab.1, ab.2)) <$> cut_at sep s'
       end.

(** The second of exactly two parts *)
Definition second_part (sep s : string) : option string :=
  ab ← cut_at sep s;
  match cut_at sep ab.2 with None => Some ab.2 | Some _ => None end.

Definition GetSHA256ofImage (s : string) : string :=
  match IndexChar "@"%char s with
  | Some idx => String.substring idx (String.length s - idx) s
  | None => s
  end.

(** [strings.Split(s, "/")[1]] *)
Definition after_slash (s : string) : Res string :=
  match split slash s with _ :: v :: _ => Ok v | _ => Panic end.

(** ** Owners *)

Definition GetControllingPodOwner (ownerRefs : list OwnerReference) : option OwnerReference :=
  find (λ r, match or_Controller r with Some b => b | None => false end) ownerRefs.

(** The kinds that are followed, with the kind given to what owns them *)
Definition followed (kind : string) : option string :=
  if String.eqb kind "Job" then Some "CronJob"
  else if existsb (String.eqb kind)
            ["Pod"; "CronJob"; "Deployment"; "ReplicaSet"; "StatefulSet"; "DaemonSet"]
  then Some kind else None.

Section owner.
Context (get : string → string → string → option ObjectMeta).

(** Name, kind and namespace; [None] inside is an error of the API, outside it is that the
    fuel is used up. *)
Fixpoint getTopLevelOwner (fuel : nat) (obj : ObjectMeta) (namespace objkind : string)
    : option (option (string * string * string)) :=
  match fuel with
  | O => None
  | S fuel =>
      match GetControllingPodOwner (om_OwnerReferences obj) with
      | None => Some (Some (om_Name obj, objkind, namespace))
      | Some ref =>
          match followed (or_Kind ref) with
          | None => Some (Some (om_Name obj, objkind, namespace))
          | Some kind =>
              match get (or_Kind ref) namespace (or_Name ref) with
              | None => Some None
              | Some o =>
                  match om_OwnerReferences o with
                  | _ :: _ => getTopLevelOwner fuel o namespace kind
                  | [] =>
                      Some (Some (if String.eqb (or_Kind ref) "Pod" then ("", "", "")
                                  else (om_Name o, or_Kind ref, om_Namespace o)))
                  end
              end
          end
      end
  end.
End owner.

(** ** Annotations of nodes *)

Definition policy_key : string := "kubearmor-policy".
Definition modes : list string := ["enabled"; "disabled"; "audited"].

(** Missing and unknown values are [enabled]. *)
Definition default_policy (m : gmap string string) : gmap string string :=
  if ContainsElement modes (field policy_key m) then m else <[policy_key := "enabled"]> m.

(** [enabled] becomes [audited] *)
Definition only_audit (m : gmap string string) : gmap string string :=
  if String.eqb (field policy_key m) "enabled" then <[policy_key := "audited"]> m else m.

(** [lsm] is what the label or the system says, [hostVisibility] the global setting. *)
Definition HandleNodeAnnotations (isInK8sCluster : bool) (lsmFile hostVisibility : string)
    (node : Node) : Node :=
  let lsm := default lsmFile (node_Labels node !! "kubearmor.io/enforcer") in
  let hasAppArmor := Contains lsm "apparmor" in
  let hasSelinux := Contains lsm "selinux" in
  let hasBPF := Contains lsm "bpf" in
  let m := default_policy (node_Annotations node) in
  let m := if negb hasBPF && negb hasSelinux && negb hasAppArmor then only_audit m else m in
  let m := if isInK8sCluster && hasSelinux then only_audit m else m in
  let m := match m !! visibilityKey with
           | Some _ => m | None => <[visibilityKey := hostVisibility]> m end in
  let scopes := split comma (field visibilityKey m) in
  {| node_ClusterName := node_ClusterName node; node_NodeName := node_NodeName node;
     node_NodeIP := node_NodeIP node; node_NodeID := node_NodeID node;
     node_Annotations := m; node_Labels := node_Labels node;
     node_Identities := node_Identities node; node_Architecture := node_Architecture node;
     node_OperatingSystem := node_OperatingSystem node; node_OSImage := node_OSImage node;
     node_KernelVersion := node_KernelVersion node;
     node_KubeletVersion := node_KubeletVersion node;
     node_ContainerRuntimeVersion := node_ContainerRuntimeVersion node;
     node_LastUpdatedAt := node_LastUpdatedAt node;
     node_PolicyEnabled := policy_flag (field policy_key m);
     node_ProcessVisibilityEnabled :=
       ContainsElement scopes "process" || node_ProcessVisibilityEnabled node;
     node_FileVisibilityEnabled :=
       ContainsElement scopes "file" || node_FileVisibilityEnabled node;
     node_NetworkVisibilityEnabled :=
       ContainsElement scopes "network" || node_NetworkVisibilityEnabled node;
     node_CapabilitiesVisibilityEnabled :=
       ContainsElement scopes "capabilities" || node_CapabilitiesVisibilityEnabled node |}.

(** Effects on Kubernetes *)
Class PodBackend (W : Type) := {
  k8s_PatchAppArmor : string → string → gmap string string → string → W → Res W }.

Section pods.
Context `{R : GoRange} {W : Type} `{B : !Backend W} `{PB : !PodBackend W} (cfg : Settings).
Context (CompilePOSIX : string → option (string → bool)).
Context (MarshalPolicy : SecurityPolicy → string)
        (UnmarshalPolicy : string → option SecurityPolicy).
Context (gc : GlobalCfg) (host : string) (annotateResources : bool).
(** Whether KubeArmor runs in a pod, and what the system says of its LSMs *)
Context (isInK8sCluster : bool) (lsmFile : string).

(** The node that was known is replaced, its identifier included. *)
Definition checkAndUpdateNode (item : NodeObject) (dm : Daemon W) : Daemon W :=
  set_Node (HandleNodeAnnotations isInK8sCluster lsmFile (gc_HostVisibility gc)
    {| node_ClusterName := gc_Cluster gc; node_NodeName := host;
       node_NodeIP := default ""
         (snd <$> find (λ a, String.eqb a.1 "InternalIP") (no_Addresses item));
       node_NodeID := "";
       node_Annotations := no_Annotations item; node_Labels := no_Labels item;
       node_Identities := sort_strings ((λ kv, label kv.1 kv.2) <$> go_range (no_Labels item));
       node_Architecture := no_Architecture item;
       node_OperatingSystem := no_OperatingSystem item; node_OSImage := no_OSImage item;
       node_KernelVersion := no_KernelVersion item;
       node_KubeletVersion := no_KubeletVersion item;
       node_ContainerRuntimeVersion := no_ContainerRuntimeVersion item;
       node_LastUpdatedAt := ""; node_PolicyEnabled := 0;
       node_ProcessVisibilityEnabled := false; node_FileVisibilityEnabled := false;
       node_NetworkVisibilityEnabled := false;
       node_CapabilitiesVisibilityEnabled := false |}) dm.

(** ** Pods *)

(** The API: the owner of a kind, namespace and name; whether a pod of a namespace is
    there; the containers in the template of an object. *)
Context (get : string → string → string → option ObjectMeta) (fuel : nat)
        (get_pod : string → string → bool)
        (get_template : string → string → string → option (list string)).

Definition set_K8sPods (l : list K8sPod) (dm : Daemon W) : Daemon W :=
  {| dm_Node := dm_Node dm; dm_K8sPods := l; dm_Containers := dm_Containers dm;
     dm_EndPoints := dm_EndPoints dm; dm_OwnerInfo := dm_OwnerInfo dm;
     dm_SecurityPolicies := dm_SecurityPolicies dm;
     dm_HostSecurityPolicies := dm_HostSecurityPolicies dm;
     dm_DefaultPostures := dm_DefaultPostures dm; dm_GlobalPosture := dm_GlobalPosture dm;
     dm_w := dm_w dm |}.
Definition set_OwnerInfo (m : gmap string PodOwner) (dm : Daemon W) : Daemon W :=
  {| dm_Node := dm_Node dm; dm_K8sPods := dm_K8sPods dm; dm_Containers := dm_Containers dm;
     dm_EndPoints := dm_EndPoints dm; dm_OwnerInfo := m;
     dm_SecurityPolicies := dm_SecurityPolicies dm;
     dm_HostSecurityPolicies := dm_HostSecurityPolicies dm;
     dm_DefaultPostures := dm_DefaultPostures dm; dm_GlobalPosture := dm_GlobalPosture dm;
     dm_w := dm_w dm |}.

Definition owner_ref (o : PodOwner) : string := o.1.1.
Definition owner_name (o : PodOwner) : string := o.1.2.

(** The owner of a pod that is added, or changed if the API finds a pod of that name in
    the namespace [""]: the variable is set by the call that follows.  Running out of
    fuel stands for the stack overflow of an endless chain of owners. *)
Definition pod_owner_info (event : string) (obj : PodObject) : Res (option PodOwner) :=
  if String.eqb event addEvent
     || String.eqb event updateEvent && get_pod "" (om_Name (po_Meta obj)) then
    match getTopLevelOwner get fuel (po_Meta obj) (om_Namespace (po_Meta obj)) (po_Kind obj) with
    | None => Panic
    | Some r =>
        let '(name, kind, namespace) := default ("", "", "") r in
        Ok (Some (kind, name, namespace))
    end
  else Ok None.

Definition dropped_labels : list string :=
  ["pod-template-hash"; "pod-template-generation"; "controller-revision-hash"].

Definition pod_labels (m : gmap string string) : gmap string string :=
  foldr delete m dropped_labels.

Definition add_status (st : gmap string string * gmap string string) (c : ContainerStatus)
    : gmap string string * gmap string string :=
  match second_part "://" (cs_ContainerID c) with
  | None => st
  | Some containerID =>
      (<[containerID := cs_Name c]> st.1,
       <[containerID := cs_Image c +:+ GetSHA256ofImage (cs_ImageID c)]> st.2)
  end.

(** The mode of a pod and what is reported of it *)
Definition pod_annotations (namespace : string) (labels m : gmap string string)
    : gmap string string :=
  let m := default_policy m in
  let m := match cf_RuntimeEnforcer cfg with
           | None => only_audit m
           | Some t => if String.eqb t "SELinux" then only_audit m else m
           end in
  let m := if String.eqb namespace "kube-system" then <[policy_key := "audited"]> m else m in
  let m := match labels !! "io.cilium/app" with
           | Some _ => <[policy_key := "audited"]> m | None => m end in
  match m !! visibilityKey with
  | Some _ => m | None => <[visibilityKey := gc_Visibility gc]> m end.

Definition same_pod (pod k8spod : K8sPod) : bool :=
  String.eqb (field "namespaceName" (pod_Metadata k8spod)) (field "namespaceName" (pod_Metadata pod))
  && String.eqb (field "podName" (pod_Metadata k8spod)) (field "podName" (pod_Metadata pod)).

Definition patched (pod : K8sPod) : bool :=
  String.eqb (field policy_key (pod_Annotations pod)) "patched".

(** *** AppArmor *)

Definition apparmor_prefix : string := "container.apparmor.security.beta.kubernetes.io".

Definition add_annotation (r : Res (gmap string string)) (kv : string * string)
    : Res (gmap string string) :=
  m ← r;
  if HasPrefix kv.1 apparmor_prefix then
    containerName ← after_slash kv.1;
    v ← (if String.eqb kv.2 "unconfined" then Ok kv.2 else after_slash kv.2);
    Ok (<[containerName := v]> m)
  else Ok m.

Definition is_privileged (c : SpecContainer) : bool :=
  match sc_SecurityContext c with
  | None => false
  | Some (privileged, added) =>
      match privileged with Some b => b | None => false end
      || match added with Some (_ :: _) => true | _ => false end
  end.

(** The annotations, whether one was added, the privileged containers and profiles *)
Record Profiles := {
  pf_annotations : gmap string string; pf_update : bool;
  pf_containers : gset string; pf_profiles : gset string }.

Definition profile_step (namespace podOwnerName : string) (containers : list string)
    (st : Profiles) (c : SpecContainer) : Profiles :=
  let profileName := "kubearmor-" +:+ namespace +:+ "-" +:+ podOwnerName +:+ "-" +:+ sc_Name c in
  let adds := negb (is_some (pf_annotations st !! sc_Name c))
              && ContainsElement containers (sc_Name c) in
  {| pf_annotations := if adds then <[sc_Name c := profileName]> (pf_annotations st)
                       else pf_annotations st;
     pf_update := adds || pf_update st;
     pf_containers := if is_privileged c then {[sc_Name c]} ∪ pf_containers st
                      else pf_containers st;
     pf_profiles := if is_privileged c then {[profileName]} ∪ pf_profiles st
                    else pf_profiles st |}.

Definition template_kinds : list string :=
  ["StatefulSet"; "ReplicaSet"; "DaemonSet"; "Deployment"; "Pod"; "Job"; "CronJob"].

Definition template_containers (namespace podOwnerName : string) (owner : PodOwner)
    : list string :=
  if String.eqb (owner_name owner) "" then []
  else if ContainsElement template_kinds (owner_ref owner)
  then default [] (get_template (owner_ref owner) namespace podOwnerName) else [].

Definition set_pod_annotations (m : gmap string string) (pod : K8sPod) : K8sPod :=
  {| pod_Metadata := pod_Metadata pod; pod_Annotations := m; pod_Labels := pod_Labels pod;
     pod_Containers := pod_Containers pod; pod_ContainerImages := pod_ContainerImages pod;
     pod_PrivilegedContainers := pod_PrivilegedContainers pod;
     pod_PrivilegedAppArmorProfiles := pod_PrivilegedAppArmorProfiles pod |}.

(** The owner's resource is patched, if this is KubeArmor's business; errors are
    logged. *)
Definition patch_owner (pf : Profiles) (owner : PodOwner) (pod : K8sPod) (dm : Daemon W)
    : Res (K8sPod * Daemon W) :=
  if pf_update pf && String.eqb (field policy_key (pod_Annotations pod)) "enabled"
     && negb (String.eqb (owner_ref owner) "Pod")
     && negb (String.eqb (owner_name owner) "") && annotateResources then
    dm ← call (k8s_PatchAppArmor (field "namespaceName" (pod_Metadata pod)) (owner_name owner)
                 (pf_annotations pf) (owner_ref owner)) dm;
    Ok (set_pod_annotations (<[policy_key := "patched"]> (pod_Annotations pod)) pod, dm)
  else Ok (pod, dm).

(** The branch for the AppArmor enforcer *)
Definition apparmor_pod (event podOwnerName : string) (obj : PodObject) (pod : K8sPod)
    (dm : Daemon W) : Res (K8sPod * Daemon W) :=
  let namespace := field "namespaceName" (pod_Metadata pod) in
  let podName := field "podName" (pod_Metadata pod) in
  let owner := default zero_owner (dm_OwnerInfo dm !! podName) in
  let containers := template_containers namespace podOwnerName owner in
  annotations ← foldl add_annotation (Ok ∅) (go_range (pod_Annotations pod));
  let pf := foldl (profile_step namespace podOwnerName containers)
              {| pf_annotations := annotations; pf_update := false; pf_containers := ∅;
                 pf_profiles := ∅ |} (po_Containers obj) in
  let pod := {| pod_Metadata := pod_Metadata pod; pod_Annotations := pod_Annotations pod;
                pod_Labels := pod_Labels pod; pod_Containers := pod_Containers pod;
                pod_ContainerImages := pod_ContainerImages pod;
                pod_PrivilegedContainers := pf_containers pf;
                pod_PrivilegedAppArmorProfiles := pf_profiles pf |} in
  let update event := call (enforcer_UpdateAppArmorProfiles podName event
                              (pf_annotations pf) (pf_profiles pf)) in
  if String.eqb event addEvent then
    dm ← update addEvent dm; patch_owner pf owner pod dm
  else if String.eqb event updateEvent then
    match find (same_pod pod) (dm_K8sPods dm) with
    | None => Ok (pod, dm)
    | Some k8spod =>
        let prev := default "disabled" (pod_Annotations k8spod !! policy_key) in
        if String.eqb prev "enabled" then Ok (pod, dm) else patch_owner pf owner pod dm
    end
  else dm ← update deleteEvent dm; Ok (pod, dm).

(** *** The handler *)

Fixpoint replace_pod (pod : K8sPod) (l : list K8sPod) : list K8sPod :=
  match l with
  | [] => []
  | q :: l' => if same_pod pod q then pod :: l' else q :: replace_pod pod l'
  end.
Fixpoint remove_pod (pod : K8sPod) (l : list K8sPod) : list K8sPod :=
  match l with
  | [] => []
  | q :: l' => if same_pod pod q then l' else q :: remove_pod pod l'
  end.

(** The change of the list of pods, with the event that the endpoints see *)
Definition store_pod (event : string) (pod : K8sPod) (dm : Daemon W) : Daemon W * string :=
  let known := existsb (same_pod pod) (dm_K8sPods dm) in
  if String.eqb event addEvent && negb known then
    (set_K8sPods (dm_K8sPods dm ++ [pod])%list dm, addEvent)
  else if String.eqb event addEvent || String.eqb event updateEvent then
    (set_K8sPods (replace_pod pod (dm_K8sPods dm)) dm, updateEvent)
  else if known then
    (set_OwnerInfo (delete (field "podName" (pod_Metadata pod)) (dm_OwnerInfo dm))
       (set_K8sPods (remove_pod pod (dm_K8sPods dm)) dm), event)
  else (dm, event).

Definition pod_of (obj : PodObject) : K8sPod :=
  let namespace := om_Namespace (po_Meta obj) in
  let labels := pod_labels (po_Labels obj) in
  let st := foldl add_status (∅, ∅) (po_ContainerStatuses obj) in
  {| pod_Metadata := <["podName" := om_Name (po_Meta obj)]> (<["namespaceName" := namespace]> ∅);
     pod_Annotations := pod_annotations namespace labels (po_Annotations obj);
     pod_Labels := labels; pod_Containers := st.1; pod_ContainerImages := st.2;
     pod_PrivilegedContainers := ∅; pod_PrivilegedAppArmorProfiles := ∅ |}.

Definition handlePodEvent (nsList : option (list string)) (event : string) (obj : PodObject)
    (dm : Daemon W) : Res (Daemon W) :=
  if negb (ContainsElement [addEvent; updateEvent; deleteEvent] event) then Ok dm
  else
    info ← pod_owner_info event obj;
    let dm := match info with
              | Some o => set_OwnerInfo (<[om_Name (po_Meta obj) := o]> (dm_OwnerInfo dm)) dm
              | None => dm end in
    let podOwnerName := from_option owner_name "" info in
    let pod := pod_of obj in
    if negb (String.eqb event deleteEvent)
       && existsb (λ k, same_pod pod k && patched k) (dm_K8sPods dm) then Ok dm
    else
      st ← (if bool_decide (cf_RuntimeEnforcer cfg = Some "AppArmor")
            then apparmor_pod event podOwnerName obj pod dm else Ok (pod, dm));
      let '(pod, dm) := st in
      let '(dm, event) := store_pod event pod dm in
      if patched pod then Ok dm
      else UpdateEndPointWithPod cfg CompilePOSIX MarshalPolicy UnmarshalPolicy nsList event
             pod dm.

End pods.
