(* ===== verification/PodEventsProps.v ===== *)
(** Properties of pod events: which pods are enforced, the list of pods, the search for
    owners ends, and what a pod's annotations can do to the daemon. *)
From Stdlib Require Import Ascii String.
From S2P Require Import Prelude GoStrings Types Common PolicySpec Daemon DaemonProps Pods PodsProps Posture PostureProps PodEvents.

Open Scope string_scope.

(** ** Owners *)

Section owner.
Context (get : string → string → string → option ObjectMeta).

(** The search for the top-level owner of a pod ends if owners are objects of lower
    rank, as they are where no object owns itself; with fuel above the rank the result
    does not depend on the fuel. *)
Theorem getTopLevelOwner_ends (rank : string → string → nat) fuel obj namespace objkind n :
  (∀ kind name o ref, get kind namespace name = Some o → ref ∈ om_OwnerReferences o →
     rank (or_Kind ref) (or_Name ref) < rank kind name) →
  (∀ ref, ref ∈ om_OwnerReferences obj → rank (or_Kind ref) (or_Name ref) < n) →
  n < fuel →
  is_Some (getTopLevelOwner get fuel obj namespace objkind) ∧
  ∀ fuel', n < fuel' →
    getTopLevelOwner get fuel' obj namespace objkind = getTopLevelOwner get fuel obj namespace objkind.
Proof.
  intros Hrank. revert obj objkind n. induction fuel as [|fuel IH]; intros obj objkind n Hobj Hn;
    [lia|].
  assert (Hstep : ∀ ref o kind,
    GetControllingPodOwner (om_OwnerReferences obj) = Some ref →
    get (or_Kind ref) namespace (or_Name ref) = Some o →
    is_Some (getTopLevelOwner get fuel o namespace kind) ∧
    ∀ fuel', n < S fuel' →
      getTopLevelOwner get fuel' o namespace kind = getTopLevelOwner get fuel o namespace kind).
  { intros ref o kind Hr Ho. apply find_some in Hr as [Hin _]. rewrite <- list_elem_of_In in Hin.
    specialize (Hobj ref Hin).
    destruct (IH o kind (rank (or_Kind ref) (or_Name ref))) as [Hs Hf]; [|lia|].
    - intros ref' Hin'. by eapply Hrank.
    - split; [done|]. intros fuel' Hf'. apply Hf. lia. }
  split.
  - cbn [getTopLevelOwner].
    destruct (GetControllingPodOwner _) as [ref|] eqn:Hr; [|done].
    destruct (followed (or_Kind ref)) as [kind|]; [|done].
    destruct (get _ _ _) as [o|] eqn:Ho; [|done].
    destruct (om_OwnerReferences o); [done|]. by apply (Hstep ref o kind).
  - intros [|fuel'] Hf'; [lia|]. cbn [getTopLevelOwner].
    destruct (GetControllingPodOwner _) as [ref|] eqn:Hr; [|done].
    destruct (followed (or_Kind ref)) as [kind|]; [|done].
    destruct (get _ _ _) as [o|] eqn:Ho; [|done].
    destruct (om_OwnerReferences o); [done|]. by apply (Hstep ref o kind).
Qed.
End owner.

Section props.
Context `{R : GoRange, !GoRangeLaw R} {W : Type} `{B : !Backend W} `{PB : !PodBackend W}.
Context (cfg : Settings) (CompilePOSIX : string → option (string → bool)).
Context (MarshalPolicy : SecurityPolicy → string)
        (UnmarshalPolicy : string → option SecurityPolicy).
Context (gc : GlobalCfg) (annotateResources : bool).
Context (get : string → string → string → option ObjectMeta) (fuel : nat)
        (get_pod : string → string → bool)
        (get_template : string → string → string → option (list string)).

Implicit Types dm : Daemon W.
Implicit Types pod : K8sPod.

Abbreviation handle := (handlePodEvent cfg CompilePOSIX MarshalPolicy UnmarshalPolicy gc
  annotateResources get fuel get_pod get_template).

(** ** Modes *)

Lemma field_insert k k' v (m : gmap string string) :
  field k (<[k' := v]> m) = if decide (k' = k) then v else field k m.
Proof.
  unfold field. destruct (decide (k' = k)) as [->|Hk];
    [by rewrite lookup_insert_eq|by rewrite lookup_insert_ne].
Qed.

Lemma default_policy_spec m :
  field policy_key (default_policy m) =
    if ContainsElement modes (field policy_key m) then field policy_key m else "enabled".
Proof.
  unfold default_policy. case_bool; [done|]. rewrite field_insert. by rewrite decide_True.
Qed.

Lemma only_audit_spec m :
  field policy_key (only_audit m) =
    if String.eqb (field policy_key m) "enabled" then "audited" else field policy_key m.
Proof.
  unfold only_audit. case_bool; [|done]. rewrite field_insert. by rewrite decide_True.
Qed.

(** The enforcer can do more for a pod than audit it. *)
Definition lsm_enforces : bool :=
  match cf_RuntimeEnforcer cfg with Some t => negb (String.eqb t "SELinux") | None => false end.

(** The pod is not one of those that are only audited. *)
Definition may_enforce (namespace : string) (labels : gmap string string) : bool :=
  lsm_enforces && negb (String.eqb namespace "kube-system")
  && negb (is_some (labels !! "io.cilium/app")).

Definition opted_out (m : gmap string string) : bool :=
  String.eqb (field policy_key m) "audited" || String.eqb (field policy_key m) "disabled".

Lemma pod_mode namespace labels m :
  (field policy_key (pod_annotations cfg gc namespace labels m) = "enabled" ↔
     may_enforce namespace labels = true ∧ opted_out m = false) ∧
  field policy_key (pod_annotations cfg gc namespace labels m) ∈ modes.
Proof.
  assert (Hvis : ∀ m', field policy_key
    (match m' !! visibilityKey with Some _ => m'
     | None => <[visibilityKey := gc_Visibility gc]> m' end) = field policy_key m').
  { intros m'. destruct (m' !! visibilityKey); [done|]. rewrite field_insert.
    by rewrite decide_False. }
  unfold pod_annotations. rewrite Hvis. unfold may_enforce, opted_out.
  set (d := default_policy m).
  assert (Hd : (field policy_key d = "enabled" ∧ opted_out m = false) ∨
               (field policy_key d = field policy_key m ∧ opted_out m = true)).
  { unfold d. rewrite default_policy_spec. unfold opted_out, modes.
    destruct (ContainsElement _ _) eqn:E.
    - apply ContainsElement_spec in E.
      repeat (apply elem_of_cons in E as [E|E]; [rewrite E; simpl; auto|]).
      by apply elem_of_nil in E.
    - left. split; [done|]. apply orb_false_intro; apply String.eqb_neq; intros Hx;
        apply not_true_iff_false in E; apply E, ContainsElement_spec; rewrite Hx; set_solver. }
  assert (Hm : opted_out m = true → field policy_key m = "audited" ∨ field policy_key m = "disabled").
  { unfold opted_out. intros [H1|H1]%orb_true_iff; apply String.eqb_eq in H1; auto. }
  fold (opted_out m).
  set (e := match cf_RuntimeEnforcer cfg with
            | Some t => if String.eqb t "SELinux" then only_audit d else d
            | None => only_audit d end).
  assert (He : field policy_key e =
    if lsm_enforces then field policy_key d
    else if String.eqb (field policy_key d) "enabled" then "audited" else field policy_key d).
  { unfold e, lsm_enforces. destruct (cf_RuntimeEnforcer cfg) as [t|]; [|apply only_audit_spec].
    destruct (String.eqb t "SELinux"); [apply only_audit_spec|done]. }
  destruct (labels !! "io.cilium/app"); simpl.
  { rewrite field_insert, decide_True, andb_false_r by done. split; [by split; [|intros [? _]]|].
    set_solver. }
  destruct (String.eqb namespace "kube-system"); simpl.
  { rewrite field_insert, decide_True, andb_false_r by done. split; [by split; [|intros [? _]]|].
    set_solver. }
  rewrite !andb_true_r, He. destruct lsm_enforces.
  - destruct Hd as [[-> ->]|[-> Ho]]; [split; [done|set_solver]|]. rewrite Ho.
    destruct (Hm Ho) as [->| ->]; (split; [by split; [|intros [_ ?]]|set_solver]).
  - destruct Hd as [[-> ->]|[-> Ho]]; simpl; [split; [by split; [|intros [? _]]|set_solver]|].
    rewrite Ho. destruct (Hm Ho) as [->| ->]; simpl;
      (split; [by split; [|intros [? _]]|set_solver]).
Qed.

(** ** The handler *)

Lemma patch_owner_frame pf owner pod dm r :
  patch_owner annotateResources pf owner pod dm = Ok r →
  pod_Metadata r.1 = pod_Metadata pod ∧ pod_Labels r.1 = pod_Labels pod ∧
  (patched r.1 = true ∨ pod_Annotations r.1 = pod_Annotations pod) ∧
  ∃ w, r.2 = set_dm_w w dm.
Proof.
  unfold patch_owner. case_bool.
  - intros H. go_res H. injection H as <-. unfold call in Ha. go_res Ha. injection Ha as <-.
    simpl. split_and!; [done..| |by eexists]. left. unfold patched. simpl.
    rewrite field_insert. by rewrite decide_True.
  - intros [= <-]. split_and!; [done..|by right|]. exists (dm_w dm). by destruct dm.
Qed.

Lemma apparmor_pod_frame event name obj pod dm r :
  apparmor_pod annotateResources get_template event name obj pod dm = Ok r →
  pod_Metadata r.1 = pod_Metadata pod ∧ pod_Labels r.1 = pod_Labels pod ∧
  (patched r.1 = true ∨ pod_Annotations r.1 = pod_Annotations pod) ∧
  ∃ w, r.2 = set_dm_w w dm.
Proof.
  unfold apparmor_pod. intros H. go_res H. unfold call in H.
  assert (Hself : ∃ w, dm = set_dm_w w dm) by (exists (dm_w dm); by destruct dm).
  destruct (String.eqb event addEvent); [|destruct (String.eqb event updateEvent)].
  - go_res H. go_res Ha0. injection Ha0 as <-.
    apply patch_owner_frame in H as (Hm & Hl & Hp & w & ->). split_and!; [done..|]. by exists w.
  - destruct (find _ _) as [q|]; [|injection H as <-; simpl; auto].
    destruct (String.eqb _ "enabled"); [injection H as <-; simpl; auto|].
    apply patch_owner_frame in H as (Hm & Hl & Hp & w & ->). split_and!; [done..|]. by exists w.
  - go_res H. go_res Ha0. injection Ha0 as <-. injection H as <-. simpl.
    split_and!; [done..|by right|by eexists].
Qed.

Lemma field_metadata (obj : PodObject) :
  field "namespaceName" (pod_Metadata (pod_of cfg gc obj)) = om_Namespace (po_Meta obj) ∧
  field "podName" (pod_Metadata (pod_of cfg gc obj)) = om_Name (po_Meta obj).
Proof. unfold pod_of. simpl. by rewrite !field_insert. Qed.

(** What a pod that gets endpoints looks like when they are made *)
Definition like (obj : PodObject) pod : Prop :=
  pod_Metadata pod = pod_Metadata (pod_of cfg gc obj) ∧
  pod_Annotations pod = pod_Annotations (pod_of cfg gc obj).

Lemma store_pod_frame event pod dm :
  let r := store_pod event pod dm in
  dm_EndPoints r.1 = dm_EndPoints dm ∧
  (event = addEvent ∨ event = updateEvent → r.2 = addEvent ∨ r.2 = updateEvent).
Proof.
  intros r. subst r. unfold store_pod.
  destruct (existsb (same_pod pod) (dm_K8sPods dm)); cbn [negb];
    rewrite ?andb_false_r, ?andb_true_r.
  - case_bool; simpl; (split; [done|]); [by right|].
    intros [->| ->]; simpl in *; done.
  - destruct (String.eqb event addEvent); simpl; [by auto|].
    case_bool; simpl; (split; [done|]); [by right|auto].
Qed.

(** The handler, apart from the cases that leave the endpoints alone *)
Lemma handle_endpoints nsList event obj dm dm' :
  event = addEvent ∨ event = updateEvent →
  handle nsList event obj dm = Ok dm' →
  dm_EndPoints dm' = dm_EndPoints dm ∨
  ∃ pod dm1 event', like obj pod ∧ dm_EndPoints dm1 = dm_EndPoints dm ∧
    (event' = addEvent ∨ event' = updateEvent) ∧
    UpdateEndPointWithPod cfg CompilePOSIX MarshalPolicy UnmarshalPolicy nsList event' pod dm1
      = Ok dm'.
Proof.
  intros Hev. unfold handlePodEvent. case_bool; [intros [= ->]; by left|]. intros H. go_res H.
  set (dm0 := match a with Some o => _ | None => dm end) in H.
  assert (He0 : dm_EndPoints dm0 = dm_EndPoints dm) by (unfold dm0; by destruct a).
  case_bool; [injection H as <-; by left|]. go_res H. destruct a0 as [pod dm1].
  assert (Hpod : pod_Metadata pod = pod_Metadata (pod_of cfg gc obj) ∧
    (patched pod = true ∨ pod_Annotations pod = pod_Annotations (pod_of cfg gc obj)) ∧
    ∃ w, dm1 = set_dm_w w dm0).
  { destruct (bool_decide _).
    - by apply apparmor_pod_frame in Ha0 as (Hm & _ & Hp & w & Hw); eauto.
    - injection Ha0 as <- <-. split_and!; [done|by right|]. exists (dm_w dm0). by destruct dm0. }
  destruct Hpod as (Hm & Hp & w & ->).
  destruct (store_pod_frame event pod (set_dm_w w dm0)) as [Hse Hsv].
  destruct (store_pod event pod (set_dm_w w dm0)) as [dm2 event2]. simpl in Hse, Hsv.
  destruct (patched pod) eqn:Ep.
  - injection H as <-. left. by rewrite Hse.
  - destruct Hp as [?|Hp]; [done|]. right. exists pod, dm2, event2.
    split; [by split|]. split; [by rewrite Hse|]. auto.
Qed.

Lemma policy_flag_spec s : policy_flag s = KubeArmorPolicyEnabled ↔ s = "enabled".
Proof.
  unfold policy_flag. destruct (String.eqb s "enabled") eqn:E.
  - apply String.eqb_eq in E. by split.
  - apply String.eqb_neq in E. split; [|done]. case_bool; by vm_compute.
Qed.

Lemma pod_added_endpoints nsList pod dm dm' :
  pod_added cfg CompilePOSIX MarshalPolicy UnmarshalPolicy nsList pod dm = Ok dm' →
  ∃ eps, dm_EndPoints dm' = (dm_EndPoints dm ++ eps)%list ∧
    ∀ ep, ep ∈ eps → ep_PolicyEnabled ep = policy_flag (field policy_key (pod_Annotations pod)).
Proof.
  unfold pod_added. intros H. go_res H. destruct a as [dm1 eps].
  apply notify_endpoints_frame in H as (w & ->). unfold pod_endpoints in Ha. go_res Ha.
  apply container_steps_frame in Ha0 as (m & w' & ->). injection Ha as <- <-.
  eexists. split; [reflexivity|]. intros ep (kv & -> & _)%list_elem_of_fmap. done.
Qed.

(** C15: A pod that is added, or changed before it had endpoints, gets endpoints that are
    enforced exactly if there is an LSM other than SELinux, the pod is neither in
    [kube-system] nor one of Cilium's, and its annotation does not ask for auditing
    or for nothing; a missing or unknown annotation asks for enforcement.  Endpoints that
    a pod already has are not covered: later changes of it do not update them. *)
Theorem enforced_pods nsList event obj dm dm' ep :
  event = addEvent ∨ event = updateEvent →
  handle nsList event obj dm = Ok dm' →
  (∀ e, e ∈ dm_EndPoints dm → of_pod (pod_of cfg gc obj) e = false) →
  ep ∈ dm_EndPoints dm' → of_pod (pod_of cfg gc obj) ep = true →
  ep_PolicyEnabled ep = KubeArmorPolicyEnabled ↔
  may_enforce (om_Namespace (po_Meta obj)) (pod_labels (po_Labels obj)) = true ∧
  opted_out (po_Annotations obj) = false.
Proof.
  intros Hev H Hno Hep Hof.
  apply handle_endpoints in H as [He|(pod & dm1 & event' & [Hm Han] & He & Hev' & H)]; [| |done].
  { rewrite He in Hep. by rewrite Hno in Hof. }
  assert (Hsame : ∀ e, of_pod pod e = of_pod (pod_of cfg gc obj) e).
  { intros e. unfold of_pod. by rewrite Hm. }
  assert (Hadd : pod_added cfg CompilePOSIX MarshalPolicy UnmarshalPolicy nsList pod dm1 = Ok dm').
  { unfold UpdateEndPointWithPod in H. destruct Hev' as [->| ->]; simpl in H; [done|].
    unfold pod_modified in H. destruct (find (of_pod pod) (dm_EndPoints dm1)) as [q|] eqn:Ef;
      [|done].
    apply find_some in Ef as [Hq Ho]. rewrite <- list_elem_of_In, He in Hq.
    by rewrite Hsame, Hno in Ho. }
  apply pod_added_endpoints in Hadd as (eps & He' & Hflag). rewrite He', He in Hep.
  apply elem_of_app in Hep as [Hep|Hep]; [by rewrite Hno in Hof|].
  rewrite (Hflag ep Hep), policy_flag_spec, Han. unfold pod_of. cbn [pod_Annotations].
  apply pod_mode.
Qed.

(** ** Annotations that stop the daemon *)

Lemma after_slash_Panic s : char_in slash s = false → after_slash s = Panic.
Proof.
  intros H. unfold after_slash. assert (split slash s = [s]) as ->; [|done].
  induction s as [|c s IH]; [done|]. simpl in H. apply orb_false_elim in H as [Hc Hs].
  simpl. rewrite Hc. by rewrite (IH Hs).
Qed.

Lemma pod_annotations_other namespace labels m k :
  k ≠ policy_key → k ≠ visibilityKey →
  pod_annotations cfg gc namespace labels m !! k = m !! k.
Proof.
  intros Hp Hv.
  assert (Hd : ∀ m, default_policy m !! k = m !! k).
  { intros m'. unfold default_policy. case_bool; [done|by rewrite lookup_insert_ne]. }
  assert (Ho : ∀ m, only_audit m !! k = m !! k).
  { intros m'. unfold only_audit. case_bool; [by rewrite lookup_insert_ne|done]. }
  unfold pod_annotations.
  set (e := match cf_RuntimeEnforcer cfg with Some t => _ | None => _ end).
  assert (He : e !! k = m !! k).
  { unfold e. destruct (cf_RuntimeEnforcer cfg); [case_bool|]; by rewrite ?Ho, Hd. }
  set (e1 := if String.eqb namespace "kube-system" then _ else e).
  assert (He1 : e1 !! k = m !! k).
  { unfold e1. destruct (String.eqb _ _); [by rewrite lookup_insert_ne|done]. }
  set (e2 := match labels !! "io.cilium/app" with Some _ => _ | None => e1 end).
  assert (He2 : e2 !! k = m !! k).
  { unfold e2. destruct (labels !! _); [by rewrite lookup_insert_ne|done]. }
  destruct (e2 !! visibilityKey); [done|by rewrite lookup_insert_ne].
Qed.

Lemma add_annotation_Panic l : foldl add_annotation Panic l = Panic.
Proof. induction l; simpl; auto. Qed.

(** With the AppArmor enforcer, the event of a pod with the annotation
    [container.apparmor.security.beta.kubernetes.io], or any that starts with it and has
    no slash, makes the handler panic, whatever the order of the annotations. *)
Theorem unslashed_annotation_panics nsList event obj dm k v :
  cf_RuntimeEnforcer cfg = Some "AppArmor" →
  event ∈ [addEvent; updateEvent; deleteEvent] →
  po_Annotations obj !! k = Some v → HasPrefix k apparmor_prefix = true →
  char_in slash k = false →
  existsb (λ q, same_pod (pod_of cfg gc obj) q && patched q) (dm_K8sPods dm) = false →
  handle nsList event obj dm = Panic.
Proof.
  intros Hlsm Hev Hk Hpre Hslash Hpat. unfold handlePodEvent.
  rewrite (proj2 (ContainsElement_spec _ _) Hev). cbn [negb].
  destruct (pod_owner_info _ _ _ _ _) as [info|]; [|done]. cbn [mbind Res_bind].
  set (dm0 := match info with Some o => _ | None => dm end).
  assert (dm_K8sPods dm0 = dm_K8sPods dm) as -> by (unfold dm0; by destruct info).
  rewrite Hpat, andb_false_r, bool_decide_eq_true_2 by done.
  unfold apparmor_pod.
  assert (Hin : (k, v) ∈ go_range (pod_Annotations (pod_of cfg gc obj))).
  { apply elem_of_go_range. unfold pod_of. cbn [pod_Annotations].
    assert (Hne : k ≠ policy_key ∧ k ≠ visibilityKey).
    { split; intros ->; vm_compute in Hpre; discriminate Hpre. }
    by rewrite pod_annotations_other by apply Hne. }
  assert (foldl add_annotation (Ok ∅) (go_range (pod_Annotations (pod_of cfg gc obj))) = Panic)
    as ->; [|done].
  apply list_elem_of_split in Hin as (l1 & l2 & ->). rewrite foldl_app. cbn [foldl].
  assert (Hp : ∀ r, add_annotation r (k, v) = Panic).
  { intros [m|]; [|done]. unfold add_annotation. cbn [mbind Res_bind fst]. rewrite Hpre.
    rewrite (after_slash_Panic k Hslash). reflexivity. }
  by rewrite Hp, add_annotation_Panic.
Qed.

(** ** The list of pods *)

Definition pod_key pod : string * string :=
  (field "namespaceName" (pod_Metadata pod), field "podName" (pod_Metadata pod)).

Lemma same_pod_spec pod q : same_pod pod q = true ↔ pod_key q = pod_key pod.
Proof.
  unfold same_pod, pod_key. rewrite andb_true_iff, !String.eqb_eq.
  split; [by intros [-> ->]|by intros [= -> ->]].
Qed.

Lemma replace_pod_keys pod l : pod_key <$> replace_pod pod l = pod_key <$> l.
Proof.
  induction l as [|q l IH]; [done|]. cbn [replace_pod].
  destruct (same_pod pod q) eqn:E; cbn [fmap list_fmap]; [|by rewrite IH].
  by apply same_pod_spec in E as ->.
Qed.

Lemma remove_pod_sublist pod l : remove_pod pod l `sublist_of` l.
Proof.
  induction l as [|q l IH]; [done|]. cbn [remove_pod].
  case_bool; [by apply sublist_cons|by apply sublist_skip].
Qed.

Lemma store_pod_once event pod dm :
  NoDup (pod_key <$> dm_K8sPods dm) → NoDup (pod_key <$> dm_K8sPods (store_pod event pod dm).1).
Proof.
  intros Hnd. unfold store_pod.
  destruct (existsb (same_pod pod) (dm_K8sPods dm)) eqn:Ek; cbn [negb];
    rewrite ?andb_false_r, ?andb_true_r.
  - case_bool; simpl; [by rewrite replace_pod_keys|].
    eapply sublist_NoDup; [exact Hnd|]. apply fmap_sublist, remove_pod_sublist.
  - destruct (String.eqb event addEvent); simpl.
    + rewrite fmap_app. apply list.NoDup_app. split; [done|]. split; [|apply list.NoDup_singleton].
      intros x (q & -> & Hq)%list_elem_of_fmap Hx%list_elem_of_singleton.
      apply not_true_iff_false in Ek. apply Ek, existsb_exists. exists q.
      rewrite <- list_elem_of_In. split; [done|]. by apply same_pod_spec.
    + case_bool; simpl; [by rewrite replace_pod_keys|done].
Qed.

#[local] Arguments UpdateEndPointWithPod : simpl never.

Lemma UpdateEndPointWithPod_frame nsList action pod dm dm' :
  UpdateEndPointWithPod cfg CompilePOSIX MarshalPolicy UnmarshalPolicy nsList action pod dm
    = Ok dm' → dm_K8sPods dm' = dm_K8sPods dm ∧ dm_OwnerInfo dm' = dm_OwnerInfo dm.
Proof.
  assert (Ha : ∀ d, pod_added cfg CompilePOSIX MarshalPolicy UnmarshalPolicy nsList pod d = Ok dm' →
            dm_K8sPods dm' = dm_K8sPods d ∧ dm_OwnerInfo dm' = dm_OwnerInfo d).
  { intros d H. unfold pod_added in H. go_res H. destruct a as [d1 eps].
    apply notify_endpoints_frame in H as (w & ->). unfold pod_endpoints in Ha. go_res Ha.
    apply container_steps_frame in Ha0 as (m & w' & ->). by injection Ha as <- <-. }
  unfold UpdateEndPointWithPod. destruct (String.eqb action addEvent); [apply Ha|].
  destruct (String.eqb action updateEvent); [|by intros [= <-]].
  unfold pod_modified. destruct (find _ _); [|apply Ha]. intros H. go_res H.
  destruct a as [d1 made]. apply notify_endpoints_frame in H as (w & ->).
  unfold pod_endpoints in Ha0. go_res Ha0.
  apply container_steps_frame in Ha1 as (m & w' & ->). by injection Ha0 as <- <-.
Qed.

(** What the handler does to the lists of pods and of owners *)
Lemma handle_pods nsList event obj dm dm' :
  handle nsList event obj dm = Ok dm' →
  (dm_K8sPods dm' = dm_K8sPods dm ∧ event ≠ deleteEvent) ∨
  ∃ pod dm1, pod_Metadata pod = pod_Metadata (pod_of cfg gc obj) ∧
    dm_K8sPods dm1 = dm_K8sPods dm ∧
    dm_K8sPods dm' = dm_K8sPods (store_pod event pod dm1).1 ∧
    dm_OwnerInfo dm' = dm_OwnerInfo (store_pod event pod dm1).1.
Proof.
  unfold handlePodEvent. case_bool.
  { intros [= ->]. left. split; [done|]. by intros ->. }
  intros H. go_res H.
  set (dm0 := match a with Some o => _ | None => dm end) in H.
  assert (He0 : dm_K8sPods dm0 = dm_K8sPods dm) by (unfold dm0; by destruct a).
  destruct (negb (String.eqb event deleteEvent) && _) eqn:Ex.
  { injection H as <-. left. split; [done|]. intros ->. simpl in Ex. done. }
  go_res H. destruct a0 as [pod dm1].
  assert (Hpod : pod_Metadata pod = pod_Metadata (pod_of cfg gc obj) ∧
    ∃ w, dm1 = set_dm_w w dm0).
  { destruct (bool_decide _).
    - apply apparmor_pod_frame in Ha0 as (Hm & _ & _ & w & Hw). eauto.
    - injection Ha0 as <- <-. split; [done|]. exists (dm_w dm0). by destruct dm0. }
  destruct Hpod as (Hm & w & ->). right. exists pod, (set_dm_w w dm0).
  split; [done|]. split; [done|].
  destruct (store_pod event pod (set_dm_w w dm0)) as [dm2 event2].
  destruct (patched pod); [by injection H as <-|].
  by apply UpdateEndPointWithPod_frame in H as [-> ->].
Qed.

(** No pod is listed twice: every event keeps the pods' namespaces and names distinct,
    also when Kubernetes reports a known pod as added once more. *)
Theorem pods_once nsList event obj dm dm' :
  handle nsList event obj dm = Ok dm' →
  NoDup (pod_key <$> dm_K8sPods dm) → NoDup (pod_key <$> dm_K8sPods dm').
Proof.
  intros [[-> _]|(pod & dm1 & _ & H1 & -> & _)]%handle_pods Hnd; [done|].
  apply store_pod_once. by rewrite H1.
Qed.

Lemma elem_of_remove_pod pod q l : pod_key q ≠ pod_key pod → q ∈ l → q ∈ remove_pod pod l.
Proof.
  intros Hk. induction l as [|x l IH]; intros Hq; [by apply elem_of_nil in Hq|].
  cbn [remove_pod]. destruct (same_pod pod x) eqn:E.
  - apply elem_of_cons in Hq as [->|Hq]; [|done]. by apply same_pod_spec in E.
  - apply elem_of_cons in Hq as [->|Hq]; [by left|right; auto].
Qed.

(** Owners are kept by the pod's name alone: when one of two pods of a name in
    different namespaces is deleted, the other is still listed but has lost its owner. *)
Theorem namesake_loses_owner nsList obj dm dm' p q :
  p ∈ dm_K8sPods dm → pod_key p = (om_Namespace (po_Meta obj), om_Name (po_Meta obj)) →
  q ∈ dm_K8sPods dm → field "podName" (pod_Metadata q) = om_Name (po_Meta obj) →
  field "namespaceName" (pod_Metadata q) ≠ om_Namespace (po_Meta obj) →
  handle nsList deleteEvent obj dm = Ok dm' →
  dm_OwnerInfo dm' !! field "podName" (pod_Metadata q) = None ∧
  (NoDup (pod_key <$> dm_K8sPods dm) → q ∈ dm_K8sPods dm').
Proof.
  intros Hp Hkp Hq Hn Hns H. destruct (field_metadata obj) as [Hm1 Hm2].
  apply handle_pods in H as [[_ ?]|(pod & dm1 & Hm & H1 & Hk & Ho)]; [done|].
  assert (Hpk : pod_key pod = pod_key p) by (unfold pod_key at 1; by rewrite Hm, Hm1, Hm2, Hkp).
  assert (Hknown : existsb (same_pod pod) (dm_K8sPods dm1) = true).
  { apply existsb_exists. exists p. rewrite <- list_elem_of_In, H1. split; [done|].
    by apply same_pod_spec. }
  unfold store_pod in Hk, Ho. simpl in Hk, Ho. rewrite Hknown in Hk, Ho. simpl in Hk, Ho.
  split.
  - rewrite Ho, Hn, Hm, Hm2. apply lookup_delete_eq.
  - intros _. rewrite Hk, H1. apply elem_of_remove_pod; [|done].
    rewrite Hpk, Hkp. unfold pod_key. intros [= Hx _]. done.
Qed.

(** ** Changed pods and AppArmor *)

Lemma profile_steps_no_update namespace name (l : list SpecContainer) st :
  pf_update st = false →
  pf_update (foldl (profile_step namespace name []) st l) = false.
Proof.
  revert st. induction l as [|c l IH]; intros st Hst; [done|]. cbn [foldl]. apply IH.
  unfold profile_step. simpl. by rewrite andb_false_r.
Qed.

(** When a pod is changed, the handler looks for it in the namespace [""] and for its
    owner under the name [""].  Since Kubernetes finds nothing there, a changed pod's
    owner stays as it was, and no resource is patched for it. *)
Theorem modified_pod_unpatched nsList obj dm dm' :
  (∀ name, get_pod "" name = false) → (∀ kind ns, get_template kind ns "" = None) →
  handle nsList updateEvent obj dm = Ok dm' →
  dm_OwnerInfo dm' = dm_OwnerInfo dm ∧
  ∀ k, k ∈ dm_K8sPods dm' → k ∈ dm_K8sPods dm ∨ patched k = false.
Proof.
  intros Hpod Htemp. unfold handlePodEvent, pod_owner_info. cbn. rewrite Hpod. cbn.
  destruct (existsb _ _); [intros [= ->]; auto|]. intros H. go_res H. destruct a as [pod dm1].
  assert (Hp : pod_Annotations pod = pod_Annotations (pod_of cfg gc obj) ∧ dm1 = dm).
  { destruct (bool_decide _); [|by injection Ha as <- <-].
    unfold apparmor_pod in Ha. go_res Ha. cbn in Ha.
    destruct (find _ _) as [q|]; [|by injection Ha as <- <-].
    assert (Hc : template_containers get_template
      (field "namespaceName" (pod_Metadata (pod_of cfg gc obj))) ""
      (default zero_owner (dm_OwnerInfo dm !! field "podName" (pod_Metadata (pod_of cfg gc obj)))) = []).
    { unfold template_containers. repeat case_bool; rewrite ?Htemp; done. }
    cbn [pod_of pod_Metadata] in Hc, Ha. rewrite Hc in Ha. unfold patch_owner in Ha.
    rewrite profile_steps_no_update in Ha by done. cbn [andb] in Ha.
    destruct (String.eqb _ "enabled"); by injection Ha as <- <-. }
  destruct Hp as [Han ->].
  assert (Hpt : patched pod = false).
  { unfold patched. rewrite Han. apply String.eqb_neq. intros Hx.
    destruct (pod_mode (om_Namespace (po_Meta obj)) (pod_labels (po_Labels obj))
      (po_Annotations obj)) as [_ Hm]. unfold pod_of in Hx. cbn [pod_Annotations] in Hx.
    rewrite Hx in Hm. unfold modes in Hm. set_solver. }
  rewrite Hpt in H. unfold store_pod in H. simpl in H.
  apply UpdateEndPointWithPod_frame in H as [-> ->]. simpl. split; [done|].
  intros k. generalize (dm_K8sPods dm). induction l as [|q l IH]; [auto|].
  cbn [replace_pod]. destruct (same_pod pod q).
  - intros [->|Hk]%elem_of_cons; [by right|]. left. by right.
  - intros [->|Hk]%elem_of_cons; [left; by left|]. destruct (IH Hk); [left; by right|by right].
Qed.
End props.

(** ** Witnesses *)

Section witnesses.
#[local] Existing Instance canonical_range.
#[local] Existing Instance canonical_range_law.

Definition no_patch : PodBackend Trace := {| k8s_PatchAppArmor _ _ _ _ := Ok |}.
#[local] Existing Instance no_patch.

(** One ReplicaSet that a Deployment controls *)
Definition sample_owners (kind ns name : string) : option ObjectMeta :=
  if String.eqb kind "ReplicaSet" then
    Some {| om_Name := name; om_Namespace := ns; om_OwnerReferences :=
      [{| or_Kind := "Deployment"; or_Name := "web"; or_Controller := Some true |}] |}
  else if String.eqb kind "Deployment" then
    Some {| om_Name := name; om_Namespace := ns; om_OwnerReferences := [] |}
  else None.

Definition sample_object (ns : string) (annotations : gmap string string) : PodObject :=
  {| po_Meta := {| om_Name := "web-1"; om_Namespace := ns; om_OwnerReferences :=
       [{| or_Kind := "ReplicaSet"; or_Name := "web-rs"; or_Controller := Some true |}] |};
     po_Kind := ""; po_Annotations := annotations;
     po_Labels := {["app" := "web"; "pod-template-hash" := "123"]};
     po_ContainerStatuses := [{| cs_ContainerID := "containerd://c1"; cs_Name := "web";
       cs_Image := "web:1"; cs_ImageID := "web@sha256:aa" |}];
     po_Containers := [{| sc_Name := "web"; sc_SecurityContext := Some (Some true, None) |}] |}.

Definition rank_of (kind name : string) : nat :=
  if String.eqb kind "ReplicaSet" then 2 else if String.eqb kind "Deployment" then 1 else 0.

Lemma getTopLevelOwner_ends_witness :
  getTopLevelOwner sample_owners 10 (po_Meta (sample_object "shop" ∅)) "shop" "" =
    Some (Some ("web", "Deployment", "shop")).
Proof.
  rewrite (proj2 (getTopLevelOwner_ends sample_owners (λ k n, rank_of k n) 4
    (po_Meta (sample_object "shop" ∅)) "shop" "" 3
    ltac:(intros kind name o ref; unfold sample_owners, rank_of;
          destruct (String.eqb kind "ReplicaSet"); [intros [= <-] ->%list_elem_of_singleton; simpl; lia|];
          destruct (String.eqb kind "Deployment"); [|discriminate];
          intros [= <-] []%elem_of_nil)
    ltac:(intros ref ->%list_elem_of_singleton; vm_compute; lia) ltac:(lia)) 10 ltac:(lia)).
  reflexivity.
Defined.

Definition with_enforcer (t : string) : Settings :=
  {| cf_Policy := true; cf_HostPolicy := false; cf_KVMAgent := false; cf_K8sEnv := true;
     cf_RuntimeEnforcer := Some t; cf_Presets := false; cf_UntrackedNamespaces := [] |}.

Definition sample_handle (t : string) (event : string) (obj : PodObject)
    : Daemon Trace → Res (Daemon Trace) :=
  handlePodEvent (with_enforcer t) (λ _, None) name_of policy_of
    sample_gc false sample_owners 10
    (λ _ _, false) (λ _ _ _, None) None event obj.

Definition handled (r : Res (Daemon Trace)) : Daemon Trace :=
  match r with Ok dm => dm | Panic => no_endpoints end.

Definition one_pod : Daemon Trace :=
  handled (sample_handle "BPFLSM" addEvent (sample_object "shop" ∅) no_endpoints).
Lemma one_pod_Ok :
  sample_handle "BPFLSM" addEvent (sample_object "shop" ∅) no_endpoints = Ok one_pod.
Proof. vm_compute. reflexivity. Qed.

Example one_pod_owner :
  dm_OwnerInfo one_pod !! "web-1" = Some ("Deployment", "web", "shop") ∧
  List.length (dm_EndPoints one_pod) = 1.
Proof. vm_compute. auto. Qed.

Lemma enforced_pods_witness :
  ∃ ep, ep ∈ dm_EndPoints one_pod ∧ ep_PolicyEnabled ep = KubeArmorPolicyEnabled.
Proof.
  destruct (dm_EndPoints one_pod) as [|ep l] eqn:E; [vm_compute in E; discriminate E|].
  exists ep. split; [left|].
  assert (Hin : ep ∈ dm_EndPoints one_pod) by (rewrite E; left).
  apply (enforced_pods (with_enforcer "BPFLSM") (λ _, None) name_of policy_of sample_gc false
    sample_owners 10 (λ _ _, false) (λ _ _ _, None) None addEvent (sample_object "shop" ∅)
    no_endpoints one_pod ep (or_introl eq_refl) one_pod_Ok).
  - intros e []%elem_of_nil.
  - exact Hin.
  - change (of_pod (pod_of (with_enforcer "BPFLSM") sample_gc (sample_object "shop" ∅))
      (hd zero_EndPoint (ep :: l)) = true). rewrite <- E. vm_compute. reflexivity.
  - split; vm_compute; reflexivity.
Defined.

Lemma unslashed_annotation_panics_witness :
  sample_handle "AppArmor" addEvent
    (sample_object "shop" {["container.apparmor.security.beta.kubernetes.io" := "x"]})
    no_endpoints = Panic.
Proof.
  unfold sample_handle. apply (unslashed_annotation_panics (with_enforcer "AppArmor") (λ _, None) name_of policy_of sample_gc
    false sample_owners 10 (λ _ _, false) (λ _ _ _, None) None addEvent
    (sample_object "shop" {["container.apparmor.security.beta.kubernetes.io" := "x"]}) no_endpoints
    "container.apparmor.security.beta.kubernetes.io" "x").
  - reflexivity.
  - left.
  - vm_compute. reflexivity.
  - vm_compute. reflexivity.
  - vm_compute. reflexivity.
  - reflexivity.
Defined.

Definition two_pods : Daemon Trace :=
  handled (sample_handle "BPFLSM" addEvent (sample_object "evil" ∅) one_pod).
Lemma two_pods_Ok : sample_handle "BPFLSM" addEvent (sample_object "evil" ∅) one_pod = Ok two_pods.
Proof. vm_compute. reflexivity. Qed.

Lemma pods_once_witness : NoDup (pod_key <$> dm_K8sPods two_pods).
Proof.
  apply (pods_once (with_enforcer "BPFLSM") (λ _, None) name_of policy_of sample_gc false
    sample_owners 10 (λ _ _, false) (λ _ _ _, None) None addEvent _ one_pod two_pods two_pods_Ok).
  vm_compute. apply list.NoDup_singleton.
Defined.

Definition deleted_one : Daemon Trace :=
  handled (sample_handle "BPFLSM" deleteEvent (sample_object "evil" ∅) two_pods).
Lemma deleted_one_Ok :
  sample_handle "BPFLSM" deleteEvent (sample_object "evil" ∅) two_pods = Ok deleted_one.
Proof. vm_compute. reflexivity. Qed.

Lemma namesake_loses_owner_witness :
  dm_OwnerInfo deleted_one !! "web-1" = None ∧ List.length (dm_K8sPods deleted_one) = 1.
Proof.
  split; [|vm_compute; reflexivity].
  destruct (dm_K8sPods two_pods) as [|q [|p l]] eqn:E; [vm_compute in E; discriminate E..|].
  assert (Hq : q = hd (pod_of (with_enforcer "") sample_gc (sample_object "" ∅)) (dm_K8sPods two_pods))
    by (by rewrite E).
  assert (Hp : p = hd (pod_of (with_enforcer "") sample_gc (sample_object "" ∅))
                     (tail (dm_K8sPods two_pods))) by (by rewrite E).
  assert (Hn : field "podName" (pod_Metadata q) = "web-1").
  { rewrite Hq. vm_compute. reflexivity. }
  rewrite <- Hn.
  apply (namesake_loses_owner (with_enforcer "BPFLSM") (λ _, None) name_of policy_of sample_gc false
    sample_owners 10 (λ _ _, false) (λ _ _ _, None) None (sample_object "evil" ∅) two_pods
    deleted_one p q).
  - rewrite E. right. left.
  - rewrite Hp. vm_compute. reflexivity.
  - rewrite E. left.
  - exact Hn.
  - rewrite Hq. vm_compute. discriminate.
  - exact deleted_one_Ok.
Defined.

Definition changed : Daemon Trace :=
  handled (sample_handle "AppArmor" updateEvent (sample_object "shop" ∅) one_pod).
Lemma changed_Ok :
  sample_handle "AppArmor" updateEvent (sample_object "shop" ∅) one_pod = Ok changed.
Proof. vm_compute. reflexivity. Qed.

Lemma modified_pod_unpatched_witness : dm_OwnerInfo changed = dm_OwnerInfo one_pod.
Proof.
  exact (proj1 (modified_pod_unpatched (with_enforcer "AppArmor") (λ _, None) name_of policy_of sample_gc
    false sample_owners 10 (λ _ _, false) (λ _ _ _, None) None _ one_pod changed
    (λ _, eq_refl) (λ _ _, eq_refl) changed_Ok)).
Defined.
End witnesses.
