(* ===== verification/Enforcement.v ===== *)
(** The node: the daemon on top of the feeder, the runtime enforcer and the namespace
    maps.

    [node_backend] is the [Backend] of [Daemon] that calls the operations of
    [PolicyMatcher], [RuntimeEnforcer] and [NsMap] on their states.  Presets and the
    backup of policies on disk are arguments, with a state of their own.  [holds]
    says what it means that the kernel enforces a list of policies for a container. *)
From Stdlib Require Import Ascii String.
From S2P Require Import Prelude GoStrings Types Common BpfRules BpfEnforcer BpfEnforcerFacts BpfEnforcerProps RuntimeEnforcer NsMap PolicyMatcher PolicySpec Daemon DaemonProps.

Open Scope string_scope.

Section node.
Context `{R : GoRange}.
Context {BE AE SE : Type} `{BO : !BpfOps BE} `{AO : !AppArmorOps AE} `{SO : !SELinuxOps SE}.
Context {Rx : Type} (Compile : string → option Rx).
Context (mcfg : Config) {S : Type} `{ST : !NsKeyStore S}.
Context {X : Type} (presets : EndPoint → X → Res X)
        (backup_host : HostSecurityPolicy → X → Res X)
        (backup : SecurityPolicy → X → Res X) (remove_backup : string → X → Res X).

Record NodeState := {
  nd_Logger : @Feeder Rx;
  nd_Enforcer : option (@RuntimeEnforcer BE AE SE);
  nd_Monitor : @SystemMonitor S;
  nd_rest : X }.

Definition on_logger (f : @Feeder Rx → Res (@Feeder Rx)) (w : NodeState) : Res NodeState :=
  fd ← f (nd_Logger w);
  Ok {| nd_Logger := fd; nd_Enforcer := nd_Enforcer w; nd_Monitor := nd_Monitor w;
        nd_rest := nd_rest w |}.
Definition on_enforcer (f : option RuntimeEnforcer → Res (option RuntimeEnforcer))
    (w : NodeState) : Res NodeState :=
  re ← f (nd_Enforcer w);
  Ok {| nd_Logger := nd_Logger w; nd_Enforcer := re; nd_Monitor := nd_Monitor w;
        nd_rest := nd_rest w |}.
Definition on_monitor (f : @SystemMonitor S → @SystemMonitor S) (w : NodeState)
    : Res NodeState :=
  Ok {| nd_Logger := nd_Logger w; nd_Enforcer := nd_Enforcer w;
        nd_Monitor := f (nd_Monitor w); nd_rest := nd_rest w |}.
Definition on_rest (f : X → Res X) (w : NodeState) : Res NodeState :=
  x ← f (nd_rest w);
  Ok {| nd_Logger := nd_Logger w; nd_Enforcer := nd_Enforcer w; nd_Monitor := nd_Monitor w;
        nd_rest := x |}.

#[export] Instance node_backend : Backend NodeState := {
  logger_UpdateSecurityPolicies action ep :=
    on_logger (PolicyMatcher.UpdateSecurityPolicies Compile action ep);
  logger_UpdateHostSecurityPolicies action l :=
    on_logger (PolicyMatcher.UpdateHostSecurityPolicies Compile action l);
  logger_UpdateDefaultPosture action ns dp :=
    on_logger (λ fd, Ok (PolicyMatcher.UpdateDefaultPosture action ns dp fd));
  enforcer_UpdateSecurityPolicies ep := on_enforcer (RuntimeEnforcer.UpdateSecurityPolicies ep);
  enforcer_UpdateHostSecurityPolicies l :=
    on_enforcer (RuntimeEnforcer.UpdateHostSecurityPolicies l);
  enforcer_UpdateAppArmorProfiles pod action profiles privileged :=
    on_enforcer (RuntimeEnforcer.UpdateAppArmorProfiles pod action profiles privileged);
  presets_UpdateSecurityPolicies ep := on_rest (presets ep);
  monitor_HandleUnknownNamespaceNsMap id ns pidns mntns :=
    on_monitor (NsMap.HandleUnknownNamespaceNsMap mcfg id ns pidns mntns);
  monitor_UpdateVisibility_ns action ns v := on_monitor (NsMap.UpdateVisibility_ns action ns v);
  backup_HostPolicy p := on_rest (backup_host p);
  backup_ContainerPolicy p := on_rest (backup p);
  remove_BackUpPolicy name := on_rest (remove_backup name) }.

End node.
Arguments NodeState : clear implicits.
