(* ===== verification/EnforcementProps.v ===== *)
(** From policies to the kernel: after a policy event that the enforcer carried out
    without an error, the kernel holds for every container of every enforced endpoint
    the rules of exactly the policies that the endpoint holds now; and what the
    feeder knows of a pod with several containers. *)
From Stdlib Require Import Ascii String.
From S2P Require Import Prelude GoStrings Types Common BpfRules BpfRulesProps BpfEnforcer BpfEnforcerFacts BpfEnforcerProps RuntimeEnforcer NsMap PolicyMatcher PolicySpec Daemon DaemonProps Pods PodsProps Enforcement.

Open Scope string_scope.

(** ** One container after another *)

Section bpf.
Context `{R : GoRange, !GoRangeLaw R} (C : gmap string Z).
Context {IM OM TM AM : Type}.
Context `{EI : !EbpfMap IM InnerKey val2} `{EO : !EbpfMap OM NsKey nat}.
Context `{ET : !EbpfMap TM NsKey unit} `{EA : !EbpfMap AM ArgumentsKey Z}.
Context `{LI : !EbpfMapLaw IM InnerKey val2} `{LO : !EbpfMapLaw OM NsKey nat}.
Context `{LT : !EbpfMapLaw TM NsKey unit} `{LA : !EbpfMapLaw AM ArgumentsKey Z}.
Abbreviation BPF := (@BPFEnforcer IM OM TM AM).
Context (NewMap : BPF → option (nat * IM)).
(** A new map is empty and under an unused descriptor. *)
Context (NewMap_fresh : ∀ (be : BPF) h m, NewMap be = Some (h, m) →
  em_view m = ∅ ∧ be_maps be !! h = None).

Implicit Types be : BPF.

(** *** The log only grows *)

Definition log_le be be' : Prop := be_log be `prefix_of` be_log be'.

#[local] Instance log_le_preorder : PreOrder log_le.
Proof. split; [by intros be; unfold log_le|intros b1 b2 b3; unfold log_le; apply transitivity]. Qed.

Lemma log_Errf e be : log_le be (Errf e be).
Proof. destruct e; [by apply prefix_app_r|done]. Qed.

(** The state under the log does not matter. *)
Ltac log_err :=
  match goal with
  | |- context [Errf ?e ?b] => exact (log_Errf e b)
  end.

Lemma log_foldl {A} (f : BPF → A → BPF) l be :
  (∀ b x, log_le b (f b x)) → log_le be (foldl f be l).
Proof.
  intros Hf. apply (foldl_inv (log_le be)); [done|].
  intros b x _ Hb. etransitivity; [exact Hb|apply Hf].
Qed.

Lemma log_put h k v be : log_le be (put_or_log h k v be).
Proof.
  unfold put_or_log, inner_Put. destruct (be_maps be !! h) as [m|]; [|apply log_Errf].
  destruct (em_Put m k v) as [m' e]. apply (log_Errf e (set_maps _ be)).
Qed.

Lemma log_delete h k be : log_le be (delete_or_log h k be).
Proof.
  unfold delete_or_log, inner_Delete. destruct (be_maps be !! h) as [m|]; [|apply log_Errf].
  destruct (em_Delete m k) as [m' e]. apply (log_Errf _ (set_maps _ be)).
Qed.

Lemma log_posture p h new dp be : log_le be (set_posture_key p h new dp be).
Proof. unfold set_posture_key. case_bool; [apply log_put|apply log_delete]. Qed.

Lemma log_args_Put key arg be : log_le be (args_Put key be arg).
Proof.
  unfold args_Put. destruct (em_Put _ _ _) as [m e]. apply (log_Errf e (set_argmap m be)).
Qed.

Lemma log_resolve p id h l be : log_le be (resolveConflicts p id h l be).
Proof.
  apply log_foldl. intros b kv. unfold resolve_one. destruct (l !! kv.1); [done|].
  apply (log_delete h kv.1 b).
Qed.

Lemma log_drop_args id key be : log_le be (drop_args id key be).
Proof.
  unfold drop_args. case_bool; [|done].
  apply (log_foldl _ _ be). intros b arg. unfold args_Delete.
  destruct (em_Delete _ _) as [m e]. apply (log_Errf e (set_argmap m b)).
Qed.

Lemma log_resolve_proc id h l be : log_le be (resolveConflictsProcessRules id h l be).
Proof.
  apply log_foldl. intros b kv. unfold resolve_proc_one. destruct (l !! kv.1); [done|].
  etransitivity; [apply (log_delete h kv.1 b)|].
  apply (log_drop_args id kv.1 (on_rules _ _ (delete_or_log h kv.1 b))).
Qed.

Lemma log_put_rules p id h new be : log_le be (put_rules p id h new be).
Proof.
  apply log_foldl. intros b kv. apply (log_put h kv.1 kv.2 (on_rules _ _ b)).
Qed.

Lemma log_put_args id new be : log_le be (put_args id new be).
Proof.
  apply log_foldl. intros b kv. apply (log_foldl _ _ (on_rules _ _ b)).
  intros b' arg. apply log_args_Put.
Qed.

Lemma log_apply_rules id h new dp be : log_le be (apply_rules id h new dp be).
Proof.
  unfold apply_rules.
  repeat (etransitivity; [|apply log_put_rules]; etransitivity; [|apply log_posture]).
  etransitivity; [|apply log_put_args].
  etransitivity; [|apply log_put_rules]. etransitivity; [|apply log_posture].
  etransitivity; [|apply (log_resolve CapPart id h (CapabilitiesRuleList new))].
  etransitivity; [|apply log_resolve]. etransitivity; [|apply log_resolve].
  apply log_resolve_proc.
Qed.

Lemma log_create id be : log_le be (CreateContainerInnerMap NewMap id be).
Proof.
  unfold CreateContainerInnerMap. destruct (be_ContainerMap be !! id); [|done].
  destruct (NewMap be) as [[h im]|]; [|apply log_Errf].
  destruct (em_Put _ _ _) as [om e]. log_err.
Qed.

Lemma log_delete_map id be : log_le be (DeleteContainerInnerMap id be).
Proof.
  unfold DeleteContainerInnerMap. destruct (kv_Map _) as [h|]; [|done].
  destruct (em_Delete _ _) as [om e1].
  destruct (em_Delete _ (kv_Key _)) as [tm e2].
  set (b1 := Errf _ (set_outer om be)).
  set (b2 := Errf _ (set_throttle tm b1)).
  assert (H1 : log_le be b1) by apply (log_Errf _ (set_outer om be)).
  assert (H2 : log_le b1 b2) by apply (log_Errf _ (set_throttle tm b1)).
  etransitivity; [exact H1|]. etransitivity; [exact H2|].
  etransitivity.
  { apply (log_foldl delete_container_args). intros b kv. apply log_foldl. intros b' arg.
    unfold args_Delete. destruct (em_Delete _ _) as [m e].
    apply (log_Errf (unless_NotExist e) (set_argmap m b')). }
  unfold log_le. simpl. unfold close_inner.
  destruct (be_maps _ !! h); log_err.
Qed.

Lemma log_UpdateContainerRules id pols dp be be' :
  UpdateContainerRules C NewMap id pols dp be = Ok be' → log_le be be'.
Proof.
  unfold UpdateContainerRules, install_rules. destruct (be_ContainerMap be !! id) as [kv|].
  2:{ by intros [= ->]. }
  case_bool.
  - destruct (kv_Map (container _ _)) as [h|]; [|done]. intros [= <-].
    etransitivity; [apply log_create|apply log_apply_rules].
  - case_bool; [intros [= <-]; apply log_delete_map|].
    destruct (kv_Map kv); [|done]. intros [= <-]. apply log_apply_rules.
Qed.

(** *** What the kernel holds *)

(** Containers are in step with the kernel, under keys and inner maps of their own. *)
Record healthy be : Prop := {
  he_sync : ∀ id, in_sync be id;
  he_keys : ∀ id1 id2 kv1 kv2, id1 ≠ id2 →
    be_ContainerMap be !! id1 = Some kv1 → be_ContainerMap be !! id2 = Some kv2 →
    kv_Key kv1 ≠ kv_Key kv2;
  he_maps : ∀ id1 id2 kv1 kv2 h, id1 ≠ id2 →
    be_ContainerMap be !! id1 = Some kv1 → be_ContainerMap be !! id2 = Some kv2 →
    kv_Map kv1 = Some h → kv_Map kv2 ≠ Some h }.

(** The kernel holds the rules of [pols] for a registered container: no inner map if
    there are none, else one with the fresh rules and the posture keys. *)
Definition holds be (id : string) (pols : list SecurityPolicy) (dp : DefaultPosture) : Prop :=
  ∃ kv, be_ContainerMap be !! id = Some kv ∧
    let new := fresh_rules C (kv_Key kv) pols in
    if no_rules new then em_view (be_BPFContainerMap be) !! kv_Key kv = None
    else ∃ h m, em_view (be_BPFContainerMap be) !! kv_Key kv = Some h ∧
                be_maps be !! h = Some m ∧ em_view m = kernel_view new dp.

Definition registered be (id : string) : Prop := is_Some (be_ContainerMap be !! id).

(** What an update of container [id] does to the others *)
Record step_ok be be' (id : string) : Prop := {
  so_healthy : healthy be';
  so_registered : ∀ j, registered be j → registered be' j;
  so_others : ∀ j P d, j ≠ id → holds be j P d → holds be' j P d }.

Lemma in_sync_frame be be' j kvj :
  be_ContainerMap be !! j = Some kvj → be_ContainerMap be' !! j = Some kvj →
  em_view (be_BPFContainerMap be') !! kv_Key kvj = em_view (be_BPFContainerMap be) !! kv_Key kvj →
  (∀ h m, kv_Map kvj = Some h → be_maps be !! h = Some m → be_maps be' !! h = Some m) →
  in_sync be j → in_sync be' j.
Proof.
  intros Hj Hj' Ho Hm Hs kv Hkv. rewrite Hj' in Hkv. simplify_eq.
  specialize (Hs _ Hj). destruct (kv_Map kv) as [h|] eqn:Hk; rewrite Ho; [|done].
  destruct Hs as [(m & Hmap & Hc) Hout]. split; [|done]. exists m. eauto.
Qed.

(** An update of container [id] keeps the other containers, what the kernel holds under their
    keys, and their inner maps; its own record keeps its key and may get a new inner map. *)
Record framed be be' (id : string) (kv kv' : ContainerKV) : Prop := {
  fr_container : be_ContainerMap be' !! id = Some kv';
  fr_key : kv_Key kv' = kv_Key kv;
  fr_map : ∀ h, kv_Map kv' = Some h → kv_Map kv = Some h ∨ be_maps be !! h = None;
  fr_others : ∀ j, j ≠ id → be_ContainerMap be' !! j = be_ContainerMap be !! j;
  fr_kernel : ∀ j kvj, j ≠ id → be_ContainerMap be !! j = Some kvj →
    em_view (be_BPFContainerMap be') !! kv_Key kvj = em_view (be_BPFContainerMap be) !! kv_Key kvj
    ∧ ∀ h m, kv_Map kvj = Some h → be_maps be !! h = Some m → be_maps be' !! h = Some m }.

Lemma update_framed id kv new dp be be' :
  healthy be → be_ContainerMap be !! id = Some kv →
  install_rules NewMap id new dp be = Ok be' → be_log be' = be_log be →
  ∃ kv', framed be be' id kv kv'.
Proof.
  intros [Hsync Hkeys Hmaps] Hkv Hu Hlog.
  destruct (install_rules_frame NewMap NewMap_fresh _ _ _ _ _ _ Hkv (Hsync id) Hu)
    as (Hothers & Hother_maps & (errs & Hl & Hout) & kv' & Hkv' & Hkey & Hhandle).
  assert (errs = []) as Hnil by (apply (app_nil_inv_log (be_log be)); congruence).
  exists kv'. split; [done..|]. intros j kvj Hne Hkvj. split.
  - apply (Hout Hnil). by apply (Hkeys j id).
  - intros h m Hh Hm. apply Hother_maps; [|done]. by apply (Hmaps j id kvj kv h).
Qed.

(** The inner map of a container in step is there. *)
Lemma used_map be j kvj h :
  in_sync be j → be_ContainerMap be !! j = Some kvj → kv_Map kvj = Some h → be_maps be !! h ≠ None.
Proof.
  intros Hs Hk1 Hk2. specialize (Hs kvj Hk1). rewrite Hk2 in Hs. by destruct Hs as [(m & -> & _) _].
Qed.

Lemma framed_healthy be be' id kv kv' :
  healthy be → be_ContainerMap be !! id = Some kv → framed be be' id kv kv' → in_sync be' id →
  healthy be'.
Proof.
  intros [Hsync Hkeys Hmaps] Hkv [Hkv' Hkey Hhandle Hothers Hj] Hid. split.
  - intros j. destruct (decide (j = id)) as [->|Hne]; [done|].
    intros kvj Hkvj. rewrite Hothers in Hkvj by done. destruct (Hj j kvj Hne Hkvj) as [H1 H2].
    refine (in_sync_frame _ _ _ _ Hkvj _ H1 H2 (Hsync j) kvj _); by rewrite Hothers.
  - intros id1 id2 kv1 kv2 Hne H1 H2.
    destruct (decide (id1 = id)) as [->|Hn1], (decide (id2 = id)) as [->|Hn2]; try done.
    + rewrite Hkv' in H1. rewrite Hothers in H2 by done. simplify_eq. rewrite Hkey.
      by apply (Hkeys id id2).
    + rewrite Hkv' in H2. rewrite Hothers in H1 by done. simplify_eq. rewrite Hkey.
      by apply (Hkeys id1 id).
    + rewrite !Hothers in * by done. by apply (Hkeys id1 id2).
  - intros id1 id2 kv1 kv2 h Hne H1 H2 Hh Hh2.
    destruct (decide (id1 = id)) as [->|Hn1], (decide (id2 = id)) as [->|Hn2]; try done.
    + rewrite Hkv' in H1. rewrite Hothers in H2 by done. simplify_eq.
      destruct (Hhandle h Hh) as [Hold|Hnew]; [by apply (Hmaps id id2 kv kv2 h)|].
      by apply (used_map be id2 kv2 h).
    + rewrite Hkv' in H2. rewrite Hothers in H1 by done. simplify_eq.
      destruct (Hhandle h Hh2) as [Hold|Hnew]; [by apply (Hmaps id1 id kv1 kv h)|].
      by apply (used_map be id1 kv1 h).
    + rewrite !Hothers in * by done. by apply (Hmaps id1 id2 kv1 kv2 h).
Qed.

Lemma framed_others be be' id kv kv' j P d :
  healthy be → framed be be' id kv kv' → j ≠ id → holds be j P d → holds be' j P d.
Proof.
  intros [Hsync _ _] Hf Hne (kvj & Hkvj & Hh). destruct (fr_kernel _ _ _ _ _ Hf j kvj Hne Hkvj) as [H2 H3].
  exists kvj. split; [by rewrite (fr_others _ _ _ _ _ Hf)|]. simpl in Hh |- *. rewrite H2.
  destruct (no_rules (fresh_rules C (kv_Key kvj) P)); [done|].
  destruct Hh as (h & m & Ho & Hm & Hv). exists h, m. split; [done|]. split; [|done].
  apply H3; [|done]. pose proof (Hsync j kvj Hkvj) as Hs.
  destruct (kv_Map kvj) as [h'|]; destruct Hs; congruence.
Qed.

Lemma update_container id pols dp be be' :
  healthy be → registered be id →
  UpdateContainerRules C NewMap id pols dp be = Ok be' → be_log be' = be_log be →
  step_ok be be' id ∧ holds be' id pols dp.
Proof.
  intros Hb [kv Hkv] Hu Hlog. unfold UpdateContainerRules in Hu.
  destruct (update_framed _ _ _ _ _ _ Hb Hkv Hu Hlog) as [kv' Hf].
  pose proof (install_rules_cases NewMap NewMap_fresh _ _ _ _ _ _ Hkv (he_sync _ Hb id) Hu Hlog) as Hc.
  unfold container in Hc. rewrite Hkv in Hc. simpl in Hc.
  split; [split|].
  - apply (framed_healthy be be' id kv kv' Hb Hkv Hf).
    destruct (no_rules _) eqn:Hn; [|by eapply enforces_in_sync].
    destruct Hc as (kv'' & Hkv'' & Hk & Hm & Hp & Ho). intros kv3 Hkv3.
    rewrite Hkv'' in Hkv3. simplify_eq. rewrite Hm, Hk. done.
  - intros j [kvj Hkvj]. unfold registered. destruct (decide (j = id)) as [->|Hne].
    + rewrite (fr_container _ _ _ _ _ Hf). by eexists.
    + rewrite (fr_others _ _ _ _ _ Hf) by done. by eexists.
  - intros j P d. by apply (framed_others be be' id kv kv').
  - exists kv'. split; [apply (fr_container _ _ _ _ _ Hf)|]. simpl. rewrite (fr_key _ _ _ _ _ Hf).
    destruct (no_rules _); [by destruct Hc as (? & _ & _ & _ & _ & Ho)|].
    destruct Hc as (h & m & rs & _ & Ho & Hm & Hv & _). eauto.
Qed.

(** *** All containers of an endpoint *)

Definition bpf_update (ep : EndPoint) : BPF → Res BPF :=
  BpfEnforcer.UpdateSecurityPolicies C NewMap ep.

Definition ep_holds be (ep : EndPoint) : Prop :=
  ∀ id, id ∈ ep_Containers ep → holds be id (ep_SecurityPolicies ep) (ep_DefaultPosture ep).

Lemma log_containers pols dp (l : list string) be be' :
  foldl (λ r id, r ≫= UpdateContainerRules C NewMap id pols dp) (Ok be) l = Ok be' →
  log_le be be'.
Proof.
  revert be. induction l as [|id l IH]; intros be; [by intros [= ->]|]. cbn [foldl mbind Res_bind].
  destruct (UpdateContainerRules C NewMap id pols dp be) as [b|] eqn:E; [|by rewrite foldl_Panic].
  intros H. etransitivity; [by eapply log_UpdateContainerRules|by apply IH].
Qed.

Lemma log_same be1 be2 be3 :
  log_le be1 be2 → log_le be2 be3 → be_log be3 = be_log be1 →
  be_log be2 = be_log be1 ∧ be_log be3 = be_log be2.
Proof.
  intros H1 H2 H. unfold log_le in *. rewrite H in H2.
  assert (be_log be1 = be_log be2) as <- by by apply (anti_symm prefix). done.
Qed.

(** What is true after a sequence of updates of the containers [l] *)
Record after (l : list string) be be' : Prop := {
  af_healthy : healthy be';
  af_registered : ∀ j, registered be j → registered be' j;
  af_others : ∀ j P d, j ∉ l → holds be j P d → holds be' j P d }.

Lemma update_containers pols dp (l : list string) be be' :
  healthy be → (∀ id, id ∈ l → registered be id) →
  foldl (λ r id, r ≫= UpdateContainerRules C NewMap id pols dp) (Ok be) l = Ok be' →
  be_log be' = be_log be →
  after l be be' ∧ ∀ id, id ∈ l → holds be' id pols dp.
Proof.
  revert be. induction l as [|id l IH]; intros be Hh Hreg.
  { intros [= ->] _. split; [by split|]. by intros id ?%elem_of_nil. }
  cbn [foldl mbind Res_bind].
  destruct (UpdateContainerRules C NewMap id pols dp be) as [b|] eqn:E; [|by rewrite foldl_Panic].
  intros H Hlog.
  destruct (log_same be b be') as [Hl1 Hl2]; [by eapply log_UpdateContainerRules| |done|].
  { by eapply log_containers. }
  destruct (update_container id pols dp be b) as [[Hh' Hr' Ho'] Hid]; auto.
  { apply Hreg. by left. }
  destruct (IH b Hh') as [[Hh2 Hr2 Ho2] Hall]; [|done|done|].
  { intros j Hj. apply Hr', Hreg. by right. }
  split; [split|]; [done|auto| |].
  - intros j P d Hj Hold. apply Ho2; [set_solver|]. apply Ho'; [set_solver|done].
  - intros j [->|Hj]%elem_of_cons; [|auto]. destruct (decide (id ∈ l)); [auto|]. by apply Ho2.
Qed.

Lemma bpf_update_holds ep be be' :
  healthy be → (∀ id, id ∈ ep_Containers ep → registered be id) →
  bpf_update ep be = Ok be' → be_log be' = be_log be →
  after (ep_Containers ep) be be' ∧ ep_holds be' ep.
Proof.
  intros Hh Hreg. unfold bpf_update, BpfEnforcer.UpdateSecurityPolicies. intros H Hlog.
  exact (update_containers _ _ _ _ _ Hh Hreg H Hlog).
Qed.

Lemma log_bpf_update ep be be' : bpf_update ep be = Ok be' → log_le be be'.
Proof.
  unfold bpf_update, BpfEnforcer.UpdateSecurityPolicies. intros H.
  exact (log_containers _ _ _ _ _ H).
Qed.

(** All endpoints of a list, one after another *)
Lemma update_endpoints (eps : list EndPoint) be be' :
  healthy be → (∀ ep id, ep ∈ eps → id ∈ ep_Containers ep → registered be id) →
  NoDup (eps ≫= ep_Containers) →
  foldl (λ r ep, r ≫= bpf_update ep) (Ok be) eps = Ok be' → be_log be' = be_log be →
  after (eps ≫= ep_Containers) be be' ∧ ∀ ep, ep ∈ eps → ep_holds be' ep.
Proof.
  revert be. induction eps as [|ep eps IH]; intros be Hh Hreg Hnd.
  { intros [= ->] _. split; [by split|]. by intros ep ?%elem_of_nil. }
  cbn [foldl mbind Res_bind list_bind] in *. apply list.NoDup_app in Hnd as (_ & Hdisj & Hnd).
  destruct (bpf_update ep be) as [b|] eqn:E; [|by rewrite foldl_Panic].
  intros H Hlog.
  assert (Hle : log_le b be').
  { clear -H. revert b H. induction eps as [|e eps IH]; intros b; [by intros [= ->]|].
    cbn [foldl mbind Res_bind]. destruct (bpf_update e b) as [b'|] eqn:E; [|by rewrite foldl_Panic].
    intros H. etransitivity; [by eapply log_bpf_update|by apply IH]. }
  destruct (log_same be b be') as [Hl1 Hl2]; [by eapply log_bpf_update|done|done|].
  destruct (bpf_update_holds ep be b) as [[Hh1 Hr1 Ho1] Hep]; auto.
  { intros id Hid. by apply (Hreg ep); [left|]. }
  destruct (IH b Hh1) as [[Hh2 Hr2 Ho2] Hall]; [|done|done|done|].
  { intros e id He Hid. by apply Hr1, (Hreg e); [right|]. }
  split; [split|]; [done|auto| |].
  - intros j P d Hj Hold. rewrite elem_of_app in Hj. apply Ho2; [tauto|]. apply Ho1; [tauto|done].
  - intros e [->|He]%elem_of_cons; [|auto]. intros id Hid. apply Ho2; [by apply Hdisj|].
    by apply Hep.
Qed.
End bpf.

(** ** The daemon on top of the enforcer *)

Lemma NoDup_bind_eq {A X} (f : A → list X) (l : list A) x y a :
  NoDup (l ≫= f) → x ∈ l → y ∈ l → a ∈ f x → a ∈ f y → x = y.
Proof.
  induction l as [|z l IH]; [by intros _ ?%elem_of_nil|]. cbn [mbind list_bind].
  intros (_ & Hd & Hl)%list.NoDup_app Hx Hy Hax Hay.
  apply elem_of_cons in Hx as [->|Hx]; apply elem_of_cons in Hy as [->|Hy]; auto.
  - exfalso. apply (Hd a Hax). apply list_elem_of_bind. eauto.
  - exfalso. apply (Hd a Hay). apply list_elem_of_bind. eauto.
Qed.

Lemma omap_bind_sublist {A X} (g : A → option A) (f : A → list X) (l : list A) :
  (∀ x y, g x = Some y → f y = f x) → omap g l ≫= f `sublist_of` l ≫= f.
Proof.
  intros Hg. induction l as [|x l IH]; [done|]. cbn [omap list_omap mbind list_bind].
  destruct (g x) as [y|] eqn:E; cbn [mbind list_bind].
  - rewrite (Hg x y E). by apply sublist_app.
  - by apply sublist_inserts_l.
Qed.

Lemma filter_bind_sublist {A X} (P : A → bool) (f : A → list X) (l : list A) :
  filter P l ≫= f `sublist_of` l ≫= f.
Proof.
  induction l as [|x l IH]; [done|]. rewrite filter_cons. cbn [mbind list_bind].
  case_decide; cbn [mbind list_bind]; [by apply sublist_app|by apply sublist_inserts_l].
Qed.

Section node.
Context `{R : GoRange, !GoRangeLaw R} (C : gmap string Z) (host_dp : DefaultPosture).
Context {IM OM TM AM : Type}.
Context `{EI : !EbpfMap IM InnerKey val2} `{EO : !EbpfMap OM NsKey nat}.
Context `{ET : !EbpfMap TM NsKey unit} `{EA : !EbpfMap AM ArgumentsKey Z}.
Context `{LI : !EbpfMapLaw IM InnerKey val2} `{LO : !EbpfMapLaw OM NsKey nat}.
Context `{LT : !EbpfMapLaw TM NsKey unit} `{LA : !EbpfMapLaw AM ArgumentsKey Z}.
Abbreviation BPF := (@BPFEnforcer IM OM TM AM).
Context (NewMap : BPF → option (nat * IM)) (destroy : BPF → BPF * option string).
Context (NewMap_fresh : ∀ (be : BPF) h m, NewMap be = Some (h, m) →
  em_view m = ∅ ∧ be_maps be !! h = None).
Context {AE SE : Type} `{AO : !AppArmorOps AE} `{SO : !SELinuxOps SE}.
Context {Rx : Type} (Compile : string → option Rx).
Context (mcfg : Config) {S : Type} `{ST : !NsKeyStore S}.
Context {X : Type} (presets : EndPoint → X → Res X)
        (backup_host : HostSecurityPolicy → X → Res X)
        (backup : SecurityPolicy → X → Res X) (remove_backup : string → X → Res X).
Context (cfg : Settings) (CompilePOSIX : string → option (string → bool)).

Abbreviation State := (NodeState BPF AE SE Rx S X).
#[local] Existing Instance BPFEnforcer_ops.
#[local] Instance ops : BpfOps BPF := BPFEnforcer_ops C host_dp NewMap destroy.
#[local] Instance backend : Backend State :=
  node_backend Compile mcfg presets backup_host backup remove_backup.

(** The BPF-LSM enforcer, when it is the one in use *)
Definition bpf_of (w : State) : option BPF :=
  re ← nd_Enforcer w;
  if String.eqb (re_EnforcerType re) "BPFLSM" then re_bpfEnforcer re else None.

Lemma notify_bpf action ep (w w' : State) be :
  cf_Policy cfg = true → cf_RuntimeEnforcer cfg = Some "BPFLSM" → bpf_of w = Some be →
  notify cfg action ep w = Ok w' →
  ∃ be', bpf_of w' = Some be' ∧
         (if enforced cfg ep then bpf_update C NewMap ep be = Ok be' else be' = be).
Proof.
  intros Hpol Hre Hbe H. unfold notify in H. rewrite Hpol in H. go_res H.
  cbn in Ha. unfold on_logger in Ha. go_res Ha. injection Ha as <-.
  unfold enforce in H. rewrite Hre in H. fold (enforced cfg ep) in H.
  unfold bpf_of in Hbe. destruct (nd_Enforcer w) as [re|] eqn:Hnd; [|done]. simpl in Hbe.
  destruct (String.eqb (re_EnforcerType re) "BPFLSM") eqn:Ht; [|done].
  destruct (enforced cfg ep) eqn:Hen.
  - go_res H. cbn in Ha. unfold on_enforcer in Ha. go_res Ha. cbn [nd_Enforcer] in Ha1.
    unfold RuntimeEnforcer.UpdateSecurityPolicies, if_active in Ha1.
    rewrite Ht, Hbe in Ha1. simpl in Ha1. fold (bpf_update C NewMap ep) in Ha1.
    destruct (bpf_update C NewMap ep be) as [be'|] eqn:Hu; [|done]. simpl in Ha1.
    injection Ha1 as <-. injection Ha as <-. exists be'. split; [|done].
    destruct (cf_Presets cfg).
    + cbn in H. unfold on_rest in H. go_res H. injection H as <-.
      unfold bpf_of. simpl. by rewrite Ht.
    + injection H as <-. unfold bpf_of. simpl. by rewrite Ht.
  - injection H as <-. exists be. split; [|done]. unfold bpf_of. simpl.
    by rewrite Ht.
Qed.

Lemma notify_all_bpf action (l : list EndPoint) (w w' : State) be :
  cf_Policy cfg = true → cf_RuntimeEnforcer cfg = Some "BPFLSM" → bpf_of w = Some be →
  notify_all cfg action l w = Ok w' →
  ∃ be', bpf_of w' = Some be' ∧
    foldl (λ r ep, r ≫= bpf_update C NewMap ep) (Ok be) (filter (enforced cfg) l) = Ok be'.
Proof.
  intros Hpol Hre. revert w be. induction l as [|ep l IH]; intros w be Hbe.
  { intros [= <-]. by exists be. }
  unfold notify_all. cbn [foldl mbind Res_bind].
  destruct (notify cfg action ep w) as [w1|] eqn:E; [|by rewrite foldl_Panic]. intros H.
  destruct (notify_bpf _ _ _ _ _ Hpol Hre Hbe E) as (be1 & Hbe1 & Hu).
  destruct (IH w1 be1 Hbe1 H) as (be' & Hbe' & Hf). exists be'. split; [done|].
  rewrite filter_cons. destruct (enforced cfg ep) eqn:Hen; simpl.
  - cbn [foldl mbind Res_bind]. by rewrite Hu.
  - by subst be1.
Qed.

(** What the kernel enforces for the daemon's endpoints *)
Record enforcing (dm : Daemon State) (be : BPF) : Prop := {
  en_bpf : bpf_of (dm_w dm) = Some be;
  en_healthy : healthy be;
  en_registered : ∀ ep id, ep ∈ dm_EndPoints dm → id ∈ ep_Containers ep → registered be id;
  en_apart : NoDup (dm_EndPoints dm ≫= ep_Containers);
  en_holds : ∀ ep, ep ∈ dm_EndPoints dm → enforced cfg ep = true → ep_holds C be ep }.

Lemma update_endpoint_with event ty p ep ep' :
  update_endpoint CompilePOSIX event ty p ep = Some ep' → ∃ l, ep' = with_policies l ep.
Proof.
  unfold update_endpoint. repeat case_bool; try done; intros [= <-]; eauto.
Qed.

Lemma updated_with event ty p ep : ∃ l, updated CompilePOSIX event ty p ep = with_policies l ep.
Proof.
  unfold updated. destruct (update_endpoint CompilePOSIX event ty p ep) as [ep'|] eqn:E.
  - by apply update_endpoint_with in E.
  - exists (ep_SecurityPolicies ep). by destruct ep.
Qed.

Lemma updated_containers event ty p (l : list EndPoint) :
  (updated CompilePOSIX event ty p <$> l) ≫= ep_Containers = l ≫= ep_Containers.
Proof.
  induction l as [|ep l IH]; [done|]. cbn [fmap list_fmap mbind list_bind] in *.
  rewrite IH. by destruct (updated_with event ty p ep) as [? ->].
Qed.

(** C1: A policy event that goes through without a logged error carries the policies to
    the kernel: if the kernel held, for every container of every enforced endpoint, the
    rules of exactly the endpoint's policies, it does so again with the endpoints and
    policies after the event; containers the event does not concern included. *)
Theorem policies_reach_the_kernel event ty p (dm dm' : Daemon State) be be' :
  cf_Policy cfg = true → cf_RuntimeEnforcer cfg = Some "BPFLSM" →
  enforcing dm be →
  policy_event cfg CompilePOSIX event ty p dm = Ok dm' →
  bpf_of (dm_w dm') = Some be' → be_log be' = be_log be →
  enforcing dm' be'.
Proof.
  intros Hpol Hre [Hbpf Hh Hreg Hnd Hep] H Hbe' Hlog. unfold policy_event in H.
  rewrite UpdateSecurityPolicy_eq in H. go_res H. injection H as <-.
  change (dm_EndPoints (store_policy event ty p dm)) with (dm_EndPoints dm) in *.
  set (eps := dm_EndPoints dm) in *.
  set (upd := update_endpoint CompilePOSIX event ty p) in *.
  cbn [dm_w set_dm_w set_EndPoints] in *.
  destruct (notify_all_bpf _ _ _ _ _ Hpol Hre Hbpf Ha) as (be1 & Hbe1 & Hf).
  assert (be1 = be') as -> by congruence.
  assert (Hsub : filter (enforced cfg) (omap upd eps) ≫= ep_Containers
                   `sublist_of` eps ≫= ep_Containers).
  { etransitivity; [apply filter_bind_sublist|]. apply omap_bind_sublist.
    intros x y Hxy. by destruct (update_endpoint_with event ty p x y Hxy) as [? ->]. }
  destruct (update_endpoints C NewMap NewMap_fresh (filter (enforced cfg) (omap upd eps))
              be be' Hh) as [[Hh' Hr' Ho'] Hall]; [| |done|done|].
  { intros ep id [_ (x & Hx & Hu)%list_elem_of_omap]%list_elem_of_filter Hid.
    destruct (update_endpoint_with event ty p x ep Hu) as [? ->]. by apply (Hreg x). }
  { exact (sublist_NoDup _ _ Hnd Hsub). }
  split; [done|done| | |]; cbn [dm_EndPoints set_dm_w set_EndPoints].
  - intros ep id (x & -> & Hx)%list_elem_of_fmap Hid. apply Hr', (Hreg x); [done|].
    by destruct (updated_with event ty p x) as [? Hw]; rewrite Hw in Hid.
  - by rewrite updated_containers.
  - intros ep (x & -> & Hx)%list_elem_of_fmap Hen.
    unfold updated in *. destruct (update_endpoint CompilePOSIX event ty p x) as [y|] eqn:E;
      simpl in *.
    + apply Hall, list_elem_of_filter. split; [by rewrite Hen|]. apply list_elem_of_omap. eauto.
    + intros id Hid. apply Ho'; [|by apply Hep].
      intros (y & Hidy & [_ (z & Hz & Hu)%list_elem_of_omap]%list_elem_of_filter)%list_elem_of_bind.
      destruct (update_endpoint_with event ty p z y Hu) as [? ->].
      rewrite (NoDup_bind_eq ep_Containers eps x z id Hnd Hx Hz Hid Hidy) in E.
      fold upd in E. congruence.
Qed.
End node.

(** ** The feeder's view of a pod *)

Section feeder_view.
Context `{R : GoRange, !GoRangeLaw R}.
Context {BE AE SE : Type} `{BO : !BpfOps BE} `{AO : !AppArmorOps AE} `{SO : !SELinuxOps SE}.
Context {Rx : Type} (Compile : string → option Rx).
Context (mcfg : Config) {S : Type} `{ST : !NsKeyStore S}.
Context {X : Type} (presets : EndPoint → X → Res X)
        (backup_host : HostSecurityPolicy → X → Res X)
        (backup : SecurityPolicy → X → Res X) (remove_backup : string → X → Res X).
Context (cfg : Settings) (CompilePOSIX : string → option (string → bool)).
Context (MarshalPolicy : SecurityPolicy → string)
        (UnmarshalPolicy : string → option SecurityPolicy).

Abbreviation State := (NodeState BE AE SE Rx S X).
#[local] Instance feeder_backend : Backend State :=
  node_backend Compile mcfg presets backup_host backup remove_backup.

Definition rules_of (fd : @Feeder Rx) (ep : EndPoint) : Res (list MatchPolicy) :=
  concatM (policy_matches Compile (fd_Enforcer fd) (ep_PolicyEnabled ep))
          (ep_SecurityPolicies ep).

Lemma enforce_logger ep (w w' : State) : enforce cfg ep w = Ok w' → nd_Logger w' = nd_Logger w.
Proof.
  unfold enforce. intros H. case_bool; [|by injection H as <-]. go_res H.
  assert (Hl : nd_Logger a = nd_Logger w).
  { destruct (is_some _); [|by injection Ha as <-]. cbn in Ha. unfold on_enforcer in Ha. go_res Ha.
    by injection Ha as <-. }
  rewrite <- Hl. case_bool; [|by injection H as <-]. cbn in H. unfold on_rest in H. go_res H.
  by injection H as <-.
Qed.

Lemma notify_logger action ep (w w' : State) :
  cf_Policy cfg = true → action ≠ "DELETED" → notify cfg action ep w = Ok w' →
  fd_Enforcer (nd_Logger w') = fd_Enforcer (nd_Logger w) ∧
  ∃ m, rules_of (nd_Logger w) ep = Ok m ∧
       fd_SecurityPolicies (nd_Logger w') =
         <[endpoint_name ep := m]> (fd_SecurityPolicies (nd_Logger w)).
Proof.
  unfold notify. intros -> Hact H. go_res H. apply enforce_logger in H as ->.
  cbn in Ha. unfold on_logger in Ha. go_res Ha. injection Ha as <-.
  unfold PolicyMatcher.UpdateSecurityPolicies in Ha0.
  rewrite (proj2 (String.eqb_neq action "DELETED") Hact) in Ha0. go_res Ha0.
  injection Ha0 as <-. split; [done|]. by eexists.
Qed.

Lemma notify_endpoints_last action l ep (dm dm' : Daemon State) :
  cf_Policy cfg = true → action ≠ "DELETED" →
  notify_endpoints cfg action (l ++ [ep]) dm = Ok dm' →
  dm_EndPoints dm' = dm_EndPoints dm ∧
  ∃ m, rules_of (nd_Logger (dm_w dm')) ep = Ok m ∧
       fd_SecurityPolicies (nd_Logger (dm_w dm')) !! endpoint_name ep = Some m.
Proof.
  intros Hp Hact H. pose proof (notify_endpoints_keep _ _ _ _ _ H) as [-> _].
  split; [done|]. unfold notify_endpoints in H. rewrite foldl_app in H. cbn [foldl] in H.
  go_res H. unfold call in H. go_res H. injection H as <-.
  cbn [dm_w set_dm_w]. destruct (notify_logger _ _ _ _ Hp Hact Ha0) as [He (m & Hm & Hs)].
  exists m. unfold rules_of in *. by rewrite He, Hs, lookup_insert_eq.
Qed.

(** The feeder knows the rules of a pod under the pod's name, but the daemon tells
    it the rules of each container in turn: once a pod with containers has been added,
    the feeder holds the rules of the endpoint that comes last, and only those.  Rules
    for the other containers are enforced but never matched. *)
Theorem feeder_keeps_last_container nsList pod (dm dm' : Daemon State) :
  cf_Policy cfg = true → pod_Containers pod ≠ ∅ →
  UpdateEndPointWithPod cfg CompilePOSIX MarshalPolicy UnmarshalPolicy nsList addEvent pod dm
    = Ok dm' →
  ∃ l ep m, dm_EndPoints dm' = (l ++ [ep])%list ∧ of_pod pod ep = true ∧
    rules_of (nd_Logger (dm_w dm')) ep = Ok m ∧
    fd_SecurityPolicies (nd_Logger (dm_w dm')) !!
      (field "namespaceName" (pod_Metadata pod) +:+ "_" +:+ field "podName" (pod_Metadata pod))
      = Some m.
Proof.
  intros Hp Hne H. unfold UpdateEndPointWithPod, pod_added in H. cbn [String.eqb] in H.
  simpl in H. go_res H. destruct a as [dm1 eps]. unfold pod_endpoints in Ha. go_res Ha.
  injection Ha as <- Heps.
  assert (Hr : go_range (pod_Containers pod) ≠ []).
  { intros E. apply Hne, map_empty. intros k. destruct (pod_Containers pod !! k) eqn:Ek; [|done].
    apply elem_of_go_range in Ek. rewrite E in Ek. by apply elem_of_nil in Ek. }
  destruct (exists_last Hr) as (kvs & kv & E).
  rewrite E, fmap_app in Heps. cbn [fmap list_fmap] in Heps. subst eps.
  rewrite app_assoc in H. set (ep := container_endpoint _ _ _ _ kv) in H.
  apply notify_endpoints_last in H as (-> & m & Hm & Hs); [|done|done].
  eexists _, ep, m. split; [reflexivity|]. split; [|split; [exact Hm|exact Hs]].
  unfold of_pod. simpl. by rewrite !String.eqb_refl.
Qed.
End feeder_view.

(** ** A node with one container and one policy *)

#[local] Existing Instance canonical_range.
#[local] Existing Instance canonical_range_law.

Definition no_apparmor : AppArmorOps unit := {|
  ao_RegisterAppArmorProfile _ _ _ u := u; ao_UnregisterAppArmorProfile _ _ _ u := u;
  ao_UpdateSecurityPolicies _ u := Ok u; ao_UpdateHostSecurityPolicies _ u := Ok u;
  ao_Destroy u := (u, None) |}.
Definition no_selinux : SELinuxOps unit := {|
  so_UpdateHostSecurityPolicies _ u := Ok u; so_Destroy u := (u, None) |}.
Definition no_store : NsKeyStore unit := λ _ _ _ u, u.

Definition sample_feeder : @Feeder unit :=
  {| fd_Enforcer := "BPFLSM"; fd_NodeName := "node"; fd_NodePolicyEnabled := 1;
     fd_NodeVisibility := empty_Visibility; fd_Host := "node";
     fd_GlobalPosture := audit_posture; fd_SecurityPolicies := ∅; fd_DefaultPostures := ∅ |}.

Definition sample_node : NodeState BBE unit unit unit unit unit :=
  {| nd_Logger := sample_feeder;
     nd_Enforcer := Some {| re_EnforcerType := "BPFLSM"; re_bpfEnforcer := Some c1_enforcer;
                            re_appArmorEnforcer := None; re_seLinuxEnforcer := None |};
     nd_Monitor := {| mon_NsMap := ∅; mon_NamespacePidsMap := ∅; mon_store := tt |};
     nd_rest := tt |}.

Definition identified_policy : SecurityPolicy := sample_ksp "ksp" [] (sp_Spec sample_policy).

Definition sample_config : Config :=
  {| cfg_HostPolicy := false; cfg_HostVisibility := ""; cfg_Visibility := "" |}.

Abbreviation sample_backend := (@node_backend canonical_range BBE unit unit
  (BPFEnforcer_ops ∅ audit_posture sample_NewMap (λ be, (be, None))) no_apparmor no_selinux
  unit (λ _, None) sample_config
  unit no_store unit (λ _, Ok) (λ _, Ok) (λ _, Ok) (λ _, Ok)).

Definition after_policy : Res (Daemon (NodeState BBE unit unit unit unit unit)) :=
  policy_event (B:=sample_backend) sample_cfg (λ _, None) addEvent KubeArmorPolicy
    identified_policy (sample_daemon [] sample_node).

(** The event went through, without an error, and the endpoint has the policy. *)
Definition applied_quietly (r : Res (Daemon (NodeState BBE unit unit unit unit unit))) : bool :=
  match r with
  | Ok dm =>
      match bpf_of (dm_w dm) with
      | Some be => bool_decide (be_log be = []) && bool_decide
          ((ep_SecurityPolicies <$> dm_EndPoints dm) = [[identified_policy]])
      | None => false
      end
  | Panic => false
  end.

Lemma sample_applied_quietly : applied_quietly after_policy = true.
Proof. vm_compute. reflexivity. Qed.

Lemma c1_only id kv : be_ContainerMap c1_enforcer !! id = Some kv → id = "c1".
Proof.
  unfold c1_enforcer. cbn. intros H. destruct (decide (id = "c1")) as [->|Hne]; [done|].
  by rewrite lookup_insert_ne in H.
Qed.

Lemma sample_enforcing : enforcing ∅ sample_cfg (sample_daemon [] sample_node) c1_enforcer.
Proof.
  split; [done| | | |].
  - split.
    + intros id kv Hkv. pose proof (c1_only id kv Hkv) as ->. by apply c1_in_sync.
    + intros id1 id2 kv1 kv2 Hne ->%c1_only ->%c1_only. done.
    + intros id1 id2 kv1 kv2 h Hne ->%c1_only ->%c1_only. done.
  - intros ep id ->%list_elem_of_singleton ->%list_elem_of_singleton. by eexists.
  - by apply list.NoDup_singleton.
  - intros ep ->%list_elem_of_singleton _ id ->%list_elem_of_singleton. by eexists.
Qed.

Lemma policies_reach_the_kernel_witness :
  ∃ dm be, after_policy = Ok dm ∧ enforcing ∅ sample_cfg dm be ∧
    ∃ ep, ep ∈ dm_EndPoints dm ∧ ep_SecurityPolicies ep = [identified_policy].
Proof.
  pose proof sample_applied_quietly as H. unfold applied_quietly in H.
  destruct after_policy as [dm|] eqn:E; [|discriminate H].
  destruct (bpf_of (dm_w dm)) as [be|] eqn:Eb; [|discriminate H].
  apply andb_true_iff in H as [Hl%bool_decide_eq_true Hp%bool_decide_eq_true].
  exists dm, be. split; [reflexivity|]. unfold after_policy in E. split.
  - exact (policies_reach_the_kernel (AO:=no_apparmor) (SO:=no_selinux) (ST:=no_store)
      ∅ audit_posture sample_NewMap (λ be, (be, None)) sample_NewMap_fresh
      (λ _, None) sample_config (λ _, Ok) (λ _, Ok) (λ _, Ok) (λ _, Ok) sample_cfg (λ _, None) addEvent KubeArmorPolicy
      identified_policy _ dm c1_enforcer be eq_refl eq_refl sample_enforcing E Eb Hl).
  - destruct (dm_EndPoints dm) as [|ep l]; [discriminate Hp|]. injection Hp as Hp _.
    exists ep. split; [by left|exact Hp].
Defined.

Lemma feeder_keeps_last_container_witness :
  ∃ dm l ep m, UpdateEndPointWithPod (B:=sample_backend) sample_cfg (λ _, None) name_of policy_of
      None addEvent sample_pod (sample_daemon [] sample_node) = Ok dm ∧
    dm_EndPoints dm = (l ++ [ep])%list ∧
    fd_SecurityPolicies (nd_Logger (dm_w dm)) !! "default_web" = Some m.
Proof.
  set (r := UpdateEndPointWithPod (B:=sample_backend) sample_cfg (λ _, None) name_of policy_of
      None addEvent sample_pod (sample_daemon [] sample_node)).
  assert (Hok : match r with Ok _ => true | Panic => false end = true)
    by (vm_compute; reflexivity).
  destruct r as [dm|] eqn:E; [|discriminate Hok].
  destruct (feeder_keeps_last_container (BO:=BPFEnforcer_ops ∅ audit_posture sample_NewMap
    (λ be, (be, None))) (AO:=no_apparmor) (SO:=no_selinux) (ST:=no_store) (λ _, None)
    sample_config (λ _, Ok) (λ _, Ok) (λ _, Ok) (λ _, Ok) sample_cfg (λ _, None) name_of policy_of
    None sample_pod _ dm eq_refl ltac:(discriminate) E) as (l & ep & m & He & _ & _ & Hm).
  exists dm, l, ep, m. split; [reflexivity|]. split; [exact He|exact Hm].
Defined.
