(* ===== verification/GoSlices.v ===== *)
(** Slices of Go over arrays that may be shared.

    A slice that is copied shares its array with the copy: assignments to elements and an
    [append] within the capacity are seen by both.  The arrays are a list; all slices of
    the modelled code start at the beginning of theirs. *)
From S2P Require Import Prelude.

Create HintDb slices.

(** [None] is the array of a slice without capacity. *)
Record Slice := { sl_arr : option nat; sl_len : nat }.
Definition nil_slice : Slice := {| sl_arr := None; sl_len := 0 |}.

Section slices.
Context {A : Type}.
Implicit Types (h : list (list A)) (s : Slice).

(** The array up to its capacity *)
Definition array h s : list A :=
  match sl_arr s with Some l => default [] (h !! l) | None => [] end.

(** What the slice reads as *)
Definition read h s : list A := take (sl_len s) (array h s).

Definition write h s (a : list A) : list (list A) :=
  match sl_arr s with Some l => <[l := a]> h | None => h end.

(** Assignments to elements, [f] at each *)
Definition slice_map (f : A → A) h s : list (list A) :=
  write h s ((f <$> read h s) ++ drop (sl_len s) (array h s)).

(** [append(s[:i], s[i+1:]...)]: the elements move down, the last one stays where it
    was. *)
Definition shifted (i n : nat) (a : list A) : list A :=
  take i a ++ drop (S i) (take n a) ++ drop (pred n) a.

Definition slice_cut (i : nat) h s : list (list A) * Slice :=
  (write h s (shifted i (sl_len s) (array h s)),
   {| sl_arr := sl_arr s; sl_len := pred (sl_len s) |}).

(** [append(s, v)]: in place if there is room, else in a new array, whose spare elements
    are [spare]. *)
Definition slice_append (v : A) (spare : list A) h s : list (list A) * Slice :=
  if bool_decide (sl_len s < List.length (array h s)) then
    (write h s (<[sl_len s := v]> (array h s)),
     {| sl_arr := sl_arr s; sl_len := S (sl_len s) |})
  else ((h ++ [read h s ++ v :: spare])%list,
        {| sl_arr := Some (List.length h); sl_len := S (sl_len s) |}).

(** A slice that can be: its array exists and is long enough. *)
Definition slice_wf h s : Prop :=
  match sl_arr s with
  | Some l => ∃ a, h !! l = Some a ∧ sl_len s ≤ List.length a
  | None => sl_len s = 0
  end.

(** Two slices that share no array *)
Definition apart s s' : Prop := ∀ l, sl_arr s = Some l → sl_arr s' ≠ Some l.

(** ** Facts *)

Lemma read_nil h : read h nil_slice = [].
Proof. done. Qed.

Lemma slice_wf_len h s : slice_wf h s → sl_len s ≤ List.length (array h s).
Proof.
  unfold slice_wf, array. destruct (sl_arr s) as [l|]; [|simpl; lia].
  intros (a & -> & Ha). done.
Qed.

Lemma length_read h s : slice_wf h s → List.length (read h s) = sl_len s.
Proof. intros Hw%slice_wf_len. unfold read. rewrite length_take. lia. Qed.

(** What is written through a slice is read through it, and not by one apart. *)
Lemma array_write h s a : slice_wf h s → (sl_arr s = None → a = []) → array (write h s a) s = a.
Proof.
  unfold slice_wf, array, write. destruct (sl_arr s) as [l|].
  - intros (b & Hb & _) _. rewrite list_lookup_insert_eq; [done|].
    apply lookup_lt_is_Some. eauto.
  - intros _ Ha. symmetry. auto.
Qed.

Lemma array_write_apart h s s' a : apart s s' → array (write h s a) s' = array h s'.
Proof.
  unfold apart, array, write. intros Hap. destruct (sl_arr s) as [l|], (sl_arr s') as [l'|]; try done.
  rewrite list_lookup_insert_ne; [done|]. intros ->. by apply (Hap l').
Qed.

Lemma write_wf h s s' a :
  slice_wf h s' → sl_len s' ≤ List.length a ∨ apart s s' → slice_wf (write h s a) s'.
Proof.
  unfold slice_wf, write, apart.
  destruct (sl_arr s) as [l|], (sl_arr s') as [l'|]; try done.
  intros (b & Hb & Hn) H. destruct (decide (l = l')) as [->|Hne].
  - exists a. rewrite list_lookup_insert_eq by (apply lookup_lt_is_Some; eauto).
    split; [done|]. destruct H as [?|H]; [done|]. by destruct (H l').
  - exists b. by rewrite list_lookup_insert_ne.
Qed.

Lemma apart_sym s s' : apart s s' → apart s' s.
Proof. unfold apart. intros H l Hl Hl'. by apply (H l). Qed.

Lemma array_None h s : sl_arr s = None → array h s = [].
Proof. unfold array. by intros ->. Qed.

Lemma read_map f h s : slice_wf h s → read (slice_map f h s) s = f <$> read h s.
Proof.
  intros Hw. pose proof (length_read h s Hw) as Hl. unfold slice_map, read at 1.
  rewrite array_write; [|done|].
  - rewrite take_app_le; [|rewrite length_fmap; lia].
    apply take_ge. rewrite length_fmap. lia.
  - intros Hn. unfold read. by rewrite (array_None h s Hn), take_nil, drop_nil.
Qed.

Lemma length_shifted i n (a : list A) :
  i < n → n ≤ List.length a → List.length (shifted i n a) = List.length a.
Proof.
  intros Hi Hn. unfold shifted. rewrite !length_app, !length_drop, !length_take. lia.
Qed.

Lemma take_shifted i n (a : list A) :
  i < n → n ≤ List.length a → take (pred n) (shifted i n a) = delete i (take n a).
Proof.
  intros Hi Hn. unfold shifted. rewrite app_assoc, take_app_length'.
  - rewrite delete_take_drop, take_take. by replace (i `min` n) with i by lia.
  - rewrite length_app, length_drop, !length_take. lia.
Qed.

Lemma read_cut i h s :
  slice_wf h s → i < sl_len s →
  read (slice_cut i h s).1 (slice_cut i h s).2 = delete i (read h s).
Proof.
  intros Hw Hi. unfold slice_cut, read at 1. simpl.
  change (array (write h s ?a) {| sl_arr := sl_arr s; sl_len := ?n |}) with (array (write h s a) s).
  pose proof (slice_wf_len h s Hw). rewrite array_write; [by apply take_shifted|done|].
  intros Hn. rewrite (array_None h s Hn) in *. simpl in *. lia.
Qed.

Lemma read_append v spare h s :
  slice_wf h s →
  read (slice_append v spare h s).1 (slice_append v spare h s).2 = (read h s ++ [v])%list.
Proof.
  intros Hw. pose proof (slice_wf_len h s Hw) as Hl. unfold slice_append.
  case_bool_decide as Hr; unfold read at 1; simpl.
  - change (array (write h s ?a) {| sl_arr := sl_arr s; sl_len := ?n |}) with (array (write h s a) s).
    rewrite array_write; [|done|].
    + rewrite (take_S_r _ _ v) by (apply list_lookup_insert_eq; lia).
      by rewrite take_insert_ge.
    + intros Hn. rewrite (array_None h s Hn) in Hr. simpl in Hr. lia.
  - unfold array at 1. simpl. rewrite list_lookup_middle by done. simpl.
    rewrite cons_middle, app_assoc, take_app_length'; [done|].
    rewrite length_app, length_read by done. simpl. lia.
Qed.

Lemma read_write_apart h s s' a : apart s s' → read (write h s a) s' = read h s'.
Proof. intros Hap. unfold read. by rewrite array_write_apart. Qed.

(** A new array is apart from every slice that can be. *)
Lemma slice_wf_lt h s l : slice_wf h s → sl_arr s = Some l → l < List.length h.
Proof.
  unfold slice_wf. intros Hw Hl. rewrite Hl in Hw. destruct Hw as (a & Ha & _).
  apply lookup_lt_is_Some. eauto.
Qed.

Lemma read_new h s' a : slice_wf h s' → read (h ++ [a]) s' = read h s'.
Proof.
  intros Hw. unfold read, array. destruct (sl_arr s') as [l|] eqn:E; [|done].
  rewrite lookup_app_l; [done|]. by apply (slice_wf_lt h s' l).
Qed.

Lemma slice_wf_new h s' a : slice_wf h s' → slice_wf (h ++ [a]) s'.
Proof.
  intros Hw. unfold slice_wf in *. destruct (sl_arr s') as [l|] eqn:E; [|done].
  destruct Hw as (b & Hb & Hn). exists b. split; [|done]. by apply lookup_app_l_Some.
Qed.

(** ** Changes through one slice

    What [h' s'] is after a change of [h s]: other slices neither see it nor come to
    share the array. *)
Record slice_change h s h' s' : Prop := {
  sc_wf : slice_wf h' s';
  sc_others t : slice_wf h t → apart s t →
    slice_wf h' t ∧ read h' t = read h t ∧ apart s' t }.

Lemma change_none h s : slice_wf h s → slice_change h s h s.
Proof. by split. Qed.

Lemma change_write h s a n :
  slice_wf h s → n ≤ List.length a → List.length a = List.length (array h s) →
  slice_change h s (write h s a) {| sl_arr := sl_arr s; sl_len := n |}.
Proof.
  intros Hw Hn Ha. split.
  - unfold slice_wf, write in *. simpl. destruct (sl_arr s) as [l|] eqn:E.
    + destruct Hw as (b & Hb & _). exists a. split; [|done].
      apply list_lookup_insert_eq, lookup_lt_is_Some. eauto.
    + rewrite (array_None h s E) in Ha. simpl in Ha. lia.
  - intros t Ht Hap. split; [apply write_wf; auto|].
    split; [by apply read_write_apart|done].
Qed.

Lemma change_map f h s : slice_wf h s → slice_change h s (slice_map f h s) s.
Proof.
  intros Hw. pose proof (slice_wf_len h s Hw). pose proof (length_read h s Hw).
  destruct s as [l n]. apply (change_write h {| sl_arr := l; sl_len := n |}); simpl in *; [done| |];
    rewrite length_app, length_fmap, length_drop; lia.
Qed.

Lemma change_cut i h s :
  slice_wf h s → i < sl_len s → slice_change h s (slice_cut i h s).1 (slice_cut i h s).2.
Proof.
  intros Hw Hi. pose proof (slice_wf_len h s Hw). apply change_write; [done| |];
    rewrite length_shifted; lia.
Qed.

Lemma change_append v spare h s :
  slice_wf h s →
  slice_change h s (slice_append v spare h s).1 (slice_append v spare h s).2.
Proof.
  intros Hw. pose proof (slice_wf_len h s Hw). unfold slice_append. case_bool_decide as Hr; simpl.
  - apply change_write; [done| |]; rewrite length_insert; lia.
  - split.
    + unfold slice_wf. simpl. exists (read h s ++ v :: spare)%list.
      split; [by apply list_lookup_middle|]. rewrite length_app, length_read by done. simpl. lia.
    + intros t Ht _. split; [by apply slice_wf_new|]. split; [by apply read_new|].
      intros l [= <-] Hl. apply (slice_wf_lt h t) in Hl; [lia|done].
Qed.

Lemma change_trans h s h1 s1 h2 s2 :
  slice_change h s h1 s1 → slice_change h1 s1 h2 s2 → slice_change h s h2 s2.
Proof.
  intros [Hw1 Ho1] [Hw2 Ho2]. split; [done|]. intros t Ht Hap.
  destruct (Ho1 t Ht Hap) as (Ht1 & Hr1 & Hap1). destruct (Ho2 t Ht1 Hap1) as (? & Hr2 & ?).
  by rewrite Hr2, Hr1.
Qed.

End slices.
#[export] Hint Resolve change_none change_map change_cut change_append : slices.
