(* ===== verification/Unorchestrated.v ===== *)
(** Containers without Kubernetes ([KubeArmor/core/unorchestratedUpdates.go]; the gRPC
    service of [KubeArmor/policy/policy.go]).

    Policies arrive one by one and carry labels; an endpoint is a container or, before
    there is one, the name of a container in a policy.  The handlers change [dm.EndPoints]
    while a loop ranges over it, and copies of an endpoint share the arrays of its policies
    and containers: the model keeps both arrays explicit (see [GoSlices]). *)
From Stdlib Require Import Ascii String.
From S2P Require Import Prelude GoStrings GoSlices Types Common NsMap PolicySpec Daemon Pods Posture.

Open Scope string_scope.

(** ** Endpoints in memory *)

(** An endpoint whose lists of policies and containers are slices; those of [st_point] are
    not used.  The flags say whether its maps are there: a [nil] map reads as empty. *)
Record Slot := {
  st_point : EndPoint; st_policies : Slice; st_containers : Slice;
  st_has_labels : bool; st_has_privileged : bool }.

Definition zero_Slot : Slot :=
  {| st_point := zero_EndPoint; st_policies := nil_slice; st_containers := nil_slice;
     st_has_labels := false; st_has_privileged := false |}.

Definition with_containers (l : list string) (ep : EndPoint) : EndPoint :=
  {| ep_NamespaceName := ep_NamespaceName ep; ep_EndPointName := ep_EndPointName ep;
     ep_ContainerName := ep_ContainerName ep; ep_Labels := ep_Labels ep;
     ep_Identities := ep_Identities ep; ep_Containers := l;
     ep_AppArmorProfiles := ep_AppArmorProfiles ep; ep_SELinuxProfiles := ep_SELinuxProfiles ep;
     ep_SecurityPolicies := ep_SecurityPolicies ep;
     ep_PrivilegedContainers := ep_PrivilegedContainers ep;
     ep_PolicyEnabled := ep_PolicyEnabled ep; ep_DefaultPosture := ep_DefaultPosture ep;
     ep_ProcessVisibilityEnabled := ep_ProcessVisibilityEnabled ep;
     ep_FileVisibilityEnabled := ep_FileVisibilityEnabled ep;
     ep_NetworkVisibilityEnabled := ep_NetworkVisibilityEnabled ep;
     ep_CapabilitiesVisibilityEnabled := ep_CapabilitiesVisibilityEnabled ep |}.

Section unorchestrated.
Context `{R : GoRange} {W : Type} `{B : !Backend W} (cfg : Settings).
Context (CompilePOSIX : string → option (string → bool)).
(** The spare elements that the runtime gives to an array that grows *)
Context (spare_policies : nat → list SecurityPolicy) (spare_containers : nat → list string).

(** [un_points] is the array of [dm.EndPoints], of which the first [un_len] slots are the
    slice; [un_dm] is the rest of the daemon. *)
Record Unorch := {
  un_dm : Daemon W;
  un_points : list Slot; un_len : nat;
  un_policies : list (list SecurityPolicy);     (* the arrays *)
  un_containers : list (list string) }.

Definition set_un_dm (dm : Daemon W) (u : Unorch) : Unorch :=
  {| un_dm := dm; un_points := un_points u; un_len := un_len u;
     un_policies := un_policies u; un_containers := un_containers u |}.
Definition set_un_points (l : list Slot) (n : nat) (u : Unorch) : Unorch :=
  {| un_dm := un_dm u; un_points := l; un_len := n;
     un_policies := un_policies u; un_containers := un_containers u |}.
Definition set_un_policies (h : list (list SecurityPolicy)) (u : Unorch) : Unorch :=
  {| un_dm := un_dm u; un_points := un_points u; un_len := un_len u;
     un_policies := h; un_containers := un_containers u |}.
Definition set_un_containers (h : list (list string)) (u : Unorch) : Unorch :=
  {| un_dm := un_dm u; un_points := un_points u; un_len := un_len u;
     un_policies := un_policies u; un_containers := h |}.

Definition un_call (f : W → Res W) (u : Unorch) : Res Unorch :=
  dm ← call f (un_dm u); Ok (set_un_dm dm u).

(** The endpoint in a slot *)
Definition point (u : Unorch) (s : Slot) : EndPoint :=
  with_containers (read (un_containers u) (st_containers s))
    (with_policies (read (un_policies u) (st_policies s)) (st_point s)).

(** [dm.EndPoints] *)
Definition points (u : Unorch) : list EndPoint := point u <$> take (un_len u) (un_points u).

(** [dm.EndPoints[i] = s] *)
Definition set_point (i : Z) (s : Slot) (u : Unorch) : Res Unorch :=
  if (0 <=? i)%Z && (i <? Z.of_nat (un_len u))%Z
  then Ok (set_un_points (<[Z.to_nat i := s]> (un_points u)) (un_len u) u) else Panic.

(** [dm.EndPoints = append(dm.EndPoints[:i], dm.EndPoints[i+1:]...)] *)
Definition remove_point (i : Z) (u : Unorch) : Res Unorch :=
  if (0 <=? i)%Z && (i <? Z.of_nat (un_len u))%Z
  then Ok (set_un_points (shifted (Z.to_nat i) (un_len u) (un_points u)) (Nat.pred (un_len u)) u)
  else Panic.

(** [dm.EndPoints = append(dm.EndPoints, s)]: nothing reads the slots behind the new one
    before they are written, so they are not kept. *)
Definition append_point (s : Slot) (u : Unorch) : Unorch :=
  set_un_points (take (un_len u) (un_points u) ++ [s])%list (S (un_len u)) u.

Definition set_policies (sl : Slice) (s : Slot) : Slot :=
  {| st_point := st_point s; st_policies := sl; st_containers := st_containers s;
     st_has_labels := st_has_labels s; st_has_privileged := st_has_privileged s |}.
Definition set_containers (sl : Slice) (s : Slot) : Slot :=
  {| st_point := st_point s; st_policies := st_policies s; st_containers := sl;
     st_has_labels := st_has_labels s; st_has_privileged := st_has_privileged s |}.
Definition set_slot_point (ep : EndPoint) (s : Slot) : Slot :=
  {| st_point := ep; st_policies := st_policies s; st_containers := st_containers s;
     st_has_labels := st_has_labels s; st_has_privileged := st_has_privileged s |}.

(** ** Enforcement: other than [notify], without a look at untracked namespaces *)

Definition enforce_container (ep : EndPoint) (w : W) : Res W :=
  w ← (if is_some (cf_RuntimeEnforcer cfg) then enforcer_UpdateSecurityPolicies ep w else Ok w);
  if cf_Presets cfg then presets_UpdateSecurityPolicies ep w else Ok w.

Definition notify_container (action : string) (ep : EndPoint) (w : W) : Res W :=
  if cf_Policy cfg then
    w ← logger_UpdateSecurityPolicies action ep w;
    if (ep_PolicyEnabled ep =? KubeArmorPolicyEnabled)%Z then enforce_container ep w else Ok w
  else Ok w.

(** What is done with the endpoint of a policy that is deleted: never conditional *)
Definition notify_deleted (ep : EndPoint) (w : W) : Res W :=
  w ← logger_UpdateSecurityPolicies deleteEvent ep w; enforce_container ep w.

(** ** handlePolicyEvent *)

Definition created_point (containername : string) (secPolicy : SecurityPolicy) (ep : EndPoint)
    : EndPoint :=
  {| ep_NamespaceName := meta "namespaceName" secPolicy; ep_EndPointName := containername;
     ep_ContainerName := containername; ep_Labels := ep_Labels ep;
     ep_Identities := sel_Identities (selector secPolicy);
     ep_Containers := ep_Containers ep;
     ep_AppArmorProfiles := ["kubearmor_" +:+ containername];
     ep_SELinuxProfiles := ep_SELinuxProfiles ep;
     ep_SecurityPolicies := ep_SecurityPolicies ep; ep_PrivilegedContainers := ∅;
     ep_PolicyEnabled := KubeArmorPolicyEnabled; ep_DefaultPosture := ep_DefaultPosture ep;
     ep_ProcessVisibilityEnabled := true; ep_FileVisibilityEnabled := true;
     ep_NetworkVisibilityEnabled := true; ep_CapabilitiesVisibilityEnabled := true |}.

(** The loop over the policies of the endpoint: the event becomes [MODIFIED] if one is
    overwritten. *)
Definition change_in_place (eventType : string) (secPolicy : SecurityPolicy) (s : Slot)
    (u : Unorch) : string * Slot * Unorch :=
  let h := un_policies u in
  let old := read h (st_policies s) in
  if String.eqb eventType deleteEvent then
    match list_find (λ q, same_policy secPolicy q = true) old with
    | Some (idx, _) =>
        let '(h, sl) := slice_cut idx h (st_policies s) in
        (eventType, set_policies sl s, set_un_policies h u)
    | None => (eventType, s, u)
    end
  else
    (if existsb (same_policy secPolicy) old then updateEvent else eventType, s,
     set_un_policies (slice_map (λ q, if same_policy secPolicy q then secPolicy else q)
                        h (st_policies s)) u).

(** The three branches *)
Definition policy_added (createEndPoint : bool) (containername : string)
    (secPolicy : SecurityPolicy) (s : Slot) (endpointIdx : Z) (u : Unorch) : Res Unorch :=
  u ← un_call (λ w, if is_some (cf_RuntimeEnforcer cfg)
                    then enforcer_UpdateAppArmorProfiles containername addEvent
                           {[containername := "kubearmor_" +:+ containername]} ∅ w
                    else Ok w) u;
  let '(h, sl) := slice_append secPolicy (spare_policies (sl_len (st_policies s)))
                    (un_policies u) (st_policies s) in
  let u := set_un_policies h u in let s := set_policies sl s in
  if createEndPoint then
    let s := {| st_point := created_point containername secPolicy (st_point s);
                st_policies := st_policies s; st_containers := nil_slice;
                st_has_labels := st_has_labels s; st_has_privileged := true |} in
    let u := append_point s u in
    un_call (notify_container addEvent (point u s)) u
  else
    u ← set_point endpointIdx s u; un_call (notify_container addEvent (point u s)) u.

Definition policy_modified (s : Slot) (endpointIdx : Z) (u : Unorch) : Res Unorch :=
  u ← set_point endpointIdx s u; un_call (notify_container updateEvent (point u s)) u.

Definition policy_deleted (s : Slot) (endpointIdx : Z) (u : Unorch) : Res (Unorch * Z) :=
  if (0 <=? endpointIdx)%Z then
    u ← set_point endpointIdx s u;
    u ← un_call (notify_deleted (point u s)) u;
    if bool_decide (sl_len (st_containers s) = 0 ∧ sl_len (st_policies s) = 0)%nat then
      u ← remove_point endpointIdx u; Ok (u, (endpointIdx - 1)%Z)
    else Ok (u, endpointIdx)
  else Ok (u, endpointIdx).

Definition handlePolicyEvent (eventType : string) (createEndPoint : bool)
    (secPolicy : SecurityPolicy) (newPoint : Slot) (endpointIdx : Z) (containername : string)
    (u : Unorch) : Res (Unorch * Z * PolicyStatus) :=
  let containername :=
    if String.eqb containername "" then ep_ContainerName (st_point newPoint)
    else containername in
  let newPoint :=
    set_slot_point (with_posture (dm_GlobalPosture (un_dm u)) (st_point newPoint)) newPoint in
  if negb (existsb (same_policy secPolicy) (read (un_policies u) (st_policies newPoint)))
     && String.eqb eventType deleteEvent then Ok (u, endpointIdx, NotExist)
  else
    let '(eventType, newPoint, u) := change_in_place eventType secPolicy newPoint u in
    if String.eqb eventType addEvent then
      u ← policy_added createEndPoint containername secPolicy newPoint endpointIdx u;
      Ok (u, endpointIdx, Applied)
    else if String.eqb eventType updateEvent then
      u ← policy_modified newPoint endpointIdx u; Ok (u, endpointIdx, Applied)
    else
      ui ← policy_deleted newPoint endpointIdx u; Ok (ui.1, ui.2, Applied).

(** ** The loop over the endpoints *)

(** State of the loop: [endPointIndex], [createEndPoint] and, once the handler has
    returned, its result *)
Record Walk := {
  wk_u : Unorch; wk_index : Z; wk_create : bool; wk_done : option PolicyStatus }.

(** The policy has changed its identities: an endpoint that it selected before loses it,
    and goes if it has nothing else.  The result is what [endPoint] is then. *)
Definition unmatched (secPolicy : SecurityPolicy) (idx policyIndex : nat) (endPoint : Slot)
    (index : Z) (u : Unorch) : Res (Unorch * Z * Slot) :=
  if bool_decide (sl_len (st_containers endPoint) = 0 ∧ sl_len (st_policies endPoint) = 1)%nat then
    u ← remove_point (Z.of_nat idx) u;
    u ← un_call (logger_UpdateSecurityPolicies deleteEvent (point u endPoint)) u;
    let '(h, sl) := slice_cut 0 (un_policies u) (st_policies endPoint) in
    let u := set_un_policies h u in
    u ← un_call (enforce_container (point u (set_policies sl endPoint))) u;
    Ok (u, (index - 1)%Z, zero_Slot)
  else if bool_decide (idx < un_len u)%nat then
    match un_points u !! idx with
    | None => Panic
    | Some s =>
        let '(h, sl) := slice_cut policyIndex (un_policies u) (st_policies s) in
        let s := set_policies sl s in
        let u := set_un_policies h (set_un_points (<[idx := s]> (un_points u)) (un_len u) u) in
        u ← un_call (notify_container updateEvent (point u s)) u;
        Ok (u, index, s)
    end
  else Panic.

Definition continues (status : PolicyStatus) : bool :=
  match status with Applied | Deleted | Modified => true | _ => false end.

(** One turn.  The slice that [range] goes over is the one at the start of the loop; its
    elements are read when they are reached. *)
Definition walk_step (eventType containername : string) (secPolicy : SecurityPolicy)
    (r : Res Walk) (idx : nat) : Res Walk :=
  wk ← r;
  match wk_done wk with
  | Some _ => Ok wk
  | None =>
      match un_points (wk_u wk) !! idx with
      | None => Panic
      | Some endPoint =>
          let u := wk_u wk in let index := (wk_index wk + 1)%Z in
          let ids := sel_Identities (selector secPolicy) in
          let matches s := MatchIdentities CompilePOSIX ids (ep_Identities (st_point s)) in
          uis ← match list_find (λ q, same_policy secPolicy q = true)
                        (read (un_policies u) (st_policies endPoint)) with
                | Some (policyIndex, _) =>
                    if matches endPoint then Ok (u, index, endPoint)
                    else unmatched secPolicy idx policyIndex endPoint index u
                | None => Ok (u, index, endPoint)
                end;
          let '(u, index, endPoint) := uis in
          if matches endPoint then
            r ← handlePolicyEvent eventType false secPolicy endPoint index containername u;
            let '(u, index, status) := r in
            Ok {| wk_u := u; wk_index := index; wk_create := false;
                  wk_done := if continues status then None else Some status |}
          else Ok {| wk_u := u; wk_index := index; wk_create := wk_create wk; wk_done := None |}
      end
  end.

Definition walk (eventType containername : string) (secPolicy : SecurityPolicy) (u : Unorch)
    : Res Walk :=
  foldl (walk_step eventType containername secPolicy)
    (Ok {| wk_u := u; wk_index := -1; wk_create := true; wk_done := None |})
    (seq 0 (un_len u)).

(** ** ParseAndUpdateContainerSecurityPolicy *)

Definition container_namespace : string := "container_namespace".

(** Why a policy is refused: no labels, the container's name next to other labels, no
    name of a container with AppArmor, or a name that is no regular expression *)
Definition container_name_of (labels : gmap string string) : option string :=
  if bool_decide (labels = ∅) then None
  else match labels !! container_name_key with
       | Some v =>
           if bool_decide (1 < size labels)%nat then None
           else match CompilePOSIX v with Some _ => Some v | None => None end
       | None =>
           if bool_decide (cf_RuntimeEnforcer cfg = Some "AppArmor") then None else Some ""
       end.

Definition with_identities (ids : list string) (sel : SelectorType) : SelectorType :=
  {| sel_MatchLabels := sel_MatchLabels sel; sel_MatchExpressions := sel_MatchExpressions sel;
     sel_Containers := sel_Containers sel; sel_Identities := ids;
     sel_MatchExpIdentities := sel_MatchExpIdentities sel;
     sel_NonIdentities := sel_NonIdentities sel; sel_NamespaceList := sel_NamespaceList sel |}.

Definition container_identities (labels : gmap string string) : list string :=
  sort_strings (label "namespaceName" container_namespace
                :: ((λ kv, label kv.1 kv.2) <$> go_range labels)).

(** The policy of a request *)
Definition container_policy (name : string) (s : SecuritySpec) : SecurityPolicy :=
  {| sp_Metadata := policy_metadata container_namespace name;
     sp_Spec := fill_container_spec
       (with_selector (with_identities (container_identities (sel_MatchLabels (ss_Selector s)))
                         (ss_Selector s)) s) |}.

(** The store of policies; [MODIFIED] leaves it. *)
Definition store_container_policy (eventType : string) (secPolicy : SecurityPolicy)
    (l : list SecurityPolicy) : list SecurityPolicy :=
  if String.eqb eventType addEvent then
    if existsb (same_policy secPolicy) l then replace_first (same_policy secPolicy) secPolicy l
    else (l ++ [secPolicy])%list
  else if String.eqb eventType deleteEvent then remove_first (same_policy secPolicy) l
  else l.

(** Backups, where the daemon runs without Kubernetes *)
Definition back_up (eventType : string) (secPolicy : SecurityPolicy) (w : W) : Res W :=
  if negb (cf_K8sEnv cfg) && (cf_KVMAgent cfg || cf_Policy cfg) then
    if String.eqb eventType addEvent || String.eqb eventType updateEvent
    then backup_ContainerPolicy secPolicy w
    else if String.eqb eventType deleteEvent
    then remove_BackUpPolicy (meta "policyName" secPolicy) w else Ok w
  else Ok w.

Definition apply_container_policy (eventType containername : string)
    (secPolicy : SecurityPolicy) (u : Unorch) : Res (Unorch * PolicyStatus) :=
  let u := set_un_dm (set_SecurityPolicies
             (store_container_policy eventType secPolicy (dm_SecurityPolicies (un_dm u)))
             (un_dm u)) u in
  wk ← walk eventType containername secPolicy u;
  match wk_done wk with
  | Some status => Ok (wk_u wk, status)
  | None =>
      r ← (if wk_create wk
           then handlePolicyEvent eventType true secPolicy zero_Slot (wk_index wk)
                  containername (wk_u wk)
           else Ok (wk_u wk, wk_index wk, Applied));
      let '(u, _, status) := r in
      if continues status then
        u ← un_call (back_up eventType secPolicy) u;
        Ok (u, if String.eqb eventType addEvent then Applied
               else if String.eqb eventType deleteEvent then Deleted else Modified)
      else Ok (u, status)
  end.

Context {RawSpec : Type} (Marshal : RawSpec → string)
        (Unmarshal : string → option SecuritySpec).

Definition ParseAndUpdateContainerSecurityPolicy (eventType name : string) (spec : RawSpec)
    (u : Unorch) : Res (Unorch * PolicyStatus) :=
  match Clone Marshal Unmarshal spec with
  | None => Ok (u, Failure)
  | Some s =>
      match container_name_of (sel_MatchLabels (ss_Selector s)) with
      | None => Ok (u, Invalid)
      | Some containername =>
          apply_container_policy eventType containername (container_policy name s) u
      end
  end.

(** ** Containers that come and go *)

Definition in_endpoint (ep : EndPoint) (c : Container) : Container :=
  {| c_ContainerID := c_ContainerID c; c_ContainerName := c_ContainerName c;
     c_ContainerImage := c_ContainerImage c; c_NamespaceName := ep_NamespaceName ep;
     c_Owner := c_Owner c; c_EndPointName := ep_EndPointName ep; c_Labels := c_Labels c;
     c_AppArmorProfile := c_AppArmorProfile c; c_Privileged := c_Privileged c;
     c_PidNS := c_PidNS c; c_MntNS := c_MntNS c; c_Pid := c_Pid c;
     c_NodeName := c_NodeName c; c_NodeID := c_NodeID c; c_ProtocolPort := c_ProtocolPort c;
     c_Status := c_Status c; c_ContainerIP := c_ContainerIP c;
     c_LastUpdatedAt := c_LastUpdatedAt c; c_PolicyEnabled := c_PolicyEnabled c;
     c_ProcessVisibilityEnabled := c_ProcessVisibilityEnabled c;
     c_FileVisibilityEnabled := c_FileVisibilityEnabled c;
     c_NetworkVisibilityEnabled := c_NetworkVisibilityEnabled c;
     c_CapabilitiesVisibilityEnabled := c_CapabilitiesVisibilityEnabled c |}.

Definition container_of (cid : string) (u : Unorch) : Container :=
  default zero_Container (dm_Containers (un_dm u) !! cid).

(** Whether the container belongs to the endpoint *)
Definition owns (c : Container) (ep : EndPoint) : bool :=
  String.eqb (ep_EndPointName ep) (c_ContainerName c)
  || MatchIdentities CompilePOSIX (ep_Identities ep) (GetLabelsFromString (c_Labels c)).2.

Definition container_added (cid : string) (labels : string) (r : Res Unorch) (idx : nat)
    : Res Unorch :=
  u ← r;
  match un_points u !! idx with
  | None => Panic
  | Some s =>
      let c := container_of cid u in
      if String.eqb (ep_EndPointName (st_point s)) (c_ContainerName c)
         || MatchIdentities CompilePOSIX (ep_Identities (st_point s))
              (GetLabelsFromString labels).2 then
        let '(h, sl) := slice_append cid (spare_containers (sl_len (st_containers s)))
                          (un_containers u) (st_containers s) in
        let s := set_containers sl s in
        u ← set_point (Z.of_nat idx) s (set_un_containers h u);
        let u := set_un_dm (Pods.set_Containers
                   (<[cid := in_endpoint (st_point s) c]> (dm_Containers (un_dm u)))
                   (un_dm u)) u in
        un_call (notify_container updateEvent (point u s)) u
      else Ok u
  end.

Definition MatchandUpdateContainerSecurityPolicies (cid : string) (u : Unorch) : Res Unorch :=
  foldl (container_added cid (c_Labels (container_of cid u))) (Ok u) (seq 0 (un_len u)).

Definition container_removed (cid : string) (c : Container) (r : Res Unorch) (idx : nat)
    : Res Unorch :=
  u ← r;
  match un_points u !! idx with
  | None => Panic
  | Some s =>
      if owns c (st_point s) then
        match list_find (λ c', c' = cid) (read (un_containers u) (st_containers s)) with
        | Some (i, _) =>
            let '(h, sl) := slice_cut i (un_containers u) (st_containers s) in
            set_point (Z.of_nat idx) (set_containers sl s) (set_un_containers h u)
        | None => set_point (Z.of_nat idx) s u
        end
      else set_point (Z.of_nat idx) s u
  end.

Definition MatchandRemoveContainerFromEndpoint (cid : string) (u : Unorch) : Res Unorch :=
  foldl (container_removed cid (container_of cid u)) (Ok u) (seq 0 (un_len u)).

End unorchestrated.
Arguments Unorch : clear implicits.
Arguments Walk : clear implicits.
