(* ===== verification/UnorchestratedProps.v ===== *)
(** Policies of containers without Kubernetes: what a policy does to the endpoints, where
    the loop over them goes wrong, and that copies of endpoints stay apart. *)
From Stdlib Require Import Ascii String.
From S2P Require Import Prelude GoStrings GoSlices Types Common NsMap PolicySpec Daemon DaemonProps Pods Posture Unorchestrated.

Open Scope string_scope.
Open Scope nat_scope.

Section props.
Context `{R : GoRange} {W : Type} `{B : !Backend W} (cfg : Settings).
Context (CompilePOSIX : string → option (string → bool)).
Context (spare_policies : nat → list SecurityPolicy).
Implicit Types (u : Unorch W) (s : Slot) (p : SecurityPolicy).

Local Abbreviation handle := (handlePolicyEvent cfg spare_policies).
Local Abbreviation step := (walk_step cfg CompilePOSIX spare_policies).
Local Abbreviation apply_policy := (apply_container_policy cfg CompilePOSIX spare_policies).

(** Whether a policy selects an endpoint and whether it is there *)
Definition hits p (ep : EndPoint) : bool :=
  MatchIdentities CompilePOSIX (sel_Identities (selector p)) (ep_Identities ep).
Definition holds p (ep : EndPoint) : bool := existsb (same_policy p) (ep_SecurityPolicies ep).

(** ** The specification: one endpoint at a time *)

Definition changed (eventType : string) p (l : list SecurityPolicy) : list SecurityPolicy :=
  if existsb (same_policy p) l then (λ q, if same_policy p q then p else q) <$> l
  else if String.eqb eventType addEvent then (l ++ [p])%list else l.

Definition point_spec (eventType : string) (dp : DefaultPosture) p (ep : EndPoint) : EndPoint :=
  if hits p ep
  then with_posture dp (with_policies (changed eventType p (ep_SecurityPolicies ep)) ep)
  else with_policies (remove_first (same_policy p) (ep_SecurityPolicies ep)) ep.

Definition created (containername : string) (dp : DefaultPosture) p : EndPoint :=
  with_policies [p] (with_containers []
    (created_point containername p (with_posture dp zero_EndPoint))).

(** ** Slots that share nothing *)

Record separate u : Prop := {
  sep_len : un_len u ≤ List.length (un_points u);
  sep_wf i s : i < un_len u → un_points u !! i = Some s →
    slice_wf (un_policies u) (st_policies s) ∧ slice_wf (un_containers u) (st_containers s);
  sep_apart i j s t : i < un_len u → j < un_len u → i ≠ j →
    un_points u !! i = Some s → un_points u !! j = Some t →
    apart (st_policies s) (st_policies t) ∧ apart (st_containers s) (st_containers t) }.

(** What calls of other components leave *)
Definition same_points u u' : Prop :=
  un_points u' = un_points u ∧ un_len u' = un_len u ∧ un_policies u' = un_policies u
  ∧ un_containers u' = un_containers u
  ∧ dm_GlobalPosture (un_dm u') = dm_GlobalPosture (un_dm u)
  ∧ dm_SecurityPolicies (un_dm u') = dm_SecurityPolicies (un_dm u)
  ∧ dm_Containers (un_dm u') = dm_Containers (un_dm u).

Lemma un_call_frame f u u' : un_call f u = Ok u' → same_points u u'.
Proof.
  intros H. unfold un_call in H. go_res H. injection H as <-. unfold call in Ha.
  go_res Ha. injection Ha as <-. done.
Qed.

Lemma same_points_refl u : same_points u u.
Proof. done. Qed.

Lemma same_points_trans u1 u2 u3 : same_points u1 u2 → same_points u2 u3 → same_points u1 u3.
Proof. unfold same_points. intuition congruence. Qed.

Lemma same_points_point u u' s : same_points u u' → point u' s = point u s.
Proof. intros (_ & _ & Hp & Hc & _). unfold point. by rewrite Hp, Hc. Qed.

Lemma same_points_points u u' : same_points u u' → points u' = points u.
Proof.
  intros H. unfold points. pose proof H as (-> & -> & _). apply list_fmap_ext.
  intros i s _. by apply same_points_point.
Qed.

Lemma same_points_separate u u' : same_points u u' → separate u → separate u'.
Proof.
  intros (Hp & Hn & Hpol & Hc & _) [? ? ?]. split; rewrite ?Hp, ?Hn, ?Hpol, ?Hc; auto.
Qed.

Lemma points_lookup u i :
  points u !! i = if decide (i < un_len u) then point u <$> un_points u !! i else None.
Proof.
  unfold points. rewrite list_lookup_fmap. case_decide.
  - by rewrite lookup_take_lt.
  - by rewrite lookup_take_ge by lia.
Qed.

Lemma length_points u : separate u → List.length (points u) = un_len u.
Proof.
  intros [Hl _ _]. unfold points. rewrite length_fmap, length_take. lia.
Qed.

(** ** A change of one slot *)

Definition change_both (i : nat) s' (h : list (list SecurityPolicy)) (hc : list (list string)) u
    : Unorch W :=
  set_un_containers hc (set_un_policies h
    (set_un_points (<[i := s']> (un_points u)) (un_len u) u)).

(** The slots other than the changed one, in the changed memory *)
Definition others_stay (i : nat) s' (h : list (list SecurityPolicy)) (hc : list (list string)) u
    : Prop :=
  ∀ j t, j < un_len u → i ≠ j → un_points u !! j = Some t →
    slice_wf h (st_policies t) ∧ slice_wf hc (st_containers t)
    ∧ read h (st_policies t) = read (un_policies u) (st_policies t)
    ∧ read hc (st_containers t) = read (un_containers u) (st_containers t)
    ∧ apart (st_policies s') (st_policies t) ∧ apart (st_containers s') (st_containers t).

Lemma change_both_others i s s' h hc u :
  separate u → i < un_len u → un_points u !! i = Some s →
  slice_change (un_policies u) (st_policies s) h (st_policies s') →
  slice_change (un_containers u) (st_containers s) hc (st_containers s') →
  others_stay i s' h hc u.
Proof.
  intros Hsep Hi Hs [_ Ho] [_ Hoc] j t Hj Hij Ht.
  destruct (sep_wf u Hsep j t Hj Ht) as [Hw Hwc].
  destruct (sep_apart u Hsep i j s t) as [Hap Hapc]; [done..|].
  destruct (Ho _ Hw Hap) as (? & ? & ?). by destruct (Hoc _ Hwc Hapc) as (? & ? & ?).
Qed.

Lemma change_both_separate i s s' h hc u :
  separate u → i < un_len u → un_points u !! i = Some s →
  slice_change (un_policies u) (st_policies s) h (st_policies s') →
  slice_change (un_containers u) (st_containers s) hc (st_containers s') →
  separate (change_both i s' h hc u).
Proof.
  intros Hsep Hi Hs Hc Hcc. pose proof (sep_len u Hsep) as Hlen.
  pose proof (change_both_others i s s' h hc u Hsep Hi Hs Hc Hcc) as Hoth.
  split; simpl.
  - by rewrite length_insert.
  - intros j t Hj Ht. destruct (decide (i = j)) as [<-|Hij].
    + rewrite list_lookup_insert_eq in Ht by lia. injection Ht as <-.
      split; [apply Hc|apply Hcc].
    + rewrite list_lookup_insert_ne in Ht by done. by destruct (Hoth j t) as (? & ? & _).
  - intros j k t t' Hj Hk Hjk Ht Ht'.
    destruct (decide (i = j)) as [<-|Hij]; [|destruct (decide (i = k)) as [<-|Hik]].
    + rewrite list_lookup_insert_eq in Ht by lia. injection Ht as <-.
      rewrite list_lookup_insert_ne in Ht' by done. by destruct (Hoth k t') as (_ & _ & _ & _ & ?).
    + rewrite list_lookup_insert_eq in Ht' by lia. injection Ht' as <-.
      rewrite list_lookup_insert_ne in Ht by done.
      destruct (Hoth j t) as (_ & _ & _ & _ & ? & ?); [done..|]. by split; apply apart_sym.
    + rewrite list_lookup_insert_ne in Ht by done. rewrite list_lookup_insert_ne in Ht' by done.
      by apply (sep_apart u Hsep j k).
Qed.

Lemma change_both_points i s s' h hc u :
  separate u → i < un_len u → un_points u !! i = Some s →
  slice_change (un_policies u) (st_policies s) h (st_policies s') →
  slice_change (un_containers u) (st_containers s) hc (st_containers s') →
  points (change_both i s' h hc u) = <[i := point (change_both i s' h hc u) s']> (points u).
Proof.
  intros Hsep Hi Hs Hc Hcc. pose proof (sep_len u Hsep) as Hlen.
  pose proof (change_both_others i s s' h hc u Hsep Hi Hs Hc Hcc) as Hoth.
  apply list_eq. intros j. rewrite points_lookup.
  change (un_points (change_both i s' h hc u)) with (<[i := s']> (un_points u)).
  change (un_len (change_both i s' h hc u)) with (un_len u).
  destruct (decide (i = j)) as [<-|Hij].
  - rewrite decide_True, !list_lookup_insert_eq by (rewrite ?length_points by done; lia). done.
  - rewrite !list_lookup_insert_ne by done. rewrite points_lookup. case_decide; [|done].
    destruct (un_points u !! j) as [t|] eqn:Ht; [|done]. simpl. unfold point.
    change (un_policies (change_both i s' h hc u)) with h.
    change (un_containers (change_both i s' h hc u)) with hc.
    by destruct (Hoth j t) as (_ & _ & -> & -> & _).
Qed.

Definition change_slot (i : nat) s' (h : list (list SecurityPolicy)) u : Unorch W :=
  set_un_policies h (set_un_points (<[i := s']> (un_points u)) (un_len u) u).

Lemma change_slot_points i s s' h u :
  separate u → i < un_len u → un_points u !! i = Some s →
  st_containers s' = st_containers s →
  slice_change (un_policies u) (st_policies s) h (st_policies s') →
  points (change_slot i s' h u) = <[i := point (change_slot i s' h u) s']> (points u)
  ∧ separate (change_slot i s' h u).
Proof.
  intros Hsep Hi Hs Hcc Hc.
  assert (Hcn : slice_change (un_containers u) (st_containers s) (un_containers u)
                  (st_containers s')).
  { rewrite Hcc. apply change_none, (sep_wf u Hsep i s Hi Hs). }
  split; [by apply (change_both_points i s s' h (un_containers u))|].
  by apply (change_both_separate i s s' h (un_containers u)).
Qed.

(** A slot may also be overwritten by one that shares slices with others. *)
Lemma overwrite_points i s u :
  separate u → i < un_len u →
  points (change_slot i s (un_policies u) u) = <[i := point u s]> (points u).
Proof.
  intros Hsep Hi. pose proof (sep_len u Hsep) as Hlen. apply list_eq. intros j.
  rewrite points_lookup.
  change (un_points (change_slot i s (un_policies u) u)) with (<[i := s]> (un_points u)).
  change (un_len (change_slot i s (un_policies u) u)) with (un_len u).
  destruct (decide (i = j)) as [<-|Hij].
  - rewrite decide_True, !list_lookup_insert_eq by (rewrite ?length_points by done; lia). done.
  - by rewrite !list_lookup_insert_ne, points_lookup by done.
Qed.

(** ** Calls that return *)

Class CallsReturn : Prop := {
  ret_log : ∀ action ep w, ∃ w', logger_UpdateSecurityPolicies action ep w = Ok w';
  ret_enforce : ∀ ep w, ∃ w', enforcer_UpdateSecurityPolicies ep w = Ok w';
  ret_presets : ∀ ep w, ∃ w', presets_UpdateSecurityPolicies ep w = Ok w';
  ret_apparmor : ∀ pod action m prof w,
    ∃ w', enforcer_UpdateAppArmorProfiles pod action m prof w = Ok w';
  ret_backup : ∀ p w, ∃ w', backup_ContainerPolicy p w = Ok w';
  ret_remove : ∀ name w, ∃ w', remove_BackUpPolicy name w = Ok w' }.

Section total.
Context `{CR : !CallsReturn}.

Lemma un_call_total f u :
  (∀ w, ∃ w', f w = Ok w') → ∃ u', un_call f u = Ok u' ∧ same_points u u'.
Proof.
  intros Hf. destruct (Hf (dm_w (un_dm u))) as [w' Hw].
  exists (set_un_dm (set_dm_w w' (un_dm u)) u). split; [|done].
  unfold un_call, call. by rewrite Hw.
Qed.

Lemma enforce_container_total ep w : ∃ w', enforce_container cfg ep w = Ok w'.
Proof.
  unfold enforce_container. destruct (is_some _).
  - destruct (ret_enforce ep w) as [w1 ->]. cbn [mbind Res_bind].
    destruct (cf_Presets cfg); [apply ret_presets|eauto].
  - cbn [mbind Res_bind]. destruct (cf_Presets cfg); [apply ret_presets|eauto].
Qed.

Lemma notify_container_total action ep w : ∃ w', notify_container cfg action ep w = Ok w'.
Proof.
  unfold notify_container. destruct (cf_Policy cfg); [|eauto].
  destruct (ret_log action ep w) as [w1 ->]. cbn [mbind Res_bind].
  case_bool; [apply enforce_container_total|eauto].
Qed.

Lemma notify_deleted_total ep w : ∃ w', notify_deleted cfg ep w = Ok w'.
Proof.
  unfold notify_deleted. destruct (ret_log deleteEvent ep w) as [w1 ->].
  apply enforce_container_total.
Qed.

Lemma back_up_total ev p w : ∃ w', back_up cfg ev p w = Ok w'.
Proof.
  unfold back_up. repeat case_bool; eauto using ret_backup, ret_remove.
Qed.

(** ** One endpoint *)

(** A slot after its policies have changed to [l] and its other fields to [ep] *)
Record slot_result (ep : EndPoint) (l : list SecurityPolicy) u s s'
    (h : list (list SecurityPolicy)) : Prop := {
  sr_change : slice_change (un_policies u) (st_policies s) h (st_policies s');
  sr_read : read h (st_policies s') = l;
  sr_containers : st_containers s' = st_containers s;
  sr_point : st_point s' = ep }.

Lemma slot_result_points ep l u s s' h i u' :
  separate u → i < un_len u → un_points u !! i = Some s →
  slot_result ep l u s s' h → same_points (change_slot i s' h u) u' →
  points u' = <[i := with_containers (ep_Containers (point u s)) (with_policies l ep)]> (points u)
  ∧ separate u'.
Proof.
  intros Hsep Hi Hs [Hc Hr Hcc Hp] Hsame.
  destruct (change_slot_points i s s' h u) as [Hpts Hsep']; [done..|].
  rewrite (same_points_points _ _ Hsame), Hpts. split; [|by eapply same_points_separate].
  f_equal. unfold point. simpl. by rewrite Hr, Hcc, Hp.
Qed.

Lemma map_none p l :
  existsb (same_policy p) l = false → (λ q, if same_policy p q then p else q) <$> l = l.
Proof.
  induction l as [|q l IH]; [done|]. simpl. intros [Hq Hl]%orb_false_iff.
  rewrite Hq. f_equal. auto.
Qed.

Lemma set_point_slot i s h u :
  i < un_len u → set_point (Z.of_nat i) s (set_un_policies h u) = Ok (change_slot i s h u).
Proof.
  intros Hi. unfold set_point. cbn [un_len set_un_policies].
  rewrite (proj2 (Z.leb_le 0 (Z.of_nat i))), (proj2 (Z.ltb_lt _ _)) by lia.
  simpl. by rewrite Nat2Z.id.
Qed.

(** The two ends of the handler for an endpoint that is there, with its slot's policies
    changed in place to [h] *)
Lemma added_slot cn p ep u i s h :
  i < un_len u → un_points u !! i = Some s →
  slice_change (un_policies u) (st_policies s) h (st_policies s) →
  ∃ u' h' sl,
    policy_added cfg spare_policies false cn p (set_slot_point ep s) (Z.of_nat i) (set_un_policies h u)
      = Ok u'
  ∧ same_points (change_slot i (set_policies sl (set_slot_point ep s)) h' u) u'
  ∧ read h' sl = (read h (st_policies s) ++ [p])%list
  ∧ slice_change (un_policies u) (st_policies s) h' sl.
Proof.
  intros Hi Hs Hc1. unfold policy_added.
  edestruct (un_call_total) as (u1 & -> & Hsame1);
    [intros w; case_bool; [apply ret_apparmor|eauto]|].
  cbn [mbind Res_bind].
  pose proof Hsame1 as (Hp1 & Hn1 & Hh1 & Hcc1 & Hrest1).
  cbn [un_policies set_un_policies] in Hh1. rewrite Hh1. cbn [st_policies set_slot_point].
  set (spare := spare_policies _).
  pose proof (read_append p spare h (st_policies s) (sc_wf _ _ _ _ Hc1)) as Hr2.
  pose proof (change_append p spare h (st_policies s) (sc_wf _ _ _ _ Hc1)) as Hc2.
  destruct (slice_append _ _ _ _) as [h2 sl]. cbn [fst snd] in Hr2, Hc2.
  rewrite set_point_slot by (by rewrite Hn1). cbn [mbind Res_bind].
  edestruct (un_call_total) as (u' & -> & Hsame); [intros w; apply notify_container_total|].
  exists u', h2, sl. split; [done|]. split; [|by split; [|eapply change_trans]].
  destruct Hsame as (Hp & Hn & Hh & Hcc & Hrest). simpl in *.
  unfold same_points. simpl. rewrite Hp, Hn, Hh, Hcc, Hp1, Hn1, Hcc1. intuition congruence.
Qed.

Lemma modified_slot s i h u :
  i < un_len u →
  ∃ u', policy_modified cfg s (Z.of_nat i) (set_un_policies h u) = Ok u'
  ∧ same_points (change_slot i s h u) u'.
Proof.
  intros Hi. unfold policy_modified. rewrite set_point_slot by done. cbn [mbind Res_bind].
  apply un_call_total. intros w. apply notify_container_total.
Qed.

Lemma handle_updates ev cn p s i u :
  separate u → i < un_len u → un_points u !! i = Some s → ev ∈ [addEvent; updateEvent] →
  ∃ u', handle ev false p s (Z.of_nat i) cn u = Ok (u', Z.of_nat i, Applied)
  ∧ un_len u' = un_len u ∧ dm_GlobalPosture (un_dm u') = dm_GlobalPosture (un_dm u)
  ∧ points u' = <[i := with_posture (dm_GlobalPosture (un_dm u))
                    (with_policies (changed ev p (ep_SecurityPolicies (point u s))) (point u s))]>
                  (points u)
  ∧ separate u'.
Proof.
  intros Hsep Hi Hs Hev. destruct (sep_wf u Hsep i s Hi Hs) as [Hw _].
  assert (Hnd : String.eqb ev deleteEvent = false).
  { apply list_elem_of_In in Hev. by destruct Hev as [<-|[<-|[]]]. }
  unfold handlePolicyEvent, change_in_place. cbv zeta. rewrite Hnd, andb_false_r.
  change (ep_SecurityPolicies (point u s)) with (read (un_policies u) (st_policies s)).
  cbn [st_policies set_slot_point]. unfold changed.
  set (h1 := slice_map _ _ _). set (ep1 := with_posture (dm_GlobalPosture (un_dm u)) (st_point s)).
  assert (Hc1 : slice_change (un_policies u) (st_policies s) h1 (st_policies s))
    by (by apply change_map).
  assert (Hr1 : read h1 (st_policies s) = (λ q, if same_policy p q then p else q)
                                            <$> read (un_policies u) (st_policies s))
    by (by apply read_map).
  set (old := read (un_policies u) (st_policies s)) in *.
  (* the slot that results, whichever way *)
  assert (Hdone : ∀ u' h' s' l, slot_result ep1 l u s s' h' → same_points (change_slot i s' h' u) u' →
    un_len u' = un_len u ∧ dm_GlobalPosture (un_dm u') = dm_GlobalPosture (un_dm u)
    ∧ points u' = <[i := with_posture (dm_GlobalPosture (un_dm u)) (with_policies l (point u s))]> (points u)
    ∧ separate u').
  { intros u' h' s' l Hr Hsame. pose proof Hsame as (_ & -> & _ & _ & -> & _).
    split; [done|]. split; [done|]. by eapply (slot_result_points ep1). }
  destruct (existsb (same_policy p) old) eqn:Hex.
  - destruct (modified_slot (set_slot_point ep1 s) i h1 u Hi) as (u' & Hu & Hsame).
    change (String.eqb updateEvent addEvent) with false. rewrite String.eqb_refl, Hu.
    exists u'. split; [done|]. eapply Hdone; [|exact Hsame]. split; [exact Hc1|exact Hr1|done|done].
  - rewrite (map_none _ _ Hex) in Hr1. apply list_elem_of_In in Hev. destruct Hev as [<-|[<-|[]]].
    + destruct (added_slot (if String.eqb cn "" then ep_ContainerName ep1 else cn) p ep1 u i s h1 Hi Hs Hc1)
        as (u' & h' & sl & Hu & Hsame & Hr & Hc).
      rewrite String.eqb_refl.
      change (ep_ContainerName (st_point s)) with (ep_ContainerName ep1). rewrite Hu.
      exists u'. split; [done|]. eapply Hdone; [|exact Hsame].
      split; [done| |done|done]. simpl. by rewrite Hr, Hr1.
    + destruct (modified_slot (set_slot_point ep1 s) i h1 u Hi) as (u' & Hu & Hsame).
      change (String.eqb updateEvent addEvent) with false. rewrite String.eqb_refl, Hu.
      exists u'. split; [done|]. eapply Hdone; [|exact Hsame]. split; [exact Hc1|exact Hr1|done|done].
Qed.

Lemma remove_first_delete (same : SecurityPolicy → bool) l j q :
  list_find (λ q, same q = true) l = Some (j, q) → delete j l = remove_first same l.
Proof.
  revert j. induction l as [|x l IH]; intros j; [done|]. simpl.
  destruct (decide (same x = true)) as [Hx|Hx].
  - intros [= <- <-]. by rewrite Hx.
  - apply not_true_is_false in Hx. rewrite Hx.
    destruct (list_find _ l) as [[k y]|]; [|done]. intros [= <- <-]. simpl. f_equal. by apply IH.
Qed.

Lemma remove_first_kept (same : SecurityPolicy → bool) l :
  list_find (λ q, same q = true) l = None → remove_first same l = l.
Proof.
  induction l as [|x l IH]; [done|]. simpl. destruct (decide (same x = true)) as [Hx|Hx]; [done|].
  apply not_true_is_false in Hx. rewrite Hx. destruct (list_find _ l) as [[k y]|]; [done|].
  intros _. f_equal. by apply IH.
Qed.

(** An endpoint that a policy does not select, and that has more than it *)
Lemma unmatched_updates p i j q s index u :
  separate u → i < un_len u → un_points u !! i = Some s →
  list_find (λ q, same_policy p q = true) (ep_SecurityPolicies (point u s)) = Some (j, q) →
  ¬ (ep_Containers (point u s) = [] ∧ List.length (ep_SecurityPolicies (point u s)) = 1) →
  ∃ u' s', unmatched cfg p i j s index u = Ok (u', index, s')
  ∧ st_point s' = st_point s
  ∧ un_len u' = un_len u ∧ dm_GlobalPosture (un_dm u') = dm_GlobalPosture (un_dm u)
  ∧ points u' = <[i := with_policies (remove_first (same_policy p)
                         (ep_SecurityPolicies (point u s))) (point u s)]> (points u)
  ∧ separate u'.
Proof.
  intros Hsep Hi Hs Hj Hkeep. destruct (sep_wf u Hsep i s Hi Hs) as [Hw Hwc].
  rewrite <- (remove_first_delete _ _ _ _ Hj).
  change (ep_SecurityPolicies (point u s)) with (read (un_policies u) (st_policies s)) in *.
  change (ep_Containers (point u s)) with (read (un_containers u) (st_containers s)) in *.
  rewrite length_read in Hkeep by done.
  assert (Hjl : j < sl_len (st_policies s)).
  { rewrite <- (length_read _ _ Hw). apply list_find_Some in Hj as (Hj & _).
    by apply lookup_lt_is_Some. }
  unfold unmatched. rewrite bool_decide_eq_false_2, (bool_decide_eq_true_2 (i < _)), Hs; [|done|].
  2:{ intros [Hn ?]. apply Hkeep. split; [|done].
      apply length_zero_iff_nil. by rewrite length_read. }
  pose proof (read_cut j _ _ Hw Hjl) as Hr. pose proof (change_cut j _ _ Hw Hjl) as Hc.
  destruct (slice_cut _ _ _) as [h sl]. cbn [fst snd] in Hr, Hc.
  edestruct (un_call_total) as (u' & -> & Hsame); [intros w; apply notify_container_total|].
  cbn [mbind Res_bind]. exists u', (set_policies sl s). do 2 (split; [done|]).
  pose proof Hsame as (_ & -> & _ & _ & -> & _). do 2 (split; [done|]).
  apply (slot_result_points (st_point s) _ u s (set_policies sl s) h i u'); [done..| |exact Hsame].
  by split.
Qed.

(** ** The loop *)

(** Endpoints that a policy does not select have more than that policy. *)
Definition stays p (ep : EndPoint) : Prop :=
  hits p ep = false → holds p ep = true →
  ¬ (ep_Containers ep = [] ∧ List.length (ep_SecurityPolicies ep) = 1).

Lemma list_find_existsb (same : SecurityPolicy → bool) l j q :
  list_find (λ q, same q = true) l = Some (j, q) → existsb same l = true.
Proof.
  intros (Hj & Hq & _)%list_find_Some. apply existsb_exists. exists q. split; [|done].
  apply list_elem_of_In. by eapply list_elem_of_lookup_2.
Qed.

Lemma step_updates ev cn p i ep wk :
  ev ∈ [addEvent; updateEvent] →
  separate (wk_u wk) → points (wk_u wk) !! i = Some ep → stays p ep →
  wk_done wk = None → wk_index wk = (Z.of_nat i - 1)%Z →
  ∃ wk', step ev cn p (Ok wk) i = Ok wk'
  ∧ un_len (wk_u wk') = un_len (wk_u wk)
  ∧ dm_GlobalPosture (un_dm (wk_u wk')) = dm_GlobalPosture (un_dm (wk_u wk))
  ∧ points (wk_u wk') =
      <[i := point_spec ev (dm_GlobalPosture (un_dm (wk_u wk))) p ep]> (points (wk_u wk))
  ∧ separate (wk_u wk') ∧ wk_done wk' = None ∧ wk_index wk' = Z.of_nat i
  ∧ wk_create wk' = wk_create wk && negb (hits p ep).
Proof.
  intros Hev Hsep Hep Hstay Hdone Hidx. rewrite points_lookup in Hep. case_decide as Hi; [|done].
  destruct (un_points (wk_u wk) !! i) as [s|] eqn:Hs; [|done]. injection Hep as <-.
  unfold walk_step. cbn [mbind Res_bind]. rewrite Hdone, Hs, Hidx.
  replace (Z.of_nat i - 1 + 1)%Z with (Z.of_nat i) by lia.
  change (MatchIdentities CompilePOSIX (sel_Identities (selector p)) (ep_Identities (st_point s)))
    with (hits p (point (wk_u wk) s)).
  unfold point_spec. destruct (hits p (point (wk_u wk) s)) eqn:Hhit.
  - destruct (list_find _ _) as [[j q]|]; cbn [mbind Res_bind];
      change (MatchIdentities CompilePOSIX (sel_Identities (selector p))
                (ep_Identities (st_point s))) with (hits p (point (wk_u wk) s));
      rewrite Hhit;
      destruct (handle_updates ev cn p s i (wk_u wk)) as (u' & -> & Hn & Hg & Hp & Hsep');
      try done; cbn [mbind Res_bind]; eexists; (split; [reflexivity|]); cbn;
      by rewrite andb_false_r.
  - pose proof (unmatched_updates p i) as Hun.
    change (ep_SecurityPolicies (point (wk_u wk) s))
      with (read (un_policies (wk_u wk)) (st_policies s)) in *.
    destruct (list_find _ _) as [[j q]|] eqn:Hj; cbn [mbind Res_bind].
    + destruct (Hun j q s (Z.of_nat i) (wk_u wk)) as (u' & s' & -> & Hp' & Hn & Hg & Hp & Hsep');
        [done..|by apply Hstay; [|eapply list_find_existsb]|].
      cbn [mbind Res_bind]. rewrite Hp'.
      change (MatchIdentities CompilePOSIX (sel_Identities (selector p))
                (ep_Identities (st_point s))) with (hits p (point (wk_u wk) s)).
      rewrite Hhit. eexists. split; [reflexivity|]. cbn. by rewrite andb_true_r.
    + change (MatchIdentities CompilePOSIX (sel_Identities (selector p))
                (ep_Identities (st_point s))) with (hits p (point (wk_u wk) s)).
      rewrite Hhit. eexists. split; [reflexivity|]. cbn. rewrite andb_true_r.
      do 2 (split; [done|]). split; [|done]. rewrite (remove_first_kept _ _ Hj).
      symmetry. apply list_insert_id. rewrite points_lookup, decide_True, Hs by done. simpl.
      unfold point. by destruct (st_point s).
Qed.

Lemma insert_progress {A} (f : A → A) (l : list A) k x :
  l !! k = Some x →
  <[k := f x]> ((f <$> take k l) ++ drop k l)%list = ((f <$> take (S k) l) ++ drop (S k) l)%list.
Proof.
  intros Hk. pose proof (lookup_lt_Some _ _ _ Hk) as Hl.
  rewrite (drop_S _ _ _ Hk), (take_S_r _ _ _ Hk), fmap_app, <- app_assoc. simpl.
  assert (Hlen : List.length (f <$> take k l) = k) by (rewrite length_fmap, length_take; lia).
  rewrite insert_app_r_alt by lia. rewrite Hlen, Nat.sub_diag. done.
Qed.

Lemma walk_updates ev cn p u k :
  ev ∈ [addEvent; updateEvent] → separate u → (∀ ep, ep ∈ points u → stays p ep) →
  k ≤ un_len u →
  ∃ wk, foldl (step ev cn p) (Ok {| wk_u := u; wk_index := -1; wk_create := true; wk_done := None |})
          (seq 0 k) = Ok wk
  ∧ un_len (wk_u wk) = un_len u ∧ dm_GlobalPosture (un_dm (wk_u wk)) = dm_GlobalPosture (un_dm u)
  ∧ points (wk_u wk) = ((point_spec ev (dm_GlobalPosture (un_dm u)) p <$> take k (points u))
                        ++ drop k (points u))%list
  ∧ separate (wk_u wk) ∧ wk_done wk = None ∧ wk_index wk = (Z.of_nat k - 1)%Z
  ∧ wk_create wk = negb (existsb (hits p) (take k (points u))).
Proof.
  intros Hev Hsep Hst. induction k as [|k IH]; intros Hk.
  { by eexists. }
  destruct IH as (wk & Hwk & Hn & Hg & Hp & Hsep' & Hd & Hi & Hc); [lia|].
  rewrite seq_S, foldl_app, Hwk. cbn [foldl Nat.add].
  assert (∃ ep, points u !! k = Some ep) as [ep Hep].
  { apply lookup_lt_is_Some. rewrite length_points by done. lia. }
  assert (Hlk : points (wk_u wk) !! k = Some ep).
  { rewrite Hp, lookup_app_r; rewrite length_fmap, length_take, length_points by done; [|lia].
    rewrite lookup_drop. rewrite <- Hep. f_equal. lia. }
  destruct (step_updates ev cn p k ep wk) as (wk' & -> & Hn' & Hg' & Hp' & Hsep'' & Hd' & Hi' & Hc');
    [done..|by eapply Hst, list_elem_of_lookup_2|done|done|].
  exists wk'. split; [done|]. rewrite Hn', Hg', Hp', Hi', Hc', Hg, Hp, Hc, Hn.
  do 2 (split; [done|]). split; [by apply insert_progress|].
  split; [done|]. split; [done|]. split; [lia|].
  rewrite (take_S_r _ _ _ Hep), existsb_app. simpl. by rewrite orb_false_r, negb_orb.
Qed.

(** ** A new endpoint *)

Lemma append_point_separate s u :
  separate u → slice_wf (un_policies u) (st_policies s) → slice_wf (un_containers u) (st_containers s) →
  (∀ i t, i < un_len u → un_points u !! i = Some t →
    apart (st_policies s) (st_policies t) ∧ apart (st_containers s) (st_containers t)) →
  separate (append_point s u).
Proof.
  intros Hsep Hw Hwc Hap. pose proof (sep_len u Hsep) as Hlen.
  assert (Hl : List.length (take (un_len u) (un_points u)) = un_len u)
    by (rewrite length_take; lia).
  assert (Hlk : ∀ i t, i < S (un_len u) →
            (take (un_len u) (un_points u) ++ [s])%list !! i = Some t →
            i < un_len u ∧ un_points u !! i = Some t ∨ i = un_len u ∧ t = s).
  { intros i t Hi Ht. destruct (decide (i < un_len u)).
    - left. split; [done|]. rewrite lookup_app_l in Ht by lia. by rewrite lookup_take_lt in Ht.
    - right. replace i with (un_len u) in * by lia.
      rewrite lookup_app_r, Hl, Nat.sub_diag in Ht by lia. by injection Ht as <-. }
  split; simpl.
  - rewrite length_app, Hl. simpl. lia.
  - intros i t Hi Ht. destruct (Hlk i t Hi Ht) as [[? ?]|[_ ->]]; [|done].
    by apply (sep_wf u Hsep i).
  - intros i j t t' Hi Hj Hij Ht Ht'.
    destruct (Hlk i t Hi Ht) as [[? ?]|[-> ->]], (Hlk j t' Hj Ht') as [[? ?]|[-> ->]]; [| | |done].
    + by apply (sep_apart u Hsep i j).
    + destruct (Hap i t) as [? ?]; [done..|]. by split; apply apart_sym.
    + by apply (Hap j t').
Qed.

Lemma append_point_points s u :
  separate u → points (append_point s u) = (points u ++ [point u s])%list.
Proof.
  intros Hsep. pose proof (sep_len u Hsep) as Hlen. unfold points, append_point. cbn.
  rewrite (take_ge (_ ++ _)%list) by (rewrite length_app, length_take; simpl; lia).
  rewrite fmap_app. f_equal.
Qed.

(** Appending to no slice makes one of its own. *)
Lemma append_nil p u :
  separate u →
  let r := slice_append p (spare_policies (sl_len nil_slice)) (un_policies u) nil_slice in
  let u2 := set_un_policies r.1 u in
  separate u2 ∧ points u2 = points u ∧ read r.1 r.2 = [p] ∧ slice_wf r.1 r.2
  ∧ ∀ i t, i < un_len u → un_points u !! i = Some t → apart r.2 (st_policies t).
Proof.
  intros Hsep r u2. set (spare := spare_policies (sl_len nil_slice)) in *.
  pose proof (read_append p spare (un_policies u) nil_slice eq_refl) as Hr.
  pose proof (change_append p spare (un_policies u) nil_slice eq_refl) as [Hw Ho].
  fold r in Hr, Hw, Ho.
  change (read (un_policies u) nil_slice) with (@nil SecurityPolicy) in Hr. simpl app in Hr.
  assert (Hoth : ∀ i t, i < un_len u → un_points u !! i = Some t →
            slice_wf r.1 (st_policies t) ∧ read r.1 (st_policies t) = read (un_policies u) (st_policies t)
            ∧ apart r.2 (st_policies t)).
  { intros i t Hi Ht. apply Ho; [by apply (sep_wf u Hsep i t)|done]. }
  split; [|split; [|split_and!; [done|done|]]].
  - split; simpl; [apply Hsep| |apply Hsep].
    intros i t Hi Ht. destruct (Hoth i t) as (? & _); [done..|].
    split; [done|]. by apply (sep_wf u Hsep i t).
  - unfold points. cbn [u2 un_len un_points]. apply list_fmap_ext. intros i t Ht.
    assert (Hi : i < un_len u).
    { apply lookup_lt_Some in Ht. rewrite length_take in Ht. lia. }
    rewrite lookup_take_lt in Ht by done. unfold point.
    change (un_policies u2) with r.1. change (un_containers u2) with (un_containers u).
    by destruct (Hoth i t) as (_ & -> & _).
  - intros i t Hi Ht. by apply (Hoth i t).
Qed.

Lemma handle_creates cn p index u :
  separate u →
  ∃ u', handle addEvent true p zero_Slot index cn u = Ok (u', index, Applied)
  ∧ points u' = (points u ++ [created cn (dm_GlobalPosture (un_dm u)) p])%list ∧ separate u'.
Proof.
  intros Hsep. unfold handlePolicyEvent, change_in_place. cbv zeta.
  cbn [zero_Slot set_slot_point st_policies st_point st_containers].
  change (read ?h nil_slice) with (@nil SecurityPolicy). cbn [existsb].
  change (String.eqb addEvent deleteEvent) with false. rewrite andb_false_r.
  change (String.eqb addEvent addEvent) with true. cbv iota.
  change (slice_map ?f ?h nil_slice) with h.
  assert (Hcn : (if String.eqb cn "" then ep_ContainerName zero_EndPoint else cn) = cn).
  { destruct (String.eqb cn "") eqn:E; [by apply String.eqb_eq in E as ->|done]. }
  rewrite Hcn. unfold policy_added.
  edestruct (un_call_total) as (u1 & -> & Hsame1);
    [intros w; case_bool; [apply ret_apparmor|eauto]|].
  cbn [mbind Res_bind st_policies].
  assert (Hs1 : same_points u u1) by exact Hsame1. clear Hsame1.
  assert (Hsep1 : separate u1) by (by eapply same_points_separate).
  destruct (append_nil p u1 Hsep1) as (Hsep2 & Hp2 & Hr & Hw & Hoth).
  destruct (slice_append _ _ _ _) as [h sl]. cbn [fst snd] in *.
  set (s := Build_Slot _ _ _ _ _). set (u2 := set_un_policies h u1) in *.
  edestruct (un_call_total) as (u' & -> & Hsame); [intros w; apply notify_container_total|].
  cbn [mbind Res_bind]. exists u'. split; [done|].
  rewrite (same_points_points _ _ Hsame), append_point_points, Hp2, (same_points_points _ _ Hs1) by done.
  split.
  - f_equal. unfold point, created. cbn. by rewrite Hr.
  - eapply same_points_separate; [exact Hsame|]. apply append_point_separate; [done|exact Hw|done|].
    intros i t Hi Ht. split; [by apply (Hoth i t)|done].
Qed.

(** ** A policy and the endpoints *)

Lemma applied_policy_points ev cn p u :
  ev ∈ [addEvent; updateEvent] → separate u → (∀ ep, ep ∈ points u → stays p ep) →
  ev = addEvent ∨ existsb (hits p) (points u) = true →
  ∃ u', apply_policy ev cn p u =
          Ok (u', if String.eqb ev addEvent then Applied else Modified)
  ∧ points u' =
      ((point_spec ev (dm_GlobalPosture (un_dm u)) p <$> points u)
       ++ if existsb (hits p) (points u) then []
          else [created cn (dm_GlobalPosture (un_dm u)) p])%list
  ∧ separate u'.
Proof.
  intros Hev Hsep Hst Hcase. unfold apply_container_policy, walk. cbv zeta.
  set (u0 := set_un_dm _ u). assert (Hsep0 : separate u0) by (destruct Hsep; by split).
  destruct (walk_updates ev cn p u0 (un_len u0) Hev Hsep0 Hst) as
    (wk & -> & Hn & Hg & Hp & Hsep' & Hd & Hi & Hc); [done|].
  change (points u0) with (points u) in *. change (un_len u0) with (un_len u) in *.
  rewrite firstn_all2, drop_ge, app_nil_r in Hp by (by rewrite length_points).
  rewrite firstn_all2 in Hc by (by rewrite length_points).
  change (dm_GlobalPosture (un_dm u0)) with (dm_GlobalPosture (un_dm u)) in *.
  cbn [mbind Res_bind]. rewrite Hd, Hc.
  assert (Hnd : String.eqb ev deleteEvent = false).
  { apply list_elem_of_In in Hev. by destruct Hev as [<-|[<-|[]]]. }
  rewrite Hnd. destruct (existsb (hits p) (points u)) eqn:Hex; cbn [negb mbind Res_bind].
  - edestruct (un_call_total (back_up cfg ev p)) as (u' & -> & Hsame);
      [apply back_up_total|].
    cbn [mbind Res_bind continues]. exists u'. split; [by destruct (String.eqb ev addEvent)|].
    rewrite (same_points_points _ _ Hsame), Hp, app_nil_r. split; [done|].
    by eapply same_points_separate.
  - destruct Hcase as [->|]; [|done].
    destruct (handle_creates cn p (wk_index wk) (wk_u wk) Hsep') as (u1 & -> & Hp1 & Hsep1).
    cbn [mbind Res_bind continues].
    edestruct (un_call_total (back_up cfg addEvent p)) as (u' & -> & Hsame);
      [apply back_up_total|].
    cbn [mbind Res_bind]. exists u'. split; [done|].
    rewrite (same_points_points _ _ Hsame), Hp1, Hp, Hg. split; [done|].
    by eapply same_points_separate.
Qed.

(** C4: A container policy that is added reaches every endpoint that its labels select,
    where it replaces a policy of its name or joins the others, and which take the global
    posture; endpoints that it selected before lose it, all others are as they were; if it
    selects none, an endpoint of its own is created.  The same holds of a policy that is modified if it selects an endpoint,
    except that it joins none.  Provided that no endpoint without containers loses its last
    policy.  Deletions, and modified policies that select no endpoint, are not covered: see
    [deletion_loses_endpoint] and [modified_policy_overwrites]. *)
Theorem container_policy_reaches ev cn p u :
  ev ∈ [addEvent; updateEvent] → separate u → (∀ ep, ep ∈ points u → stays p ep) →
  ev = addEvent ∨ existsb (hits p) (points u) = true →
  ∃ u', apply_policy ev cn p u =
          Ok (u', if String.eqb ev addEvent then Applied else Modified)
  ∧ points u' =
      ((point_spec ev (dm_GlobalPosture (un_dm u)) p <$> points u)
       ++ if existsb (hits p) (points u) then []
          else [created cn (dm_GlobalPosture (un_dm u)) p])%list
  ∧ separate u'.
Proof. apply applied_policy_points. Qed.

(** A container policy that is modified and selects no endpoint overwrites the last
    endpoint, its containers and policies included, with an empty one; where there is no
    endpoint, the daemon panics. *)
Theorem modified_policy_overwrites cn p u :
  separate u → (∀ ep, ep ∈ points u → hits p ep = false ∧ holds p ep = false) →
  (points u = [] → apply_policy updateEvent cn p u = Panic)
  ∧ ∀ l last, points u = (l ++ [last])%list →
    ∃ u', apply_policy updateEvent cn p u = Ok (u', Modified)
    ∧ points u' = (l ++ [with_posture (dm_GlobalPosture (un_dm u)) zero_EndPoint])%list.
Proof.
  intros Hsep Hno. unfold apply_container_policy, walk. cbv zeta. set (u0 := set_un_dm _ u).
  assert (Hsep0 : separate u0) by (destruct Hsep; by split).
  assert (Hst : ∀ ep, ep ∈ points u → stays p ep).
  { intros ep Hep _ Hh. destruct (Hno ep Hep) as [_ Hh']. congruence. }
  destruct (walk_updates updateEvent cn p u0 (un_len u0)) as
    (wk & -> & Hn & Hg & Hp & Hsep' & Hd & Hi & Hc); [right; left|done..|].
  change (points u0) with (points u) in *. change (un_len u0) with (un_len u) in *.
  rewrite firstn_all2, drop_ge, app_nil_r in Hp by (by rewrite length_points).
  rewrite firstn_all2 in Hc by (by rewrite length_points).
  change (dm_GlobalPosture (un_dm u0)) with (dm_GlobalPosture (un_dm u)) in *.
  assert (Hex : existsb (hits p) (points u) = false).
  { apply not_true_is_false. intros (ep & Hin & Hh)%existsb_exists.
    apply list_elem_of_In in Hin. destruct (Hno ep Hin). congruence. }
  assert (Hsame : point_spec updateEvent (dm_GlobalPosture (un_dm u)) p <$> points u = points u).
  { rewrite <- (list_fmap_id (points u)) at 2. apply list_fmap_ext. intros i ep Hep.
    apply list_elem_of_lookup_2, Hno in Hep as [Hh Hl]. unfold point_spec. rewrite Hh.
    rewrite remove_first_kept; [by destruct ep|].
    apply eq_None_not_Some. intros [[j q] Hj%list_find_existsb]. unfold holds in Hl. congruence. }
  rewrite Hsame in Hp. cbn [mbind Res_bind]. rewrite Hd, Hc, Hex. cbn [negb].
  unfold handlePolicyEvent, change_in_place. cbv zeta.
  cbn [zero_Slot set_slot_point st_policies st_point st_containers].
  change (read ?h nil_slice) with (@nil SecurityPolicy). cbn [existsb].
  change (String.eqb updateEvent deleteEvent) with false. rewrite andb_false_r.
  change (String.eqb updateEvent addEvent) with false.
  change (String.eqb updateEvent updateEvent) with true. cbv iota.
  change (slice_map ?f ?h nil_slice) with h. unfold policy_modified. rewrite Hi. split.
  - intros Hnil. unfold set_point. cbn [un_len set_un_policies]. rewrite Hn.
    assert (un_len u = 0) as ->; [|done].
    by rewrite <- length_points, Hnil.
  - intros l last Hl.
    assert (Hlen : un_len u = S (List.length l)).
    { rewrite <- length_points, Hl, length_app by done. simpl. lia. }
    replace (Z.of_nat (un_len u) - 1)%Z with (Z.of_nat (List.length l)) by lia.
    assert (Hlt : List.length l < un_len (wk_u wk)) by lia.
    destruct (lookup_lt_is_Some_2 (un_points (wk_u wk)) (List.length l)) as [s Hs].
    { pose proof (sep_len _ Hsep'). lia. }
    rewrite set_point_slot by done. cbn [mbind Res_bind].
    edestruct (un_call_total) as (u1 & -> & Hsame1); [intros w; apply notify_container_total|].
    cbn [mbind Res_bind continues].
    edestruct (un_call_total (back_up cfg updateEvent p)) as (u' & -> & Hsame2);
      [apply back_up_total|].
    cbn [mbind Res_bind]. exists u'. split; [done|].
    rewrite (same_points_points _ _ Hsame2), (same_points_points _ _ Hsame1).
    rewrite overwrite_points, Hp, Hl, Hg, insert_app_r_alt, Nat.sub_diag by (done || lia). done.
Qed.

(** ** What a request leaves alone *)

Section view.
(** A part of the daemon that the calls of other components leave *)
Context {A : Type} (view : Daemon W → A).

Definition quiet (f : W → Res W) : Prop :=
  ∀ dm dm', call f dm = Ok dm' → view dm' = view dm.

Record QuietCalls : Prop := {
  quiet_log action ep : quiet (logger_UpdateSecurityPolicies action ep);
  quiet_enforce ep : quiet (enforcer_UpdateSecurityPolicies ep);
  quiet_presets ep : quiet (presets_UpdateSecurityPolicies ep);
  quiet_apparmor pod action m prof : quiet (enforcer_UpdateAppArmorProfiles pod action m prof) }.

Definition seen u : A := view (un_dm u).

Lemma quiet_ok : quiet Ok.
Proof. intros dm dm'. unfold call. cbn. intros [= <-]. by destruct dm. Qed.

Lemma quiet_bind f g : quiet f → quiet g → quiet (λ w, w' ← f w; g w').
Proof.
  intros Hf Hg dm dm' H. unfold call in H. go_res H. go_res Ha. injection H as <-.
  etransitivity.
  - apply (Hg (set_dm_w a0 dm)). unfold call. cbn. by rewrite Ha.
  - apply Hf. unfold call. by rewrite Ha0.
Qed.

Lemma un_call_seen f u u' : quiet f → un_call f u = Ok u' → seen u' = seen u.
Proof. intros Hf H. unfold un_call in H. go_res H. injection H as <-. by apply Hf. Qed.

Lemma set_point_seen i s u u' : set_point i s u = Ok u' → seen u' = seen u.
Proof. unfold set_point. case_bool; [|done]. by intros [= <-]. Qed.

Lemma remove_point_seen i u u' : remove_point i u = Ok u' → seen u' = seen u.
Proof. unfold remove_point. case_bool; [|done]. by intros [= <-]. Qed.

Context (Q : QuietCalls).

Lemma quiet_enforce_container ep : quiet (enforce_container cfg ep).
Proof.
  unfold enforce_container. apply quiet_bind.
  - destruct (is_some _); [apply Q|apply quiet_ok].
  - destruct (cf_Presets cfg); [apply Q|apply quiet_ok].
Qed.

Lemma quiet_notify_container action ep : quiet (notify_container cfg action ep).
Proof.
  unfold notify_container. destruct (cf_Policy cfg); [|apply quiet_ok].
  apply quiet_bind; [apply Q|]. case_bool; [apply quiet_enforce_container|apply quiet_ok].
Qed.

Lemma quiet_notify_deleted ep : quiet (notify_deleted cfg ep).
Proof. apply quiet_bind; [apply Q|apply quiet_enforce_container]. Qed.

Lemma quiet_profile cn m :
  quiet (λ w, if is_some (cf_RuntimeEnforcer cfg)
              then enforcer_UpdateAppArmorProfiles cn addEvent m ∅ w else Ok w).
Proof. destruct (is_some _); [apply Q|apply quiet_ok]. Qed.

Lemma policy_added_seen create cn p s index u u' :
  policy_added cfg spare_policies create cn p s index u = Ok u' → seen u' = seen u.
Proof.
  intros H. unfold policy_added in H. go_res H.
  apply un_call_seen in Ha; [|apply quiet_profile].
  destruct (slice_append _ _ _ _). rewrite <- Ha. destruct create.
  - by apply un_call_seen in H; [|apply quiet_notify_container].
  - go_res H. apply un_call_seen in H as ->; [|apply quiet_notify_container].
    by apply set_point_seen in Ha0.
Qed.

Lemma policy_deleted_seen s index u ui :
  policy_deleted cfg s index u = Ok ui → seen ui.1 = seen u.
Proof.
  intros H. unfold policy_deleted in H. case_bool; [|by injection H as <-].
  go_res H. go_res H. apply set_point_seen in Ha.
  apply un_call_seen in Ha0; [|apply quiet_notify_deleted].
  case_bool; [|by injection H as <-; simpl; congruence].
  go_res H. injection H as <-. apply remove_point_seen in Ha1. simpl. congruence.
Qed.

Lemma handle_seen ev create p s index cn u u' i st :
  handle ev create p s index cn u = Ok (u', i, st) → seen u' = seen u.
Proof.
  unfold handlePolicyEvent. cbv zeta. case_bool; [by intros [= <- <- <-]|].
  match goal with |- context [change_in_place ev p ?x u] =>
    destruct (change_in_place ev p x u) as [[ev' s1] u1] eqn:Hc end.
  assert (seen u1 = seen u) as <-.
  { unfold change_in_place in Hc. case_bool; [|by injection Hc as <- <- <-].
    destruct (list_find _ _) as [[j q]|]; [|by injection Hc as <- <- <-].
    destruct (slice_cut _ _ _). by injection Hc as <- <- <-. }
  clear Hc. destruct (String.eqb ev' addEvent); [|destruct (String.eqb ev' updateEvent)];
    intros H; go_res H; injection H as <- <- <-.
  - by apply policy_added_seen in Ha.
  - unfold policy_modified in Ha. go_res Ha.
    apply un_call_seen in Ha as ->; [|apply quiet_notify_container]. by apply set_point_seen in Ha0.
  - by apply policy_deleted_seen in Ha.
Qed.

Lemma unmatched_seen p i j s index u u' index' s' :
  unmatched cfg p i j s index u = Ok (u', index', s') → seen u' = seen u.
Proof.
  unfold unmatched. intros H. case_bool.
  - go_res H. go_res H. destruct (slice_cut _ _ _). go_res H. injection H as <- <- <-.
    apply remove_point_seen in Ha. apply un_call_seen in Ha0; [|apply Q].
    apply un_call_seen in Ha1; [|apply quiet_enforce_container].
    unfold seen in *. simpl in *. congruence.
  - case_bool; [|done]. destruct (un_points u !! i); [|done]. destruct (slice_cut _ _ _).
    go_res H. injection H as <- <- <-.
    by apply un_call_seen in Ha; [|apply quiet_notify_container].
Qed.

Lemma walk_seen ev cn p u wk : walk cfg CompilePOSIX spare_policies ev cn p u = Ok wk →
  seen (wk_u wk) = seen u.
Proof.
  unfold walk. generalize (seq 0 (un_len u)) as l. intros l.
  set (P := λ r : Res (Walk W), ∀ wk, r = Ok wk → seen (wk_u wk) = seen u).
  revert wk. fold (P (foldl (step ev cn p) (Ok {| wk_u := u; wk_index := -1; wk_create := true;
                                                  wk_done := None |}) l)).
  apply (foldl_inv P); [by intros wk [= <-]|].
  intros r i _ Hr wk. unfold walk_step. destruct r as [wk0|]; [|done]. cbn [mbind Res_bind].
  specialize (Hr wk0 eq_refl). destruct (wk_done wk0); [by intros [= <-]|].
  destruct (un_points (wk_u wk0) !! i) as [s|]; [|done]. intros H. go_res H.
  destruct a as [[u1 i1] s1]. assert (Hs1 : seen u1 = seen u).
  { rewrite <- Hr. destruct (list_find _ _) as [[j q]|]; [|by injection Ha as <- <- <-].
    destruct (MatchIdentities _ _ (ep_Identities (st_point s)));
      [by injection Ha as <- <- <-|by apply unmatched_seen in Ha]. }
  destruct (MatchIdentities _ _ (ep_Identities (st_point s1))).
  - go_res H. destruct a as [[u2 i2] st]. injection H as <-. simpl.
    apply handle_seen in Ha0. congruence.
  - by injection H as <-.
Qed.

Lemma walk_refuses ev cn p u wk status :
  walk cfg CompilePOSIX spare_policies ev cn p u = Ok wk → wk_done wk = Some status →
  continues status = false.
Proof.
  unfold walk. generalize (seq 0 (un_len u)) as l. intros l.
  set (P := λ r : Res (Walk W), ∀ wk status,
              r = Ok wk → wk_done wk = Some status → continues status = false).
  revert wk status. fold (P (foldl (step ev cn p) (Ok {| wk_u := u; wk_index := -1;
                                     wk_create := true; wk_done := None |}) l)).
  apply (foldl_inv P); [by intros wk status [= <-]|].
  intros r i _ Hr wk status. unfold walk_step. destruct r as [wk0|]; [|done].
  cbn [mbind Res_bind]. destruct (wk_done wk0) as [st0|] eqn:Hd.
  { intros [= <-]. by apply Hr. }
  destruct (un_points (wk_u wk0) !! i) as [s|]; [|done]. intros H. go_res H.
  destruct a as [[u1 i1] s1].
  destruct (MatchIdentities _ _ (ep_Identities (st_point s1))).
  - go_res H. destruct a as [[u2 i2] st]. injection H as <-. simpl.
    destruct (continues st) eqn:Hc; [done|]. by intros [= <-].
  - by injection H as <-.
Qed.

(** A request leaves it until the policy is stored in a backup. *)
Lemma apply_policy_seen ev cn p u u' st :
  apply_policy ev cn p u = Ok (u', st) →
  let u0 := set_un_dm (set_SecurityPolicies (store_container_policy ev p
              (dm_SecurityPolicies (un_dm u))) (un_dm u)) u in
  ∃ u1, seen u1 = seen u0 ∧
  if continues st then un_call (back_up cfg ev p) u1 = Ok u' else u' = u1.
Proof.
  unfold apply_container_policy. cbv zeta. intros H. go_res H. apply walk_seen in Ha as Hs.
  destruct (wk_done a) as [status|] eqn:Hd.
  { injection H as <- <-. exists (wk_u a). split; [done|].
    by rewrite (walk_refuses _ _ _ _ _ _ Ha Hd). }
  go_res H. destruct a0 as [[u1 i1] st1]. assert (Hs1 : seen u1 = seen (wk_u a)).
  { destruct (wk_create a); [by apply handle_seen in Ha0|by injection Ha0 as <- <- <-]. }
  exists u1. split; [congruence|]. destruct (continues st1) eqn:Hc.
  - go_res H. injection H as <- <-. by repeat case_bool.
  - injection H as <- <-. by rewrite Hc.
Qed.
End view.

(** The store of policies *)
Definition stored u : list SecurityPolicy := dm_SecurityPolicies (un_dm u).

Lemma stored_quiet f : quiet dm_SecurityPolicies f.
Proof. intros dm dm' H. unfold call in H. go_res H. by injection H as <-. Qed.

Lemma apply_policy_store ev cn p u u' st :
  apply_policy ev cn p u = Ok (u', st) → stored u' = store_container_policy ev p (stored u).
Proof.
  intros H. apply (apply_policy_seen dm_SecurityPolicies) in H as (u1 & Hs & H).
  2:{ split; intros; apply stored_quiet. }
  unfold seen in Hs. cbn in Hs. unfold stored. rewrite <- Hs. destruct (continues st).
  - by apply (un_call_seen dm_SecurityPolicies) in H; [|apply stored_quiet].
  - by rewrite H.
Qed.

(** ** Deletion *)

(** A slot without its only policy *)
Definition bare (dp : DefaultPosture) s : Slot :=
  {| st_point := with_posture dp (st_point s);
     st_policies := {| sl_arr := sl_arr (st_policies s); sl_len := 0 |};
     st_containers := st_containers s;
     st_has_labels := st_has_labels s; st_has_privileged := st_has_privileged s |}.

Lemma cut_only {A} (h : list (list A)) (s : Slice) q :
  slice_wf h s → read h s = [q] →
  slice_cut 0 h s = (h, {| sl_arr := sl_arr s; sl_len := 0 |}).
Proof.
  intros Hw Hr. pose proof (length_read h s Hw) as Hl. rewrite Hr in Hl. simpl in Hl.
  unfold slice_cut. rewrite <- Hl. simpl. f_equal.
  unfold slice_wf, write, array in *. destruct (sl_arr s) as [l|]; [|done].
  destruct Hw as (a & Ha & Hn). rewrite Ha. simpl. apply list_insert_id. rewrite Ha. f_equal.
  unfold shifted. rewrite <- Hl in Hn. by destruct a as [|x a]; [simpl in Hn; lia|].
Qed.

Lemma handle_deletes p q s i cn u :
  slice_wf (un_policies u) (st_policies s) → read (un_policies u) (st_policies s) = [q] →
  same_policy p q = true → i < un_len u →
  let u1 := change_slot i (bare (dm_GlobalPosture (un_dm u)) s) (un_policies u) u in
  if bool_decide (sl_len (st_containers s) = 0) then
    ∃ u', handle deleteEvent false p s (Z.of_nat i) cn u = Ok (u', (Z.of_nat i - 1)%Z, Applied)
    ∧ same_points (set_un_points (shifted i (un_len u) (un_points u1)) (pred (un_len u)) u1) u'
  else ∃ u', handle deleteEvent false p s (Z.of_nat i) cn u = Ok (u', Z.of_nat i, Applied)
    ∧ same_points u1 u'.
Proof.
  intros Hw Hr Hq Hi. cbv zeta. unfold handlePolicyEvent, change_in_place. cbv zeta.
  change (String.eqb deleteEvent deleteEvent) with true. cbn [st_policies set_slot_point].
  rewrite Hr. cbn [existsb]. rewrite Hq. cbn [orb negb andb list_find].
  rewrite decide_True by done. rewrite (cut_only _ _ q Hw Hr).
  change (String.eqb deleteEvent addEvent) with false.
  change (String.eqb deleteEvent updateEvent) with false. cbv iota.
  unfold policy_deleted. rewrite (proj2 (Z.leb_le 0 (Z.of_nat i))) by lia.
  rewrite set_point_slot by done. cbn [mbind Res_bind].
  edestruct (un_call_total) as (u' & -> & Hsame);
    [intros w; apply notify_deleted_total|].
  cbn [mbind Res_bind st_containers st_policies set_slot_point set_policies sl_len].
  assert (Hs1 : same_points (change_slot i (bare (dm_GlobalPosture (un_dm u)) s)
                               (un_policies u) u) u') by exact Hsame. clear Hsame.
  case_bool_decide as Hc.
  - rewrite bool_decide_eq_true_2 by done. unfold remove_point.
    destruct Hs1 as (Hp & Hn & Hrest). rewrite Hn. cbn [un_len change_slot set_un_policies set_un_points].
    rewrite (proj2 (Z.leb_le 0 (Z.of_nat i))), (proj2 (Z.ltb_lt _ _)) by lia.
    simpl. eexists. split; [reflexivity|]. rewrite Hp, Nat2Z.id. by split.
  - rewrite bool_decide_eq_false_2 by tauto. simpl. by exists u'.
Qed.

(** One turn of the loop for an endpoint that has only the deleted policy *)
Lemma step_deletes p q s i j cn wk :
  wk_done wk = None → wk_index wk = (Z.of_nat j - 1)%Z → un_points (wk_u wk) !! i = Some s →
  j < un_len (wk_u wk) →
  slice_wf (un_policies (wk_u wk)) (st_policies s) →
  read (un_policies (wk_u wk)) (st_policies s) = [q] → same_policy p q = true →
  hits p (st_point s) = true →
  let u := wk_u wk in
  let u1 := change_slot j (bare (dm_GlobalPosture (un_dm u)) s) (un_policies u) u in
  ∃ u' index, step deleteEvent cn p (Ok wk) i =
    Ok {| wk_u := u'; wk_index := index; wk_create := false; wk_done := None |}
  ∧ if bool_decide (sl_len (st_containers s) = 0)
    then index = (Z.of_nat j - 1)%Z
         ∧ same_points (set_un_points (shifted j (un_len u) (un_points u1)) (pred (un_len u)) u1) u'
    else index = Z.of_nat j ∧ same_points u1 u'.
Proof.
  intros Hd Hi Hs Hj Hw Hr Hq Hh. cbv zeta. unfold walk_step. cbn [mbind Res_bind].
  rewrite Hd, Hs, Hi, Hr. replace (Z.of_nat j - 1 + 1)%Z with (Z.of_nat j) by lia.
  fold (hits p (st_point s)). cbn [list_find]. rewrite decide_True by done. rewrite Hh.
  cbn [mbind Res_bind]. fold (hits p (st_point s)). rewrite Hh.
  pose proof (handle_deletes p q s j cn (wk_u wk) Hw Hr Hq Hj) as Hdel. cbv zeta in Hdel.
  case_bool_decide; destruct Hdel as (u' & -> & Hsame); cbn [mbind Res_bind continues]; by eexists _, _.
Qed.

(** Deletion of a policy may take other endpoints along: of three endpoints, where the
    first has nothing but the policy and the last has containers, the second one is gone
    with its containers and policies, whatever they are, and the last one is there twice. *)
Theorem deletion_loses_endpoint cn p u a b c pa pc :
  separate u → un_len u = 3 → points u = [a; b; c] →
  hits p a = true → ep_SecurityPolicies a = [pa] → same_policy p pa = true →
  ep_Containers a = [] →
  hits p c = true → ep_SecurityPolicies c = [pc] → same_policy p pc = true →
  ep_Containers c ≠ [] →
  let c' := with_posture (dm_GlobalPosture (un_dm u)) (with_policies [] c) in
  ∃ u', apply_policy deleteEvent cn p u = Ok (u', Deleted) ∧ points u' = [c'; c'].
Proof.
  intros Hsep Hlen Hpts Ha Hpa Hsa Hca Hc Hpc Hsc Hcc. cbv zeta.
  assert (∃ s0 s1 s2 rest, un_points u = s0 :: s1 :: s2 :: rest
          ∧ a = point u s0 ∧ c = point u s2) as (s0 & s1 & s2 & rest & Hup & -> & ->).
  { unfold points in Hpts. rewrite Hlen in Hpts. pose proof (sep_len u Hsep).
    destruct (un_points u) as [|s0 [|s1 [|s2 rest]]]; try done. injection Hpts as <- <- <-.
    by exists s0, s1, s2, rest. }
  destruct (sep_wf u Hsep 0 s0) as [Hw0 Hwc0]; [lia|by rewrite Hup|].
  destruct (sep_wf u Hsep 2 s2) as [Hw2 Hwc2]; [lia|by rewrite Hup|].
  assert (Hl0 : sl_len (st_containers s0) = 0).
  { rewrite <- (length_read _ _ Hwc0). by rewrite (Hca : read _ _ = []). }
  assert (Hl2 : sl_len (st_containers s2) ≠ 0).
  { rewrite <- (length_read _ _ Hwc2). intros H%length_zero_iff_nil. by apply Hcc. }
  unfold apply_container_policy, walk. cbv zeta. set (u0 := set_un_dm _ u).
  change (un_len u0) with (un_len u). rewrite Hlen. cbn [seq foldl].
  destruct (step_deletes p pa s0 0 0 cn
    {| wk_u := u0; wk_index := -1; wk_create := true; wk_done := None |}) as (u1 & i1 & -> & H1);
    [done|done|by cbn; rewrite Hup|by cbn; lia|done..|].
  rewrite bool_decide_eq_true_2 in H1 by done. destruct H1 as (-> & H1).
  destruct H1 as (Hp1 & Hn1 & Hh1 & Hc1 & Hg1 & _).
  cbn [wk_u change_slot u0 set_un_dm set_un_points set_un_policies un_points un_len un_policies
       un_containers un_dm] in Hp1, Hn1, Hh1, Hc1, Hg1.
  rewrite Hup, Hlen in Hp1. cbn in Hp1. rewrite Hlen in Hn1.
  destruct (step_deletes p pc s2 1 0 cn
    {| wk_u := u1; wk_index := Z.of_nat 0 - 1; wk_create := false; wk_done := None |})
    as (u2 & i2 & -> & H2); [done|done|by cbn; rewrite Hp1|by cbn; lia|by cbn; rewrite ?Hh1..|].
  rewrite bool_decide_eq_false_2 in H2 by done. destruct H2 as (-> & H2).
  destruct H2 as (Hp2 & Hn2 & Hh2 & Hc2 & Hg2 & _).
  cbn [wk_u change_slot set_un_points set_un_policies un_points un_len un_policies
       un_containers un_dm] in Hp2, Hn2, Hh2, Hc2, Hg2.
  rewrite Hp1 in Hp2. cbn in Hp2.
  destruct (step_deletes p pc s2 2 1 cn
    {| wk_u := u2; wk_index := Z.of_nat 0; wk_create := false; wk_done := None |})
    as (u3 & i3 & -> & H3); [done|done|by cbn; rewrite Hp2|by cbn; lia|by cbn; rewrite ?Hh2, ?Hh1..|].
  rewrite bool_decide_eq_false_2 in H3 by done. destruct H3 as (-> & H3).
  cbn [foldl mbind Res_bind wk_done wk_create wk_u wk_index].
  edestruct (un_call_total (back_up cfg deleteEvent p)) as (u' & Hu' & Hsame);
    [apply back_up_total|].
  change (continues Applied) with true. cbv iota. rewrite Hu'. cbn [mbind Res_bind].
  exists u'. split; [done|].
  rewrite (same_points_points _ _ Hsame), (same_points_points _ _ H3).
  unfold points.
  cbn [wk_u change_slot set_un_points set_un_policies un_points un_len].
  rewrite Hn2, Hn1, Hp2. simpl. unfold point. simpl. rewrite Hc2, Hc1, Hg2, Hg1. done.
Qed.

(** ** Containers *)

Context (spare_containers : nat → list string).

(** A loop whose turns change one endpoint each *)
Lemma loop_points {X} (f : Res X → nat → Res X) (view : X → list EndPoint) (Inv : X → Prop)
    (g : EndPoint → EndPoint) x k :
  (∀ x i ep, Inv x → view x !! i = Some ep →
    ∃ x', f (Ok x) i = Ok x' ∧ Inv x' ∧ view x' = <[i := g ep]> (view x)) →
  Inv x → k ≤ List.length (view x) →
  ∃ x', foldl f (Ok x) (seq 0 k) = Ok x' ∧ Inv x'
  ∧ view x' = ((g <$> take k (view x)) ++ drop k (view x))%list.
Proof.
  intros Hstep Hinv. induction k as [|k IH]; intros Hk; [by exists x|].
  destruct IH as (x1 & Hx1 & Hinv1 & Hv1); [lia|].
  rewrite seq_S, foldl_app, Hx1. cbn [foldl Nat.add].
  destruct (lookup_lt_is_Some_2 (view x) k) as [ep Hep]; [lia|].
  assert (Hlk : view x1 !! k = Some ep).
  { rewrite Hv1, lookup_app_r; rewrite length_fmap, length_take; [|lia].
    rewrite lookup_drop, <- Hep. f_equal. lia. }
  destruct (Hstep x1 k ep Hinv1 Hlk) as (x' & -> & Hinv' & Hv'). exists x'. do 2 (split; [done|]).
  rewrite Hv', Hv1. by apply insert_progress.
Qed.

Definition joined (c : Container) (cid : string) (ep : EndPoint) : EndPoint :=
  if owns CompilePOSIX c ep then with_containers (ep_Containers ep ++ [cid])%list ep else ep.

Definition left_by (c : Container) (cid : string) (ep : EndPoint) : EndPoint :=
  if owns CompilePOSIX c ep then
    match list_find (λ c', c' = cid) (ep_Containers ep) with
    | Some (i, _) => with_containers (delete i (ep_Containers ep)) ep
    | None => ep
    end
  else ep.

(** What tells whether a container belongs to an endpoint *)
Definition same_kind (c c' : Container) : Prop :=
  c_ContainerName c' = c_ContainerName c ∧ c_Labels c' = c_Labels c.

Lemma owns_same_kind c c' ep : same_kind c c' → owns CompilePOSIX c' ep = owns CompilePOSIX c ep.
Proof. unfold owns. by intros [-> ->]. Qed.

Lemma set_point_both i s hc u :
  i < un_len u →
  set_point (Z.of_nat i) s (set_un_containers hc u) = Ok (change_both i s (un_policies u) hc u).
Proof.
  intros Hi. unfold set_point. cbn [un_len set_un_containers].
  rewrite (proj2 (Z.leb_le 0 (Z.of_nat i))), (proj2 (Z.ltb_lt _ _)) by lia.
  simpl. by rewrite Nat2Z.id.
Qed.

(** Only the containers of a slot change. *)
Lemma change_containers i s sl hc u :
  separate u → i < un_len u → un_points u !! i = Some s →
  slice_change (un_containers u) (st_containers s) hc sl →
  points (change_both i (set_containers sl s) (un_policies u) hc u)
    = <[i := with_containers (read hc sl) (point u s)]> (points u)
  ∧ separate (change_both i (set_containers sl s) (un_policies u) hc u).
Proof.
  intros Hsep Hi Hs Hc.
  assert (Hcp : slice_change (un_policies u) (st_policies s) (un_policies u) (st_policies s))
    by apply change_none, (sep_wf u Hsep i s Hi Hs).
  split; [|by apply (change_both_separate i s)].
  by rewrite (change_both_points i s).
Qed.

Lemma lookup_points u i ep :
  points u !! i = Some ep → ∃ s, i < un_len u ∧ un_points u !! i = Some s ∧ ep = point u s.
Proof.
  rewrite points_lookup. case_decide; [|done]. destruct (un_points u !! i) as [s|]; [|done].
  intros [= <-]. eauto.
Qed.

(** The state of the loops: the container keeps its name and labels. *)
Definition of_kind (c : Container) (cid : string) u : Prop :=
  separate u ∧ same_kind c (container_of cid u).

Lemma container_added_step c cid u i ep :
  of_kind c cid u → points u !! i = Some ep →
  ∃ u', container_added cfg CompilePOSIX spare_containers cid (c_Labels c) (Ok u) i = Ok u'
  ∧ of_kind c cid u' ∧ points u' = <[i := joined c cid ep]> (points u).
Proof.
  intros [Hsep Hkind] Hep. pose proof (lookup_points u i ep Hep) as (s & Hi & Hs & ->).
  destruct (sep_wf u Hsep i s Hi Hs) as [_ Hwc].
  unfold container_added, joined. cbn [mbind Res_bind]. rewrite Hs. cbv zeta.
  destruct Hkind as [Hname Hlab]. rewrite Hname.
  change (String.eqb (ep_EndPointName (st_point s)) (c_ContainerName c)
          || MatchIdentities CompilePOSIX (ep_Identities (st_point s))
               (GetLabelsFromString (c_Labels c)).2) with (owns CompilePOSIX c (point u s)).
  destruct (owns CompilePOSIX c (point u s)) eqn:Ho.
  - set (spare := spare_containers _).
    pose proof (read_append cid spare _ _ Hwc) as Hr.
    pose proof (change_append cid spare _ _ Hwc) as Hc.
    destruct (slice_append _ _ _ _) as [hc sl]. cbn [fst snd] in Hr, Hc.
    rewrite set_point_both by done. cbn [mbind Res_bind].
    destruct (change_containers i s sl hc u) as [Hp Hsep']; [done..|].
    set (u1 := change_both _ _ _ _ _) in *.
    edestruct (un_call_total) as (u' & -> & Hsame); [intros w; apply notify_container_total|].
    exists u'. split; [done|].
    rewrite (same_points_points _ _ Hsame).
    assert (Hsep2 : separate u').
    { eapply same_points_separate; [exact Hsame|]. by destruct Hsep'. }
    split; [|etransitivity; [exact Hp|by rewrite Hr]].
    split; [done|]. unfold same_kind, container_of.
    destruct Hsame as (_ & _ & _ & _ & _ & _ & ->). cbn.
    rewrite lookup_insert_eq. by split.
  - exists u. split; [done|]. split; [split; [done|by split]|]. by rewrite list_insert_id.
Qed.

Lemma container_removed_step c cid u i ep :
  of_kind c cid u → points u !! i = Some ep →
  ∃ u', container_removed CompilePOSIX cid c (Ok u) i = Ok u'
  ∧ of_kind c cid u' ∧ points u' = <[i := left_by c cid ep]> (points u).
Proof.
  intros [Hsep Hkind] Hep. pose proof (lookup_points u i ep Hep) as (s & Hi & Hs & ->).
  destruct (sep_wf u Hsep i s Hi Hs) as [_ Hwc].
  assert (Hid : ∃ u', set_point (Z.of_nat i) s u = Ok u' ∧ of_kind c cid u'
                      ∧ points u' = <[i := point u s]> (points u)).
  { exists (change_slot i s (un_policies u) u). split; [by apply (set_point_slot i s (un_policies u))|].
    rewrite overwrite_points by done. split; [|done]. split; [|done].
    apply (change_slot_points i s s (un_policies u) u); [done..|].
    apply change_none, (sep_wf u Hsep i s Hi Hs). }
  unfold container_removed, left_by. cbn [mbind Res_bind]. rewrite Hs.
  change (owns CompilePOSIX c (st_point s)) with (owns CompilePOSIX c (point u s)).
  destruct (owns CompilePOSIX c (point u s)); [|done].
  change (ep_Containers (point u s)) with (read (un_containers u) (st_containers s)).
  destruct (list_find (λ c', c' = cid) _) as [[j x]|] eqn:Hj; [|done].
  assert (Hjl : j < sl_len (st_containers s)).
  { rewrite <- (length_read _ _ Hwc). apply list_find_Some in Hj as (Hj & _).
    by apply lookup_lt_is_Some. }
  pose proof (read_cut j _ _ Hwc Hjl) as Hr. pose proof (change_cut j _ _ Hwc Hjl) as Hc.
  destruct (slice_cut _ _ _) as [hc sl]. cbn [fst snd] in Hr, Hc.
  rewrite set_point_both by done.
  destruct (change_containers i s sl hc u) as [Hp Hsep']; [done..|].
  eexists. split; [reflexivity|]. split; [done|]. by rewrite Hp, Hr.
Qed.

Lemma left_joined c cid ep :
  (owns CompilePOSIX c ep = true → cid ∉ ep_Containers ep) → left_by c cid (joined c cid ep) = ep.
Proof.
  intros Hnew. unfold left_by, joined. destruct (owns CompilePOSIX c ep) eqn:Ho; [|by rewrite Ho].
  change (owns CompilePOSIX c (with_containers _ ep)) with (owns CompilePOSIX c ep). rewrite Ho.
  cbn [ep_Containers with_containers]. rewrite list_find_app_r.
  - simpl. rewrite decide_True by done. simpl. rewrite ?Nat.add_0_r.
    rewrite delete_middle, app_nil_r. by destruct ep.
  - apply list_find_None. apply list.Forall_forall. intros x Hx ->. by apply Hnew.
Qed.

(** A container that starts joins exactly the endpoints that bear its name or whose
    identities its labels match, and when it stops every endpoint is again what it was
    before. *)
Theorem containers_come_and_go cid u :
  separate u →
  (∀ ep, ep ∈ points u → owns CompilePOSIX (container_of cid u) ep = true → cid ∉ ep_Containers ep) →
  ∃ u1 u2, MatchandUpdateContainerSecurityPolicies cfg CompilePOSIX spare_containers cid u = Ok u1
  ∧ points u1 = joined (container_of cid u) cid <$> points u
  ∧ MatchandRemoveContainerFromEndpoint CompilePOSIX cid u1 = Ok u2
  ∧ points u2 = points u.
Proof.
  intros Hsep Hnew. set (c := container_of cid u).
  destruct (loop_points (container_added cfg CompilePOSIX spare_containers cid (c_Labels c)) points
    (of_kind c cid) (joined c cid) u (un_len u)) as (u1 & Hu1 & [Hsep1 Hk1] & Hp1);
    [intros; by apply container_added_step|done|by rewrite length_points|].
  rewrite firstn_all2, drop_ge, app_nil_r in Hp1 by (by rewrite length_points).
  destruct (loop_points (container_removed CompilePOSIX cid (container_of cid u1)) points
    (of_kind (container_of cid u1) cid) (left_by (container_of cid u1) cid) u1 (un_len u1))
    as (u2 & Hu2 & _ & Hp2);
    [intros; by apply container_removed_step|done|by rewrite length_points|].
  rewrite firstn_all2, drop_ge, app_nil_r in Hp2 by (by rewrite length_points).
  exists u1, u2. do 3 (split; [done|]). rewrite Hp2, Hp1, <- list_fmap_compose.
  rewrite <- (list_fmap_id (points u)) at 2. apply list_fmap_ext. intros i ep Hep. simpl.
  assert (Heq : left_by (container_of cid u1) cid (joined c cid ep) = left_by c cid (joined c cid ep)).
  { unfold left_by. by rewrite (owns_same_kind c _ _ Hk1). }
  rewrite Heq. apply left_joined. apply Hnew. by eapply list_elem_of_lookup_2.
Qed.

End total.
End props.


(** ** Witnesses *)

Section witnesses.
#[local] Existing Instance canonical_range.

#[export] Instance trace_returns : CallsReturn (B:=trace_backend).
Proof. split; intros; eexists; reflexivity. Qed.

Definition labelled (labels : gmap string string) (name : string) : SecurityPolicy :=
  container_policy name (with_selector
    {| sel_MatchLabels := labels; sel_MatchExpressions := []; sel_Containers := [];
       sel_Identities := []; sel_MatchExpIdentities := []; sel_NonIdentities := [];
       sel_NamespaceList := [] |} empty_SecuritySpec).

Definition web_policy : SecurityPolicy := labelled {["app" := "web"]} "web".
Definition db_policy : SecurityPolicy := labelled {["app" := "db"]} "db".
Definition batch_policy : SecurityPolicy := labelled {["app" := "batch"]} "batch".

Definition sample_slot (name : string) (app : string) (l : nat) (containers : Slice) : Slot :=
  {| st_point := created_point name (labelled {["app" := app]} "") zero_EndPoint;
     st_policies := {| sl_arr := Some l; sl_len := 1 |}; st_containers := containers;
     st_has_labels := false; st_has_privileged := true |}.

(** Three endpoints, the first one without containers *)
Definition three_points : Unorch Trace :=
  {| un_dm := Pods.set_Containers
       {["d1" := in_endpoint zero_EndPoint
           {| c_ContainerID := "d1"; c_ContainerName := "front"; c_ContainerImage := "";
              c_NamespaceName := ""; c_Owner := ("", "", ""); c_EndPointName := "";
              c_Labels := "namespaceName=container_namespace,app=web"; c_AppArmorProfile := "";
              c_Privileged := false; c_PidNS := 7; c_MntNS := 8; c_Pid := 9; c_NodeName := "";
              c_NodeID := ""; c_ProtocolPort := ""; c_Status := ""; c_ContainerIP := "";
              c_LastUpdatedAt := ""; c_PolicyEnabled := 0; c_ProcessVisibilityEnabled := false;
              c_FileVisibilityEnabled := false; c_NetworkVisibilityEnabled := false;
              c_CapabilitiesVisibilityEnabled := false |}]} (sample_daemon [] []);
     un_points := [sample_slot "a" "web" 0 nil_slice;
                   sample_slot "b" "db" 1 {| sl_arr := Some 0; sl_len := 1 |};
                   sample_slot "c" "web" 2 {| sl_arr := Some 1; sl_len := 1 |}];
     un_len := 3;
     un_policies := [[web_policy]; [db_policy]; [web_policy]];
     un_containers := [["b1"]; ["c1"]] |}.

Lemma three_separate : separate three_points.
Proof.
  split; simpl; [lia| |].
  - intros i s Hi Hs. destruct i as [|[|[|i]]]; [..|lia]; injection Hs as <-;
      (split; [by eexists|first [done|by eexists]]).
  - intros i j s t Hi Hj Hij Hs Ht.
    destruct i as [|[|[|i]]], j as [|[|[|j]]]; try lia;
      injection Hs as <-; injection Ht as <-; by split; intros l [= <-].
Qed.

Definition sample_apply (ev cn : string) (p : SecurityPolicy)
    : Unorch Trace → Res (Unorch Trace * PolicyStatus) :=
  apply_container_policy sample_cfg (λ _, None) (λ _, []) ev cn p.

Lemma container_policy_reaches_witness :
  ∃ u', sample_apply addEvent "" web_policy three_points = Ok (u', Applied)
  ∧ List.length (points u') = 3.
Proof.
  destruct (container_policy_reaches sample_cfg (λ _, None) (λ _, []) addEvent "" web_policy
    three_points) as (u' & Hu & Hp & _).
  - left.
  - exact three_separate.
  - intros ep Hep. unfold stays. intros Hh Hl. exfalso.
    change (points three_points) with (point three_points <$> un_points three_points) in Hep.
    apply list_elem_of_In in Hep. destruct Hep as [<-|[<-|[<-|[]]]]; vm_compute in Hh, Hl; congruence.
  - by left.
  - exists u'. split; [exact Hu|]. rewrite Hp. vm_compute. reflexivity.
Defined.

Lemma modified_policy_overwrites_witness :
  ∃ u', sample_apply updateEvent "" batch_policy three_points = Ok (u', Modified)
  ∧ points u' !! 2 = Some (with_posture sample_posture zero_EndPoint).
Proof.
  destruct (modified_policy_overwrites sample_cfg (λ _, None) (λ _, []) "" batch_policy
    three_points) as [_ H].
  - exact three_separate.
  - intros ep Hep. apply list_elem_of_In in Hep.
    destruct Hep as [<-|[<-|[<-|[]]]]; vm_compute; split; reflexivity.
  - destruct (H (point three_points <$> take 2 (un_points three_points))
                (point three_points (sample_slot "c" "web" 2 {| sl_arr := Some 1; sl_len := 1 |})))
      as (u' & Hu & Hp); [vm_compute; reflexivity|].
    exists u'. split; [exact Hu|]. rewrite Hp. reflexivity.
Defined.

Lemma containers_come_and_go_witness :
  ∃ u1 u2, MatchandUpdateContainerSecurityPolicies sample_cfg (λ _, None) (λ _, []) "d1"
             three_points = Ok u1
  ∧ ep_Containers <$> points u1 = [["d1"]; ["b1"]; ["c1"; "d1"]]
  ∧ MatchandRemoveContainerFromEndpoint (λ _, None) "d1" u1 = Ok u2
  ∧ points u2 = points three_points.
Proof.
  destruct (containers_come_and_go sample_cfg (λ _, None) (λ _, []) "d1" three_points)
    as (u1 & u2 & H1 & Hp & H2 & H3).
  - exact three_separate.
  - intros ep Hep _. apply list_elem_of_In in Hep.
    destruct Hep as [<-|[<-|[<-|[]]]]; vm_compute; intros H%list_elem_of_In; simpl in H;
      intuition congruence.
  - exists u1, u2. split; [exact H1|]. split; [|by split]. rewrite Hp. vm_compute. reflexivity.
Defined.

Lemma deletion_loses_endpoint_witness :
  ∃ u', sample_apply deleteEvent "" web_policy three_points = Ok (u', Deleted)
  ∧ ep_EndPointName <$> points u' = ["c"; "c"].
Proof.
  destruct (deletion_loses_endpoint sample_cfg (λ _, None) (λ _, []) "" web_policy three_points
    (point three_points (sample_slot "a" "web" 0 nil_slice))
    (point three_points (sample_slot "b" "db" 1 {| sl_arr := Some 0; sl_len := 1 |}))
    (point three_points (sample_slot "c" "web" 2 {| sl_arr := Some 1; sl_len := 1 |}))
    web_policy web_policy) as (u' & Hu & Hp).
  - exact three_separate.
  - reflexivity.
  - reflexivity.
  - vm_compute. reflexivity.
  - reflexivity.
  - vm_compute. reflexivity.
  - reflexivity.
  - vm_compute. reflexivity.
  - reflexivity.
  - vm_compute. reflexivity.
  - discriminate.
  - exists u'. split; [exact Hu|]. rewrite Hp. reflexivity.
Defined.

End witnesses.
