(* ===== verification/Config.v ===== *)
(** The machine a daemon runs on, as the helpers of [KubeArmor/common/common.go] see it, and
    the settings of the daemon ([KubeArmor/config/config.go]): flags of the command line,
    environment, configuration file, and the record [GlobalCfg] made of them.

    The package [viper], which merges them, is an argument. *)
From Stdlib Require Import Ascii String.
From S2P Require Import Prelude GoStrings GoPath Types Common Daemon Posture.

Open Scope string_scope.
Open Scope Z_scope.

(** ** The machine *)

(** Environment variables, existence and contents of files, output of commands and network
    interfaces with their addresses; [None] is an error. *)
Record Machine := {
  m_env : gmap string string;
  m_exists : string → bool;
  m_ReadFile : string → option string;
  m_command : string → list string → string;
  m_interfaces : option (list (string * option (list string))) }.

Section machine.
Context (m : Machine).

Definition Getenv (k : string) : string := default "" (m_env m !! k).

(** *** Network *)

(** The word after [dev], looked up by its index *)
Fixpoint word_after_dev (words : list string) : Res string :=
  match words with
  | [] => Ok ""
  | w :: words =>
      if String.eqb w "dev"
      then match words with v :: _ => Ok v | [] => Panic end
      else word_after_dev words
  end.

Definition first_part (sep : ascii) (s : string) : string := hd "" (split sep s).

Definition GetExternalInterface : Res string :=
  word_after_dev (split space (first_part newline (m_command m "ip" ["route"]))).

Definition GetIPAddr (ifname : string) : Res string :=
  match m_interfaces m with
  | None => Ok ""
  | Some ifaces =>
      match find (λ iface, String.eqb iface.1 ifname) ifaces with
      | None | Some (_, None) => Ok ""
      | Some (_, Some []) => Panic
      | Some (_, Some (addr :: _)) => Ok (first_part slash addr)
      end
  end.

Definition GetExternalIPAddr : Res string := iface ← GetExternalInterface; GetIPAddr iface.

(** *** Kubernetes *)

Definition IsK8sLocal (K8sEnv : bool) : bool :=
  K8sEnv
  && (negb (String.eqb (Getenv "KUBECONFIG") "") && m_exists m (Clean (Getenv "KUBECONFIG"))
      || m_exists m (Clean (Getenv "HOME" +:+ "/.kube/config"))).

Definition IsInK8sCluster : bool :=
  match m_env m !! "KUBERNETES_SERVICE_HOST" with
  | Some _ => true | None => m_exists m (Clean "/run/secrets/kubernetes.io") end.

Definition IsK8sEnv (K8sEnv : bool) : bool := IsK8sLocal K8sEnv || IsInK8sCluster.

(** *** Sockets of container runtimes *)

Definition ContainerRuntimeSocketKeys : list string := ["docker"; "containerd"; "cri-o"].

Definition ContainerRuntimeSockets : list (string * list string) :=
  [("docker", ["/var/run/docker.sock"; "/run/docker.sock"]);
   ("containerd", ["/var/snap/microk8s/common/run/containerd.sock";
                   "/run/k3s/containerd/containerd.sock";
                   "/run/containerd/containerd.sock";
                   "/var/run/containerd/containerd.sock"; "/run/dockershim.sock"]);
   ("cri-o", ["/var/run/crio/crio.sock"; "/run/crio/crio.sock"])].

Definition runtime_sockets (k : string) : list string :=
  match find (λ e, String.eqb e.1 k) ContainerRuntimeSockets with
  | Some e => e.2 | None => [] end.

Definition NRISockets : list string := ["/var/run/nri/nri.sock"; "/run/nri/nri.sock"].

Definition GetNRISocket : string := default "" (find (m_exists m) NRISockets).

Fixpoint socket_of (ContainerRuntime : string) (keys : list string) : string :=
  match keys with
  | [] => ""
  | k :: keys =>
      if negb (String.eqb ContainerRuntime "") && negb (String.eqb k ContainerRuntime)
      then socket_of ContainerRuntime keys
      else match find (m_exists m) (runtime_sockets k) with
           | Some s => s | None => socket_of ContainerRuntime keys end
  end.
Definition GetCRISocket (ContainerRuntime : string) : string :=
  socket_of ContainerRuntime ContainerRuntimeSocketKeys.
End machine.

(** ** What viper answers *)

(** What [viper] answers for a key *)
Record Viper := {
  GetString : string → string; GetBool : string → bool; GetInt : string → Z }.

(** Conversion of an [int] to [int32] *)
Definition int32 (z : Z) : Z := ((z + 2 ^ 31) mod 2 ^ 32 - 2 ^ 31)%Z.

Definition dot : ascii := ".".

(** ** The record *)

Record KubearmorConfig := {
  kc_Cluster : string; kc_Host : string; kc_GRPC : string; kc_TLSEnabled : bool;
  kc_TLSCertPath : string; kc_TLSCertProvider : string; kc_LogPath : string;
  kc_SELinuxProfileDir : string; kc_CRISocket : string; kc_NRISocket : string;
  kc_NRIIndex : string; kc_NRIEnabled : bool; kc_Visibility : string;
  kc_HostVisibility : string; kc_Policy : bool; kc_HostPolicy : bool; kc_KVMAgent : bool;
  kc_K8sEnv : bool; kc_Debug : bool; kc_DefaultFilePosture : string;
  kc_DefaultNetworkPosture : string; kc_DefaultCapabilitiesPosture : string;
  kc_HostDefaultFilePosture : string; kc_HostDefaultNetworkPosture : string;
  kc_HostDefaultCapabilitiesPosture : string; kc_CoverageTest : bool;
  kc_ConfigUntrackedNs : list string; kc_LsmOrder : list string; kc_BPFFsPath : string;
  kc_EnforcerAlerts : bool; kc_DefaultPostureLogs : bool; kc_InitTimeout : string;
  kc_StateAgent : bool; kc_UseOCIHooks : bool; kc_AlertThrottling : bool;
  kc_MaxAlertPerSec : Z; kc_ThrottleSec : Z; kc_AnnotateResources : bool; kc_MatchArgs : bool;
  kc_ProcFsMount : string; kc_MachineIDPath : string }.

(** ** Flags *)

Inductive Value := VStr (s : string) | VBool (b : bool) | VInt (z : Z).

(** The flags with their defaults; a flag's name is its key. *)
Definition config_flags (hostname : string) : list (string * Value) := [
  ("cluster", VStr "default"); ("host", VStr hostname); ("gRPC", VStr "32767");
  ("tlsEnabled", VBool false); ("tlsCertPath", VStr "/var/lib/kubearmor/tls");
  ("tlsCertProvider", VStr "self"); ("logPath", VStr "none");
  ("seLinuxProfileDir", VStr "/tmp/kubearmor.selinux"); ("criSocket", VStr "");
  ("nriSocket", VStr ""); ("nriIndex", VStr "99"); ("enableNRI", VBool false);
  ("visibility", VStr "process,file,network,capabilities"); ("hostVisibility", VStr "default");
  ("enableKubeArmorPolicy", VBool true); ("enableKubeArmorHostPolicy", VBool false);
  ("enableKubeArmorVm", VBool false); ("k8s", VBool true); ("debug", VBool false);
  ("defaultFilePosture", VStr "audit"); ("defaultNetworkPosture", VStr "audit");
  ("defaultCapabilitiesPosture", VStr "audit"); ("hostDefaultFilePosture", VStr "audit");
  ("hostDefaultNetworkPosture", VStr "audit");
  ("hostDefaultCapabilitiesPosture", VStr "audit"); ("coverageTest", VBool false);
  ("untrackedNs", VStr "kube-system,kubearmor"); ("lsm", VStr "bpf,apparmor,selinux");
  ("bpfFsPath", VStr "/sys/fs/bpf"); ("enforcerAlerts", VBool true);
  ("defaultPostureLogs", VBool true); ("initTimeout", VStr "60s");
  ("enableKubeArmorStateAgent", VBool false); ("alertThrottling", VBool true);
  ("maxAlertPerSec", VInt 10); ("throttleSec", VInt 30); ("annotateResources", VBool false);
  ("matchArgs", VBool true); ("procfsMount", VStr "/proc");
  ("machineIDPath", VStr "/etc/machine-id"); ("useOCIHooks", VBool false)].

(** What is set as [viper]'s defaults: the values of the flags; [args] are those given. *)
Definition readCmdLineParams (hostname : string) (args : gmap string Value)
    : list (string * Value) :=
  (λ kd, (kd.1, default kd.2 (args !! kd.1))) <$> config_flags hostname.

(** ** Loading *)

Definition LoadDynamicConfig (v : Viper) (gc : KubearmorConfig) : KubearmorConfig :=
  {| kc_Cluster := kc_Cluster gc; kc_Host := kc_Host gc; kc_GRPC := kc_GRPC gc;
     kc_TLSEnabled := kc_TLSEnabled gc; kc_TLSCertPath := kc_TLSCertPath gc;
     kc_TLSCertProvider := kc_TLSCertProvider gc; kc_LogPath := kc_LogPath gc;
     kc_SELinuxProfileDir := kc_SELinuxProfileDir gc; kc_CRISocket := kc_CRISocket gc;
     kc_NRISocket := kc_NRISocket gc; kc_NRIIndex := kc_NRIIndex gc;
     kc_NRIEnabled := kc_NRIEnabled gc; kc_Visibility := GetString v "visibility";
     kc_HostVisibility :=
       if String.eqb (GetString v "hostVisibility") "default" then
         if kc_KVMAgent gc || (negb (kc_K8sEnv gc) && kc_HostPolicy gc)
         then "process,file,network,capabilities" else "none"
       else GetString v "hostVisibility";
     kc_Policy := kc_Policy gc; kc_HostPolicy := kc_HostPolicy gc;
     kc_KVMAgent := kc_KVMAgent gc; kc_K8sEnv := kc_K8sEnv gc; kc_Debug := kc_Debug gc;
     kc_DefaultFilePosture := GetString v "defaultFilePosture";
     kc_DefaultNetworkPosture := GetString v "defaultNetworkPosture";
     kc_DefaultCapabilitiesPosture := GetString v "defaultCapabilitiesPosture";
     kc_HostDefaultFilePosture := GetString v "hostDefaultFilePosture";
     kc_HostDefaultNetworkPosture := GetString v "hostDefaultNetworkPosture";
     kc_HostDefaultCapabilitiesPosture := GetString v "hostDefaultCapabilitiesPosture";
     kc_CoverageTest := kc_CoverageTest gc; kc_ConfigUntrackedNs := kc_ConfigUntrackedNs gc;
     kc_LsmOrder := kc_LsmOrder gc; kc_BPFFsPath := kc_BPFFsPath gc;
     kc_EnforcerAlerts := GetBool v "enforcerAlerts";
     kc_DefaultPostureLogs := GetBool v "defaultPostureLogs";
     kc_InitTimeout := GetString v "initTimeout";
     kc_StateAgent := GetBool v "enableKubeArmorStateAgent";
     kc_UseOCIHooks := GetBool v "useOCIHooks";
     kc_AlertThrottling := GetBool v "alertThrottling";
     kc_MaxAlertPerSec := int32 (GetInt v "maxAlertPerSec");
     kc_ThrottleSec := int32 (GetInt v "throttleSec");
     kc_AnnotateResources := kc_AnnotateResources gc; kc_MatchArgs := GetBool v "matchArgs";
     kc_ProcFsMount := kc_ProcFsMount gc; kc_MachineIDPath := kc_MachineIDPath gc |}.

Section load.
Context (m : Machine).
(** [viper] with these defaults, and with a configuration file or without *)
Context (ReadInConfig : string → bool).
Context (viper : list (string * Value) → option string → Viper).

Definition env_or (k d : string) : string :=
  if String.eqb (Getenv m k) "" then d else Getenv m k.

(** The settings that are read once; the others are zero until [LoadDynamicConfig]. *)
Definition static_config (hostname : option string) (v : Viper) : KubearmorConfig :=
  let criSocket := env_or "CRI_SOCKET" (GetString v "criSocket") in
  let kvm := GetBool v "enableKubeArmorVm" in
  {| kc_Cluster := GetString v "cluster";
       kc_Host :=
       if String.eqb (GetString v "host") ""
       then match hostname with Some h => first_part dot h | None => "" end
       else GetString v "host";
       kc_GRPC := GetString v "gRPC"; kc_TLSEnabled := GetBool v "tlsEnabled";
       kc_TLSCertPath := GetString v "tlsCertPath";
       kc_TLSCertProvider := GetString v "tlsCertProvider"; kc_LogPath := GetString v "logPath";
       kc_SELinuxProfileDir := ""; kc_CRISocket := criSocket;
       kc_NRISocket := env_or "NRI_SOCKET" (GetString v "nriSocket");
       kc_NRIIndex := GetString v "nriIndex"; kc_NRIEnabled := GetBool v "enableNRI";
       kc_Visibility := ""; kc_HostVisibility := "";
       kc_Policy := negb kvm && GetBool v "enableKubeArmorPolicy";
       kc_HostPolicy := kvm || GetBool v "enableKubeArmorHostPolicy"; kc_KVMAgent := kvm;
       kc_K8sEnv := GetBool v "k8s"; kc_Debug := GetBool v "debug"; kc_DefaultFilePosture := "";
       kc_DefaultNetworkPosture := ""; kc_DefaultCapabilitiesPosture := "";
       kc_HostDefaultFilePosture := ""; kc_HostDefaultNetworkPosture := "";
       kc_HostDefaultCapabilitiesPosture := ""; kc_CoverageTest := GetBool v "coverageTest";
       kc_ConfigUntrackedNs := split comma (GetString v "untrackedNs");
       kc_LsmOrder := split comma (GetString v "lsm"); kc_BPFFsPath := GetString v "bpfFsPath";
       kc_EnforcerAlerts := false; kc_DefaultPostureLogs := false;
       kc_InitTimeout := GetString v "initTimeout";
       kc_StateAgent := GetBool v "enableKubeArmorStateAgent"; kc_UseOCIHooks := false;
       kc_AlertThrottling := false; kc_MaxAlertPerSec := 0; kc_ThrottleSec := 0;
       kc_AnnotateResources := GetBool v "annotateResources"; kc_MatchArgs := false;
       kc_ProcFsMount := GetString v "procfsMount";
       kc_MachineIDPath := GetString v "machineIDPath" |}.

Inductive ConfigError := BadFile (file : string) | BadSocket (socket : string).

Definition load_from (hostname : option string) (v : Viper) : KubearmorConfig + ConfigError :=
  let gc := static_config hostname v in
  if negb (String.eqb (kc_CRISocket gc) "") && negb (HasPrefix (kc_CRISocket gc) "unix://")
  then inr (BadSocket (kc_CRISocket gc))
  else inl (LoadDynamicConfig v gc).

Definition LoadConfig (hostname : option string) (args : gmap string Value)
    : KubearmorConfig + ConfigError :=
  let defaults := readCmdLineParams (default "" hostname) args in
  let cfgfile := env_or "KUBEARMOR_CFG" "kubearmor.yaml" in
  if m_exists m cfgfile then
    if ReadInConfig cfgfile then load_from hostname (viper defaults (Some cfgfile))
    else inr (BadFile cfgfile)
  else load_from hostname (viper defaults None).
End load.

(** ** What the components read of it *)

Definition settings_of (enforcer : option string) (presets : bool) (gc : KubearmorConfig)
    : Settings :=
  {| cf_Policy := kc_Policy gc; cf_HostPolicy := kc_HostPolicy gc;
     cf_KVMAgent := kc_KVMAgent gc; cf_K8sEnv := kc_K8sEnv gc;
     cf_RuntimeEnforcer := enforcer; cf_Presets := presets;
     cf_UntrackedNamespaces := kc_ConfigUntrackedNs gc |}.

Definition running_of (gc : KubearmorConfig) : GlobalCfg :=
  {| gc_HostVisibility := kc_HostVisibility gc; gc_Visibility := kc_Visibility gc;
     gc_Cluster := kc_Cluster gc; gc_DefaultPostureLogs := kc_DefaultPostureLogs gc;
     gc_AlertThrottling := kc_AlertThrottling gc; gc_MaxAlertPerSec := kc_MaxAlertPerSec gc;
     gc_ThrottleSec := kc_ThrottleSec gc; gc_MatchArgs := kc_MatchArgs gc |}.

Definition posture_of (gc : KubearmorConfig) : DefaultPosture :=
  {| dp_FileAction := kc_DefaultFilePosture gc; dp_NetworkAction := kc_DefaultNetworkPosture gc;
     dp_CapabilitiesAction := kc_DefaultCapabilitiesPosture gc |}.
