(* ===== verification/Backups.v ===== *)
(** The daemon without Kubernetes: the configuration file ([KubeArmor/config/config.go],
    [LoadDynamicConfig]; [WatchConfigChanges] and [SetContainerNSVisibility] of
    [KubeArmor/core/unorchestratedUpdates.go]), requests for policies over gRPC
    ([KubeArmor/policy/policy.go]) and the files in which policies survive a restart
    (the end of [unorchestratedUpdates.go]). *)
From Stdlib Require Import Ascii String.
From S2P Require Import Prelude GoStrings GoSlices Types Common BpfEnforcer NsMap PolicySpec Daemon Pods Posture Unorchestrated Config.

Open Scope string_scope.

(** ** The configuration file *)

Section config.
Context `{R : GoRange} {W : Type} `{B : !Backend W} `{CB : !ControlBackend W} (cfg : Settings).
Context (CompilePOSIX : string → option (string → bool)).

(** The settings of [GlobalCfg]; the host's postures and settings read only at start are
    left out. *)
Definition LoadDynamicConfig (v : Viper) (r : Running W) : Running W :=
  let gc := run_cfg r in
  let host := GetString v "hostVisibility" in
  {| run_cfg :=
       {| gc_HostVisibility :=
            if String.eqb host "default" then
              if cf_KVMAgent cfg || (negb (cf_K8sEnv cfg) && cf_HostPolicy cfg)
              then "process,file,network,capabilities" else "none"
            else host;
          gc_Visibility := GetString v "visibility"; gc_Cluster := gc_Cluster gc;
          gc_DefaultPostureLogs := GetBool v "defaultPostureLogs";
          gc_AlertThrottling := GetBool v "alertThrottling";
          gc_MaxAlertPerSec := int32 (GetInt v "maxAlertPerSec");
          gc_ThrottleSec := int32 (GetInt v "throttleSec");
          gc_MatchArgs := GetBool v "matchArgs" |};
     run_dm := set_GlobalPosture
       {| dp_FileAction := GetString v "defaultFilePosture";
          dp_NetworkAction := GetString v "defaultNetworkPosture";
          dp_CapabilitiesAction := GetString v "defaultCapabilitiesPosture" |} (run_dm r) |}.

(** A turn of the loop over the endpoints, of which the namespaces do not change *)
Definition config_endpoint (posture : DefaultPosture) (visibility : Visibility)
    (r : Res (Running W)) (ep : EndPoint) : Res (Running W) :=
  r ← r;
  dm ← UpdateDefaultPosture cfg updateEvent (ep_NamespaceName ep) posture false (run_dm r);
  run_call (monitor_UpdateVisibility_ns updateEvent (ep_NamespaceName ep) visibility)
    (set_run_dm dm r).

(** The callback of [WatchConfigChanges] *)
Definition config_changed (v : Viper) (r : Running W) : Res (Running W) :=
  let r := LoadDynamicConfig v r in
  let loaded := dm_GlobalPosture (run_dm r) in
  let posture :=
    {| dp_FileAction := validateGlobalDefaultPosture (dp_FileAction loaded);
       dp_NetworkAction := validateGlobalDefaultPosture (dp_NetworkAction loaded);
       dp_CapabilitiesAction := validateGlobalDefaultPosture (dp_CapabilitiesAction loaded) |} in
  let visibility := parse_visibility (gc_Visibility (run_cfg r)) in
  let r := set_run_dm (UpdateGlobalPosture posture (run_dm r)) r in
  r ← foldl (config_endpoint posture visibility) (Ok r) (dm_EndPoints (run_dm r));
  r ← run_call (monitor_UpdateThrottlingConfig (run_cfg r)) r;
  r ← run_call (monitor_UpdateVisibility (run_cfg r)) r;
  dm ← UpdateHostSecurityPolicies cfg CompilePOSIX (run_dm r); Ok (set_run_dm dm r).

Definition SetContainerNSVisibility (r : Running W) : Res (Running W) :=
  run_call (monitor_UpdateVisibility_ns addEvent container_namespace
              (parse_visibility (gc_Visibility (run_cfg r)))) r.
End config.

(** ** Files of policies *)

Definition PolicyDir : string := "/opt/kubearmor/policies/".

(** Names of files with what they hold *)
Definition Files : Type := gmap string string.

Definition policy_file (name : string) : string := PolicyDir +:+ name +:+ ".yaml".

Section files.
(** Whether the directory is there or can be made, and whether a file can be made *)
Context (dir_ok : bool) (create_ok : string → bool).

Definition write_file (name data : string) (fs : Files) : Files :=
  if dir_ok && create_ok (policy_file name) then <[policy_file name := data]> fs else fs.

Definition backupKubeArmorHostPolicy (MarshalPolicy : HostSecurityPolicy → string)
    (policy : HostSecurityPolicy) (fs : Files) : Files :=
  write_file (host_name policy) (MarshalPolicy policy) fs.

Definition backupKubeArmorContainerPolicy (MarshalPolicy : SecurityPolicy → string)
    (policy : SecurityPolicy) (fs : Files) : Files :=
  write_file (meta "policyName" policy) (MarshalPolicy policy) fs.

Definition removeBackUpPolicy (name : string) (fs : Files) : Files :=
  delete (policy_file name) fs.
End files.

(** ** Requests and restoration *)

Section requests.
Context `{R : GoRange} {W : Type} `{B : !Backend W} (cfg : Settings).
Context (CompilePOSIX : string → option (string → bool)).
Context (spare_policies : nat → list SecurityPolicy).
(** JSON: encoding and decoding of the specifications that [kl.Clone] copies *)
Context (Marshal : SecuritySpec → string) (Unmarshal : string → option SecuritySpec).
Context (MarshalHost : HostSecuritySpec → string)
        (UnmarshalHost : string → option HostSecuritySpec).

Definition container_event (ev name : string) (spec : SecuritySpec) (u : Unorch W)
    : Res (Unorch W * PolicyStatus) :=
  ParseAndUpdateContainerSecurityPolicy cfg CompilePOSIX spare_policies Marshal Unmarshal
    ev name spec u.

Definition host_event (ev name : string) (spec : HostSecuritySpec) (u : Unorch W)
    : Res (Unorch W * PolicyStatus) :=
  r ← ParseAndUpdateHostSecurityPolicy cfg CompilePOSIX MarshalHost UnmarshalHost ev name spec
        (un_dm u);
  Ok (set_un_dm r.1 u, r.2).

(** An event: its type, the policy's name and specification *)
Record PolicyEvent (Spec : Type) := {
  pe_Type : string; pe_Name : string; pe_Spec : Spec }.
Arguments pe_Type {Spec}.
Arguments pe_Name {Spec}.
Arguments pe_Spec {Spec}.

(** The handlers of the gRPC service; decoding of the request may fail. *)
Definition serve {Spec} (enabled : bool) (decode : string → option (PolicyEvent Spec))
    (update : string → string → Spec → Unorch W → Res (Unorch W * PolicyStatus))
    (data : string) (u : Unorch W) : Res (Unorch W * PolicyStatus) :=
  if negb enabled then Ok (u, NotEnabled)
  else match decode data with
       | Some e =>
           if String.eqb (pe_Name e) "" then Ok (u, Invalid)
           else update (pe_Type e) (pe_Name e) (pe_Spec e) u
       | None => Ok (u, Invalid)
       end.

Definition ContainerPolicy (enabled : bool)
    (decode : string → option (PolicyEvent SecuritySpec)) (data : string) (u : Unorch W)
    : Res (Unorch W * PolicyStatus) := serve enabled decode container_event data u.
Definition HostPolicy (enabled : bool)
    (decode : string → option (PolicyEvent HostSecuritySpec)) (data : string) (u : Unorch W)
    : Res (Unorch W * PolicyStatus) := serve enabled decode host_event data u.

(** What a file decodes to: its metadata, its policy as one of containers, or of hosts *)
Context (decode_metadata : string → option (gmap string string))
        (decode_container : string → option SecuritySpec)
        (decode_host : string → option HostSecuritySpec).

(** A file of the directory; one that cannot be read or decoded is passed over. *)
Definition restore_file (fs : Files) (r : Res (Unorch W)) (file : string) : Res (Unorch W) :=
  u ← r;
  match fs !! file with
  | None => Ok u
  | Some data =>
      match decode_metadata data with
      | None => Ok u
      | Some metadata =>
          let name := default "" (metadata !! "policyName") in
          match metadata !! "namespaceName" with
          | Some _ =>
              match decode_container data with
              | Some spec => ur ← container_event addEvent name spec u; Ok ur.1
              | None => Ok u
              end
          | None =>
              match decode_host data with
              | Some spec => ur ← host_event addEvent name spec u; Ok ur.1
              | None => Ok u
              end
          end
      end
  end.

(** A file of the directory itself, not of a directory in it *)
Definition in_PolicyDir (file : string) : bool :=
  HasPrefix file PolicyDir && negb (char_in slash (TrimPrefix file PolicyDir)).

(** [os.ReadDir] sorts the files by their names.  Backing up a restored policy writes its
    own file anew, so the files stay as they are meanwhile. *)
Definition restoreKubeArmorPolicies (fs : Files) (u : Unorch W) : Res (Unorch W) :=
  foldl (restore_file fs) (Ok u) (sort_strings (filter in_PolicyDir (map_to_list fs).*1)).
End requests.
