(* ===== verification/BackupsProps.v ===== *)
(** The daemon without Kubernetes: what a new configuration does to the endpoints, and
    that policies survive a restart. *)
From Stdlib Require Import Ascii String.
From S2P Require Import Prelude GoStrings GoSlices Types Common BpfEnforcer NsMap PolicySpec PolicySpecProps Daemon DaemonProps Pods PodsProps Posture PostureProps Unorchestrated UnorchestratedProps Config Backups.

Open Scope string_scope.
Open Scope nat_scope.

(** ** Restarts *)

Section restart.
Context `{R : GoRange} {W : Type} `{B : !Backend W} (cfg : Settings).
Context (CompilePOSIX : string → option (string → bool)).
Context (spare_policies : nat → list SecurityPolicy).
Context (Marshal : SecuritySpec → string) (Unmarshal : string → option SecuritySpec).
Context (MarshalHost : HostSecuritySpec → string)
        (UnmarshalHost : string → option HostSecuritySpec).
Context (decode_metadata : string → option (gmap string string))
        (decode_container : string → option SecuritySpec)
        (decode_host : string → option HostSecuritySpec).
Context (encode : SecurityPolicy → string).
Context `{CR : !CallsReturn (B:=B)}.
Implicit Types (u : Unorch W) (p q : SecurityPolicy).

Definition pname p : string := meta "policyName" p.

(** The encoding of a policy and of its specification is decoded to it. *)
Record decodes p : Prop := {
  dec_metadata : decode_metadata (encode p) = Some (sp_Metadata p);
  dec_container : decode_container (encode p) = Some (sp_Spec p);
  dec_clone : Unmarshal (Marshal (sp_Spec p)) = Some (sp_Spec p) }.

(** A policy that the daemon has made of a request and not refused *)
Definition accepted p : Prop :=
  ∃ s cn, p = container_policy (pname p) s
  ∧ container_name_of cfg CompilePOSIX (sel_MatchLabels (ss_Selector s)) = Some cn.

Lemma container_policy_again name s :
  container_policy name (sp_Spec (container_policy name s)) = container_policy name s.
Proof.
  set (X := sp_Spec (container_policy name s)). unfold container_policy at 1.
  assert (HX : with_selector (with_identities
            (container_identities (sel_MatchLabels (ss_Selector X))) (ss_Selector X)) X = X)
    by reflexivity.
  rewrite HX. unfold X, container_policy. cbn [sp_Spec]. by rewrite fill_container_spec_idem.
Qed.

(** The state while policies are restored, [done] of them so far *)
Record restored (done : list SecurityPolicy) u : Prop := {
  rs_separate : separate u;
  rs_stored : stored u = done;
  rs_known ep q : ep ∈ points u → q ∈ ep_SecurityPolicies ep → pol_key q ∈ pol_key <$> done;
  rs_applied q : q ∈ done → ∃ ep, ep ∈ points u ∧ q ∈ ep_SecurityPolicies ep }.

Lemma none_same p ep done u :
  restored done u → ep ∈ points u → pol_key p ∉ pol_key <$> done →
  existsb (same_policy p) (ep_SecurityPolicies ep) = false.
Proof.
  intros Hr Hep Hp. apply existsb_same_false. intros (q & Hk & Hq)%list_elem_of_fmap.
  apply Hp. rewrite Hk. by apply (rs_known done u Hr ep).
Qed.

(** An endpoint after a new policy *)
Lemma point_spec_new p dp ep :
  existsb (same_policy p) (ep_SecurityPolicies ep) = false →
  ep_SecurityPolicies (point_spec CompilePOSIX addEvent dp p ep) =
  (ep_SecurityPolicies ep ++ if hits CompilePOSIX p ep then [p] else [])%list.
Proof.
  intros Hn. unfold point_spec, changed. rewrite Hn. destruct (hits CompilePOSIX p ep); [done|].
  simpl. rewrite app_nil_r. by apply remove_first_none.
Qed.

Lemma restored_step p cn done u :
  restored done u → pol_key p ∉ pol_key <$> done →
  ∃ u', apply_container_policy cfg CompilePOSIX spare_policies addEvent cn p u = Ok (u', Applied)
  ∧ restored (done ++ [p])%list u'.
Proof.
  intros Hr Hp.
  assert (Hst : ∀ ep, ep ∈ points u → stays CompilePOSIX p ep).
  { intros ep Hep _ Hh. pose proof (none_same p ep done u Hr Hep Hp) as Hn.
    unfold holds in Hh. congruence. }
  destruct (applied_policy_points cfg CompilePOSIX spare_policies addEvent cn p u) as
    (u' & Hu & Hpts & Hsep); [left|apply Hr|done|by left|].
  exists u'. split; [exact Hu|].
  pose proof (apply_policy_store _ _ _ _ _ _ _ _ _ Hu) as Hs. rewrite (rs_stored _ _ Hr) in Hs.
  unfold store_container_policy in Hs. change (String.eqb addEvent addEvent) with true in Hs.
  rewrite (proj2 (existsb_same_false p done) Hp) in Hs.
  set (dp := dm_GlobalPosture (un_dm u)) in *.
  assert (Hold : ∀ ep, ep ∈ points u → ∃ ep', ep' ∈ points u'
            ∧ ep_SecurityPolicies ep' =
                (ep_SecurityPolicies ep ++ if hits CompilePOSIX p ep then [p] else [])%list).
  { intros ep Hep. exists (point_spec CompilePOSIX addEvent dp p ep). split.
    - rewrite Hpts. apply elem_of_app. left. by apply list_elem_of_fmap_2.
    - apply point_spec_new. by eapply none_same. }
  split; [done|done| |].
  - intros ep q Hep Hq. rewrite fmap_app. apply elem_of_app. rewrite Hpts in Hep.
    apply elem_of_app in Hep as [Hep|Hep].
    + apply list_elem_of_fmap in Hep as (ep0 & -> & Hep0).
      rewrite point_spec_new in Hq by (by eapply none_same).
      apply elem_of_app in Hq as [Hq|Hq].
      * left. by apply (rs_known _ _ Hr ep0).
      * destruct (hits CompilePOSIX p ep0); [|by apply elem_of_nil in Hq].
        apply list_elem_of_singleton in Hq as ->. right. left.
    + destruct (existsb _ _); [by apply elem_of_nil in Hep|].
      apply list_elem_of_singleton in Hep as ->. cbn in Hq.
      apply list_elem_of_singleton in Hq as ->. right. left.
  - intros q [Hq| ->%list_elem_of_singleton]%elem_of_app.
    + destruct (rs_applied _ _ Hr q Hq) as (ep & Hep & Hq').
      destruct (Hold ep Hep) as (ep' & Hep' & Hpol). exists ep'. split; [done|].
      rewrite Hpol. apply elem_of_app. by left.
    + destruct (existsb (hits CompilePOSIX p) (points u)) eqn:Hex.
      * apply existsb_exists in Hex as (ep & Hep & Hh). apply list_elem_of_In in Hep.
        destruct (Hold ep Hep) as (ep' & Hep' & Hpol). exists ep'. split; [done|].
        rewrite Hpol, Hh. apply elem_of_app. right. left.
      * exists (created cn dp p). split; [rewrite Hpts; apply elem_of_app; right; left|]. left.
Qed.

Local Abbreviation restore fs :=
  (restore_file cfg CompilePOSIX spare_policies Marshal Unmarshal MarshalHost UnmarshalHost
     decode_metadata decode_container decode_host fs).

Lemma restore_file_policy (fs : Files) p done u :
  fs !! policy_file (pname p) = Some (encode p) → decodes p → accepted p →
  restored done u → pol_key p ∉ pol_key <$> done →
  ∃ u', restore fs (Ok u) (policy_file (pname p)) = Ok u' ∧ restored (done ++ [p])%list u'.
Proof.
  intros Hfs [Hm Hc Hcl] (s & cn & Hps & Hcn) Hr Hp.
  unfold restore_file. cbn [mbind Res_bind]. rewrite Hfs, Hm, Hc.
  assert (Hns : sp_Metadata p !! "namespaceName" = Some container_namespace).
  { rewrite Hps. cbn. unfold policy_metadata. by rewrite lookup_insert_ne, lookup_insert_eq. }
  rewrite Hns. change (default "" (sp_Metadata p !! "policyName")) with (pname p).
  unfold container_event, ParseAndUpdateContainerSecurityPolicy, Clone. rewrite Hcl.
  assert (Hlab : sel_MatchLabels (ss_Selector (sp_Spec p)) = sel_MatchLabels (ss_Selector s)).
  { by rewrite Hps. }
  rewrite Hlab, Hcn.
  assert (Hagain : container_policy (pname p) (sp_Spec p) = p).
  { rewrite Hps at 2. rewrite container_policy_again. by symmetry. }
  rewrite Hagain. destruct (restored_step p cn done u Hr Hp) as (u' & -> & Hr').
  cbn [mbind Res_bind]. by exists u'.
Qed.

Lemma pol_key_name p q :
  accepted p → accepted q → pol_key p = pol_key q ↔ pname p = pname q.
Proof.
  assert (Hk : ∀ x, accepted x → pol_key x = (container_namespace, pname x)).
  { intros x (s & cn & Hx & _). unfold pol_key. f_equal. rewrite Hx. unfold meta. cbn.
    unfold policy_metadata. by rewrite lookup_insert_ne, lookup_insert_eq. }
  intros Hp Hq. rewrite (Hk p Hp), (Hk q Hq). split; [by intros [= ->]|by intros ->].
Qed.

(** The files of the policies [ps], restored one after another *)
Lemma restore_files (fs : Files) (ps : list SecurityPolicy) l done u :
  (∀ p, p ∈ ps → fs !! policy_file (pname p) = Some (encode p) ∧ decodes p ∧ accepted p) →
  (∀ f d, fs !! f = Some d → ∃ p, p ∈ ps ∧ f = policy_file (pname p)) →
  restored done u → NoDup (pol_key <$> done) →
  (∀ p, p ∈ done → p ∈ ps ∧ policy_file (pname p) ∉ l) → NoDup l →
  (∀ f, f ∈ l → ∃ d, fs !! f = Some d) →
  ∃ u' done', foldl (restore fs) (Ok u) l = Ok u' ∧ restored done' u'
  ∧ NoDup (pol_key <$> done')
  ∧ ∀ p, p ∈ done' ↔ p ∈ done ∨ p ∈ ps ∧ policy_file (pname p) ∈ l.
Proof.
  intros Hps Hfs. revert done u. induction l as [|f l IH]; intros done u Hr Hnd Hdone Hl Hin.
  { exists u, done. split_and!; [done..|]. intros p. split; [by left|].
    intros [?|[_ []%elem_of_nil]]. done. }
  apply list.NoDup_cons in Hl as [Hf Hl]. destruct (Hin f) as [d Hd]; [left|].
  destruct (Hfs f d Hd) as (p & Hp & ->). destruct (Hps p Hp) as (Hfp & Hdec & Hacc).
  assert (Hnew : pol_key p ∉ pol_key <$> done).
  { intros (q & Hk & Hq)%list_elem_of_fmap. destruct (Hdone q Hq) as [Hqps Hqf].
    apply Hqf. destruct (Hps q Hqps) as (_ & _ & Haccq).
    apply (pol_key_name p q Hacc Haccq) in Hk. rewrite <- Hk. left. }
  cbn [foldl]. destruct (restore_file_policy fs p done u Hfp Hdec Hacc Hr Hnew) as (u1 & -> & Hr1).
  destruct (IH (done ++ [p])%list u1 Hr1) as (u' & done' & Hu & Hr' & Hnd' & Hd').
  - rewrite fmap_app. apply list.NoDup_app. split; [done|]. split; [|by apply list.NoDup_singleton].
    intros k Hk ->%list_elem_of_singleton. done.
  - intros q [Hq| ->%list_elem_of_singleton]%elem_of_app; [|done].
    destruct (Hdone q Hq) as [? Hqf]. split; [done|]. intros Hql. apply Hqf. by right.
  - done.
  - intros f Hf'. apply Hin. by right.
  - exists u', done'. split_and!; [done..|]. intros q. rewrite Hd', elem_of_app, list_elem_of_singleton, elem_of_cons. split.
    + intros [[?| ->]|[? ?]]; [by left|right; split; [done|by left]|right; split; [done|by right]].
    + intros [?|[Hq [Hqf|?]]]; [by left; left| |by right].
      left. right. destruct (Hps q Hq) as (Hfq & Hdq & Haccq).
      rewrite Hqf, Hfp in Hfq. injection Hfq as Henc.
      pose proof (dec_container q Hdq) as Hc. rewrite <- Henc in Hc.
      pose proof (dec_metadata q Hdq) as Hm. rewrite <- Henc in Hm.
      rewrite (dec_container p Hdec) in Hc. rewrite (dec_metadata p Hdec) in Hm.
      destruct p, q. simpl in *. congruence.
Qed.

(** ** The files that requests leave *)

(** The requests that took effect, oldest first: their types and their policies *)
Local Abbreviation Requests := (list (string * SecurityPolicy)).

(** A policy was added or changed, and no later request is about its name. *)
Definition survives (reqs : Requests) p : Prop :=
  ∃ before ev after, reqs = (before ++ (ev, p) :: after)%list ∧ ev ≠ deleteEvent
  ∧ ∀ r, r ∈ after → pname r.2 ≠ pname p.

Definition kept_after (l : list SecurityPolicy) (r : string * SecurityPolicy)
    : list SecurityPolicy :=
  (filter (λ q, pname q ≠ pname r.2) l ++ if String.eqb r.1 deleteEvent then [] else [r.2])%list.
Definition kept (reqs : Requests) : list SecurityPolicy := foldl kept_after [] reqs.

Lemma kept_snoc reqs r : kept (reqs ++ [r])%list = kept_after (kept reqs) r.
Proof. unfold kept. by rewrite foldl_app. Qed.

Lemma kept_survives reqs p : p ∈ kept reqs ↔ survives reqs p.
Proof.
  induction reqs as [|[ev q] reqs IH] using rev_ind.
  { split; [by intros []%elem_of_nil|]. intros ([|] & ? & ? & ? & _); done. }
  rewrite kept_snoc. unfold kept_after. cbn [fst snd]. rewrite elem_of_app, list_elem_of_filter, IH.
  split.
  - intros [[Hne (before & ev' & after & -> & Hev & Hafter)]|Hp].
    + exists before, ev', (after ++ [(ev, q)])%list. split; [by rewrite <- app_assoc|].
      split; [done|]. intros r [Hr| ->%list_elem_of_singleton]%elem_of_app; [by apply Hafter|].
      simpl. congruence.
    + destruct (String.eqb_spec ev deleteEvent); [by apply elem_of_nil in Hp|].
      apply list_elem_of_singleton in Hp as ->. exists reqs, ev, [].
      split_and!; [done..|]. by intros r []%elem_of_nil.
  - intros (before & ev' & after & Heq & Hev & Hafter).
    destruct after as [|x after _] using rev_ind.
    + apply app_inj_tail in Heq as [<- [= <- <-]]. right.
      rewrite (proj2 (String.eqb_neq _ _) Hev). left.
    + rewrite app_comm_cons, app_assoc in Heq. apply app_inj_tail in Heq as [-> <-].
      left. split.
      * intros Hn. apply (Hafter (ev, q)); [|by symmetry]. apply elem_of_app. right. left.
      * exists before, ev', after. split_and!; [done..|]. intros r Hr. apply Hafter.
        apply elem_of_app. by left.
Qed.

Lemma policy_file_inj a b : policy_file a = policy_file b → a = b.
Proof.
  unfold policy_file. intros H%(inj (String.append PolicyDir)). by apply string_app_inj_r in H.
Qed.

(** The daemon keeps its backups in [files]; its other parts leave them alone. *)
Context (dir_ok : bool) (create_ok : string → bool) (files : W → Files).

Class BackupsLaw : Prop := {
  bl_quiet : QuietCalls (files ∘ dm_w);
  bl_backup p w w' : backup_ContainerPolicy p w = Ok w' →
    files w' = backupKubeArmorContainerPolicy dir_ok create_ok encode p (files w);
  bl_remove name w w' : remove_BackUpPolicy name w = Ok w' →
    files w' = removeBackUpPolicy name (files w) }.

Definition disk u : Files := files (dm_w (un_dm u)).

Local Abbreviation request :=
  (container_event cfg CompilePOSIX spare_policies Marshal Unmarshal).

(** A run of the daemon: requests for policies of containers, refused or not, among
    whatever else leaves the backups alone *)
Inductive lifetime : Requests → Unorch W → Unorch W → Prop :=
| life_start u : lifetime [] u u
| life_other reqs u0 u u' : lifetime reqs u0 u → disk u' = disk u → lifetime reqs u0 u'
| life_refused reqs u0 u u' ev name spec status :
    lifetime reqs u0 u → request ev name spec u = Ok (u', status) → continues status = false →
    lifetime reqs u0 u'
| life_request reqs u0 u u' ev name spec s status :
    lifetime reqs u0 u → request ev name spec u = Ok (u', status) → continues status = true →
    ev ∈ [addEvent; updateEvent; deleteEvent] → Clone Marshal Unmarshal spec = Some s →
    lifetime (reqs ++ [(ev, container_policy name s)])%list u0 u'.

Context (L : BackupsLaw).
Context (Hon : negb (cf_K8sEnv cfg) && (cf_KVMAgent cfg || cf_Policy cfg) = true).

Lemma request_disk ev name spec s status u u' :
  request ev name spec u = Ok (u', status) → Clone Marshal Unmarshal spec = Some s →
  ev ∈ [addEvent; updateEvent; deleteEvent] → let p := container_policy name s in
  disk u' = if continues status then
              if String.eqb ev deleteEvent then removeBackUpPolicy (pname p) (disk u)
              else backupKubeArmorContainerPolicy dir_ok create_ok encode p (disk u)
            else disk u.
Proof.
  unfold container_event, ParseAndUpdateContainerSecurityPolicy. intros H Hs Hev. rewrite Hs in H.
  destruct (container_name_of _ _ _) as [cn|]; [|by injection H as <- <-]. cbv zeta.
  apply (apply_policy_seen _ _ _ (files ∘ dm_w)) in H as (u1 & Hd & H); [|apply bl_quiet].
  change (disk u1 = disk u) in Hd. rewrite <- Hd.
  destruct (continues status); [|by subst]. unfold un_call, call, back_up in H. rewrite Hon in H.
  go_res H. go_res Ha. injection H as <-. injection Ha as <-. unfold disk in *. simpl.
  apply list_elem_of_In in Hev as [<-|[<-|[<-|[]]]].
  - by apply bl_backup in Ha0.
  - by apply bl_backup in Ha0.
  - by apply bl_remove in Ha0.
Qed.

Lemma refused_disk ev name spec status u u' :
  request ev name spec u = Ok (u', status) → continues status = false → disk u' = disk u.
Proof.
  unfold container_event, ParseAndUpdateContainerSecurityPolicy. intros H Hc.
  destruct (Clone _ _ _); [|by injection H as <- <-].
  destruct (container_name_of _ _ _) as [cn|]; [|by injection H as <- <-].
  apply (apply_policy_seen _ _ _ (files ∘ dm_w)) in H as (u1 & Hd & H); [|apply bl_quiet].
  rewrite Hc in H. by subst.
Qed.

Lemma request_accepted ev name spec s status u u' :
  request ev name spec u = Ok (u', status) → Clone Marshal Unmarshal spec = Some s →
  continues status = true → accepted (container_policy name s).
Proof.
  unfold container_event, ParseAndUpdateContainerSecurityPolicy. intros H Hs Hc. rewrite Hs in H.
  destruct (container_name_of _ _ _) as [cn|] eqn:Hn; [|by injection H as <- <-].
  exists s, cn. split; [|done]. by unfold pname, meta.
Qed.

(** The files after a run are those of the policies that survive it. *)
Lemma lifetime_disk reqs u0 u :
  lifetime reqs u0 u → disk u0 = ∅ →
  (∀ r, r ∈ reqs → create_ok (policy_file (pname r.2)) = true) → dir_ok = true →
  (∀ p, p ∈ kept reqs → disk u !! policy_file (pname p) = Some (encode p))
  ∧ (∀ f d, disk u !! f = Some d → ∃ p, p ∈ kept reqs ∧ f = policy_file (pname p)).
Proof.
  intros Hl H0 Hcreate Hdir. induction Hl as
    [u|reqs u0 u u' Hl IH Hd|reqs u0 u u' ev name spec status Hl IH Hr Hc
    |reqs u0 u u' ev name spec s status Hl IH Hr Hc Hev Hs].
  - rewrite H0. split; [by intros p []%elem_of_nil|]. intros f d Hf. by apply lookup_empty_Some in Hf.
  - rewrite Hd. by apply IH.
  - rewrite (refused_disk _ _ _ _ _ _ Hr Hc). by apply IH.
  - pose proof (request_disk _ _ _ _ _ _ _ Hr Hs Hev) as Hd. cbv zeta in Hd. rewrite Hc in Hd.
    set (p := container_policy name s) in *. rewrite kept_snoc. unfold kept_after. cbn [fst snd].
    destruct IH as [IH1 IH2]; [done|intros r Hr'; apply Hcreate, elem_of_app; by left|].
    assert (Hok : create_ok (policy_file (pname p)) = true).
    { apply (Hcreate (ev, p)), elem_of_app. right. left. }
    destruct (String.eqb ev deleteEvent); rewrite Hd.
    + unfold removeBackUpPolicy, Files. rewrite app_nil_r. split.
      * intros q [Hne Hq]%list_elem_of_filter. rewrite lookup_delete_ne; [by apply IH1|].
        intros He%policy_file_inj. congruence.
      * intros f d [Hne Hf]%lookup_delete_Some. destruct (IH2 f d Hf) as (q & Hq & ->).
        exists q. split; [|done]. apply list_elem_of_filter. split; [congruence|done].
    + unfold backupKubeArmorContainerPolicy, write_file, Files. fold (pname p). rewrite Hdir, Hok. cbn [andb].
      split.
      * intros q [[Hne Hq]%list_elem_of_filter| ->%list_elem_of_singleton]%elem_of_app.
        -- rewrite lookup_insert_ne; [by apply IH1|]. intros He%policy_file_inj. congruence.
        -- by rewrite lookup_insert_eq.
      * intros f d [[<- _]|[Hne Hf]]%lookup_insert_Some.
        -- exists p. split; [|done]. apply elem_of_app. right. left.
        -- destruct (IH2 f d Hf) as (q & Hq & ->). exists q. split; [|done].
           apply elem_of_app. left. apply list_elem_of_filter. split; [congruence|done].
Qed.

Lemma lifetime_accepted reqs u0 u r : lifetime reqs u0 u → r ∈ reqs → accepted r.2.
Proof.
  intros Hl. induction Hl as [|? ? ? ? ? IH|? ? ? ? ? ? ? ? ? IH|? ? ? ? ? ? ? ? ? ? IH Hr Hc Hev Hs];
    [by intros []%elem_of_nil|done|done|].
  intros [?| ->%list_elem_of_singleton]%elem_of_app; [by apply IH|]. by eapply request_accepted.
Qed.

Lemma kept_requested reqs p : p ∈ kept reqs → ∃ ev, (ev, p) ∈ reqs.
Proof.
  intros (before & ev & after & -> & _)%kept_survives. exists ev. apply elem_of_app. right. left.
Qed.

Lemma substring_whole (a : string) : String.substring 0 (String.length a) a = a.
Proof. induction a as [|c a IH]; [done|]. simpl. by rewrite IH. Qed.

Lemma in_PolicyDir_plain name :
  char_in slash name = false → in_PolicyDir (policy_file name) = true.
Proof.
  intros Hn. unfold in_PolicyDir, policy_file, TrimPrefix.
  assert (HasPrefix (PolicyDir +:+ name +:+ ".yaml") PolicyDir = true) as ->.
  { apply HasPrefix_app. by eexists. }
  rewrite string_app_length, Nat.add_comm, Nat.add_sub.
  change (String.substring (String.length PolicyDir) ?n (PolicyDir +:+ ?x))
    with (String.substring 0 n x).
  by rewrite substring_whole, char_in_app, Hn.
Qed.

(** What is asked of a policy for its backup to be read again: the encodings are decoded,
    its file can be made, and is one of the directory *)
Definition restorable p : Prop :=
  decodes p ∧ create_ok (policy_file (pname p)) = true ∧ char_in slash (pname p) = false.


End restart.

(** ** A new configuration *)

Section config.
Context `{R : GoRange} {W : Type} `{B : !Backend W} `{CB : !ControlBackend W} (cfg : Settings).
Context (CompilePOSIX : string → option (string → bool)).

Lemma validate_idem s :
  validateGlobalDefaultPosture (validateGlobalDefaultPosture s) = validateGlobalDefaultPosture s.
Proof. unfold validateGlobalDefaultPosture. by repeat case_bool. Qed.

(** The regular form of the postures that the file has *)
Definition file_posture (v : Viper) : DefaultPosture :=
  {| dp_FileAction := validateGlobalDefaultPosture (GetString v "defaultFilePosture");
     dp_NetworkAction := validateGlobalDefaultPosture (GetString v "defaultNetworkPosture");
     dp_CapabilitiesAction :=
       validateGlobalDefaultPosture (GetString v "defaultCapabilitiesPosture") |}.

Definition reposted (l : list string) (dp : DefaultPosture) (ep : EndPoint) : EndPoint :=
  if ContainsElement l (ep_NamespaceName ep) then with_posture dp ep else ep.

Lemma repost_reposted ns l dp ep :
  repost ns dp (reposted l dp ep) = reposted (l ++ [ns])%list dp ep.
Proof.
  unfold repost, reposted.
  assert (Hc : ContainsElement (l ++ [ns])%list (ep_NamespaceName ep)
               = ContainsElement l (ep_NamespaceName ep) || String.eqb (ep_NamespaceName ep) ns).
  { apply Bool.eq_iff_eq_true. rewrite orb_true_iff, !ContainsElement_spec, elem_of_app,
      list_elem_of_singleton, String.eqb_eq. done. }
  rewrite Hc. destruct (ContainsElement l (ep_NamespaceName ep)); simpl.
  - by destruct (String.eqb (ep_NamespaceName ep) ns).
  - by destruct (String.eqb (ep_NamespaceName ep) ns).
Qed.

Lemma config_endpoints_spec posture vis l done eps (r r' : Running W) :
  dm_EndPoints (run_dm r) = reposted done posture <$> eps →
  foldl (config_endpoint cfg posture vis) (Ok r) l = Ok r' →
  dm_EndPoints (run_dm r') = reposted (done ++ (ep_NamespaceName <$> l))%list posture <$> eps
  ∧ dm_GlobalPosture (run_dm r') = dm_GlobalPosture (run_dm r).
Proof.
  revert done r. induction l as [|ep l IH]; intros done r Heps; cbn [foldl].
  { intros [= <-]. simpl. by rewrite app_nil_r. }
  destruct (config_endpoint cfg posture vis (Ok r) ep) as [r1|] eqn:E.
  2:{ intros H. exfalso. revert H. clear. induction l; [done|exact IHl]. }
  intros H. unfold config_endpoint in E. cbn [mbind Res_bind] in E. go_res E.
  apply UpdateDefaultPosture_spec in Ha as [He Hr]. apply run_call_frame in E as [_ [w Hw]].
  destruct (IH (done ++ [ep_NamespaceName ep])%list r1) as [He' Hg'].
  - rewrite Hw. cbn [set_run_dm run_dm dm_EndPoints set_dm_w]. rewrite He, Heps.
    rewrite <- list_fmap_compose. apply list_fmap_ext. intros i x _. simpl.
    apply repost_reposted.
  - exact H.
  - rewrite He', Hg', Hw. rewrite <- app_assoc. split; [done|]. by rewrite Hr.
Qed.

Lemma UpdateHostSecurityPolicies_frame (dm dm' : Daemon W) :
  UpdateHostSecurityPolicies cfg CompilePOSIX dm = Ok dm' → ∃ w, dm' = set_dm_w w dm.
Proof.
  unfold UpdateHostSecurityPolicies. case_bool.
  - unfold call. intros H. go_res H. injection H as <-. by eexists.
  - intros [= <-]. exists (dm_w dm). by destruct dm.
Qed.

(** When the configuration file changes, every endpoint gets the postures of the file,
    made regular, and keeps everything else; endpoints to come get the same. *)
Theorem config_file_reaches v (r r' : Running W) :
  config_changed cfg CompilePOSIX v r = Ok r' →
  dm_GlobalPosture (run_dm r') = file_posture v
  ∧ dm_EndPoints (run_dm r') = with_posture (file_posture v) <$> dm_EndPoints (run_dm r)
  ∧ ∀ a, a ∈ [dp_FileAction (file_posture v); dp_NetworkAction (file_posture v);
              dp_CapabilitiesAction (file_posture v)] → a ∈ ["audit"; "block"].
Proof.
  unfold config_changed. cbv zeta. intros H. go_res H. go_res H. go_res H. go_res H.
  injection H as <-. cbn [set_run_dm run_dm].
  apply UpdateHostSecurityPolicies_frame in Ha2 as [w ->].
  apply run_call_frame in Ha0 as [_ [w0 Hw0]]. apply run_call_frame in Ha1 as [_ [w1 Hw1]].
  set (eps := dm_EndPoints (run_dm r)).
  apply (config_endpoints_spec _ _ _ [] eps) in Ha as [He Hg].
  2:{ rewrite <- (list_fmap_id (dm_EndPoints _)). apply list_fmap_ext. by intros. }
  cbn [set_dm_w dm_GlobalPosture dm_EndPoints].
  rewrite Hw1. cbn [set_dm_w dm_GlobalPosture dm_EndPoints].
  rewrite Hw0. cbn [set_dm_w dm_GlobalPosture dm_EndPoints].
  rewrite Hg, He. split; [|split].
  - unfold file_posture. simpl. by rewrite !validate_idem.
  - apply list_fmap_ext. intros i ep Hep. unfold reposted.
    destruct (ContainsElement _ _) eqn:E; [done|]. exfalso. apply not_true_iff_false in E. apply E.
    apply ContainsElement_spec, list_elem_of_fmap_2. by eapply list_elem_of_lookup_2.
  - assert (Hv : ∀ s, validateGlobalDefaultPosture s ∈ ["audit"; "block"]).
    { intros s. unfold validateGlobalDefaultPosture. repeat case_bool; set_solver. }
    intros act Hact. unfold file_posture in Hact. simpl in Hact. apply list_elem_of_In in Hact.
    destruct Hact as [<-|[<-|[<-|[]]]]; apply Hv.
Qed.
End config.

(** ** Witnesses *)

Section witnesses.
#[local] Existing Instance canonical_range.
#[local] Existing Instance silent.

(** Two policies, told apart by their messages *)
Definition message (s : SecuritySpec) : string := ss_Message s.
Definition with_message (m : string) : SecuritySpec :=
  {| ss_Selector :=
       {| sel_MatchLabels := {["app" := m]}; sel_MatchExpressions := []; sel_Containers := [];
          sel_Identities := []; sel_MatchExpIdentities := []; sel_NonIdentities := [];
          sel_NamespaceList := [] |};
     ss_Process := ss_Process empty_SecuritySpec; ss_File := ss_File empty_SecuritySpec;
     ss_Network := ss_Network empty_SecuritySpec;
     ss_Capabilities := ss_Capabilities empty_SecuritySpec;
     ss_Syscalls := ss_Syscalls empty_SecuritySpec; ss_Presets := ss_Presets empty_SecuritySpec;
     ss_AppArmor := ""; ss_Severity := 3; ss_Tags := []; ss_Message := m; ss_Action := "block" |}.
Definition backed_up (m : string) : SecurityPolicy := container_policy m (with_message m).

(** A daemon without Kubernetes whose only memory outside is the directory *)
Definition standalone_cfg : Settings :=
  {| cf_Policy := true; cf_HostPolicy := false; cf_KVMAgent := false; cf_K8sEnv := false;
     cf_RuntimeEnforcer := Some "BPFLSM"; cf_Presets := false; cf_UntrackedNamespaces := [] |}.

Definition directory_backend : Backend Files := {|
  logger_UpdateSecurityPolicies _ _ := Ok; logger_UpdateHostSecurityPolicies _ _ := Ok;
  logger_UpdateDefaultPosture _ _ _ := Ok; enforcer_UpdateSecurityPolicies _ := Ok;
  enforcer_UpdateHostSecurityPolicies _ := Ok;
  enforcer_UpdateAppArmorProfiles _ _ _ _ := Ok; presets_UpdateSecurityPolicies _ := Ok;
  monitor_HandleUnknownNamespaceNsMap _ _ _ _ := Ok; monitor_UpdateVisibility_ns _ _ _ := Ok;
  backup_HostPolicy _ := Ok;
  backup_ContainerPolicy p fs :=
    Ok (backupKubeArmorContainerPolicy true (λ _, true) pname p fs);
  remove_BackUpPolicy name fs := Ok (removeBackUpPolicy name fs) |}.
#[local] Existing Instance directory_backend.

Lemma directory_law : BackupsLaw pname true (λ _, true) (λ fs : Files, fs).
Proof.
  split; [split| |]; intros; try (by simplify_eq/=);
    intros dm dm' H; unfold call in H; simpl in H; by injection H as <-.
Qed.

Lemma directory_returns : CallsReturn (B:=directory_backend).
Proof. split; intros; by eexists. Qed.

Definition no_points (fs : Files) : Unorch Files :=
  {| un_dm := set_EndPoints [] (sample_daemon [] fs); un_points := []; un_len := 0;
     un_policies := []; un_containers := [] |}.

Lemma no_points_separate fs : separate (no_points fs).
Proof. split; simpl; [done|lia|lia]. Qed.

(** What the text of a specification is read as: complete, as it is backed up *)
Definition decode_spec (m : string) : option SecuritySpec := Some (sp_Spec (backed_up m)).

Definition sample_request (ev m : string) (u : Unorch Files) : Res (Unorch Files * PolicyStatus) :=
  container_event standalone_cfg (λ _, None) (λ _, []) message
    decode_spec ev m (with_message m) u.
Definition after (r : Res (Unorch Files * PolicyStatus)) : Unorch Files :=
  match r with Ok (u, _) => u | Panic => no_points ∅ end.

(** Two policies come, and one of them goes. *)
Definition first_run : Unorch Files :=
  after (sample_request deleteEvent "web"
    (after (sample_request addEvent "db"
      (after (sample_request addEvent "web" (no_points ∅)))))).
Definition sample_requests : list (string * SecurityPolicy) :=
  [(addEvent, backed_up "web"); (addEvent, backed_up "db"); (deleteEvent, backed_up "web")].

Local Abbreviation sample_lifetime :=
  (lifetime standalone_cfg (λ _, None) (λ _, []) message decode_spec
     (λ fs : Files, fs)).

Lemma sample_life ev m status reqs u :
  ev ∈ [addEvent; updateEvent; deleteEvent] → continues status = true →
  sample_request ev m u = Ok (after (sample_request ev m u), status) →
  sample_lifetime reqs (no_points ∅) u →
  sample_lifetime (reqs ++ [(ev, backed_up m)])%list (no_points ∅) (after (sample_request ev m u)).
Proof.
  intros Hev Hc Hr Hl.
  replace (backed_up m) with (container_policy m (sp_Spec (backed_up m)))
    by apply container_policy_again.
  by apply (life_request standalone_cfg (λ _, None) (λ _, []) message
    decode_spec (λ fs : Files, fs) reqs (no_points ∅) u _ ev m
    (with_message m) (sp_Spec (backed_up m)) status).
Qed.

Lemma first_run_life : sample_lifetime sample_requests (no_points ∅) first_run.
Proof.
  unfold first_run. apply (sample_life _ _ Deleted [(addEvent, backed_up "web");
    (addEvent, backed_up "db")]); [set_solver|done|vm_compute; reflexivity|].
  apply (sample_life _ _ Applied [(addEvent, backed_up "web")]);
    [set_solver|done|vm_compute; reflexivity|].
  apply (sample_life _ _ Applied []); [set_solver|done|vm_compute; reflexivity|apply life_start].
Qed.


Definition sample_viper : Viper :=
  {| GetString := λ k, if String.eqb k "defaultFilePosture" then "Block" else "audit";
     GetBool := λ _, true; GetInt := λ _, 7%Z |}.

Lemma config_file_reaches_witness :
  ∃ r', config_changed sample_cfg (λ _, None) sample_viper
          {| run_cfg := sample_gc; run_dm := sample_daemon [] ([] : Trace) |} = Ok r'
  ∧ dp_FileAction (dm_GlobalPosture (run_dm r')) = "block".
Proof.
  set (c := config_changed _ _ _ _). assert (Hc : c = Ok (run_result c)) by (vm_compute; reflexivity).
  exists (run_result c). split; [exact Hc|].
  destruct (config_file_reaches sample_cfg (λ _, None) sample_viper _ _ Hc) as [-> _].
  reflexivity.
Defined.

End witnesses.
