(* ===== verification/Runtimes.v ===== *)
(** Containers that the runtimes report ([KubeArmor/core/dockerHandler.go],
    [containerdHandler.go], [crioHandler.go], [nriHandler.go], [hook_handler.go]).

    Each handler makes a container known to the daemon, the monitor and the enforcer, and
    forgets it when it stops.  Without Kubernetes, Docker and containerd also make or extend
    the container's endpoint.  What a runtime says of a container is an argument; [None] is
    an error. *)
From Stdlib Require Import Ascii String.
From S2P Require Import Prelude GoStrings GoSlices Types Common NsMap PolicySpec Daemon Pods Unorchestrated.

Open Scope string_scope.

(** What the handlers call beyond [Backend] *)
Class RuntimeBackend (W : Type) := {
  logger_SetNsKey : string → Z → Z → W → Res W;
  logger_DeleteAlerts : string → W → Res W;
  monitor_AddContainerIDToNsMap : string → string → Z → Z → W → Res W;
  monitor_DeleteContainerIDFromNsMap : string → string → Z → Z → W → Res W;
  enforcer_RegisterContainer : string → Z → Z → W → Res W;
  enforcer_UnregisterContainer : string → W → Res W;
  presets_RegisterContainer : string → Z → Z → W → Res W;
  presets_UnregisterContainer : string → W → Res W;
  state_PushContainerEvent : Container → string → W → Res W }.

(** Settings beyond those of the daemon: whether the monitor and the state agent run, and
    the global visibility *)
Record RuntimeSettings := {
  rt_SystemMonitor : bool; rt_StateAgent : bool; rt_Visibility : string }.

(** ** Records of containers *)

(** [slices.Compact]: neighbours that are equal become one *)
Fixpoint compact (l : list string) : list string :=
  match l with
  | x :: ((y :: _) as l') => if String.eqb x y then compact l' else x :: compact l'
  | _ => l
  end.

(** What Kubernetes has said of a container stays; the rest is the runtime's. *)
Definition kubernetes_info (old c : Container) : Container :=
  {| c_ContainerID := c_ContainerID c; c_ContainerName := c_ContainerName old;
     c_ContainerImage := c_ContainerImage old; c_NamespaceName := c_NamespaceName old;
     c_Owner := c_Owner c; c_EndPointName := c_EndPointName old; c_Labels := c_Labels old;
     c_AppArmorProfile := c_AppArmorProfile c; c_Privileged := c_Privileged c;
     c_PidNS := c_PidNS c; c_MntNS := c_MntNS c; c_Pid := c_Pid c;
     c_NodeName := c_NodeName c; c_NodeID := c_NodeID c; c_ProtocolPort := c_ProtocolPort c;
     c_Status := c_Status c; c_ContainerIP := c_ContainerIP c;
     c_LastUpdatedAt := c_LastUpdatedAt c; c_PolicyEnabled := c_PolicyEnabled old;
     c_ProcessVisibilityEnabled := c_ProcessVisibilityEnabled old;
     c_FileVisibilityEnabled := c_FileVisibilityEnabled old;
     c_NetworkVisibilityEnabled := c_NetworkVisibilityEnabled old;
     c_CapabilitiesVisibilityEnabled := c_CapabilitiesVisibilityEnabled old |}.

Definition with_owner (o : PodOwner) (c : Container) : Container :=
  {| c_ContainerID := c_ContainerID c; c_ContainerName := c_ContainerName c;
     c_ContainerImage := c_ContainerImage c; c_NamespaceName := c_NamespaceName c;
     c_Owner := o; c_EndPointName := c_EndPointName c; c_Labels := c_Labels c;
     c_AppArmorProfile := c_AppArmorProfile c; c_Privileged := c_Privileged c;
     c_PidNS := c_PidNS c; c_MntNS := c_MntNS c; c_Pid := c_Pid c;
     c_NodeName := c_NodeName c; c_NodeID := c_NodeID c; c_ProtocolPort := c_ProtocolPort c;
     c_Status := c_Status c; c_ContainerIP := c_ContainerIP c;
     c_LastUpdatedAt := c_LastUpdatedAt c; c_PolicyEnabled := c_PolicyEnabled c;
     c_ProcessVisibilityEnabled := c_ProcessVisibilityEnabled c;
     c_FileVisibilityEnabled := c_FileVisibilityEnabled c;
     c_NetworkVisibilityEnabled := c_NetworkVisibilityEnabled c;
     c_CapabilitiesVisibilityEnabled := c_CapabilitiesVisibilityEnabled c |}.

Definition with_status (s : string) (c : Container) : Container :=
  {| c_ContainerID := c_ContainerID c; c_ContainerName := c_ContainerName c;
     c_ContainerImage := c_ContainerImage c; c_NamespaceName := c_NamespaceName c;
     c_Owner := c_Owner c; c_EndPointName := c_EndPointName c; c_Labels := c_Labels c;
     c_AppArmorProfile := c_AppArmorProfile c; c_Privileged := c_Privileged c;
     c_PidNS := c_PidNS c; c_MntNS := c_MntNS c; c_Pid := c_Pid c;
     c_NodeName := c_NodeName c; c_NodeID := c_NodeID c; c_ProtocolPort := c_ProtocolPort c;
     c_Status := s; c_ContainerIP := c_ContainerIP c; c_LastUpdatedAt := c_LastUpdatedAt c;
     c_PolicyEnabled := c_PolicyEnabled c;
     c_ProcessVisibilityEnabled := c_ProcessVisibilityEnabled c;
     c_FileVisibilityEnabled := c_FileVisibilityEnabled c;
     c_NetworkVisibilityEnabled := c_NetworkVisibilityEnabled c;
     c_CapabilitiesVisibilityEnabled := c_CapabilitiesVisibilityEnabled c |}.

(** A container without Kubernetes: its endpoint bears its name, and the visibility is the
    global one, where that has a scope. *)
Definition with_visibility (v : Visibility) (c : Container) : Container :=
  {| c_ContainerID := c_ContainerID c; c_ContainerName := c_ContainerName c;
     c_ContainerImage := c_ContainerImage c; c_NamespaceName := container_namespace;
     c_Owner := c_Owner c; c_EndPointName := c_ContainerName c; c_Labels := c_Labels c;
     c_AppArmorProfile := c_AppArmorProfile c; c_Privileged := c_Privileged c;
     c_PidNS := c_PidNS c; c_MntNS := c_MntNS c; c_Pid := c_Pid c;
     c_NodeName := c_NodeName c; c_NodeID := c_NodeID c; c_ProtocolPort := c_ProtocolPort c;
     c_Status := c_Status c; c_ContainerIP := c_ContainerIP c;
     c_LastUpdatedAt := c_LastUpdatedAt c; c_PolicyEnabled := c_PolicyEnabled c;
     c_ProcessVisibilityEnabled := vis_Process v || c_ProcessVisibilityEnabled c;
     c_FileVisibilityEnabled := vis_File v || c_FileVisibilityEnabled c;
     c_NetworkVisibilityEnabled := vis_Network v || c_NetworkVisibilityEnabled c;
     c_CapabilitiesVisibilityEnabled :=
       vis_Capabilities v || c_CapabilitiesVisibilityEnabled c |}.

(** The hook's record only adds to a container that is known. *)
Definition hook_info (old c : Container) : Container :=
  {| c_ContainerID := c_ContainerID old; c_ContainerName := c_ContainerName old;
     c_ContainerImage := c_ContainerImage old; c_NamespaceName := c_NamespaceName old;
     c_Owner := c_Owner old; c_EndPointName := c_EndPointName old; c_Labels := c_Labels old;
     c_AppArmorProfile := c_AppArmorProfile c; c_Privileged := c_Privileged old;
     c_PidNS := c_PidNS c; c_MntNS := c_MntNS c; c_Pid := c_Pid old;
     c_NodeName := c_NodeName old; c_NodeID := c_NodeID old;
     c_ProtocolPort := c_ProtocolPort old; c_Status := c_Status old;
     c_ContainerIP := c_ContainerIP old; c_LastUpdatedAt := c_LastUpdatedAt old;
     c_PolicyEnabled := c_PolicyEnabled old;
     c_ProcessVisibilityEnabled := c_ProcessVisibilityEnabled old;
     c_FileVisibilityEnabled := c_FileVisibilityEnabled old;
     c_NetworkVisibilityEnabled := c_NetworkVisibilityEnabled old;
     c_CapabilitiesVisibilityEnabled := c_CapabilitiesVisibilityEnabled old |}.

Section runtimes.
Context `{R : GoRange} {W : Type} `{B : !Backend W} `{RB : !RuntimeBackend W}.
Context (cfg : Settings) (rt : RuntimeSettings).
Context (CompilePOSIX : string → option (string → bool)).
Context (spare_policies : nat → list SecurityPolicy) (spare_containers : nat → list string).
(** The namespaces of the cluster, for policies on namespaces *)
Context (nsList : option (list string)).

Definition set_container (c : Container) (u : Unorch W) : Unorch W :=
  set_un_dm (Pods.set_Containers (<[c_ContainerID c := c]> (dm_Containers (un_dm u)))
               (un_dm u)) u.
Definition delete_container (id : string) (u : Unorch W) : Unorch W :=
  set_un_dm (Pods.set_Containers (delete id (dm_Containers (un_dm u))) (un_dm u)) u.

(** ** Endpoints *)

Definition profiled (profiles : list string) (ep : EndPoint) : EndPoint :=
  {| ep_NamespaceName := ep_NamespaceName ep; ep_EndPointName := ep_EndPointName ep;
     ep_ContainerName := ep_ContainerName ep; ep_Labels := ep_Labels ep;
     ep_Identities := ep_Identities ep; ep_Containers := ep_Containers ep;
     ep_AppArmorProfiles := profiles; ep_SELinuxProfiles := ep_SELinuxProfiles ep;
     ep_SecurityPolicies := ep_SecurityPolicies ep;
     ep_PrivilegedContainers := ep_PrivilegedContainers ep;
     ep_PolicyEnabled := ep_PolicyEnabled ep; ep_DefaultPosture := ep_DefaultPosture ep;
     ep_ProcessVisibilityEnabled := ep_ProcessVisibilityEnabled ep;
     ep_FileVisibilityEnabled := ep_FileVisibilityEnabled ep;
     ep_NetworkVisibilityEnabled := ep_NetworkVisibilityEnabled ep;
     ep_CapabilitiesVisibilityEnabled := ep_CapabilitiesVisibilityEnabled ep |}.

Definition privileged (name : string) (ep : EndPoint) : EndPoint :=
  {| ep_NamespaceName := ep_NamespaceName ep; ep_EndPointName := ep_EndPointName ep;
     ep_ContainerName := ep_ContainerName ep; ep_Labels := ep_Labels ep;
     ep_Identities := ep_Identities ep; ep_Containers := ep_Containers ep;
     ep_AppArmorProfiles := ep_AppArmorProfiles ep; ep_SELinuxProfiles := ep_SELinuxProfiles ep;
     ep_SecurityPolicies := ep_SecurityPolicies ep;
     ep_PrivilegedContainers := {[name]} ∪ ep_PrivilegedContainers ep;
     ep_PolicyEnabled := ep_PolicyEnabled ep; ep_DefaultPosture := ep_DefaultPosture ep;
     ep_ProcessVisibilityEnabled := ep_ProcessVisibilityEnabled ep;
     ep_FileVisibilityEnabled := ep_FileVisibilityEnabled ep;
     ep_NetworkVisibilityEnabled := ep_NetworkVisibilityEnabled ep;
     ep_CapabilitiesVisibilityEnabled := ep_CapabilitiesVisibilityEnabled ep |}.

(** The endpoint that has the container: the first one, where the loops stop *)
Definition has_container (c : Container) (u : Unorch W) (s : Slot) : bool :=
  String.eqb (ep_NamespaceName (st_point s)) (c_NamespaceName c)
  && String.eqb (ep_EndPointName (st_point s)) (c_EndPointName c)
  && ContainsElement (read (un_containers u) (st_containers s)) (c_ContainerID c).

Definition find_point (f : Slot → bool) (u : Unorch W) : option (nat * Slot) :=
  list_find (λ s, f s = true) (take (un_len u) (un_points u)).

Definition put_point (i : nat) (s : Slot) (u : Unorch W) : Unorch W :=
  set_un_points (<[i := s]> (un_points u)) (un_len u) u.

(** The container's profile and, if it is privileged, its name go to the endpoint. *)
Definition add_profile (c : Container) (s : Slot) : Slot :=
  let ep := st_point s in
  let ep := if ContainsElement (ep_AppArmorProfiles ep) (c_AppArmorProfile c) then ep
            else profiled (ep_AppArmorProfiles ep ++ [c_AppArmorProfile c])%list ep in
  set_slot_point (if c_Privileged c && st_has_privileged s
                  then privileged (c_ContainerName c) ep else ep) s.

(** The slot afterwards, if there is one *)
Definition profile_added (c : Container) (u : Unorch W) : Unorch W * option Slot :=
  match find_point (has_container c u) u with
  | Some (i, s) => let s := add_profile c s in (put_point i s u, Some s)
  | None => (u, None)
  end.

Fixpoint remove_string (x : string) (l : list string) : list string :=
  match l with
  | [] => []
  | y :: l' => if String.eqb y x then l' else y :: remove_string x l'
  end.

Definition profile_removed (c : Container) (u : Unorch W) : Unorch W :=
  match find_point (has_container c u) u with
  | Some (i, s) =>
      put_point i (set_slot_point (profiled (remove_string (c_AppArmorProfile c)
        (ep_AppArmorProfiles (st_point s))) (st_point s)) s) u
  | None => u
  end.

(** A slice that is filled by [append] from nothing *)
Definition new_slice {A} (l spare : list A) (h : list (list A)) : list (list A) * Slice :=
  match l with
  | [] => (h, nil_slice)
  | _ => ((h ++ [l ++ spare])%list, {| sl_arr := Some (List.length h); sl_len := List.length l |})
  end.

Definition started_point (c : Container) (dp : DefaultPosture) : EndPoint :=
  let labels := GetLabelsFromString (c_Labels c) in
  {| ep_NamespaceName := c_NamespaceName c; ep_EndPointName := c_ContainerName c;
     ep_ContainerName := c_ContainerName c; ep_Labels := labels.1; ep_Identities := labels.2;
     ep_Containers := []; ep_AppArmorProfiles := ["kubearmor_" +:+ c_ContainerName c];
     ep_SELinuxProfiles := []; ep_SecurityPolicies := []; ep_PrivilegedContainers := ∅;
     ep_PolicyEnabled := KubeArmorPolicyEnabled; ep_DefaultPosture := dp;
     ep_ProcessVisibilityEnabled := true; ep_FileVisibilityEnabled := true;
     ep_NetworkVisibilityEnabled := true; ep_CapabilitiesVisibilityEnabled := true |}.

Definition identified (ids : list string) (ep : EndPoint) : EndPoint :=
  {| ep_NamespaceName := ep_NamespaceName ep; ep_EndPointName := ep_EndPointName ep;
     ep_ContainerName := ep_ContainerName ep; ep_Labels := ep_Labels ep;
     ep_Identities := ids; ep_Containers := ep_Containers ep;
     ep_AppArmorProfiles := ep_AppArmorProfiles ep; ep_SELinuxProfiles := ep_SELinuxProfiles ep;
     ep_SecurityPolicies := ep_SecurityPolicies ep;
     ep_PrivilegedContainers := ep_PrivilegedContainers ep;
     ep_PolicyEnabled := ep_PolicyEnabled ep; ep_DefaultPosture := ep_DefaultPosture ep;
     ep_ProcessVisibilityEnabled := ep_ProcessVisibilityEnabled ep;
     ep_FileVisibilityEnabled := ep_FileVisibilityEnabled ep;
     ep_NetworkVisibilityEnabled := ep_NetworkVisibilityEnabled ep;
     ep_CapabilitiesVisibilityEnabled := ep_CapabilitiesVisibilityEnabled ep |}.

(** Without Kubernetes: the first endpoint of the container gets it, with its identities
    and all policies that apply then, or there is a new endpoint. *)
Definition start_endpoint (c : Container) (u : Unorch W) : Unorch W * Slot :=
  match find_point (λ s, owns CompilePOSIX c (st_point s)) u with
  | None =>
      let ep := started_point c (dm_GlobalPosture (un_dm u)) in
      let policies := filter (λ p, policy_applies CompilePOSIX p ep)
        (updateNamespaceListforCSP nsList <$> dm_SecurityPolicies (un_dm u)) in
      let '(hc, slc) := new_slice [c_ContainerID c] [] (un_containers u) in
      let '(hp, slp) := new_slice policies (spare_policies (List.length policies))
                          (un_policies u) in
      let s := {| st_point := ep; st_policies := slp; st_containers := slc;
                  st_has_labels := true; st_has_privileged := false |} in
      (append_point s (set_un_containers hc (set_un_policies hp u)), s)
  | Some (i, s) =>
      let '(hc, slc) := slice_append (c_ContainerID c)
        (spare_containers (sl_len (st_containers s))) (un_containers u) (st_containers s) in
      let ep := identified (compact (ep_Identities (st_point s)
                  ++ (GetLabelsFromString (c_Labels c)).2)) (st_point s) in
      let policies := filter (λ p, policy_applies CompilePOSIX p ep)
                        (dm_SecurityPolicies (un_dm u)) in
      let '(hp, slp) := new_slice policies (spare_policies (List.length policies))
                          (un_policies u) in
      let s := {| st_point := ep; st_policies := slp; st_containers := slc;
                  st_has_labels := st_has_labels s;
                  st_has_privileged := st_has_privileged s |} in
      (put_point i s (set_un_containers hc (set_un_policies hp u)), s)
  end.

(** ** Registration *)

(** [enforced]: the policies of the container's endpoint go to the feeder, the enforcer and
    the presets, unless there are none. *)
Definition enforce_started (presets : bool) (ep : EndPoint) (w : W) : Res W :=
  match ep_SecurityPolicies ep with
  | [] => Ok w
  | _ =>
      w ← logger_UpdateSecurityPolicies addEvent ep w;
      let enabled := (ep_PolicyEnabled ep =? KubeArmorPolicyEnabled)%Z in
      w ← (if is_some (cf_RuntimeEnforcer cfg) && enabled
           then enforcer_UpdateSecurityPolicies ep w else Ok w);
      if presets && cf_Presets cfg && enabled then presets_UpdateSecurityPolicies ep w else Ok w
  end.

Definition register (id preset_id : string) (c : Container) (ep : EndPoint) (w : W) : Res W :=
  if rt_SystemMonitor rt && cf_Policy cfg then
    w ← logger_SetNsKey id (c_MntNS c) (c_PidNS c) w;
    w ← monitor_AddContainerIDToNsMap id (c_NamespaceName c) (c_PidNS c) (c_MntNS c) w;
    w ← (if is_some (cf_RuntimeEnforcer cfg)
         then enforcer_RegisterContainer id (c_PidNS c) (c_MntNS c) w else Ok w);
    w ← (if cf_Presets cfg then presets_RegisterContainer preset_id (c_PidNS c) (c_MntNS c) w
         else Ok w);
    enforce_started true ep w
  else Ok w.

Definition unregister (presets : bool) (id : string) (c : Container) (w : W) : Res W :=
  if rt_SystemMonitor rt && cf_Policy cfg then
    w ← logger_DeleteAlerts id w;
    w ← monitor_DeleteContainerIDFromNsMap id (c_NamespaceName c) (c_PidNS c) (c_MntNS c) w;
    w ← (if is_some (cf_RuntimeEnforcer cfg) then enforcer_UnregisterContainer id w else Ok w);
    if presets && cf_Presets cfg then presets_UnregisterContainer id w else Ok w
  else Ok w.

Definition push_state (c : Container) (status event : string) (w : W) : Res W :=
  if rt_StateAgent rt then state_PushContainerEvent (with_status status c) event w else Ok w.

(** What was known of the container *)
Inductive Known :=
| Unknown                       (* nothing *)
| FromKubernetes (old : Container)  (* but no namespaces *)
| Complete.

Definition known (id : string) (u : Unorch W) : Known :=
  match dm_Containers (un_dm u) !! id with
  | None => Unknown
  | Some old => if (c_PidNS old =? 0)%Z && (c_MntNS old =? 0)%Z then FromKubernetes old
                else Complete
  end.

(** ** Docker *)

(** [info] and [info'] are the answers of the two calls of [GetContainerInfo]. *)
Definition SetContainerVisibility (info : option Container) (u : Unorch W) : Unorch W :=
  match info with
  | None => u
  | Some c => set_container (with_visibility (parse_visibility (rt_Visibility rt)) c) u
  end.

(** The container and the endpoint that the rest of the handler works with.  In the loop for
    containers that Kubernetes has reported, the name [endPoint] is the loop's own: the
    outer variable keeps the zero endpoint. *)
Definition docker_known (containerID : string) (c : Container) (info' : option Container)
    (u : Unorch W) : option (Container * Slot * Unorch W) :=
  let visible u :=
    if cf_K8sEnv cfg then u else SetContainerVisibility info' u in
  match known containerID u with
  | Complete => None
  | Unknown =>
      let u := set_un_dm (Pods.set_Containers (<[containerID := c]> (dm_Containers (un_dm u)))
                            (un_dm u)) u in
      let '(u, s) := if cf_K8sEnv cfg then (u, zero_Slot) else start_endpoint c u in
      let u := visible u in
      Some (if cf_K8sEnv cfg then c else container_of containerID u, s, u)
  | FromKubernetes old =>
      let c := kubernetes_info old c in
      let u := set_un_dm (Pods.set_Containers (<[containerID := c]> (dm_Containers (un_dm u)))
                            (un_dm u)) u in
      let u := visible (profile_added c u).1 in
      Some (if cf_K8sEnv cfg then c else container_of containerID u, zero_Slot, u)
  end.

Definition docker_start (containerID : string) (info info' : option Container) (u : Unorch W)
    : Res (Unorch W) :=
  match info with
  | None => Ok u
  | Some c =>
      if String.eqb (c_ContainerID c) "" then Ok u
      else match docker_known containerID c info' u with
           | None => Ok u
           | Some (c, s, u) =>
               u ← un_call (register containerID containerID c (point u s)) u;
               un_call (push_state c "running" "added") u
           end
  end.

(** A container that ran before the daemon: the state agent hears of it first. *)
Definition docker_deployed (u : Res (Unorch W))
    (d : string * bool * option Container * option Container) : Res (Unorch W) :=
  u ← u;
  let '(containerID, running, info, info') := d in
  match info with
  | None => Ok u
  | Some c =>
      if String.eqb (c_ContainerID c) "" || negb running then Ok u
      else match docker_known (c_ContainerID c) c info' u with
           | None => Ok u
           | Some (c, s, u) =>
               let c := if cf_K8sEnv cfg then c else container_of containerID u in
               u ← un_call (λ w, if rt_StateAgent rt then state_PushContainerEvent c "added" w
                                 else Ok w) u;
               un_call (register (c_ContainerID c) (c_ContainerID c) c (point u s)) u
           end
  end.

Definition GetAlreadyDeployedDockerContainers
    (containerList : list (string * bool * option Container * option Container))
    (u : Unorch W) : Res (Unorch W) := foldl docker_deployed (Ok u) containerList.

(** Endpoints of the container without policies and containers go.  The loop's index stays
    where an endpoint is cut out. *)
Definition remove_empty (c : Container) (u : Unorch W) : Unorch W :=
  let l := filter (λ s, negb (String.eqb (c_NamespaceName c) (ep_NamespaceName (st_point s))
                              && String.eqb (c_ContainerName c) (ep_EndPointName (st_point s))
                              && bool_decide (sl_len (st_policies s) = 0%nat)
                              && bool_decide (sl_len (st_containers s) = 0%nat)))
             (take (un_len u) (un_points u)) in
  set_un_points l (List.length l) u.

Definition docker_stop (containerID : string) (u : Unorch W) : Res (Unorch W) :=
  u ← (if cf_K8sEnv cfg then Ok u
       else MatchandRemoveContainerFromEndpoint CompilePOSIX containerID u);
  match dm_Containers (un_dm u) !! containerID with
  | None => Ok u
  | Some c =>
      let u := delete_container containerID u in
      let u := if cf_K8sEnv cfg then u else remove_empty c u in
      let u := profile_removed c u in
      u ← un_call (push_state c "terminated" "deleted") u;
      un_call (unregister true containerID c) u
  end.

Definition UpdateDockerContainer (containerID action : string)
    (info info' : option Container) (u : Unorch W) : Res (Unorch W) :=
  if String.eqb action "start" then docker_start containerID info info' u
  else if String.eqb action "stop" || String.eqb action "destroy" then docker_stop containerID u
  else if String.eqb action "die" && rt_StateAgent rt then
    match dm_Containers (un_dm u) !! containerID with
    | None => Ok u
    | Some c => un_call (push_state c "waiting" "updated") u
    end
  else Ok u.

(** ** containerd *)

(** Labels of the container are put into the map of the endpoint, which is shared with
    [dm.EndPoints] and may be [nil]; identities go to a copy that is dropped. *)
Definition add_labels (labels : string) (s : Slot) : Res Slot :=
  match omap cut_label (split comma labels) with
  | [] => Ok s
  | kvs =>
      if st_has_labels s then
        let ep := st_point s in
        Ok (set_slot_point
              {| ep_NamespaceName := ep_NamespaceName ep; ep_EndPointName := ep_EndPointName ep;
                 ep_ContainerName := ep_ContainerName ep;
                 ep_Labels := insert_all kvs (ep_Labels ep);
                 ep_Identities := ep_Identities ep; ep_Containers := ep_Containers ep;
                 ep_AppArmorProfiles := ep_AppArmorProfiles ep;
                 ep_SELinuxProfiles := ep_SELinuxProfiles ep;
                 ep_SecurityPolicies := ep_SecurityPolicies ep;
                 ep_PrivilegedContainers := ep_PrivilegedContainers ep;
                 ep_PolicyEnabled := ep_PolicyEnabled ep;
                 ep_DefaultPosture := ep_DefaultPosture ep;
                 ep_ProcessVisibilityEnabled := ep_ProcessVisibilityEnabled ep;
                 ep_FileVisibilityEnabled := ep_FileVisibilityEnabled ep;
                 ep_NetworkVisibilityEnabled := ep_NetworkVisibilityEnabled ep;
                 ep_CapabilitiesVisibilityEnabled := ep_CapabilitiesVisibilityEnabled ep |} s)
      else Panic
  end.

Definition containerd_known (c : Container) (u : Unorch W)
    : Res (option (Container * Slot * Unorch W)) :=
  match known (c_ContainerID c) u with
  | Complete => Ok None
  | Unknown =>
      let u := set_container c u in
      let '(u, s) := if cf_K8sEnv cfg then (u, zero_Slot) else start_endpoint c u in
      Ok (Some (c, s, u))
  | FromKubernetes old =>
      let c := kubernetes_info old c in
      let u := set_container c u in
      match find_point (has_container c u) u with
      | None => Ok (Some (c, zero_Slot, u))
      | Some (i, s) =>
          let s := add_profile c s in
          s ← (if cf_K8sEnv cfg then Ok s else add_labels (c_Labels c) s);
          Ok (Some (c, zero_Slot, put_point i s u))
      end
  end.

(** Whether the container is one for the daemon, with the state *)
Definition containerd_start (containerID : string) (info : option Container) (u : Unorch W)
    : Res (Unorch W * bool) :=
  match info with
  | None => Ok (u, false)
  | Some c =>
      if String.eqb (c_ContainerID c) "" then Ok (u, false)
      else
        k ← containerd_known c u;
        match k with
        | None => Ok (u, false)
        | Some (c, s, u) =>
            u ← un_call (register containerID (c_ContainerID c) c (point u s)) u;
            u ← un_call (push_state c "running" "added") u; Ok (u, true)
        end
  end.

Definition containerd_destroy (containerID : string) (u : Unorch W) : Res (Unorch W * bool) :=
  match dm_Containers (un_dm u) !! containerID with
  | None => Ok (u, false)
  | Some c =>
      u ← (if cf_K8sEnv cfg then Ok u
           else MatchandRemoveContainerFromEndpoint CompilePOSIX containerID u);
      let u := delete_container containerID u in
      let u := if cf_K8sEnv cfg then u else remove_empty c u in
      let u := profile_removed c u in
      u ← un_call (unregister true containerID c) u;
      u ← un_call (push_state c "terminated" "deleted") u; Ok (u, true)
  end.

Definition UpdateContainerdContainer (containerID action : string) (info : option Container)
    (u : Unorch W) : Res (Unorch W * bool) :=
  if String.eqb action "start" then containerd_start containerID info u
  else if String.eqb action "destroy" then containerd_destroy containerID u
  else Ok (u, true).

(** ** CRI-O *)

(** Other than Docker and containerd: the endpoint found for a container of Kubernetes is
    the one whose policies are enforced, and presets do not hear of containers that go. *)
Definition crio_start (containerID : string) (info : option Container) (u : Unorch W)
    : Res (Unorch W * bool) :=
  match info with
  | None => Ok (u, false)
  | Some c =>
      if String.eqb (c_ContainerID c) "" then Ok (u, false)
      else
        let run c s u :=
          u ← un_call (register containerID containerID c (point u s)) u;
          u ← (if cf_K8sEnv cfg then Ok u
               else MatchandUpdateContainerSecurityPolicies cfg CompilePOSIX spare_containers
                      containerID u);
          Ok (u, true) in
        match known (c_ContainerID c) u with
        | Complete => Ok (u, false)
        | Unknown => run c zero_Slot (set_container c u)
        | FromKubernetes old =>
            let c := kubernetes_info old c in
            let '(u, s) := profile_added c (set_container c u) in
            run c (default zero_Slot s) u
        end
  end.

Definition crio_destroy (containerID : string) (u : Unorch W) : Res (Unorch W * bool) :=
  match dm_Containers (un_dm u) !! containerID with
  | None => Ok (u, false)
  | Some c =>
      u ← (if cf_K8sEnv cfg then Ok u
           else MatchandRemoveContainerFromEndpoint CompilePOSIX containerID u);
      let u := profile_removed c (delete_container containerID u) in
      u ← un_call (unregister false containerID c) u; Ok (u, true)
  end.

Definition UpdateCrioContainer (containerID action : string) (info : option Container)
    (u : Unorch W) : Res (Unorch W * bool) :=
  if String.eqb action "start" then crio_start containerID info u
  else if String.eqb action "destroy" then crio_destroy containerID u
  else Ok (u, true).

(** *** Polling *)

Definition GetNewCrioContainers (containers known : gset string) : gset string :=
  containers ∖ known.
Definition GetDeletedCrioContainers (containers known : gset string) : gset string :=
  known ∖ containers.

(** The turns over new and deleted containers; those that are not for the daemon are
    collected. *)
Definition poll_new (infos : string → option Container)
    (r : Res (Unorch W * list string)) (id : string) : Res (Unorch W * list string) :=
  st ← r;
  let '(u, invalid) := st in
  ub ← UpdateCrioContainer id "start" (infos id) u;
  Ok (ub.1, if ub.2 : bool then invalid else (invalid ++ [id])%list).
Definition poll_deleted (r : Res (Unorch W)) (id : string) : Res (Unorch W) :=
  u ← r; ub ← UpdateCrioContainer id "destroy" None u; Ok ub.1.

(** One turn of [MonitorCrioEvents]: [containers] are the ones that run, [order] how Go
    ranges over a set. *)
Definition crio_poll (order : gset string → list string) (infos : string → option Container)
    (containers : gset string) (st : gset string * Unorch W) : Res (gset string * Unorch W) :=
  let newContainers := GetNewCrioContainers containers st.1 in
  let deletedContainers := GetDeletedCrioContainers containers st.1 in
  r ← foldl (poll_new infos) (Ok (st.2, [])) (order newContainers);
  u ← foldl poll_deleted (Ok r.1) (order deletedContainers);
  Ok (containers ∖ list_to_set r.2, u).

(** ** NRI *)

Definition nri_owner (c : Container) (u : Unorch W) : Container :=
  match dm_OwnerInfo (un_dm u) !! c_EndPointName c with
  | Some o => with_owner o c
  | None => c
  end.

Definition handleNewContainer (c : Container) (u : Unorch W) : Res (Unorch W) :=
  let c := nri_owner c u in
  let run c s u :=
    u ← un_call (register (c_ContainerID c) (c_ContainerID c) c (point u s)) u;
    if cf_K8sEnv cfg then Ok u
    else MatchandUpdateContainerSecurityPolicies cfg CompilePOSIX spare_containers
           (c_ContainerID c) u in
  match known (c_ContainerID c) u with
  | Complete => Ok u
  | Unknown => run c zero_Slot (set_container c u)
  | FromKubernetes old =>
      let c := kubernetes_info old c in
      let u := set_container c u in
      run c (default zero_Slot (snd <$> find_point (has_container c u) u)) u
  end.

Definition handleDeletedContainer (c : Container) (u : Unorch W) : Res (Unorch W) :=
  match dm_Containers (un_dm u) !! c_ContainerID c with
  | None => Ok u
  | Some _ =>
      u ← (if cf_K8sEnv cfg then Ok u
           else MatchandRemoveContainerFromEndpoint CompilePOSIX (c_ContainerID c) u);
      un_call (unregister true (c_ContainerID c) c) (delete_container (c_ContainerID c) u)
  end.

(** The handler's own records *)
Record NRIHandler := {
  nri_containers : gmap string Container;
  nri_containersByNamespaces : gmap NsKey string }.

Definition namespaceKeyFromContainer (c : Container) : NsKey :=
  {| ns_PidNS := c_PidNS c; ns_MntNS := c_MntNS c |}.

Definition with_namespace_ids (pidns mntns : Z) (c : Container) : Container :=
  {| c_ContainerID := c_ContainerID c; c_ContainerName := c_ContainerName c;
     c_ContainerImage := c_ContainerImage c; c_NamespaceName := c_NamespaceName c;
     c_Owner := c_Owner c; c_EndPointName := c_EndPointName c; c_Labels := c_Labels c;
     c_AppArmorProfile := c_AppArmorProfile c; c_Privileged := c_Privileged c;
     c_PidNS := pidns; c_MntNS := mntns; c_Pid := c_Pid c; c_NodeName := c_NodeName c;
     c_NodeID := c_NodeID c; c_ProtocolPort := c_ProtocolPort c; c_Status := c_Status c;
     c_ContainerIP := c_ContainerIP c; c_LastUpdatedAt := c_LastUpdatedAt c;
     c_PolicyEnabled := c_PolicyEnabled c;
     c_ProcessVisibilityEnabled := c_ProcessVisibilityEnabled c;
     c_FileVisibilityEnabled := c_FileVisibilityEnabled c;
     c_NetworkVisibilityEnabled := c_NetworkVisibilityEnabled c;
     c_CapabilitiesVisibilityEnabled := c_CapabilitiesVisibilityEnabled c |}.

Definition mergeContainer (removing : bool) (c : Container) (nh : NRIHandler)
    : Container * NRIHandler :=
  let put c := {| nri_containers := <[c_ContainerID c := c]> (nri_containers nh);
                  nri_containersByNamespaces := nri_containersByNamespaces nh |} in
  match nri_containers nh !! c_ContainerID c with
  | Some existing =>
      let c := with_namespace_ids
                 (if (c_PidNS existing =? 0)%Z then c_PidNS c else c_PidNS existing)
                 (if (c_MntNS existing =? 0)%Z then c_MntNS c else c_MntNS existing) c in
      (c, put c)
  | None => (c, if removing then nh else put c)
  end.

Definition claim_namespaces (c : Container) (nh : NRIHandler) : NRIHandler :=
  {| nri_containers := nri_containers nh;
     nri_containersByNamespaces :=
       <[namespaceKeyFromContainer c := c_ContainerID c]> (nri_containersByNamespaces nh) |}.
Definition forget_container (id : string) (nh : NRIHandler) : NRIHandler :=
  {| nri_containers := delete id (nri_containers nh);
     nri_containersByNamespaces := nri_containersByNamespaces nh |}.

(** The callbacks of NRI, on a container that is already converted *)
Definition StartContainer (c : Container) (st : NRIHandler * Unorch W)
    : Res (NRIHandler * Unorch W) :=
  let '(c, nh) := mergeContainer false c st.1 in
  match nri_containersByNamespaces nh !! namespaceKeyFromContainer c with
  | Some oldContainerID =>
      let nh := forget_container (c_ContainerID c) nh in
      u ← handleDeletedContainer (default zero_Container (nri_containers nh !! oldContainerID))
            st.2;
      u ← handleNewContainer c u; Ok (claim_namespaces c nh, u)
  | None => u ← handleNewContainer c st.2; Ok (claim_namespaces c nh, u)
  end.

(** [StopContainer] and [RemoveContainer] *)
Definition StopContainer (c : Container) (st : NRIHandler * Unorch W)
    : Res (NRIHandler * Unorch W) :=
  let '(c, nh) := mergeContainer true c st.1 in
  match nri_containersByNamespaces nh !! namespaceKeyFromContainer c with
  | Some _ =>
      u ← handleDeletedContainer c st.2; Ok (forget_container (c_ContainerID c) nh, u)
  | None => Ok (nh, st.2)
  end.

Definition sync_container (r : Res (NRIHandler * Unorch W)) (c : Container)
    : Res (NRIHandler * Unorch W) :=
  st ← r;
  let '(c, nh) := mergeContainer false c st.1 in
  u ← handleNewContainer c st.2; Ok (claim_namespaces c nh, u).
Definition Synchronize (l : list Container) (st : NRIHandler * Unorch W)
    : Res (NRIHandler * Unorch W) := foldl sync_container (Ok st) l.

(** ** OCI hooks *)

Definition bad_profile (s : string) : bool :=
  char_in slash s || char_in "\"%char s || Contains s "..".

(** The loop over the endpoints: a bad profile name makes it go on. *)
Definition hook_endpoint (c : Container) (st : Unorch W * option Slot) (idx : nat)
    : Unorch W * option Slot :=
  match st.2, un_points st.1 !! idx with
  | None, Some s =>
      if has_container c st.1 s then
        if negb (ContainsElement (ep_AppArmorProfiles (st_point s)) (c_AppArmorProfile c))
           && bad_profile (c_AppArmorProfile c) then st
        else let s := add_profile c s in (put_point idx s st.1, Some s)
      else st
  | _, _ => st
  end.

(** Presets are not told. *)
Definition register_hooked (c : Container) (ep : EndPoint) (w : W) : Res W :=
  if rt_SystemMonitor rt && cf_Policy cfg then
    w ← monitor_AddContainerIDToNsMap (c_ContainerID c) (c_NamespaceName c) (c_PidNS c)
          (c_MntNS c) w;
    w ← (if is_some (cf_RuntimeEnforcer cfg)
         then enforcer_RegisterContainer (c_ContainerID c) (c_PidNS c) (c_MntNS c) w else Ok w);
    enforce_started false ep w
  else Ok w.

Definition handleContainerCreate (c : Container) (u : Unorch W) : Res (Unorch W) :=
  match known (c_ContainerID c) u with
  | Unknown =>
      let u := set_container c u in un_call (register_hooked c (point u zero_Slot)) u
  | Complete => un_call (register_hooked c (point u zero_Slot)) u
  | FromKubernetes old =>
      let u := set_container (hook_info old c) u in
      let '(u, s) := foldl (hook_endpoint c) (u, None) (seq 0 (un_len u)) in
      un_call (register_hooked c (point u (default zero_Slot s))) u
  end.

Definition handleContainerDelete (containerID : string) (u : Unorch W) : Res (Unorch W) :=
  match dm_Containers (un_dm u) !! containerID with
  | None => Ok u
  | Some c =>
      let u := profile_removed c (delete_container containerID u) in
      un_call (λ w,
        if rt_SystemMonitor rt && cf_Policy cfg then
          w ← monitor_DeleteContainerIDFromNsMap containerID (c_NamespaceName c) (c_PidNS c)
                (c_MntNS c) w;
          if is_some (cf_RuntimeEnforcer cfg) then enforcer_UnregisterContainer containerID w
          else Ok w
        else Ok w) u
  end.

Record HookRequest := { hr_Detached : bool; hr_Create : bool; hr_Container : Container }.

(** One request of a connection: the reply is [ok] or [err].  Readiness changes when the
    connection is closed. *)
Definition hook_request (ready : bool) (r : Res (Unorch W * list string * bool))
    (req : HookRequest) : Res (Unorch W * list string * bool) :=
  st ← r;
  let '(u, replies, detached) := st in
  if hr_Detached req || ready then
    u ← (if hr_Create req then handleContainerCreate (hr_Container req) u
         else handleContainerDelete (c_ContainerID (hr_Container req)) u);
    Ok (u, (replies ++ ["ok"])%list, detached || hr_Detached req)
  else Ok (u, (replies ++ ["err"])%list, detached).

(** A connection: the state, the replies, and whether others are accepted from then on *)
Definition handleConn (requests : list HookRequest) (ready : bool) (u : Unorch W)
    : Res (Unorch W * list string * bool) :=
  r ← foldl (hook_request ready) (Ok (u, [], false)) requests;
  let '(u, replies, detached) := r in Ok (u, replies, ready || detached).

End runtimes.
