(* ===== verification/RuntimesProps.v ===== *)
(** Containers of the runtimes: the endpoint of a container that starts, and where the
    handlers of the runtimes differ. *)
From Stdlib Require Import Ascii String.
From S2P Require Import Prelude GoStrings GoSlices Types Common NsMap PolicySpec Daemon DaemonProps Pods Unorchestrated UnorchestratedProps Runtimes.

Open Scope string_scope.
Open Scope nat_scope.

(** ** Endpoints of containers that start *)

Section start.
Context `{R : GoRange} {W : Type} `{B : !Backend W} `{RB : !RuntimeBackend W}.
Context (cfg : Settings) (rt : RuntimeSettings).
Context (CompilePOSIX : string → option (string → bool)).
Context (spare_policies : nat → list SecurityPolicy) (spare_containers : nat → list string).
Context (nsList : option (list string)).
Implicit Types (u : Unorch W) (s : Slot) (c : Container).

Class RuntimeReturns : Prop := {
  rr_key : ∀ id m p w, ∃ w', logger_SetNsKey id m p w = Ok w';
  rr_alerts : ∀ id w, ∃ w', logger_DeleteAlerts id w = Ok w';
  rr_add : ∀ id ns p m w, ∃ w', monitor_AddContainerIDToNsMap id ns p m w = Ok w';
  rr_delete : ∀ id ns p m w, ∃ w', monitor_DeleteContainerIDFromNsMap id ns p m w = Ok w';
  rr_register : ∀ id p m w, ∃ w', enforcer_RegisterContainer id p m w = Ok w';
  rr_unregister : ∀ id w, ∃ w', enforcer_UnregisterContainer id w = Ok w';
  rr_presets : ∀ id p m w, ∃ w', presets_RegisterContainer id p m w = Ok w';
  rr_presets_un : ∀ id w, ∃ w', presets_UnregisterContainer id w = Ok w';
  rr_state : ∀ c e w, ∃ w', state_PushContainerEvent c e w = Ok w' }.

Context `{CR : !CallsReturn (B:=B)} `{RR : !RuntimeReturns}.

Lemma enforce_started_total b ep w : ∃ w', enforce_started cfg b ep w = Ok w'.
Proof.
  unfold enforce_started. destruct (ep_SecurityPolicies ep); [eauto|].
  destruct (ret_log addEvent ep w) as [w1 ->]. cbn [mbind Res_bind].
  destruct (is_some _ && _).
  - destruct (ret_enforce ep w1) as [w2 ->]. cbn [mbind Res_bind].
    destruct (_ && _); [apply ret_presets|eauto].
  - cbn [mbind Res_bind]. destruct (_ && _); [apply ret_presets|eauto].
Qed.

Lemma if_total (b : bool) (f : W → Res W) w :
  (∃ w', f w = Ok w') → ∃ w', (if b then f w else Ok w) = Ok w'.
Proof. destruct b; eauto. Qed.

Lemma register_total id pid c ep w : ∃ w', register cfg rt id pid c ep w = Ok w'.
Proof.
  unfold register. destruct (_ && _); [|eauto].
  destruct (rr_key id (c_MntNS c) (c_PidNS c) w) as [w1 ->]. cbn [mbind Res_bind].
  destruct (rr_add id (c_NamespaceName c) (c_PidNS c) (c_MntNS c) w1) as [w2 ->].
  cbn [mbind Res_bind].
  destruct (if_total (is_some (cf_RuntimeEnforcer cfg))
    (enforcer_RegisterContainer id (c_PidNS c) (c_MntNS c)) w2) as [w3 ->]; [apply rr_register|].
  cbn [mbind Res_bind].
  destruct (if_total (cf_Presets cfg) (presets_RegisterContainer pid (c_PidNS c) (c_MntNS c)) w3)
    as [w4 ->]; [apply rr_presets|].
  cbn [mbind Res_bind]. apply enforce_started_total.
Qed.

Lemma push_state_total c status event w : ∃ w', push_state rt c status event w = Ok w'.
Proof. unfold push_state. apply if_total, rr_state. Qed.

(** A new slice shares nothing with slices that can be. *)
Lemma new_slice_read {A} (l spare : list A) (h : list (list A)) :
  slice_wf (new_slice l spare h).1 (new_slice l spare h).2
  ∧ read (new_slice l spare h).1 (new_slice l spare h).2 = l
  ∧ ∀ t, slice_wf h t → slice_wf (new_slice l spare h).1 t
      ∧ read (new_slice l spare h).1 t = read h t ∧ apart (new_slice l spare h).2 t.
Proof.
  destruct l as [|x l].
  { split_and!; [done|done|]. by intros t Ht. }
  unfold new_slice. cbn [fst snd]. set (l' := x :: l). split_and!.
  - unfold slice_wf. cbn. exists (l' ++ spare)%list.
    split; [by apply list_lookup_middle|]. rewrite length_app. unfold l'. simpl. lia.
  - unfold read, array. cbn. rewrite list_lookup_middle by done. cbn.
    change (S (List.length l)) with (List.length l').
    rewrite take_app_length'; [done|]. done.
  - intros t Ht. split; [by apply slice_wf_new|]. split; [by apply read_new|].
    intros k [= <-] Hk. apply (slice_wf_lt h t) in Hk; [lia|done].
Qed.

(** Whatever was in a slot, a new slice takes its place. *)
Lemma new_slice_change {A} (l spare : list A) (h : list (list A)) (t : Slice) :
  slice_change h t (new_slice l spare h).1 (new_slice l spare h).2.
Proof.
  destruct (new_slice_read l spare h) as (Hw & _ & Ho). split; [done|]. intros t' Ht' _. by apply Ho.
Qed.

Lemma find_point_Some f u i s :
  find_point f u = Some (i, s) → i < un_len u ∧ un_points u !! i = Some s ∧ f s = true.
Proof.
  unfold find_point. intros (Hl & Hf & _)%list_find_Some.
  pose proof (lookup_lt_Some _ _ _ Hl) as Hlt. rewrite length_take in Hlt.
  rewrite lookup_take_lt in Hl by lia. split_and!; [lia|done|done].
Qed.

(** What [start_endpoint] does to the endpoints: the first one of the container gets it, or
    there is a new one. *)
Definition joined (c : Container) u u' (ep : EndPoint) : Prop :=
  ∃ i ep0, points u !! i = Some ep0 ∧ owns CompilePOSIX c ep0 = true
  ∧ points u' = <[i := ep]> (points u)
  ∧ ep_SecurityPolicies ep = filter (λ p, policy_applies CompilePOSIX p ep) (stored u).
Definition founded (c : Container) u u' (ep : EndPoint) : Prop :=
  points u' = (points u ++ [ep])%list
  ∧ (∀ ep0, ep0 ∈ points u → owns CompilePOSIX c ep0 = false)
  ∧ ep_SecurityPolicies ep = filter (λ p, policy_applies CompilePOSIX p ep)
                               (updateNamespaceListforCSP nsList <$> stored u).
Abbreviation START := (start_endpoint CompilePOSIX spare_policies spare_containers nsList).
Abbreviation owned c := (λ s, owns CompilePOSIX c (st_point s)).

(** The result with its endpoint *)
Definition started_with (how : Unorch W → EndPoint → Prop) (c : Container) u (r : Unorch W * Slot)
    : Prop :=
  let ep := point r.1 r.2 in
  separate r.1 ∧ un_dm r.1 = un_dm u ∧ c_ContainerID c ∈ ep_Containers ep ∧ how r.1 ep.

Lemma start_joins c u i s :
  separate u → find_point (owned c) u = Some (i, s) → started_with (joined c u) c u (START c u).
Proof.
  intros Hsep Hf. unfold start_endpoint. rewrite Hf. cbv zeta.
  apply find_point_Some in Hf as (Hi & Hs & Hown).
  destruct (sep_wf u Hsep i s Hi Hs) as [Hw Hwc].
  set (spare := spare_containers _).
  pose proof (read_append (c_ContainerID c) spare _ _ Hwc) as Hrc.
  pose proof (change_append (c_ContainerID c) spare _ _ Hwc) as Hcc.
  destruct (slice_append _ _ _ _) as [hc slc]. cbn [fst snd] in Hrc, Hcc.
  set (ep1 := identified _ _). set (l := filter _ _). set (sp := spare_policies _).
  destruct (new_slice_read l sp (un_policies u)) as (_ & Hrp & _).
  pose proof (new_slice_change l sp (un_policies u) (st_policies s)) as Hcp.
  destruct (new_slice _ _ _) as [hp slp]. cbn [fst snd] in Hrp, Hcp.
  set (s' := Build_Slot _ _ _ _ _).
  change (put_point i s' (set_un_containers hc (set_un_policies hp u)))
    with (change_both i s' hp hc u). unfold started_with. cbn [fst snd].
  split; [by apply (change_both_separate i s)|]. split; [done|].
  assert (Hpt : point (change_both i s' hp hc u) s'
                = with_containers (read (un_containers u) (st_containers s) ++ [c_ContainerID c])%list
                    (with_policies l ep1)).
  { unfold point. simpl. by rewrite Hrc, Hrp. }
  split; [rewrite Hpt; cbn; apply elem_of_app; right; left|].
  exists i, (point u s). split; [by rewrite points_lookup, decide_True, Hs|].
  split; [done|]. split; [by apply (change_both_points i s)|]. by rewrite Hpt.
Qed.

(** New slices take nothing from the endpoints that are there. *)
Lemma new_arrays u (ps : list SecurityPolicy) (cs : list string) sp sc :
  separate u →
  let hp := (new_slice ps sp (un_policies u)).1 in
  let hc := (new_slice cs sc (un_containers u)).1 in
  let u1 := set_un_containers hc (set_un_policies hp u) in
  separate u1 ∧ points u1 = points u.
Proof.
  intros Hsep hp hc u1.
  destruct (new_slice_read ps sp (un_policies u)) as (_ & _ & Hop). fold hp in Hop.
  destruct (new_slice_read cs sc (un_containers u)) as (_ & _ & Hoc). fold hc in Hoc.
  split.
  - split; simpl; [apply Hsep| |apply Hsep].
    intros i t Hi Ht. destruct (sep_wf u Hsep i t Hi Ht) as [Ht1 Ht2].
    split; [by apply Hop|by apply Hoc].
  - unfold points. cbn [u1 un_len un_points]. apply list_fmap_ext. intros i t Ht.
    pose proof (lookup_lt_Some _ _ _ Ht) as Hlt. rewrite length_take in Hlt.
    cbn [un_len set_un_containers set_un_policies] in Hlt.
    rewrite lookup_take_lt in Ht by (simpl; lia). destruct (sep_wf u Hsep i t) as [Ht1 Ht2]; [lia|done|].
    unfold point. change (un_policies u1) with hp. change (un_containers u1) with hc.
    destruct (Hop _ Ht1) as (_ & -> & _). by destruct (Hoc _ Ht2) as (_ & -> & _).
Qed.

Lemma none_owned c u ep0 :
  find_point (owned c) u = None → ep0 ∈ points u → owns CompilePOSIX c ep0 = false.
Proof.
  intros Hf (j & Hj)%list_elem_of_lookup_1. apply lookup_points in Hj as (t & Hjl & Ht & ->).
  unfold find_point in Hf. apply list_find_None in Hf.
  apply not_true_is_false. intros Ho. rewrite list.Forall_forall in Hf.
  apply (Hf t); [|exact Ho]. apply list_elem_of_lookup_2 with j. by rewrite lookup_take_lt.
Qed.

Lemma start_founds c u :
  separate u → find_point (owned c) u = None → started_with (founded c u) c u (START c u).
Proof.
  intros Hsep Hf. unfold start_endpoint. rewrite Hf. cbv zeta.
  set (ep1 := started_point c _). set (l := filter _ _). set (sp := spare_policies _).
  destruct (new_arrays u l [c_ContainerID c] sp [] Hsep) as [Hsep1 Hp1].
  destruct (new_slice_read [c_ContainerID c] [] (un_containers u)) as (Hwc & Hrc & Hoc).
  destruct (new_slice_read l sp (un_policies u)) as (Hwp & Hrp & Hop).
  destruct (new_slice [c_ContainerID c] _ _) as [hc slc], (new_slice l _ _) as [hp slp].
  cbn [fst snd] in *. set (s' := Build_Slot _ _ _ _ _). unfold started_with. cbn [fst snd].
  set (u1 := set_un_containers hc (set_un_policies hp u)) in *.
  assert (Hpt : point (append_point s' u1) s'
                = with_containers [c_ContainerID c] (with_policies l ep1)).
  { unfold point. simpl. by rewrite Hrc, Hrp. }
  split; [|split; [done|split]].
  - apply append_point_separate; [done|done|done|]. intros i t Hi Ht.
    destruct (sep_wf u Hsep i t Hi Ht) as [Ht1 Ht2]. split; [by apply Hop|by apply Hoc].
  - rewrite Hpt. left.
  - split; [by rewrite append_point_points, Hp1 by done|]. split; [|by rewrite Hpt].
    intros ep0. by apply none_owned.
Qed.

Lemma start_endpoint_spec c u :
  separate u → started_with (λ u' ep, joined c u u' ep ∨ founded c u u' ep) c u (START c u).
Proof.
  intros Hsep. destruct (find_point (owned c) u) as [[i s]|] eqn:Hf.
  - destruct (start_joins c u i s Hsep Hf) as (? & ? & ? & ?). split_and!; eauto.
  - destruct (start_founds c u Hsep Hf) as (? & ? & ? & ?). split_and!; eauto.
Qed.

(** Changes of the daemon's containers leave the endpoints. *)
Lemma set_un_dm_points dm u : points (set_un_dm dm u) = points u.
Proof. done. Qed.

Lemma set_un_dm_separate dm u : separate u → separate (set_un_dm dm u).
Proof. intros [? ? ?]. by split. Qed.

Lemma visible_points info u :
  points (SetContainerVisibility rt info u) = points u
  ∧ (separate u → separate (SetContainerVisibility rt info u)).
Proof. destruct info as [c|]; [|done]. split; [done|apply set_un_dm_separate]. Qed.

Lemma namespaces_unchanged (l : list SecurityPolicy) :
  (∀ p, p ∈ l → sel_Identities (selector p) ≠ []) → updateNamespaceListforCSP nsList <$> l = l.
Proof.
  intros Hl. rewrite <- (list_fmap_id l) at 2. apply list_fmap_ext. intros i p Hp.
  apply list_elem_of_lookup_2, Hl in Hp. unfold updateNamespaceListforCSP.
  by destruct (sel_Identities (selector p)).
Qed.

(** The endpoint of a container that starts *)
Lemma start_endpoint_in c u :
  separate u → (∀ p, p ∈ stored u → sel_Identities (selector p) ≠ []) →
  let u' := (start_endpoint CompilePOSIX spare_policies spare_containers nsList c u).1 in
  ∃ ep, separate u' ∧ ep ∈ points u' ∧ c_ContainerID c ∈ ep_Containers ep
  ∧ ep_SecurityPolicies ep = filter (λ p, policy_applies CompilePOSIX p ep) (stored u).
Proof.
  intros Hsep Hids. pose proof (start_endpoint_spec c u Hsep) as H.
  unfold started_with, joined, founded in H. cbv zeta in H |- *.
  set (u' := fst _) in *. set (ep := point u' _) in *.
  destruct H as (Hsep' & _ & Hc & [(i & ep0 & Hi & _ & Hp & Hpol)|(Hp & _ & Hpol)]);
    exists ep; (split; [done|]); (split; [|split; [done|]]).
  - rewrite Hp. apply list_elem_of_lookup_2 with i. apply list_lookup_insert_eq.
    by apply lookup_lt_Some in Hi.
  - exact Hpol.
  - rewrite Hp. apply elem_of_app. right. left.
  - rewrite namespaces_unchanged in Hpol by done. exact Hpol.
Qed.

(** C14: Without Kubernetes, a container that Docker or containerd reports for the first
    time comes to belong to an endpoint whose policies are exactly the stored ones that
    apply to it, whether the endpoint is new or was made by a policy. *)
Theorem started_container_policies id c info' u :
  cf_K8sEnv cfg = false → separate u → c_ContainerID c = id → id ≠ "" → known id u = Unknown →
  (∀ p, p ∈ dm_SecurityPolicies (un_dm u) → sel_Identities (selector p) ≠ []) →
  let ends u' := separate u' ∧ ∃ ep, ep ∈ points u' ∧ id ∈ ep_Containers ep
    ∧ ep_SecurityPolicies ep = filter (λ p, policy_applies CompilePOSIX p ep)
                                 (dm_SecurityPolicies (un_dm u)) in
  (∃ u', docker_start cfg rt CompilePOSIX spare_policies spare_containers nsList id (Some c)
           info' u = Ok u' ∧ ends u')
  ∧ ∃ u', containerd_start cfg rt CompilePOSIX spare_policies spare_containers nsList id (Some c) u
          = Ok (u', true) ∧ ends u'.
Proof.
  intros Hk8s Hsep Hid Hne Hkn Hids. cbv zeta.
  assert (He : String.eqb (c_ContainerID c) "" = false) by (rewrite Hid; by apply String.eqb_neq).
  set (u1 := set_un_dm (Pods.set_Containers (<[id := c]> (dm_Containers (un_dm u))) (un_dm u)) u).
  assert (Hsep1 : separate u1) by (by apply set_un_dm_separate).
  destruct (start_endpoint_in c u1 Hsep1 Hids) as (ep & Hsep2 & Hep & Hc & Hpol).
  split.
  - unfold docker_start. rewrite He. unfold docker_known. rewrite Hkn, Hk8s. fold u1.
    destruct (start_endpoint _ _ _ _ c u1) as [u2 s2] eqn:Hst. cbn [fst] in *.
    destruct (visible_points info' u2) as [Hv Hsv].
    set (u3 := SetContainerVisibility rt info' u2) in *.
    edestruct (un_call_total (register cfg rt id id (container_of id u3) (point u3 s2)) u3)
      as (u4 & -> & H4); [intros; apply register_total|]. cbn [mbind Res_bind].
    edestruct (un_call_total (push_state rt (container_of id u3) "running" "added") u4)
      as (u5 & -> & H5); [intros; apply push_state_total|].
    exists u5. split; [done|]. pose proof (same_points_trans _ _ _ H4 H5) as H35.
    split; [eapply same_points_separate; [exact H35|]; by apply Hsv|].
    exists ep. rewrite (same_points_points _ _ H35), Hv, <- Hid. done.
  - unfold containerd_start. rewrite He. unfold containerd_known. rewrite Hid, Hkn, Hk8s.
    assert (Hset : set_container c u = u1) by (unfold set_container, u1; by rewrite Hid).
    rewrite Hset.
    destruct (start_endpoint _ _ _ _ c u1) as [u2 s2] eqn:Hst. cbn [fst mbind Res_bind] in *.
    edestruct (un_call_total (register cfg rt id (c_ContainerID c) c (point u2 s2)) u2)
      as (u4 & -> & H4); [intros; apply register_total|]. cbn [mbind Res_bind].
    edestruct (un_call_total (push_state rt c "running" "added") u4)
      as (u5 & -> & H5); [intros; apply push_state_total|].
    cbn [mbind Res_bind]. exists u5. split; [done|].
    pose proof (same_points_trans _ _ _ H4 H5) as H25.
    split; [by eapply same_points_separate|].
    exists ep. rewrite (same_points_points _ _ H25), <- Hid. done.
Qed.

End start.

(** ** What the other components hear *)

Open Scope list_scope.

Inductive RCall :=
| RBase (c : Call)
| RSetNsKey (id : string) (mntns pidns : Z)
| RDeleteAlerts (id : string)
| RAddToNsMap (id namespace : string) (pidns mntns : Z)
| RDeleteFromNsMap (id namespace : string) (pidns mntns : Z)
| RRegister (id : string) (pidns mntns : Z)
| RUnregister (id : string)
| RPresetsRegister (id : string) (pidns mntns : Z)
| RPresetsUnregister (id : string)
| RState (c : Container) (event : string).

Definition RTrace : Type := list RCall.
Definition note (c : RCall) (w : RTrace) : Res RTrace := Ok (w ++ [c])%list.

#[export] Instance rtrace_backend : Backend RTrace := {
  logger_UpdateSecurityPolicies a ep := note (RBase (CLog a ep));
  logger_UpdateHostSecurityPolicies a l := note (RBase (CLogHost a l));
  logger_UpdateDefaultPosture a ns dp := note (RBase (CLogPosture a ns dp));
  enforcer_UpdateSecurityPolicies ep := note (RBase (CEnforce ep));
  enforcer_UpdateHostSecurityPolicies l := note (RBase (CEnforceHost l));
  enforcer_UpdateAppArmorProfiles n a ps priv := note (RBase (CProfiles n a ps priv));
  presets_UpdateSecurityPolicies ep := note (RBase (CPresets ep));
  monitor_HandleUnknownNamespaceNsMap id ns p m := note (RBase (CUnknown id ns p m));
  monitor_UpdateVisibility_ns a ns v := note (RBase (CVisibility a ns v));
  backup_HostPolicy p := note (RBase (CBackupHost p));
  backup_ContainerPolicy p := note (RBase (CBackup p));
  remove_BackUpPolicy n := note (RBase (CRemoveBackup n)) }.

#[export] Instance rtrace_runtime : RuntimeBackend RTrace := {
  logger_SetNsKey id m p := note (RSetNsKey id m p);
  logger_DeleteAlerts id := note (RDeleteAlerts id);
  monitor_AddContainerIDToNsMap id ns p m := note (RAddToNsMap id ns p m);
  monitor_DeleteContainerIDFromNsMap id ns p m := note (RDeleteFromNsMap id ns p m);
  enforcer_RegisterContainer id p m := note (RRegister id p m);
  enforcer_UnregisterContainer id := note (RUnregister id);
  presets_RegisterContainer id p m := note (RPresetsRegister id p m);
  presets_UnregisterContainer id := note (RPresetsUnregister id);
  state_PushContainerEvent c e := note (RState c e) }.

#[export] Instance rtrace_returns : CallsReturn (B:=rtrace_backend).
Proof. split; intros; eexists; reflexivity. Qed.
#[export] Instance rtrace_runtime_returns : RuntimeReturns (RB:=rtrace_runtime).
Proof. split; intros; eexists; reflexivity. Qed.

Section calls.
Context `{R : GoRange} (cfg : Settings) (rt : RuntimeSettings).
Context (CompilePOSIX : string → option (string → bool)).
Context (spare_policies : nat → list SecurityPolicy) (spare_containers : nat → list string).
Context (nsList : option (list string)).
Implicit Types (u : Unorch RTrace) (c : Container).

Definition heard u : RTrace := dm_w (un_dm u).

(** The calls of a registration *)
Definition register_calls (id pid : string) c (ep : EndPoint) : RTrace :=
  if rt_SystemMonitor rt && cf_Policy cfg then
    [RSetNsKey id (c_MntNS c) (c_PidNS c); RAddToNsMap id (c_NamespaceName c) (c_PidNS c) (c_MntNS c)]
    ++ (if is_some (cf_RuntimeEnforcer cfg) then [RRegister id (c_PidNS c) (c_MntNS c)] else [])
    ++ (if cf_Presets cfg then [RPresetsRegister pid (c_PidNS c) (c_MntNS c)] else [])
    ++ match ep_SecurityPolicies ep with
       | [] => []
       | _ =>
           let enabled := (ep_PolicyEnabled ep =? KubeArmorPolicyEnabled)%Z in
           [RBase (CLog addEvent ep)]
           ++ (if is_some (cf_RuntimeEnforcer cfg) && enabled then [RBase (CEnforce ep)] else [])
           ++ (if cf_Presets cfg && enabled then [RBase (CPresets ep)] else [])
       end
  else [].

Lemma register_trace id pid c ep (w : RTrace) :
  register cfg rt id pid c ep w = Ok (w ++ register_calls id pid c ep)%list.
Proof.
  unfold register, register_calls, enforce_started.
  destruct (rt_SystemMonitor rt && cf_Policy cfg); [|by rewrite app_nil_r].
  destruct (cf_RuntimeEnforcer cfg), (cf_Presets cfg), (ep_SecurityPolicies ep),
    (ep_PolicyEnabled ep =? KubeArmorPolicyEnabled)%Z; cbn;
    unfold note; cbn; rewrite <- ?app_assoc; cbn; rewrite ?app_nil_r; done.
Qed.

Lemma unregister_trace b id c (w : RTrace) :
  unregister cfg rt b id c w = Ok (w ++
    if rt_SystemMonitor rt && cf_Policy cfg then
      [RDeleteAlerts id; RDeleteFromNsMap id (c_NamespaceName c) (c_PidNS c) (c_MntNS c)]
      ++ (if is_some (cf_RuntimeEnforcer cfg) then [RUnregister id] else [])
      ++ (if b && cf_Presets cfg then [RPresetsUnregister id] else [])
    else [])%list.
Proof.
  unfold unregister. destruct (rt_SystemMonitor rt && cf_Policy cfg); [|by rewrite app_nil_r].
  destruct (cf_RuntimeEnforcer cfg), (b && cf_Presets cfg); cbn;
    unfold note; cbn; rewrite <- ?app_assoc; cbn; rewrite ?app_nil_r; done.
Qed.

Lemma push_state_trace c status event (w : RTrace) :
  push_state rt c status event w = Ok (w ++ if rt_StateAgent rt
                                            then [RState (with_status status c) event] else [])%list.
Proof. unfold push_state. destruct (rt_StateAgent rt); [done|by rewrite app_nil_r]. Qed.

Lemma un_call_trace f l u :
  (∀ w, f w = Ok (w ++ l)%list) →
  un_call f u = Ok (set_un_dm (set_dm_w (heard u ++ l)%list (un_dm u)) u).
Proof. intros Hf. unfold un_call, call. by rewrite Hf. Qed.

Lemma add_profile_enabled c s :
  ep_PolicyEnabled (st_point (add_profile c s)) = ep_PolicyEnabled (st_point s).
Proof.
  unfold add_profile. destruct (ContainsElement _ _), (c_Privileged c && st_has_privileged s); done.
Qed.

(** Registration of a container without an endpoint tells the enforcer of the container only. *)
Lemma registered_only id pid c :
  rt_SystemMonitor rt = true → cf_Policy cfg = true → is_some (cf_RuntimeEnforcer cfg) = true →
  let calls := register_calls id pid c zero_EndPoint in
  RRegister id (c_PidNS c) (c_MntNS c) ∈ calls ∧ ∀ ep, RBase (CEnforce ep) ∉ calls.
Proof.
  intros Hmon Hpol Hre calls.
  assert (calls = [RSetNsKey id (c_MntNS c) (c_PidNS c);
                   RAddToNsMap id (c_NamespaceName c) (c_PidNS c) (c_MntNS c);
                   RRegister id (c_PidNS c) (c_MntNS c)]
                  ++ (if cf_Presets cfg then [RPresetsRegister pid (c_PidNS c) (c_MntNS c)]
                      else []))%list as ->.
  { unfold calls, register_calls. rewrite Hmon, Hpol, Hre. cbn. by rewrite app_nil_r. }
  split; [right; right; left|].
  intros ep Hin%list_elem_of_In. destruct (cf_Presets cfg); simpl in Hin; intuition discriminate.
Qed.

(** A container that Kubernetes has reported before its runtime does is registered, but
    with Docker or containerd the policies of its endpoint are not sent to the enforcer;
    with CRI-O they are. *)
Theorem kubernetes_first_unenforced id c info' old u i s :
  cf_K8sEnv cfg = true → c_ContainerID c = id → id ≠ "" → known id u = FromKubernetes old →
  rt_SystemMonitor rt = true → cf_Policy cfg = true → is_some (cf_RuntimeEnforcer cfg) = true →
  find_point (has_container (kubernetes_info old c) u) u = Some (i, s) →
  read (un_policies u) (st_policies s) ≠ [] →
  ep_PolicyEnabled (st_point s) = KubeArmorPolicyEnabled →
  (∃ u' l, docker_start cfg rt CompilePOSIX spare_policies spare_containers nsList id (Some c)
             info' u = Ok u' ∧ heard u' = (heard u ++ l)%list
           ∧ RRegister id (c_PidNS c) (c_MntNS c) ∈ l ∧ ∀ ep, RBase (CEnforce ep) ∉ l)
  ∧ (∃ u' l, containerd_start cfg rt CompilePOSIX spare_policies spare_containers nsList id
               (Some c) u = Ok (u', true) ∧ heard u' = (heard u ++ l)%list
             ∧ RRegister id (c_PidNS c) (c_MntNS c) ∈ l ∧ ∀ ep, RBase (CEnforce ep) ∉ l)
  ∧ ∃ u' l, crio_start cfg rt CompilePOSIX spare_containers id (Some c) u = Ok (u', true)
      ∧ heard u' = (heard u ++ l)%list
      ∧ RBase (CEnforce (point u (add_profile (kubernetes_info old c) s))) ∈ l.
Proof.
  intros Hk8s Hid Hne Hkn Hmon Hpol Hre Hfind Hpols Hen.
  assert (He : String.eqb (c_ContainerID c) "" = false) by (rewrite Hid; by apply String.eqb_neq).
  set (c' := kubernetes_info old c).
  set (u1 := set_un_dm (Pods.set_Containers (<[id := c']> (dm_Containers (un_dm u))) (un_dm u)) u).
  assert (Hset : set_container c' u = u1) by (unfold set_container, u1; cbn; by rewrite Hid).
  assert (Hf1 : find_point (has_container c' u1) u1 = Some (i, s)) by exact Hfind.
  assert (Hnone : ∀ pid (v : Unorch RTrace), RRegister id (c_PidNS c) (c_MntNS c)
              ∈ register_calls id pid c' (point v zero_Slot)
            ∧ ∀ ep, RBase (CEnforce ep) ∉ register_calls id pid c' (point v zero_Slot)).
  { intros pid v. by apply (registered_only id pid c'). }
  split; [|split].
  - unfold docker_start. rewrite He. unfold docker_known. rewrite Hkn, Hk8s. fold c' u1.
    unfold profile_added. rewrite Hf1. cbn [fst].
    erewrite un_call_trace by (intros; apply register_trace). cbn [mbind Res_bind].
    erewrite un_call_trace by (intros; apply push_state_trace).
    eexists _, _. split; [reflexivity|]. unfold heard at 1. cbn.
    split; [by rewrite <- app_assoc|].
    match goal with |- context [register_calls _ ?pid _ (point ?v zero_Slot)] =>
      destruct (Hnone pid v) as [Hin Hnot] end. split; [apply elem_of_app; by left|].
    intros ep [Hx|Hx]%elem_of_app; [by apply (Hnot ep)|].
    destruct (rt_StateAgent rt); [by apply list_elem_of_singleton in Hx|by apply elem_of_nil in Hx].
  - unfold containerd_start. rewrite He. unfold containerd_known. rewrite Hid, Hkn. fold c'.
    rewrite Hset, Hf1, Hk8s. cbn [mbind Res_bind].
    erewrite un_call_trace by (intros; apply register_trace). cbn [mbind Res_bind].
    erewrite un_call_trace by (intros; apply push_state_trace). cbn [mbind Res_bind].
    eexists _, _. split; [reflexivity|]. unfold heard at 1. cbn.
    split; [by rewrite <- app_assoc|].
    match goal with |- context [register_calls _ ?pid _ (point ?v zero_Slot)] =>
      destruct (Hnone pid v) as [Hin Hnot] end. split; [apply elem_of_app; by left|].
    intros ep [Hx|Hx]%elem_of_app; [by apply (Hnot ep)|].
    destruct (rt_StateAgent rt); [by apply list_elem_of_singleton in Hx|by apply elem_of_nil in Hx].
  - unfold crio_start. rewrite He, Hid, Hkn. fold c'. rewrite Hset. unfold profile_added.
    rewrite Hf1, Hk8s. cbn [default].
    erewrite un_call_trace by (intros; apply register_trace). cbn [mbind Res_bind].
    eexists _, _. split; [reflexivity|]. split; [done|].
    set (ep := point u (add_profile c' s)).
    match goal with |- context [register_calls _ _ _ ?e] => change e with ep end.
    unfold register_calls. rewrite Hmon, Hpol, Hre. cbn [andb].
    assert (Hp : ep_SecurityPolicies ep = read (un_policies u) (st_policies s)) by done.
    assert (Hpe : (ep_PolicyEnabled ep =? KubeArmorPolicyEnabled)%Z = true).
    { change (ep_PolicyEnabled ep) with (ep_PolicyEnabled (st_point (add_profile c' s))).
      by rewrite add_profile_enabled, Hen. }
    rewrite Hp, Hpe. destruct (read _ _) as [|q l]; [done|].
    apply list_elem_of_In. destruct (cf_Presets cfg); simpl; auto 10.
Qed.

End calls.

(** ** Witnesses *)

Section witnesses.
#[local] Existing Instance canonical_range.

Definition sample_settings (k8s : bool) : Settings :=
  {| cf_Policy := true; cf_HostPolicy := false; cf_KVMAgent := false; cf_K8sEnv := k8s;
     cf_RuntimeEnforcer := Some "BPFLSM"%string; cf_Presets := true;
     cf_UntrackedNamespaces := [] |}.
Definition sample_runtime : RuntimeSettings :=
  {| rt_SystemMonitor := true; rt_StateAgent := true; rt_Visibility := "process"%string |}.

(** A container of endpoint [name], with its namespaces or without *)
Definition sample_container (id name labels : string) (pidns mntns : Z) : Container :=
  {| c_ContainerID := id; c_ContainerName := name; c_ContainerImage := "";
     c_NamespaceName := container_namespace; c_Owner := ("", "", "")%string;
     c_EndPointName := name; c_Labels := labels; c_AppArmorProfile := "profile";
     c_Privileged := false; c_PidNS := pidns; c_MntNS := mntns; c_Pid := 9; c_NodeName := "";
     c_NodeID := ""; c_ProtocolPort := ""; c_Status := ""; c_ContainerIP := "";
     c_LastUpdatedAt := ""; c_PolicyEnabled := 0; c_ProcessVisibilityEnabled := false;
     c_FileVisibilityEnabled := false; c_NetworkVisibilityEnabled := false;
     c_CapabilitiesVisibilityEnabled := false |}.

(** One endpoint, made by a policy, for the containers [cs] *)
Definition one_point (known : list Container) (cs : list string) : Unorch RTrace :=
  {| un_dm := Daemon.set_SecurityPolicies [web_policy] (Pods.set_Containers
       (list_to_map ((λ c, (c_ContainerID c, c)) <$> known)) (sample_daemon [] []));
     un_points := [sample_slot "web" "web" 0 {| sl_arr := Some 0; sl_len := List.length cs |}];
     un_len := 1; un_policies := [[web_policy]]; un_containers := [cs] |}.

Lemma one_point_separate known cs : separate (one_point known cs).
Proof.
  split; simpl; [lia| |].
  - intros i s Hi Hs. destruct i; [|lia]. injection Hs as <-.
    split; [by eexists|]. by exists cs.
  - intros i j s t Hi Hj Hij. lia.
Qed.

Definition web_container (id : string) : Container := sample_container id "web" "app=web" 7 8.
Definition reported (id : string) : Container := sample_container id "web" "" 0 0.

Lemma started_container_policies_witness :
  ∃ u' ep, docker_start (sample_settings false) sample_runtime (λ _, None) (λ _, []) (λ _, []) None
             "c2" (Some (web_container "c2")) None (one_point [] ["c1"%string]) = Ok u'
  ∧ ep ∈ points u' ∧ "c2"%string ∈ ep_Containers ep.
Proof.
  destruct (started_container_policies (sample_settings false) sample_runtime (λ _, None)
    (λ _, []) (λ _, []) None "c2" (web_container "c2") None (one_point [] ["c1"%string]))
    as [(u' & Hu & _ & ep & Hep & Hc & _) _].
  - reflexivity.
  - apply one_point_separate.
  - reflexivity.
  - discriminate.
  - vm_compute. reflexivity.
  - intros p Hp. apply list_elem_of_singleton in Hp as ->. vm_compute. discriminate.
  - exists u', ep. split; [exact Hu|]. split; [exact Hep|exact Hc].
Defined.

Lemma kubernetes_first_unenforced_witness :
  let u := one_point [reported "c1"] ["c1"%string] in
  ∃ u', docker_start (sample_settings true) sample_runtime (λ _, None) (λ _, []) (λ _, []) None
          "c1" (Some (web_container "c1")) None u = Ok u'
  ∧ RRegister "c1" 7 8 ∈ heard u'.
Proof.
  cbv zeta. set (s := sample_slot "web" "web" 0 {| sl_arr := Some 0; sl_len := 1 |}).
  destruct (kubernetes_first_unenforced (sample_settings true) sample_runtime (λ _, None)
    (λ _, []) (λ _, []) None "c1" (web_container "c1") None (reported "c1")
    (one_point [reported "c1"] ["c1"%string]) 0 s) as [(u' & l & Hu & Hh & Hr & _) _].
  - reflexivity.
  - reflexivity.
  - discriminate.
  - vm_compute. reflexivity.
  - reflexivity.
  - reflexivity.
  - reflexivity.
  - vm_compute. reflexivity.
  - vm_compute. discriminate.
  - vm_compute. reflexivity.
  - exists u'. split; [exact Hu|]. rewrite Hh. exact Hr.
Defined.

End witnesses.
