(* ===== verification/RuntimeEventsProps.v ===== *)
(** Events of the runtimes: turns of the CRI-O poll, namespaces that NRI sees again, and the
    connections of the OCI hooks. *)
From Stdlib Require Import Ascii String.
From S2P Require Import Prelude GoStrings GoSlices Types Common NsMap PolicySpec Daemon DaemonProps Pods Unorchestrated UnorchestratedProps Runtimes RuntimesProps.

Open Scope string_scope.
Open Scope nat_scope.
Open Scope list_scope.

(** Filters that agree on the list *)
Lemma list_filter_on {A} (P Q : A → Prop) `{∀ x, Decision (P x)} `{∀ x, Decision (Q x)} (l : list A) :
  (∀ x, x ∈ l → P x ↔ Q x) → filter P l = filter Q l.
Proof.
  induction l as [|x l IH]; intros Hl; [done|]. rewrite !filter_cons, IH.
  - pose proof (Hl x ltac:(left)). destruct (decide (P x)), (decide (Q x)); tauto.
  - intros y Hy. apply Hl. by right.
Qed.

(** ** Turns of the CRI-O poll *)

Section poll.
Context `{R : GoRange} (cfg : Settings) (rt : RuntimeSettings).
Context (CompilePOSIX : string → option (string → bool)).
Context (spare_containers : nat → list string) (infos : string → option Container).
Implicit Types (u : Unorch RTrace) (c : Container) (id : string).

Abbreviation update := (UpdateCrioContainer cfg rt CompilePOSIX spare_containers).
Abbreviation poll := (crio_poll cfg rt CompilePOSIX spare_containers).

(** Whether a turn takes the container *)
Definition accepted u id : bool :=
  match infos id, known id u with
  | Some _, (Unknown | FromKubernetes _) => negb (String.eqb id "")
  | _, _ => false
  end.

Lemma accepted_frame u u' id :
  dm_Containers (un_dm u') !! id = dm_Containers (un_dm u) !! id → accepted u' id = accepted u id.
Proof. intros H. unfold accepted, known. by rewrite H. Qed.

(** What a turn does to the daemon's containers and says to the others *)
Definition turned (id : string) u u' (l : RTrace) : Prop :=
  heard u' = heard u ++ l
  ∧ ∀ j, j ≠ id → dm_Containers (un_dm u') !! j = dm_Containers (un_dm u) !! j.

Context (Hk8s : cf_K8sEnv cfg = true) (Hmon : rt_SystemMonitor rt = true).
Context (Hpol : cf_Policy cfg = true) (Hre : is_some (cf_RuntimeEnforcer cfg) = true).
Context (Hid : ∀ id c, infos id = Some c → c_ContainerID c = id).

Lemma register_heard id pid c ep : RRegister id (c_PidNS c) (c_MntNS c) ∈ register_calls cfg rt id pid c ep.
Proof.
  unfold register_calls. rewrite Hmon, Hpol, Hre. apply list_elem_of_In. cbn. auto.
Qed.

Lemma start_turn id u :
  ∃ u' l, update id "start" (infos id) u = Ok (u', accepted u id) ∧ turned id u u' l
  ∧ (∀ c, infos id = Some c → accepted u id = true → RRegister id (c_PidNS c) (c_MntNS c) ∈ l).
Proof.
  change (update id "start" (infos id) u)
    with (crio_start cfg rt CompilePOSIX spare_containers id (infos id) u).
  unfold crio_start, accepted. destruct (infos id) as [c|] eqn:Hi.
  2:{ exists u, []. split; [done|]. split; [|done]. split; [by rewrite app_nil_r|done]. }
  pose proof (Hid _ _ Hi) as Hc. rewrite Hc.
  destruct (String.eqb id "").
  { exists u, []. destruct (known id u); (split; [done|]); (split; [|done]);
      (split; [by rewrite app_nil_r|done]). }
  destruct (known id u) as [|old|].
  - erewrite un_call_trace by (intros; apply register_trace). cbn [mbind Res_bind]. rewrite Hk8s.
    eexists _, _. split; [reflexivity|]. split; [split; [done|]|].
    + intros j Hj. cbn. apply lookup_insert_ne. congruence.
    + intros c' [= <-] _. apply register_heard.
  - set (c1 := kubernetes_info old c). set (u1 := set_container c1 u).
    assert (Hu1 : ∃ u2 s, profile_added c1 u1 = (u2, s) ∧ un_dm u2 = un_dm u1).
    { unfold profile_added. destruct (find_point _ _) as [[i s]|]; eauto. }
    destruct Hu1 as (u2 & s & -> & Hdm).
    erewrite un_call_trace by (intros; apply register_trace). cbn [mbind Res_bind]. rewrite Hk8s.
    eexists _, _. split; [reflexivity|]. split; [split|].
    + unfold heard. cbn. by rewrite Hdm.
    + intros j Hj. cbn. rewrite Hdm. cbn. apply lookup_insert_ne. congruence.
    + intros c' [= <-] _. apply (register_heard id id c1).
  - exists u, []. split; [done|]. split; [|done]. split; [by rewrite app_nil_r|done].
Qed.

Lemma profile_removed_dm c u : un_dm (profile_removed c u) = un_dm u.
Proof. unfold profile_removed. by destruct (find_point _ _) as [[i s]|]. Qed.

Lemma destroy_turn id u :
  ∃ u' l, update id "destroy" None u = Ok (u', is_some (dm_Containers (un_dm u) !! id))
  ∧ turned id u u' l ∧ dm_Containers (un_dm u') !! id = None
  ∧ (is_some (dm_Containers (un_dm u) !! id) = true → RUnregister id ∈ l).
Proof.
  change (update id "destroy" None u) with (crio_destroy cfg rt CompilePOSIX id u).
  unfold crio_destroy. destruct (dm_Containers (un_dm u) !! id) as [c|] eqn:Hc.
  2:{ exists u, []. split; [done|]. split; [|done]. split; [by rewrite app_nil_r|done]. }
  rewrite Hk8s. cbn [mbind Res_bind].
  erewrite un_call_trace by (intros; apply unregister_trace). cbn [mbind Res_bind].
  eexists _, _. split; [reflexivity|]. split; [split|split].
  - unfold heard. cbn. by rewrite profile_removed_dm.
  - intros j Hj. cbn. rewrite profile_removed_dm. cbn. apply lookup_delete_ne. congruence.
  - cbn. rewrite profile_removed_dm. cbn. apply lookup_delete_eq.
  - intros _. rewrite Hmon, Hpol, Hre. apply list_elem_of_In. cbn. auto.
Qed.

Lemma turns_new ids : ∀ u inv, NoDup ids →
  ∃ u' l, foldl (poll_new cfg rt CompilePOSIX spare_containers infos) (Ok (u, inv)) ids
          = Ok (u', inv ++ filter (λ id, accepted u id = false) ids)
  ∧ heard u' = heard u ++ l
  ∧ (∀ j, j ∉ ids → dm_Containers (un_dm u') !! j = dm_Containers (un_dm u) !! j)
  ∧ ∀ id c, id ∈ ids → infos id = Some c → accepted u id = true →
      RRegister id (c_PidNS c) (c_MntNS c) ∈ l.
Proof.
  induction ids as [|id ids IH]; intros u inv Hnd.
  { exists u, []. split; [by rewrite app_nil_r|]. split; [by rewrite app_nil_r|].
    split; [done|]. intros id c H. by apply elem_of_nil in H. }
  apply list.NoDup_cons in Hnd as [Hni Hnd]. cbn [foldl]. unfold poll_new at 2.
  destruct (start_turn id u) as (u1 & l1 & Hu1 & [Hh1 Hf1] & Hr1).
  cbn [mbind Res_bind]. rewrite Hu1. cbn [mbind Res_bind fst snd].
  destruct (IH u1 (if accepted u id then inv else inv ++ [id]) Hnd)
    as (u' & l & -> & Hh & Hf & Hr).
  assert (Hacc : ∀ j, j ∈ ids → accepted u1 j = accepted u j).
  { intros j Hj. apply accepted_frame, Hf1. by intros ->. }
  exists u', (l1 ++ l). split; [|split; [|split]].
  - do 2 f_equal. rewrite filter_cons.
    rewrite (list_filter_on (λ j, accepted u1 j = false) (λ j, accepted u j = false)).
    + destruct (accepted u id); cbn; [done|]. by rewrite <- app_assoc.
    + intros j Hj. by rewrite Hacc.
  - by rewrite Hh, Hh1, app_assoc.
  - intros j Hj. apply not_elem_of_cons in Hj as [Hji Hj]. by rewrite Hf, Hf1.
  - intros j c Hj Hi Ha. apply elem_of_app. apply elem_of_cons in Hj as [->|Hj].
    + left. by apply Hr1.
    + right. apply (Hr j c Hj Hi). by rewrite Hacc.
Qed.

Lemma turns_deleted ids : ∀ u, NoDup ids →
  ∃ u' l, foldl (poll_deleted cfg rt CompilePOSIX spare_containers) (Ok u) ids = Ok u'
  ∧ heard u' = heard u ++ l
  ∧ (∀ id, id ∈ ids → dm_Containers (un_dm u') !! id = None)
  ∧ (∀ j, j ∉ ids → dm_Containers (un_dm u') !! j = dm_Containers (un_dm u) !! j)
  ∧ ∀ id, id ∈ ids → is_some (dm_Containers (un_dm u) !! id) = true → RUnregister id ∈ l.
Proof.
  induction ids as [|id ids IH]; intros u Hnd.
  { exists u, []. split; [done|]. split; [by rewrite app_nil_r|].
    split; [|split; [done|]]; intros id H; by apply elem_of_nil in H. }
  apply list.NoDup_cons in Hnd as [Hni Hnd]. cbn [foldl]. unfold poll_deleted at 2.
  destruct (destroy_turn id u) as (u1 & l1 & Hu1 & [Hh1 Hf1] & Hn1 & Hr1).
  cbn [mbind Res_bind]. rewrite Hu1. cbn [mbind Res_bind fst snd].
  destruct (IH u1 Hnd) as (u' & l & -> & Hh & Hn & Hf & Hr).
  exists u', (l1 ++ l). split; [done|]. split; [by rewrite Hh, Hh1, app_assoc|].
  split; [|split].
  - intros j Hj. apply elem_of_cons in Hj as [->|Hj]; [by rewrite Hf|by apply Hn].
  - intros j Hj. apply not_elem_of_cons in Hj as [Hji Hj]. by rewrite Hf, Hf1.
  - intros j Hj Hs. apply elem_of_app. apply elem_of_cons in Hj as [->|Hj].
    + left. by apply Hr1.
    + right. apply (Hr j Hj). rewrite Hf1; [done|]. by intros ->.
Qed.

End poll.

(** C17: With Kubernetes, a turn of the CRI-O poll returns, registers every new container
    that the runtime answers for and that is not complete yet, leaves those without an
    answer to be new again in the next turn, and unregisters and forgets the containers
    that are gone. *)
Theorem crio_poll_registers `{R : GoRange} cfg rt CompilePOSIX spare_containers infos order
    containers old (u : Unorch RTrace) :
  cf_K8sEnv cfg = true → rt_SystemMonitor rt = true → cf_Policy cfg = true →
  is_some (cf_RuntimeEnforcer cfg) = true →
  (∀ s, order s ≡ₚ elements s) → (∀ id c, infos id = Some c → c_ContainerID c = id) →
  ∃ known' u' l, crio_poll cfg rt CompilePOSIX spare_containers order infos containers (old, u)
                 = Ok (known', u')
  ∧ heard u' = heard u ++ l ∧ known' ⊆ containers
  ∧ (∀ id, id ∈ containers → id ∉ old → infos id = None → id ∈ GetNewCrioContainers containers known')
  ∧ (∀ id c, id ∈ containers → id ∉ old → infos id = Some c → id ≠ ""%string → known id u ≠ Complete →
       id ∈ known' ∧ RRegister id (c_PidNS c) (c_MntNS c) ∈ l)
  ∧ (∀ id c, id ∈ old → id ∉ containers → dm_Containers (un_dm u) !! id = Some c →
       RUnregister id ∈ l ∧ dm_Containers (un_dm u') !! id = None).
Proof.
  intros Hk8s Hmon Hpol Hre Ho Hid. unfold crio_poll. cbn [fst snd].
  set (new := GetNewCrioContainers containers old).
  set (gone := GetDeletedCrioContainers containers old).
  assert (Hn : ∀ id, id ∈ order new ↔ id ∈ containers ∧ id ∉ old).
  { intros id. rewrite (Ho new), elem_of_elements. unfold new, GetNewCrioContainers. set_solver. }
  assert (Hg : ∀ id, id ∈ order gone ↔ id ∈ old ∧ id ∉ containers).
  { intros id. rewrite (Ho gone), elem_of_elements. unfold gone, GetDeletedCrioContainers. set_solver. }
  assert (Hnd : ∀ s, NoDup (order s)).
  { intros s. rewrite (Ho s). apply NoDup_elements. }
  destruct (turns_new cfg rt CompilePOSIX spare_containers infos Hk8s Hmon Hpol Hre Hid
    (order new) u [] (Hnd new)) as (u1 & l1 & -> & Hh1 & Hf1 & Hr1).
  cbn [mbind Res_bind fst snd].
  destruct (turns_deleted cfg rt CompilePOSIX spare_containers Hk8s Hmon Hpol Hre
    (order gone) u1 (Hnd gone)) as (u2 & l2 & -> & Hh2 & Hn2 & Hf2 & Hr2).
  cbn [mbind Res_bind]. eexists _, u2, (l1 ++ l2). split; [reflexivity|].
  split; [by rewrite Hh2, Hh1, app_assoc|]. split; [set_solver|].
  split; [|split].
  - intros id Hc Hk Hi. unfold GetNewCrioContainers. apply elem_of_difference. split; [done|].
    intros [_ Hx]%elem_of_difference. apply Hx. apply elem_of_list_to_set.
    apply list_elem_of_filter. split; [|by apply Hn]. unfold accepted. by rewrite Hi.
  - intros id c Hc Hk Hi Hne Hkn.
    assert (Ha : accepted infos u id = true).
    { unfold accepted. rewrite Hi. apply String.eqb_neq in Hne.
      destruct (known id u); [by rewrite Hne..|done]. }
    split.
    + apply elem_of_difference. split; [done|]. intros Hx%elem_of_list_to_set.
      apply list_elem_of_filter in Hx as [Hx _]. congruence.
    + apply elem_of_app. left. apply (Hr1 id c); [by apply Hn|done..].
  - intros id c Hk Hc Hi. assert (Hin : id ∈ order gone) by by apply Hg.
    split; [|by apply Hn2]. apply elem_of_app. right. apply Hr2; [done|].
    rewrite Hf1; [by rewrite Hi|]. rewrite Hn. naive_solver.
Qed.

(** ** Namespaces that NRI sees again *)

Section nri.
Context `{R : GoRange} (cfg : Settings) (rt : RuntimeSettings).
Context (CompilePOSIX : string → option (string → bool)).
Context (spare_containers : nat → list string).
Implicit Types (u : Unorch RTrace) (c : Container) (nh : NRIHandler).
Context (Hk8s : cf_K8sEnv cfg = true) (Hmon : rt_SystemMonitor rt = true).
Context (Hpol : cf_Policy cfg = true) (Hre : is_some (cf_RuntimeEnforcer cfg) = true).

Lemma new_turn c u :
  ∃ u' l, handleNewContainer cfg rt CompilePOSIX spare_containers c u = Ok u'
  ∧ heard u' = heard u ++ l ∧ is_some (dm_Containers (un_dm u') !! c_ContainerID c) = true.
Proof.
  unfold handleNewContainer. set (c' := nri_owner c u).
  assert (Hc : c_ContainerID c' = c_ContainerID c).
  { unfold c', nri_owner. by destruct (_ !! _). }
  destruct (known (c_ContainerID c') u) as [|old|] eqn:Hkn.
  - erewrite un_call_trace by (intros; apply register_trace). cbn [mbind Res_bind]. rewrite Hk8s.
    eexists _, _. split; [reflexivity|]. split; [done|]. cbn. by rewrite Hc, lookup_insert_eq.
  - erewrite un_call_trace by (intros; apply register_trace). cbn [mbind Res_bind]. rewrite Hk8s.
    eexists _, _. split; [reflexivity|]. split; [done|]. cbn. by rewrite Hc, lookup_insert_eq.
  - exists u, []. split; [done|]. split; [by rewrite app_nil_r|]. unfold known in Hkn.
    rewrite Hc in Hkn. by destruct (_ !! c_ContainerID c).
Qed.

Lemma deleted_turn c u :
  ∃ u' l, handleDeletedContainer cfg rt CompilePOSIX c u = Ok u' ∧ heard u' = heard u ++ l
  ∧ dm_Containers (un_dm u') = delete (c_ContainerID c) (dm_Containers (un_dm u))
  ∧ (is_some (dm_Containers (un_dm u) !! c_ContainerID c) = true → RUnregister (c_ContainerID c) ∈ l).
Proof.
  unfold handleDeletedContainer. destruct (_ !! _) as [c0|] eqn:Hc.
  - rewrite Hk8s. cbn [mbind Res_bind].
    erewrite un_call_trace by (intros; apply unregister_trace).
    eexists _, _. split; [reflexivity|]. split; [done|]. split; [done|]. intros _.
    rewrite Hmon, Hpol, Hre. apply list_elem_of_In. cbn. auto.
  - exists u, []. split; [done|]. split; [by rewrite app_nil_r|]. split; [|done].
    by rewrite delete_id.
Qed.

(** Kubernetes and NRI: a container that starts is forgotten when it stops, even if its
    namespaces can not be read any more, but not if its namespaces were those of an earlier
    container: then the handler dropped the new container's record instead of the earlier
    one's, and the daemon keeps the container. *)
Theorem nri_stop_needs_record c nh u :
  let id := c_ContainerID c in
  let start := StartContainer cfg rt CompilePOSIX spare_containers c (nh, u) in
  let stop := StopContainer cfg rt CompilePOSIX in
  nri_containers nh !! id = None → c_PidNS c ≠ 0%Z → c_MntNS c ≠ 0%Z →
  (nri_containersByNamespaces nh !! namespaceKeyFromContainer c = None →
     ∃ nh1 u1, start = Ok (nh1, u1) ∧ ∀ c', c_ContainerID c' = id →
       ∃ nh2 u2 l, stop c' (nh1, u1) = Ok (nh2, u2) ∧ heard u2 = heard u1 ++ l
         ∧ RUnregister id ∈ l ∧ dm_Containers (un_dm u2) !! id = None)
  ∧ (∀ old, nri_containersByNamespaces nh !! namespaceKeyFromContainer c = Some old →
     ∃ nh1 u1, start = Ok (nh1, u1)
       ∧ nri_containers nh1 !! old = nri_containers nh !! old
       ∧ is_some (dm_Containers (un_dm u1) !! id) = true
       ∧ ∀ c', c_ContainerID c' = id →
           nri_containersByNamespaces nh1 !! namespaceKeyFromContainer c' = None →
           stop c' (nh1, u1) = Ok (nh1, u1)).
Proof.
  cbv zeta. intros Hrec Hp Hm. unfold StartContainer, mergeContainer. cbn [fst snd].
  rewrite Hrec. cbn [nri_containersByNamespaces]. split.
  - intros Hfree. rewrite Hfree. destruct (new_turn c u) as (u1 & l1 & -> & _ & Hin).
    cbn [mbind Res_bind]. eexists _, u1. split; [reflexivity|]. intros c' Hc'.
    unfold StopContainer, mergeContainer.
    cbn [fst snd claim_namespaces nri_containers nri_containersByNamespaces].
    rewrite Hc', lookup_insert_eq. cbn [fst snd claim_namespaces nri_containers nri_containersByNamespaces].
    replace (c_PidNS c =? 0)%Z with false by (symmetry; by apply Z.eqb_neq).
    replace (c_MntNS c =? 0)%Z with false by (symmetry; by apply Z.eqb_neq).
    set (c2 := with_namespace_ids _ _ c'). change (namespaceKeyFromContainer c2)
      with (namespaceKeyFromContainer c). rewrite lookup_insert_eq.
    destruct (deleted_turn c2 u1) as (u2 & l2 & -> & Hh & Hd & Hu). cbn [mbind Res_bind].
    change (c_ContainerID c2) with (c_ContainerID c') in Hd, Hu. rewrite Hc' in Hd, Hu.
    eexists _, u2, l2. split; [reflexivity|]. split; [done|]. split; [by apply Hu|].
    rewrite Hd. apply lookup_delete_eq.
  - intros old Hold. rewrite Hold. set (nh0 := forget_container _ _).
    assert (Hnh0 : nri_containers nh0 = nri_containers nh).
    { unfold nh0. cbn. by rewrite delete_insert_id. }
    rewrite Hnh0. clearbody nh0.
    set (co := default zero_Container (nri_containers nh !! old)).
    destruct (deleted_turn co u) as (u0 & l0 & -> & _). cbn [mbind Res_bind].
    destruct (new_turn c u0) as (u1 & l1 & -> & _ & Hin). cbn [mbind Res_bind].
    eexists _, u1. split; [reflexivity|]. split; [cbn; by rewrite Hnh0|]. split; [done|].
    intros c' Hc' Hfree. unfold StopContainer, mergeContainer.
    cbn [fst snd claim_namespaces nri_containers nri_containersByNamespaces] in Hfree |- *.
    rewrite Hnh0, Hc', Hrec. cbn [claim_namespaces nri_containersByNamespaces]. by rewrite Hfree.
Qed.

End nri.

(** ** Connections of the hooks *)

Section hooks.
Context `{R : GoRange} {W : Type} `{B : !Backend W} `{RB : !RuntimeBackend W}.
Context (cfg : Settings) (rt : RuntimeSettings).
Implicit Types (u : Unorch W) (c : Container).

(** Every profile of an endpoint is a plain file name. *)
Definition plain_profiles u : Prop :=
  Forall (λ s, Forall (λ p, bad_profile p = false) (ep_AppArmorProfiles (st_point s))) (un_points u).

Lemma plain_call f u u' : un_call f u = Ok u' → plain_profiles u → plain_profiles u'.
Proof. intros (Hp & _)%un_call_frame. unfold plain_profiles. by rewrite Hp. Qed.

Lemma plain_put i s u :
  Forall (λ p, bad_profile p = false) (ep_AppArmorProfiles (st_point s)) →
  plain_profiles u → plain_profiles (put_point i s u).
Proof. intros Hs Hu. by apply Forall_insert. Qed.

Lemma plain_at u i s :
  plain_profiles u → un_points u !! i = Some s →
  Forall (λ p, bad_profile p = false) (ep_AppArmorProfiles (st_point s)).
Proof. intros Hu Hs. eapply (list.Forall_lookup_1 _ _ _ _ Hu Hs). Qed.

Lemma remove_string_incl x l p : p ∈ remove_string x l → p ∈ l.
Proof.
  induction l as [|y l IH]; [done|]. cbn. destruct (String.eqb y x); [by right|].
  intros [->|H]%elem_of_cons; [left|right; by apply IH].
Qed.

Lemma plain_removed c u : plain_profiles u → plain_profiles (profile_removed c u).
Proof.
  intros Hu. unfold profile_removed. destruct (find_point _ u) as [[i s]|] eqn:Hf; [|done].
  apply find_point_Some in Hf as (_ & Hs & _). apply plain_put; [|done].
  pose proof (plain_at _ _ _ Hu Hs) as Hp. rewrite list.Forall_forall in Hp |- *.
  intros p Hin. apply Hp. by apply remove_string_incl in Hin.
Qed.

Lemma plain_hook_endpoint c st i :
  plain_profiles st.1 → plain_profiles (hook_endpoint c st i).1.
Proof.
  intros Hu. unfold hook_endpoint. destruct st as [u [s0|]]; cbn in *; [done|].
  destruct (un_points u !! i) as [s|] eqn:Hs; [|done].
  destruct (has_container c u s); [|done].
  pose proof (plain_at _ _ _ Hu Hs) as Hp.
  destruct (ContainsElement _ _) eqn:Hc; cbn.
  - apply plain_put; [|done]. unfold add_profile. rewrite Hc. by destruct (_ && _).
  - destruct (bad_profile _) eqn:Hb; [done|]. apply plain_put; [|done].
    unfold add_profile. rewrite Hc.
    destruct (_ && _); cbn; apply list.Forall_app; (split; [done|]); by apply list.Forall_singleton.
Qed.

Lemma plain_create c u u' :
  handleContainerCreate cfg rt c u = Ok u' → plain_profiles u → plain_profiles u'.
Proof.
  unfold handleContainerCreate. intros H Hu. destruct (known _ _) as [|old|].
  - by apply (plain_call _ _ _ H).
  - set (u1 := set_container _ u) in H. assert (Hu1 : plain_profiles u1) by exact Hu.
    assert (Hf : ∀ l st, plain_profiles st.1 → plain_profiles (foldl (hook_endpoint c) st l).1).
    { induction l as [|i l IH]; intros st Hst; [done|]. by apply IH, plain_hook_endpoint. }
    specialize (Hf (seq 0 (un_len u1)) (u1, None) Hu1).
    destruct (foldl _ _ _) as [u2 s]. by apply (plain_call _ _ _ H).
  - by apply (plain_call _ _ _ H).
Qed.

Lemma plain_delete id u u' :
  handleContainerDelete cfg rt id u = Ok u' → plain_profiles u → plain_profiles u'.
Proof.
  unfold handleContainerDelete. destruct (_ !! _) as [c|]; [|by intros [= <-]].
  intros H Hu. apply (plain_call _ _ _ H). by apply plain_removed.
Qed.

Lemma hook_request_panics ready l : foldl (hook_request cfg rt ready) Panic l = Panic.
Proof. by induction l. Qed.

(** Whatever requests a connection of the hooks carries, no endpoint gets a profile name
    with a path separator or a reference to a parent directory. *)
Theorem hooks_keep_profiles_plain requests ready u u' replies ready' :
  plain_profiles u → handleConn cfg rt requests ready u = Ok (u', replies, ready') →
  plain_profiles u'.
Proof.
  intros Hu. unfold handleConn.
  assert (Hf : ∀ l u l0 b st, plain_profiles u →
    foldl (hook_request cfg rt ready) (Ok (u, l0, b)) l = Ok st → plain_profiles st.1.1).
  { induction l as [|req l IH]; intros v l0 b st Hv; [by intros [= <-]|].
    cbn [foldl]. unfold hook_request at 2. cbn [mbind Res_bind].
    destruct (hr_Detached req || ready); [|by apply IH].
    destruct (hr_Create req).
    - destruct (handleContainerCreate _ _ _ v) as [v'|] eqn:Hv'; cbn [mbind Res_bind].
      + apply IH. by apply (plain_create _ _ _ Hv').
      + by rewrite hook_request_panics.
    - destruct (handleContainerDelete _ _ _ v) as [v'|] eqn:Hv'; cbn [mbind Res_bind].
      + apply IH. by apply (plain_delete _ _ _ Hv').
      + by rewrite hook_request_panics. }
  destruct (foldl _ _ _) as [[[v l] b]| ] eqn:Hst; [|done].
  intros [= <- _ _]. by apply (Hf _ _ _ _ _ Hu) in Hst.
Qed.

(** Requests of a connection before the hooks are ready *)
Lemma hook_requests_gate l : ∀ u l0 l1 d,
  foldl (hook_request cfg rt false) (Ok (u, l0, d)) l
  = (r ← foldl (hook_request cfg rt false) (Ok (u, l1, d)) (filter (λ req, hr_Detached req = true) l);
     Ok (r.1.1, l0 ++ ((λ req, if hr_Detached req then "ok" else "err")%string <$> l),
         d || existsb hr_Detached l)).
Proof.
  induction l as [|req l IH]; intros u l0 l1 d.
  { cbn. by rewrite app_nil_r, orb_false_r. }
  rewrite filter_cons. cbn [foldl fmap list_fmap existsb]. unfold hook_request at 2.
  cbn [mbind Res_bind]. rewrite orb_false_r.
  destruct (hr_Detached req) eqn:Hd; cbn [decide].
  - rewrite decide_True by done. cbn [foldl]. unfold hook_request at 3. cbn [mbind Res_bind].
    rewrite Hd. cbn [orb].
    set (r := if hr_Create req then _ else _). destruct r as [v|]; cbn [mbind Res_bind].
    + rewrite (IH v _ (l1 ++ ["ok"%string]) (d || true)), !orb_true_r.
      destruct (foldl _ _ _); cbn [mbind Res_bind]; [|done]. by rewrite <- app_assoc.
    + by rewrite !hook_request_panics.
  - rewrite decide_False by done. rewrite (IH u _ l1 d).
    destruct (foldl _ _ _); cbn [mbind Res_bind]; [|done]. by rewrite <- app_assoc.
Qed.

(** Until the hooks are ready, a connection does what it would do without the requests
    of containers that are not detached; those get [err], and a detached one makes the
    hooks ready. *)
Theorem hooks_wait_for_detached requests u :
  handleConn cfg rt requests false u
  = (r ← handleConn cfg rt (filter (λ req, hr_Detached req = true) requests) false u;
     Ok (r.1.1, (λ req, if hr_Detached req then "ok" else "err")%string <$> requests,
         existsb hr_Detached requests)).
Proof.
  unfold handleConn. rewrite (hook_requests_gate requests u [] [] false).
  destruct (foldl _ _ _) as [[[v l] d]|]; done.
Qed.

End hooks.

(** ** Witnesses *)

Section witnesses.
#[local] Existing Instance canonical_range.

(** Membership of concrete elements in concrete sets *)
Ltac by_decision := refine (bool_decide_unpack _ _); vm_compute; exact I.

Definition sample_infos (id : string) : option Container :=
  if String.eqb id "c2" then Some (web_container "c2") else None.

Lemma crio_poll_registers_witness :
  ∃ known' u', crio_poll (sample_settings true) sample_runtime (λ _, None) (λ _, []) elements
                 sample_infos {["c2"%string; "c3"%string]} ({["c1"%string]}, one_point [reported "c1"] ["c1"%string])
               = Ok (known', u')
  ∧ RRegister "c2" 7 8 ∈ heard u' ∧ RUnregister "c1" ∈ heard u' ∧ "c3"%string ∉ known'.
Proof.
  destruct (crio_poll_registers (sample_settings true) sample_runtime (λ _, None) (λ _, [])
    sample_infos elements {["c2"%string; "c3"%string]} {["c1"%string]}
    (one_point [reported "c1"] ["c1"%string])) as (known' & u' & l & Hu & Hh & _ & Hr & Hg & Hd).
  - reflexivity.
  - reflexivity.
  - reflexivity.
  - reflexivity.
  - intros s. reflexivity.
  - intros id c. unfold sample_infos. destruct (String.eqb_spec id "c2") as [->|]; [|done].
    intros [= <-]. reflexivity.
  - exists known', u'. split; [exact Hu|]. rewrite Hh, !elem_of_app.
    destruct (Hg "c2"%string (web_container "c2")) as [_ H2]; [by_decision|by_decision| | | |].
    + reflexivity.
    + discriminate.
    + vm_compute. discriminate.
    + destruct (Hd "c1"%string (reported "c1")) as [H1 _]; [by_decision|by_decision| |].
      * vm_compute. reflexivity.
      * split; [by right|]. split; [by right|].
        assert (H3 := Hr "c3"%string ltac:(by_decision) ltac:(by_decision) eq_refl).
        by apply elem_of_difference in H3 as [_ H3].
Defined.

Definition sample_handler (ns : gmap NsKey string) : NRIHandler :=
  {| nri_containers := ∅; nri_containersByNamespaces := ns |}.

Lemma nri_stop_needs_record_witness :
  ∃ nh1 u1, StartContainer (sample_settings true) sample_runtime (λ _, None) (λ _, [])
              (web_container "c2")
              (sample_handler {[{| ns_PidNS := 7; ns_MntNS := 8 |} := "c1"%string]},
               one_point [] []) = Ok (nh1, u1)
  ∧ is_some (dm_Containers (un_dm u1) !! "c2"%string) = true.
Proof.
  destruct (nri_stop_needs_record (sample_settings true) sample_runtime (λ _, None) (λ _, [])
    eq_refl eq_refl eq_refl eq_refl (web_container "c2")
    (sample_handler {[{| ns_PidNS := 7; ns_MntNS := 8 |} := "c1"%string]}) (one_point [] []))
    as [_ H].
  - reflexivity.
  - discriminate.
  - discriminate.
  - destruct (H "c1"%string) as (nh1 & u1 & Hs & _ & Hc & _); [vm_compute; reflexivity|].
    exists nh1, u1. split; [exact Hs|exact Hc].
Defined.

Lemma hooks_keep_profiles_plain_witness :
  let create := {| hr_Detached := true; hr_Create := true; hr_Container := web_container "c1" |} in
  let r := handleConn (sample_settings true) sample_runtime [create] false
             (one_point [reported "c1"] ["c1"%string]) in
  match r with Ok (u', _, _) => plain_profiles u' | Panic => False end.
Proof.
  cbv zeta. destruct (handleConn _ _ _ _ _) as [[[u' replies] ready']|] eqn:E.
  - apply (hooks_keep_profiles_plain (sample_settings true) sample_runtime
      [{| hr_Detached := true; hr_Create := true; hr_Container := web_container "c1" |}] false
      (one_point [reported "c1"] ["c1"%string]) u' replies ready'); [|exact E].
    apply list.Forall_singleton. vm_compute. repeat constructor.
  - vm_compute in E. discriminate E.
Defined.

End witnesses.
