(* ===== verification/SELinux.v ===== *)
(** The SELinux enforcer ([KubeArmor/enforcer/SELinuxHostProfile.go] and
    [SELinuxEnforcer.go]): rules of host policies, the text of the host profile, and the
    labels of files that follow it.

    The operating system is behind the class [SELinuxHost]: files, the walk over
    directories, and the commands [chcon], [restorecon], [semanage] and [install.sh].  An
    operation that can fail gives [false]. *)
From Stdlib Require Import Ascii String.
From S2P Require Import Prelude GoStrings GoPath Types Common.

Open Scope string_scope.

(** ** Rules of host policies *)

Record SELinuxRule := {
  sr_SubjectLabel : string; sr_SubjectPath : string;
  sr_ObjectLabel : string; sr_ObjectPath : string;
  sr_Permissive : bool; sr_Directory : bool; sr_Recursive : bool; sr_Pattern : bool }.

#[export] Instance SELinuxRule_dec : EqDecision SELinuxRule.
Proof. solve_decision. Defined.

Definition selinux_rule (subjectLabel subjectPath objectLabel objectPath : string)
    (directory recursive : bool) : SELinuxRule :=
  {| sr_SubjectLabel := subjectLabel; sr_SubjectPath := subjectPath;
     sr_ObjectLabel := objectLabel; sr_ObjectPath := objectPath; sr_Permissive := false;
     sr_Directory := directory; sr_Recursive := recursive; sr_Pattern := false |}.

(** Rules of a source; rules that are there already are not added. *)
Abbreviation source_rules := (gmap string (list SELinuxRule)).

Definition add_new (rule : SELinuxRule) (l : list SELinuxRule) : list SELinuxRule :=
  if bool_decide (rule ∈ l) then l else (l ++ [rule])%list.

Definition add_source (source : string) (rule : SELinuxRule) (m : source_rules) : source_rules :=
  <[source := add_new rule (default [] (m !! source))]> m.

(** A rule for every source with a path *)
Definition from_sources (rule : string → SELinuxRule) (srcs : list MatchSourceType)
    (m : source_rules) : source_rules :=
  foldl (λ m src, if String.eqb (ms_Path src) "" then m
                  else add_source (ms_Path src) (rule (ms_Path src)) m) m srcs.

(** *** Allowed *)

Definition AllowedHostProcessMatchPaths (path : ProcessPathType) (m : source_rules)
    : source_rules :=
  from_sources (λ source, selinux_rule "exec_t" source "allow_t" (ppt_Path path) false false)
    (ppt_FromSource path) m.

Definition AllowedHostProcessMatchDirectories (dir : ProcessDirectoryType) (m : source_rules)
    : source_rules :=
  from_sources (λ source, selinux_rule "exec_t" source "allow_t" (pdt_Directory dir) true
                            (pdt_Recursive dir)) (pdt_FromSource dir) m.

Definition AllowedHostFileMatchPaths (path : FilePathType) (m : source_rules) : source_rules :=
  from_sources (λ source, selinux_rule "exec_t" source
                            (if fpt_ReadOnly path then "read_t" else "file_t") (fpt_Path path)
                            false false) (fpt_FromSource path) m.

Definition AllowedHostFileMatchDirectories (dir : FileDirectoryType) (m : source_rules)
    : source_rules :=
  from_sources (λ source, selinux_rule "exec_t" source
                            (if fdt_ReadOnly dir then "read_t" else "file_t")
                            (fdt_Directory dir) true (fdt_Recursive dir)) (fdt_FromSource dir) m.

(** The four letters of the protocols that a source may use, and the loop over the names *)
Record NetFlags := { nf_tcp : string; nf_udp : string; nf_icmp : string; nf_raw : string }.

Definition set_protocol (on : NetFlags) (f : NetFlags) (proto : string) : NetFlags :=
  if String.eqb proto "tcp" then
    {| nf_tcp := nf_tcp on; nf_udp := nf_udp f; nf_icmp := nf_icmp f; nf_raw := nf_raw f |}
  else if String.eqb proto "udp" then
    {| nf_tcp := nf_tcp f; nf_udp := nf_udp on; nf_icmp := nf_icmp f; nf_raw := nf_raw f |}
  else if String.eqb proto "icmp" then
    {| nf_tcp := nf_tcp f; nf_udp := nf_udp f; nf_icmp := nf_icmp on; nf_raw := nf_raw f |}
  else if String.eqb proto "raw" then
    {| nf_tcp := nf_tcp f; nf_udp := nf_udp f; nf_icmp := nf_icmp f; nf_raw := nf_raw on |}
  else f.

Definition net_flags (off on : NetFlags) (protocol : string) : string :=
  let f := foldl (set_protocol on) off (split comma protocol) in
  nf_tcp f +:+ nf_udp f +:+ nf_icmp f +:+ nf_raw f.

Definition all_n : NetFlags := {| nf_tcp := "n"; nf_udp := "n"; nf_icmp := "n"; nf_raw := "n" |}.
Definition allowed_flags : string → string :=
  net_flags all_n {| nf_tcp := "t"; nf_udp := "u"; nf_icmp := "i"; nf_raw := "r" |}.
(** Blocked rules start from other letters for [icmp] and [raw]. *)
Definition blocked_flags : string → string :=
  net_flags {| nf_tcp := "t"; nf_udp := "u"; nf_icmp := "r"; nf_raw := "i" |} all_n.

Definition network_sources (flags : string) (srcs : list MatchSourceType)
    (m : gmap string string) : gmap string string :=
  foldl (λ m src, if String.eqb (ms_Path src) "" then m else <[ms_Path src := flags]> m) m srcs.

Definition AllowedHostNetworkMatchProtocols (proto : NetworkProtocolType) (m : gmap string string)
    : gmap string string :=
  network_sources (allowed_flags (npt_Protocol proto)) (npt_FromSource proto) m.

(** *** Blocked: without sources the rule is a global one. *)

Definition global_label : string := "-".

(** The black list and the rules of sources *)
Definition blocked (objectLabel objectPath : string) (directory recursive : bool)
    (srcs : list MatchSourceType) (st : list SELinuxRule * source_rules)
    : list SELinuxRule * source_rules :=
  match srcs with
  | [] => (add_new (selinux_rule global_label global_label objectLabel objectPath directory
                      recursive) st.1, st.2)
  | _ => (st.1, from_sources (λ source, selinux_rule "exec_t" source objectLabel objectPath
                                          directory recursive) srcs st.2)
  end.

Definition BlockedHostProcessMatchPaths (path : ProcessPathType) :=
  blocked "block_t" (ppt_Path path) false false (ppt_FromSource path).
Definition BlockedHostProcessMatchDirectories (dir : ProcessDirectoryType) :=
  blocked "block_t" (pdt_Directory dir) true (pdt_Recursive dir) (pdt_FromSource dir).
Definition BlockedHostFileMatchPaths (path : FilePathType) :=
  blocked (if fpt_ReadOnly path then "read_t" else "none_t") (fpt_Path path) false false
    (fpt_FromSource path).
Definition BlockedHostFileMatchDirectories (dir : FileDirectoryType) :=
  blocked (if fdt_ReadOnly dir then "read_t" else "none_t") (fdt_Directory dir) true
    (fdt_Recursive dir) (fdt_FromSource dir).

Definition BlockedHostNetworkMatchProtocols (proto : NetworkProtocolType) (m : gmap string string)
    : gmap string string :=
  network_sources (blocked_flags (npt_Protocol proto)) (npt_FromSource proto) m.

(** ** The host profile *)

Record HostLists := {
  hl_process : list SELinuxRule; hl_file : list SELinuxRule;
  hl_white : source_rules; hl_black : source_rules; hl_network : gmap string string }.

Definition no_lists : HostLists :=
  {| hl_process := []; hl_file := []; hl_white := ∅; hl_black := ∅; hl_network := ∅ |}.

Definition on_white (f : source_rules → source_rules) (h : HostLists) : HostLists :=
  {| hl_process := hl_process h; hl_file := hl_file h; hl_white := f (hl_white h);
     hl_black := hl_black h; hl_network := hl_network h |}.
Definition on_process (f : list SELinuxRule * source_rules → list SELinuxRule * source_rules)
    (h : HostLists) : HostLists :=
  let st := f (hl_process h, hl_black h) in
  {| hl_process := st.1; hl_file := hl_file h; hl_white := hl_white h; hl_black := st.2;
     hl_network := hl_network h |}.
Definition on_file (f : list SELinuxRule * source_rules → list SELinuxRule * source_rules)
    (h : HostLists) : HostLists :=
  let st := f (hl_file h, hl_black h) in
  {| hl_process := hl_process h; hl_file := st.1; hl_white := hl_white h; hl_black := st.2;
     hl_network := hl_network h |}.
Definition on_network (f : gmap string string → gmap string string) (h : HostLists) : HostLists :=
  {| hl_process := hl_process h; hl_file := hl_file h; hl_white := hl_white h;
     hl_black := hl_black h; hl_network := f (hl_network h) |}.

Definition by_action (action : string) (allow block : HostLists → HostLists) (h : HostLists)
    : HostLists :=
  if String.eqb action "Allow" then allow h
  else if String.eqb action "Block" then block h else h.

Definition host_policy_lists (h : HostLists) (secPolicy : HostSecurityPolicy) : HostLists :=
  let s := hp_Spec secPolicy in
  let h := foldl (λ h path, by_action (ppt_Action path)
                   (on_white (AllowedHostProcessMatchPaths path))
                   (on_process (BlockedHostProcessMatchPaths path)) h)
             h (pt_MatchPaths (hs_Process s)) in
  let h := foldl (λ h dir, by_action (pdt_Action dir)
                   (on_white (AllowedHostProcessMatchDirectories dir))
                   (on_process (BlockedHostProcessMatchDirectories dir)) h)
             h (pt_MatchDirectories (hs_Process s)) in
  let h := foldl (λ h path, by_action (fpt_Action path)
                   (on_white (AllowedHostFileMatchPaths path))
                   (on_file (BlockedHostFileMatchPaths path)) h)
             h (ft_MatchPaths (hs_File s)) in
  let h := foldl (λ h dir, by_action (fdt_Action dir)
                   (on_white (AllowedHostFileMatchDirectories dir))
                   (on_file (BlockedHostFileMatchDirectories dir)) h)
             h (ft_MatchDirectories (hs_File s)) in
  foldl (λ h proto, by_action (npt_Action proto)
          (on_network (AllowedHostNetworkMatchProtocols proto))
          (on_network (BlockedHostNetworkMatchProtocols proto)) h)
    h (nt_MatchProtocols (hs_Network s)).

Definition host_lists (securityPolicies : list HostSecurityPolicy) : HostLists :=
  foldl host_policy_lists no_lists securityPolicies.

(** [se.ContainsElement] compares the paths only. *)
Definition same_paths (rule newRule : SELinuxRule) : bool :=
  String.eqb (sr_SubjectPath rule) (sr_SubjectPath newRule)
  && String.eqb (sr_ObjectPath rule) (sr_ObjectPath newRule).

(** Count, global rules, local rules *)
Definition keep_rule (st : nat * list SELinuxRule * list SELinuxRule) (rule : SELinuxRule)
    : nat * list SELinuxRule * list SELinuxRule :=
  let '(count, globalRules, localRules) := st in
  if String.eqb (sr_SubjectLabel rule) global_label then
    if existsb (λ r, same_paths r rule) globalRules then st
    else (S count, globalRules ++ [rule], localRules)%list
  else if existsb (λ r, same_paths r rule) localRules then st
  else (S count, globalRules, localRules ++ [rule])%list.

Definition tab : string := String (ascii_of_nat 9) "".
Definition bool_text (b : bool) : string := if b then "true" else "false".

(** The end of a line, the same in both formats *)
Definition flags_text (rule : SELinuxRule) : string :=
  bool_text (sr_Permissive rule) +:+ tab +:+ bool_text (sr_Directory rule) +:+ tab
  +:+ bool_text (sr_Recursive rule) +:+ String newline "".

Definition local_label (fileAction netFlags label : string) : string :=
  "karmor_" +:+ fileAction +:+ "_" +:+ netFlags +:+ "_" +:+ label.

Definition local_line (fileAction : string) (networkFromSources : gmap string string)
    (rule : SELinuxRule) : string :=
  let netFlags := default "tuir" (networkFromSources !! sr_SubjectPath rule) in
  local_label fileAction netFlags (sr_SubjectLabel rule) +:+ tab +:+ sr_SubjectPath rule +:+ tab
  +:+ local_label fileAction netFlags (sr_ObjectLabel rule) +:+ tab +:+ sr_ObjectPath rule +:+ tab
  +:+ flags_text rule.

Definition global_line (rule : SELinuxRule) : string :=
  sr_SubjectLabel rule +:+ tab +:+ sr_SubjectPath rule +:+ tab
  +:+ ("karmor_global_" +:+ sr_ObjectLabel rule) +:+ tab +:+ sr_ObjectPath rule +:+ tab
  +:+ flags_text rule.

Section generate.
Context `{R : GoRange}.

(** The rules in the order of the loops *)
Definition all_rules (h : HostLists) : list SELinuxRule :=
  hl_process h ++ hl_file h ++ (go_range (hl_black h) ≫= snd) ++ (go_range (hl_white h) ≫= snd).

Definition kept_rules (h : HostLists) : nat * list SELinuxRule * list SELinuxRule :=
  foldl keep_rule (0, [], []) (all_rules h).

Definition host_profile (securityPolicies : list HostSecurityPolicy)
    (defaultPosture : DefaultPosture) : nat * string :=
  let h := host_lists securityPolicies in
  let '(count, globalRules, localRules) := kept_rules h in
  (count, String.concat ""
            ((local_line (dp_FileAction defaultPosture) (hl_network h) <$> localRules)
             ++ (global_line <$> globalRules))%list).
End generate.

(** ** The operating system *)

Class SELinuxHost (W : Type) := {
  se_Stat : string → W → bool;
  se_ReadFile : string → W → option string;
  se_Create : string → W → W * bool;
  se_Write : string → string → W → W * bool;      (* WriteString, Sync and Close *)
  se_CopyFile : string → string → W → W * bool;
  (* the files that [filepath.Walk] comes to before an error, and whether there is none *)
  se_Walk : string → W → list string * bool;
  (* names, and whether they are directories *)
  se_ReadDir : string → W → option (list (string * bool));
  se_chcon : string → string → W → W * bool;      (* label, file *)
  se_restorecon : string → W → W * bool;
  se_modules : W → option string;                 (* [semanage module -l] *)
  se_install : W → W * bool;
  se_RemoveAll : string → W → W * bool;
  se_MkdirAll : string → W → W * bool }.

Section enforcer.
Context `{R : GoRange} {W : Type} `{SH : !SELinuxHost W}.
(** [cfg.GlobalCfg] *)
Context (SELinuxProfileDir : string) (HostPolicy : bool) (hostPosture : DefaultPosture).

Definition HostProfile : string := "kubearmor.host".
Definition profile_path : string := SELinuxProfileDir +:+ HostProfile.

Inductive SEResult := SENone | SENew (count : nat) (text : string).

Definition GenerateSELinuxHostProfile (securityPolicies : list HostSecurityPolicy)
    (defaultPosture : DefaultPosture) (w : W) : SEResult :=
  let '(count, newProfile) := host_profile securityPolicies defaultPosture in
  if negb (se_Stat (Clean profile_path) w) then SENone
  else match se_ReadFile (Clean profile_path) w with
       | None => SENone
       | Some oldProfile =>
           if String.eqb oldProfile newProfile then SENone else SENew count newProfile
       end.

(** *** Labels *)

(** A command on a file; a failure is remembered. *)
Definition run (cmd : string → W → W * bool) (st : W * bool) (file : string) : W * bool :=
  let '(w, ok) := cmd file st.1 in (w, st.2 && ok).

(** One rule of a profile: the subject, unless the rule is a global one, and the objects *)
Definition label_rule (global : bool) (on_subject on_object : string → W → W * bool)
    (subjectPath objectPath directory recursive : string) (st : W * bool) : W * bool :=
  let st := if global then st else run on_subject st subjectPath in
  if String.eqb directory "true" then
    if String.eqb recursive "true" then
      let '(files, ok) := se_Walk objectPath st.1 in
      let st := foldl (run on_object) st files in (st.1, st.2 && ok)
    else
      match se_ReadDir objectPath st.1 with
      | None => st
      | Some entries =>
          foldl (run on_object) st
            ((λ e, objectPath +:+ e.1) <$> filter (λ e : string * bool, e.2 = false) entries)
      end
  else run on_object st objectPath.

Definition restore_line (st : W * bool) (line : string) : W * bool :=
  match Fields line with
  | [_; subjectPath; _; objectPath; permissive; directory; recursive] =>
      if String.eqb permissive "true" then st
      else label_rule (String.eqb subjectPath global_label) se_restorecon se_restorecon
             subjectPath objectPath directory recursive st
  | _ => st
  end.

Definition RestoreSELinuxLabels (profilePath : string) (w : W) : W * bool :=
  let old := Clean (profilePath +:+ ".old") in
  if negb (se_Stat old w) then (w, true)
  else match se_ReadFile old w with
       | None => (w, false)
       | Some profile => foldl restore_line (w, true) (split newline profile)
       end.

Definition update_line (st : W * bool) (line : string) : W * bool :=
  match Fields line with
  | [subjectLabel; subjectPath; objectLabel; objectPath; permissive; directory; recursive] =>
      if String.eqb permissive "true" then st
      else label_rule (String.eqb subjectLabel global_label) (se_chcon subjectLabel)
             (se_chcon objectLabel) subjectPath objectPath directory recursive st
  | _ => st
  end.

Definition UpdateSELinuxLabels (profilePath : string) (w : W) : W * bool :=
  if negb (se_Stat (Clean profilePath) w) then (w, false)
  else
    let w := (RestoreSELinuxLabels profilePath w).1 in
    let w := (se_CopyFile (Clean profilePath) (Clean (profilePath +:+ ".old")) w).1 in
    match se_ReadFile (Clean profilePath) w with
    | None => (w, false)
    | Some profile => foldl update_line (w, true) (split newline profile)
    end.

(** *** The host profile's file *)

(** [os.Create], the writing of the text, and the labels *)
Definition install_profile (text : string) (w : W) : W * bool :=
  let '(w, ok) := se_Create (Clean profile_path) w in
  if negb ok then (w, false)
  else
    let '(w, ok) := se_Write (Clean profile_path) text w in
    if negb ok then (w, false) else UpdateSELinuxLabels profile_path w.

Definition RegisterSELinuxHostProfile : W → W * bool := install_profile "".
Definition UnregisterSELinuxHostProfile : W → W * bool := install_profile "".

Definition UpdateSELinuxHostProfile (secPolicies : list HostSecurityPolicy) (w : W) : W :=
  match GenerateSELinuxHostProfile secPolicies hostPosture w with
  | SENone => w
  | SENew _ newProfile => (install_profile newProfile w).1
  end.

Definition selinux_UpdateHostSecurityPolicies (secPolicies : list HostSecurityPolicy) (w : W) : W :=
  UpdateSELinuxHostProfile (if HostPolicy then secPolicies else []) w.

(** *** Start and end *)

Definition karmor_modules (res : string) : list string :=
  omap (λ line, match Fields line with
                | [name; _; _] => if HasPrefix name "karmor" then Some name else None
                | _ => None
                end) (split newline res).

Definition InstallSELinuxModulesIfNeeded (w : W) : W * bool :=
  match se_modules w with
  | None => (w, false)
  | Some res => if ContainsElement (karmor_modules res) "karmor" then (w, true) else se_install w
  end.

Definition DestroySELinuxEnforcer (w : W) : W :=
  if HostPolicy then (UnregisterSELinuxHostProfile w).1 else w.

End enforcer.

(** ** Start *)

Section start.
Context {W : Type} `{SH : !SELinuxHost W} (HostPolicy : bool).

(** The directory of profiles; the setting is changed for what follows. *)
Definition slashed (SELinuxProfileDir : string) : string :=
  if HasSuffix SELinuxProfileDir "/" then SELinuxProfileDir else SELinuxProfileDir +:+ "/".

(** What follows the removal of old profiles *)
Definition prepare_profiles (SELinuxProfileDir : string) (w : W) : W * bool :=
  let '(w, ok) := se_MkdirAll (Clean SELinuxProfileDir) w in
  if negb ok then (w, false)
  else
    let '(w, ok) := if HostPolicy then RegisterSELinuxHostProfile SELinuxProfileDir w
                    else (w, true) in
    if negb ok then (w, false) else InstallSELinuxModulesIfNeeded w.

(** [tools]: [semanage], [chcon], [restorecon] and the template are there *)
Definition NewSELinuxEnforcer (SELinuxProfileDir : string) (tools : bool) (w : W) : W * bool :=
  if negb tools then (w, false)
  else
    let dir := slashed SELinuxProfileDir in
    let '(w, ok) := se_RemoveAll (Clean dir) w in
    if negb ok then (w, false) else prepare_profiles dir w.
End start.
