(* ===== verification/SELinuxProps.v ===== *)
(** The host profile of SELinux: which rules it keeps, which labels files get, and the
    flags of network rules. *)
From Stdlib Require Import Ascii String.
From S2P Require Import Prelude GoStrings GoPath Types Common SELinux.

Open Scope string_scope.
Open Scope nat_scope.
Open Scope list_scope.

(** ** Rules of sources *)

Lemma elem_of_add_new (r q : SELinuxRule) l : q ∈ add_new r l ↔ q ∈ l ∨ q = r.
Proof.
  unfold add_new. case_bool_decide as H; [naive_solver|].
  rewrite elem_of_app, list_elem_of_singleton. done.
Qed.

Definition source_rules_of (m : source_rules) (s : string) : list SELinuxRule := default [] (m !! s).

Lemma add_source_of s r m t q :
  q ∈ source_rules_of (add_source s r m) t ↔ q ∈ source_rules_of m t ∨ t = s ∧ q = r.
Proof.
  unfold source_rules_of, add_source. destruct (decide (t = s)) as [->|Ht].
  - rewrite lookup_insert_eq. cbn. rewrite elem_of_add_new. naive_solver.
  - rewrite lookup_insert_ne by done. naive_solver.
Qed.

(** The paths of sources that rules are made for *)
Definition source_paths (srcs : list MatchSourceType) : list string :=
  filter (λ s, s ≠ ""%string) (ms_Path <$> srcs).

Lemma from_sources_of rule srcs m t q :
  q ∈ source_rules_of (from_sources rule srcs m) t
  ↔ q ∈ source_rules_of m t ∨ t ∈ source_paths srcs ∧ q = rule t.
Proof.
  revert m. induction srcs as [|src srcs IH]; intros m.
  { cbn. rewrite elem_of_nil. naive_solver. }
  change (from_sources rule (src :: srcs) m) with (from_sources rule srcs
    (if String.eqb (ms_Path src) "" then m
     else add_source (ms_Path src) (rule (ms_Path src)) m)).
  unfold source_paths. cbn [fmap list_fmap]. rewrite filter_cons. fold (source_paths srcs).
  destruct (String.eqb_spec (ms_Path src) "") as [He|He].
  - rewrite decide_False by naive_solver. apply IH.
  - rewrite decide_True by done. rewrite IH, add_source_of, elem_of_cons. naive_solver.
Qed.

(** ** The items of host policies

    The four kinds of rules on paths, as the profile sees them *)
Record Item := {
  it_action : string; it_sources : list MatchSourceType;
  it_allow : string; it_block : string; it_path : string;
  it_directory : bool; it_recursive : bool; it_process : bool }.

Definition policy_items (pol : HostSecurityPolicy) : list Item :=
  let s := hp_Spec pol in
  ((λ p, {| it_action := ppt_Action p; it_sources := ppt_FromSource p; it_allow := "allow_t";
            it_block := "block_t"; it_path := ppt_Path p; it_directory := false;
            it_recursive := false; it_process := true |}) <$> pt_MatchPaths (hs_Process s))
  ++ ((λ d, {| it_action := pdt_Action d; it_sources := pdt_FromSource d; it_allow := "allow_t";
               it_block := "block_t"; it_path := pdt_Directory d; it_directory := true;
               it_recursive := pdt_Recursive d; it_process := true |})
        <$> pt_MatchDirectories (hs_Process s))
  ++ ((λ p, {| it_action := fpt_Action p; it_sources := fpt_FromSource p;
               it_allow := if fpt_ReadOnly p then "read_t" else "file_t";
               it_block := if fpt_ReadOnly p then "read_t" else "none_t";
               it_path := fpt_Path p; it_directory := false; it_recursive := false;
               it_process := false |}) <$> ft_MatchPaths (hs_File s))
  ++ ((λ d, {| it_action := fdt_Action d; it_sources := fdt_FromSource d;
               it_allow := if fdt_ReadOnly d then "read_t" else "file_t";
               it_block := if fdt_ReadOnly d then "read_t" else "none_t";
               it_path := fdt_Directory d; it_directory := true;
               it_recursive := fdt_Recursive d; it_process := false |})
        <$> ft_MatchDirectories (hs_File s)).

(** The rule of an item for a source, or for all processes *)
Definition item_rule (i : Item) (label subject subjectLabel : string) : SELinuxRule :=
  selinux_rule subjectLabel subject label (it_path i) (it_directory i) (it_recursive i).
Definition allow_rule (i : Item) (s : string) : SELinuxRule := item_rule i (it_allow i) s "exec_t".
Definition block_rule (i : Item) (s : string) : SELinuxRule := item_rule i (it_block i) s "exec_t".
Definition global_rule (i : Item) : SELinuxRule :=
  item_rule i (it_block i) global_label global_label.

Definition item_step (h : HostLists) (i : Item) : HostLists :=
  by_action (it_action i)
    (on_white (from_sources (allow_rule i) (it_sources i)))
    ((if it_process i then on_process else on_file)
       (blocked (it_block i) (it_path i) (it_directory i) (it_recursive i) (it_sources i))) h.

(** Flags are letters. *)
Fixpoint nospace (s : string) : bool :=
  match s with
  | EmptyString => true
  | String c s' => negb (is_space c) && nospace s'
  end.

Lemma nospace_app a b : nospace (a +:+ b) = nospace a && nospace b.
Proof. induction a as [|c a IH]; [done|]. cbn. by rewrite IH, andb_assoc. Qed.

Definition flags_ok (m : gmap string string) : Prop := map_Forall (λ _ v, nospace v = true) m.

Lemma set_protocols on off l :
  let f := foldl (set_protocol on) off l in
  nf_tcp f = (if bool_decide ("tcp"%string ∈ l) then nf_tcp on else nf_tcp off)
  ∧ nf_udp f = (if bool_decide ("udp"%string ∈ l) then nf_udp on else nf_udp off)
  ∧ nf_icmp f = (if bool_decide ("icmp"%string ∈ l) then nf_icmp on else nf_icmp off)
  ∧ nf_raw f = (if bool_decide ("raw"%string ∈ l) then nf_raw on else nf_raw off).
Proof.
  cbv zeta. induction l as [|p l IH] using rev_ind; [by cbn|].
  rewrite foldl_snoc. destruct (foldl _ _ _) as [t u i r]. destruct IH as (Ht & Hu & Hi & Hr).
  cbn in Ht, Hu, Hi, Hr. subst t u i r.
  assert (Hin : ∀ x, bool_decide (x ∈ l ++ [p]) = bool_decide (x ∈ l) || String.eqb p x).
  { intros x. apply eq_true_iff_eq. rewrite orb_true_iff, !bool_decide_eq_true, String.eqb_eq.
    rewrite elem_of_app, list_elem_of_singleton. naive_solver. }
  rewrite !Hin. unfold set_protocol.
  repeat match goal with
    |- context [String.eqb p ?x] => destruct (String.eqb_spec p x) as [->|]
  end; cbn; rewrite ?orb_true_r, ?orb_false_r; done.
Qed.

Lemma net_flags_eq off on p :
  let has x := bool_decide (x ∈ split comma p) in
  net_flags off on p
  = ((if has "tcp"%string then nf_tcp on else nf_tcp off)
     +:+ (if has "udp"%string then nf_udp on else nf_udp off)
     +:+ (if has "icmp"%string then nf_icmp on else nf_icmp off)
     +:+ (if has "raw"%string then nf_raw on else nf_raw off))%string.
Proof.
  cbv zeta. unfold net_flags. destruct (set_protocols on off (split comma p)) as (-> & -> & -> & ->).
  done.
Qed.


Lemma flags_nospace p : nospace (allowed_flags p) = true ∧ nospace (blocked_flags p) = true.
Proof.
  unfold allowed_flags, blocked_flags. rewrite !net_flags_eq, !nospace_app.
  by repeat case_bool_decide.
Qed.

Lemma network_sources_ok flags srcs m :
  nospace flags = true → flags_ok m → flags_ok (network_sources flags srcs m).
Proof.
  intros Hf. unfold network_sources. revert m. induction srcs as [|src srcs IH]; intros m Hm; [done|].
  cbn [foldl]. apply IH. destruct (String.eqb _ _); [done|]. by apply map_Forall_insert_2.
Qed.

Definition net_step (h : HostLists) (p : NetworkProtocolType) : HostLists :=
  by_action (npt_Action p) (on_network (AllowedHostNetworkMatchProtocols p))
    (on_network (BlockedHostNetworkMatchProtocols p)) h.

Lemma host_policy_split h pol :
  host_policy_lists h pol
  = foldl net_step (foldl item_step h (policy_items pol)) (nt_MatchProtocols (hs_Network (hp_Spec pol))).
Proof. unfold host_policy_lists, policy_items. cbv zeta. by rewrite !foldl_app, !foldl_fmap. Qed.

Lemma net_steps l h :
  foldl net_step h l = on_network (λ _, hl_network (foldl net_step h l)) h
  ∧ (flags_ok (hl_network h) → flags_ok (hl_network (foldl net_step h l))).
Proof.
  revert h. induction l as [|p l IH]; intros h; [by destruct h|].
  cbn [foldl]. destruct (IH (net_step h p)) as [He Hf]. split.
  - rewrite He at 1. generalize (hl_network (foldl net_step (net_step h p) l)) as net.
    intros net. unfold net_step, by_action.
    by destruct (String.eqb (npt_Action p) "Allow"), (String.eqb (npt_Action p) "Block").
  - intros Hh. apply Hf. unfold net_step, by_action. destruct (flags_nospace (npt_Protocol p)).
    destruct (String.eqb (npt_Action p) "Allow"), (String.eqb (npt_Action p) "Block");
      try done; by apply network_sources_ok.
Qed.

Lemma item_steps_flags l h : hl_network (foldl item_step h l) = hl_network h.
Proof.
  revert h. induction l as [|i l IH]; intros h; [done|]. cbn [foldl]. rewrite IH.
  unfold item_step, by_action.
  by destruct (String.eqb (it_action i) "Allow"), (String.eqb (it_action i) "Block"), (it_process i).
Qed.

Lemma host_lists_flags pols : flags_ok (hl_network (host_lists pols)).
Proof.
  unfold host_lists. induction pols as [|pol pols IH] using rev_ind; [apply map_Forall_empty|].
  rewrite foldl_snoc, host_policy_split. apply net_steps. by rewrite item_steps_flags.
Qed.

Lemma item_step_network net h i :
  item_step (on_network (λ _, net) h) i = on_network (λ _, net) (item_step h i).
Proof.
  unfold item_step, by_action.
  by destruct (String.eqb (it_action i) "Allow"), (String.eqb (it_action i) "Block"), (it_process i).
Qed.

Lemma item_steps_network net l h :
  foldl item_step (on_network (λ _, net) h) l = on_network (λ _, net) (foldl item_step h l).
Proof.
  revert h. induction l as [|i l IH]; intros h; [done|]. cbn [foldl].
  by rewrite item_step_network, IH.
Qed.

(** All rules on paths come from the items, in their order. *)
Lemma host_lists_items pols :
  ∃ net, host_lists pols = on_network (λ _, net) (foldl item_step no_lists (pols ≫= policy_items)).
Proof.
  unfold host_lists. generalize no_lists as h. induction pols as [|pol pols IH]; intros h.
  { exists (hl_network h). by destruct h. }
  cbn [foldl mbind list_bind]. rewrite host_policy_split.
  destruct (net_steps (nt_MatchProtocols (hs_Network (hp_Spec pol)))
    (foldl item_step h (policy_items pol))) as [-> _].
  set (net := hl_network _). clearbody net.
  destruct (IH (on_network (λ _, net) (foldl item_step h (policy_items pol)))) as [net' ->].
  exists net'. by rewrite item_steps_network, <- foldl_app.
Qed.

(** What the lists hold after some items *)
Definition from_items (items : list Item) (h : HostLists) : Prop :=
  (∀ q, q ∈ hl_process h ++ hl_file h ↔
     ∃ i, i ∈ items ∧ it_action i = "Block"%string ∧ it_sources i = [] ∧ q = global_rule i)
  ∧ (∀ s q, q ∈ source_rules_of (hl_black h) s ↔
       ∃ i, i ∈ items ∧ it_action i = "Block"%string ∧ s ∈ source_paths (it_sources i)
            ∧ q = block_rule i s)
  ∧ ∀ s q, q ∈ source_rules_of (hl_white h) s ↔
       ∃ i, i ∈ items ∧ it_action i = "Allow"%string ∧ s ∈ source_paths (it_sources i)
            ∧ q = allow_rule i s.

Lemma blocked_global i st q :
  q ∈ (blocked (it_block i) (it_path i) (it_directory i) (it_recursive i) (it_sources i) st).1
  ↔ q ∈ st.1 ∨ it_sources i = [] ∧ q = global_rule i.
Proof.
  unfold blocked. destruct (it_sources i); cbn; [rewrite elem_of_add_new|]; naive_solver.
Qed.

Lemma blocked_black i st s q :
  q ∈ source_rules_of
        (blocked (it_block i) (it_path i) (it_directory i) (it_recursive i) (it_sources i) st).2 s
  ↔ q ∈ source_rules_of st.2 s ∨ s ∈ source_paths (it_sources i) ∧ q = block_rule i s.
Proof.
  unfold blocked. destruct (it_sources i) as [|src srcs].
  - unfold source_paths. cbn. rewrite elem_of_nil. tauto.
  - cbn [snd]. apply from_sources_of.
Qed.

Lemma from_items_snoc items i h : from_items items h → from_items (items ++ [i]) (item_step h i).
Proof.
  intros (Hg & Hb & Hw).
  assert (Hsnoc : ∀ P : Item → Prop,
    (∃ j, j ∈ items ++ [i] ∧ P j) ↔ (∃ j, j ∈ items ∧ P j) ∨ P i).
  { intros P. setoid_rewrite elem_of_app. setoid_rewrite list_elem_of_singleton. naive_solver. }
  unfold item_step, by_action.
  destruct (String.eqb_spec (it_action i) "Allow") as [Ha|Ha];
    [|destruct (String.eqb_spec (it_action i) "Block") as [Hbl|Hbl]].
  - split; [|split]; intros; rewrite Hsnoc; cbn.
    + rewrite Hg. rewrite Ha. naive_solver.
    + rewrite Hb. rewrite Ha. naive_solver.
    + rewrite from_sources_of, Hw. naive_solver.
  - assert (Hg' : ∀ q, q ∈ hl_process h ∨ q ∈ hl_file h ∨ it_sources i = [] ∧ q = global_rule i ↔
       (∃ j, j ∈ items ∧ it_action j = "Block"%string ∧ it_sources j = [] ∧ q = global_rule j)
       ∨ it_action i = "Block"%string ∧ it_sources i = [] ∧ q = global_rule i).
    { intros q. rewrite <- Hg, elem_of_app. tauto. }
    split; [|split]; intros; rewrite Hsnoc.
    + rewrite <- Hg', elem_of_app.
      destruct (it_process i); cbn; rewrite blocked_global; tauto.
    + rewrite <- Hb. destruct (it_process i); cbn; rewrite blocked_black; tauto.
    + rewrite <- Hw. destruct (it_process i); cbn;
        (split; [by left|intros [H|(Hf & _)]; [done|by rewrite Hf in Ha]]).
  - split; [|split]; intros; rewrite Hsnoc.
    + rewrite Hg. naive_solver.
    + rewrite Hb. naive_solver.
    + rewrite Hw. naive_solver.
Qed.

Lemma from_items_all items : from_items items (foldl item_step no_lists items).
Proof.
  induction items as [|i items IH] using rev_ind.
  - unfold from_items, source_rules_of. cbn. setoid_rewrite lookup_empty. cbn.
    setoid_rewrite elem_of_nil. naive_solver.
  - rewrite foldl_snoc. by apply from_items_snoc.
Qed.

(** ** The rules that are kept *)

Definition is_global (r : SELinuxRule) : bool := String.eqb (sr_SubjectLabel r) global_label.

(** A rule is kept if it is the first one of its kind on its paths. *)
Definition first_in (rs : list SELinuxRule) (r : SELinuxRule) : Prop :=
  ∃ l1 l2, rs = l1 ++ r :: l2
  ∧ ∀ q, q ∈ l1 → is_global q = is_global r → same_paths q r = false.

Definition kept_of (rs : list SELinuxRule) (st : nat * list SELinuxRule * list SELinuxRule) : Prop :=
  st.1.1 = List.length st.1.2 + List.length st.2
  ∧ (∀ r, r ∈ st.1.2 ↔ is_global r = true ∧ first_in rs r)
  ∧ (∀ r, r ∈ st.2 ↔ is_global r = false ∧ first_in rs r).

Lemma same_paths_spec r q :
  same_paths r q = true ↔ sr_SubjectPath r = sr_SubjectPath q ∧ sr_ObjectPath r = sr_ObjectPath q.
Proof. unfold same_paths. by rewrite andb_true_iff, !String.eqb_eq. Qed.

(** The first one among the rules on the same paths *)
Lemma first_in_exists rs q :
  q ∈ rs → ∃ r, first_in rs r ∧ is_global r = is_global q ∧ same_paths r q = true.
Proof.
  induction rs as [|x rs IH]; intros Hq; [by apply elem_of_nil in Hq|].
  destruct (decide (is_global x = is_global q ∧ same_paths x q = true)) as [[Hg Hs]|Hx].
  - exists x. split; [|done]. exists [], rs. split; [done|]. intros y Hy. by apply elem_of_nil in Hy.
  - apply elem_of_cons in Hq as [->|Hq].
    { exfalso. apply Hx. split; [done|]. by apply same_paths_spec. }
    destruct (IH Hq) as (r & (l1 & l2 & -> & Hl) & Hg & Hs). exists r.
    split; [|done]. exists (x :: l1), l2. split; [done|].
    intros y Hy Hyg. apply elem_of_cons in Hy as [->|Hy]; [|by apply Hl].
    apply not_true_is_false. intros Hyr. apply Hx. split; [congruence|].
    rewrite same_paths_spec in *. intuition congruence.
Qed.

Lemma first_in_snoc rs r x :
  first_in (rs ++ [x]) r ↔
    first_in rs r ∨ r = x ∧ ∀ q, q ∈ rs → is_global q = is_global x → same_paths q x = false.
Proof.
  split.
  - intros (l1 & l2 & Heq & Hl). destruct l2 as [|y l2 _] using rev_ind.
    + apply app_inj_tail in Heq as [-> ->]. right. done.
    + left. exists l1, l2. split; [|done].
      rewrite app_comm_cons, app_assoc in Heq. by apply app_inj_tail in Heq as [-> _].
  - intros [(l1 & l2 & -> & Hl)|[-> Hl]].
    + exists l1, (l2 ++ [x]). split; [by rewrite <- app_assoc|done].
    + by exists rs, [].
Qed.

Lemma existsb_paths l x :
  existsb (λ r, same_paths r x) l = false ↔ ∀ q, q ∈ l → same_paths q x = false.
Proof.
  rewrite <- not_true_iff_false, existsb_exists. setoid_rewrite <- list_elem_of_In. split.
  - intros H q Hq. apply not_true_is_false. naive_solver.
  - intros H (q & Hq & Hs). rewrite H in Hs; done.
Qed.

(** Kept rules stand for all: a test against them is one against all of the kind. *)
Lemma kept_test rs (l : list SELinuxRule) b x :
  (∀ r, r ∈ l ↔ is_global r = b ∧ first_in rs r) → is_global x = b →
  existsb (λ r, same_paths r x) l = false
  ↔ ∀ q, q ∈ rs → is_global q = is_global x → same_paths q x = false.
Proof.
  intros Hl Hx. rewrite existsb_paths. split.
  - intros H q Hq Hg. apply not_true_is_false. intros Hs.
    destruct (first_in_exists rs q Hq) as (r & Hr & Hrg & Hrq).
    assert (Hin : r ∈ l) by (apply Hl; split; [congruence|done]).
    assert (Hf := H r Hin). rewrite <- not_true_iff_false in Hf. apply Hf.
    rewrite same_paths_spec in *. intuition congruence.
  - intros H q Hq. apply Hl in Hq as [Hg (l1 & l2 & -> & _)]. apply H; [|congruence].
    apply elem_of_app. right. left.
Qed.

Lemma kept_add rs (l : list SELinuxRule) b x :
  (∀ r, r ∈ l ↔ is_global r = b ∧ first_in rs r) → is_global x = b →
  ∀ r, r ∈ (if existsb (λ r, same_paths r x) l then l else l ++ [x])
       ↔ is_global r = b ∧ first_in (rs ++ [x]) r.
Proof.
  intros Hl Hx r. pose proof (kept_test rs l b x Hl Hx) as Ht. rewrite first_in_snoc.
  destruct (existsb _ l).
  - rewrite Hl. split; [tauto|]. intros [Hr [Hf|[_ Hf]]]; [done|]. apply Ht in Hf. congruence.
  - rewrite elem_of_app, list_elem_of_singleton, Hl. split.
    + intros [[Hr Hf]| ->]; [tauto|]. split; [done|]. right. split; [done|]. by apply Ht.
    + intros [Hr [Hf|[-> _]]]; [by left|by right].
Qed.

Lemma kept_other rs (l : list SELinuxRule) b x :
  (∀ r, r ∈ l ↔ is_global r = b ∧ first_in rs r) → is_global x ≠ b →
  ∀ r, r ∈ l ↔ is_global r = b ∧ first_in (rs ++ [x]) r.
Proof.
  intros Hl Hx r. rewrite first_in_snoc, Hl. split; [tauto|].
  intros [Hr [Hf|[-> _]]]; [done|by rewrite Hr in Hx].
Qed.

Lemma kept_step rs st x : kept_of rs st → kept_of (rs ++ [x]) (keep_rule st x).
Proof.
  intros (Hn & Hg & Hl). destruct st as [[n G] L]. cbn [fst snd] in *.
  unfold keep_rule. fold (is_global x). destruct (is_global x) eqn:Hx.
  - pose proof (kept_add rs G true x Hg Hx) as Ha.
    pose proof (kept_other rs L false x Hl) as Ho. rewrite Hx in Ho.
    destruct (existsb _ G); split_and!; cbn [fst snd]; rewrite ?length_app; cbn [List.length];
      auto; lia.
  - pose proof (kept_add rs L false x Hl Hx) as Ha.
    pose proof (kept_other rs G true x Hg) as Ho. rewrite Hx in Ho.
    destruct (existsb _ L); split_and!; cbn [fst snd]; rewrite ?length_app; cbn [List.length];
      auto; lia.
Qed.

Lemma kept_all rs : kept_of rs (foldl keep_rule (0, [], []) rs).
Proof.
  induction rs as [|x rs IH] using rev_ind.
  - split; [done|]. split; intros r; cbn; rewrite elem_of_nil;
      (split; [done|]); intros [_ (l1 & l2 & H & _)]; by destruct l1.
  - rewrite foldl_snoc. by apply kept_step.
Qed.

(** Rules in front win. *)
Lemma first_in_front front back r :
  first_in (front ++ back) r →
  r ∈ front ∨ r ∈ back ∧ ∀ q, q ∈ front → is_global q = is_global r → same_paths q r = false.
Proof.
  intros (l1 & l2 & Heq & Hl).
  apply app_eq_app in Heq as (k & [[-> Hk]|[-> Hk]]).
  - destruct k as [|y k].
    + right. rewrite app_nil_r. cbn in Hk. split; [rewrite <- Hk; left|done].
    + injection Hk as -> Hk. left. apply elem_of_app. right. left.
  - right. split; [rewrite Hk; apply elem_of_app; right; left|].
    intros q Hq. apply Hl. apply elem_of_app. by left.
Qed.

(** ** Block beats Allow *)

Section kept.
Context `{R : GoRange} `{RL : !GoRangeLaw R}.
Context (pols : list HostSecurityPolicy).

(** The items of the policies that block or allow an object for a source *)
Definition blocks (s o : string) (i : Item) : Prop :=
  i ∈ pols ≫= policy_items ∧ it_action i = "Block"%string ∧ s ∈ source_paths (it_sources i)
  ∧ it_path i = o.
Definition allows (s o : string) (i : Item) : Prop :=
  i ∈ pols ≫= policy_items ∧ it_action i = "Allow"%string ∧ s ∈ source_paths (it_sources i)
  ∧ it_path i = o.
(** The items that block an object for every process *)
Definition blocks_all (o : string) (i : Item) : Prop :=
  i ∈ pols ≫= policy_items ∧ it_action i = "Block"%string ∧ it_sources i = [] ∧ it_path i = o.

Lemma host_lists_from : from_items (pols ≫= policy_items) (host_lists pols).
Proof. destruct (host_lists_items pols) as [net ->]. apply (from_items_all (pols ≫= policy_items)). Qed.

Lemma elem_of_sources (m : gmap string (list SELinuxRule)) q :
  q ∈ (go_range m ≫= snd) ↔ ∃ s, q ∈ source_rules_of m s.
Proof.
  rewrite list_elem_of_bind. unfold source_rules_of. split.
  - intros ([s l] & Hq & Hm). apply elem_of_go_range in Hm. exists s. by rewrite Hm.
  - intros [s Hq]. destruct (m !! s) as [l|] eqn:Hm; [|by apply elem_of_nil in Hq].
    exists (s, l). split; [done|]. by apply elem_of_go_range.
Qed.

Abbreviation front := (let h := host_lists pols in
  hl_process h ++ hl_file h ++ (go_range (hl_black h) ≫= snd)).

Lemma rules_front : all_rules (host_lists pols) = front ++ (go_range (hl_white (host_lists pols)) ≫= snd).
Proof. unfold all_rules. by rewrite <- !app_assoc. Qed.

Lemma elem_of_front q :
  q ∈ front ↔ (∃ i o, blocks_all o i ∧ q = global_rule i) ∨ ∃ s o i, blocks s o i ∧ q = block_rule i s.
Proof.
  destruct host_lists_from as (Hg & Hb & _). cbv zeta.
  rewrite app_assoc, elem_of_app, Hg, elem_of_sources. setoid_rewrite Hb.
  unfold blocks, blocks_all. naive_solver.
Qed.

Lemma elem_of_white q :
  q ∈ (go_range (hl_white (host_lists pols)) ≫= snd) ↔ ∃ s o i, allows s o i ∧ q = allow_rule i s.
Proof.
  destruct host_lists_from as (_ & _ & Hw). rewrite elem_of_sources. setoid_rewrite Hw.
  unfold allows. naive_solver.
Qed.

(** Where a kept rule of a source comes from *)
Lemma local_origin r :
  is_global r = false → first_in (all_rules (host_lists pols)) r →
  let s := sr_SubjectPath r in let o := sr_ObjectPath r in
  (∃ i, blocks s o i ∧ r = block_rule i s)
  ∨ (∃ i, allows s o i ∧ r = allow_rule i s) ∧ ¬ ∃ i, blocks s o i.
Proof.
  intros Hr Hf. cbv zeta. rewrite rules_front in Hf. apply first_in_front in Hf as [Hf|[Hf Hno]].
  - apply elem_of_front in Hf as [(i & o & _ & ->)|(s & o & i & Hi & ->)]; [done|].
    left. exists i. pose proof Hi as (_ & _ & _ & <-). done.
  - right. apply elem_of_white in Hf as (s & o & i & Hi & ->).
    pose proof Hi as (_ & _ & _ & <-). split; [by exists i|]. intros (j & Hj).
    assert (Hb : block_rule j s ∈ front).
    { apply elem_of_front. right. exists s, (it_path i), j. done. }
    apply Hno in Hb; [|done]. rewrite <- not_true_iff_false in Hb. apply Hb.
    apply same_paths_spec. split; [done|]. apply Hj.
Qed.

Lemma local_exists s o i :
  blocks s o i ∨ allows s o i →
  ∃ r, is_global r = false ∧ first_in (all_rules (host_lists pols)) r
       ∧ sr_SubjectPath r = s ∧ sr_ObjectPath r = o.
Proof.
  intros Hi. assert (Hq : ∃ q, q ∈ all_rules (host_lists pols) ∧ is_global q = false
    ∧ sr_SubjectPath q = s ∧ sr_ObjectPath q = o).
  { rewrite rules_front. destruct Hi as [Hi|Hi]; pose proof Hi as (_ & _ & _ & <-).
    - exists (block_rule i s). split; [|done]. apply elem_of_app. left. apply elem_of_front.
      right. by exists s, (it_path i), i.
    - exists (allow_rule i s). split; [|done]. apply elem_of_app. right. apply elem_of_white.
      by exists s, (it_path i), i. }
  destruct Hq as (q & Hq & Hg & <- & <-).
  destruct (first_in_exists _ _ Hq) as (r & Hr & Hrg & Hs%same_paths_spec).
  exists r. split; [congruence|]. split; [done|]. done.
Qed.

Lemma global_rules o :
  (∃ r, (is_global r = true ∧ first_in (all_rules (host_lists pols)) r) ∧ sr_ObjectPath r = o)
  ↔ ∃ i, blocks_all o i.
Proof.
  split.
  - intros (r & [Hg Hf] & <-). rewrite rules_front in Hf.
    apply first_in_front in Hf as [Hf|[Hf _]].
    + apply elem_of_front in Hf as [(i & o & Hi & ->)|(s & o & i & _ & ->)]; [|done].
      exists i. by pose proof Hi as (_ & _ & _ & <-).
    + apply elem_of_white in Hf as (s & o & i & _ & ->). done.
  - intros (i & Hi). assert (Hq : global_rule i ∈ all_rules (host_lists pols)).
    { rewrite rules_front. apply elem_of_app. left. apply elem_of_front. left. by exists i, o. }
    destruct (first_in_exists _ _ Hq) as (r & Hr & Hrg & Hs%same_paths_spec).
    exists r. split; [done|]. destruct Hs as [_ ->]. apply Hi.
Qed.

End kept.

Lemma first_in_unique rs r q :
  first_in rs r → first_in rs q → is_global r = is_global q → same_paths r q = true → r = q.
Proof.
  intros (l1 & l2 & -> & Hl) (k1 & k2 & Heq & Hk) Hg Hs.
  assert (Hsq : same_paths q r = true) by (rewrite same_paths_spec in *; intuition congruence).
  apply app_eq_app in Heq as (m & [[-> Hm]|[-> Hm]]); destruct m as [|y m]; cbn in Hm;
    try (by injection Hm as ->).
  - injection Hm as Hy Hm. subst y. exfalso.
    assert (Hf : same_paths q r = false) by (apply Hl; [apply elem_of_app; right; left|done]).
    congruence.
  - injection Hm as Hy Hm. subst y. exfalso.
    assert (Hf : same_paths r q = false) by (apply Hk; [apply elem_of_app; right; left|done]).
    congruence.
Qed.

(** The SELinux host profile: for each source and object there is at most one rule, and
    one exactly if an item of a policy names both.  It blocks if any item blocks, whatever
    the order of the policies and of Go's maps; and likewise for the objects that are
    blocked for all processes. *)
Theorem host_profile_blocks_first `{R : GoRange} `{RL : !GoRangeLaw R} pols :
  let '(n, G, L) := kept_rules (host_lists pols) in
  n = List.length G + List.length L
  ∧ (∀ s o, (∃ i, blocks pols s o i) →
       (∃ r, r ∈ L ∧ sr_SubjectPath r = s ∧ sr_ObjectPath r = o)
       ∧ ∀ r, r ∈ L → sr_SubjectPath r = s → sr_ObjectPath r = o →
           ∃ i, blocks pols s o i ∧ r = block_rule i s)
  ∧ (∀ s o, ¬ (∃ i, blocks pols s o i) → (∃ i, allows pols s o i) →
       (∃ r, r ∈ L ∧ sr_SubjectPath r = s ∧ sr_ObjectPath r = o)
       ∧ ∀ r, r ∈ L → sr_SubjectPath r = s → sr_ObjectPath r = o →
           ∃ i, allows pols s o i ∧ r = allow_rule i s)
  ∧ (∀ r, r ∈ L → ∃ i, blocks pols (sr_SubjectPath r) (sr_ObjectPath r) i
                     ∨ allows pols (sr_SubjectPath r) (sr_ObjectPath r) i)
  ∧ (∀ o, (∃ r, r ∈ G ∧ sr_ObjectPath r = o) ↔ ∃ i, blocks_all pols o i)
  ∧ ∀ r q, (r ∈ G ∧ q ∈ G ∨ r ∈ L ∧ q ∈ L) → same_paths r q = true → r = q.
Proof.
  destruct (kept_rules (host_lists pols)) as [[n G] L] eqn:E.
  destruct (kept_all (all_rules (host_lists pols))) as (Hn & HG & HL).
  unfold kept_rules in E. rewrite E in Hn, HG, HL. cbn [fst snd] in Hn, HG, HL.
  assert (Hex : ∀ s o, (∃ i, blocks pols s o i ∨ allows pols s o i) →
    ∃ r, r ∈ L ∧ sr_SubjectPath r = s ∧ sr_ObjectPath r = o).
  { intros s o [i Hi]. destruct (local_exists pols s o i Hi) as (r & Hg & Hf & Hp).
    exists r. split; [by apply HL|done]. }
  assert (Hor : ∀ r, r ∈ L → (∃ i, blocks pols (sr_SubjectPath r) (sr_ObjectPath r) i
        ∧ r = block_rule i (sr_SubjectPath r))
      ∨ (∃ i, allows pols (sr_SubjectPath r) (sr_ObjectPath r) i
          ∧ r = allow_rule i (sr_SubjectPath r))
        ∧ ¬ ∃ i, blocks pols (sr_SubjectPath r) (sr_ObjectPath r) i).
  { intros r [Hg Hf]%HL. by apply local_origin. }
  split_and!.
  - done.
  - intros s o Hb. split; [apply Hex; destruct Hb as [i Hi]; exists i; by left|]. intros r Hr <- <-.
    destruct (Hor r Hr) as [H|[_ H]]; [done|by destruct H].
  - intros s o Hb Ha. split; [apply Hex; destruct Ha as [i Hi]; exists i; by right|]. intros r Hr <- <-.
    destruct (Hor r Hr) as [(i & Hi & _)|[H _]]; [by destruct Hb; exists i|done].
  - intros r Hr. destruct (Hor r Hr) as [(i & Hi & _)|[(i & Hi & _) _]]; exists i; auto.
  - intros o. rewrite <- global_rules. setoid_rewrite HG. done.
  - intros r q Hrq. apply first_in_unique with (all_rules (host_lists pols)).
    + destruct Hrq as [[Hr _]|[Hr _]]; [by apply HG in Hr as [_ ?]|by apply HL in Hr as [_ ?]].
    + destruct Hrq as [[_ Hq]|[_ Hq]]; [by apply HG in Hq as [_ ?]|by apply HL in Hq as [_ ?]].
    + destruct Hrq as [[[-> _]%HG [-> _]%HG]|[[-> _]%HL [-> _]%HL]]; done.
Qed.

(** ** Flags of network rules *)

(** The flags of a blocked network rule are flags of some allowed one, which are all
    that the SELinux module has types for, only if the rule blocks both [icmp] and [raw];
    else [r] and [i] stand in each other's place, and there is no such type. *)
Theorem blocked_flags_unknown p :
  (∃ p', blocked_flags p = allowed_flags p')
  ↔ "icmp"%string ∈ split comma p ∧ "raw"%string ∈ split comma p.
Proof.
  unfold blocked_flags. rewrite net_flags_eq. cbn [nf_tcp nf_udp nf_icmp nf_raw all_n].
  split.
  - intros [p' Hp]. unfold allowed_flags in Hp. rewrite net_flags_eq in Hp.
    cbn [nf_tcp nf_udp nf_icmp nf_raw all_n] in Hp. revert Hp.
    repeat case_bool_decide; try done.
  - intros [Hi Hr]. rewrite (bool_decide_eq_true_2 _ Hi), (bool_decide_eq_true_2 _ Hr).
    case_bool_decide; case_bool_decide.
    + by exists ""%string.
    + by exists "udp"%string.
    + by exists "tcp"%string.
    + by exists "tcp,udp"%string.
Qed.

(** ** Witness *)

Section witnesses.
#[local] Existing Instance canonical_range.
#[local] Existing Instance canonical_range_law.

Definition sample_host_policy : HostSecurityPolicy :=
  {| hp_Metadata := ∅;
     hp_Spec := {| hs_NodeSelector := {| nsel_MatchLabels := ∅; nsel_Identities := [] |};
       hs_Process := {| pt_MatchPaths :=
           [{| ppt_Path := "/usr/bin/nc"; ppt_ExecName := ""; ppt_OwnerOnly := false;
               ppt_FromSource := [{| ms_Path := "/bin/sh" |}]; ppt_AllowedArgs := [];
               ppt_Severity := 1; ppt_Tags := []; ppt_Message := ""; ppt_Action := "Allow" |};
            {| ppt_Path := "/usr/bin/nc"; ppt_ExecName := ""; ppt_OwnerOnly := false;
               ppt_FromSource := [{| ms_Path := "/bin/sh" |}]; ppt_AllowedArgs := [];
               ppt_Severity := 1; ppt_Tags := []; ppt_Message := ""; ppt_Action := "Block" |}];
         pt_MatchDirectories := []; pt_MatchPatterns := []; pt_Severity := 1; pt_Tags := [];
         pt_Message := ""; pt_Action := "Block" |};
       hs_File := {| ft_MatchPaths := []; ft_MatchDirectories := []; ft_MatchPatterns := [];
         ft_Severity := 1; ft_Tags := []; ft_Message := ""; ft_Action := "Block" |};
       hs_Network := {| nt_MatchProtocols :=
           [{| npt_Protocol := "tcp"; npt_FromSource := [{| ms_Path := "/bin/sh" |}];
               npt_Severity := 1; npt_Tags := []; npt_Message := ""; npt_Action := "Block" |}];
         nt_Severity := 1; nt_Tags := []; nt_Message := ""; nt_Action := "Block" |};
       hs_Capabilities := {| ct_MatchCapabilities := []; ct_Severity := 1; ct_Tags := [];
         ct_Message := ""; ct_Action := "Block" |};
       hs_Syscalls := {| st_MatchSyscalls := []; st_MatchPaths := []; st_Severity := 1;
         st_Tags := []; st_Message := "" |};
       hs_AppArmor := ""; hs_Severity := 1; hs_Tags := []; hs_Message := "";
       hs_Action := "Block" |} |}%string.

Lemma host_profile_blocks_first_witness :
  ∃ r, r ∈ (kept_rules (host_lists [sample_host_policy])).2 ∧ sr_ObjectLabel r = "block_t"%string.
Proof.
  assert (H := host_profile_blocks_first [sample_host_policy]).
  destruct (kept_rules (host_lists [sample_host_policy])) as [[n G] L].
  destruct H as (_ & Hb & _). destruct (Hb "/bin/sh"%string "/usr/bin/nc"%string)
    as [(r & Hr & Hs & Ho) Hall].
  - eexists. split; [right; left|]. split; [reflexivity|]. split; [left|reflexivity].
  - exists r. split; [exact Hr|]. destruct (Hall r Hr Hs Ho) as (i & (Hi & Ha & _) & ->).
    apply list_elem_of_In in Hi. destruct Hi as [<-|[<-|[]]]; [discriminate Ha|reflexivity].
Defined.

End witnesses.
