(* ===== verification/SELinuxLabelProps.v ===== *)
(** The labels of files follow the SELinux host profile: what its lines say, and what the
    lines of the profile before it leave. *)
From Stdlib Require Import Ascii String.
From S2P Require Import Prelude GoStrings GoPath Types Common SELinux SELinuxProps.

Open Scope string_scope.
Open Scope nat_scope.
Open Scope list_scope.

(** ** Lines *)

Record Line := {
  ln_SubjectLabel : string; ln_SubjectPath : string; ln_ObjectLabel : string;
  ln_ObjectPath : string; ln_Permissive : string; ln_Directory : string; ln_Recursive : string }.

Definition parse (line : string) : option Line :=
  match Fields line with
  | [sl; s; ol; o; p; d; r] =>
      Some {| ln_SubjectLabel := sl; ln_SubjectPath := s; ln_ObjectLabel := ol;
              ln_ObjectPath := o; ln_Permissive := p; ln_Directory := d; ln_Recursive := r |}
  | _ => None
  end.

(** Lines that are in force *)
Definition lines (text : string) : list Line :=
  filter (λ l, ln_Permissive l ≠ "true"%string) (omap parse (split newline text)).

Section labels.
Context {W : Type} `{SH : !SELinuxHost W}.

(** What the commands do when they succeed: [label] is the label that a file has, and
    [policy_label] the one that the policy of the system gives it. *)
Class SELinuxHostLaw (label : W → string → string) (policy_label : string → string) : Prop := {
  chcon_label : ∀ l f w w', se_chcon l f w = (w', true) →
    ∀ g, label w' g = if String.eqb g f then l else label w g;
  restorecon_label : ∀ f w w', se_restorecon f w = (w', true) →
    ∀ g, label w' g = if String.eqb g f then policy_label f else label w g;
  chcon_tree : ∀ l f w w', se_chcon l f w = (w', true) →
    ∀ p, se_Walk p w' = se_Walk p w ∧ se_ReadDir p w' = se_ReadDir p w;
  restorecon_tree : ∀ f w w', se_restorecon f w = (w', true) →
    ∀ p, se_Walk p w' = se_Walk p w ∧ se_ReadDir p w' = se_ReadDir p w }.

(** The files that a line is about *)
Definition objects (l : Line) (w : W) : list string :=
  if String.eqb (ln_Directory l) "true" then
    if String.eqb (ln_Recursive l) "true" then (se_Walk (ln_ObjectPath l) w).1
    else match se_ReadDir (ln_ObjectPath l) w with
         | None => []
         | Some entries => (λ e, ln_ObjectPath l +:+ e.1)%string
                             <$> filter (λ e : string * bool, e.2 = false) entries
         end
  else [ln_ObjectPath l].

(** Assignments of labels, the last one of a file being the one that counts *)
Definition relabel (l : list (string * string)) (f old : string) : string :=
  foldl (λ old a, if String.eqb f a.1 then a.2 else old) old l.

Lemma relabel_app l l' f old : relabel (l ++ l') f old = relabel l' f (relabel l f old).
Proof. apply foldl_app. Qed.

Definition same_tree (w w' : W) : Prop :=
  ∀ p, se_Walk p w' = se_Walk p w ∧ se_ReadDir p w' = se_ReadDir p w.

Lemma same_tree_trans w1 w2 w3 : same_tree w1 w2 → same_tree w2 w3 → same_tree w1 w3.
Proof. intros H H' p. destruct (H p), (H' p). split; congruence. Qed.

Lemma objects_same l w w' : same_tree w w' → objects l w' = objects l w.
Proof.
  intros H. unfold objects. destruct (H (ln_ObjectPath l)) as [Hw Hr]. by rewrite Hw, Hr.
Qed.

Context (label : W → string → string) (policy_label : string → string).
Context `{SL : !SELinuxHostLaw label policy_label}.

(** A step that succeeds makes assignments. *)
Definition assigns (w w' : W) (l : list (string * string)) : Prop :=
  same_tree w w' ∧ ∀ f, label w' f = relabel l f (label w f).

Lemma assigns_nil w : assigns w w [].
Proof. split; [done|done]. Qed.

Lemma assigns_app w1 w2 w3 l l' : assigns w1 w2 l → assigns w2 w3 l' → assigns w1 w3 (l ++ l').
Proof.
  intros [Ht Hl] [Ht' Hl']. split; [by eapply same_tree_trans|].
  intros f. by rewrite Hl', Hl, relabel_app.
Qed.

Definition sets (cmd : string → W → W * bool) (to : string → string) : Prop :=
  ∀ f w w', cmd f w = (w', true) → assigns w w' [(f, to f)].

Lemma chcon_sets l : sets (se_chcon l) (λ _, l).
Proof.
  intros f w w' H. split; [intros p; by apply (chcon_tree l f w w' H)|]. intros g.
  rewrite (chcon_label l f w w' H). done.
Qed.

Lemma restorecon_sets : sets se_restorecon policy_label.
Proof.
  intros f w w' H. split; [intros p; by apply (restorecon_tree f w w' H)|]. intros g.
  rewrite (restorecon_label f w w' H). done.
Qed.

Lemma run_ok cmd to st f w' :
  sets cmd to → run cmd st f = (w', true) → st.2 = true ∧ assigns st.1 w' [(f, to f)].
Proof.
  intros Hs H. unfold run in H. destruct (cmd f st.1) as [w ok] eqn:Hc.
  injection H as -> [Hst ->]%andb_true_iff. split; [done|]. by apply Hs.
Qed.

(** Steps that remember failures *)
Lemma foldl_ok {A} (step : W * bool → A → W * bool) (to : W → A → list (string * string))
    (l : list A) :
  (∀ st a w', step st a = (w', true) → st.2 = true ∧ assigns st.1 w' (to st.1 a)) →
  (∀ w w' a, same_tree w w' → to w' a = to w a) →
  ∀ st w', foldl step st l = (w', true) → st.2 = true ∧ assigns st.1 w' (l ≫= to st.1).
Proof.
  intros Hstep Hto. induction l as [|a l IH] using rev_ind; intros st w' H.
  - cbn in H. destruct st as [w b]. injection H as -> ->. split; [done|apply assigns_nil].
  - rewrite foldl_snoc in H. apply Hstep in H as [Hok Ha].
    destruct (foldl step st l) as [w1 b] eqn:E. cbn in Hok, Ha. subst b.
    destruct (IH st w1 E) as [Hst Hl]. split; [done|].
    rewrite bind_app. eapply assigns_app; [exact Hl|]. cbn. rewrite app_nil_r.
    rewrite <- (Hto st.1 w1 a); [done|]. apply Hl.
Qed.

Definition line_labels (global : bool) (subject_to object_to : string → string) (l : Line) (w : W)
    : list (string * string) :=
  (if global then [] else [(ln_SubjectPath l, subject_to (ln_SubjectPath l))])
  ++ ((λ f, (f, object_to f)) <$> objects l w).

Lemma bind_single {A B} (f : A → B) (l : list A) : l ≫= (λ a, [f a]) = f <$> l.
Proof. induction l as [|a l IH]; [done|]. cbn. by f_equal. Qed.

Lemma run_all_ok cmd to files st w' :
  sets cmd to → foldl (run cmd) st files = (w', true) →
  st.2 = true ∧ assigns st.1 w' ((λ f, (f, to f)) <$> files).
Proof.
  intros Hs H. rewrite <- bind_single.
  by apply (foldl_ok (run cmd) (λ _ f, [(f, to f)]) files
    (λ st f w' H, run_ok cmd to st f w' Hs H) (λ _ _ _ _, eq_refl)).
Qed.

Lemma label_rule_ok global cs co ts to l st w' :
  sets cs ts → sets co to →
  label_rule global cs co (ln_SubjectPath l) (ln_ObjectPath l) (ln_Directory l) (ln_Recursive l) st
  = (w', true) →
  st.2 = true ∧ assigns st.1 w' (line_labels global ts to l st.1).
Proof.
  intros Hs Ho. unfold label_rule. set (st1 := if global then st else _).
  assert (Hobj : ∀ w', (if String.eqb (ln_Directory l) "true" then
      if String.eqb (ln_Recursive l) "true" then
        let '(files, ok) := se_Walk (ln_ObjectPath l) st1.1 in
        let st := foldl (run co) st1 files in (st.1, st.2 && ok)
      else match se_ReadDir (ln_ObjectPath l) st1.1 with
           | None => st1
           | Some entries => foldl (run co) st1 ((λ e, ln_ObjectPath l +:+ e.1)%string
                               <$> filter (λ e : string * bool, e.2 = false) entries)
           end
      else run co st1 (ln_ObjectPath l)) = (w', true) →
    st1.2 = true ∧ assigns st1.1 w' ((λ f, (f, to f)) <$> objects l st1.1)).
  { intros w1. unfold objects. destruct (String.eqb (ln_Directory l) "true").
    - destruct (String.eqb (ln_Recursive l) "true").
      + destruct (se_Walk _ _) as [files ok]. cbn [fst]. intros [= <- [Hok ->]%andb_true_iff].
        apply (run_all_ok co to files st1 _ Ho). destruct (foldl _ _ _); cbn in Hok.
        by subst.
      + destruct (se_ReadDir _ _) as [entries|].
        * by apply run_all_ok.
        * intros ->. split; [done|apply assigns_nil].
    - by apply run_ok. }
  intros [Hst Ha]%Hobj. unfold line_labels. destruct global; [done|].
  destruct st1 as [w1 b] eqn:E. cbn in Hst. subst b.
  destruct (run_ok cs ts st (ln_SubjectPath l) w1 Hs E) as [Hok Has]. split; [done|].
  eapply assigns_app; [exact Has|]. cbn [fst] in Ha.
  by rewrite (objects_same l st.1 w1) in Ha by apply Has.
Qed.

(** Assignments of a line of the old profile and of the new one *)
Definition old_line (w : W) (l : Line) : list (string * string) :=
  line_labels (String.eqb (ln_SubjectPath l) global_label) policy_label policy_label l w.
Definition new_line (w : W) (l : Line) : list (string * string) :=
  line_labels (String.eqb (ln_SubjectLabel l) global_label) (λ _, ln_SubjectLabel l)
    (λ _, ln_ObjectLabel l) l w.

Lemma line_labels_same g ts to l w w' :
  same_tree w w' → line_labels g ts to l w' = line_labels g ts to l w.
Proof. intros H. unfold line_labels. by rewrite (objects_same l w w'). Qed.

(** The lines of a text, those that are not in force giving nothing *)
Definition text_labels (line : W → Line → list (string * string)) (w : W) (text : string)
    : list (string * string) := lines text ≫= line w.

Lemma bind_lines {A} (f : Line → list A) (text : string) :
  lines text ≫= f
  = split newline text ≫= λ s, match parse s with
      | Some l => if String.eqb (ln_Permissive l) "true" then [] else f l
      | None => []
      end.
Proof.
  unfold lines. induction (split newline text) as [|s ss IH]; [done|].
  cbn [omap list_omap mbind list_bind]. destruct (parse s) as [l|]; [|by rewrite <- IH].
  rewrite filter_cons. destruct (String.eqb_spec (ln_Permissive l) "true") as [Hp|Hp].
  - rewrite decide_False by naive_solver. by rewrite <- IH.
  - rewrite decide_True by done. cbn [mbind list_bind]. by rewrite <- IH.
Qed.

Lemma text_ok (step : W * bool → string → W * bool) (line : W → Line → list (string * string))
    text w w' :
  (∀ st s w', step st s = (w', true) → st.2 = true
     ∧ assigns st.1 w' (match parse s with
                        | Some l => if String.eqb (ln_Permissive l) "true" then [] else line st.1 l
                        | None => []
                        end)) →
  (∀ w w' l, same_tree w w' → line w' l = line w l) →
  foldl step (w, true) (split newline text) = (w', true) →
  assigns w w' (text_labels line w text).
Proof.
  intros Hstep Hline H. unfold text_labels. rewrite bind_lines.
  refine (proj2 (foldl_ok step (λ w s, match parse s with
      | Some l => if String.eqb (ln_Permissive l) "true" then [] else line w l
      | None => []
      end) _ Hstep _ (w, true) w' H)).
  intros w1 w2 s Ht. destruct (parse s) as [l|]; [|done]. by rewrite (Hline w1 w2).
Qed.

Lemma restore_line_ok st s w' :
  restore_line st s = (w', true) → st.2 = true
  ∧ assigns st.1 w' (match parse s with
                     | Some l => if String.eqb (ln_Permissive l) "true" then [] else old_line st.1 l
                     | None => []
                     end).
Proof.
  unfold restore_line, parse.
  destruct (Fields s) as [|a [|b [|c [|d [|e [|f [|g [|h t]]]]]]]];
    try (intros ->; split; [done|apply assigns_nil]).
  cbn [ln_Permissive]. destruct (String.eqb e "true"); [intros ->; split; [done|apply assigns_nil]|].
  set (l := Build_Line a b c d e f g).
  apply (label_rule_ok _ _ _ _ _ l st w' restorecon_sets restorecon_sets).
Qed.

Lemma update_line_ok st s w' :
  update_line st s = (w', true) → st.2 = true
  ∧ assigns st.1 w' (match parse s with
                     | Some l => if String.eqb (ln_Permissive l) "true" then [] else new_line st.1 l
                     | None => []
                     end).
Proof.
  unfold update_line, parse.
  destruct (Fields s) as [|a [|b [|c [|d [|e [|f [|g [|h t]]]]]]]];
    try (intros ->; split; [done|apply assigns_nil]).
  cbn [ln_Permissive]. destruct (String.eqb e "true"); [intros ->; split; [done|apply assigns_nil]|].
  set (l := Build_Line a b c d e f g).
  apply (label_rule_ok _ _ _ _ _ l st w' (chcon_sets a) (chcon_sets c)).
Qed.

(** The text of the profile before *)
Definition old_text (path : string) (w : W) : string :=
  if se_Stat (Clean (path +:+ ".old")) w
  then default ""%string (se_ReadFile (Clean (path +:+ ".old")) w) else "".

(** The labels of files follow the profile: when no command fails, the files that the
    old profile named first get the label of the system's policy again, and then every
    file gets the label that the last line of the new profile gives it, and keeps its own
    if there is none; directories stand for the files in them. *)
Theorem labels_follow_profile path w w0 w2 :
  RestoreSELinuxLabels path w = (w0, true) → UpdateSELinuxLabels path w = (w2, true) →
  let w1 := (se_CopyFile (Clean path) (Clean (path +:+ ".old")) w0).1 in
  (∀ f, label w0 f = relabel (text_labels old_line w (old_text path w)) f (label w f))
  ∧ ∃ text, se_ReadFile (Clean path) w1 = Some text
    ∧ ∀ f, label w2 f = relabel (text_labels new_line w1 text) f (label w1 f).
Proof.
  intros Hr Hu. cbv zeta. split.
  - unfold RestoreSELinuxLabels in Hr. unfold old_text.
    destruct (se_Stat _ w); cbn [negb] in Hr; [|by injection Hr as ->].
    destruct (se_ReadFile _ w) as [text|]; [|done]. cbn [default from_option].
    apply (text_ok restore_line old_line text w w0 restore_line_ok); [|exact Hr].
    intros; by apply line_labels_same.
  - unfold UpdateSELinuxLabels in Hu. rewrite Hr in Hu. cbn [fst] in Hu.
    destruct (se_Stat _ w); [|done]. cbn [negb] in Hu.
    destruct (se_ReadFile _ _) as [text|]; [|done]. exists text. split; [done|].
    apply (text_ok update_line new_line text _ w2 update_line_ok); [|exact Hu].
    intros; by apply line_labels_same.
Qed.

End labels.

(** ** The text of a profile and its lines *)

Definition word (s : string) : bool := negb (String.eqb s "") && nospace s.

Lemma fields_from_nospace w acc s :
  nospace w = true → fields_from acc (w +:+ s) = fields_from (acc +:+ w) s.
Proof.
  revert acc. induction w as [|c w IH]; intros acc; cbn; [by rewrite string_app_nil_r|].
  intros [Hc Hw]%andb_true_iff. apply negb_true_iff in Hc. rewrite Hc.
  change (String c (w +:+ s)) with (String c "" +:+ (w +:+ s))%string. rewrite IH by done.
  by rewrite string_app_assoc.
Qed.

Lemma Fields_join l : Forall (λ s, word s = true) l → Fields (join tab l) = l.
Proof.
  unfold Fields. induction l as [|w l IH]; intros Hl; [done|].
  apply list.Forall_cons in Hl as [[Hne Hw]%andb_true_iff Hl].
  apply negb_true_iff in Hne.
  assert (Hend : fields_from w "" = [w]) by (cbn; by rewrite Hne).
  destruct l as [|w' l].
  - cbn [join]. rewrite <- (string_app_nil_r w) at 1. by rewrite fields_from_nospace.
  - rewrite join_cons by done. rewrite fields_from_nospace by done. cbn [String.append].
    change (fields_from w (tab +:+ join tab (w' :: l)))
      with ((if String.eqb w "" then [] else [w]) ++ fields_from "" (join tab (w' :: l))).
    by rewrite Hne, IH.
Qed.

Lemma nospace_newline s : nospace s = true → char_in newline s = false.
Proof.
  induction s as [|c s IH]; [done|]. cbn [nospace char_in].
  intros [Hc Hs]%andb_true_iff. rewrite IH by done. rewrite orb_false_r.
  destruct (Ascii.eqb_spec c newline) as [->|]; [discriminate Hc|done].
Qed.

Lemma join_newline l : Forall (λ s, word s = true) l → char_in newline (join tab l) = false.
Proof.
  induction l as [|w l IH]; intros Hl; [done|].
  apply list.Forall_cons in Hl as [[_ Hw%nospace_newline]%andb_true_iff Hl].
  destruct l as [|w' l]; [done|]. rewrite join_cons by done.
  rewrite !char_in_app, Hw, IH by done. done.
Qed.

Lemma split_lines ls :
  Forall (λ l, char_in newline l = false) ls →
  split newline (String.concat "" ((λ l, l +:+ String newline "")%string <$> ls)) = ls ++ [""%string].
Proof.
  induction ls as [|l ls IH]; intros Hl; [done|].
  apply list.Forall_cons in Hl as [Hl Hls].
  assert (Hc : String.concat "" ((λ l, l +:+ String newline "")%string <$> l :: ls)
    = (l +:+ String newline (String.concat "" ((λ l, l +:+ String newline "")%string <$> ls)))%string).
  { cbn [fmap list_fmap String.concat]. destruct ls as [|l' ls]; [done|].
    cbn [fmap list_fmap]. rewrite string_app_assoc. done. }
  rewrite Hc, split_app_sep, split_no_sep, IH by done. done.
Qed.

(** The line of a rule, as [parse] gives it *)
Definition rule_line (subjectLabel objectLabel : string) (r : SELinuxRule) : Line :=
  {| ln_SubjectLabel := subjectLabel; ln_SubjectPath := sr_SubjectPath r;
     ln_ObjectLabel := objectLabel; ln_ObjectPath := sr_ObjectPath r;
     ln_Permissive := bool_text (sr_Permissive r); ln_Directory := bool_text (sr_Directory r);
     ln_Recursive := bool_text (sr_Recursive r) |}.

Definition words_of (l : Line) : list string :=
  [ln_SubjectLabel l; ln_SubjectPath l; ln_ObjectLabel l; ln_ObjectPath l; ln_Permissive l;
   ln_Directory l; ln_Recursive l].

Definition local_rule_line (fileAction : string) (net : gmap string string) (r : SELinuxRule)
    : Line :=
  let flags := default "tuir"%string (net !! sr_SubjectPath r) in
  rule_line (local_label fileAction flags (sr_SubjectLabel r))
    (local_label fileAction flags (sr_ObjectLabel r)) r.
Definition global_rule_line (r : SELinuxRule) : Line :=
  rule_line (sr_SubjectLabel r) ("karmor_global_" +:+ sr_ObjectLabel r) r.

Lemma local_line_words fileAction net r :
  local_line fileAction net r
  = (join tab (words_of (local_rule_line fileAction net r)) +:+ String newline "")%string.
Proof.
  unfold local_line, local_rule_line, rule_line, words_of, flags_text. cbv zeta.
  cbn [join ln_SubjectLabel ln_SubjectPath ln_ObjectLabel ln_ObjectPath ln_Permissive
       ln_Directory ln_Recursive]. by rewrite <- !string_app_assoc.
Qed.

Lemma global_line_words r :
  global_line r = (join tab (words_of (global_rule_line r)) +:+ String newline "")%string.
Proof.
  unfold global_line, global_rule_line, rule_line, words_of, flags_text.
  cbn [join ln_SubjectLabel ln_SubjectPath ln_ObjectLabel ln_ObjectPath ln_Permissive
       ln_Directory ln_Recursive]. by rewrite <- !string_app_assoc.
Qed.

Lemma parse_words l : Forall (λ s, word s = true) (words_of l) → parse (join tab (words_of l)) = Some l.
Proof. intros Hl. unfold parse. rewrite Fields_join by done. by destruct l. Qed.

(** Lines of words are read as they were written. *)
Lemma lines_of_words ls :
  Forall (λ l, Forall (λ s, word s = true) (words_of l) ∧ ln_Permissive l ≠ "true"%string) ls →
  lines (String.concat "" ((λ l, join tab (words_of l) +:+ String newline "")%string <$> ls)) = ls.
Proof.
  intros Hl. unfold lines.
  rewrite (list_fmap_compose (λ l, join tab (words_of l)) (λ s, s +:+ String newline "")%string).
  rewrite split_lines.
  2:{ apply list.Forall_fmap. eapply list.Forall_impl; [exact Hl|]. intros l [Hw _].
      by apply join_newline. }
  rewrite omap_app. change (omap parse [""%string]) with (@nil Line). rewrite app_nil_r.
  induction Hl as [|l ls [Hw Hp] Hl IH]; [done|].
  cbn [fmap list_fmap omap list_omap]. rewrite parse_words by done.
  rewrite filter_cons, decide_True by done. by rewrite IH.
Qed.

(** ** The profile of policies *)

Section profile.
Context `{R : GoRange} `{RL : !GoRangeLaw R}.
Context (pols : list HostSecurityPolicy).

Lemma source_path_word i s :
  (∀ s, s ∈ source_paths (it_sources i) → nospace s = true) →
  s ∈ source_paths (it_sources i) → word s = true.
Proof.
  intros H Hs. unfold word. rewrite H by done.
  unfold source_paths in Hs. apply list_elem_of_filter in Hs as [Hne _].
  by destruct (String.eqb_spec s "").
Qed.

(** The labels of the items *)
Lemma item_labels i : i ∈ pols ≫= policy_items → word (it_allow i) = true ∧ word (it_block i) = true.
Proof.
  intros (pol & Hi & _)%list_elem_of_bind. unfold policy_items in Hi.
  rewrite !elem_of_app, !list_elem_of_fmap in Hi.
  destruct Hi as [(p & -> & _)|[(p & -> & _)|[(p & -> & _)|(p & -> & _)]]]; cbn; try done.
  - by destruct (fpt_ReadOnly p).
  - by destruct (fdt_ReadOnly p).
Qed.

Definition plain_items : Prop :=
  ∀ i, i ∈ pols ≫= policy_items →
    word (it_path i) = true ∧ ∀ s, s ∈ source_paths (it_sources i) → nospace s = true.

Definition plain_rule (r : SELinuxRule) : Prop :=
  word (sr_SubjectLabel r) = true ∧ word (sr_SubjectPath r) = true
  ∧ word (sr_ObjectLabel r) = true ∧ word (sr_ObjectPath r) = true ∧ sr_Permissive r = false.

Lemma all_rules_plain r : plain_items → r ∈ all_rules (host_lists pols) → plain_rule r.
Proof.
  intros Hp. rewrite rules_front, elem_of_app, elem_of_front, elem_of_white.
  intros [[(i & o & Hi & ->)|(s & o & i & Hi & ->)]|(s & o & i & Hi & ->)];
    destruct Hi as (Hin & _ & Hs & _); destruct (Hp i Hin) as [Hpath Hsrc];
    destruct (item_labels i Hin) as [Ha Hb]; unfold plain_rule; cbn; split_and!; try done;
    by apply (source_path_word i).
Qed.

Lemma nospace_word a b : nospace a = true → word b = true → word (a +:+ b) = true.
Proof.
  unfold word. intros Ha [Hne Hb]%andb_true_iff. rewrite nospace_app, Ha, Hb.
  destruct a as [|c a]; cbn in *; [by rewrite Hne|done].
Qed.

Lemma rule_line_words sl ol r :
  plain_rule r → word sl = true → word ol = true →
  Forall (λ s, word s = true) (words_of (rule_line sl ol r))
  ∧ ln_Permissive (rule_line sl ol r) ≠ "true"%string.
Proof.
  intros (_ & Hs & _ & Ho & Hp) Hsl Hol. split; [|cbn; by rewrite Hp].
  repeat (apply list.Forall_cons; split); try done;
    cbn; [by destruct (sr_Permissive r)|by destruct (sr_Directory r)|by destruct (sr_Recursive r)].
Qed.

(** The host profile is read as it was written: when no path and no posture has white
    space in it, the lines in force are those of the kept rules, the rules of sources with
    the labels of the posture and of the source's protocols first. *)
Theorem host_profile_parsed dp :
  plain_items → nospace (dp_FileAction dp) = true →
  let '(n, G, L) := kept_rules (host_lists pols) in
  (host_profile pols dp).1 = n
  ∧ lines (host_profile pols dp).2
    = (local_rule_line (dp_FileAction dp) (hl_network (host_lists pols)) <$> L)
      ++ (global_rule_line <$> G).
Proof.
  intros Hp Hdp. unfold host_profile. cbv zeta.
  destruct (kept_all (all_rules (host_lists pols))) as (_ & HG & HL).
  destruct (kept_rules (host_lists pols)) as [[n G] L] eqn:E. unfold kept_rules in E.
  rewrite E in HG, HL. cbn [fst snd] in HG, HL |- *. split; [done|].
  assert (Hplain : ∀ r, first_in (all_rules (host_lists pols)) r → plain_rule r).
  { intros r (l1 & l2 & He & _). apply all_rules_plain; [done|]. rewrite He.
    apply elem_of_app. right. left. }
  set (ls := (_ <$> L) ++ (global_rule_line <$> G)).
  rewrite <- (lines_of_words ls).
  - do 2 f_equal. unfold ls. rewrite fmap_app, <- !list_fmap_compose. f_equal;
      apply list_fmap_ext; intros; [apply local_line_words|apply global_line_words].
  - apply list.Forall_app. split; apply list.Forall_fmap, list.Forall_forall; intros r Hr.
    + apply HL in Hr as [_ Hr%Hplain].
      assert (Hlab : ∀ l, word l = true → word (local_label (dp_FileAction dp)
        (default "tuir"%string (hl_network (host_lists pols) !! sr_SubjectPath r)) l) = true).
      { intros l Hl. unfold local_label. repeat (apply nospace_word; [|try done]); try done.
        destruct (_ !! _) as [v|] eqn:Hv; [|done].
        by apply (host_lists_flags pols) in Hv. }
      apply rule_line_words; [done|apply Hlab, Hr|apply Hlab; by destruct Hr as (_ & _ & ? & _)].
    + apply HG in Hr as [_ Hr%Hplain].
      apply rule_line_words; [done|by destruct Hr|].
      apply nospace_word; [done|by destruct Hr as (_ & _ & ? & _)].
Qed.

End profile.

(** ** Witnesses *)

Section witnesses.
#[local] Existing Instance canonical_range.
#[local] Existing Instance canonical_range_law.

(** Profiles, labels and the directories of a host where every command succeeds *)
Record Box := {
  bx_files : gmap string string; bx_labels : gmap string string;
  bx_dirs : gmap string (list (string * bool)) }.

Definition box_write (f text : string) (b : Box) : Box * bool :=
  ({| bx_files := <[f := text]> (bx_files b); bx_labels := bx_labels b; bx_dirs := bx_dirs b |}, true).
Definition box_label (f l : string) (b : Box) : Box * bool :=
  ({| bx_files := bx_files b; bx_labels := <[f := l]> (bx_labels b); bx_dirs := bx_dirs b |}, true).
Definition label_of (b : Box) (f : string) : string := default "unlabeled_t"%string (bx_labels b !! f).
Definition usual_label (f : string) : string := if HasPrefix f "/usr" then "bin_t" else "file_t".

#[local] Instance box_host : SELinuxHost Box := {
  se_Stat f b := bool_decide (is_Some (bx_files b !! f));
  se_ReadFile f b := bx_files b !! f;
  se_Create f b := box_write f "" b;
  se_Write f text b := box_write f text b;
  se_CopyFile f g b := match bx_files b !! f with
                       | Some text => box_write g text b
                       | None => (b, false)
                       end;
  se_Walk d b := ((λ e, d +:+ e.1)%string <$> default [] (bx_dirs b !! d), true);
  se_ReadDir d b := bx_dirs b !! d;
  se_chcon l f b := box_label f l b;
  se_restorecon f b := box_label f (usual_label f) b;
  se_modules b := Some ""%string;
  se_install b := (b, true);
  se_RemoveAll _ b := (b, true);
  se_MkdirAll _ b := (b, true) }.

Lemma box_label_of f l b w' :
  box_label f l b = (w', true) → ∀ g, label_of w' g = if String.eqb g f then l else label_of b g.
Proof.
  intros [= <-] g. unfold label_of. cbn. destruct (String.eqb_spec g f) as [->|].
  - by rewrite lookup_insert_eq.
  - by rewrite lookup_insert_ne.
Qed.

#[local] Instance box_law : SELinuxHostLaw label_of usual_label.
Proof.
  split; intros.
  - by eapply box_label_of.
  - by eapply box_label_of.
  - by injection H as <-.
  - by injection H as <-.
Qed.

Definition sample_path : string := "/profiles/kubearmor.host".
Definition sample_line (l : list string) : string := join tab l +:+ String newline "".
Definition sample_box : Box :=
  {| bx_files :=
       {[sample_path := sample_line ["-"; "-"; "karmor_global_block_t"; "/usr/bin/"; "false"; "true"; "false"];
         (sample_path +:+ ".old")%string :=
           sample_line ["-"; "-"; "karmor_global_none_t"; "/etc/shadow"; "false"; "false"; "false"]]}%string;
     bx_labels := {["/etc/shadow" := "karmor_global_none_t"]}%string;
     bx_dirs := {["/usr/bin/" := [("nc", false); ("X11", true)]]}%string |}.

Lemma labels_follow_profile_witness :
  let w2 := (UpdateSELinuxLabels sample_path sample_box).1 in
  label_of w2 "/usr/bin/nc" = "karmor_global_block_t"%string.
Proof.
  cbv zeta. set (w0 := (RestoreSELinuxLabels sample_path sample_box).1).
  destruct (labels_follow_profile label_of usual_label sample_path sample_box w0
    (UpdateSELinuxLabels sample_path sample_box).1) as (_ & text & Ht & Hl).
  - vm_compute. reflexivity.
  - vm_compute. reflexivity.
  - rewrite Hl. vm_compute in Ht. injection Ht as <-. vm_compute. reflexivity.
Defined.

Definition audit_posture : DefaultPosture :=
  {| dp_FileAction := "audit"; dp_NetworkAction := "audit"; dp_CapabilitiesAction := "audit" |}.

Lemma host_profile_parsed_witness :
  ln_ObjectLabel <$> lines (host_profile [sample_host_policy] audit_posture).2
  = ["karmor_audit_nuri_block_t"]%string.
Proof.
  assert (H := host_profile_parsed [sample_host_policy] audit_posture).
  destruct (kept_rules (host_lists [sample_host_policy])) as [[n G] L] eqn:E.
  destruct H as [_ ->].
  - intros i Hi. apply list_elem_of_In in Hi. destruct Hi as [<-|[<-|[]]]; (split; [reflexivity|]);
      intros s Hs; apply list_elem_of_In in Hs; destruct Hs as [<-|[]]; reflexivity.
  - reflexivity.
  - vm_compute in E. injection E as _ HG HL. subst. vm_compute. reflexivity.
Defined.

End witnesses.
