(* ===== verification/AppArmorEnforcer.v ===== *)
(** The AppArmor enforcer ([KubeArmor/enforcer/appArmorEnforcer.go] and
    [apparmorContainerProfile.go]): the profiles of pods and of the host in
    [/etc/apparmor.d], their registration and their updates.

    The operating system is behind the class [AppArmorHost]: files, the processes and the
    commands.  An operation that can fail gives [false].  The text template and the
    regular expression of profile headers are arguments, as for the generator. *)
From Stdlib Require Import Ascii String.
From S2P Require Import Prelude GoStrings GoPath Types Common AppArmor RuntimeEnforcer SELinux.

Open Scope string_scope.

(** ** Texts *)

(** [strings.Replace(s, old, new, -1)], for an [old] that is not empty *)
Fixpoint replace_from (skip : nat) (old new s : string) : string :=
  match s with
  | EmptyString => ""
  | String c s' =>
      match skip with
      | S skip => replace_from skip old new s'
      | O => if HasPrefix s old then new +:+ replace_from (String.length old - 1) old new s'
             else String c (replace_from O old new s')
      end
  end.
Definition Replace (s old new : string) : string := replace_from O old new s.

Definition AppArmorDefaultPreStart : string := "

#include <abstractions/base>
umount,
file,
network,
capability,

".

Definition AppArmorPrivilegedPreStart : string := AppArmorDefaultPreStart +:+ "

## == For privileged workloads == ##
mount,
signal,
unix,
ptrace,

".

Definition AppArmorPrivilegedPostStart : string := "

/lib/x86_64-linux-gnu/{*,**} rm,

deny @{PROC}/{*,**^[0-9*],sys/kernel/shm*} wkx,
deny @{PROC}/sysrq-trigger rwklx,
deny @{PROC}/mem rwklx,
deny @{PROC}/kmem rwklx,
deny @{PROC}/kcore rwklx,

deny /sys/[^f]*/** wklx,
deny /sys/f[^s]*/** wklx,
deny /sys/fs/[^c]*/** wklx,
deny /sys/fs/c[^g]*/** wklx,
deny /sys/fs/cg[^r]*/** wklx,
deny /sys/firmware/efi/efivars/** rwklx,
deny /sys/kernel/security/** rwklx,

".

Definition AppArmorDefaultPostStart : string := AppArmorPrivilegedPostStart +:+ "

deny mount,

".

Definition default_text (pre post : string) : string := "## == Managed by KubeArmor == ##
#include <tunables/global>

profile apparmor-default flags=(attach_disconnected,mediate_deleted) {
## == PRE START == ##
" +:+ pre +:+ "
## == PRE END == ##

## == POLICY START == ##
## == POLICY END == ##

## == POST START == ##
" +:+ post +:+ "
## == POST END == ##
}
".

Definition ApparmorDefault : string := default_text AppArmorDefaultPreStart AppArmorDefaultPostStart.
Definition ApparmorDefaultPrivileged : string :=
  default_text AppArmorPrivilegedPreStart AppArmorPrivilegedPostStart.

Definition apparmorHostDefault : string := "## == Managed by KubeArmor == ##
#include <tunables/global>

profile kubearmor.host /{usr/,}bin/*sh flags=(attach_disconnected,mediate_deleted) {
## == PRE START == ##
#include <abstractions/base>
mount,
umount,
signal,
unix,
ptrace,
dbus,

file,
network,
capability,
## == PRE END == ##

## == POLICY START == ##
## == POLICY END == ##
}
".

Definition new_profile (profileName : string) (is_privileged : bool) : string :=
  Replace (if is_privileged then ApparmorDefaultPrivileged else ApparmorDefault)
    "apparmor-default" profileName.

(** ** The operating system *)

Class AppArmorHost (W : Type) := {
  aa_Exists : string → W → bool;                    (* [os.Stat] gives no error *)
  aa_NotExist : string → W → bool;                  (* it says that there is no file *)
  aa_ReadFile : string → W → option string;
  aa_Create : string → W → W * bool;
  aa_Write : string → string → W → W * bool;        (* WriteString, Sync and Close *)
  aa_Truncate : string → W → W * bool;
  aa_Remove : string → W → W * bool;
  aa_load : string → W → W * bool;                  (* [apparmor_parser -r -W] *)
  aa_unload : string → W → W * bool;                (* [apparmor_parser -R] on a file *)
  aa_unload_headers : list string → W → W * bool;   (* and on the headers of profiles *)
  aa_disable : string → W → W * bool;
  aa_enforce : string → W → W * bool;
  aa_remove_unknown : W → W * bool;
  aa_ReadDir : W → option (list (string * bool));   (* names, and whether they are regular *)
  aa_attrs : W → list string }.                     (* attr/current of the processes *)

(** ** The enforcer *)

Record AppArmorEnforcer (W : Type) := {
  ae_w : W;
  ae_HostProfile : string;
  ae_AppArmorProfiles : gmap string (list string);
  ae_AppArmorPrivilegedProfiles : gset string }.
Arguments ae_w {W}.
Arguments ae_HostProfile {W}.
Arguments ae_AppArmorProfiles {W}.
Arguments ae_AppArmorPrivilegedProfiles {W}.

Definition aa_dir : string := "/etc/apparmor.d/".
Definition appArmorHostFile : string := "/etc/apparmor.d/kubearmor.host".

Fixpoint remove_pod_name (podName : string) (l : list string) : list string :=
  match l with
  | [] => []
  | p :: l' => if String.eqb p podName then l' else p :: remove_pod_name podName l'
  end.

Section enforcer.
Context `{R : GoRange} {W : Type} `{AH : !AppArmorHost W}.
(** [cfg.GlobalCfg], the template's [Execute] and the search for headers *)
Context (HostPolicy K8sEnv : bool) (hostPosture : DefaultPosture).
Context (Execute : Profile → option string) (FindAllString : string → list string).
(** The codecs under [kl.Clone] for the parts of a host policy *)
Context (CloneProcess : ProcessType → option ProcessType) (CloneFile : FileType → option FileType)
  (CloneNetwork : NetworkType → option NetworkType)
  (CloneCapabilities : CapabilitiesType → option CapabilitiesType)
  (CloneSyscalls : SyscallsType → option SyscallsType).

Abbreviation AE := (AppArmorEnforcer W).
Implicit Types (ae : AE).

Definition set_ae_w (w : W) ae : AE :=
  {| ae_w := w; ae_HostProfile := ae_HostProfile ae;
     ae_AppArmorProfiles := ae_AppArmorProfiles ae;
     ae_AppArmorPrivilegedProfiles := ae_AppArmorPrivilegedProfiles ae |}.
Definition set_ae_profiles (m : gmap string (list string)) ae : AE :=
  {| ae_w := ae_w ae; ae_HostProfile := ae_HostProfile ae; ae_AppArmorProfiles := m;
     ae_AppArmorPrivilegedProfiles := ae_AppArmorPrivilegedProfiles ae |}.
Definition add_privileged (profileName : string) ae : AE :=
  {| ae_w := ae_w ae; ae_HostProfile := ae_HostProfile ae;
     ae_AppArmorProfiles := ae_AppArmorProfiles ae;
     ae_AppArmorPrivilegedProfiles := {[profileName]} ∪ ae_AppArmorPrivilegedProfiles ae |}.
Definition set_ae_host (text : string) ae : AE :=
  {| ae_w := ae_w ae; ae_HostProfile := text; ae_AppArmorProfiles := ae_AppArmorProfiles ae;
     ae_AppArmorPrivilegedProfiles := ae_AppArmorPrivilegedProfiles ae |}.

(** An operation on the system *)
Definition aa_run (f : W → W * bool) ae : AE * bool :=
  let '(w, ok) := f (ae_w ae) in (set_ae_w w ae, ok).

(** Operations one after the other, up to the first that fails *)
Fixpoint aa_all (fs : list (W → W * bool)) ae : AE * bool :=
  match fs with
  | [] => (ae, true)
  | f :: fs => let '(ae, ok) := aa_run f ae in if ok then aa_all fs ae else (ae, false)
  end.

(** Creates a file with the text and loads it *)
Definition write_and_load (file text : string) : list (W → W * bool) :=
  [aa_Create (Clean file); aa_Write (Clean file) text; aa_load file].

(** *** Profiles of pods *)

(** Whether there is a file that is not KubeArmor's, or that can not be read *)
Definition out_of_control (file : string) (w : W) : bool :=
  match aa_ReadFile file w with
  | None => true
  | Some content => negb (Contains content "KubeArmor")
  end.

Definition RegisterAppArmorProfile (podName profileName : string) (is_privileged : bool) ae
    : AE * bool :=
  let file := Clean (aa_dir +:+ profileName) in
  if aa_Exists file (ae_w ae) && out_of_control file (ae_w ae) then (ae, false)
  else match ae_AppArmorProfiles ae !! profileName with
       | Some pods =>
           (if ContainsElement pods podName then ae
            else set_ae_profiles (<[profileName := (pods ++ [podName])%list]>
                                    (ae_AppArmorProfiles ae)) ae, true)
       | None =>
           let ae := if is_privileged then add_privileged profileName ae else ae in
           let '(ae, ok) := aa_all (write_and_load (aa_dir +:+ profileName)
                                      (new_profile profileName is_privileged)) ae in
           if ok then (set_ae_profiles (<[profileName := [podName]]> (ae_AppArmorProfiles ae)) ae,
                       true)
           else (ae, false)
       end.

(** With the name of a pod only the list of pods changes. *)
Definition UnregisterAppArmorProfile (podName profileName : string) (is_privileged : bool) ae
    : AE * bool :=
  let file := Clean (aa_dir +:+ profileName) in
  if negb (String.eqb podName "") then
    match ae_AppArmorProfiles ae !! profileName with
    | Some pods =>
        (set_ae_profiles (<[profileName := remove_pod_name podName pods]>
                            (ae_AppArmorProfiles ae)) ae, true)
    | None => (ae, false)
    end
  else if negb (aa_Exists file (ae_w ae)) || out_of_control file (ae_w ae) then (ae, false)
  else
    let '(ae, ok) := aa_all (write_and_load (aa_dir +:+ profileName)
                               (new_profile profileName is_privileged)) ae in
    if ok then (set_ae_profiles (delete profileName (ae_AppArmorProfiles ae)) ae, true)
    else (ae, false).

(** *** The host's profile *)

Definition ClearKubeArmorHostFile (fileName : string) ae : AE := (aa_run (aa_Truncate fileName) ae).1.

Definition CreateAppArmorHostProfile ae : AE * bool :=
  let '(ae, ok) := aa_all [aa_Create (Clean appArmorHostFile);
                           aa_Write (Clean appArmorHostFile) apparmorHostDefault] ae in
  if ok then (set_ae_host apparmorHostDefault ae, true) else (ae, false).

Definition RegisterAppArmorHostProfile ae : AE * bool :=
  let '(ae, ok) := CreateAppArmorHostProfile ae in
  if negb ok then (ae, false)
  else
    let '(ae, ok) := aa_run (aa_load appArmorHostFile) ae in
    if negb ok then (ae, false) else (ClearKubeArmorHostFile appArmorHostFile ae, true).

Definition UnregisterAppArmorHostProfile ae : AE * bool :=
  let '(ae, ok) := aa_run aa_remove_unknown ae in
  if ok then (ae, true)
  else
    let '(ae, ok) := CreateAppArmorHostProfile ae in
    if negb ok then ((aa_run (aa_Remove appArmorHostFile) ae).1, false)
    else
      let '(ae, ok) := aa_run (aa_load appArmorHostFile) ae in
      let ae := if ok then ae else (aa_run (aa_Remove appArmorHostFile) ae).1 in
      aa_run (aa_Remove appArmorHostFile) ae.

(** *** Updates *)

Definition generate (appArmorProfile : string) (securityPolicies : list SecurityPolicy)
    (dp : DefaultPosture) (is_privileged : bool) (w : W) : GenResult :=
  GenerateAppArmorProfile (λ f, aa_NotExist f w) (λ f, aa_ReadFile f w) Execute FindAllString
    appArmorProfile securityPolicies dp is_privileged.

(** Profiles that the new text lacks are unloaded, whether that works or not. *)
Definition unload_old (headers : list string) ae : AE :=
  match headers with [] => ae | _ => (aa_run (aa_unload_headers headers) ae).1 end.

Definition bad_profile_name (s : string) : bool :=
  Contains s "/" || Contains s "\" || Contains s "..".

Definition UpdateAppArmorProfile (endPoint : EndPoint) (appArmorProfile : string)
    (securityPolicies : list SecurityPolicy) ae : AE :=
  let is_privileged := bool_decide (appArmorProfile ∈ ae_AppArmorPrivilegedProfiles ae) in
  match generate appArmorProfile securityPolicies (ep_DefaultPosture endPoint) is_privileged
          (ae_w ae) with
  | GenNew _ newProfile headers =>
      let ae := unload_old headers ae in
      if bad_profile_name appArmorProfile then ae
      else (aa_all (write_and_load (aa_dir +:+ appArmorProfile) newProfile
                    ++ (if K8sEnv then [aa_disable (aa_dir +:+ appArmorProfile);
                                        aa_enforce (aa_dir +:+ appArmorProfile)] else []))%list
              ae).1
  | _ => ae
  end.

Definition other_profiles : list string :=
  ["docker-default"; "unconfined"; "cri-containerd.apparmor.d"; "crio-default"; ""].

Fixpoint own_profiles (seen l : list string) : list string :=
  match l with
  | [] => seen
  | p :: l' => own_profiles (if ContainsElement other_profiles p || ContainsElement seen p
                             then seen else (seen ++ [p])%list) l'
  end.

Definition aa_UpdateSecurityPolicies (endPoint : EndPoint) ae : AE :=
  let policies := if (ep_PolicyEnabled endPoint =? KubeArmorPolicyEnabled)%Z
                  then ep_SecurityPolicies endPoint else [] in
  foldl (λ ae p, UpdateAppArmorProfile endPoint p policies ae) ae
    (own_profiles [] (ep_AppArmorProfiles endPoint)).

(** The parts that can not be cloned are left out. *)
Definition host_policy (p : HostSecurityPolicy) : SecurityPolicy :=
  let s := hp_Spec p in
  {| sp_Metadata := ∅;
     sp_Spec := {| ss_Selector := empty_SelectorType;
       ss_Process := default empty_ProcessType (CloneProcess (hs_Process s));
       ss_File := default empty_FileType (CloneFile (hs_File s));
       ss_Network := default empty_NetworkType (CloneNetwork (hs_Network s));
       ss_Capabilities := default empty_CapabilitiesType (CloneCapabilities (hs_Capabilities s));
       ss_Syscalls := default empty_SyscallsType (CloneSyscalls (hs_Syscalls s));
       ss_Presets := []; ss_AppArmor := ""; ss_Severity := 0; ss_Tags := []; ss_Message := "";
       ss_Action := "" |} |}.

Definition host_profile_name : string := "kubearmor.host /{usr/,}bin/*sh".

Definition UpdateAppArmorHostProfile (secPolicies : list HostSecurityPolicy) ae : AE :=
  match generate host_profile_name (host_policy <$> secPolicies) hostPosture true (ae_w ae) with
  | GenNew _ newProfile headers =>
      let '(ae, ok) := aa_all (write_and_load appArmorHostFile newProfile) (unload_old headers ae) in
      if ok then ClearKubeArmorHostFile appArmorHostFile ae else ae
  | _ => ae
  end.

Definition aa_UpdateHostSecurityPolicies (secPolicies : list HostSecurityPolicy) ae : AE :=
  UpdateAppArmorHostProfile (if HostPolicy then secPolicies else []) ae.

(** *** Start and end *)

(** The profiles that processes run under *)
Definition running_profiles (w : W) : list string :=
  foldl (λ l content,
    let line := default "" (head (split newline content)) in
    let name := default "" (head (split " "%char line)) in
    if ContainsElement l name then l else (l ++ [name])%list) [] (aa_attrs w).

(** Files of KubeArmor that no process needs are removed. *)
Definition remove_inactive (existingProfiles : list string) ae (file : string * bool) : AE :=
  let '(fileName, regular) := file in
  if negb regular then ae
  else match aa_ReadFile (Clean (aa_dir +:+ fileName)) (ae_w ae) with
       | None => ae
       | Some str =>
           if Contains str "KubeArmor" && negb (ContainsElement existingProfiles fileName) then
             (aa_all [aa_unload (aa_dir +:+ fileName); aa_Remove (Clean (aa_dir +:+ fileName))] ae).1
           else ae
       end.

(** [None] where the constructor gives [nil] *)
Definition NewAppArmorEnforcer (w : W) : W * option AE :=
  let ae := {| ae_w := w; ae_HostProfile := ""; ae_AppArmorProfiles := ∅;
               ae_AppArmorPrivilegedProfiles := ∅ |} in
  match aa_ReadDir w with
  | None => (w, None)
  | Some files =>
      let ae := foldl (remove_inactive (running_profiles w)) ae files in
      if HostPolicy then
        let '(ae, ok) := RegisterAppArmorHostProfile ae in
        (ae_w ae, if ok then Some ae else None)
      else (ae_w ae, Some ae)
  end.

Definition DestroyAppArmorEnforcer ae : AE :=
  let ae := foldl (λ ae profile,
              (UnregisterAppArmorProfile "" profile
                 (bool_decide (profile ∈ ae_AppArmorPrivilegedProfiles ae)) ae).1)
              ae (go_range (ae_AppArmorProfiles ae)).*1 in
  if HostPolicy then (UnregisterAppArmorHostProfile ae).1 else ae.

(** ** What the dispatcher uses *)

Definition AppArmorEnforcer_ops : AppArmorOps AE := {|
  ao_RegisterAppArmorProfile := λ podName profile priv ae,
    (RegisterAppArmorProfile podName profile priv ae).1;
  ao_UnregisterAppArmorProfile := λ podName profile priv ae,
    (UnregisterAppArmorProfile podName profile priv ae).1;
  ao_UpdateSecurityPolicies := λ ep ae, Ok (aa_UpdateSecurityPolicies ep ae);
  ao_UpdateHostSecurityPolicies := λ l ae, Ok (aa_UpdateHostSecurityPolicies l ae);
  ao_Destroy := λ ae, (DestroyAppArmorEnforcer ae, None) |}.
End enforcer.

Section selinux.
Context `{R : GoRange} {W : Type} `{SH : !SELinuxHost W}.
Context (SELinuxProfileDir : string) (HostPolicy : bool) (hostPosture : DefaultPosture).

Definition SELinuxEnforcer_ops : SELinuxOps W := {|
  so_UpdateHostSecurityPolicies := λ l w,
    Ok (selinux_UpdateHostSecurityPolicies SELinuxProfileDir HostPolicy hostPosture l w);
  so_Destroy := λ w, (DestroySELinuxEnforcer SELinuxProfileDir HostPolicy w, None) |}.
End selinux.
