(* ===== verification/AppArmorEnforcerProps.v ===== *)
(** The AppArmor enforcer: the files that an update leaves, and profiles that are not
    KubeArmor's. *)
From Stdlib Require Import Ascii String.
From S2P Require Import Prelude GoStrings GoPath Types Common AppArmor RuntimeEnforcer SELinux AppArmorEnforcer.

Open Scope string_scope.
Open Scope list_scope.

(** ** Names of profiles *)

(** Plain file names other than those of the host's profile *)
Definition valid_name (p : string) : bool :=
  plain p && negb (bad_profile_name p) && negb (Contains p "kubearmor.host").

Lemma Clean_profile p : plain p = true → Clean (aa_dir +:+ p) = aa_dir +:+ p.
Proof.
  intros Hp. assert (Hs : split slash (aa_dir +:+ p) = [""; "etc"; "apparmor.d"; p]%string).
  { change (aa_dir +:+ p) with ("" +:+ String slash ("etc" +:+ String slash
      ("apparmor.d" +:+ String slash p)))%string.
    rewrite !split_app_sep, (split_no_sep slash p) by by apply plain_no_slash. done. }
  unfold Clean. rewrite Hs. change (HasPrefix (aa_dir +:+ p) "/") with true.
  change (foldl (clean_step true) [] [""; "etc"; "apparmor.d"; p]%string)
    with (foldl (clean_step true) ["apparmor.d"; "etc"]%string [p]).
  rewrite clean_plain by by repeat constructor. done.
Qed.

Lemma profile_file_plain p : plain p = true → profile_file p = (aa_dir +:+ p)%string.
Proof.
  unfold plain, profile_file. rewrite negb_true_iff, !orb_false_iff.
  intros [[[H1 H2] _] _]. by rewrite H1, H2.
Qed.

Lemma profile_path_inj p q : (aa_dir +:+ p = aa_dir +:+ q)%string → p = q.
Proof. by intros [= H]. Qed.

Section updates.
Context `{R : GoRange} {W : Type} `{AH : !AppArmorHost W}.
Context (K8sEnv : bool) (Execute : Profile → option string) (FindAllString : string → list string).
Implicit Types (ae : AppArmorEnforcer W) (w : W) (p f : string).

Definition same_files w w' : Prop :=
  ∀ f, aa_ReadFile f w' = aa_ReadFile f w ∧ aa_NotExist f w' = aa_NotExist f w.
Definition other_files f w w' : Prop :=
  ∀ g, g ≠ f → aa_ReadFile g w' = aa_ReadFile g w ∧ aa_NotExist g w' = aa_NotExist g w.

(** What the kernel has of a file: the text that it was last loaded with, unless a profile
    of it has been unloaded or replaced since. *)
Context (loaded : string → W → option string).

Definition same_loaded w w' : Prop := ∀ f, loaded f w' = loaded f w.

(** Profiles with the headers [l] may be unloaded or replaced: that leaves the texts
    without such headers, those of [f] aside. *)
Definition clear_of (l : list string) (t : string) : Prop := ∀ h, h ∈ l → h ∉ FindAllString t.
Definition loaded_but (f : string) (l : list string) w w' : Prop :=
  ∀ g t, g ≠ f → loaded g w = Some t → clear_of l t → loaded g w' = Some t.

(** A system where nothing fails: files can be written and read again, the commands leave
    them, and [apparmor_parser -r] and [aa-enforce] load a file's text. *)
Class AppArmorHostLaw : Prop := {
  create_ok : ∀ f w, ∃ w', aa_Create f w = (w', true) ∧ other_files f w w' ∧ same_loaded w w';
  write_ok : ∀ f t w, ∃ w', aa_Write f t w = (w', true) ∧ other_files f w w'
    ∧ aa_ReadFile f w' = Some t ∧ aa_NotExist f w' = false ∧ same_loaded w w';
  load_ok : ∀ f t w, aa_ReadFile f w = Some t → ∃ w', aa_load f w = (w', true)
    ∧ same_files w w' ∧ loaded f w' = Some t ∧ loaded_but f (FindAllString t) w w';
  disable_ok : ∀ f t w, aa_ReadFile f w = Some t → ∃ w', aa_disable f w = (w', true)
    ∧ same_files w w' ∧ loaded_but f (FindAllString t) w w';
  enforce_ok : ∀ f t w, aa_ReadFile f w = Some t → ∃ w', aa_enforce f w = (w', true)
    ∧ same_files w w' ∧ loaded f w' = Some t ∧ loaded_but f (FindAllString t) w w';
  unload_ok : ∀ l w, let w' := (aa_unload_headers l w).1 in
    same_files w w' ∧ ∀ f, loaded_but f l w w' }.
Context `{AL : !AppArmorHostLaw}.

Lemma same_files_trans w1 w2 w3 : same_files w1 w2 → same_files w2 w3 → same_files w1 w3.
Proof. intros H H' f. destruct (H f), (H' f). split; congruence. Qed.

(** The text of a profile for some policies *)
Definition rendered p (policies : list SecurityPolicy) (dp : DefaultPosture) (priv : bool)
    : option string :=
  let body := (GenerateProfileBody policies dp priv).2 in
  Execute {| p_Name := p; p_ProfileHeader := p_ProfileHeader body; p_Rules := p_Rules body;
             p_FromSource := p_FromSource body; p_NativeRules := p_NativeRules body |}.

Lemma loaded_but_trans f l w1 w2 w3 :
  loaded_but f l w1 w2 → loaded_but f l w2 w3 → loaded_but f l w1 w3.
Proof. intros H H' g t Hg Hl Hc. apply H'; [done| |done]. by apply H. Qed.

Lemma same_loaded_but f l w1 w2 w3 :
  same_loaded w1 w2 → loaded_but f l w2 w3 → loaded_but f l w1 w3.
Proof. intros H H' g t Hg Hl Hc. apply H'; [done| |done]. by rewrite H. Qed.

Definition exists_file f w : Prop := aa_NotExist f w = false ∧ is_Some (aa_ReadFile f w).

Lemma generate_text p policies dp priv w text :
  valid_name p = true → exists_file (aa_dir +:+ p) w → rendered p policies dp priv = Some text →
  generate Execute FindAllString p policies dp priv w = GenSame
    ∧ aa_ReadFile (aa_dir +:+ p) w = Some text
  ∨ ∃ n headers, generate Execute FindAllString p policies dp priv w = GenNew n text headers
    ∧ ∃ old, aa_ReadFile (aa_dir +:+ p) w = Some old
    ∧ ∀ h, h ∈ headers → h ∈ FindAllString old.
Proof.
  unfold valid_name. rewrite !andb_true_iff, !negb_true_iff. intros [[Hp Hb] Hh] [Hne [old Hr]] Ht.
  unfold generate, GenerateAppArmorProfile, old_profile. rewrite Hh.
  unfold bad_profile_name in Hb. rewrite Hb. rewrite profile_file_plain by done.
  unfold read_old. rewrite Hne, Hr. unfold rendered in Ht.
  destruct (GenerateProfileBody policies dp priv) as [n body]. cbn [snd] in Ht. rewrite Ht.
  destruct (String.eqb_spec text old) as [->|]; [by left|right].
  eexists _, _. split; [done|]. exists old. split; [done|]. intros h [_ ?]%list_elem_of_filter. done.
Qed.

(** Writing and loading a profile *)
Lemma write_and_load_ok p text ae :
  plain p = true →
  let f := (aa_dir +:+ p)%string in
  let fs := write_and_load f text ++ (if K8sEnv then [aa_disable f; aa_enforce f] else []) in
  ∃ w', (aa_all fs ae) = (set_ae_w w' ae, true) ∧ other_files f (ae_w ae) w'
    ∧ aa_ReadFile f w' = Some text ∧ aa_NotExist f w' = false
    ∧ loaded f w' = Some text ∧ loaded_but f (FindAllString text) (ae_w ae) w'.
Proof.
  intros Hp. cbv zeta. unfold write_and_load. rewrite Clean_profile by done.
  set (f := (aa_dir +:+ p)%string).
  destruct (create_ok f (ae_w ae)) as (w1 & H1 & O1 & E1).
  destruct (write_ok f text w1) as (w2 & H2 & O2 & Hr & Hn & E2).
  destruct (load_ok f text w2 Hr) as (w3 & H3 & S3 & L3 & B3).
  assert (Hkeep : ∀ w', same_files w2 w' → loaded f w' = Some text →
    loaded_but f (FindAllString text) w2 w' →
    other_files f (ae_w ae) w' ∧ aa_ReadFile f w' = Some text ∧ aa_NotExist f w' = false
    ∧ loaded f w' = Some text ∧ loaded_but f (FindAllString text) (ae_w ae) w').
  { intros w' Hs Hl Hb. split; [|destruct (Hs f); split_and!; try congruence].
    - intros g Hg. destruct (Hs g), (O2 g Hg), (O1 g Hg). split; congruence.
    - eapply same_loaded_but; [exact E1|]. eapply same_loaded_but; [exact E2|exact Hb]. }
  cbn [app aa_all]. unfold aa_run. rewrite H1. cbn [ae_w set_ae_w]. rewrite H2.
  cbn [ae_w set_ae_w]. rewrite H3. cbn [ae_w set_ae_w]. destruct K8sEnv; cbn [aa_all].
  - assert (Hr3 : aa_ReadFile f w3 = Some text) by (by destruct (S3 f) as [-> _]).
    destruct (disable_ok f text w3 Hr3) as (w4 & H4 & S4 & B4).
    assert (Hr4 : aa_ReadFile f w4 = Some text) by (by destruct (S4 f) as [-> _]).
    destruct (enforce_ok f text w4 Hr4) as (w5 & H5 & S5 & L5 & B5).
    unfold aa_run. cbn [ae_w set_ae_w]. rewrite H4. cbn [ae_w set_ae_w]. rewrite H5.
    exists w5. split; [done|].
    apply Hkeep; [by do 2 (eapply same_files_trans; [done|])|done|].
    by do 2 (eapply loaded_but_trans; [done|]).
  - exists w3. split; [done|]. by apply Hkeep.
Qed.

(** What an update of one profile does: [up_loaded] where an unchanged file is loaded *)
Record updated (p : string) (text : string) ae ae' : Prop := {
  up_text : aa_ReadFile (aa_dir +:+ p) (ae_w ae') = Some text;
  up_exists : aa_NotExist (aa_dir +:+ p) (ae_w ae') = false;
  up_others : other_files (aa_dir +:+ p) (ae_w ae) (ae_w ae');
  up_loaded : (aa_ReadFile (aa_dir +:+ p) (ae_w ae) = Some text →
               loaded (aa_dir +:+ p) (ae_w ae) = Some text) →
    loaded (aa_dir +:+ p) (ae_w ae') = Some text;
  up_kept g t old : g ≠ (aa_dir +:+ p)%string → loaded g (ae_w ae) = Some t →
    aa_ReadFile (aa_dir +:+ p) (ae_w ae) = Some old →
    clear_of (FindAllString old) t → clear_of (FindAllString text) t →
    loaded g (ae_w ae') = Some t;
  up_profiles : ae_AppArmorProfiles ae' = ae_AppArmorProfiles ae;
  up_privileged : ae_AppArmorPrivilegedProfiles ae' = ae_AppArmorPrivilegedProfiles ae }.

Definition is_priv ae p : bool := bool_decide (p ∈ ae_AppArmorPrivilegedProfiles ae).

Lemma unload_old_ok headers ae :
  ∃ w, unload_old headers ae = set_ae_w w ae ∧ same_files (ae_w ae) w
  ∧ ∀ f, loaded_but f headers (ae_w ae) w.
Proof.
  unfold unload_old, aa_run. destruct headers as [|h hs].
  - exists (ae_w ae). split_and!; [by destruct ae|done|by intros f g].
  - pose proof (unload_ok (h :: hs) (ae_w ae)) as [Hs Hl].
    destruct (aa_unload_headers _ _) as [w1 b]. exists w1. by split_and!.
Qed.

Lemma update_profile_ok ep p policies ae text :
  valid_name p = true → exists_file (aa_dir +:+ p) (ae_w ae) →
  rendered p policies (ep_DefaultPosture ep) (is_priv ae p) = Some text →
  updated p text ae (UpdateAppArmorProfile K8sEnv Execute FindAllString ep p policies ae).
Proof.
  intros Hv He Ht. unfold UpdateAppArmorProfile. fold (is_priv ae p).
  destruct (generate_text _ _ _ _ _ _ Hv He Ht)
    as [[-> Hr]|(n & headers & -> & old & Hold & Hh)].
  - split; try done; [apply He|by auto].
  - pose proof Hv as Hv'. unfold valid_name in Hv'.
    rewrite !andb_true_iff, !negb_true_iff in Hv'. destruct Hv' as [[Hp Hb] _]. rewrite Hb.
    destruct (unload_old_ok headers ae) as (w1 & -> & Hs & Hun).
    destruct (write_and_load_ok p text (set_ae_w w1 ae) Hp) as (w' & -> & Ho & Hr & Hn & Hl & Hk).
    split; try done.
    + intros g Hg. destruct (Ho g Hg), (Hs g). cbn in *. split; congruence.
    + intros g t old' Hg Hlg Hold' Hc1 Hc2. apply Hk; [done| |done]. cbn [ae_w set_ae_w].
      apply (Hun (aa_dir +:+ p)%string); [done..|]. rewrite Hold in Hold'. injection Hold' as <-.
      intros h Hin. by apply Hc1, Hh.
Qed.

Lemma own_profiles_elem l seen p :
  p ∈ own_profiles seen l ↔ p ∈ seen ∨ p ∈ l ∧ p ∉ other_profiles.
Proof.
  revert seen. induction l as [|q l IH]; intros seen; cbn [own_profiles].
  { rewrite elem_of_nil. tauto. }
  rewrite IH, elem_of_cons. unfold ContainsElement.
  destruct (bool_decide (q ∈ other_profiles)) eqn:Ho; [|destruct (bool_decide (q ∈ seen)) eqn:Hs];
    rewrite ?bool_decide_eq_true, ?bool_decide_eq_false in *; cbn [orb];
    rewrite ?elem_of_app, ?list_elem_of_singleton; naive_solver.
Qed.

Lemma updates_ok ep policies l ae :
  (∀ p, p ∈ l → valid_name p = true ∧ exists_file (aa_dir +:+ p) (ae_w ae)
     ∧ is_Some (rendered p policies (ep_DefaultPosture ep) (is_priv ae p))) →
  let ae' := foldl (λ ae p, UpdateAppArmorProfile K8sEnv Execute FindAllString ep p policies ae) ae l in
  (∀ p, p ∈ l → aa_ReadFile (aa_dir +:+ p) (ae_w ae')
                = rendered p policies (ep_DefaultPosture ep) (is_priv ae p))
  ∧ (∀ f, (∀ p, p ∈ l → f ≠ (aa_dir +:+ p)%string) →
       aa_ReadFile f (ae_w ae') = aa_ReadFile f (ae_w ae)
       ∧ aa_NotExist f (ae_w ae') = aa_NotExist f (ae_w ae))
  ∧ (∀ p, p ∈ l → aa_NotExist (aa_dir +:+ p) (ae_w ae') = false)
  ∧ ae_AppArmorProfiles ae' = ae_AppArmorProfiles ae
  ∧ ae_AppArmorPrivilegedProfiles ae' = ae_AppArmorPrivilegedProfiles ae.
Proof.
  cbv zeta. induction l as [|p l IH] using rev_ind; intros Hl.
  { cbn. split_and!; try done; intros p Hp; by apply elem_of_nil in Hp. }
  rewrite foldl_snoc. destruct IH as (Hr & Hf & Hn & Hp & Hpr).
  { intros q Hq. apply Hl. apply elem_of_app. by left. }
  set (ae1 := foldl _ ae l) in *.
  destruct (Hl p) as (Hv & [He1 He2] & [text Ht]); [apply elem_of_app; right; left|].
  assert (Hex : exists_file (aa_dir +:+ p) (ae_w ae1)).
  { destruct (decide (p ∈ l)) as [Hin|Hin].
    - split; [by apply Hn|]. rewrite (Hr p Hin), Ht. done.
    - destruct (Hf (aa_dir +:+ p)%string) as [Hfr Hfn].
      + intros q Hq ->%profile_path_inj. done.
      + split; [by rewrite Hfn|by rewrite Hfr]. }
  assert (Hpv : ∀ q, is_priv ae1 q = is_priv ae q) by (intros q; unfold is_priv; by rewrite Hpr).
  destruct (update_profile_ok ep p policies ae1 text Hv Hex) as [Ut Ue Uo Up Uv];
    [by rewrite Hpv|].
  set (ae2 := UpdateAppArmorProfile _ _ _ _ _ _ ae1) in *. split_and!; try congruence.
  - intros q Hq. destruct (decide (q = p)) as [->|Hqp]; [by rewrite Ut, Ht|].
    apply elem_of_app in Hq as [Hq|Hq%list_elem_of_singleton]; [|done].
    destruct (Uo (aa_dir +:+ q)%string) as [-> _]; [by intros ?%profile_path_inj|by apply Hr].
  - intros f Hfl. destruct (Uo f) as [-> ->].
    + apply Hfl. apply elem_of_app. right. left.
    + apply Hf. intros q Hq. apply Hfl. apply elem_of_app. by left.
  - intros q Hq. destruct (decide (q = p)) as [->|Hqp]; [done|].
    apply elem_of_app in Hq as [Hq|Hq%list_elem_of_singleton]; [|done].
    destruct (Uo (aa_dir +:+ q)%string) as [_ ->]; [by intros ?%profile_path_inj|by apply Hn].
Qed.

(** The policies that the enforcer goes by: none, if the endpoint's are not enabled *)
Definition enabled_policies (ep : EndPoint) : list SecurityPolicy :=
  if (ep_PolicyEnabled ep =? KubeArmorPolicyEnabled)%Z then ep_SecurityPolicies ep else [].

(** The profiles whose headers are in the texts are the ones the kernel knows by them: a
    header of one profile's new text is in neither text of another. *)
Definition apart_profiles (text : string → option string) (l : list string) w : Prop :=
  ∀ p q t t', p ∈ l → q ∈ l → p ≠ q → text p = Some t →
    aa_ReadFile (aa_dir +:+ q) w = Some t' ∨ text q = Some t' → clear_of (FindAllString t') t.

(** A file that holds the new text already is loaded. *)
Definition current_loaded (text : string → option string) (l : list string) w : Prop :=
  ∀ p t, p ∈ l → text p = Some t → aa_ReadFile (aa_dir +:+ p) w = Some t →
    loaded (aa_dir +:+ p) w = Some t.

Lemma updates_loaded ep policies (all l : list string) ae :
  let text p := rendered p policies (ep_DefaultPosture ep) (is_priv ae p) in
  (∀ p, p ∈ all → valid_name p = true ∧ exists_file (aa_dir +:+ p) (ae_w ae) ∧ is_Some (text p)) →
  l ⊆ all → apart_profiles text all (ae_w ae) → current_loaded text all (ae_w ae) →
  current_loaded text all
    (ae_w (foldl (λ ae p, UpdateAppArmorProfile K8sEnv Execute FindAllString ep p policies ae) ae l)).
Proof.
  intros text Hall Hl Hapart Hcur. induction l as [|p l IH] using rev_ind; [done|].
  rewrite foldl_snoc.
  assert (Hsub : l ⊆ all) by (intros q Hq; apply Hl, elem_of_app; by left).
  destruct (updates_ok ep policies l ae) as (Hr & Hf & Hn & _ & Hpr); [auto|].
  specialize (IH Hsub). set (ae1 := foldl _ ae l) in *.
  assert (Hp : p ∈ all) by (apply Hl, elem_of_app; right; left).
  assert (Hsame : ∀ q, q ∈ all →
    aa_ReadFile (aa_dir +:+ q) (ae_w ae1) = text q
    ∨ aa_ReadFile (aa_dir +:+ q) (ae_w ae1) = aa_ReadFile (aa_dir +:+ q) (ae_w ae)).
  { intros q Hq. destruct (decide (q ∈ l)) as [Hin|Hin]; [left; by apply Hr|right].
    apply Hf. intros x Hx ->%profile_path_inj. done. }
  destruct (Hall p Hp) as (Hv & [He1 He2] & [t Ht]).
  assert (Hex : exists_file (aa_dir +:+ p) (ae_w ae1)).
  { split; [|destruct (Hsame p Hp) as [->| ->]; [by rewrite Ht|done]].
    destruct (decide (p ∈ l)) as [Hin|Hin]; [by apply Hn|].
    destruct (Hf (aa_dir +:+ p)%string) as [_ ->]; [|done]. intros x Hx ->%profile_path_inj. done. }
  destruct (update_profile_ok ep p policies ae1 t Hv Hex) as [Ut _ Uo Ul Uk _ _].
  { unfold is_priv. by rewrite Hpr. }
  set (ae2 := UpdateAppArmorProfile _ _ _ _ _ _ ae1) in *.
  intros q tq Hq Htq Hread. destruct (decide (q = p)) as [->|Hqp].
  - rewrite Ht in Htq. injection Htq as <-. apply Ul. by apply IH.
  - assert (Hne : (aa_dir +:+ q ≠ aa_dir +:+ p)%string) by (by intros ?%profile_path_inj).
    destruct (Uo _ Hne) as [Hread' _]. rewrite Hread' in Hread.
    destruct Hex as [_ [old Hold]]. apply (Uk _ _ old); [done|by apply IH|done|..].
    + apply (Hapart q p tq old Hq Hp Hqp Htq).
      destruct (Hsame p Hp) as [E|E]; [right|left]; congruence.
    + apply (Hapart q p tq t Hq Hp Hqp Htq). by right.
Qed.

(** C18: AppArmor: after an update of an endpoint, the file of each of its profiles that is
    not one of the runtimes' is the rendering of the endpoint's policies, or of none if
    they are not enabled, whatever it was before, and this text is what the kernel has
    loaded; all other files are as they were, and so is the registration of profiles.
    The commands of the system succeed, a file that already held its text was loaded, and
    the headers by which profiles are unloaded and replaced tell the endpoint's profiles
    apart. *)
Theorem apparmor_profiles_installed ep ae :
  let own p := p ∈ ep_AppArmorProfiles ep ∧ p ∉ other_profiles in
  let text p := rendered p (enabled_policies ep) (ep_DefaultPosture ep) (is_priv ae p) in
  let all := own_profiles [] (ep_AppArmorProfiles ep) in
  (∀ p, own p → valid_name p = true ∧ exists_file (aa_dir +:+ p) (ae_w ae) ∧ is_Some (text p)) →
  apart_profiles text all (ae_w ae) → current_loaded text all (ae_w ae) →
  let ae' := aa_UpdateSecurityPolicies K8sEnv Execute FindAllString ep ae in
  (∀ p, own p → aa_ReadFile (aa_dir +:+ p) (ae_w ae') = text p
                ∧ loaded (aa_dir +:+ p) (ae_w ae') = text p)
  ∧ (∀ f, (∀ p, own p → f ≠ (aa_dir +:+ p)%string) →
       aa_ReadFile f (ae_w ae') = aa_ReadFile f (ae_w ae))
  ∧ ae_AppArmorProfiles ae' = ae_AppArmorProfiles ae.
Proof.
  intros own text all Hall Hapart Hcur. cbv zeta.
  assert (Hin : ∀ p, p ∈ all ↔ own p).
  { intros p. unfold all, own. rewrite own_profiles_elem, elem_of_nil. tauto. }
  assert (Hall' : ∀ p, p ∈ all →
    valid_name p = true ∧ exists_file (aa_dir +:+ p) (ae_w ae) ∧ is_Some (text p)).
  { intros p Hp%Hin. by apply Hall. }
  destruct (updates_ok ep (enabled_policies ep) all ae Hall') as (Hr & Hf & _ & Hp & _).
  pose proof (updates_loaded ep (enabled_policies ep) all all ae Hall' (reflexivity all)
    Hapart Hcur) as Hl.
  change (aa_UpdateSecurityPolicies K8sEnv Execute FindAllString ep ae) with
    (foldl (λ ae p, UpdateAppArmorProfile K8sEnv Execute FindAllString ep p (enabled_policies ep) ae)
       ae all).
  split_and!; [|intros f Hne|done].
  - intros p Hp'%Hin. destruct (Hall' p Hp') as (_ & _ & [t Ht]).
    split; [by apply Hr|]. rewrite Ht. apply (Hl p t Hp' Ht). rewrite <- Ht. by apply Hr.
  - apply Hf. intros p Hp'%Hin. by apply Hne.
Qed.

(** A profile that is not KubeArmor's is refused when a pod registers it and when it is
    unregistered, and nothing is written; but an update of an endpoint that names it
    overwrites it all the same. *)
Theorem refused_profile_overwritten p content pod priv priv' ep ae text :
  valid_name p = true → p ∉ other_profiles →
  aa_Exists (aa_dir +:+ p) (ae_w ae) = true → aa_NotExist (aa_dir +:+ p) (ae_w ae) = false →
  aa_ReadFile (aa_dir +:+ p) (ae_w ae) = Some content → Contains content "KubeArmor" = false →
  ep_AppArmorProfiles ep = [p] →
  rendered p (enabled_policies ep) (ep_DefaultPosture ep) (is_priv ae p) = Some text →
  RegisterAppArmorProfile pod p priv ae = (ae, false)
  ∧ UnregisterAppArmorProfile "" p priv' ae = (ae, false)
  ∧ aa_ReadFile (aa_dir +:+ p) (ae_w (aa_UpdateSecurityPolicies K8sEnv Execute FindAllString ep ae))
    = Some text.
Proof.
  intros Hv Ho He Hn Hr Hc Hep Ht.
  assert (Hp : plain p = true) by (by unfold valid_name in Hv; rewrite !andb_true_iff in Hv; apply Hv).
  assert (Hout : out_of_control (aa_dir +:+ p) (ae_w ae) = true).
  { unfold out_of_control. by rewrite Hr, Hc. }
  unfold RegisterAppArmorProfile, UnregisterAppArmorProfile. rewrite Clean_profile, He, Hout by done.
  split; [done|]. split; [done|].
  destruct (updates_ok ep (enabled_policies ep) [p] ae) as (Hu & _).
  { intros q ->%list_elem_of_singleton. split; [done|]. split; [|by rewrite Ht].
    split; [done|by rewrite Hr]. }
  rewrite <- Ht, <- (Hu p) by left.
  unfold aa_UpdateSecurityPolicies. rewrite Hep. cbn [own_profiles]. unfold ContainsElement.
  rewrite (bool_decide_eq_false_2 _ Ho). done.
Qed.
End updates.

(** ** Witnesses *)

Section witnesses.
#[local] Existing Instance canonical_range.

(** Files, and the texts that the kernel has of them *)
Record System := { sys_files : gmap string string; sys_loaded : gmap string string }.
Definition on_files (g : gmap string string → gmap string string) (s : System) : System :=
  {| sys_files := g (sys_files s); sys_loaded := sys_loaded s |}.
Definition on_loaded (g : gmap string string → gmap string string) (s : System) : System :=
  {| sys_files := sys_files s; sys_loaded := g (sys_loaded s) |}.
Definition load_file (f : string) (s : System) : System :=
  on_loaded (λ m, match sys_files s !! f with Some t => <[f := t]> m | None => m end) s.

#[local] Instance files_host : AppArmorHost System := {
  aa_Exists f s := bool_decide (is_Some (sys_files s !! f));
  aa_NotExist f s := bool_decide (sys_files s !! f = None);
  aa_ReadFile f s := sys_files s !! f;
  aa_Create f s := (on_files (<[f := ""%string]>) s, true);
  aa_Write f t s := (on_files (<[f := t]>) s, true);
  aa_Truncate f s := (on_files (<[f := ""%string]>) s, true);
  aa_Remove f s := (on_files (delete f) s, true);
  aa_load f s := (load_file f s, true); aa_unload f s := (on_loaded (delete f) s, true);
  aa_unload_headers _ s := (s, true);
  aa_disable f s := (on_loaded (delete f) s, true); aa_enforce f s := (load_file f s, true);
  aa_remove_unknown s := (s, true);
  aa_ReadDir _ := Some []; aa_attrs _ := [] }.

Definition in_kernel (f : string) (s : System) : option string := sys_loaded s !! f.

Lemma insert_other (s : System) f t : other_files f s (on_files (<[f := t]>) s).
Proof. intros g Hg. cbn. by rewrite lookup_insert_ne. Qed.

Lemma load_file_ok headers f t (s : System) :
  sys_files s !! f = Some t →
  in_kernel f (load_file f s) = Some t
  ∧ loaded_but headers in_kernel f (headers t) s (load_file f s).
Proof.
  intros Hf. unfold load_file, in_kernel. rewrite Hf. cbn. rewrite lookup_insert_eq.
  split; [done|]. intros g t' Hg Hl _. unfold in_kernel in *. cbn. by rewrite lookup_insert_ne.
Qed.

#[local] Instance files_law headers : AppArmorHostLaw (AH := files_host) headers in_kernel.
Proof.
  split.
  - intros f s. eexists. split; [reflexivity|]. split; [apply insert_other|done].
  - intros f t s. eexists. split; [reflexivity|]. split; [apply insert_other|]. cbn.
    by rewrite lookup_insert_eq.
  - intros f t s Hf. eexists. split; [reflexivity|]. split; [done|by apply load_file_ok].
  - intros f t s Hf. eexists. split; [reflexivity|]. split; [done|].
    intros g t' Hg Hl _. unfold in_kernel in *. cbn. by rewrite lookup_delete_ne.
  - intros f t s Hf. eexists. split; [reflexivity|]. split; [done|by apply load_file_ok].
  - intros l s. split; [done|]. by intros f g t Hg Hl _.
Qed.

Definition sample_profile_point : EndPoint :=
  {| ep_NamespaceName := "default"; ep_EndPointName := "web"; ep_ContainerName := "";
     ep_Labels := ∅; ep_Identities := []; ep_Containers := [];
     ep_AppArmorProfiles := ["nginx"%string]; ep_SELinuxProfiles := []; ep_SecurityPolicies := [];
     ep_PrivilegedContainers := ∅; ep_PolicyEnabled := KubeArmorPolicyEnabled;
     ep_DefaultPosture := {| dp_FileAction := "audit"; dp_NetworkAction := "audit";
                             dp_CapabilitiesAction := "audit" |};
     ep_ProcessVisibilityEnabled := false; ep_FileVisibilityEnabled := false;
     ep_NetworkVisibilityEnabled := false; ep_CapabilitiesVisibilityEnabled := false |}.

Definition name_only (p : Profile) : option string := Some ("KubeArmor " +:+ p_Name p)%string.

Definition admin_files : AppArmorEnforcer System :=
  {| ae_w := {| sys_files := {["/etc/apparmor.d/nginx" := "profile nginx { deny /** w, }"]};
                sys_loaded := ∅ |}%string;
     ae_HostProfile := ""; ae_AppArmorProfiles := ∅; ae_AppArmorPrivilegedProfiles := ∅ |}.

Lemma apparmor_profiles_installed_witness :
  let s := ae_w (aa_UpdateSecurityPolicies true name_only (λ _, []) sample_profile_point admin_files) in
  sys_files s !! "/etc/apparmor.d/nginx"%string = Some "KubeArmor nginx"%string
  ∧ sys_loaded s !! "/etc/apparmor.d/nginx"%string = Some "KubeArmor nginx"%string.
Proof.
  destruct (apparmor_profiles_installed true name_only (λ _, []) in_kernel sample_profile_point
    admin_files) as [H _].
  - intros p [->%list_elem_of_singleton _]. split; [vm_compute; reflexivity|].
    split; [split; [vm_compute; reflexivity|vm_compute; eexists; reflexivity]|].
    eexists. reflexivity.
  - intros p q t t' _ _ _ _ _ h []%elem_of_nil.
  - intros p t Hp. assert (p = "nginx"%string) as ->.
    { vm_compute in Hp. by apply list_elem_of_singleton in Hp. }
    vm_compute. intros [= <-]. discriminate.
  - apply (H "nginx"%string). split; [left|]. refine (bool_decide_unpack _ _). vm_compute. exact I.
Defined.

Lemma refused_profile_overwritten_witness :
  RegisterAppArmorProfile "pod" "nginx" false admin_files = (admin_files, false)
  ∧ UnregisterAppArmorProfile "" "nginx" false admin_files = (admin_files, false)
  ∧ aa_ReadFile (aa_dir +:+ "nginx")
      (ae_w (aa_UpdateSecurityPolicies true name_only (λ _, []) sample_profile_point admin_files))
    = Some "KubeArmor nginx"%string.
Proof.
  apply (refused_profile_overwritten true name_only (λ _, []) in_kernel "nginx"
    "profile nginx { deny /** w, }" "pod" false false sample_profile_point admin_files
    "KubeArmor nginx").
  - vm_compute. reflexivity.
  - refine (bool_decide_unpack _ _). vm_compute. exact I.
  - vm_compute. reflexivity.
  - vm_compute. reflexivity.
  - vm_compute. reflexivity.
  - vm_compute. reflexivity.
  - reflexivity.
  - reflexivity.
Defined.

End witnesses.
