(* ===== verification/Presets.v ===== *)
(** Presets ([KubeArmor/presets/presets.go] and the packages [anonmapexec], [exec],
    [filelessexec], [protectenv], [protectproc]): rules that a kernel program of their own
    enforces, for the containers that are keys of its map.

    The packages are copies of one another: [Preset] is what they share, and the last section
    has what is each one's own, the name of the rule and the log of an event.  Loading the
    programs is I/O; that the memory limit is lifted and the map created, the model assumes. *)
From Stdlib Require Import Ascii String.
From S2P Require Import Prelude GoStrings Types Common BpfEnforcer SyscallParser NsMap ProcessTree SyscallNumbers PolicyMatcher LogUpdate EventLoop.

Open Scope string_scope.
Open Scope Z_scope.

(** ** Containers and rules *)

Definition Audit : Z := 1.
Definition Block : Z := 2.

Record ContainerVal := { cv_NsKey : NsKey; cv_Policy : string }.
Definition zero_NsKey : NsKey := {| ns_PidNS := 0; ns_MntNS := 0 |}.

Record Preset (M : Type) := {
  pr_ContainerMap : gmap string ContainerVal;
  pr_BPFContainerMap : M }.
Arguments pr_ContainerMap {M}.
Arguments pr_BPFContainerMap {M}.

Section preset.
Context {M : Type} `{EM : !EbpfMap M NsKey Z}.
Implicit Types (p : Preset M).

Definition set_ContainerMap (m : gmap string ContainerVal) p : Preset M :=
  {| pr_ContainerMap := m; pr_BPFContainerMap := pr_BPFContainerMap p |}.
Definition set_BPFContainerMap (m : M) p : Preset M :=
  {| pr_ContainerMap := pr_ContainerMap p; pr_BPFContainerMap := m |}.

Definition RegisterContainer (containerID : string) (pidns mntns : Z) p : Preset M :=
  set_ContainerMap (<[containerID := {| cv_NsKey := {| ns_PidNS := pidns; ns_MntNS := mntns |};
                                        cv_Policy := "" |}]> (pr_ContainerMap p)) p.

(** The result says whether there was no error. *)
Definition AddContainerIDToMap (ckv : NsKey) (action : string) p : Preset M * bool :=
  let '(m, err) := em_Put (pr_BPFContainerMap p) ckv
                     (if String.eqb action "Audit" then Audit else Block) in
  (set_BPFContainerMap m p, bool_decide (err = None)).

Definition DeleteContainerIDFromMap (ckv : NsKey) p : Preset M * bool :=
  let '(m, err) := em_Delete (pr_BPFContainerMap p) ckv in
  (set_BPFContainerMap m p, match err with None | Some ErrNotExist => true | _ => false end).

Definition UnregisterContainer (containerID : string) p : Preset M :=
  match pr_ContainerMap p !! containerID with
  | None => p
  | Some val =>
      let '(p, ok) := DeleteContainerIDFromMap (cv_NsKey val) p in
      if ok then set_ContainerMap (delete containerID (pr_ContainerMap p)) p else p
  end.

(** The rules of the policies, each with its policy *)
Definition preset_rules (ep : EndPoint) : list (SecurityPolicy * PresetType) :=
  ep_SecurityPolicies ep ≫= λ pol, (λ r, (pol, r)) <$> ss_Presets (sp_Spec pol).

(** State of the loops: the preset, whether the container has a rule, and whether the
    function has returned *)
Definition rule_step (name cid : string) (st : Preset M * bool * bool)
    (pr : SecurityPolicy * PresetType) : Preset M * bool * bool :=
  let '(p, present, returned) := st in
  if returned || negb (String.eqb (pr_Name pr.2) name) then st
  else match pr_ContainerMap p !! cid with
       | None => (p, true, true)
       | Some ckv =>
           let p := set_ContainerMap (<[cid := {| cv_NsKey := cv_NsKey ckv;
                      cv_Policy := default "" (sp_Metadata pr.1 !! "policyName") |}]>
                      (pr_ContainerMap p)) p in
           ((AddContainerIDToMap (cv_NsKey ckv) (pr_Action pr.2) p).1, true, false)
       end.

Definition preset_container (name : string) (ep : EndPoint) (st : Preset M * bool) (cid : string)
    : Preset M * bool :=
  let '(p, returned) := st in
  if returned then st
  else
    let '(p, present, returned) := foldl (rule_step name cid) (p, false, false) (preset_rules ep) in
    if returned then (p, true)
    else if present then (p, false)
    else
      let key := from_option cv_NsKey zero_NsKey (pr_ContainerMap p !! cid) in
      ((DeleteContainerIDFromMap key p).1, false).

Definition UpdatePreset (name : string) (ep : EndPoint) p : Preset M :=
  (foldl (preset_container name ep) (p, false) (ep_Containers ep)).1.

(** ** The list of presets *)

(** Names of the presets, and the names of their rules in policies *)
Definition preset_names : list (string * string) :=
  [("AnonMapExecutionPreset", "anonymousMapExec"); ("FilelessExecutionPreset", "filelessExec");
   ("ProtectEnvPreset", "protectEnv"); ("ExecPreset", "exec");
   ("ProtectProcPreset", "protectProc")]%list.
Definition rule_name (NAME : string) : string :=
  default "" ((list_to_map preset_names : gmap string string) !! NAME).

(** What loading a preset answers, its pinned map if there was no error *)
Variable RegisterPreset : string → option M.

(** Presets under another enforcer refuse to register; one that fails leaves the list. *)
Definition RegisterPresets (bpflsm : bool) (names : list string) : gmap string (Preset M) :=
  list_to_map (omap (λ name,
    if bpflsm then
      (λ m, (name, {| pr_ContainerMap := ∅; pr_BPFContainerMap := m |})) <$> RegisterPreset name
    else None) names).

Definition NewPreset (bpflsm : bool) : option (gmap string (Preset M)) :=
  let l := RegisterPresets bpflsm (preset_names.*1) in
  if bool_decide (l = ∅) then None else Some l.

(** The calls for the whole list *)
Definition presets_RegisterContainer (containerID : string) (pidns mntns : Z)
    (l : gmap string (Preset M)) : gmap string (Preset M) :=
  RegisterContainer containerID pidns mntns <$> l.
Definition presets_UnregisterContainer (containerID : string) (l : gmap string (Preset M))
    : gmap string (Preset M) :=
  UnregisterContainer containerID <$> l.
Definition presets_UpdateSecurityPolicies (ep : EndPoint) (l : gmap string (Preset M))
    : gmap string (Preset M) :=
  map_imap (λ name p, Some (UpdatePreset (rule_name name) ep p)) l.

End preset.

(** ** Events *)

Definition trim_left_nul (l : byte_list) : byte_list :=
  (fix go l := match l with [] => [] | b :: l' => if Ascii.eqb b nul then go l' else l end) l.
(** [bytes.Trim(array[:], "\x00")] *)
Definition trimmed (l : byte_list) : string := array_string (trim_left_nul l).

(** The fields that all events have, with the rest of the buffer *)
Record EventPreset := {
  ev_Context : SyscallContext;
  ev_Path : byte_list; ev_Source : byte_list; ev_ExecID : Z;
  ev_Args : list Z }.

(** [binary.Read] of the two structs *)
Definition event_context (field : nat → nat → byte_list) : SyscallContext :=
  let u off n := le_value (field off n) in
  {| sc_Ts := u 0%nat 8%nat; sc_PidID := u 8%nat 4%nat; sc_MntID := u 12%nat 4%nat;
     sc_HostPPID := u 16%nat 4%nat; sc_HostPID := u 20%nat 4%nat; sc_PPID := u 24%nat 4%nat;
     sc_PID := u 28%nat 4%nat; sc_UID := u 32%nat 4%nat; sc_EventID := i32 (u 36%nat 4%nat);
     sc_Argnum := 0; sc_Retval := i64 (u 40%nat 8%nat); sc_Comm := field 48%nat 80%nat;
     sc_Cwd := []; sc_TTY := field 128%nat 64%nat; sc_OID := 0; sc_ExecID := 0 |}.

Definition read_EventPreset (l : byte_list) : option EventPreset :=
  if bool_decide (712 ≤ List.length l)%nat then
    let field off n := take n (drop off l) in
    Some {| ev_Context := event_context field; ev_Path := field 192%nat 256%nat;
            ev_Source := field 448%nat 256%nat; ev_ExecID := le_value (field 704%nat 8%nat);
            ev_Args := [] |}
  else None.

Definition read_MmapEvent (l : byte_list) : option EventPreset :=
  if bool_decide (240 ≤ List.length l)%nat then
    let field off n := take n (drop off l) in
    Some {| ev_Context := event_context field; ev_Path := []; ev_Source := []; ev_ExecID := 0;
            ev_Args := (λ i, le_value (field (192 + 8 * i)%nat 8%nat)) <$> seq 0 6 |}
  else None.

(** *** Flags of mappings *)

Definition mapping_flags (names : list (Z * string)) (v : Z) : string :=
  join "|" (omap (λ n, if Z.land v n.1 =? n.1 then Some n.2 else None) names).

Definition ParseProtectionFlags : Z → string :=
  mapping_flags [(1, "PROT_READ"); (2, "PROT_WRITE"); (4, "PROT_EXEC")].
Definition ParseMemoryFlags : Z → string :=
  mapping_flags [(1, "MAP_SHARED"); (2, "MAP_PRIVATE"); (16, "MAP_FIXED"); (32, "MAP_ANONYMOUS");
              (4096, "MAP_GROWSDOWN"); (2048, "MAP_DENYWRITE")].

(** *** The log of an event *)

Section events.
Context (ids : SyscallIDs) (now : Z * string) (procExe : Z → option string) (version : string).
Context {M S : Type}.
Implicit Types (st : MonState (S := S)).

Definition PRESET_ENFORCER : string := "PRESET-".

(** The base: of the context only the processes and the terminal are passed on. *)
Definition preset_base (readLink : bool) (ev : EventPreset) (st : MonState (S := S))
    : string * LogBase * Tree :=
  let ctx := ev_Context ev in
  let containerID := EventLoop.container_of ctx st in
  let sys := {| sc_Ts := 0; sc_PidID := 0; sc_MntID := 0; sc_HostPPID := sc_HostPPID ctx;
                sc_HostPID := sc_HostPID ctx; sc_PPID := sc_PPID ctx; sc_PID := sc_PID ctx;
                sc_UID := sc_UID ctx; sc_EventID := 0; sc_Argnum := 0; sc_Retval := 0;
                sc_Comm := []; sc_Cwd := []; sc_TTY := sc_TTY ctx; sc_OID := 0; sc_ExecID := 0 |} in
  let '(b, t) := BuildLogBase ids now procExe (ms_Containers st) (ms_Node st)
                   (sc_EventID ctx) containerID sys readLink (ms_Tree st) in
  (containerID, b, t).

Definition with_version (b : LogBase) : LogBase :=
  {| lb_Timestamp := lb_Timestamp b; lb_UpdatedTime := lb_UpdatedTime b;
     lb_ClusterName := lb_ClusterName b; lb_HostName := lb_HostName b; lb_NodeID := lb_NodeID b;
     lb_NamespaceName := lb_NamespaceName b; lb_Owner := lb_Owner b; lb_PodName := lb_PodName b;
     lb_Labels := lb_Labels b; lb_ContainerID := lb_ContainerID b;
     lb_ContainerName := lb_ContainerName b; lb_ContainerImage := lb_ContainerImage b;
     lb_HostPPID := lb_HostPPID b; lb_HostPID := lb_HostPID b; lb_PPID := lb_PPID b;
     lb_PID := lb_PID b; lb_UID := lb_UID b; lb_ExecEvent := lb_ExecEvent b;
     lb_ParentProcessName := lb_ParentProcessName b; lb_ProcessName := lb_ProcessName b;
     lb_KubeArmorVersion := version; lb_Source := lb_Source b; lb_Operation := lb_Operation b;
     lb_Resource := lb_Resource b; lb_Cwd := lb_Cwd b; lb_TTY := lb_TTY b; lb_OID := lb_OID b;
     lb_Data := lb_Data b; lb_Result := lb_Result b;
     lb_MaxAlertsPerSec := lb_MaxAlertsPerSec b;
     lb_DroppingAlertsInterval := lb_DroppingAlertsInterval b;
     lb_PolicyEnabled := lb_PolicyEnabled b;
     lb_ProcessVisibilityEnabled := lb_ProcessVisibilityEnabled b;
     lb_FileVisibilityEnabled := lb_FileVisibilityEnabled b;
     lb_NetworkVisibilityEnabled := lb_NetworkVisibilityEnabled b;
     lb_CapabilitiesVisibilityEnabled := lb_CapabilitiesVisibilityEnabled b |}.

(** Policy and type, if the container is registered; the enforcer is the preset. *)
Definition preset_log (name containerID : string) (p : Preset M) (b : LogBase) : Log :=
  let ckv := pr_ContainerMap p !! containerID in
  {| lg_base := with_version b; lg_Type := if ckv is Some _ then "MatchedPolicy" else "";
     lg_PolicyName := from_option cv_Policy "" ckv; lg_Severity := ""; lg_Tags := "";
     lg_ATags := []; lg_Message := ""; lg_Enforcer := PRESET_ENFORCER +:+ name;
     lg_Action := "" |}.

Definition preset_result (ev : EventPreset) : string :=
  if 0 <=? sc_Retval (ev_Context ev) then "Passed" else "Permission denied".

(** [ExecID] and, if there is one, the command's name *)
Definition preset_exec (ev : EventPreset) (b : LogBase) : string * string :=
  let comm := array_string (sc_Comm (ev_Context ev)) in
  (Itoa (ev_ExecID ev), if nonempty comm then comm else (lb_ExecEvent b).2).

Definition source_or_event (ev : EventPreset) (b : LogBase) : string :=
  if nonempty (lb_Source b) then lb_Source b else trimmed (ev_Source ev).

(** The link of the process is read if the event has no source. *)
Definition no_source (ev : EventPreset) : bool := negb (nonempty (trimmed (ev_Source ev))).

(** The log of a raw event, and the process tree afterwards *)
Definition trace (read : byte_list → option EventPreset) (readLink : EventPreset → bool)
    (name : string) (fill : EventPreset → LogBase → LogBase) (p : Preset M)
    (raw : byte_list) (st : MonState (S := S)) : option Log * Tree :=
  match read raw with
  | None => (None, ms_Tree st)
  | Some ev =>
      let '(containerID, b, t) := preset_base (readLink ev) ev st in
      (Some (preset_log name containerID p (fill ev b)), t)
  end.

Definition anonmap_data (ev : EventPreset) : string :=
  let arg i := default 0 (ev_Args ev !! i) in
  join "," [ParseProtectionFlags (arg 0%nat); ParseProtectionFlags (arg 1%nat);
            ParseMemoryFlags (arg 2%nat)].

Definition anonmap_NAME : string := "AnonMapExecutionPreset".
Definition anonmap_TraceEvents : Preset M → byte_list → MonState (S := S) → option Log * Tree :=
  trace read_MmapEvent (λ _, true) anonmap_NAME (λ ev b,
    set_event (lb_Source b) (lb_ProcessName b) (lb_ParentProcessName b) "File" (lb_Resource b)
      (anonmap_data ev) (preset_result ev) (lb_ExecEvent b) b).

Definition exec_NAME : string := "ExecPreset".
Definition exec_TraceEvents : Preset M → byte_list → MonState (S := S) → option Log * Tree :=
  trace read_EventPreset no_source exec_NAME (λ ev b,
    set_event (trimmed (ev_Source ev)) (trimmed (ev_Path ev)) (trimmed (ev_Source ev)) "Process"
      (trimmed (ev_Path ev)) (lb_Data b) (preset_result ev) (preset_exec ev b) b).

Definition filelessexec_NAME : string := "FilelessExecutionPreset".
Definition filelessexec_TraceEvents : Preset M → byte_list → MonState (S := S) → option Log * Tree :=
  trace read_EventPreset (λ _, true) filelessexec_NAME (λ ev b,
    set_event (source_or_event ev b) (lb_ProcessName b) (lb_ParentProcessName b) "Process"
      (trimmed (ev_Path ev)) (lb_Data b) (preset_result ev) (preset_exec ev b) b).

Definition protectenv_NAME : string := "ProtectEnvPreset".
Definition protectenv_TraceEvents : Preset M → byte_list → MonState (S := S) → option Log * Tree :=
  trace read_EventPreset no_source protectenv_NAME (λ ev b,
    set_event (source_or_event ev b) (lb_ProcessName b) (lb_ParentProcessName b) "File"
      (trimmed (ev_Path ev)) (lb_Data b) (preset_result ev) (preset_exec ev b) b).

Definition protectproc_NAME : string := "ProtectProcPreset".
Definition protectproc_TraceEvents : Preset M → byte_list → MonState (S := S) → option Log * Tree :=
  trace read_EventPreset no_source protectproc_NAME (λ ev b,
    set_event (source_or_event ev b) (lb_ProcessName b) (lb_ParentProcessName b) "File"
      (trimmed (ev_Path ev)) (lb_Data b) (preset_result ev) (lb_ExecEvent b) b).
End events.
