(* ===== verification/PresetsProps.v ===== *)
(** What an update of a preset puts into the kernel's map, and where it stops. *)
From Stdlib Require Import Ascii String.
From S2P Require Import Prelude GoStrings Types Common BpfEnforcer NsMap Presets.

Open Scope string_scope.
Open Scope Z_scope.
Open Scope list_scope.

(** ** The rule in force *)

Definition action_code (action : string) : Z := if String.eqb action "Audit" then Audit else Block.

Definition named (name : string) (r : SecurityPolicy * PresetType) : Prop := pr_Name r.2 = name.
#[export] Instance named_dec name r : Decision (named name r).
Proof. unfold named. apply _. Defined.

(** The last rule of the preset, in the order of the policies *)
Definition last_rule (name : string) (ep : EndPoint) : option (SecurityPolicy * PresetType) :=
  list.last (filter (named name) (preset_rules ep)).

Definition rule_policy (r : SecurityPolicy * PresetType) : string :=
  default "" (sp_Metadata r.1 !! "policyName").
Definition rule_action (r : SecurityPolicy * PresetType) : Z := action_code (pr_Action r.2).

Section props.
Context {M : Type} `{EM : !EbpfMap M NsKey Z} {EL : EbpfMapLaw M NsKey Z}.
Implicit Types (p : Preset M).

(** What of a preset the events and the kernel see *)
Definition seen p : gmap string ContainerVal * gmap NsKey Z :=
  (pr_ContainerMap p, em_view (pr_BPFContainerMap p)).

(** The effect of the last rule on a container *)
Definition rule_effect (cid : string) (ckv : ContainerVal)
    (r : option (SecurityPolicy * PresetType))
    (s : gmap string ContainerVal * gmap NsKey Z) : gmap string ContainerVal * gmap NsKey Z :=
  match r with
  | None => s
  | Some r => (<[cid := {| cv_NsKey := cv_NsKey ckv; cv_Policy := rule_policy r |}]> s.1,
               <[cv_NsKey ckv := rule_action r]> s.2)
  end.

Definition rules_fold (name cid : string) (rules : list (SecurityPolicy * PresetType)) p :=
  foldl (rule_step name cid) (p, false, false) rules.

Lemma rules_returned name cid rules p b :
  foldl (rule_step name cid) (p, b, true) rules = (p, b, true).
Proof. induction rules as [|r rules IH]; [done|exact IH]. Qed.

(** Without a rule of the preset nothing happens. *)
Lemma rules_fold_none name cid rules p :
  filter (named name) rules = [] → rules_fold name cid rules p = (p, false, false).
Proof.
  unfold rules_fold. induction rules as [|r rules IH]; [done|]. rewrite filter_cons.
  case_decide as Hr; [done|]. intros H. cbn -[String.eqb].
  unfold named in Hr. apply String.eqb_neq in Hr as ->. exact (IH H).
Qed.

(** The first rule of the preset ends the update if the container is not registered. *)
Lemma rules_fold_stops name cid rules p :
  pr_ContainerMap p !! cid = None → filter (named name) rules ≠ [] →
  rules_fold name cid rules p = (p, true, true).
Proof.
  intros Hc. unfold rules_fold. induction rules as [|r rules IH]; [done|]. rewrite filter_cons.
  cbn -[String.eqb]. case_decide as Hr; unfold named in Hr.
  - intros _. rewrite Hr, String.eqb_refl, Hc. apply rules_returned.
  - apply String.eqb_neq in Hr as ->. exact IH.
Qed.

Lemma containers_returned name ep l p :
  (foldl (preset_container name ep) (p, true) l).1 = p.
Proof. induction l as [|c l IH]; [done|exact IH]. Qed.

(** The kernel refuses nothing. *)
Hypothesis no_put_error : ∀ (m : M) k v, (em_Put m k v).2 = None.
Hypothesis no_delete_error : ∀ (m : M) k,
  (em_Delete m k).2 = None ∨ (em_Delete m k).2 = Some ErrNotExist.

Lemma put_seen ckv action p :
  seen (AddContainerIDToMap ckv action p).1 =
  (pr_ContainerMap p, <[ckv := action_code action]> (em_view (pr_BPFContainerMap p))).
Proof.
  unfold AddContainerIDToMap, action_code.
  set (a := if String.eqb action "Audit" then Audit else Block).
  pose proof (em_Put_view (pr_BPFContainerMap p) ckv a) as H.
  rewrite no_put_error in H. destruct (em_Put _ _ _) as [m err]. cbn in *.
  unfold seen. cbn. by rewrite H.
Qed.

Lemma delete_seen ckv p :
  seen (DeleteContainerIDFromMap ckv p).1 =
  (pr_ContainerMap p, delete ckv (em_view (pr_BPFContainerMap p))).
Proof.
  unfold DeleteContainerIDFromMap.
  pose proof (em_Delete_view (pr_BPFContainerMap p) ckv) as H.
  pose proof (em_Delete_NotExist (pr_BPFContainerMap p) ckv) as Hn.
  destruct (no_delete_error (pr_BPFContainerMap p) ckv) as [He|He]; rewrite He in H;
    destruct (em_Delete _ _) as [m err]; cbn in *; subst err; unfold seen; cbn; rewrite H;
    [done|].
  by rewrite delete_id by (by apply Hn).
Qed.

Lemma effect_effect cid ckv ckv' r r' s :
  cv_NsKey ckv' = cv_NsKey ckv →
  rule_effect cid ckv' (Some r') (rule_effect cid ckv r s) = rule_effect cid ckv (Some r') s.
Proof. intros H. destruct r as [r|]; cbn; rewrite ?H, ?insert_insert_eq; done. Qed.

(** A registered container gets the last rule. *)
Lemma rules_fold_enforces name cid ckv rules p :
  pr_ContainerMap p !! cid = Some ckv →
  let '(p', present, returned) := rules_fold name cid rules p in
  let r := list.last (filter (named name) rules) in
  seen p' = rule_effect cid ckv r (seen p) ∧ present = bool_decide (is_Some r) ∧ returned = false.
Proof.
  intros Hc. unfold rules_fold. induction rules as [|r rules IH] using rev_ind; [done|].
  rewrite foldl_snoc, list.filter_app, filter_cons, filter_nil.
  destruct (foldl _ _ _) as [[p' b] ret]. destruct IH as (Hs & Hb & ->).
  unfold rule_step. cbn [orb]. case_decide as Hr; unfold named in Hr.
  2: { apply String.eqb_neq in Hr as ->. by rewrite app_nil_r. }
  rewrite Hr, String.eqb_refl, last_snoc. cbn [negb].
  assert (∃ ckv', pr_ContainerMap p' !! cid = Some ckv' ∧ cv_NsKey ckv' = cv_NsKey ckv)
    as (ckv' & -> & Hk).
  { apply (f_equal fst) in Hs. cbn in Hs. rewrite Hs.
    destruct (list.last _); cbn; [rewrite lookup_insert_eq|]; eauto. }
  split; [|done]. rewrite put_seen. rewrite <- (effect_effect cid ckv ckv' (list.last (filter (named name) rules)) r (seen p) Hk), <- Hs.
  done.
Qed.

Lemma container_step_seen name ep cid ckv p :
  pr_ContainerMap p !! cid = Some ckv →
  let '(p', returned) := preset_container name ep (p, false) cid in
  returned = false ∧
  seen p' = match last_rule name ep with
            | Some r => rule_effect cid ckv (Some r) (seen p)
            | None => (pr_ContainerMap p, delete (cv_NsKey ckv) (seen p).2)
            end.
Proof.
  intros Hc. unfold preset_container, last_rule.
  pose proof (rules_fold_enforces name cid ckv (preset_rules ep) p Hc) as H.
  unfold rules_fold in H. destruct (foldl _ _ _) as [[p' b] ret]. destruct H as (Hs & -> & ->).
  destruct (list.last _) as [r|]; cbn -[DeleteContainerIDFromMap]; [done|]. split; [done|].
  rewrite delete_seen. apply pair_equal_spec in Hs as [-> ->]. by rewrite Hc.
Qed.

(** ** A whole update *)

(** The keys of the registered containers of [l] *)
Definition keys_of p (l : list string) : list NsKey :=
  omap (λ cid, cv_NsKey <$> pr_ContainerMap p !! cid) l.

(** After the containers [l]: the keys of registered containers are as before, those of [l]
    have the rule's action in the kernel's map, and its policy is noted. *)
Definition enforced (r : option (SecurityPolicy * PresetType)) (l : list string) p p' : Prop :=
  (∀ cid, cv_NsKey <$> pr_ContainerMap p' !! cid = cv_NsKey <$> pr_ContainerMap p !! cid) ∧
  (∀ k, em_view (pr_BPFContainerMap p') !! k =
        if decide (k ∈ keys_of p l) then rule_action <$> r
        else em_view (pr_BPFContainerMap p) !! k) ∧
  (∀ cid, cid ∈ l → is_Some r → cv_Policy <$> pr_ContainerMap p' !! cid = rule_policy <$> r).

Lemma keys_of_snoc p l cid ckv :
  pr_ContainerMap p !! cid = Some ckv → keys_of p (l ++ [cid]) = keys_of p l ++ [cv_NsKey ckv].
Proof. intros H. unfold keys_of. rewrite omap_app. cbn. by rewrite H. Qed.

Lemma containers_enforced name ep l p :
  (∀ cid, cid ∈ l → is_Some (pr_ContainerMap p !! cid)) →
  let '(p', returned) := foldl (preset_container name ep) (p, false) l in
  returned = false ∧ enforced (last_rule name ep) l p p'.
Proof.
  induction l as [|cid l IH] using rev_ind; intros Hreg.
  { split; [done|]. split; [done|]. split; [done|]. by intros ? ?%elem_of_nil. }
  rewrite foldl_snoc.
  assert (∀ c, c ∈ l → is_Some (pr_ContainerMap p !! c)) as Hl by (intros; apply Hreg; set_solver).
  specialize (IH Hl). destruct (foldl _ _ _) as [p1 ret]. destruct IH as (-> & Hk & Hv & Hp).
  destruct (Hreg cid) as [ckv Hckv]; [set_solver|].
  pose proof (Hk cid) as Hc. rewrite Hckv in Hc. cbn in Hc.
  apply fmap_Some in Hc as (ckv1 & Hc1 & Hkk).
  pose proof (container_step_seen name ep cid ckv1 p1 Hc1) as H.
  destruct (preset_container _ _ _ _) as [p2 ret2]. destruct H as [-> H]. split; [done|].
  unfold enforced, seen in *.
  destruct (last_rule name ep) as [r|]; cbn in H; apply pair_equal_spec in H as [-> ->].
  - split; [|split].
    + intros c. destruct (decide (c = cid)) as [->|Hne].
      * rewrite lookup_insert_eq, <- Hk, Hc1. done.
      * rewrite lookup_insert_ne by congruence. apply Hk.
    + intros k. rewrite (keys_of_snoc p l cid ckv Hckv), lookup_insert, Hv, <- Hkk.
      repeat case_decide; set_solver.
    + intros c Hin Hr. destruct (decide (c = cid)) as [->|Hne].
      * by rewrite lookup_insert_eq.
      * rewrite lookup_insert_ne by congruence. apply Hp; set_solver.
  - split; [exact Hk|]. split; [|by intros c _ [? ?]].
    intros k. rewrite (keys_of_snoc p l cid ckv Hckv), lookup_delete, Hv, <- Hkk. repeat case_decide; set_solver.
Qed.

End props.

(** C29: Updating a preset with the policies of an endpoint puts the last rule of the preset
    into force.  If the containers of the endpoint are registered and the kernel refuses
    nothing, then afterwards its map has, for the namespaces of each of them, the action of
    the last of the rules in the order of the policies, [Audit] or else [Block], and nothing
    if no policy has a rule; the policy of that rule is noted for the logs; no other
    namespaces' entry changes, and no container's namespaces do. *)
Theorem preset_in_force {M : Type} `{EM : !EbpfMap M NsKey Z} {EL : EbpfMapLaw M NsKey Z}
    (name : string) (ep : EndPoint) (p : Preset M)
    (no_put_error : ∀ (m : M) k v, (em_Put m k v).2 = None)
    (no_delete_error : ∀ (m : M) k,
       (em_Delete m k).2 = None ∨ (em_Delete m k).2 = Some ErrNotExist)
    (registered : ∀ cid, cid ∈ ep_Containers ep → is_Some (pr_ContainerMap p !! cid)) :
  enforced (last_rule name ep) (ep_Containers ep) p (UpdatePreset name ep p).
Proof.
  pose proof (containers_enforced no_put_error no_delete_error name ep _ p registered) as H.
  unfold UpdatePreset. destruct (foldl _ _ _) as [p' ret]. apply H.
Qed.

(** The update returns at the first container that is not registered, if a policy has a
    rule of the preset: the containers after it, registered or not, get no rule, and whatever
    was in force for them stays so. *)
Theorem unregistered_container_stops {M : Type} `{EM : !EbpfMap M NsKey Z}
    (name : string) (ep ep' : EndPoint) (p : Preset M) (l l' : list string) (cid : string)
    (all : ep_Containers ep = (l ++ cid :: l')%list)
    (before : ep_Containers ep' = l)
    (same_policies : ep_SecurityPolicies ep' = ep_SecurityPolicies ep)
    (has_rule : is_Some (last_rule name ep))
    (unregistered : pr_ContainerMap (UpdatePreset name ep' p) !! cid = None) :
  UpdatePreset name ep p = UpdatePreset name ep' p.
Proof.
  assert (preset_container name ep' = preset_container name ep) as Hs.
  { unfold preset_container. replace (preset_rules ep') with (preset_rules ep); [done|].
    unfold preset_rules. by rewrite same_policies. }
  unfold UpdatePreset in *. rewrite before, Hs in unregistered. rewrite all, before, Hs, foldl_app.
  destruct (foldl (preset_container name ep) (p, false) l) as [q [|]]; cbn [foldl fst] in *.
  { apply containers_returned. }
  unfold preset_container at 2. unfold last_rule in has_rule.
  pose proof (rules_fold_stops name cid (preset_rules ep) q unregistered) as H.
  unfold rules_fold in H. rewrite H; [apply containers_returned|].
  intros Hn. rewrite Hn in has_rule. by destruct has_rule.
Qed.

(** ** A kernel map with room for everything, and witnesses *)

Record UMap := { um_map : gmap NsKey Z }.

#[export] Instance UMap_ebpf : EbpfMap UMap NsKey Z := {|
  em_view := um_map;
  em_Put m k v := ({| um_map := <[k := v]> (um_map m) |}, None);
  em_Delete m k :=
    match um_map m !! k with
    | Some _ => ({| um_map := delete k (um_map m) |}, None)
    | None => (m, Some ErrNotExist)
    end;
  em_Close _ := None |}.

#[export] Instance UMap_law : EbpfMapLaw UMap NsKey Z.
Proof. split; intros m k; cbn; [done|by destruct (um_map m !! k)..]. Qed.

Definition exec_policy (name action : string) : SecurityPolicy :=
  let s := empty_SecuritySpec in
  {| sp_Metadata := {["policyName" := name]};
     sp_Spec := {| ss_Selector := ss_Selector s; ss_Process := ss_Process s; ss_File := ss_File s;
                   ss_Network := ss_Network s; ss_Capabilities := ss_Capabilities s;
                   ss_Syscalls := ss_Syscalls s;
                   ss_Presets := [{| pr_Name := "exec"; pr_Action := action |}];
                   ss_AppArmor := ""; ss_Severity := 1; ss_Tags := []; ss_Message := "";
                   ss_Action := "" |} |}.

(** Two policies, the first auditing and the second blocking *)
Definition exec_point (containers : list string) : EndPoint :=
  {| ep_NamespaceName := "ns"; ep_EndPointName := "pod"; ep_ContainerName := "";
     ep_Labels := ∅; ep_Identities := []; ep_Containers := containers;
     ep_AppArmorProfiles := []; ep_SELinuxProfiles := [];
     ep_SecurityPolicies := [exec_policy "first" "Audit"; exec_policy "second" "Block"];
     ep_PrivilegedContainers := ∅; ep_PolicyEnabled := KubeArmorPolicyEnabled;
     ep_DefaultPosture := {| dp_FileAction := "audit"; dp_NetworkAction := "audit";
                             dp_CapabilitiesAction := "audit" |};
     ep_ProcessVisibilityEnabled := true; ep_FileVisibilityEnabled := true;
     ep_NetworkVisibilityEnabled := true; ep_CapabilitiesVisibilityEnabled := true |}.

(** "c1" and "c2" are registered. *)
Definition exec_preset : Preset UMap :=
  RegisterContainer "c1" 1 2 (RegisterContainer "c2" 3 4
    {| pr_ContainerMap := ∅; pr_BPFContainerMap := {| um_map := ∅ |} |}).

Lemma preset_in_force_witness :
  let ep := exec_point ["c1"; "c2"] in
  rule_policy <$> last_rule "exec" ep = Some "second" ∧
  rule_action <$> last_rule "exec" ep = Some Block ∧
  enforced (last_rule "exec" ep) (ep_Containers ep) exec_preset (UpdatePreset "exec" ep exec_preset).
Proof.
  split; [reflexivity|]. split; [reflexivity|].
  apply (preset_in_force "exec" (exec_point ["c1"; "c2"]) exec_preset).
  - intros m k v. reflexivity.
  - intros m k. cbn. destruct (um_map m !! k); [left|right]; reflexivity.
  - intros cid H. apply elem_of_cons in H as [->|H]; [eexists; reflexivity|].
    apply list_elem_of_singleton in H as ->. eexists; reflexivity.
Defined.

Lemma unregistered_container_stops_witness :
  UpdatePreset "exec" (exec_point ["c1"; "c3"; "c2"]) exec_preset =
    UpdatePreset "exec" (exec_point ["c1"]) exec_preset ∧
  um_map (pr_BPFContainerMap (UpdatePreset "exec" (exec_point ["c1"; "c3"; "c2"]) exec_preset)) =
    {[ {| ns_PidNS := 1; ns_MntNS := 2 |} := Block ]}.
Proof.
  split; [|vm_compute; reflexivity].
  apply (unregistered_container_stops "exec" _ (exec_point ["c1"]) exec_preset ["c1"] ["c2"] "c3");
    try reflexivity.
  eexists. vm_compute. reflexivity.
Defined.
