(* ===== verification/StateAgent.v ===== *)
(** The state agent ([KubeArmor/state/data.go], [stateAgent.go]): it tells its clients which
    node, namespaces and containers KubeArmor protects.

    A client is a channel of 25 events, as in [LogFeed]; a send to it never waits.  Counting
    runs under the lock of the namespaces, and one push is one step.  The channels are read
    without their lock, so the two steps in which a client leaves are steps of their own.
    The JSON functions and the clock are arguments.  Then the namespaces it counts, what its
    clients can rebuild from its events, and events that come in the wrong order or meet a
    client that is full. *)
From Stdlib Require Import Ascii String.
From S2P Require Import Prelude GoStrings Types LogFeed Daemon.

Open Scope string_scope.
Open Scope Z_scope.

Definition stateEventBufferSize : nat := 25.
Definition EventAdded : string := "added".
Definition EventUpdated : string := "updated".
Definition EventDeleted : string := "deleted".
Definition KindContainer : string := "container".
Definition KindNode : string := "node".
Definition KindNamespace : string := "namespace".

Record StateEvent := { se_Kind : string; se_Type : string; se_Name : string; se_Object : string }.

(** [types.Namespace] *)
Record StateNamespace := {
  sn_Name : string; sn_Labels : string;
  sn_FilePosture : string; sn_NetworkPosture : string;
  sn_LastUpdatedAt : string; sn_ContainerCount : Z }.

(** What an event carries, as JSON *)
Inductive StateObject :=
| ONode (n : Node)
| ONamespace (n : StateNamespace)
| OContainer (c : Container).

(** The node and the containers are the daemon's. *)
Record StateAgent := {
  sa_Running : bool;
  sa_Chans : gmap string (EventStruct StateEvent);
  sa_Namespaces : gmap string StateNamespace }.

Definition NewStateAgent : StateAgent :=
  {| sa_Running := true; sa_Chans := ∅; sa_Namespaces := ∅ |}.

Definition set_Chans (m : gmap string (EventStruct StateEvent)) (sa : StateAgent) : StateAgent :=
  {| sa_Running := sa_Running sa; sa_Chans := m; sa_Namespaces := sa_Namespaces sa |}.
Definition set_Namespaces (m : gmap string StateNamespace) (sa : StateAgent) : StateAgent :=
  {| sa_Running := sa_Running sa; sa_Chans := sa_Chans sa; sa_Namespaces := m |}.

(** ** Clients *)

(** The identifier is random. *)
Definition addStateEventChan (uid : string) (sa : StateAgent) : StateAgent :=
  set_Chans (AddStruct uid "" stateEventBufferSize (sa_Chans sa)) sa.

(** The two steps of [removeStateEventChan], under the write lock *)
Definition close_chan (uid : string) (sa : StateAgent) : Res StateAgent :=
  match sa_Chans sa !! uid with
  | Some _ => Ok (set_Chans (CloseStruct uid (sa_Chans sa)) sa)
  | None => Panic
  end.
Definition delete_chan (uid : string) (sa : StateAgent) : StateAgent :=
  set_Chans (RemoveStruct uid (sa_Chans sa)) sa.
Definition removeStateEventChan (uid : string) (sa : StateAgent) : Res StateAgent :=
  sa ← close_chan uid sa; Ok (delete_chan uid sa).

(** One turn of [WatchState] that sends an event *)
Definition watch_turn (uid : string) (sa : StateAgent) : option (StateEvent * StateAgent) :=
  if sa_Running sa then
    r ← receive uid (sa_Chans sa); Some (r.1, set_Chans r.2 sa)
  else None.

Definition DestroyStateAgent (sa : StateAgent) : StateAgent :=
  {| sa_Running := false; sa_Chans := sa_Chans sa; sa_Namespaces := sa_Namespaces sa |}.

(** ** Events *)

Section agent.
Context `{R : GoRange} (Marshal : StateObject → option string) (now : string).

(** The loop over the channels ends at the first that is full. *)
Fixpoint send_loop (ev : StateEvent) (l : list (string * EventStruct StateEvent))
    (chans : gmap string (EventStruct StateEvent)) : Res (gmap string (EventStruct StateEvent)) :=
  match l with
  | [] => Ok chans
  | (uid, conn) :: l =>
      if es_closed conn then Panic
      else if bool_decide (List.length (es_queue conn) < es_cap conn)%nat
      then send_loop ev l (<[uid := offer ev conn]> chans)
      else Ok chans
  end.

Definition send_event (ev : StateEvent) (sa : StateAgent) : Res StateAgent :=
  chans ← send_loop ev (go_range (sa_Chans sa)) (sa_Chans sa); Ok (set_Chans chans sa).

Definition push_object (kind ty name : string) (obj : StateObject) (sa : StateAgent)
    : Res StateAgent :=
  match Marshal obj with
  | None => Ok sa
  | Some data =>
      send_event {| se_Kind := kind; se_Type := ty; se_Name := name; se_Object := data |} sa
  end.

Definition PushNamespaceEvent (ns : StateNamespace) (event : string) : StateAgent → Res StateAgent :=
  push_object KindNamespace event (sn_Name ns) (ONamespace ns).

Definition PushNodeEvent (node : Node) (event : string) (sa : StateAgent) : Res StateAgent :=
  if String.eqb (node_NodeName node) "" then Ok sa
  else push_object KindNode event (node_NodeName node) (ONode node) sa.

Definition with_count (n : Z) (ns : StateNamespace) : StateNamespace :=
  {| sn_Name := sn_Name ns; sn_Labels := sn_Labels ns; sn_FilePosture := sn_FilePosture ns;
     sn_NetworkPosture := sn_NetworkPosture ns; sn_LastUpdatedAt := sn_LastUpdatedAt ns;
     sn_ContainerCount := n |}.
Definition with_updated (t : string) (ns : StateNamespace) : StateNamespace :=
  {| sn_Name := sn_Name ns; sn_Labels := sn_Labels ns; sn_FilePosture := sn_FilePosture ns;
     sn_NetworkPosture := sn_NetworkPosture ns; sn_LastUpdatedAt := t;
     sn_ContainerCount := sn_ContainerCount ns |}.

(** Posture of namespaces without Kubernetes *)
Definition new_namespace (container : Container) : StateNamespace :=
  {| sn_Name := c_NamespaceName container; sn_Labels := ""; sn_FilePosture := "audit";
     sn_NetworkPosture := "audit"; sn_LastUpdatedAt := c_LastUpdatedAt container;
     sn_ContainerCount := 1 |}.

(** The part under the lock of the namespaces *)
Definition count_container (container : Container) (event : string) (sa : StateAgent)
    : Res StateAgent :=
  let namespace := c_NamespaceName container in
  let nss := sa_Namespaces sa in
  if String.eqb event EventAdded then
    match nss !! namespace with
    | None =>
        let ns := new_namespace container in
        PushNamespaceEvent ns EventAdded (set_Namespaces (<[namespace := ns]> nss) sa)
    | Some ns =>
        Ok (set_Namespaces (<[namespace := with_count (sn_ContainerCount ns + 1) ns]> nss) sa)
    end
  else if String.eqb event EventDeleted then
    match nss !! namespace with
    | None => Ok sa
    | Some ns =>
        let ns := with_count (sn_ContainerCount ns - 1) ns in
        let sa := set_Namespaces (<[namespace := ns]> nss) sa in
        if sn_ContainerCount ns =? 0 then
          sa ← PushNamespaceEvent (with_updated now ns) EventDeleted sa;
          Ok (set_Namespaces (delete namespace (sa_Namespaces sa)) sa)
        else Ok sa
    end
  else Ok sa.

Definition PushContainerEvent (container : Container) (event : string) (sa : StateAgent)
    : Res StateAgent :=
  if String.eqb (c_ContainerID container) "" then Ok sa
  else
    sa ← count_container container event sa;
    push_object KindContainer event (c_ContainerName container) (OContainer container) sa.

(** [GetState]: a failed [Marshal] is logged, and the event has no data. *)
Definition state_event (kind name : string) (obj : StateObject) : StateEvent :=
  {| se_Kind := kind; se_Type := EventAdded; se_Name := name;
     se_Object := default "" (Marshal obj) |}.

Definition GetState (node : Node) (containers : gmap string Container) (sa : StateAgent)
    : list StateEvent :=
  (state_event KindNode (node_NodeName node) (ONode node)
   :: ((λ kv : string * StateNamespace, state_event KindNamespace kv.1 (ONamespace kv.2))
         <$> go_range (sa_Namespaces sa))
   ++ ((λ kv : string * Container, state_event KindContainer (c_ContainerName kv.2) (OContainer kv.2))
         <$> go_range containers))%list.
End agent.

(** ** What holds of it *)

Open Scope list_scope.

Section props.
Context `{RL : GoRangeLaw} (Marshal : StateObject → option string) (now : string).
Implicit Types (sa : StateAgent) (ev : StateEvent).

Abbreviation Conns := (gmap string (EventStruct StateEvent)).

(** ** Sending *)

(** Open channels with room for [n] more events *)
Definition room (n : nat) (conn : EventStruct StateEvent) : Prop :=
  es_closed conn = false ∧ (List.length (es_queue conn) + n ≤ es_cap conn)%nat.

Lemma room_le n m conn : room n conn → (m ≤ n)%nat → room m conn.
Proof. intros [Hc Hl] Hm. split; [done|lia]. Qed.

Lemma room_offer n ev conn : room (S n) conn → room n (offer ev conn).
Proof.
  intros [Hc Hl]. unfold offer. rewrite bool_decide_true by lia. split; [done|]. cbn.
  rewrite length_app. cbn. lia.
Qed.

Definition offers (ev : StateEvent) (l : list (string * EventStruct StateEvent)) (chans : Conns)
    : Conns := insert_all ((λ kv, (kv.1, offer ev kv.2)) <$> l) chans.

(** The loop reaches the clients before the first full one. *)
Lemma send_loop_prefix ev l l' chans :
  (∀ kv, kv ∈ l → room 1 kv.2) →
  send_loop ev (l ++ l') chans = send_loop ev l' (offers ev l chans).
Proof.
  unfold offers. revert chans. induction l as [|[uid conn] l IH]; intros chans Hl; [done|].
  cbn. destruct (Hl (uid, conn)) as [Hc Hr]; [left|]. cbn in *. rewrite Hc.
  rewrite bool_decide_true by lia. apply IH. intros kv Hin. apply Hl. by right.
Qed.

Lemma offers_all ev (chans : Conns) : offers ev (go_range chans) chans = offer ev <$> chans.
Proof.
  apply map_eq. intros uid. unfold offers. rewrite lookup_fmap.
  destruct (chans !! uid) as [conn|] eqn:Hu; cbn.
  - apply insert_all_lookup.
    + rewrite <- list_fmap_compose. apply NoDup_go_range.
    + apply list_elem_of_fmap. exists (uid, conn). split; [done|]. by apply elem_of_go_range.
  - rewrite insert_all_lookup_ne; [done|]. rewrite <- list_fmap_compose.
    intros ([uid' conn] & -> & Hin)%list_elem_of_fmap. apply elem_of_go_range in Hin.
    cbn in *. congruence.
Qed.

Lemma send_event_all ev sa :
  map_Forall (λ _, room 1) (sa_Chans sa) →
  send_event ev sa = Ok (set_Chans (offer ev <$> sa_Chans sa) sa).
Proof.
  intros H. unfold send_event. rewrite <- (app_nil_r (go_range (sa_Chans sa))), send_loop_prefix.
  - cbn. by rewrite offers_all.
  - intros [uid conn] Hin. apply elem_of_go_range in Hin. exact (H uid conn Hin).
Qed.

(** ** What a push does, apart from sending *)

(** The namespaces and the events of a push, when every object has a JSON form *)
Hypothesis Marshal_total : ∀ obj, is_Some (Marshal obj).

Definition object_event (kind ty name : string) (obj : StateObject) : StateEvent :=
  {| se_Kind := kind; se_Type := ty; se_Name := name; se_Object := default "" (Marshal obj) |}.

Definition ns_event (ns : StateNamespace) (ty : string) : StateEvent :=
  object_event KindNamespace ty (sn_Name ns) (ONamespace ns).

Definition counted_step (c : Container) (event : string) (nss : gmap string StateNamespace)
    : gmap string StateNamespace * list StateEvent :=
  let namespace := c_NamespaceName c in
  if String.eqb event EventAdded then
    match nss !! namespace with
    | None => (<[namespace := new_namespace c]> nss, [ns_event (new_namespace c) EventAdded])
    | Some ns => (<[namespace := with_count (sn_ContainerCount ns + 1) ns]> nss, [])
    end
  else if String.eqb event EventDeleted then
    match nss !! namespace with
    | None => (nss, [])
    | Some ns =>
        let ns := with_count (sn_ContainerCount ns - 1) ns in
        if sn_ContainerCount ns =? 0
        then (delete namespace nss, [ns_event (with_updated now ns) EventDeleted])
        else (<[namespace := ns]> nss, [])
    end
  else (nss, []).

Definition pushed_step (c : Container) (event : string) (nss : gmap string StateNamespace)
    : gmap string StateNamespace * list StateEvent :=
  if String.eqb (c_ContainerID c) "" then (nss, [])
  else
    let r := counted_step c event nss in
    (r.1, r.2 ++ [object_event KindContainer event (c_ContainerName c) (OContainer c)]).

Definition offer_all (evs : list StateEvent) (conn : EventStruct StateEvent)
    : EventStruct StateEvent := foldl (λ conn ev, offer ev conn) conn evs.

(** Every client has the events at the end of its queue. *)
Definition told (evs : list StateEvent) (chans : Conns) : Conns := offer_all evs <$> chans.

Definition after (nss : gmap string StateNamespace) (evs : list StateEvent) sa : StateAgent :=
  {| sa_Running := sa_Running sa; sa_Chans := told evs (sa_Chans sa); sa_Namespaces := nss |}.

Lemma told_nil chans : told [] chans = chans.
Proof. apply map_fmap_id. Qed.

Lemma push_object_all kind ty name obj sa :
  map_Forall (λ _, room 1) (sa_Chans sa) →
  push_object Marshal kind ty name obj sa
  = Ok (set_Chans (told [object_event kind ty name obj] (sa_Chans sa)) sa).
Proof.
  intros H. unfold push_object, object_event. destruct (Marshal_total obj) as [data ->].
  by rewrite send_event_all.
Qed.

Lemma told_room n ev (chans : Conns) :
  map_Forall (λ _, room (S n)) chans → map_Forall (λ _, room n) (told [ev] chans).
Proof.
  intros H uid conn Hu. unfold told in Hu. apply lookup_fmap_Some in Hu as (conn' & <- & Hu).
  apply room_offer. exact (H uid conn' Hu).
Qed.

Lemma told_app evs evs' chans : told (evs ++ evs') chans = told evs' (told evs chans).
Proof.
  unfold told. rewrite <- map_fmap_compose. apply map_fmap_ext. intros uid conn _.
  unfold offer_all, compose. apply foldl_app.
Qed.

Lemma room_weaken n m (chans : Conns) :
  map_Forall (λ _, room n) chans → (m ≤ n)%nat → map_Forall (λ _, room m) chans.
Proof. intros H Hm uid conn Hu. eapply room_le; [exact (H uid conn Hu)|done]. Qed.

Lemma count_container_step c event sa :
  map_Forall (λ _, room 1) (sa_Chans sa) →
  let r := counted_step c event (sa_Namespaces sa) in
  count_container Marshal now c event sa = Ok (after r.1 r.2 sa).
Proof.
  intros H. unfold count_container, counted_step, PushNamespaceEvent, after, ns_event.
  destruct (String.eqb event EventAdded).
  - destruct (sa_Namespaces sa !! _); cbn [fst snd].
    + by rewrite told_nil.
    + rewrite push_object_all by done. done.
  - destruct (String.eqb event EventDeleted).
    2: { cbn. rewrite told_nil. by destruct sa. }
    destruct (sa_Namespaces sa !! c_NamespaceName c) as [ns|] eqn:Hns; cbn [fst snd].
    2: { rewrite told_nil. by destruct sa. }
    destruct (_ =? 0); cbn [fst snd].
    + rewrite push_object_all by done. cbn. by rewrite delete_insert_eq.
    + by rewrite told_nil.
Qed.

Lemma PushContainerEvent_step c event sa :
  map_Forall (λ _, room 2) (sa_Chans sa) →
  let r := pushed_step c event (sa_Namespaces sa) in
  PushContainerEvent Marshal now c event sa = Ok (after r.1 r.2 sa).
Proof.
  intros H. unfold PushContainerEvent, pushed_step.
  destruct (String.eqb (c_ContainerID c) ""); cbn [fst snd].
  { unfold after. rewrite told_nil. by destruct sa. }
  rewrite count_container_step by (eapply room_weaken; [done|lia]).
  destruct (counted_step c event (sa_Namespaces sa)) as [nss evs] eqn:Hs. cbn -[push_object].
  rewrite push_object_all; [unfold after; cbn; by rewrite told_app|].
  assert (evs = [] ∨ ∃ ev, evs = [ev]) as [->|[ev ->]].
  { unfold counted_step in Hs. repeat case_match; simplify_eq; eauto. }
  - cbn. rewrite told_nil. eapply room_weaken; [done|lia].
  - by apply told_room.
Qed.

(** A sequence of pushes *)
Definition pushes (l : list (Container * string)) sa : Res StateAgent :=
  foldl (λ r ce, sa ← r; PushContainerEvent Marshal now ce.1 ce.2 sa) (Ok sa) l.

Definition pushed (l : list (Container * string)) (nss : gmap string StateNamespace)
    : gmap string StateNamespace * list StateEvent :=
  foldl (λ st ce, let r := pushed_step ce.1 ce.2 st.1 in (r.1, st.2 ++ r.2)) (nss, []) l.

Lemma pushed_step_length c event nss : (List.length (pushed_step c event nss).2 ≤ 2)%nat.
Proof. unfold pushed_step, counted_step. repeat (case_match; cbn); lia. Qed.

Lemma told_room_all n evs (chans : Conns) :
  map_Forall (λ _, room (List.length evs + n)) chans →
  map_Forall (λ _, room n) (told evs chans).
Proof.
  revert chans. induction evs as [|ev evs IH]; intros chans H; [by rewrite told_nil|].
  change (ev :: evs) with ([ev] ++ evs). rewrite told_app. apply IH, told_room. exact H.
Qed.

(** Pushes to clients with room end, and do what [pushed] says. *)
Lemma pushes_pushed l sa :
  map_Forall (λ _, room (2 * List.length l)) (sa_Chans sa) →
  let r := pushed l (sa_Namespaces sa) in
  pushes l sa = Ok (after r.1 r.2 sa) ∧ (List.length r.2 ≤ 2 * List.length l)%nat.
Proof.
  unfold pushes, pushed. induction l as [|[c event] l IH] using rev_ind; intros H.
  { cbn. unfold after. rewrite told_nil. by destruct sa. }
  rewrite length_app in H. cbn [List.length] in H. rewrite !foldl_snoc.
  destruct IH as [-> Hlen]; [eapply room_weaken; [done|lia]|].
  destruct (foldl _ _ _) as [nss evs]. cbn [fst snd mbind] in *. split.
  - change (PushContainerEvent Marshal now c event (after nss evs sa)
            = Ok (after (pushed_step c event nss).1 (evs ++ (pushed_step c event nss).2) sa)).
    rewrite PushContainerEvent_step.
    + unfold after. cbn. by rewrite told_app.
    + cbn. apply told_room_all. eapply room_weaken; [done|lia].
  - cbn. rewrite !length_app. pose proof (pushed_step_length c event nss). cbn. lia.
Qed.

(** ** Counting *)

(** The containers that have come and not gone, each with its namespace *)
Definition live_step (ce : Container * string) (live : gmap string string) : gmap string string :=
  if String.eqb ce.2 EventAdded
  then <[c_ContainerID ce.1 := c_NamespaceName ce.1]> live
  else if String.eqb ce.2 EventDeleted then delete (c_ContainerID ce.1) live else live.

(** A container comes when it is not there, and goes from its namespace. *)
Definition live_event (live : gmap string string) (ce : Container * string) : Prop :=
  c_ContainerID ce.1 ≠ "" ∧
  (ce.2 = EventAdded ∧ live !! c_ContainerID ce.1 = None
   ∨ ce.2 = EventDeleted ∧ live !! c_ContainerID ce.1 = Some (c_NamespaceName ce.1)
   ∨ ce.2 = EventUpdated).

Fixpoint live_trace (live : gmap string string) (l : list (Container * string)) : Prop :=
  match l with
  | [] => True
  | ce :: l => live_event live ce ∧ live_trace (live_step ce live) l
  end.

Definition live_after (live : gmap string string) (l : list (Container * string)) :=
  foldl (λ live ce, live_step ce live) live l.

Definition in_namespace (live : gmap string string) (ns : string) : gmap string string :=
  filter (λ kv, kv.2 = ns) live.

(** The agent's namespaces are those with containers, each with their number. *)
Definition counted (live : gmap string string) (nss : gmap string StateNamespace) : Prop :=
  ∀ ns, match nss !! ns with
        | Some x => sn_Name x = ns ∧ sn_ContainerCount x = Z.of_nat (size (in_namespace live ns))
                    ∧ sn_ContainerCount x ≠ 0
        | None => in_namespace live ns = ∅
        end.

Lemma in_namespace_insert live id ns ns' :
  live !! id = None →
  in_namespace (<[id := ns]> live) ns'
  = if decide (ns = ns') then <[id := ns]> (in_namespace live ns') else in_namespace live ns'.
Proof.
  intros H. unfold in_namespace. case_decide as Hn.
  - by rewrite map_filter_insert_True.
  - rewrite map_filter_insert_not' by (cbn; naive_solver). done.
Qed.

Lemma in_namespace_delete live id ns ns' :
  live !! id = Some ns →
  in_namespace (delete id live) ns'
  = if decide (ns = ns') then delete id (in_namespace live ns') else in_namespace live ns'.
Proof.
  intros H. unfold in_namespace. rewrite map_filter_delete. case_decide as Hn; [done|].
  apply delete_id. apply map_lookup_filter_None. right. intros x Hx. cbn. congruence.
Qed.

Lemma in_namespace_fresh live id ns : live !! id = None → in_namespace live ns !! id = None.
Proof. intros H. apply map_lookup_filter_None. by left. Qed.

Lemma in_namespace_live live id ns :
  live !! id = Some ns → in_namespace live ns !! id = Some ns.
Proof. intros H. by apply map_lookup_filter_Some. Qed.

Lemma counted_added live nss c :
  counted live nss → live !! c_ContainerID c = None →
  counted (<[c_ContainerID c := c_NamespaceName c]> live) (counted_step c EventAdded nss).1.
Proof.
  intros Hc Hnew ns'. pose proof (Hc ns') as H'. rewrite in_namespace_insert by done.
  unfold counted_step. cbn [String.eqb]. change (String.eqb EventAdded EventAdded) with true.
  pose proof (in_namespace_fresh live (c_ContainerID c) (c_NamespaceName c) Hnew) as Hfresh.
  destruct (decide (c_NamespaceName c = ns')) as [<-|Hne].
  - destruct (nss !! c_NamespaceName c) as [x|]; cbn; rewrite lookup_insert_eq;
      rewrite map_size_insert_None by done.
    + destruct H' as (Hn & Hs & Hz). cbn. rewrite Hn, Hs. split; [done|]. lia.
    + rewrite H'. by split.
  - destruct (nss !! c_NamespaceName c); cbn; rewrite lookup_insert_ne by done; exact H'.
Qed.

Lemma counted_deleted live nss c :
  counted live nss → live !! c_ContainerID c = Some (c_NamespaceName c) →
  counted (delete (c_ContainerID c) live) (counted_step c EventDeleted nss).1.
Proof.
  intros Hc Hl ns'. pose proof (Hc ns') as H'. rewrite (in_namespace_delete _ _ _ _ Hl).
  unfold counted_step. change (String.eqb EventDeleted EventAdded) with false.
  change (String.eqb EventDeleted EventDeleted) with true. cbn [sn_ContainerCount with_count].
  pose proof (in_namespace_live live _ _ Hl) as Hin.
  destruct (decide (c_NamespaceName c = ns')) as [<-|Hne].
  - destruct (nss !! c_NamespaceName c) as [x|] eqn:Hx.
    2: { rewrite H' in Hin. by rewrite lookup_empty in Hin. }
    destruct H' as (Hn & Hs & Hz). pose proof (map_size_delete_Some (c_ContainerID c) _ (ex_intro _ _ Hin)) as Hd.
    destruct (Z.eqb_spec (sn_ContainerCount x - 1) 0) as [H0|H0]; cbn.
    + rewrite lookup_delete_eq. apply map_size_empty_inv. lia.
    + rewrite lookup_insert_eq. cbn. split; [done|]. lia.
  - destruct (nss !! c_NamespaceName c) as [x|]; [|exact H'].
    destruct (_ =? 0); cbn; [rewrite lookup_delete_ne by done|rewrite lookup_insert_ne by done];
      exact H'.
Qed.

Lemma counted_pushed_step live nss ce :
  counted live nss → live_event live ce →
  counted (live_step ce live) (pushed_step ce.1 ce.2 nss).1.
Proof.
  destruct ce as [c event]. intros Hc [Hid Hev]. cbn in Hid, Hev. unfold pushed_step, live_step.
  cbn [fst snd]. apply String.eqb_neq in Hid as ->. cbn [fst].
  destruct Hev as [[-> Hl]|[[-> Hl]| ->]].
  - by apply counted_added.
  - by apply counted_deleted.
  - exact Hc.
Qed.

Lemma pushed_snoc l ce nss :
  pushed (l ++ [ce]) nss
  = ((pushed_step ce.1 ce.2 (pushed l nss).1).1,
     (pushed l nss).2 ++ (pushed_step ce.1 ce.2 (pushed l nss).1).2).
Proof. unfold pushed. by rewrite foldl_snoc. Qed.

Lemma live_trace_snoc live l ce :
  live_trace live (l ++ [ce]) ↔ live_trace live l ∧ live_event (live_after live l) ce.
Proof.
  revert live. induction l as [|d l IH]; intros live; cbn; [tauto|]. rewrite IH. unfold live_after.
  cbn. tauto.
Qed.

Lemma counted_pushed live nss l :
  counted live nss → live_trace live l → counted (live_after live l) (pushed l nss).1.
Proof.
  intros Hc. induction l as [|ce l IH] using rev_ind; [done|].
  rewrite live_trace_snoc, pushed_snoc. intros [Hl Hev]. unfold live_after. rewrite foldl_snoc.
  apply counted_pushed_step; [by apply IH|done].
Qed.

(** ** What a client rebuilds *)

(** The names of namespaces, after an event *)
Definition view_step (s : gset string) ev : gset string :=
  if String.eqb (se_Kind ev) KindNamespace then
    if String.eqb (se_Type ev) EventAdded then {[se_Name ev]} ∪ s
    else if String.eqb (se_Type ev) EventDeleted then s ∖ {[se_Name ev]} else s
  else s.
Definition view (s : gset string) (evs : list StateEvent) : gset string := foldl view_step s evs.

Lemma view_counted_step live nss c event :
  counted live nss →
  view (dom nss) (counted_step c event nss).2 = dom (counted_step c event nss).1.
Proof.
  intros Hc. pose proof (Hc (c_NamespaceName c)) as Hn. unfold counted_step.
  destruct (String.eqb event EventAdded).
  - destruct (nss !! c_NamespaceName c) as [x|] eqn:Hx; cbn.
    + rewrite dom_insert_lookup_L; [done|]. by rewrite Hx.
    + by rewrite dom_insert_L.
  - destruct (String.eqb event EventDeleted); [|done].
    destruct (nss !! c_NamespaceName c) as [x|] eqn:Hx; [|done].
    destruct Hn as [Hn _]. destruct (_ =? 0); cbn.
    + rewrite Hn, dom_delete_L. done.
    + rewrite dom_insert_lookup_L; [done|]. by rewrite Hx.
Qed.

Lemma view_pushed live nss l :
  counted live nss → live_trace live l →
  view (dom nss) (pushed l nss).2 = dom (pushed l nss).1.
Proof.
  intros Hc. induction l as [|ce l IH] using rev_ind; [done|].
  rewrite live_trace_snoc, pushed_snoc. intros [Hl Hev]. unfold view in *. cbn [fst snd].
  rewrite foldl_app, IH by done. unfold pushed_step.
  destruct (String.eqb (c_ContainerID ce.1) ""); [done|]. cbn [fst snd]. rewrite foldl_app.
  fold (view (dom (pushed l nss).1) (counted_step ce.1 ce.2 (pushed l nss).1).2).
  rewrite (view_counted_step _ _ _ _ (counted_pushed live nss l Hc Hl)). done.
Qed.

Lemma offer_all_queue evs conn :
  room (List.length evs) conn → es_queue (offer_all evs conn) = es_queue conn ++ evs.
Proof.
  revert conn. induction evs as [|ev evs IH]; intros conn H; cbn; [by rewrite app_nil_r|].
  unfold offer_all in IH. rewrite IH by (by apply room_offer). destruct H as [Hcl Hl].
  unfold offer. rewrite bool_decide_true by (cbn in Hl; lia). cbn. by rewrite <- app_assoc.
Qed.
End props.

Section theorems.
Context `{RL : GoRangeLaw} (Marshal : StateObject → option string) (now : string).
Context (Marshal_total : ∀ obj, is_Some (Marshal obj)).

(** C28: Every client that has room follows the namespaces.  Let containers come, change and go,
    each one going from the namespace it came to.  If all clients are open and have room for
    two events a push, then no push panics or is lost: the agent's namespaces are those that
    have containers, each with the number of its containers, and every client finds the same
    events at the end of its queue, from which the namespaces of an earlier [GetState] become
    the namespaces of now. *)
Theorem clients_follow_namespaces (sa : StateAgent) (live : gmap string string)
    (l : list (Container * string))
    (now_counted : counted live (sa_Namespaces sa))
    (trace : live_trace live l)
    (have_room : map_Forall (λ _, room (2 * List.length l)) (sa_Chans sa)) :
  ∃ sa' evs, pushes Marshal now l sa = Ok sa' ∧
    counted (live_after live l) (sa_Namespaces sa') ∧
    (∀ uid conn, sa_Chans sa !! uid = Some conn →
       es_queue <$> sa_Chans sa' !! uid = Some (es_queue conn ++ evs)) ∧
    view (dom (sa_Namespaces sa)) evs = dom (sa_Namespaces sa').
Proof.
  destruct (pushes_pushed Marshal now Marshal_total l sa have_room) as [Hp Hlen].
  eexists _, (pushed Marshal now l (sa_Namespaces sa)).2. split; [exact Hp|]. cbn. split; [|split].
  - by apply counted_pushed.
  - intros uid conn Hu. unfold told. rewrite lookup_fmap, Hu. cbn. f_equal. apply offer_all_queue.
    eapply room_le; [exact (have_room uid conn Hu)|done].
  - by eapply view_pushed.
Qed.

(** The handlers push in goroutines, so the order of two pushes is not fixed.  If the end
    of a short container overtakes its beginning, the agent keeps a namespace with one
    container, which is never deleted again; in the other order it does not. *)
Theorem overtaken_push_stays (sa : StateAgent) (c : Container)
    (known : c_ContainerID c ≠ "")
    (first : sa_Namespaces sa !! c_NamespaceName c = None)
    (have_room : map_Forall (λ _, room 4) (sa_Chans sa)) :
  (∃ sa', pushes Marshal now [(c, EventDeleted); (c, EventAdded)] sa = Ok sa' ∧
     sa_Namespaces sa' = <[c_NamespaceName c := new_namespace c]> (sa_Namespaces sa)) ∧
  (∃ sa', pushes Marshal now [(c, EventAdded); (c, EventDeleted)] sa = Ok sa' ∧
     sa_Namespaces sa' = sa_Namespaces sa).
Proof.
  split; (eexists; split;
    [apply (pushes_pushed Marshal now Marshal_total [_; _] sa have_room)|]); cbn -[String.eqb];
    unfold pushed_step; apply String.eqb_neq in known as ->; cbn -[String.eqb];
    unfold counted_step; cbn.
  - rewrite first. cbn. rewrite first. cbn. done.
  - rewrite first. cbn. rewrite lookup_insert_eq. cbn. by rewrite delete_insert_id.
Qed.
End theorems.

(** A full client keeps events from others: the loop over the clients ends at the first
    that is full, so the event reaches exactly those that the order of the map puts before
    it. *)
Theorem full_client_starves_others `{RL : GoRangeLaw} (sa : StateAgent) (ev : StateEvent) uid conn l l'
    (order : go_range (sa_Chans sa) = l ++ (uid, conn) :: l')
    (before : ∀ kv, kv ∈ l → room 1 kv.2)
    (full : es_closed conn = false ∧ (es_cap conn ≤ List.length (es_queue conn))%nat) :
  ∃ sa', send_event ev sa = Ok sa' ∧
    ∀ uid', sa_Chans sa' !! uid' =
            if decide (uid' ∈ l.*1) then offer ev <$> sa_Chans sa !! uid' else sa_Chans sa !! uid'.
Proof.
  eexists. split.
  { unfold send_event. rewrite order, send_loop_prefix by done. cbn. destruct full as [-> Hf].
    rewrite bool_decide_false by lia. done. }
  intros uid'. cbn. unfold offers. pose proof (NoDup_go_range (sa_Chans sa)) as Hnd.
  rewrite order, fmap_app in Hnd. apply list.NoDup_app in Hnd as [Hnd _].
  case_decide as Hin.
  - apply list_elem_of_fmap in Hin as ([k c] & -> & Hin). cbn.
    assert (sa_Chans sa !! k = Some c) as ->.
    { apply elem_of_go_range. rewrite order. set_solver. }
    apply insert_all_lookup; [by rewrite <- list_fmap_compose|].
    apply list_elem_of_fmap. by exists (k, c).
  - apply insert_all_lookup_ne. by rewrite <- list_fmap_compose.
Qed.

(** ** Witnesses *)

Definition some_container (id ns : string) : Container :=
  {| c_ContainerID := id; c_ContainerName := id; c_ContainerImage := "img";
     c_NamespaceName := ns; c_Owner := ("", "", ""); c_EndPointName := ""; c_Labels := "";
     c_AppArmorProfile := ""; c_Privileged := false; c_PidNS := 1; c_MntNS := 2; c_Pid := 3;
     c_NodeName := "node"; c_NodeID := "id"; c_ProtocolPort := ""; c_Status := "";
     c_ContainerIP := ""; c_LastUpdatedAt := ""; c_PolicyEnabled := KubeArmorPolicyEnabled;
     c_ProcessVisibilityEnabled := true; c_FileVisibilityEnabled := true;
     c_NetworkVisibilityEnabled := true; c_CapabilitiesVisibilityEnabled := true |}.

Definition some_json (obj : StateObject) : option string := Some "{}".
Definition some_client : StateAgent := addStateEventChan "client" NewStateAgent.

(** Two containers of a namespace come, one of another; one of the first goes. *)
Definition some_pushes : list (Container * string) :=
  [(some_container "c1" "a", EventAdded); (some_container "c2" "a", EventAdded);
   (some_container "c3" "b", EventAdded); (some_container "c1" "a", EventDeleted)].

Lemma some_client_room n : (n ≤ 25)%nat → map_Forall (λ _, room n) (sa_Chans some_client).
Proof. intros Hn. apply map_Forall_singleton. split; [done|exact Hn]. Qed.

Lemma clients_follow_namespaces_witness :
  ∃ sa' evs, pushes (R:=canonical_range) some_json "now" some_pushes some_client = Ok sa' ∧
    counted (live_after ∅ some_pushes) (sa_Namespaces sa') ∧
    (∀ uid conn, sa_Chans some_client !! uid = Some conn →
       es_queue <$> sa_Chans sa' !! uid = Some (es_queue conn ++ evs)) ∧
    view (dom (sa_Namespaces some_client)) evs = dom (sa_Namespaces sa').
Proof.
  apply (clients_follow_namespaces (RL:=canonical_range_law) some_json "now"
           (λ obj, ex_intro _ "{}" eq_refl) some_client ∅ some_pushes).
  - intros ns. vm_compute. reflexivity.
  - repeat split; try discriminate;
      first [left; split; reflexivity | right; left; split; reflexivity].
  - apply some_client_room. vm_compute. repeat constructor.
Defined.

Definition full_client : EventStruct StateEvent :=
  {| es_Filter := ""; es_cap := 0; es_queue := []; es_closed := false |}.
Definition two_clients : StateAgent :=
  set_Chans (<["slow" := full_client]> (sa_Chans some_client)) some_client.
Definition some_event : StateEvent :=
  {| se_Kind := KindNode; se_Type := EventAdded; se_Name := "n"; se_Object := "{}" |}.

Lemma full_client_starves_others_witness :
  ∃ sa', send_event (R:=canonical_range) some_event two_clients = Ok sa' ∧
    ∀ uid', sa_Chans sa' !! uid' =
            if decide (uid' ∈ ([] : list (string * EventStruct StateEvent)).*1)
            then offer some_event <$> sa_Chans two_clients !! uid'
            else sa_Chans two_clients !! uid'.
Proof.
  refine (full_client_starves_others (RL:=canonical_range_law) two_clients some_event "slow"
            full_client [] (drop 1 (map_to_list (sa_Chans two_clients))) _ _ _).
  - vm_compute. reflexivity.
  - intros kv H. apply elem_of_nil in H. destruct H.
  - split; [reflexivity|]. vm_compute. repeat constructor.
Defined.

Lemma overtaken_push_stays_witness :
  let c := some_container "c1" "a" in
  (∃ sa', pushes (R:=canonical_range) some_json "now" [(c, EventDeleted); (c, EventAdded)] some_client
          = Ok sa' ∧ sa_Namespaces sa' = <["a" := new_namespace c]> (sa_Namespaces some_client)) ∧
  (∃ sa', pushes (R:=canonical_range) some_json "now" [(c, EventAdded); (c, EventDeleted)] some_client
          = Ok sa' ∧ sa_Namespaces sa' = sa_Namespaces some_client).
Proof.
  apply (overtaken_push_stays (RL:=canonical_range_law) some_json "now"
           (λ obj, ex_intro _ "{}" eq_refl) some_client (some_container "c1" "a")).
  - discriminate.
  - reflexivity.
  - apply some_client_room. repeat constructor.
Defined.
