(* ===== verification/Controller.v ===== *)
(** KubeArmorController, a separate program ([pkg/KubeArmorController]): the webhook that
    annotates pods ([handlers/pod_mutation.go], [common/common.go]), the watcher of nodes
    ([informer/nodewatcher.go]), and the reconciler that restarts pods without annotations
    ([internal/controller/podrefresh_controller.go]).

    Objects are decoded; the answers of the API are arguments, [None] an error.  A map of
    annotations can be nil: writing to it panics. *)
From Stdlib Require Import Ascii String.
From S2P Require Import Prelude GoStrings Common.

Open Scope string_scope.
Open Scope Z_scope.

Definition appArmorAnnotation : string := "container.apparmor.security.beta.kubernetes.io/".
Definition k8sVisibility : string := "process,file,network,capabilities".
Definition policy_annotation : string := "kubearmor-policy".
Definition visibility_annotation : string := "kubearmor-visibility".

Record OwnerReference := { or_Kind : string; or_Name : string; or_Controller : option bool }.

Record KMeta := {
  km_Name : string; km_Namespace : string; km_Labels : gmap string string;
  km_Annotations : option (gmap string string); km_Owners : list OwnerReference }.

Record KPod := {
  kp_Meta : KMeta; kp_Containers : list string; kp_NodeName : string; kp_Deleting : bool }.

Definition annotations (m : KMeta) : gmap string string := default ∅ (km_Annotations m).
Definition set_annotations (a : option (gmap string string)) (m : KMeta) : KMeta :=
  {| km_Name := km_Name m; km_Namespace := km_Namespace m; km_Labels := km_Labels m;
     km_Annotations := a; km_Owners := km_Owners m |}.
Definition set_namespace (ns : string) (m : KMeta) : KMeta :=
  {| km_Name := km_Name m; km_Namespace := ns; km_Labels := km_Labels m;
     km_Annotations := km_Annotations m; km_Owners := km_Owners m |}.
Definition set_meta (m : KMeta) (pod : KPod) : KPod :=
  {| kp_Meta := m; kp_Containers := kp_Containers pod; kp_NodeName := kp_NodeName pod;
     kp_Deleting := kp_Deleting pod |}.

(** The object that a failed request leaves *)
Definition zero_KPod : KPod :=
  {| kp_Meta := {| km_Name := ""; km_Namespace := ""; km_Labels := ∅; km_Annotations := None;
                   km_Owners := [] |};
     kp_Containers := []; kp_NodeName := ""; kp_Deleting := false |}.

(** ** Annotations *)

Definition TrimSuffix (s suffix : string) : string :=
  if HasSuffix s suffix then substring 0 (String.length s - String.length suffix) s else s.

(** [strings.Split(s, "/")[1]] *)
Definition split_1 (s : string) : Res string :=
  match split slash s with _ :: x :: _ => Ok x | _ => Panic end.

(** The name of the managing controller; of a replica set's without the hash *)
Definition owner_step (labels : gmap string string) (name : string) (ref : OwnerReference)
    : string :=
  match or_Controller ref with
  | Some true =>
      if String.eqb (or_Kind ref) "ReplicaSet"
      then TrimSuffix (or_Name ref) ("-" +:+ default "" (labels !! "pod-template-hash"))
      else or_Name ref
  | _ => name
  end.
Definition podOwnerName (m : KMeta) : string :=
  let name := foldl (owner_step (km_Labels m)) "" (km_Owners m) in
  if String.eqb name "" then km_Name m else name.

Definition existing_annotation (r : Res (gmap string string)) (kv : string * string)
    : Res (gmap string string) :=
  m ← r;
  if HasPrefix kv.1 appArmorAnnotation then
    containerName ← split_1 kv.1;
    v ← (if String.eqb kv.2 "unconfined" then Ok kv.2 else split_1 kv.2);
    Ok (<[containerName := v]> m)
  else Ok m.

Definition profile_of (m : KMeta) (container : string) : string :=
  "kubearmor-" +:+ km_Namespace m +:+ "-" +:+ podOwnerName m +:+ "-" +:+ container.

Definition add_profile (m : KMeta) (profiles : gmap string string) (container : string)
    : gmap string string :=
  match profiles !! container with
  | Some _ => profiles
  | None => <[container := profile_of m container]> profiles
  end.

Definition write_annotation (r : Res (option (gmap string string))) (kv : string * string)
    : Res (option (gmap string string)) :=
  target ← r;
  if String.eqb kv.2 "unconfined" then Ok target
  else match target with
       | Some a => Ok (Some (<[appArmorAnnotation +:+ kv.1 := "localhost/" +:+ kv.2]> a))
       | None => Panic
       end.

(** Labels of the components of Kubernetes *)
Definition exempt_components : list string :=
  ["etcd"; "kube-apiserver"; "kube-controller-manager"; "kube-scheduler"; "kube-proxy"].

Definition IsAppArmorExempt (labels : gmap string string) (namespace : string) : bool :=
  let has l := match labels !! l with Some _ => true | None => false end in
  String.eqb namespace "kube-system"
    && (has "k8s-app" || match labels !! "component" with
                         | Some value => ContainsElement exempt_components value
                         | None => false end)
  || has "io.cilium/app" || has "kubearmor-app".

Definition good_policy (s : string) : bool :=
  ContainsElement ["enabled"; "disabled"; "audited"] s.

(** The exceptions write the same value, one after the other. *)
Definition AddCommonAnnotations (obj : KMeta) : KMeta :=
  let a := annotations obj in
  let a := match a !! policy_annotation with
           | Some v => if good_policy v then a else <[policy_annotation := "enabled"]> a
           | None => <[policy_annotation := "enabled"]> a
           end in
  let a := if IsAppArmorExempt (km_Labels obj) (km_Namespace obj)
           then <[policy_annotation := "audited"]> a else a in
  let a := match a !! visibility_annotation with
           | Some _ => a | None => <[visibility_annotation := k8sVisibility]> a end in
  set_annotations (Some a) obj.

Definition has_apparmor_annotation (m : KMeta) : bool :=
  existsb (λ kv, HasPrefix kv.1 appArmorAnnotation) (map_to_list (annotations m)).
Definition HandleAppArmor (m : KMeta) : bool := negb (has_apparmor_annotation m).
Definition HandleBPF (m : KMeta) : bool := has_apparmor_annotation m.

Definition RemoveApparmorAnnotation (m : KMeta) : KMeta :=
  set_annotations
    ((filter (λ kv : string * string, HasPrefix kv.1 appArmorAnnotation = false))
       <$> km_Annotations m) m.

(** ** Nodes *)

Record NodeInfo := { ni_KubeArmorActive : bool; ni_Enforcer : string }.
Record Cluster := {
  cl_Nodes : gmap string NodeInfo; cl_HomogeneousStatus : bool; cl_HomogenousApparmor : bool;
  cl_TotalNodes : Z }.

Definition InitCluster : Cluster :=
  {| cl_Nodes := ∅; cl_HomogeneousStatus := true; cl_HomogenousApparmor := false;
     cl_TotalNodes := 0 |}.

(** A node's name and labels, which can be nil; the nodes of KubeArmor's pods *)
Record KNode := { kn_Name : string; kn_Labels : option (gmap string string) }.

Definition CheckKubearmorStatus (nodeName : string) (pods : option (list string)) : bool :=
  existsb (String.eqb nodeName) (default [] pods).

Definition enforcer_label : string := "kubearmor.io/enforcer".
Definition enforcer_of (node : KNode) : option string :=
  labels ← kn_Labels node; labels !! enforcer_label.

Definition set_Nodes (nodes : gmap string NodeInfo) (total : Z) (cl : Cluster) : Cluster :=
  {| cl_Nodes := nodes; cl_HomogeneousStatus := cl_HomogeneousStatus cl;
     cl_HomogenousApparmor := cl_HomogenousApparmor cl; cl_TotalNodes := total |}.

Definition homogeneous (cl : Cluster) : bool :=
  negb (bool_decide (0 < size (cl_Nodes cl))%nat
        && negb (cl_TotalNodes cl =? Z.of_nat (size (cl_Nodes cl)))).

Definition recompute (apparmor : bool) (cl : Cluster) : Cluster :=
  {| cl_Nodes := cl_Nodes cl; cl_HomogeneousStatus := homogeneous cl;
     cl_HomogenousApparmor := homogeneous cl && apparmor; cl_TotalNodes := cl_TotalNodes cl |}.

Definition node_info (node : KNode) (pods : option (list string)) : NodeInfo :=
  {| ni_KubeArmorActive := CheckKubearmorStatus (kn_Name node) pods; ni_Enforcer := "apparmor" |}.

Definition AddFunc (pods : option (list string)) (node : KNode) (cl : Cluster) : Cluster :=
  match enforcer_of node with
  | None => cl
  | Some enforcer =>
      let apparmor := String.eqb enforcer "apparmor" in
      recompute apparmor
        (set_Nodes (if apparmor then <[kn_Name node := node_info node pods]> (cl_Nodes cl)
                    else cl_Nodes cl) (cl_TotalNodes cl + 1) cl)
  end.

(** A node with another enforcer than before is forgotten. *)
Definition forget_changed (enforcer name : string) (nodes : gmap string NodeInfo)
    : gmap string NodeInfo :=
  match nodes !! name with
  | Some info => if String.eqb enforcer (ni_Enforcer info) then nodes else delete name nodes
  | None => nodes
  end.

Definition UpdateFunc (pods : option (list string)) (node : KNode) (cl : Cluster) : Cluster :=
  match enforcer_of node with
  | None => cl
  | Some enforcer =>
      let apparmor := String.eqb enforcer "apparmor" in
      let nodes := forget_changed enforcer (kn_Name node) (cl_Nodes cl) in
      recompute apparmor
        (set_Nodes (if apparmor then <[kn_Name node := node_info node pods]> nodes else nodes)
           (cl_TotalNodes cl) cl)
  end.

Definition DeleteFunc (node : KNode) (cl : Cluster) : Cluster :=
  let cl := set_Nodes (delete (kn_Name node) (cl_Nodes cl)) (cl_TotalNodes cl - 1) cl in
  if bool_decide (cl_Nodes cl = ∅) && (cl_TotalNodes cl =? 0) then cl
  else recompute (cl_TotalNodes cl =? Z.of_nat (size (cl_Nodes cl))) cl.

Definition active_node (cl : Cluster) (name : string) : bool :=
  match cl_Nodes cl !! name with Some info => ni_KubeArmorActive info | None => false end.

(** ** The webhook *)

Section controller.
Context `{R : GoRange}.

Definition AppArmorAnnotator (pod : KPod) (target : option (gmap string string))
    : Res (option (gmap string string)) :=
  let m := kp_Meta pod in
  existing ← foldl existing_annotation (Ok ∅) (go_range (annotations m));
  foldl write_annotation (Ok target)
    (go_range (foldl (add_profile m) existing (kp_Containers pod))).

(** The answer: an error, or the patch from the raw object to the new one, if that has a
    JSON form *)
Inductive Response := Errored (code : Z) | PatchResponse (m : KMeta).

Definition respond (marshals : KMeta → bool) (m : KMeta) : Response :=
  if marshals m then PatchResponse m else Errored 500.

Definition with_namespace (namespace : string) (m : KMeta) : KMeta :=
  if String.eqb (km_Namespace m) "" then set_namespace namespace m else m.

(** A binding of a pod to the node [target] *)
Definition handle_binding (cl : Cluster) (marshals : KMeta → bool)
    (get_pod : string → string → option KPod) (namespace : string)
    (decoded : option (KMeta * string)) : Res Response :=
  match decoded with
  | None => Ok (Errored 400)
  | Some (binding, target) =>
      let binding := AddCommonAnnotations (with_namespace namespace binding) in
      let pod := default zero_KPod (get_pod (km_Namespace binding) (km_Name binding)) in
      a ← (if active_node cl target then AppArmorAnnotator pod (km_Annotations binding)
           else Ok (km_Annotations binding));
      Ok (respond marshals (set_annotations a binding))
  end.

(** A pod: only one that has its node is annotated. *)
Definition handle_pod (cl : Cluster) (marshals : KMeta → bool) (namespace : string)
    (decoded : option KPod) : Res Response :=
  match decoded with
  | None => Ok (Errored 400)
  | Some pod =>
      if String.eqb (kp_NodeName pod) "" then Ok (respond marshals (kp_Meta pod))
      else
        let m := AddCommonAnnotations (with_namespace namespace (kp_Meta pod)) in
        a ← (if active_node cl (kp_NodeName pod)
             then AppArmorAnnotator (set_meta m pod) (km_Annotations m)
             else Ok (km_Annotations m));
        Ok (respond marshals (set_annotations a m))
  end.

(** ** The reconciler *)

Inductive Action :=
| PatchPod (m : KMeta)
| DeletePod (namespace name : string)
| CreatePod (pod : KPod)
| RestartResource (kind namespace name : string).

(** Kind and namespace of what is restarted *)
Definition ResourceInfo : Type := string * string.

Definition requireRestart (m : KMeta) (enforcer : string) : bool :=
  let has l := match km_Labels m !! l with Some _ => true | None => false end in
  negb (String.eqb (km_Namespace m) "kube-system") && negb (has "io.cilium/app")
  && negb (has "kubearmor-app") && HandleAppArmor m && String.eqb enforcer "apparmor".

(** The owners of a replica set, by namespace and name; resources by kind, namespace and
    name; whether the update of a deployment or the like succeeds does not matter. *)
Context (get_replicaset : string → string → option (list (string * string)))
        (get_resource : string → string → string → bool).

Definition replicaset_owner (namespace : string) (resources : gmap string ResourceInfo)
    (owner : string * string) : gmap string ResourceInfo :=
  if String.eqb owner.1 "Deployment" then <[owner.2 := (owner.1, namespace)]> resources
  else resources.

(** The controller of an owner is dereferenced. *)
Definition owner_resource (namespace : string) (r : Res (gmap string ResourceInfo))
    (ref : OwnerReference) : Res (gmap string ResourceInfo) :=
  resources ← r;
  match or_Controller ref with
  | None => Panic
  | Some false => Ok resources
  | Some true =>
      if String.eqb (or_Kind ref) "ReplicaSet" then
        match get_replicaset namespace (or_Name ref) with
        | None => Ok resources
        | Some owners => Ok (foldl (replicaset_owner namespace) resources owners)
        end
      else Ok (<[or_Name ref := (or_Kind ref, namespace)]> resources)
  end.

Definition skipped (cl : Cluster) (pod : KPod) : bool :=
  kp_Deleting pod || String.eqb (kp_NodeName pod) ""
  || match cl_Nodes cl !! kp_NodeName pod with
     | Some info => negb (ni_KubeArmorActive info) | None => false end.

(** One turn over the pods: the actions so far, and the resources to restart *)
Definition refresh_step (cl : Cluster) (r : Res (list Action * gmap string ResourceInfo))
    (pod : KPod) : Res (list Action * gmap string ResourceInfo) :=
  st ← r;
  let '(actions, resources) := st in
  if skipped cl pod then Ok st
  else
    let enforcer := match cl_Nodes cl !! kp_NodeName pod with
                    | Some _ => "apparmor" | None => "bpf" end in
    let m := kp_Meta pod in
    let '(m, actions) := match annotations m !! policy_annotation with
                         | Some _ => (m, actions)
                         | None => (AddCommonAnnotations m,
                                    actions ++ [PatchPod (AddCommonAnnotations m)])%list end in
    if requireRestart m enforcer then
      match km_Owners m with
      | [] => Ok ((actions ++ [DeletePod (km_Namespace m) (km_Name m); CreatePod (set_meta m pod)])%list,
                  resources)
      | owners =>
          resources ← foldl (owner_resource (km_Namespace m)) (Ok resources) owners;
          Ok (actions, resources)
      end
    else Ok (actions, resources).

(** The names of the kinds are those of the code. *)
Definition restartable : list string := ["Deployment"; "Statefulset"; "Daemonset"].

Definition restart_step (actions : list Action) (res : string * ResourceInfo) : list Action :=
  let '(name, (kind, namespace)) := res in
  if ContainsElement restartable kind && get_resource kind namespace name
  then (actions ++ [RestartResource kind namespace name])%list else actions.

Definition restartResources (resources : gmap string ResourceInfo) : list Action :=
  foldl restart_step [] (go_range resources).

Definition Reconcile (cl : Cluster) (pods : option (list KPod)) : Res (list Action) :=
  match pods with
  | None => Ok []
  | Some pods =>
      st ← foldl (refresh_step cl) (Ok ([], ∅)) pods;
      Ok (st.1 ++ restartResources st.2)%list
  end.
End controller.
