(* ===== verification/ControllerProps.v ===== *)
(** The controller's annotations: what the webhook writes, that the daemon reads it back, and
    what it does to foreign profiles. *)
From Stdlib Require Import Ascii String.
From S2P Require Import Prelude GoStrings Types Common Controller PodEvents.

Open Scope string_scope.
Open Scope list_scope.

(** ** Keys and values *)

Definition aa_key (c : string) : string := appArmorAnnotation +:+ c.
Definition localhost (p : string) : string := "localhost/" +:+ p.

Arguments aa_key : simpl never.
Arguments localhost : simpl never.

Lemma aa_key_inj c c' : aa_key c = aa_key c' → c = c'.
Proof. unfold aa_key. intros H. by injection H. Qed.

Lemma aa_key_prefix k : HasPrefix k appArmorAnnotation = true ↔ ∃ c, k = aa_key c.
Proof. apply HasPrefix_app. Qed.

Lemma split_1_app a b :
  char_in slash a = false → char_in slash b = false → split_1 (a +:+ "/" +:+ b) = Ok b.
Proof.
  intros Ha Hb. unfold split_1. change ("/" +:+ b) with (String slash b).
  rewrite split_app_sep, (split_no_sep slash a Ha), (split_no_sep slash b Hb). done.
Qed.

Lemma split_1_key c : char_in slash c = false → split_1 (aa_key c) = Ok c.
Proof.
  intros H. change (aa_key c) with ("container.apparmor.security.beta.kubernetes.io" +:+ "/" +:+ c).
  by apply split_1_app.
Qed.

(** The profile that a value names *)
Definition profile_value (v : string) : string :=
  if String.eqb v "unconfined" then v else match split_1 v with Ok p => p | Panic => "" end.

(** Values with a slash, as [runtime/default], or [unconfined] *)
Definition good_value (v : string) : Prop :=
  v = "unconfined" ∨
  ∃ q p, v = q +:+ "/" +:+ p ∧ char_in slash q = false ∧ char_in slash p = false
         ∧ p ≠ "unconfined".

(** Annotations of AppArmor name a container each. *)
Definition settled (a : gmap string string) : Prop :=
  ∀ k v, a !! k = Some v → HasPrefix k appArmorAnnotation = true →
    ∃ c, k = aa_key c ∧ char_in slash c = false ∧ good_value v.

Lemma localhost_good p : char_in slash p = false → p ≠ "unconfined" → good_value (localhost p).
Proof. intros Hp Hu. right. by exists "localhost", p. Qed.

Lemma slash_not_unconfined q p : q +:+ "/" +:+ p ≠ "unconfined".
Proof.
  intros H. apply (f_equal (char_in slash)) in H. revert H.
  induction q as [|c q IH]; cbn; [done|]. intros H. by destruct (Ascii.eqb c slash).
Qed.

Lemma profile_value_app q p :
  char_in slash q = false → char_in slash p = false → profile_value (q +:+ "/" +:+ p) = p.
Proof.
  intros Hq Hp. unfold profile_value. pose proof (slash_not_unconfined q p) as H.
  apply String.eqb_neq in H as ->. by rewrite split_1_app.
Qed.

(** A good value is read. *)
Lemma read_value v :
  good_value v → (if String.eqb v "unconfined" then Ok v else split_1 v) = Ok (profile_value v).
Proof.
  intros [->|(q & p & -> & Hq & Hp & _)]; [done|].
  rewrite (profile_value_app q p Hq Hp), split_1_app by done.
  pose proof (slash_not_unconfined q p) as H. by apply String.eqb_neq in H as ->.
Qed.

(** ** The loops *)

Definition reads (l : list (string * string)) (m m' : gmap string string) : Prop :=
  ∀ c, m' !! c = match (list_to_map l : gmap string string) !! aa_key c with
                 | Some v => Some (profile_value v) | None => m !! c end.

Lemma existing_loop l m :
  NoDup l.*1 →
  (∀ k v, (k, v) ∈ l → HasPrefix k appArmorAnnotation = true →
     ∃ c, k = aa_key c ∧ char_in slash c = false ∧ good_value v) →
  ∃ m', foldl existing_annotation (Ok m) l = Ok m' ∧ reads l m m'.
Proof.
  unfold reads. revert m. induction l as [|[k v] l IH]; intros m Hnd Hl; [by exists m|].
  apply list.NoDup_cons in Hnd as [Hk Hnd]. cbn [foldl].
  specialize (IH (match HasPrefix k appArmorAnnotation with
                  | true => <[match split_1 k with Ok c => c | Panic => "" end := profile_value v]> m
                  | false => m end) Hnd) as (m' & Hm' & Hr).
  { intros k' v' Hin. apply Hl. by right. }
  exists m'. unfold existing_annotation at 2. cbn [fst snd mbind Res_bind].
  destruct (HasPrefix k appArmorAnnotation) eqn:Hp.
  - destruct (Hl k v) as (c & -> & Hc & Hv); [left|done|]. rewrite split_1_key in Hm', Hr |- * by done.
    cbn [mbind Res_bind]. rewrite (read_value v Hv). split; [exact Hm'|]. intros c'. rewrite Hr. cbn.
    destruct (decide (c' = c)) as [->|Hne].
    + rewrite !lookup_insert_eq. rewrite not_elem_of_list_to_map_1 by done. done.
    + by rewrite !lookup_insert_ne by (congruence || (intros ?%aa_key_inj; congruence)).
  - split; [exact Hm'|]. intros c. rewrite Hr. cbn. rewrite lookup_insert_ne; [done|].
    intros ->. enough (HasPrefix (aa_key c) appArmorAnnotation = true) by congruence.
    apply aa_key_prefix. eauto.
Qed.

(** The profiles of the containers *)
Lemma add_profiles m cs P c :
  foldl (add_profile m) P cs !! c =
  match P !! c with
  | Some v => Some v
  | None => if bool_decide (c ∈ cs) then Some (profile_of m c) else None
  end.
Proof.
  revert P. induction cs as [|c' cs IH]; intros P; cbn; [by destruct (P !! c)|].
  rewrite IH. unfold add_profile. destruct (P !! c') as [v|] eqn:Hc'.
  - destruct (P !! c) eqn:Hc; [done|]. assert (c ≠ c') by congruence.
    case_bool_decide as H1; case_bool_decide as H2; set_solver.
  - destruct (decide (c = c')) as [->|Hne].
    + rewrite lookup_insert_eq, Hc'. by rewrite bool_decide_true by left.
    + rewrite lookup_insert_ne by done. destruct (P !! c); [done|].
      case_bool_decide as H1; case_bool_decide as H2; set_solver.
Qed.

Definition written (t : gmap string string) (c : string) (p : option string) : option string :=
  match p with
  | Some v => if String.eqb v "unconfined" then t !! aa_key c else Some (localhost v)
  | None => t !! aa_key c
  end.

Lemma write_loop l t :
  NoDup l.*1 →
  ∃ t', foldl write_annotation (Ok (Some t)) l = Ok (Some t') ∧
    (∀ c, t' !! aa_key c = written t c ((list_to_map l : gmap string string) !! c)) ∧
    (∀ k, HasPrefix k appArmorAnnotation = false → t' !! k = t !! k).
Proof.
  revert t. induction l as [|[c v] l IH]; intros t Hnd; [by exists t|].
  apply list.NoDup_cons in Hnd as [Hc Hnd]. cbn [foldl].
  specialize (IH (if String.eqb v "unconfined" then t else <[aa_key c := localhost v]> t) Hnd)
    as (t' & Ht' & Hk & Ho).
  exists t'. unfold write_annotation at 2. cbn [fst snd mbind Res_bind].
  split; [by destruct (String.eqb v "unconfined")|]. split.
  - intros c'. rewrite Hk. cbn. unfold written. destruct (decide (c' = c)) as [->|Hne].
    + rewrite lookup_insert_eq, not_elem_of_list_to_map_1 by done.
      destruct (String.eqb v "unconfined"); [done|]. by rewrite lookup_insert_eq.
    + rewrite lookup_insert_ne by congruence.
      destruct (String.eqb v "unconfined"); [done|].
      by rewrite lookup_insert_ne by (by intros ?%eq_sym%aa_key_inj).
  - intros k Hp. rewrite Ho by done. destruct (String.eqb v "unconfined"); [done|].
    rewrite lookup_insert_ne; [done|]. intros <-.
    enough (HasPrefix (aa_key c) appArmorAnnotation = true) by congruence.
    apply aa_key_prefix. eauto.
Qed.

(** ** The annotator *)

Section annotator.
Context `{RL : GoRangeLaw}.

(** The profile that a container has after the webhook: the annotated one, or its own *)
Definition pod_profile (pod : KPod) (c : string) : option string :=
  match annotations (kp_Meta pod) !! aa_key c with
  | Some v => Some (profile_value v)
  | None => if bool_decide (c ∈ kp_Containers pod) then Some (profile_of (kp_Meta pod) c) else None
  end.

Definition annotated (pod : KPod) (t t' : gmap string string) : Prop :=
  (∀ c, t' !! aa_key c = written t c (pod_profile pod c)) ∧
  (∀ k, HasPrefix k appArmorAnnotation = false → t' !! k = t !! k).

Lemma settled_range a k v :
  settled a → (k, v) ∈ go_range a → HasPrefix k appArmorAnnotation = true →
  ∃ c, k = aa_key c ∧ char_in slash c = false ∧ good_value v.
Proof. intros Ha Hin. apply Ha. by apply elem_of_go_range. Qed.

Lemma existing_settled a :
  settled a →
  ∃ m, foldl existing_annotation (Ok ∅) (go_range a) = Ok m ∧
       ∀ c, m !! c = profile_value <$> a !! aa_key c.
Proof.
  intros Ha. destruct (existing_loop (go_range a) ∅) as (m & Hm & Hr).
  - apply NoDup_go_range.
  - intros k v. by apply settled_range.
  - exists m. split; [done|]. intros c. rewrite Hr, list_to_map_go_range.
    by destruct (a !! aa_key c).
Qed.

Lemma annotator_annotated pod t :
  settled (annotations (kp_Meta pod)) →
  ∃ t', AppArmorAnnotator pod (Some t) = Ok (Some t') ∧ annotated pod t t'.
Proof.
  intros Ha. destruct (existing_settled _ Ha) as (m & Hm & Hr).
  destruct (write_loop (go_range (foldl (add_profile (kp_Meta pod)) m (kp_Containers pod))) t)
    as (t' & Ht' & Hk & Ho); [apply NoDup_go_range|].
  exists t'. unfold AppArmorAnnotator. rewrite Hm. split; [exact Ht'|]. split; [|done].
  intros c. rewrite Hk, list_to_map_go_range, add_profiles, Hr. unfold pod_profile.
  by destruct (annotations (kp_Meta pod) !! aa_key c).
Qed.

Lemma annotator_other pod t r :
  AppArmorAnnotator pod (Some t) = Ok r →
  ∃ t', r = Some t' ∧ ∀ k, HasPrefix k appArmorAnnotation = false → t' !! k = t !! k.
Proof.
  unfold AppArmorAnnotator. destruct (foldl existing_annotation _ _) as [m|]; [|done].
  cbn [mbind Res_bind].
  destruct (write_loop (go_range (foldl (add_profile (kp_Meta pod)) m (kp_Containers pod))) t)
    as (t' & -> & _ & Ho); [apply NoDup_go_range|]. intros [= <-]. by exists t'.
Qed.

(** Names of which a profile is made have no slash. *)
Definition plain_names (pod : KPod) : Prop :=
  (∀ c, c ∈ kp_Containers pod → char_in slash c = false) ∧
  char_in slash (km_Namespace (kp_Meta pod)) = false ∧
  char_in slash (podOwnerName (kp_Meta pod)) = false.

Lemma char_in_concat c a b : char_in c (a +:+ b) = char_in c a || char_in c b.
Proof. induction a as [|d a IH]; [done|]. cbn. by rewrite IH, orb_assoc. Qed.

Lemma profile_of_plain pod c :
  plain_names pod → c ∈ kp_Containers pod →
  char_in slash (profile_of (kp_Meta pod) c) = false ∧ profile_of (kp_Meta pod) c ≠ "unconfined".
Proof.
  intros (Hc & Hn & Ho) Hin. unfold profile_of. rewrite !char_in_concat, Hn, Ho, (Hc c Hin).
  split; done.
Qed.

Lemma good_profile_value v :
  good_value v → v ≠ "unconfined" →
  char_in slash (profile_value v) = false ∧ profile_value v ≠ "unconfined".
Proof. intros [->|(q & p & -> & Hq & Hp & Hu)] H; [done|]. by rewrite profile_value_app. Qed.

(** The annotations of the webhook are good ones again. *)
Lemma annotated_settled pod t' :
  settled (annotations (kp_Meta pod)) → plain_names pod →
  annotated pod (annotations (kp_Meta pod)) t' → settled t'.
Proof.
  intros Ha Hn [Hk _] k v Hv Hp. apply aa_key_prefix in Hp as [c ->]. exists c. split; [done|].
  rewrite Hk in Hv. unfold pod_profile, written in Hv.
  destruct (annotations (kp_Meta pod) !! aa_key c) as [v0|] eqn:Hv0.
  - destruct (Ha (aa_key c) v0 Hv0) as (c' & <-%aa_key_inj & Hc & Hg).
    { apply aa_key_prefix. eauto. }
    split; [done|]. destruct (String.eqb_spec v0 "unconfined") as [->|Hu].
    + change (profile_value "unconfined") with "unconfined" in Hv. cbn in Hv. simplify_eq. by left.
    + destruct (good_profile_value v0 Hg Hu) as [Hs Hne]. apply String.eqb_neq in Hne as Hb.
      rewrite Hb in Hv. injection Hv as <-. by apply localhost_good.
  - case_bool_decide as Hin; [|done]. destruct (profile_of_plain pod c Hn Hin) as [Hs Hne].
    apply String.eqb_neq in Hne as Hb. rewrite Hb in Hv. injection Hv as <-.
    split; [by apply Hn|]. by apply localhost_good.
Qed.

Lemma localhost_value p : char_in slash p = false → profile_value (localhost p) = p.
Proof. intros H. by apply (profile_value_app "localhost"). Qed.

(** A container's profile can be read back from its annotation. *)
Lemma annotated_read pod t' c :
  settled (annotations (kp_Meta pod)) → plain_names pod →
  annotated pod (annotations (kp_Meta pod)) t' →
  profile_value <$> t' !! aa_key c = pod_profile pod c.
Proof.
  intros Ha Hn [Hk _]. rewrite Hk. unfold pod_profile, written.
  destruct (annotations (kp_Meta pod) !! aa_key c) as [v0|] eqn:Hv0.
  - destruct (Ha (aa_key c) v0 Hv0) as (c' & _ & _ & Hg); [apply aa_key_prefix; eauto|].
    destruct (String.eqb_spec v0 "unconfined") as [->|Hu]; [done|].
    destruct (good_profile_value v0 Hg Hu) as [Hs Hne]. apply String.eqb_neq in Hne as ->.
    cbn. by rewrite localhost_value.
  - case_bool_decide as Hin; [|done]. destruct (profile_of_plain pod c Hn Hin) as [Hs Hne].
    apply String.eqb_neq in Hne as ->. cbn. by rewrite localhost_value.
Qed.

(** ** The daemon reads the annotations *)

Lemma daemon_reads l m :
  (∀ kv, kv ∈ l → HasPrefix kv.1 apparmor_prefix = HasPrefix kv.1 appArmorAnnotation) →
  foldl add_annotation (Ok m) l = foldl existing_annotation (Ok m) l.
Proof.
  intros H. apply foldl_ext_in. intros r kv Hin. unfold add_annotation, existing_annotation.
  destruct r as [m'|]; [|done]. cbn [mbind Res_bind]. by rewrite (H kv Hin).
Qed.

Lemma no_profile_added namespace owner template P cs :
  (∀ c, c ∈ sc_Name <$> cs → is_Some (P !! c)) →
  ∀ st, pf_annotations st = P →
    let st' := foldl (profile_step namespace owner template) st cs in
    pf_annotations st' = P ∧ pf_update st' = pf_update st.
Proof.
  induction cs as [|c cs IH]; intros H st Hst; [done|]. cbn [foldl].
  set (st1 := profile_step namespace owner template st c).
  assert (pf_annotations st1 = P ∧ pf_update st1 = pf_update st) as [H1 H2].
  { unfold st1, profile_step. cbn. rewrite Hst. destruct (H (sc_Name c)) as [v ->]; [left|]. done. }
  rewrite <- H2. apply IH; [|done]. intros c' Hc'. apply H. by right.
Qed.
End annotator.

(** ** The common annotations *)

Definition policy_of (m : KMeta) : string :=
  if IsAppArmorExempt (km_Labels m) (km_Namespace m) then "audited"
  else match annotations m !! policy_annotation with
       | Some v => if good_policy v then v else "enabled" | None => "enabled" end.

Lemma common_spec m :
  annotations (AddCommonAnnotations m)
  = <[visibility_annotation := default k8sVisibility (annotations m !! visibility_annotation)]>
      (<[policy_annotation := policy_of m]> (annotations m)).
Proof.
  apply map_eq. intros k. unfold AddCommonAnnotations, policy_of.
  change (annotations (set_annotations (Some ?a) m)) with a.
  set (a1 := match annotations m !! policy_annotation with Some _ => _ | None => _ end).
  assert (∀ k, k ≠ policy_annotation → a1 !! k = annotations m !! k) as H1.
  { intros k' Hk'. unfold a1. destruct (annotations m !! policy_annotation) as [v|];
      [destruct (good_policy v)|]; by rewrite ?lookup_insert_ne by done. }
  set (a2 := if IsAppArmorExempt _ _ then _ else a1).
  assert (∀ k, k ≠ policy_annotation → a2 !! k = annotations m !! k) as H2.
  { intros k' Hk'. unfold a2. destruct (IsAppArmorExempt _ _); [rewrite lookup_insert_ne by done|];
      by apply H1. }
  assert (a2 !! policy_annotation = Some (policy_of m)) as Hp.
  { unfold a2, policy_of. destruct (IsAppArmorExempt _ _); [apply lookup_insert_eq|].
    unfold a1. destruct (annotations m !! policy_annotation) as [v|] eqn:Hv;
      [destruct (good_policy v); [done|]|]; apply lookup_insert_eq. }
  fold (policy_of m). rewrite (H2 visibility_annotation) by done.
  destruct (decide (k = visibility_annotation)) as [->|Hv].
  - rewrite lookup_insert_eq. destruct (annotations m !! visibility_annotation) eqn:Hm; cbn.
    + by rewrite H2.
    + by rewrite lookup_insert_eq.
  - rewrite (lookup_insert_ne _ _ k) by done.
    destruct (decide (k = policy_annotation)) as [->|Hk].
    + rewrite lookup_insert_eq. destruct (annotations m !! visibility_annotation); [done|].
      by rewrite lookup_insert_ne.
    + rewrite lookup_insert_ne by done. destruct (annotations m !! visibility_annotation);
        rewrite ?lookup_insert_ne by done; by apply H2.
Qed.

Lemma common_other m k :
  HasPrefix k appArmorAnnotation = true →
  annotations (AddCommonAnnotations m) !! k = annotations m !! k.
Proof.
  intros H. rewrite common_spec, !lookup_insert_ne; [done| |]; intros <-; vm_compute in H; done.
Qed.

Lemma good_policy_of m : good_policy (policy_of m) = true.
Proof.
  unfold policy_of. destruct (IsAppArmorExempt _ _); [done|].
  destruct (annotations m !! policy_annotation) as [v|]; [|done].
  destruct (good_policy v) eqn:Hv; done.
Qed.

Lemma common_id m v :
  annotations m !! policy_annotation = Some (policy_of m) →
  annotations m !! visibility_annotation = Some v →
  annotations (AddCommonAnnotations m) = annotations m.
Proof.
  intros Hp Hv. rewrite common_spec, Hv. cbn. rewrite (insert_id _ policy_annotation) by done.
  by apply insert_id.
Qed.

Lemma policy_of_kept m a :
  a !! policy_annotation = Some (policy_of m) → policy_of (set_annotations (Some a) m) = policy_of m.
Proof.
  intros H. unfold policy_of at 1. cbn. rewrite H, good_policy_of.
  unfold policy_of. by destruct (IsAppArmorExempt _ _).
Qed.

Lemma common_is_some m :
  km_Annotations (AddCommonAnnotations m) = Some (annotations (AddCommonAnnotations m)).
Proof. done. Qed.

Lemma apparmor_common k : k = policy_annotation ∨ k = visibility_annotation →
  HasPrefix k appArmorAnnotation = false.
Proof. by intros [->| ->]. Qed.

(** The settled annotations of a pod are not touched by the common ones. *)
Lemma settled_common m : settled (annotations m) → settled (annotations (AddCommonAnnotations m)).
Proof. intros H k v Hk Hp. rewrite common_other in Hk by done. eauto. Qed.

(** *** Twice *)

Lemma common_twice m a :
  a !! policy_annotation = annotations (AddCommonAnnotations m) !! policy_annotation →
  a !! visibility_annotation = annotations (AddCommonAnnotations m) !! visibility_annotation →
  AddCommonAnnotations (set_annotations (Some a) (AddCommonAnnotations m))
  = set_annotations (Some a) (AddCommonAnnotations m).
Proof.
  intros Hp Hv. set (m1 := AddCommonAnnotations m) in *.
  assert (annotations m1 !! policy_annotation = Some (policy_of m)) as H1.
  { unfold m1. rewrite common_spec, lookup_insert_ne by done. apply lookup_insert_eq. }
  assert (policy_of m1 = policy_of m) as H0 by (apply (policy_of_kept m); exact H1).
  change (set_annotations (Some (annotations (AddCommonAnnotations (set_annotations (Some a) m1))))
            m1 = set_annotations (Some a) m1). f_equal. f_equal.
  apply (common_id (set_annotations (Some a) m1)
           (default k8sVisibility (annotations m !! visibility_annotation))).
  - rewrite policy_of_kept; cbn; congruence.
  - cbn. rewrite Hv. unfold m1. rewrite common_spec. apply lookup_insert_eq.
Qed.

Lemma with_namespace_twice namespace m a :
  with_namespace namespace (set_annotations a (AddCommonAnnotations (with_namespace namespace m)))
  = set_annotations a (AddCommonAnnotations (with_namespace namespace m)).
Proof.
  unfold with_namespace at 1. cbn. unfold with_namespace at 1.
  destruct (String.eqb_spec (km_Namespace m) "") as [He|He]; cbn.
  - destruct (String.eqb_spec namespace "") as [->|]; [|done].
    unfold with_namespace. rewrite He. done.
  - by apply String.eqb_neq in He as ->.
Qed.

Lemma annotations_namespace namespace m :
  annotations (with_namespace namespace m) = annotations m.
Proof. unfold with_namespace. by destruct (String.eqb _ _). Qed.

(** What is written for an annotated container is what is there. *)
Lemma written_read t c : 
  (∀ v, t !! aa_key c = Some v → v = "unconfined" ∨ v = localhost (profile_value v)
                                    ∧ profile_value v ≠ "unconfined") →
  written t c (profile_value <$> t !! aa_key c) = t !! aa_key c.
Proof.
  intros H. destruct (t !! aa_key c) as [v|] eqn:Hv; cbn; [|done].
  destruct (H v eq_refl) as [->|[Hl Hu]]; [done|]. apply String.eqb_neq in Hu as ->. by rewrite <- Hl.
Qed.

Section twice.
Context `{RL : GoRangeLaw}.

(** The values that the webhook leaves *)
Lemma annotated_values pod t' c v :
  settled (annotations (kp_Meta pod)) → plain_names pod →
  annotated pod (annotations (kp_Meta pod)) t' → t' !! aa_key c = Some v →
  v = "unconfined" ∨ v = localhost (profile_value v) ∧ profile_value v ≠ "unconfined".
Proof.
  intros Ha Hn [Hk _] Hv. rewrite Hk in Hv. unfold pod_profile, written in Hv.
  destruct (annotations (kp_Meta pod) !! aa_key c) as [v0|] eqn:Hv0.
  - destruct (Ha (aa_key c) v0 Hv0) as (c' & _ & _ & Hg); [apply aa_key_prefix; eauto|].
    destruct (String.eqb_spec v0 "unconfined") as [->|Hu].
    + left. cbn in Hv. congruence.
    + right. destruct (good_profile_value v0 Hg Hu) as [Hs Hne]. apply String.eqb_neq in Hne as Hb.
      rewrite Hb in Hv. injection Hv as <-. by rewrite localhost_value.
  - case_bool_decide as Hin; [|done]. right.
    destruct (profile_of_plain pod c Hn Hin) as [Hs Hne]. apply String.eqb_neq in Hne as Hb.
    rewrite Hb in Hv. injection Hv as <-. by rewrite localhost_value.
Qed.

(** Every container of the pod is annotated. *)
Lemma annotated_containers pod t' c :
  plain_names pod → annotated pod (annotations (kp_Meta pod)) t' → c ∈ kp_Containers pod →
  is_Some (t' !! aa_key c).
Proof.
  intros Hn [Hk _] Hin. rewrite Hk. unfold pod_profile, written.
  destruct (annotations (kp_Meta pod) !! aa_key c) as [v0|]; [by destruct (String.eqb _ _)|].
  rewrite bool_decide_true by done. destruct (profile_of_plain pod c Hn Hin) as [_ Hne].
  apply String.eqb_neq in Hne as ->. done.
Qed.

Lemma annotator_twice pod t' :
  settled (annotations (kp_Meta pod)) → plain_names pod →
  annotated pod (annotations (kp_Meta pod)) t' →
  AppArmorAnnotator (set_meta (set_annotations (Some t') (kp_Meta pod)) pod) (Some t')
  = Ok (Some t').
Proof.
  intros Ha Hn Hann. set (pod' := set_meta _ _).
  destruct (annotator_annotated pod' t') as (a & -> & Hk & Ho).
  { by eapply annotated_settled. }
  do 2 f_equal. apply map_eq. intros k.
  destruct (HasPrefix k appArmorAnnotation) eqn:Hp; [|by apply Ho].
  apply aa_key_prefix in Hp as [c ->]. rewrite Hk.
  assert (pod_profile pod' c = profile_value <$> t' !! aa_key c) as ->.
  { unfold pod_profile. cbn. destruct (t' !! aa_key c) as [v|] eqn:Hv; [done|].
    rewrite bool_decide_false; [done|]. intros Hin.
    destruct (annotated_containers pod t' c Hn Hann Hin) as [v Hv']. congruence. }
  apply written_read. intros v. by eapply annotated_values.
Qed.
End twice.

(** ** Theorems *)

Section webhook.
Context `{RL : GoRangeLaw} (marshals : KMeta → bool).

(** Binding a pod to a node on which KubeArmor is active annotates the binding: each
    container whose annotation names a profile gets that one, each other container its own
    profile, unconfined ones are left alone, no other key changes apart from the mode and the
    visibility, and the mode is a valid one. *)
Theorem binding_annotated (cl : Cluster) get_pod namespace binding target pod
    (active : active_node cl target = true)
    (found : let b := with_namespace namespace binding in
             get_pod (km_Namespace b) (km_Name b) = Some pod)
    (good : settled (annotations (kp_Meta pod))) :
  let b := AddCommonAnnotations (with_namespace namespace binding) in
  ∃ a, handle_binding cl marshals get_pod namespace (Some (binding, target))
       = Ok (respond marshals (set_annotations (Some a) b)) ∧
    (∀ c, a !! aa_key c = written (annotations b) c (pod_profile pod c)) ∧
    (∀ k, HasPrefix k appArmorAnnotation = false → a !! k = annotations b !! k) ∧
    (∃ v, a !! policy_annotation = Some v ∧ good_policy v = true).
Proof.
  intros b. destruct (annotator_annotated pod (annotations b) good) as (a & Ha & Hk & Ho).
  exists a. split.
  { unfold handle_binding. cbv zeta. fold b. rewrite active.
    change (km_Namespace b) with (km_Namespace (with_namespace namespace binding)).
    change (km_Name b) with (km_Name (with_namespace namespace binding)).
    cbv zeta in found. rewrite found. cbn [default from_option id].
    change (km_Annotations b) with (Some (annotations b)). by rewrite Ha. }
  split; [exact Hk|]. split; [exact Ho|].
  exists (policy_of (with_namespace namespace binding)). split; [|apply good_policy_of].
  rewrite Ho by done. unfold b. rewrite common_spec, lookup_insert_ne by done.
  apply lookup_insert_eq.
Qed.


(** The webhook is idempotent: a pod with the annotations it answered is answered with the
    same ones. *)
Theorem pod_annotated_once (cl : Cluster) namespace pod
    (bound : kp_NodeName pod ≠ "")
    (good : settled (annotations (kp_Meta pod)))
    (plain : plain_names (set_meta (with_namespace namespace (kp_Meta pod)) pod)) :
  ∃ m, handle_pod cl marshals namespace (Some pod) = Ok (respond marshals m) ∧
       handle_pod cl marshals namespace (Some (set_meta m pod)) = Ok (respond marshals m).
Proof.
  unfold handle_pod. apply String.eqb_neq in bound as Hb. cbn [kp_NodeName kp_Meta set_meta].
  rewrite Hb. cbv zeta. set (m0 := with_namespace namespace (kp_Meta pod)) in *.
  set (m1 := AddCommonAnnotations m0).
  assert (settled (annotations m1)) as Hs1.
  { apply settled_common. unfold m0. by rewrite annotations_namespace. }
  destruct (active_node cl (kp_NodeName pod)).
  - destruct (annotator_annotated (set_meta m1 pod) (annotations m1) Hs1) as (a & Ha & Hann).
    exists (set_annotations (Some a) m1). change (km_Annotations m1) with (Some (annotations m1)).
    rewrite Ha. split; [done|]. pose proof Hann as [_ Ho].
    assert (AddCommonAnnotations (set_annotations (Some a) m1) = set_annotations (Some a) m1)
      as Hc by (apply common_twice; apply Ho; done).
    assert (∀ a, with_namespace namespace (set_annotations a m1) = set_annotations a m1) as Hns
      by (intros a'; apply with_namespace_twice).
    rewrite !Hns, !Hc.
    cbn [km_Annotations set_annotations].
    pose proof (annotator_twice (set_meta m1 pod) a Hs1 plain Hann) as Ht.
    change (AppArmorAnnotator (set_meta (set_annotations (Some a) m1) pod) (Some a) = Ok (Some a))
      in Ht. change (set_meta ?m (set_meta _ pod)) with (set_meta m pod). by rewrite Ht.
  - exists (set_annotations (Some (annotations m1)) m1). split; [done|].
    assert (with_namespace namespace (set_annotations (Some (annotations m1)) m1)
            = set_annotations (Some (annotations m1)) m1) as -> by apply with_namespace_twice.
    unfold m1. by rewrite common_twice.
Qed.

(** C19: What the webhook writes, the daemon reads: with the AppArmor enforcer the handler of
    pod events gets the webhook's profile for every container, so it adds none of its own and
    does not patch the pod's owner. *)
Theorem daemon_accepts_webhook (pod : KPod) (containers : list SpecContainer)
    (namespace owner : string) (template : list string)
    (good : settled (annotations (kp_Meta pod)))
    (plain : plain_names pod)
    (others : ∀ k v, annotations (kp_Meta pod) !! k = Some v →
       HasPrefix k apparmor_prefix = HasPrefix k appArmorAnnotation)
    (same : (sc_Name <$> containers) = kp_Containers pod) :
  ∃ t profiles, AppArmorAnnotator pod (Some (annotations (kp_Meta pod))) = Ok (Some t) ∧
    foldl add_annotation (Ok ∅) (go_range t) = Ok profiles ∧
    (∀ c, profiles !! c = pod_profile pod c) ∧
    let pf := foldl (profile_step namespace owner template)
                {| pf_annotations := profiles; pf_update := false; pf_containers := ∅;
                   pf_profiles := ∅ |} containers in
    pf_annotations pf = profiles ∧ pf_update pf = false.
Proof.
  destruct (annotator_annotated pod (annotations (kp_Meta pod)) good) as (t & Ht & Hann).
  assert (settled t) as Hst by (by eapply annotated_settled).
  destruct (existing_settled t Hst) as (profiles & Hp & Hr).
  assert (∀ c, profiles !! c = pod_profile pod c) as Hpp.
  { intros c. rewrite Hr. by apply annotated_read. }
  exists t, profiles. split; [done|]. split; [|split; [done|]].
  - rewrite daemon_reads; [exact Hp|]. intros [k v] Hin. cbn. apply elem_of_go_range in Hin.
    destruct (HasPrefix k appArmorAnnotation) eqn:Hk.
    + apply aa_key_prefix in Hk as [c ->]. apply HasPrefix_app. by exists ("/" +:+ c).
    + destruct Hann as [_ Ho]. rewrite Ho in Hin by done. rewrite (others k v Hin). exact Hk.
  - apply no_profile_added; [|done]. intros c Hc. rewrite same in Hc. rewrite Hr.
    apply fmap_is_Some. by eapply annotated_containers.
Qed.

(** The profile of another runtime becomes one of the node's: a container with the
    annotation [runtime/default] is bound with [localhost/default], a profile that KubeArmor
    does not load. *)
Theorem runtime_default_localized (cl : Cluster) get_pod namespace binding target pod c
    (active : active_node cl target = true)
    (found : let b := with_namespace namespace binding in
             get_pod (km_Namespace b) (km_Name b) = Some pod)
    (good : settled (annotations (kp_Meta pod)))
    (foreign : annotations (kp_Meta pod) !! aa_key c = Some "runtime/default") :
  ∃ m, handle_binding cl marshals get_pod namespace (Some (binding, target))
       = Ok (respond marshals m) ∧
    annotations m !! aa_key c = Some "localhost/default".
Proof.
  destruct (annotator_annotated pod
              (annotations (AddCommonAnnotations (with_namespace namespace binding))) good)
    as (a & Ha & Hk & _).
  exists (set_annotations (Some a) (AddCommonAnnotations (with_namespace namespace binding))).
  split.
  - unfold handle_binding. cbv zeta in *. rewrite active. cbn [km_Namespace km_Name
      AddCommonAnnotations set_annotations]. rewrite found. cbn [default from_option id].
    change (km_Annotations (AddCommonAnnotations ?m)) with (Some (annotations (AddCommonAnnotations m))).
    by rewrite Ha.
  - cbn. rewrite Hk. unfold pod_profile. by rewrite foreign.
Qed.

(** The mode that a binding is given does not depend on the pod's: a binding without
    annotations and labels says [enabled], also for a pod whose own annotation says that
    policies are only audited or not enforced at all.  (The API server copies the annotations
    of a binding over those of the pod.) *)
Theorem binding_enables_policy (cl : Cluster) get_pod namespace binding target r
    (no_annotations : annotations binding = ∅)
    (no_labels : km_Labels binding = ∅)
    (answered : handle_binding cl marshals get_pod namespace (Some (binding, target)) = Ok r)
    (marshalled : ∀ m, marshals m = true) :
  ∃ m, r = PatchResponse m ∧ annotations m !! policy_annotation = Some "enabled".
Proof.
  unfold handle_binding in answered. cbv zeta in answered.
  set (b := AddCommonAnnotations (with_namespace namespace binding)) in *.
  assert (annotations b !! policy_annotation = Some "enabled") as Hb.
  { unfold b. rewrite common_spec, lookup_insert_ne, lookup_insert_eq by done. f_equal.
    unfold policy_of. rewrite annotations_namespace, no_annotations.
    assert (km_Labels (with_namespace namespace binding) = ∅) as ->.
    { unfold with_namespace. by destruct (String.eqb _ _). }
    unfold IsAppArmorExempt. cbn. by rewrite andb_false_r. }
  assert (∃ a, r = PatchResponse (set_annotations (Some a) b) ∧
               a !! policy_annotation = annotations b !! policy_annotation) as (a & -> & Ha).
  { unfold respond in answered. destruct (active_node cl target).
    - destruct (AppArmorAnnotator _ _) as [a|] eqn:Han; [|done].
      apply annotator_other in Han as (a' & -> & Ho). cbn in answered. rewrite marshalled in answered.
      injection answered as <-. exists a'. split; [done|]. by apply Ho.
    - cbn in answered. rewrite marshalled in answered. injection answered as <-.
      by exists (annotations b). }
  exists (set_annotations (Some a) b). split; [done|]. cbn. by rewrite Ha.
Qed.
End webhook.

(** ** Witnesses *)

Definition active_cluster : Cluster :=
  {| cl_Nodes := {["n1" := {| ni_KubeArmorActive := true; ni_Enforcer := "apparmor" |}]};
     cl_HomogeneousStatus := true; cl_HomogenousApparmor := true; cl_TotalNodes := 1 |}.

(** A pod of a deployment, with two containers of which one has an annotation *)
Definition web_pod (annotation : string) : KPod :=
  {| kp_Meta := {| km_Name := "web-abc-1"; km_Namespace := "shop";
                   km_Labels := {["pod-template-hash" := "abc"]};
                   km_Annotations := Some {[aa_key "side" := annotation]};
                   km_Owners := [{| Controller.or_Kind := "ReplicaSet"; Controller.or_Name := "web-abc";
                                    Controller.or_Controller := Some true |}] |};
     kp_Containers := ["app"; "side"]; kp_NodeName := "n1"; kp_Deleting := false |}.

Definition web_binding : KMeta :=
  {| km_Name := "web-abc-1"; km_Namespace := ""; km_Labels := ∅; km_Annotations := None;
     km_Owners := [] |}.
Definition web_get (annotation : string) (namespace name : string) : option KPod :=
  if String.eqb namespace "shop" then Some (web_pod annotation) else None.
Definition all_marshal (m : KMeta) : bool := true.

Lemma web_settled annotation :
  good_value annotation → settled (annotations (kp_Meta (web_pod annotation))).
Proof.
  intros H k v Hk _.
  change (({[aa_key "side" := annotation]} : gmap string string) !! k = Some v) in Hk.
  apply lookup_singleton_Some in Hk as [<- <-]. exists "side". done.
Qed.

Lemma web_plain annotation : plain_names (web_pod annotation).
Proof.
  split; [|done]. intros c Hc. apply elem_of_cons in Hc as [->|Hc]; [done|].
  by apply list_elem_of_singleton in Hc as ->.
Qed.

Lemma unconfined_good : good_value "unconfined".
Proof. by left. Qed.
Lemma runtime_default_good : good_value "runtime/default".
Proof. right. by exists "runtime", "default". Qed.

Lemma binding_annotated_witness :
  pod_profile (web_pod "unconfined") "app" = Some "kubearmor-shop-web-app" ∧
  let b := AddCommonAnnotations (with_namespace "shop" web_binding) in
  ∃ a, handle_binding (R:=canonical_range) active_cluster all_marshal (web_get "unconfined") "shop"
         (Some (web_binding, "n1")) = Ok (respond all_marshal (set_annotations (Some a) b)) ∧
    (∀ c, a !! aa_key c = written (annotations b) c (pod_profile (web_pod "unconfined") c)) ∧
    (∀ k, HasPrefix k appArmorAnnotation = false → a !! k = annotations b !! k) ∧
    (∃ v, a !! policy_annotation = Some v ∧ good_policy v = true).
Proof.
  split; [vm_compute; reflexivity|].
  apply (binding_annotated (RL:=canonical_range_law) all_marshal active_cluster
           (web_get "unconfined") "shop" web_binding "n1" (web_pod "unconfined")).
  - vm_compute. reflexivity.
  - reflexivity.
  - exact (web_settled _ unconfined_good).
Defined.

Lemma pod_annotated_once_witness :
  ∃ m, handle_pod (R:=canonical_range) active_cluster all_marshal "shop"
         (Some (web_pod "runtime/default")) = Ok (respond all_marshal m) ∧
       handle_pod (R:=canonical_range) active_cluster all_marshal "shop"
         (Some (set_meta m (web_pod "runtime/default"))) = Ok (respond all_marshal m).
Proof.
  apply (pod_annotated_once (RL:=canonical_range_law) all_marshal active_cluster "shop"
           (web_pod "runtime/default")).
  - discriminate.
  - exact (web_settled _ runtime_default_good).
  - exact (web_plain _).
Defined.

Definition web_containers : list SpecContainer :=
  [{| sc_Name := "app"; sc_SecurityContext := None |};
   {| sc_Name := "side"; sc_SecurityContext := None |}].

Lemma daemon_accepts_webhook_witness :
  let pod := web_pod "runtime/default" in
  ∃ t profiles,
    AppArmorAnnotator (R:=canonical_range) pod (Some (annotations (kp_Meta pod))) = Ok (Some t) ∧
    foldl add_annotation (Ok ∅) (go_range (GoRange:=canonical_range) t) = Ok profiles ∧
    (∀ c, profiles !! c = pod_profile pod c) ∧
    let pf := foldl (profile_step "shop" "web" ["app"; "side"])
                {| pf_annotations := profiles; pf_update := false; pf_containers := ∅;
                   pf_profiles := ∅ |} web_containers in
    pf_annotations pf = profiles ∧ pf_update pf = false.
Proof.
  apply (daemon_accepts_webhook (RL:=canonical_range_law) (web_pod "runtime/default")
           web_containers "shop" "web" ["app"; "side"]).
  - exact (web_settled _ runtime_default_good).
  - exact (web_plain _).
  - intros k v H.
    change (({[aa_key "side" := "runtime/default"]} : gmap string string) !! k = Some v) in H.
    apply lookup_singleton_Some in H as [<- _]. vm_compute. reflexivity.
  - reflexivity.
Defined.

Lemma runtime_default_localized_witness :
  ∃ m, handle_binding (R:=canonical_range) active_cluster all_marshal (web_get "runtime/default")
         "shop" (Some (web_binding, "n1")) = Ok (respond all_marshal m) ∧
    annotations m !! aa_key "side" = Some "localhost/default".
Proof.
  apply (runtime_default_localized (RL:=canonical_range_law) all_marshal active_cluster
           (web_get "runtime/default") "shop" web_binding "n1" (web_pod "runtime/default") "side").
  - vm_compute. reflexivity.
  - reflexivity.
  - exact (web_settled _ runtime_default_good).
  - vm_compute. reflexivity.
Defined.

Lemma binding_enables_policy_witness :
  ∃ m, PatchResponse (AddCommonAnnotations (with_namespace "shop" web_binding)) = PatchResponse m ∧
       annotations m !! policy_annotation = Some "enabled".
Proof.
  apply (binding_enables_policy (RL:=canonical_range_law) all_marshal InitCluster
           (web_get "unconfined") "shop" web_binding "n1").
  - reflexivity.
  - reflexivity.
  - reflexivity.
  - intros m. reflexivity.
Defined.
