(* ===== verification/ControllerNodesProps.v ===== *)
(** The controller's nodes follow their labels, and what the reconciler restarts. *)
From Stdlib Require Import Ascii String.
From S2P Require Import Prelude GoStrings Common Controller ControllerProps.

Open Scope string_scope.
Open Scope Z_scope.
Open Scope list_scope.

(** ** Nodes *)

(** An event with the nodes of KubeArmor's pods at that time *)
Inductive NodeEvent :=
| NodeAdded (pods : option (list string)) (node : KNode)
| NodeUpdated (pods : option (list string)) (node : KNode)
| NodeDeleted (node : KNode).

Definition node_step (cl : Cluster) (ev : NodeEvent) : Cluster :=
  match ev with
  | NodeAdded pods node => AddFunc pods node cl
  | NodeUpdated pods node => UpdateFunc pods node cl
  | NodeDeleted node => DeleteFunc node cl
  end.

(** What is known of one node: whether KubeArmor was active on it at the last event that
    found it labelled [apparmor]; nothing once another label or its end was seen. *)
Definition node_spec (n : string) (o : option bool) (ev : NodeEvent) : option bool :=
  match ev with
  | NodeAdded pods node =>
      if String.eqb (kn_Name node) n && bool_decide (enforcer_of node = Some "apparmor")
      then Some (CheckKubearmorStatus n pods) else o
  | NodeUpdated pods node =>
      if String.eqb (kn_Name node) n then
        match enforcer_of node with
        | None => o
        | Some e => if String.eqb e "apparmor" then Some (CheckKubearmorStatus n pods) else None
        end
      else o
  | NodeDeleted node => if String.eqb (kn_Name node) n then None else o
  end.

Definition apparmor_info (active : bool) : NodeInfo :=
  {| ni_KubeArmorActive := active; ni_Enforcer := "apparmor" |}.

Lemma nodes_recompute b cl : cl_Nodes (recompute b cl) = cl_Nodes cl.
Proof. done. Qed.

Lemma AddFunc_nodes pods node cl :
  cl_Nodes (AddFunc pods node cl)
  = if bool_decide (enforcer_of node = Some "apparmor")
    then <[kn_Name node := node_info node pods]> (cl_Nodes cl) else cl_Nodes cl.
Proof.
  unfold AddFunc. destruct (enforcer_of node) as [e|]; [|done]. cbn.
  destruct (String.eqb_spec e "apparmor") as [->|He]; case_bool_decide; congruence.
Qed.

Lemma UpdateFunc_nodes pods node cl :
  map_Forall (λ _ i, ni_Enforcer i = "apparmor") (cl_Nodes cl) →
  cl_Nodes (UpdateFunc pods node cl)
  = match enforcer_of node with
    | None => cl_Nodes cl
    | Some e => if String.eqb e "apparmor" then <[kn_Name node := node_info node pods]> (cl_Nodes cl)
                else delete (kn_Name node) (cl_Nodes cl)
    end.
Proof.
  intros Ha. unfold UpdateFunc. destruct (enforcer_of node) as [e|]; [|done]. cbn.
  unfold forget_changed.
  destruct (cl_Nodes cl !! kn_Name node) as [i|] eqn:Hi.
  - rewrite (Ha _ _ Hi). destruct (String.eqb e "apparmor"); done.
  - destruct (String.eqb e "apparmor"); [done|]. by rewrite delete_id.
Qed.

Lemma DeleteFunc_nodes node cl :
  cl_Nodes (DeleteFunc node cl) = delete (kn_Name node) (cl_Nodes cl).
Proof. unfold DeleteFunc. cbn. by destruct (_ && _). Qed.

(** The nodes are what the specification says of each. *)
Definition nodes_as (cl : Cluster) (f : string → option bool) : Prop :=
  ∀ n, cl_Nodes cl !! n = apparmor_info <$> f n.

Lemma nodes_as_apparmor cl f :
  nodes_as cl f → map_Forall (λ _ i, ni_Enforcer i = "apparmor") (cl_Nodes cl).
Proof. intros H n i Hi. rewrite H in Hi. by apply fmap_Some in Hi as (b & _ & ->). Qed.

Lemma node_step_as cl f ev :
  nodes_as cl f → nodes_as (node_step cl ev) (λ n, node_spec n (f n) ev).
Proof.
  intros H n. pose proof (nodes_as_apparmor cl f H) as Ha.
  destruct ev as [pods node|pods node|node]; cbn [node_step node_spec];
    rewrite ?AddFunc_nodes, ?UpdateFunc_nodes, ?DeleteFunc_nodes by done;
    destruct (String.eqb_spec (kn_Name node) n) as [<-|Hn]; cbn [andb].
  - case_bool_decide; [by rewrite lookup_insert_eq|apply H].
  - case_bool_decide; [rewrite lookup_insert_ne by done|]; apply H.
  - destruct (enforcer_of node) as [e|]; [|apply H]. destruct (String.eqb e "apparmor").
    + by rewrite lookup_insert_eq.
    + by rewrite lookup_delete_eq.
  - destruct (enforcer_of node) as [e|]; [|apply H]. destruct (String.eqb e "apparmor").
    + rewrite lookup_insert_ne by done. apply H.
    + rewrite lookup_delete_ne by done. apply H.
  - by rewrite lookup_delete_eq.
  - rewrite lookup_delete_ne by done. apply H.
Qed.

(** The controller's nodes refine a map from names to activity: after any sequence of
    events a node is there exactly if the last event that says something of it found it
    labelled [apparmor], with the activity of KubeArmor at that event. *)
Theorem nodes_follow_labels (l : list NodeEvent) :
  nodes_as (foldl node_step InitCluster l) (λ n, foldl (node_spec n) None l).
Proof.
  induction l as [|ev l IH] using rev_ind; [done|]. rewrite foldl_snoc.
  intros n. rewrite foldl_snoc. exact (node_step_as _ _ ev IH n).
Qed.

(** *** Counting *)

Definition unlabelled (n : string) : KNode := {| kn_Name := n; kn_Labels := Some ∅ |}.
Definition labelled (n e : string) : KNode :=
  {| kn_Name := n; kn_Labels := Some {[enforcer_label := e]} |}.

Lemma enforcer_unlabelled n : enforcer_of (unlabelled n) = None.
Proof. done. Qed.
Lemma enforcer_labelled n e : enforcer_of (labelled n e) = Some e.
Proof. unfold enforcer_of. cbn. apply (lookup_insert_eq (M:=gmap string)). Qed.

(** A node joins and is labelled afterwards. *)
Definition joins (pods : option (list string)) (n : string) : list NodeEvent :=
  [NodeAdded pods (unlabelled n); NodeUpdated pods (labelled n "apparmor")].

Lemma joins_step pods n cl :
  cl_TotalNodes cl = 0 → kn_Name (unlabelled n) = n →
  let cl' := foldl node_step cl (joins pods n) in
  cl_TotalNodes cl' = 0 ∧ is_Some (cl_Nodes cl' !! n) ∧ cl_HomogeneousStatus cl' = false ∧
  (∀ n', is_Some (cl_Nodes cl !! n') → is_Some (cl_Nodes cl' !! n')).
Proof.
  intros Ht _. cbn [joins foldl node_step].
  assert (AddFunc pods (unlabelled n) cl = cl) as -> by done.
  unfold UpdateFunc. rewrite enforcer_labelled. cbn -[forget_changed].
  set (nodes := forget_changed "apparmor" n (cl_Nodes cl)).
  split; [done|]. rewrite lookup_insert_eq. split; [done|]. split.
  - unfold homogeneous. cbn. rewrite Ht.
    assert (0 < size (<[n:=node_info (labelled n "apparmor") pods]> nodes))%nat as Hs.
    { apply Nat.neq_0_lt_0. intros H0%map_size_empty_inv.
      by apply (insert_non_empty nodes n (node_info (labelled n "apparmor") pods)). }
    rewrite bool_decide_true by done.
    apply negb_false_iff, andb_true_iff. split; [done|]. apply negb_true_iff, Z.eqb_neq. lia.
  - intros n' Hn'. destruct (decide (n' = n)) as [->|Hne]; [by rewrite lookup_insert_eq|].
    rewrite lookup_insert_ne by done. unfold nodes, forget_changed.
    destruct (cl_Nodes cl !! n) as [i|]; [|done]. destruct (String.eqb _ _); [done|].
    by rewrite lookup_delete_ne.
Qed.

(** A node that is labelled after it joined is not counted: nodes that all run AppArmor, each
    labelled by an update as the operator does it, leave a total of zero, and the cluster
    counts as one of different enforcers. *)
Theorem late_labels_uncounted (pods : option (list string)) (names : list string)
    (some : names ≠ []) :
  let cl := foldl node_step InitCluster (names ≫= joins pods) in
  cl_TotalNodes cl = 0 ∧ cl_HomogeneousStatus cl = false ∧
  ∀ n, n ∈ names → is_Some (cl_Nodes cl !! n).
Proof.
  cbn zeta. induction names as [|n names IH] using rev_ind; [done|].
  rewrite bind_app, foldl_app, bind_singleton.
  destruct (decide (names = [])) as [->|Hne].
  - destruct (joins_step pods n (foldl node_step InitCluster ([] ≫= joins pods))) as (H1 & H2 & H3 & _);
      [done..|].
    split; [exact H1|]. split; [exact H3|]. intros n' Hn'. cbn in Hn'.
    apply list_elem_of_singleton in Hn' as ->. exact H2.
  - destruct (IH Hne) as (Ht & _ & Hin).
    destruct (joins_step pods n _ Ht) as (H1 & H2 & H3 & H4); [done|].
    split; [exact H1|]. split; [exact H3|].
    intros n' [Hn'| ->%list_elem_of_singleton]%elem_of_app; [|exact H2]. by apply H4, Hin.
Qed.

(** ** The reconciler *)

Section reconciler.
Context `{RL : GoRangeLaw} (get_replicaset : string → string → option (list (string * string)))
        (get_resource : string → string → string → bool) (cl : Cluster).

(** Kind, namespace and name of a resource *)
Definition Resource : Type := string * string * string.
Definition insert_resource (m : gmap string ResourceInfo) (w : Resource)
    : gmap string ResourceInfo := <[w.2 := w.1]> m.

Definition owner_wanted (ns : string) (ref : OwnerReference) : list Resource :=
  match or_Controller ref with
  | Some true =>
      if String.eqb (or_Kind ref) "ReplicaSet" then
        match get_replicaset ns (or_Name ref) with
        | None => []
        | Some owners =>
            (λ o : string * string, ("Deployment", ns, o.2)) <$> filter (λ o, o.1 = "Deployment") owners
        end
      else [(or_Kind ref, ns, or_Name ref)]
  | _ => []
  end.

(** Whether a pod is to be restarted *)
Definition restarts (pod : KPod) : bool :=
  negb (skipped cl pod)
  && requireRestart (kp_Meta pod)
       (match cl_Nodes cl !! kp_NodeName pod with Some _ => "apparmor" | None => "bpf" end).

Definition wanted (pod : KPod) : list Resource :=
  if restarts pod then km_Owners (kp_Meta pod) ≫= owner_wanted (km_Namespace (kp_Meta pod)) else [].

(** The pod with its annotations, and what is done with it *)
Definition annotated_meta (m : KMeta) : KMeta :=
  match annotations m !! policy_annotation with Some _ => m | None => AddCommonAnnotations m end.

Definition pod_actions (pod : KPod) : list Action :=
  let m := annotated_meta (kp_Meta pod) in
  if skipped cl pod then []
  else (match annotations (kp_Meta pod) !! policy_annotation with
        | Some _ => [] | None => [PatchPod m] end)
       ++ (if restarts pod && bool_decide (km_Owners (kp_Meta pod) = [])
           then [DeletePod (km_Namespace m) (km_Name m); CreatePod (set_meta m pod)] else []).

(** No owner's controller flag is nil. *)
Definition flags_set (pod : KPod) : Prop :=
  ∀ ref, ref ∈ km_Owners (kp_Meta pod) → is_Some (or_Controller ref).

Lemma has_apparmor_spec m :
  has_apparmor_annotation m = true
  ↔ ∃ k v, annotations m !! k = Some v ∧ HasPrefix k appArmorAnnotation = true.
Proof.
  unfold has_apparmor_annotation. rewrite existsb_exists. split.
  - intros ([k v] & Hin & Hk). exists k, v. split; [|done].
    by apply elem_of_map_to_list, list_elem_of_In.
  - intros (k & v & Hin & Hk). exists (k, v). split; [|done].
    by apply list_elem_of_In, elem_of_map_to_list.
Qed.

Lemma restart_annotated m e : requireRestart (annotated_meta m) e = requireRestart m e.
Proof.
  unfold annotated_meta. destruct (annotations m !! policy_annotation); [done|].
  unfold requireRestart, HandleAppArmor. cbn [km_Namespace km_Labels AddCommonAnnotations
    set_annotations]. do 3 f_equal. apply eq_true_iff_eq. rewrite !has_apparmor_spec.
  split; intros (k & v & Hk & Hp); exists k, v; rewrite ?common_other in * by done; done.
Qed.

Lemma foldl_replicaset ns owners m :
  foldl (replicaset_owner ns) m owners
  = foldl insert_resource m
      ((λ o : string * string, ("Deployment", ns, o.2)) <$> filter (λ o, o.1 = "Deployment") owners).
Proof.
  revert m. induction owners as [|[k n] owners IH]; intros m; [done|]. cbn [foldl].
  rewrite IH, filter_cons. unfold replicaset_owner. cbn [fst snd].
  destruct (String.eqb_spec k "Deployment") as [->|Hk].
  - by rewrite decide_True.
  - by rewrite decide_False.
Qed.

Lemma owners_wanted ns refs m :
  (∀ ref, ref ∈ refs → is_Some (or_Controller ref)) →
  foldl (owner_resource get_replicaset ns) (Ok m) refs
  = Ok (foldl insert_resource m (refs ≫= owner_wanted ns)).
Proof.
  revert m. induction refs as [|ref refs IH]; intros m H; [done|]. cbn [foldl].
  rewrite bind_cons, foldl_app. destruct (H ref) as [b Hb]; [left|].
  assert (owner_resource get_replicaset ns (Ok m) ref
          = Ok (foldl insert_resource m (owner_wanted ns ref))) as ->.
  { unfold owner_resource, owner_wanted. cbn [mbind Res_bind]. rewrite Hb. destruct b; [|done].
    destruct (String.eqb (or_Kind ref) "ReplicaSet"); [|done].
    destruct (get_replicaset ns (or_Name ref)); [|done]. by rewrite foldl_replicaset. }
  apply IH. intros ref' Hr. apply H. by right.
Qed.

Lemma annotated_same m :
  km_Owners (annotated_meta m) = km_Owners m ∧ km_Namespace (annotated_meta m) = km_Namespace m.
Proof. unfold annotated_meta. by destruct (annotations m !! policy_annotation). Qed.

(** One pod *)
Lemma refresh_step_wanted actions resources pod :
  flags_set pod →
  refresh_step get_replicaset cl (Ok (actions, resources)) pod
  = Ok (actions ++ pod_actions pod, foldl insert_resource resources (wanted pod)).
Proof.
  intros Hf. unfold refresh_step, pod_actions, wanted, restarts. cbn [mbind Res_bind].
  destruct (skipped cl pod); cbn [negb andb]; [by rewrite app_nil_r|].
  set (enforcer := match cl_Nodes cl !! kp_NodeName pod with Some _ => _ | None => _ end).
  pose proof (restart_annotated (kp_Meta pod) enforcer) as Hr.
  destruct (annotated_same (kp_Meta pod)) as [Ho Hn]. unfold annotated_meta in *.
  destruct (annotations (kp_Meta pod) !! policy_annotation) as [v|]; cbv beta iota zeta;
    try rewrite Hr; destruct (requireRestart (kp_Meta pod) enforcer); cbn [andb];
    rewrite ?app_nil_r; try done; try rewrite Ho;
    (destruct (km_Owners (kp_Meta pod)) as [|ref refs] eqn:Hrefs;
       [by rewrite bool_decide_true, <- ?app_assoc by done|]);
    try rewrite Hn; rewrite bool_decide_false by done; unfold flags_set in Hf;
    rewrite Hrefs in Hf; rewrite owners_wanted by done; by rewrite ?app_nil_r.
Qed.

Lemma refresh_wanted pods st :
  (∀ pod, pod ∈ pods → flags_set pod) →
  foldl (refresh_step get_replicaset cl) (Ok st) pods
  = Ok (st.1 ++ (pods ≫= pod_actions), foldl insert_resource st.2 (pods ≫= wanted)).
Proof.
  revert st. induction pods as [|pod pods IH]; intros [acts res] H.
  { cbn. by rewrite app_nil_r. }
  cbn [foldl]. rewrite refresh_step_wanted, IH by (intros; apply H; set_solver).
  cbn [fst snd]. by rewrite !bind_cons, foldl_app, app_assoc.
Qed.

(** The resource that is kept under a name is the last. *)
Lemma foldl_insert_resource l m n :
  foldl insert_resource m l !! n
  = match list.last (filter (λ w : Resource, w.2 = n) l) with
    | Some w => Some w.1 | None => m !! n end.
Proof.
  induction l as [|w l IH] using rev_ind; [done|].
  rewrite foldl_snoc, list.filter_app, filter_cons, filter_nil. unfold insert_resource at 1.
  case_decide as Hn.
  - by rewrite Hn, lookup_insert_eq, last_snoc.
  - by rewrite lookup_insert_ne, app_nil_r.
Qed.

Lemma restart_actions m k ns n :
  RestartResource k ns n ∈ restartResources get_resource m
  ↔ m !! n = Some (k, ns) ∧ k ∈ restartable ∧ get_resource k ns n = true.
Proof.
  unfold restartResources.
  assert (∀ l acts, RestartResource k ns n ∈ foldl (restart_step get_resource) acts l
    ↔ RestartResource k ns n ∈ acts
      ∨ (n, (k, ns)) ∈ l ∧ k ∈ restartable ∧ get_resource k ns n = true) as H.
  { induction l as [|[n' [k' ns']] l IH]; intros acts; cbn [foldl]; [set_solver|].
    rewrite IH. unfold restart_step at 1. rewrite elem_of_cons.
    destruct (ContainsElement restartable k' && get_resource k' ns' n') eqn:Hb.
    - apply andb_true_iff in Hb as [Hk Hg]. apply ContainsElement_spec in Hk.
      rewrite elem_of_app, list_elem_of_singleton. naive_solver.
    - assert ((n, (k, ns)) = (n', (k', ns')) →
              ¬ (k ∈ restartable ∧ get_resource k ns n = true)) as Hno.
      { intros [= <- <- <-] [Hk%ContainsElement_spec Hg]. rewrite Hk, Hg in Hb. done. }
      naive_solver. }
  rewrite H, elem_of_go_range. split; [|tauto]. by intros [?%elem_of_nil|].
Qed.

Lemma pod_actions_no_restart pod k ns n : RestartResource k ns n ∉ pod_actions pod.
Proof.
  unfold pod_actions. destruct (skipped cl pod); [set_solver|].
  destruct (annotations (kp_Meta pod) !! policy_annotation);
    destruct (restarts pod && bool_decide (km_Owners (kp_Meta pod) = [])); cbn;
    rewrite ?elem_of_cons; naive_solver (by eapply not_elem_of_nil).
Qed.

Lemma Reconcile_actions pods :
  (∀ pod, pod ∈ pods → flags_set pod) →
  Reconcile get_replicaset get_resource cl (Some pods)
  = Ok ((pods ≫= pod_actions)
        ++ restartResources get_resource (foldl insert_resource ∅ (pods ≫= wanted))).
Proof. intros H. unfold Reconcile. by rewrite (refresh_wanted pods ([], ∅) H). Qed.

(** The reconciler of the controller ends without a panic if every owner reference says
    whether it is the controller.  It deletes and creates again each pod that has to be
    restarted and has no owner; and it restarts a resource exactly if that is the last, in
    the order of the pods, of those with its name that own a pod to be restarted (directly or
    through a replica set), its kind is one of the code's three, and it is there. *)
Theorem pods_restarted (pods : list KPod)
    (flags : ∀ pod, pod ∈ pods → flags_set pod) :
  ∃ actions, Reconcile get_replicaset get_resource cl (Some pods) = Ok actions ∧
    (∀ pod, pod ∈ pods → restarts pod = true → km_Owners (kp_Meta pod) = [] →
       let m := annotated_meta (kp_Meta pod) in
       DeletePod (km_Namespace m) (km_Name m) ∈ actions ∧ CreatePod (set_meta m pod) ∈ actions) ∧
    (∀ k ns n, RestartResource k ns n ∈ actions
       ↔ list.last (filter (λ w : Resource, w.2 = n) (pods ≫= wanted)) = Some (k, ns, n)
         ∧ k ∈ restartable ∧ get_resource k ns n = true).
Proof.
  eexists. split; [by apply Reconcile_actions|]. split.
  - intros pod Hin Hr Ho m.
    assert (∀ a, a ∈ pod_actions pod → a ∈ pods ≫= pod_actions) as H.
    { intros a Ha. apply list_elem_of_bind. by exists pod. }
    assert (skipped cl pod = false) as Hs.
    { unfold restarts in Hr. by destruct (skipped cl pod). }
    split; apply elem_of_app; left; apply H; unfold pod_actions; rewrite Hs, Hr, Ho;
      apply elem_of_app; right; rewrite bool_decide_true by done; cbn; set_solver.
  - intros k ns n. rewrite elem_of_app, restart_actions, foldl_insert_resource, lookup_empty.
    assert (RestartResource k ns n ∉ pods ≫= pod_actions) as Hno.
    { intros (pod & Hin & _)%list_elem_of_bind. by apply pod_actions_no_restart in Hin. }
    assert (match list.last (filter (λ w : Resource, w.2 = n) (pods ≫= wanted)) with
            | Some w => Some w.1 | None => None end = Some (k, ns)
            ↔ list.last (filter (λ w : Resource, w.2 = n) (pods ≫= wanted)) = Some (k, ns, n)) as Hw.
    { destruct (list.last _) as [[[k' ns'] n']|] eqn:Hl; [|done]. cbn.
      assert (n' = n) as ->; [|naive_solver].
      apply last_Some_elem_of, list_elem_of_filter in Hl as [Hl _]. exact Hl. }
    rewrite Hw. tauto.
Qed.

(** Pods of stateful sets and daemon sets are never restarted: the code compares the kinds of
    owners with [Statefulset] and [Daemonset], which Kubernetes does not use, so all that
    happens to these pods is that annotations are added. *)
Theorem stateful_pods_stay (pods : list KPod) (actions : list Action)
    (owned : ∀ pod, pod ∈ pods → km_Owners (kp_Meta pod) ≠ [] ∧
       ∀ ref, ref ∈ km_Owners (kp_Meta pod) →
         or_Kind ref ∈ ["StatefulSet"; "DaemonSet"] ∧ is_Some (or_Controller ref))
    (reconciled : Reconcile get_replicaset get_resource cl (Some pods) = Ok actions) :
  ∀ a, a ∈ actions → ∃ m, a = PatchPod m.
Proof.
  rewrite Reconcile_actions in reconciled by (intros pod Hp ref Hr; by eapply owned).
  injection reconciled as <-. intros a [Ha|Ha]%elem_of_app.
  - apply list_elem_of_bind in Ha as (pod & Ha & Hin). destruct (owned pod Hin) as [Hne _].
    unfold pod_actions in Ha. destruct (skipped cl pod); [by apply elem_of_nil in Ha|].
    rewrite bool_decide_false, andb_false_r, app_nil_r in Ha by done.
    destruct (annotations (kp_Meta pod) !! policy_annotation); [by apply elem_of_nil in Ha|].
    apply list_elem_of_singleton in Ha as ->. eauto.
  - exfalso. assert (∃ k ns n, a = RestartResource k ns n) as (k & ns & n & ->).
    { revert Ha. unfold restartResources.
      apply (foldl_inv (λ acts, a ∈ acts → ∃ k ns n, a = RestartResource k ns n));
        [by intros ?%elem_of_nil|].
      intros acts [n [k ns]] _ IH. unfold restart_step. destruct (_ && _); [|done].
      intros [Ha|Ha%list_elem_of_singleton]%elem_of_app; [by apply IH|eauto]. }
    apply restart_actions in Ha as (Hm & Hk & _).
    rewrite foldl_insert_resource, lookup_empty in Hm.
    destruct (list.last _) as [[[k' ns'] n']|] eqn:Hl; [|done]. cbn in Hm. simplify_eq.
    apply last_Some_elem_of, list_elem_of_filter in Hl as [_ Hl].
    apply list_elem_of_bind in Hl as (pod & Hw & Hin). destruct (owned pod Hin) as [_ Hrefs].
    unfold wanted in Hw. destruct (restarts pod); [|by apply elem_of_nil in Hw].
    apply list_elem_of_bind in Hw as (ref & Hw & Hr). destruct (Hrefs ref Hr) as [Hkind _].
    unfold owner_wanted in Hw. destruct (or_Controller ref) as [[]|]; [|by apply elem_of_nil in Hw..].
    apply ContainsElement_spec in Hk.
    apply elem_of_cons in Hkind as [Hkind|Hkind%list_elem_of_singleton];
      rewrite Hkind in Hw; apply list_elem_of_singleton in Hw; injection Hw as -> -> ->;
      vm_compute in Hk; discriminate Hk.
Qed.
End reconciler.

(** ** Witnesses *)

Lemma late_labels_uncounted_witness :
  let cl := foldl node_step InitCluster (["n1"; "n2"] ≫= joins (Some ["n1"])) in
  cl_TotalNodes cl = 0 ∧ cl_HomogeneousStatus cl = false ∧
  ∀ n, n ∈ ["n1"; "n2"] → is_Some (cl_Nodes cl !! n).
Proof. apply late_labels_uncounted. discriminate. Defined.

(** A pod without annotations on the node "n1", of an owner or standing alone *)
Definition bare_pod (name kind owner : string) : KPod :=
  {| kp_Meta := {| km_Name := name; km_Namespace := "shop"; km_Labels := ∅;
                   km_Annotations := None;
                   km_Owners := if String.eqb owner "" then [] else
                                  [{| or_Kind := kind; or_Name := owner;
                                      or_Controller := Some true |}] |};
     kp_Containers := ["app"]; kp_NodeName := "n1"; kp_Deleting := false |}.

Definition bare_replicaset (ns name : string) : option (list (string * string)) :=
  if String.eqb name "web-abc" then Some [("Deployment", "web")] else None.
Definition every_resource (kind ns name : string) : bool := true.

Lemma bare_flags name kind owner : flags_set (bare_pod name kind owner).
Proof.
  intros ref H. unfold bare_pod in H. cbn in H. destruct (String.eqb owner "").
  - by apply elem_of_nil in H.
  - apply list_elem_of_singleton in H as ->. by eexists.
Qed.

Definition bare_pods : list KPod := [bare_pod "web-abc-1" "ReplicaSet" "web-abc"; bare_pod "one" "" ""].

Lemma pods_restarted_witness :
  wanted bare_replicaset active_cluster (bare_pod "web-abc-1" "ReplicaSet" "web-abc")
    = [("Deployment", "shop", "web")] ∧
  ∃ actions, Reconcile (R:=canonical_range) bare_replicaset every_resource active_cluster
               (Some bare_pods) = Ok actions ∧
    (∀ pod, pod ∈ bare_pods → restarts active_cluster pod = true → km_Owners (kp_Meta pod) = [] →
       let m := annotated_meta (kp_Meta pod) in
       DeletePod (km_Namespace m) (km_Name m) ∈ actions ∧ CreatePod (set_meta m pod) ∈ actions) ∧
    (∀ k ns n, RestartResource k ns n ∈ actions
       ↔ list.last (filter (λ w : Resource, w.2 = n)
                      (bare_pods ≫= wanted bare_replicaset active_cluster)) = Some (k, ns, n)
         ∧ k ∈ restartable ∧ every_resource k ns n = true).
Proof.
  split; [vm_compute; reflexivity|].
  apply (pods_restarted (RL:=canonical_range_law) bare_replicaset every_resource active_cluster
           bare_pods).
  intros pod H. apply elem_of_cons in H as [->|H]; [apply bare_flags|].
  apply list_elem_of_singleton in H as ->. apply bare_flags.
Defined.

Lemma stateful_pods_stay_witness :
  let pod := bare_pod "db-0" "StatefulSet" "db" in
  restarts active_cluster pod = true ∧
  ∀ a, a ∈ [PatchPod (AddCommonAnnotations (kp_Meta pod))] → ∃ m, a = PatchPod m.
Proof.
  split; [vm_compute; reflexivity|].
  apply (stateful_pods_stay (RL:=canonical_range_law) bare_replicaset every_resource active_cluster
           [bare_pod "db-0" "StatefulSet" "db"]).
  - intros pod H. apply list_elem_of_singleton in H as ->. split; [discriminate|].
    intros ref Hr. cbn in Hr. apply list_elem_of_singleton in Hr as ->.
    split; [left|by eexists].
  - vm_compute. reflexivity.
Defined.
