(* ===== verification/KubeApi.v ===== *)
(** What the programs of [pkg/] rely on of Kubernetes: objects of one kind and namespace, by
    name.  A client can be refused at any time; a refused request changes nothing. *)
From Stdlib Require Import String.
From S2P Require Import Prelude.

Inductive KubeErr := NotFound | AlreadyExists | Refused.

#[export] Instance KubeErr_eq_dec : EqDecision KubeErr.
Proof. solve_decision. Defined.

(** Requests for objects [T] in a world [W] *)
Class KubeApi (T W : Type) := {
  api_get : string → W → T + KubeErr;
  api_create : T → W → W * option KubeErr;
  api_update : T → W → W * option KubeErr;
  api_delete : string → W → W * option KubeErr }.

(** The promise: there are objects by name, and the requests act on them. *)
Class KubeApiLaw {T W : Type} (A : KubeApi T W) (name : T → string)
    (objects : W → gmap string T) : Prop := {
  get_law n w :
    match api_get n w with
    | inl x => objects w !! n = Some x
    | inr NotFound => objects w !! n = None
    | inr _ => True
    end;
  create_law x w :
    match api_create x w with
    | (w', None) => objects w !! name x = None ∧ objects w' = <[name x := x]> (objects w)
    | (w', Some e) => objects w' = objects w ∧ (e = AlreadyExists → is_Some (objects w !! name x))
    end;
  update_law x w :
    match api_update x w with
    | (w', None) => is_Some (objects w !! name x) ∧ objects w' = <[name x := x]> (objects w)
    | (w', Some e) => objects w' = objects w ∧ (e = NotFound → objects w !! name x = None)
    end;
  delete_law n w :
    match api_delete n w with
    | (w', None) => is_Some (objects w !! n) ∧ objects w' = delete n (objects w)
    | (w', Some e) => objects w' = objects w ∧ (e = NotFound → objects w !! n = None)
    end }.

(** A server that refuses no request *)
Class KubeApiUp {T W : Type} (A : KubeApi T W) : Prop := {
  get_up n w : api_get n w ≠ inr Refused ∧ api_get n w ≠ inr AlreadyExists;
  create_up x w : (api_create x w).2 = None ∨ (api_create x w).2 = Some AlreadyExists;
  update_up x w : (api_update x w).2 = None ∨ (api_update x w).2 = Some NotFound;
  delete_up n w : (api_delete n w).2 = None ∨ (api_delete n w).2 = Some NotFound }.

(** Requests for one kind of object leave a view of the world, such as another kind, alone. *)
Class KubeApart {T W V : Type} (A : KubeApi T W) (view : W → V) : Prop := {
  apart_create x w : view (api_create x w).1 = view w;
  apart_update x w : view (api_update x w).1 = view w;
  apart_delete n w : view (api_delete n w).1 = view w }.

(** ** The requests on a server that is up *)

Section up.
Context {T W : Type} {A : KubeApi T W} {name : T → string} {objects : W → gmap string T}.
Context `{L : !KubeApiLaw A name objects, U : !KubeApiUp A}.

Lemma api_get_up n w :
  api_get n w = match objects w !! n with Some x => inl x | None => inr NotFound end.
Proof.
  pose proof (get_law n w) as H. destruct (get_up n w) as [H1 H2].
  destruct (api_get n w) as [x|[]]; by rewrite ?H.
Qed.

Lemma api_create_up x w :
  objects (api_create x w).1
  = match objects w !! name x with Some _ => objects w | None => <[name x := x]> (objects w) end.
Proof.
  pose proof (create_law x w) as H. pose proof (create_up x w) as Hu.
  destruct (api_create x w) as [w' [e|]]; cbn in *.
  - destruct H as [-> He]. destruct Hu as [?|[= ->]]; [done|].
    by destruct (He eq_refl) as [y ->].
  - by destruct H as [-> ->].
Qed.

Lemma api_delete_up n w : objects (api_delete n w).1 = delete n (objects w).
Proof.
  pose proof (delete_law n w) as H. pose proof (delete_up n w) as Hu.
  destruct (api_delete n w) as [w' [e|]]; cbn in *.
  - destruct H as [-> He]. destruct Hu as [?|[= ->]]; [done|]. by rewrite delete_id by auto.
  - by destruct H as [_ ->].
Qed.

Lemma api_update_up x w :
  objects (api_update x w).1
  = match objects w !! name x with Some _ => <[name x := x]> (objects w) | None => objects w end.
Proof.
  pose proof (update_law x w) as H. pose proof (update_up x w) as Hu.
  destruct (api_update x w) as [w' [e|]]; cbn in *.
  - destruct H as [-> He]. destruct Hu as [?|[= ->]]; [done|]. by rewrite He.
  - destruct H as [[y ->] ->]. done.
Qed.
End up.

(** ** A server that is a map *)

Section map_api.
Context {T : Type} (name : T → string).

Definition map_api : KubeApi T (gmap string T) := {|
  api_get n w := match w !! n with Some x => inl x | None => inr NotFound end;
  api_create x w := match w !! name x with
                    | Some _ => (w, Some AlreadyExists) | None => (<[name x := x]> w, None) end;
  api_update x w := match w !! name x with
                    | Some _ => (<[name x := x]> w, None) | None => (w, Some NotFound) end;
  api_delete n w := match w !! n with
                    | Some _ => (delete n w, None) | None => (w, Some NotFound) end |}.

Lemma map_api_law : KubeApiLaw map_api name id.
Proof.
  split; intros x w; cbn; destruct (w !! _) eqn:E; rewrite ?E; cbn; eauto.
Qed.

Lemma map_api_up : KubeApiUp map_api.
Proof. split; intros x w; cbn; destruct (w !! _); cbn; eauto. Qed.
End map_api.

(** ** A server that keeps its objects in a part of the world *)

Section part_api.
Context {T W : Type} (name : T → string).
Context (get : W → gmap string T) (set : gmap string T → W → W).
Context (get_set : ∀ m w, get (set m w) = m).

Definition part_api : KubeApi T W := {|
  api_get n w := match get w !! n with Some x => inl x | None => inr NotFound end;
  api_create x w := match get w !! name x with
                    | Some _ => (w, Some AlreadyExists)
                    | None => (set (<[name x := x]> (get w)) w, None) end;
  api_update x w := match get w !! name x with
                    | Some _ => (set (<[name x := x]> (get w)) w, None)
                    | None => (w, Some NotFound) end;
  api_delete n w := match get w !! n with
                    | Some _ => (set (delete n (get w)) w, None) | None => (w, Some NotFound) end |}.

Lemma part_api_law : KubeApiLaw part_api name get.
Proof. split; intros x w; cbn; destruct (get w !! _) eqn:E; rewrite ?get_set, ?E; cbn; eauto. Qed.

Lemma part_api_up : KubeApiUp part_api.
Proof. split; intros x w; cbn; destruct (get w !! _); cbn; eauto. Qed.

Lemma part_api_apart {V : Type} (view : W → V) :
  (∀ m w, view (set m w) = view w) → KubeApart part_api view.
Proof. intros H. split; intros x w; cbn; destruct (get w !! _); cbn; auto. Qed.
End part_api.
