(* ===== verification/OperatorConfig.v ===== *)
(** The settings of KubeArmorOperator, a separate program ([pkg/KubeArmorOperator]): the
    variables of [common/defaults.go], the functions of [internal/controller/cluster.go]
    that take them from a custom resource, and the handlers of that resource
    ([WatchConfigCrd]).

    The variables are states; an update returns the new state and whether it changed.  A
    nil and an empty list are not told apart: no caller looks at the difference. *)
From Stdlib Require Import Ascii String.
From S2P Require Import Prelude GoStrings Common.

Open Scope string_scope.
Open Scope Z_scope.

(** [TolerationSeconds] is a pointer: tolerations are compared by its address. *)
Record Toleration := {
  tl_Key : string; tl_Operator : string; tl_Value : string; tl_Effect : string;
  tl_Seconds : option positive }.

#[export] Instance Toleration_eq_dec : EqDecision Toleration.
Proof. solve_decision. Defined.

(** An image in the resource, and in the variables of an application *)
Record ImageSpec := {
  is_Image : string; is_PullPolicy : string; is_Args : list string;
  is_Secrets : list string; is_Tolerations : list Toleration }.

Record Images := {
  im_KubeArmor : ImageSpec; im_Init : ImageSpec; im_Relay : ImageSpec;
  im_Controller : ImageSpec; im_NRI : bool;
  im_GlobalSecrets : list string; im_GlobalTolerations : list Toleration }.

Record MatchExpression := { me_Key : string; me_Operator : string; me_Values : list string }.
Record RecommendedPolicies := {
  rp_Enable : bool; rp_MatchExpressions : list MatchExpression;
  rp_ExcludePolicy : list string }.

#[export] Instance MatchExpression_eq_dec : EqDecision MatchExpression.
Proof. solve_decision. Defined.

Record ElasticSearch := {
  el_Enabled : bool; el_Url : string; el_AlertsIndexName : string; el_SecretName : string;
  el_UserNameKey : string; el_PasswordKey : string; el_AllowTlsInsecure : bool;
  el_CAcertSecretName : string; el_CaCertKey : string }.

Record Tls := { tls_Enable : bool; tls_DnsNames : list string; tls_IpAddresses : list string }.

(** [KubeArmorConfigSpec] *)
Record ConfigSpec := {
  cs_Images : Images; cs_Recommended : RecommendedPolicies;
  cs_FilePosture : string; cs_CapabilitiesPosture : string; cs_NetworkPosture : string;
  cs_Visibility : string; cs_Tls : Tls;
  cs_StdOutLogs : bool; cs_StdOutAlerts : bool; cs_StdOutMsgs : bool; cs_Seccomp : bool;
  cs_AlertThrottling : bool; cs_MaxAlertPerSec : Z; cs_ThrottleSec : Z;
  cs_Elastic : ElasticSearch; cs_MatchArgs : bool; cs_ControllerPort : Z }.

Record KubeArmorConfig := {
  kc_Name : string; kc_Spec : ConfigSpec; kc_Phase : string; kc_Message : string }.

(** ** The variables *)

Record Globals := {
  g_Images : Images; g_Data : gmap string string; g_RelayEnv : gmap string string;
  g_Elastic : ElasticSearch; g_Seccomp : string; g_Tls : Tls; g_Port : Z;
  g_Recommended : RecommendedPolicies }.

Definition image (img : string) (args : list string) : ImageSpec :=
  {| is_Image := img; is_PullPolicy := "Always"; is_Args := args; is_Secrets := [];
     is_Tolerations := [] |}.

Definition default_Images : Images :=
  {| im_KubeArmor := image "kubearmor/kubearmor:stable"
       ["-gRPC=32767"; "-procfsMount=/host/procfs"; "-tlsEnabled=false"];
     im_Init := image "kubearmor/kubearmor-init:stable" [];
     im_Relay := image "kubearmor/kubearmor-relay-server:latest" ["-tlsEnabled=false"];
     im_Controller := image "kubearmor/kubearmor-controller:latest"
       ["--leader-elect"; "--health-probe-bind-address=:8081"; "--annotateExisting=false"];
     im_NRI := false; im_GlobalSecrets := []; im_GlobalTolerations := [] |}.

Definition default_Globals : Globals :=
  {| g_Images := default_Images;
     g_Data := list_to_map [("gRPC", "32767"); ("cluster", "default");
       ("defaultFilePosture", "audit"); ("defaultCapabilitiesPosture", "audit");
       ("defaultNetworkPosture", "audit"); ("visibility", "process,network,capabilities");
       ("defaultPostureLogs", "true"); ("alertThrottling", "true");
       ("maxAlertPerSec", "10"); ("throttleSec", "30"); ("matchArgs", "true")];
     g_RelayEnv := list_to_map [("enableStdOutAlerts", "false"); ("enableStdOutLogs", "false");
       ("enableStdOutMsgs", "false")];
     g_Elastic := {| el_Enabled := false; el_Url := ""; el_AlertsIndexName := "kubearmor-alerts";
       el_SecretName := "elastic-secret"; el_UserNameKey := "username";
       el_PasswordKey := "password"; el_AllowTlsInsecure := false;
       el_CAcertSecretName := ""; el_CaCertKey := "ca.crt" |};
     g_Seccomp := "false";
     g_Tls := {| tls_Enable := false; tls_DnsNames := ["localhost"];
                 tls_IpAddresses := ["127.0.0.1"] |};
     g_Port := 9443;
     g_Recommended := {| rp_Enable := false;
       rp_MatchExpressions := [{| me_Key := "namespace"; me_Operator := "NotIn";
                                  me_Values := ["kube-system"; "kubearmor"] |}];
       rp_ExcludePolicy := [] |} |}.

(** ** Updates of one variable *)

Definition UpdateIfDefinedAndUpdated (common input : string) : string * bool :=
  if negb (String.eqb input "") && negb (String.eqb input common)
  then (input, true) else (common, false).

(** [strings.TrimLeft(arg, "-")] *)
Fixpoint trim_dashes (s : string) : string :=
  match s with
  | String "-" s' => trim_dashes s'
  | _ => s
  end.

Definition ParseArgument (arg : string) : option (string * string) :=
  cut_label (trim_dashes arg).

Definition print_argument (kv : string * string) : string := "-" +:+ kv.1 +:+ "=" +:+ kv.2.

Definition parsed (args : list string) : list (string * string) := omap ParseArgument args.
Definition bare (args : list string) : list string :=
  filter (λ arg, ParseArgument arg = None) args.

(** The same elements in as many places *)
Definition list_updated {A} `{EqDecision A} (common input : list A) : bool :=
  negb (bool_decide (length input = length common))
  || negb (forallb (λ x, bool_decide (x ∈ common)) input).

Definition UpdateListIfUpdated {A} `{EqDecision A} (common input : list A) : list A * bool :=
  if list_updated common input then (input, true) else (common, false).
Definition UpdateImagePullSecretsIfDefinedAndUpdated := UpdateListIfUpdated (A := string).
Definition UpdateTolerationsIfDefinedAndUpdated := UpdateListIfUpdated (A := Toleration).

Definition UpdateNRIAvailabilityIfDefinedAndUpdated (common input : bool) : bool * bool :=
  if Bool.eqb input common then (common, false) else (input, true).

(** Go's [||] between updates: the second is not run if the first has changed something. *)
Definition or_else {S} (f g : S → S * bool) (s : S) : S * bool :=
  let r := f s in if r.2 then r else g r.1.

(** A field of a state *)
Definition on {S F} (get : S → F) (set : F → S → S) (f : F → F * bool) (s : S) : S * bool :=
  let r := f (get s) in (set r.1 s, r.2).

Definition set_Image x (i : ImageSpec) : ImageSpec :=
  {| is_Image := x; is_PullPolicy := is_PullPolicy i; is_Args := is_Args i;
     is_Secrets := is_Secrets i; is_Tolerations := is_Tolerations i |}.
Definition set_PullPolicy x (i : ImageSpec) : ImageSpec :=
  {| is_Image := is_Image i; is_PullPolicy := x; is_Args := is_Args i;
     is_Secrets := is_Secrets i; is_Tolerations := is_Tolerations i |}.
Definition set_Args x (i : ImageSpec) : ImageSpec :=
  {| is_Image := is_Image i; is_PullPolicy := is_PullPolicy i; is_Args := x;
     is_Secrets := is_Secrets i; is_Tolerations := is_Tolerations i |}.
Definition set_Secrets x (i : ImageSpec) : ImageSpec :=
  {| is_Image := is_Image i; is_PullPolicy := is_PullPolicy i; is_Args := is_Args i;
     is_Secrets := x; is_Tolerations := is_Tolerations i |}.
Definition set_Tolerations x (i : ImageSpec) : ImageSpec :=
  {| is_Image := is_Image i; is_PullPolicy := is_PullPolicy i; is_Args := is_Args i;
     is_Secrets := is_Secrets i; is_Tolerations := x |}.

Definition update_Image (cfg : ImageSpec) : ImageSpec → ImageSpec * bool :=
  on is_Image set_Image (λ s, UpdateIfDefinedAndUpdated s (is_Image cfg)).
Definition update_PullPolicy (cfg : ImageSpec) : ImageSpec → ImageSpec * bool :=
  on is_PullPolicy set_PullPolicy (λ s, UpdateIfDefinedAndUpdated s (is_PullPolicy cfg)).
Definition update_Secrets (cfg : ImageSpec) : ImageSpec → ImageSpec * bool :=
  on is_Secrets set_Secrets
    (λ s, UpdateImagePullSecretsIfDefinedAndUpdated s (is_Secrets cfg)).
Definition update_Tolerations (cfg : ImageSpec) : ImageSpec → ImageSpec * bool :=
  on is_Tolerations set_Tolerations
    (λ s, UpdateTolerationsIfDefinedAndUpdated s (is_Tolerations cfg)).

(** ** The configuration map *)

(** One key of the map: what it is set to, and its line in the file [karmor.yaml] *)
Definition data_update (k v : string) (data : gmap string string) : gmap string string * bool :=
  if bool_decide (default "" (data !! k) = v) then (data, false) else (<[k := v]> data, true).

Definition bool_text (b : bool) : string := if b then "true" else "false".

Definition yaml_line (k v : string) : string := k +:+ ": " +:+ v +:+ String newline "".

(** State: the map, whether it changed, and the text of the file so far *)
Definition data_step (k v : string) (line : bool)
    (st : gmap string string * bool * string) : gmap string string * bool * string :=
  let '(data, updated, text) := st in
  let r := data_update k v data in
  (r.1, updated || r.2, if line then text +:+ yaml_line k v else text).

Definition data_step_if (k v : string)
    (st : gmap string string * bool * string) : gmap string string * bool * string :=
  if String.eqb v "" then st else data_step k v true st.

Definition limit_text (n : Z) (unset : string) : string :=
  if n =? 0 then unset else Itoa n.

(** The matching of arguments is in the map but not in the file. *)
Definition UpdateConfigMapData (cfg : ConfigSpec) (data : gmap string string)
    : gmap string string * bool :=
  let st := (data, false, "") in
  let st := data_step_if "defaultFilePosture" (cs_FilePosture cfg) st in
  let st := data_step_if "defaultCapabilitiesPosture" (cs_CapabilitiesPosture cfg) st in
  let st := data_step_if "defaultNetworkPosture" (cs_NetworkPosture cfg) st in
  let st := data_step_if "visibility" (cs_Visibility cfg) st in
  let st := data_step "alertThrottling" (bool_text (cs_AlertThrottling cfg)) true st in
  let st := data_step "maxAlertPerSec" (limit_text (cs_MaxAlertPerSec cfg) "10") true st in
  let st := data_step "matchArgs" (bool_text (cs_MatchArgs cfg)) false st in
  let '(data, updated, text) :=
    data_step "throttleSec" (limit_text (cs_ThrottleSec cfg) "30") true st in
  (<["karmor.yaml" := text]> data, updated).

(** ** Relay, seccomp, TLS, the controller's port, recommended policies *)

(** Fields that are always taken, and those that are taken unless empty *)
Definition take_field {A} `{EqDecision A} (input common : A) : A * bool :=
  if bool_decide (common = input) then (common, false) else (input, true).

Definition update_Elastic (cfg e : ElasticSearch) : ElasticSearch * bool :=
  let '(enabled, u1) := take_field (el_Enabled cfg) (el_Enabled e) in
  let '(insecure, u2) := take_field (el_AllowTlsInsecure cfg) (el_AllowTlsInsecure e) in
  let '(index, u3) := take_field (el_AlertsIndexName cfg) (el_AlertsIndexName e) in
  let '(url, u4) := take_field (el_Url cfg) (el_Url e) in
  let '(secret, u5) := UpdateIfDefinedAndUpdated (el_SecretName e) (el_SecretName cfg) in
  let '(user, u6) := UpdateIfDefinedAndUpdated (el_UserNameKey e) (el_UserNameKey cfg) in
  let '(password, u7) := UpdateIfDefinedAndUpdated (el_PasswordKey e) (el_PasswordKey cfg) in
  let '(ca, u8) := UpdateIfDefinedAndUpdated (el_CAcertSecretName e) (el_CAcertSecretName cfg) in
  ({| el_Enabled := enabled; el_Url := url; el_AlertsIndexName := index;
      el_SecretName := secret; el_UserNameKey := user; el_PasswordKey := password;
      el_AllowTlsInsecure := insecure; el_CAcertSecretName := ca;
      el_CaCertKey := el_CaCertKey e |},
   u1 || u2 || u3 || u4 || u5 || u6 || u7 || u8).

Definition UpdatedKubearmorRelayEnv (cfg : ConfigSpec)
    (st : gmap string string * ElasticSearch) : (gmap string string * ElasticSearch) * bool :=
  let '(env, e) := st in
  let '(env, u1) := data_update "enableStdOutLogs" (bool_text (cs_StdOutLogs cfg)) env in
  let '(env, u2) := data_update "enableStdOutAlerts" (bool_text (cs_StdOutAlerts cfg)) env in
  let '(env, u3) := data_update "enableStdOutMsgs" (bool_text (cs_StdOutMsgs cfg)) env in
  let '(e, u4) := update_Elastic (cs_Elastic cfg) e in
  ((env, e), u1 || u2 || u3 || u4).

Definition UpdatedSeccomp (cfg : ConfigSpec) (seccomp : string) : string * bool :=
  take_field (bool_text (cs_Seccomp cfg)) seccomp.

(** Both lists go to the variable of the names. *)
Definition UpdateTlsData (cfg : ConfigSpec) (tls : Tls) : Tls * bool :=
  let '(enable, updated) := take_field (tls_Enable (cs_Tls cfg)) (tls_Enable tls) in
  let names := match tls_DnsNames (cs_Tls cfg) with [] => tls_DnsNames tls | l => l end in
  let names := match tls_IpAddresses (cs_Tls cfg) with [] => names | l => l end in
  ({| tls_Enable := enable; tls_DnsNames := names; tls_IpAddresses := tls_IpAddresses tls |},
   updated).

Definition UpdateControllerPort (cfg : ConfigSpec) (port : Z) : Z * bool :=
  if negb (cs_ControllerPort cfg =? 0) && negb (cs_ControllerPort cfg =? port)
  then (cs_ControllerPort cfg, true) else (port, false).

Definition UpdateRecommendedPolicyConfig (cfg : ConfigSpec) (rp : RecommendedPolicies)
    : RecommendedPolicies * bool :=
  let c := cs_Recommended cfg in
  let '(enable, u1) := take_field (rp_Enable c) (rp_Enable rp) in
  let '(exprs, u2) := take_field (rp_MatchExpressions c) (rp_MatchExpressions rp) in
  let '(excl, u3) := take_field (rp_ExcludePolicy c) (rp_ExcludePolicy rp) in
  ({| rp_Enable := enable; rp_MatchExpressions := exprs; rp_ExcludePolicy := excl |},
   u1 || u2 || u3).

(** ** Images *)

Section config.
Context `{R : GoRange}.

(** The keys of the defaults and of the user's arguments, the user's winning *)
Definition argMap (defaultArgs input : list string) : gmap string string :=
  insert_all (parsed input) (insert_all (parsed defaultArgs) ∅).
Definition finalArgs (args : gmap string string) : list string :=
  sort_strings (print_argument <$> go_range args).

(** An argument without a value is appended to the defaults, which are then compared with
    the arguments that have one. *)
Definition UpdateArgsIfDefinedAndUpdated (defaultArgs input : list string)
    : list string * bool :=
  match input with
  | [] => (defaultArgs, false)
  | _ =>
      let final := finalArgs (argMap defaultArgs input) in
      if bool_decide ((defaultArgs ++ bare input)%list = final)
      then ((defaultArgs ++ bare input)%list, false) else (final, true)
  end.

Definition update_Args (cfg : ImageSpec) : ImageSpec → ImageSpec * bool :=
  on is_Args set_Args (λ s, UpdateArgsIfDefinedAndUpdated s (is_Args cfg)).

Definition update_image (cfg : ImageSpec) : ImageSpec → ImageSpec * bool :=
  or_else (or_else (or_else (or_else
    (update_Image cfg) (update_PullPolicy cfg)) (update_Args cfg)) (update_Secrets cfg))
    (update_Tolerations cfg).

(** KubeArmor's own image, with the availability of NRI *)
Definition update_kubearmor (cfg : Images) : ImageSpec * bool → (ImageSpec * bool) * bool :=
  or_else (on fst (λ x s, (x, s.2)) (update_image (im_KubeArmor cfg)))
          (on snd (λ x s, (s.1, x))
             (λ b, UpdateNRIAvailabilityIfDefinedAndUpdated b (im_NRI cfg))).

Definition update_global (cfg : Images)
    : list string * list Toleration → (list string * list Toleration) * bool :=
  or_else (on fst (λ x s, (x, s.2))
             (λ l, UpdateImagePullSecretsIfDefinedAndUpdated l (im_GlobalSecrets cfg)))
          (on snd (λ x s, (s.1, x))
             (λ l, UpdateTolerationsIfDefinedAndUpdated l (im_GlobalTolerations cfg))).

Definition named (updated : bool) (name : string) : list string :=
  if updated then [name] else [].

Definition UpdateImages (cfg im : Images) : Images * list string :=
  let '((kubearmor, nri), u1) := update_kubearmor cfg (im_KubeArmor im, im_NRI im) in
  let '(init, u2) := update_image (im_Init cfg) (im_Init im) in
  let '(relay, u3) := update_image (im_Relay cfg) (im_Relay im) in
  let '(controller, u4) := update_image (im_Controller cfg) (im_Controller im) in
  let '((secrets, tolerations), u5) :=
    update_global cfg (im_GlobalSecrets im, im_GlobalTolerations im) in
  ({| im_KubeArmor := kubearmor; im_Init := init; im_Relay := relay;
      im_Controller := controller; im_NRI := nri; im_GlobalSecrets := secrets;
      im_GlobalTolerations := tolerations |},
   if u5 then ["kubearmor"; "init"; "relay"; "controller"]
   else (named u1 "kubearmor" ++ named u2 "init" ++ named u3 "relay"
         ++ named u4 "controller")%list).

(** ** The handlers of the resource *)

(** What a handler starts or calls, in order *)
Inductive ConfigAction :=
| UpdateCrdStatus (name phase : string)
| WatchRequiredResources
| UpdateKubeArmorImages (images : list string)
| UpdateKubeArmorConfigMap
| UpdateKubearmorRelayEnv
| UpdateKubearmorSeccomp (enabled : bool)
| UpdateWebhookSvcPort (port : Z).

(** The name of the operating resource, whether the resources are not watched yet, and the
    variables.  Of [common.OperatorConfigCrd] only the name is read. *)
Record OperatorState := {
  op_Crd : option string; op_firstRun : bool; op_Globals : Globals }.

Definition watch_first (firstRun : bool) : list ConfigAction :=
  if firstRun then [WatchRequiredResources] else [].

(** All updates, and which of them changed something *)
Record Changes := {
  ch_Config : bool; ch_Images : list string; ch_Port : bool; ch_Relay : bool;
  ch_Seccomp : bool; ch_Tls : bool }.

Definition take_spec (cfg : ConfigSpec) (g : Globals) : Globals * Changes :=
  let '(data, config) := UpdateConfigMapData cfg (g_Data g) in
  let '(images, names) := UpdateImages (cs_Images cfg) (g_Images g) in
  let '(port, portu) := UpdateControllerPort cfg (g_Port g) in
  let '((env, elastic), relay) := UpdatedKubearmorRelayEnv cfg (g_RelayEnv g, g_Elastic g) in
  let '(seccomp, sec) := UpdatedSeccomp cfg (g_Seccomp g) in
  let '(tls, tlsu) := UpdateTlsData cfg (g_Tls g) in
  let recommended := (UpdateRecommendedPolicyConfig cfg (g_Recommended g)).1 in
  ({| g_Images := images; g_Data := data; g_RelayEnv := env; g_Elastic := elastic;
      g_Seccomp := seccomp; g_Tls := tls; g_Port := port; g_Recommended := recommended |},
   {| ch_Config := config; ch_Images := names; ch_Port := portu; ch_Relay := relay;
      ch_Seccomp := sec; ch_Tls := tlsu |}).

(** [AddFunc]: [items] is the answer to the request for all resources. *)
Definition config_AddFunc (items : option (list KubeArmorConfig)) (cfg : KubeArmorConfig)
    (st : OperatorState) : OperatorState * list ConfigAction :=
  match items with
  | None => (st, [])
  | Some items =>
      let '(st, acts) :=
        match list_find (λ c, kc_Phase c = "Running") items with
        | Some (_, c) =>
            ({| op_Crd := Some (kc_Name c); op_firstRun := false;
                op_Globals := op_Globals st |}, watch_first (op_firstRun st))
        | None => (st, [])
        end in
      match op_Crd st with
      | Some name =>
          (st, if String.eqb (kc_Name cfg) name then acts
               else (acts ++ [UpdateCrdStatus (kc_Name cfg) "Error"])%list)
      | None =>
          ({| op_Crd := Some (kc_Name cfg); op_firstRun := false;
              op_Globals := (take_spec (kc_Spec cfg) (op_Globals st)).1 |},
           (acts ++ [UpdateCrdStatus (kc_Name cfg) "Created"; WatchRequiredResources])%list)
      end
  end.

Definition only_status (old cfg : KubeArmorConfig) (ch : Changes) : bool :=
  negb (ch_Tls ch) && negb (ch_Relay ch) && negb (ch_Config ch)
  && negb (String.eqb (kc_Phase cfg) (kc_Phase old)
           && String.eqb (kc_Message cfg) (kc_Message old))
  && bool_decide (ch_Images ch = []) && negb (ch_Port ch).

Definition when (b : bool) (acts : list ConfigAction) : list ConfigAction :=
  if b then acts else [].

Definition config_actions (cfg : KubeArmorConfig) (ch : Changes) : list ConfigAction :=
  let updating := UpdateCrdStatus (kc_Name cfg) "Updating" in
  (when (bool_decide (ch_Images ch ≠ [])) [UpdateKubeArmorImages (ch_Images ch)]
   ++ when (ch_Config ch) [updating; UpdateKubeArmorConfigMap]
   ++ when (ch_Relay ch) [updating; UpdateKubearmorRelayEnv]
   ++ when (ch_Seccomp ch) [updating; UpdateKubearmorSeccomp (cs_Seccomp (kc_Spec cfg))]
   ++ when (ch_Port ch) [UpdateKubeArmorImages ["controller"];
                         UpdateWebhookSvcPort (cs_ControllerPort (kc_Spec cfg))])%list.

Definition config_UpdateFunc (old cfg : KubeArmorConfig) (st : OperatorState)
    : OperatorState * list ConfigAction :=
  if bool_decide (op_Crd st = Some (kc_Name cfg)) then
    let '(g, ch) := take_spec (kc_Spec cfg) (op_Globals st) in
    ({| op_Crd := op_Crd st; op_firstRun := op_firstRun st; op_Globals := g |},
     if only_status old cfg ch then [] else config_actions cfg ch)
  else (st, []).

Definition config_DeleteFunc (cfg : KubeArmorConfig) (st : OperatorState) : OperatorState :=
  if bool_decide (op_Crd st = Some (kc_Name cfg))
  then {| op_Crd := None; op_firstRun := op_firstRun st; op_Globals := op_Globals st |}
  else st.
End config.
