(* ===== verification/OperatorConfigProps.v ===== *)
(** The operator takes its settings from the custom resource: updates of one variable, what
    they do to arguments, and that the resyncs of the resource settle. *)
From Stdlib Require Import Ascii String.
From S2P Require Import Prelude GoStrings Common OperatorConfig.

Open Scope string_scope.
Open Scope list_scope.
Open Scope Z_scope.

#[local] Arguments ParseArgument : simpl never.
#[local] Arguments print_argument : simpl never.

(** * Updates that settle

    An update settles if a measure of its state, at most [n], goes down whenever it reports
    a change, and the state stays when it does not. *)
Section settling.
Context {S : Type}.
Implicit Types (f g : S → S * bool) (m : S → nat).

Definition idle f (s : S) : Prop := f s = (s, false).

Record settles f m (n : nat) : Prop := {
  settles_bound s : (m s ≤ n)%nat;
  settles_keep s : (f s).2 = false → (f s).1 = s;
  settles_change s : (f s).2 = true → (m (f s).1 < m s)%nat }.

Lemma settles_rounds f m n k s :
  settles f m n → (m s ≤ k)%nat → idle f (Nat.iter k (λ s, (f s).1) s).
Proof.
  intros H. revert s. induction k as [|k IH]; intros s Hm.
  - cbn. unfold idle. destruct (f s) as [s' b] eqn:E.
    pose proof (settles_keep _ _ _ H s) as Hk. pose proof (settles_change _ _ _ H s) as Hc.
    rewrite E in Hk, Hc. cbn in *. destruct b; [specialize (Hc eq_refl); lia|].
    by rewrite Hk.
  - rewrite Nat.iter_succ_r. destruct (f s).2 eqn:E.
    + apply IH. pose proof (settles_change _ _ _ H s E). lia.
    + rewrite (settles_keep _ _ _ H s E).
      assert (Hi : idle f s).
      { unfold idle. rewrite (surjective_pairing (f s)), E. by rewrite (settles_keep _ _ _ H s E). }
      clear -Hi. induction k as [|k IHk]; [done|]. cbn. by rewrite IHk.
Qed.

Lemma settled_after f m n s : settles f m n → idle f (Nat.iter n (λ s, (f s).1) s).
Proof. intros H. eapply settles_rounds; [exact H|]. apply H. Qed.

(** Updates of different parts, one after the other *)
Lemma settles_or_else f g mf mg nf ng :
  settles f mf nf → settles g mg ng →
  (∀ s, mf (g s).1 = mf s) → (∀ s, mg (f s).1 = mg s) →
  settles (or_else f g) (λ s, mf s + mg s)%nat (nf + ng).
Proof.
  intros Hf Hg Hfg Hgf. unfold or_else.
  assert (Hb : ∀ s, (f s).2 = false → (f s).1 = s) by apply Hf.
  split; intros s.
  - pose proof (settles_bound _ _ _ Hf s). pose proof (settles_bound _ _ _ Hg s). lia.
  - destruct (f s).2 eqn:E; [by rewrite E|]. rewrite (Hb s E). apply Hg.
  - destruct (f s).2 eqn:E.
    + intros _. rewrite Hgf. pose proof (settles_change _ _ _ Hf s E). lia.
    + rewrite (Hb s E). intros E'. rewrite Hfg.
      pose proof (settles_change _ _ _ Hg s E'). lia.
Qed.

(** A report of no change is true. *)
Definition honest f : Prop := ∀ s, (f s).2 = false → (f s).1 = s.

Lemma honest_idle f s : honest f → (f s).2 = false → idle f s.
Proof. intros H E. unfold idle. by rewrite (surjective_pairing (f s)), E, (H s E). Qed.

Lemma or_else_snd f g s : honest f → (or_else f g s).2 = (f s).2 || (g s).2.
Proof. intros H. unfold or_else. destruct (f s).2 eqn:E; [done|]. by rewrite (H s E). Qed.

Lemma or_else_honest f g : honest f → honest g → honest (or_else f g).
Proof.
  intros Hf Hg s. unfold or_else. destruct (f s).2 eqn:E; [congruence|].
  rewrite (Hf s E). apply Hg.
Qed.
End settling.

(** An update of one variable that does nothing the second time *)
Definition once {F} (f : F → F * bool) : Prop :=
  ∀ x, ((f x).2 = false → (f x).1 = x) ∧ (f (f x).1).2 = false.

Definition pending {S F} (get : S → F) (f : F → F * bool) (s : S) : nat :=
  if (f (get s)).2 then 1 else 0.

Section on.
Context {S F : Type} (get : S → F) (set : F → S → S).
Context (get_set : ∀ x s, get (set x s) = x) (set_get : ∀ s, set (get s) s = s).

Lemma on_settles f : once f → settles (on get set f) (pending get f) 1.
Proof.
  intros H. unfold pending, on. split; intros s; cbn.
  - destruct (f (get s)).2; lia.
  - intros E. destruct (H (get s)) as [Hk _]. by rewrite Hk, set_get.
  - intros E. rewrite get_set, E. destruct (H (get s)) as [_ ->]. lia.
Qed.

Lemma on_honest f : once f → honest (on get set f).
Proof. intros H. exact (settles_keep _ _ _ (on_settles f H)). Qed.
End on.

Lemma defined_once input : once (λ s, UpdateIfDefinedAndUpdated s input).
Proof.
  intros x. unfold UpdateIfDefinedAndUpdated.
  destruct (String.eqb_spec input "") as [->|]; cbn; [done|].
  destruct (String.eqb_spec input x) as [->|]; cbn.
  - by rewrite String.eqb_refl.
  - by rewrite String.eqb_refl.
Qed.

Lemma list_updated_refl {A} `{EqDecision A} (l : list A) : list_updated l l = false.
Proof.
  unfold list_updated. rewrite bool_decide_true by done. cbn.
  apply negb_false_iff, forallb_forall. intros x Hx. apply bool_decide_eq_true.
  by apply list_elem_of_In.
Qed.

Lemma list_once {A} `{EqDecision A} (input : list A) : once (λ l, UpdateListIfUpdated l input).
Proof.
  intros l. unfold UpdateListIfUpdated. destruct (list_updated l input) eqn:E; cbn.
  - by rewrite list_updated_refl.
  - by rewrite E.
Qed.

Lemma take_once {A} `{EqDecision A} (input : A) : once (take_field input).
Proof.
  intros x. unfold take_field. destruct (decide (x = input)) as [->|Hne].
  - by rewrite !bool_decide_true by done.
  - rewrite (bool_decide_false _ Hne). cbn. by rewrite bool_decide_true by done.
Qed.

Lemma nri_once input : once (λ b, UpdateNRIAvailabilityIfDefinedAndUpdated b input).
Proof. intros x. by destruct x, input. Qed.

(** * Arguments *)

Definition eq_char : ascii := "="%char.

(** What [ParseArgument] gives as a key *)
Definition argument_key (k : string) : Prop :=
  char_in eq_char k = false ∧ trim_dashes k = k.

Lemma cut_label_Some s k v :
  cut_label s = Some (k, v) ↔ s = k +:+ "=" +:+ v ∧ char_in eq_char k = false.
Proof.
  unfold cut_label. split.
  - intros H. destruct (split "=" s) as [|key [|w rest]] eqn:E; [done..|].
    apply (inj Some) in H. pose proof (f_equal fst H) as Hk. pose proof (f_equal snd H) as Hv.
    cbn [fst snd] in Hk, Hv. subst key. split.
    + rewrite <- (join_split "=" s), E, join_cons by done. by rewrite Hv.
    + apply (split_components "=" s). rewrite E. left.
  - intros [-> Hk]. cbn. rewrite split_app_sep, split_no_sep by done. cbn.
    destruct (split_cons "=" v) as (h & t & E). rewrite E.
    by rewrite <- (join_split "=" v), E.
Qed.

(** Case analysis on whether a character is a dash *)
Ltac dash_case c := destruct c as [[] [] [] [] [] [] [] []]; try done.

Lemma trim_dashes_length s : (String.length (trim_dashes s) ≤ String.length s)%nat.
Proof. induction s as [|c s IH]; [done|]. dash_case c. cbn. lia. Qed.

(** Nothing that starts with a dash is trimmed. *)
Lemma trim_dashes_dash s : trim_dashes s ≠ String "-" s.
Proof.
  intros E. pose proof (trim_dashes_length s) as Hle. rewrite E in Hle. cbn in Hle. lia.
Qed.

Lemma trim_dashes_idemp s : trim_dashes (trim_dashes s) = trim_dashes s.
Proof. induction s as [|c s IH]; [done|]. dash_case c. Qed.

Lemma trim_dashes_key k v :
  trim_dashes (k +:+ "=" +:+ v) = k +:+ "=" +:+ v → trim_dashes k = k.
Proof.
  destruct k as [|c k]; [done|]. dash_case c. cbn. intros E. by apply trim_dashes_dash in E.
Qed.

Lemma ParseArgument_key arg k v : ParseArgument arg = Some (k, v) → argument_key k.
Proof.
  unfold ParseArgument. intros [E Hk]%cut_label_Some. split; [done|].
  apply (trim_dashes_key k v). rewrite <- E. apply trim_dashes_idemp.
Qed.

(** Printing and parsing of an argument with a value *)
Lemma ParseArgument_print k v :
  argument_key k → ParseArgument (print_argument (k, v)) = Some (k, v).
Proof.
  intros [Hk Ht]. unfold ParseArgument, print_argument. apply cut_label_Some.
  split; [|done]. cbn. destruct k as [|c k]; [done|].
  dash_case c. cbn in Ht. by apply trim_dashes_dash in Ht.
Qed.

Lemma print_argument_inj kv kv' :
  argument_key kv.1 → argument_key kv'.1 → print_argument kv = print_argument kv' → kv = kv'.
Proof.
  destruct kv as [k v], kv' as [k' v']. intros Hk Hk' E.
  apply (f_equal ParseArgument) in E. rewrite !ParseArgument_print in E by done. by injection E as -> ->.
Qed.

Lemma bare_spec args arg : arg ∈ bare args ↔ ParseArgument arg = None ∧ arg ∈ args.
Proof. unfold bare. by rewrite list_elem_of_filter. Qed.

Lemma parsed_spec args kv : kv ∈ parsed args ↔ ∃ arg, arg ∈ args ∧ ParseArgument arg = Some kv.
Proof. unfold parsed. rewrite list_elem_of_omap. naive_solver. Qed.

Lemma parsed_keys args k v : (k, v) ∈ parsed args → argument_key k.
Proof. intros (arg & _ & E)%parsed_spec. by eapply ParseArgument_key. Qed.

Lemma insert_all_inv {K V : Type} `{Countable K} (P : K → V → Prop) (l : list (K * V)) m :
  (∀ k v, (k, v) ∈ l → P k v) → map_Forall P m → map_Forall P (insert_all l m).
Proof.
  intros Hl Hm. unfold insert_all. apply foldl_inv; [done|].
  intros m' [k v] Hin Hm'. cbn. apply map_Forall_insert_2; [by apply Hl|done].
Qed.

Lemma insert_all_lookup_same {K V : Type} `{Countable K} (l : list (K * V)) m m' k :
  m !! k = m' !! k → insert_all l m !! k = insert_all l m' !! k.
Proof.
  unfold insert_all. revert m m'. induction l as [|[k' v] l IH]; intros m m' E; [done|].
  cbn. apply IH. destruct (decide (k' = k)) as [->|]; [by rewrite !lookup_insert_eq|].
  by rewrite !lookup_insert_ne.
Qed.

(** The last value that a list gives a key *)
Definition last_value (k : string) (l : list (string * string)) : option string :=
  snd <$> list.last (filter (λ kv, kv.1 = k) l).

Lemma insert_all_last l m k :
  insert_all l m !! k = match last_value k l with Some v => Some v | None => m !! k end.
Proof.
  unfold last_value. induction l as [|[k' v] l IH] using rev_ind; [done|].
  unfold insert_all. rewrite foldl_app, list.filter_app.
  change (foldl _ _ [(k', v)]) with (<[k' := v]> (insert_all l m)).
  destruct (decide (k' = k)) as [->|Hne].
  - rewrite lookup_insert_eq, filter_cons_True, filter_nil by done. by rewrite last_snoc.
  - rewrite lookup_insert_ne, filter_cons_False by done. by rewrite filter_nil, app_nil_r.
Qed.

(** Inserting entries that are there already *)
Lemma insert_all_there {K V : Type} `{Countable K} (l : list (K * V)) m :
  insert_all l (insert_all l m) = insert_all l m.
Proof.
  induction l as [|[k' v] l IH] using rev_ind; [done|].
  unfold insert_all. rewrite !foldl_app. cbn. fold (insert_all l m).
  fold (insert_all l (<[k' := v]> (insert_all l m))).
  apply map_eq. intros k. destruct (decide (k' = k)) as [->|Hne].
  - by rewrite !lookup_insert_eq.
  - rewrite !lookup_insert_ne by done. rewrite <- IH at 2.
    apply insert_all_lookup_same. by rewrite lookup_insert_ne.
Qed.

Section arguments.
Context `{R : GoRange, !GoRangeLaw R}.

Lemma argMap_keys d input : map_Forall (λ k _, argument_key k) (argMap d input).
Proof.
  apply insert_all_inv; [eauto using parsed_keys|].
  apply insert_all_inv; [eauto using parsed_keys|]. apply map_Forall_empty.
Qed.

Lemma elem_of_finalArgs args arg :
  arg ∈ finalArgs args ↔ ∃ k v, arg = print_argument (k, v) ∧ args !! k = Some v.
Proof.
  unfold finalArgs. rewrite elem_of_sort_strings, list_elem_of_fmap. split.
  - intros ([k v] & -> & Hin). apply elem_of_go_range in Hin. eauto.
  - intros (k & v & -> & Hin). exists (k, v). by rewrite elem_of_go_range.
Qed.

(** The final arguments do not depend on the order of the map, and parse to it. *)
Lemma parsed_finalArgs args :
  map_Forall (λ k _, argument_key k) args → insert_all (parsed (finalArgs args)) ∅ = args.
Proof.
  intros Hk.
  assert (Hp : parsed (finalArgs args) ≡ₚ go_range args).
  { unfold parsed, finalArgs. rewrite sort_strings_perm.
    assert (E : ∀ l : list (string * string), (∀ kv, kv ∈ l → argument_key kv.1) → omap ParseArgument (print_argument <$> l) = l).
    { clear. induction l as [|[k v] l IH]; intros Hl; [done|].
      cbn. rewrite ParseArgument_print by (apply (Hl (k, v)); left).
      by rewrite IH by (intros kv Hin; apply Hl; by right). }
    rewrite E; [done|]. intros [k v] Hin. apply elem_of_go_range in Hin. exact (Hk k v Hin). }
  apply map_eq. intros k. destruct (args !! k) as [v|] eqn:E.
  - apply insert_all_lookup.
    + rewrite Hp. apply NoDup_go_range.
    + rewrite Hp. by apply elem_of_go_range.
  - rewrite insert_all_lookup_ne; [done|]. rewrite Hp.
    intros ([k' v] & -> & Hin)%list_elem_of_fmap. apply elem_of_go_range in Hin. cbn in E. congruence.
Qed.

Lemma final_not_bare d input arg : arg ∈ finalArgs (argMap d input) → ParseArgument arg ≠ None.
Proof.
  intros (k & v & -> & Hv)%elem_of_finalArgs.
  rewrite ParseArgument_print; [done|]. exact (argMap_keys d input k v Hv).
Qed.

Lemma UpdateArgs_eq d input :
  input ≠ [] →
  UpdateArgsIfDefinedAndUpdated d input
  = (finalArgs (argMap d input),
     negb (bool_decide (d ++ bare input = finalArgs (argMap d input)))).
Proof.
  intros Hin. unfold UpdateArgsIfDefinedAndUpdated. destruct input as [|a l]; [done|].
  case_bool_decide as E; [by rewrite <- E|done].
Qed.

Lemma argMap_last d input k :
  argMap d input !! k = last_value k (parsed d ++ parsed input).
Proof.
  unfold argMap. rewrite !insert_all_last, lookup_empty. unfold last_value.
  rewrite list.filter_app, last_app. by destruct (list.last (filter _ (parsed input))), (list.last _).
Qed.

Lemma argMap_again d input :
  argMap (finalArgs (argMap d input)) input = argMap d input.
Proof.
  unfold argMap at 1. rewrite parsed_finalArgs by apply argMap_keys.
  unfold argMap. apply insert_all_there.
Qed.

Lemma args_once input : bare input = [] → once (λ s, UpdateArgsIfDefinedAndUpdated s input).
Proof.
  intros Hb d. destruct (decide (input = [])) as [->|Hin]; [done|].
  rewrite !UpdateArgs_eq by done. cbn. rewrite Hb, !app_nil_r. split.
  - intros E%negb_false_iff%bool_decide_eq_true. congruence.
  - rewrite argMap_again. by rewrite bool_decide_true.
Qed.
End arguments.

(** * Images *)

Section images.
Context `{R : GoRange, !GoRangeLaw R}.

(** What it takes for the updates of an image to end *)
Definition printable (i : ImageSpec) : Prop := bare (is_Args i) = [].

Definition pending_image (cfg i : ImageSpec) : nat :=
  pending is_Image (λ s, UpdateIfDefinedAndUpdated s (is_Image cfg)) i
  + pending is_PullPolicy (λ s, UpdateIfDefinedAndUpdated s (is_PullPolicy cfg)) i
  + pending is_Args (λ s, UpdateArgsIfDefinedAndUpdated s (is_Args cfg)) i
  + pending is_Secrets (λ s, UpdateImagePullSecretsIfDefinedAndUpdated s (is_Secrets cfg)) i
  + pending is_Tolerations (λ s, UpdateTolerationsIfDefinedAndUpdated s (is_Tolerations cfg)) i.

(** A field's update leaves the pending ones of other fields. *)
Ltac other_field :=
  intros s; unfold pending, or_else, update_Image, update_PullPolicy, update_Args,
    update_Secrets, update_Tolerations, on;
  cbn -[UpdateIfDefinedAndUpdated UpdateArgsIfDefinedAndUpdated
        UpdateImagePullSecretsIfDefinedAndUpdated UpdateTolerationsIfDefinedAndUpdated];
  repeat match goal with
  | |- context [(if ?b then _ else _).1] => destruct b; cbn -[UpdateIfDefinedAndUpdated
        UpdateArgsIfDefinedAndUpdated UpdateImagePullSecretsIfDefinedAndUpdated
        UpdateTolerationsIfDefinedAndUpdated]
  end; reflexivity.

Lemma image_settles cfg : printable cfg → settles (update_image cfg) (pending_image cfg) 5.
Proof.
  intros Hp.
  assert (Hset : ∀ i, set_Image (is_Image i) i = i ∧ set_PullPolicy (is_PullPolicy i) i = i ∧
    set_Args (is_Args i) i = i ∧ set_Secrets (is_Secrets i) i = i ∧
    set_Tolerations (is_Tolerations i) i = i) by by intros [].
  unfold update_image, pending_image. change 5%nat with (1 + 1 + 1 + 1 + 1)%nat.
  repeat apply settles_or_else.
  - apply (on_settles is_Image set_Image); [done|apply Hset|apply defined_once].
  - apply (on_settles is_PullPolicy set_PullPolicy); [done|apply Hset|apply defined_once].
  - other_field.
  - other_field.
  - apply (on_settles is_Args set_Args); [done|apply Hset|by apply args_once].
  - other_field.
  - other_field.
  - apply (on_settles is_Secrets set_Secrets); [done|apply Hset|apply list_once].
  - other_field.
  - other_field.
  - apply (on_settles is_Tolerations set_Tolerations); [done|apply Hset|apply list_once].
  - other_field.
  - other_field.
Qed.

(** A resource's image is in force; arguments and lists that it does not give are the
    operator's own. *)
Definition follows_image (cfg i : ImageSpec) : Prop :=
  (is_Image cfg ≠ "" → is_Image i = is_Image cfg) ∧
  (is_PullPolicy cfg ≠ "" → is_PullPolicy i = is_PullPolicy cfg) ∧
  (∀ k v, last_value k (parsed (is_Args cfg)) = Some v → print_argument (k, v) ∈ is_Args i) ∧
  (length (is_Secrets cfg) = length (is_Secrets i) ∧ is_Secrets cfg ⊆ is_Secrets i) ∧
  (length (is_Tolerations cfg) = length (is_Tolerations i) ∧
   is_Tolerations cfg ⊆ is_Tolerations i).

Lemma defined_idle s input :
  (UpdateIfDefinedAndUpdated s input).2 = false → input ≠ "" → s = input.
Proof.
  unfold UpdateIfDefinedAndUpdated. intros H Hne. apply String.eqb_neq in Hne.
  rewrite Hne in H. destruct (String.eqb_spec input s) as [E|]; [by symmetry|done].
Qed.

Lemma list_idle {A} `{EqDecision A} (l input : list A) :
  (UpdateListIfUpdated l input).2 = false → length input = length l ∧ input ⊆ l.
Proof.
  unfold UpdateListIfUpdated. destruct (list_updated l input) eqn:E; [done|]. intros _.
  unfold list_updated in E. apply orb_false_elim in E as [E1%negb_false_iff E2%negb_false_iff].
  apply bool_decide_eq_true in E1. split; [done|]. rewrite forallb_forall in E2.
  intros x Hx. apply list_elem_of_In in Hx. by apply E2, bool_decide_eq_true in Hx.
Qed.

Lemma args_idle d input k v :
  bare input = [] → (UpdateArgsIfDefinedAndUpdated d input).2 = false →
  last_value k (parsed input) = Some v → print_argument (k, v) ∈ d.
Proof.
  intros Hb H Hv. destruct (decide (input = [])) as [->|Hne]; [done|].
  rewrite UpdateArgs_eq, Hb, app_nil_r in H by done.
  apply negb_false_iff, bool_decide_eq_true in H. rewrite H.
  apply elem_of_finalArgs. exists k, v. split; [done|]. unfold argMap.
  by rewrite insert_all_last, Hv.
Qed.

Lemma image_snd cfg i :
  printable cfg →
  (update_image cfg i).2
  = (UpdateIfDefinedAndUpdated (is_Image i) (is_Image cfg)).2
    || (UpdateIfDefinedAndUpdated (is_PullPolicy i) (is_PullPolicy cfg)).2
    || (UpdateArgsIfDefinedAndUpdated (is_Args i) (is_Args cfg)).2
    || (UpdateImagePullSecretsIfDefinedAndUpdated (is_Secrets i) (is_Secrets cfg)).2
    || (UpdateTolerationsIfDefinedAndUpdated (is_Tolerations i) (is_Tolerations cfg)).2.
Proof.
  intros Hp. unfold update_image.
  assert (H1 : honest (update_Image cfg)) by (apply on_honest; [done|by intros []|apply defined_once]).
  assert (H2 : honest (update_PullPolicy cfg))
    by (apply on_honest; [done|by intros []|apply defined_once]).
  assert (H3 : honest (update_Args cfg)) by (apply on_honest; [done|by intros []|by apply args_once]).
  assert (H4 : honest (update_Secrets cfg)) by (apply on_honest; [done|by intros []|apply list_once]).
  by rewrite !or_else_snd by auto using or_else_honest.
Qed.

Lemma image_follows cfg i :
  printable cfg → (update_image cfg i).2 = false → follows_image cfg i.
Proof.
  intros Hp. rewrite image_snd by done. rewrite !orb_false_iff.
  intros ((((H1 & H2) & H3) & H4) & H5). split_and!.
  - by apply defined_idle.
  - by apply defined_idle.
  - intros k v. by apply args_idle.
  - exact (proj1 (list_idle _ _ H4)).
  - exact (proj2 (list_idle _ _ H4)).
  - exact (proj1 (list_idle _ _ H5)).
  - exact (proj2 (list_idle _ _ H5)).
Qed.

Lemma kubearmor_settles cfg :
  printable (im_KubeArmor cfg) →
  settles (update_kubearmor cfg)
    (λ s, pending_image (im_KubeArmor cfg) s.1
          + pending snd (λ b, UpdateNRIAvailabilityIfDefinedAndUpdated b (im_NRI cfg)) s)%nat 6.
Proof.
  intros Hp. pose proof (image_settles _ Hp) as [Hb Hk Hc].
  unfold update_kubearmor. change 6%nat with (5 + 1)%nat. apply settles_or_else.
  - split; intros [i b]; unfold on; cbn; [apply Hb | by intros ->%Hk | apply Hc].
  - apply (on_settles snd (λ x s, (s.1, x))); [done|by intros []|apply nri_once].
  - done.
  - done.
Qed.

Lemma global_settles cfg :
  settles (update_global cfg)
    (λ s, pending fst (λ l, UpdateImagePullSecretsIfDefinedAndUpdated l (im_GlobalSecrets cfg)) s
          + pending snd (λ l, UpdateTolerationsIfDefinedAndUpdated l (im_GlobalTolerations cfg)) s)%nat
    2.
Proof.
  unfold update_global. change 2%nat with (1 + 1)%nat. apply settles_or_else.
  - apply (on_settles fst (λ x s, (x, s.2))); [done|by intros []|apply list_once].
  - apply (on_settles snd (λ x s, (s.1, x))); [done|by intros []|apply list_once].
  - done.
  - done.
Qed.

(** The five parts that [UpdateImages] updates on their own *)
Lemma UpdateImages_parts cfg im :
  let r := UpdateImages cfg im in
  (im_KubeArmor r.1, im_NRI r.1) = (update_kubearmor cfg (im_KubeArmor im, im_NRI im)).1 ∧
  im_Init r.1 = (update_image (im_Init cfg) (im_Init im)).1 ∧
  im_Relay r.1 = (update_image (im_Relay cfg) (im_Relay im)).1 ∧
  im_Controller r.1 = (update_image (im_Controller cfg) (im_Controller im)).1 ∧
  (im_GlobalSecrets r.1, im_GlobalTolerations r.1)
  = (update_global cfg (im_GlobalSecrets im, im_GlobalTolerations im)).1.
Proof.
  unfold UpdateImages.
  destruct (update_kubearmor _ _) as [[? ?] ?], (update_image (im_Init cfg) _) as [? ?],
    (update_image (im_Relay cfg) _) as [? ?], (update_image (im_Controller cfg) _) as [? ?],
    (update_global _ _) as [[? ?] ?]. done.
Qed.

Lemma iter_part {A S} (F : A → A) (p : A → S) (f : S → S) n a :
  (∀ a, p (F a) = f (p a)) → p (Nat.iter n F a) = Nat.iter n f (p a).
Proof. intros H. induction n as [|n IH]; [done|]. by rewrite !Nat.iter_succ, H, IH. Qed.

Definition all_printable (cfg : Images) : Prop :=
  printable (im_KubeArmor cfg) ∧ printable (im_Init cfg) ∧ printable (im_Relay cfg)
  ∧ printable (im_Controller cfg).

Lemma images_idle cfg im n :
  all_printable cfg → (6 ≤ n)%nat →
  let im' := Nat.iter n (λ im, (UpdateImages cfg im).1) im in
  idle (update_kubearmor cfg) (im_KubeArmor im', im_NRI im') ∧
  idle (update_image (im_Init cfg)) (im_Init im') ∧
  idle (update_image (im_Relay cfg)) (im_Relay im') ∧
  idle (update_image (im_Controller cfg)) (im_Controller im') ∧
  idle (update_global cfg) (im_GlobalSecrets im', im_GlobalTolerations im').
Proof.
  intros (H1 & H2 & H3 & H4) Hn im'.
  assert (Hi : ∀ S (f : S → S * bool) m k (p : Images → S), settles f m k → (k ≤ 6)%nat →
            (∀ im, p (UpdateImages cfg im).1 = (f (p im)).1) → idle f (p im')).
  { intros S f m k p Hs Hk Hp. unfold im'. rewrite (iter_part (λ im, (UpdateImages cfg im).1) p (λ s, (f s).1)) by done.
    eapply settles_rounds; [exact Hs|]. pose proof (settles_bound _ _ _ Hs (p im)). lia. }
  split_and!.
  - apply (Hi _ _ _ _ (λ im, (im_KubeArmor im, im_NRI im)) (kubearmor_settles cfg H1)); [lia|].
    intros a. apply (UpdateImages_parts cfg a).
  - apply (Hi _ _ _ _ im_Init (image_settles _ H2)); [lia|]. apply UpdateImages_parts.
  - apply (Hi _ _ _ _ im_Relay (image_settles _ H3)); [lia|]. apply UpdateImages_parts.
  - apply (Hi _ _ _ _ im_Controller (image_settles _ H4)); [lia|]. apply UpdateImages_parts.
  - apply (Hi _ _ _ _ (λ im, (im_GlobalSecrets im, im_GlobalTolerations im)) (global_settles cfg));
      [lia|]. intros a. apply (UpdateImages_parts cfg a).
Qed.

Definition follows_images (cfg im : Images) : Prop :=
  follows_image (im_KubeArmor cfg) (im_KubeArmor im) ∧ im_NRI im = im_NRI cfg ∧
  follows_image (im_Init cfg) (im_Init im) ∧ follows_image (im_Relay cfg) (im_Relay im) ∧
  follows_image (im_Controller cfg) (im_Controller im) ∧
  im_GlobalSecrets cfg ⊆ im_GlobalSecrets im ∧
  im_GlobalTolerations cfg ⊆ im_GlobalTolerations im.

Lemma images_settled cfg im n :
  all_printable cfg → (6 ≤ n)%nat →
  let im' := Nat.iter n (λ im, (UpdateImages cfg im).1) im in
  UpdateImages cfg im' = (im', []) ∧ follows_images cfg im'.
Proof.
  intros Hp Hn im'. destruct (images_idle cfg im n Hp Hn) as (H1 & H2 & H3 & H4 & H5).
  fold im' in H1, H2, H3, H4, H5. destruct Hp as (P1 & P2 & P3 & P4). split.
  - unfold UpdateImages. rewrite H1, H2, H3, H4, H5. by destruct im'.
  - pose proof (f_equal snd H1) as E1. pose proof (f_equal snd H5) as E5.
    unfold update_kubearmor in E1. unfold update_global in E5. cbn [snd] in E1, E5.
    rewrite or_else_snd in E1.
    2: { intros [i b] E. unfold on in *. cbn in *. by rewrite (settles_keep _ _ _ (image_settles _ P1) i E). }
    rewrite or_else_snd in E5 by (apply on_honest; [done|by intros []|apply list_once]).
    unfold on in E1, E5. cbn [fst snd] in E1, E5.
    apply orb_false_elim in E1 as [E1 E1'], E5 as [E5 E5'].
    split_and!; try (apply image_follows; [done|]); try (by rewrite ?E1, ?H2, ?H3, ?H4).
    + unfold UpdateNRIAvailabilityIfDefinedAndUpdated in E1'. by destruct (im_NRI cfg), (im_NRI im').
    + exact (proj2 (list_idle _ _ E5)).
    + exact (proj2 (list_idle _ _ E5')).
Qed.
End images.

(** * The configuration map *)

(** Key, value, and whether the file has a line for it *)
Definition Entry : Type := string * string * bool.
Definition entry_keys (l : list Entry) : list string := l.*1.*1.
Definition given (e : Entry) : list Entry := if String.eqb e.1.2 "" then [] else [e].

Definition entries (cfg : ConfigSpec) : list Entry :=
  given ("defaultFilePosture", cs_FilePosture cfg, true)
  ++ given ("defaultCapabilitiesPosture", cs_CapabilitiesPosture cfg, true)
  ++ given ("defaultNetworkPosture", cs_NetworkPosture cfg, true)
  ++ given ("visibility", cs_Visibility cfg, true)
  ++ [("alertThrottling", bool_text (cs_AlertThrottling cfg), true);
      ("maxAlertPerSec", limit_text (cs_MaxAlertPerSec cfg) "10", true);
      ("matchArgs", bool_text (cs_MatchArgs cfg), false);
      ("throttleSec", limit_text (cs_ThrottleSec cfg) "30", true)].

Definition step_entry (st : gmap string string * bool * string) (e : Entry) :=
  data_step e.1.1 e.1.2 e.2 st.
Definition put_entry (data : gmap string string) (e : Entry) : gmap string string :=
  (data_update e.1.1 e.1.2 data).1.
Definition add_line (text : string) (e : Entry) : string :=
  if e.2 then text +:+ yaml_line e.1.1 e.1.2 else text.
Definition file_text (l : list Entry) : string := foldl add_line "" l.
Definition has_entry (data : gmap string string) (e : Entry) : Prop :=
  default "" (data !! e.1.1) = e.1.2.

Lemma fold_entries (l : list Entry) st :
  let r := foldl step_entry st l in
  r.1.1 = foldl put_entry st.1.1 l ∧
  r.2 = foldl add_line st.2 l ∧
  (Forall (has_entry st.1.1) l → r = (st.1.1, st.1.2, r.2)).
Proof.
  revert st. induction l as [|[[k v] line] l IH]; intros [[data u] text]; [by split_and!|].
  cbn -[data_update]. destruct (IH (step_entry (data, u, text) (k, v, line))) as (H1 & H2 & H3).
  split_and!; [exact H1|exact H2|]. intros [He Hl]%list.Forall_cons.
  unfold step_entry, data_step in *. cbn -[data_update] in *.
  assert (E : data_update k v data = (data, false)).
  { unfold data_update. by rewrite bool_decide_true. }
  rewrite E in *. cbn in *. rewrite orb_false_r in *. by apply H3.
Qed.

Lemma put_entry_has data e : has_entry (put_entry data e) e.
Proof.
  unfold has_entry, put_entry, data_update. case_bool_decide as E; [done|].
  cbn. by rewrite lookup_insert_eq.
Qed.

Lemma put_entry_other data e k : e.1.1 ≠ k → put_entry data e !! k = data !! k.
Proof.
  intros Hne. unfold put_entry, data_update. case_bool_decide; [done|]. cbn.
  by rewrite lookup_insert_ne.
Qed.

Lemma put_entries_other (l : list Entry) data k :
  k ∉ entry_keys l → foldl put_entry data l !! k = data !! k.
Proof.
  revert data. induction l as [|e l IH]; intros data Hk; [done|]. cbn in Hk |- *.
  apply not_elem_of_cons in Hk as [Hne Hk]. rewrite IH by done. by apply put_entry_other.
Qed.

Lemma put_entries_have (l : list Entry) data :
  NoDup (entry_keys l) → Forall (has_entry (foldl put_entry data l)) l.
Proof.
  revert data. induction l as [|e l IH]; intros data Hnd; [constructor|].
  cbn in Hnd |- *. apply list.NoDup_cons in Hnd as [Hk Hnd]. constructor; [|by apply IH].
  unfold has_entry. rewrite put_entries_other by done. apply put_entry_has.
Qed.

Lemma data_step_if_given k v st :
  data_step_if k v st = foldl step_entry st (given (k, v, true)).
Proof. unfold data_step_if, given. cbn. by destruct (String.eqb v ""). Qed.

Lemma UpdateConfigMapData_fold cfg data :
  UpdateConfigMapData cfg data
  = let r := foldl step_entry (data, false, "") (entries cfg) in
    (<["karmor.yaml" := r.2]> r.1.1, r.1.2).
Proof.
  unfold UpdateConfigMapData, entries. rewrite !foldl_app, !data_step_if_given.
  cbn [foldl]. cbn zeta. unfold step_entry. cbn [fst snd].
  match goal with |- context [data_step "throttleSec" ?v true ?st] =>
    by destruct (data_step "throttleSec" v true st) as [[? ?] ?] end.
Qed.

Lemma entries_keys cfg :
  NoDup (entry_keys (entries cfg)) ∧ "karmor.yaml" ∉ entry_keys (entries cfg).
Proof.
  unfold entries, given. cbn [fst snd].
  split; repeat match goal with |- context [String.eqb ?x ""] => destruct (String.eqb x "") end;
    apply (bool_decide_eq_true _); vm_compute; reflexivity.
Qed.

(** The map after an update has every setting, and the file their lines. *)
Lemma config_data_has cfg data :
  let d := (UpdateConfigMapData cfg data).1 in
  Forall (has_entry d) (entries cfg) ∧
  d !! "karmor.yaml" = Some (file_text (entries cfg)) ∧
  ∀ k, k ≠ "karmor.yaml" → k ∉ entry_keys (entries cfg) → d !! k = data !! k.
Proof.
  rewrite UpdateConfigMapData_fold.
  destruct (fold_entries (entries cfg) (data, false, "")) as (H1 & H2 & _).
  destruct (entries_keys cfg) as [Hnd Hk]. cbn [fst snd] in *. cbn zeta. split_and!.
  - apply list.Forall_forall. intros e He. unfold has_entry. cbn.
    rewrite lookup_insert_ne.
    + rewrite H1. pose proof (put_entries_have (entries cfg) data Hnd) as Hall.
      rewrite list.Forall_forall in Hall. by apply Hall.
    + intros E. apply Hk. rewrite E. by do 2 apply list_elem_of_fmap_2.
  - cbn. rewrite lookup_insert_eq. by rewrite H2.
  - intros k Hne Hk'. cbn. rewrite lookup_insert_ne by done. rewrite H1.
    by apply put_entries_other.
Qed.

Lemma config_data_idle cfg data :
  let d := (UpdateConfigMapData cfg data).1 in UpdateConfigMapData cfg d = (d, false).
Proof.
  intros d. destruct (config_data_has cfg data) as (Hh & Hy & _). fold d in Hh, Hy.
  rewrite UpdateConfigMapData_fold.
  destruct (fold_entries (entries cfg) (d, false, "")) as (_ & H2 & H3). cbn [fst snd] in *.
  rewrite (H3 Hh). cbn. f_equal. rewrite H2. rewrite insert_id; [done|]. exact Hy.
Qed.

(** * The other settings *)

Lemma data_update_other k v k' data :
  k ≠ k' → (data_update k v data).1 !! k' = data !! k'.
Proof. apply (put_entry_other data (k, v, true)). Qed.

Lemma data_update_there k v data :
  default "" (data !! k) = v → data_update k v data = (data, false).
Proof. intros E. unfold data_update. by rewrite bool_decide_true. Qed.

Lemma data_update_has k v data : default "" ((data_update k v data).1 !! k) = v.
Proof. apply (put_entry_has data (k, v, true)). Qed.

Lemma take_again {A} `{EqDecision A} (input x : A) :
  take_field input (take_field input x).1 = ((take_field input x).1, false).
Proof.
  destruct (take_once input x) as [_ E].
  rewrite (surjective_pairing (take_field _ (take_field input x).1)), E. f_equal.
  by apply (take_once input (take_field input x).1).
Qed.

Lemma take_is {A} `{EqDecision A} (input x : A) : (take_field input x).1 = input.
Proof. unfold take_field. by case_bool_decide. Qed.

Lemma defined_again input s :
  UpdateIfDefinedAndUpdated (UpdateIfDefinedAndUpdated s input).1 input
  = ((UpdateIfDefinedAndUpdated s input).1, false).
Proof.
  rewrite (surjective_pairing (UpdateIfDefinedAndUpdated _ input)).
  destruct (defined_once input s) as [_ E]. rewrite E. f_equal.
  destruct (defined_once input (UpdateIfDefinedAndUpdated s input).1) as [H _]. by apply H.
Qed.

Lemma Elastic_idle cfg e :
  let e' := (update_Elastic cfg e).1 in update_Elastic cfg e' = (e', false).
Proof.
  assert (E : ∀ e, update_Elastic cfg e
    = ({| el_Enabled := (take_field (el_Enabled cfg) (el_Enabled e)).1;
          el_Url := (take_field (el_Url cfg) (el_Url e)).1;
          el_AlertsIndexName := (take_field (el_AlertsIndexName cfg) (el_AlertsIndexName e)).1;
          el_SecretName := (UpdateIfDefinedAndUpdated (el_SecretName e) (el_SecretName cfg)).1;
          el_UserNameKey := (UpdateIfDefinedAndUpdated (el_UserNameKey e) (el_UserNameKey cfg)).1;
          el_PasswordKey := (UpdateIfDefinedAndUpdated (el_PasswordKey e) (el_PasswordKey cfg)).1;
          el_AllowTlsInsecure := (take_field (el_AllowTlsInsecure cfg) (el_AllowTlsInsecure e)).1;
          el_CAcertSecretName :=
            (UpdateIfDefinedAndUpdated (el_CAcertSecretName e) (el_CAcertSecretName cfg)).1;
          el_CaCertKey := el_CaCertKey e |}, (update_Elastic cfg e).2)).
  { intros e'. unfold update_Elastic. by repeat (destruct (take_field _ _) as [? ?] ||
      destruct (UpdateIfDefinedAndUpdated _ _) as [? ?]). }
  intros e'. unfold e'. rewrite (E e). cbn [fst]. unfold update_Elastic.
  cbn [el_Enabled el_Url el_AlertsIndexName el_SecretName el_UserNameKey el_PasswordKey
       el_AllowTlsInsecure el_CAcertSecretName el_CaCertKey].
  by rewrite !take_again, !defined_again.
Qed.

Lemma RelayEnv_idle cfg st :
  let st' := (UpdatedKubearmorRelayEnv cfg st).1 in
  UpdatedKubearmorRelayEnv cfg st' = (st', false).
Proof.
  destruct st as [env e].
  set (d1 := data_update "enableStdOutLogs" (bool_text (cs_StdOutLogs cfg)) env).
  set (d2 := data_update "enableStdOutAlerts" (bool_text (cs_StdOutAlerts cfg)) d1.1).
  set (d3 := data_update "enableStdOutMsgs" (bool_text (cs_StdOutMsgs cfg)) d2.1).
  set (r := update_Elastic (cs_Elastic cfg) e).
  assert (E : (UpdatedKubearmorRelayEnv cfg (env, e)).1 = (d3.1, r.1)).
  { unfold UpdatedKubearmorRelayEnv, r, d3, d2, d1.
    repeat (destruct (data_update _ _ _) as [? ?]; cbn [fst]).
    by destruct (update_Elastic _ _). }
  cbn zeta. rewrite E. unfold UpdatedKubearmorRelayEnv.
  assert (H3 : default "" (d3.1 !! "enableStdOutMsgs") = bool_text (cs_StdOutMsgs cfg))
    by apply data_update_has.
  assert (H2 : default "" (d3.1 !! "enableStdOutAlerts") = bool_text (cs_StdOutAlerts cfg)).
  { unfold d3. rewrite data_update_other by done. apply data_update_has. }
  assert (H1 : default "" (d3.1 !! "enableStdOutLogs") = bool_text (cs_StdOutLogs cfg)).
  { unfold d3. rewrite data_update_other by done. unfold d2.
    rewrite data_update_other by done. apply data_update_has. }
  rewrite (data_update_there _ _ _ H1), (data_update_there _ _ _ H2), (data_update_there _ _ _ H3).
  unfold r. by rewrite Elastic_idle.
Qed.

Lemma Seccomp_idle cfg s :
  let s' := (UpdatedSeccomp cfg s).1 in UpdatedSeccomp cfg s' = (s', false).
Proof. apply take_again. Qed.

Lemma Port_idle cfg p :
  let p' := (UpdateControllerPort cfg p).1 in UpdateControllerPort cfg p' = (p', false).
Proof.
  unfold UpdateControllerPort. destruct (cs_ControllerPort cfg =? 0) eqn:E0; cbn; [done|].
  destruct (cs_ControllerPort cfg =? p) eqn:E; cbn; [by rewrite E|]. by rewrite Z.eqb_refl.
Qed.

Lemma Tls_idle cfg t :
  let t' := (UpdateTlsData cfg t).1 in UpdateTlsData cfg t' = (t', false).
Proof.
  unfold UpdateTlsData. pose proof (take_again (tls_Enable (cs_Tls cfg)) (tls_Enable t)) as H.
  destruct (take_field _ (tls_Enable t)) as [b u]. cbn in *. rewrite H.
  by destruct (tls_IpAddresses (cs_Tls cfg)), (tls_DnsNames (cs_Tls cfg)).
Qed.

Lemma Recommended_idle cfg rp :
  let rp' := (UpdateRecommendedPolicyConfig cfg rp).1 in
  UpdateRecommendedPolicyConfig cfg rp' = (rp', false).
Proof.
  unfold UpdateRecommendedPolicyConfig.
  pose proof (take_again (rp_Enable (cs_Recommended cfg)) (rp_Enable rp)) as H1.
  pose proof (take_again (rp_MatchExpressions (cs_Recommended cfg)) (rp_MatchExpressions rp)) as H2.
  pose proof (take_again (rp_ExcludePolicy (cs_Recommended cfg)) (rp_ExcludePolicy rp)) as H3.
  destruct (take_field _ (rp_Enable rp)), (take_field _ (rp_MatchExpressions rp)),
    (take_field _ (rp_ExcludePolicy rp)).
  cbn in *. by rewrite H1, H2, H3.
Qed.
