(* ===== verification/OperatorSettingsProps.v ===== *)
(** The operator's settings as a whole: the resyncs of the custom resource settle with the
    settings of the resource, these reach the daemon through the configuration map, and the
    settings that get lost. *)
From Stdlib Require Import Ascii String.
From stdpp Require Import sorting.
From S2P Require Import Prelude GoStrings Types Common Daemon DaemonProps Posture PostureProps OperatorConfig OperatorConfigProps.

Open Scope string_scope.
Open Scope list_scope.
Open Scope Z_scope.

Section settings.
Context `{R : GoRange, !GoRangeLaw R}.

(** The arguments of an application that a resource gives are merged into its own: the
    result has exactly the arguments with a value, the last one given for each key and the
    resource's after the own ones, in order; arguments without a value are lost, and if the
    resource has one, the result is reported as changed every time. *)
Theorem arguments_merged (defaultArgs input : list string)
    (given : input ≠ []) :
  let r := UpdateArgsIfDefinedAndUpdated defaultArgs input in
  (∀ arg, arg ∈ r.1 ↔ (∃ k v, arg = print_argument (k, v) ∧
     last_value k (parsed defaultArgs ++ parsed input) = Some v)) ∧
  StronglySorted String.le r.1 ∧
  (∀ arg, ParseArgument arg = None → (arg ∉ r.1) ∧ (arg ∈ input → r.2 = true)).
Proof.
  rewrite UpdateArgs_eq by done. cbn. split_and!.
  - intros arg. rewrite elem_of_finalArgs. by setoid_rewrite argMap_last.
  - apply StronglySorted_merge_sort; apply _.
  - intros arg Ha. split.
    + intros Hin. by apply (final_not_bare defaultArgs input arg).
    + intros Hin. apply negb_true_iff, bool_decide_eq_false. intros E.
      apply (final_not_bare defaultArgs input arg); [|done]. rewrite <- E.
      apply elem_of_app. right. by apply bare_spec.
Qed.

(** Leader election of the controller is switched off: whatever arguments are merged
    into the operator's own ones for the controller, [--leader-elect] is not among the
    result. *)
Theorem leader_election_lost (input : list string)
    (given : input ≠ []) :
  "--leader-elect" ∈ is_Args (im_Controller default_Images) ∧
  "--leader-elect"
    ∉ (UpdateArgsIfDefinedAndUpdated (is_Args (im_Controller default_Images)) input).1.
Proof.
  split; [left|]. rewrite UpdateArgs_eq by done. cbn [fst].
  intros H. by apply final_not_bare in H.
Qed.

(** ** Resyncs *)

Lemma resync_operating cfg st :
  op_Crd st = Some (kc_Name cfg) →
  (config_UpdateFunc cfg cfg st).1
  = {| op_Crd := Some (kc_Name cfg); op_firstRun := op_firstRun st;
       op_Globals := (take_spec (kc_Spec cfg) (op_Globals st)).1 |}.
Proof.
  intros E. unfold config_UpdateFunc. rewrite bool_decide_true by done. rewrite E.
  by destruct (take_spec _ _).
Qed.

(** The parts that [take_spec] updates on their own *)
Lemma take_spec_parts spec g :
  let g' := (take_spec spec g).1 in
  g_Images g' = (UpdateImages (cs_Images spec) (g_Images g)).1 ∧
  g_Data g' = (UpdateConfigMapData spec (g_Data g)).1 ∧
  (g_RelayEnv g', g_Elastic g') = (UpdatedKubearmorRelayEnv spec (g_RelayEnv g, g_Elastic g)).1 ∧
  g_Seccomp g' = (UpdatedSeccomp spec (g_Seccomp g)).1 ∧
  g_Tls g' = (UpdateTlsData spec (g_Tls g)).1 ∧
  g_Port g' = (UpdateControllerPort spec (g_Port g)).1 ∧
  g_Recommended g' = (UpdateRecommendedPolicyConfig spec (g_Recommended g)).1.
Proof.
  unfold take_spec.
  destruct (UpdateConfigMapData _ _), (UpdateImages _ _), (UpdateControllerPort _ _),
    (UpdatedKubearmorRelayEnv _ _) as [[? ?] ?], (UpdatedSeccomp _ _), (UpdateTlsData _ _).
  by split_and!.
Qed.

Lemma take_spec_seccomp spec g :
  ch_Seccomp (take_spec spec g).2 = (UpdatedSeccomp spec (g_Seccomp g)).2.
Proof.
  unfold take_spec.
  destruct (UpdateConfigMapData _ _), (UpdateImages _ _), (UpdateControllerPort _ _),
    (UpdatedKubearmorRelayEnv _ _) as [[? ?] ?], (UpdatedSeccomp _ _), (UpdateTlsData _ _).
  reflexivity.
Qed.

Definition no_changes : Changes :=
  {| ch_Config := false; ch_Images := []; ch_Port := false; ch_Relay := false;
     ch_Seccomp := false; ch_Tls := false |}.

Lemma rounds_crd cfg n st :
  op_Crd st = Some (kc_Name cfg) →
  let st' := Nat.iter n (λ st, (config_UpdateFunc cfg cfg st).1) st in
  op_Crd st' = Some (kc_Name cfg) ∧ op_firstRun st' = op_firstRun st ∧
  op_Globals st' = Nat.iter n (λ g, (take_spec (kc_Spec cfg) g).1) (op_Globals st).
Proof.
  intros Hc. induction n as [|n (IH1 & IH2 & IH3)]; [done|].
  rewrite !Nat.iter_succ. rewrite resync_operating by done. cbn. by rewrite IH2, IH3.
Qed.

(** After six rounds no part changes any more. *)
Lemma take_spec_settled spec g :
  all_printable (cs_Images spec) →
  let g' := Nat.iter 6 (λ g, (take_spec spec g).1) g in
  take_spec spec g' = (g', no_changes) ∧ follows_images (cs_Images spec) (g_Images g') ∧
  ∃ data, g_Data g' = (UpdateConfigMapData spec data).1.
Proof.
  intros Hp g'.
  assert (Hi : g_Images g' = Nat.iter 6 (λ im, (UpdateImages (cs_Images spec) im).1) (g_Images g)).
  { apply (iter_part (λ g, (take_spec spec g).1) g_Images). intros. apply take_spec_parts. }
  destruct (images_settled (cs_Images spec) (g_Images g) 6 Hp ltac:(lia)) as [Hs Hf].
  rewrite <- Hi in Hs, Hf. set (g5 := Nat.iter 5 (λ g, (take_spec spec g).1) g).
  assert (E : g' = (take_spec spec g5).1) by done.
  destruct (take_spec_parts spec g5) as (_ & H2 & H3 & H4 & H5 & H6 & H7).
  rewrite <- E in H2, H3, H4, H5, H6, H7. split_and!; [|done|by eexists].
  unfold take_spec. rewrite Hs, H2, H3, H4, H5, H6, H7.
  rewrite config_data_idle, RelayEnv_idle, Seccomp_idle, Tls_idle, Port_idle, Recommended_idle.
  rewrite <- H2, <- H4, <- H5, <- H6, <- H7.
  destruct (UpdatedKubearmorRelayEnv spec (g_RelayEnv g5, g_Elastic g5)).1 as [env e].
  injection H3 as <- <-. clearbody g'. by destruct g'.
Qed.

(** C30: Settings of the operating resource come into force: after six resyncs of a resource
    whose arguments have values, every image, the NRI switch and the entries of the
    configuration map are those that the resource gives, the global secrets and tolerations
    include the resource's, and a further resync changes no setting and asks for no update.  The theorem says nothing
    of what the relay's environment, seccomp, TLS, the port and the recommended policies are
    then. *)
Theorem settings_converge (cfg : KubeArmorConfig) (st : OperatorState)
    (operating : op_Crd st = Some (kc_Name cfg))
    (values : all_printable (cs_Images (kc_Spec cfg))) :
  let st' := Nat.iter 6 (λ st, (config_UpdateFunc cfg cfg st).1) st in
  config_UpdateFunc cfg cfg st' = (st', []) ∧
  follows_images (cs_Images (kc_Spec cfg)) (g_Images (op_Globals st')) ∧
  Forall (has_entry (g_Data (op_Globals st'))) (entries (kc_Spec cfg)).
Proof.
  intros st'. destruct (rounds_crd cfg 6 st operating) as (Hc & Hf & Hg).
  fold st' in Hc, Hf, Hg.
  destruct (take_spec_settled (kc_Spec cfg) (op_Globals st) values) as (Hs & Hi & data & Hd).
  rewrite <- Hg in Hs, Hi, Hd. split_and!; [|done|].
  - unfold config_UpdateFunc. rewrite bool_decide_true by done. rewrite Hs.
    assert (Ha : config_actions cfg no_changes = []) by reflexivity. rewrite Ha, Hc, <- Hc.
    clearbody st'. destruct st' as [c b g], (only_status cfg cfg no_changes); done.
  - rewrite Hd. apply config_data_has.
Qed.
End settings.

(** ** The daemon *)

Section daemon.
Context `{R : GoRange, !GoRangeLaw R} {W : Type} `{B : !Backend W} `{CB : !ControlBackend W}.
Context (cfg : Settings).

(** The configuration map that the operator writes for a resource *)
Definition operator_cm (namespace : string) (spec : ConfigSpec) (data : gmap string string)
    : ConfigMap :=
  {| cm_Namespace := namespace; cm_Data := (UpdateConfigMapData spec data).1 |}.

Definition limit_of (n unset : Z) : Z := if n =? 0 then unset else n.

Lemma operator_field ns spec data k v line :
  (k, v, line) ∈ entries spec → cm_field k (operator_cm ns spec data) = v.
Proof.
  intros Hin. destruct (config_data_has spec data) as (Hh & _).
  rewrite list.Forall_forall in Hh. exact (Hh _ Hin).
Qed.

Lemma given_elem k v line : v ≠ "" → (k, v, line) ∈ given (k, v, line).
Proof. intros Hv. unfold given. cbn. apply String.eqb_neq in Hv. rewrite Hv. left. Qed.

(** The entries for a posture, for the visibility, and those that are always there *)
Lemma entries_elem spec :
  (cs_FilePosture spec ≠ "" → ("defaultFilePosture", cs_FilePosture spec, true) ∈ entries spec) ∧
  (cs_CapabilitiesPosture spec ≠ "" →
   ("defaultCapabilitiesPosture", cs_CapabilitiesPosture spec, true) ∈ entries spec) ∧
  (cs_NetworkPosture spec ≠ "" →
   ("defaultNetworkPosture", cs_NetworkPosture spec, true) ∈ entries spec) ∧
  (cs_Visibility spec ≠ "" → ("visibility", cs_Visibility spec, true) ∈ entries spec) ∧
  ("alertThrottling", bool_text (cs_AlertThrottling spec), true) ∈ entries spec ∧
  ("maxAlertPerSec", limit_text (cs_MaxAlertPerSec spec) "10", true) ∈ entries spec ∧
  ("matchArgs", bool_text (cs_MatchArgs spec), false) ∈ entries spec ∧
  ("throttleSec", limit_text (cs_ThrottleSec spec) "30", true) ∈ entries spec.
Proof.
  unfold entries. split_and!.
  - intros Hv. apply elem_of_app. left. by apply given_elem.
  - intros Hv. apply elem_of_app. right. apply elem_of_app. left. by apply given_elem.
  - intros Hv. do 2 (apply elem_of_app; right). apply elem_of_app. left. by apply given_elem.
  - intros Hv. do 3 (apply elem_of_app; right). apply elem_of_app. left. by apply given_elem.
  - do 4 (apply elem_of_app; right). left.
  - do 4 (apply elem_of_app; right). right. left.
  - do 4 (apply elem_of_app; right). do 2 right. left.
  - do 4 (apply elem_of_app; right). do 3 right. left.
Qed.

Lemma limit_text_given n unset : 0 ≤ n → unset ≠ "" → limit_text n unset ≠ "".
Proof.
  intros Hn Hu. unfold limit_text. destruct (n =? 0); [done|]. unfold Itoa.
  destruct (Z.ltb_spec n 0); [done|].
  by destruct (digits_cons 19 n "") as (c & s & -> & _).
Qed.

Lemma operator_flag ns spec data k b line old :
  (k, bool_text b, line) ∈ entries spec → cm_flag k (operator_cm ns spec data) old = b.
Proof.
  intros Hin. apply (operator_field ns spec data) in Hin. unfold cm_field in Hin. unfold cm_flag.
  destruct (cm_Data _ !! k) as [v|]; cbn in Hin; [subst v; by destruct b|by destruct b].
Qed.

Lemma limit_text_parsed n unset :
  0 ≤ n < 2 ^ 31 → ParseInt32 (limit_text n unset) = if n =? 0 then ParseInt32 unset else n.
Proof.
  intros Hn. unfold limit_text. destruct (n =? 0); [done|]. rewrite ParseInt32_Itoa; lia.
Qed.

Lemma operator_number ns spec data k v line old :
  (k, v, line) ∈ entries spec → v ≠ "" →
  cm_number k (operator_cm ns spec data) old = ParseInt32 v.
Proof.
  intros Hin Hv. apply (operator_field ns spec data) in Hin. unfold cm_field in Hin.
  unfold cm_number. destruct (cm_Data _ !! k) as [w|]; cbn in Hin; [by subst|done].
Qed.

Lemma operator_limit ns spec data k n unset added old :
  (k, limit_text n unset, true) ∈ entries spec → unset ≠ "" → 0 ≤ n < 2 ^ 31 →
  (if added : bool then cm_number k (operator_cm ns spec data) old
   else ParseInt32 (cm_field k (operator_cm ns spec data)))
  = if n =? 0 then ParseInt32 unset else n.
Proof.
  intros Hin Hu Hn. rewrite <- limit_text_parsed by done. destruct added.
  - eapply operator_number; [exact Hin|]. apply limit_text_given; [lia|done].
  - by rewrite (operator_field _ _ _ _ _ _ Hin).
Qed.

Lemma valid_posture p : p ∈ ["audit"; "block"] → p ≠ "" ∧ validateGlobalDefaultPosture p = p.
Proof. rewrite !elem_of_cons, elem_of_nil. by intros [->|[->|[]]]. Qed.

Lemma operator_untouched ns spec data :
  cm_field "hostVisibility" (operator_cm ns spec data) = default "" (data !! "hostVisibility").
Proof.
  unfold cm_field, operator_cm. cbn [cm_Data]. f_equal.
  apply config_data_has; [done|]. unfold entries, given. cbn [fst snd].
  repeat match goal with |- context [String.eqb ?x ""] => destruct (String.eqb x "") end;
    apply (bool_decide_eq_true _); vm_compute; reflexivity.
Qed.

(** What the handlers of the configuration map leave *)
Lemma config_handled (added : bool) ns nsList1 nsList2 cm (r r' : Running W) :
  cm_Namespace cm = ns →
  (if added then config_added cfg ns nsList1 nsList2 cm r
   else config_updated cfg ns nsList1 nsList2 cm r) = Ok r' →
  let gc := run_cfg r in
  dm_GlobalPosture (run_dm r') = dm_GlobalPosture (UpdateGlobalPosture (cm_posture cm) (run_dm r)) ∧
  run_cfg r' = run_cfg (with_limits (cm_flag "alertThrottling" cm (gc_AlertThrottling gc))
    (if added then cm_number "maxAlertPerSec" cm (gc_MaxAlertPerSec gc)
     else ParseInt32 (cm_field "maxAlertPerSec" cm))
    (if added then cm_number "throttleSec" cm (gc_ThrottleSec gc)
     else ParseInt32 (cm_field "throttleSec" cm))
    (if added then cm_flag "matchArgs" cm (gc_MatchArgs gc) else gc_MatchArgs gc)
    (cm_settings cm r)).
Proof.
  intros Hns. unfold config_added, config_updated. rewrite (proj2 (String.eqb_eq _ _) Hns).
  assert (Hcm : ∀ r1 r2 action, cm_namespaces cfg nsList1 nsList2 cm action r1 = Ok r2 →
            run_cfg r2 = run_cfg r1 ∧ dm_GlobalPosture (run_dm r2)
              = dm_GlobalPosture (UpdateGlobalPosture (cm_posture cm) (run_dm r1))).
  { intros r1 r2 action H. unfold cm_namespaces in H. go_res H.
    apply updateVisibilityWithCM_frame in H as [Hc [w Hw]]. split; [done|]. rewrite Hw. cbn.
    destruct nsList1 as [items|]; [|by injection Ha as <-].
    apply updatEndpointsWithCM_spec in Ha as [_ ->]. done. }
  destruct added; intros H.
  - go_res H. go_res H. apply run_call_frame in Ha as [Hc1 [w1 Hw1]], Ha0 as [Hc2 [w2 Hw2]].
    apply Hcm in H as [Hc3 Hg]. split; [|by rewrite Hc3, Hc2, Hc1].
    rewrite Hg, Hw2, Hw1. done.
  - go_res H. apply Hcm in Ha as [Hc Hg]. apply run_call_frame in H as [Hc1 [w Hw]].
    rewrite Hc1, Hw. cbn [run_dm with_limits dm_GlobalPosture set_dm_w]. split; [exact Hg|].
    cbn [with_limits run_cfg]. by rewrite Hc.
Qed.

(** The handlers end if the calls of other components do. *)
Class PostureTotal : Prop := {
  total_posture : ∀ action ns dp w, ∃ w', logger_UpdateDefaultPosture action ns dp w = Ok w';
  total_enforcement : ∀ ep w, ∃ w', enforcer_UpdateSecurityPolicies ep w = Ok w';
  total_namespace : ∀ ns w, ∃ w', k8s_UpdateNamespace ns w = Ok w';
  total_visibility_ns : ∀ event ns v w, ∃ w', monitor_UpdateVisibility_ns event ns v w = Ok w';
  total_visibility : ∀ gc w, ∃ w', monitor_UpdateVisibility gc w = Ok w';
  total_throttling : ∀ gc w, ∃ w', monitor_UpdateThrottlingConfig gc w = Ok w';
  total_args : ∀ gc w, ∃ w', monitor_UpdateMatchArgsConfig gc w = Ok w' }.

Section total.
Context `{PT : !PostureTotal}.

Lemma call_total (f : W → Res W) dm :
  (∀ w, ∃ w', f w = Ok w') → ∃ dm', call f dm = Ok dm' ∧ dm_EndPoints dm' = dm_EndPoints dm.
Proof. intros Hf. unfold call. destruct (Hf (dm_w dm)) as [w' ->]. by eexists. Qed.

Lemma run_call_total (f : W → Res W) r : (∀ w, ∃ w', f w = Ok w') → ∃ r', run_call f r = Ok r'.
Proof.
  intros Hf. unfold run_call. destruct (call_total f (run_dm r) Hf) as (dm & -> & _). by eexists.
Qed.

Lemma posture_loop_total ns dp before dm :
  (∀ dm, ∃ dm', before dm = Ok dm' ∧ dm_EndPoints dm' = dm_EndPoints dm) →
  ∃ dm', posture_loop cfg ns dp before dm = Ok dm'.
Proof.
  intros Hb. unfold posture_loop.
  assert (H : ∀ l dm1, (∀ i, i ∈ l → (i < length (dm_EndPoints dm1))%nat) →
            ∃ dm', foldl (posture_index cfg ns dp before) (Ok dm1) l = Ok dm').
  { induction l as [|i l IH]; intros dm1 Hl; [by eexists|]. cbn [foldl].
    assert (Hi : ∃ dm2, posture_index cfg ns dp before (Ok dm1) i = Ok dm2 ∧
              length (dm_EndPoints dm2) = length (dm_EndPoints dm1)).
    { unfold posture_index. cbn.
      destruct (lookup_lt_is_Some_2 (dm_EndPoints dm1) i) as [ep ->]; [apply Hl; left|].
      case_bool; [|by eexists]. destruct (Hb dm1) as (dm2 & -> & He). cbn.
      edestruct (call_total (enforce_posture cfg (with_posture dp ep))) as (dm3 & -> & He3).
      - intros w. unfold enforce_posture. case_bool; [apply total_enforcement|by eexists].
      - exists dm3. split; [done|]. rewrite He3. cbn. by rewrite length_insert, He. }
    destruct Hi as (dm2 & -> & Hlen). apply IH. intros j Hj. rewrite Hlen. apply Hl. by right. }
  apply H. intros i [_ Hi]%elem_of_seq. done.
Qed.

Lemma namespace_posture_total global ns dm : ∃ ck, namespace_posture global ns dm = Ok ck.
Proof.
  assert (Hv : ∀ key dp st, ∃ r, validateDefaultPosture key dp st = Ok r).
  { intros key dp [ns1 dm1]. unfold validateDefaultPosture.
    destruct (annotated_posture key ns1); [by eexists|].
    destruct (ns_Annotations ns1 !! key); [|by eexists].
    edestruct (call_total (k8s_UpdateNamespace
      {| ns_Name := ns_Name ns1; ns_Annotations := <[key := dp]> (ns_Annotations ns1) |}))
      as (dm2 & -> & _); [apply total_namespace|by eexists]. }
  unfold namespace_posture.
  destruct (Hv file_key (dp_FileAction global) (ns, dm)) as [f ->]. cbn.
  destruct (Hv network_key (dp_NetworkAction global) f.2) as [n ->]. cbn.
  destruct (Hv capabilities_key (dp_CapabilitiesAction global) n.2) as [c ->]. cbn. by eexists.
Qed.

Lemma cm_namespaces_total nsList1 nsList2 cm action r :
  ∃ r', cm_namespaces cfg nsList1 nsList2 cm action r = Ok r'.
Proof.
  unfold cm_namespaces.
  assert (H1 : ∀ dm, ∃ dm', updatEndpointsWithCM cfg nsList1 cm action dm = Ok dm').
  { unfold updatEndpointsWithCM. destruct nsList1 as [items|]; [|by eexists].
    induction items as [|ns items IH]; intros dm; [by eexists|]. cbn [foldl].
    assert (Hn : ∃ dm1, namespace_with_cm cfg cm action (Ok dm) ns = Ok dm1).
    { unfold namespace_with_cm. cbn [mbind Res_bind].
      destruct (namespace_posture_total (cm_posture cm) ns dm) as [ck ->].
      cbn [mbind Res_bind]. destruct (ck_fully ck); [by eexists|]. apply posture_loop_total. intros dm1.
      unfold posture_with_cm.
      edestruct (call_total (logger_UpdateDefaultPosture action (ns_Name ns) (ck_posture ck)))
        as (dm2 & -> & He); [apply total_posture|]. exists dm2. split; [done|]. rewrite He.
      by destruct (ck_annotated ck). }
    destruct Hn as [dm1 ->]. apply IH. }
  destruct (H1 (UpdateGlobalPosture (cm_posture cm) (run_dm r))) as [dm ->]. cbn.
  unfold updateVisibilityWithCM.
  edestruct (run_call_total (monitor_UpdateVisibility (run_cfg (set_run_dm dm r)))) as [r1 ->];
    [apply total_visibility|]. cbn [mbind Res_bind].
  destruct nsList2 as [items|]; [|by eexists].
  revert r1. induction items as [|ns items IH]; intros r1; [by eexists|]. cbn [foldl].
  assert (Hn : ∃ r2, visibility_with_cm cfg cm (Ok r1) ns = Ok r2).
  { unfold visibility_with_cm. cbn. case_bool; [by eexists|].
    apply run_call_total. apply total_visibility_ns. }
  destruct Hn as [r2 ->]. apply IH.
Qed.

Lemma config_total (added : bool) ns nsList1 nsList2 cm r :
  ∃ r', (if added then config_added else config_updated) cfg ns nsList1 nsList2 cm r = Ok r'.
Proof.
  destruct added; unfold config_added, config_updated; (destruct (String.eqb _ _); [|by eexists]).
  - edestruct run_call_total as [r1 ->]; [apply total_throttling|]. cbn [mbind Res_bind].
    edestruct run_call_total as [r2 ->]; [apply total_args|]. apply cm_namespaces_total.
  - edestruct cm_namespaces_total as [r1 ->]. cbn [mbind Res_bind].
    apply run_call_total. apply total_throttling.
Qed.
End total.

(** C26: The operator's configuration map reaches the daemon: whichever of its handlers the daemon
    runs for the map that the operator writes for a resource with valid postures, it ends, if
    the calls of other components do, and the daemon has the resource's postures, visibility,
    throttling and limits, with the operator's defaults for missing limits.  The matching of arguments is taken only when the map is added, and the
    visibility of the host is what the map had before, which the operator never sets. *)
Theorem settings_reach_daemon (spec : ConfigSpec) (data : gmap string string) (added : bool)
    ns nsList1 nsList2 (r : Running W)
    (total : PostureTotal)
    (valid : ∀ p, p ∈ [cs_FilePosture spec; cs_NetworkPosture spec; cs_CapabilitiesPosture spec] →
       p ∈ ["audit"; "block"])
    (visible : cs_Visibility spec ≠ "")
    (limits : 0 ≤ cs_MaxAlertPerSec spec < 2 ^ 31 ∧ 0 ≤ cs_ThrottleSec spec < 2 ^ 31) :
  ∃ r', (if added then config_added else config_updated) cfg ns nsList1 nsList2
          (operator_cm ns spec data) r = Ok r' ∧
  dm_GlobalPosture (run_dm r')
  = {| dp_FileAction := cs_FilePosture spec; dp_NetworkAction := cs_NetworkPosture spec;
       dp_CapabilitiesAction := cs_CapabilitiesPosture spec |} ∧
  let gc := run_cfg r' in
  gc_Visibility gc = cs_Visibility spec ∧
  gc_AlertThrottling gc = cs_AlertThrottling spec ∧
  gc_MaxAlertPerSec gc = limit_of (cs_MaxAlertPerSec spec) 10 ∧
  gc_ThrottleSec gc = limit_of (cs_ThrottleSec spec) 30 ∧
  gc_MatchArgs gc = (if added then cs_MatchArgs spec else gc_MatchArgs (run_cfg r)) ∧
  gc_HostVisibility gc = default "" (data !! "hostVisibility").
Proof.
  destruct (config_total added ns nsList1 nsList2 (operator_cm ns spec data) r) as [r' handled].
  exists r'. split; [exact handled|].
  destruct (config_handled added ns nsList1 nsList2 (operator_cm ns spec data) r r') as [Hg Hc];
    [done|by destruct added|].
  destruct (entries_elem spec) as (F & C & N & V & T & M & A & S). destruct limits as [L1 L2].
  destruct (valid_posture (cs_FilePosture spec)) as [F1 F2]; [apply valid; left|].
  destruct (valid_posture (cs_NetworkPosture spec)) as [N1 N2]; [apply valid; right; left|].
  destruct (valid_posture (cs_CapabilitiesPosture spec)) as [C1 C2];
    [apply valid; do 2 right; left|].
  apply (operator_field ns spec data) in F, C, N, V; [|done..].
  rewrite Hg, Hc. cbn. rewrite F, N, C, V, F2, N2, C2, operator_untouched.
  rewrite (operator_flag ns spec data _ _ _ _ T).
  rewrite (operator_limit ns spec data _ _ _ _ _ M ltac:(done) L1).
  rewrite (operator_limit ns spec data _ _ _ _ _ S ltac:(done) L2).
  split_and!; [done|done|done|done|done| |done].
  destruct added; [|done]. exact (operator_flag ns spec data _ _ _ _ A).
Qed.
End daemon.

(** ** Settings that are lost *)

Section lost.
Context `{R : GoRange, !GoRangeLaw R}.

Definition only_seccomp : Changes :=
  {| ch_Config := false; ch_Images := []; ch_Port := false; ch_Relay := false;
     ch_Seccomp := true; ch_Tls := false |}.

(** A change of the seccomp switch is lost when the status changes with it: the handler takes
    the event for one of the status only and returns, but has the switch in its variables
    already, so no later event of the same resource updates the daemon sets. *)
Theorem seccomp_update_lost (old cfg : KubeArmorConfig) (st : OperatorState)
    (operating : op_Crd st = Some (kc_Name cfg))
    (changed : (take_spec (kc_Spec cfg) (op_Globals st)).2 = only_seccomp)
    (status : kc_Phase cfg ≠ kc_Phase old) :
  let r := config_UpdateFunc old cfg st in
  r.2 = [] ∧ g_Seccomp (op_Globals r.1) = bool_text (cs_Seccomp (kc_Spec cfg)) ∧
  ∀ old' b, UpdateKubearmorSeccomp b ∉ (config_UpdateFunc old' cfg r.1).2.
Proof.
  assert (Hs : ∀ g, (take_spec (kc_Spec cfg) (take_spec (kc_Spec cfg) g).1).2.(ch_Seccomp) = false).
  { intros g. destruct (take_spec_parts (kc_Spec cfg) g) as (_ & _ & _ & Hs & _).
    set (g' := (take_spec (kc_Spec cfg) g).1) in *.
    rewrite take_spec_seccomp, Hs, Seccomp_idle. done. }
  assert (E : config_UpdateFunc old cfg st =
    ({| op_Crd := op_Crd st; op_firstRun := op_firstRun st;
        op_Globals := (take_spec (kc_Spec cfg) (op_Globals st)).1 |}, [])).
  { unfold config_UpdateFunc. rewrite bool_decide_true by done.
    destruct (take_spec _ _) as [g ch]. cbn in changed |- *. subst ch.
    unfold only_status. cbn. apply String.eqb_neq in status. by rewrite status. }
  cbn zeta. rewrite E. cbn [fst snd op_Globals]. split_and!; [done| |].
  - destruct (take_spec_parts (kc_Spec cfg) (op_Globals st)) as (_ & _ & _ & -> & _).
    apply take_is.
  - intros old' b. unfold config_UpdateFunc. cbn [op_Crd op_Globals op_firstRun].
    rewrite bool_decide_true by done. specialize (Hs (op_Globals st)).
    destruct (take_spec _ (take_spec _ _).1) as [g ch]. cbn in Hs |- *.
    destruct (only_status old' cfg ch); [by intros ?%elem_of_nil|].
    unfold config_actions, when. rewrite Hs, !elem_of_app.
    intros [H|[H|[H|[H|H]]]]; revert H;
      repeat case_match; rewrite ?elem_of_cons, ?elem_of_nil; naive_solver.
Qed.
End lost.

(** ** Witnesses *)

Section witnesses.
#[local] Existing Instance canonical_range.
#[local] Instance canonical_law : GoRangeLaw canonical_range := canonical_range_law.

Definition sample_images : Images :=
  {| im_KubeArmor := {| is_Image := "kubearmor/kubearmor:v1"; is_PullPolicy := "IfNotPresent";
       is_Args := ["-gRPC=9000"]; is_Secrets := ["registry"]; is_Tolerations := [] |};
     im_Init := image "" []; im_Relay := image "" []; im_Controller := image "" [];
     im_NRI := true; im_GlobalSecrets := []; im_GlobalTolerations := [] |}.

Definition sample_spec (seccomp : bool) : ConfigSpec :=
  {| cs_Images := sample_images; cs_Recommended := g_Recommended default_Globals;
     cs_FilePosture := "block"; cs_CapabilitiesPosture := "audit"; cs_NetworkPosture := "audit";
     cs_Visibility := "process"; cs_Tls := {| tls_Enable := false; tls_DnsNames := [];
       tls_IpAddresses := [] |};
     cs_StdOutLogs := false; cs_StdOutAlerts := true; cs_StdOutMsgs := false;
     cs_Seccomp := seccomp; cs_AlertThrottling := true; cs_MaxAlertPerSec := 0;
     cs_ThrottleSec := 60; cs_Elastic := g_Elastic default_Globals; cs_MatchArgs := false;
     cs_ControllerPort := 0 |}.

Definition sample_config (phase : string) (seccomp : bool) : KubeArmorConfig :=
  {| kc_Name := "default"; kc_Spec := sample_spec seccomp; kc_Phase := phase; kc_Message := "" |}.

Definition operating_state (g : Globals) : OperatorState :=
  {| op_Crd := Some "default"; op_firstRun := false; op_Globals := g |}.

Example one_resync_is_not_enough :
  is_PullPolicy (im_KubeArmor (g_Images (op_Globals
    (config_UpdateFunc (sample_config "Running" false) (sample_config "Running" false)
       (operating_state default_Globals)).1))) = "Always".
Proof. vm_compute. reflexivity. Qed.

Lemma arguments_merged_witness :
  let r := UpdateArgsIfDefinedAndUpdated ["-gRPC=32767"; "--debug"] ["-gRPC=9000"] in
  "-gRPC=9000" ∈ r.1 ∧ "--debug" ∉ r.1.
Proof.
  destruct (arguments_merged ["-gRPC=32767"; "--debug"] ["-gRPC=9000"] ltac:(done))
    as (H1 & _ & H3).
  split.
  - apply H1. exists "gRPC", "9000". split; vm_compute; reflexivity.
  - exact (proj1 (H3 "--debug" ltac:(vm_compute; reflexivity))).
Defined.

Lemma leader_election_lost_witness :
  "--leader-elect" ∉ (UpdateArgsIfDefinedAndUpdated
    (is_Args (im_Controller default_Images)) (is_Args (im_Controller default_Images))).1.
Proof.
  exact (proj2 (leader_election_lost (is_Args (im_Controller default_Images)) ltac:(done))).
Defined.

Lemma settings_converge_witness :
  let cfg := sample_config "Running" true in
  let st' := Nat.iter 6 (λ st, (config_UpdateFunc cfg cfg st).1) (operating_state default_Globals) in
  config_UpdateFunc cfg cfg st' = (st', []) ∧
  is_PullPolicy (im_KubeArmor (g_Images (op_Globals st'))) = "IfNotPresent".
Proof.
  destruct (settings_converge (sample_config "Running" true) (operating_state default_Globals)
    eq_refl ltac:(split_and!; vm_compute; reflexivity)) as (H1 & ((_ & H2 & _) & _) & _).
  split; [exact H1|]. rewrite H2; [reflexivity|]. discriminate.
Defined.

Lemma settings_reach_daemon_witness :
  ∃ r', config_added (CB := silent) sample_cfg "kubearmor" (Some [plain_ns]) None
          (operator_cm "kubearmor" (sample_spec false) (g_Data default_Globals)) running_pod
        = Ok r' ∧
    dp_FileAction (dm_GlobalPosture (run_dm r')) = "block" ∧
    gc_MaxAlertPerSec (run_cfg r') = 10 ∧ gc_ThrottleSec (run_cfg r') = 60.
Proof.
  destruct (settings_reach_daemon (CB := silent) sample_cfg (sample_spec false)
    (g_Data default_Globals) true "kubearmor" (Some [plain_ns]) None running_pod)
    as (r' & E & H1 & _ & _ & H2 & H3 & _).
  - split; intros; by eexists.
  - intros p. cbn. rewrite !elem_of_cons, elem_of_nil. tauto.
  - discriminate.
  - cbn. lia.
  - exists r'. split; [exact E|]. rewrite H1, H2, H3. split_and!; reflexivity.
Defined.

Lemma seccomp_update_lost_witness :
  let cfg := sample_config "Running" true in
  let st := operating_state (op_Globals (Nat.iter 6
    (λ st, (config_UpdateFunc (sample_config "Pending" false) (sample_config "Pending" false) st).1)
    (operating_state default_Globals))) in
  (config_UpdateFunc (sample_config "Pending" false) cfg st).2 = [].
Proof.
  intros cfg st.
  apply (seccomp_update_lost (sample_config "Pending" false) cfg st).
  - reflexivity.
  - vm_compute. reflexivity.
  - discriminate.
Defined.
End witnesses.
