(* ===== verification/OperatorObjects.v ===== *)
(** The objects that the operator creates and changes: the daemon set of KubeArmor for a kind
    of node ([internal/controller/resources.go]), and the updates of running objects
    ([internal/controller/cluster.go], [common/defaults.go]).

    Of a container its image, arguments, ports, mounts and seccomp profile are modelled, of
    a volume its name and its path or source.  The environment of the operator and the hash
    [ShortSHA] are arguments. *)
From Stdlib Require Import Ascii String.
From S2P Require Import Prelude GoStrings Common AppArmorEnforcer OperatorConfig.

Open Scope string_scope.
Open Scope Z_scope.

Record Volume := { vo_Name : string; vo_Source : string }.
Record Mount := { mo_Name : string; mo_Path : string; mo_ReadOnly : bool }.

Record KContainer := {
  co_Name : string; co_Image : string; co_Pull : string; co_Args : list string;
  co_Ports : list Z; co_Mounts : list Mount; co_Seccomp : option string }.

Record PodTemplate := {
  pt_Labels : gmap string string; pt_NodeSelector : gmap string string;
  pt_Init : list KContainer; pt_Containers : list KContainer; pt_Volumes : list Volume;
  pt_Secrets : list string; pt_Tolerations : list Toleration }.

(** The selector is the labels of the template. *)
Record DaemonSet := { ds_Name : string; ds_Template : PodTemplate; ds_Owned : bool }.

(** ** Constants *)

Definition EnforcerLabel : string := "kubearmor.io/enforcer".
Definition RuntimeLabel : string := "kubearmor.io/runtime".
Definition SocketLabel : string := "kubearmor.io/socket".
Definition NRISocketLabel : string := "kubearmor.io/nri-socket".
Definition RandLabel : string := "kubearmor.io/rand".
Definition OsLabel : string := "kubernetes.io/os".
Definition ArchLabel : string := "kubernetes.io/arch".
Definition BTFLabel : string := "kubearmor.io/btf".
Definition ApparmorFsLabel : string := "kubearmor.io/apparmorfs".
Definition SecurityFsLabel : string := "kubearmor.io/securityfs".
Definition SeccompLabel : string := "kubearmor.io/seccomp".
Definition OCIHooksLabel : string := "kubearmor.io/oci-hooks".

Definition ContainerRuntimeSocketMap : gmap string (list string) := list_to_map [
  ("docker", ["/run/containerd/containerd.sock"; "/var/run/containerd/containerd.sock";
              "/var/run/docker.sock"; "/run/docker.sock"]);
  ("containerd", ["/var/snap/microk8s/common/run/containerd.sock"; "/run/k0s/containerd.sock";
                  "/run/k3s/containerd/containerd.sock"; "/run/containerd/containerd.sock";
                  "/var/run/containerd/containerd.sock"; "/run/dockershim.sock"]);
  ("cri-o", ["/var/run/crio/crio.sock"; "/run/crio/crio.sock"]);
  ("nri", ["/var/run/nri/nri.sock"; "/run/nri/nri.sock"])].

Definition RuntimeSocketLocation : gmap string string := list_to_map [
  ("docker", "/var/run/docker.sock"); ("containerd", "/var/run/containerd/containerd.sock");
  ("cri-o", "/var/run/crio/crio.sock"); ("nri", "/var/run/nri/nri.sock")].

Definition sockets (runtime : string) : list string :=
  default [] (ContainerRuntimeSocketMap !! runtime).

Definition EnforcerVolumes (e : string) : list Volume :=
  if String.eqb e "apparmor"
  then [{| vo_Name := "etc-apparmor-d-path"; vo_Source := "/etc/apparmor.d" |}] else [].
Definition EnforcerVolumesMounts (e : string) : list Mount :=
  if String.eqb e "apparmor"
  then [{| mo_Name := "etc-apparmor-d-path"; mo_Path := "/etc/apparmor.d";
           mo_ReadOnly := false |}] else [].

Definition CommonVolumes : list Volume :=
  [{| vo_Name := "sys-kernel-debug-path"; vo_Source := "/sys/kernel/debug" |};
   {| vo_Name := "proc-fs-mount"; vo_Source := "/proc" |};
   {| vo_Name := "kubearmor-config"; vo_Source := "configMap" |}].
Definition CommonVolumesMount : list Mount :=
  [{| mo_Name := "sys-kernel-debug-path"; mo_Path := "/sys/kernel/debug"; mo_ReadOnly := false |};
   {| mo_Name := "proc-fs-mount"; mo_Path := "/host/procfs"; mo_ReadOnly := true |};
   {| mo_Name := "kubearmor-config"; mo_Path := "/opt/kubearmor/karmor.yaml";
      mo_ReadOnly := false |}].

Definition KernelHeaderVolumes : list Volume :=
  [{| vo_Name := "lib-modules-path"; vo_Source := "/lib/modules" |};
   {| vo_Name := "usr-src-path"; vo_Source := "/usr/src" |};
   {| vo_Name := "os-release-path"; vo_Source := "/etc/os-release" |}].
Definition KernelHeaderVolumesMount : list Mount :=
  [{| mo_Name := "usr-src-path"; mo_Path := "/usr/src"; mo_ReadOnly := true |};
   {| mo_Name := "lib-modules-path"; mo_Path := "/lib/modules"; mo_ReadOnly := true |};
   {| mo_Name := "os-release-path"; mo_Path := "/media/root/etc/os-release";
      mo_ReadOnly := true |}].

Definition BPFVolumes : list Volume := [{| vo_Name := "bpf"; vo_Source := "emptyDir" |}].
Definition BPFVolumesMount : list Mount :=
  [{| mo_Name := "bpf"; mo_Path := "/opt/kubearmor/BPF"; mo_ReadOnly := false |}].

Definition KubeArmorCaVolume : list Volume :=
  [{| vo_Name := "kubearmor-ca-secret"; vo_Source := "kubearmor-ca" |}].
Definition KubeArmorCaVolumeMount : list Mount :=
  [{| mo_Name := "kubearmor-ca-secret"; mo_Path := "/var/lib/kubearmor/tls";
      mo_ReadOnly := true |}].

(** ** Arguments, volumes *)

(** The first of the two arguments becomes [add]. *)
Fixpoint replace_arg (add replace : string) (args : list string) : option (list string) :=
  match args with
  | [] => None
  | arg :: args =>
      if String.eqb arg replace || String.eqb arg add then Some (add :: args)
      else cons arg <$> replace_arg add replace args
  end.

Definition AddOrReplaceArg (add replace : string) (args : list string) : list string :=
  match replace_arg add replace args with Some args => args | None => (args ++ [add])%list end.

Definition tls_arg (enabled : bool) : list string → list string :=
  if enabled then AddOrReplaceArg "-tlsEnabled=true" "-tlsEnabled=false"
  else AddOrReplaceArg "-tlsEnabled=false" "-tlsEnabled=true".

(** [AddOrRemoveVolume] and [AddOrRemoveVolumeMount]: the loop runs over the array as long
    as it was, while the slice [dest] on it gets shorter.  State: the array and the length
    of the slice. *)
Section volumes.
Context {V : Type} (vname : V → string).

Definition remove_at (i : nat) (x : V) (r : Res (list V * nat)) (m : V)
    : Res (list V * nat) :=
  st ← r;
  let '(arr, len) := st in
  if String.eqb (vname x) (vname m) then
    if bool_decide (i < len)%nat then
      match arr !! (len - 1)%nat with
      | Some y => Ok (<[i := y]> arr, (len - 1)%nat)
      | None => Panic
      end
    else Panic
  else Ok st.

Definition remove_step (src : list V) (r : Res (list V * nat)) (i : nat) : Res (list V * nat) :=
  st ← r;
  match st.1 !! i with
  | Some x => foldl (remove_at i x) (Ok st) src
  | None => Panic
  end.

Definition AddOrRemove (add : bool) (src dest : list V) : Res (list V) :=
  st ← foldl (remove_step src) (Ok (dest, length dest)) (seq 0 (length dest));
  Ok (take st.2 st.1 ++ if add then src else [])%list.
End volumes.

Definition AddOrRemoveVolume := AddOrRemove vo_Name.
Definition AddOrRemoveVolumeMount := AddOrRemove mo_Name.

(** The label of a socket: the path without its first slash *)
Definition mangle (s : string) : string := Replace s "/" "_".
Definition socket_label (path : string) : string :=
  match path with EmptyString => "" | String _ s => mangle s end.

(** The socket of a label *)
Definition find_socket (runtime label : string) : option string :=
  snd <$> list_find (λ socket, socket_label socket = label) (sockets runtime).

Definition socket_volume (runtime label : string) : list Volume :=
  match find_socket runtime label with
  | Some socket => [{| vo_Name := runtime +:+ "-socket"; vo_Source := socket |}]
  | None => []
  end.
Definition socket_mount (runtime label : string) : list Mount :=
  match find_socket runtime label with
  | Some _ => [{| mo_Name := runtime +:+ "-socket";
                  mo_Path := default "" (RuntimeSocketLocation !! runtime);
                  mo_ReadOnly := true |}]
  | None => []
  end.

Definition GenerateNRIvol (nriSocket : string) : list Volume * list Mount :=
  if String.eqb nriSocket "" then ([], [])
  else (socket_volume "nri" nriSocket, socket_mount "nri" nriSocket).

Definition genEnforcerVolumes (enforcer : string) : list Volume * list Mount :=
  if String.eqb enforcer "none" then ([], [])
  else (split "."%char enforcer ≫= EnforcerVolumes, split "."%char enforcer ≫= EnforcerVolumesMounts).

Definition genRuntimeVolumes (nri : bool) (runtime runtimeSocket nriSocket : string)
    : list Volume * list Mount :=
  let with_nri := negb (String.eqb nriSocket "") && nri in
  ((socket_volume runtime runtimeSocket
    ++ if with_nri then socket_volume "nri" nriSocket else [])%list,
   (socket_mount runtime runtimeSocket
    ++ if with_nri then socket_mount "nri" nriSocket else [])%list).

(** ** Daemon sets *)

(** A node as the operator keeps it: its labels *)
Record Node := {
  nd_Name : string; nd_Enforcer : string; nd_Runtime : string; nd_RuntimeSocket : string;
  nd_NRIRuntimeSocket : string; nd_Arch : string; nd_BTF : string; nd_ApparmorFs : string;
  nd_Seccomp : string; nd_OCIHooks : string }.

Definition set_co_image (img pull : string) (c : KContainer) : KContainer :=
  {| co_Name := co_Name c; co_Image := img; co_Pull := pull; co_Args := co_Args c;
     co_Ports := co_Ports c; co_Mounts := co_Mounts c; co_Seccomp := co_Seccomp c |}.
Definition set_co_args (args : list string) (c : KContainer) : KContainer :=
  {| co_Name := co_Name c; co_Image := co_Image c; co_Pull := co_Pull c; co_Args := args;
     co_Ports := co_Ports c; co_Mounts := co_Mounts c; co_Seccomp := co_Seccomp c |}.
Definition set_co_ports (ports : list Z) (c : KContainer) : KContainer :=
  {| co_Name := co_Name c; co_Image := co_Image c; co_Pull := co_Pull c; co_Args := co_Args c;
     co_Ports := ports; co_Mounts := co_Mounts c; co_Seccomp := co_Seccomp c |}.
Definition set_co_mounts (mounts : list Mount) (c : KContainer) : KContainer :=
  {| co_Name := co_Name c; co_Image := co_Image c; co_Pull := co_Pull c; co_Args := co_Args c;
     co_Ports := co_Ports c; co_Mounts := mounts; co_Seccomp := co_Seccomp c |}.
Definition set_co_seccomp (p : option string) (c : KContainer) : KContainer :=
  {| co_Name := co_Name c; co_Image := co_Image c; co_Pull := co_Pull c; co_Args := co_Args c;
     co_Ports := co_Ports c; co_Mounts := co_Mounts c; co_Seccomp := p |}.

Definition set_pt_init (l : list KContainer) (t : PodTemplate) : PodTemplate :=
  {| pt_Labels := pt_Labels t; pt_NodeSelector := pt_NodeSelector t; pt_Init := l;
     pt_Containers := pt_Containers t; pt_Volumes := pt_Volumes t; pt_Secrets := pt_Secrets t;
     pt_Tolerations := pt_Tolerations t |}.
Definition set_pt_containers (l : list KContainer) (t : PodTemplate) : PodTemplate :=
  {| pt_Labels := pt_Labels t; pt_NodeSelector := pt_NodeSelector t; pt_Init := pt_Init t;
     pt_Containers := l; pt_Volumes := pt_Volumes t; pt_Secrets := pt_Secrets t;
     pt_Tolerations := pt_Tolerations t |}.
Definition set_pt_volumes (l : list Volume) (t : PodTemplate) : PodTemplate :=
  {| pt_Labels := pt_Labels t; pt_NodeSelector := pt_NodeSelector t; pt_Init := pt_Init t;
     pt_Containers := pt_Containers t; pt_Volumes := l; pt_Secrets := pt_Secrets t;
     pt_Tolerations := pt_Tolerations t |}.
Definition set_pt_access (secrets : list string) (tolerations : list Toleration)
    (t : PodTemplate) : PodTemplate :=
  {| pt_Labels := pt_Labels t; pt_NodeSelector := pt_NodeSelector t; pt_Init := pt_Init t;
     pt_Containers := pt_Containers t; pt_Volumes := pt_Volumes t; pt_Secrets := secrets;
     pt_Tolerations := tolerations |}.

(** A change of the element 0 of a slice *)
Definition at_head {A} (f : A → A) (l : list A) : Res (list A) :=
  match l with x :: l => Ok (f x :: l) | [] => Panic end.

(** [updateImagePullSecretFromGlobal], [updateTolerationFromGlobal] *)
Definition add_missing {A} `{EqDecision A} (global dst : list A) : list A :=
  foldl (λ dst x, if bool_decide (x ∈ dst) then dst else (dst ++ [x])%list) dst global.
Definition or_global {A} `{EqDecision A} (global dst : list A) : list A :=
  match dst with [] => add_missing global dst | _ => dst end.

(** [deployments.GenerateDaemonSet("generic", ...)]: the parts that the operator does not
    replace *)
Definition exists_toleration : Toleration :=
  {| tl_Key := ""; tl_Operator := "Exists"; tl_Value := ""; tl_Effect := "";
     tl_Seconds := None |}.
Definition base_container : KContainer :=
  {| co_Name := "kubearmor"; co_Image := "kubearmor/kubearmor:stable"; co_Pull := "Always";
     co_Args := ["-gRPC=32767"; "-procfsMount=/host/procfs"]; co_Ports := [32767];
     co_Mounts := []; co_Seccomp := None |}.
Definition base_init : KContainer :=
  {| co_Name := "init"; co_Image := "kubearmor/kubearmor-init:stable"; co_Pull := "Always";
     co_Args := []; co_Ports := []; co_Mounts := []; co_Seccomp := None |}.

Section objects.
Context `{R : GoRange} (env : string → string) (ShortSHA : string → string).

Definition related_image (variable image : string) : string :=
  if String.eqb (env variable) "" then image else env variable.
Definition kubearmor_image (im : Images) : string :=
  related_image "RELATED_IMAGE_KUBEARMOR" (is_Image (im_KubeArmor im)).
Definition init_image (im : Images) : string :=
  related_image "RELATED_IMAGE_KUBEARMOR_INIT" (is_Image (im_Init im)).
Definition relay_image (im : Images) : string :=
  related_image "RELATED_IMAGE_KUBEARMOR_RELAY_SERVER" (is_Image (im_Relay im)).
Definition controller_image (im : Images) : string :=
  related_image "RELATED_IMAGE_KUBEARMOR_CONTROLLER" (is_Image (im_Controller im)).

Definition daemonset_name (enforcer runtime socket : string) : string :=
  join "-" ["kubearmor"; Replace enforcer "." "-"; runtime; ShortSHA socket].

(** The labels that a daemon set selects its nodes by *)
Definition selector_of (n : Node) : gmap string string :=
  let labels : gmap string string := list_to_map
    [(EnforcerLabel, nd_Enforcer n); (RuntimeLabel, nd_Runtime n);
     (SocketLabel, nd_RuntimeSocket n); (OsLabel, "linux"); (BTFLabel, nd_BTF n);
     (SeccompLabel, nd_Seccomp n)] in
  if String.eqb (nd_NRIRuntimeSocket n) "" then labels
  else <[NRISocketLabel := nd_NRIRuntimeSocket n]> labels.

Definition seccomp_on (g : Globals) (n : Node) : bool :=
  String.eqb (nd_Seccomp n) "yes" && String.eqb (g_Seccomp g) "true".

(** Volumes and mounts: of the enforcer, of the runtime or the hooks, the common ones *)
Definition node_volumes (g : Globals) (initDeploy : bool) (n : Node) : list Volume * list Mount :=
  let '(enfVols, enfMnts) :=
    if String.eqb (nd_Enforcer n) "apparmor" && String.eqb (nd_ApparmorFs n) "no"
    then ([], []) else genEnforcerVolumes (nd_Enforcer n) in
  let '(rtVols, rtMnts) :=
    genRuntimeVolumes (im_NRI (g_Images g)) (nd_Runtime n) (nd_RuntimeSocket n)
      (nd_NRIRuntimeSocket n) in
  let no_btf := String.eqb (nd_BTF n) "no" in
  let common := (CommonVolumes ++ (if no_btf then KernelHeaderVolumes else [])
                 ++ if initDeploy || no_btf then BPFVolumes else [])%list in
  let commonMnts := (CommonVolumesMount ++ (if no_btf then KernelHeaderVolumesMount else [])
                     ++ if initDeploy || no_btf then BPFVolumesMount else [])%list in
  if String.eqb (nd_OCIHooks n) "yes" then
    ((enfVols ++ {| vo_Name := "kubearmor-path"; vo_Source := "/var/run/kubearmor/" |} :: common)%list,
     ({| mo_Name := "kubearmor-path"; mo_Path := "/var/run/kubearmor/"; mo_ReadOnly := false |}
      :: enfMnts ++ commonMnts)%list)
  else ((enfVols ++ rtVols ++ common)%list, (rtMnts ++ enfMnts ++ commonMnts)%list).

(** The mounts of the init container are the common ones. *)
Definition init_mounts (initDeploy : bool) (n : Node) : list Mount :=
  let no_btf := String.eqb (nd_BTF n) "no" in
  (CommonVolumesMount ++ (if no_btf then KernelHeaderVolumesMount else [])
   ++ if initDeploy || no_btf then BPFVolumesMount else [])%list.

Definition init_container (g : Globals) (initDeploy : bool) (n : Node) : KContainer :=
  let im := g_Images g in
  {| co_Name := co_Name base_init; co_Image := init_image im;
     co_Pull := is_PullPolicy (im_Init im);
     co_Args := (UpdateArgsIfDefinedAndUpdated (co_Args base_init) (is_Args (im_Init im))).1;
     co_Ports := co_Ports base_init; co_Mounts := init_mounts initDeploy n;
     co_Seccomp := if seccomp_on g n then Some "kubearmor-init-seccomp.json" else None |}.

Definition main_container (g : Globals) (initDeploy : bool) (n : Node) : KContainer :=
  let im := g_Images g in let tls := tls_Enable (g_Tls g) in
  let args := tls_arg tls (co_Args base_container) in
  {| co_Name := co_Name base_container; co_Image := kubearmor_image im;
     co_Pull := is_PullPolicy (im_KubeArmor im);
     co_Args := ((UpdateArgsIfDefinedAndUpdated args (is_Args (im_KubeArmor im))).1
                 ++ if String.eqb (nd_OCIHooks n) "yes" then ["--useOCIHooks"; "true"] else [])%list;
     co_Ports := co_Ports base_container;
     co_Mounts := ((node_volumes g initDeploy n).2
                   ++ if tls then KubeArmorCaVolumeMount else [])%list;
     co_Seccomp := if seccomp_on g n then Some "kubearmor-seccomp.json" else None |}.

(** Both updates of the tolerations take those of the init image. *)
Definition daemonset_access (g : Globals) (with_init : bool) : list string * list Toleration :=
  let im := g_Images g in
  let upd_s input l := (UpdateImagePullSecretsIfDefinedAndUpdated l input).1 in
  let upd_t input l := (UpdateTolerationsIfDefinedAndUpdated l input).1 in
  let '(secrets, tolerations) := ([], [exists_toleration]) in
  let '(secrets, tolerations) :=
    if with_init then (upd_s (is_Secrets (im_Init im)) secrets,
                       upd_t (is_Tolerations (im_Init im)) tolerations)
    else (secrets, tolerations) in
  (or_global (im_GlobalSecrets im) (upd_s (is_Secrets (im_KubeArmor im)) secrets),
   or_global (im_GlobalTolerations im) (upd_t (is_Tolerations (im_Init im)) tolerations)).

(** The image of the init container is set at the end, whether there is one or not. *)
Definition generateDaemonset (g : Globals) (initDeploy owned : bool) (name : string) (n : Node)
    : Res DaemonSet :=
  let with_init := String.eqb (nd_BTF n) "no" || initDeploy in
  let nri := negb (String.eqb (nd_NRIRuntimeSocket n) "") && im_NRI (g_Images g) in
  let access := daemonset_access g with_init in
  init ← at_head (set_co_image (init_image (g_Images g)) (is_PullPolicy (im_Init (g_Images g))))
           (if with_init then [init_container g initDeploy n] else []);
  Ok {| ds_Name := if nri
          then join "-" ["kubearmor"; Replace (nd_Enforcer n) "." "-"; "nri";
                         ShortSHA (nd_NRIRuntimeSocket n)]
          else name;
        ds_Template :=
          {| pt_Labels := <["kubearmor-app" := "kubearmor"]> (selector_of n);
             pt_NodeSelector := selector_of n; pt_Init := init;
             pt_Containers := [main_container g initDeploy n];
             pt_Volumes := ((node_volumes g initDeploy n).1
                            ++ if tls_Enable (g_Tls g) then KubeArmorCaVolume else [])%list;
             pt_Secrets := access.1; pt_Tolerations := access.2 |};
        ds_Owned := owned |}.

(** ** Updates of running objects *)

Record Deployment := { de_Name : string; de_Template : PodTemplate }.

Definition set_ds_template (t : PodTemplate) (ds : DaemonSet) : DaemonSet :=
  {| ds_Name := ds_Name ds; ds_Template := t; ds_Owned := ds_Owned ds |}.
Definition set_de_template (t : PodTemplate) (d : Deployment) : Deployment :=
  {| de_Name := de_Name d; de_Template := t |}.

(** A volume and its mount in the first container, added or removed *)
Definition toggle_volume (add : bool) (vols : list Volume) (mounts : list Mount) (t : PodTemplate)
    : Res PodTemplate :=
  match pt_Containers t with
  | [] => Panic
  | c :: cs =>
      mnts ← AddOrRemoveVolumeMount add mounts (co_Mounts c);
      vols ← AddOrRemoveVolume add vols (pt_Volumes t);
      Ok (set_pt_volumes vols (set_pt_containers (set_co_mounts mnts c :: cs) t))
  end.

(** An image in force: image, pull policy and arguments of the first container, secrets and
    tolerations *)
Definition take_image (im : Images) (img : string) (i : ImageSpec) (t : PodTemplate)
    : Res PodTemplate :=
  cs ← at_head (set_co_args (is_Args i) ∘ set_co_image img (is_PullPolicy i)) (pt_Containers t);
  Ok (set_pt_access (or_global (im_GlobalSecrets im) (is_Secrets i))
        (or_global (im_GlobalTolerations im) (is_Tolerations i)) (set_pt_containers cs t)).

Definition take_init_image (im : Images) (t : PodTemplate) : PodTemplate :=
  match pt_Init t with
  | [] => t
  | c :: cs =>
      set_pt_access (pt_Secrets t ++ is_Secrets (im_Init im))
        (pt_Tolerations t ++ is_Tolerations (im_Init im))
        (set_pt_init (set_co_args (is_Args (im_Init im))
                        (set_co_image (init_image im) (is_PullPolicy (im_Init im)) c) :: cs) t)
  end%list.

Definition update_daemonset (im : Images) (ds : DaemonSet) : Res DaemonSet :=
  t ← take_image im (kubearmor_image im) (im_KubeArmor im) (ds_Template ds);
  let '(vols, mounts) := GenerateNRIvol (default "" (pt_Labels t !! NRISocketLabel)) in
  t ← toggle_volume (im_NRI im) vols mounts (take_init_image im t);
  Ok (set_ds_template t ds).

Definition update_relay (im : Images) (d : Deployment) : Res Deployment :=
  t ← take_image im (relay_image im) (im_Relay im) (de_Template d); Ok (set_de_template t d).

(** Containers with the name [manager]; the port of each is its first one. *)
Definition update_manager (im : Images) (port : Z) (r : Res (list KContainer)) (c : KContainer)
    : Res (list KContainer) :=
  cs ← r;
  if String.eqb (co_Name c) "manager" then
    ports ← at_head (λ _, port) (co_Ports c);
    Ok (cs ++ [set_co_ports ports (set_co_args (is_Args (im_Controller im))
                 (set_co_image (controller_image im) (is_PullPolicy (im_Controller im)) c))])%list
  else Ok (cs ++ [c])%list.

Definition port_arg (port : Z) : string := "webhook-port=" +:+ Itoa port.

Definition update_controller (im : Images) (port : Z) (d : Deployment) : Res Deployment :=
  let t := de_Template d in let i := im_Controller im in
  cs ← foldl (update_manager im port) (Ok []) (pt_Containers t);
  cs ← at_head (λ c, set_co_args (UpdateArgsIfDefinedAndUpdated (co_Args c) [port_arg port]).1 c) cs;
  Ok (set_de_template
        (set_pt_access (or_global (im_GlobalSecrets im) (is_Secrets i))
           (or_global (im_GlobalTolerations im) (is_Tolerations i)) (set_pt_containers cs t)) d).

(** The template of a daemon set whose nodes have the profile; the others are left alone. *)
Definition update_seccomp (enabled : bool) (ds : DaemonSet) : Res (option DaemonSet) :=
  let t := ds_Template ds in
  if String.eqb (default "" (pt_Labels t !! SeccompLabel)) "yes" then
    match pt_Containers t with
    | [] => Panic
    | c :: cs =>
        let profile p := if enabled then Some p else None in
        if Bool.eqb enabled (bool_decide (co_Seccomp c ≠ None)) then Ok (Some ds)
        else
          init ← at_head (set_co_seccomp (profile "kubearmor-init-seccomp.json")) (pt_Init t);
          Ok (Some (set_ds_template (set_pt_init init
                (set_pt_containers (set_co_seccomp (profile "kubearmor-seccomp.json") c :: cs) t)) ds))
    end
  else Ok None.

Definition KubeArmorRelayTlsVolume : list Volume :=
  [{| vo_Name := "kubearmor-relay-certs-secrets"; vo_Source := "projected" |}].
Definition KubeArmorRelayTlsVolumeMount : list Mount :=
  [{| mo_Name := "kubearmor-relay-certs-secrets"; mo_Path := "/var/lib/kubearmor/tls";
      mo_ReadOnly := true |}].

Definition update_tls (enabled : bool) (vols : list Volume) (mounts : list Mount)
    (t : PodTemplate) : Res PodTemplate :=
  t ← toggle_volume enabled vols mounts t;
  cs ← at_head (λ c, set_co_args (tls_arg enabled (co_Args c)) c) (pt_Containers t);
  Ok (set_pt_containers cs t).

Definition update_tls_daemonset (enabled : bool) (ds : DaemonSet) : Res DaemonSet :=
  t ← update_tls enabled KubeArmorCaVolume KubeArmorCaVolumeMount (ds_Template ds);
  Ok (set_ds_template t ds).
Definition update_tls_relay (enabled : bool) (d : Deployment) : Res Deployment :=
  t ← update_tls enabled KubeArmorRelayTlsVolume KubeArmorRelayTlsVolumeMount (de_Template d);
  Ok (set_de_template t d).
End objects.
