(* ===== verification/OperatorNodes.v ===== *)
(** Nodes and their daemon sets: the snitch, a job that labels its node
    ([cmd/snitch-cmd/main.go], [enforcer/enforcer.go], [runtime/runtime.go]), and the watcher
    that keeps a daemon set for each kind of node ([internal/controller/cluster.go],
    [AreAllNodesProcessed] of [resources.go]).

    The files of the node, the outcome of the probe and the answers of Kubernetes are
    arguments; daemon sets are behind [KubeApi]. *)
From Stdlib Require Import Ascii String.
From S2P Require Import Prelude GoStrings Common KubeApi AppArmorEnforcer OperatorConfig OperatorObjects.

Open Scope string_scope.
Open Scope Z_scope.

(** ** The snitch *)

(** [selectLsm]: the first supported LSM in the order of preference, then of those available *)
Fixpoint select_available (availablelsms supportedlsm : list string) : string :=
  match availablelsms with
  | [] => "NA"
  | lsm :: availablelsms =>
      if ContainsElement supportedlsm lsm then lsm
      else select_available availablelsms supportedlsm
  end.
Fixpoint selectLsm (lsmOrder availablelsms supportedlsm : list string) : string :=
  match lsmOrder with
  | [] => select_available availablelsms supportedlsm
  | lsm :: lsmOrder =>
      if ContainsElement supportedlsm lsm && ContainsElement availablelsms lsm then lsm
      else selectLsm lsmOrder availablelsms supportedlsm
  end.

Definition GetAvailableLsms : list string := ["bpf"; "selinux"; "apparmor"].

Definition yes_no (b : bool) : string := if b then "yes" else "no".

Section snitch.
(** [os.Stat] without an error, the same or for lack of permission, [os.ReadFile], the probe *)
Context (Stat there : string → bool) (ReadFile : string → option string) (probe : bool).
Context (PathPrefix : string).

Definition CheckBtfSupport : string := yes_no (Stat (PathPrefix +:+ "/sys/kernel/btf/vmlinux")).
Definition CheckIfApparmorFsPresent : string :=
  yes_no (Stat (PathPrefix +:+ "/etc/apparmor.d/tunables")).
Definition CheckIfSecurityFsPresent : string :=
  yes_no (Stat (PathPrefix +:+ "/sys/kernel/security")).

Definition apparmor_enabled : bool :=
  let module := PathPrefix +:+ "/sys/module/apparmor/parameters/enabled" in
  Stat module && match ReadFile module with
                 | Some data => String.eqb (TrimSpace data) "Y" | None => false end.

Definition supportedLsms : list string :=
  let lsmPath := PathPrefix +:+ "/sys/kernel/security/lsm" in
  let lsms := if Stat lsmPath then
                match ReadFile lsmPath with Some lsm => split comma lsm | None => [] end
              else split comma "" in
  let lsms := if negb (ContainsElement lsms "bpf") && probe then (lsms ++ ["bpf"])%list else lsms in
  if negb (ContainsElement lsms "apparmor") && apparmor_enabled
  then (lsms ++ ["apparmor"])%list else lsms.

Definition DetectEnforcer (lsmOrder : list string) : string :=
  selectLsm lsmOrder GetAvailableLsms supportedLsms.

Definition first_there (paths : list string) : option string :=
  snd <$> list_find (λ path, there (PathPrefix +:+ path) = true) paths.

Definition DetectNRI : option string := first_there (sockets "nri").

Context `{R : GoRange}.

(** Runtime, socket and NRI socket.  If no socket of the runtime that Kubernetes names is
    there, any of the map's is taken, in the order of the map. *)
Definition DetectRuntimeViaMap (k8sRuntime : string) : string * string * string :=
  match if String.eqb k8sRuntime "" then None else first_there (sockets k8sRuntime) with
  | Some path =>
      if String.eqb k8sRuntime "docker" && Contains path "containerd"
         || String.eqb k8sRuntime "containerd"
      then (k8sRuntime, path, default "" DetectNRI) else (k8sRuntime, path, "")
  | None =>
      match list_find (λ kv : string * list string, first_there kv.2 ≠ None)
              (go_range ContainerRuntimeSocketMap) with
      | Some (_, (runtime, paths)) => (runtime, default "" (first_there paths), "")
      | None => ("NA", "NA", "NA")
      end
  end.

(** What the snitch patches into its node's labels, unless it exits without a runtime:
    [seccomp] says whether the profiles are there, [hooks] whether the hooks are enabled,
    [applied] whether that works for a socket, [rand] is the random label. *)
Definition snitch (lsmOrder k8sRuntime : string) (seccomp : bool) (hooks : bool)
    (applied : string → bool) (rand : string) : option (gmap string string) :=
  let detected := DetectEnforcer (split comma lsmOrder) in
  let detected := if String.eqb detected "apparmor" && String.eqb CheckIfApparmorFsPresent "no"
                  then "NA" else detected in
  let enforcer := if String.eqb detected "NA" then "none" else detected in
  let '(runtime, socket, nriSocket) := DetectRuntimeViaMap k8sRuntime in
  if String.eqb runtime "NA" then None
  else
    let criSocket := if String.eqb runtime "cri-o" then "unix://" +:+ socket else socket in
    let labels : gmap string string := list_to_map
      [(RuntimeLabel, runtime); (SeccompLabel, yes_no seccomp);
       (SocketLabel, socket_label socket); (EnforcerLabel, enforcer); (RandLabel, rand);
       (BTFLabel, CheckBtfSupport); (ApparmorFsLabel, CheckIfApparmorFsPresent);
       (OCIHooksLabel, yes_no (hooks && applied criSocket));
       (SecurityFsLabel, if String.eqb enforcer "none" then "no" else CheckIfSecurityFsPresent)] in
    Some (if String.eqb nriSocket "" then labels
          else <[NRISocketLabel := socket_label nriSocket]> labels).
End snitch.

(** ** The watcher of nodes *)

(** A node of Kubernetes *)
Record NodeObject := {
  no_Name : string; no_Labels : gmap string string; no_Taints : list string;
  no_RuntimeVersion : string }.

Definition label (k : string) (n : NodeObject) : string := default "" (no_Labels n !! k).
Definition is_linux (n : NodeObject) : bool := bool_decide (no_Labels n !! OsLabel = Some "linux").
Definition runtime_name (n : NodeObject) : string :=
  default "" (head (split ":"%char (no_RuntimeVersion n))).

Definition node_of (n : NodeObject) : Node :=
  {| nd_Name := no_Name n; nd_Enforcer := label EnforcerLabel n; nd_Runtime := label RuntimeLabel n;
     nd_RuntimeSocket := label SocketLabel n; nd_NRIRuntimeSocket := label NRISocketLabel n;
     nd_Arch := label ArchLabel n; nd_BTF := label BTFLabel n;
     nd_ApparmorFs := label ApparmorFsLabel n; nd_Seccomp := label SeccompLabel n;
     nd_OCIHooks := label OCIHooksLabel n |}.

Definition zero_Node : Node :=
  {| nd_Name := ""; nd_Enforcer := ""; nd_Runtime := ""; nd_RuntimeSocket := "";
     nd_NRIRuntimeSocket := ""; nd_Arch := ""; nd_BTF := ""; nd_ApparmorFs := "";
     nd_Seccomp := ""; nd_OCIHooks := "" |}.

(** The comparison leaves out the label of AppArmor's file system. *)
Definition node_changed (n n' : Node) : bool :=
  negb (String.eqb (nd_Arch n) (nd_Arch n') && String.eqb (nd_Enforcer n) (nd_Enforcer n')
        && String.eqb (nd_Name n) (nd_Name n') && String.eqb (nd_Runtime n) (nd_Runtime n')
        && String.eqb (nd_RuntimeSocket n) (nd_RuntimeSocket n')
        && String.eqb (nd_NRIRuntimeSocket n) (nd_NRIRuntimeSocket n')
        && String.eqb (nd_BTF n) (nd_BTF n') && String.eqb (nd_Seccomp n) (nd_Seccomp n')
        && String.eqb (nd_OCIHooks n) (nd_OCIHooks n')).

(** The taints of a node that is down *)
Definition down_taints : list string :=
  ["node.kubernetes.io/not-ready"; "node.kubernetes.io/unreachable";
   "node.kubernetes.io/unschedulable"].
Definition has_taint (n : NodeObject) : bool := existsb (ContainsElement down_taints) (no_Taints n).
Definition checkNodeRestart (new old : NodeObject) : bool := has_taint old && negb (has_taint new).

(** A job on a node *)
Inductive NodeAction := DeploySnitch (node runtime : string).
Definition deploy_snitch (n : NodeObject) : list NodeAction :=
  if is_linux n then [DeploySnitch (no_Name n) (runtime_name n)] else [].

Section watcher.
Context `{R : GoRange} {W : Type} {KA : KubeApi DaemonSet W}.
Context (env : string → string) (ShortSHA : string → string) (g : Globals).
Context (initDeploy owned : bool).

Record ClusterWatcher := {
  cw_Nodes : list Node; cw_Daemonsets : gmap string Z; cw_w : W }.

Definition NewClusterWatcher (w : W) : ClusterWatcher :=
  {| cw_Nodes := []; cw_Daemonsets := ∅; cw_w := w |}.

Definition set_cw_Nodes (l : list Node) (cw : ClusterWatcher) : ClusterWatcher :=
  {| cw_Nodes := l; cw_Daemonsets := cw_Daemonsets cw; cw_w := cw_w cw |}.
Definition set_cw (m : gmap string Z) (w : W) (cw : ClusterWatcher) : ClusterWatcher :=
  {| cw_Nodes := cw_Nodes cw; cw_Daemonsets := m; cw_w := w |}.

Definition name_of (n : Node) : string :=
  daemonset_name ShortSHA (nd_Enforcer n) (nd_Runtime n) (nd_RuntimeSocket n).

(** [UpdateDaemonsets] with [AddAction]: the node is counted, and the daemon set created if
    it is not there.  A failed request is logged. *)
Definition add_daemonset (n : Node) (cw : ClusterWatcher) : Res ClusterWatcher :=
  let name := name_of n in
  let cw := set_cw (<[name := default 0 (cw_Daemonsets cw !! name) + 1]> (cw_Daemonsets cw))
              (cw_w cw) cw in
  match api_get name (cw_w cw) with
  | inl _ => Ok cw
  | inr _ =>
      ds ← generateDaemonset env ShortSHA g initDeploy owned name n;
      Ok (set_cw (cw_Daemonsets cw) (api_create ds (cw_w cw)).1 cw)
  end.

(** ... and with [DeleteAction] *)
Definition delete_daemonset (n : Node) (cw : ClusterWatcher) : ClusterWatcher :=
  let name := name_of n in
  match cw_Daemonsets cw !! name with
  | None => cw
  | Some val =>
      if val <? 2
      then set_cw (<[name := 0]> (cw_Daemonsets cw)) (api_delete name (cw_w cw)).1 cw
      else set_cw (<[name := val - 1]> (cw_Daemonsets cw)) (cw_w cw) cw
  end.

(** The list of nodes with a node's labels, and whether it had others *)
Fixpoint put_node (n : Node) (l : list Node) : list Node * bool :=
  match l with
  | [] => ([n], false)
  | x :: l =>
      if String.eqb (nd_Name n) (nd_Name x)
      then if node_changed x n then (n :: l, true) else (x :: l, false)
      else let r := put_node n l in (x :: r.1, r.2)
  end.

(** The labels of a node, with a new random label: the old daemon set that is given up is
    looked for under the new labels. *)
Definition node_labelled (n : Node) (cw : ClusterWatcher) : Res ClusterWatcher :=
  let r := put_node n (cw_Nodes cw) in
  let cw := set_cw_Nodes r.1 cw in
  add_daemonset n (if r.2 then delete_daemonset n cw else cw).

Definition node_AddFunc (n : NodeObject) : list NodeAction := deploy_snitch n.

(** [created] is whether the snitch can be created on a node that was down. *)
Definition node_UpdateFunc (created : bool) (old new : NodeObject) (cw : ClusterWatcher)
    : Res (ClusterWatcher * list NodeAction) :=
  let restart := checkNodeRestart new old && is_linux new in
  let acts := if restart then deploy_snitch new else [] in
  if restart && negb created then Ok (cw, acts)
  else if is_linux new && negb (String.eqb (label RandLabel old) (label RandLabel new)) then
    cw ← node_labelled (node_of new) cw; Ok (cw, acts)
  else Ok (cw, acts).

(** The first node of a name is taken off the list. *)
Fixpoint take_node (name : string) (l : list Node) : option (Node * list Node) :=
  match l with
  | [] => None
  | x :: l =>
      if String.eqb (nd_Name x) name then Some (x, l)
      else r ← take_node name l; Some (r.1, x :: r.2)
  end.

Definition node_DeleteFunc (n : NodeObject) (cw : ClusterWatcher) : ClusterWatcher :=
  match take_node (no_Name n) (cw_Nodes cw) with
  | Some (deleted, l) => delete_daemonset deleted (set_cw_Nodes l cw)
  | None => delete_daemonset zero_Node cw
  end.

(** Whether there are as many nodes as listed, and as many pods as counted *)
Definition AreAllNodesProcessed (nodes : option (list NodeObject)) (pods : nat)
    (cw : ClusterWatcher) : bool :=
  match nodes with
  | None => false
  | Some items =>
      bool_decide (List.length items = List.length (cw_Nodes cw))
      && (Z.of_nat pods =? foldl (λ acc kv, if 0 <? kv.2 then acc + kv.2 else acc) 0
                             (go_range (cw_Daemonsets cw)))
  end.
End watcher.
Arguments ClusterWatcher : clear implicits.
