(* ===== verification/OperatorObjectsProps.v ===== *)
(** The operator's objects: the labels of a node that ran the snitch lead to a daemon set that
    selects it and mounts the socket the snitch found; adding and removing volumes; settings
    that objects do not get. *)
From Stdlib Require Import Ascii String.
From S2P Require Import Prelude GoStrings Common AppArmorEnforcer OperatorConfig OperatorConfigProps OperatorObjects OperatorNodes.

Open Scope string_scope.
Open Scope list_scope.
Open Scope Z_scope.

(** * Volumes *)

Section volumes.
Context {V : Type} (vname : V → string).
Implicit Types (arr l : list V) (v : V).

Definition differs v arr (i : nat) : Prop := ∃ x, arr !! i = Some x ∧ vname x ≠ vname v.

Lemma remove_step_skip v arr len i :
  differs v arr i → remove_step vname [v] (Ok (arr, len)) i = Ok (arr, len).
Proof.
  intros (x & Hx & Hne). unfold remove_step. cbn. rewrite Hx. cbn.
  by rewrite (proj2 (String.eqb_neq _ _)).
Qed.

Lemma remove_skip v arr len (il : list nat) :
  (∀ i, i ∈ il → differs v arr i) →
  foldl (remove_step vname [v]) (Ok (arr, len)) il = Ok (arr, len).
Proof.
  induction il as [|i il IH]; intros Hd; [done|]. cbn -[remove_step].
  rewrite remove_step_skip by (apply Hd; left). apply IH. intros j Hj. apply Hd. by right.
Qed.

Lemma remove_hit v x y arr len i :
  arr !! i = Some x → vname x = vname v → (i < len)%nat → arr !! (len - 1)%nat = Some y →
  remove_step vname [v] (Ok (arr, len)) i = Ok (<[i := y]> arr, (len - 1)%nat).
Proof.
  intros Hx Hn Hi Hy. unfold remove_step. cbn. rewrite Hx. cbn.
  rewrite Hn, String.eqb_refl, bool_decide_true by done. by rewrite Hy.
Qed.

Lemma filter_keep (P : V → Prop) `{!∀ x, Decision (P x)} l : (∀ x, x ∈ l → P x) → filter P l = l.
Proof.
  induction l as [|x l IH]; intros Hl; [done|].
  rewrite filter_cons_True by (apply Hl; left). f_equal. apply IH. intros y Hy. apply Hl. by right.
Qed.

(** The last element takes the place of another one and is cut off. *)
Lemma last_moved (l1 l2 : list V) x y n :
  length (l1 ++ x :: l2) = S n → (l1 ++ x :: l2) !! n = Some y →
  take n (<[length l1 := y]> (l1 ++ x :: l2)) ≡ₚ l1 ++ l2.
Proof.
  intros Hn Hy. rewrite insert_app_r_alt by lia. rewrite Nat.sub_diag. cbn.
  destruct l2 as [|z l2 _] using rev_ind.
  - rewrite length_app in Hn. cbn in Hn. assert (n = length l1) as -> by lia.
    by rewrite take_app_length, app_nil_r.
  - assert (E : ∀ w, l1 ++ w :: l2 ++ [z] = (l1 ++ w :: l2) ++ [z]) by (intros w; by rewrite <- app_assoc).
    assert (En : ∀ w, n = length (l1 ++ w :: l2)).
    { intros w. rewrite E in Hn. rewrite !length_app in *. cbn in *. lia. }
    rewrite E, (En x), list_lookup_middle in Hy by done. injection Hy as <-.
    rewrite E, (En z), take_app_length. apply Permutation_app_head, Permutation_cons_append.
Qed.

(** The loop shortens the slice that it runs over: if names are distinct, nothing panics, others
    are kept (in another order, maybe), and [v] is there once when added, never when removed. *)
Lemma AddOrRemove_one (add : bool) v (dest : list V)
    (distinct : NoDup (vname <$> dest)) :
  ∃ l, AddOrRemove vname add [v] dest = Ok (l ++ if add then [v] else []) ∧
       l ≡ₚ filter (λ x, vname x ≠ vname v) dest.
Proof.
  unfold AddOrRemove.
  destruct (decide (vname v ∈ vname <$> dest)) as [Hin|Hout].
  - apply list_elem_of_fmap in Hin as (x & Hx & Hin).
    apply list_elem_of_split in Hin as (l1 & l2 & ->).
    rewrite fmap_app in distinct. cbn in distinct. apply list.NoDup_app in distinct as (_ & H12 & H2).
    apply list.NoDup_cons in H2 as [H2 _].
    assert (Hne1 : ∀ z, z ∈ l1 → vname z ≠ vname v).
    { intros z Hz E. apply (H12 (vname z)); [by apply list_elem_of_fmap_2|]. rewrite E, Hx. left. }
    assert (Hne2 : ∀ z, z ∈ l2 → vname z ≠ vname v).
    { intros z Hz E. apply H2. rewrite <- Hx, <- E. by apply list_elem_of_fmap_2. }
    set (dest := l1 ++ x :: l2) in *.
    assert (Hlen : length dest = (length l1 + S (length l2))%nat) by (unfold dest; by rewrite length_app).
    destruct (lookup_lt_is_Some_2 dest (length dest - 1)) as [y Hy]; [lia|].
    replace (seq 0 (length dest)) with (seq 0 (length l1 + S (length l2))) by (by rewrite Hlen).
    rewrite seq_app, foldl_app.
    rewrite remove_skip.
    2:{ intros i [_ Hi]%elem_of_seq. destruct (lookup_lt_is_Some_2 l1 i) as [z Hz]; [lia|].
        exists z. split; [unfold dest; by apply lookup_app_l_Some|].
        eapply Hne1, list_elem_of_lookup_2, Hz. }
    cbn [seq foldl Nat.add]. rewrite (remove_hit v x y).
    2:{ unfold dest. by rewrite lookup_app_r, Nat.sub_diag. }
    2:{ done. } 2:{ lia. } 2:{ done. }
    rewrite remove_skip.
    2:{ intros i [Hi1 Hi2]%elem_of_seq. destruct (lookup_lt_is_Some_2 l2 (i - length l1 - 1)) as [z Hz]; [lia|].
        exists z. split; [|eapply Hne2, list_elem_of_lookup_2, Hz].
        rewrite list_lookup_insert_ne by lia. unfold dest. rewrite lookup_app_r by lia.
        by destruct (i - length l1)%nat as [|j] eqn:Ej; [lia|]; cbn in Hz |- *; rewrite Nat.sub_0_r in Hz. }
    cbn. eexists. split; [reflexivity|]. unfold dest in *.
    rewrite (last_moved l1 l2 x y) by (done || lia).
    rewrite list.filter_app, filter_cons_False by (by intros []).
    by rewrite !filter_keep by done.
  - rewrite remove_skip.
    2:{ intros i [_ Hi]%elem_of_seq. destruct (lookup_lt_is_Some_2 dest i) as [z Hz]; [lia|].
        exists z. split; [done|]. intros E. apply Hout. rewrite <- E.
        eapply list_elem_of_fmap_2, list_elem_of_lookup_2, Hz. }
    cbn. rewrite take_ge by done. eexists. split; [reflexivity|].
    rewrite filter_keep; [done|]. intros z Hz E. apply Hout.
    rewrite <- E. by apply list_elem_of_fmap_2.
Qed.

Lemma AddOrRemove_none (add : bool) (dest : list V) : AddOrRemove vname add [] dest = Ok dest.
Proof.
  unfold AddOrRemove. assert (Hs : ∀ il : list nat, (∀ i, i ∈ il → is_Some (dest !! i)) →
    foldl (remove_step vname []) (Ok (dest, length dest)) il = Ok (dest, length dest)).
  { induction il as [|i il IH]; intros Hl; [done|]. cbn -[remove_step].
    unfold remove_step at 2. cbn. destruct (Hl i) as [x ->]; [left|].
    apply IH. intros j Hj. apply Hl. by right. }
  rewrite Hs.
  - cbn. rewrite take_ge by done. by destruct add; rewrite app_nil_r.
  - intros i [_ Hi]%elem_of_seq. by apply lookup_lt_is_Some_2.
Qed.

Lemma removed_NoDup (add : bool) v (l dest : list V) :
  NoDup (vname <$> dest) → l ≡ₚ filter (λ x, vname x ≠ vname v) dest →
  NoDup (vname <$> l ++ if add then [v] else []).
Proof.
  intros Hd Hl. rewrite fmap_app, list.NoDup_app. split_and!.
  - rewrite Hl. clear Hl. induction dest as [|x dest IH]; [constructor|].
    cbn in Hd. apply list.NoDup_cons in Hd as [Hx Hd].
    destruct (decide (vname x ≠ vname v)).
    + rewrite filter_cons_True by done. cbn. apply list.NoDup_cons. split; [|auto].
      intros (y & Ey & [_ Hy]%list_elem_of_filter)%list_elem_of_fmap. apply Hx. rewrite Ey.
      by apply list_elem_of_fmap_2.
    + rewrite filter_cons_False by done. auto.
  - intros n (x & -> & Hx)%list_elem_of_fmap. rewrite Hl in Hx.
    apply list_elem_of_filter in Hx as [Hne _].
    destruct add; cbn; [|by intros ?%elem_of_nil]. by intros ?%list_elem_of_singleton.
  - destruct add; cbn; [apply NoDup_singleton|constructor].
Qed.
End volumes.

(** Distinct names of the volumes, and of the mounts of the first container *)
Definition template_wf (t : PodTemplate) : Prop :=
  ∃ c cs, pt_Containers t = c :: cs ∧
    NoDup (vo_Name <$> pt_Volumes t) ∧ NoDup (mo_Name <$> co_Mounts c).

(** A volume and its mount are added to, or removed from, a pod template: nothing panics, even
    though the loops shorten the slices that they run over; other volumes and mounts are kept
    (in another order, maybe), this one is there exactly once when added and not when
    removed, nothing else of the template changes, and names stay distinct. *)
Theorem volume_toggled (add : bool) (v : Volume) (m : Mount) (t : PodTemplate) c cs
    (first : pt_Containers t = c :: cs)
    (distinct : NoDup (vo_Name <$> pt_Volumes t) ∧ NoDup (mo_Name <$> co_Mounts c)) :
  ∃ vols mnts,
    toggle_volume add [v] [m] t
    = Ok (set_pt_volumes (vols ++ if add then [v] else [])
            (set_pt_containers (set_co_mounts (mnts ++ if add then [m] else []) c :: cs) t)) ∧
    vols ≡ₚ filter (λ x, vo_Name x ≠ vo_Name v) (pt_Volumes t) ∧
    mnts ≡ₚ filter (λ x, mo_Name x ≠ mo_Name m) (co_Mounts c) ∧
    NoDup (vo_Name <$> vols ++ if add then [v] else []) ∧
    NoDup (mo_Name <$> mnts ++ if add then [m] else []).
Proof.
  destruct distinct as [Hv Hm].
  destruct (AddOrRemove_one vo_Name add v (pt_Volumes t) Hv) as (vols & Ev & Pv).
  destruct (AddOrRemove_one mo_Name add m (co_Mounts c) Hm) as (mnts & Em & Pm).
  exists vols, mnts. unfold toggle_volume, AddOrRemoveVolume, AddOrRemoveVolumeMount.
  rewrite first, Em. cbn. rewrite Ev. cbn. split_and!; [done|done|done| |]; by eapply removed_NoDup.
Qed.

(** * From the snitch to the daemon set *)

Definition runtimes : list (string * list string) := map_to_list ContainerRuntimeSocketMap.

(** Labels tell the sockets of a runtime apart. *)
Lemma find_socket_label runtime path :
  path ∈ sockets runtime → find_socket runtime (socket_label path) = Some path.
Proof.
  intros Hin. unfold sockets in Hin.
  destruct (ContainerRuntimeSocketMap !! runtime) as [l|] eqn:E; [|by apply elem_of_nil in Hin].
  cbn in Hin.
  assert (H : Forall (λ kv : string * list string,
            Forall (λ p, find_socket kv.1 (socket_label p) = Some p) kv.2) runtimes).
  { apply (bool_decide_eq_true _). vm_compute. reflexivity. }
  rewrite list.Forall_forall in H.
  assert (Hkv : (runtime, l) ∈ runtimes) by by apply elem_of_map_to_list.
  specialize (H _ Hkv). cbn in H. rewrite list.Forall_forall in H. by apply H.
Qed.

(** ** Labels that nodes are selected by *)

Definition snitch_keys : list string :=
  [EnforcerLabel; RuntimeLabel; SocketLabel; BTFLabel; SeccompLabel].
Definition selecting_labels : list string := OsLabel :: NRISocketLabel :: snitch_keys.

(** The node has a label of each kind that the snitch patches into it; a socket of NRI is
    not always there. *)
Definition snitch_labelled (obj : NodeObject) : Prop :=
  ∀ k, k ∈ snitch_keys → is_Some (no_Labels obj !! k).

Lemma selector_key n k v : selector_of n !! k = Some v → k ∈ selecting_labels.
Proof.
  unfold selector_of. cbv zeta. intros H.
  assert ((list_to_map [(EnforcerLabel, nd_Enforcer n); (RuntimeLabel, nd_Runtime n);
     (SocketLabel, nd_RuntimeSocket n); (OsLabel, "linux"); (BTFLabel, nd_BTF n);
     (SeccompLabel, nd_Seccomp n)] : gmap string string) !! k = Some v ∨ k = NRISocketLabel) as [H'|Hk].
  { destruct (String.eqb _ _); [by left|].
    apply lookup_insert_Some in H as [[<- _]|[_ H]]; [by right|by left]. }
  2:{ rewrite Hk. apply elem_of_cons. right. left. }
  apply elem_of_list_to_map_2 in H'. unfold selecting_labels, snitch_keys.
  rewrite !elem_of_cons, elem_of_nil in H'. rewrite !elem_of_cons, elem_of_nil.
  destruct H' as [[= -> _]|[[= -> _]|[[= -> _]|[[= -> _]|[[= -> _]|[[= -> _]|[]]]]]]]; tauto.
Qed.

(** The selector made of a node's labels selects the node. *)
Lemma selector_within obj :
  is_linux obj = true → snitch_labelled obj → selector_of (node_of obj) ⊆ no_Labels obj.
Proof.
  unfold is_linux. rewrite bool_decide_eq_true. intros linux Hlab.
  assert (Hl : ∀ k, k ∈ snitch_keys → no_Labels obj !! k = Some (label k obj)).
  { intros k Hk. unfold label. by destruct (Hlab k Hk) as [v ->]. }
  assert (Hsub : (list_to_map
    [(EnforcerLabel, label EnforcerLabel obj); (RuntimeLabel, label RuntimeLabel obj);
     (SocketLabel, label SocketLabel obj); (OsLabel, "linux"); (BTFLabel, label BTFLabel obj);
     (SeccompLabel, label SeccompLabel obj)] : gmap string string) ⊆ no_Labels obj).
  { apply map_subseteq_spec. intros k v Hk%elem_of_list_to_map_2.
    rewrite !elem_of_cons, elem_of_nil in Hk. unfold snitch_keys in Hl.
    destruct Hk as [[= -> ->]|[[= -> ->]|[[= -> ->]|[[= -> ->]|[[= -> ->]|[[= -> ->]|[]]]]]]];
      (done || (apply Hl; rewrite !elem_of_cons; tauto)). }
  unfold selector_of. cbn [node_of nd_Enforcer nd_Runtime nd_RuntimeSocket nd_BTF nd_Seccomp
    nd_NRIRuntimeSocket]. destruct (String.eqb (label NRISocketLabel obj) "") eqn:En; [done|].
  apply insert_subseteq_l; [|done]. unfold label in En |- *.
  by destruct (no_Labels obj !! NRISocketLabel).
Qed.

Lemma selector_kept n (l l' : gmap string string) :
  selector_of n ⊆ l → (∀ k, k ∈ selecting_labels → l' !! k = l !! k) → selector_of n ⊆ l'.
Proof.
  rewrite !map_subseteq_spec. intros Hs Hk k v H. rewrite Hk; [by apply Hs|].
  by eapply selector_key.
Qed.

Section snitch.
Context `{R : GoRange, !GoRangeLaw R}.
Context (Stat there : string → bool) (ReadFile : string → option string) (probe : bool).
Context (PathPrefix : string).
Abbreviation detect := (DetectRuntimeViaMap there PathPrefix).
Abbreviation run_snitch := (snitch Stat there ReadFile probe PathPrefix).

Lemma first_there_elem paths path :
  first_there there PathPrefix paths = Some path → path ∈ paths.
Proof.
  unfold first_there. destruct (list_find _ paths) as [[i p]|] eqn:E; [|done].
  intros [= ->]. apply list_find_Some in E as (H & _ & _). by eapply list_elem_of_lookup_2.
Qed.

(** A runtime that is detected has the socket. *)
Lemma detected_socket k8sRuntime runtime socket nri :
  detect k8sRuntime = (runtime, socket, nri) → runtime ≠ "NA" → socket ∈ sockets runtime.
Proof.
  unfold DetectRuntimeViaMap.
  destruct (if String.eqb k8sRuntime "" then None else _) as [path|] eqn:E.
  - assert (Hp : path ∈ sockets k8sRuntime).
    { destruct (String.eqb k8sRuntime ""); [done|]. by apply first_there_elem in E. }
    destruct (_ || _); intros [= <- <- _] _; done.
  - destruct (list_find _ (go_range ContainerRuntimeSocketMap)) as [[i [r paths]]|] eqn:El.
    + intros [= <- <- _] _. apply list_find_Some in El as (Hl & Hf & _). cbn in Hf.
      apply list_elem_of_lookup_2, elem_of_go_range in Hl. unfold sockets. rewrite Hl. cbn.
      destruct (first_there there PathPrefix paths) as [p|] eqn:Ef; [|done].
      by apply first_there_elem in Ef.
    + by intros [= <- _ _].
Qed.

(** Lookup in a map that is written as a list of labels *)
Ltac label_lookup :=
  rewrite ?list_to_map_cons; repeat rewrite lookup_insert_ne by done;
  rewrite ?lookup_insert_eq, ?list_to_map_nil, ?lookup_empty; eauto.

(** The labels that a patched node has *)
Lemma snitch_labels order k8sRuntime seccomp hooks applied rand labels :
  run_snitch order k8sRuntime seccomp hooks applied rand = Some labels →
  ∃ runtime socket nri, detect k8sRuntime = (runtime, socket, nri) ∧ runtime ≠ "NA" ∧
    labels !! RuntimeLabel = Some runtime ∧ labels !! SocketLabel = Some (socket_label socket) ∧
    is_Some (labels !! EnforcerLabel) ∧ is_Some (labels !! BTFLabel) ∧
    is_Some (labels !! SeccompLabel) ∧ labels !! OsLabel = None.
Proof.
  unfold snitch. destruct (detect k8sRuntime) as [[runtime socket] nri] eqn:E.
  destruct (String.eqb_spec runtime "NA") as [|Hne]; [done|]. intros [= <-].
  exists runtime, socket, nri. split; [done|]. split; [done|].
  destruct (String.eqb nri ""); split_and!; label_lookup.
Qed.

(** What the snitch finds, the node's daemon set mounts: a node with the labels that the
    snitch patched into it is selected by the daemon set that the operator generates for it;
    and, unless hooks are used, the volume of that daemon set is the very socket that the
    snitch found, although the label has its path without slashes. *)
Theorem snitch_node_selected env ShortSHA g initDeploy owned name
    order k8sRuntime seccomp hooks applied rand labels (obj : NodeObject) ds
    (patched : run_snitch order k8sRuntime seccomp hooks applied rand = Some labels)
    (has_labels : labels ⊆ no_Labels obj)
    (linux : is_linux obj = true)
    (generated : generateDaemonset env ShortSHA g initDeploy owned name (node_of obj) = Ok ds) :
  pt_NodeSelector (ds_Template ds) ⊆ no_Labels obj ∧
  ∃ runtime socket nri, detect k8sRuntime = (runtime, socket, nri) ∧
    (label OCIHooksLabel obj ≠ "yes" →
     {| vo_Name := runtime +:+ "-socket"; vo_Source := socket |} ∈ pt_Volumes (ds_Template ds) ∧
     ∃ c, pt_Containers (ds_Template ds) = [c] ∧
       {| mo_Name := runtime +:+ "-socket";
          mo_Path := default "" (RuntimeSocketLocation !! runtime);
          mo_ReadOnly := true |} ∈ co_Mounts c).
Proof.
  apply snitch_labels in patched as (runtime & socket & nri & Hd & Hna & Hr & Hs & He & Hb & Hsec & _).
  assert (Hl : snitch_labelled obj).
  { intros k Hk. assert (is_Some (labels !! k)) as [v Hv].
    { unfold snitch_keys in Hk. rewrite !elem_of_cons, elem_of_nil in Hk.
      destruct Hk as [->|[->|[->|[->|[->|[]]]]]]; eauto. }
    eauto using lookup_weaken. }
  unfold generateDaemonset in generated. go_res generated. injection generated as <-. cbn.
  split; [by apply selector_within|].
  exists runtime, socket, nri. split; [done|]. intros Hoci.
  assert (Hrt : label RuntimeLabel obj = runtime).
  { pose proof (lookup_weaken _ _ _ _ Hr has_labels) as H. unfold label. by rewrite H. }
  assert (Hso : label SocketLabel obj = socket_label socket).
  { pose proof (lookup_weaken _ _ _ _ Hs has_labels) as H. unfold label. by rewrite H. }
  pose proof (find_socket_label _ _ (detected_socket _ _ _ _ Hd Hna)) as Hf.
  assert (Hvol : ∀ init, {| vo_Name := runtime +:+ "-socket"; vo_Source := socket |}
                  ∈ (node_volumes g init (node_of obj)).1 ∧
                {| mo_Name := runtime +:+ "-socket";
                   mo_Path := default "" (RuntimeSocketLocation !! runtime);
                   mo_ReadOnly := true |} ∈ (node_volumes g init (node_of obj)).2).
  { intros init. unfold node_volumes. cbn [node_of nd_OCIHooks nd_Enforcer nd_ApparmorFs
      nd_Runtime nd_RuntimeSocket nd_NRIRuntimeSocket nd_BTF].
    apply String.eqb_neq in Hoci. rewrite Hoci, Hrt, Hso.
    destruct (if _ && _ then _ else _) as [ev em]. unfold genRuntimeVolumes, socket_volume, socket_mount.
    rewrite Hf. cbn. rewrite elem_of_app. split; [right; left|left]. }
  destruct (Hvol initDeploy) as [H1 H2]. split; [apply elem_of_app; by left|].
  eexists. split; [reflexivity|]. cbn. apply elem_of_app. by left.
Qed.
End snitch.

(** * Arguments that get lost *)

Section arguments.
Context `{R : GoRange, !GoRangeLaw R}.
Context (env ShortSHA : string → string).

Lemma argument_value d input k v :
  argument_key k →
  print_argument (k, v) ∈ finalArgs (argMap d input)
  ↔ last_value k (parsed d ++ parsed input) = Some v.
Proof.
  intros Hk. rewrite elem_of_finalArgs, <- argMap_last. split.
  - intros (k' & v' & E & Hv). apply print_argument_inj in E as [= -> ->]; [done|done|].
    exact (argMap_keys d input k' v' Hv).
  - intros Hv. by exists k, v.
Qed.

(** TLS is switched off by the operator's own arguments: a daemon set that is generated while
    TLS is enabled mounts the certificate, but has [-tlsEnabled=false], since the default
    arguments of KubeArmor say so and win over the one that was just set. *)
Theorem tls_argument_overridden g initDeploy n
    (enabled : tls_Enable (g_Tls g) = true)
    (own : is_Args (im_KubeArmor (g_Images g)) = is_Args (im_KubeArmor default_Images)) :
  let c := main_container env g initDeploy n in
  KubeArmorCaVolumeMount ⊆ co_Mounts c ∧
  "-tlsEnabled=true" ∈ tls_arg true (co_Args base_container) ∧
  "-tlsEnabled=false" ∈ co_Args c ∧ "-tlsEnabled=true" ∉ co_Args c.
Proof.
  assert (Hk : argument_key "tlsEnabled") by by split.
  set (d := tls_arg true (co_Args base_container)).
  set (input := is_Args (im_KubeArmor default_Images)).
  assert (Hl : last_value "tlsEnabled" (parsed d ++ parsed input) = Some "false") by by vm_compute.
  unfold main_container. cbn [co_Mounts co_Args]. rewrite enabled, own. fold d input.
  rewrite UpdateArgs_eq by done. cbn [fst]. split_and!.
  - intros x Hx. apply elem_of_app. by right.
  - apply (bool_decide_eq_true _). by vm_compute.
  - apply elem_of_app. left. by apply (argument_value d input "tlsEnabled" "false").
  - rewrite elem_of_app. intros [H|H].
    + apply (argument_value d input "tlsEnabled" "true") in H; [|done]. by rewrite Hl in H.
    + destruct (String.eqb (nd_OCIHooks n) "yes"); [|by apply elem_of_nil in H].
      apply elem_of_cons in H as [?|H]; [done|]. by apply list_elem_of_singleton in H.
Qed.

(** An update of an image takes the daemon from its hooks: the daemon set of nodes with OCI
    hooks starts it with [--useOCIHooks]; after any update the arguments are those of the
    image alone, while the daemon set still has no volume of a runtime's socket. *)
Theorem image_update_drops_hooks g g' initDeploy owned name n ds ds'
    (hooks : nd_OCIHooks n = "yes")
    (generated : generateDaemonset env ShortSHA g initDeploy owned name n = Ok ds)
    (updated : update_daemonset env (g_Images g') ds = Ok ds') :
  (∃ c, pt_Containers (ds_Template ds) = [c] ∧ "--useOCIHooks" ∈ co_Args c) ∧
  (∃ c, pt_Containers (ds_Template ds') = [c] ∧ co_Args c = is_Args (im_KubeArmor (g_Images g'))).
Proof.
  unfold generateDaemonset in generated. go_res generated. injection generated as <-. cbn.
  split.
  - eexists. split; [reflexivity|]. cbn. rewrite hooks. cbn. apply elem_of_app. right. left.
  - unfold update_daemonset in updated. cbn in updated.
    destruct (GenerateNRIvol _) as [vols mounts]. go_res updated. injection updated as <-. cbn.
    unfold toggle_volume in Ha0. unfold take_init_image in Ha0. cbn in Ha0.
    destruct a; cbn in Ha0; go_res Ha0; go_res Ha0; injection Ha0 as <-; cbn; eauto.
Qed.
End arguments.

(** * Witnesses *)

Section witnesses.
#[local] Existing Instance canonical_range.
#[local] Instance canonical_law : GoRangeLaw canonical_range := canonical_range_law.

Definition no_env : string → string := λ _, "".
Definition full_sha : string → string := λ s, s.

Definition sample_container : KContainer :=
  set_co_mounts (BPFVolumesMount ++ KubeArmorCaVolumeMount) base_container.
Definition sample_template : PodTemplate :=
  {| pt_Labels := ∅; pt_NodeSelector := ∅; pt_Init := []; pt_Containers := [sample_container];
     pt_Volumes := [{| vo_Name := "bpf"; vo_Source := "emptyDir" |};
       {| vo_Name := "kubearmor-ca-secret"; vo_Source := "kubearmor-ca" |};
       {| vo_Name := "proc-fs-mount"; vo_Source := "/proc" |}];
     pt_Secrets := []; pt_Tolerations := [] |}.

Lemma volume_toggled_witness :
  ∃ t, toggle_volume false KubeArmorCaVolume KubeArmorCaVolumeMount sample_template = Ok t ∧
       length (pt_Volumes t) = 2%nat.
Proof.
  destruct (volume_toggled false {| vo_Name := "kubearmor-ca-secret"; vo_Source := "kubearmor-ca" |}
    {| mo_Name := "kubearmor-ca-secret"; mo_Path := "/var/lib/kubearmor/tls"; mo_ReadOnly := true |}
    sample_template sample_container []) as (vols & mnts & H1 & H2 & _).
  - reflexivity.
  - split; apply (bool_decide_eq_true _); vm_compute; reflexivity.
  - eexists. split; [exact H1|]. cbn. rewrite app_nil_r, H2. reflexivity.
Defined.

(** A host with AppArmor, BTF and containerd *)
Definition sample_stat (f : string) : bool :=
  ContainsElement ["/rootfs/sys/kernel/security/lsm"; "/rootfs/sys/kernel/btf/vmlinux";
    "/rootfs/etc/apparmor.d/tunables"; "/rootfs/run/containerd/containerd.sock"] f.
Definition sample_read (f : string) : option string :=
  if String.eqb f "/rootfs/sys/kernel/security/lsm" then Some "capability,apparmor" else None.
Definition sample_snitch : option (gmap string string) :=
  snitch sample_stat sample_stat sample_read false "/rootfs" "bpf,apparmor,selinux" "containerd"
    true false (λ _, true) "abcd".
Definition sample_node : NodeObject :=
  {| no_Name := "node1"; no_Labels := <[OsLabel := "linux"]> (default ∅ sample_snitch);
     no_Taints := []; no_RuntimeVersion := "containerd://1.7" |}.
Definition sample_daemonset (g : Globals) (n : Node) : DaemonSet :=
  match generateDaemonset no_env full_sha g true true "kubearmor-1" n with
  | Ok ds => ds
  | Panic => {| ds_Name := ""; ds_Template := {| pt_Labels := ∅; pt_NodeSelector := ∅; pt_Init := [];
                  pt_Containers := []; pt_Volumes := []; pt_Secrets := []; pt_Tolerations := [] |};
                ds_Owned := false |}
  end.

Example sample_node_labels :
  (label EnforcerLabel sample_node, label RuntimeLabel sample_node, label SocketLabel sample_node)
  = ("apparmor", "containerd", "run_containerd_containerd.sock").
Proof. vm_compute. reflexivity. Qed.

Lemma snitch_node_selected_witness :
  pt_NodeSelector (ds_Template (sample_daemonset default_Globals (node_of sample_node)))
    ⊆ no_Labels sample_node ∧
  {| vo_Name := "containerd-socket"; vo_Source := "/run/containerd/containerd.sock" |}
    ∈ pt_Volumes (ds_Template (sample_daemonset default_Globals (node_of sample_node))).
Proof.
  destruct (snitch_node_selected sample_stat sample_stat sample_read false "/rootfs" no_env full_sha
    default_Globals true true "kubearmor-1" "bpf,apparmor,selinux" "containerd" true false
    (λ _, true) "abcd" (default ∅ sample_snitch) sample_node
    (sample_daemonset default_Globals (node_of sample_node)))
    as (H1 & runtime & socket & nri & H2 & H3).
  - vm_compute. reflexivity.
  - apply insert_subseteq. vm_compute. reflexivity.
  - vm_compute. reflexivity.
  - vm_compute. reflexivity.
  - split; [exact H1|].
    assert (E : DetectRuntimeViaMap sample_stat "/rootfs" "containerd"
                = ("containerd", "/run/containerd/containerd.sock", "")) by (vm_compute; reflexivity).
    rewrite E in H2. injection H2 as <- <- _. apply H3. vm_compute. discriminate.
Defined.

Definition tls_Globals : Globals :=
  {| g_Images := default_Images; g_Data := ∅; g_RelayEnv := ∅; g_Elastic := g_Elastic default_Globals;
     g_Seccomp := "false"; g_Tls := {| tls_Enable := true; tls_DnsNames := []; tls_IpAddresses := [] |};
     g_Port := 9443; g_Recommended := g_Recommended default_Globals |}.

Lemma tls_argument_overridden_witness :
  "-tlsEnabled=true" ∉ co_Args (main_container no_env tls_Globals true (node_of sample_node)).
Proof.
  destruct (tls_argument_overridden no_env tls_Globals true (node_of sample_node))
    as (_ & _ & _ & H); [reflexivity|reflexivity|exact H].
Defined.

Definition hooked_node : Node :=
  {| nd_Name := "node1"; nd_Enforcer := "bpf"; nd_Runtime := "cri-o";
     nd_RuntimeSocket := "run_crio_crio.sock"; nd_NRIRuntimeSocket := ""; nd_Arch := "amd64";
     nd_BTF := "yes"; nd_ApparmorFs := "no"; nd_Seccomp := "no"; nd_OCIHooks := "yes" |}.
Definition hooked_updated : DaemonSet :=
  match update_daemonset no_env default_Images (sample_daemonset default_Globals hooked_node) with
  | Ok ds => ds | Panic => sample_daemonset default_Globals hooked_node end.

Lemma image_update_drops_hooks_witness :
  ∃ c, pt_Containers (ds_Template hooked_updated) = [c] ∧ "--useOCIHooks" ∉ co_Args c.
Proof.
  destruct (image_update_drops_hooks no_env full_sha default_Globals default_Globals true true
    "kubearmor-1" hooked_node (sample_daemonset default_Globals hooked_node) hooked_updated)
    as (_ & c & H1 & H2).
  - reflexivity.
  - vm_compute. reflexivity.
  - vm_compute. reflexivity.
  - exists c. split; [exact H1|]. rewrite H2. apply (bool_decide_eq_true _). vm_compute. reflexivity.
Defined.
End witnesses.
