(* ===== verification/OperatorNodesProps.v ===== *)
(** The operator's nodes: while nodes keep their labels, every node is served by a daemon set
    that selects it and daemon sets go with their last node; what happens when labels
    change; and what the snitch's labels become.  Then what is lost: when labels change, when
    nodes of different kinds share a daemon set's name, and with NRI. *)
From Stdlib Require Import Ascii String.
From S2P Require Import Prelude GoStrings Common KubeApi AppArmorEnforcer OperatorConfig OperatorObjects OperatorNodes OperatorConfigProps OperatorObjectsProps.

Open Scope string_scope.
Open Scope list_scope.
Open Scope Z_scope.

#[local] Arguments name_of : simpl never.
#[local] Arguments generateDaemonset : simpl never.

Section nodes.
Context `{R : GoRange} {W : Type} {KA : KubeApi DaemonSet W} {objects : W → gmap string DaemonSet}.
Context `{KL : !KubeApiLaw KA ds_Name objects, KU : !KubeApiUp KA}.
Context (env : string → string) (ShortSHA : string → string) (g : Globals) (owned : bool).
Abbreviation CW := (ClusterWatcher W).
Abbreviation node_name := (name_of ShortSHA).
Abbreviation Update := (node_UpdateFunc env ShortSHA g true owned).
Abbreviation Delete := (node_DeleteFunc ShortSHA).

(** How many listed nodes have a daemon set's name *)
Definition served_by (name : string) (l : list Node) : list Node :=
  filter (λ n, node_name n = name) l.
Definition nodes_with (name : string) (l : list Node) : Z := Z.of_nat (length (served_by name l)).

Definition count_of (name : string) (cw : CW) : Z := default 0 (cw_Daemonsets cw !! name).

Lemma nodes_with_app name l l' : nodes_with name (l ++ l') = nodes_with name l + nodes_with name l'.
Proof. unfold nodes_with, served_by. rewrite list.filter_app, length_app. lia. Qed.

Lemma nodes_with_one name n : nodes_with name [n] = if decide (node_name n = name) then 1 else 0.
Proof.
  unfold nodes_with, served_by. destruct (decide (node_name n = name)) as [E|E].
  - by rewrite filter_cons_True.
  - by rewrite filter_cons_False.
Qed.

Lemma nodes_with_pos n l : n ∈ l → 0 < nodes_with (node_name n) l.
Proof.
  intros Hin. unfold nodes_with. destruct (served_by (node_name n) l) eqn:E; [|cbn; lia].
  exfalso. apply (proj1 (elem_of_nil n)). rewrite <- E. by apply list_elem_of_filter.
Qed.

Lemma put_node_new n l :
  (∀ x, x ∈ l → nd_Name x ≠ nd_Name n) → put_node n l = (l ++ [n], false).
Proof.
  induction l as [|x l IH]; intros Hl; [done|]. cbn.
  assert (Hx : nd_Name n ≠ nd_Name x) by (intros E; by apply (Hl x); [left|]).
  apply String.eqb_neq in Hx. rewrite Hx, IH; [done|]. intros y Hy. apply Hl. by right.
Qed.

Lemma take_node_split name l x l' :
  take_node name l = Some (x, l') → ∃ l1 l2, l = l1 ++ x :: l2 ∧ l' = l1 ++ l2.
Proof.
  revert l'. induction l as [|y l IH]; intros l'; [done|]. cbn.
  destruct (String.eqb (nd_Name y) name).
  - intros [= -> ->]. by exists [], l'.
  - destruct (take_node name l) as [[z l'']|] eqn:E; [|done]. cbn. intros [= -> <-].
    destruct (IH l'' eq_refl) as (l1 & l2 & -> & ->). by exists (y :: l1), l2.
Qed.

Lemma take_node_name name l x l' : take_node name l = Some (x, l') → nd_Name x = name.
Proof.
  revert l'. induction l as [|y l IH]; intros l'; [done|]. cbn.
  destruct (String.eqb_spec (nd_Name y) name); [by intros [= <- _]|].
  destruct (take_node name l) as [[z l'']|]; [|done]. cbn. intros [= -> _]. by eapply IH.
Qed.

Lemma take_node_listed name l n : n ∈ l → nd_Name n = name → is_Some (take_node name l).
Proof.
  intros Hin Hn. induction l as [|y l IH]; [by apply elem_of_nil in Hin|]. cbn.
  destruct (String.eqb_spec (nd_Name y) name) as [|Hne]; [eauto|].
  apply elem_of_cons in Hin as [->|Hin]; [done|].
  destruct (IH Hin) as [[z l'] ->]. cbn. eauto.
Qed.

(** ** What a node gets *)

Context (no_nri : im_NRI (g_Images g) = false).

Lemma generated n :
  ∃ ds, generateDaemonset env ShortSHA g true owned (node_name n) n = Ok ds ∧
    ds_Name ds = node_name n ∧ pt_NodeSelector (ds_Template ds) = selector_of n.
Proof.
  unfold generateDaemonset. rewrite orb_true_r, no_nri, andb_false_r. cbn. by eexists.
Qed.

(** The daemon set that serves a node is there and selects it. *)
Definition served (cw : CW) (n : Node) : Prop :=
  ∃ ds, objects (cw_w cw) !! node_name n = Some ds ∧ pt_NodeSelector (ds_Template ds) = selector_of n.

Lemma add_daemonset_up n (cw : CW) :
  ∃ cw' ds, add_daemonset env ShortSHA g true owned n cw = Ok cw' ∧
    cw_Nodes cw' = cw_Nodes cw ∧
    cw_Daemonsets cw' = <[node_name n := count_of (node_name n) cw + 1]> (cw_Daemonsets cw) ∧
    pt_NodeSelector (ds_Template ds) = selector_of n ∧
    objects (cw_w cw')
    = match objects (cw_w cw) !! node_name n with
      | Some _ => objects (cw_w cw)
      | None => <[node_name n := ds]> (objects (cw_w cw)) end.
Proof.
  destruct (generated n) as (ds & Hg & Hn & Hs). unfold add_daemonset. rewrite api_get_up. cbn.
  destruct (objects (cw_w cw) !! node_name n) as [ds'|] eqn:E.
  - eexists _, ds. split_and!; [reflexivity|done|done|done|]. done.
  - rewrite Hg. cbn. eexists _, ds. split_and!; [reflexivity|done|done|done|].
    cbn. rewrite (api_create_up (name := ds_Name)), Hn, E. done.
Qed.

(** ** Nodes that keep their labels *)

(** What is known while each node is labelled once: [P] are the nodes that join, nodes with
    the same daemon set's name are selected alike. *)
Context (P : Node → Prop).
Context (uniform : ∀ n n', P n → P n' → node_name n = node_name n' → selector_of n = selector_of n').

Record settled (cw : CW) : Prop := {
  set_all n : n ∈ cw_Nodes cw → P n;
  set_served n : n ∈ cw_Nodes cw → served cw n;
  set_known n ds : P n → objects (cw_w cw) !! node_name n = Some ds →
    pt_NodeSelector (ds_Template ds) = selector_of n;
  set_count name : count_of name cw = nodes_with name (cw_Nodes cw);
  set_gone name : cw_Daemonsets cw !! name = Some 0 → objects (cw_w cw) !! name = None }.

Lemma settled_join n (cw : CW) :
  settled cw → P n → (∀ x, x ∈ cw_Nodes cw → nd_Name x ≠ nd_Name n) →
  ∃ cw', node_labelled env ShortSHA g true owned n cw = Ok cw' ∧ settled cw' ∧
         cw_Nodes cw' = cw_Nodes cw ++ [n].
Proof.
  intros [Ha Hs Hk Hc Hg] HP Hnew. unfold node_labelled. rewrite put_node_new by done. cbn.
  destruct (add_daemonset_up n (set_cw_Nodes (cw_Nodes cw ++ [n]) cw))
    as (cw' & ds & -> & Hn & Hd & Hsel & Ho). cbn in Hn, Hd, Ho.
  assert (Hserved : served cw' n).
  { unfold served. rewrite Ho. destruct (objects (cw_w cw) !! node_name n) as [ds'|] eqn:E.
    - exists ds'. split; [done|]. exact (Hk n ds' HP E).
    - exists ds. by rewrite lookup_insert_eq. }
  exists cw'. split; [done|]. split; [|done]. split.
  - intros x. rewrite Hn, elem_of_app, list_elem_of_singleton. intros [Hx| ->]; auto.
  - intros x. rewrite Hn, elem_of_app, list_elem_of_singleton. intros [Hx| ->]; [|done].
    destruct (decide (node_name x = node_name n)) as [E|E].
    + destruct Hserved as (d & H1 & H2). exists d. rewrite E. split; [done|].
      rewrite H2. symmetry. apply uniform; auto.
    + destruct (Hs x Hx) as (d & H1 & H2). exists d. split; [|done]. rewrite Ho.
      destruct (objects (cw_w cw) !! node_name n); [done|]. by rewrite lookup_insert_ne.
  - intros x d HPx. rewrite Ho. destruct (objects (cw_w cw) !! node_name n) eqn:E; [by apply Hk|].
    destruct (decide (node_name n = node_name x)) as [E'|E'].
    + rewrite E', lookup_insert_eq. intros [= <-]. rewrite Hsel. by apply uniform.
    + rewrite lookup_insert_ne by done. by apply Hk.
  - intros name. unfold count_of. rewrite Hd, Hn, nodes_with_app, nodes_with_one.
    destruct (decide (node_name n = name)) as [<-|E].
    + rewrite lookup_insert_eq. cbn. by rewrite <- Hc.
    + rewrite lookup_insert_ne by done. rewrite Z.add_0_r. apply Hc.
  - intros name. rewrite Hd. destruct (decide (node_name n = name)) as [<-|E].
    + rewrite lookup_insert_eq. intros [= E]. unfold count_of in E. cbn in E.
      specialize (Hc (node_name n)). unfold count_of in Hc. rewrite Hc in E.
      unfold nodes_with in E. lia.
    + rewrite lookup_insert_ne by done. intros H0. specialize (Hg name H0). rewrite Ho.
      destruct (objects (cw_w cw) !! node_name n); [done|]. by rewrite lookup_insert_ne.
Qed.

Lemma delete_daemonset_up n (cw : CW) :
  let cw' := delete_daemonset ShortSHA n cw in
  cw_Nodes cw' = cw_Nodes cw ∧
  match cw_Daemonsets cw !! node_name n with
  | None => cw' = cw
  | Some val =>
      if val <? 2
      then cw_Daemonsets cw' = <[node_name n := 0]> (cw_Daemonsets cw)
           ∧ objects (cw_w cw') = delete (node_name n) (objects (cw_w cw))
      else cw_Daemonsets cw' = <[node_name n := val - 1]> (cw_Daemonsets cw)
           ∧ objects (cw_w cw') = objects (cw_w cw)
  end.
Proof.
  unfold delete_daemonset. destruct (cw_Daemonsets cw !! node_name n) as [val|] eqn:E; [|done].
  destruct (val <? 2) eqn:Ev; cbn; [|done]. split; [done|]. split; [done|]. apply api_delete_up.
Qed.

Lemma nodes_with_cons name n l :
  nodes_with name (n :: l) = (if decide (node_name n = name) then 1 else 0) + nodes_with name l.
Proof. change (n :: l) with ([n] ++ l). by rewrite nodes_with_app, nodes_with_one. Qed.

Lemma settled_leave n (cw : CW) l1 l2 :
  settled cw → cw_Nodes cw = l1 ++ n :: l2 →
  settled (delete_daemonset ShortSHA n (set_cw_Nodes (l1 ++ l2) cw)).
Proof.
  intros [Ha Hs Hk Hc Hg] El.
  assert (Hin : ∀ x, x ∈ l1 ++ l2 → x ∈ cw_Nodes cw).
  { intros x. rewrite El, !elem_of_app, elem_of_cons. tauto. }
  assert (Hn : n ∈ cw_Nodes cw) by (rewrite El, elem_of_app, elem_of_cons; tauto).
  assert (Hcount : ∀ name, count_of name cw
            = (if decide (node_name n = name) then 1 else 0) + nodes_with name (l1 ++ l2)).
  { intros name. rewrite Hc, El, !nodes_with_app, nodes_with_cons. lia. }
  destruct (delete_daemonset_up n (set_cw_Nodes (l1 ++ l2) cw)) as [En Hd].
  set (cw' := delete_daemonset _ _ _) in *. cbn in En, Hd.
  pose proof (nodes_with_pos n _ Hn) as Hpos. rewrite <- Hc in Hpos.
  destruct (cw_Daemonsets cw !! node_name n) as [val|] eqn:Ed.
  2:{ unfold count_of in Hpos. rewrite Ed in Hpos. cbn in Hpos. lia. }
  pose proof (Hcount (node_name n)) as Hval. unfold count_of in Hval, Hpos.
  rewrite Ed, decide_True in Hval by done. rewrite Ed in Hpos. cbn in Hval, Hpos.
  assert (Hother : ∀ name, name ≠ node_name n → cw_Daemonsets cw' !! name = cw_Daemonsets cw !! name
            ∧ objects (cw_w cw') !! name = objects (cw_w cw) !! name).
  { intros name Hne. destruct (val <? 2); destruct Hd as [-> ->];
      by rewrite ?lookup_insert_ne, ?lookup_delete_ne. }
  assert (Hgone : val < 2 → ∀ x, x ∈ l1 ++ l2 → node_name x ≠ node_name n).
  { intros Hv x Hx E. pose proof (nodes_with_pos x _ Hx) as H. rewrite E in H. lia. }
  split.
  - intros x. rewrite En. auto.
  - intros x. rewrite En. intros Hx. destruct (Hs x (Hin x Hx)) as (d & H1 & H2).
    exists d. split; [|done]. destruct (decide (node_name x = node_name n)) as [E|E].
    + destruct (val <? 2) eqn:Ev; [by destruct (Hgone ltac:(lia) x Hx)|].
      by destruct Hd as [_ ->].
    + by rewrite (proj2 (Hother _ E)).
  - intros x d HPx H. apply (Hk x d HPx).
    destruct (decide (node_name x = node_name n)) as [E|E].
    + destruct (val <? 2); destruct Hd as [_ Hd]; rewrite Hd in H; [|done].
      by rewrite E, lookup_delete_eq in H.
    + by rewrite <- (proj2 (Hother _ E)).
  - intros name. unfold count_of. rewrite En. specialize (Hcount name). unfold count_of in Hcount.
    destruct (decide (node_name n = name)) as [<-|E].
    + destruct (val <? 2) eqn:Ev; destruct Hd as [-> _]; rewrite lookup_insert_eq; cbn; lia.
    + rewrite (proj1 (Hother name ltac:(done))). lia.
  - intros name H0. destruct (decide (name = node_name n)) as [->|E].
    + destruct (val <? 2) eqn:Ev; destruct Hd as [Hd Ho].
      * by rewrite Ho, lookup_delete_eq.
      * rewrite Hd, lookup_insert_eq in H0. injection H0 as H0. lia.
    + rewrite (proj1 (Hother name E)) in H0. rewrite (proj2 (Hother name E)). by apply Hg.
Qed.

(** The labels of the nodes of the cluster.  Each node is labelled once while it is there,
    with all labels that the snitch gives; later updates keep the labels that nodes are
    selected by. *)
Local Abbreviation Cluster := (gmap string (gmap string string)).

Inductive stable_history (cw0 : CW) : Cluster → CW → Prop :=
| sh_start : stable_history cw0 ∅ cw0
| sh_join there cw old new cw' acts :
    stable_history cw0 there cw → P (node_of new) →
    (∀ x, x ∈ cw_Nodes cw → nd_Name x ≠ no_Name new) →
    is_linux new = true → snitch_labelled new → label RandLabel old ≠ label RandLabel new →
    Update true old new cw = Ok (cw', acts) →
    stable_history cw0 (<[no_Name new := no_Labels new]> there) cw'
| sh_other there cw created old new cw' acts :
    stable_history cw0 there cw → label RandLabel old = label RandLabel new →
    (∀ l k, there !! no_Name new = Some l → k ∈ selecting_labels →
       no_Labels new !! k = l !! k) →
    Update created old new cw = Ok (cw', acts) →
    stable_history cw0 (alter (λ _, no_Labels new) (no_Name new) there) cw'
| sh_leave there cw n :
    stable_history cw0 there cw → (∃ x, x ∈ cw_Nodes cw ∧ nd_Name x = no_Name n) →
    stable_history cw0 (delete (no_Name n) there) (Delete n cw).

(** Every node of the cluster is listed, under labels that it still has. *)
Definition listed (there : Cluster) (cw : CW) : Prop :=
  ∀ name l, there !! name = Some l → ∃ x, x ∈ cw_Nodes cw ∧ nd_Name x = name ∧ selector_of x ⊆ l.

Lemma listed_leave there cw cw' l1 x l2 :
  listed there cw → cw_Nodes cw = l1 ++ x :: l2 → cw_Nodes cw' = l1 ++ l2 →
  listed (delete (nd_Name x) there) cw'.
Proof.
  intros Hl E E' name l [Hne Hn]%lookup_delete_Some. destruct (Hl name l Hn) as (y & Hy & <- & Hsub).
  exists y. split; [|done]. rewrite E' . rewrite E in Hy.
  apply elem_of_app. apply elem_of_app in Hy as [Hy|[->|Hy]%elem_of_cons]; [by left|done|by right].
Qed.

Lemma stable_history_inv w there cw :
  (∀ n ds, P n → objects w !! node_name n = Some ds →
     pt_NodeSelector (ds_Template ds) = selector_of n) →
  stable_history (NewClusterWatcher w) there cw → settled cw ∧ listed there cw.
Proof.
  intros earlier history.
  induction history as [|there cw old new cw' acts _ [IH IHl] HP Hnew Hl Hlab Hr H|
                        there cw created old new cw' acts _ [IH IHl] Hr Hk H|
                        there cw n _ [IH IHl] (x & Hx & Hn)].
  - split; [|by intros name l ?%lookup_empty_Some].
    split; cbn; [by intros ? ?%elem_of_nil..|done|done|done].
  - unfold node_UpdateFunc in H. rewrite Hl in H. apply String.eqb_neq in Hr. rewrite Hr in H.
    rewrite andb_false_r in H. cbn in H.
    destruct (settled_join (node_of new) cw IH HP) as (cw1 & E & Hs & En).
    { intros y Hy. cbn. by apply Hnew. }
    rewrite E in H. injection H as <- _. split; [done|]. intros name l. rewrite En.
    intros [[<- <-]|[Hne Hin]]%lookup_insert_Some.
    + exists (node_of new). split; [apply elem_of_app; right; left|]. split; [done|].
      by apply selector_within.
    + destruct (IHl name l Hin) as (y & Hy & ?). exists y. split; [|done].
      apply elem_of_app. by left.
  - assert (cw' = cw) as ->.
    { unfold node_UpdateFunc in H. apply String.eqb_eq in Hr. rewrite Hr, andb_false_r in H.
      destruct (_ && negb created) in H; by injection H as <- _. }
    split; [done|]. intros name l. destruct (decide (name = no_Name new)) as [->|Hne].
    + rewrite lookup_alter_eq. intros (l0 & Hl0 & ->)%fmap_Some.
      destruct (IHl _ _ Hl0) as (y & Hy & Hny & Hsub). exists y. split; [done|]. split; [done|].
      eapply selector_kept; [exact Hsub|]. intros k. by apply Hk.
    + rewrite lookup_alter_ne by done. apply IHl.
  - unfold node_DeleteFunc. destruct (take_node_listed (no_Name n) _ x Hx Hn) as [[y l] E].
    rewrite E. assert (nd_Name y = no_Name n) as Hy by (by eapply take_node_name).
    apply take_node_split in E as (l1 & l2 & El & ->). split; [by apply settled_leave|].
    rewrite <- Hy. eapply listed_leave; [exact IHl|exact El|].
    apply (delete_daemonset_up y (set_cw_Nodes (l1 ++ l2) cw)).
Qed.

(** C25: While nodes keep their labels, the operator serves them all: from a start without
    nodes, nodes may join, be updated and leave in any order; for every node of the cluster
    there is a daemon set whose node selector the node's labels satisfy, each daemon set is
    counted exactly as often as there are nodes for it, and it is gone when its last node
    left.  Without NRI, with init containers; each node is labelled once while it is there,
    nodes with the same daemon set's name have the same labels to be selected by, and daemon
    sets of an earlier run select as those of now.  For what is lost otherwise see
    [other_btf_unserved], [nri_daemonset_stays] and [relabelled_node_leaks]. *)
Theorem nodes_served (w : W) (there : Cluster) (cw : CW)
    (earlier : ∀ n ds, P n → objects w !! node_name n = Some ds →
       pt_NodeSelector (ds_Template ds) = selector_of n)
    (history : stable_history (NewClusterWatcher w) there cw) :
  (∀ node labels, there !! node = Some labels →
     ∃ name ds, objects (cw_w cw) !! name = Some ds ∧ pt_NodeSelector (ds_Template ds) ⊆ labels) ∧
  (∀ name, count_of name cw = nodes_with name (cw_Nodes cw)) ∧
  (∀ name, is_Some (cw_Daemonsets cw !! name) → nodes_with name (cw_Nodes cw) = 0 →
     objects (cw_w cw) !! name = None).
Proof.
  destruct (stable_history_inv w there cw earlier history) as [[Ha Hs Hk Hc Hg] Hl]. split_and!.
  - intros node labels Hn. destruct (Hl node labels Hn) as (x & Hx & _ & Hsub).
    destruct (Hs x Hx) as (ds & Hds & Hsel). exists (node_name x), ds. split; [done|].
    by rewrite Hsel.
  - done.
  - intros name [v Hv] H0. apply Hg. rewrite <- Hc in H0. unfold count_of in H0.
    rewrite Hv in *. cbn in H0. by subst v.
Qed.
End nodes.

(** ** Two nodes of one kind join, the first one leaves *)

Section witnesses.
#[local] Existing Instance canonical_range.
#[local] Instance store_api : KubeApi DaemonSet (gmap string DaemonSet) := map_api ds_Name.
#[local] Instance store_law : KubeApiLaw store_api ds_Name id := map_api_law ds_Name.
#[local] Instance store_up : KubeApiUp store_api := map_api_up ds_Name.

Definition kind_object (name socket rand : string) : NodeObject :=
  {| no_Name := name;
     no_Labels := list_to_map [(OsLabel, "linux"); (EnforcerLabel, "bpf");
       (RuntimeLabel, "containerd"); (SocketLabel, socket); (BTFLabel, "yes");
       (SeccompLabel, "no"); (RandLabel, rand)];
     no_Taints := []; no_RuntimeVersion := "containerd://1.7" |}.

Definition plain_env : string → string := λ _, "".
Definition plain_sha : string → string := λ s, s.

Abbreviation StoreUpdate :=
  (node_UpdateFunc (W := gmap string DaemonSet) plain_env plain_sha default_Globals true true true).
Definition after (r : Res (ClusterWatcher (gmap string DaemonSet) * list NodeAction)) :=
  match r with Ok (cw, _) => cw | Panic => NewClusterWatcher ∅ end.

Definition store0 : ClusterWatcher (gmap string DaemonSet) := NewClusterWatcher ∅.
Definition store1 := after (StoreUpdate (kind_object "a" "s" "") (kind_object "a" "s" "r") store0).
Definition store2 := after (StoreUpdate (kind_object "b" "s" "") (kind_object "b" "s" "q") store1).
Definition store3 := node_DeleteFunc plain_sha (kind_object "a" "s" "r") store2.

Definition of_kind (n : Node) : Prop := ∃ name rand, n = node_of (kind_object name "s" rand).

Definition first_node : NodeObject := kind_object "a" "s" "r".
Definition second_node : NodeObject := kind_object "b" "s" "q".

Lemma kind_labelled name socket rand : snitch_labelled (kind_object name socket rand).
Proof.
  intros k Hk. unfold snitch_keys in Hk. rewrite !elem_of_cons, elem_of_nil in Hk.
  destruct Hk as [->|[->|[->|[->|[->|[]]]]]]; by eexists.
Qed.

Lemma store1_nodes : cw_Nodes store1 = [node_of first_node].
Proof. vm_compute. reflexivity. Qed.

Lemma store2_history :
  stable_history plain_env plain_sha default_Globals true of_kind store0
    (<["b" := no_Labels second_node]> (<["a" := no_Labels first_node]> ∅)) store2.
Proof.
  eapply (sh_join _ _ _ _ _ _ _ store1 (kind_object "b" "s" "") second_node _ []).
  - eapply (sh_join _ _ _ _ _ _ ∅ store0 (kind_object "a" "s" "") first_node _ []).
    + apply sh_start.
    + by exists "a", "r".
    + intros x Hx. by apply elem_of_nil in Hx.
    + reflexivity.
    + apply kind_labelled.
    + done.
    + vm_compute. reflexivity.
  - by exists "b", "q".
  - intros x Hx. rewrite store1_nodes in Hx. by apply list_elem_of_singleton in Hx as ->.
  - reflexivity.
  - apply kind_labelled.
  - done.
  - vm_compute. reflexivity.
Qed.

(** The node that stays is selected, and counted once. *)
Lemma nodes_served_witness :
  cw_Nodes store3 = [node_of second_node] ∧
  (∃ name ds, cw_w store3 !! name = Some ds
   ∧ pt_NodeSelector (ds_Template ds) ⊆ no_Labels second_node) ∧
  count_of (name_of plain_sha (node_of second_node)) store3 = 1.
Proof.
  assert (E : cw_Nodes store3 = [node_of second_node]) by (vm_compute; reflexivity).
  destruct (nodes_served (objects := id) plain_env plain_sha default_Globals true eq_refl of_kind)
    with (w := ∅ : gmap string DaemonSet) (cw := store3)
      (there := delete "a" (<["b" := no_Labels second_node]>
                  (<["a" := no_Labels first_node]> (∅ : gmap string (gmap string string)))))
    as (H1 & H2 & _).
  - intros n n' (x & y & ->) (x' & y' & ->) _. reflexivity.
  - intros n ds _ [=].
  - apply (sh_leave _ _ _ _ _ _ _ store2 first_node store2_history).
    exists (node_of first_node). split; [|reflexivity].
    assert (E2 : cw_Nodes store2 = [node_of first_node; node_of second_node])
      by (vm_compute; reflexivity).
    rewrite E2. left.
  - split_and!; [exact E| |].
    + apply (H1 "b"). vm_compute. reflexivity.
    + rewrite H2, E. vm_compute. reflexivity.
Defined.
End witnesses.

(** ** What is lost *)

Section faults.
Context `{R : GoRange} {W : Type} {KA : KubeApi DaemonSet W} {objects : W → gmap string DaemonSet}.
Context `{KL : !KubeApiLaw KA ds_Name objects, KU : !KubeApiUp KA}.
Context (env : string → string) (ShortSHA : string → string) (g : Globals) (owned : bool).
Abbreviation CW := (ClusterWatcher W).
Abbreviation node_name := (name_of ShortSHA).
Abbreviation Labelled := (node_labelled env ShortSHA g true owned).
Abbreviation Delete := (node_DeleteFunc ShortSHA).

(** Nodes with different daemon sets' names differ in their labels. *)
Lemma node_changed_name n n' : node_name n ≠ node_name n' → node_changed n n' = true.
Proof.
  intros Hne. unfold node_changed. apply negb_true_iff, not_true_iff_false.
  rewrite !andb_true_iff, !String.eqb_eq. intros H. apply Hne. unfold name_of.
  destruct H as ((((((((_ & ->) & _) & ->) & ->) & _) & _) & _) & _). done.
Qed.

Lemma node_changed_same n : node_changed n n = false.
Proof. unfold node_changed. by rewrite !String.eqb_refl. Qed.

Section plain.
Context (no_nri : im_NRI (g_Images g) = false).

(** A node that changes its kind can leave itself without KubeArmor: the operator gives up
    the daemon set under the node's new labels instead of its old ones.  If [b] becomes of
    the kind of [a] and [a] then leaves, [b] has no daemon set, while its old one is still
    counted. *)
Theorem changed_node_unserved (cw : CW) (a b b' : Node) (obj : NodeObject)
    (two : cw_Nodes cw = [a; b] ∧ nd_Name a ≠ nd_Name b)
    (counted : count_of (node_name a) cw = 1)
    (moved : nd_Name b' = nd_Name b ∧ node_name b' = node_name a ∧ node_name b ≠ node_name a)
    (leaves : no_Name obj = nd_Name a) :
  ∃ cw1, Labelled b' cw = Ok cw1 ∧
    let cw2 := Delete obj cw1 in
    cw_Nodes cw2 = [b'] ∧ objects (cw_w cw2) !! node_name b' = None ∧
    count_of (node_name b) cw2 = count_of (node_name b) cw.
Proof.
  destruct two as [El Hab], moved as (Hb & Hn & Hne).
  assert (Hput : put_node b' (cw_Nodes cw) = ([a; b'], true)).
  { rewrite El. cbn. rewrite Hb, (proj2 (String.eqb_neq _ _)) by done. cbn.
    rewrite String.eqb_refl, node_changed_name; [done|]. by rewrite Hn. }
  unfold node_labelled. rewrite Hput. cbn.
  destruct (delete_daemonset_up (objects := objects) ShortSHA b' (set_cw_Nodes [a; b'] cw))
    as [En Hd].
  set (cw0 := delete_daemonset _ _ _) in *. cbn in En, Hd.
  unfold count_of in counted. rewrite Hn in Hd.
  destruct (cw_Daemonsets cw !! node_name a) as [val|] eqn:Ev; [|done]. cbn in counted. subst val.
  cbn in Hd. destruct Hd as [Hd Ho].
  destruct (add_daemonset_up (objects := objects) env ShortSHA g owned no_nri b' cw0)
    as (cw1 & ds & E & Hn1 & Hd1 & _ & _).
  exists cw1. split; [done|].
  unfold node_DeleteFunc. rewrite Hn1, En. cbn. rewrite leaves, String.eqb_refl. cbn.
  destruct (delete_daemonset_up (objects := objects) ShortSHA a (set_cw_Nodes [b'] cw1))
    as [En2 Hd2].
  set (cw2 := delete_daemonset _ _ _) in *. cbn in En2, Hd2.
  rewrite Hd1, Hn, lookup_insert_eq in Hd2. unfold count_of in Hd2.
  rewrite Hd, lookup_insert_eq in Hd2. cbn in Hd2. destruct Hd2 as [Hd2 Ho2].
  split_and!; [done| |].
  - by rewrite Hn, Ho2, lookup_delete_eq.
  - unfold count_of. by rewrite Hd2, !lookup_insert_ne.
Qed.

(** A node that is labelled again is counted again: each run of the snitch sets a new
    random label, so although nothing else changed the node's daemon set outlives it, and
    the number of pods never reaches the number that the operator waits for. *)
Theorem relabelled_node_leaks (cw : CW) (n : Node) (obj : NodeObject) items
    (one : cw_Nodes cw = [n] ∧ cw_Daemonsets cw = {[node_name n := 1]})
    (there : is_Some (objects (cw_w cw) !! node_name n))
    (leaves : no_Name obj = nd_Name n) :
  ∃ cw1, Labelled n cw = Ok cw1 ∧
    (∀ RL : GoRangeLaw R, AreAllNodesProcessed items 1 cw1 = false) ∧
    let cw2 := Delete obj cw1 in
    cw_Nodes cw2 = [] ∧ is_Some (objects (cw_w cw2) !! node_name n).
Proof.
  destruct one as [El Hc]. unfold node_labelled.
  assert (Hput : put_node n (cw_Nodes cw) = ([n], false)).
  { rewrite El. cbn. by rewrite String.eqb_refl, node_changed_same. }
  rewrite Hput. cbn.
  destruct (add_daemonset_up (objects := objects) env ShortSHA g owned no_nri n (set_cw_Nodes [n] cw))
    as (cw1 & ds & E & Hn1 & Hd1 & _ & Ho1). cbn in Hn1, Hd1, Ho1.
  destruct there as [d Hd]. rewrite Hd in Ho1.
  unfold count_of in Hd1. cbn in Hd1. rewrite Hc, lookup_singleton_eq in Hd1. cbn in Hd1.
  rewrite insert_singleton_eq in Hd1.
  exists cw1. split; [done|]. split.
  - intros HR. unfold AreAllNodesProcessed. destruct items as [l|]; [|done].
    assert (Hr : go_range (cw_Daemonsets cw1) = [(node_name n, 2)]).
    { apply Permutation_singleton_r. by rewrite go_range_perm, Hd1, map_to_list_singleton. }
    rewrite Hr. cbn. apply andb_false_r.
  - unfold node_DeleteFunc. rewrite Hn1. cbn. rewrite leaves, String.eqb_refl.
    destruct (delete_daemonset_up (objects := objects) ShortSHA n (set_cw_Nodes [] cw1)) as [En2 Hd2].
    set (cw2 := delete_daemonset _ _ _) in *. cbn in En2, Hd2.
    rewrite Hd1, lookup_singleton_eq in Hd2. cbn in Hd2. destruct Hd2 as [_ ->].
    split; [done|]. rewrite Ho1, Hd. eauto.
Qed.

Lemma selector_BTF n : selector_of n !! BTFLabel = Some (nd_BTF n).
Proof.
  unfold selector_of. destruct (String.eqb _ "").
  - reflexivity.
  - rewrite lookup_insert_ne by done. reflexivity.
Qed.

(** The name of a daemon set has the enforcer, the runtime and its socket, but daemon sets
    select by more: a node whose kernel differs in BTF from the first of its name gets no
    daemon set, and the one there does not select it. *)
Theorem other_btf_unserved (cw : CW) (n : Node) (new : NodeObject)
    (first : served (objects := objects) ShortSHA cw n)
    (same_name : node_name (node_of new) = node_name n)
    (btf : no_Labels new !! BTFLabel ≠ Some (nd_BTF n))
    (fresh : ∀ x, x ∈ cw_Nodes cw → nd_Name x ≠ no_Name new) :
  ∃ cw' ds, Labelled (node_of new) cw = Ok cw' ∧
    cw_Nodes cw' = cw_Nodes cw ++ [node_of new] ∧
    objects (cw_w cw') = objects (cw_w cw) ∧
    objects (cw_w cw') !! node_name (node_of new) = Some ds ∧
    ¬ pt_NodeSelector (ds_Template ds) ⊆ no_Labels new.
Proof.
  destruct first as (ds & Hds & Hsel). unfold node_labelled.
  rewrite put_node_new by done. cbn.
  destruct (add_daemonset_up (objects := objects) env ShortSHA g owned no_nri (node_of new)
    (set_cw_Nodes (cw_Nodes cw ++ [node_of new]) cw)) as (cw' & d & E & Hn & _ & _ & Ho).
  cbn in Hn, Ho. rewrite same_name, Hds in Ho.
  exists cw', ds. split_and!; [done|done|done|by rewrite Ho, same_name|].
  rewrite Hsel. intros Hsub. apply btf.
  exact (lookup_weaken _ _ _ _ (selector_BTF n) Hsub).
Qed.
End plain.

(** With NRI a daemon set is created under another name than the one that is counted, so it
    stays when its last node leaves. *)
Theorem nri_daemonset_stays (cw : CW) (n : Node) (obj : NodeObject)
    (nri : im_NRI (g_Images g) = true ∧ nd_NRIRuntimeSocket n ≠ "")
    (first : cw_Nodes cw = [] ∧ cw_Daemonsets cw = ∅ ∧ objects (cw_w cw) = ∅)
    (other_runtime : daemonset_name ShortSHA (nd_Enforcer n) "nri" (nd_NRIRuntimeSocket n) ≠ node_name n)
    (leaves : no_Name obj = nd_Name n) :
  ∃ cw1, Labelled n cw = Ok cw1 ∧
    let cw2 := Delete obj cw1 in
    cw_Nodes cw2 = [] ∧
    is_Some (objects (cw_w cw2)
             !! daemonset_name ShortSHA (nd_Enforcer n) "nri" (nd_NRIRuntimeSocket n)).
Proof.
  destruct nri as [Hnri Hs], first as (El & Hc & Ho).
  assert (Hgen : ∃ ds, generateDaemonset env ShortSHA g true owned (node_name n) n = Ok ds ∧
            ds_Name ds = daemonset_name ShortSHA (nd_Enforcer n) "nri" (nd_NRIRuntimeSocket n)).
  { unfold generateDaemonset. rewrite orb_true_r, Hnri, andb_true_r. cbn.
    rewrite (proj2 (String.eqb_neq _ _)) by done. by eexists. }
  destruct Hgen as (ds & Hgen & Hname).
  unfold node_labelled. rewrite El. cbn. unfold add_daemonset.
  rewrite (api_get_up (objects := objects)). cbn. rewrite Ho, lookup_empty, Hgen. cbn.
  eexists. split; [reflexivity|]. unfold node_DeleteFunc. cbn. rewrite leaves, String.eqb_refl. cbn.
  match goal with |- context [delete_daemonset _ n ?c] =>
    destruct (delete_daemonset_up (objects := objects) ShortSHA n c) as [En2 Hd2] end.
  set (cw2 := delete_daemonset _ _ _) in *. cbn in En2, Hd2.
  rewrite Hc, lookup_insert_eq, lookup_empty in Hd2. cbn in Hd2. destruct Hd2 as [_ ->].
  split; [done|]. rewrite (api_create_up (name := ds_Name)), Ho, lookup_empty, Hname.
  rewrite lookup_delete_ne by done. rewrite lookup_insert_eq. eauto.
Qed.

(** Without init containers the operator panics: for a node with BTF it leaves out the init
    container and then sets its image. *)
Theorem initless_daemonset_panics (cw : CW) (n : Node)
    (btf : nd_BTF n ≠ "no")
    (absent : objects (cw_w cw) !! node_name n = None) :
  add_daemonset env ShortSHA g false owned n cw = Panic.
Proof.
  unfold add_daemonset. rewrite (api_get_up (objects := objects)). cbn. rewrite absent.
  unfold generateDaemonset. apply String.eqb_neq in btf. rewrite btf. reflexivity.
Qed.
End faults.

(** ** On a server that is a map *)

Section witnesses.
#[local] Existing Instance canonical_range.
#[local] Existing Instance store_api.
#[local] Existing Instance store_law.
#[local] Existing Instance store_up.
Abbreviation Store := (ClusterWatcher (gmap string DaemonSet)).
Abbreviation Relabel g := (node_labelled (W := gmap string DaemonSet) plain_env plain_sha g true true).
Abbreviation Remove := (node_DeleteFunc (W := gmap string DaemonSet) plain_sha).

Definition node_a : Node := node_of (kind_object "a" "s" "r").
Definition node_b : Node := node_of (kind_object "b" "t" "q").
Definition moved_b : Node := node_of (kind_object "b" "s" "p").

Definition labelled_state (r : Res Store) : Store :=
  match r with Ok cw => cw | Panic => NewClusterWatcher ∅ end.
Definition two_kinds : Store := labelled_state (Relabel default_Globals node_b store1).

Lemma changed_node_unserved_witness :
  ∃ cw1, Relabel default_Globals moved_b two_kinds = Ok cw1 ∧
    let cw2 := Remove (kind_object "a" "s" "r") cw1 in
    cw_Nodes cw2 = [moved_b] ∧ cw_w cw2 !! name_of plain_sha moved_b = None.
Proof.
  destruct (changed_node_unserved (objects := id) plain_env plain_sha default_Globals true eq_refl
    two_kinds node_a node_b moved_b (kind_object "a" "s" "r")) as (cw1 & H1 & H2 & H3 & _).
  - split; [vm_compute; reflexivity|done].
  - vm_compute. reflexivity.
  - split; [done|]. split; [reflexivity|]. vm_compute. discriminate.
  - reflexivity.
  - exists cw1. split; [exact H1|]. split; [exact H2|exact H3].
Defined.

Lemma first_served : served (objects := id) plain_sha store1 node_a.
Proof.
  assert (H : (λ ds, pt_NodeSelector (ds_Template ds)) <$> cw_w store1 !! name_of plain_sha node_a
              = Some (selector_of node_a)) by (vm_compute; reflexivity).
  apply fmap_Some in H as (ds & H1 & H2). exists ds. split; [exact H1|]. symmetry. exact H2.
Qed.

Lemma relabelled_node_leaks_witness :
  ∃ cw1, Relabel default_Globals node_a store1 = Ok cw1 ∧
    let cw2 := Remove (kind_object "a" "s" "r") cw1 in
    cw_Nodes cw2 = [] ∧ is_Some (cw_w cw2 !! name_of plain_sha node_a).
Proof.
  destruct (relabelled_node_leaks (objects := id) plain_env plain_sha default_Globals true eq_refl
    store1 node_a (kind_object "a" "s" "r") None) as (cw1 & H1 & _ & H2 & H3).
  - split; vm_compute; reflexivity.
  - destruct first_served as (ds & H & _). exists ds. exact H.
  - reflexivity.
  - exists cw1. split; [exact H1|]. split; [exact H2|exact H3].
Defined.

(** Like [b], with a kernel without BTF *)
Definition old_kernel : NodeObject :=
  {| no_Name := "c"; no_Labels := <[BTFLabel := "no"]> (no_Labels (kind_object "c" "s" "p"));
     no_Taints := []; no_RuntimeVersion := "containerd://1.7" |}.

Lemma other_btf_unserved_witness :
  ∃ cw' ds, Relabel default_Globals (node_of old_kernel) store1 = Ok cw' ∧
    cw_w cw' !! name_of plain_sha (node_of old_kernel) = Some ds ∧
    ¬ pt_NodeSelector (ds_Template ds) ⊆ no_Labels old_kernel.
Proof.
  destruct (other_btf_unserved (objects := id) plain_env plain_sha default_Globals true eq_refl
    store1 node_a old_kernel) as (cw' & ds & H1 & _ & _ & H2 & H3).
  - exact first_served.
  - reflexivity.
  - vm_compute. discriminate.
  - intros x Hx. assert (E : cw_Nodes store1 = [node_a]) by (vm_compute; reflexivity).
    rewrite E in Hx. apply list_elem_of_singleton in Hx as ->. done.
  - exists cw', ds. split; [exact H1|]. split; [exact H2|exact H3].
Defined.

Definition nri_Globals : Globals :=
  {| g_Images := {| im_KubeArmor := im_KubeArmor default_Images; im_Init := im_Init default_Images;
       im_Relay := im_Relay default_Images; im_Controller := im_Controller default_Images;
       im_NRI := true; im_GlobalSecrets := []; im_GlobalTolerations := [] |};
     g_Data := ∅; g_RelayEnv := ∅; g_Elastic := g_Elastic default_Globals; g_Seccomp := "false";
     g_Tls := g_Tls default_Globals; g_Port := 9443; g_Recommended := g_Recommended default_Globals |}.

Definition nri_node : Node :=
  {| nd_Name := "a"; nd_Enforcer := "bpf"; nd_Runtime := "containerd"; nd_RuntimeSocket := "s";
     nd_NRIRuntimeSocket := "var_run_nri_nri.sock"; nd_Arch := ""; nd_BTF := "yes";
     nd_ApparmorFs := ""; nd_Seccomp := "no"; nd_OCIHooks := "no" |}.

Lemma nri_daemonset_stays_witness :
  ∃ cw1, Relabel nri_Globals nri_node store0 = Ok cw1 ∧
    let cw2 := Remove (kind_object "a" "s" "r") cw1 in
    cw_Nodes cw2 = [] ∧
    is_Some (cw_w cw2 !! daemonset_name plain_sha "bpf" "nri" "var_run_nri_nri.sock").
Proof.
  apply (nri_daemonset_stays (objects := id) plain_env plain_sha nri_Globals true store0 nri_node
    (kind_object "a" "s" "r")).
  - split; [reflexivity|discriminate].
  - split; [reflexivity|]. split; reflexivity.
  - vm_compute. discriminate.
  - reflexivity.
Defined.

Lemma initless_daemonset_panics_witness :
  add_daemonset (W := gmap string DaemonSet) plain_env plain_sha default_Globals false true node_a
    store0 = Panic.
Proof.
  apply (initless_daemonset_panics (objects := id)); [discriminate|reflexivity].
Defined.
End witnesses.
