(* ===== verification/OperatorSync.v ===== *)
(** The operator's changes of the running cluster ([internal/controller/cluster.go],
    [deployControllerDeployment] of [resources.go]): images, seccomp profiles and TLS of the
    daemon sets, the relay and the controller, the configuration map, the status of the
    resource, and the recommended policies.

    Requests are behind [KubeApi], one instance for each kind of object in the same world;
    the variables are read when an update runs. *)
From Stdlib Require Import Ascii String.
From S2P Require Import Prelude GoStrings Common KubeApi AppArmorEnforcer OperatorConfig OperatorObjects.

Open Scope string_scope.
Open Scope Z_scope.

Definition RelayDeploymentName : string := "kubearmor-relay".
Definition KubeArmorControllerDeploymentName : string := "kubearmor-controller".
Definition KubeArmorConfigMapName : string := "kubearmor-config".

(** The daemon sets with KubeArmor's label *)
Class KubeList (T W : Type) := api_list : W → list T + KubeErr.
Class KubeListLaw {T W : Type} (A : KubeList T W) (name : T → string)
    (objects : W → gmap string T) : Prop :=
  list_law w (named : ∀ n x, objects w !! n = Some x → name x = n) :
    match api_list w with
    | inl l => ((λ x, (name x, x)) <$> l) ≡ₚ map_to_list (objects w)
    | inr _ => True
    end.

Record KConfigMap := { cm_Name : string; cm_Data : gmap string string }.
Definition set_cm_Data (d : gmap string string) (cm : KConfigMap) : KConfigMap :=
  {| cm_Name := cm_Name cm; cm_Data := d |}.

(** The status of a resource *)
Record ConfigObject := { cr_Name : string; cr_Phase : string; cr_Message : string }.

(** ** Workloads *)

Section workloads.
Context `{R : GoRange} {W : Type}.
Context {KD : KubeApi DaemonSet W} {KL : KubeList DaemonSet W} {KP : KubeApi Deployment W}.
Context (env : string → string).

(** What an update leaves: the world and the error it returns *)
Definition Outcome : Type := W * option KubeErr.

(** The daemon sets are updated in order, those without a result are left out; at an error
    the loop stops or goes on and returns the last one. *)
Fixpoint update_each (stop : bool) (f : DaemonSet → Res (option DaemonSet))
    (items : list DaemonSet) (w : W) (err : option KubeErr) : Res Outcome :=
  match items with
  | [] => Ok (w, err)
  | ds :: items =>
      r ← f ds;
      match r with
      | None => update_each stop f items w err
      | Some ds =>
          match api_update ds w with
          | (w, None) => update_each stop f items w err
          | (w, Some e) => if stop then Ok (w, Some e) else update_each stop f items w (Some e)
          end
      end
  end.

Definition update_listed (stop : bool) (f : DaemonSet → Res (option DaemonSet)) (w : W)
    (err : option KubeErr) : Res Outcome :=
  match api_list w with
  | inr e => Ok (w, Some e)
  | inl items => update_each stop f items w err
  end.

(** One deployment is read, changed and updated. *)
Definition update_deployment (f : Deployment → Res Deployment) (name : string) (w : W)
    (err : option KubeErr) : Res Outcome :=
  match api_get name w with
  | inr e => Ok (w, Some e)
  | inl d =>
      d ← f d;
      match api_update d w with
      | (w, None) => Ok (w, err)
      | (w, Some e) => Ok (w, Some e)
      end
  end.

Definition some_daemonset (r : Res DaemonSet) : Res (option DaemonSet) := ds ← r; Ok (Some ds).

Definition image_step (im : Images) (port : Z) (r : Res Outcome) (img : string) : Res Outcome :=
  st ← r;
  let '(w, err) := st in
  if String.eqb img "kubearmor" || String.eqb img "init" then
    update_listed false (λ ds, some_daemonset (update_daemonset env im ds)) w err
  else if String.eqb img "relay" then
    update_deployment (update_relay env im) RelayDeploymentName w err
  else if String.eqb img "controller" || String.eqb img "rbac" then
    update_deployment (update_controller env im port) KubeArmorControllerDeploymentName w err
  else Ok (w, err).

Definition UpdateKubeArmorImages (im : Images) (port : Z) (images : list string) (w : W)
    : Res Outcome := foldl (image_step im port) (Ok (w, None)) images.

Definition UpdateKubearmorSeccomp (enabled : bool) (w : W) : Res Outcome :=
  update_listed false (update_seccomp enabled) w None.

(** The relay first; at the first error it gives up. *)
Definition UpdateTlsVolumeAndVolumeMounts (add : bool) (w : W) : Res Outcome :=
  r ← update_deployment (update_tls_relay add) RelayDeploymentName w None;
  match r with
  | (w, Some e) => Ok (w, Some e)
  | (w, None) => update_listed true (λ ds, some_daemonset (update_tls_daemonset add ds)) w None
  end.

(** ** The controller *)

Definition SecurityFsSelector (with_securityfs : bool) : gmap string string :=
  if with_securityfs then {[ SecurityFsLabel := "yes" ]} else ∅.

Definition set_pt_selector (s : gmap string string) (t : PodTemplate) : PodTemplate :=
  {| pt_Labels := pt_Labels t; pt_NodeSelector := s; pt_Init := pt_Init t;
     pt_Containers := pt_Containers t; pt_Volumes := pt_Volumes t; pt_Secrets := pt_Secrets t;
     pt_Tolerations := pt_Tolerations t |}.

Definition first_args (t : PodTemplate) : list string :=
  match pt_Containers t with c :: _ => co_Args c | [] => [] end.

(** The object that is kept: its port, argument and selector are set. *)
Definition prepare_controller (with_securityfs : bool) (port : Z) (d : Deployment)
    : Res Deployment :=
  match pt_Containers (de_Template d) with
  | [] => Panic
  | c :: cs =>
      ports ← at_head (λ _, port) (co_Ports c);
      let c := set_co_ports ports
                 (set_co_args (UpdateArgsIfDefinedAndUpdated (co_Args c) [port_arg port]).1 c) in
      Ok (set_de_template (set_pt_selector (SecurityFsSelector with_securityfs)
                             (set_pt_containers (c :: cs) (de_Template d))) d)
  end.

(** A deployment without the first container's arguments of [d], or with another selector,
    gets the containers and the selector of [d].  [on_error] is the object that the client
    returns with an error. *)
Definition deployControllerDeployment (on_error : Deployment) (with_securityfs : bool) (port : Z)
    (d : Deployment) (w : W) : Res (Deployment * Outcome) :=
  d ← prepare_controller with_securityfs port d;
  let sync (c : Deployment) :=
    api_update (set_de_template
      (set_pt_selector (SecurityFsSelector with_securityfs)
         (set_pt_containers (pt_Containers (de_Template d)) (de_Template c))) c) w in
  match api_get (de_Name d) w with
  | inr NotFound => Ok (d, api_create d w)
  | r =>
      let c := match r with inl c => c | inr _ => on_error end in
      let t := de_Template c in
      let no_selector := bool_decide (pt_NodeSelector t = ∅) in
      if with_securityfs && no_selector || negb with_securityfs && negb no_selector
      then Ok (d, sync c)
      else match pt_Containers t with
      | [] => Panic
      | _ =>
          if bool_decide (first_args t = first_args (de_Template d)) then Ok (d, (w, None))
          else Ok (d, sync c)
      end
  end.

(** The object as [WatchRequiredResources] prepares it when it starts *)
Definition annotate_arg : string := "annotateExisting=true".
Definition controller_object (annotateExisting : bool) (im : Images) : Deployment :=
  let base := ["--leader-elect"; "--health-probe-bind-address=:8081"; "--annotateExisting=false"] in
  let i := im_Controller im in
  let args := (UpdateArgsIfDefinedAndUpdated base (is_Args i)).1 in
  let args := if annotateExisting
              then (UpdateArgsIfDefinedAndUpdated args [annotate_arg]).1 else args in
  {| de_Name := KubeArmorControllerDeploymentName;
     de_Template :=
       {| pt_Labels := {[ "kubearmor-app" := "kubearmor-controller" ]}; pt_NodeSelector := ∅;
          pt_Init := [];
          pt_Containers := [{| co_Name := "manager"; co_Image := controller_image env im;
            co_Pull := is_PullPolicy i; co_Args := args; co_Ports := [9443];
            co_Mounts := [{| mo_Name := "cert"; mo_Path := "/tmp/k8s-webhook-server/serving-certs";
                             mo_ReadOnly := true |}]; co_Seccomp := None |}];
          pt_Volumes := [{| vo_Name := "cert"; vo_Source := "kubearmor-controller-webhook-server-cert" |}];
          pt_Secrets := or_global (im_GlobalSecrets im)
            (UpdateImagePullSecretsIfDefinedAndUpdated [] (is_Secrets i)).1;
          pt_Tolerations := or_global (im_GlobalTolerations im)
            (UpdateTolerationsIfDefinedAndUpdated [] (is_Tolerations i)).1 |} |}.
End workloads.
Arguments Outcome : clear implicits.

(** ** The configuration map and the status *)

Section status.
Context {W : Type} {KM : KubeApi KConfigMap W} {KC : KubeApi ConfigObject W}.

(** [wait.ExponentialBackoff] with this number of steps: whether an attempt was done *)
Context (backoff : nat → (W → W * bool) → W → W * bool).

Definition status_attempt (cfg phase message : string) (w : W) : W * bool :=
  match api_get cfg w with
  | inr _ => (w, false)
  | inl c =>
      if String.eqb (cr_Phase c) phase && String.eqb (cr_Message c) message then (w, true)
      else match api_update {| cr_Name := cr_Name c; cr_Phase := phase; cr_Message := message |} w with
           | (w, None) => (w, true)
           | (w, Some _) => (w, false)
           end
  end.
Definition UpdateCrdStatus (cfg phase message : string) (w : W) : W :=
  (backoff 5 (status_attempt cfg phase message) w).1.

(** A map that is not there counts as updated. *)
Definition config_attempt (data : gmap string string) (w : W) : W * bool :=
  match api_get KubeArmorConfigMapName w with
  | inr NotFound => (w, true)
  | inr _ => (w, false)
  | inl cm =>
      match api_update (set_cm_Data data cm) w with
      | (w, None) => (w, true)
      | (w, Some _) => (w, false)
      end
  end.

Definition running_message : string := "Kubearmor Application is Up and Running".
Definition updation_failed : string := "Failed to update KubeArmor configuration".

Definition UpdateKubeArmorConfigMap (cfg : string) (data : gmap string string) (w : W) : W :=
  match backoff 5 (config_attempt data) w with
  | (w, true) => UpdateCrdStatus cfg "Running" running_message w
  | (w, false) => UpdateCrdStatus cfg "Error" updation_failed w
  end.
End status.

(** ** Recommended policies *)

(** A nil map of annotations is [None]; [cp_Rest] is all else. *)
Record ClusterPolicy := {
  cp_Name : string; cp_Annotations : option (gmap string string);
  cp_Exprs : list MatchExpression; cp_Rest : string }.

(** An entry of the embedded directory: a directory, a file that cannot be read or decoded,
    or a policy *)
Inductive PolicyEntry := EntryDir | EntryBroken | EntryPolicy (p : ClusterPolicy).

Definition empty_policy : ClusterPolicy :=
  {| cp_Name := ""; cp_Annotations := None; cp_Exprs := []; cp_Rest := "" |}.

Definition managed_by : string := "app.kubernetes.io/managed-by".
Definition operator_name : string := "kubearmor-operator".
Definition managed (p : ClusterPolicy) : bool :=
  bool_decide (default ∅ (cp_Annotations p) !! managed_by = Some operator_name).

Definition set_cp_Exprs (l : list MatchExpression) (p : ClusterPolicy) : ClusterPolicy :=
  {| cp_Name := cp_Name p; cp_Annotations := cp_Annotations p; cp_Exprs := l;
     cp_Rest := cp_Rest p |}.
(** The write to a nil map panics. *)
Definition annotate_managed (p : ClusterPolicy) : Res ClusterPolicy :=
  match cp_Annotations p with
  | None => Panic
  | Some m => Ok {| cp_Name := cp_Name p; cp_Annotations := Some (<[managed_by := operator_name]> m);
                    cp_Exprs := cp_Exprs p; cp_Rest := cp_Rest p |}
  end.

Section recommended.
Context {W : Type} {KP : KubeApi ClusterPolicy W} (rp : RecommendedPolicies).

Definition recommend_policy (csp : ClusterPolicy) (w : W) : Res W :=
  if bool_decide (cp_Name csp ∈ rp_ExcludePolicy rp) then Ok (api_delete (cp_Name csp) w).1
  else
    csp ← annotate_managed (set_cp_Exprs (rp_MatchExpressions rp) csp);
    match api_create csp w with
    | (w, Some AlreadyExists) =>
        match api_get (cp_Name csp) w with
        | inr _ => Ok w
        | inl pol =>
            if bool_decide (cp_Exprs pol = rp_MatchExpressions rp) then Ok w
            else Ok (api_update (set_cp_Exprs (rp_MatchExpressions rp) pol) w).1
        end
    | (w, _) => Ok w
    end.

Definition withdraw_policy (csp : ClusterPolicy) (w : W) : W :=
  match api_get (cp_Name csp) w with
  | inl pol => if managed pol then (api_delete (cp_Name csp) w).1 else w
  | inr _ => w
  end.

Definition watch_entry (r : Res W) (e : PolicyEntry) : Res W :=
  w ← r;
  match e with
  | EntryBroken => Ok w
  | EntryDir => if rp_Enable rp then recommend_policy empty_policy w else Ok w
  | EntryPolicy csp => if rp_Enable rp then recommend_policy csp w else Ok (withdraw_policy csp w)
  end.

(** [policies] is the directory, or an error. *)
Definition WatchRecommendedPolicies (policies : option (list PolicyEntry)) (w : W)
    : Res (W * bool) :=
  match policies with
  | None => Ok (w, false)
  | Some l => w ← foldl watch_entry (Ok w) l; Ok (w, true)
  end.
End recommended.
