(* ===== verification/OperatorSyncProps.v ===== *)
(** The operator's changes of the running cluster: a new image of the resource reaches every
    daemon set, the recommended policies are those of the settings, the configuration map and
    its status; and the controller, whose updates are taken back. *)
From Stdlib Require Import Ascii String.
From S2P Require Import Prelude GoStrings Common KubeApi AppArmorEnforcer OperatorConfig OperatorConfigProps OperatorObjects OperatorNodes OperatorObjectsProps OperatorSync.

Open Scope string_scope.
Open Scope list_scope.
Open Scope Z_scope.

(** ** Templates under updates *)

Lemma GenerateNRIvol_shape s :
  GenerateNRIvol s = ([], []) ∨ ∃ v m, GenerateNRIvol s = ([v], [m]).
Proof.
  unfold GenerateNRIvol, socket_volume, socket_mount. destruct (String.eqb s ""); [by left|].
  destruct (find_socket "nri" s); eauto.
Qed.

(** A toggled template is well-formed again, with the first container's image. *)
Lemma toggle_wf add s t c cs :
  pt_Containers t = c :: cs → template_wf t →
  ∃ t' c', toggle_volume add (GenerateNRIvol s).1 (GenerateNRIvol s).2 t = Ok t' ∧
    template_wf t' ∧ pt_Containers t' = c' :: cs ∧ co_Image c' = co_Image c.
Proof.
  intros Hc (c1 & cs1 & E & Hv & Hm). rewrite Hc in E. injection E as <- <-.
  unfold toggle_volume, AddOrRemoveVolume, AddOrRemoveVolumeMount. rewrite Hc.
  destruct (GenerateNRIvol_shape s) as [->|(v & m & ->)]; cbn.
  - rewrite !AddOrRemove_none. cbn. eexists _, _. split_and!; [reflexivity| |reflexivity|reflexivity].
    exists (set_co_mounts (co_Mounts c) c), cs. by split_and!.
  - destruct (AddOrRemove_one vo_Name add v (pt_Volumes t) Hv) as (vols & Ev & Pv).
    destruct (AddOrRemove_one mo_Name add m (co_Mounts c) Hm) as (mnts & Em & Pm).
    rewrite Em. cbn. rewrite Ev. cbn. eexists _, _. split_and!; [reflexivity| |reflexivity|reflexivity].
    eexists _, cs. split_and!; [reflexivity|cbn; by eapply removed_NoDup..].
Qed.

(** What an update of the image leaves of a daemon set *)
Definition runs (img : string) (ds : DaemonSet) : Prop :=
  ∃ c cs, pt_Containers (ds_Template ds) = c :: cs ∧ co_Image c = img.
Definition daemonset_wf (ds : DaemonSet) : Prop := template_wf (ds_Template ds).

Lemma update_daemonset_wf env im ds :
  daemonset_wf ds →
  ∃ ds', update_daemonset env im ds = Ok ds' ∧ ds_Name ds' = ds_Name ds ∧ daemonset_wf ds' ∧
         runs (kubearmor_image env im) ds'.
Proof.
  intros (c & cs & Hc & Hv & Hm). unfold update_daemonset, take_image. rewrite Hc. cbn.
  set (t1 := set_pt_access _ _ _).
  assert (Ht : template_wf (take_init_image env im t1)).
  { unfold take_init_image. destruct (pt_Init t1); eexists _, cs; split_and!; (reflexivity || done). }
  assert (Hc1 : pt_Containers (take_init_image env im t1) = set_co_args (is_Args (im_KubeArmor im))
            (set_co_image (kubearmor_image env im) (is_PullPolicy (im_KubeArmor im)) c) :: cs).
  { unfold take_init_image. by destruct (pt_Init t1). }
  match goal with |- context [GenerateNRIvol ?s] => set (nri := s) end.
  rewrite (surjective_pairing (GenerateNRIvol nri)).
  destruct (toggle_wf (im_NRI im) nri _ _ _ Hc1 Ht) as (t' & c' & -> & Hwf & Hc' & Hi).
  cbn. eexists. split; [reflexivity|]. split_and!; [done|done|]. by exists c', cs.
Qed.

(** ** Daemon sets that are updated one by one *)

Section workloads.
Context `{R : GoRange} {W : Type}.
Context {KD : KubeApi DaemonSet W} {KL : KubeList DaemonSet W} {KP : KubeApi Deployment W}.
Context {objects : W → gmap string DaemonSet}.
Context `{LD : !KubeApiLaw KD ds_Name objects, UD : !KubeApiUp KD, LL : !KubeListLaw KL ds_Name objects}.

Lemma api_update_there x y w :
  objects w !! ds_Name x = Some y →
  ∃ w', api_update x w = (w', None) ∧ objects w' = <[ds_Name x := x]> (objects w).
Proof.
  intros Hy. pose proof (update_law (objects := objects) x w) as H. pose proof (update_up x w) as Hu.
  destruct (api_update x w) as [w' [e|]]; cbn in *.
  - destruct H as [_ He]. destruct Hu as [?|[= ->]]; [done|]. by rewrite He in Hy.
  - exists w'. by destruct H.
Qed.

(** An update [f] that keeps names and [P], and establishes [Q] *)
Context (f : DaemonSet → Res (option DaemonSet)) (P Q : DaemonSet → Prop).
Context (f_ok : ∀ ds, P ds → ∃ ds', f ds = Ok (Some ds') ∧ ds_Name ds' = ds_Name ds ∧ P ds' ∧ Q ds').

Lemma update_each_up stop items w err :
  NoDup (ds_Name <$> items) →
  (∀ ds, ds ∈ items → objects w !! ds_Name ds = Some ds ∧ P ds) →
  ∃ w', update_each stop f items w err = Ok (w', err) ∧
    (∀ n, n ∈ ds_Name <$> items → ∃ ds, objects w' !! n = Some ds ∧ ds_Name ds = n ∧ P ds ∧ Q ds) ∧
    (∀ n, n ∉ ds_Name <$> items → objects w' !! n = objects w !! n).
Proof.
  revert w. induction items as [|ds items IH]; intros w Hnd Hin.
  - exists w. cbn. split_and!; [done| |done]. by intros n ?%elem_of_nil.
  - cbn in Hnd |- *. apply list.NoDup_cons in Hnd as [Hni Hnd].
    destruct (Hin ds) as [Hds HP]; [left|].
    destruct (f_ok ds HP) as (ds' & -> & Hn & HP' & HQ). cbn.
    rewrite <- Hn in Hds. destruct (api_update_there ds' ds w Hds) as (w1 & -> & Ho).
    destruct (IH w1 Hnd) as (w2 & E & H1 & H2).
    { intros x Hx. rewrite Ho, Hn, lookup_insert_ne; [apply Hin; by right|].
      intros E. apply Hni. rewrite E. by apply list_elem_of_fmap_2. }
    exists w2. split; [done|]. split.
    + intros n [->|Hn']%elem_of_cons; [|by apply H1].
      rewrite H2, Ho, Hn, lookup_insert_eq by done. eauto 6.
    + intros n [Hne Hn']%not_elem_of_cons. rewrite H2, Ho, Hn, lookup_insert_ne by done. done.
Qed.

Lemma update_listed_up stop w items err :
  api_list w = inl items → (∀ n ds, objects w !! n = Some ds → ds_Name ds = n ∧ P ds) →
  ∃ w', update_listed stop f w err = Ok (w', err) ∧
    (∀ n, is_Some (objects w' !! n) ↔ is_Some (objects w !! n)) ∧
    (∀ n ds, objects w' !! n = Some ds → ds_Name ds = n ∧ P ds ∧ Q ds).
Proof.
  intros Hl HP.
  pose proof (list_law (objects := objects) w (λ n ds H, proj1 (HP n ds H))) as Hp. rewrite Hl in Hp.
  unfold update_listed. rewrite Hl.
  assert (Hkeys : (ds_Name <$> items) = ((λ x, (ds_Name x, x)) <$> items).*1).
  { rewrite <- list_fmap_compose. by apply list_fmap_ext. }
  assert (Hin : ∀ n, n ∈ ds_Name <$> items ↔ is_Some (objects w !! n)).
  { intros n. rewrite Hkeys, Hp. split.
    - intros ([? ds] & -> & Hx%elem_of_map_to_list)%list_elem_of_fmap. eauto.
    - intros [ds Hds]. apply list_elem_of_fmap. exists (n, ds).
      split; [done|]. by apply elem_of_map_to_list. }
  destruct (update_each_up stop items w err) as (w' & E & H1 & H2).
  - rewrite Hkeys, Hp. apply NoDup_fst_map_to_list.
  - intros ds Hds. assert (Hds' : (ds_Name ds, ds) ∈ (λ x, (ds_Name x, x)) <$> items)
      by (by apply (list_elem_of_fmap_2 (λ x, (ds_Name x, x)))).
    rewrite Hp in Hds'. apply elem_of_map_to_list in Hds'. split; [done|]. by apply (HP _ _ Hds').
  - exists w'. split; [done|]. split.
    + intros n. destruct (decide (n ∈ ds_Name <$> items)) as [Hn|Hn].
      * destruct (H1 n Hn) as (ds & -> & _). split; [|eauto]. intros _. by apply Hin.
      * by rewrite H2.
    + intros n ds Hds. destruct (decide (n ∈ ds_Name <$> items)) as [Hn|Hn].
      * destruct (H1 n Hn) as (d & Hd & HQ). by simplify_eq.
      * rewrite H2 in Hds by done. destruct Hn. apply Hin. eauto.
Qed.
End workloads.

Section images.
Context `{R : GoRange} {W : Type}.
Context {KD : KubeApi DaemonSet W} {KL : KubeList DaemonSet W} {KP : KubeApi Deployment W}.
Context {objects : W → gmap string DaemonSet}.
Context `{LD : !KubeApiLaw KD ds_Name objects, UD : !KubeApiUp KD, LL : !KubeListLaw KL ds_Name objects}.
Context (listed : ∀ w, ∃ items, api_list w = inl items).
Context (env : string → string).

Definition all_wf (w : W) : Prop :=
  ∀ n ds, objects w !! n = Some ds → ds_Name ds = n ∧ daemonset_wf ds.

Lemma image_step_daemonsets im port w img :
  img = "kubearmor" ∨ img = "init" → all_wf w →
  ∃ w', image_step env im port (Ok (w, None)) img = Ok (w', None) ∧ all_wf w' ∧
    (∀ n, is_Some (objects w' !! n) ↔ is_Some (objects w !! n)) ∧
    (∀ n ds, objects w' !! n = Some ds → runs (kubearmor_image env im) ds).
Proof.
  intros Hi Hwf. destruct (listed w) as [items Hl].
  destruct (update_listed_up (objects := objects)
    (λ ds, some_daemonset (update_daemonset env im ds)) daemonset_wf
    (runs (kubearmor_image env im))) with (w := w) (items := items) (stop := false) (err := @None KubeErr)
    as (w' & E & Hk & HQ).
  - intros ds Hds. destruct (update_daemonset_wf env im ds Hds) as (ds' & -> & ?). eauto.
  - done.
  - exact Hwf.
  - exists w'. split; [|split_and!; [|done|]; intros n ds H; destruct (HQ n ds H) as (? & ? & ?); by auto].
    unfold image_step. cbn. by destruct Hi as [-> | ->].
Qed.

Lemma images_rolled_out im port names w :
  names ≠ [] → (∀ img, img ∈ names → img = "kubearmor" ∨ img = "init") → all_wf w →
  ∃ w', UpdateKubeArmorImages env im port names w = Ok (w', None) ∧
    (∀ n, is_Some (objects w' !! n) ↔ is_Some (objects w !! n)) ∧
    (∀ n ds, objects w' !! n = Some ds → runs (kubearmor_image env im) ds).
Proof.
  unfold UpdateKubeArmorImages. revert w.
  induction names as [|img names IH]; intros w Hne Hn Hwf; [done|]. cbn [foldl].
  destruct (image_step_daemonsets im port w img) as (w1 & -> & Hwf1 & Hk1 & Hr1); [apply Hn; left|done|].
  destruct names as [|img' names].
  - exists w1. by split_and!.
  - destruct (IH w1) as (w2 & -> & Hk2 & Hr2); [done|intros x Hx; apply Hn; by right|done|].
    exists w2. split_and!; [done| |done]. intros n. by rewrite Hk2.
Qed.

(** The names that [UpdateImages] reports *)
Lemma UpdateImages_names cfg im :
  (update_image (im_Relay cfg) (im_Relay im)).2 = false →
  (update_image (im_Controller cfg) (im_Controller im)).2 = false →
  (update_global cfg (im_GlobalSecrets im, im_GlobalTolerations im)).2 = false →
  (update_kubearmor cfg (im_KubeArmor im, im_NRI im)).2 = true →
  ∃ rest, (UpdateImages cfg im).2 = "kubearmor" :: rest ∧ (∀ x, x ∈ rest → x = "init").
Proof.
  unfold UpdateImages.
  destruct (update_kubearmor _ _) as [[? ?] u1], (update_image (im_Init cfg) _) as [? u2],
    (update_image (im_Relay cfg) _) as [? u3], (update_image (im_Controller cfg) _) as [? u4],
    (update_global _ _) as [[? ?] u5]. cbn. intros -> -> -> ->. cbn.
  exists (named u2 "init"). split; [by rewrite !app_nil_r|].
  intros x. destruct u2; cbn; [by intros ?%list_elem_of_singleton|by intros ?%elem_of_nil].
Qed.

Lemma new_image_taken cfg i nri :
  is_Image (im_KubeArmor cfg) ≠ "" → is_Image (im_KubeArmor cfg) ≠ is_Image i →
  (update_kubearmor cfg (i, nri)).2 = true ∧
  is_Image (update_kubearmor cfg (i, nri)).1.1 = is_Image (im_KubeArmor cfg).
Proof.
  intros H0 Hne. unfold update_kubearmor, update_image, update_Image, or_else, on,
    UpdateIfDefinedAndUpdated. cbn.
  rewrite (proj2 (String.eqb_neq _ _) H0), (proj2 (String.eqb_neq _ _) Hne). done.
Qed.

End images.

(** ** Recommended policies *)

Section recommended.
Context {W : Type} {KP : KubeApi ClusterPolicy W} {objects : W → gmap string ClusterPolicy}.
Context `{LP : !KubeApiLaw KP cp_Name objects, UP : !KubeApiUp KP}.
Context (rp : RecommendedPolicies).

(** A new policy, as the operator creates it *)
Definition created_policy (csp : ClusterPolicy) : ClusterPolicy :=
  {| cp_Name := cp_Name csp;
     cp_Annotations := (λ m, <[managed_by := operator_name]> m) <$> cp_Annotations csp;
     cp_Exprs := rp_MatchExpressions rp; cp_Rest := cp_Rest csp |}.

(** What is to be in the cluster for a policy, given what is there *)
Definition recommended (csp : ClusterPolicy) (old : option ClusterPolicy) : option ClusterPolicy :=
  if rp_Enable rp then
    if bool_decide (cp_Name csp ∈ rp_ExcludePolicy rp) then None
    else Some (match old with
               | Some pol => set_cp_Exprs (rp_MatchExpressions rp) pol
               | None => created_policy csp end)
  else match old with
       | Some pol => if managed pol then None else Some pol
       | None => None end.

(** Objects are kept under their names. *)
Definition by_name (w : W) : Prop := ∀ n p, objects w !! n = Some p → cp_Name p = n.

Lemma by_name_insert w w' p : by_name w → objects w' = <[cp_Name p := p]> (objects w) → by_name w'.
Proof.
  intros H E n q. rewrite E. destruct (decide (cp_Name p = n)) as [<-|Hne].
  - rewrite lookup_insert_eq. by intros [= <-].
  - rewrite lookup_insert_ne by done. apply H.
Qed.

Lemma by_name_delete w w' n : by_name w → objects w' = delete n (objects w) → by_name w'.
Proof. intros H E m q. rewrite E. intros [_ Hq]%lookup_delete_Some. by apply H. Qed.

Lemma recommend_create csp w m :
  by_name w → cp_Annotations csp = Some m →
  bool_decide (cp_Name csp ∈ rp_ExcludePolicy rp) = false →
  ∃ w', recommend_policy rp csp w = Ok w' ∧ by_name w' ∧
    objects w' = <[cp_Name csp := match objects w !! cp_Name csp with
                   | Some pol => set_cp_Exprs (rp_MatchExpressions rp) pol
                   | None => created_policy csp end]> (objects w).
Proof.
  intros Hb Hm Hx. unfold recommend_policy. rewrite Hx. unfold annotate_managed. cbn. rewrite Hm. cbn.
  set (p := {| cp_Name := cp_Name csp |}).
  assert (Ep : p = created_policy csp) by (unfold p, created_policy; by rewrite Hm).
  pose proof (create_law (objects := objects) p w) as H. pose proof (create_up p w) as Hu.
  destruct (api_create p w) as [w1 [e|]]; cbn in H, Hu.
  - destruct Hu as [?|[= ->]]; [done|]. destruct H as [Ho He].
    destruct (He eq_refl) as [pol Hpol]. rewrite (api_get_up (objects := objects)), Ho, Hpol.
    assert (Hn : cp_Name pol = cp_Name csp) by (by apply Hb in Hpol).
    destruct (decide (cp_Exprs pol = rp_MatchExpressions rp)) as [Ee|Ee];
      [rewrite bool_decide_true by done|rewrite bool_decide_false by done].
    + exists w1. split; [done|]. assert (Es : set_cp_Exprs (rp_MatchExpressions rp) pol = pol).
      { destruct pol. unfold set_cp_Exprs. cbn in Ee |- *. by rewrite <- Ee. }
      rewrite Es, insert_id by done. split; [|done]. intros n q. rewrite Ho. apply Hb.
    + eexists. split; [reflexivity|].
      assert (E : objects (api_update (set_cp_Exprs (rp_MatchExpressions rp) pol) w1).1
                = <[cp_Name csp := set_cp_Exprs (rp_MatchExpressions rp) pol]> (objects w)).
      { rewrite (api_update_up (name := cp_Name)). cbn. by rewrite Hn, Ho, Hpol. }
      split; [|done].
      apply (by_name_insert w _ (set_cp_Exprs (rp_MatchExpressions rp) pol)); [done|].
      rewrite E. cbn. by rewrite Hn.
  - destruct H as [Hnone Ho]. exists w1. split; [done|]. change (cp_Name p) with (cp_Name csp) in *.
    rewrite Hnone, <- Ep. split; [by apply (by_name_insert w _ p)|done].
Qed.

Lemma entry_recommended csp w :
  by_name w → is_Some (cp_Annotations csp) →
  ∃ w', watch_entry rp (Ok w) (EntryPolicy csp) = Ok w' ∧ by_name w' ∧
    objects w' !! cp_Name csp = recommended csp (objects w !! cp_Name csp) ∧
    (∀ n, n ≠ cp_Name csp → objects w' !! n = objects w !! n).
Proof.
  intros Hb [m Hm]. unfold watch_entry, recommended. cbn.
  destruct (rp_Enable rp).
  - destruct (bool_decide (cp_Name csp ∈ rp_ExcludePolicy rp)) eqn:Hx.
    + unfold recommend_policy. rewrite Hx. eexists. split; [reflexivity|].
      pose proof (api_delete_up (objects := objects) (cp_Name csp) w) as Ho. rewrite Ho. split_and!.
      * by eapply by_name_delete.
      * apply lookup_delete_eq.
      * intros n Hn. by rewrite lookup_delete_ne.
    + destruct (recommend_create csp w m Hb Hm Hx) as (w' & E & Hb' & Ho).
      exists w'. split_and!; [done|done|by rewrite Ho, lookup_insert_eq|].
      intros n Hn. by rewrite Ho, lookup_insert_ne.
  - unfold withdraw_policy. rewrite (api_get_up (objects := objects)).
    destruct (objects w !! cp_Name csp) as [pol|] eqn:E; [|exists w; by rewrite E].
    destruct (managed pol); [|exists w; by rewrite E].
    eexists. split; [reflexivity|].
    pose proof (api_delete_up (objects := objects) (cp_Name csp) w) as Ho. rewrite Ho. split_and!.
    + by eapply by_name_delete.
    + apply lookup_delete_eq.
    + intros n Hn. by rewrite lookup_delete_ne.
Qed.

(** C31: A round over the recommended policies puts the cluster into the state that the settings ask
    for: if they are on, each policy that is not excluded is there with the settings'
    selector (a new one marked as the operator's), and each excluded name is gone, whoever
    made it; if they are off, the operator's own ones are gone and others stay; policies
    with other names are never touched. *)
Theorem recommended_enforced (policies : list ClusterPolicy) (w : W)
    (names : NoDup (cp_Name <$> policies))
    (annotated : ∀ csp, csp ∈ policies → is_Some (cp_Annotations csp))
    (named : by_name w) :
  ∃ w', WatchRecommendedPolicies rp (Some (EntryPolicy <$> policies)) w = Ok (w', true) ∧
    (∀ csp, csp ∈ policies →
       objects w' !! cp_Name csp = recommended csp (objects w !! cp_Name csp)) ∧
    (∀ n, n ∉ cp_Name <$> policies → objects w' !! n = objects w !! n).
Proof.
  cut (∃ w', foldl (watch_entry rp) (Ok w) (EntryPolicy <$> policies) = Ok w' ∧
    (∀ csp, csp ∈ policies → objects w' !! cp_Name csp = recommended csp (objects w !! cp_Name csp)) ∧
    (∀ n, n ∉ cp_Name <$> policies → objects w' !! n = objects w !! n)).
  { intros (w' & E & H). exists w'. unfold WatchRecommendedPolicies. by rewrite E. }
  revert w named. induction policies as [|csp policies IH]; intros w named.
  - exists w. split_and!; [done|by intros ? ?%elem_of_nil|done].
  - cbn in names. apply list.NoDup_cons in names as [Hni Hnd].
    destruct (entry_recommended csp w named) as (w1 & E1 & Hb1 & Hc1 & Ho1); [apply annotated; left|].
    cbn [fmap list_fmap foldl]. rewrite E1.
    destruct (IH Hnd) with (w := w1) as (w2 & E2 & Hc2 & Ho2); [|done|].
    { intros x Hx. apply annotated. by right. }
    exists w2. split; [done|]. split.
    + intros x [->|Hx]%elem_of_cons; [by rewrite Ho2, Hc1|].
      rewrite Hc2 by done. rewrite Ho1; [done|]. intros Ex. apply Hni. rewrite <- Ex.
      by apply list_elem_of_fmap_2.
    + intros n [Hne Hn]%not_elem_of_cons. by rewrite Ho2, Ho1.
Qed.
End recommended.

(** ** The configuration map *)

Section config_map.
Context {W : Type} {KM : KubeApi KConfigMap W} {KC : KubeApi ConfigObject W}.
Context {maps : W → gmap string KConfigMap} {configs : W → gmap string ConfigObject}.
Context `{LM : !KubeApiLaw KM cm_Name maps, LC : !KubeApiLaw KC cr_Name configs}.
Context `{AM : !KubeApart KM configs, AC : !KubeApart KC maps}.
Context (backoff : nat → (W → W * bool) → W → W * bool).

(** An attempt that is done ends the backoff; it gives up when no attempt can be. *)
Context (backoff_done : ∀ k c w, (c w).2 = true → backoff (S k) c w = c w).
Context (backoff_refused : ∀ k c w, (∀ w, c w = (w, false)) → backoff k c w = (w, false)).

Definition has_status (phase message : string) (c : ConfigObject) : Prop :=
  cr_Phase c = phase ∧ cr_Message c = message.

Lemma status_set {UC : KubeApiUp KC} cfg phase message w c :
  configs w !! cfg = Some c → cr_Name c = cfg →
  (∃ c', configs (UpdateCrdStatus backoff cfg phase message w) !! cfg = Some c' ∧
         has_status phase message c') ∧
  maps (UpdateCrdStatus backoff cfg phase message w) = maps w.
Proof.
  intros Hc Hn. unfold UpdateCrdStatus.
  assert (Hd : (status_attempt cfg phase message w).2 = true ∧
    (∃ c', configs (status_attempt cfg phase message w).1 !! cfg = Some c' ∧ has_status phase message c') ∧
    maps (status_attempt cfg phase message w).1 = maps w).
  { unfold status_attempt. rewrite (api_get_up (objects := configs)), Hc.
    destruct (String.eqb (cr_Phase c) phase && String.eqb (cr_Message c) message) eqn:E.
    - apply andb_true_iff in E as [E1%String.eqb_eq E2%String.eqb_eq]. cbn.
      split_and!; [done| |done]. exists c. by split.
    - set (c1 := {| cr_Name := cr_Name c |}).
      pose proof (update_law (objects := configs) c1 w) as H. pose proof (update_up c1 w) as Hu.
      pose proof (apart_update (view := maps) c1 w) as Ha. destruct (api_update c1 w) as [w1 [e|]]; cbn in *.
      + destruct H as [_ He]. destruct Hu as [?|[= ->]]; [done|].
        rewrite Hn, Hc in He. by specialize (He eq_refl).
      + destruct H as [_ ->]. split_and!; [done| |done]. exists c1.
        rewrite Hn, lookup_insert_eq. by split. }
  destruct Hd as (Hd & Hs & Hm). by rewrite backoff_done.
Qed.

(** What the operator reports of the configuration map: on a server that is up, the map gets
    the settings' data, and the resource the status [Running]; it gets that also when there is
    no map; when all requests for maps are refused, nothing is written and the status is
    [Error]. *)
Theorem config_map_reported {UC : KubeApiUp KC} (cfg : string) (data : gmap string string) (w : W)
    (c : ConfigObject) (there : configs w !! cfg = Some c ∧ cr_Name c = cfg)
    (named : ∀ n cm, maps w !! n = Some cm → cm_Name cm = n) :
  let w' := UpdateKubeArmorConfigMap backoff cfg data w in
  (KubeApiUp KM →
     maps w' = alter (set_cm_Data data) KubeArmorConfigMapName (maps w) ∧
     ∃ c', configs w' !! cfg = Some c' ∧ has_status "Running" running_message c') ∧
  ((∀ n w, api_get (T := KConfigMap) n w = inr Refused) →
     maps w' = maps w ∧ ∃ c', configs w' !! cfg = Some c' ∧ has_status "Error" updation_failed c').
Proof.
  destruct there as [Hc Hn]. unfold UpdateKubeArmorConfigMap. split.
  - intros UM.
    assert (Hd : (config_attempt data w).2 = true ∧
      maps (config_attempt data w).1 = alter (set_cm_Data data) KubeArmorConfigMapName (maps w) ∧
      configs (config_attempt data w).1 = configs w).
    { unfold config_attempt. rewrite (api_get_up (objects := maps)).
      destruct (maps w !! KubeArmorConfigMapName) as [cm|] eqn:Ecm.
      2:{ cbn. split_and!; [done| |done]. by rewrite alter_alt, Ecm. }
      set (cm' := set_cm_Data data cm).
      assert (Hk : cm_Name cm' = KubeArmorConfigMapName) by (by apply named in Ecm).
      pose proof (update_law (objects := maps) cm' w) as H. pose proof (update_up cm' w) as Hu.
      pose proof (apart_update (view := configs) cm' w) as Ha. rewrite Hk in H.
      destruct (api_update cm' w) as [w1 [e|]]; cbn in H, Hu, Ha |- *.
      - destruct H as [_ He]. destruct Hu as [?|[= ->]]; [done|].
        rewrite Ecm in He. by specialize (He eq_refl).
      - destruct H as [_ ->]. split_and!; [done| |done]. by rewrite alter_alt, Ecm. }
    destruct Hd as (Hd & Hm & Hcs). rewrite backoff_done by done.
    destruct (config_attempt data w) as [w1 b]. cbn in *. subst b. rewrite <- Hcs in Hc.
    destruct (status_set cfg "Running" running_message w1 c Hc Hn) as [Hs ->]. by rewrite Hm.
  - intros Hr. rewrite backoff_refused.
    + destruct (status_set cfg "Error" updation_failed w c Hc Hn) as [Hs ->]. done.
    + intros w1. unfold config_attempt. by rewrite Hr.
Qed.
End config_map.

(** ** The controller *)

Lemma last_value_single k kv l :
  last_value k (l ++ [kv]) = if decide (kv.1 = k) then Some kv.2 else last_value k l.
Proof.
  unfold last_value. rewrite list.filter_app. destruct (decide (kv.1 = k)) as [E|E].
  - rewrite filter_cons_True, filter_nil by done. by rewrite last_snoc.
  - rewrite filter_cons_False, filter_nil by done. by rewrite app_nil_r.
Qed.

Lemma parsed_port port : parsed [port_arg port] = [("webhook-port", Itoa port)].
Proof.
  unfold parsed. cbn [omap list_omap].
  assert (E : ParseArgument (port_arg port) = Some ("webhook-port", Itoa port)).
  { unfold ParseArgument. apply cut_label_Some. by split. }
  by rewrite E.
Qed.

(** The value of a key in a list of arguments that was merged *)
Definition arg_value (k : string) (args : list string) : option string := last_value k (parsed args).

Section controller.
Context `{R : GoRange, !GoRangeLaw R} {W : Type} {KP : KubeApi Deployment W}.
Context {KD : KubeApi DaemonSet W} {KL : KubeList DaemonSet W}.
Context {deps : W → gmap string Deployment}.
Context `{LP : !KubeApiLaw KP de_Name deps, UP : !KubeApiUp KP}.
Context (env : string → string) (on_error : Deployment).
Abbreviation Merge d input := (UpdateArgsIfDefinedAndUpdated d input).1.

Lemma merged_value d input k :
  input ≠ [] → arg_value k (Merge d input) = last_value k (parsed d ++ parsed input).
Proof.
  intros Hi. unfold arg_value. rewrite UpdateArgs_eq by done. cbn [fst]. rewrite <- argMap_last.
  rewrite <- (parsed_finalArgs (argMap d input)) at 2 by apply argMap_keys.
  rewrite insert_all_last, lookup_empty. by destruct (last_value _ _).
Qed.

Lemma port_merged args port : arg_value "annotateExisting" (Merge args [port_arg port])
  = arg_value "annotateExisting" args.
Proof. by rewrite merged_value, parsed_port, last_value_single by done. Qed.

(** The object that [WatchRequiredResources] keeps: prepared anew in each round *)
Inductive kept (im0 : Images) : Deployment → Prop :=
| kept_start : kept im0 (controller_object env true im0)
| kept_round d d' fs port : kept im0 d → prepare_controller fs port d = Ok d' → kept im0 d'.

Definition annotating (im0 : Images) (d : Deployment) : Prop :=
  de_Name d = KubeArmorControllerDeploymentName ∧
  ∃ c, pt_Containers (de_Template d) = [c] ∧ co_Image c = controller_image env im0 ∧
       co_Ports c ≠ [] ∧ arg_value "annotateExisting" (co_Args c) = Some "true".

Lemma prepare_annotating im0 fs port d :
  annotating im0 d → ∃ d', prepare_controller fs port d = Ok d' ∧ annotating im0 d'.
Proof.
  intros (Hn & c & Hc & Hi & Hp & Ha). unfold prepare_controller. rewrite Hc.
  destruct (co_Ports c) as [|p ps] eqn:Ep; [done|]. cbn. eexists. split; [reflexivity|].
  split; [done|]. eexists. split; [reflexivity|]. split_and!; [done|done|].
  etrans; [apply port_merged|done].
Qed.

Lemma kept_annotating im0 d : kept im0 d → annotating im0 d.
Proof.
  induction 1 as [|d d' fs port _ IH Hd].
  - split; [done|]. eexists. split; [reflexivity|]. split_and!; [done|done|].
    cbn [co_Args]. rewrite merged_value by done.
    replace (parsed [annotate_arg]) with [("annotateExisting", "true")] by done.
    by rewrite last_value_single.
  - destruct (prepare_annotating im0 fs port d IH) as (d2 & E & H2). congruence.
Qed.

Lemma deployment_updated (d : Deployment) s w :
  deps w !! de_Name d = Some s →
  ∃ w', api_update d w = (w', None) ∧ deps w' = <[de_Name d := d]> (deps w).
Proof.
  intros Hs. pose proof (update_law (objects := deps) d w) as H. pose proof (update_up d w) as Hu.
  destruct (api_update d w) as [w' [e|]]; cbn in *.
  - destruct H as [_ He]. destruct Hu as [?|[= ->]]; [done|]. by rewrite He in Hs.
  - exists w'. by destruct H.
Qed.

(** The update of the controller's image, on a deployment with the manager alone *)
Lemma controller_rolled_out im port w s c :
  deps w !! KubeArmorControllerDeploymentName = Some s →
  de_Name s = KubeArmorControllerDeploymentName → pt_Containers (de_Template s) = [c] →
  co_Name c = "manager" → co_Ports c ≠ [] →
  ∃ w1 s1 c1, UpdateKubeArmorImages env im port ["controller"] w = Ok (w1, None) ∧
    deps w1 !! KubeArmorControllerDeploymentName = Some s1 ∧
    de_Name s1 = KubeArmorControllerDeploymentName ∧
    pt_Containers (de_Template s1) = [c1] ∧ co_Image c1 = controller_image env im ∧
    co_Args c1 = Merge (is_Args (im_Controller im)) [port_arg port].
Proof.
  intros Hs Hn Hc Hm Hp. destruct (co_Ports c) as [|p ps] eqn:Ep; [done|].
  unfold UpdateKubeArmorImages. cbn. unfold update_deployment.
  rewrite (api_get_up (objects := deps)), Hs. unfold update_controller. rewrite Hc. cbn.
  unfold update_manager. rewrite Hm. cbn. rewrite Ep. cbn.
  match goal with |- context [api_update ?d w] => set (d1 := d) end.
  assert (Hs' : deps w !! de_Name d1 = Some s) by (unfold d1; cbn; by rewrite Hn).
  destruct (deployment_updated d1 s w Hs') as (w1 & -> & Hw1).
  eexists w1, d1, _. split; [reflexivity|]. unfold d1 in *. cbn in *. rewrite Hw1, Hn.
  rewrite lookup_insert_eq. by split_and!.
Qed.

(** With [--annotateExisting] the operator takes back updates of the controller: the new image
    from the resource reaches the controller's deployment, but the next round of the
    operator's loop finds other arguments there than those it prepared when it started, and
    sets the container back, with the image of that time. *)
Theorem controller_update_reverted (im0 im : Images) (d s : Deployment) (c : KContainer)
    (fs : bool) (port : Z) (w : W)
    (started : kept im0 d)
    (stored : deps w !! KubeArmorControllerDeploymentName = Some s ∧
       de_Name s = KubeArmorControllerDeploymentName)
    (manager : pt_Containers (de_Template s) = [c] ∧ co_Name c = "manager" ∧ co_Ports c ≠ [])
    (setting : arg_value "annotateExisting" (is_Args (im_Controller im)) ≠ Some "true") :
  ∃ w1 s1 c1 d' w2 s2 c2,
    UpdateKubeArmorImages env im port ["controller"] w = Ok (w1, None) ∧
    deps w1 !! KubeArmorControllerDeploymentName = Some s1 ∧
    pt_Containers (de_Template s1) = [c1] ∧ co_Image c1 = controller_image env im ∧
    deployControllerDeployment on_error fs port d w1 = Ok (d', (w2, None)) ∧ kept im0 d' ∧
    deps w2 !! KubeArmorControllerDeploymentName = Some s2 ∧
    pt_Containers (de_Template s2) = [c2] ∧ co_Image c2 = controller_image env im0.
Proof.
  destruct stored as [Hs Hn], manager as (Hc & Hm & Hp).
  destruct (controller_rolled_out im port w s c Hs Hn Hc Hm Hp)
    as (w1 & s1 & c1 & E1 & Hs1 & Hn1 & Hc1 & Hi1 & Ha1).
  destruct (prepare_annotating im0 fs port d (kept_annotating im0 d started))
    as (d' & Ed & Hd'). pose proof Hd' as (Hdn & c' & Hc' & Hi' & Hp' & Ha').
  assert (Hargs : first_args (de_Template s1) ≠ first_args (de_Template d')).
  { unfold first_args. rewrite Hc1, Hc', Ha1. intros E.
    rewrite <- E, port_merged in Ha'. done. }
  set (s2 := set_de_template (set_pt_selector (SecurityFsSelector fs)
               (set_pt_containers (pt_Containers (de_Template d')) (de_Template s1))) s1).
  assert (Hs2 : deps w1 !! de_Name s2 = Some s1) by (unfold s2; cbn; by rewrite Hn1).
  destruct (deployment_updated s2 s1 w1 Hs2) as (w2 & Eu & Hw2).
  exists w1, s1, c1, d', w2, s2, c'.
  assert (Edep : deployControllerDeployment on_error fs port d w1 = Ok (d', (w2, None))).
  { unfold deployControllerDeployment. rewrite Ed. cbn.
    rewrite (api_get_up (objects := deps)), Hdn, Hs1. fold s2. rewrite Eu.
    destruct (_ || _); [done|]. rewrite Hc1. by rewrite bool_decide_false. }
  split_and!; [done..|by eapply kept_round| |by unfold s2; cbn|done].
  rewrite Hw2. unfold s2. cbn. by rewrite Hn1, lookup_insert_eq.
Qed.
End controller.

(** ** On servers that are maps *)

Section witnesses.
#[local] Existing Instance canonical_range.
#[local] Instance canonical_law : GoRangeLaw canonical_range := canonical_range_law.

(** Daemon sets and deployments *)
Definition cluster : Type := gmap string DaemonSet * gmap string Deployment.
Definition set_daemonsets (m : gmap string DaemonSet) (w : cluster) : cluster := (m, w.2).
Definition set_deployments (m : gmap string Deployment) (w : cluster) : cluster := (w.1, m).
#[local] Instance cluster_ds : KubeApi DaemonSet cluster := part_api ds_Name fst set_daemonsets.
#[local] Instance cluster_de : KubeApi Deployment cluster := part_api de_Name snd set_deployments.
#[local] Instance cluster_list : KubeList DaemonSet cluster := λ w, inl (map_to_list w.1).*2.
#[local] Instance cluster_ds_law : KubeApiLaw cluster_ds ds_Name fst :=
  part_api_law ds_Name fst set_daemonsets (λ m w, eq_refl).
#[local] Instance cluster_ds_up : KubeApiUp cluster_ds := part_api_up ds_Name fst set_daemonsets.
#[local] Instance cluster_de_law : KubeApiLaw cluster_de de_Name snd :=
  part_api_law de_Name snd set_deployments (λ m w, eq_refl).
#[local] Instance cluster_de_up : KubeApiUp cluster_de := part_api_up de_Name snd set_deployments.
Lemma cluster_list_law : KubeListLaw cluster_list ds_Name fst.
Proof.
  intros w named. cbn. rewrite <- list_fmap_compose.
  assert (H : ∀ l : list (string * DaemonSet), (∀ kv, kv ∈ l → ds_Name kv.2 = kv.1) →
            ((λ x, (ds_Name x, x)) ∘ snd) <$> l = l).
  { induction l as [|[k ds] l IH]; intros Hl; [done|]. cbn. f_equal.
    - pose proof (Hl (k, ds) ltac:(left)) as Hk. cbn in Hk. by rewrite Hk.
    - apply IH. intros kv Hkv. apply Hl. by right. }
  rewrite H; [done|]. intros [k ds] Hkv%elem_of_map_to_list. by apply named.
Qed.

(** Policies on their own *)
Definition own_policy : ClusterPolicy :=
  {| cp_Name := "preset-exec"; cp_Annotations := None; cp_Exprs := []; cp_Rest := "mine" |}.
Definition shipped (name : string) : ClusterPolicy :=
  {| cp_Name := name; cp_Annotations := Some ∅; cp_Exprs := []; cp_Rest := name |}.
Definition excluding : RecommendedPolicies :=
  {| rp_Enable := true;
     rp_MatchExpressions := [{| me_Key := "namespace"; me_Operator := "NotIn"; me_Values := ["kube-system"] |}];
     rp_ExcludePolicy := ["preset-exec"] |}.

Lemma recommended_enforced_witness :
  ∃ w', WatchRecommendedPolicies (KP := map_api cp_Name) excluding
      (Some [EntryPolicy (shipped "preset-exec"); EntryPolicy (shipped "harden-cronjob-cfg")])
      {[ "preset-exec" := own_policy ]} = Ok (w', true) ∧
    w' !! "preset-exec" = None ∧
    w' !! "harden-cronjob-cfg" = Some (created_policy excluding (shipped "harden-cronjob-cfg")).
Proof.
  destruct (recommended_enforced (KP := map_api cp_Name) (objects := id)
    (LP := map_api_law cp_Name) (UP := map_api_up cp_Name) excluding
    [shipped "preset-exec"; shipped "harden-cronjob-cfg"] {[ "preset-exec" := own_policy ]})
    as (w' & E & H & _).
  - apply (bool_decide_eq_true _). vm_compute. reflexivity.
  - intros csp [-> | ->%list_elem_of_singleton]%elem_of_cons; cbn; eauto.
  - unfold by_name, id. intros n p [<- <-]%lookup_singleton_Some. reflexivity.
  - exists w'. split; [exact E|]. split.
    + apply (H (shipped "preset-exec")). left.
    + etrans; [apply (H (shipped "harden-cronjob-cfg")); right; left|]. vm_compute. reflexivity.
Defined.

(** A map and a resource *)
Definition maps_and_configs : Type := gmap string KConfigMap * gmap string ConfigObject.
Definition set_maps (m : gmap string KConfigMap) (w : maps_and_configs) : maps_and_configs := (m, w.2).
Definition set_configs (m : gmap string ConfigObject) (w : maps_and_configs) : maps_and_configs :=
  (w.1, m).
Fixpoint tries (k : nat) (c : maps_and_configs → maps_and_configs * bool) (w : maps_and_configs)
    : maps_and_configs * bool :=
  match k with
  | O => (w, false)
  | S k => match c w with (w, true) => (w, true) | (w, false) => tries k c w end
  end.
Definition no_map : maps_and_configs :=
  (∅, {[ "default" := {| cr_Name := "default"; cr_Phase := "Updating"; cr_Message := "" |} ]}).

Lemma config_map_reported_witness :
  ∃ c', (UpdateKubeArmorConfigMap (KM := part_api cm_Name fst set_maps)
           (KC := part_api cr_Name snd set_configs) tries "default" {[ "visibility" := "none" ]}
           no_map).2 !! "default" = Some c' ∧ cr_Phase c' = "Running".
Proof.
  destruct (config_map_reported (KM := part_api cm_Name fst set_maps)
    (KC := part_api cr_Name snd set_configs) (maps := fst) (configs := snd)
    (LM := part_api_law cm_Name fst set_maps (λ m w, eq_refl))
    (LC := part_api_law cr_Name snd set_configs (λ m w, eq_refl))
    (AM := part_api_apart cm_Name fst set_maps snd (λ m w, eq_refl))
    (AC := part_api_apart cr_Name snd set_configs fst (λ m w, eq_refl)) tries) with
    (UC := part_api_up cr_Name snd set_configs)
    (cfg := "default") (data := {[ "visibility" := "none" ]} : gmap string string) (w := no_map)
    (c := {| cr_Name := "default"; cr_Phase := "Updating"; cr_Message := "" |}) as [H _].
  - intros k c w H. cbn. destruct (c w) as [w1 b]. cbn in H. by subst b.
  - intros k c w H. induction k as [|k IH]; [done|]. cbn. by rewrite H.
  - split; reflexivity.
  - intros n cm H. cbn in H. by rewrite lookup_empty in H.
  - destruct (H (part_api_up cm_Name fst set_maps)) as [_ (c' & Hc & Hp & _)].
    exists c'. split; [exact Hc|exact Hp].
Defined.

(** The controller is deployed with [--annotateExisting]; then another image is set. *)
Definition newer_Images : Images :=
  {| im_KubeArmor := im_KubeArmor default_Images; im_Init := im_Init default_Images;
     im_Relay := im_Relay default_Images;
     im_Controller := image "kubearmor/kubearmor-controller:v2" (is_Args (im_Controller default_Images));
     im_NRI := false; im_GlobalSecrets := []; im_GlobalTolerations := [] |}.
Definition start_object : Deployment := controller_object no_env true default_Images.
Definition start_cluster : cluster := (∅, {[ KubeArmorControllerDeploymentName := start_object ]}).

Lemma controller_update_reverted_witness :
  ∃ w1 d' w2 s2 c2,
    UpdateKubeArmorImages no_env newer_Images 9443 ["controller"] start_cluster = Ok (w1, None) ∧
    deployControllerDeployment start_object false 9443 start_object w1 = Ok (d', (w2, None)) ∧
    w2.2 !! KubeArmorControllerDeploymentName = Some s2 ∧
    pt_Containers (de_Template s2) = [c2] ∧ co_Image c2 = "kubearmor/kubearmor-controller:latest".
Proof.
  destruct (controller_update_reverted (deps := snd) no_env start_object default_Images newer_Images
    start_object start_object
    {| co_Name := "manager"; co_Image := "kubearmor/kubearmor-controller:latest"; co_Pull := "Always";
       co_Args := first_args (de_Template start_object); co_Ports := [9443];
       co_Mounts := [{| mo_Name := "cert"; mo_Path := "/tmp/k8s-webhook-server/serving-certs";
                        mo_ReadOnly := true |}]; co_Seccomp := None |} false 9443 start_cluster)
    as (w1 & s1 & c1 & d' & w2 & s2 & c2 & H1 & _ & _ & _ & H2 & _ & H3 & H4 & H5).
  - apply kept_start.
  - split; reflexivity.
  - split; [reflexivity|]. split; [reflexivity|discriminate].
  - vm_compute. discriminate.
  - exists w1, d', w2, s2, c2. by split_and!.
Defined.

(** One daemon set, and a resource with another image *)
Definition wide_daemonset : DaemonSet :=
  {| ds_Name := "kubearmor-bpf-containerd-1"; ds_Template := sample_template; ds_Owned := true |}.
Definition one_daemonset : cluster := ({[ ds_Name wide_daemonset := wide_daemonset ]}, ∅).
Definition image_config (img : string) : KubeArmorConfig :=
  let none := {| is_Image := ""; is_PullPolicy := ""; is_Args := []; is_Secrets := [];
                 is_Tolerations := [] |} in
  {| kc_Name := "default";
     kc_Spec := {| cs_Images := {| im_KubeArmor := {| is_Image := img; is_PullPolicy := ""; is_Args := [];
                       is_Secrets := []; is_Tolerations := [] |};
                     im_Init := none; im_Relay := none; im_Controller := none; im_NRI := false;
                     im_GlobalSecrets := []; im_GlobalTolerations := [] |};
       cs_Recommended := g_Recommended default_Globals; cs_FilePosture := "audit";
       cs_CapabilitiesPosture := "audit"; cs_NetworkPosture := "audit"; cs_Visibility := "none";
       cs_Tls := {| tls_Enable := false; tls_DnsNames := []; tls_IpAddresses := [] |};
       cs_StdOutLogs := false; cs_StdOutAlerts := false; cs_StdOutMsgs := false; cs_Seccomp := false;
       cs_AlertThrottling := true; cs_MaxAlertPerSec := 10; cs_ThrottleSec := 30;
       cs_Elastic := g_Elastic default_Globals; cs_MatchArgs := true; cs_ControllerPort := 9443 |};
     kc_Phase := "Running"; kc_Message := "" |}.
Definition running_operator : OperatorState :=
  {| op_Crd := Some "default"; op_firstRun := false; op_Globals := default_Globals |}.

End witnesses.
