(* ===== verification/OperatorTls.v ===== *)
(** TLS in the operator: certificates and their secrets ([pkg/KubeArmorOperator/cert/certgen.go]),
    and the round that brings the secrets, the relay and the daemon sets to the setting
    ([WatchTlsState], [UpdateTlsConfigurations] of [internal/controller/cluster.go]).

    The functions of [crypto/x509] behind [KubeArmor/cert] and the source of random numbers
    are arguments, as is the status of a workload. *)
From Stdlib Require Import Ascii String.
From S2P Require Import Prelude GoStrings Common KubeApi AppArmorEnforcer OperatorConfig OperatorObjects OperatorSync.

Open Scope string_scope.
Open Scope Z_scope.

Record CertBytes := { cb_Crt : string; cb_Key : string }.

Record Secret := { sc_Name : string; sc_Data : gmap string string }.
Definition set_sc_Data (d : gmap string string) (s : Secret) : Secret :=
  {| sc_Name := sc_Name s; sc_Data := d |}.

Definition KubeArmorCaSecretName : string := "kubearmor-ca".
Definition KubeArmorClientSecretName : string := "kubearmor-client-certs".
Definition KubeArmorRelayServerSecretName : string := "kubearmor-relay-server-certs".

(** Whom a certificate is for; the server's names are added to the defaults. *)
Inductive CertConfig := ClientCert | ServerCert (dns ips : list string).

Definition GetRelayServiceDnsName (namespace : string) : list string :=
  ["kubearmor." +:+ namespace; "kubearmor." +:+ namespace +:+ ".svc";
   "kubearmor." +:+ namespace +:+ ".svc.cluster.local"].

Definition GetCertSecret (c : CertBytes) (name : string) : Secret :=
  {| sc_Name := name; sc_Data := list_to_map [("tls.crt", cb_Crt c); ("tls.key", cb_Key c)] |}.
Definition GetCertWithCaSecret (ca c : CertBytes) (name : string) : Secret :=
  {| sc_Name := name; sc_Data := list_to_map [("tls.crt", cb_Crt c); ("tls.key", cb_Key c);
                                               ("ca.crt", cb_Crt ca)] |}.

Section tls.
(** Random numbers; key pairs with their PEM text *)
Context {Rnd Pair W : Type}.
Context (GenerateCA : Rnd → Rnd * option CertBytes).
Context (GetCertKeyPairFromCertBytes : CertBytes → option Pair).
Context (GenerateSelfSignedCert : Pair → CertConfig → Rnd → Rnd * option CertBytes).
Context (GetPemCert : Pair → string).
Context (namespace : string) (tls : Tls).

(** ** Certificates *)

Record Certs := { ct_CA : option Pair; ct_Rnd : Rnd }.

Definition GenerateKubeArmorCACert (st : Certs) : Certs * option CertBytes :=
  match GenerateCA (ct_Rnd st) with
  | (r, None) => ({| ct_CA := ct_CA st; ct_Rnd := r |}, None)
  | (r, Some crt) =>
      match GetCertKeyPairFromCertBytes crt with
      | None => ({| ct_CA := ct_CA st; ct_Rnd := r |}, None)
      | Some kp => ({| ct_CA := Some kp; ct_Rnd := r |}, Some crt)
      end
  end.

(** A certificate signed by the CA, which is generated if there is none *)
Definition signed_cert (cfg : CertConfig) (st : Certs) : Certs * option CertBytes :=
  let sign (kp : Pair) (st : Certs) :=
    let '(r, c) := GenerateSelfSignedCert kp cfg (ct_Rnd st) in
    ({| ct_CA := ct_CA st; ct_Rnd := r |}, c) in
  match ct_CA st with
  | Some kp => sign kp st
  | None =>
      match GenerateKubeArmorCACert st with
      | (st, None) => (st, None)
      | (st, Some _) => match ct_CA st with Some kp => sign kp st | None => (st, None) end
      end
  end.
Definition GenerateKubeArmorClientCert : Certs → Certs * option CertBytes :=
  signed_cert ClientCert.
Definition GenerateKubeArmorRelayCert : Certs → Certs * option CertBytes :=
  signed_cert (ServerCert (GetRelayServiceDnsName namespace ++ tls_DnsNames tls)
                 (tls_IpAddresses tls)).

(** The attempts; the error of one stays. *)
Fixpoint cert_attempts (n : nat) (st : Certs) (failed : bool)
    : Certs * option (CertBytes * CertBytes * CertBytes) :=
  match n with
  | O => (st, None)
  | S n =>
      let '(st, ca) := GenerateKubeArmorCACert st in
      let '(st, client) := GenerateKubeArmorClientCert st in
      let '(st, relay) := GenerateKubeArmorRelayCert st in
      match ca, client, relay with
      | Some ca, Some client, Some relay =>
          if failed then cert_attempts n st true else (st, Some (ca, client, relay))
      | _, _, _ => cert_attempts n st true
      end
  end.

Definition GetAllTlsCertSecrets (st : Certs) : Certs * option (list Secret) :=
  match cert_attempts 3 st false with
  | (st, None) => (st, None)
  | (st, Some (ca, client, relay)) =>
      (st, Some [GetCertSecret ca KubeArmorCaSecretName;
                 GetCertWithCaSecret ca client KubeArmorClientSecretName;
                 GetCertWithCaSecret ca relay KubeArmorRelayServerSecretName])
  end.

(** ** The cluster *)

Context {KD : KubeApi DaemonSet W} {KL : KubeList DaemonSet W} {KP : KubeApi Deployment W}.
Context {KS : KubeApi Secret W}.

(** As many pods as desired, as many replicas ready as there are; the secret that the client
    returns with an error *)
Context (scheduled : DaemonSet → W → bool) (ready : Deployment → W → bool).
Context (on_error : Secret).

Definition put_secret (s : Secret) (w : W) : W * bool :=
  match api_create s w with
  | (w, None) => (w, true)
  | (w, Some AlreadyExists) =>
      match api_get (sc_Name s) w with
      | inr _ => (w, false)
      | inl old => match api_update (set_sc_Data (sc_Data s) old) w with
                   | (w, None) => (w, true) | (w, Some _) => (w, false) end
      end
  | (w, Some _) => (w, false)
  end.
Fixpoint put_secrets (l : list Secret) (w : W) : W * bool :=
  match l with
  | [] => (w, true)
  | s :: l => match put_secret s w with (w, true) => put_secrets l w | r => r end
  end.

(** At the first error the others stay. *)
Fixpoint delete_secrets (names : list string) (w : W) : W :=
  match names with
  | [] => w
  | n :: names => match api_delete (T := Secret) n w with
                  | (w, None) => delete_secrets names w | (w, Some _) => w end
  end.
Definition DeleteAllTlsSecrets : W → W :=
  delete_secrets [KubeArmorCaSecretName; KubeArmorClientSecretName; KubeArmorRelayServerSecretName].

(** Results have the state and whether there was no error. *)
Definition TlsState : Type := Certs * W.

Definition UpdateTlsConfigurations (tlsEnabled : bool) (st : TlsState) : Res (TlsState * bool) :=
  let '(c, w) := st in
  if tlsEnabled then
    match GetAllTlsCertSecrets c with
    | (c, None) => Ok ((c, w), false)
    | (c, Some secrets) =>
        match put_secrets secrets w with
        | (w, false) => Ok ((c, w), false)
        | (w, true) => r ← UpdateTlsVolumeAndVolumeMounts true w; Ok ((c, r.1), true)
        end
    end
  else
    r ← UpdateTlsVolumeAndVolumeMounts false w;
    Ok ((c, DeleteAllTlsSecrets r.1), true).

Definition tls_state (enabled : bool) : string :=
  if enabled then "-tlsEnabled=true" else "-tlsEnabled=false".

(** A workload that is not as it should be *)
Definition behind (steady : bool) (enabled : bool) (t : PodTemplate) : Res bool :=
  if steady then
    match pt_Containers t with
    | [] => Panic
    | c :: _ => Ok (negb (ContainsElement (co_Args c) (tls_state enabled)))
    end
  else Ok true.

Definition daemonset_behind (enabled : bool) (w : W) (r : Res bool) (ds : DaemonSet) : Res bool :=
  update ← r; b ← behind (scheduled ds w) enabled (ds_Template ds); Ok (update || b).

(** Another CA than the secret's: everything is taken back first. *)
Definition check_ca (update : bool) (st : TlsState) : Res (TlsState * bool) :=
  match ct_CA st.1 with
  | None => Ok (st, true)
  | Some kp =>
      match api_get KubeArmorCaSecretName st.2 with
      | inr NotFound => Ok (st, true)
      | r =>
          let ca := match r with inl s => s | inr _ => on_error end in
          if String.eqb (default "" (sc_Data ca !! "tls.crt")) (GetPemCert kp)
          then Ok (st, update)
          else r ← UpdateTlsConfigurations false st; Ok (r.1, true)
      end
  end.

Definition WatchTlsState (tlsEnabled : bool) (st : TlsState) : Res (TlsState * bool) :=
  match api_get RelayDeploymentName st.2 with
  | inr _ => Ok (st, false)
  | inl relay =>
      match api_list st.2 with
      | inr _ => Ok (st, false)
      | inl items =>
          update ← foldl (daemonset_behind tlsEnabled st.2) (Ok false) items;
          b ← behind (ready relay st.2) tlsEnabled (de_Template relay);
          let checked : Res (TlsState * bool) :=
            if tlsEnabled then check_ca (update || b) st else Ok (st, update || b) in
          r ← checked;
          match r with
          | (st, true) => UpdateTlsConfigurations tlsEnabled st
          | (st, false) => Ok (st, true)
          end
      end
  end.
End tls.
Arguments Certs : clear implicits.
Arguments TlsState : clear implicits.
