(* ===== verification/OperatorTlsProps.v ===== *)
(** TLS in the operator: a round leaves the relay and every daemon set with the argument and the
    volume for the setting; attempts at certificates after a failed one are in vain. *)
From Stdlib Require Import Ascii String.
From S2P Require Import Prelude GoStrings Common KubeApi AppArmorEnforcer OperatorConfig OperatorConfigProps OperatorObjects OperatorNodes OperatorObjectsProps OperatorSync OperatorSyncProps OperatorTls.

Open Scope string_scope.
Open Scope list_scope.
Open Scope Z_scope.

(** ** Templates *)

Definition has_tls (enabled : bool) (t : PodTemplate) : Prop :=
  ∃ c cs, pt_Containers t = c :: cs ∧ tls_state enabled ∈ co_Args c.
Definition mounted (name : string) (t : PodTemplate) : Prop := name ∈ vo_Name <$> pt_Volumes t.

Lemma replaced_arg add replace args : add ∈ AddOrReplaceArg add replace args.
Proof.
  unfold AddOrReplaceArg. destruct (replace_arg add replace args) as [l|] eqn:E.
  - revert l E. induction args as [|a args IH]; intros l; [done|]. cbn.
    destruct (_ || _); [intros [= <-]; left|].
    destruct (replace_arg add replace args) as [l'|]; [|done]. cbn. intros [= <-]. right. by apply IH.
  - apply elem_of_app. right. left.
Qed.

Lemma tls_arg_there enabled args : tls_state enabled ∈ tls_arg enabled args.
Proof. destruct enabled; apply replaced_arg. Qed.

Lemma removed_name {V} (vname : V → string) (add : bool) v l (dest : list V) :
  l ≡ₚ filter (λ x, vname x ≠ vname v) dest →
  (vname v ∈ vname <$> l ++ if add then [v] else []) ↔ add = true.
Proof.
  intros Hl. rewrite fmap_app, elem_of_app. split.
  - intros [H|H].
    + apply list_elem_of_fmap in H as (x & Hx & Hin). rewrite Hl in Hin.
      apply list_elem_of_filter in Hin as [Hne _]. by destruct Hne.
    + destruct add; [done|]. by apply elem_of_nil in H.
  - intros ->. right. left.
Qed.

Lemma update_tls_wf enabled v m t :
  template_wf t →
  ∃ t', update_tls enabled [v] [m] t = Ok t' ∧ template_wf t' ∧ has_tls enabled t' ∧
        (mounted (vo_Name v) t' ↔ enabled = true).
Proof.
  intros (c & cs & Hc & Hv & Hm). unfold update_tls, toggle_volume, AddOrRemoveVolume,
    AddOrRemoveVolumeMount. rewrite Hc.
  destruct (AddOrRemove_one vo_Name enabled v (pt_Volumes t) Hv) as (vols & Ev & Pv).
  destruct (AddOrRemove_one mo_Name enabled m (co_Mounts c) Hm) as (mnts & Em & Pm).
  rewrite Em. cbn. rewrite Ev. cbn. eexists. split; [reflexivity|]. split_and!.
  - eexists _, cs. split_and!; [reflexivity|cbn; by eapply removed_NoDup..].
  - eexists _, cs. split; [reflexivity|]. cbn. apply tls_arg_there.
  - by apply removed_name with (dest := pt_Volumes t).
Qed.

(** ** Certificates *)

Section certs.
Context {Rnd Pair : Type}.
Context (GenerateCA : Rnd → Rnd * option CertBytes).
Context (KeyPair : CertBytes → option Pair).
Context (Sign : Pair → CertConfig → Rnd → Rnd * option CertBytes).
Context (namespace : string) (tls : Tls).
Abbreviation Attempts := (cert_attempts GenerateCA KeyPair Sign namespace tls).

Lemma failed_attempts n st : (Attempts n st true).2 = None.
Proof.
  revert st. induction n as [|n IH]; intros st; [done|]. cbn [cert_attempts].
  destruct (GenerateKubeArmorCACert _ _ st) as [st1 [ca|]],
    (GenerateKubeArmorClientCert _ _ _ st1) as [st2 [cl|]],
    (GenerateKubeArmorRelayCert _ _ _ _ _ st2) as [st3 [re|]]; apply IH.
Qed.

Lemma first_failed st :
  (Attempts 1 st false).2 = None → ∃ st', ∀ n, Attempts (S n) st false = Attempts n st' true.
Proof.
  cbn [cert_attempts].
  destruct (GenerateKubeArmorCACert _ _ st) as [st1 [ca|]],
    (GenerateKubeArmorClientCert _ _ _ st1) as [st2 [cl|]],
    (GenerateKubeArmorRelayCert _ _ _ _ _ st2) as [st3 [re|]]; try done; by exists st3.
Qed.

(** Certificates are attempted three times, but the attempts after a failed one are in vain:
    its error is never cleared, so no secrets are returned whatever they generate. *)
Theorem cert_retries_useless (st : Certs Rnd Pair)
    (first_fails : (Attempts 1 st false).2 = None) :
  (GetAllTlsCertSecrets GenerateCA KeyPair Sign namespace tls st).2 = None.
Proof.
  destruct (first_failed st first_fails) as [st' E]. unfold GetAllTlsCertSecrets.
  rewrite (E 2%nat). pose proof (failed_attempts 2 st') as H.
  destruct (Attempts 2 st' true) as [st4 r]. cbn in H. by subst r.
Qed.

(** Generators that do not fail *)
Context (ca_ok : ∀ r, is_Some (GenerateCA r).2) (pair_ok : ∀ c, is_Some (KeyPair c)).
Context (sign_ok : ∀ kp cfg r, is_Some (Sign kp cfg r).2).

Lemma ca_generated st : ∃ st' crt kp,
  GenerateKubeArmorCACert GenerateCA KeyPair st = (st', Some crt) ∧ ct_CA st' = Some kp.
Proof.
  unfold GenerateKubeArmorCACert. destruct (ca_ok (ct_Rnd st)) as [crt E].
  destruct (GenerateCA (ct_Rnd st)) as [r x]. cbn in E. subst x.
  destruct (pair_ok crt) as [kp ->]. by eexists _, _, _.
Qed.

Lemma cert_signed cfg st kp : ct_CA st = Some kp →
  ∃ st' crt, signed_cert GenerateCA KeyPair Sign cfg st = (st', Some crt) ∧ ct_CA st' = Some kp.
Proof.
  intros Hca. unfold signed_cert. rewrite Hca.
  destruct (sign_ok kp cfg (ct_Rnd st)) as [crt E].
  destruct (Sign kp cfg (ct_Rnd st)) as [r x]. cbn in E. subst x. by eexists _, _.
Qed.

Lemma secrets_generated st :
  ∃ st' l, GetAllTlsCertSecrets GenerateCA KeyPair Sign namespace tls st = (st', Some l).
Proof.
  unfold GetAllTlsCertSecrets. cbn [cert_attempts].
  destruct (ca_generated st) as (st1 & ca & kp & -> & Hca).
  destruct (cert_signed ClientCert st1 kp Hca) as (st2 & cl & E2 & Hca2).
  unfold GenerateKubeArmorClientCert. rewrite E2.
  destruct (cert_signed (ServerCert (GetRelayServiceDnsName namespace ++ tls_DnsNames tls)
    (tls_IpAddresses tls)) st2 kp Hca2) as (st3 & re & E3 & _).
  unfold GenerateKubeArmorRelayCert. rewrite E3. by eexists _, _.
Qed.
End certs.

(** ** A round *)

Section round.
Context {Rnd Pair W : Type}.
Context (GenerateCA : Rnd → Rnd * option CertBytes).
Context (KeyPair : CertBytes → option Pair).
Context (Sign : Pair → CertConfig → Rnd → Rnd * option CertBytes).
Context (Pem : Pair → string) (namespace : string) (tls : Tls).
Context {KD : KubeApi DaemonSet W} {KL : KubeList DaemonSet W} {KP : KubeApi Deployment W}.
Context {KS : KubeApi Secret W}.
Context {objects : W → gmap string DaemonSet} {deps : W → gmap string Deployment}.
Context {secrets : W → gmap string Secret}.
Context `{LD : !KubeApiLaw KD ds_Name objects, UD : !KubeApiUp KD, LL : !KubeListLaw KL ds_Name objects}.
Context `{LP : !KubeApiLaw KP de_Name deps, UP : !KubeApiUp KP}.
Context `{LS : !KubeApiLaw KS sc_Name secrets, US : !KubeApiUp KS}.
Context `{DP : !KubeApart KD deps, PD : !KubeApart KP objects}.
Context `{SD : !KubeApart KS objects, SP : !KubeApart KS deps, DS : !KubeApart KD secrets}.
Context `{PS : !KubeApart KP secrets}.
Context (scheduled : DaemonSet → W → bool) (ready : Deployment → W → bool) (on_error : Secret).
Context (listed : ∀ w, ∃ items, api_list w = inl items).
Context (ca_ok : ∀ r, is_Some (GenerateCA r).2) (pair_ok : ∀ c, is_Some (KeyPair c)).
Context (sign_ok : ∀ kp cfg r, is_Some (Sign kp cfg r).2).

Abbreviation Configure := (UpdateTlsConfigurations GenerateCA KeyPair Sign namespace tls).

(** Objects under their names, with well-formed templates, and the relay is there *)
Record cluster_ok (w : W) : Prop := {
  ok_ds : all_wf (objects := objects) w;
  ok_relay : ∃ d, deps w !! RelayDeploymentName = Some d ∧ de_Name d = RelayDeploymentName ∧
             template_wf (de_Template d);
  ok_secrets n s : secrets w !! n = Some s → sc_Name s = n }.

(** What a round leaves: daemon sets and the relay as the setting says *)
Definition relay_has (enabled : bool) (w : W) : Prop :=
  ∃ d, deps w !! RelayDeploymentName = Some d ∧ has_tls enabled (de_Template d).
Definition all_have (enabled : bool) (w : W) : Prop :=
  ∀ n ds, objects w !! n = Some ds → has_tls enabled (ds_Template ds).
Definition all_mounted (enabled : bool) (w : W) : Prop :=
  ∀ n ds, objects w !! n = Some ds → mounted "kubearmor-ca-secret" (ds_Template ds) ↔ enabled = true.
Definition same_daemonsets (w w' : W) : Prop :=
  ∀ n, is_Some (objects w' !! n) ↔ is_Some (objects w !! n).

Record configured (enabled : bool) (w w' : W) : Prop := {
  cf_ok : cluster_ok w'; cf_same : same_daemonsets w w';
  cf_args : all_have enabled w'; cf_vols : all_mounted enabled w'; cf_relay : relay_has enabled w' }.

Lemma update_each_frame {V} (view : W → V) `{A : !KubeApart KD view} stop f items w err w' e :
  update_each stop f items w err = Ok (w', e) → view w' = view w.
Proof.
  revert w err. induction items as [|ds items IH]; intros w err; cbn.
  { by intros [= -> ->]. }
  intros H. go_res H. destruct a as [ds'|]; [|by eapply IH].
  pose proof (apart_update (view := view) ds' w) as Hv.
  destruct (api_update ds' w) as [w1 [e1|]]; cbn in Hv.
  - destruct stop; [injection H as <- <-; done|]. rewrite <- Hv. by eapply IH.
  - rewrite <- Hv. by eapply IH.
Qed.

Lemma volumes_updated enabled w :
  cluster_ok w →
  ∃ w', UpdateTlsVolumeAndVolumeMounts enabled w = Ok (w', None) ∧ configured enabled w w'.
Proof.
  intros [Hds (d & Hd & Hn & Hwf) Hsec]. unfold UpdateTlsVolumeAndVolumeMounts, update_deployment.
  rewrite (api_get_up (objects := deps)), Hd. unfold update_tls_relay.
  destruct (update_tls_wf enabled {| vo_Name := "kubearmor-relay-certs-secrets"; vo_Source := "projected" |}
    {| mo_Name := "kubearmor-relay-certs-secrets"; mo_Path := "/var/lib/kubearmor/tls"; mo_ReadOnly := true |}
    (de_Template d) Hwf) as (t & Et & Hwt & Ht & _).
  unfold KubeArmorRelayTlsVolume, KubeArmorRelayTlsVolumeMount. rewrite Et. cbn [mbind Res_bind].
  set (d' := set_de_template t d). assert (Hd' : deps w !! de_Name d' = Some d) by (cbn; by rewrite Hn).
  pose proof (apart_update (view := objects) d' w) as Ho.
  pose proof (apart_update (view := secrets) d' w) as Hs.
  destruct (deployment_updated (deps := deps) d' d w Hd') as (w1 & Eu & Hw1).
  rewrite Eu in *. cbn [fst] in Ho, Hs. change (de_Name d') with (de_Name d) in Hw1. rewrite Hn in Hw1.
  destruct (listed w1) as [items Hl].
  destruct (update_listed_up (objects := objects)
    (λ ds, some_daemonset (update_tls_daemonset enabled ds)) daemonset_wf
    (λ ds, has_tls enabled (ds_Template ds) ∧
           (mounted "kubearmor-ca-secret" (ds_Template ds) ↔ enabled = true)))
    with (w := w1) (items := items) (stop := true) (err := @None KubeErr) as (w2 & E2 & Hk & HQ).
  - intros ds Hw. unfold update_tls_daemonset, KubeArmorCaVolume, KubeArmorCaVolumeMount.
    destruct (update_tls_wf enabled {| vo_Name := "kubearmor-ca-secret"; vo_Source := "kubearmor-ca" |}
      {| mo_Name := "kubearmor-ca-secret"; mo_Path := "/var/lib/kubearmor/tls"; mo_ReadOnly := true |}
      (ds_Template ds) Hw) as (t2 & -> & Hwt2 & Ht2 & Hm2). cbn. by eexists.
  - done.
  - intros n ds. rewrite Ho. apply Hds.
  - exists w2. split; [cbn; exact E2|].
    assert (Hw2 : deps w2 = deps w1 ∧ secrets w2 = secrets w1).
    { unfold update_listed in E2. rewrite Hl in E2. split; by eapply update_each_frame. }
    destruct Hw2 as [Hde Hse]. rewrite Hw1 in Hde. split.
    + split.
      * intros n ds Hx. by destruct (HQ n ds Hx) as (? & ? & _).
      * exists d'. by rewrite Hde, lookup_insert_eq.
      * intros n x. rewrite Hse, Hs. apply Hsec.
    + intros n. by rewrite Hk, Ho.
    + intros n ds Hx. by destruct (HQ n ds Hx) as (_ & _ & ? & _).
    + intros n ds Hx. by destruct (HQ n ds Hx) as (_ & _ & _ & ?).
    + exists d'. by rewrite Hde, lookup_insert_eq.
Qed.

(** Requests for secrets *)
Definition secrets_only (w w' : W) : Prop :=
  objects w' = objects w ∧ deps w' = deps w ∧ ∀ n s, secrets w' !! n = Some s → sc_Name s = n.

Lemma cluster_ok_secrets w w' : cluster_ok w → secrets_only w w' → cluster_ok w'.
Proof.
  intros [H1 H2 H3] (E1 & E2 & E3). split; [|by rewrite E2|done].
  intros n ds. rewrite E1. apply H1.
Qed.

Lemma secret_put s w :
  (∀ n x, secrets w !! n = Some x → sc_Name x = n) →
  ∃ w', put_secret s w = (w', true) ∧ secrets_only w w'.
Proof.
  intros Hn. unfold put_secret.
  pose proof (apart_create (view := objects) s w) as Ho. pose proof (apart_create (view := deps) s w) as Hd.
  pose proof (create_law (objects := secrets) s w) as H. pose proof (create_up s w) as Hu.
  destruct (api_create s w) as [w1 [e|]]; cbn in *.
  - destruct Hu as [?|[= ->]]; [done|]. destruct H as [Es He].
    destruct (He eq_refl) as [old Hold]. rewrite (api_get_up (objects := secrets)), Es, Hold.
    set (s' := set_sc_Data (sc_Data s) old).
    assert (Hk : sc_Name s' = sc_Name s) by (by apply Hn in Hold).
    pose proof (apart_update (view := objects) s' w1) as Ho'.
    pose proof (apart_update (view := deps) s' w1) as Hd'.
    pose proof (update_law (objects := secrets) s' w1) as H. pose proof (update_up s' w1) as Hu.
    destruct (api_update s' w1) as [w2 [e|]]; cbn [fst snd] in *.
    + destruct H as [_ Hx]. destruct Hu as [?|[= ->]]; [done|].
      rewrite Hk, Es, Hold in Hx. by specialize (Hx eq_refl).
    + destruct H as [_ Es']. exists w2. split; [done|]. split_and!; [congruence|congruence|].
      intros n x. rewrite Es', Es, Hk. intros [[<- <-]|[_ Hx]]%lookup_insert_Some; [done|by apply Hn].
  - destruct H as [_ Es]. exists w1. split; [done|]. split_and!; [done|done|].
    intros n x. rewrite Es. intros [[<- <-]|[_ Hx]]%lookup_insert_Some; [done|by apply Hn].
Qed.

Lemma secrets_put l w :
  (∀ n x, secrets w !! n = Some x → sc_Name x = n) →
  ∃ w', put_secrets l w = (w', true) ∧ secrets_only w w'.
Proof.
  revert w. induction l as [|s l IH]; intros w Hn; [by exists w|]. cbn.
  destruct (secret_put s w Hn) as (w1 & -> & E1 & E2 & E3).
  destruct (IH w1 E3) as (w2 & -> & F1 & F2 & F3).
  exists w2. split; [done|]. split_and!; [congruence|congruence|done].
Qed.

Lemma secrets_deleted names w :
  (∀ n x, secrets w !! n = Some x → sc_Name x = n) → secrets_only w (delete_secrets names w).
Proof.
  revert w. induction names as [|n names IH]; intros w Hn; [done|]. cbn.
  pose proof (apart_delete (view := objects) n w) as Ho.
  pose proof (apart_delete (view := deps) n w) as Hd.
  pose proof (delete_law (objects := secrets) n w) as H.
  destruct (api_delete n w) as [w1 [e|]]; cbn in *.
  - destruct H as [Es _]. split_and!; [done|done|]. by rewrite Es.
  - destruct H as [_ Es]. destruct (IH w1) as (F1 & F2 & F3).
    { intros m x. rewrite Es. intros [_ Hx]%lookup_delete_Some. by apply Hn. }
    split_and!; [congruence|congruence|done].
Qed.

(** The setting is put into force, whatever there was *)
Lemma tls_configured enabled c w :
  cluster_ok w → ∃ c' w', Configure enabled (c, w) = Ok ((c', w'), true) ∧ configured enabled w w'.
Proof.
  intros Hok. unfold UpdateTlsConfigurations. destruct enabled.
  - destruct (secrets_generated GenerateCA KeyPair Sign namespace tls ca_ok pair_ok sign_ok c)
      as (c' & l & ->).
    destruct (secrets_put l w (ok_secrets w Hok)) as (w1 & -> & Hso).
    destruct (volumes_updated true w1 (cluster_ok_secrets w w1 Hok Hso)) as (w2 & -> & [Hk Hs Ha Hv Hr]).
    cbn. exists c', w2. split; [done|]. destruct Hso as (Ho & _). split; [done| |done..].
    intros n. by rewrite (Hs n), Ho.
  - destruct (volumes_updated false w Hok) as (w1 & -> & [Hk Hs Ha Hv Hr]). cbn [mbind Res_bind fst].
    set (w2 := DeleteAllTlsSecrets w1).
    assert (Hso : secrets_only w1 w2) by (apply secrets_deleted, Hk).
    exists c, w2. split; [done|]. pose proof (cluster_ok_secrets w1 w2 Hk Hso) as Hk2.
    destruct Hso as (Ho & Hd & _). split; [done|..].
    + intros n. rewrite Ho. apply Hs.
    + intros n ds. rewrite Ho. apply Ha.
    + intros n ds. rewrite Ho. apply Hv.
    + unfold relay_has. by rewrite Hd.
Qed.

Lemma behind_false steady enabled t :
  template_wf t → ∃ b, behind steady enabled t = Ok b ∧ (b = false → has_tls enabled t).
Proof.
  intros (c & cs & Hc & _). unfold behind. rewrite Hc. destruct steady; [|by eexists].
  eexists. split; [reflexivity|]. intros Hb%negb_false_iff%ContainsElement_spec. by exists c, cs.
Qed.

Lemma daemonsets_behind enabled w items u0 :
  (∀ ds, ds ∈ items → daemonset_wf ds) →
  ∃ u, foldl (daemonset_behind scheduled enabled w) (Ok u0) items = Ok u ∧
       (u = false → u0 = false ∧ ∀ ds, ds ∈ items → has_tls enabled (ds_Template ds)).
Proof.
  revert u0. induction items as [|ds items IH]; intros u0 Hwf.
  - exists u0. split; [done|]. intros ->. split; [done|]. by intros ? ?%elem_of_nil.
  - cbn [foldl]. unfold daemonset_behind at 2. cbn [mbind Res_bind].
    destruct (behind_false (scheduled ds w) enabled (ds_Template ds)) as (b & -> & Hb); [apply Hwf; left|].
    cbn [mbind Res_bind]. destruct (IH (u0 || b)) as (u & -> & Hu); [intros x Hx; apply Hwf; by right|].
    exists u. split; [done|]. intros Eu. destruct (Hu Eu) as [[-> ->]%orb_false_iff Hin].
    split; [done|]. intros x [->|Hx]%elem_of_cons; auto.
Qed.

(** Another CA than the secret's: the settings are taken back, then put into force. *)
Lemma ca_checked update c w :
  cluster_ok w →
  ∃ u c' w', check_ca GenerateCA KeyPair Sign Pem namespace tls on_error update (c, w) = Ok ((c', w'), u) ∧
    cluster_ok w' ∧ same_daemonsets w w' ∧ (u = false → update = false ∧ w' = w).
Proof.
  intros Hok. unfold check_ca. cbn [fst snd]. destruct (ct_CA c) as [kp|].
  2:{ exists true, c, w. by split_and!. }
  rewrite (api_get_up (objects := secrets)).
  destruct (secrets w !! KubeArmorCaSecretName) as [ca|].
  2:{ exists true, c, w. by split_and!. }
  destruct (String.eqb _ _); [by exists update, c, w|].
  destruct (tls_configured false c w Hok) as (c' & w' & -> & [Hk Hs _ _ _]).
  exists true, c', w'. by split_and!.
Qed.

(** What the round finds out: if nothing is to be done, everything is as it should be. *)
Lemma round_flags enabled w d items :
  cluster_ok w → deps w !! RelayDeploymentName = Some d → template_wf (de_Template d) →
  api_list w = inl items →
  ∃ u b, foldl (daemonset_behind scheduled enabled w) (Ok false) items = Ok u ∧
    behind (ready d w) enabled (de_Template d) = Ok b ∧
    (u || b = false → all_have enabled w ∧ relay_has enabled w).
Proof.
  intros ok Hd Hwf Hl.
  pose proof (list_law (objects := objects) w (λ n ds H, proj1 (ok_ds w ok n ds H))) as Hp.
  rewrite Hl in Hp.
  assert (Hin : ∀ ds, ds ∈ items ↔ ∃ n, objects w !! n = Some ds).
  { intros ds. split.
    - intros Hx. exists (ds_Name ds). apply elem_of_map_to_list. rewrite <- Hp.
      by apply (list_elem_of_fmap_2 (λ x, (ds_Name x, x))).
    - intros [n Hx]. apply elem_of_map_to_list in Hx. rewrite <- Hp in Hx.
      by apply list_elem_of_fmap in Hx as (x & [= _ ->] & Hx). }
  destruct (daemonsets_behind enabled w items false) as (u & Eu & Hu).
  { intros ds [n Hx]%Hin. by apply (ok_ds w ok n). }
  destruct (behind_false (ready d w) enabled (de_Template d) Hwf) as (b & Eb & Hb).
  exists u, b. split_and!; [done|done|]. intros [-> ->]%orb_false_iff. split.
  - intros n ds Hx. apply (Hu eq_refl). apply Hin. by exists n.
  - exists d. auto.
Qed.

(** C32: A round of the operator puts the TLS setting into force: if certificates can be generated,
    the server is up, objects are under their names with well-formed templates and the relay
    is there, the round ends without a panic or an error, keeps the daemon sets, and leaves
    every daemon set and the relay with the argument for the setting; if one lacked it, every
    daemon set has the CA's volume exactly if TLS is on. *)
Theorem tls_rolled_out (enabled : bool) (c : Certs Rnd Pair) (w : W)
    (ok : cluster_ok w) :
  ∃ c' w',
    WatchTlsState GenerateCA KeyPair Sign Pem namespace tls scheduled ready on_error enabled (c, w)
    = Ok ((c', w'), true) ∧
    same_daemonsets w w' ∧ all_have enabled w' ∧ relay_has enabled w' ∧
    (¬ (all_have enabled w ∧ relay_has enabled w) → all_mounted enabled w').
Proof.
  unfold WatchTlsState. cbn [fst snd]. destruct (ok_relay w ok) as (d & Hd & Hn & Hwf).
  rewrite (api_get_up (objects := deps)), Hd. destruct (listed w) as [items Hl]. rewrite Hl.
  destruct (round_flags enabled w d items ok Hd Hwf Hl) as (u & b & -> & Eb & Hquiet).
  cbn [mbind Res_bind]. rewrite Eb. cbn [mbind Res_bind]. cbv zeta.
  assert (Hchecked : ∃ v c1 w1, (if enabled then check_ca GenerateCA KeyPair Sign Pem namespace tls
      on_error (u || b) (c, w) else Ok (((c, w) : TlsState Rnd Pair W), u || b)) = Ok ((c1, w1), v) ∧
      cluster_ok w1 ∧ same_daemonsets w w1 ∧ (v = false → u || b = false ∧ w1 = w)).
  { destruct enabled; [by apply ca_checked|]. by exists (u || b), c, w. }
  destruct Hchecked as (v & c1 & w1 & -> & Hok1 & Hs1 & Hv). cbn [mbind Res_bind].
  destruct v.
  - destruct (tls_configured enabled c1 w1 Hok1) as (c2 & w2 & E & [Hk Hs Ha Hm Hr]).
    exists c2, w2. split_and!; [done| |done|done|done]. intros n. by rewrite (Hs n), (Hs1 n).
  - destruct (Hv eq_refl) as [Hub ->]. destruct (Hquiet Hub) as [H1 H2].
    exists c1, w. split_and!; [done|done|done|done|]. intros Hno. by destruct Hno.
Qed.
End round.

(** ** One daemon set and the relay, without TLS *)

Section witnesses.
Definition tls_cluster : Type :=
  gmap string DaemonSet * gmap string Deployment * gmap string Secret.
Definition put_ds (m : gmap string DaemonSet) (w : tls_cluster) : tls_cluster := (m, w.1.2, w.2).
Definition put_de (m : gmap string Deployment) (w : tls_cluster) : tls_cluster := (w.1.1, m, w.2).
Definition put_sc (m : gmap string Secret) (w : tls_cluster) : tls_cluster := (w.1, m).
Definition get_ds (w : tls_cluster) : gmap string DaemonSet := w.1.1.
Definition get_de (w : tls_cluster) : gmap string Deployment := w.1.2.

#[local] Instance tls_ds : KubeApi DaemonSet tls_cluster := part_api ds_Name get_ds put_ds.
#[local] Instance tls_de : KubeApi Deployment tls_cluster := part_api de_Name get_de put_de.
#[local] Instance tls_sc : KubeApi Secret tls_cluster := part_api sc_Name snd put_sc.
#[local] Instance tls_list : KubeList DaemonSet tls_cluster := λ w, inl (map_to_list (get_ds w)).*2.
Lemma tls_list_law : KubeListLaw tls_list ds_Name get_ds.
Proof. intros w. exact (cluster_list_law w.1). Qed.

(** Key pairs are their certificates. *)
Definition some_cert (r : nat) : nat * option CertBytes :=
  (S r, Some {| cb_Crt := "crt"; cb_Key := "key" |}).

Definition tls_world : tls_cluster :=
  ({[ ds_Name wide_daemonset := wide_daemonset ]},
   {[ RelayDeploymentName := {| de_Name := RelayDeploymentName; de_Template := sample_template |} ]}, ∅).

Lemma tls_rolled_out_witness :
  ∃ c' w',
    WatchTlsState some_cert (λ c, Some (cb_Crt c)) (λ _ _ r, some_cert r) id "kubearmor"
      (g_Tls default_Globals) (λ _ _, true) (λ _ _, true) (GetCertSecret {| cb_Crt := ""; cb_Key := "" |} "")
      true ({| ct_CA := None; ct_Rnd := O |}, tls_world) = Ok ((c', w'), true) ∧
    all_have (objects := get_ds) true w' ∧ relay_has (deps := get_de) true w'.
Proof.
  destruct (tls_rolled_out (objects := get_ds) (deps := get_de) (secrets := snd)
    some_cert (λ c, Some (cb_Crt c)) (λ _ _ r, some_cert r) id "kubearmor" (g_Tls default_Globals)
    (LD := part_api_law ds_Name get_ds put_ds (λ m w, eq_refl)) (UD := part_api_up ds_Name get_ds put_ds)
    (LL := tls_list_law)
    (LP := part_api_law de_Name get_de put_de (λ m w, eq_refl)) (UP := part_api_up de_Name get_de put_de)
    (LS := part_api_law sc_Name snd put_sc (λ m w, eq_refl)) (US := part_api_up sc_Name snd put_sc)
    (DP := part_api_apart ds_Name get_ds put_ds get_de (λ m w, eq_refl))
    (PD := part_api_apart de_Name get_de put_de get_ds (λ m w, eq_refl))
    (SD := part_api_apart sc_Name snd put_sc get_ds (λ m w, eq_refl))
    (SP := part_api_apart sc_Name snd put_sc get_de (λ m w, eq_refl))
    (DS := part_api_apart ds_Name get_ds put_ds snd (λ m w, eq_refl))
    (PS := part_api_apart de_Name get_de put_de snd (λ m w, eq_refl))
    (λ _ _, true) (λ _ _, true) (GetCertSecret {| cb_Crt := ""; cb_Key := "" |} "")
    (λ w, ex_intro _ _ eq_refl) (λ r, ex_intro _ _ eq_refl) (λ c, ex_intro _ _ eq_refl)
    (λ _ _ _, ex_intro _ _ eq_refl) true {| ct_CA := None; ct_Rnd := O |} tls_world)
    as (c' & w' & H1 & _ & H2 & H3 & _).
  - assert (Hwf : template_wf sample_template).
    { exists sample_container, []. split; [reflexivity|].
      split; apply (bool_decide_eq_true _); vm_compute; reflexivity. }
    split.
    + intros n ds H. cbn in H. apply lookup_singleton_Some in H as [<- <-]. by split.
    + exists {| de_Name := RelayDeploymentName; de_Template := sample_template |}.
      by split_and!.
    + intros n s H. cbn in H. by rewrite lookup_empty in H.
  - exists c', w'. split; [exact H1|]. split; [exact H2|exact H3].
Defined.

(** The first attempt fails, all others would not. *)
Definition late_cert (r : nat) : nat * option CertBytes :=
  (S r, match r with O => None | S _ => Some {| cb_Crt := "crt"; cb_Key := "key" |} end).

Lemma cert_retries_useless_witness :
  (GetAllTlsCertSecrets late_cert (λ c, Some (cb_Crt c)) (λ _ _ r, late_cert r) "kubearmor"
     (g_Tls default_Globals) {| ct_CA := None; ct_Rnd := O |}).2 = None ∧
  ∀ r, is_Some (late_cert (S r)).2.
Proof.
  split; [|by eexists]. apply cert_retries_useless. vm_compute. reflexivity.
Defined.
End witnesses.
