(* ===== verification/K8sHandler.v ===== *)
(** Requests of the daemon to Kubernetes ([KubeArmor/core/k8sHandler.go]): the connection, the
    search for custom resources, the streams of policies, and the patches that put AppArmor
    annotations on the owners of pods.

    Packages of Kubernetes and [net/http] are arguments; owners of pods are in [PodEvents]. *)
From Stdlib Require Import Ascii String.
From S2P Require Import Prelude GoStrings GoPath Common Config Daemon PodEvents.

Open Scope string_scope.

(** ** Connection *)

(** Clients are there or [nil]. *)
Record K8sHandler := {
  kh_K8sClient : bool; kh_KSPClient : bool;
  kh_K8sToken : string; kh_K8sHost : string; kh_K8sPort : string }.

(** A configuration read from a file, or made of a URL and a token *)
Inductive RestConfig := FromFile (path : string) | WithToken (url token : string).

Definition set_token (t : string) (kh : K8sHandler) : K8sHandler :=
  {| kh_K8sClient := kh_K8sClient kh; kh_KSPClient := kh_KSPClient kh; kh_K8sToken := t;
     kh_K8sHost := kh_K8sHost kh; kh_K8sPort := kh_K8sPort kh |}.
Definition set_client (kh : K8sHandler) : K8sHandler :=
  {| kh_K8sClient := true; kh_KSPClient := kh_KSPClient kh; kh_K8sToken := kh_K8sToken kh;
     kh_K8sHost := kh_K8sHost kh; kh_K8sPort := kh_K8sPort kh |}.

Section connection.
Context (m : Machine) (K8sEnv : bool).
(** [ctrl.GetConfig] with [kspclient.NewForConfig], [BuildConfigFromFlags] and
    [kubernetes.NewForConfig] succeed *)
Context (ksp_client : bool) (BuildConfigFromFlags : string → bool) (NewForConfig : RestConfig → bool).

Definition NewK8sHandler : K8sHandler :=
  {| kh_K8sClient := false; kh_KSPClient := ksp_client; kh_K8sToken := "";
     kh_K8sHost := default "127.0.0.1" (m_env m !! "KUBERNETES_SERVICE_HOST");
     kh_K8sPort := default "8001" (m_env m !! "KUBERNETES_PORT_443_TCP_PORT") |}.

Definition with_client (c : RestConfig) (kh : K8sHandler) : K8sHandler * bool :=
  if NewForConfig c then (set_client kh, true) else (kh, false).

Definition InitLocalAPIClient (kh : K8sHandler) : K8sHandler * bool :=
  let given := Getenv m "KUBECONFIG" in
  let kubeconfig := if String.eqb given "" then Getenv m "HOME" +:+ "/.kube/config" else given in
  if String.eqb given "" && negb (m_exists m (Clean kubeconfig)) then (kh, false)
  else if BuildConfigFromFlags kubeconfig then with_client (FromFile kubeconfig) kh
  else (kh, false).

Definition api_host (kh : K8sHandler) : string := kh_K8sHost kh +:+ ":" +:+ kh_K8sPort kh.

Definition InitInclusterAPIClient (kh : K8sHandler) : K8sHandler * bool :=
  match m_ReadFile m "/var/run/secrets/kubernetes.io/serviceaccount/token" with
  | None => (kh, false)
  | Some token =>
      let kh := set_token token kh in with_client (WithToken ("https://" +:+ api_host kh) token) kh
  end.

Definition InitK8sClient (kh : K8sHandler) : K8sHandler * bool :=
  if negb (IsK8sEnv m K8sEnv) then (kh, false)
  else if kh_K8sClient kh then (kh, true)
  else if IsInK8sCluster m then InitInclusterAPIClient kh
  else if IsK8sLocal m K8sEnv then InitLocalAPIClient kh
  else (kh, false).

(** ** Requests *)

Record Request := {
  rq_Method : string; rq_URL : string; rq_Header : list (string * string); rq_Body : string }.

(** Answer of the API; [None] is any error on the way. *)
Context (Do : Request → option string).

Definition api_headers (kh : K8sHandler) : list (string * string) :=
  if IsInK8sCluster m
  then [("Content-Type", "application/json"); ("Authorization", "Bearer " +:+ kh_K8sToken kh)]
  else [].

Definition api_request (method path body : string) (kh : K8sHandler) : Request :=
  {| rq_Method := method;
     rq_URL := (if IsInK8sCluster m then "https://" else "http://") +:+ api_host kh +:+ path;
     rq_Header := api_headers kh; rq_Body := body |}.

(** [body]: the data as JSON *)
Definition DoRequest (cmd : string) (body : option string) (path : string) (kh : K8sHandler)
    : option string :=
  body ← body; Do (api_request cmd path body kh).

(** The groups of an answer with their preferred version; the names of an answer's resources *)
Context (parse_groups : string → option (list (string * string))).
Context (parse_resources : string → option (list string)).

Definition CheckCustomResourceDefinition (resourceName : string) (kh : K8sHandler) : bool :=
  if negb (IsK8sEnv m K8sEnv) then false
  else
    match DoRequest "GET" (Some "null") "/apis" kh ≫= parse_groups with
    | None => false
    | Some groups =>
        match find (λ g, String.eqb g.1 "security.kubearmor.com") groups with
        | None => false
        | Some g =>
            match DoRequest "GET" (Some "null") ("/apis/" +:+ g.2) kh ≫= parse_resources with
            | None => false
            | Some resources => ContainsElement resources resourceName
            end
        end
    end.

(** The request whose answer is a stream, from the client with which it is made *)
Definition watch_stream (resource : string) (kh : K8sHandler) : option string :=
  if negb (IsK8sEnv m K8sEnv) then None
  else Do (api_request "GET" ("/apis/security.kubearmor.com/v1/" +:+ resource +:+ "?watch=true")
             "" kh).
Definition WatchK8sSecurityPolicies : K8sHandler → option string :=
  watch_stream "kubearmorpolicies".
Definition WatchK8sHostSecurityPolicies : K8sHandler → option string :=
  watch_stream "kubearmorhostpolicies".
End connection.

(** ** Objects by name *)

Section objects.
Context (m : Machine) (K8sEnv : bool).
(** The metadata of an object by kind, namespace and name *)
Context (get : string → string → string → option ObjectMeta).

Definition get_named (kind namespaceName podownerName : string) : string * string :=
  if negb (IsK8sEnv m K8sEnv) then ("", "")
  else match get kind namespaceName podownerName with
       | None => ("", "") | Some o => (om_Name o, om_Namespace o) end.
Definition GetReplicaSet : string → string → string * string := get_named "ReplicaSet".
Definition GetDaemonSet : string → string → string * string := get_named "DaemonSet".
Definition GetStatefulSet : string → string → string * string := get_named "StatefulSet".

Definition GetDeploymentNameControllingReplicaSet (namespaceName podownerName : string)
    : string * string :=
  if negb (IsK8sEnv m K8sEnv) then ("", "")
  else match get "ReplicaSet" namespaceName podownerName with
       | None => ("", "")
       | Some rs =>
           match om_OwnerReferences rs with
           | [] => ("", "")
           | ref :: _ =>
               if String.eqb (or_Kind ref) "Deployment" then (or_Name ref, om_Namespace rs)
               else ("", "")
           end
       end.
End objects.

(** ** Patches *)

Inductive PatchType := StrategicMergePatch | MergePatch.

(** Patches by kind, namespace and name; [true] when there is no error. The replicas of a
    replica set: no answer, or a pointer. *)
Class ApiClients (W : Type) := {
  ac_Patch : string → string → string → PatchType → string → W → W * bool;
  ac_Replicas : string → string → W → option (option Z) }.

Definition quote : ascii := ascii_of_nat 34.
(** [s] between quotes *)
Definition q (s : string) : string := String quote (s +:+ String quote "").

(** An object up to the value of its first field *)
Definition field_head (k : string) : string := "{" +:+ q k +:+ ":".

Definition annotations_head : string :=
  field_head "metadata" +:+ field_head "annotations" +:+ field_head "kubearmor-policy"
  +:+ q "enabled" +:+ ",".
Definition template_head : string := field_head "spec" +:+ field_head "template" +:+ annotations_head.
Definition cronjob_head : string := field_head "spec" +:+ field_head "jobTemplate" +:+ template_head.

Section patches.
Context `{R : GoRange}.

Definition annotation_key (k : string) : string :=
  "container.apparmor.security.beta.kubernetes.io/" +:+ k.

(** A turn of the loop: the text and how many entries are thought to be left *)
Definition spec_step (st : string * Z) (kv : string * string) : string * Z :=
  if String.eqb kv.2 "unconfined" then st
  else (st.1 +:+ q (annotation_key kv.1) +:+ ":" +:+ q ("localhost/" +:+ kv.2)
          +:+ (if (st.2 >? 1)%Z then "," else ""), (st.2 - 1)%Z).

Definition patch_text (kind : string) (appArmorAnnotations : gmap string string) : string :=
  let cronjob := String.eqb kind "CronJob" in
  let head := if cronjob then cronjob_head else template_head in
  let spec := (foldl spec_step (head, Z.of_nat (size appArmorAnnotations))
                 (go_range appArmorAnnotations)).1 in
  spec +:+ (if cronjob then "}}}}}}}" else "}}}}}").

Definition selinux_step (st : string * Z) (kv : string * string) : string * Z :=
  (st.1 +:+ q ("kubearmor-selinux/" +:+ kv.1) +:+ ":" +:+ q kv.2
     +:+ (if (st.2 >? 1)%Z then "," else ""), (st.2 - 1)%Z).
Definition selinux_text (seLinuxAnnotations : gmap string string) : string :=
  (foldl selinux_step (template_head, Z.of_nat (size seLinuxAnnotations))
     (go_range seLinuxAnnotations)).1 +:+ "}}}}}".

Definition replicas_text (n : Z) : string :=
  "{" +:+ q "spec" +:+ ": {" +:+ q "replicas" +:+ ": " +:+ Itoa n +:+ "}}".

Context {W : Type} `{AC : !ApiClients W} (m : Machine) (K8sEnv : bool).

(** [true]: no error *)
Definition PatchResourceWithAppArmorAnnotations (namespaceName deploymentName : string)
    (appArmorAnnotations : gmap string string) (kind : string) (w : W) : Res (W * bool) :=
  if negb (IsK8sEnv m K8sEnv) then Ok (w, true)
  else
    let spec := patch_text kind appArmorAnnotations in
    let patch := ac_Patch kind namespaceName deploymentName in
    if String.eqb kind "StatefulSet" then Ok (patch StrategicMergePatch spec w)
    else if String.eqb kind "ReplicaSet" then
      match ac_Replicas namespaceName deploymentName w with
      | None => Ok (w, false)
      | Some None => Panic
      | Some (Some replicas) =>
          let '(w, ok) := patch MergePatch spec w in
          if negb ok then Ok (w, false)
          else
            let '(w, ok) := patch StrategicMergePatch (replicas_text 0) w in
            if negb ok then Ok (w, false)
            else Ok (patch StrategicMergePatch (replicas_text replicas) w)
      end
    else if String.eqb kind "DaemonSet" then Ok (patch MergePatch spec w)
    else if String.eqb kind "Deployment" then Ok (patch StrategicMergePatch spec w)
    else if String.eqb kind "CronJob" then Ok (patch StrategicMergePatch spec w)
    else Ok (w, true).

Definition PatchDeploymentWithSELinuxAnnotations (namespaceName deploymentName : string)
    (seLinuxAnnotations : gmap string string) (w : W) : W * bool :=
  if negb (IsK8sEnv m K8sEnv) then (w, true)
  else ac_Patch "Deployment" namespaceName deploymentName StrategicMergePatch
         (selinux_text seLinuxAnnotations) w.
End patches.

(** The effect that [PodEvents] has on Kubernetes; errors are logged there. *)
Definition patch_backend `{R : GoRange} {W : Type} `{AC : !ApiClients W} (m : Machine)
    (K8sEnv : bool) : PodBackend W :=
  {| k8s_PatchAppArmor := λ ns name annotations kind w,
       fst <$> PatchResourceWithAppArmorAnnotations m K8sEnv ns name annotations kind w |}.
