(* ===== verification/Watchers.v ===== *)
(** Loops that wait for custom resources and read host policies
    ([WatchSecurityPolicies], [WatchClusterSecurityPolicies] and [WatchHostSecurityPolicies]
    of [KubeArmor/core/kubeUpdate.go]), and the client of the service that manages virtual
    machines ([KubeArmor/kvmAgent/kvmAgent.go]), which registers the machine and takes host
    policies from a stream.  Loops are run on what their turns find and what the service
    answers; the handlers of informers are in [Daemon].  Then, which policies are handled,
    and when none is any more. *)
From Stdlib Require Import Ascii String.
From S2P Require Import Prelude GoStrings GoSlices Types Common BpfEnforcer NsMap PolicySpec Daemon DaemonProps Config.

Open Scope string_scope.

(** ** Waiting for a resource *)

(** Whether the resource is found in the end, with what the searches find; without a limit *)
Definition wait_policies (found : list bool) : bool := existsb id found.

(** A search after some nanoseconds *)
Record Search := { sr_time : Z; sr_found : bool }.

(** With a limit: [None] while the loop goes on, then whether the resource was found *)
Fixpoint wait_cluster_policies (timeout : Z) (searches : list Search) : option bool :=
  match searches with
  | [] => None
  | s :: searches =>
      if (timeout <=? sr_time s)%Z then Some false
      else if sr_found s then Some true
      else wait_cluster_policies timeout searches
  end.

(** ** Host policies *)

Record HostEvent (Spec : Type) := {
  he_Type : string; he_Name : string; he_Spec : Spec; he_Status : string }.
Arguments he_Type {Spec}.
Arguments he_Name {Spec}.
Arguments he_Spec {Spec}.
Arguments he_Status {Spec}.

(** A turn of the loop: when it starts, what the two searches find, and the events of the
    stream until it breaks, if there is a stream *)
Record Turn (Spec : Type) := {
  tn_time : Z; tn_found : bool; tn_again : bool; tn_stream : option (list (HostEvent Spec)) }.
Arguments tn_time {Spec}.
Arguments tn_found {Spec}.
Arguments tn_again {Spec}.
Arguments tn_stream {Spec}.

Section host.
Context `{R : GoRange} {W : Type} `{B : !Backend W} (cfg : Settings).
Context (CompilePOSIX : string → option (string → bool)).
Context {Spec : Type} (MarshalHost : Spec → string)
        (UnmarshalHost : string → option HostSecuritySpec).

(** An event of the stream *)
Definition host_event (r : Res (Daemon W)) (e : HostEvent Spec) : Res (Daemon W) :=
  dm ← r;
  if negb (String.eqb (he_Status e) "") && negb (String.eqb (he_Status e) "OK") then Ok dm
  else if negb (ContainsElement [addEvent; updateEvent; deleteEvent] (he_Type e)) then Ok dm
  else r ← ParseAndUpdateHostSecurityPolicy cfg CompilePOSIX MarshalHost UnmarshalHost
             (he_Type e) (he_Name e) (he_Spec e) dm; Ok r.1.

(** The state, and whether the loop still runs *)
Fixpoint watch_host (timeout : Z) (turns : list (Turn Spec)) (dm : Daemon W)
    : Res (Daemon W * bool) :=
  match turns with
  | [] => Ok (dm, true)
  | t :: turns =>
      if (timeout <=? tn_time t)%Z then Ok (dm, false)
      else if negb (tn_found t) then watch_host timeout turns dm
      else if negb (tn_again t) then watch_host timeout turns dm
      else match tn_stream t with
           | None => watch_host timeout turns dm
           | Some events =>
               dm ← foldl host_event (Ok dm) events; watch_host timeout turns dm
           end
  end.
End host.

(** ** The client of the service for virtual machines *)

Definition errIdentityRemoved : string := "err-identity-removed".

Record KVMAgent := { kv_Identity : string; kv_gRPCServer : string }.

Section start.
Context (m : Machine).

(** [net.JoinHostPort] *)
Definition JoinHostPort (host port : string) : string :=
  if char_in ":" host || char_in "%" host then "[" +:+ host +:+ "]:" +:+ port
  else host +:+ ":" +:+ port.

Definition getgRPCAddress : option string :=
  let serverAddr := JoinHostPort (Getenv m "CLUSTER_IP") (Getenv m "CLUSTER_PORT") in
  if String.eqb serverAddr ":" then None else Some serverAddr.

(** The connection is made; the status of the registration, unless there is an error. A
    status other than zero comes without the error whose text is logged. *)
Definition NewKVMAgent (dial : string → bool) (register : string → option Z)
    : Res (option KVMAgent) :=
  let Identity := Getenv m "WORKLOAD_IDENTITY" in
  match getgRPCAddress with
  | None => Ok None
  | Some gRPCServer =>
      if negb (dial gRPCServer) then Ok None
      else match register Identity with
           | None => Ok None
           | Some status =>
               if (status =? 0)%Z
               then Ok (Some {| kv_Identity := Identity; kv_gRPCServer := gRPCServer |})
               else Panic
           end
  end.
End start.

(** *** The stream *)

Inductive Received := RPolicy (data : string) | REof | RError (text : string).

(** What the service answers at a step, whichever is asked for: the stream is opened, a
    connection is made, what is received *)
Record Answer := { an_stream : bool; an_dial : bool; an_received : Received }.

Inductive Phase := Connecting | Streaming | Stopped.

Section stream.
Context `{R : GoRange} {W : Type} `{B : !Backend W} (cfg : Settings).
Context (CompilePOSIX : string → option (string → bool)).
Context {Spec : Type} (MarshalHost : Spec → string)
        (UnmarshalHost : string → option HostSecuritySpec).
(** JSON of an event *)
Context (decode : string → option (HostEvent Spec)).

(** The daemon, and the statuses that were sent back *)
Record KVMState := { ks_phase : Phase; ks_dm : Daemon W; ks_sent : list Z }.

Definition set_phase (p : Phase) (s : KVMState) : KVMState :=
  {| ks_phase := p; ks_dm := ks_dm s; ks_sent := ks_sent s |}.

(** The connection is made again, or the agent returns. *)
Definition reconnect (a : Answer) (s : KVMState) : KVMState :=
  set_phase (if an_dial a then Connecting else Stopped) s.

Definition take_policy (data : string) (s : KVMState) : Res KVMState :=
  match decode data with
  | None => Ok {| ks_phase := Streaming; ks_dm := ks_dm s; ks_sent := ks_sent s ++ [1%Z] |}
  | Some e =>
      r ← ParseAndUpdateHostSecurityPolicy cfg CompilePOSIX MarshalHost UnmarshalHost
            (he_Type e) (he_Name e) (he_Spec e) (ks_dm s);
      Ok {| ks_phase := Streaming; ks_dm := r.1; ks_sent := ks_sent s ++ [0%Z] |}
  end.

Definition kvm_step (s : KVMState) (a : Answer) : Res KVMState :=
  match ks_phase s with
  | Stopped => Ok s
  | Connecting => Ok (if an_stream a then set_phase Streaming s else reconnect a s)
  | Streaming =>
      match an_received a with
      | RPolicy data => take_policy data s
      | REof => Ok s
      | RError text =>
          Ok (if Contains text errIdentityRemoved then set_phase Stopped s else reconnect a s)
      end
  end.

Definition ConnectToKVMService (answers : list Answer) (dm : Daemon W) : Res KVMState :=
  foldl (λ r a, s ← r; kvm_step s a) (Ok {| ks_phase := Connecting; ks_dm := dm; ks_sent := [] |})
    answers.
End stream.

(** ** What is handled *)

(** *** Waiting *)

(** A limited wait ends as soon as the time is over or the resource is found, and says
    which came first. *)
Lemma wait_cluster_ends timeout before s after :
  (∀ s', s' ∈ before → (sr_time s' < timeout)%Z ∧ sr_found s' = false) →
  (timeout <= sr_time s)%Z ∨ sr_found s = true →
  wait_cluster_policies timeout (before ++ s :: after) = Some (sr_time s <? timeout)%Z.
Proof.
  intros Hb Hs. induction before as [|s' before IH]; cbn.
  - destruct (Z.leb_spec timeout (sr_time s)); [by rewrite (proj2 (Z.ltb_ge _ _))|].
    rewrite (proj2 (Z.ltb_lt _ _)) by lia. by destruct Hs as [?| ->]; [lia|].
  - destruct (Hb s') as [Ht Hf]; [left|]. rewrite (proj2 (Z.leb_gt _ _)), Hf by lia.
    apply IH. intros s'' ?. apply Hb. by right.
Qed.

Section host.
Context `{R : GoRange} {W : Type} `{B : !Backend W} (cfg : Settings).
Context (CompilePOSIX : string → option (string → bool)).
Context {Spec : Type} (MarshalHost : Spec → string)
        (UnmarshalHost : string → option HostSecuritySpec).
Abbreviation WATCH := (watch_host cfg CompilePOSIX MarshalHost UnmarshalHost).
Abbreviation EVENT := (host_event cfg CompilePOSIX MarshalHost UnmarshalHost).

(** The turns before the time is over *)
Fixpoint in_time (timeout : Z) (turns : list (Turn Spec)) : list (Turn Spec) :=
  match turns with
  | [] => []
  | t :: turns => if (timeout <=? tn_time t)%Z then [] else t :: in_time timeout turns
  end.

Definition turn_events (t : Turn Spec) : list (HostEvent Spec) :=
  if tn_found t && tn_again t then default [] (tn_stream t) else [].

Lemma fold_Panic l : foldl EVENT Panic l = Panic.
Proof. induction l; [done|]. by rewrite <- IHl at 2. Qed.

Lemma watch_events timeout turns dm :
  WATCH timeout turns dm =
    (dm ← foldl EVENT (Ok dm) (in_time timeout turns ≫= turn_events);
     Ok (dm, length (in_time timeout turns) =? length turns)%nat).
Proof.
  revert dm. induction turns as [|t turns IH]; intros dm; [done|]. cbn [watch_host in_time].
  case_bool; [done|]. cbn [mbind list_bind length]. unfold turn_events at 1.
  destruct (tn_found t), (tn_again t); cbn [negb andb]; try exact (IH dm).
  destruct (tn_stream t) as [events|]; [|exact (IH dm)].
  change (default [] (Some events)) with events.
  rewrite foldl_app. destruct (foldl EVENT (Ok dm) events) as [dm'|]; [exact (IH dm')|].
  by rewrite fold_Panic.
Qed.

Lemma in_time_cut timeout before t after :
  (timeout <= tn_time t)%Z →
  in_time timeout (before ++ t :: after) = in_time timeout before
  ∧ (length (in_time timeout before) <= length before)%nat.
Proof.
  intros Ht. induction before as [|t' before [IH1 IH2]]; cbn.
  - by rewrite (proj2 (Z.leb_le _ _)).
  - case_bool; [cbn; split; [done|lia]|]. rewrite IH1. cbn. split; [done|lia].
Qed.

(** C24: Host policies are handled in the order of the streams, but only those of streams that
    are opened before the time limit, which is meant for finding the resource: the first
    stream that breaks later is the last one, and the daemon takes no host policy any
    more. *)
Theorem late_host_policies_lost timeout before t after dm :
  (timeout <= tn_time t)%Z →
  WATCH timeout (before ++ t :: after) dm =
    (dm ← foldl EVENT (Ok dm) (in_time timeout before ≫= turn_events); Ok (dm, false)).
Proof.
  intros Ht. destruct (in_time_cut timeout before t after Ht) as [Hin Hlen].
  rewrite watch_events, Hin.
  assert ((length (in_time timeout before) =? length (before ++ t :: after))%nat = false) as ->; [|done].
  apply Nat.eqb_neq. rewrite length_app. cbn. lia.
Qed.

(** With a limit of zero nothing is handled at all. *)
Lemma no_time_no_policies turns dm :
  (∀ t, t ∈ turns → (0 <= tn_time t)%Z) → turns ≠ [] → WATCH 0 turns dm = Ok (dm, false).
Proof.
  destruct turns as [|t turns]; [done|]. intros Ht _. cbn.
  by rewrite (proj2 (Z.leb_le _ _)) by (apply Ht; left).
Qed.
End host.

(** *** The agent of virtual machines *)

Section kvm.
Context `{R : GoRange} {W : Type} `{B : !Backend W} (cfg : Settings).
Context (CompilePOSIX : string → option (string → bool)).
Context {Spec : Type} (MarshalHost : Spec → string)
        (UnmarshalHost : string → option HostSecuritySpec).
Context (decode : string → option (HostEvent Spec)).
Abbreviation STEP := (kvm_step cfg CompilePOSIX MarshalHost UnmarshalHost decode).
Abbreviation AGENT := (ConnectToKVMService cfg CompilePOSIX MarshalHost UnmarshalHost decode).
Abbreviation RUN := (foldl (λ r a, s ← r; STEP s a)).

(** The events that are handled: those received on an open stream while the agent runs *)
Fixpoint received (p : Phase) (answers : list Answer) : list string :=
  match answers with
  | [] => []
  | a :: answers =>
      match p with
      | Stopped => []
      | Connecting =>
          received (if an_stream a then Streaming else if an_dial a then Connecting else Stopped) answers
      | Streaming =>
          match an_received a with
          | RPolicy data => data :: received Streaming answers
          | REof => received Streaming answers
          | RError text =>
              received (if Contains text errIdentityRemoved then Stopped
                        else if an_dial a then Connecting else Stopped) answers
          end
      end
  end.

Lemma stopped_stays answers s : ks_phase s = Stopped → RUN (Ok s) answers = Ok s.
Proof.
  intros Hs. induction answers as [|a answers IH]; [done|]. cbn [foldl mbind Res_bind].
  unfold kvm_step. by rewrite Hs.
Qed.

(** A stream that has ended *)
Lemma eof_stays answers s :
  ks_phase s = Streaming → (∀ a, a ∈ answers → an_received a = REof) → RUN (Ok s) answers = Ok s.
Proof.
  intros Hs. induction answers as [|a answers IH]; [done|]. intros Ha. cbn [foldl mbind Res_bind].
  unfold kvm_step at 2. rewrite Hs, (Ha a) by left. apply IH. intros a' ?. apply Ha. by right.
Qed.

(** Once the service ends its stream, after which receiving goes on saying so, the agent
    is lost without noticing: it stays at the stream for ever, connects no more and takes no
    policy, whatever the service would answer. *)
Theorem kvm_stuck_after_eof before after dm s :
  AGENT before dm = Ok s → ks_phase s = Streaming →
  (∀ a, a ∈ after → an_received a = REof) →
  AGENT (before ++ after) dm = Ok s.
Proof.
  unfold ConnectToKVMService. intros Hs Hp Ha. rewrite foldl_app, Hs. by apply eof_stays.
Qed.

Definition status_of (data : string) : Z :=
  match decode data with Some _ => 0 | None => 1 end.

(** Each event that is received is answered, with one if it cannot be read. *)
Lemma kvm_answers answers s s' :
  RUN (Ok s) answers = Ok s' →
  ks_sent s' = (ks_sent s ++ (status_of <$> received (ks_phase s) answers))%list.
Proof.
  revert s. induction answers as [|a answers IH]; intros s; cbn [foldl received].
  { intros [= <-]. by rewrite app_nil_r. }
  change (Ok s ≫= λ s, STEP s a) with (STEP s a).
  destruct (STEP s a) as [s1|] eqn:Hs; [|by rewrite (foldl_Panic (λ a s, STEP s a))].
  intros H%IH. rewrite H. clear H IH. revert Hs. unfold kvm_step.
  destruct (ks_phase s) eqn:Hp.
  - destruct (an_stream a); [|unfold reconnect; destruct (an_dial a)]; intros [= <-]; done.
  - destruct (an_received a) as [d| |text].
    + unfold take_policy. destruct (decode d) as [e|] eqn:Hd.
      * intros H. go_res H. injection H as <-. cbn. unfold status_of at 2. by rewrite Hd, <- app_assoc.
      * intros [= <-]. cbn. unfold status_of at 2. by rewrite Hd, <- app_assoc.
    + intros [= <-]. by rewrite Hp.
    + destruct (Contains text errIdentityRemoved); [by intros [= <-]|].
      unfold reconnect. destruct (an_dial a); intros [= <-]; done.
  - intros [= <-]. rewrite Hp. by destruct answers.
Qed.
End kvm.

(** The daemon panics when the service refuses the registration: the error that is logged
    is not there. *)
Lemma kvm_refusal_panics m dial register server status :
  getgRPCAddress m = Some server → dial server = true →
  register (Getenv m "WORKLOAD_IDENTITY") = Some status → status ≠ 0 →
  NewKVMAgent m dial register = Panic.
Proof.
  intros Ha Hd Hr Hs. unfold NewKVMAgent. rewrite Ha, Hd, Hr. cbn [negb].
  by rewrite (proj2 (Z.eqb_neq _ _)).
Qed.

(** *** Witnesses *)

Section witnesses.
#[local] Existing Instance canonical_range.

Definition open_spec : HostSecuritySpec :=
  {| hs_NodeSelector := {| nsel_MatchLabels := ∅; nsel_Identities := [] |};
     hs_Process := empty_ProcessType; hs_File := empty_FileType;
     hs_Network := empty_NetworkType; hs_Capabilities := empty_CapabilitiesType;
     hs_Syscalls := empty_SyscallsType; hs_AppArmor := ""; hs_Severity := 0; hs_Tags := [];
     hs_Message := ""; hs_Action := "" |}.

(** The event that adds a host policy *)
Definition added (name : string) : HostEvent unit :=
  {| he_Type := addEvent; he_Name := name; he_Spec := tt; he_Status := "" |}.
Definition clone (_ : string) : option HostSecuritySpec := Some open_spec.

(** A turn whose stream adds a policy before it breaks *)
Definition stream_turn (time : Z) (name : string) : Turn unit :=
  {| tn_time := time; tn_found := true; tn_again := true; tn_stream := Some [added name] |}.
Definition host_names (r : Res (Daemon Trace * bool)) : option (list string * bool) :=
  match r with
  | Ok (dm, b) => Some (host_name <$> dm_HostSecurityPolicies dm, b) | Panic => None end.

(** With a limit of a minute, the stream that breaks after an hour is the last one. *)
Lemma late_host_policies_lost_witness :
  host_names (watch_host sample_cfg (λ _, None) (λ _, "") clone 60
                [stream_turn 1 "first"; stream_turn 3600 "second"] (sample_daemon [] []))
  = Some (["first"], false).
Proof.
  change [stream_turn 1 "first"; stream_turn 3600 "second"] with ([stream_turn 1 "first"] ++ stream_turn 3600 "second" :: [])%list.
  rewrite (late_host_policies_lost sample_cfg (λ _, None) (λ _, "") clone 60 [stream_turn 1 "first"]
             (stream_turn 3600 "second") [] (sample_daemon [] [])) by (cbn; lia).
  reflexivity.
Defined.

Definition answer (r : Received) : Answer :=
  {| an_stream := true; an_dial := true; an_received := r |}.

Lemma kvm_stuck_after_eof_witness :
  ∃ s, ConnectToKVMService sample_cfg (λ _, None) (λ _, "") clone (λ d, Some (added d))
         ([answer REof; answer (RPolicy "first"); answer REof] ++ [answer REof; answer REof])%list
         (sample_daemon [] ([] : Trace)) = Ok s
  ∧ ks_phase s = Streaming ∧ ks_sent s = [0%Z].
Proof.
  eexists. split.
  - eapply (kvm_stuck_after_eof sample_cfg (λ _, None) (λ _, "") clone (λ d, Some (added d))
              [answer REof; answer (RPolicy "first"); answer REof] [answer REof; answer REof]
              (sample_daemon [] ([] : Trace))); [reflexivity|reflexivity|].
    intros a Ha. repeat (apply elem_of_cons in Ha as [->|Ha]; [reflexivity|]).
    by apply elem_of_nil in Ha.
  - by split.
Defined.
End witnesses.
