(* ===== verification/Lifecycle.v ===== *)
(** Start and end of the daemon ([KubeArmor/core/kubeArmor.go], with [NewFeeder] of
    [KubeArmor/feeder/feeder.go]): in which order the parts are made, watched and served,
    what a failure on the way leads to, and what stops at the end.

    The run is the list of its actions.  What a part does once it runs is modelled where the
    part is; here an action stands for its start.  Messages of the log are left out. *)
From Stdlib Require Import Ascii String.
From S2P Require Import Prelude GoStrings GoPath Types Common NsMap Daemon Posture PodEvents Config K8sHandler Watchers.

Open Scope string_scope.

(** ** Actions *)

Inductive Part := Feeder | StateAgent | Monitor | Enforcer | Presets | KVMAgent.

#[export] Instance Part_eq_dec : EqDecision Part.
Proof. solve_decision. Defined.

(** Goroutines; durations are in nanoseconds. *)
Inductive Routine :=
| WatchK8sNodes | PushNodeEvent (n : Node) | MonitorSystemEvents
| MonitorDockerEvents | MonitorContainerdEvents | MonitorCrioEvents | MonitorNRIEvents
| ListenToHook
| WatchK8sPods | WatchHostSecurityPolicies (timeout : Z)
| ServeLogFeeds | SetKarmorData | ConnectToKVMService.

Inductive Watch :=
| SecurityPolicies | ClusterSecurityPolicies (timeout : Z) | DefaultPostures | ConfigMaps.

(** Services of the gRPC server; the policy service with what it accepts *)
Inductive Service :=
| LogService | HealthService | StateService | PolicyService (container host : bool)
| ProbeService | Reflection.

Inductive Action :=
| Init (p : Part) | Start (r : Routine) | Informer (w : Watch) | CacheSync
| Register (s : Service) | Serving (s : Service)
| WatchConfigChanges | SetContainerNSVisibility | GetAlreadyDeployedDockerContainers
| restoreKubeArmorPolicies | Signal
| CloseStopChan | Close (p : Part) | WaitRoutines | RemovePIDFile.

(** ** State *)

(** The settings that the detection of sockets changes are on their own. [lf_parts]: the
    parts that are there; [lf_actions]: what was done *)
Record Life := {
  lf_CRISocket : string; lf_NRISocket : string;
  lf_Node : Node; lf_K8sEnabled : bool;
  lf_parts : list Part; lf_actions : list Action }.

Definition set_CRISocket (s : string) (l : Life) : Life :=
  {| lf_CRISocket := s; lf_NRISocket := lf_NRISocket l; lf_Node := lf_Node l;
     lf_K8sEnabled := lf_K8sEnabled l; lf_parts := lf_parts l; lf_actions := lf_actions l |}.
Definition set_NRISocket (s : string) (l : Life) : Life :=
  {| lf_CRISocket := lf_CRISocket l; lf_NRISocket := s; lf_Node := lf_Node l;
     lf_K8sEnabled := lf_K8sEnabled l; lf_parts := lf_parts l; lf_actions := lf_actions l |}.
Definition set_lf_Node (n : Node) (l : Life) : Life :=
  {| lf_CRISocket := lf_CRISocket l; lf_NRISocket := lf_NRISocket l; lf_Node := n;
     lf_K8sEnabled := lf_K8sEnabled l; lf_parts := lf_parts l; lf_actions := lf_actions l |}.
Definition set_K8sEnabled (l : Life) : Life :=
  {| lf_CRISocket := lf_CRISocket l; lf_NRISocket := lf_NRISocket l; lf_Node := lf_Node l;
     lf_K8sEnabled := true; lf_parts := lf_parts l; lf_actions := lf_actions l |}.
Definition add_part (p : Part) (l : Life) : Life :=
  {| lf_CRISocket := lf_CRISocket l; lf_NRISocket := lf_NRISocket l; lf_Node := lf_Node l;
     lf_K8sEnabled := lf_K8sEnabled l; lf_parts := p :: lf_parts l;
     lf_actions := lf_actions l |}.
Definition add_action (a : Action) (l : Life) : Life :=
  {| lf_CRISocket := lf_CRISocket l; lf_NRISocket := lf_NRISocket l; lf_Node := lf_Node l;
     lf_K8sEnabled := lf_K8sEnabled l; lf_parts := lf_parts l;
     lf_actions := (lf_actions l ++ [a])%list |}.

Definition has (p : Part) (l : Life) : bool := bool_decide (p ∈ lf_parts l).

Definition NewKubeArmorDaemon (gc : KubearmorConfig) : Life :=
  {| lf_CRISocket := kc_CRISocket gc; lf_NRISocket := kc_NRISocket gc;
     lf_Node := zero_Node; lf_K8sEnabled := false; lf_parts := []; lf_actions := [] |}.

(** ** A monad for the run

    A step goes on with a value, or the function has returned ([None]), or it panics. *)

Definition Flow (A : Type) : Type := Life → Res (Life * option A).

#[export] Instance Flow_ret : MRet Flow := λ A a l, Ok (l, Some a).
#[export] Instance Flow_bind : MBind Flow := λ A B f m l,
  match m l with
  | Ok (l, Some a) => f a l
  | Ok (l, None) => Ok (l, None)
  | Panic => Panic
  end.

Definition asks {A} (f : Life → A) : Flow A := λ l, Ok (l, Some (f l)).
Definition change (f : Life → Life) : Flow unit := λ l, Ok (f l, Some tt).
Definition act (a : Action) : Flow unit := change (add_action a).
Definition lift {A} (r : Res A) : Flow A := λ l, a ← r; Ok (l, Some a).
Definition fatal {A} : Flow A := λ _, Panic.
Definition skip : Flow unit := mret tt.

(** A constructor's value becomes a part. *)
Definition init (p : Part) : Flow unit := _ ← act (Init p); change (add_part p).

(** ** What is outside *)

Record Outside := {
  o_machine : Machine;
  (* packages of Kubernetes, [K8s.InitK8sClient] *)
  o_ksp_client : bool; o_BuildConfigFromFlags : string → bool;
  o_NewForConfig : RestConfig → bool;
  (* [dm.Node] at a reading, after [WatchK8sNodes] was started *)
  o_node : nat → Node;
  (* [NewFeeder]: the log file, the port listened to, the file for its number, TLS *)
  o_OpenFile : string → bool; o_Listen : string → option Z;
  o_pid_file : bool; o_TLS : string → bool;
  (* [InitBPF]; the enforcer's type; presets that could be registered *)
  o_InitBPF : bool; o_enforcer : option string; o_presets : bool;
  (* the service of virtual machines: a connection, and the status of the registration *)
  o_dial : string → bool; o_register : string → option Z;
  (* informers that could be registered, once [Watchers] has found their resource, and
     whether they synced in time *)
  o_registered : Watch → bool; o_synced : bool;
  (* HMAC of a message under a key, in hexadecimal; the boot time; [time.ParseDuration] *)
  o_hmac : string → string → string;
  o_boot : string; o_ParseDuration : string → option Z }.

Definition PIDFilePath : string := "/opt/kubearmor/kubearmor.pid".
Definition second : Z := 1000000000.

Section run.
Context (gc : KubearmorConfig) (o : Outside).
Abbreviation m := (o_machine o).

(** ** The end *)

Definition close_part (p : Part) (l : Life) : Life :=
  if has p l then add_action (Close p) l else l.

(** Closing the channel twice would panic; what [Close] answers is only logged. *)
Definition DestroyKubeArmorDaemon : Flow unit :=
  closed ← asks (λ l, existsb (λ a, match a with CloseStopChan => true | _ => false end)
                        (lf_actions l));
  if (closed : bool) then fatal
  else
    _ ← act CloseStopChan;
    _ ← change (close_part Monitor);
    _ ← change (close_part Enforcer);
    _ ← change (close_part KVMAgent);
    _ ← change (close_part StateAgent);
    _ ← change (close_part Feeder);
    _ ← act WaitRoutines;
    if m_exists m PIDFilePath then act RemovePIDFile else skip.

(** Destruction and return *)
Definition leave {A} : Flow A := λ l, Ok (l, None).
Definition quit {A} : Flow A := _ ← DestroyKubeArmorDaemon; leave.

(** ** The node *)

(** [strings.Split(line, ": ")[1]] *)
Definition after_colon (line : string) : Res string :=
  match cut_at ": " line with
  | None => Panic
  | Some (_, rest) => Ok match cut_at ": " rest with None => rest | Some (v, _) => v end
  end.

(** The machine's identifier and the system's name, from the lines of [hostnamectl] *)
Definition host_line (r : Res (string * string)) (line : string) : Res (string * string) :=
  st ← r;
  id ← (if Contains line "Machine ID" then after_colon line else Ok st.1);
  os ← (if Contains line "Operating System" then after_colon line else Ok st.2);
  Ok (id, os).

Definition host_info : Res (string * string) :=
  foldl host_line (Ok ("", "")) (split newline (m_command m "hostnamectl" [])).

Definition host_annotated (ip : string) : Node :=
  HandleNodeAnnotations (IsInK8sCluster m)
    (default "" (m_ReadFile m "/sys/kernel/security/lsm")) (kc_HostVisibility gc)
    {| node_ClusterName := ""; node_NodeName := kc_Host gc; node_NodeIP := ip;
       node_NodeID := ""; node_Annotations := ∅;
       node_Labels := {[ "kubearmor.io/hostname" := kc_Host gc ]};
       node_Identities := ["kubearmor.io/hostname=" +:+ kc_Host gc];
       node_Architecture := ""; node_OperatingSystem := ""; node_OSImage := "";
       node_KernelVersion := ""; node_KubeletVersion := ""; node_ContainerRuntimeVersion := "";
       node_LastUpdatedAt := ""; node_PolicyEnabled := 0;
       node_ProcessVisibilityEnabled := false; node_FileVisibilityEnabled := false;
       node_NetworkVisibilityEnabled := false; node_CapabilitiesVisibilityEnabled := false |}.

Definition set_system (id os boot kernel : string) (n : Node) : Node :=
  {| node_ClusterName := node_ClusterName n; node_NodeName := node_NodeName n;
     node_NodeIP := node_NodeIP n; node_NodeID := id; node_Annotations := node_Annotations n;
     node_Labels := node_Labels n; node_Identities := node_Identities n;
     node_Architecture := node_Architecture n; node_OperatingSystem := node_OperatingSystem n;
     node_OSImage := os; node_KernelVersion := kernel;
     node_KubeletVersion := node_KubeletVersion n;
     node_ContainerRuntimeVersion := node_ContainerRuntimeVersion n;
     node_LastUpdatedAt := boot; node_PolicyEnabled := node_PolicyEnabled n;
     node_ProcessVisibilityEnabled := node_ProcessVisibilityEnabled n;
     node_FileVisibilityEnabled := node_FileVisibilityEnabled n;
     node_NetworkVisibilityEnabled := node_NetworkVisibilityEnabled n;
     node_CapabilitiesVisibilityEnabled := node_CapabilitiesVisibilityEnabled n |}.

Definition newline_string : string := String newline "".

Definition host_node : Flow unit :=
  ip ← lift (GetExternalIPAddr m);
  info ← lift host_info;
  _ ← change (set_lf_Node
                (set_system info.1 info.2 (o_boot o)
                   (TrimSuffix (m_command m "uname" ["-r"]) newline_string)
                   (host_annotated ip)));
  act WatchConfigChanges.

(** A second passes between two readings. *)
Fixpoint wait_node (more timeout : nat) : Flow unit :=
  let n := o_node o timeout in
  if negb (String.eqb (node_NodeIP n) "") then change (set_lf_Node n)
  else match more with
       | O => quit
       | S more => wait_node more (S timeout)
       end.

Definition init_k8s : bool :=
  (InitK8sClient m (kc_K8sEnv gc) (o_BuildConfigFromFlags o) (o_NewForConfig o)
     (NewK8sHandler m (o_ksp_client o))).2.

Definition k8s_node : Flow unit :=
  if negb init_k8s then quit
  else
    _ ← change set_K8sEnabled;
    _ ← act (Start WatchK8sNodes);
    wait_node 60 0.

Definition start_node : Flow unit :=
  if kc_KVMAgent gc || negb (kc_K8sEnv gc) && kc_HostPolicy gc then host_node
  else if kc_K8sEnv gc then k8s_node
  else skip.

Definition set_NodeID (id : string) (n : Node) : Node :=
  set_system id (node_OSImage n) (node_LastUpdatedAt n) (node_KernelVersion n) n.

Definition protect_node (n : Node) : Node :=
  let id := if String.eqb (node_NodeID n) ""
            then TrimSuffix (default "" (m_ReadFile m (kc_MachineIDPath gc))) newline_string
            else node_NodeID n in
  set_NodeID (o_hmac o id (node_NodeName n)) n.
Definition protect : Flow unit := change (λ l, set_lf_Node (protect_node (lf_Node l)) l).

(** ** The log and the state agent *)

(** The port of the feeder, whose server has the log service *)
Definition NewFeeder (nodeIP : string) : option string :=
  let Output := kc_LogPath gc in
  if negb (String.eqb Output "stdout") && negb (String.eqb Output "none")
     && negb (o_OpenFile o (Clean Output)) then None
  else
    let Port := ":" +:+ kc_GRPC gc in
    match o_Listen o Port with
    | None => None
    | Some port =>
        if String.eqb (kc_GRPC gc) "0" && negb (o_pid_file o) then None
        else if kc_TLSEnabled gc && negb (o_TLS o nodeIP) then None
        else Some (if String.eqb (kc_GRPC gc) "0" then ":" +:+ Itoa port else Port)
    end.

Definition init_logger : Flow unit :=
  n ← asks lf_Node;
  match NewFeeder (node_NodeIP n) with
  | None => quit
  | Some _ =>
      _ ← init Feeder;
      _ ← act (Register LogService);
      act (Register HealthService)
  end.

Definition set_ClusterName (c : string) (n : Node) : Node :=
  {| node_ClusterName := c; node_NodeName := node_NodeName n;
     node_NodeIP := node_NodeIP n; node_NodeID := node_NodeID n;
     node_Annotations := node_Annotations n; node_Labels := node_Labels n;
     node_Identities := node_Identities n; node_Architecture := node_Architecture n;
     node_OperatingSystem := node_OperatingSystem n; node_OSImage := node_OSImage n;
     node_KernelVersion := node_KernelVersion n; node_KubeletVersion := node_KubeletVersion n;
     node_ContainerRuntimeVersion := node_ContainerRuntimeVersion n;
     node_LastUpdatedAt := node_LastUpdatedAt n; node_PolicyEnabled := node_PolicyEnabled n;
     node_ProcessVisibilityEnabled := node_ProcessVisibilityEnabled n;
     node_FileVisibilityEnabled := node_FileVisibilityEnabled n;
     node_NetworkVisibilityEnabled := node_NetworkVisibilityEnabled n;
     node_CapabilitiesVisibilityEnabled := node_CapabilitiesVisibilityEnabled n |}.

(** [NewStateAgent] never fails. *)
Definition init_state : Flow unit :=
  k8s ← asks lf_K8sEnabled;
  if negb k8s && kc_StateAgent gc then
    _ ← change (λ l, set_lf_Node (set_ClusterName (kc_Cluster gc) (lf_Node l)) l);
    _ ← init StateAgent;
    _ ← act (Register StateService);
    _ ← act (Serving StateService);
    n ← asks lf_Node;
    act (Start (PushNodeEvent n))
  else skip.

(** ** Monitor, enforcer and presets *)

Definition init_enforcement : Flow unit :=
  if kc_Policy gc || kc_HostPolicy gc then
    _ ← init Monitor;
    if negb (o_InitBPF o) then quit
    else
      _ ← act (Start MonitorSystemEvents);
      _ ← (match o_enforcer o with Some _ => init Enforcer | None => skip end);
      if o_presets o then init Presets else skip
  else skip.

(** [dm.SystemMonitor.Logger.ContainerNsKey = ...] *)
Definition reset_NsKeys : Flow unit :=
  monitor ← asks (has Monitor);
  if (monitor : bool) then skip else fatal.

(** ** Containers *)

Definition checkNRIAvailability : Flow bool :=
  s ← asks lf_NRISocket;
  if String.eqb s "" then
    if String.eqb (GetNRISocket m) "" then mret false
    else _ ← change (set_NRISocket (GetNRISocket m)); mret true
  else mret (m_exists m s).

Definition monitor_docker : Flow unit :=
  _ ← act GetAlreadyDeployedDockerContainers; act (Start MonitorDockerEvents).

(** The socket given or found, and whether it is there *)
Definition find_socket : Flow bool :=
  s ← asks lf_CRISocket;
  if String.eqb s "" then
    if String.eqb (GetCRISocket m "") "" then mret false
    else _ ← change (set_CRISocket ("unix://" +:+ GetCRISocket m "")); mret true
  else mret (m_exists m (TrimPrefix s "unix://")).

(** Without Kubernetes; whether policies of containers are enabled *)
Definition unorchestrated_containers : Flow bool :=
  found ← find_socket;
  if negb found then mret false
  else
    _ ← act SetContainerNSVisibility;
    s ← asks lf_CRISocket;
    if Contains s "docker" then _ ← monitor_docker; mret true
    else if Contains s "containerd" then
      nri ← (if kc_NRIEnabled gc then checkNRIAvailability else mret false : Flow bool);
      _ ← (if (nri : bool) then act (Start MonitorNRIEvents)
           else act (Start MonitorContainerdEvents));
      mret true
    else if Contains s "cri-o" then _ ← act (Start MonitorCrioEvents); mret true
    else mret false.

(** The socket given in the settings, or the end *)
Definition given_socket (version : string) : Flow unit :=
  s ← asks lf_CRISocket;
  if negb (m_exists m (TrimPrefix s "unix://")) then quit
  else if Contains version "docker" || Contains s "docker" then monitor_docker
  else if Contains version "containerd" || Contains s "containerd"
  then act (Start MonitorContainerdEvents)
  else if Contains version "cri-o" || Contains s "cri-o" then act (Start MonitorCrioEvents)
  else quit.

Definition use_socket (socketFile : string) (monitor : Flow unit) (otherwise : Flow unit)
    : Flow unit :=
  if String.eqb socketFile "" then otherwise
  else _ ← change (set_CRISocket ("unix://" +:+ socketFile)); monitor.

Definition detected_socket (version : string) : Flow unit :=
  let containerd := use_socket (GetCRISocket m "containerd")
                      (act (Start MonitorContainerdEvents)) quit in
  if HasPrefix version "docker" then
    use_socket (GetCRISocket m "docker") monitor_docker containerd
  else if HasPrefix version "containerd" then containerd
  else if HasPrefix version "cri-o" then
    use_socket (GetCRISocket m "cri-o") (act (Start MonitorCrioEvents)) quit
  else skip.

Definition use_hooks (version : string) : Flow bool :=
  if negb (kc_UseOCIHooks gc) then mret false
  else if Contains version "cri-o" then mret true
  else if Contains version "containerd" then checkNRIAvailability
  else mret false.

Definition k8s_containers : Flow unit :=
  n ← asks lf_Node;
  let version := node_ContainerRuntimeVersion n in
  hooks ← use_hooks version;
  if (hooks : bool) then act (Start ListenToHook)
  else
    nri ← checkNRIAvailability;
    if (nri : bool) then act (Start MonitorNRIEvents)
    else
      s ← asks lf_CRISocket;
      if negb (String.eqb s "") then given_socket version else detected_socket version.

(** Whether policies of containers are enabled *)
Definition containers : Flow bool :=
  k8s ← asks lf_K8sEnabled;
  enabled ← (if negb k8s && kc_Policy gc then unorchestrated_containers
             else mret true : Flow bool);
  _ ← (if k8s && kc_Policy gc then k8s_containers else skip);
  mret enabled.

(** ** Policies *)

Definition informer (w : Watch) : Flow unit :=
  if o_registered o w then act (Informer w) else quit.

Definition k8s_policies (timeout : Z) : Flow unit :=
  _ ← informer SecurityPolicies;
  _ ← (if o_registered o (ClusterSecurityPolicies timeout)
       then act (Informer (ClusterSecurityPolicies timeout)) else skip);
  _ ← informer DefaultPostures;
  _ ← informer ConfigMaps;
  if o_synced o then _ ← act CacheSync; act (Start WatchK8sPods) else quit.

Definition set_PolicyEnabled (n : Node) : Node :=
  {| node_ClusterName := node_ClusterName n; node_NodeName := node_NodeName n;
     node_NodeIP := node_NodeIP n; node_NodeID := node_NodeID n;
     node_Annotations := node_Annotations n; node_Labels := node_Labels n;
     node_Identities := node_Identities n; node_Architecture := node_Architecture n;
     node_OperatingSystem := node_OperatingSystem n; node_OSImage := node_OSImage n;
     node_KernelVersion := node_KernelVersion n; node_KubeletVersion := node_KubeletVersion n;
     node_ContainerRuntimeVersion := node_ContainerRuntimeVersion n;
     node_LastUpdatedAt := node_LastUpdatedAt n; node_PolicyEnabled := KubeArmorPolicyEnabled;
     node_ProcessVisibilityEnabled := node_ProcessVisibilityEnabled n;
     node_FileVisibilityEnabled := node_FileVisibilityEnabled n;
     node_NetworkVisibilityEnabled := node_NetworkVisibilityEnabled n;
     node_CapabilitiesVisibilityEnabled := node_CapabilitiesVisibilityEnabled n |}.

Definition policy_service (enableContainerPolicy : bool) : Flow unit :=
  _ ← (if kc_HostPolicy gc
       then change (λ l, set_lf_Node (set_PolicyEnabled (lf_Node l)) l) else skip);
  _ ← act (Register (PolicyService enableContainerPolicy (kc_HostPolicy gc)));
  _ ← act (Register ProbeService);
  _ ← act (Serving (PolicyService enableContainerPolicy (kc_HostPolicy gc)));
  act (Serving ProbeService).

(** The duration is zero when it cannot be read; only the first use corrects that. *)
Definition policies (enableContainerPolicy : bool) : Flow unit :=
  k8s ← asks lf_K8sEnabled;
  let parsed := o_ParseDuration o (kc_InitTimeout gc) in
  let timeout := if k8s && kc_Policy gc then default (60 * second)%Z parsed
                 else default 0%Z parsed in
  _ ← (if k8s && kc_Policy gc then k8s_policies timeout else skip);
  _ ← (if k8s && kc_HostPolicy gc then act (Start (WatchHostSecurityPolicies timeout)) else skip);
  if negb k8s && (enableContainerPolicy || kc_HostPolicy gc)
  then policy_service enableContainerPolicy else skip.

(** ** Service and end *)

Definition serve : Flow unit :=
  _ ← act (Register Reflection);
  _ ← act (Start ServeLogFeeds);
  _ ← act (Serving LogService);
  act (Start SetKarmorData).

Definition restore : Flow unit :=
  k8s ← asks lf_K8sEnabled;
  if kc_KVMAgent gc || negb k8s then act restoreKubeArmorPolicies else skip.

Definition init_kvm : Flow unit :=
  if kc_KVMAgent gc then
    agent ← lift (NewKVMAgent m (o_dial o) (o_register o));
    match agent with
    | Some _ => _ ← init KVMAgent; act (Start ConnectToKVMService)
    | None => quit
    end
  else skip.

Definition finish : Flow unit :=
  _ ← (if kc_CoverageTest gc then skip else act Signal);
  DestroyKubeArmorDaemon.

Definition KubeArmor : Flow unit :=
  _ ← start_node;
  _ ← protect;
  _ ← init_logger;
  _ ← init_state;
  _ ← init_enforcement;
  _ ← reset_NsKeys;
  enabled ← containers;
  _ ← policies enabled;
  _ ← serve;
  _ ← restore;
  _ ← init_kvm;
  finish.

(** The daemon as it is left *)
Definition run_daemon : Res Life :=
  r ← KubeArmor (NewKubeArmorDaemon gc); Ok r.1.
End run.

(** ** The program *)

(** Files of the map directory that are deleted at the start: entries, with whether they are
    directories *)
Definition stale_maps (entries : list (string * bool)) : list string :=
  fst <$> filter (λ e : string * bool, negb e.2 && HasPrefix e.1 "kubearmor" = true) entries.

Inductive MainResult := NoRoot | NoMaps | NoDirectory | NoConfig (e : ConfigError)
  | Ran (deleted : list string) (l : Res Life).

(** [root]: the effective user is root, or the image is the one without; [directory]: the
    program's directory can be entered *)
Definition main (root directory : bool) (entries : option (list (string * bool)))
    (config : KubearmorConfig + ConfigError) (o : Outside) : MainResult :=
  if negb root then NoRoot
  else match entries with
       | None => NoMaps
       | Some entries =>
           if negb directory then NoDirectory
           else match config with
                | inr e => NoConfig e
                | inl gc => Ran (stale_maps entries) (run_daemon gc o)
                end
       end.
