(* ===== verification/LifecycleProps.v ===== *)
(** What holds of every run of the daemon ([Lifecycle]): the order of its actions, that it
    stops what it has started, and when it crashes. *)
From Stdlib Require Import Ascii String.
From stdpp Require Import sorting.
From S2P Require Import Prelude GoStrings GoPath Types Common NsMap Daemon Posture PodEvents Config K8sHandler Watchers Lifecycle.

Open Scope string_scope.
Open Scope nat_scope.

(** ** Order

    The place of an action in a run.  The sources of containers share one, as do the two
    ways to learn about the node. *)

Definition stage (a : Action) : nat :=
  match a with
  | WatchConfigChanges | Start WatchK8sNodes => 0
  | Init Feeder => 1 | Register LogService => 2 | Register HealthService => 3
  | Init StateAgent => 4 | Register StateService => 5 | Serving StateService => 6
  | Start (PushNodeEvent _) => 7
  | Init Monitor => 8 | Start MonitorSystemEvents => 9 | Init Enforcer => 10 | Init Presets => 11
  | SetContainerNSVisibility => 12 | GetAlreadyDeployedDockerContainers => 13
  | Start MonitorDockerEvents | Start MonitorContainerdEvents | Start MonitorCrioEvents
  | Start MonitorNRIEvents | Start ListenToHook => 14
  | Informer SecurityPolicies => 15 | Informer (ClusterSecurityPolicies _) => 16
  | Informer DefaultPostures => 17 | Informer ConfigMaps => 18 | CacheSync => 19
  | Start WatchK8sPods => 20 | Start (WatchHostSecurityPolicies _) => 21
  | Register (PolicyService _ _) => 22 | Register ProbeService => 23
  | Serving (PolicyService _ _) => 24 | Serving ProbeService => 25
  | Register Reflection => 26 | Start ServeLogFeeds => 27 | Serving LogService => 28
  | Start SetKarmorData => 29 | restoreKubeArmorPolicies => 30
  | Init KVMAgent => 31 | Start ConnectToKVMService => 32 | Signal => 33
  | CloseStopChan => 34 | Close Monitor => 35 | Close Enforcer => 36 | Close KVMAgent => 37
  | Close StateAgent => 38 | Close Feeder => 39 | Close Presets => 40
  | WaitRoutines => 41 | RemovePIDFile => 42
  | Serving HealthService | Serving Reflection => 43
  end.

(** Increasing stages, all of them at least [n] and less than [k] *)
Fixpoint between (n k : nat) (as_ : list Action) : bool :=
  match as_ with
  | [] => n <=? k
  | a :: as_ => (n <=? stage a) && between (S (stage a)) k as_
  end.

Lemma between_app n k l n' l' :
  between n n' l = true → between n' k l' = true → between n k (l ++ l') = true.
Proof.
  revert n. induction l as [|a l IH]; intros n; cbn.
  - intros Hn. apply Nat.leb_le in Hn. destruct l' as [|b l']; cbn.
    + rewrite !Nat.leb_le. lia.
    + rewrite !andb_true_iff, !Nat.leb_le. intros [??]. split; [lia|done].
  - rewrite !andb_true_iff. intros [? H] ?. split; [done|]. by apply IH.
Qed.

Lemma between_one n k a : n <= stage a → stage a < k → between n k [a] = true.
Proof. intros. unfold between. rewrite andb_true_iff, !Nat.leb_le. lia. Qed.

Lemma between_le n k l : between n k l = true → n <= k.
Proof.
  revert n. induction l as [|a l IH]; intros n; cbn.
  - by rewrite Nat.leb_le.
  - rewrite andb_true_iff, Nat.leb_le. intros [? Hl%IH]. lia.
Qed.

Lemma between_stage n k l a : between n k l = true → a ∈ l → n <= stage a < k.
Proof.
  revert n. induction l as [|b l IH]; intros n; cbn; [by intros _ ?%not_elem_of_nil|].
  rewrite andb_true_iff, Nat.leb_le. intros [Hb Hl] [->|Hin]%elem_of_cons.
  - apply between_le in Hl. lia.
  - specialize (IH _ Hl Hin). lia.
Qed.

Lemma between_sorted n k l : between n k l = true → StronglySorted lt (stage <$> l).
Proof.
  revert n. induction l as [|a l IH]; intros n; cbn; [constructor|].
  rewrite andb_true_iff. intros [_ Hl]. constructor; [by eapply IH|].
  apply list.Forall_forall. intros s (b & -> & Hb)%list_elem_of_fmap.
  pose proof (between_stage _ _ _ _ Hl Hb). lia.
Qed.

(** ** Runs

    [sound n l]: the actions before stage [n], none of them an action of the end, and
    the parts that are there are those that were made. *)

Record sound (n : nat) (l : Life) : Prop := {
  so_order : between 0 n (lf_actions l) = true;
  so_end : n <= 34;
  so_parts : ∀ p, p ∈ lf_parts l ↔ Init p ∈ lf_actions l }.

(** The actions of the end *)
Definition closing (p : Part) (ps : list Part) : list Action :=
  if bool_decide (p ∈ ps) then [Close p] else [].
Definition shutdown (pid : bool) (ps : list Part) : list Action :=
  CloseStopChan :: closing Monitor ps ++ closing Enforcer ps ++ closing KVMAgent ps
    ++ closing StateAgent ps ++ closing Feeder ps
    ++ WaitRoutines :: (if pid then [RemovePIDFile] else []).

Definition ended (pid : bool) (l : Life) : Prop :=
  ∃ l0, sound 34 l0 ∧ lf_actions l = (lf_actions l0 ++ shutdown pid (lf_parts l0))%list.

Create HintDb flow.

Section flows.
Context (gc : KubearmorConfig) (o : Outside).
Abbreviation pid := (m_exists (o_machine o) PIDFilePath).

(** Output of commands and answers of services for which a run may crash *)
Definition unreadable : Prop :=
  GetExternalIPAddr (o_machine o) = Panic ∨ host_info o = Panic
  ∨ NewKVMAgent (o_machine o) (o_dial o) (o_register o) = Panic.
Definition unprotected : bool := negb (kc_Policy gc || kc_HostPolicy gc).
Definition crash : Prop := unreadable ∨ unprotected = true.

(** From [sound n] a step goes on with [sound k], ends, or crashes with a reason. *)
Definition flows {A} (n : nat) (m : Flow A) (k : nat) : Prop :=
  ∀ l, sound n l →
    match m l with
    | Ok (l', Some _) => sound k l'
    | Ok (l', None) => ended pid l'
    | Panic => crash
    end.

Lemma flows_bind {A B} n k k' (m : Flow A) (f : A → Flow B) :
  flows n m k → (∀ a, flows k (f a) k') → flows n (m ≫= f) k'.
Proof.
  intros Hm Hf l Hl. specialize (Hm l Hl). unfold mbind, Flow_bind.
  destruct (m l) as [[l' [a|]]|]; [|done|done]. by apply Hf.
Qed.

Lemma sound_le n k l : sound n l → n <= k → k <= 34 → sound k l.
Proof.
  intros [Ho He Hp] Hn Hk. split; [|done|done]. rewrite <- (app_nil_r (lf_actions l)).
  apply between_app with n; [done|]. by apply Nat.leb_le.
Qed.

Lemma flows_le {A} n k k' (m : Flow A) : flows n m k → k <= k' → k' <= 34 → flows n m k'.
Proof.
  intros Hm Hk Hk' l Hl. specialize (Hm l Hl).
  destruct (m l) as [[l' [a|]]|]; [|done|done]. by apply sound_le with k.
Qed.

Lemma flows_ret {A} n (a : A) : flows n (mret a) n.
Proof. by intros l Hl. Qed.

Lemma flows_asks {A} n (f : Life → A) : flows n (asks f) n.
Proof. by intros l Hl. Qed.

Lemma flows_if {A} n k (b : bool) (m m' : Flow A) :
  flows n m k → flows n m' k → flows n (if b then m else m') k.
Proof. by destruct b. Qed.

(** Changes of the node and of the sockets *)
Lemma flows_change n f :
  (∀ l, lf_parts (f l) = lf_parts l ∧ lf_actions (f l) = lf_actions l) → flows n (change f) n.
Proof.
  intros Hf l [Ho He Hp]. cbn. destruct (Hf l) as [Hp' Ha]. split; by rewrite ?Ha, ?Hp'.
Qed.

Lemma in_actions p a l :
  a ≠ Init p → Init p ∈ (lf_actions l ++ [a])%list ↔ Init p ∈ lf_actions l.
Proof.
  intros Ha. rewrite elem_of_app, list_elem_of_singleton. split; [intros [?|?]; [done|congruence]|by left].
Qed.

Lemma flows_act n k a :
  n <= stage a → stage a < k → k <= 34 → (∀ p, a ≠ Init p) → flows n (act a) k.
Proof.
  intros Hn Hk Hk' Ha l [Ho He Hp]. cbn. split; [|done|].
  - cbn [add_action add_part lf_actions]. apply between_app with n; [done|]. by apply between_one.
  - intros p. cbn. by rewrite in_actions, Hp.
Qed.

Lemma flows_init n k p :
  n <= stage (Init p) → stage (Init p) < k → k <= 34 → flows n (init p) k.
Proof.
  intros Hn Hk Hk' l [Ho He Hp]. cbn. split; [|done|].
  - cbn [add_action add_part lf_actions]. apply between_app with n; [done|]. by apply between_one.
  - intros p'. cbn. rewrite elem_of_cons, Hp, elem_of_app, list_elem_of_singleton.
    naive_solver.
Qed.

Definition is_close (a : Action) : bool :=
  match a with CloseStopChan => true | _ => false end.

Lemma not_closed n l : sound n l → existsb is_close (lf_actions l) = false.
Proof.
  intros [Ho He _]. apply not_true_is_false. intros (a & Ha & Hc)%existsb_exists.
  destruct a; try done. apply list_elem_of_In in Ha.
  pose proof (between_stage _ _ _ _ Ho Ha) as Hs. cbn in Hs. lia.
Qed.

Lemma close_part_parts p l : lf_parts (close_part p l) = lf_parts l.
Proof. unfold close_part. by case_bool. Qed.

Lemma close_part_actions p l :
  lf_actions (close_part p l) = (lf_actions l ++ closing p (lf_parts l))%list.
Proof. unfold close_part, closing, has. case_bool; cbn; by rewrite ?app_nil_r. Qed.

Lemma destroy_actions l :
  existsb is_close (lf_actions l) = false →
  ∃ l', DestroyKubeArmorDaemon o l = Ok (l', Some tt)
  ∧ lf_actions l' = (lf_actions l ++ shutdown pid (lf_parts l))%list.
Proof.
  intros Hc. unfold is_close in Hc.
  unfold DestroyKubeArmorDaemon, asks, change, act, mbind, Flow_bind. rewrite Hc. cbn.
  destruct pid; cbn; (eexists; split; [reflexivity|]); cbn;
    rewrite !close_part_actions, !close_part_parts; cbn; unfold shutdown; by rewrite <- !app_assoc.
Qed.

Lemma flows_quit {A} n k : flows n (quit o : Flow A) k.
Proof.
  intros l Hl. destruct (destroy_actions l (not_closed n l Hl)) as (l' & Hd & Ha).
  unfold quit, mbind, Flow_bind. rewrite Hd. cbn.
  exists l. split; [|done]. apply sound_le with n; [done| |lia]. by destruct Hl.
Qed.

Lemma flows_quit' {A} n : flows n (quit o : Flow A) n.
Proof. apply flows_quit. Qed.

Lemma flows_if' {A} n k k' (b : bool) (m m' : Flow A) :
  flows n m k → flows n m' k' → k <= 34 → k' <= 34 → flows n (if b then m else m') (k `max` k').
Proof. intros. destruct b; [apply flows_le with k|apply flows_le with k']; auto; lia. Qed.

Lemma flows_option {A B} n k k' (x : option B) (m : B → Flow A) (m' : Flow A) :
  (∀ b, flows n (m b) k) → flows n m' k' → k <= 34 → k' <= 34 →
  flows n (match x with Some b => m b | None => m' end) (k `max` k').
Proof.
  intros. destruct x; [apply flows_le with k|apply flows_le with k']; auto; lia.
Qed.

Lemma flows_lift {A} n (r : Res A) : (r = Panic → crash) → flows n (lift r) n.
Proof. intros Hr l Hl. unfold lift. destruct r; cbn; auto. Qed.

Lemma flows_use_socket n k k' s (m m' : Flow unit) :
  flows n m k → flows n m' k' → k <= 34 → k' <= 34 → flows n (use_socket s m m') (k `max` k').
Proof.
  intros. unfold use_socket. rewrite Nat.max_comm. apply flows_if'; [done| |done|done].
  apply flows_bind with n; [by apply flows_change|done].
Qed.

(** The stage that a sequence of steps comes to is computed along it. *)
Ltac flow :=
  lazymatch goal with
  | |- flows _ (_ ≫= _) _ => eapply flows_bind; [flow|intro; cbn beta; flow]
  | |- flows _ (match ?x with Some _ => _ | None => _ end) _ =>
      eapply flows_option; [intro; cbn beta; flow|flow|cbn; lia|cbn; lia]
  | |- flows _ (use_socket _ _ _) _ =>
      eapply flows_use_socket; [flow|flow|cbn; lia|cbn; lia]
  | |- flows _ (if _ then _ else _) _ => eapply flows_if'; [flow|flow|cbn; lia|cbn; lia]
  | |- flows ?n (act ?a) _ =>
      let k := eval cbn in (S (stage a)) in
      apply (flows_act n k); [cbn; lia|cbn; lia|lia|done]
  | |- flows ?n (init ?p) _ =>
      let k := eval cbn in (S (stage (Init p))) in
      apply (flows_init n k); [cbn; lia|cbn; lia|lia]
  | |- flows _ (quit _) _ => apply flows_quit'
  | |- flows _ (asks _) _ => apply flows_asks
  | |- flows _ (change _) _ => apply flows_change; done
  | |- flows _ skip _ => apply flows_ret
  | |- flows _ (lift _) _ => apply flows_lift; unfold crash, unreadable; by auto
  | |- flows _ (mret _) _ => apply flows_ret
  | |- flows _ _ _ => solve [eauto with flow]
  end.
Ltac flow_to := eapply flows_le; [flow|cbn; lia|lia].

Lemma flows_wait more timeout : flows 1 (wait_node o more timeout) 1.
Proof. revert timeout. induction more as [|more IH]; intros timeout; cbn; flow_to. Qed.
#[local] Hint Resolve flows_wait : flow.

Lemma flows_node : flows 0 (start_node gc o) 1.
Proof. unfold start_node, host_node, k8s_node. flow_to. Qed.

Lemma flows_logger : flows 1 (_ ← protect gc o; init_logger gc o) 4.
Proof. unfold protect, init_logger. flow_to. Qed.

Lemma flows_state : flows 4 (init_state gc) 8.
Proof. unfold init_state. flow_to. Qed.

Lemma flows_enforcement : flows 8 (init_enforcement gc o) 12.
Proof. unfold init_enforcement. flow_to. Qed.

Lemma flows_nri n : n <= 34 → flows n (checkNRIAvailability o) n.
Proof. intros. unfold checkNRIAvailability. flow_to. Qed.

Lemma flows_docker n : n <= 13 → flows n monitor_docker 15.
Proof. intros. unfold monitor_docker. flow_to. Qed.
#[local] Hint Resolve flows_nri flows_docker : flow.
#[local] Hint Extern 1 (_ <= _) => lia : flow.

Lemma flows_unorchestrated : flows 12 (unorchestrated_containers gc o) 15.
Proof. unfold unorchestrated_containers, find_socket. flow_to. Qed.

Lemma flows_k8s_containers : flows 12 (k8s_containers gc o) 15.
Proof.
  unfold k8s_containers, use_hooks, given_socket, detected_socket.
  flow_to.
Qed.
#[local] Hint Resolve flows_unorchestrated flows_k8s_containers : flow.

Lemma flows_containers : flows 12 (containers gc o) 15.
Proof.
  unfold containers. apply flows_bind with 12; [apply flows_asks|]. intros [|]; cbn; flow_to.
Qed.

Lemma flows_policies enabled : flows 15 (policies gc o enabled) 26.
Proof. unfold policies, k8s_policies, informer, policy_service. flow_to. Qed.

Lemma flows_serve : flows 26 (_ ← serve; _ ← restore gc; init_kvm gc o) 33.
Proof. unfold serve, restore, init_kvm. flow_to. Qed.

Lemma quit_leaves {A} l l' (a : A) : quit o l ≠ Ok (l', Some a).
Proof. unfold quit, mbind, Flow_bind. by destruct (DestroyKubeArmorDaemon o l) as [[? [?|]]|]. Qed.

Lemma monitor_there l l' a :
  init_enforcement gc o l = Ok (l', Some a) → unprotected = false → has Monitor l' = true.
Proof.
  unfold unprotected, init_enforcement. intros H Hp. apply negb_false_iff in Hp.
  rewrite Hp in H. unfold init, mbind, Flow_bind, act, change in H.
  destruct (o_InitBPF o); cbn in H; [|by apply quit_leaves in H].
  unfold has. apply bool_decide_eq_true.
  destruct (o_enforcer o), (o_presets o); cbn in H;
    unfold skip, mret, Flow_ret in H; simplify_eq; cbn;
    rewrite !elem_of_cons; auto.
Qed.

Lemma flows_monitor : flows 8 (_ ← init_enforcement gc o; reset_NsKeys) 12.
Proof.
  intros l Hl. generalize (flows_enforcement l Hl). unfold mbind, Flow_bind.
  destruct (init_enforcement gc o l) as [[l' [a|]]|] eqn:Hr; intros He; [|done|done].
  unfold reset_NsKeys, asks, skip, fatal, mbind, Flow_bind, mret, Flow_ret.
  destruct (has Monitor l') eqn:Hm; [done|]. right.
  destruct unprotected eqn:Hp; [done|]. by rewrite (monitor_there _ _ _ Hr Hp) in Hm.
Qed.

Lemma finish_ends l : sound 33 l → ∃ l', finish gc o l = Ok (l', Some tt) ∧ ended pid l'.
Proof.
  intros Hl. unfold finish.
  assert (∃ l1, (if kc_CoverageTest gc then skip else act Signal) l = Ok (l1, Some tt)
                ∧ sound 34 l1) as (l1 & H1 & Hl1).
  { case_bool; [exists l; split; [done|]; by apply sound_le with 33; [|lia|lia]|].
    eexists. split; [reflexivity|]. by apply (flows_act 33 34 Signal ltac:(cbn; lia) ltac:(cbn; lia)). }
  unfold mbind, Flow_bind. rewrite H1. destruct (destroy_actions l1 (not_closed 34 l1 Hl1)) as (l' & -> & Ha).
  exists l'. split; [done|]. by exists l1.
Qed.

Lemma sound_new : sound 0 (NewKubeArmorDaemon gc).
Proof. split; [done|lia|]. intros p. cbn. by split; intros ?%not_elem_of_nil. Qed.

Lemma run_ends : match run_daemon gc o with Ok l => ended pid l | Panic => crash end.
Proof.
  assert (Hf : flows 0 (_ ← start_node gc o; _ ← (_ ← protect gc o; init_logger gc o);
                        _ ← init_state gc; _ ← (_ ← init_enforcement gc o; reset_NsKeys);
                        enabled ← containers gc o; _ ← policies gc o enabled;
                        (_ ← serve; _ ← restore gc; init_kvm gc o)) 33).
  { eapply flows_bind; [apply flows_node|intros _].
    eapply flows_bind; [apply flows_logger|intros _].
    eapply flows_bind; [apply flows_state|intros _].
    eapply flows_bind; [apply flows_monitor|intros _].
    eapply flows_bind; [apply flows_containers|intros enabled].
    eapply flows_bind; [apply flows_policies|intros _; apply flows_serve]. }
  specialize (Hf _ sound_new). unfold run_daemon, KubeArmor.
  revert Hf. unfold mbind, Flow_bind.
  destruct (start_node gc o _) as [[l1 [[]|]]|]; [|done|done].
  destruct (protect gc o l1) as [[l2 [[]|]]|]; [|done|done].
  destruct (init_logger gc o l2) as [[l3 [[]|]]|]; [|done|done].
  destruct (init_state gc l3) as [[l4 [[]|]]|]; [|done|done].
  destruct (init_enforcement gc o l4) as [[l5 [[]|]]|]; [|done|done].
  destruct (reset_NsKeys l5) as [[l6 [[]|]]|]; [|done|done].
  destruct (containers gc o l6) as [[l7 [enabled|]]|]; [|done|done].
  destruct (policies gc o enabled l7) as [[l8 [[]|]]|]; [|done|done].
  destruct (serve l8) as [[l9 [[]|]]|]; [|done|done].
  destruct (restore gc l9) as [[l10 [[]|]]|]; [|done|done].
  destruct (init_kvm gc o l10) as [[l11 [[]|]]|]; [|done|done].
  intros Hl. destruct (finish_ends l11 Hl) as (l' & -> & Hl'). done.
Qed.
End flows.

(** ** What holds of a run *)

Lemma StronglySorted_lookup {A} (R : A → A → Prop) l i j x y :
  StronglySorted R l → l !! i = Some x → l !! j = Some y → i < j → R x y.
Proof.
  intros Hl Hx Hy Hij. rewrite <- (take_drop (S i) l) in Hl.
  apply (StronglySorted_app_1_elem_of R _ _ x y Hl).
  - apply list_elem_of_lookup_2 with i. rewrite lookup_take_lt by lia. done.
  - apply list_elem_of_lookup_2 with (j - S i). rewrite lookup_drop. by replace (S i + (j - S i)) with j by lia.
Qed.

Lemma shutdown_between pid ps : between 34 43 (shutdown pid ps) = true.
Proof. unfold shutdown, closing. by repeat case_bool. Qed.

Lemma elem_of_closing p q ps : Close p ∈ closing q ps ↔ p = q ∧ q ∈ ps.
Proof.
  unfold closing. case_bool_decide as Hq.
  - rewrite list_elem_of_singleton. split; [intros [= ->]; done|by intros [-> _]].
  - split; [by intros ?%not_elem_of_nil|by intros [_ ?]].
Qed.

Lemma shutdown_closes pid ps p : Close p ∈ shutdown pid ps ↔ p ∈ ps ∧ p ≠ Presets.
Proof.
  unfold shutdown. rewrite elem_of_cons, !elem_of_app, !elem_of_closing, elem_of_cons.
  assert (Close p ∉ (if pid then [RemovePIDFile] else [])) as Hn.
  { destruct pid; [by intros ?%list_elem_of_singleton|by intros ?%not_elem_of_nil]. }
  destruct p; naive_solver.
Qed.

Definition is_source (r : Routine) : bool :=
  match r with
  | MonitorDockerEvents | MonitorContainerdEvents | MonitorCrioEvents | MonitorNRIEvents
  | ListenToHook => true
  | _ => false
  end.

(** Running a step that is known *)
Create HintDb run.
Create Rewrite HintDb run.

Section steps.
Context {A B : Type} (f : A → Flow B) (g : unit → Flow B) (l : Life).

Lemma run_act a : (act a ≫= g) l = g tt (add_action a l).
Proof. done. Qed.
Lemma run_change h : (change h ≫= g) l = g tt (h l).
Proof. done. Qed.
Lemma run_init p : (init p ≫= g) l = g tt (add_part p (add_action (Init p) l)).
Proof. done. Qed.
Lemma run_skip : (skip ≫= g) l = g tt l.
Proof. done. Qed.
Lemma run_asks h : (asks h ≫= f) l = f (h l) l.
Proof. done. Qed.
Lemma run_ret a : (mret a ≫= f) l = f a l.
Proof. done. Qed.
Lemma run_lift a : (lift (Ok a) ≫= f) l = f a l.
Proof. done. Qed.
Lemma run_fatal : (fatal ≫= f) l = Panic.
Proof. done. Qed.
Lemma run_bind {C} (m : Flow C) (h : C → Flow A) :
  ((m ≫= h) ≫= f) l = (m ≫= λ c, h c ≫= f) l.
Proof. unfold mbind, Flow_bind. by destruct (m l) as [[? [?|]]|]. Qed.
Lemma run_known (m : Flow A) l' a : m l = Ok (l', Some a) → (m ≫= f) l = f a l'.
Proof. unfold mbind, Flow_bind. by intros ->. Qed.
End steps.

#[local] Hint Rewrite @run_act @run_change @run_init @run_skip @run_asks @run_ret @run_lift
  @run_fatal @run_bind : run.
(** What the state says after a change *)
Section reads.
Context (l : Life).

Lemma k8s_action a : lf_K8sEnabled (add_action a l) = lf_K8sEnabled l.
Proof. done. Qed.
Lemma k8s_part p : lf_K8sEnabled (add_part p l) = lf_K8sEnabled l.
Proof. done. Qed.
Lemma k8s_node_set n : lf_K8sEnabled (set_lf_Node n l) = lf_K8sEnabled l.
Proof. done. Qed.
Lemma has_action p a : has p (add_action a l) = has p l.
Proof. done. Qed.
Lemma has_node_set p n : has p (set_lf_Node n l) = has p l.
Proof. done. Qed.
Lemma has_part p q : has p (add_part q l) = bool_decide (p = q) || has p l.
Proof. unfold has. cbn. do 3 case_bool_decide; set_solver. Qed.
End reads.

Lemma k8s_new gc : lf_K8sEnabled (NewKubeArmorDaemon gc) = false.
Proof. done. Qed.

#[local] Hint Rewrite k8s_new k8s_action k8s_part k8s_node_set has_action has_node_set has_part : run.
Ltac run := repeat (progress (autorewrite with run; cbn [andb orb negb])); cbn beta iota.

Section theorems.
Context (gc : KubearmorConfig) (o : Outside).

Lemma run_sorted l : run_daemon gc o = Ok l → StronglySorted lt (stage <$> lf_actions l).
Proof.
  intros H. pose proof (run_ends gc o) as He. rewrite H in He.
  destruct He as (l0 & [Ho _ _] & ->). apply between_sorted with 0 43.
  by apply between_app with 34; [|apply shutdown_between].
Qed.

(** C23: The daemon does everything in one order and nothing twice: whatever fails, of two
    actions of a run the one of the earlier stage comes first, and no two have the same
    stage.  So every service is registered before the server is started, as gRPC demands,
    and at most one source of containers is watched. *)
Theorem daemon_in_order l :
  run_daemon gc o = Ok l →
  (∀ i j a b, lf_actions l !! i = Some a → lf_actions l !! j = Some b →
     (i < j ↔ stage a < stage b))
  ∧ (∀ i j s, lf_actions l !! i = Some (Register s) →
       lf_actions l !! j = Some (Start ServeLogFeeds) → i < j)
  ∧ (∀ i j r r', lf_actions l !! i = Some (Start r) → lf_actions l !! j = Some (Start r') →
       is_source r = true → is_source r' = true → i = j).
Proof.
  intros H%run_sorted.
  assert (Hlt : ∀ i j a b, lf_actions l !! i = Some a → lf_actions l !! j = Some b →
            i < j → stage a < stage b).
  { intros i j a b Ha Hb Hij. eapply (StronglySorted_lookup lt); [exact H|..|exact Hij].
    - by rewrite list_lookup_fmap, Ha.
    - by rewrite list_lookup_fmap, Hb. }
  assert (Hiff : ∀ i j a b, lf_actions l !! i = Some a → lf_actions l !! j = Some b →
            (i < j ↔ stage a < stage b)).
  { intros i j a b Ha Hb. split; [by eauto|]. intros Hs.
    destruct (lt_eq_lt_dec i j) as [[?| ->]|Hji]; [done| |].
    - rewrite Ha in Hb. simplify_eq. lia.
    - specialize (Hlt _ _ _ _ Hb Ha Hji). lia. }
  split; [done|]. split.
  - intros i j s Hi Hj. apply (Hiff _ _ _ _ Hi Hj). destruct s; cbn; lia.
  - intros i j r r' Hi Hj Hr Hr'.
    pose proof (Hiff _ _ _ _ Hi Hj). pose proof (Hiff _ _ _ _ Hj Hi).
    destruct r, r'; try done; cbn in *; lia.
Qed.

(** C20: The daemon returns and cleans up: when one of the two kinds of policies is enabled
    and the host's data can be read, a run does not crash, whatever else fails, and returns
    once the calls it waits for have; it ends by closing the channel of its routines, then
    exactly the parts it had made, the presets excepted, and waits. *)
Theorem daemon_cleans_up :
  unprotected gc = false → ¬ unreadable o →
  ∃ l before after, run_daemon gc o = Ok l
  ∧ lf_actions l = (before ++ CloseStopChan :: after)%list ∧ WaitRoutines ∈ after
  ∧ (∀ p, Close p ∉ before)
  ∧ ∀ p, Close p ∈ after ↔ Init p ∈ before ∧ p ≠ Presets.
Proof.
  intros Hp Hr. pose proof (run_ends gc o) as He.
  destruct (run_daemon gc o) as [l|] eqn:Hrun; [|destruct He; [done|congruence]].
  destruct He as (l0 & [Ho Hn Hparts] & Ha).
  exists l, (lf_actions l0), (tail (shutdown (m_exists (o_machine o) PIDFilePath) (lf_parts l0))).
  split; [done|]. split; [exact Ha|]. split.
  { cbn. rewrite !elem_of_app. do 5 right. left. }
  split.
  { intros p Hc. pose proof (between_stage _ _ _ _ Ho Hc) as Hs. destruct p; cbn in Hs; lia. }
  intros p. rewrite <- Hparts, <- (shutdown_closes (m_exists (o_machine o) PIDFilePath)).
  unfold shutdown. cbn. rewrite elem_of_cons. naive_solver.
Qed.

(** With both kinds of policies disabled the daemon crashes as soon as its log is
    there: the settings of the monitor are written although no monitor was made. *)
Theorem unprotected_crashes l :
  unprotected gc = true →
  start_node gc o (NewKubeArmorDaemon gc) = Ok (l, Some tt) →
  NewFeeder gc o (node_NodeIP (lf_Node l)) ≠ None →
  run_daemon gc o = Panic.
Proof.
  unfold unprotected. intros Hp%negb_true_iff Hs Hf.
  assert (Hn : lf_parts l = []).
  { assert (Hl : sound 1 l).
    { pose proof (flows_node gc o (NewKubeArmorDaemon gc)) as H. rewrite Hs in H. apply H.
      apply sound_new. }
    destruct (lf_parts l) as [|p ps] eqn:Hps; [done|].
    assert (Hin : Init p ∈ lf_actions l) by (apply (so_parts _ _ Hl); rewrite Hps; left).
    pose proof (between_stage _ _ _ _ (so_order _ _ Hl) Hin). destruct p; cbn in *; lia. }
  assert (Hk : KubeArmor gc o (NewKubeArmorDaemon gc) = Panic); [|unfold run_daemon; by rewrite Hk].
  unfold KubeArmor. unfold mbind at 1, Flow_bind at 1. rewrite Hs.
  unfold protect, init_logger. run. cbn [lf_Node set_lf_Node].
  change (node_NodeIP (protect_node gc o (lf_Node l))) with (node_NodeIP (lf_Node l)).
  destruct (NewFeeder gc o _) as [port|]; [|done].
  unfold init_state, init_enforcement, reset_NsKeys. rewrite Hp. run.
  destruct (negb _ && kc_StateAgent gc); run; unfold has; cbn; by rewrite Hn.
Qed.

(** Without Kubernetes, without a source so far, and not at the end *)
Definition loud (a : Action) : bool :=
  match a with Start r => is_source r | CloseStopChan => true | _ => false end.
Definition quiet (l : Life) : Prop :=
  lf_K8sEnabled l = false ∧ existsb loud (lf_actions l) = false.

Lemma quiet_act a l : quiet l → loud a = false → quiet (add_action a l).
Proof.
  intros [Hk Hq] Ha. split; [done|]. cbn. rewrite existsb_app, Hq. cbn. by rewrite Ha.
Qed.
Lemma quiet_part p l : quiet l → quiet (add_part p l).
Proof. done. Qed.
Lemma quiet_node n l : quiet l → quiet (set_lf_Node n l).
Proof. done. Qed.
Lemma quiet_new : quiet (NewKubeArmorDaemon gc).
Proof. done. Qed.
Hint Resolve quiet_act quiet_part quiet_node quiet_new : run.

Lemma state_quiet l : quiet l → ∃ l', init_state gc l = Ok (l', Some tt) ∧ quiet l'.
Proof.
  intros Hq. unfold init_state. run. rewrite (proj1 Hq). cbn [negb andb].
  destruct (kc_StateAgent gc); eexists; (split; [reflexivity|]); auto 10 with run.
Qed.

Lemma quiet_source l r : quiet l → is_source r = true → Start r ∉ lf_actions l.
Proof.
  intros [_ Hq] Hr Hin%list_elem_of_In. apply not_true_iff_false in Hq. apply Hq.
  apply existsb_exists. by exists (Start r).
Qed.

Lemma finish_quiet l :
  quiet l → ∃ l', finish gc o l = Ok (l', Some tt)
  ∧ (∀ a, a ∈ lf_actions l → a ∈ lf_actions l')
  ∧ ∀ r, is_source r = true → Start r ∉ lf_actions l'.
Proof.
  intros Hq. unfold finish.
  assert (∃ l1, (if kc_CoverageTest gc then skip else act Signal) l = Ok (l1, Some tt)
                ∧ quiet l1 ∧ ∀ a, a ∈ lf_actions l → a ∈ lf_actions l1) as (l1 & H1 & Hq1 & Hin).
  { case_bool; [by exists l|]. eexists. split; [reflexivity|]. split; [auto with run|].
    intros a ?. cbn. apply elem_of_app. by left. }
  rewrite (run_known _ _ _ _ _ H1).
  destruct (destroy_actions o l1) as (l' & -> & Ha).
  { apply not_true_is_false. intros (a & Ha & Hc)%existsb_exists.
    destruct Hq1 as [_ Hl%not_true_iff_false]. apply Hl. apply existsb_exists. exists a.
    by destruct a. }
  exists l'. split; [done|]. rewrite Ha. split.
  { intros a ?. apply elem_of_app. left. auto. }
  intros r Hr [Hin'|Hin']%elem_of_app; [by apply (quiet_source l1 r)|].
  pose proof (between_stage _ _ _ _ (shutdown_between _ _) Hin'). destruct r; cbn in *; lia || done.
Qed.

Lemma enforcement_quiet l :
  kc_HostPolicy gc = true → o_InitBPF o = true → quiet l →
  ∃ l', init_enforcement gc o l = Ok (l', Some tt) ∧ quiet l' ∧ has Monitor l' = true.
Proof.
  intros Hh Hb Hq. unfold init_enforcement. rewrite Hh, Hb, orb_true_r. run.
  destruct (o_enforcer o), (o_presets o); eexists; (split; [reflexivity|]); (split; [auto 20 with run|]);
    by run.
Qed.

(** Without Kubernetes and with host policies only, the daemon takes policies of
    containers all the same, and watches no containers that they could apply to. *)
Theorem container_policies_unwatched :
  kc_K8sEnv gc = false → kc_Policy gc = false → kc_HostPolicy gc = true →
  kc_KVMAgent gc = false → ¬ unreadable o → o_InitBPF o = true →
  (∀ ip, NewFeeder gc o ip ≠ None) →
  ∃ l, run_daemon gc o = Ok l
  ∧ Register (PolicyService true true) ∈ lf_actions l
  ∧ ∀ r, is_source r = true → Start r ∉ lf_actions l.
Proof.
  intros Hk Hp Hh Hv Hr Hb Hf.
  destruct (GetExternalIPAddr (o_machine o)) as [ip|] eqn:Hip; [|by destruct Hr; left].
  destruct (host_info o) as [info|] eqn:Hinfo; [|by destruct Hr; right; left].
  unfold run_daemon, KubeArmor, start_node, host_node. rewrite Hk, Hv, Hh. cbn [negb orb andb].
  rewrite Hip, Hinfo. run. unfold protect, init_logger. run.
  match goal with |- context [NewFeeder gc o ?ip] => destruct (NewFeeder gc o ip) eqn:Hn end;
    [|by apply Hf in Hn]. clear Hn.
  match goal with |- context [set_lf_Node ?n (add_action _ _)] => generalize n; intros n1 end.
  run. match goal with |- context [(init_state gc ≫= _) ?l] =>
    destruct (state_quiet l) as (l1 & H1 & Hq1); [auto 20 with run|] end.
  rewrite (run_known _ _ _ _ _ H1).
  destruct (enforcement_quiet l1 Hh Hb Hq1) as (l2 & H2 & Hq2 & Hm).
  rewrite (run_known _ _ _ _ _ H2).
  unfold reset_NsKeys, containers, policies, policy_service, serve, restore, init_kvm.
  rewrite Hp, Hh, Hv. run. rewrite Hm.
  repeat (run; rewrite ?(proj1 Hq2)).
  match goal with |- context [finish gc o ?l] =>
    destruct (finish_quiet l) as (l' & -> & Hin & Hno); [auto 20 with run|] end.
  exists l'. split; [done|]. split; [|done]. apply Hin. cbn.
  rewrite !elem_of_app, !list_elem_of_singleton. auto 10.
Qed.

(** The limit is zero when it cannot be read and only host policies are enabled; by
    [Watchers.no_time_no_policies] none is ever taken. *)
Lemma unreadable_limit enabled l :
  lf_K8sEnabled l = true → kc_Policy gc = false → kc_HostPolicy gc = true →
  o_ParseDuration o (kc_InitTimeout gc) = None →
  policies gc o enabled l = Ok (add_action (Start (WatchHostSecurityPolicies 0)) l, Some tt).
Proof.
  intros Hk Hp Hh Hd. unfold policies. run. rewrite Hk, Hp, Hh, Hd. cbn [andb]. by run.
Qed.

(** In Kubernetes a container runtime that is neither Docker, containerd nor CRI-O by its
    name is a reason to stop only when a socket is given; when it is to be detected, the
    daemon goes on without watching any containers. *)
Theorem unknown_runtime_unwatched l :
  kc_UseOCIHooks gc = false → lf_NRISocket l = "" → GetNRISocket (o_machine o) = "" →
  lf_CRISocket l = "" →
  (let version := node_ContainerRuntimeVersion (lf_Node l) in
   HasPrefix version "docker" = false ∧ HasPrefix version "containerd" = false
   ∧ HasPrefix version "cri-o" = false) →
  k8s_containers gc o l = Ok (l, Some tt).
Proof.
  intros Hu Hn Hm Hc (H1 & H2 & H3). unfold k8s_containers, use_hooks, checkNRIAvailability. run.
  rewrite Hu. cbn [negb]. run. rewrite Hn. cbn [String.eqb]. rewrite Hm. cbn [String.eqb]. run.
  rewrite Hc. cbn [String.eqb negb]. unfold detected_socket. by rewrite H1, H2, H3.
Qed.

End theorems.

(** ** Witnesses *)

Definition host_machine : Machine :=
  {| m_env := ∅;
     m_exists := λ p, ContainsElement ["/run/containerd/containerd.sock"; PIDFilePath] p;
     m_ReadFile := λ p, if String.eqb p "/sys/kernel/security/lsm" then Some "lockdown,apparmor,bpf"
                        else None;
     m_command := λ c _,
       if String.eqb c "ip" then "default via 10.0.0.1 dev eth0 proto dhcp"
       else if String.eqb c "hostnamectl"
       then "Machine ID: 4711" +:+ newline_string +:+ "Operating System: Ubuntu 24.04"
       else "6.8.0" +:+ newline_string;
     m_interfaces := Some [("lo", Some ["127.0.0.1/8"]); ("eth0", Some ["10.0.0.5/24"])] |}.

Definition host_outside : Outside :=
  {| o_machine := host_machine; o_ksp_client := false; o_BuildConfigFromFlags := λ _, false;
     o_NewForConfig := λ _, false; o_node := λ _, zero_Node; o_OpenFile := λ _, true;
     o_Listen := λ _, Some 32767%Z; o_pid_file := true; o_TLS := λ _, true; o_InitBPF := true;
     o_enforcer := Some "BPFLSM"; o_presets := true; o_dial := λ _, false;
     o_register := λ _, None; o_registered := λ _, true; o_synced := true;
     o_hmac := λ id key, id +:+ key; o_boot := "2025-01-01 00:00:00 +0000 UTC";
     o_ParseDuration := λ _, Some (60 * second)%Z |}.

(** Settings of a machine without Kubernetes *)
Definition host_config (policy host : bool) : KubearmorConfig :=
  let v := {| GetString := λ k, if String.eqb k "host" then "node1"
                                else if String.eqb k "logPath" then "none" else "";
              GetBool := λ k, if String.eqb k "enableKubeArmorPolicy" then policy
                              else if String.eqb k "enableKubeArmorHostPolicy" then host else false;
              GetInt := λ _, 0%Z |} in
  LoadDynamicConfig v (static_config host_machine (Some "node1") v).

Lemma host_readable : ¬ unreadable host_outside.
Proof. intros [H|[H|H]]; vm_compute in H; discriminate H. Qed.

Lemma daemon_in_order_witness :
  ∃ l, run_daemon (host_config true false) host_outside = Ok l
  ∧ (∀ i j r r', lf_actions l !! i = Some (Start r) → lf_actions l !! j = Some (Start r') →
       is_source r = true → is_source r' = true → i = j)
  ∧ Start MonitorContainerdEvents ∈ lf_actions l.
Proof.
  destruct (run_daemon (host_config true false) host_outside) as [l|] eqn:H;
    [|vm_compute in H; discriminate H].
  exists l. split; [reflexivity|]. split.
  - apply (daemon_in_order (host_config true false) host_outside l H).
  - vm_compute in H. injection H as <-. apply list_elem_of_In. cbn. tauto.
Defined.

Lemma daemon_cleans_up_witness :
  ∃ l before after, run_daemon (host_config true true) host_outside = Ok l
  ∧ lf_actions l = (before ++ CloseStopChan :: after)%list
  ∧ ∀ p, Close p ∈ after ↔ Init p ∈ before ∧ p ≠ Presets.
Proof.
  destruct (daemon_cleans_up (host_config true true) host_outside eq_refl host_readable)
    as (l & before & after & H & Ha & _ & _ & Hc).
  exists l, before, after. split; [exact H|]. split; [exact Ha|exact Hc].
Defined.

Lemma unprotected_crashes_witness : run_daemon (host_config false false) host_outside = Panic.
Proof.
  destruct (start_node (host_config false false) host_outside
              (NewKubeArmorDaemon (host_config false false))) as [[l [[]|]]|] eqn:H;
    [|vm_compute in H; discriminate H|vm_compute in H; discriminate H].
  apply (unprotected_crashes (host_config false false) host_outside l); [reflexivity|exact H|].
  vm_compute. discriminate.
Defined.

Lemma container_policies_unwatched_witness :
  ∃ l, run_daemon (host_config false true) host_outside = Ok l
  ∧ Register (PolicyService true true) ∈ lf_actions l
  ∧ ∀ r, is_source r = true → Start r ∉ lf_actions l.
Proof.
  apply (container_policies_unwatched (host_config false true) host_outside);
    [reflexivity..|exact host_readable|reflexivity|].
  intros ip. vm_compute. discriminate.
Defined.

Definition other_runtime : Life :=
  set_lf_Node {| node_ClusterName := ""; node_NodeName := "node1"; node_NodeIP := "10.0.0.5";
     node_NodeID := ""; node_Annotations := ∅; node_Labels := ∅; node_Identities := [];
     node_Architecture := ""; node_OperatingSystem := ""; node_OSImage := "";
     node_KernelVersion := ""; node_KubeletVersion := "";
     node_ContainerRuntimeVersion := "rkt://1.30"; node_LastUpdatedAt := "";
     node_PolicyEnabled := 0; node_ProcessVisibilityEnabled := false;
     node_FileVisibilityEnabled := false; node_NetworkVisibilityEnabled := false;
     node_CapabilitiesVisibilityEnabled := false |} (NewKubeArmorDaemon (host_config true false)).

Lemma unknown_runtime_unwatched_witness :
  k8s_containers (host_config true false) host_outside other_runtime = Ok (other_runtime, Some tt).
Proof.
  apply (unknown_runtime_unwatched (host_config true false) host_outside other_runtime);
    [reflexivity..|]. cbn. repeat split; reflexivity.
Defined.
