(* ===== verification/ConfigProps.v ===== *)
(** The settings of the daemon ([Config]): what they are without any setting, that a reload
    agrees with the start, and where the directory of SELinux profiles ends up. *)
From Stdlib Require Import Ascii String.
From S2P Require Import Prelude GoStrings GoPath GoSlices Types Common BpfEnforcer NsMap PolicySpec Daemon Pods Posture Unorchestrated SELinux Backups Config.

Open Scope string_scope.

(** What [viper] documents: a key that neither the environment nor the file sets has the
    default that was set for it. *)
Record ViperDefaults (is_set : string → bool) (defaults : list (string * Value)) (v : Viper)
    : Prop := {
  vd_str : ∀ k s, (k, VStr s) ∈ defaults → is_set k = false → GetString v k = s;
  vd_bool : ∀ k b, (k, VBool b) ∈ defaults → is_set k = false → GetBool v k = b;
  vd_int : ∀ k z, (k, VInt z) ∈ defaults → is_set k = false → GetInt v k = z }.

(** A value is found in a concrete table. *)
Ltac in_table := cbn; repeat (left || right).

Section config.
Context (m : Machine) (ReadInConfig : string → bool).
Context (viper : list (string * Value) → option string → Viper).

(** Without flags, environment and file the daemon works in Kubernetes, enforces policies
    of containers but none of hosts, audits what no policy allows, leaves hosts unseen, and
    waits a minute for its informers. *)
Theorem default_settings hostname :
  m_env m = ∅ → m_exists m "kubearmor.yaml" = false →
  (let ds := readCmdLineParams (default "" hostname) ∅ in
   ViperDefaults (λ _, false) ds (viper ds None)) →
  ∃ gc, LoadConfig m ReadInConfig viper hostname ∅ = inl gc
  ∧ kc_K8sEnv gc = true ∧ kc_Policy gc = true ∧ kc_HostPolicy gc = false
  ∧ kc_KVMAgent gc = false
  ∧ posture_of gc = {| dp_FileAction := "audit"; dp_NetworkAction := "audit";
                       dp_CapabilitiesAction := "audit" |}
  ∧ kc_HostVisibility gc = "none" ∧ kc_Visibility gc = "process,file,network,capabilities"
  ∧ kc_LsmOrder gc = ["bpf"; "apparmor"; "selinux"]
  ∧ kc_ConfigUntrackedNs gc = ["kube-system"; "kubearmor"]
  ∧ kc_MaxAlertPerSec gc = 10%Z ∧ kc_ThrottleSec gc = 30%Z ∧ kc_InitTimeout gc = "60s".
Proof.
  intros Henv Hfile Hv.
  assert (He : ∀ k d, env_or m k d = d) by (intros k d; unfold env_or, Getenv; by rewrite Henv).
  destruct Hv as [Hs Hb Hi].
  unfold LoadConfig, load_from. rewrite He, Hfile. revert Hs Hb Hi.
  generalize (viper (readCmdLineParams (default "" hostname) ∅) None). intros v Hs Hb Hi.
  pose proof (Hs "criSocket" "" ltac:(in_table) eq_refl) as Hc.
  pose proof (Hb "enableKubeArmorVm" false ltac:(in_table) eq_refl) as Hk.
  pose proof (Hb "k8s" true ltac:(in_table) eq_refl) as Hk8s.
  pose proof (Hb "enableKubeArmorHostPolicy" false ltac:(in_table) eq_refl) as Hh.
  cbn [kc_CRISocket static_config]. rewrite He, Hc. cbn [String.eqb negb andb].
  eexists. split; [reflexivity|]. unfold posture_of. cbn. rewrite Hk, Hk8s, Hh. cbn.
  rewrite (Hb "enableKubeArmorPolicy" true ltac:(in_table) eq_refl).
  rewrite (Hs "defaultFilePosture" "audit" ltac:(in_table) eq_refl).
  rewrite (Hs "defaultNetworkPosture" "audit" ltac:(in_table) eq_refl).
  rewrite (Hs "defaultCapabilitiesPosture" "audit" ltac:(in_table) eq_refl).
  rewrite (Hs "hostVisibility" "default" ltac:(in_table) eq_refl).
  rewrite (Hs "visibility" "process,file,network,capabilities" ltac:(in_table) eq_refl).
  rewrite (Hs "lsm" "bpf,apparmor,selinux" ltac:(in_table) eq_refl).
  rewrite (Hs "untrackedNs" "kube-system,kubearmor" ltac:(in_table) eq_refl).
  rewrite (Hs "initTimeout" "60s" ltac:(in_table) eq_refl).
  rewrite (Hi "maxAlertPerSec" 10%Z ltac:(in_table) eq_refl).
  rewrite (Hi "throttleSec" 30%Z ltac:(in_table) eq_refl). done.
Qed.

(** ** Any settings *)

Lemma LoadConfig_from hostname args gc :
  LoadConfig m ReadInConfig viper hostname args = inl gc →
  ∃ v, gc = LoadDynamicConfig v (static_config m hostname v)
  ∧ (kc_CRISocket gc = "" ∨ HasPrefix (kc_CRISocket gc) "unix://" = true).
Proof.
  assert (Hload : ∀ v, load_from m hostname v = inl gc →
    gc = LoadDynamicConfig v (static_config m hostname v)
    ∧ (kc_CRISocket gc = "" ∨ HasPrefix (kc_CRISocket gc) "unix://" = true)).
  { intros v. unfold load_from. destruct (negb _ && negb _) eqn:Hc; [done|]. intros [= <-].
    split; [done|]. apply andb_false_iff in Hc as [Hc|Hc]; apply negb_false_iff in Hc;
      [left; by apply String.eqb_eq in Hc|by right]. }
  unfold LoadConfig. case_bool; [case_bool; [|done]|]; intros H%Hload; eauto.
Qed.

(** Whatever the settings, they are consistent: an agent of virtual machines means host
    policies and none of containers, and a socket of the container runtime is a Unix
    socket. *)
Theorem settings_consistent hostname args gc :
  LoadConfig m ReadInConfig viper hostname args = inl gc →
  (kc_KVMAgent gc = true → kc_Policy gc = false ∧ kc_HostPolicy gc = true)
  ∧ (kc_CRISocket gc = "" ∨ ∃ path, kc_CRISocket gc = "unix://" +:+ path)
  ∧ kc_HostVisibility gc ≠ "default".
Proof.
  intros (v & -> & Hs)%LoadConfig_from. split; [|split].
  - cbn. intros ->. done.
  - destruct Hs as [?|[path ?]%HasPrefix_app]; [by left|right; by exists path].
  - cbn. destruct (String.eqb_spec (GetString v "hostVisibility") "default"); [|done].
    by case_bool.
Qed.

(** C22: The SELinux enforcer clears the root directory: the setting for the directory of its
    profiles is never read, so that whatever flags, environment and file say, the old
    profiles that it removes are everything below [/]. *)
Theorem selinux_clears_root `{SH : !SELinuxHost W} hostname args gc HostPolicy (w : W) :
  LoadConfig m ReadInConfig viper hostname args = inl gc →
  NewSELinuxEnforcer HostPolicy (kc_SELinuxProfileDir gc) true w =
    (let '(w, ok) := se_RemoveAll "/" w in
     if ok then prepare_profiles HostPolicy "/" w else (w, false)).
Proof.
  intros (v & -> & _)%LoadConfig_from. unfold NewSELinuxEnforcer.
  change (kc_SELinuxProfileDir _) with "". change (slashed "") with "/".
  change (Clean "/") with "/". by destruct (se_RemoveAll "/" w) as [w' []].
Qed.

(** A reload of the configuration file gives the settings of a start with it. *)
Theorem reload_agrees {Wd} `{B : !Backend Wd} enforcer presets v gc (r : Running Wd) :
  gc_Cluster (run_cfg r) = kc_Cluster gc →
  let gc' := LoadDynamicConfig v gc in
  let r' := Backups.LoadDynamicConfig (settings_of enforcer presets gc) v r in
  run_cfg r' = running_of gc' ∧ dm_GlobalPosture (run_dm r') = posture_of gc'
  ∧ settings_of enforcer presets gc' = settings_of enforcer presets gc.
Proof. intros Hc. unfold running_of. cbn. by rewrite Hc. Qed.
End config.

(** ** Witnesses *)

Definition bare_machine : Machine :=
  {| m_env := ∅; m_exists := λ _, false; m_ReadFile := λ _, None; m_command := λ _ _, "";
     m_interfaces := Some [] |}.

(** Only defaults *)
Definition table_viper (ds : list (string * Value)) (_ : option string) : Viper :=
  let value k := snd <$> find (λ e, String.eqb e.1 k) ds in
  {| GetString := λ k, match value k with Some (VStr s) => s | _ => "" end;
     GetBool := λ k, match value k with Some (VBool b) => b | _ => false end;
     GetInt := λ k, match value k with Some (VInt z) => z | _ => 0%Z end |}.

(** The first entry of a key is the one that counts. *)
Definition first_entry (ds : list (string * Value)) (e : string * Value) : bool :=
  let v := table_viper ds None in
  match e.2 with
  | VStr s => String.eqb (GetString v e.1) s
  | VBool b => Bool.eqb (GetBool v e.1) b
  | VInt z => Z.eqb (GetInt v e.1) z
  end.

Lemma table_viper_defaults ds :
  forallb (first_entry ds) ds = true → ViperDefaults (λ _, false) ds (table_viper ds None).
Proof.
  intros Hf. rewrite forallb_forall in Hf.
  split; intros k x Hin%list_elem_of_In%Hf _; unfold first_entry in Hin; cbn [fst snd] in Hin.
  - by apply String.eqb_eq in Hin.
  - by apply Bool.eqb_prop in Hin.
  - by apply Z.eqb_eq in Hin.
Qed.

Lemma default_settings_witness :
  ∃ gc, LoadConfig bare_machine (λ _, true) table_viper (Some "node1") ∅ = inl gc
  ∧ kc_Policy gc = true ∧ kc_HostVisibility gc = "none".
Proof.
  destruct (default_settings bare_machine (λ _, true) table_viper (Some "node1"))
    as (gc & H & _ & Hp & _ & _ & _ & Hv & _).
  - reflexivity.
  - reflexivity.
  - apply table_viper_defaults. vm_compute. reflexivity.
  - exists gc. split; [exact H|]. by split.
Defined.

Definition default_config : KubearmorConfig + ConfigError :=
  LoadConfig bare_machine (λ _, true) table_viper (Some "node1") ∅.

(** A flag for the directory, and for the agent of virtual machines *)
Definition flags_given : gmap string Value :=
  list_to_map [("seLinuxProfileDir", VStr "/var/lib/profiles"); ("enableKubeArmorVm", VBool true)].
Definition flagged_config : KubearmorConfig + ConfigError :=
  LoadConfig bare_machine (λ _, true) table_viper (Some "node1") flags_given.

Lemma settings_consistent_witness :
  ∃ gc, flagged_config = inl gc ∧ kc_Policy gc = false ∧ kc_HostPolicy gc = true.
Proof.
  destruct flagged_config as [gc|e] eqn:H; [|vm_compute in H; discriminate].
  exists gc. split; [reflexivity|].
  apply (proj1 (settings_consistent bare_machine (λ _, true) table_viper (Some "node1")
                  flags_given gc H)).
  unfold flagged_config in H. vm_compute in H. injection H as <-. reflexivity.
Defined.

(** A host that remembers what was removed *)
Definition log_host : SELinuxHost (list string) := {|
  se_Stat := λ _ _, true; se_ReadFile := λ _ _, None; se_Create := λ _ w, (w, true);
  se_Write := λ _ _ w, (w, true); se_CopyFile := λ _ _ w, (w, true);
  se_Walk := λ _ _, ([], true); se_ReadDir := λ _ _, None; se_chcon := λ _ _ w, (w, true);
  se_restorecon := λ _ w, (w, true); se_modules := λ _, Some ""; se_install := λ w, (w, true);
  se_RemoveAll := λ d w, ((w ++ [d])%list, true); se_MkdirAll := λ _ w, (w, true) |}.

Lemma selinux_clears_root_witness :
  ∃ gc, flagged_config = inl gc
  ∧ (@NewSELinuxEnforcer _ log_host false (kc_SELinuxProfileDir gc) true []).1 = ["/"].
Proof.
  destruct flagged_config as [gc|e] eqn:H; [|vm_compute in H; discriminate].
  exists gc. split; [reflexivity|].
  rewrite (@selinux_clears_root bare_machine (λ _, true) table_viper _ log_host (Some "node1")
             flags_given gc false [] H). reflexivity.
Defined.
