(* ===== verification/K8sHandlerProps.v ===== *)
(** The daemon's requests to Kubernetes ([K8sHandler]): when the text of a patch is JSON and
    what it says, and what is sent for each kind of resource. *)
From Stdlib Require Import Ascii String.
From S2P Require Import Prelude GoStrings GoPath Common Config Daemon PodEvents K8sHandler.

Open Scope nat_scope.
Open Scope string_scope.

(** ** JSON

    A reader for objects of strings and objects, without spaces and without escapes in
    strings; patches of annotations have nothing else. *)

Inductive Json := JStr (s : string) | JObj (fields : Fields)
with Fields := FEnd | FField (key : string) (v : Json) (rest : Fields).

Definition escape : ascii := "\".

(** The rest of a string up to its quote, and what follows *)
Fixpoint read_string (s : string) : option (string * string) :=
  match s with
  | EmptyString => None
  | String c s =>
      if Ascii.eqb c quote then Some ("", s)
      else if Ascii.eqb c escape then None
      else (λ ab, (String c ab.1, ab.2)) <$> read_string s
  end.

(** The text after a character *)
Definition after (c : ascii) (s : string) : option string :=
  match s with String d s => if Ascii.eqb d c then Some s else None | EmptyString => None end.

(** A value; the fields of an object after its opening brace or a comma *)
Fixpoint read_value (fuel : nat) (s : string) : option (Json * string) :=
  match fuel with
  | O => None
  | S fuel =>
      match after quote s with
      | Some s => (λ ab, (JStr ab.1, ab.2)) <$> read_string s
      | None =>
          s ← after "{" s;
          match after "}" s with
          | Some s => Some (JObj FEnd, s)
          | None => (λ ab, (JObj ab.1, ab.2)) <$> read_fields fuel s
          end
      end
  end
with read_fields (fuel : nat) (s : string) : option (Fields * string) :=
  match fuel with
  | O => None
  | S fuel =>
      s ← after quote s;
      '(k, s) ← read_string s;
      s ← after ":" s;
      '(v, s) ← read_value fuel s;
      match after "," s with
      | Some s => (λ ab, (FField k v ab.1, ab.2)) <$> read_fields fuel s
      | None => s ← after "}" s; Some (FField k v FEnd, s)
      end
  end.

Definition parse_json (s : string) : option Json :=
  match read_value (String.length s) s with Some (j, "") => Some j | _ => None end.

(** A name or a profile, which has no quote and no backslash *)
Definition clean_text (s : string) : bool :=
  forallb (λ c, negb (Ascii.eqb c quote) && negb (Ascii.eqb c escape)) (bytes_of s).

Lemma read_string_clean s r :
  clean_text s = true → read_string (s +:+ String quote r) = Some (s, r).
Proof.
  unfold clean_text. induction s as [|c s IH]; cbn; [done|].
  intros [[Hq He]%andb_true_iff Hs]%andb_true_iff.
  apply negb_true_iff in Hq, He. rewrite Hq, He, IH by done. done.
Qed.

Lemma clean_text_app s t : clean_text (s +:+ t) = clean_text s && clean_text t.
Proof. unfold clean_text. by rewrite bytes_of_app, forallb_app. Qed.

Lemma after_here c s : after c (String c s) = Some s.
Proof. cbn. by rewrite Ascii.eqb_refl. Qed.

(** ** The text of a patch *)

(** An annotation of a profile as text and as a field *)
Definition entry_text (kv : string * string) : string :=
  q (annotation_key kv.1) +:+ ":" +:+ q ("localhost/" +:+ kv.2).
Definition entry_field (kv : string * string) : Fields → Fields :=
  FField (annotation_key kv.1) (JStr ("localhost/" +:+ kv.2)).

Definition clean_entry (kv : string * string) : bool := clean_text kv.1 && clean_text kv.2.

(** Entries with commas between them, and at the end unless it is the end *)
Fixpoint entries_text (l : list (string * string)) (comma_at_end : bool) : string :=
  match l with
  | [] => ""
  | [kv] => entry_text kv +:+ (if comma_at_end then "," else "")
  | kv :: l => entry_text kv +:+ "," +:+ entries_text l comma_at_end
  end.

Definition confined (l : list (string * string)) : list (string * string) :=
  filter (λ kv, kv.2 ≠ "unconfined") l.

Lemma entries_cons kv l b :
  l ≠ [] → entries_text (kv :: l) b = entry_text kv +:+ "," +:+ entries_text l b.
Proof. by destruct l. Qed.

Lemma confined_length l : length (confined l) <= length l.
Proof. apply length_filter. Qed.

Lemma spec_loop l head n :
  (length l <= n)%nat →
  (foldl spec_step (head, Z.of_nat n) l).1 =
    head +:+ entries_text (confined l) (negb (length (confined l) =? n)%nat).
Proof.
  revert head n. induction l as [|[k v] l IH]; intros head n Hn; cbn [foldl].
  { cbn. by rewrite string_app_nil_r. }
  unfold spec_step at 2. cbn [fst snd]. unfold confined. rewrite filter_cons. cbn [snd].
  fold (confined l). destruct (String.eqb_spec v "unconfined") as [->|Hv].
  { rewrite decide_False by (intros H; by apply H). apply IH. cbn in Hn. lia. }
  rewrite decide_True by done. cbn in Hn. destruct n as [|n]; [lia|].
  replace (Z.of_nat (S n) - 1)%Z with (Z.of_nat n) by lia. rewrite IH by lia.
  pose proof (confined_length l) as Hc.
  rewrite !string_app_assoc. f_equal.
  change (length ((k, v) :: confined l)) with (S (length (confined l))).
  change (S (length (confined l)) =? S n)%nat with (length (confined l) =? n)%nat.
  destruct (confined l) as [|kv' l'] eqn:Hl.
  - cbn [entries_text length]. unfold entry_text. cbn [fst snd].
    rewrite string_app_nil_r, !string_app_assoc. do 2 f_equal. destruct n; [done|].
    assert ((Z.of_nat (S (S n)) >? 1)%Z = true) as -> by (apply Z.gtb_lt; lia). reflexivity.
  - rewrite (entries_cons (k, v)) by done. unfold entry_text. cbn [fst snd].
    rewrite !string_app_assoc. do 2 f_equal.
    assert ((Z.of_nat (S n) >? 1)%Z = true) as ->; [|done]. cbn in Hc. apply Z.gtb_lt. lia.
Qed.

(** ** Reading *)

(** What follows a value among fields *)
Definition more_fields (fuel : nat) (k : string) (v : Json) (s : string)
    : option (Fields * string) :=
  match after "," s with
  | Some s => (λ ab, (FField k v ab.1, ab.2)) <$> read_fields fuel s
  | None => s ← after "}" s; Some (FField k v FEnd, s)
  end.

Lemma read_field fuel k s :
  clean_text k = true →
  read_fields (S fuel) (q k +:+ ":" +:+ s) =
    '(v, r) ← read_value fuel s; more_fields fuel k v r.
Proof.
  intros Hk. change (read_fields (S fuel) (q k +:+ ":" +:+ s)) with
    (s1 ← after quote (q k +:+ ":" +:+ s); '(k, s1) ← read_string s1; s1 ← after ":" s1;
     '(v, s1) ← read_value fuel s1; more_fields fuel k v s1).
  unfold q. cbn [String.append]. rewrite after_here. cbn [mbind option_bind].
  rewrite string_app_assoc. cbn [String.append]. rewrite read_string_clean by done.
  cbn [mbind option_bind]. by rewrite after_here.
Qed.

Lemma read_text fuel v r :
  clean_text v = true → read_value (S fuel) (q v +:+ r) = Some (JStr v, r).
Proof.
  intros Hv. unfold q. cbn [read_value String.append]. rewrite after_here.
  rewrite string_app_assoc. cbn [String.append]. by rewrite read_string_clean.
Qed.

Lemma read_object fuel k s :
  clean_text k = true →
  read_value (S fuel) ("{" +:+ q k +:+ s) =
    (λ ab, (JObj ab.1, ab.2)) <$> read_fields fuel (q k +:+ s).
Proof. intros Hk. done. Qed.

Lemma clean_key k : clean_text k = true → clean_text (annotation_key k) = true.
Proof. intros. unfold annotation_key. by rewrite clean_text_app, H. Qed.

Lemma clean_profile v : clean_text v = true → clean_text ("localhost/" +:+ v) = true.
Proof. intros. by rewrite clean_text_app, H. Qed.

Lemma read_entry fuel kv r :
  clean_entry kv = true →
  read_fields (S (S fuel)) (entry_text kv +:+ r) =
    more_fields (S fuel) (annotation_key kv.1) (JStr ("localhost/" +:+ kv.2)) r.
Proof.
  intros [Hk%clean_key Hv%clean_profile]%andb_true_iff. unfold entry_text.
  rewrite !string_app_assoc, read_field by done. by rewrite read_text.
Qed.

Definition fields_of (l : list (string * string)) : Fields := foldr entry_field FEnd l.

(** Entries up to the closing brace, and a comma before it *)
Lemma read_entries l fuel r :
  l ≠ [] → forallb clean_entry l = true → (length l < fuel)%nat →
  read_fields fuel (entries_text l false +:+ "}" +:+ r) = Some (fields_of l, r).
Proof.
  revert fuel. induction l as [|kv l IH]; [done|].
  intros fuel _ [Hkv Hl]%andb_true_iff Hf. cbn in Hf.
  destruct fuel as [|[|fuel]]; [lia|lia|].
  destruct l as [|kv' l].
  - cbn [entries_text]. rewrite string_app_nil_r, read_entry by done. done.
  - rewrite entries_cons, !string_app_assoc, read_entry by done.
    unfold more_fields. cbn [String.append]. rewrite after_here, IH; [done|done|done|lia].
Qed.

Lemma read_trailing l fuel r :
  forallb clean_entry l = true →
  read_fields fuel (entries_text l true +:+ "}" +:+ r) = None.
Proof.
  revert fuel. induction l as [|kv l IH]; intros fuel; [by destruct fuel|].
  intros [Hkv Hl]%andb_true_iff. destruct fuel as [|[|fuel]]; [done| |].
  - unfold clean_entry in Hkv. apply andb_true_iff in Hkv as [Hk _].
    destruct l as [|kv' l]; [|rewrite entries_cons by done]; cbn [entries_text];
      unfold entry_text; rewrite !string_app_assoc, read_field by (by apply clean_key); done.
  - destruct l as [|kv' l].
    + cbn [entries_text]. rewrite !string_app_assoc, read_entry by done.
      unfold more_fields. cbn [String.append]. by rewrite after_here.
    + rewrite entries_cons, !string_app_assoc, read_entry by done.
      unfold more_fields. cbn [String.append]. by rewrite after_here, IH.
Qed.

Lemma read_head fuel k s :
  clean_text k = true →
  read_value (S (S fuel)) (field_head k +:+ s) =
    '(v, r) ← read_value fuel s; (λ ab, (JObj ab.1, ab.2)) <$> more_fields fuel k v r.
Proof.
  intros Hk. unfold field_head. rewrite !string_app_assoc, read_object by done.
  rewrite read_field by done. by destruct (read_value fuel s) as [[v r]|].
Qed.

(** Objects with one field inside one another *)
Definition nested (ks : list string) (j : Json) : Json :=
  foldr (λ k j, JObj (FField k j FEnd)) j ks.
Definition heads (ks : list string) : string := foldr (λ k s, field_head k +:+ s) "" ks.
Definition braces (n : nat) (r : string) : string := Nat.iter n (λ s, "}" +:+ s) r.

Lemma read_heads ks fuel s :
  forallb clean_text ks = true →
  (∀ j r, read_value fuel s = Some (j, braces (length ks) r) →
     read_value (2 * length ks + fuel) (heads ks +:+ s) = Some (nested ks j, r))
  ∧ (read_value fuel s = None → read_value (2 * length ks + fuel) (heads ks +:+ s) = None).
Proof.
  induction ks as [|k ks IH]; [done|]. intros [Hk Hks]%andb_true_iff.
  specialize (IH Hks) as [IH1 IH2].
  replace (2 * length (k :: ks) + fuel)%nat with (S (S (2 * length ks + fuel))) by (cbn; lia).
  cbn [heads foldr]. fold (heads ks). rewrite string_app_assoc, read_head by done. split.
  - intros j r Hs. rewrite (IH1 j ("}" +:+ r)).
    + cbn [mbind option_bind]. unfold more_fields. cbn [String.append]. done.
    + rewrite Hs. do 2 f_equal. cbn [length]. unfold braces. by rewrite Nat.iter_succ_r.
  - intros Hs. by rewrite (IH2 Hs).
Qed.

(** ** The patch as JSON *)

(** The objects around the annotations *)
Definition around (kind : string) : list string :=
  if String.eqb kind "CronJob"
  then ["spec"; "jobTemplate"; "spec"; "template"; "metadata"; "annotations"]
  else ["spec"; "template"; "metadata"; "annotations"].

(** What a patch should say *)
Definition patch_json (kind : string) (l : list (string * string)) : Json :=
  nested (around kind) (JObj (FField "kubearmor-policy" (JStr "enabled") (fields_of l))).

Lemma read_body fuel s :
  read_value (S (S (S fuel))) (field_head "kubearmor-policy" +:+ q "enabled" +:+ "," +:+ s) =
    (λ ab, (JObj (FField "kubearmor-policy" (JStr "enabled") ab.1), ab.2))
      <$> read_fields (S fuel) s.
Proof.
  rewrite read_head, read_text by done. cbn [mbind option_bind]. unfold more_fields.
  cbn [String.append]. rewrite after_here. by destruct (read_fields (S fuel) s) as [[fs r]|].
Qed.

Section text.
Context `{R : GoRange, !GoRangeLaw R}.

Lemma patch_text_shape kind m :
  patch_text kind m =
    heads (around kind) +:+ field_head "kubearmor-policy" +:+ q "enabled" +:+ ","
    +:+ entries_text (confined (go_range m))
          (negb (length (confined (go_range m)) =? size m)%nat)
    +:+ "}" +:+ braces (length (around kind)) "".
Proof.
  unfold patch_text. rewrite spec_loop.
  - unfold around. by destruct (String.eqb kind "CronJob"); cbn -[field_head entries_text];
      unfold cronjob_head, template_head, annotations_head; rewrite !string_app_assoc.
  - rewrite go_range_perm. by rewrite length_map_to_list.
Qed.

Lemma entries_length l b : (length l <= String.length (entries_text l b))%nat.
Proof.
  induction l as [|kv l IH]; [cbn; lia|]. destruct l as [|kv' l].
  - cbn [entries_text length]. unfold entry_text, q. cbn. lia.
  - rewrite entries_cons, !string_app_length by done. cbn [length] in *. cbn [String.length].
    unfold entry_text, q. cbn [String.append String.length]. lia.
Qed.

Lemma heads_length ks : (2 * length ks <= String.length (heads ks))%nat.
Proof.
  induction ks as [|k ks IH]; [done|]. cbn [heads foldr]. fold (heads ks).
  rewrite string_app_length. unfold field_head, q. cbn [length String.append String.length]. lia.
Qed.

(** The fuel is enough. *)
Lemma patch_text_fuel kind m :
  ∃ f, String.length (patch_text kind m) = (2 * length (around kind) + S (S (S f)))%nat
  ∧ (length (confined (go_range m)) < S f)%nat.
Proof.
  rewrite patch_text_shape, !string_app_length.
  pose proof (heads_length (around kind)) as Hh.
  pose proof (entries_length (confined (go_range m))
                (negb (length (confined (go_range m)) =? size m)%nat)) as He.
  change (String.length (field_head "kubearmor-policy")) with 20%nat.
  match goal with |- context [(?h + (20 + ?r))%nat] =>
    exists (h + (17 + r) - 2 * length (around kind))%nat end. lia.
Qed.

Lemma confined_all m :
  (∀ k v, m !! k = Some v → v ≠ "unconfined") → confined (go_range m) = go_range m.
Proof.
  intros Hm. assert (H : ∀ kv, kv ∈ go_range m → kv.2 ≠ "unconfined").
  { intros [k v] Hkv%elem_of_go_range. by apply (Hm k). }
  revert H. generalize (go_range m). intros l. induction l as [|kv l IH]; [done|]. intros H.
  unfold confined. rewrite filter_cons_True by (apply H; left). f_equal. apply IH.
  intros kv' ?. apply H. by right.
Qed.

Lemma confined_some m k :
  m !! k = Some "unconfined" → (length (confined (go_range m)) =? size m)%nat = false.
Proof.
  intros Hk. apply Nat.eqb_neq. rewrite <- length_map_to_list, <- go_range_perm.
  apply elem_of_go_range in Hk. apply Nat.lt_neq. unfold confined.
  apply (length_filter_lt _ _ (k, "unconfined")); [done|]. by intros H; apply H.
Qed.

(** C21: The patch of annotations is what it should be exactly when there is an annotation and
    no container is unconfined: then it reads as the object with the policy and a profile for
    each container; otherwise a comma is left over and it is not JSON, so that Kubernetes
    refuses it. *)
Theorem patch_is_json kind m :
  (∀ k v, m !! k = Some v → clean_text k = true ∧ clean_text v = true) →
  parse_json (patch_text kind m) =
    (if bool_decide (m ≠ ∅ ∧ map_Forall (λ _ v, v ≠ "unconfined") m)
     then Some (patch_json kind (go_range m)) else None).
Proof.
  intros Hclean. unfold parse_json.
  destruct (patch_text_fuel kind m) as (f & -> & Hf). rewrite patch_text_shape.
  assert (Hc : forallb clean_entry (confined (go_range m)) = true).
  { apply forallb_forall. intros [k v] [_ Hkv]%list_elem_of_In%list_elem_of_filter.
    apply elem_of_go_range, Hclean in Hkv as [Hk Hv]. unfold clean_entry. cbn [fst snd]. by rewrite Hk, Hv. }
  destruct (read_heads (around kind) (S (S (S f)))
    (field_head "kubearmor-policy" +:+ q "enabled" +:+ "," +:+
     entries_text (confined (go_range m)) (negb (length (confined (go_range m)) =? size m)%nat)
     +:+ "}" +:+ braces (length (around kind)) "")) as [Hsome Hnone].
  { unfold around. by case_bool. }
  rewrite read_body in Hsome, Hnone. case_bool_decide as Hm.
  - destruct Hm as [Hne Hun]. revert Hsome Hf Hc.
    rewrite confined_all by exact Hun.
    assert ((length (go_range m) =? size m)%nat = true) as ->.
    { apply Nat.eqb_eq. by rewrite go_range_perm, length_map_to_list. }
    assert (go_range m ≠ []) as Hg.
    { intros Hg. apply Hne, map_to_list_empty_iff, Permutation_nil_r. by rewrite <- go_range_perm, Hg. }
    intros Hsome Hf Hc. rewrite read_entries in Hsome by done.
    by rewrite (Hsome _ _ eq_refl).
  - rewrite Hnone; [done|].
    destruct (length (confined (go_range m)) =? size m)%nat eqn:Hs; [|by rewrite read_trailing].
    destruct (confined (go_range m)) as [|kv l] eqn:Hl; [by rewrite (read_trailing [] (S f) _ eq_refl)|].
    exfalso. apply Hm. split.
    + intros ->. rewrite go_range_empty in Hl. done.
    + intros k v Hkv ->. apply confined_some in Hkv. rewrite Hl in Hkv. congruence.
Qed.
End text.

(** ** What is sent *)

Section sent.
Context `{R : GoRange} {W : Type} `{AC : !ApiClients W} (m : Machine) (K8sEnv : bool).
Context (namespaceName deploymentName : string).

(** The patches for a resource: their type and text *)
Definition plan (kind : string) (annotations : gmap string string) (replicas : Z)
    : list (PatchType * string) :=
  let spec := patch_text kind annotations in
  if ContainsElement ["StatefulSet"; "Deployment"; "CronJob"] kind
  then [(StrategicMergePatch, spec)]
  else if String.eqb kind "DaemonSet" then [(MergePatch, spec)]
  else if String.eqb kind "ReplicaSet"
  then [(MergePatch, spec); (StrategicMergePatch, replicas_text 0);
        (StrategicMergePatch, replicas_text replicas)]
  else [].

(** Patches one after another up to the first that is refused *)
Fixpoint send (kind : string) (ps : list (PatchType * string)) (w : W) : W * bool :=
  match ps with
  | [] => (w, true)
  | p :: ps =>
      let '(w, ok) := ac_Patch kind namespaceName deploymentName p.1 p.2 w in
      if ok then send kind ps w else (w, false)
  end.

Lemma send_one kind p w : send kind [p] w = ac_Patch kind namespaceName deploymentName p.1 p.2 w.
Proof. cbn. by destruct (ac_Patch _ _ _ _ _ _) as [w' []]. Qed.

(** In Kubernetes a resource gets the patches of its kind, one after another up to the
    first that is refused, and the result says whether all were taken.  Jobs, and whatever
    else is no deployment, replica set, stateful set, daemon set or cron job, get none, and
    yet count as patched. *)
Theorem patches_sent kind annotations replicas w :
  IsK8sEnv m K8sEnv = true →
  (kind = "ReplicaSet" → ac_Replicas namespaceName deploymentName w = Some (Some replicas)) →
  PatchResourceWithAppArmorAnnotations m K8sEnv namespaceName deploymentName annotations kind w =
    Ok (send kind (plan kind annotations replicas) w)
  ∧ (kind = "Job" → send kind (plan kind annotations replicas) w = (w, true)).
Proof.
  intros He Hr. split; [|by intros ->].
  unfold PatchResourceWithAppArmorAnnotations. rewrite He. cbn [negb].
  destruct (String.eqb_spec kind "StatefulSet") as [->|H1];
    [exact (f_equal Ok (eq_sym (send_one "StatefulSet" (StrategicMergePatch, patch_text "StatefulSet" annotations) w)))|].
  destruct (String.eqb_spec kind "ReplicaSet") as [->|H2].
  { rewrite (Hr eq_refl). cbn [String.eqb].
    change (plan _ _ _) with [(MergePatch, patch_text "ReplicaSet" annotations);
      (StrategicMergePatch, replicas_text 0); (StrategicMergePatch, replicas_text replicas)].
    cbn [send fst snd negb].
    destruct (ac_Patch _ _ _ _ (patch_text _ _) w) as [w1 []]; [|done]. cbn [negb].
    destruct (ac_Patch _ _ _ _ (replicas_text 0) w1) as [w2 []]; [|done]. cbn [negb].
    by destruct (ac_Patch _ _ _ _ _ w2) as [w3 []]. }
  destruct (String.eqb_spec kind "DaemonSet") as [->|H3];
    [exact (f_equal Ok (eq_sym (send_one "DaemonSet" (MergePatch, patch_text "DaemonSet" annotations) w)))|].
  destruct (String.eqb_spec kind "Deployment") as [->|H4];
    [exact (f_equal Ok (eq_sym (send_one "Deployment" (StrategicMergePatch, patch_text "Deployment" annotations) w)))|].
  destruct (String.eqb_spec kind "CronJob") as [->|H5];
    [exact (f_equal Ok (eq_sym (send_one "CronJob" (StrategicMergePatch, patch_text "CronJob" annotations) w)))|].
  unfold plan. destruct (ContainsElement _ kind) eqn:Hc.
  { apply ContainsElement_spec in Hc. set_solver. }
  by apply String.eqb_neq in H2, H3; rewrite H2, H3.
Qed.

(** The number of replicas, and what patches do to it *)
Class ScaleLaw (scale : W → Z) : Prop := {
  sl_zero : ∀ w w', ac_Patch "ReplicaSet" namespaceName deploymentName StrategicMergePatch
                      (replicas_text 0) w = (w', true) → scale w' = 0%Z;
  sl_refused : ∀ t s w w', ac_Patch "ReplicaSet" namespaceName deploymentName t s w = (w', false) →
    scale w' = scale w }.

(** A replica set is restarted by taking its replicas away and giving them back.  When
    the last request is refused nobody gives them back: the workload is down. *)
Theorem replicaset_left_down scale `{SL : !ScaleLaw scale} annotations replicas w w1 w2 w3 :
  IsK8sEnv m K8sEnv = true →
  ac_Replicas namespaceName deploymentName w = Some (Some replicas) →
  ac_Patch "ReplicaSet" namespaceName deploymentName MergePatch
    (patch_text "ReplicaSet" annotations) w = (w1, true) →
  ac_Patch "ReplicaSet" namespaceName deploymentName StrategicMergePatch (replicas_text 0) w1
    = (w2, true) →
  ac_Patch "ReplicaSet" namespaceName deploymentName StrategicMergePatch
    (replicas_text replicas) w2 = (w3, false) →
  PatchResourceWithAppArmorAnnotations m K8sEnv namespaceName deploymentName annotations
    "ReplicaSet" w = Ok (w3, false) ∧ scale w3 = 0%Z.
Proof.
  intros He Hr H1 H2 H3. split.
  - unfold PatchResourceWithAppArmorAnnotations. rewrite He.
    cbn [negb String.eqb]. change (String.eqb "ReplicaSet" "StatefulSet") with false.
    change (String.eqb "ReplicaSet" "ReplicaSet") with true. cbn iota.
    rewrite Hr, H1. cbn [negb]. rewrite H2. cbn [negb]. by rewrite H3.
  - rewrite (sl_refused _ _ _ _ H3). by apply (sl_zero w1).
Qed.
End sent.

(** ** Witnesses *)

(** A machine of a cluster, on which a name and a kind are known *)
Definition cluster_machine : Machine :=
  {| m_env := {[ "KUBERNETES_SERVICE_HOST" := "10.0.0.1" ]}; m_exists := λ _, false;
     m_ReadFile := λ _, None; m_command := λ _ _, ""; m_interfaces := None |}.

(** Replicas, and how many patches are taken *)
Definition scale_api : ApiClients (Z * nat) := {|
  ac_Patch := λ _ _ _ _ s w,
    match w.2 with
    | O => (w, false)
    | S n => ((if String.eqb s (replicas_text 0) then 0%Z else w.1, n), true)
    end;
  ac_Replicas := λ _ _ w, Some (Some w.1) |}.

Lemma scale_api_law : @ScaleLaw _ scale_api "shop" "cache" fst.
Proof.
  split.
  - intros [z [|n]] w' H; cbn in H; [discriminate|]. by injection H as <-.
  - intros t s [z [|n]] w' H; cbn in H; [by injection H as <-|discriminate].
Defined.

Lemma patch_is_json_witness :
  parse_json (@patch_text canonical_range "Deployment"
                (list_to_map [("app", "kubearmor-shop-web-app"); ("proxy", "unconfined")])) = None
  ∧ is_Some (parse_json (@patch_text canonical_range "Deployment"
                           {[ "app" := "kubearmor-shop-web-app" ]})).
Proof.
  split.
  - rewrite (@patch_is_json canonical_range canonical_range_law "Deployment"); [reflexivity|].
    intros k v H%elem_of_map_to_list%list_elem_of_In. vm_compute in H.
    destruct H as [[= <- <-]|[[= <- <-]|[]]]; split; reflexivity.
  - rewrite (@patch_is_json canonical_range canonical_range_law "Deployment"); [by eexists|].
    intros k v [<- <-]%lookup_singleton_Some. split; reflexivity.
Defined.

Lemma patches_sent_witness :
  ∃ w, @PatchResourceWithAppArmorAnnotations canonical_range _ scale_api cluster_machine true
         "shop" "batch" {[ "app" := "profile" ]} "Job" (2%Z, 1) = Ok (w, true) ∧ w = (2%Z, 1).
Proof.
  destruct (@patches_sent canonical_range _ scale_api cluster_machine true "shop" "batch" "Job"
              {[ "app" := "profile" ]} 0 (2%Z, 1) eq_refl) as [H H'].
  - intros H. discriminate H.
  - rewrite H, H' by reflexivity. by eexists.
Defined.

Lemma replicaset_left_down_witness :
  ∃ w, @PatchResourceWithAppArmorAnnotations canonical_range _ scale_api cluster_machine true
         "shop" "cache" {[ "app" := "profile" ]} "ReplicaSet" (2%Z, 2) = Ok (w, false)
       ∧ w.1 = 0%Z.
Proof.
  exists (0%Z, 0).
  apply (@replicaset_left_down canonical_range _ scale_api cluster_machine true "shop" "cache"
           fst scale_api_law {[ "app" := "profile" ]} 2 (2%Z, 2) (2%Z, 1) (0%Z, 0));
    vm_compute; reflexivity.
Defined.
