(* ===== verification/ProbeData.v ===== *)
(** What the daemon tells [karmor probe] ([KubeArmor/core/karmorprobedata.go]): a file with
    the state of the host's protection, and an answer with the policies in force; and what
    they say. *)
From Stdlib Require Import Ascii String.
From S2P Require Import Prelude GoStrings Types Common BpfEnforcer NsMap PolicySpec Daemon Pods Posture Config.

Open Scope string_scope.

Record KarmorData := {
  kd_OSImage : string; kd_KernelVersion : string; kd_KubeletVersion : string;
  kd_ContainerRuntime : string; kd_ActiveLSM : string; kd_KernelHeaderPresent : bool;
  kd_HostSecurity : bool; kd_ContainerSecurity : bool;
  kd_ContainerDefaultPosture : DefaultPosture; kd_HostDefaultPosture : DefaultPosture;
  kd_HostVisibility : string }.

(** The record that is written to [/tmp/karmorProbeData.cfg]; [enforcer] is the type of the
    runtime enforcer, if there is one *)
Definition SetKarmorData (gc : KubearmorConfig) (node : Node) (enforcer : option string)
    : KarmorData :=
  {| kd_OSImage := node_OSImage node; kd_KernelVersion := node_KernelVersion node;
     kd_KubeletVersion := node_KubeletVersion node;
     kd_ContainerRuntime := node_ContainerRuntimeVersion node;
     kd_ActiveLSM := default "" enforcer; kd_KernelHeaderPresent := true;
     kd_HostSecurity := is_some enforcer && kc_HostPolicy gc;
     kd_ContainerSecurity := is_some enforcer && kc_Policy gc;
     kd_ContainerDefaultPosture := posture_of gc;
     kd_HostDefaultPosture :=
       {| dp_FileAction := kc_HostDefaultFilePosture gc;
          dp_NetworkAction := kc_HostDefaultNetworkPosture gc;
          dp_CapabilitiesAction := kc_HostDefaultCapabilitiesPosture gc |};
     kd_HostVisibility := field "kubearmor-visibility" (node_Annotations node) |}.

Record ContainerData := {
  cd_PolicyList : list string; cd_PolicyEnabled : Z; cd_PolicyDataList : list string }.
Record HostPolicies := { hs_PolicyList : list string; hs_PolicyDataList : list string }.

Section probe.
Context `{R : GoRange} {W : Type}.
(** JSON of policies; [None] is an error *)
Context (MarshalPolicy : SecurityPolicy → option string).
Context (MarshalHostPolicy : HostSecurityPolicy → option string).

(** The policies of an endpoint; those without an encoding are named only. *)
Definition container_data (ep : EndPoint) : ContainerData :=
  {| cd_PolicyList := meta "policyName" <$> ep_SecurityPolicies ep;
     cd_PolicyEnabled := (ep_PolicyEnabled ep + 2 ^ 31) mod 2 ^ 32 - 2 ^ 31;
     cd_PolicyDataList := omap MarshalPolicy (ep_SecurityPolicies ep) |}.

Definition container_step (m : gmap string ContainerData) (ep : EndPoint)
    : gmap string ContainerData := <[ep_EndPointName ep := container_data ep]> m.

(** A host policy; the first is put in with what [Marshal] gave, be it nothing. *)
Definition host_step (hostName : string) (m : gmap string HostPolicies) (hp : HostSecurityPolicy)
    : gmap string HostPolicies :=
  match m !! hostName with
  | Some val =>
      <[hostName := {| hs_PolicyList := hs_PolicyList val ++ [host_name hp];
                       hs_PolicyDataList := hs_PolicyDataList val
                         ++ match MarshalHostPolicy hp with Some d => [d] | None => [] end |}]> m
  | None =>
      <[hostName := {| hs_PolicyList := [host_name hp];
                       hs_PolicyDataList := [default "" (MarshalHostPolicy hp)] |}]> m
  end.

Definition SetProbeContainerData (dm : Daemon W)
    : list string * gmap string ContainerData * gmap string HostPolicies :=
  ((λ kv : string * Container, c_ContainerName kv.2) <$> go_range (dm_Containers dm),
   foldl container_step ∅ (dm_EndPoints dm),
   foldl (host_step (node_NodeName (dm_Node dm))) ∅ (dm_HostSecurityPolicies dm)).

(** [GetProbeData] of the service answers with these three. *)
Record ProbeResponse := {
  pr_ContainerList : list string; pr_ContainerMap : gmap string ContainerData;
  pr_HostMap : gmap string HostPolicies }.
Definition GetProbeData (dm : Daemon W) : ProbeResponse :=
  let '(l, cs, hs) := SetProbeContainerData dm in
  {| pr_ContainerList := l; pr_ContainerMap := cs; pr_HostMap := hs |}.
End probe.

(** ** What the answers say *)

Section probe.
Context `{R : GoRange, !GoRangeLaw R} {W : Type}.
Context (MarshalPolicy : SecurityPolicy → option string).
Context (MarshalHostPolicy : HostSecurityPolicy → option string).

(** The endpoints of a name *)
Definition named (name : string) (l : list EndPoint) : list EndPoint :=
  filter (λ ep, ep_EndPointName ep = name) l.

Lemma container_steps l m name :
  foldl (container_step MarshalPolicy) m l !! name =
    match list.last (named name l) with
    | Some ep => Some (container_data MarshalPolicy ep)
    | None => m !! name
    end.
Proof.
  revert m. induction l as [|ep l IH] using rev_ind; intros m; [done|].
  rewrite foldl_app. unfold named. rewrite list.filter_app, list.filter_cons, list.filter_nil.
  fold (named name l). cbn [foldl]. unfold container_step at 1. case_decide as Hn.
  - by rewrite Hn, lookup_insert_eq, last_snoc.
  - rewrite lookup_insert_ne, app_nil_r by done. apply IH.
Qed.

Lemma host_steps host l val :
  foldl (host_step MarshalHostPolicy host) {[ host := val ]} l =
    {[ host := {| hs_PolicyList := hs_PolicyList val ++ (host_name <$> l);
                  hs_PolicyDataList := hs_PolicyDataList val ++ omap MarshalHostPolicy l |} ]}.
Proof.
  revert val. induction l as [|hp l IH]; intros val; cbn [foldl].
  { cbn. rewrite !app_nil_r. by destruct val. }
  unfold host_step at 2. rewrite lookup_singleton_eq, insert_singleton_eq, IH. cbn.
  rewrite <- !app_assoc. by destruct (MarshalHostPolicy hp).
Qed.

(** An endpoint is shown under its name, which is the pod's: of the containers of a pod, and
    of the pods of one name, the last one counts.  Host policies are all there, under the
    node's name. *)
Theorem probe_answer (dm : Daemon W) :
  let r := GetProbeData MarshalPolicy MarshalHostPolicy dm in
  pr_ContainerList r ≡ₚ (λ kv : string * Container, c_ContainerName kv.2)
                          <$> map_to_list (dm_Containers dm)
  ∧ (∀ name, pr_ContainerMap r !! name =
       container_data MarshalPolicy <$> list.last (named name (dm_EndPoints dm)))
  ∧ ((∀ hp, hp ∈ dm_HostSecurityPolicies dm → is_Some (MarshalHostPolicy hp)) →
     pr_HostMap r =
       match dm_HostSecurityPolicies dm with
       | [] => ∅
       | l => {[ node_NodeName (dm_Node dm) :=
                   {| hs_PolicyList := host_name <$> l;
                      hs_PolicyDataList := omap MarshalHostPolicy l |} ]}
       end).
Proof.
  cbn. split; [by rewrite go_range_perm|]. split.
  - intros name. rewrite container_steps, lookup_empty. by destruct (list.last _).
  - intros Hall. destruct (dm_HostSecurityPolicies dm) as [|hp l]; [done|]. cbn [foldl].
    unfold host_step at 2. rewrite lookup_empty, insert_empty, host_steps. cbn.
    destruct (Hall hp) as [d ->]; [left|]. done.
Qed.

(** The file reports protection exactly where policies are enabled and an enforcer runs. *)
Lemma reported_protection gc node enforcer :
  kd_ContainerSecurity (SetKarmorData gc node enforcer) = true ↔
    is_Some enforcer ∧ kc_Policy gc = true.
Proof.
  cbn. rewrite andb_true_iff. destruct enforcer; split; intros [H ?]; try done.
Qed.
End probe.

Lemma probe_answer_witness :
  pr_HostMap (@GetProbeData canonical_range unit (λ _, Some "") (λ _, Some "{}")
    {| dm_Node := zero_Node; dm_K8sPods := []; dm_Containers := ∅; dm_EndPoints := [];
       dm_OwnerInfo := ∅; dm_SecurityPolicies := []; dm_HostSecurityPolicies := [];
       dm_DefaultPostures := ∅;
       dm_GlobalPosture := {| dp_FileAction := "audit"; dp_NetworkAction := "audit";
                              dp_CapabilitiesAction := "audit" |}; dm_w := tt |}) = ∅.
Proof.
  rewrite (proj2 (proj2 (@probe_answer canonical_range canonical_range_law unit (λ _, Some "")
    (λ _, Some "{}") _))); [reflexivity|]. intros hp _. by eexists.
Defined.
